(* ===== verification/_CoqProject ===== *)
-Q . S2P
Prelude.v
Scan.v
HttpRequestLine.v
HttpHeader.v
HttpStatus.v
ComplexUri.v
Number.v
StringOps.v
Escape.v
Utf8.v
Printf.v
Times.v
HttpDate.v
Base64.v
Sort.v
RoundRobin.v
Range.v
RangeParse.v
RangeBody.v
RangeResponse.v
Chunked.v
ChunkedRoundtrip.v
Conf.v
ConfRead.v
ConfParse.v
ConfSlots.v
Location.v
LocationOrder.v
LocationTree.v
LocationQueue.v
LocationSearch.v
Inet.v
InetProof.v
Url.v
UrlProof.v
Resolver.v
ResolverProof.v
Memory.v
Radix.v
RadixProof.v
Rbtree.v
RbtreeRep.v
RbtreeInsert.v
RbtreeDelete.v
Timer.v
MailParse.v
MailImap.v
Checksum.v
Md5.v
LimitReq.v
LimitReqZone.v
LimitReqProof.v
LimitConn.v
LimitConnProof.v
Pool.v
Hash.v
HashProof.v
Wildcard.v
WildcardProof.v
ServerNames.v
ServerArrays.v
ServerNamesProof.v
Palloc.v
PallocProof.v
UriArgs.v
UriArgsProof.v
