(* ===== verification/Prelude.v ===== *)
(** * A verification library for the nginx 1.2.0 sources of this repository

    The program is the C code under
    src/sunshine-service-blog/blog/基础组件/nginx/nginx-1.2.0/src/ ("src/"
    below), built as its objs/ngx_auto_config.h would be on a 64-bit Unix
    (LP64, little endian, no threads, no debugging) with file names in which case
    matters, as on Linux; the objs/ in the repository were configured on a
    system with a caseless file system, where the comparisons of locations would
    ignore case.  The library models the
    parts of it that compute: parsers, text and number conversions, the
    configuration file, the locations of a server, data structures, timers, load
    balancing, the byte-range filter and the chunked transfer of responses.

    ** How the code is modelled

    Integers are [Z] with the wrap-around of their width written out ([u8] ...
    [s64] below); bytes are integers of [0, 256).  A C pointer into a buffer is
    an offset, a [u_char *] that only moves forward is the list of the bytes
    from there on, and [None] (or a constructor of its own) is what C leaves
    undefined: a read past the end of what the caller owns, a missing variadic
    argument.  A function that keeps its place in a state machine is a [step]
    function on a state record; Scan.v iterates it over a buffer that arrives
    in pieces.  Functions that mutate shared nodes (Rbtree.v, Timer.v) run in a
    state and error monad over a memory of nodes.  The allocator, the handlers
    of events, the next filter of a chain and [va_arg] are parameters.

    ** Files, and what their theorems show

    - Prelude.v: literals, machine integers, bytes, slices, pointers, record
      update, the tactics shared by all files.
    - Scan.v: iteration of a step function over a buffer; a scan of a buffer
      that arrives in two pieces is the scan of the whole.
    - HttpRequestLine.v, HttpHeader.v, HttpStatus.v (http/ngx_http_parse.c):
      [ngx_http_parse_request_line], [..._header_line] and [..._status_line].
      Pointers set on success lie in order inside the consumed bytes; parsing
      in pieces is parsing at once; well-formed lines are accepted with
      exactly their parts.  The invariant of the request line covers all its
      pointers ([line_inv], [line_parsed]).
    - ComplexUri.v (http/ngx_http_parse.c): [ngx_http_parse_complex_uri]
      terminates (fuel: two turns per byte and one more,
      [complex_uri_total]), refines decoding followed by resolution of
      segments with a stack, and leaves no dot segment that a slash ends (a
      final one may stay, [complex_uri_keeps_final_dots]).
    - Number.v (core/ngx_string.c, core/ngx_parse.c): [ngx_atoi],
      [ngx_atofp], [ngx_hextoi], [ngx_hex_dump], [ngx_parse_size],
      [ngx_parse_time] (fuel: the length, [parse_time_fuel]) compute the
      values the texts denote, or [NGX_ERROR].
    - StringOps.v (core/ngx_string.c): copies, comparisons and searches; the
      four searches find the first occurrence.
    - Escape.v (core/ngx_string.c): [ngx_escape_uri], [ngx_unescape_uri],
      [ngx_escape_html]; escaping is undone by decoding.
    - Utf8.v (core/ngx_string.c): decoding, length and copying of UTF-8 texts.
    - Printf.v (core/ngx_string.c): [ngx_vslprintf] with all its conversions;
      it never writes past [last], and what it prints of numbers is read back
      by Number.v (fuel: the length of the format; 20 digits for 64 bits).
    - Times.v (core/ngx_times.c), HttpDate.v (http/ngx_http_parse_time.c):
      [ngx_gmtime] computes the Gregorian calendar; dates printed are read
      back; no read leaves the value.
    - Base64.v, Sort.v (core/ngx_string.c): round trip of base64; [ngx_sort]
      is a stable insertion sort.
    - RoundRobin.v (http/ngx_http_upstream_round_robin.c): configuration,
      choice and return of peers with weights, failures and backup levels;
      invariant over all interleavings of requests, as long as the number of
      backup servers is not a multiple of 64 ([bitmap_overflow]), when a request
      is served and when refused, fairness.
    - Range.v (http/modules/ngx_http_range_filter_module.c) with RangeParse.v,
      RangeBody.v, RangeResponse.v: the parser of byte ranges, the headers of
      the response and the body filter; exactly the bytes that were asked for
      are sent, and their number is announced.
    - Chunked.v (http/modules/ngx_http_proxy_module.c,
      http/modules/ngx_http_chunked_filter_module.c): the parser of chunked
      responses, the filters that take out the data, the filter that sends in
      chunks; ChunkedRoundtrip.v: what is sent is received however it is cut
      into buffers (fuel: the bytes of the buffer and one), and how many bytes
      are waited for.
    - Conf.v (core/ngx_conf_file.c): the reader of tokens with its buffer, the
      parser of files and blocks, the look-up of directives; ConfRead.v,
      ConfParse.v: parsing a file through the buffer ends (fuel: the length of
      the text and two) and is parsing its text, and a configuration that is
      written is read back; ConfSlots.v: which directive is called, and the
      functions that set fields.
    - Location.v (http/ngx_http.c, http/ngx_http_core_module.c): the locations
      of a server, sorted, joined, nested and made a tree, and the search for
      the location of a request.  LocationOrder.v (the order of names, and C's
      comparisons), LocationTree.v (the search in the tree is the search in the
      list), LocationQueue.v (sorting, joining, nesting), LocationSearch.v: a
      request gets the location that the configuration promises, if no name
      continues it with a byte below the slash, with the cases where it does not
      ([location_redirect_lost], [location_name_cut], [nested_regex_first]).  Fuel: the number of locations for the tree, the
      depth of the nesting for the search.
    - Inet.v (core/ngx_inet.c): IPv4 and IPv6 addresses from and to texts,
      networks; the functions for IPv6 are those of a build with
      NGX_HAVE_INET6.  InetProof.v: addresses are read back as they are printed,
      and no text makes the parser write outside of the address.
    - Url.v (core/ngx_inet.c): [ngx_parse_url], hosts with ports and URIs, on
      the parameter [gethostbyname]; UrlProof.v: an address whose host is not in
      brackets is taken apart into the parts it was made of, and an IPv4 address
      is resolved to itself; examples for IPv6.
    - Resolver.v (core/ngx_resolver.c): the DNS messages of the resolver, from
      the query for a name or an address to what is decided about a response;
      the allocator, the CRC and the queries that wait are parameters.
      ResolverProof.v: a response to a query is taken apart into its addresses
      or its name ([resolver_answered], [resolver_ptr_answered]); names are
      copied, with reads within the array if the datagram does not fill it (fuel:
      128, the bound of the code), with one byte too many after a dangling pointer
      ([resolver_copy_overflow]).
    - Memory.v: the monad of code on linked nodes.
    - Radix.v (core/ngx_radix_tree.c, .h): the tree of IPv4 prefixes with its
      free list and pages; RadixProof.v: it is a finite map from prefixes to
      values whose search gives the longest prefix (fuel: 33 turns, one more
      than an address has bits), unless the empty prefix is deleted alone.
    - Rbtree.v (core/ngx_rbtree.c, .h) with RbtreeRep.v (trees in memory),
      RbtreeInsert.v and RbtreeDelete.v: insertion and deletion on the pointer
      structure refine those of an ordered list and keep a red-black tree of
      logarithmic depth; the class [InsertsBy] is the interface of
      [tree->insert], with the order of the nodes as a parameter ([Inserts] for
      an order of the keys alone).  The loops' fuel is the size of the memory and one more,
      which is proved to be enough.
    - Timer.v (event/ngx_event_timer.c, .h) on top of them: the tree holds
      exactly the pending timers in the order of their expiry, although keys
      wrap around; [ngx_event_expire_timers] ends (fuel: the due timers and
      one more).
    - LimitReq.v (http/modules/ngx_http_limit_req_module.c): the zones of
      limit_req in shared memory, the look-up, the handler and the directives;
      the class [SlabPool] is what it needs of the allocator.  LimitReqZone.v:
      the tree, the queue and the memory of a zone hold a list of clients (fuel:
      the size of the memory and one, and the three turns of the loop that
      forgets), ordered by checksum and, within one, by key; LimitReqProof.v:
      refinement, processes that share a zone, the handler, the rate of one
      client.  Keys have at most 255 bytes (the class [Keys]); where a new client
      comes to a zone, no other client of one checksum may be there ([apart], the
      class [DistinctKeys]): the module puts a node into the tree before it copies
      its key, see [limit_req_collision].
    - LimitConn.v (http/modules/ngx_http_limit_conn_module.c): the zones of
      limit_conn, the handler, the cleanups of a request and the directives.
      LimitConnProof.v: a zone is simulated by one of request limiting without
      its queue; it refines a finite map, whatever the checksums of the keys, and
      the connections counted are those of the requests that there are and of
      those whose cleanup could not be added.
    - Checksum.v (core/ngx_crc32.h, ngx_crc32.c, ngx_crc.h,
      ngx_murmurhash.c): the table-driven CRC-32s are the division by the
      polynomial.  Md5.v (core/ngx_md5.c): the digest of a text in pieces is
      that of RFC 1321.
    - Palloc.v (core/ngx_palloc.c, .h): pools on the allocator of the C library,
      the class [Heap]; PallocProof.v: what a pool gives is new memory (the
      recursion for large allocations needs a fuel of two), and all of it is
      freed once, if no cleanup of a pool that was reset has been given again
      ([reset_loses_cleanup]).  Pool.v: the interface of a pool, a class with these pools as
      an instance, [PallocProof.pool_of_heap].  Hash.v (core/ngx_hash.c, .h):
      hash tables, their elements as objects in memory; HashProof.v: a table
      that was built answers as the list of its keys (fuel of the search: the
      elements in memory and one).
    - Wildcard.v (core/ngx_hash.c): names with wildcards, the tree of tables
      for their labels and the searches in it (fuel: the bytes of the name and
      one).  WildcardProof.v: the tree that is built of sorted names gives the
      longest wildcard.
    - ServerNames.v (http/ngx_http.c, ngx_http_request.c,
      ngx_http_core_module.c): the server names of an address and the server of
      a request; ServerArrays.v, ServerNamesProof.v: a request gets the server
      that its host is meant for.
    - UriArgs.v (http/ngx_http_parse.c): the check of a rewritten URI, the
      split at the question mark, the look-up of an argument and of a cookie
      (fuel: the bytes of the text and one); UriArgsProof.v: which URIs are
      refused, and that arguments and cookies written into a text are found
      there.
    - MailParse.v, MailImap.v (mail/ngx_mail_parse.c): POP3, SMTP and IMAP
      commands.

    The theorems named in the manifest are numbered C1, C2, ... in their
    comments.  Every theorem with hypotheses has a witness: the same name with
    [_witness], an instance at a concrete input.

    ** Not modelled

    Code that only calls the operating system or other libraries (sockets,
    files, processes, event modules, OpenSSL, PCRE, zlib, Perl); the
    event-driven glue around the parsers (requests, phases, upstream
    connections, cache, mail handlers); the directives of the modules; debugging
    output.  Allocation failure is modelled where a
    function goes on after it or returns an error that its callers see
    (Range.v, RoundRobin.v); [ngx_sort], which leaves the array unsorted when
    it cannot allocate one element, is modelled with the allocation
    succeeding. *)

From Stdlib Require Export ZArith Lia Bool.
From Stdlib Require Strings.Byte.
From stdpp Require Export base list numbers option.

#[export] Set Default Goal Selector "!".

(** ** Literals

    A C character constant is its code, so ["G"%ch] is the integer 71; a C
    string literal is the list of its codes, [bs "GET"]. *)

Definition chr_parse (l : list Byte.byte) : option Z :=
  match l with [b] => Some (Z.of_N (Byte.to_N b)) | _ => None end.
Definition chr_print (_ : Z) : option (list Byte.byte) := None.
Declare Scope chr_scope.
Delimit Scope chr_scope with ch.
String Notation Z chr_parse chr_print : chr_scope.

Inductive bstr : Set := BStr (l : list Z).
Definition bstr_parse (l : list Byte.byte) : bstr :=
  BStr ((λ b, Z.of_N (Byte.to_N b)) <$> l).
Definition bstr_print (_ : bstr) : option (list Byte.byte) := None.
Declare Scope bstr_scope.
Delimit Scope bstr_scope with bstr.
String Notation bstr bstr_parse bstr_print : bstr_scope.
Definition bs (b : bstr) : list Z := let 'BStr l := b in l.
Arguments bs b%_bstr.

Open Scope Z_scope.

(** CR and LF of src/core/ngx_core.h; [NUL] is C's ['\0']; the double quote
    character has no literal of its own. *)
Abbreviation CR := 13.
Abbreviation LF := 10.
Abbreviation NUL := 0.
Abbreviation DQUOTE := 34.

(** ** Return codes (src/core/ngx_core.h, src/http/ngx_http_request.h) *)

Abbreviation NGX_OK := 0.
Abbreviation NGX_ERROR := (-1).
Abbreviation NGX_AGAIN := (-2).
Abbreviation NGX_DECLINED := (-5).

(** ** Machine integers

    The build recorded in objs/ngx_auto_config.h is LP64: [ngx_int_t],
    [ssize_t], [off_t] and [time_t] have 64 bits.  Unsigned arithmetic wraps
    modulo a power of two; signed overflow is modelled as the two's complement
    wrap-around of the compilers nginx is built with. *)

Definition u8 (x : Z) : Z := x mod 256.
Definition u16 (x : Z) : Z := x mod 65536.
Definition u32 (x : Z) : Z := x mod 4294967296.
Definition s32 (x : Z) : Z := (x + 2147483648) mod 4294967296 - 2147483648.
Definition u64 (x : Z) : Z := x mod 18446744073709551616.
Definition s64 (x : Z) : Z :=
  (x + 9223372036854775808) mod 18446744073709551616 - 9223372036854775808.

Abbreviation MAX_INT64 := 9223372036854775807.
Abbreviation MAX_UINT64 := 18446744073709551615.
Abbreviation NGX_MAX_UINT32_VALUE := 4294967295.
Abbreviation NGX_MAX_INT32_VALUE := 2147483647.

(** [zify_mod] lets [lia] see division and remainder by literals. *)
Ltac zdiv := Z.to_euclidean_division_equations.
Ltac zlia := zdiv; lia.

Lemma u8_id x : 0 ≤ x < 256 → u8 x = x.
Proof. intros. by apply Z.mod_small. Qed.
Lemma u16_id x : 0 ≤ x < 65536 → u16 x = x.
Proof. intros. by apply Z.mod_small. Qed.
Lemma u32_id x : 0 ≤ x < 4294967296 → u32 x = x.
Proof. intros. by apply Z.mod_small. Qed.
Lemma u64_id x : 0 ≤ x < 18446744073709551616 → u64 x = x.
Proof. intros. by apply Z.mod_small. Qed.
Lemma s64_id x : -9223372036854775808 ≤ x ≤ MAX_INT64 → s64 x = x.
Proof. intros. unfold s64. zlia. Qed.
Lemma s32_id x : -2147483648 ≤ x ≤ 2147483647 → s32 x = x.
Proof. intros. unfold s32. zlia. Qed.
Lemma u8_range x : 0 ≤ u8 x < 256.
Proof. by apply Z.mod_pos_bound. Qed.
Lemma u16_range x : 0 ≤ u16 x < 65536.
Proof. by apply Z.mod_pos_bound. Qed.
Lemma u64_range x : 0 ≤ u64 x < 18446744073709551616.
Proof. by apply Z.mod_pos_bound. Qed.
Lemma s64_range x : -9223372036854775808 ≤ s64 x ≤ MAX_INT64.
Proof. unfold s64. zlia. Qed.

Create Rewrite HintDb wrap.
#[export] Hint Rewrite u8_id u16_id u32_id u64_id s64_id using lia : wrap.

(** ** Bytes

    A [u_char] is an integer of [0, 256). *)

Definition is_byte (c : Z) : Prop := 0 ≤ c < 256.
Abbreviation bytes := (Forall is_byte).

#[export] Instance is_byte_dec c : Decision (is_byte c).
Proof. unfold is_byte. apply _. Defined.

Definition all_bytes : list Z := seqZ 0 256.

(** A boolean property of a byte is settled by evaluating it on all 256. *)
Lemma byte_forall (P : Z → bool) :
  forallb P all_bytes = true → ∀ c, is_byte c → P c = true.
Proof.
  intros HP c Hc. rewrite forallb_forall in HP. apply HP.
  apply list_elem_of_In, elem_of_seqZ. unfold is_byte in Hc. lia.
Qed.

(** [by_bytes c] proves a goal that is a boolean equation about the byte [c]
    (with [Hc : is_byte c] in the context) by evaluation. *)
Ltac by_bytes c :=
  match goal with
  | Hc : is_byte c |- _ =>
      revert c Hc;
      match goal with
      | |- ∀ c, is_byte c → @?P c = true => apply (byte_forall P); vm_compute; reflexivity
      end
  end.

Lemma bytes_bs (b : bstr) : forallb (λ c, bool_decide (is_byte c)) (bs b) = true → bytes (bs b).
Proof.
  rewrite forallb_forall. intros H. apply Forall_forall. intros c Hc.
  by apply (bool_decide_eq_true (is_byte c)), H.
Qed.

(** [ngx_tolower] of src/core/ngx_string.h, and its test for upper case. *)
Definition is_upper (c : Z) : bool := ("A"%ch <=? c) && (c <=? "Z"%ch).
Definition is_digit (c : Z) : bool := ("0"%ch <=? c) && (c <=? "9"%ch).
Arguments is_upper : simpl never.
Arguments is_digit : simpl never.
Definition ngx_tolower (c : Z) : Z := if is_upper c then Z.lor c 32 else c.

(** ** Slices of a buffer by C pointers (offsets) *)

Definition at_ (l : list Z) (p : Z) : option Z :=
  if p <? 0 then None else l !! Z.to_nat p.

Definition slice (l : list Z) (p n : Z) : list Z :=
  take (Z.to_nat n) (drop (Z.to_nat p) l).

Lemma slice_app_l l k p n :
  0 ≤ p → 0 ≤ n → p + n ≤ Z.of_nat (length l) → slice (l ++ k) p n = slice l p n.
Proof.
  intros. unfold slice. rewrite drop_app_le by lia.
  rewrite take_app_le; [done|]. rewrite length_drop. lia.
Qed.

Lemma at_app_l l k p : p < Z.of_nat (length l) → at_ (l ++ k) p = at_ l p.
Proof.
  intros. unfold at_. case_match; [done|].
  apply lookup_app_l. lia.
Qed.

Lemma at_Some_lt l p c : at_ l p = Some c → 0 ≤ p < Z.of_nat (length l).
Proof.
  unfold at_. destruct (Z.ltb_spec p 0); [done|].
  intros Hl%lookup_lt_Some. lia.
Qed.

Lemma slice_snoc l p n c :
  0 ≤ p → 0 ≤ n → at_ l (p + n) = Some c → slice l p (n + 1) = slice l p n ++ [c].
Proof.
  intros Hp Hn Hat. unfold slice.
  replace (Z.to_nat (n + 1)) with (S (Z.to_nat n)) by lia.
  apply take_S_r. rewrite lookup_drop. unfold at_ in Hat.
  destruct (p + n <? 0); [done|]. by rewrite <- Hat, Z2Nat.inj_add by lia.
Qed.

(** ** Record update

    [r <| f := v |>] is C's assignment [r->f = v]. *)

Class Eta (R : Type) := eta : R → R.
Class Setter {R T} (proj : R → T) := set_field : (T → T) → R → R.
Arguments set_field {R T} proj {_} _ _ : assert.

Ltac setter_of R proj :=
  let e := constr:(_ : Eta R) in
  let e := eval hnf in e in
  match eval pattern proj in e with
  | ?f _ =>
      let s := constr:(λ g, f (λ r : R, g (proj r))) in
      let s := eval cbv beta in s in exact s
  end.
#[export] Hint Extern 1 (@Setter ?R _ ?proj) => (setter_of R proj) : typeclass_instances.

Notation "r <| f := v |>" := (set_field f (λ _, v) r)
  (at level 1, left associativity, f at next level, v at level 200).

(** ** Case analysis shared by the proofs about branching code *)

(** Split every [match] and [if] of the goal, turning boolean comparisons into
    propositions. *)
Ltac cases := repeat case_match.

(** Split the conditionals of the goal, from the outside in. *)
Ltac split_ifs :=
  repeat match goal with
  | |- context [if ?b then _ else _] => let E := fresh "E" in destruct b eqn:E
  end.

Ltac bool_to_prop :=
  repeat match goal with
  | H : _ && _ = true |- _ => apply andb_true_iff in H as [? ?]
  | H : _ || _ = false |- _ => apply orb_false_iff in H as [? ?]
  | H : negb _ = true |- _ => apply negb_true_iff in H
  | H : negb _ = false |- _ => apply negb_false_iff in H
  | H : (_ =? _) = true |- _ => apply Z.eqb_eq in H
  | H : (_ =? _) = false |- _ => apply Z.eqb_neq in H
  | H : (_ <? _) = true |- _ => apply Z.ltb_lt in H
  | H : (_ <? _) = false |- _ => apply Z.ltb_ge in H
  | H : (_ <=? _) = true |- _ => apply Z.leb_le in H
  | H : (_ <=? _) = false |- _ => apply Z.leb_gt in H
  end.

(** Bits put below a shifted number are added to it. *)
Lemma lor_shiftl x k y : 0 ≤ k → 0 ≤ y < 2 ^ k → Z.lor (Z.shiftl x k) y = x * 2 ^ k + y.
Proof.
  intros Hk Hy. rewrite <- Z.shiftl_mul_pow2 by done.
  pose proof (Z.add_lor_land (Z.shiftl x k) y) as Hadd.
  enough (Z.land (Z.shiftl x k) y = 0) by lia. clear Hadd.
  apply Z.bits_inj'. intros n Hn. rewrite Z.land_spec, Z.bits_0, Z.shiftl_spec by done.
  destruct (Z.ltb_spec n k); [by rewrite Z.testbit_neg_r by lia|].
  assert (Z.testbit y n = false) as ->; [|by rewrite andb_false_r].
  destruct (Z.eq_dec y 0) as [->|]; [by rewrite Z.bits_0|].
  apply Z.bits_above_log2; [lia|]. apply Z.log2_lt_pow2; [lia|].
  pose proof (Z.pow_le_mono_r 2 k n). lia.
Qed.

(** A 256-bit table of eight [uint32_t] words indexed by a byte:
    [tbl[ch >> 5] & (1 << (ch & 0x1f))]. *)
Definition bitmap_test (tbl : list Z) (ch : Z) : bool :=
  negb (Z.land (nth (Z.to_nat (Z.shiftr ch 5)) tbl 0)
               (Z.shiftl 1 (Z.land ch 31)) =? 0).
Arguments bitmap_test : simpl never.

(** The number written by a list of decimal digits, on top of [v]. *)
Definition dec_from (v : Z) (ds : list Z) : Z :=
  fold_left (λ v c, v * 10 + (c - "0"%ch)) ds v.
Abbreviation dec := (dec_from 0).

Lemma dec_from_app v ds es : dec_from v (ds ++ es) = dec_from (dec_from v ds) es.
Proof. apply fold_left_app. Qed.

Lemma is_digit_range c : is_digit c ↔ 48 ≤ c ≤ 57.
Proof. unfold is_digit. rewrite Is_true_true, andb_true_iff. lia. Qed.

Lemma dec_from_nonneg ds : ∀ v, 0 ≤ v → Forall is_digit ds → 0 ≤ dec_from v ds.
Proof.
  induction ds as [|c ds IH]; intros v Hv Hds; [done|].
  inversion_clear Hds as [|?? Hc Hds']. cbn. apply IH; [|done].
  apply is_digit_range in Hc. lia.
Qed.

(** ** Pointers

    A pointer into a buffer is an offset, [None] is [NULL].  [deref] follows
    it; the invariants of the parsers show it is never [NULL] where the code
    does. *)
Definition deref (p : option Z) : Z := match p with Some q => q | None => 0 end.
Arguments deref !p.

(** [q] is set to an offset of [lo, hi). *)
Inductive within (lo : Z) (q : option Z) (hi : Z) : Prop :=
  within_intro : is_Some q → lo ≤ deref q < hi → within lo q hi.

Lemma within_some lo q hi : lo ≤ q < hi → within lo (Some q) hi.
Proof. intros. split; [by eexists|done]. Qed.

Lemma within_mono lo q hi lo' hi' :
  within lo q hi → lo' ≤ lo → hi ≤ hi' → within lo' q hi'.
Proof. intros [??] ??. split; [done|lia]. Qed.

Lemma within_r lo q hi : within lo q hi → lo ≤ deref q < hi.
Proof. by intros []. Qed.

(** Spell out the invariant of a known state, and re-establish it after a step. *)
Ltac use_inv :=
  repeat match goal with
  | H : True → _ |- _ => specialize (H I)
  | H : False → _ |- _ => clear H
  | H : ?x = ?x → _ |- _ => specialize (H eq_refl)
  | H : ?x = ?y → _ |- _ => assert_fails (assert (x = y) by done); clear H
  | H : _ ∧ _ |- _ => destruct H
  | H : within ?lo ?q ?hi |- _ =>
      lazymatch goal with
      | _ : lo ≤ deref q, _ : deref q < hi |- _ => fail
      | _ => destruct (within_r _ _ _ H)
      end
  end.

Ltac solve_within :=
  unfold set_field; cbn in *; intros; repeat (match goal with |- _ ∧ _ => split end); try done;
  first [ apply within_some; lia
        | eapply within_mono; [eassumption|cbn; lia|lia]
        | lia
        | assumption
        | congruence ].


(** Evaluate an instance of a theorem and the goal to the same normal form. *)
Ltac by_instance H :=
  let W := fresh in pose proof H as W; vm_compute in W; vm_compute; exact W.
