(* ===== verification/Scan.v ===== *)
(** * The loop shared by the incremental parsers

    The request-line, header-line and status-line parsers of
    src/http/ngx_http_parse.c and the POP3, IMAP and SMTP command parsers of
    src/mail/ngx_mail_parse.c are all
    [for (p = b->pos; p < b->last; p++) { ch = *p; switch (state) ... }].
    This file models that loop once, states what a parser has to promise
    ([ResumableParser]) and derives the facts every client uses: the rule of
    loop invariants, the bounds of the final position and the equivalence of
    parsing a buffer at once and parsing it as it arrives. *)

From S2P Require Import Prelude.

(** The ways one execution of the loop body ends: [Cont] (fall out of the
    switch, next byte), [Goto l] (a [goto] to a label after the loop) and
    [Ret rc] (a [return] from inside the loop). *)
Inductive flow (L S : Type) : Type :=
  | Cont (s : S)
  | Goto (l : L) (s : S)
  | Ret (rc : Z) (s : S).
Arguments Cont {L S} s.
Arguments Goto {L S} l s.
Arguments Ret {L S} rc s.

Section Loop.
Context {L S : Type}.
(** [step buf p ch s]: the loop body at offset [p] of [buf], with [ch = *p]. *)
Variable step : list Z → Z → Z → S → flow L S.

Fixpoint scan_from (buf : list Z) (p : Z) (rest : list Z) (s : S) : Z * flow L S :=
  match rest with
  | [] => (p, Cont s)
  | ch :: rest' =>
      match step buf p ch s with
      | Cont s' => scan_from buf (p + 1) rest' s'
      | f => (p, f)
      end
  end.

(** [b->last] is the end of [buf]. *)
Definition scan (buf : list Z) (pos : Z) (s : S) : Z * flow L S :=
  scan_from buf pos (drop (Z.to_nat pos) buf) s.

Lemma scan_nil buf pos s :
  Z.of_nat (length buf) ≤ pos → scan buf pos s = (pos, Cont s).
Proof. intros. unfold scan. by rewrite drop_ge by lia. Qed.

Lemma scan_cons buf pos ch s :
  0 ≤ pos → at_ buf pos = Some ch →
  scan buf pos s =
    match step buf pos ch s with
    | Cont s' => scan buf (pos + 1) s'
    | f => (pos, f)
    end.
Proof.
  intros Hpos Hch. unfold at_ in Hch. destruct (pos <? 0) eqn:E; [done|].
  unfold scan. rewrite (drop_S _ _ _ Hch). simpl.
  by replace (Z.to_nat (pos + 1)) with (Datatypes.S (Z.to_nat pos)) by lia.
Qed.

Lemma at_lt_inv buf p : 0 ≤ p < Z.of_nat (length buf) → ∃ ch, at_ buf p = Some ch.
Proof.
  intros. unfold at_. destruct (Z.ltb_spec p 0); [lia|].
  apply lookup_lt_is_Some. lia.
Qed.

(** The rule of loop invariants: [P] holds at the head of the loop, [Q] of
    every way out. *)
Lemma scan_rule (P : Z → S → Prop) (Q : Z → flow L S → Prop) buf pos s :
  0 ≤ pos ≤ Z.of_nat (length buf) →
  P pos s →
  (∀ p ch s, 0 ≤ p < Z.of_nat (length buf) → at_ buf p = Some ch → P p s →
     match step buf p ch s with Cont s' => P (p + 1) s' | f => Q p f end) →
  (∀ s, P (Z.of_nat (length buf)) s → Q (Z.of_nat (length buf)) (Cont s)) →
  Q (scan buf pos s).1 (scan buf pos s).2.
Proof.
  intros Hpos HP Hstep Hend.
  remember (length buf - Z.to_nat pos)%nat as n eqn:Hn.
  revert pos s Hpos HP Hn. induction n as [|n IH]; intros pos s Hpos HP Hn.
  - rewrite scan_nil by lia. simpl.
    replace pos with (Z.of_nat (length buf)) in * by lia. auto.
  - destruct (at_lt_inv buf pos) as [ch Hch]; [lia|].
    rewrite (scan_cons _ _ ch) by (done || lia).
    specialize (Hstep pos ch s ltac:(lia) Hch HP).
    destruct (step buf pos ch s); [|done..].
    apply IH; [lia|done|lia].
Qed.

Lemma scan_pos buf pos s p f :
  0 ≤ pos ≤ Z.of_nat (length buf) → scan buf pos s = (p, f) →
  pos ≤ p ≤ Z.of_nat (length buf) ∧
  match f with Cont _ => p = Z.of_nat (length buf) | _ => p < Z.of_nat (length buf) end.
Proof.
  intros Hpos Hs.
  pose proof (scan_rule (λ p _, pos ≤ p)
    (λ p f, pos ≤ p ≤ Z.of_nat (length buf) ∧
       match f with Cont _ => p = Z.of_nat (length buf)
               | _ => p < Z.of_nat (length buf) end) buf pos s) as H.
  rewrite Hs in H. simpl in H. apply H; [lia|lia| |intros; split; lia].
  intros q ch s0 ?? ?. destruct (step buf q ch s0); lia.
Qed.

(** A run of bytes that leave the loop's state in place. *)
Lemma scan_run (I : S → Prop) (C : Z → Prop) buf pos n s :
  0 ≤ pos → pos + Z.of_nat n ≤ Z.of_nat (length buf) → I s →
  (∀ p ch s, I s → C ch → ∃ s', step buf p ch s = Cont s' ∧ I s') →
  Forall C (slice buf pos (Z.of_nat n)) →
  ∃ s', I s' ∧ scan buf pos s = scan buf (pos + Z.of_nat n) s'.
Proof.
  intros Hpos Hlen HI Hstep. revert pos s Hpos Hlen HI.
  induction n as [|n IH]; intros pos s Hpos Hlen HI HC.
  - exists s. by rewrite Z.add_0_r.
  - destruct (at_lt_inv buf pos) as [ch Hch]; [lia|].
    pose proof Hch as Hat. unfold at_ in Hat. destruct (pos <? 0); [done|].
    unfold slice in HC. rewrite (drop_S _ _ _ Hat) in HC.
    replace (Z.to_nat (Z.of_nat (Datatypes.S n))) with (Datatypes.S n) in HC by lia.
    simpl in HC. inversion HC as [|?? Hc HC']; subst.
    destruct (Hstep pos ch s HI Hc) as (s' & Hs' & HI').
    destruct (IH (pos + 1) s') as (s'' & ? & Heq); [lia|lia|done| |].
    { unfold slice. by replace (Z.to_nat (pos + 1)) with (Datatypes.S (Z.to_nat pos)) by lia;
        rewrite Nat2Z.id. }
    exists s''. split; [done|].
    rewrite (scan_cons _ _ ch), Hs', Heq by (done || lia). f_equal. lia.
Qed.
End Loop.

(** ** Incremental parsing

    A parser is resumable when its body looks back only at bytes already in
    the buffer: [rp_inv] describes the states in which the pointers it follows
    are behind [p]. *)
Class ResumableParser (L S : Type) := {
  rp_step : list Z → Z → Z → S → flow L S;
  rp_inv : Z → S → Prop;
  rp_inv_step : ∀ buf p ch s s',
    0 ≤ p → rp_inv p s → rp_step buf p ch s = Cont s' → rp_inv (p + 1) s';
  rp_local : ∀ buf more p ch s,
    0 ≤ p < Z.of_nat (length buf) → rp_inv p s →
    rp_step (buf ++ more) p ch s = rp_step buf p ch s;
}.

Section Resumable.
Context {L S : Type} `{RP : ResumableParser L S}.

(** Scanning a prefix and then the rest is scanning the whole buffer. *)
Lemma scan_app b1 b2 pos s :
  0 ≤ pos ≤ Z.of_nat (length b1) → rp_inv pos s →
  scan rp_step (b1 ++ b2) pos s =
    match scan rp_step b1 pos s with
    | (p, Cont s') => scan rp_step (b1 ++ b2) p s'
    | r => r
    end.
Proof.
  intros Hpos Hinv.
  remember (length b1 - Z.to_nat pos)%nat as n eqn:Hn.
  revert pos s Hpos Hinv Hn. induction n as [|n IH]; intros pos s Hpos Hinv Hn.
  - by rewrite (scan_nil rp_step b1) by lia.
  - destruct (at_lt_inv b1 pos) as [ch Hch]; [lia|].
    rewrite (scan_cons rp_step b1 _ ch), (scan_cons rp_step (b1 ++ b2) _ ch);
      [|lia|rewrite at_app_l; [done|lia]|lia|done].
    rewrite rp_local by (done || lia).
    destruct (rp_step b1 pos ch s) as [s'| |] eqn:E; [|done..].
    apply IH; [lia| |lia]. eapply rp_inv_step; [|done|done]. lia.
Qed.

Lemma scan_inv buf pos s p s' :
  0 ≤ pos ≤ Z.of_nat (length buf) → rp_inv pos s →
  scan rp_step buf pos s = (p, Cont s') → rp_inv p s'.
Proof.
  intros Hpos Hinv Hs.
  pose proof (scan_rule rp_step rp_inv
    (λ p f, match f with Cont s' => rp_inv p s' | _ => True end) buf pos s) as H.
  rewrite Hs in H. apply H; [done|done| |done].
  intros q ch s0 ?? Hq. destruct (rp_step buf q ch s0) eqn:E; [|done..].
  eapply rp_inv_step; [|done|done]. lia.
Qed.
End Resumable.
