(* ===== verification/HttpRequestLine.v ===== *)
(** * The HTTP request line: [ngx_http_parse_request_line]

    src/http/ngx_http_parse.c.  A request line is parsed byte by byte as it
    arrives; the state, and the places of the parts found so far, are kept in
    the request.  Pointers into the header buffer are offsets from its start,
    [None] is [NULL]. *)

From S2P Require Import Prelude Scan.

(** ** Data *)

Inductive sw : Set :=
  | sw_start | sw_method | sw_spaces_before_uri | sw_schema | sw_schema_slash
  | sw_schema_slash_slash | sw_host_start | sw_host | sw_host_end
  | sw_host_ip_literal | sw_port | sw_host_http_09 | sw_after_slash_in_uri
  | sw_check_uri | sw_check_uri_http_09 | sw_uri | sw_http_09 | sw_http_H
  | sw_http_HT | sw_http_HTT | sw_http_HTTP | sw_first_major_digit
  | sw_major_digit | sw_first_minor_digit | sw_minor_digit
  | sw_spaces_after_digit | sw_almost_done.

#[export] Instance sw_eq_dec : EqDecision sw.
Proof. solve_decision. Defined.

(** The fields of [ngx_http_request_t] the request-line parser reads or
    writes, [state] apart; [http_minor] and [http_major] are 16-bit fields.
    The functions below pass [r->state] next to them. *)
Record request := mk_request {
  method : Z;
  http_version : Z;
  http_protocol_data : option Z;
  complex_uri : bool;
  quoted_uri : bool;
  plus_in_uri : bool;
  space_in_uri : bool;
  uri_start : option Z;
  uri_end : option Z;
  uri_ext : option Z;
  args_start : option Z;
  request_start : option Z;
  request_end : option Z;
  method_end : option Z;
  schema_start : option Z;
  schema_end : option Z;
  host_start : option Z;
  host_end : option Z;
  port_end : option Z;
  http_minor : Z;
  http_major : Z;
}.

#[export] Instance eta_request : Eta request := λ r,
  mk_request (method r) (http_version r) (http_protocol_data r)
    (complex_uri r) (quoted_uri r) (plus_in_uri r) (space_in_uri r)
    (uri_start r) (uri_end r) (uri_ext r) (args_start r) (request_start r)
    (request_end r) (method_end r) (schema_start r) (schema_end r)
    (host_start r) (host_end r) (port_end r) (http_minor r) (http_major r).

Abbreviation NGX_HTTP_UNKNOWN := 1.
Abbreviation NGX_HTTP_GET := 2.
Abbreviation NGX_HTTP_HEAD := 4.
Abbreviation NGX_HTTP_POST := 8.
Abbreviation NGX_HTTP_PUT := 16.
Abbreviation NGX_HTTP_DELETE := 32.
Abbreviation NGX_HTTP_MKCOL := 64.
Abbreviation NGX_HTTP_COPY := 128.
Abbreviation NGX_HTTP_MOVE := 256.
Abbreviation NGX_HTTP_OPTIONS := 512.
Abbreviation NGX_HTTP_PROPFIND := 1024.
Abbreviation NGX_HTTP_PROPPATCH := 2048.
Abbreviation NGX_HTTP_LOCK := 4096.
Abbreviation NGX_HTTP_UNLOCK := 8192.
Abbreviation NGX_HTTP_PATCH := 16384.
Abbreviation NGX_HTTP_TRACE := 32768.

Abbreviation NGX_HTTP_PARSE_INVALID_METHOD := 10.
Abbreviation NGX_HTTP_PARSE_INVALID_REQUEST := 11.
Abbreviation NGX_HTTP_PARSE_INVALID_09_METHOD := 12.

(** The header buffer: its bytes up to [b->last] and the offset [b->pos]. *)
Record ngx_buf := mk_buf { b_data : list Z; b_pos : Z }.

(** A request as [ngx_http_init_request] leaves it for the parser: zeroed
    memory and an unknown method. *)
Definition init_request : request :=
  mk_request NGX_HTTP_UNKNOWN 0 None false false false false
    None None None None None None None None None None None None 0 0.

(** Characters that need no treatment in a URI (non-Windows table). *)
Definition usual : list Z :=
  [0xffffdbfe; 0x7fff37d6; 0xffffffff; 0xffffffff;
   0xffffffff; 0xffffffff; 0xffffffff; 0xffffffff].

Definition is_usual (ch : Z) : bool := bitmap_test usual ch.

(** [ngx_str3_cmp] ... [ngx_str9cmp]: the bytes at [m] are those of [s]. *)
Definition ngx_strcmp_at (buf : list Z) (m : Z) (s : list Z) : bool :=
  bool_decide (slice buf m (Z.of_nat (length s)) = s).

(** ** The loop body, state by state *)

Abbreviation outcome := (flow () (sw * request)).

Definition invalid_method_char (ch : Z) : bool :=
  ((ch <? "A"%ch) || ("Z"%ch <? ch)) && negb (ch =? "_"%ch).

(** [c = (u_char) (ch | 0x20); c >= 'a' && c <= 'z'] *)
Definition is_alpha (ch : Z) : bool :=
  let c := u8 (Z.lor ch 32) in ("a"%ch <=? c) && (c <=? "z"%ch).

Definition step_start (p ch : Z) (r : request) : outcome :=
  let r := r <| request_start := Some p |> in
  if (ch =? CR) || (ch =? LF) then Cont (sw_start, r)
  else if invalid_method_char ch then Ret NGX_HTTP_PARSE_INVALID_METHOD (sw_start, r)
  else Cont (sw_method, r).

(** The [switch (p - m)] that recognises the method; [old] is the value
    [r->method] keeps when no name matches. *)
Definition method_of (buf : list Z) (m p old : Z) : Z :=
  let eqm s := ngx_strcmp_at buf m s in
  let n := p - m in
  if n =? 3 then
    if eqm (bs "GET ") then NGX_HTTP_GET
    else if eqm (bs "PUT ") then NGX_HTTP_PUT
    else old
  else if n =? 4 then
    if bool_decide (at_ buf (m + 1) = Some "O"%ch) then
      if eqm (bs "POST") then NGX_HTTP_POST
      else if eqm (bs "COPY") then NGX_HTTP_COPY
      else if eqm (bs "MOVE") then NGX_HTTP_MOVE
      else if eqm (bs "LOCK") then NGX_HTTP_LOCK
      else old
    else if eqm (bs "HEAD") then NGX_HTTP_HEAD
    else old
  else if n =? 5 then
    let old := if eqm (bs "MKCOL") then NGX_HTTP_MKCOL else old in
    let old := if eqm (bs "PATCH") then NGX_HTTP_PATCH else old in
    if eqm (bs "TRACE") then NGX_HTTP_TRACE else old
  else if n =? 6 then
    if eqm (bs "DELETE") then NGX_HTTP_DELETE
    else if eqm (bs "UNLOCK") then NGX_HTTP_UNLOCK
    else old
  else if n =? 7 then
    if eqm (bs "OPTIONS ") then NGX_HTTP_OPTIONS else old
  else if n =? 8 then
    if eqm (bs "PROPFIND") then NGX_HTTP_PROPFIND else old
  else if n =? 9 then
    if eqm (bs "PROPPATCH") then NGX_HTTP_PROPPATCH else old
  else old.

Definition step_method (buf : list Z) (p ch : Z) (r : request) : outcome :=
  if ch =? " "%ch then
    let r := r <| method_end := Some (p - 1) |> in
    let m := deref (request_start r) in
    let r := r <| method := method_of buf m p (method r) |> in
    Cont (sw_spaces_before_uri, r)
  else if invalid_method_char ch then Ret NGX_HTTP_PARSE_INVALID_METHOD (sw_method, r)
  else Cont (sw_method, r).

Definition step_spaces_before_uri (p ch : Z) (r : request) : outcome :=
  if ch =? "/"%ch then Cont (sw_after_slash_in_uri, r <| uri_start := Some p |>)
  else if is_alpha ch then Cont (sw_schema, r <| schema_start := Some p |>)
  else if ch =? " "%ch then Cont (sw_spaces_before_uri, r)
  else Ret NGX_HTTP_PARSE_INVALID_REQUEST (sw_spaces_before_uri, r).

Definition step_schema (p ch : Z) (r : request) : outcome :=
  if is_alpha ch then Cont (sw_schema, r)
  else if ch =? ":"%ch then Cont (sw_schema_slash, r <| schema_end := Some p |>)
  else Ret NGX_HTTP_PARSE_INVALID_REQUEST (sw_schema, r).

(** A state that accepts the single byte [want]. *)
Definition step_expect (st : sw) (want : Z) (next : sw) (ch : Z) (r : request) : outcome :=
  if ch =? want then Cont (next, r) else Ret NGX_HTTP_PARSE_INVALID_REQUEST (st, r).

Definition step_host_end (st : sw) (p ch : Z) (r : request) : outcome :=
  let r := r <| host_end := Some p |> in
  if ch =? ":"%ch then Cont (sw_port, r)
  else if ch =? "/"%ch then Cont (sw_after_slash_in_uri, r <| uri_start := Some p |>)
  else if ch =? " "%ch then
    let r := r <| uri_start := Some (deref (schema_end r) + 1) |> in
    let r := r <| uri_end := Some (deref (schema_end r) + 2) |> in
    Cont (sw_host_http_09, r)
  else Ret NGX_HTTP_PARSE_INVALID_REQUEST (st, r).

Definition step_host (p ch : Z) (r : request) : outcome :=
  if is_alpha ch then Cont (sw_host, r)
  else if is_digit ch || (ch =? "."%ch) || (ch =? "-"%ch) then Cont (sw_host, r)
  else step_host_end sw_host p ch r.

Definition step_host_start (p ch : Z) (r : request) : outcome :=
  let r := r <| host_start := Some p |> in
  if ch =? "["%ch then Cont (sw_host_ip_literal, r) else step_host p ch r.

(** The unreserved and sub-delims characters of an IP literal. *)
Definition ip_literal_char (ch : Z) : bool := existsb (Z.eqb ch) (bs "-._~!$&'()*+,;=").

Definition step_host_ip_literal (ch : Z) (r : request) : outcome :=
  if is_digit ch || is_alpha ch then Cont (sw_host_ip_literal, r)
  else if ch =? ":"%ch then Cont (sw_host_ip_literal, r)
  else if ch =? "]"%ch then Cont (sw_host_end, r)
  else if ip_literal_char ch then Cont (sw_host_ip_literal, r)
  else Ret NGX_HTTP_PARSE_INVALID_REQUEST (sw_host_ip_literal, r).

Definition step_port (p ch : Z) (r : request) : outcome :=
  if is_digit ch then Cont (sw_port, r)
  else if ch =? "/"%ch then
    let r := r <| port_end := Some p |> in
    Cont (sw_after_slash_in_uri, r <| uri_start := Some p |>)
  else if ch =? " "%ch then
    let r := r <| port_end := Some p |> in
    let r := r <| uri_start := Some (deref (schema_end r) + 1) |> in
    let r := r <| uri_end := Some (deref (schema_end r) + 2) |> in
    Cont (sw_host_http_09, r)
  else Ret NGX_HTTP_PARSE_INVALID_REQUEST (sw_port, r).

(** The states after the URI: [sw_host_http_09], [sw_check_uri_http_09] and
    [sw_http_09]; they differ in what another byte means. *)
Definition step_http_09 (st : sw) (other : outcome) (p ch : Z) (r : request) : outcome :=
  if ch =? " "%ch then Cont (st, r)
  else if ch =? CR then Cont (sw_almost_done, r <| http_minor := 9 |>)
  else if ch =? LF then Goto () (st, r <| http_minor := 9 |>)
  else if ch =? "H"%ch then Cont (sw_http_H, r <| http_protocol_data := Some p |>)
  else other.

Definition step_host_http_09 (p ch : Z) (r : request) : outcome :=
  step_http_09 sw_host_http_09
    (Ret NGX_HTTP_PARSE_INVALID_REQUEST (sw_host_http_09, r)) p ch r.

Definition step_check_uri_http_09 (p ch : Z) (r : request) : outcome :=
  step_http_09 sw_check_uri_http_09
    (Cont (sw_check_uri, r <| space_in_uri := true |>)) p ch r.

Definition step_uri_http_09 (p ch : Z) (r : request) : outcome :=
  step_http_09 sw_http_09 (Cont (sw_uri, r <| space_in_uri := true |>)) p ch r.

Definition step_after_slash_in_uri (p ch : Z) (r : request) : outcome :=
  if is_usual ch then Cont (sw_check_uri, r)
  else if ch =? " "%ch then Cont (sw_check_uri_http_09, r <| uri_end := Some p |>)
  else if ch =? CR then
    Cont (sw_almost_done, r <| uri_end := Some p |> <| http_minor := 9 |>)
  else if ch =? LF then
    Goto () (sw_after_slash_in_uri, r <| uri_end := Some p |> <| http_minor := 9 |>)
  else if ch =? "."%ch then Cont (sw_uri, r <| complex_uri := true |>)
  else if ch =? "%"%ch then Cont (sw_uri, r <| quoted_uri := true |>)
  else if ch =? "/"%ch then Cont (sw_uri, r <| complex_uri := true |>)
  else if ch =? "?"%ch then Cont (sw_uri, r <| args_start := Some (p + 1) |>)
  else if ch =? "#"%ch then Cont (sw_uri, r <| complex_uri := true |>)
  else if ch =? "+"%ch then Cont (sw_after_slash_in_uri, r <| plus_in_uri := true |>)
  else if ch =? NUL then Ret NGX_HTTP_PARSE_INVALID_REQUEST (sw_after_slash_in_uri, r)
  else Cont (sw_check_uri, r).

Definition step_check_uri (p ch : Z) (r : request) : outcome :=
  if is_usual ch then Cont (sw_check_uri, r)
  else if ch =? "/"%ch then Cont (sw_after_slash_in_uri, r <| uri_ext := None |>)
  else if ch =? "."%ch then Cont (sw_check_uri, r <| uri_ext := Some (p + 1) |>)
  else if ch =? " "%ch then Cont (sw_check_uri_http_09, r <| uri_end := Some p |>)
  else if ch =? CR then
    Cont (sw_almost_done, r <| uri_end := Some p |> <| http_minor := 9 |>)
  else if ch =? LF then
    Goto () (sw_check_uri, r <| uri_end := Some p |> <| http_minor := 9 |>)
  else if ch =? "%"%ch then Cont (sw_uri, r <| quoted_uri := true |>)
  else if ch =? "?"%ch then Cont (sw_uri, r <| args_start := Some (p + 1) |>)
  else if ch =? "#"%ch then Cont (sw_uri, r <| complex_uri := true |>)
  else if ch =? "+"%ch then Cont (sw_check_uri, r <| plus_in_uri := true |>)
  else if ch =? NUL then Ret NGX_HTTP_PARSE_INVALID_REQUEST (sw_check_uri, r)
  else Cont (sw_check_uri, r).

Definition step_uri (p ch : Z) (r : request) : outcome :=
  if is_usual ch then Cont (sw_uri, r)
  else if ch =? " "%ch then Cont (sw_http_09, r <| uri_end := Some p |>)
  else if ch =? CR then
    Cont (sw_almost_done, r <| uri_end := Some p |> <| http_minor := 9 |>)
  else if ch =? LF then
    Goto () (sw_uri, r <| uri_end := Some p |> <| http_minor := 9 |>)
  else if ch =? "#"%ch then Cont (sw_uri, r <| complex_uri := true |>)
  else if ch =? NUL then Ret NGX_HTTP_PARSE_INVALID_REQUEST (sw_uri, r)
  else Cont (sw_uri, r).

Definition step_first_major_digit (ch : Z) (r : request) : outcome :=
  if (ch <? "1"%ch) || ("9"%ch <? ch) then
    Ret NGX_HTTP_PARSE_INVALID_REQUEST (sw_first_major_digit, r)
  else Cont (sw_major_digit, r <| http_major := u16 (ch - "0"%ch) |>).

Definition step_major_digit (ch : Z) (r : request) : outcome :=
  if ch =? "."%ch then Cont (sw_first_minor_digit, r)
  else if negb (is_digit ch) then Ret NGX_HTTP_PARSE_INVALID_REQUEST (sw_major_digit, r)
  else Cont (sw_major_digit,
             r <| http_major := u16 (http_major r * 10 + ch - "0"%ch) |>).

Definition step_first_minor_digit (ch : Z) (r : request) : outcome :=
  if negb (is_digit ch) then
    Ret NGX_HTTP_PARSE_INVALID_REQUEST (sw_first_minor_digit, r)
  else Cont (sw_minor_digit, r <| http_minor := u16 (ch - "0"%ch) |>).

Definition step_minor_digit (ch : Z) (r : request) : outcome :=
  if ch =? CR then Cont (sw_almost_done, r)
  else if ch =? LF then Goto () (sw_minor_digit, r)
  else if ch =? " "%ch then Cont (sw_spaces_after_digit, r)
  else if negb (is_digit ch) then Ret NGX_HTTP_PARSE_INVALID_REQUEST (sw_minor_digit, r)
  else Cont (sw_minor_digit,
             r <| http_minor := u16 (http_minor r * 10 + ch - "0"%ch) |>).

Definition step_spaces_after_digit (ch : Z) (r : request) : outcome :=
  if ch =? " "%ch then Cont (sw_spaces_after_digit, r)
  else if ch =? CR then Cont (sw_almost_done, r)
  else if ch =? LF then Goto () (sw_spaces_after_digit, r)
  else Ret NGX_HTTP_PARSE_INVALID_REQUEST (sw_spaces_after_digit, r).

Definition step_almost_done (p ch : Z) (r : request) : outcome :=
  let r := r <| request_end := Some (p - 1) |> in
  if ch =? LF then Goto () (sw_almost_done, r)
  else Ret NGX_HTTP_PARSE_INVALID_REQUEST (sw_almost_done, r).

(** [switch (state)] *)
Definition step (buf : list Z) (p ch : Z) (s : sw * request) : outcome :=
  let '(st, r) := s in
  match st with
  | sw_start => step_start p ch r
  | sw_method => step_method buf p ch r
  | sw_spaces_before_uri => step_spaces_before_uri p ch r
  | sw_schema => step_schema p ch r
  | sw_schema_slash => step_expect sw_schema_slash "/"%ch sw_schema_slash_slash ch r
  | sw_schema_slash_slash => step_expect sw_schema_slash_slash "/"%ch sw_host_start ch r
  | sw_host_start => step_host_start p ch r
  | sw_host => step_host p ch r
  | sw_host_end => step_host_end sw_host_end p ch r
  | sw_host_ip_literal => step_host_ip_literal ch r
  | sw_port => step_port p ch r
  | sw_host_http_09 => step_host_http_09 p ch r
  | sw_after_slash_in_uri => step_after_slash_in_uri p ch r
  | sw_check_uri => step_check_uri p ch r
  | sw_check_uri_http_09 => step_check_uri_http_09 p ch r
  | sw_uri => step_uri p ch r
  | sw_http_09 => step_uri_http_09 p ch r
  | sw_http_H => step_expect sw_http_H "T"%ch sw_http_HT ch r
  | sw_http_HT => step_expect sw_http_HT "T"%ch sw_http_HTT ch r
  | sw_http_HTT => step_expect sw_http_HTT "P"%ch sw_http_HTTP ch r
  | sw_http_HTTP => step_expect sw_http_HTTP "/"%ch sw_first_major_digit ch r
  | sw_first_major_digit => step_first_major_digit ch r
  | sw_major_digit => step_major_digit ch r
  | sw_first_minor_digit => step_first_minor_digit ch r
  | sw_minor_digit => step_minor_digit ch r
  | sw_spaces_after_digit => step_spaces_after_digit ch r
  | sw_almost_done => step_almost_done p ch r
  end.

(** The code after the label [done]. *)
Definition set_request_end (p : Z) (r : request) : request :=
  match request_end r with
  | None => r <| request_end := Some p |>
  | Some _ => r
  end.

Definition request_line_done (p : Z) (r : request) : Z * (sw * request) :=
  let r := set_request_end p r in
  let r := r <| http_version := http_major r * 1000 + http_minor r |> in
  if (http_version r =? 9) && negb (method r =? NGX_HTTP_GET)
  then (NGX_HTTP_PARSE_INVALID_09_METHOD, (sw_start, r))
  else (NGX_OK, (sw_start, r)).

(** The local [state] is written back to [r->state] on the two ways out of the
    loop that are not a [return]. *)
Definition ngx_http_parse_request_line (r : sw * request) (b : ngx_buf) :
    Z * (sw * request) * ngx_buf :=
  match scan step (b_data b) (b_pos b) r with
  | (p, Cont s) => (NGX_AGAIN, s, mk_buf (b_data b) p)
  | (p, Goto _ (_, r')) => (request_line_done p r', mk_buf (b_data b) (p + 1))
  | (_, Ret rc (_, r')) => (rc, (r.1, r'), b)
  end.

Arguments method_of : simpl never.
Arguments is_usual : simpl never.
Arguments is_alpha : simpl never.
Arguments ip_literal_char : simpl never.
Arguments invalid_method_char : simpl never.

(** ** Where the pointers are

    [started], [past_method], ... say which fields a state has filled in. *)

Definition started (st : sw) : bool := match st with sw_start => false | _ => true end.
Definition past_method (st : sw) : bool :=
  match st with sw_start | sw_method => false | _ => true end.
Definition past_schema (st : sw) : bool :=
  match st with
  | sw_host_start | sw_host | sw_host_end | sw_host_ip_literal | sw_port => true
  | _ => false
  end.
Definition in_uri (st : sw) : bool :=
  match st with sw_after_slash_in_uri | sw_check_uri | sw_uri => true | _ => false end.
Definition past_uri (st : sw) : bool :=
  match st with
  | sw_host_http_09 | sw_check_uri_http_09 | sw_http_09 | sw_http_H | sw_http_HT
  | sw_http_HTT | sw_http_HTTP | sw_first_major_digit | sw_major_digit
  | sw_first_minor_digit | sw_minor_digit | sw_spaces_after_digit
  | sw_almost_done => true
  | _ => false
  end.

(** The invariant of the loop at offset [p] of [buf]. *)
Record request_inv (buf : list Z) (p : Z) (st : sw) (r : request) : Prop := {
  ri_started : started st → within 0 (request_start r) p;
  ri_method : past_method st → within (deref (request_start r)) (method_end r) p;
  ri_slash : st = sw_schema_slash →
    within (deref (method_end r) + 1) (schema_end r) p ∧ deref (schema_end r) + 1 = p;
  ri_slash_slash : st = sw_schema_slash_slash →
    within (deref (method_end r) + 1) (schema_end r) p ∧ deref (schema_end r) + 2 = p ∧
    at_ buf (deref (schema_end r) + 1) = Some "/"%ch;
  ri_schema : past_schema st →
    within (deref (method_end r) + 1) (schema_end r) p ∧ deref (schema_end r) + 2 < p ∧
    at_ buf (deref (schema_end r) + 1) = Some "/"%ch;
  ri_uri : in_uri st || past_uri st →
    within (deref (method_end r) + 1) (uri_start r) p ∧
    at_ buf (deref (uri_start r)) = Some "/"%ch;
  ri_uri_end : past_uri st → within (deref (uri_start r) + 1) (uri_end r) p;
  ri_request_end : request_end r = None;
}.

(** What a successful parse leaves behind: the parts of the line in order,
    the URI starting with a slash, the line ending where the next one starts. *)
Record request_parsed (buf : list Z) (pos : Z) (r : request) : Prop := {
  rp_request_start : within 0 (request_start r) pos;
  rp_method_end : within (deref (request_start r)) (method_end r) pos;
  rp_uri_start : within (deref (method_end r) + 1) (uri_start r) pos;
  rp_uri_end : within (deref (uri_start r) + 1) (uri_end r) pos;
  rp_request_end : within (deref (uri_end r)) (request_end r) pos;
  rp_slash : at_ buf (deref (uri_start r)) = Some "/"%ch;
  rp_line_feed : at_ buf (pos - 1) = Some LF;
}.

Lemma request_inv_init buf p : request_inv buf p sw_start init_request.
Proof. split; done. Qed.

Ltac unfold_step :=
  unfold step_start, step_method, step_spaces_before_uri, step_schema, step_expect,
    step_host_start, step_host, step_host_end, step_host_ip_literal, step_port,
    step_host_http_09, step_check_uri_http_09, step_uri_http_09, step_http_09,
    step_after_slash_in_uri, step_check_uri, step_uri, step_first_major_digit,
    step_major_digit, step_first_minor_digit, step_minor_digit,
    step_spaces_after_digit, step_almost_done.

Lemma request_line_done_parsed buf pos p r :
  request_parsed buf pos (set_request_end p r) →
  request_parsed buf pos (request_line_done p r).2.2.
Proof.
  unfold request_line_done. generalize (set_request_end p r). intros r' [].
  case_match; by split.
Qed.

Lemma request_step_inv buf p ch st r :
  0 ≤ p → at_ buf p = Some ch → request_inv buf p st r →
  match step buf p ch (st, r) with
  | Cont (st', r') => request_inv buf (p + 1) st' r'
  | Goto _ (_, r') => request_parsed buf (p + 1) (set_request_end p r')
  | Ret rc _ => 0 < rc < NGX_HTTP_PARSE_INVALID_09_METHOD
  end.
Proof.
  intros Hp Hch [H1 H2 H3 H4 H5 H6 H7 H8].
  destruct st; cbn in H1, H2, H3, H4, H5, H6, H7; use_inv; cbn [step]; unfold_step.
  all: split_ifs; try (cbn; lia); bool_to_prop; subst.
  all: first [ split; solve_within
             | unfold set_request_end; cbn; rewrite ?H8; split;
               replace (p + 1 - 1) with p by lia; solve_within ].
Qed.

Lemma request_inv_app buf more p st r :
  p ≤ Z.of_nat (length buf) → request_inv buf p st r → request_inv (buf ++ more) p st r.
Proof.
  intros Hp [H1 H2 H3 H4 H5 H6 H7 H8].
  split; try done; intros H.
  - destruct (H4 H) as (?%within_r&?&Hat). split; [by apply H4|split; [done|]].
    by rewrite at_app_l by lia.
  - destruct (H5 H) as (?%within_r&?&Hat). split; [by apply H5|split; [done|]].
    by rewrite at_app_l by lia.
  - destruct (H6 H) as [W Hat]. split; [done|]. apply within_r in W.
    by rewrite at_app_l by lia.
Qed.

(** ** Where the other pointers are

    Those of the schema, the host, the port, the extension, the arguments and the
    protocol, which a request line need not have. *)

Definition no_authority (r : request) : Prop :=
  schema_start r = None ∧ schema_end r = None ∧ host_start r = None ∧ host_end r = None ∧ port_end r = None.

(** The schema, the host behind ["://"] and the port, which end at [e] before
    [hi].  The URI begins there or, when the line has no path, is the second
    slash behind the schema. *)
Definition authority (hi : Z) (r : request) (path : bool) : Prop :=
  ∃ ss se he e, schema_start r = Some ss ∧ schema_end r = Some se ∧
    host_start r = Some (se + 3) ∧ host_end r = Some he ∧
    deref (method_end r) + 1 ≤ ss < se ∧ se + 3 ≤ he ∧
    (port_end r = None ∧ e = he ∨ port_end r = Some e ∧ he < e) ∧ e < hi ∧
    if path then uri_start r = Some e else uri_start r = Some (se + 1) ∧ uri_end r = Some (se + 2).

(** The extension behind a dot and the arguments behind a question mark, in
    this order, in a URI that ends at [hi]. *)
Definition uri_parts (buf : list Z) (hi : Z) (r : request) : Prop :=
  (∀ e, uri_ext r = Some e → deref (uri_start r) + 2 ≤ e ≤ hi ∧ at_ buf (e - 1) = Some "."%ch) ∧
  (∀ a, args_start r = Some a → deref (uri_start r) + 2 ≤ a ≤ hi ∧ at_ buf (a - 1) = Some "?"%ch) ∧
  (∀ e a, uri_ext r = Some e → args_start r = Some a → e < a).

Definition no_uri_parts (r : request) : Prop := uri_ext r = None ∧ args_start r = None ∧ http_protocol_data r = None.

(** The protocol behind the URI, which begins with an [H]. *)
Definition protocol_at (buf : list Z) (hi : Z) (r : request) : Prop :=
  ∃ d, http_protocol_data r = Some d ∧ deref (uri_end r) < d < hi ∧ at_ buf d = Some "H"%ch.

Definition host_found (st : sw) (p : Z) (r : request) : Prop :=
  ∃ ss se, schema_start r = Some ss ∧ schema_end r = Some se ∧ deref (method_end r) + 1 ≤ ss < se ∧
    port_end r = None ∧ no_uri_parts r ∧
    match st with
    | sw_schema_slash => se + 1 = p ∧ host_start r = None ∧ host_end r = None
    | sw_schema_slash_slash => se + 2 = p ∧ host_start r = None ∧ host_end r = None
    | sw_host_start => se + 3 = p ∧ host_start r = None ∧ host_end r = None
    | sw_port => host_start r = Some (se + 3) ∧ ∃ he, host_end r = Some he ∧ se + 3 ≤ he < p
    | _ => host_start r = Some (se + 3) ∧ se + 3 < p ∧ host_end r = None
    end.

Definition parts_inv (buf : list Z) (p : Z) (st : sw) (r : request) : Prop :=
  match st with
  | sw_start | sw_method | sw_spaces_before_uri => no_authority r ∧ no_uri_parts r
  | sw_schema =>
      (∃ ss, schema_start r = Some ss ∧ deref (method_end r) + 1 ≤ ss < p) ∧
      schema_end r = None ∧ host_start r = None ∧ host_end r = None ∧ port_end r = None ∧ no_uri_parts r
  | sw_schema_slash | sw_schema_slash_slash | sw_host_start | sw_host | sw_host_end
  | sw_host_ip_literal | sw_port => host_found st p r
  | sw_host_http_09 => authority p r false ∧ no_uri_parts r
  | sw_after_slash_in_uri | sw_check_uri | sw_uri =>
      (no_authority r ∨ authority p r true) ∧ uri_parts buf p r ∧ http_protocol_data r = None ∧
      (st ≠ sw_uri → args_start r = None)
  | sw_check_uri_http_09 | sw_http_09 =>
      (no_authority r ∨ authority p r true) ∧ uri_parts buf (deref (uri_end r)) r ∧
      http_protocol_data r = None ∧ (st ≠ sw_http_09 → args_start r = None)
  | sw_almost_done =>
      (no_authority r ∨ ∃ path, authority p r path) ∧ uri_parts buf (deref (uri_end r)) r ∧
      (http_protocol_data r = None ∨ protocol_at buf (p - 1) r)
  | _ =>
      (no_authority r ∨ ∃ path, authority p r path) ∧ uri_parts buf (deref (uri_end r)) r ∧
      protocol_at buf p r
  end.

(** What a successful parse leaves behind of them. *)
Record parts_parsed (buf : list Z) (pos : Z) (r : request) : Prop := {
  pp_authority : no_authority r ∨ ∃ path, authority pos r path;
  pp_uri : uri_parts buf (deref (uri_end r)) r;
  pp_protocol : http_protocol_data r = None ∨ protocol_at buf (deref (request_end r)) r;
}.

Lemma parts_inv_init buf p : parts_inv buf p sw_start init_request.
Proof. done. Qed.

(** *** One step *)

Lemma authority_keep hi hi' r r' path : authority hi r path → hi ≤ hi' →
  (schema_start r', schema_end r', host_start r', host_end r', port_end r', method_end r', uri_start r') =
  (schema_start r, schema_end r, host_start r, host_end r, port_end r, method_end r, uri_start r) →
  path = true ∨ uri_end r' = uri_end r → authority hi' r' path.
Proof.
  intros (ss & se & he & e & H) Hle [= E1 E2 E3 E4 E5 E6 E7] Hend. exists ss, se, he, e.
  rewrite E1, E2, E3, E4, E5, E6, E7. destruct path; [intuition lia|].
  destruct Hend as [?|Hend]; [done|]. rewrite Hend. intuition lia.
Qed.

Lemma parts_keep buf hi hi' r r' : uri_parts buf hi r → hi ≤ hi' →
  (uri_ext r', args_start r', uri_start r') = (uri_ext r, args_start r, uri_start r) → uri_parts buf hi' r'.
Proof.
  intros (H1 & H2 & H3) Hle [= E1 E2 E3]. unfold uri_parts. rewrite E1, E2, E3.
  split; [|split; [|done]]; intros x Hx; [destruct (H1 x Hx)|destruct (H2 x Hx)]; (split; [lia|done]).
Qed.

Lemma protocol_keep buf hi hi' r r' : protocol_at buf hi r → hi ≤ hi' →
  (http_protocol_data r', uri_end r') = (http_protocol_data r, uri_end r) → protocol_at buf hi' r'.
Proof. intros (d & H1 & H2 & H3) Hle [= E1 E2]. exists d. rewrite E1, E2. split; [done|]. split; [lia|done]. Qed.

Lemma no_parts buf hi r : uri_ext r = None → args_start r = None → uri_parts buf hi r.
Proof. intros H1 H2. unfold uri_parts. by rewrite H1, H2. Qed.

Lemma parts_ext buf p r r' : uri_parts buf p r → args_start r = None → deref (uri_start r) < p →
  at_ buf p = Some "."%ch →
  (uri_ext r', args_start r', uri_start r') = (Some (p + 1), args_start r, uri_start r) → uri_parts buf (p + 1) r'.
Proof.
  intros (H1 & H2 & H3) Ha Hp Hc [= E1 E2 E3]. unfold uri_parts. rewrite E1, E2, E3, Ha.
  split; [|done]. intros e [= <-]. replace (p + 1 - 1) with p by lia. split; [lia|done].
Qed.

Lemma parts_args buf p r r' : uri_parts buf p r → deref (uri_start r) < p → at_ buf p = Some "?"%ch →
  (uri_ext r', args_start r', uri_start r') = (uri_ext r, Some (p + 1), uri_start r) → uri_parts buf (p + 1) r'.
Proof.
  intros (H1 & H2 & H3) Hp Hc [= E1 E2 E3]. unfold uri_parts. rewrite E1, E2, E3. split; [|split].
  - intros e He. destruct (H1 e He). split; [lia|done].
  - intros a [= <-]. replace (p + 1 - 1) with p by lia. split; [lia|done].
  - intros e a He [= <-]. destruct (H1 e He). lia.
Qed.

Lemma parts_slash buf p r r' : uri_parts buf p r → (uri_ext r', args_start r', uri_start r') = (None, args_start r, uri_start r) →
  uri_parts buf (p + 1) r'.
Proof.
  intros (H1 & H2 & H3) [= E1 E2 E3]. unfold uri_parts. rewrite E1, E2, E3. split; [done|]. split; [|done].
  intros a Ha. destruct (H2 a Ha). split; [lia|done].
Qed.

(** Close one part of the invariant of the next state. *)
Ltac part :=
  intros;
  lazymatch goal with
  | |- _ ∧ _ => split; part
  | |- _ ∨ _ => first [left; solve [part]|right; part]
  | |- no_authority _ => first [assumption|done]
  | |- authority _ _ _ =>
      first [ eapply authority_keep; [eassumption|lia|reflexivity|first [by left|by right]]
            | unfold authority; cbn; part ]
  | |- ∃ _, _ => eexists; part
  | |- parts_parsed _ _ _ => split; cbn; part
  | |- uri_parts _ _ _ =>
      first [ eapply parts_keep; [eassumption|cbn; lia|reflexivity]
            | apply no_parts; solve [assumption]
            | eapply parts_ext; [eassumption|solve [part]|lia|assumption|reflexivity]
            | eapply parts_args; [eassumption|lia|assumption|reflexivity]
            | eapply parts_slash; [eassumption|reflexivity] ]
  | |- protocol_at _ _ _ =>
      first [ eapply protocol_keep; [eassumption|cbn; lia|reflexivity] | unfold protocol_at; cbn; part ]
  | |- _ =>
      first [ reflexivity | eassumption | lia | done | congruence
            | match goal with H : no_authority _ |- _ => apply H end
            | match goal with H : _ → args_start _ = None |- _ => by apply H end ]
  end.

Lemma parts_step_inv buf p ch st r :
  0 ≤ p → at_ buf p = Some ch → request_inv buf p st r → parts_inv buf p st r →
  match step buf p ch (st, r) with
  | Cont (st', r') => parts_inv buf (p + 1) st' r'
  | Goto _ (_, r') => parts_parsed buf (p + 1) (set_request_end p r')
  | Ret _ _ => True
  end.
Proof.
  intros Hp Hch [H1 H2 H3 H4 H5 H6 H7 H8] Hi.
  destruct st; cbn in H1, H2, H3, H4, H5, H6, H7; use_inv; cbn [step]; unfold_step.
  all: split_ifs; try exact I; bool_to_prop; subst.
  all: cbn [parts_inv] in Hi |- *; unfold host_found, no_uri_parts in *.
  all: repeat match goal with
    | H : _ ∧ _ |- _ => destruct H
    | H : ∃ _, _ |- _ => destruct H
    | H : _ ∨ _ |- _ => destruct H
    end.
  all: repeat match goal with
    | H : ?q = Some ?x |- _ =>
        lazymatch goal with _ : deref q = x |- _ => fail | _ => assert (deref q = x) by (by rewrite H) end
    end.
  all: unfold set_request_end, set_field; cbn; rewrite ?H8; part.
Qed.

Lemma request_line_done_parts buf pos p r :
  parts_parsed buf pos (set_request_end p r) → parts_parsed buf pos (request_line_done p r).2.2.
Proof.
  unfold request_line_done. generalize (set_request_end p r). intros r' [].
  case_match; by split.
Qed.

(** ** The method names *)

(** The registered methods, as a table. *)
Definition method_table : list (list Z * Z) :=
  [(bs "GET", NGX_HTTP_GET); (bs "HEAD", NGX_HTTP_HEAD); (bs "POST", NGX_HTTP_POST);
   (bs "PUT", NGX_HTTP_PUT); (bs "DELETE", NGX_HTTP_DELETE); (bs "MKCOL", NGX_HTTP_MKCOL);
   (bs "COPY", NGX_HTTP_COPY); (bs "MOVE", NGX_HTTP_MOVE);
   (bs "OPTIONS", NGX_HTTP_OPTIONS); (bs "PROPFIND", NGX_HTTP_PROPFIND);
   (bs "PROPPATCH", NGX_HTTP_PROPPATCH); (bs "LOCK", NGX_HTTP_LOCK);
   (bs "UNLOCK", NGX_HTTP_UNLOCK); (bs "PATCH", NGX_HTTP_PATCH);
   (bs "TRACE", NGX_HTTP_TRACE)].

Fixpoint assoc_bytes (name : list Z) (tbl : list (list Z * Z)) : option Z :=
  match tbl with
  | [] => None
  | (k, v) :: tbl => if bool_decide (name = k) then Some v else assoc_bytes name tbl
  end.

Definition method_lookup (name : list Z) : option Z := assoc_bytes name method_table.

Section MethodNames.
Variables (buf : list Z) (m p old : Z).
Hypothesis Hm : 0 ≤ m ≤ p.
Hypothesis Hsp : at_ buf p = Some " "%ch.
Let name := slice buf m (p - m).

Lemma name_length : length name = Z.to_nat (p - m).
Proof.
  unfold name, slice. pose proof (at_Some_lt _ _ _ Hsp).
  rewrite length_take, length_drop. lia.
Qed.

Lemma strcmp_name s :
  Z.of_nat (length s) = p - m → ngx_strcmp_at buf m s = bool_decide (name = s).
Proof. intros Hs. unfold ngx_strcmp_at. by rewrite Hs. Qed.

Lemma strcmp_name_space s :
  Z.of_nat (length s) = p - m →
  ngx_strcmp_at buf m (s ++ bs " ") = bool_decide (name = s).
Proof.
  intros Hs. unfold ngx_strcmp_at. rewrite length_app.
  replace (Z.of_nat (length s + length (bs " "))) with (p - m + 1) by (simpl; lia).
  rewrite (slice_snoc _ _ _ " "%ch); [|lia|lia|by replace (m + (p - m)) with p by lia].
  apply bool_decide_ext. split; [|unfold name; by intros ->].
  by intros [? _]%(app_inj_tail (A:=Z)).
Qed.

Lemma name_second c : 2 ≤ p - m → at_ buf (m + 1) = Some c ↔ name !! 1%nat = Some c.
Proof.
  intros. unfold name, slice, at_. destruct (Z.ltb_spec (m + 1) 0); [lia|].
  rewrite lookup_take, decide_True, lookup_drop by lia.
  by replace (Z.to_nat m + 1)%nat with (Z.to_nat (m + 1)) by lia.
Qed.

(** A name of another length is not [k]. *)
Lemma other_length k : Z.of_nat (length k) ≠ p - m → bool_decide (name = k) = false.
Proof.
  intros Hk. apply bool_decide_eq_false_2. intros E. apply Hk.
  rewrite <- E, name_length. lia.
Qed.

Ltac drop_other_lengths :=
  repeat match goal with
  | |- context [bool_decide (name = ?k)] =>
      let E := fresh in
      assert (E : Z.of_nat (length k) <> p - m) by (cbn; lia);
      rewrite (other_length k E); clear E
  end.

(** Only one of the comparisons left can succeed. *)
Ltac pick_name :=
  repeat match goal with
  | |- context [bool_decide (name = ?k)] =>
      destruct (decide (name = k)) as [->|?];
      [vm_compute; reflexivity|rewrite !(bool_decide_eq_false_2 (name = k)) by done]
  end; try case_bool_decide; reflexivity.

Lemma method_of_table : method_of buf m p old = default old (method_lookup name).
Proof.
  unfold method_of, method_lookup, method_table, assoc_bytes.
  change (bs "GET ") with (bs "GET" ++ bs " ").
  change (bs "PUT ") with (bs "PUT" ++ bs " ").
  change (bs "OPTIONS ") with (bs "OPTIONS" ++ bs " ").
  destruct (Z.eqb_spec (p - m) 3) as [Hn|]; [|
  destruct (Z.eqb_spec (p - m) 4) as [Hn|]; [|
  destruct (Z.eqb_spec (p - m) 5) as [Hn|]; [|
  destruct (Z.eqb_spec (p - m) 6) as [Hn|]; [|
  destruct (Z.eqb_spec (p - m) 7) as [Hn|]; [|
  destruct (Z.eqb_spec (p - m) 8) as [Hn|]; [|
  destruct (Z.eqb_spec (p - m) 9) as [Hn|]]]]]]].
  2: rewrite (bool_decide_ext _ _ (name_second "O"%ch ltac:(lia))).
  all: rewrite ?strcmp_name_space by (cbn; lia).
  all: rewrite ?strcmp_name by (cbn; lia).
  all: drop_other_lengths.
  all: clearbody name.
  all: pick_name.
Qed.
End MethodNames.

Lemma method_of_app buf more m p old :
  0 ≤ m ≤ p → p < Z.of_nat (length buf) →
  method_of (buf ++ more) m p old = method_of buf m p old.
Proof.
  intros Hm Hp. unfold method_of, ngx_strcmp_at.
  destruct (Z.eqb_spec (p - m) 3); [by rewrite !slice_app_l by (cbn; lia)|].
  destruct (Z.eqb_spec (p - m) 4); [rewrite at_app_l by lia; by rewrite !slice_app_l by (cbn; lia)|].
  destruct (Z.eqb_spec (p - m) 5); [by rewrite !slice_app_l by (cbn; lia)|].
  destruct (Z.eqb_spec (p - m) 6); [by rewrite !slice_app_l by (cbn; lia)|].
  destruct (Z.eqb_spec (p - m) 7); [by rewrite !slice_app_l by (cbn; lia)|].
  destruct (Z.eqb_spec (p - m) 8); [by rewrite !slice_app_l by (cbn; lia)|].
  destruct (Z.eqb_spec (p - m) 9); [by rewrite !slice_app_l by (cbn; lia)|done].
Qed.

(** The parser is resumable: it looks back only at the method name. *)
Definition lookback_inv (p : Z) (s : sw * request) : Prop :=
  0 ≤ deref (request_start s.2) ≤ p.

Lemma request_lookback_step buf p ch s s' :
  0 ≤ p → lookback_inv p s → step buf p ch s = Cont s' → lookback_inv (p + 1) s'.
Proof.
  destruct s as [st r]. unfold lookback_inv. cbn [snd]. intros Hp Hinv.
  destruct st; cbn [step]; unfold_step; split_ifs; intros [= <-]; cbn; lia.
Qed.

Lemma request_step_local buf more p ch s :
  0 ≤ p < Z.of_nat (length buf) → lookback_inv p s →
  step (buf ++ more) p ch s = step buf p ch s.
Proof.
  destruct s as [st r]. unfold lookback_inv. cbn [snd]. intros Hp Hinv.
  destruct st; try done. cbn [step]. unfold step_method. cbn.
  by rewrite method_of_app by lia.
Qed.

#[export] Instance request_line_resumable : ResumableParser () (sw * request) := {|
  rp_step := step; rp_inv := lookback_inv;
  rp_inv_step := request_lookback_step; rp_local := request_step_local |}.

(** The refusals that [return] from inside the loop: they leave [r->state] and
    [b->pos] alone. *)
Definition refused (rc : Z) : Prop :=
  rc = NGX_HTTP_PARSE_INVALID_METHOD ∨ rc = NGX_HTTP_PARSE_INVALID_REQUEST.

Lemma step_refused buf p ch s rc s' : step buf p ch s = Ret rc s' → refused rc.
Proof.
  destruct s as [st r]. unfold refused.
  destruct st; cbn [step]; unfold_step; split_ifs; intros [= <- <-]; auto.
Qed.

Lemma scan_refused buf pos s p rc s' :
  0 ≤ pos ≤ Z.of_nat (length buf) → scan step buf pos s = (p, Ret rc s') → refused rc.
Proof.
  intros Hpos Hs.
  pose proof (scan_rule step (λ _ _, True)
    (λ _ f, match f with Ret rc _ => refused rc | _ => True end) buf pos s) as H.
  rewrite Hs in H. apply H; [done|done| |done].
  intros q ch s0 _ _ _. destruct (step buf q ch s0) eqn:E; [done..|].
  by eapply step_refused.
Qed.

(** Two calls end alike: the same result, or the same refusal with the same
    fields filled in. *)
Definition same_result (x y : Z * (sw * request) * ngx_buf) : Prop :=
  x = y ∨ (refused x.1.1 ∧ x.1.1 = y.1.1 ∧ x.1.2.2 = y.1.2.2).

(** ** The theorems *)

(** C30: Parsing a request line as it arrives gives what parsing it at once
    gives.  When [d1] is what has been read so far, the parser either stops on
    [d1] exactly as it stops on [d1 ++ d2], or answers [NGX_AGAIN]; the next
    call, on the buffer extended by [d2], then ends as the single call does. *)
Theorem request_line_incremental r d1 d2 pos :
  0 ≤ pos ≤ Z.of_nat (length d1) → lookback_inv pos r →
  let whole := ngx_http_parse_request_line r (mk_buf (d1 ++ d2) pos) in
  let '(rc1, r1, b1) := ngx_http_parse_request_line r (mk_buf d1 pos) in
  if rc1 =? NGX_AGAIN
  then same_result whole (ngx_http_parse_request_line r1 (mk_buf (d1 ++ d2) (b_pos b1)))
  else whole = (rc1, r1, mk_buf (d1 ++ d2) (b_pos b1)).
Proof.
  intros Hpos Hinv. unfold ngx_http_parse_request_line; cbn [b_data b_pos].
  rewrite (scan_app (RP := request_line_resumable)) by done. cbn [rp_step request_line_resumable].
  destruct (scan step d1 pos r) as [p [s|[] [st s]|rc [st s]]] eqn:E1; cbn.
  - unfold same_result. destruct (scan step (d1 ++ d2) p s) as [q [s2|[] [? ?]|rc2 [? ?]]] eqn:E2;
      cbn; [by left..|].
    right. split; [|done]. eapply scan_refused; [|done].
    apply scan_pos in E1 as [? ?]; [|done]. rewrite length_app. lia.
  - unfold request_line_done. by destruct (_ && _).
  - apply scan_refused in E1; [|done]. by destruct E1 as [-> | ->].
Qed.

(** What holds of the request between two calls. *)
Definition line_inv (buf : list Z) (p : Z) (s : sw * request) : Prop :=
  request_inv buf p s.1 s.2 ∧ parts_inv buf p s.1 s.2.
Definition line_parsed (buf : list Z) (pos : Z) (r : request) : Prop :=
  request_parsed buf pos r ∧ parts_parsed buf pos r.

Lemma line_step buf p ch s : 0 ≤ p → at_ buf p = Some ch → line_inv buf p s →
  match step buf p ch s with
  | Cont s' => line_inv buf (p + 1) s'
  | Goto _ s' => line_parsed buf (p + 1) (set_request_end p s'.2)
  | Ret rc _ => refused rc
  end.
Proof.
  destruct s as [st r]. intros Hp Hch [H1 H2]. cbn [fst snd] in *.
  pose proof (request_step_inv buf p ch st r Hp Hch H1) as Hs1.
  pose proof (parts_step_inv buf p ch st r Hp Hch H1 H2) as Hs2.
  destruct (step buf p ch (st, r)) as [[]|? []|] eqn:Es; [done..|]. by eapply step_refused.
Qed.

(** C29: The pointers of a parsed request line.  From any state the parser can
    be in (a fresh request, or one that answered [NGX_AGAIN]), a call that
    accepts the line consumes it up to its line feed, and then: the request,
    its method, its URI (which starts at a slash) and its end lie in this order
    inside the consumed bytes; the schema, the host and the port are either all
    missing or follow each other behind the method, the host behind [://], and
    the URI begins where they end, or is a slash behind the schema when there is
    no path; an extension and arguments lie in the URI in this order, behind a
    dot and a question mark; the protocol is missing or lies behind the URI at
    an [H].  A call that answers [NGX_AGAIN] has consumed the buffer and is in
    such a state again. *)
Theorem request_line_pointers r b rc r' b' :
  0 ≤ b_pos b ≤ Z.of_nat (length (b_data b)) →
  line_inv (b_data b) (b_pos b) r →
  ngx_http_parse_request_line r b = (rc, r', b') →
  b_data b' = b_data b ∧
  (rc = NGX_OK → b_pos b < b_pos b' ≤ Z.of_nat (length (b_data b)) ∧
     line_parsed (b_data b) (b_pos b') r'.2 ∧ r'.1 = sw_start) ∧
  (rc = NGX_AGAIN → b_pos b' = Z.of_nat (length (b_data b)) ∧
     line_inv (b_data b) (b_pos b') r').
Proof.
  intros Hpos Hinv. unfold ngx_http_parse_request_line.
  destruct (scan step (b_data b) (b_pos b) r) as [p f] eqn:E.
  pose proof (scan_pos _ _ _ _ _ _ Hpos E) as Hp.
  set (Post := λ (p : Z) (f : outcome), match f with
            | Cont s => line_inv (b_data b) p s
            | Goto _ s => line_parsed (b_data b) (p + 1) (set_request_end p s.2)
            | Ret rc _ => refused rc
            end).
  assert (Hf : Post p f).
  { pose proof (scan_rule step (λ p s, line_inv (b_data b) p s) Post (b_data b) (b_pos b) r Hpos Hinv) as H.
    rewrite E in H. apply H; [|done].
    intros q ch s Hq Hch Hi. unfold Post. apply (line_step (b_data b) q ch s); [lia|done|done]. }
  unfold Post in Hf. destruct f as [s|[] [st s]|rc0 [st s]].
  - intros [= <- <- <-]. cbn. split; [done|]. split; [done|]. intros _. split; [lia|done].
  - destruct (request_line_done p s) as [rc0 r0] eqn:Ed. intros [= <- <- <-]. cbn.
    destruct Hf as [Hf1 Hf2]. cbn [snd] in Hf1, Hf2.
    apply request_line_done_parsed in Hf1. apply request_line_done_parts in Hf2. rewrite Ed in Hf1, Hf2.
    split; [done|]. split; [intros _; split; [lia|]|].
    + split; [by split|]. unfold request_line_done in Ed. case_match; by simplify_eq.
    + unfold request_line_done in Ed. case_match; by simplify_eq.
  - intros [= <- <- <-]. destruct Hf as [-> | ->]; done.
Qed.

(** ** Well-formed lines are accepted *)

(** A path, after its first slash, whose segments are neither empty nor start
    with a dot and that needs no decoding: letters, digits and the other
    [usual] characters, single slashes and inner dots. *)
Fixpoint plain_path (after_slash : bool) (path : list Z) : bool :=
  match path with
  | [] => true
  | c :: path =>
      if is_usual c then plain_path false path
      else if after_slash then false
      else if c =? "/"%ch then plain_path true path
      else if c =? "."%ch then plain_path false path
      else false
  end.

Definition uri_state (after_slash : bool) : sw :=
  if after_slash then sw_after_slash_in_uri else sw_check_uri.

Lemma scan_plain_path buf path rest : ∀ a p r,
  plain_path a path = true →
  ∃ a' ext,
    scan_from step buf p (path ++ rest) (uri_state a, r) =
    scan_from step buf (p + Z.of_nat (length path)) rest
      (uri_state a', r <| uri_ext := ext |>).
Proof.
  induction path as [|c path IH]; intros a p r Hp.
  - exists a, (uri_ext r). rewrite Z.add_0_r. by destruct r.
  - replace (p + Z.of_nat (length (c :: path))) with (p + 1 + Z.of_nat (length path))
      by (simpl; lia).
    cbn [plain_path] in Hp. cbn [app scan_from].
    destruct (is_usual c) eqn:Eu.
    + destruct (IH false (p + 1) r Hp) as (a' & ext & E). exists a', ext. rewrite <- E.
      by destruct a; cbn; unfold step_after_slash_in_uri, step_check_uri; rewrite Eu.
    + destruct a; [done|]. cbn. unfold step_check_uri. rewrite Eu.
      destruct (c =? "/"%ch).
      * destruct (IH true (p + 1) (r <| uri_ext := None |>) Hp) as (a' & ext & E).
        by exists a', ext.
      * destruct (c =? "."%ch); [|done].
        destruct (IH false (p + 1) (r <| uri_ext := Some (p + 1) |>) Hp) as (a' & ext & E).
        by exists a', ext.
Qed.

Lemma scan_method_name buf meth rest : ∀ p r,
  Forall (λ c, invalid_method_char c = false) meth →
  scan_from step buf p (meth ++ rest) (sw_method, r) =
  scan_from step buf (p + Z.of_nat (length meth)) rest (sw_method, r).
Proof.
  induction meth as [|c meth IH]; intros p r Hm; [by rewrite Z.add_0_r|].
  inversion Hm as [|?? Hc Hm']; subst. cbn [app scan_from step]. unfold step_method.
  rewrite Hc. destruct (Z.eqb_spec c " "%ch); [by subst|].
  rewrite IH by done. f_equal. simpl. lia.
Qed.

Lemma request_scan_version buf a p r maj min rest :
  "1"%ch ≤ maj ≤ "9"%ch → "0"%ch ≤ min ≤ "9"%ch →
  scan_from step buf p (bs " HTTP/" ++ maj :: "."%ch :: min :: CR :: LF :: rest)
    (uri_state a, r) =
  (p + 10, Goto () (sw_almost_done,
    r <| uri_end := Some p |> <| http_protocol_data := Some (p + 1) |>
      <| http_major := maj - 48 |> <| http_minor := min - 48 |>
      <| request_end := Some (p + 9) |>)).
Proof.
  intros Hmaj Hmin.
  assert (E1 : (maj <? "1"%ch) || ("9"%ch <? maj) = false) by lia.
  assert (E2 : is_digit min = true) by (unfold is_digit; lia).
  destruct a; cbn [uri_state step app scan_from bs];
    unfold step_after_slash_in_uri, step_check_uri;
    change (is_usual " "%ch) with false; cbn;
    unfold step_first_major_digit; rewrite E1; cbn;
    unfold step_first_minor_digit; rewrite E2; cbn;
    rewrite !u16_id by lia;
    replace (p + 1 + 1 + 1 + 1 + 1 + 1 + 1 + 1 + 1 + 1) with (p + 10) by lia;
    replace (p + 10 - 1) with (p + 9) by lia; reflexivity.
Qed.

Lemma scan_method buf c meth rest r :
  invalid_method_char c = false → Forall (λ c, invalid_method_char c = false) meth →
  let n := Z.of_nat (length (c :: meth)) in
  scan_from step buf 0 (c :: meth ++ bs " /" ++ rest) (sw_start, r) =
  scan_from step buf (n + 2) rest
    (uri_state true, r <| request_start := Some 0 |> <| method_end := Some (n - 1) |>
      <| method := method_of buf 0 n (method r) |> <| uri_start := Some (n + 1) |>).
Proof.
  intros Hc Hmeth n. cbn [app scan_from step]. unfold step_start.
  destruct (Z.eqb_spec c CR); [by subst|]. destruct (Z.eqb_spec c LF); [by subst|].
  cbn [orb]. rewrite Hc, scan_method_name by done.
  cbn. replace (0 + 1 + Z.of_nat (length meth)) with n by (unfold n; simpl; lia).
  by replace (n + 1 + 1) with (n + 2) by lia.
Qed.

(** A request line with a method of capitals and underscores, a plain
    absolute path and a one-digit version is accepted, whatever follows it; its
    parts are found where they are, the method is the one registered under the
    name, and no flag asks for further treatment of the URI. *)
Theorem request_line_accepts meth path maj min rest :
  meth ≠ [] → Forall (λ c, invalid_method_char c = false) meth →
  plain_path true path = true →
  "1"%ch ≤ maj ≤ "9"%ch → "0"%ch ≤ min ≤ "9"%ch →
  let line := meth ++ bs " /" ++ path ++ bs " HTTP/" ++ [maj; "."%ch; min; CR; LF] in
  let n := Z.of_nat (length meth) in
  let e := n + 2 + Z.of_nat (length path) in
  ∃ ext,
    ngx_http_parse_request_line (sw_start, init_request) (mk_buf (line ++ rest) 0) =
    (NGX_OK,
     (sw_start,
      init_request
        <| request_start := Some 0 |> <| method_end := Some (n - 1) |>
        <| method := default NGX_HTTP_UNKNOWN (method_lookup meth) |>
        <| uri_start := Some (n + 1) |> <| uri_ext := ext |> <| uri_end := Some e |>
        <| http_protocol_data := Some (e + 1) |>
        <| http_major := maj - 48 |> <| http_minor := min - 48 |>
        <| request_end := Some (e + 9) |>
        <| http_version := (maj - 48) * 1000 + (min - 48) |>),
     mk_buf (line ++ rest) (Z.of_nat (length line))).
Proof.
  intros Hne Hmeth Hpath Hmaj Hmin line n e.
  set (buf := line ++ rest).
  assert (Hbuf : buf = meth ++ bs " /" ++ path ++ bs " HTTP/" ++ maj :: "."%ch :: min :: CR :: LF :: rest).
  { unfold buf, line. by rewrite <- !app_assoc. }
  assert (Hmof : method_of buf 0 n NGX_HTTP_UNKNOWN =
                 default NGX_HTTP_UNKNOWN (method_lookup meth)).
  { rewrite method_of_table; [|lia|].
    - do 2 f_equal. unfold slice, n. rewrite Hbuf, Z.sub_0_r, Nat2Z.id. apply take_app_length.
    - unfold at_. destruct (Z.ltb_spec n 0); [lia|]. unfold n. rewrite Hbuf, Nat2Z.id.
      by apply list_lookup_middle. }
  clearbody buf.
  destruct meth as [|c meth]; [done|]. inversion_clear Hmeth as [|?? Hc Hmeth'].
  assert (Hline : Z.of_nat (length line) = e + 10 + 1).
  { unfold line, e, n. rewrite !length_app. simpl. lia. }
  rewrite Hline. clear Hline line.
  set (r1 := init_request <| request_start := Some 0 |> <| method_end := Some (n - 1) |>
         <| method := method_of buf 0 n NGX_HTTP_UNKNOWN |> <| uri_start := Some (n + 1) |>).
  destruct (scan_plain_path buf path (bs " HTTP/" ++ maj :: "."%ch :: min :: CR :: LF :: rest)
              true (n + 2) r1 Hpath) as (a & ext & Epath).
  exists ext. unfold ngx_http_parse_request_line, scan. cbn [b_data b_pos].
  change (drop (Z.to_nat 0) buf) with buf. rewrite Hbuf at 2. cbn [app].
  rewrite scan_method by done. cbv zeta. change (method init_request) with NGX_HTTP_UNKNOWN.
  fold n. fold r1. rewrite Epath, request_scan_version by done. fold e.
  unfold request_line_done, set_request_end, r1. rewrite Hmof.
  generalize (default NGX_HTTP_UNKNOWN (method_lookup (c :: meth))). intros mth.
  clearbody n e. clear - Hmaj Hmin. cbn.
  replace ((maj - 48) * 1000 + (min - 48) =? 9) with false by lia. reflexivity.
Qed.

(** ** The version number *)

Lemma u16_dec_step v c : u16 (u16 v * 10 + c - 48) = u16 (v * 10 + (c - 48)).
Proof. unfold u16. zlia. Qed.

Lemma scan_digits buf (st : sw) (get : request → Z) (put : Z → request → request) ds rest :
  (∀ p c r, is_digit c → step buf p c (st, r) = Cont (st, put (u16 (get r * 10 + c - 48)) r)) →
  (∀ v w r, put v (put w r) = put v r) → (∀ v r, get (put v r) = v) →
  Forall is_digit ds → ∀ p v r,
  scan_from step buf p (ds ++ rest) (st, put (u16 v) r) =
  scan_from step buf (p + Z.of_nat (length ds)) rest (st, put (u16 (dec_from v ds)) r).
Proof.
  intros Hstep Hpp Hgp Hds. induction Hds as [|c ds Hc Hds IH]; intros p v r.
  - by rewrite Z.add_0_r.
  - cbn [app scan_from]. rewrite Hstep, Hpp, Hgp, u16_dec_step, IH by done.
    replace (p + 1 + Z.of_nat (length ds)) with (p + Z.of_nat (length (c :: ds)))
      by (simpl; lia). done.
Qed.

Lemma step_major_digit_run buf p c r :
  is_digit c →
  step buf p c (sw_major_digit, r) =
    Cont (sw_major_digit, r <| http_major := u16 (http_major r * 10 + c - 48) |>).
Proof.
  intros Hc%is_digit_range. cbn. unfold step_major_digit.
  replace (c =? "."%ch) with false by lia. by replace (is_digit c) with true by (unfold is_digit; lia).
Qed.

Lemma step_minor_digit_run buf p c r :
  is_digit c →
  step buf p c (sw_minor_digit, r) =
    Cont (sw_minor_digit, r <| http_minor := u16 (http_minor r * 10 + c - 48) |>).
Proof.
  intros Hc%is_digit_range. cbn. unfold step_minor_digit.
  replace (c =? CR) with false by lia. replace (c =? LF) with false by lia.
  replace (c =? " "%ch) with false by lia. by replace (is_digit c) with true by (unfold is_digit; lia).
Qed.

Lemma scan_long_version buf d ds e es :
  "1"%ch ≤ d ≤ "9"%ch → Forall is_digit ds → is_digit e → Forall is_digit es →
  ∃ p r,
    scan_from step buf 0 (bs "GET / HTTP/" ++ (d :: ds) ++ bs "." ++ (e :: es) ++ [CR; LF])
      (sw_start, init_request) = (p, Goto () (sw_almost_done, r)) ∧
    method r = method_of buf 0 3 NGX_HTTP_UNKNOWN ∧
    http_major r = u16 (dec (d :: ds)) ∧ http_minor r = u16 (dec (e :: es)).
Proof.
  intros Hd Hds He Hes.
  assert (E1 : (d <? "1"%ch) || ("9"%ch <? d) = false) by lia.
  assert (E2 : is_digit e = true) by by apply Is_true_true.
  eexists _, _. split; [|split; [|split]].
  - change (bs "GET / HTTP/") with ("G"%ch :: bs "ET" ++ bs " /" ++ bs " HTTP/").
    cbn [app]. rewrite <- !app_assoc, scan_method by (done || by repeat constructor).
    cbn. unfold step_after_slash_in_uri. change (is_usual " "%ch) with false.
    cbn. unfold step_first_major_digit. rewrite E1. cbn.
    rewrite (scan_digits buf sw_major_digit http_major (λ v r, r <| http_major := v |>))
      by (done || intros; by apply step_major_digit_run).
    cbn. unfold step_first_minor_digit. rewrite E2. cbn.
    rewrite (scan_digits buf sw_minor_digit http_minor (λ v r, r <| http_minor := v |>))
      by (done || intros; by apply step_minor_digit_run).
    reflexivity.
  - reflexivity.
  - reflexivity.
  - reflexivity.
Qed.

(** The two numbers of the version are kept in 16-bit fields, so a version
    is read modulo 65536: any number of digits is accepted, and the version of
    [HTTP/65537.1] is that of [HTTP/1.1]. *)
Theorem request_line_version d ds e es :
  "1"%ch ≤ d ≤ "9"%ch → Forall is_digit ds → is_digit e → Forall is_digit es →
  let b := mk_buf (bs "GET / HTTP/" ++ (d :: ds) ++ bs "." ++ (e :: es) ++ [CR; LF]) 0 in
  let '(rc, r, _) := ngx_http_parse_request_line (sw_start, init_request) b in
  rc = NGX_OK ∧ http_version r.2 = u16 (dec (d :: ds)) * 1000 + u16 (dec (e :: es)).
Proof.
  intros Hd Hds He Hes b. unfold ngx_http_parse_request_line, scan.
  change (drop (Z.to_nat (b_pos b)) (b_data b)) with (b_data b).
  destruct (scan_long_version (b_data b) d ds e es Hd Hds He Hes) as (p & r & E & Hmeth & Hmaj & Hmin).
  change (b_pos b) with 0.
  replace (scan_from step (b_data b) 0 (b_data b) (sw_start, init_request))
    with (p, Goto () (sw_almost_done, r) : outcome) by by rewrite <- E.
  rewrite <- Hmaj, <- Hmin. unfold request_line_done, set_request_end.
  change (method_of (b_data b) 0 3 NGX_HTTP_UNKNOWN) with NGX_HTTP_GET in Hmeth.
  destruct (request_end r); cbn; rewrite Hmeth; cbn; by rewrite andb_false_r.
Qed.

(** ** Witnesses *)




Lemma request_line_incremental_witness :
  let '(rc1, r1, b1) :=
    ngx_http_parse_request_line (sw_start, init_request) (mk_buf (bs "GET /in") 0) in
  same_result
    (ngx_http_parse_request_line (sw_start, init_request)
       (mk_buf (bs "GET /index HTTP/1.1" ++ [CR; LF]) 0))
    (ngx_http_parse_request_line r1
       (mk_buf (bs "GET /index HTTP/1.1" ++ [CR; LF]) (b_pos b1))).
Proof.
  by_instance (request_line_incremental (sw_start, init_request) (bs "GET /in")
    (bs "dex HTTP/1.1" ++ [CR; LF]) 0
    ltac:(vm_compute; split; discriminate) ltac:(vm_compute; split; discriminate)).
Defined.

Definition pointers_input : list Z := bs "GET http://h:80/x HTTP/1.1" ++ [CR; LF].

Lemma request_line_pointers_witness :
  ∃ r b, b_pos b = 28 ∧ line_parsed (b_data b) (b_pos b) r ∧ port_end r = Some 15 ∧ uri_start r = Some 15.
Proof.
  destruct (ngx_http_parse_request_line (sw_start, init_request) (mk_buf pointers_input 0))
    as [[rc r'] b'] eqn:E.
  pose proof (request_line_pointers (sw_start, init_request) (mk_buf pointers_input 0) _ _ _
    ltac:(vm_compute; split; discriminate) (conj (request_inv_init _ _) (parts_inv_init _ _)) E) as (Hd & Hok & _).
  vm_compute in E. injection E as <- <- <-.
  destruct (Hok eq_refl) as (_ & Hp & _).
  eexists _, (mk_buf pointers_input 28). split; [reflexivity|]. split; [exact Hp|]. split; reflexivity.
Defined.

Lemma request_line_accepts_witness :
  ∃ ext,
    ngx_http_parse_request_line (sw_start, init_request)
      (mk_buf (bs "PUT /a/b.c HTTP/1.1" ++ [CR; LF]) 0) =
    (NGX_OK,
     (sw_start,
      init_request
        <| request_start := Some 0 |> <| method_end := Some 2 |>
        <| method := NGX_HTTP_PUT |>
        <| uri_start := Some 4 |> <| uri_ext := ext |> <| uri_end := Some 10 |>
        <| http_protocol_data := Some 11 |>
        <| http_major := 1 |> <| http_minor := 1 |>
        <| request_end := Some 19 |> <| http_version := 1001 |>),
     mk_buf (bs "PUT /a/b.c HTTP/1.1" ++ [CR; LF]) 21).
Proof.
  by_instance (request_line_accepts (bs "PUT") (bs "a/b.c") "1"%ch "1"%ch []
    ltac:(done) ltac:(by repeat constructor) ltac:(done) ltac:(done) ltac:(done)).
Defined.

Lemma request_line_version_witness :
  let '(rc, r, _) :=
    ngx_http_parse_request_line (sw_start, init_request)
      (mk_buf (bs "GET / HTTP/65537.1" ++ [CR; LF]) 0) in
  rc = NGX_OK ∧ http_version r.2 = 1001.
Proof.
  by_instance (request_line_version "6"%ch (bs "5537") "1"%ch []
    ltac:(done) ltac:(by repeat constructor) ltac:(done) ltac:(done)).
Defined.
