(* ===== verification/HttpHeader.v ===== *)
(** * HTTP header lines: [ngx_http_parse_header_line]

    src/http/ngx_http_parse.c, with the hash of src/core/ngx_hash.c the parser
    computes on the way.  A call consumes one header line; the hash of the
    lower-cased name and its first 32 characters are accumulated in the request
    for the lookup of the header's handler. *)

From S2P Require Import Prelude Scan.

Module HeaderLine.

(** ** Data *)

Inductive sw : Set :=
  | sw_start | sw_name | sw_space_before_value | sw_value
  | sw_space_after_value | sw_ignore_line | sw_almost_done
  | sw_header_almost_done.

(** The labels after the loop. *)
Inductive label : Set := done | header_done.

(** The fields of [ngx_http_request_t] used to parse headers; [upstream] says
    whether [r->upstream] is set. *)
Record request := mk_request {
  header_hash : Z;
  lowcase_index : Z;
  lowcase_header : list Z;
  header_name_start : option Z;
  header_name_end : option Z;
  header_start : option Z;
  header_end : option Z;
  invalid_header : bool;
  upstream : bool;
}.

#[export] Instance eta_request : Eta request := λ r,
  mk_request (header_hash r) (lowcase_index r) (lowcase_header r)
    (header_name_start r) (header_name_end r) (header_start r) (header_end r)
    (invalid_header r) (upstream r).

Abbreviation NGX_HTTP_LC_HEADER_LEN := 32.
Abbreviation NGX_HTTP_PARSE_HEADER_DONE := 1.
Abbreviation NGX_HTTP_PARSE_INVALID_HEADER := 13.

(** [ngx_hash(key, c)] and [ngx_hash_key] of src/core/ngx_hash.[ch]. *)
Definition ngx_hash (key c : Z) : Z := u64 (u64 key * 31 + c).
Definition ngx_hash_key (data : list Z) : Z := fold_left ngx_hash data 0.

(** The table of the characters of a header name: lower case, or 0. *)
Definition lowcase_table : list Z :=
  replicate 45 0 ++ bs "-" ++ replicate 2 0 ++ bs "0123456789" ++ replicate 7 0
  ++ bs "abcdefghijklmnopqrstuvwxyz" ++ replicate 6 0
  ++ bs "abcdefghijklmnopqrstuvwxyz" ++ replicate 133 0.

Definition lowcase (ch : Z) : Z := nth (Z.to_nat ch) lowcase_table 0.
Arguments lowcase : simpl never.

(** What one execution of the loop body works on: the local variables [state],
    [hash] and [i], and the request. *)
Record locals := mk_locals { l_state : sw; l_hash : Z; l_i : Z; l_r : request }.

Abbreviation outcome := (flow label locals).

(** ** The loop body *)

(** [r->lowcase_header[i++] = c; i &= NGX_HTTP_LC_HEADER_LEN - 1] *)
Definition store_lowcase (i c : Z) (r : request) : Z * request :=
  (Z.land (i + 1) (NGX_HTTP_LC_HEADER_LEN - 1),
   r <| lowcase_header := <[Z.to_nat i := c]> (lowcase_header r) |>).

Definition step_start (p ch hash i : Z) (r : request) : outcome :=
  let r := r <| header_name_start := Some p |> <| invalid_header := false |> in
  if ch =? CR then Cont (mk_locals sw_header_almost_done hash i (r <| header_end := Some p |>))
  else if ch =? LF then
    Goto header_done (mk_locals sw_start hash i (r <| header_end := Some p |>))
  else
    let c := lowcase ch in
    if negb (c =? 0) then
      Cont (mk_locals sw_name (ngx_hash 0 c) 1
              (r <| lowcase_header := <[0%nat := c]> (lowcase_header r) |>))
    else if ch =? NUL then
      Ret NGX_HTTP_PARSE_INVALID_HEADER (mk_locals sw_name hash i r)
    else Cont (mk_locals sw_name hash i (r <| invalid_header := true |>)).

Definition step_name (allow_underscores : bool) (buf : list Z) (p ch hash i : Z)
    (r : request) : outcome :=
  let c := lowcase ch in
  if negb (c =? 0) then
    let '(i, r) := store_lowcase i c r in Cont (mk_locals sw_name (ngx_hash hash c) i r)
  else if ch =? "_"%ch then
    if allow_underscores then
      let '(i, r) := store_lowcase i ch r in
      Cont (mk_locals sw_name (ngx_hash hash ch) i r)
    else Cont (mk_locals sw_name hash i (r <| invalid_header := true |>))
  else if ch =? ":"%ch then
    Cont (mk_locals sw_space_before_value hash i (r <| header_name_end := Some p |>))
  else if ch =? CR then
    Cont (mk_locals sw_almost_done hash i
            (r <| header_name_end := Some p |> <| header_start := Some p |>
               <| header_end := Some p |>))
  else if ch =? LF then
    Goto done (mk_locals sw_name hash i
            (r <| header_name_end := Some p |> <| header_start := Some p |>
               <| header_end := Some p |>))
  else
    let start := deref (header_name_start r) in
    if (ch =? "/"%ch) && upstream r && (p - start =? 4)
       && bool_decide (slice buf start 4 = bs "HTTP") then
      Cont (mk_locals sw_ignore_line hash i r)
    else if ch =? NUL then Ret NGX_HTTP_PARSE_INVALID_HEADER (mk_locals sw_name hash i r)
    else Cont (mk_locals sw_name hash i (r <| invalid_header := true |>)).

Definition step_space_before_value (p ch hash i : Z) (r : request) : outcome :=
  if ch =? " "%ch then Cont (mk_locals sw_space_before_value hash i r)
  else if ch =? CR then
    Cont (mk_locals sw_almost_done hash i
            (r <| header_start := Some p |> <| header_end := Some p |>))
  else if ch =? LF then
    Goto done (mk_locals sw_space_before_value hash i
            (r <| header_start := Some p |> <| header_end := Some p |>))
  else if ch =? NUL then
    Ret NGX_HTTP_PARSE_INVALID_HEADER (mk_locals sw_space_before_value hash i r)
  else Cont (mk_locals sw_value hash i (r <| header_start := Some p |>)).

Definition step_value (p ch hash i : Z) (r : request) : outcome :=
  if ch =? " "%ch then
    Cont (mk_locals sw_space_after_value hash i (r <| header_end := Some p |>))
  else if ch =? CR then
    Cont (mk_locals sw_almost_done hash i (r <| header_end := Some p |>))
  else if ch =? LF then Goto done (mk_locals sw_value hash i (r <| header_end := Some p |>))
  else if ch =? NUL then Ret NGX_HTTP_PARSE_INVALID_HEADER (mk_locals sw_value hash i r)
  else Cont (mk_locals sw_value hash i r).

Definition step_space_after_value (ch hash i : Z) (r : request) : outcome :=
  if ch =? " "%ch then Cont (mk_locals sw_space_after_value hash i r)
  else if ch =? CR then Cont (mk_locals sw_almost_done hash i r)
  else if ch =? LF then Goto done (mk_locals sw_space_after_value hash i r)
  else if ch =? NUL then
    Ret NGX_HTTP_PARSE_INVALID_HEADER (mk_locals sw_space_after_value hash i r)
  else Cont (mk_locals sw_value hash i r).

Definition step_ignore_line (ch hash i : Z) (r : request) : outcome :=
  if ch =? LF then Cont (mk_locals sw_start hash i r)
  else Cont (mk_locals sw_ignore_line hash i r).

Definition step_almost_done (ch hash i : Z) (r : request) : outcome :=
  if ch =? LF then Goto done (mk_locals sw_almost_done hash i r)
  else if ch =? CR then Cont (mk_locals sw_almost_done hash i r)
  else Ret NGX_HTTP_PARSE_INVALID_HEADER (mk_locals sw_almost_done hash i r).

Definition step_header_almost_done (ch hash i : Z) (r : request) : outcome :=
  if ch =? LF then Goto header_done (mk_locals sw_header_almost_done hash i r)
  else Ret NGX_HTTP_PARSE_INVALID_HEADER (mk_locals sw_header_almost_done hash i r).

Definition step (allow_underscores : bool) (buf : list Z) (p ch : Z) (s : locals) : outcome :=
  let 'mk_locals st hash i r := s in
  match st with
  | sw_start => step_start p ch hash i r
  | sw_name => step_name allow_underscores buf p ch hash i r
  | sw_space_before_value => step_space_before_value p ch hash i r
  | sw_value => step_value p ch hash i r
  | sw_space_after_value => step_space_after_value ch hash i r
  | sw_ignore_line => step_ignore_line ch hash i r
  | sw_almost_done => step_almost_done ch hash i r
  | sw_header_almost_done => step_header_almost_done ch hash i r
  end.

(** Entry, the three ways out, and the write-back of the local variables:
    [header_done] and the [return]s leave [header_hash] and [lowcase_index]
    alone. *)
Definition ngx_http_parse_header_line (allow_underscores : bool) (r : sw * request)
    (data : list Z) (pos : Z) : Z * (sw * request) * Z :=
  let s := mk_locals r.1 (header_hash r.2) (lowcase_index r.2) r.2 in
  match scan (step allow_underscores) data pos s with
  | (p, Cont (mk_locals st hash i r')) =>
      (NGX_AGAIN, (st, r' <| header_hash := hash |> <| lowcase_index := i |>), p)
  | (p, Goto done (mk_locals _ hash i r')) =>
      (NGX_OK, (sw_start, r' <| header_hash := hash |> <| lowcase_index := i |>), p + 1)
  | (p, Goto header_done (mk_locals _ _ _ r')) =>
      (NGX_HTTP_PARSE_HEADER_DONE, (sw_start, r'), p + 1)
  | (_, Ret rc (mk_locals _ _ _ r')) => (rc, (r.1, r'), pos)
  end.

(** ** The invariant of the loop *)

Definition past_start (st : sw) : bool :=
  match st with sw_start | sw_header_almost_done => false | _ => true end.
Definition past_name (st : sw) : bool :=
  match st with
  | sw_space_before_value | sw_value | sw_space_after_value | sw_almost_done => true
  | _ => false
  end.
Definition past_spaces (st : sw) : bool :=
  match st with sw_value | sw_space_after_value | sw_almost_done => true | _ => false end.
Definition past_value (st : sw) : bool :=
  match st with sw_space_after_value | sw_almost_done => true | _ => false end.

Record header_inv (p : Z) (s : locals) : Prop := {
  hi_index : 0 ≤ l_i s < NGX_HTTP_LC_HEADER_LEN;
  hi_lowcase : length (lowcase_header (l_r s)) = 32%nat;
  hi_name_start : past_start (l_state s) → within 0 (header_name_start (l_r s)) p;
  hi_name_end : past_name (l_state s) →
    within (deref (header_name_start (l_r s)) + 1) (header_name_end (l_r s)) p;
  hi_start : past_spaces (l_state s) →
    within (deref (header_name_end (l_r s))) (header_start (l_r s)) p;
  hi_end : past_value (l_state s) →
    within (deref (header_start (l_r s))) (header_end (l_r s)) p;
  hi_done : l_state s = sw_header_almost_done → within 0 (header_end (l_r s)) p;
}.

Record header_parsed (buf : list Z) (pos : Z) (r : request) : Prop := {
  hp_name_start : within 0 (header_name_start r) pos;
  hp_name_end : within (deref (header_name_start r) + 1) (header_name_end r) pos;
  hp_start : within (deref (header_name_end r)) (header_start r) pos;
  hp_end : within (deref (header_start r)) (header_end r) pos;
  hp_line_feed : at_ buf (pos - 1) = Some LF;
  hp_lowcase : length (lowcase_header r) = 32%nat;
}.


Ltac unfold_step :=
  unfold step_start, step_name, step_space_before_value, step_value,
    step_space_after_value, step_ignore_line, step_almost_done,
    step_header_almost_done, store_lowcase.

Lemma land_31_range i : 0 ≤ Z.land i 31 < 32.
Proof. change 31 with (Z.ones 5). rewrite Z.land_ones by lia. by apply Z.mod_pos_bound. Qed.

Lemma header_step_inv a buf p ch s :
  0 ≤ p → at_ buf p = Some ch → header_inv p s →
  match step a buf p ch s with
  | Cont s' => header_inv (p + 1) s'
  | Goto done s' => header_parsed buf (p + 1) (l_r s')
  | Goto header_done s' => within 0 (header_end (l_r s')) (p + 1) ∧ at_ buf p = Some LF
  | Ret rc s' => rc = NGX_HTTP_PARSE_INVALID_HEADER
  end.
Proof.
  intros Hp Hch [H0 H1 H2 H3 H4 H5 H6]. destruct s as [st hash i r].
  pose proof (land_31_range (i + 1)) as Hi.
  destruct st; cbn in *; use_inv; unfold_step; split_ifs; try done; bool_to_prop; subst.
  all: try split; cbn in *; rewrite ?length_insert; try done; try solve_within.
  all: replace (p + 1 - 1) with p by lia; solve_within.
Qed.

(** ** Incremental parsing *)

Definition lookback_inv (p : Z) (s : locals) : Prop :=
  0 ≤ deref (header_name_start (l_r s)) ≤ p.

Lemma header_lookback_step a buf p ch s s' :
  0 ≤ p → lookback_inv p s → step a buf p ch s = Cont s' → lookback_inv (p + 1) s'.
Proof.
  destruct s as [st hash i r]. unfold lookback_inv. cbn [l_r]. intros Hp Hinv.
  destruct st; cbn [step]; unfold_step; split_ifs; intros [= <-]; cbn; lia.
Qed.

Lemma header_step_local a buf more p ch s :
  0 ≤ p < Z.of_nat (length buf) → lookback_inv p s →
  step a (buf ++ more) p ch s = step a buf p ch s.
Proof.
  destruct s as [st hash i r]. unfold lookback_inv. cbn [l_r]. intros Hp Hinv.
  destruct st; try done. cbn [step]. unfold_step.
  destruct (Z.eqb_spec (p - deref (header_name_start r)) 4).
  - by rewrite slice_app_l by lia.
  - by rewrite !andb_false_r.
Qed.

#[export] Instance header_line_resumable a : ResumableParser label locals := {|
  rp_step := step a; rp_inv := lookback_inv;
  rp_inv_step := header_lookback_step a; rp_local := header_step_local a |}.

(** The stored hash and index are not looked at inside the loop. *)
Definition put (x y : Z) (r : request) : request :=
  r <| header_hash := x |> <| lowcase_index := y |>.
Definition put_locals (x y : Z) (s : locals) : locals :=
  mk_locals (l_state s) (l_hash s) (l_i s) (put x y (l_r s)).
Definition flow_map {L S} (f : S → S) (o : flow L S) : flow L S :=
  match o with Cont s => Cont (f s) | Goto l s => Goto l (f s) | Ret rc s => Ret rc (f s) end.

Lemma step_put a x y buf p ch s :
  step a buf p ch (put_locals x y s) = flow_map (put_locals x y) (step a buf p ch s).
Proof.
  destruct s as [st hash i [? ? ? ns ? ? ? ? up]].
  destruct st; cbn; unfold_step; cbn; unfold_step; cbn; by split_ifs.
Qed.

Lemma scan_put a x y buf rest : ∀ p s,
  scan_from (step a) buf p rest (put_locals x y s) =
  let '(q, o) := scan_from (step a) buf p rest s in (q, flow_map (put_locals x y) o).
Proof.
  induction rest as [|ch rest IH]; intros p s; [done|].
  cbn [scan_from]. rewrite step_put. destruct (step a buf p ch s); cbn; [apply IH|done..].
Qed.

Lemma step_ret a buf p ch s rc s' :
  step a buf p ch s = Ret rc s' → rc = NGX_HTTP_PARSE_INVALID_HEADER.
Proof.
  destruct s as [st hash i r].
  destruct st; cbn [step]; unfold_step; split_ifs; by intros [= <- <-].
Qed.

Lemma scan_ret a buf pos s p rc s' :
  0 ≤ pos ≤ Z.of_nat (length buf) → scan (step a) buf pos s = (p, Ret rc s') →
  rc = NGX_HTTP_PARSE_INVALID_HEADER.
Proof.
  intros Hpos Hs.
  pose proof (scan_rule (step a) (λ _ _, True) (λ _ f,
    match f with Ret rc _ => rc = NGX_HTTP_PARSE_INVALID_HEADER | _ => True end) buf pos s) as H.
  rewrite Hs in H. apply H; [done|done| |done].
  intros q ch s0 _ _ _. destruct (step a buf q ch s0) eqn:E; [done..|].
  by eapply step_ret.
Qed.

(** Two calls end alike: the same result or, where the code does not write the
    hash back (the end of the header, an error), the same code and the same
    fields but for the hash. *)
Definition same_result (x y : Z * (sw * request) * Z) : Prop :=
  x = y ∨
  (x.1.1 ≠ NGX_OK ∧ x.1.1 ≠ NGX_AGAIN ∧ x.1.1 = y.1.1 ∧ put 0 0 x.1.2.2 = put 0 0 y.1.2.2).

(** ** The theorems *)

(** Parsing a header line as it arrives gives what parsing it at once gives,
    the accumulated hash and lower-cased name included: the parser either stops
    on [d1] exactly as it stops on [d1 ++ d2], or answers [NGX_AGAIN] and the
    next call, on the buffer extended by [d2], ends as the single call does. *)
Theorem header_line_incremental a r d1 d2 pos :
  0 ≤ pos ≤ Z.of_nat (length d1) → 0 ≤ deref (header_name_start r.2) ≤ pos →
  let whole := ngx_http_parse_header_line a r (d1 ++ d2) pos in
  let '(rc1, r1, pos1) := ngx_http_parse_header_line a r d1 pos in
  if rc1 =? NGX_AGAIN
  then same_result whole (ngx_http_parse_header_line a r1 (d1 ++ d2) pos1)
  else whole = (rc1, r1, pos1).
Proof.
  intros Hpos Hinv. unfold ngx_http_parse_header_line.
  rewrite (scan_app (RP := header_line_resumable a)) by done.
  cbn [rp_step header_line_resumable].
  destruct (scan (step a) d1 pos _) as [p [[st hash i r']|[] [st hash i r']|rc [st hash i r']]] eqn:E1;
    [cbn| by cbn.. |].
  - change (mk_locals st hash i (r' <| header_hash := hash |> <| lowcase_index := i |>)) with (put_locals hash i (mk_locals st hash i r')).
    unfold scan at 2. rewrite scan_put. fold (scan (step a) (d1 ++ d2) p (mk_locals st hash i r')).
    destruct (scan (step a) (d1 ++ d2) p _)
      as [q [[st2 h2 i2 r2]|[] [st2 h2 i2 r2]|rc [st2 h2 i2 r2]]] eqn:E2; cbn.
    + by left.
    + by left.
    + by right.
    + right. apply scan_ret in E2 as ->; [done|].
      apply scan_pos in E1 as [? ?]; [|done]. rewrite length_app. lia.
  - by apply scan_ret in E1 as ->.
Qed.

(** The parts of a header line.  A call that accepts a line has consumed it
    through its line feed, and the name and the value lie inside it, in order;
    whatever the outcome short of an error, no more than the 32 characters of
    [lowcase_header] have been written and the index stays inside it. *)
Theorem header_line_pointers a r data pos rc r' pos' :
  0 ≤ pos ≤ Z.of_nat (length data) →
  header_inv pos (mk_locals r.1 (header_hash r.2) (lowcase_index r.2) r.2) →
  ngx_http_parse_header_line a r data pos = (rc, r', pos') →
  (rc = NGX_OK → pos < pos' ≤ Z.of_nat (length data) ∧ header_parsed data pos' r'.2 ∧
     r'.1 = sw_start) ∧
  (rc = NGX_HTTP_PARSE_HEADER_DONE → at_ data (pos' - 1) = Some LF) ∧
  (rc = NGX_AGAIN → pos' = Z.of_nat (length data) ∧
     header_inv pos' (mk_locals r'.1 (header_hash r'.2) (lowcase_index r'.2) r'.2)).
Proof.
  intros Hpos Hinv. unfold ngx_http_parse_header_line.
  set (s0 := mk_locals r.1 _ _ _) in *.
  set (Q := λ (p : Z) (f : flow label locals), match f with
            | Cont s => header_inv p s
            | Goto done s => header_parsed data (p + 1) (l_r s)
            | Goto header_done s => at_ data p = Some LF
            | Ret rc _ => rc = NGX_HTTP_PARSE_INVALID_HEADER
            end).
  assert (HQ : Q (scan (step a) data pos s0).1 (scan (step a) data pos s0).2).
  { apply (scan_rule (step a) header_inv); [done|done| |done].
    intros q ch s Hq Hch Hs. pose proof (header_step_inv a data q ch s ltac:(lia) Hch Hs) as H.
    destruct (step a data q ch s) as [|[]|]; cbn; [done|done|by destruct H|done]. }
  destruct (scan (step a) data pos s0) as [p f] eqn:E.
  pose proof (scan_pos _ _ _ _ _ _ Hpos E) as Hp. cbn in HQ.
  destruct f as [[st h i r2]|[] [st h i r2]|rc2 [st h i r2]]; intros [= <- <- <-]; cbn in HQ.
  - split_and!; intros; [done|done|]. split; [lia|]. by destruct HQ.
  - split_and!; intros; [|done|done]. split; [lia|]. split; [by destruct HQ|done].
  - split_and!; intros; [done| |done]. by replace (p + 1 - 1) with p by lia.
  - subst. done.
Qed.

(** ** Well-formed headers are accepted *)

Lemma take_insert_last (l : list Z) i c :
  (i < length l)%nat → take (S i) (<[i := c]> l) = take i l ++ [c].
Proof.
  intros Hi. rewrite (take_S_r _ _ c) by by rewrite list_lookup_insert_eq.
  by rewrite take_insert_ge by lia.
Qed.

(** The name: every character goes to the hash and, lower-cased, to the table
    at the running index. *)
Lemma scan_name a buf name rest : ∀ p hash i r,
  Forall (λ c, lowcase c ≠ 0) name →
  ∃ i' lh,
    scan_from (step a) buf p (name ++ rest) (mk_locals sw_name hash i r) =
    scan_from (step a) buf (p + Z.of_nat (length name)) rest
      (mk_locals sw_name (fold_left ngx_hash (lowcase <$> name) hash) i'
         (r <| lowcase_header := lh |>)) ∧
    (length (lowcase_header r) = 32%nat → 0 ≤ i →
     (Z.to_nat i + length name < 32)%nat →
     take (Z.to_nat i + length name) lh =
       take (Z.to_nat i) (lowcase_header r) ++ (lowcase <$> name)).
Proof.
  induction name as [|c name IH]; intros p hash i r Hname.
  - exists i, (lowcase_header r). split; [|by rewrite Nat.add_0_r, app_nil_r].
    rewrite Z.add_0_r. by destruct r.
  - inversion_clear Hname as [|?? Hc Hname'].
    replace (p + Z.of_nat (length (c :: name))) with (p + 1 + Z.of_nat (length name))
      by (simpl; lia).
    destruct (IH (p + 1) (ngx_hash hash (lowcase c)) (Z.land (i + 1) 31)
      (r <| lowcase_header := <[Z.to_nat i := lowcase c]> (lowcase_header r) |>) Hname')
      as (i' & lh & E & Hlh).
    exists i', lh. split.
    + cbn [app scan_from step fmap list_fmap fold_left]. unfold step_name, store_lowcase.
      replace (lowcase c =? 0) with false by lia. exact E.
    + intros Hl Hi Hn. cbn in Hlh, Hn. rewrite length_insert in Hlh.
      assert (Hlast := take_insert_last (lowcase_header r) (Z.to_nat i) (lowcase c) ltac:(lia)).
      replace (Z.land (i + 1) 31) with (i + 1) in Hlh
        by (change 31 with (Z.ones 5); rewrite Z.land_ones, Z.mod_small; lia).
      replace (Z.to_nat (i + 1)) with (S (Z.to_nat i)) in Hlh by lia.
      specialize (Hlh Hl ltac:(lia) ltac:(lia)). rewrite Hlast in Hlh.
      cbn [length fmap list_fmap]. rewrite Nat.add_succ_r. cbn [plus] in Hlh.
      rewrite Hlh. by rewrite <- app_assoc.
Qed.

(** A byte of a header value, or of the spaces around it. *)
Definition value_char (c : Z) : Prop := c ≠ CR ∧ c ≠ LF ∧ c ≠ NUL.

Lemma value_tests c :
  value_char c → (c =? CR) = false ∧ (c =? LF) = false ∧ (c =? NUL) = false.
Proof. unfold value_char. lia. Qed.

Lemma scan_value a buf hash i v rest : ∀ st p r,
  st = sw_value ∨ st = sw_space_after_value →
  Forall value_char v → v ≠ [] → List.last v 0 ≠ " "%ch →
  ∃ e,
    scan_from (step a) buf p (v ++ rest) (mk_locals st hash i r) =
    scan_from (step a) buf (p + Z.of_nat (length v)) rest
      (mk_locals sw_value hash i (r <| header_end := e |>)).
Proof.
  induction v as [|c v IH]; intros st p r Hst Hv Hne Hlast; [done|].
  inversion_clear Hv as [|?? Hc Hv'].
  destruct (value_tests c Hc) as (E1 & E2 & E3).
  replace (p + Z.of_nat (length (c :: v))) with (p + 1 + Z.of_nat (length v)) by (simpl; lia).
  assert (Hstep : ∃ st' e', step a buf p c (mk_locals st hash i r) =
      Cont (mk_locals st' hash i (r <| header_end := e' |>)) ∧
      (st' = sw_value ∨ st' = sw_space_after_value) ∧ (c ≠ " "%ch → st' = sw_value)).
  { assert (Hid : r = r <| header_end := header_end r |>) by by destruct r.
    destruct Hst as [-> | ->]; cbn; unfold step_value, step_space_after_value;
      rewrite E1, E2, E3; destruct (Z.eqb_spec c " "%ch).
    - exists sw_space_after_value, (Some p). naive_solver.
    - exists sw_value, (header_end r). rewrite <- Hid. naive_solver.
    - exists sw_space_after_value, (header_end r). rewrite <- Hid. naive_solver.
    - exists sw_value, (header_end r). rewrite <- Hid. naive_solver. }
  destruct Hstep as (st' & e' & Hs & Hst' & Hsp).
  cbn [app scan_from]. rewrite Hs. destruct v as [|d v].
  - exists e'. rewrite Z.add_0_r, Hsp; [done|]. intros ->. by apply Hlast.
  - destruct (IH st' (p + 1) (r <| header_end := e' |>) Hst' Hv' ltac:(done)) as (e & E).
    { intros H. apply Hlast. exact H. }
    exists e. exact E.
Qed.

Lemma scan_spaces a buf st hash i r k rest :
  st = sw_space_before_value ∨ st = sw_space_after_value → ∀ p,
  scan_from (step a) buf p (replicate k " "%ch ++ rest) (mk_locals st hash i r) =
  scan_from (step a) buf (p + Z.of_nat k) rest (mk_locals st hash i r).
Proof.
  intros Hst. induction k as [|k IH]; intros p; [by rewrite Z.add_0_r|].
  replace (p + Z.of_nat (S k)) with (p + 1 + Z.of_nat k) by lia. rewrite <- IH.
  by destruct Hst as [-> | ->].
Qed.

(** The end of a line, after a value: any number of spaces, CR, LF. *)
Lemma scan_line_end a buf hash i r k rest p :
  ∃ q,
  scan_from (step a) buf p (replicate k " "%ch ++ CR :: LF :: rest)
    (mk_locals sw_value hash i r) =
  (p + Z.of_nat k + 1, Goto done (mk_locals q hash i (r <| header_end := Some p |>))).
Proof.
  destruct k as [|k]; eexists.
  - rewrite Z.add_0_r. reflexivity.
  - cbn. rewrite scan_spaces by auto. cbn.
    replace (p + Z.of_nat (S k) + 1) with (p + 1 + Z.of_nat k + 1) by lia. reflexivity.
Qed.

Lemma scan_header_line a buf r hash i name k v j rest :
  name ≠ [] → Forall (λ c, lowcase c ≠ 0) name →
  v ≠ [] → Forall value_char v → head v ≠ Some " "%ch → List.last v 0 ≠ " "%ch →
  length (lowcase_header r) = 32%nat → (length name < 32)%nat →
  ∃ q i' lh e,
    scan_from (step a) buf 0
      (name ++ bs ":" ++ replicate k " "%ch ++ v ++ replicate j " "%ch ++ CR :: LF :: rest)
      (mk_locals sw_start hash i r) =
    (Z.of_nat (length name + 1 + k + length v + j + 1),
     Goto done (mk_locals q (ngx_hash_key (lowcase <$> name)) i'
       (r <| header_name_start := Some 0 |> <| invalid_header := false |>
          <| lowcase_header := lh |>
          <| header_name_end := Some (Z.of_nat (length name)) |>
          <| header_start := Some (Z.of_nat (length name + 1 + k)) |>
          <| header_end := e |>
          <| header_end := Some (Z.of_nat (length name + 1 + k + length v)) |>)))
    ∧ take (length name) lh = lowcase <$> name.
Proof.
  intros Hne Hname Hvne Hv Hhd Hlast Hlen Hshort.
  destruct name as [|c name]; [done|]. inversion_clear Hname as [|?? Hc Hname'].
  destruct v as [|d v]; [done|]. inversion_clear Hv as [|?? Hd Hv'].
  destruct (value_tests d Hd) as (D1 & D2 & D3).
  assert (C1 : c ≠ CR) by (intros ->; by apply Hc).
  assert (C2 : c ≠ LF) by (intros ->; by apply Hc).
  assert (D0 : d ≠ " "%ch) by (intros ->; by apply Hhd).
  cbn [app scan_from step]. unfold step_start.
  replace (c =? CR) with false by lia. replace (c =? LF) with false by lia.
  replace (lowcase c =? 0) with false by lia. cbn [negb orb]. cbv iota.
  destruct (scan_name a buf name
    (bs ":" ++ replicate k " "%ch ++ d :: v ++ replicate j " "%ch ++ CR :: LF :: rest)
    (0 + 1) (ngx_hash 0 (lowcase c)) 1
    (r <| header_name_start := Some 0 |> <| invalid_header := false |>
       <| lowcase_header := <[0%nat:=lowcase c]> (lowcase_header r) |>) Hname')
    as (i' & lh & E & Hlh).
  setoid_rewrite E. clear E. set (n := Z.of_nat (length (c :: name))).
  replace (0 + 1 + Z.of_nat (length name)) with n by (unfold n; simpl; lia).
  cbn [bs app scan_from step]. unfold step_name at 1. change (lowcase ":"%ch) with 0. cbn [Z.eqb negb].
  change (":"%ch =? "_"%ch) with false. cbn [Z.eqb Pos.eqb].
  rewrite scan_spaces by auto. cbn [scan_from step]. unfold step_space_before_value.
  replace (d =? " "%ch) with false by lia. rewrite D1, D2, D3.
  set (r1 := r <| header_name_start := Some 0 |> <| invalid_header := false |>
               <| lowcase_header := lh |> <| header_name_end := Some n |>
               <| header_start := Some (n + 1 + Z.of_nat k) |>).
  assert (Hval : ∃ e, scan_from (step a) buf (n + 1 + Z.of_nat k + 1)
      (v ++ replicate j " "%ch ++ CR :: LF :: rest)
      (mk_locals sw_value (ngx_hash_key (lowcase <$> c :: name)) i' r1) =
    scan_from (step a) buf (n + 1 + Z.of_nat k + 1 + Z.of_nat (length v))
      (replicate j " "%ch ++ CR :: LF :: rest)
      (mk_locals sw_value (ngx_hash_key (lowcase <$> c :: name)) i' (r1 <| header_end := e |>))).
  { destruct v as [|d' v]; [exists (header_end r); by rewrite Z.add_0_r|].
    by apply scan_value; auto. }
  destruct Hval as [e Hval].
  destruct (scan_line_end a buf (ngx_hash_key (lowcase <$> c :: name)) i'
     (r1 <| header_end := e |>) j rest (n + 1 + Z.of_nat k + 1 + Z.of_nat (length v))) as [q Hend].
  exists q, i', lh, e. split.
  - etrans; [exact Hval|]. rewrite Hend. unfold r1.
    set (m := n + 1 + Z.of_nat k + 1 + Z.of_nat (length v)).
    replace (Z.of_nat (length (c :: name) + 1 + k + length (d :: v) + j + 1))
      with (m + Z.of_nat j + 1) by (unfold m, n; simpl; lia).
    replace (Z.of_nat (length (c :: name) + 1 + k + length (d :: v))) with m
      by (unfold m, n; simpl; lia).
    replace (Z.of_nat (length (c :: name) + 1 + k)) with (n + 1 + Z.of_nat k)
      by (unfold n; simpl; lia).
    reflexivity.
  - cbn in Hlh. rewrite length_insert in Hlh.
    specialize (Hlh Hlen ltac:(lia) ltac:(simpl in Hshort; lia)).
    change (Z.to_nat 1) with 1%nat in Hlh. cbn [plus] in Hlh. cbn [length].
    rewrite Hlh. by destruct (lowcase_header r).
Qed.

(** A header line [name: value] is accepted, whatever follows it.  For a name
    of token characters (letters in any case, digits, dashes) and a value
    without CR, LF or NUL that neither starts nor ends with a space, the name
    and the value are exactly located, spaces around the value being dropped,
    and the stored hash is the hash of the lower-cased name, which is also what
    the table of the lower-cased name holds (names of less than 32 bytes). *)
Theorem header_line_accepts a r name k v j rest :
  name ≠ [] → Forall (λ c, lowcase c ≠ 0) name →
  v ≠ [] → Forall value_char v → head v ≠ Some " "%ch → List.last v 0 ≠ " "%ch →
  length (lowcase_header r) = 32%nat → (length name < 32)%nat →
  let line := name ++ bs ":" ++ replicate k " "%ch ++ v ++ replicate j " "%ch ++ [CR; LF] in
  ∃ r',
    ngx_http_parse_header_line a (sw_start, r) (line ++ rest) 0 =
      (NGX_OK, (sw_start, r'), Z.of_nat (length line)) ∧
    header_name_start r' = Some 0 ∧
    header_name_end r' = Some (Z.of_nat (length name)) ∧
    header_start r' = Some (Z.of_nat (length name + 1 + k)) ∧
    header_end r' = Some (Z.of_nat (length name + 1 + k + length v)) ∧
    invalid_header r' = false ∧
    header_hash r' = ngx_hash_key (lowcase <$> name) ∧
    take (length name) (lowcase_header r') = lowcase <$> name.
Proof.
  intros Hne Hname Hvne Hv Hhd Hlast Hlen Hshort line.
  assert (Hline : Z.of_nat (length line) = Z.of_nat (length name + 1 + k + length v + j + 1) + 1).
  { unfold line. rewrite !length_app, !length_replicate. simpl. lia. }
  rewrite Hline. unfold ngx_http_parse_header_line, scan.
  change (drop (Z.to_nat 0) (line ++ rest)) with (line ++ rest).
  destruct (scan_header_line a (line ++ rest) r (header_hash r) (lowcase_index r)
              name k v j rest) as (q & i' & lh & e & E & Hlh); [done..|].
  replace (scan_from (step a) (line ++ rest) 0 (line ++ rest) _) with
    (scan_from (step a) (line ++ rest) 0
      (name ++ bs ":" ++ replicate k " "%ch ++ v ++ replicate j " "%ch ++ CR :: LF :: rest)
      (mk_locals sw_start (header_hash r) (lowcase_index r) r)).
  2: { unfold line at 3. by rewrite <- !app_assoc. }
  rewrite E. eexists. split; [reflexivity|]. cbn. done.
Qed.

(** ** Witnesses *)

Definition fresh : request := mk_request 0 0 (replicate 32 0) None None None None false false.

Lemma header_line_incremental_witness :
  let '(rc1, r1, pos1) := ngx_http_parse_header_line false (sw_start, fresh) (bs "Ho") 0 in
  same_result
    (ngx_http_parse_header_line false (sw_start, fresh) (bs "Host: a" ++ [CR; LF]) 0)
    (ngx_http_parse_header_line false r1 (bs "Host: a" ++ [CR; LF]) pos1).
Proof.
  by_instance (header_line_incremental false (sw_start, fresh) (bs "Ho")
    (bs "st: a" ++ [CR; LF]) 0
    ltac:(vm_compute; split; discriminate) ltac:(vm_compute; split; discriminate)).
Defined.

Lemma header_inv_fresh p : 0 ≤ p → header_inv p (mk_locals sw_start 0 0 fresh).
Proof. intros. split; cbn; try done; lia. Qed.

Lemma header_line_pointers_witness :
  ∃ r, header_parsed (bs "Host: a" ++ [CR; LF]) 9 r.
Proof.
  destruct (ngx_http_parse_header_line false (sw_start, fresh) (bs "Host: a" ++ [CR; LF]) 0)
    as [[rc r] pos] eqn:E.
  pose proof (header_line_pointers false (sw_start, fresh) (bs "Host: a" ++ [CR; LF]) 0 _ _ _
    ltac:(vm_compute; split; discriminate) (header_inv_fresh 0 ltac:(lia)) E) as (Hok & _ & _).
  vm_compute in E. simplify_eq.
  destruct (Hok eq_refl) as (_ & Hp & _). eexists. exact Hp.
Defined.

Lemma header_line_accepts_witness :
  ∃ r',
    ngx_http_parse_header_line false (sw_start, fresh)
      (bs "X-Id:  a b " ++ [CR; LF]) 0 = (NGX_OK, (sw_start, r'), 13) ∧
    header_start r' = Some 7 ∧ header_end r' = Some 10 ∧
    header_hash r' = ngx_hash_key (bs "x-id").
Proof.
  destruct (header_line_accepts false fresh (bs "X-Id") 2 (bs "a b") 1 []
    ltac:(done) ltac:(by repeat constructor) ltac:(done) ltac:(by repeat constructor)
    ltac:(done) ltac:(done) ltac:(done) ltac:(cbn; lia)) as (r' & E & _ & _ & H3 & H4 & _ & H6 & _).
  exists r'. split; [exact E|]. split; [exact H3|]. split; [exact H4|exact H6].
Defined.

End HeaderLine.
