(* ===== verification/HttpStatus.v ===== *)
(** * The status line of an upstream response: [ngx_http_parse_status_line]

    src/http/ngx_http_parse.c.  The parser fills an [ngx_http_status_t] and the
    version fields of the request; like the other parsers it is resumed on
    [NGX_AGAIN]. *)

From S2P Require Import Prelude Scan.

Module StatusLine.

Inductive sw : Set :=
  | sw_start | sw_H | sw_HT | sw_HTT | sw_HTTP | sw_first_major_digit
  | sw_major_digit | sw_first_minor_digit | sw_minor_digit | sw_status
  | sw_space_after_status | sw_status_text | sw_almost_done.

(** [ngx_http_status_t], and the two 16-bit version fields of the request. *)
Record status := mk_status {
  http_version : Z;
  code : Z;
  count : Z;
  start : option Z;
  end_ : option Z;
  http_major : Z;
  http_minor : Z;
}.

#[export] Instance eta_status : Eta status := λ s,
  mk_status (http_version s) (code s) (count s) (start s) (end_ s)
    (http_major s) (http_minor s).

Abbreviation outcome := (flow () (sw * status)).

Definition step_expect (st : sw) (want : Z) (next : sw) (ch : Z) (r : status) : outcome :=
  if ch =? want then Cont (next, r) else Ret NGX_ERROR (st, r).

Definition step_first_major_digit (ch : Z) (r : status) : outcome :=
  if (ch <? "1"%ch) || ("9"%ch <? ch) then Ret NGX_ERROR (sw_first_major_digit, r)
  else Cont (sw_major_digit, r <| http_major := u16 (ch - "0"%ch) |>).

Definition step_major_digit (ch : Z) (r : status) : outcome :=
  if ch =? "."%ch then Cont (sw_first_minor_digit, r)
  else if negb (is_digit ch) then Ret NGX_ERROR (sw_major_digit, r)
  else Cont (sw_major_digit, r <| http_major := u16 (http_major r * 10 + ch - "0"%ch) |>).

Definition step_first_minor_digit (ch : Z) (r : status) : outcome :=
  if negb (is_digit ch) then Ret NGX_ERROR (sw_first_minor_digit, r)
  else Cont (sw_minor_digit, r <| http_minor := u16 (ch - "0"%ch) |>).

Definition step_minor_digit (ch : Z) (r : status) : outcome :=
  if ch =? " "%ch then Cont (sw_status, r)
  else if negb (is_digit ch) then Ret NGX_ERROR (sw_minor_digit, r)
  else Cont (sw_minor_digit, r <| http_minor := u16 (http_minor r * 10 + ch - "0"%ch) |>).

Definition step_status (p ch : Z) (r : status) : outcome :=
  if ch =? " "%ch then Cont (sw_status, r)
  else if negb (is_digit ch) then Ret NGX_ERROR (sw_status, r)
  else
    let r := r <| code := u64 (code r * 10 + ch - "0"%ch) |> in
    let r := r <| count := u64 (count r + 1) |> in
    if count r =? 3 then Cont (sw_space_after_status, r <| start := Some (p - 2) |>)
    else Cont (sw_status, r).

Definition step_space_after_status (ch : Z) (r : status) : outcome :=
  if ch =? " "%ch then Cont (sw_status_text, r)
  else if ch =? "."%ch then Cont (sw_status_text, r)
  else if ch =? CR then Cont (sw_almost_done, r)
  else if ch =? LF then Goto () (sw_space_after_status, r)
  else Ret NGX_ERROR (sw_space_after_status, r).

Definition step_status_text (ch : Z) (r : status) : outcome :=
  if ch =? CR then Cont (sw_almost_done, r)
  else if ch =? LF then Goto () (sw_status_text, r)
  else Cont (sw_status_text, r).

Definition step_almost_done (p ch : Z) (r : status) : outcome :=
  let r := r <| end_ := Some (p - 1) |> in
  if ch =? LF then Goto () (sw_almost_done, r) else Ret NGX_ERROR (sw_almost_done, r).

Definition step (buf : list Z) (p ch : Z) (s : sw * status) : outcome :=
  let '(st, r) := s in
  match st with
  | sw_start => step_expect sw_start "H"%ch sw_H ch r
  | sw_H => step_expect sw_H "T"%ch sw_HT ch r
  | sw_HT => step_expect sw_HT "T"%ch sw_HTT ch r
  | sw_HTT => step_expect sw_HTT "P"%ch sw_HTTP ch r
  | sw_HTTP => step_expect sw_HTTP "/"%ch sw_first_major_digit ch r
  | sw_first_major_digit => step_first_major_digit ch r
  | sw_major_digit => step_major_digit ch r
  | sw_first_minor_digit => step_first_minor_digit ch r
  | sw_minor_digit => step_minor_digit ch r
  | sw_status => step_status p ch r
  | sw_space_after_status => step_space_after_status ch r
  | sw_status_text => step_status_text ch r
  | sw_almost_done => step_almost_done p ch r
  end.

Definition ngx_http_parse_status_line (r : sw * status) (data : list Z) (pos : Z) :
    Z * (sw * status) * Z :=
  match scan step data pos r with
  | (p, Cont s) => (NGX_AGAIN, s, p)
  | (p, Goto _ (_, s)) =>
      let s := match end_ s with None => s <| end_ := Some p |> | Some _ => s end in
      let s := s <| http_version := http_major s * 1000 + http_minor s |> in
      (NGX_OK, (sw_start, s), p + 1)
  | (_, Ret rc (_, s)) => (rc, (r.1, s), pos)
  end.

(** ** Theorems *)

Definition fresh : status := mk_status 0 0 0 None None 0 0.

Ltac unfold_step :=
  unfold step_expect, step_first_major_digit, step_major_digit, step_first_minor_digit,
    step_minor_digit, step_status, step_space_after_status, step_status_text,
    step_almost_done.

#[export] Program Instance status_line_resumable : ResumableParser () (sw * status) := {|
  rp_step := step; rp_inv := λ _ _, True |}.
Solve Obligations with done.

(** How many digits of the code have been read, and where the code is. *)
Definition status_inv (p : Z) (s : sw * status) : Prop :=
  end_ s.2 = None ∧
  match s.1 with
  | sw_space_after_status | sw_status_text | sw_almost_done =>
      0 ≤ code s.2 < 1000 ∧ within 0 (start s.2) (p - 2)
  | sw_status =>
      0 ≤ count s.2 ≤ 2 ∧ count s.2 ≤ p ∧
      (count s.2 = 0 → code s.2 = 0) ∧ (count s.2 = 1 → 0 ≤ code s.2 < 10) ∧
      (count s.2 = 2 → 0 ≤ code s.2 < 100)
  | _ => count s.2 = 0 ∧ code s.2 = 0
  end.

Definition status_done (p : Z) (s : status) : Prop :=
  0 ≤ code s < 1000 ∧ within 0 (start s) (p - 2) ∧
  (end_ s = None ∨ end_ s = Some (p - 1)).

Lemma status_step_inv buf p ch s :
  0 ≤ p → status_inv p s →
  match step buf p ch s with
  | Cont s' => status_inv (p + 1) s'
  | Goto _ s' => status_done p s'.2
  | Ret rc _ => rc = NGX_ERROR
  end.
Proof.
  intros Hp. destruct s as [st r]. unfold status_inv, status_done. cbn [fst snd].
  intros [He Hst].
  destruct st; cbn in Hst |- *; unfold_step; split_ifs; try done; bool_to_prop; cbn in *;
    destruct_and?.
  all: try (split_and!; try done; solve [lia | by left | by right | solve_within]).
  all: assert (48 ≤ ch ≤ 57) by by apply is_digit_range, Is_true_true.
  all: rewrite (u64_id (count r + 1)) in * by lia.
  all: rewrite (u64_id (code r * 10 + ch - 48)) in * by lia.
  all: split_and!; try done; solve [lia | solve_within].
Qed.

Lemma scan_status buf pos s :
  0 ≤ pos ≤ Z.of_nat (length buf) → status_inv pos s →
  match scan step buf pos s with
  | (p, Cont s') => status_inv p s'
  | (p, Goto _ s') => status_done p s'.2
  | (_, Ret rc _) => rc = NGX_ERROR
  end.
Proof.
  intros Hpos Hinv.
  pose proof (scan_rule step status_inv (λ p f, match f with
    | Cont s' => status_inv p s' | Goto _ s' => status_done p s'.2
    | Ret rc _ => rc = NGX_ERROR end) buf pos s Hpos Hinv) as H.
  destruct (scan step buf pos s) as [p f]. apply H; [|done].
  intros q ch s0 Hq _ Hs. apply (status_step_inv buf q ch) in Hs; [|lia].
  by destruct (step buf q ch s0).
Qed.

(** Two calls end alike: the same result, or the same error with the same
    fields filled in. *)
Definition same_result (x y : Z * (sw * status) * Z) : Prop :=
  x = y ∨ (x.1.1 = NGX_ERROR ∧ y.1.1 = NGX_ERROR ∧ x.1.2.2 = y.1.2.2).

(** Parsing a status line as it arrives gives what parsing it at once gives. *)
Theorem status_line_incremental r d1 d2 pos :
  0 ≤ pos ≤ Z.of_nat (length d1) → status_inv pos r →
  let whole := ngx_http_parse_status_line r (d1 ++ d2) pos in
  let '(rc1, r1, pos1) := ngx_http_parse_status_line r d1 pos in
  if rc1 =? NGX_AGAIN
  then same_result whole (ngx_http_parse_status_line r1 (d1 ++ d2) pos1)
  else whole = (rc1, r1, pos1).
Proof.
  intros Hpos Hinv. unfold ngx_http_parse_status_line.
  rewrite (scan_app (RP := status_line_resumable)) by done. cbn [rp_step status_line_resumable].
  pose proof (scan_status d1 pos r Hpos Hinv) as H1.
  destruct (scan step d1 pos r) as [p [s|[] [st s]|rc [st s]]] eqn:E1; cbn;
    [|done|by rewrite H1].
  apply scan_pos in E1; [|done].
  pose proof (scan_status (d1 ++ d2) p s ltac:(rewrite length_app; lia) H1) as H2.
  unfold same_result. by destruct (scan step (d1 ++ d2) p s) as [q [s2|[] [? ?]|rc2 [? ?]]];
    cbn; [left|left|right].
Qed.

(** An accepted status line carries a code of three digits, found inside the
    consumed bytes, and its text ends at the carriage return or line feed. *)
Theorem status_line_result r data pos rc r' pos' :
  0 ≤ pos ≤ Z.of_nat (length data) → status_inv pos r →
  ngx_http_parse_status_line r data pos = (rc, r', pos') →
  (rc = NGX_OK → 0 ≤ code r'.2 < 1000 ∧ pos < pos' ≤ Z.of_nat (length data) ∧
     within 0 (start r'.2) (pos' - 3) ∧ within (pos' - 2) (end_ r'.2) pos') ∧
  (rc = NGX_AGAIN → pos' = Z.of_nat (length data) ∧ status_inv pos' r').
Proof.
  intros Hpos Hinv. unfold ngx_http_parse_status_line.
  pose proof (scan_status data pos r Hpos Hinv) as H.
  destruct (scan step data pos r) as [p f] eqn:E.
  pose proof (scan_pos _ _ _ _ _ _ Hpos E) as Hp.
  destruct f as [s|[] [st s]|rc0 [st s]]; intros [= <- <- <-].
  - split; [done|]. intros _. by split; [lia|].
  - destruct H as (Hc & Hs & He). cbn in Hc, Hs, He. split; [|done]. intros _.
    assert (Hs' : within 0 (start s) (p + 1 - 3)) by by replace (p + 1 - 3) with (p - 2) by lia.
    destruct He as [He|He]; rewrite He; cbn; rewrite ?He; split_and!; try lia;
      try exact Hs'; apply within_some; lia.
  - by subst.
Qed.

(** ** Well-formed lines are accepted *)

Lemma scan_text buf text rest : ∀ p r,
  Forall (λ c, c ≠ CR ∧ c ≠ LF) text →
  scan_from step buf p (text ++ rest) (sw_status_text, r) =
  scan_from step buf (p + Z.of_nat (length text)) rest (sw_status_text, r).
Proof.
  induction text as [|c text IH]; intros p r Ht; [by rewrite Z.add_0_r|].
  inversion_clear Ht as [|?? [Hc1 Hc2] Ht']. cbn [app scan_from step]. unfold step_status_text.
  replace (c =? CR) with false by lia. replace (c =? LF) with false by lia.
  rewrite IH by done. by replace (p + 1 + Z.of_nat (length text)) with
    (p + Z.of_nat (length (c :: text))) by (simpl; lia).
Qed.

Lemma step_status_digit buf p d v cd n st e maj min :
  is_digit d → 0 ≤ cd < 100 → 0 ≤ n ≤ 2 →
  step buf p d (sw_status, mk_status v cd n st e maj min) =
  let cd' := cd * 10 + d - 48 in
  if n + 1 =? 3
  then Cont (sw_space_after_status, mk_status v cd' (n + 1) (Some (p - 2)) e maj min)
  else Cont (sw_status, mk_status v cd' (n + 1) st e maj min).
Proof.
  intros Hd Hcd Hn. pose proof (proj1 (is_digit_range d) Hd) as Hr.
  cbn [step]. unfold step_status. replace (d =? " "%ch) with false by lia.
  apply Is_true_true in Hd. rewrite Hd. cbn.
  rewrite (u64_id (n + 1)), (u64_id (cd * 10 + d - 48)) by lia. reflexivity.
Qed.

Lemma scan_code buf p d1 d2 d3 rest v st e maj min :
  is_digit d1 → is_digit d2 → is_digit d3 →
  scan_from step buf p (d1 :: d2 :: d3 :: rest) (sw_status, mk_status v 0 0 st e maj min) =
  scan_from step buf (p + 3) rest
    (sw_space_after_status, mk_status v (dec [d1; d2; d3]) 3 (Some p) e maj min).
Proof.
  intros H1 H2 H3. pose proof (proj1 (is_digit_range d1) H1) as R1.
  pose proof (proj1 (is_digit_range d2) H2) as R2.
  cbn -[step dec_from].
  rewrite step_status_digit by (done || lia). change (0 + 1 =? 3) with false. cbv iota zeta.
  rewrite step_status_digit by (done || lia). change (0 + 1 + 1 =? 3) with false. cbv iota zeta.
  rewrite step_status_digit by (done || lia). change (0 + 1 + 1 + 1 =? 3) with true. cbv iota zeta.
  replace (p + 1 + 1 + 1) with (p + 3) by lia. replace (p + 1 + 1 - 2) with p by lia.
  unfold dec_from. cbn. do 4 f_equal. lia.
Qed.

Lemma status_scan_version buf maj min tl r :
  "1"%ch ≤ maj ≤ "9"%ch → is_digit min →
  scan_from step buf 0 (bs "HTTP/" ++ maj :: "."%ch :: min :: " "%ch :: tl) (sw_start, r) =
  scan_from step buf 9 tl
    (sw_status, r <| http_major := maj - 48 |> <| http_minor := min - 48 |>).
Proof.
  intros Hmaj Hmin. pose proof (proj1 (is_digit_range min) Hmin) as Hr.
  apply Is_true_true in Hmin.
  cbn. unfold step_first_major_digit.
  replace ((maj <? "1"%ch) || ("9"%ch <? maj)) with false by lia.
  cbn. unfold step_first_minor_digit. rewrite Hmin. cbn. by rewrite !u16_id by lia.
Qed.

(** A status line [HTTP/x.y ddd text] is accepted, with the code it writes,
    its version, and the code and text located exactly. *)
Theorem status_line_accepts maj min d1 d2 d3 text rest :
  "1"%ch ≤ maj ≤ "9"%ch → is_digit min → is_digit d1 → is_digit d2 → is_digit d3 →
  Forall (λ c, c ≠ CR ∧ c ≠ LF) text →
  let line := bs "HTTP/" ++ [maj; "."%ch; min; " "%ch; d1; d2; d3; " "%ch] ++ text ++ [CR; LF] in
  ngx_http_parse_status_line (sw_start, fresh) (line ++ rest) 0 =
  (NGX_OK,
   (sw_start,
    mk_status ((maj - 48) * 1000 + (min - 48)) (dec [d1; d2; d3]) 3 (Some 9)
      (Some (13 + Z.of_nat (length text))) (maj - 48) (min - 48)),
   Z.of_nat (length line)).
Proof.
  intros Hmaj Hmin H1 H2 H3 Ht line.
  assert (Hline : Z.of_nat (length line) = 15 + Z.of_nat (length text)).
  { unfold line. rewrite !length_app. simpl. lia. }
  rewrite Hline. unfold ngx_http_parse_status_line, scan.
  change (drop (Z.to_nat 0) (line ++ rest)) with (line ++ rest).
  generalize (line ++ rest) at 1 as buf. intros buf.
  replace (line ++ rest) with (bs "HTTP/" ++ maj :: "."%ch :: min :: " "%ch ::
    d1 :: d2 :: d3 :: " "%ch :: text ++ CR :: LF :: rest)
    by by (unfold line; rewrite <- !app_assoc).
  rewrite status_scan_version by done.
  change (fresh <| http_major := maj - 48 |> <| http_minor := min - 48 |>)
    with (mk_status 0 0 0 None None (maj - 48) (min - 48)).
  rewrite scan_code by done. change (9 + 3) with 12.
  change (scan_from step buf 12 (" "%ch :: ?l) (sw_space_after_status, ?r))
    with (scan_from step buf 13 l (sw_status_text, r)).
  rewrite scan_text by done.
  set (e := 13 + Z.of_nat (length text)). cbn -[dec_from].
  replace (e + 1 - 1) with e by lia. replace (e + 1 + 1) with (15 + Z.of_nat (length text)) by lia.
  reflexivity.
Qed.

(** ** Instances *)

Definition sample : list Z := bs "HTTP/1.1 404 Not Found" ++ [CR; LF].

Lemma status_line_incremental_witness :
  same_result (ngx_http_parse_status_line (sw_start, fresh) sample 0)
    (ngx_http_parse_status_line
       (ngx_http_parse_status_line (sw_start, fresh) (take 11 sample) 0).1.2 sample 11).
Proof.
  by_instance (status_line_incremental (sw_start, fresh) (take 11 sample) (drop 11 sample) 0
    ltac:(vm_compute; split; congruence) ltac:(by split_and!)).
Defined.

Lemma status_line_result_witness :
  let r' := (ngx_http_parse_status_line (sw_start, fresh) sample 0).1.2 in
  0 ≤ code r'.2 < 1000.
Proof.
  destruct (ngx_http_parse_status_line (sw_start, fresh) sample 0) as [[rc r'] pos'] eqn:E.
  pose proof (status_line_result (sw_start, fresh) sample 0 rc r' pos'
    ltac:(vm_compute; split; congruence) ltac:(by split_and!) E) as [H _].
  vm_compute in E. simplify_eq. by apply H.
Defined.

Lemma status_line_accepts_witness :
  (ngx_http_parse_status_line (sw_start, fresh) sample 0).1.1 = NGX_OK.
Proof.
  by_instance (f_equal (λ x, x.1.1)
    (status_line_accepts "1"%ch "1"%ch "4"%ch "0"%ch "4"%ch (bs "Not Found") [] ltac:(lia) I I I I
      ltac:(repeat constructor; done))).
Defined.

End StatusLine.
