(* ===== verification/ComplexUri.v ===== *)
(** * Normalisation of a request URI: [ngx_http_parse_complex_uri]

    src/http/ngx_http_parse.c.  A URI in which the request-line parser saw a
    dot, a quoted character or a doubled slash is rewritten into a buffer of
    its own: escapes are decoded, [/./] and [/../] resolved and, with
    [merge_slashes], slashes merged.

    Section [C_code]: the state machine of the source.  Section [Reference]: what
    it computes, as a decoder followed by a walk over path segments.  The
    theorems tie the two together and bound every access to memory. *)

From stdpp Require Import relations.
From S2P Require Import Prelude HttpRequestLine.

Module ComplexUri.

(** ** The machine of the source *)

Inductive sw : Set :=
  | sw_usual | sw_slash | sw_dot | sw_dot_dot | sw_quoted | sw_quoted_second.

(** The locals of the function and the request fields it writes.  [p] is an
    offset of the header buffer.  [out] holds the bytes written to
    [r->uri.data], the last one first, so [u] is its length: [*u++ = c] pushes
    and [u--] pops.  [uri_ext] is an offset of [r->uri.data]. *)
Record locals := mk_locals {
  state : sw;
  quoted_state : sw;
  decoded : Z;
  ch : Z;
  p : Z;
  out : list Z;
  uri_ext : option Z;
  args_start : option Z;
  quoted_uri : bool;
  plus_in_uri : bool;
}.

#[export] Instance eta_locals : Eta locals := λ s,
  mk_locals (state s) (quoted_state s) (decoded s) (ch s) (p s) (out s)
    (uri_ext s) (args_start s) (quoted_uri s) (plus_in_uri s).

Definition u (s : locals) : Z := Z.of_nat (length (out s)).

(** The ways one execution of the loop body ends; [Fault] is a read of [*p]
    outside the buffer. *)
Inductive outcome : Type :=
  | Next (s : locals)
  | Done (s : locals)
  | Args (s : locals)
  | Invalid
  | Fault.

(** [*u++ = c]. *)
Definition put (c : Z) (s : locals) : locals := s <| out := c :: out s |>.

(** [ch = *p++]. *)
Definition fetch (buf : list Z) (s : locals) : outcome :=
  match at_ buf (p s) with
  | Some c => Next (s <| ch := c |> <| p := p s + 1 |>)
  | None => Fault
  end.

(** [for ( ;; )] of "/../": [o] holds the bytes up to and including [*u]; the
    result is what remains when [u] is just after the slash found, [None] when
    [u] runs off the start of the data. *)
Fixpoint scan_back (o : list Z) : option (list Z) :=
  match o with
  | [] => None
  | c :: o' => if c =? "/"%ch then Some o else scan_back o'
  end.

Section C_code.
Variable merge_slashes : bool.
Variable buf : list Z.

Definition step_usual (s : locals) : outcome :=
  let c := ch s in
  if is_usual c then fetch buf (put c s)
  else if c =? "/"%ch then
    fetch buf (put c (s <| uri_ext := None |> <| state := sw_slash |>))
  else if c =? "%"%ch then
    fetch buf (s <| quoted_state := state s |> <| state := sw_quoted |>)
  else if c =? "?"%ch then Args (s <| args_start := Some (p s) |>)
  else if c =? "#"%ch then Done s
  else if c =? "."%ch then fetch buf (put c (s <| uri_ext := Some (u s + 1) |>))
  else if c =? "+"%ch then fetch buf (put c (s <| plus_in_uri := true |>))
  else fetch buf (put c s).

Definition step_slash (s : locals) : outcome :=
  let c := ch s in
  if is_usual c then fetch buf (put c (s <| state := sw_usual |>))
  else if c =? "/"%ch then
    fetch buf (if merge_slashes then s else put c s)
  else if c =? "."%ch then fetch buf (put c (s <| state := sw_dot |>))
  else if c =? "%"%ch then
    fetch buf (s <| quoted_state := state s |> <| state := sw_quoted |>)
  else if c =? "?"%ch then Args (s <| args_start := Some (p s) |>)
  else if c =? "#"%ch then Done s
  else if c =? "+"%ch then
    fetch buf (put c (s <| plus_in_uri := true |> <| state := sw_usual |>))
  else fetch buf (put c (s <| state := sw_usual |>)).

Definition step_dot (s : locals) : outcome :=
  let c := ch s in
  if is_usual c then fetch buf (put c (s <| state := sw_usual |>))
  else if c =? "/"%ch then
    fetch buf (s <| state := sw_slash |> <| out := drop 1 (out s) |>)
  else if c =? "."%ch then fetch buf (put c (s <| state := sw_dot_dot |>))
  else if c =? "%"%ch then
    fetch buf (s <| quoted_state := state s |> <| state := sw_quoted |>)
  else if c =? "?"%ch then Args (s <| args_start := Some (p s) |>)
  else if c =? "#"%ch then Done s
  else if c =? "+"%ch then
    fetch buf (put c (s <| plus_in_uri := true |> <| state := sw_usual |>))
  else fetch buf (put c (s <| state := sw_usual |>)).

(** [u -= 5] leaves [u] on the fifth byte from the end. *)
Definition step_dot_dot (s : locals) : outcome :=
  let c := ch s in
  if is_usual c then fetch buf (put c (s <| state := sw_usual |>))
  else if c =? "/"%ch then
    match scan_back (drop 4 (out s)) with
    | Some o => fetch buf (s <| state := sw_slash |> <| out := o |>)
    | None => Invalid
    end
  else if c =? "%"%ch then
    fetch buf (s <| quoted_state := state s |> <| state := sw_quoted |>)
  else if c =? "?"%ch then Args (s <| args_start := Some (p s) |>)
  else if c =? "#"%ch then Done s
  else if c =? "+"%ch then
    fetch buf (put c (s <| plus_in_uri := true |> <| state := sw_usual |>))
  else fetch buf (put c (s <| state := sw_usual |>)).

Definition step_quoted (s : locals) : outcome :=
  let s := s <| quoted_uri := true |> in
  if is_digit (ch s) then
    fetch buf (s <| decoded := u8 (ch s - "0"%ch) |> <| state := sw_quoted_second |>)
  else
    let c := u8 (Z.lor (ch s) 0x20) in
    if ("a"%ch <=? c) && (c <=? "f"%ch) then
      fetch buf (s <| decoded := u8 (c - "a"%ch + 10) |> <| state := sw_quoted_second |>)
    else Invalid.

Definition step_quoted_second (s : locals) : outcome :=
  if is_digit (ch s) then
    let s := s <| ch := u8 (Z.shiftl (decoded s) 4 + ch s - "0"%ch) |> in
    if (ch s =? "%"%ch) || (ch s =? "#"%ch) then
      fetch buf (put (ch s) (s <| state := sw_usual |>))
    else if ch s =? NUL then Invalid
    else Next (s <| state := quoted_state s |>)
  else
    let c := u8 (Z.lor (ch s) 0x20) in
    if ("a"%ch <=? c) && (c <=? "f"%ch) then
      let s := s <| ch := u8 (Z.shiftl (decoded s) 4 + c - "a"%ch + 10) |> in
      if ch s =? "?"%ch then fetch buf (put (ch s) (s <| state := sw_usual |>))
      else
        let s := if ch s =? "+"%ch then s <| plus_in_uri := true |> else s in
        Next (s <| state := quoted_state s |>)
    else Invalid.

Definition step (s : locals) : outcome :=
  match state s with
  | sw_usual => step_usual s
  | sw_slash => step_slash s
  | sw_dot => step_dot s
  | sw_dot_dot => step_dot_dot s
  | sw_quoted => step_quoted s
  | sw_quoted_second => step_quoted_second s
  end.

(** [while (p <= r->uri_end)]; [None] when the fuel runs out. *)
Fixpoint run (fuel : nat) (uri_end : Z) (s : locals) : option outcome :=
  match fuel with
  | O => None
  | S fuel' =>
      if p s <=? uri_end then
        match step s with
        | Next s' => run fuel' uri_end s'
        | o => Some o
        end
      else Some (Done s)
  end.
End C_code.

(** [args:], the search for a fragment: the offset of the first "#" of
    [data[p, uri_end)]. *)
Fixpoint find_hash (q : Z) (l : list Z) : option Z :=
  match l with
  | [] => None
  | c :: l' => if c =? "#"%ch then Some q else find_hash (q + 1) l'
  end.

(** What the function leaves in the request: [r->uri]; [r->exten] and
    [r->args] as offset and length, [None] when it does not assign them. *)
Record parsed := mk_parsed {
  uri : list Z;
  exten : option (Z * Z);
  args : option (Z * Z);
  r_args_start : option Z;
  r_quoted_uri : bool;
  r_plus_in_uri : bool;
}.

#[export] Instance eta_parsed : Eta parsed := λ r,
  mk_parsed (uri r) (exten r) (args r) (r_args_start r) (r_quoted_uri r) (r_plus_in_uri r).

Definition finish (s : locals) : parsed :=
  mk_parsed (reverse (out s))
    (match uri_ext s with Some e => Some (e, u s - e) | None => None end)
    None (args_start s) (quoted_uri s) (plus_in_uri s).

Definition finish_args (buf : list Z) (uri_end : Z) (s : locals) : parsed :=
  let r := finish s in
  match find_hash (p s) (slice buf (p s) (uri_end - p s)) with
  | Some h =>
      r <| args := Some (deref (args_start s), h - deref (args_start s)) |>
        <| r_args_start := None |>
  | None => r
  end.

Inductive result : Type :=
  | Ok (r : parsed)
  | Error (rc : Z)
  | ReadFault
  | OutOfFuel.

(** [quoted] and [plus] are the flags of the request before the call. *)
Definition ngx_http_parse_complex_uri (merge_slashes : bool) (buf : list Z)
    (uri_start uri_end : Z) (quoted plus : bool) : result :=
  match at_ buf uri_start with
  | None => ReadFault
  | Some c =>
      let s := mk_locals sw_usual sw_usual NUL c (uri_start + 1) [] None None quoted plus in
      match run merge_slashes buf (Z.to_nat (2 * (uri_end - uri_start) + 1)) uri_end s with
      | None => OutOfFuel
      | Some Fault => ReadFault
      | Some Invalid => Error NGX_HTTP_PARSE_INVALID_REQUEST
      | Some (Args s) => Ok (finish_args buf uri_end s)
      | Some (Done s) | Some (Next s) => Ok (finish s)
      end
  end.

(** ** Memory safety and termination *)

Definition quoting (st : sw) : bool :=
  match st with sw_quoted | sw_quoted_second => true | _ => false end.

(** The state in which the next path character will be treated. *)
Definition mode (s : locals) : sw := if quoting (state s) then quoted_state s else state s.

(** The bytes from [e] on are an extension: they follow a dot and contain
    neither a dot nor a slash. *)
Definition is_ext (o : list Z) (e : Z) : Prop :=
  ∃ ext pre, o = ext ++ "."%ch :: pre ∧ e = Z.of_nat (length pre) + 1 ∧
    Forall (λ c, c ≠ "."%ch ∧ c ≠ "/"%ch) ext.

Lemma is_ext_put o e c : c ≠ "."%ch → c ≠ "/"%ch → is_ext o e → is_ext (c :: o) e.
Proof. intros ?? (ext & pre & -> & -> & ?). exists (c :: ext), pre. auto. Qed.

Lemma is_ext_dot o : is_ext ("."%ch :: o) (Z.of_nat (length o) + 1).
Proof. by exists [], o. Qed.

Lemma scan_back_length l l' : scan_back l = Some l' → (length l' ≤ length l)%nat.
Proof.
  induction l as [|c l IH]; [done|]. cbn. destruct (c =? "/"%ch); [by intros [= <-]|].
  intros ?%IH. lia.
Qed.

Record safe (lo hi : Z) (s : locals) : Prop := {
  safe_p : lo < p s ≤ hi + 1;
  safe_u : u s ≤ p s - 1 - lo;
  safe_quoted : quoting (quoted_state s) = false;
  safe_ext : match uri_ext s with
             | Some e => mode s = sw_usual ∧ is_ext (out s) e
             | None => True
             end;
  safe_args : args_start s = None;
}.

Definition safe_end (lo hi : Z) (s : locals) : Prop :=
  u s ≤ hi - lo ∧ lo < p s ≤ hi + 1 ∧
  match uri_ext s with Some e => is_ext (out s) e | None => True end.

(** What remains to be done, as a number that every execution of the body
    decreases. *)
Definition remaining (hi : Z) (s : locals) : Z :=
  2 * (hi - p s + 1) + match state s with sw_quoted_second => 1 | _ => 0 end.

(** What one execution of the body promises. *)
Definition body_ok (lo hi : Z) (s : locals) (o : outcome) : Prop :=
  match o with
  | Next s' => safe lo hi s' ∧ remaining hi s' < remaining hi s
  | Done s' => safe_end lo hi s' ∧ args_start s' = None
  | Args s' => safe_end lo hi s' ∧ args_start s' = Some (p s') ∧ p s' ≤ hi
  | Invalid => True
  | Fault => False
  end.

Lemma fetch_ok buf lo hi s s0 :
  0 ≤ lo → hi < Z.of_nat (length buf) →
  0 ≤ p s ≤ hi → remaining hi (s <| p := p s + 1 |>) < remaining hi s0 →
  (∀ c, safe lo hi (s <| ch := c |> <| p := p s + 1 |>)) →
  body_ok lo hi s0 (fetch buf s).
Proof.
  intros. unfold fetch, at_. destruct (Z.ltb_spec (p s) 0); [lia|].
  destruct (lookup_lt_is_Some_2 buf (Z.to_nat (p s))) as [c ->]; [lia|]. by split.
Qed.

Lemma usual_not_special c :
  is_usual c = true → c ≠ "."%ch ∧ c ≠ "/"%ch ∧ c ≠ "%"%ch ∧ c ≠ "?"%ch ∧ c ≠ "#"%ch.
Proof. intros H. split_and!; intros ->; by vm_compute in H. Qed.

Lemma step_safe m buf lo hi s :
  0 ≤ lo → hi < Z.of_nat (length buf) → safe lo hi s → p s ≤ hi →
  body_ok lo hi s (step m buf s).
Proof.
  intros Hlo Hhi [Hp Hu Hq He Ha] Hle.
  destruct s as [st q d c pp o e a qu pl]. unfold step, u, mode in *. cbn in *.
  assert (Hns := usual_not_special c). subst a.
  destruct st;
    unfold step_usual, step_slash, step_dot, step_dot_dot, step_quoted, step_quoted_second,
      put, set_field; cbn.
  all: try match goal with |- context [scan_back ?l] =>
    destruct (scan_back l) as [o'|] eqn:Eb;
    [apply scan_back_length in Eb; rewrite length_drop in Eb|] end.
  all: split_ifs; cbn in *; try done; bool_to_prop; subst.
  all: try (apply fetch_ok; cbn; try done; unfold remaining; cbn; try lia;
    intros ?; constructor; unfold u, mode; cbn; try done; rewrite ?length_drop; try lia).
  all: destruct e as [e|]; [destruct He as [Hm He]; try discriminate Hm|].
  all: repeat match goal with |- safe_end _ _ _ => split | |- _ ∧ _ => split end;
    unfold u; cbn; rewrite ?length_drop; try done; try lia.
  all: try (apply is_ext_put; [tauto || congruence || lia..|done]).
  all: try apply is_ext_dot.
  all: destruct q; try discriminate; unfold remaining; cbn; try lia.
  all: constructor; unfold u, mode; cbn; try done; lia.
Qed.

Lemma run_safe m buf lo hi fuel : ∀ s,
  0 ≤ lo → hi < Z.of_nat (length buf) → safe lo hi s →
  remaining hi s < Z.of_nat fuel →
  ∃ o, run m buf fuel hi s = Some o ∧
    match o with
    | Done s' => safe_end lo hi s' ∧ args_start s' = None
    | Args s' => safe_end lo hi s' ∧ args_start s' = Some (p s') ∧ p s' ≤ hi
    | Invalid => True
    | _ => False
    end.
Proof.
  induction fuel as [|fuel IH]; intros s Hlo Hhi Hs Hf.
  { exfalso. pose proof (safe_p _ _ _ Hs). unfold remaining in Hf. destruct (state s); lia. }
  cbn. destruct (Z.leb_spec (p s) hi) as [Hle|Hgt].
  - pose proof (step_safe m buf lo hi s Hlo Hhi Hs Hle) as H.
    destruct (step m buf s) as [s'|s'|s'| |]; try (by eexists; split; [done|]).
    destruct H as [H Hlt]. apply IH; [done..|lia].
  - eexists. split; [done|]. destruct Hs as [Hp Hu _ He ?]. unfold safe_end. split_and!; [lia|lia|lia| |done].
    destruct (uri_ext s); [apply He|done].
Qed.

(** [s'] is reached from [s] by executions of the loop body. *)
Definition reaches (m : bool) (buf : list Z) (hi : Z) : relation locals :=
  rtc (λ s s', p s ≤ hi ∧ step m buf s = Next s').

Definition entry (c lo : Z) (quoted plus : bool) : locals :=
  mk_locals sw_usual sw_usual NUL c (lo + 1) [] None None quoted plus.

Lemma entry_safe c lo hi quoted plus : lo ≤ hi → safe lo hi (entry c lo quoted plus).
Proof. intros. constructor; unfold u; cbn; try done; lia. Qed.

(** At no time has the function written more bytes to [r->uri.data] than the
    URI has, so the [uri.len + 1] bytes its caller allocates are enough, and
    no byte after the one at [uri_end] is read. *)
Theorem complex_uri_writes_bounded m buf lo hi c quoted plus s :
  0 ≤ lo ≤ hi → hi < Z.of_nat (length buf) →
  reaches m buf hi (entry c lo quoted plus) s →
  u s ≤ hi - lo ∧ p s ≤ hi + 1.
Proof.
  intros [Hlo Hle] Hhi Hr.
  assert (Hs : safe lo hi s).
  { generalize (entry_safe c lo hi quoted plus Hle). revert Hr.
    generalize (entry c lo quoted plus). intros s0 Hr.
    induction Hr as [|x y z [Hx Hy] _ IH]; [done|].
    intros Hs. apply IH. pose proof (step_safe m buf lo hi x Hlo Hhi Hs Hx) as H.
    rewrite Hy in H. apply H. }
  destruct Hs as [Hp Hu _ _ _]. lia.
Qed.

Lemma find_hash_bound l : ∀ q h, find_hash q l = Some h → q ≤ h < q + Z.of_nat (length l).
Proof.
  induction l as [|c l IH]; intros q h; [done|]. cbn.
  destruct (c =? "#"%ch); [intros [= <-]; lia|]. intros ?%IH. lia.
Qed.

(** The tail of the URI that [exten] points at, and the dot before it. *)
Definition exten_ok (r : parsed) : Prop :=
  match exten r with
  | Some (e, n) =>
      ∃ pre ext, uri r = pre ++ "."%ch :: ext ∧ e = Z.of_nat (length pre) + 1 ∧
        n = Z.of_nat (length ext) ∧ Forall (λ c, c ≠ "."%ch ∧ c ≠ "/"%ch) ext
  | None => True
  end.

Lemma finish_exten_ok s :
  match uri_ext s with Some e => is_ext (out s) e | None => True end → exten_ok (finish s).
Proof.
  unfold exten_ok, finish, u. cbn. destruct (uri_ext s) as [e|]; [|done].
  intros (ext & pre & Ho & -> & He). rewrite Ho. exists (reverse pre), (reverse ext).
  split_and!.
  - by rewrite reverse_app, reverse_cons, <- app_assoc.
  - by rewrite length_reverse.
  - rewrite length_app, length_reverse. cbn. lia.
  - by apply Forall_reverse.
Qed.

Definition args_ok (lo hi : Z) (r : parsed) : Prop :=
  match args r with Some (a, n) => lo < a ∧ 0 ≤ n ∧ a + n ≤ hi | None => True end ∧
  match r_args_start r with Some a => lo < a ≤ hi | None => True end.

(** C28: The function always returns: it reads only the URI and the byte after it,
    within two iterations per byte, and either rejects the request or leaves
    a URI no longer than the original, an extension that is the end of that
    URI after its last dot, and arguments inside the original URI. *)
Theorem complex_uri_total m buf lo hi quoted plus :
  0 ≤ lo ≤ hi → hi < Z.of_nat (length buf) →
  match ngx_http_parse_complex_uri m buf lo hi quoted plus with
  | Ok r => Z.of_nat (length (uri r)) ≤ hi - lo ∧ exten_ok r ∧ args_ok lo hi r
  | Error rc => rc = NGX_HTTP_PARSE_INVALID_REQUEST
  | ReadFault | OutOfFuel => False
  end.
Proof.
  intros [Hlo Hle] Hhi. unfold ngx_http_parse_complex_uri.
  unfold at_. destruct (Z.ltb_spec lo 0); [lia|].
  destruct (lookup_lt_is_Some_2 buf (Z.to_nat lo)) as [c ->]; [lia|].
  change (mk_locals _ _ _ _ _ _ _ _ _ _) with (entry c lo quoted plus).
  destruct (run_safe m buf lo hi (Z.to_nat (2 * (hi - lo) + 1)) (entry c lo quoted plus))
    as (o & -> & Ho); [done|done|by apply entry_safe|unfold remaining; cbn; lia|].
  destruct o as [s|s|s| |]; try done.
  - destruct Ho as [(Hu & Hp & He) Ha]. split_and!.
    + cbn. by rewrite length_reverse.
    + by apply finish_exten_ok.
    + by split; cbn; rewrite ?Ha.
  - destruct Ho as ((Hu & Hp & He) & Ha & Hp'). unfold finish_args.
    apply finish_exten_ok in He. cbn in Hu, Hp, Ha, Hp'.
    destruct (find_hash (p s) _) as [h|] eqn:Eh.
    + apply find_hash_bound in Eh. unfold slice in Eh.
      rewrite length_take, length_drop in Eh. rewrite Ha.
      split_and!; [cbn; by rewrite length_reverse|exact He|]. split; cbn; [lia|done].
    + split_and!; [cbn; by rewrite length_reverse|exact He|]. split; cbn; rewrite ?Ha; [done|lia].
Qed.

(** ** What it computes

    Decode the escapes up to a raw ["?"] or ["#"], then walk over the segments
    of the path with a stack. *)

Section Reference.
(** The value of a hexadecimal digit. *)
Definition hexval (c : Z) : option Z :=
  if is_digit c then Some (c - 48)
  else
    let d := u8 (Z.lor c 32) in
    if ("a"%ch <=? d) && (d <=? "f"%ch) then Some (d - 87) else None.

(** The decoded path; [None] for a malformed escape or an escaped NUL.  An
    escape cut off by the end of the URI disappears. *)
Fixpoint unescape (l : list Z) : option (list Z) :=
  match l with
  | [] => Some []
  | c :: l1 =>
      if c =? "%"%ch then
        match l1 with
        | [] => Some []
        | a :: l2 =>
            match hexval a, l2 with
            | None, _ => None
            | Some _, [] => Some []
            | Some x, b :: rest =>
                match hexval b with
                | None => None
                | Some y => if x * 16 + y =? 0 then None
                            else cons (x * 16 + y) <$> unescape rest
                end
            end
        end
      else if (c =? "?"%ch) || (c =? "#"%ch) then Some []
      else cons c <$> unescape l1
  end.

(** Leaving a directory.  The [u -= 5] of the source steps over the last
    byte of the segment without looking at it: an empty segment goes
    together with the one before it. *)
Definition pop (st : list (list Z)) : option (list (list Z)) :=
  match st with
  | [] => None
  | [] :: st' => match st' with [] => None | _ :: st'' => Some st'' end
  | _ :: st' => Some st'
  end.

(** A slash ends the segment [cur]. *)
Definition close (merge : bool) (cur : list Z) (st : list (list Z)) :
    option (list (list Z)) :=
  if decide (cur = []) then Some (if merge then st else [] :: st)
  else if decide (cur = bs ".") then Some st
  else if decide (cur = bs "..") then pop st
  else Some (cur :: st).

(** The segments still open, outermost first. *)
Fixpoint render (st : list (list Z)) : list Z :=
  match st with
  | [] => bs "/"
  | seg :: st' => render st' ++ seg ++ bs "/"
  end.

Fixpoint norm (merge : bool) (d cur : list Z) (st : list (list Z)) : option (list Z) :=
  match d with
  | [] => Some (render st ++ cur)
  | c :: d' =>
      if c =? "/"%ch then
        match close merge cur st with Some st' => norm merge d' [] st' | None => None end
      else norm merge d' (cur ++ [c]) st
  end.

(** The URI ["/" ++ path] normalised. *)
Definition normalize (merge : bool) (path : list Z) : option (list Z) :=
  d ← unescape path; norm merge d [] [].
End Reference.

(** ** The machine implements the reference *)

#[local] Arguments reverse : simpl never.

Definition classify (cur : list Z) : sw :=
  match cur with
  | [] => sw_slash
  | [a] => if a =? "."%ch then sw_dot else sw_usual
  | [a; b] => if (a =? "."%ch) && (b =? "."%ch) then sw_dot_dot else sw_usual
  | _ => sw_usual
  end.

Definition no_slash (l : list Z) : Prop := Forall (λ c, c ≠ "/"%ch) l.

(** The machine is at a path character, having read the open segments [st] and
    the beginning [cur] of a segment. *)
Record simulates (s : locals) (cur : list Z) (st : list (list Z)) : Prop := {
  sim_state : state s = classify cur;
  sim_out : out s = reverse (render st ++ cur);
  sim_cur : no_slash cur;
  sim_st : Forall no_slash st;
}.

Lemma classify_snoc cur c :
  classify (cur ++ [c]) =
  match classify cur with
  | sw_slash => if c =? "."%ch then sw_dot else sw_usual
  | sw_dot => if c =? "."%ch then sw_dot_dot else sw_usual
  | _ => sw_usual
  end.
Proof.
  destruct cur as [|a [|b [|e cur]]]; cbn; try done.
  - by destruct (a =? 46), (c =? 46).
  - by destruct ((a =? 46) && (b =? 46)).
Qed.

Lemma classify_close m cur st :
  close m cur st =
  match classify cur with
  | sw_slash => Some (if m then st else [] :: st)
  | sw_dot => Some st
  | sw_dot_dot => pop st
  | _ => Some (cur :: st)
  end.
Proof.
  unfold close, classify, bs.
  destruct cur as [|a [|b [|e cur]]]; try done; repeat case_decide; simplify_eq; try done.
  - by destruct (Z.eqb_spec a 46); subst.
  - destruct (Z.eqb_spec a 46), (Z.eqb_spec b 46); by subst.
Qed.

Lemma classify_inv cur :
  match classify cur with
  | sw_slash => cur = []
  | sw_dot => cur = bs "."
  | sw_dot_dot => cur = bs ".."
  | sw_usual => True
  | _ => False
  end.
Proof.
  destruct cur as [|a [|b [|e cur]]]; cbn; try done.
  - by destruct (Z.eqb_spec a 46); subst.
  - by destruct (Z.eqb_spec a 46), (Z.eqb_spec b 46); subst.
Qed.

Lemma render_snoc st : ∃ l, render st = l ++ bs "/".
Proof. destruct st; cbn; [by exists []|]. rewrite app_assoc. eauto. Qed.

Lemma scan_back_app l k : no_slash l → scan_back (l ++ k) = scan_back k.
Proof.
  induction l as [|c l IH]; [done|]. intros Hl. inversion_clear Hl. cbn.
  by replace (c =? 47) with false by lia; apply IH.
Qed.

Lemma scan_back_render st : scan_back (reverse (render st)) = Some (reverse (render st)).
Proof. destruct (render_snoc st) as [l ->]. by rewrite reverse_app. Qed.

(** The scan for the parent directory is [pop]. *)
Lemma scan_back_pop st :
  Forall no_slash st →
  scan_back (drop 4 (reverse (render st ++ bs ".."))) =
  (λ st', reverse (render st')) <$> pop st.
Proof.
  intros Hst. rewrite reverse_app. destruct st as [|seg st]; [done|].
  inversion_clear Hst as [|?? Hseg Hst'].
  cbn [render]. rewrite !reverse_app, <- app_assoc.
  change (drop 4 (reverse (bs "..") ++ reverse (bs "/") ++ reverse seg ++ reverse (render st)))
    with (drop 1 (reverse seg ++ reverse (render st))).
  destruct seg as [|c seg].
  - destruct st as [|seg' st]; [done|]. inversion_clear Hst' as [|?? Hseg' _].
    cbn [pop fmap option_fmap option_map render]. rewrite !reverse_app.
    change (drop 1 (reverse [] ++ (reverse (bs "/") ++ reverse seg') ++ reverse (render st)))
      with (drop 0 (reverse seg' ++ reverse (render st))).
    rewrite drop_0, scan_back_app, scan_back_render; [done|by apply Forall_reverse].
  - cbn [pop fmap option_fmap option_map].
    rewrite drop_app_le by (rewrite length_reverse; cbn; lia).
    rewrite scan_back_app, scan_back_render; [done|].
    by apply Forall_drop, Forall_reverse.
Qed.

Lemma pop_forall (Q : list Z → Prop) st st' : Forall Q st → pop st = Some st' → Forall Q st'.
Proof.
  intros Hst. destruct st as [|[|c seg] st]; cbn; [done| |].
  - inversion_clear Hst as [|?? _ Hst']. destruct Hst'; [done|]. by intros [= <-].
  - inversion_clear Hst. by intros [= <-].
Qed.

(** Characters that are not the start of an escape, a query or a fragment. *)
Definition plain (c : Z) : Prop := c ≠ "%"%ch ∧ c ≠ "?"%ch ∧ c ≠ "#"%ch.

Lemma simulates_put s s' cur st c :
  simulates s cur st → c ≠ "/"%ch → state s' = classify (cur ++ [c]) →
  out s' = c :: out s → simulates s' (cur ++ [c]) st.
Proof.
  intros [_ Ho Hcur Hst] Hc Hs' Ho'. constructor; try done.
  - by rewrite Ho', Ho, app_assoc, (reverse_app _ [c]).
  - by apply Forall_app_2; [|constructor].
Qed.

Lemma step_char m buf s cur st :
  simulates s cur st → plain (ch s) →
  match (if ch s =? "/"%ch then close m cur st else Some st) with
  | None => step m buf s = Invalid
  | Some st' => ∃ s', step m buf s = fetch buf s' ∧ p s' = p s ∧
      simulates s' (if ch s =? "/"%ch then [] else cur ++ [ch s]) st'
  end.
Proof.
  intros Hsim (Hc1 & Hc2 & Hc3). pose proof Hsim as [Hs Ho Hcur Hst].
  pose proof (classify_inv cur) as Hcl. unfold step. rewrite Hs.
  pose proof (classify_snoc cur (ch s)) as Hsn.
  assert (Hns := usual_not_special (ch s)).
  destruct (Z.eqb_spec (ch s) "/"%ch) as [E|E].
  - rewrite classify_close.
    unfold step_usual, step_slash, step_dot, step_dot_dot. rewrite E.
    change (is_usual "/"%ch) with false. cbn [Z.eqb Pos.eqb].
    destruct (classify cur) eqn:Ecl; try done.
    + eexists; split_and!; [done..|]. constructor; cbn; [done| |by constructor|by constructor].
      rewrite Ho, app_nil_r. by rewrite !reverse_app.
    + subst cur. destruct m; eexists; split_and!; try done; constructor; cbn; try done;
        rewrite ?Ho, ?app_nil_r, ?(reverse_app _ (bs "/")); try done.
      by constructor.
    + subst cur. eexists; split_and!; [done..|]. constructor; cbn; try done.
      2: by constructor.
      by rewrite Ho, reverse_app, app_nil_r.
    + subst cur. rewrite Ho, scan_back_pop by done. destruct (pop st) as [st'|] eqn:Ep; [|done].
      eexists; split_and!; [done..|]. constructor; cbn; try done.
      * by rewrite app_nil_r.
      * by constructor.
      * by eapply pop_forall.
  - apply Z.eqb_neq in Hc1, Hc2, Hc3. pose proof (proj2 (Z.eqb_neq _ _) E) as E'.
    assert (is_usual (ch s) = true → (ch s =? "."%ch) = false) as Hdot.
    { intros [? _]%Hns. by apply Z.eqb_neq. }
    unfold step_usual, step_slash, step_dot, step_dot_dot. rewrite Hc1, Hc2, Hc3, E'.
    assert (∀ s', out s' = ch s :: out s → state s' = classify (cur ++ [ch s]) →
      simulates s' (cur ++ [ch s]) st) as Hput by (intros; by eapply simulates_put).
    destruct (classify cur) eqn:Ecl; try done; split_ifs; try (by rewrite Hdot in *);
      eexists; (split_and!; [done|done|apply Hput; [done|]]); rewrite Hsn; try done; cbn.
    all: by rewrite Hdot.
Qed.

Section Simulation.
Variable merge : bool.
Variable buf : list Z.
Variable hi : Z.

(** The unread part of the URI, [rem], starts at the byte in [ch]; a byte
    follows the URI. *)
Definition tape (rem : list Z) (s : locals) : Prop :=
  1 ≤ p s ∧ p s - 1 + Z.of_nat (length rem) = hi ∧
  ∃ e tl, drop (Z.to_nat (p s - 1)) buf = rem ++ e :: tl.

Definition loaded (rem : list Z) (s : locals) : Prop :=
  match rem with [] => True | c :: _ => ch s = c end.

Lemma fetch_tape c rem s :
  tape (c :: rem) s →
  ∃ e, let s' := s <| ch := e |> <| p := p s + 1 |> in
    fetch buf s = Next s' ∧ tape rem s' ∧ loaded rem s'.
Proof.
  intros (Hp & Hlen & e & tl & Hd).
  assert (Hd' : drop (Z.to_nat (p s)) buf = rem ++ e :: tl).
  { replace (Z.to_nat (p s)) with (Z.to_nat (p s - 1) + 1)%nat by lia.
    by rewrite <- drop_drop, Hd. }
  assert (Hat : at_ buf (p s) = Some (hd e rem)).
  { unfold at_. destruct (Z.ltb_spec (p s) 0); [lia|].
    rewrite <- (Nat.add_0_r (Z.to_nat (p s))), <- lookup_drop, Hd'. by destruct rem. }
  exists (hd e rem). cbn. unfold fetch. rewrite Hat. split_and!; [done| |by destruct rem].
  unfold tape. cbn. cbn in Hlen. split_and!; [lia|lia|].
  exists e, tl. by replace (p s + 1 - 1) with (p s) by lia.
Qed.

Lemma simulates_eq s s' cur st :
  simulates s cur st → state s' = state s → out s' = out s → simulates s' cur st.
Proof. intros [] Hs Ho. constructor; rewrite ?Hs, ?Ho; done. Qed.

Lemma run_step fuel s : p s ≤ hi →
  run merge buf (S fuel) hi s =
  match step merge buf s with Next s' => run merge buf fuel hi s' | o => Some o end.
Proof. intros Hp. cbn. by rewrite (proj2 (Z.leb_le _ _) Hp). Qed.

(** What the outcome of the loop says about the URI. *)
Definition path_of (o : outcome) : option (list Z) :=
  match o with Done s | Args s | Next s => Some (reverse (out s)) | _ => None end.

Definition computes (fuel : nat) (s : locals) (r : option (list Z)) : Prop :=
  ∃ o, run merge buf fuel hi s = Some o ∧ o ≠ Fault ∧ path_of o = r.

Lemma computes_fetch fuel c rem s s0 r :
  p s0 ≤ hi → step merge buf s0 = fetch buf s → tape (c :: rem) s →
  (∀ e, let s' := s <| ch := e |> <| p := p s + 1 |> in
     tape rem s' → loaded rem s' → computes fuel s' r) →
  computes (S fuel) s0 r.
Proof.
  intros Hp Hst Ht Hk. destruct (fetch_tape _ _ _ Ht) as (e & Hf & Ht' & Hl).
  destruct (Hk e Ht' Hl) as (o & Ho & ?). exists o. split; [|done].
  by rewrite run_step, Hst, Hf.
Qed.

Lemma tape_p c rem s : tape (c :: rem) s → p s ≤ hi.
Proof. intros (? & Hl & _). cbn in Hl. lia. Qed.
Lemma tape_nil fuel s r :
  tape [] s → Some (reverse (out s)) = r → computes (S fuel) s r.
Proof.
  intros (? & Hl & _) <-. cbn in Hl. exists (Done s). cbn.
  destruct (Z.leb_spec (p s) hi); [lia|done].
Qed.

Lemma tape_eq rem s s' : tape rem s → p s' = p s → tape rem s'.
Proof. intros Ht Hp. unfold tape. by rewrite Hp. Qed.

(** A path character, raw or decoded, then the rest of the path. *)
Lemma computes_char fuel c rem s cur st d :
  tape (c :: rem) s → simulates s cur st → plain (ch s) →
  (∀ s' cur' st', tape rem s' → loaded rem s' → simulates s' cur' st' →
     computes fuel s' (d ≫= λ d, norm merge d cur' st')) →
  computes (S fuel) s (d ≫= λ d, norm merge (ch s :: d) cur st).
Proof.
  intros Ht Hsim Hpl IH. pose proof (step_char merge buf s cur st Hsim Hpl) as H.
  pose proof (tape_p _ _ _ Ht) as Hp. cbn [norm].
  destruct (ch s =? "/"%ch).
  - destruct (close merge cur st) as [st'|].
    + destruct H as (s' & Hst & Hp' & Hsim').
      eapply (computes_fetch _ _ _ s'); [done|done|by eapply tape_eq|].
      intros e s'' Ht' Hl. apply IH; [done|done|]. by eapply simulates_eq.
    + exists Invalid. rewrite run_step, H by done. split_and!; [done..|].
      by destruct d.
  - destruct H as (s' & Hst & Hp' & Hsim').
    eapply (computes_fetch _ _ _ s'); [done|done|by eapply tape_eq|].
    intros e s'' Ht' Hl. apply IH; [done|done|]. by eapply simulates_eq.
Qed.

Lemma hexval_range c x : hexval c = Some x → 0 ≤ x < 16 ∧ (is_digit c = true ↔ x < 10).
Proof.
  unfold hexval. destruct (is_digit c) eqn:E.
  - intros [= <-]. apply Is_true_true, is_digit_range in E. lia.
  - set (d := u8 _). destruct (("a"%ch <=? d) && (d <=? "f"%ch)) eqn:E2; [|done].
    intros [= <-]. bool_to_prop. split; [lia|]. split; [done|lia].
Qed.

Lemma step_quoted_hex s :
  state s = sw_quoted →
  step merge buf s =
  match hexval (ch s) with
  | Some x => fetch buf (s <| quoted_uri := true |> <| decoded := x |>
                           <| state := sw_quoted_second |>)
  | None => Invalid
  end.
Proof.
  intros Hs. unfold step. rewrite Hs. unfold step_quoted.
  pose proof (hexval_range (ch s)) as Hr. unfold hexval in *. cbn.
  destruct (is_digit (ch s)) eqn:E.
  - specialize (Hr _ eq_refl). by rewrite u8_id by lia.
  - set (d := u8 (Z.lor _ _)) in *.
    destruct (("a"%ch <=? d) && (d <=? "f"%ch)) eqn:E2; [|done].
    specialize (Hr _ eq_refl). rewrite u8_id by lia. by replace (d - 97 + 10) with (d - 87) by lia.
Qed.

(** The value of the escape whose second digit is in [ch]. *)
Lemma step_quoted_second_hex s :
  state s = sw_quoted_second → 0 ≤ decoded s < 16 →
  match hexval (ch s) with
  | None => step merge buf s = Invalid
  | Some y =>
      let v := decoded s * 16 + y in
      if v =? 0 then step merge buf s = Invalid
      else if decide (plain v) then
        ∃ s', step merge buf s = Next s' ∧ ch s' = v ∧ state s' = quoted_state s ∧
          out s' = out s ∧ p s' = p s
      else step merge buf s = fetch buf (put v (s <| ch := v |> <| state := sw_usual |>))
  end.
Proof.
  intros Hs Hd. unfold step. rewrite Hs. unfold step_quoted_second.
  pose proof (hexval_range (ch s)) as Hr. unfold hexval in *.
  rewrite Z.shiftl_mul_pow2 by done. change (2 ^ 4) with 16.
  destruct (is_digit (ch s)) eqn:E.
  - specialize (Hr _ eq_refl). cbn zeta.
    replace (decoded s * 16 + ch s - "0"%ch) with (decoded s * 16 + (ch s - 48)) by lia.
    rewrite u8_id by lia. set (v := decoded s * 16 + (ch s - 48)) in *.
    assert (v ≠ 63) by lia. cbn.
    destruct (Z.eqb_spec v 0) as [->|]; [done|].
    destruct (Z.eqb_spec v 37) as [->|]; [done|].
    destruct (Z.eqb_spec v 35) as [->|]; [done|]. cbn.
    rewrite decide_True by done. by eexists.
  - set (d := u8 (Z.lor _ _)) in *.
    destruct (("a"%ch <=? d) && (d <=? "f"%ch)) eqn:E2; [|done].
    specialize (Hr _ eq_refl). cbn zeta.
    replace (decoded s * 16 + d - "a"%ch + 10) with (decoded s * 16 + (d - 87)) by lia.
    rewrite u8_id by lia. set (v := decoded s * 16 + (d - 87)) in *. cbn.
    assert (10 ≤ d - 87) by (destruct Hr as [? [_ ?]]; destruct (Z.lt_ge_cases (d - 87) 10); [exfalso; intuition congruence|lia]).
    assert (v ≠ 0 ∧ v ≠ 37 ∧ v ≠ 35) as (H0 & ? & ?) by lia.
    rewrite (proj2 (Z.eqb_neq v 0) H0).
    destruct (Z.eqb_spec v 63) as [->|]; [done|].
    rewrite decide_True by done. destruct (v =? 43); by eexists.
Qed.

Lemma simulates_literal s s' cur st v :
  simulates s cur st → v ≠ "/"%ch → v ≠ "."%ch → state s' = sw_usual →
  out s' = v :: out s → simulates s' (cur ++ [v]) st.
Proof.
  intros Hsim Hv Hv' Hs' Ho. eapply simulates_put; [done..| |done].
  rewrite Hs', classify_snoc. pose proof (classify_inv cur).
  rewrite (proj2 (Z.eqb_neq v 46) Hv'). by destruct (classify cur).
Qed.

Lemma step_special s cur :
  state s = classify cur →
  (ch s = "%"%ch → step merge buf s =
     fetch buf (s <| quoted_state := state s |> <| state := sw_quoted |>)) ∧
  (ch s = "?"%ch → step merge buf s = Args (s <| args_start := Some (p s) |>)) ∧
  (ch s = "#"%ch → step merge buf s = Done s).
Proof.
  intros Hs. pose proof (classify_inv cur) as Hc. unfold step. rewrite Hs.
  unfold step_usual, step_slash, step_dot, step_dot_dot.
  destruct (classify cur); try done; split_and!; intros ->;
    change (is_usual _) with false; cbn; by rewrite ?Hs.
Qed.

(** The second digit of an escape, and the character it yields. *)
Lemma computes_second fuel b rest s cur st :
  (∀ fuel s' cur' st', (2 * length rest < fuel)%nat →
     tape rest s' → loaded rest s' → simulates s' cur' st' →
     computes fuel s' (unescape rest ≫= λ d, norm merge d cur' st')) →
  (2 * length rest + 2 < fuel)%nat →
  tape (b :: rest) s → ch s = b → state s = sw_quoted_second → 0 ≤ decoded s < 16 →
  simulates (s <| state := quoted_state s |>) cur st →
  computes fuel s
    (match hexval b with
     | None => None
     | Some y => if decoded s * 16 + y =? 0 then None
                 else cons (decoded s * 16 + y) <$> unescape rest
     end ≫= λ d, norm merge d cur st).
Proof.
  intros IH Hf Ht Hch Hs Hd Hsim. destruct fuel as [|[|fuel]]; [lia..|].
  pose proof (tape_p _ _ _ Ht) as Hp.
  pose proof (step_quoted_second_hex s Hs Hd) as H. subst b.
  destruct (hexval (ch s)) as [y|]; cbn zeta in H;
    [|exists Invalid; by rewrite run_step, H by done].
  set (v := decoded s * 16 + y) in *.
  destruct (v =? 0); [exists Invalid; by rewrite run_step, H by done|].
  replace (_ ≫= _) with (unescape rest ≫= λ d, norm merge (v :: d) cur st)
    by by destruct (unescape rest).
  destruct (decide (plain v)) as [Hv|Hv].
  - destruct H as (s' & Hst & <- & Hs' & Ho & Hp').
    assert (Hk : computes (S fuel) s' (unescape rest ≫= λ d, norm merge (ch s' :: d) cur st)).
    { eapply (computes_char _ (ch s)); [by eapply tape_eq| |done|].
      - eapply simulates_eq; [exact Hsim|done|done].
      - intros. apply IH; [lia|done..]. }
    destruct Hk as (o & Ho' & ?). exists o. split; [|done]. by rewrite run_step, Hst.
  - eapply computes_fetch; [done|exact H|by eapply tape_eq|].
    intros e s' Ht' Hl'. assert (v ≠ 47 ∧ v ≠ 46) as [? ?].
    { split; intros Hv'; apply Hv; rewrite Hv'; done. }
    replace (unescape rest ≫= _) with (unescape rest ≫= λ d, norm merge d (cur ++ [v]) st).
    + apply IH; [lia|done|done|]. by eapply simulates_literal.
    + destruct (unescape rest) as [d|]; [|done]. cbn.
      by replace (v =? 47) with false by lia.
Qed.

(** The machine computes the reference from any point of the path. *)
Lemma run_computes n : ∀ rem fuel s cur st,
  (length rem ≤ n)%nat → (2 * length rem < fuel)%nat →
  tape rem s → loaded rem s → simulates s cur st →
  computes fuel s (unescape rem ≫= λ d, norm merge d cur st).
Proof.
  induction n as [|n IH]; intros rem fuel s cur st Hn Hf Ht Hl Hsim;
    (destruct fuel as [|fuel]; [lia|]); destruct rem as [|c rem].
  1, 3: by apply tape_nil; [|cbn; rewrite (sim_out _ _ _ Hsim), reverse_involutive].
  1: by cbn in Hn; lia.
  pose proof (tape_p _ _ _ Ht) as Hp. cbn in Hn, Hf, Hl. subst c.
  destruct (decide (plain (ch s))) as [Hpl|Hpl].
  { pose proof Hpl as (H1 & H2 & H3). cbn [unescape].
    apply Z.eqb_neq in H1, H2, H3. rewrite H1, H2, H3. cbn [orb].
    replace (_ ≫= _) with (unescape rem ≫= λ d, norm merge (ch s :: d) cur st)
      by by destruct (unescape rem).
    eapply computes_char; [done..|]. intros. apply IH; [lia|lia|done..]. }
  pose proof (step_special s cur (sim_state _ _ _ Hsim)) as (Hpc & Hq & Hh).
  pose proof (sim_out _ _ _ Hsim) as Ho.
  assert (ch s = "%"%ch ∨ ch s = "?"%ch ∨ ch s = "#"%ch) as [E|[E|E]].
  { unfold plain in Hpl. lia. }
  2: { exists (Args (s <| args_start := Some (p s) |>)). rewrite run_step, Hq by done.
       rewrite E. cbn. by rewrite Ho, reverse_involutive. }
  2: { exists (Done s). rewrite run_step, Hh by done.
       rewrite E. cbn. by rewrite Ho, reverse_involutive. }
  rewrite E. cbn [unescape Z.eqb Pos.eqb].
  eapply computes_fetch; [done|by apply Hpc|by eapply tape_eq|].
  intros e s1 Ht1 Hl1. destruct fuel as [|fuel]; [lia|].
  destruct rem as [|a rem]; [by apply tape_nil; [|cbn; rewrite Ho, reverse_involutive]|].
  cbn [loaded] in Hl1. rewrite <- Hl1.
  pose proof (step_quoted_hex s1 eq_refl) as Hst.
  pose proof (tape_p _ _ _ Ht1) as Hp1.
  destruct (hexval (ch s1)) as [x|] eqn:Ex;
    [|exists Invalid; by rewrite run_step, Hst by done].
  apply hexval_range in Ex as [Ex _].
  eapply computes_fetch; [done|exact Hst|by eapply tape_eq|].
  intros e2 s2 Ht2 Hl2. cbn in Hf. destruct fuel as [|fuel]; [lia|].
  destruct rem as [|b rem]; [by apply tape_nil; [|cbn; rewrite Ho, reverse_involutive]|].
  eapply (computes_second _ b rem s2 cur st); cbn in *; try done; try lia.
  - intros. apply IH; [lia|done..].
  - by eapply simulates_eq.
Qed.
End Simulation.

Lemma parse_normalizes merge pre path e tl quoted plus :
  let buf := pre ++ "/"%ch :: path ++ e :: tl in
  let lo := Z.of_nat (length pre) in
  match ngx_http_parse_complex_uri merge buf lo (lo + 1 + Z.of_nat (length path)) quoted plus with
  | Ok r => normalize merge path = Some (uri r)
  | Error rc => rc = NGX_HTTP_PARSE_INVALID_REQUEST ∧ normalize merge path = None
  | _ => False
  end.
Proof.
  intros buf lo. unfold ngx_http_parse_complex_uri.
  assert (Hd : drop (length pre) buf = "/"%ch :: path ++ e :: tl) by apply drop_app_length.
  assert (at_ buf lo = Some "/"%ch) as ->.
  { unfold at_, lo. destruct (Z.ltb_spec (Z.of_nat (length pre)) 0); [lia|].
    rewrite Nat2Z.id, <- (Nat.add_0_r (length pre)), <- lookup_drop, Hd. done. }
  set (hi := lo + 1 + Z.of_nat (length path)).
  set (s := mk_locals _ _ _ _ _ _ _ _ _ _).
  assert (Ht : tape buf hi ("/"%ch :: path) s).
  { unfold tape, hi. cbn. split_and!; [lia|lia|]. exists e, tl. rewrite <- Hd.
    f_equal. lia. }
  replace (Z.to_nat (2 * (hi - lo) + 1)) with (S (2 * length path + 2)) by lia.
  assert (computes merge buf hi (S (2 * length path + 2)) s (normalize merge path))
    as (o & -> & Ho & Hr).
  { eapply computes_fetch; [|reflexivity|by eapply tape_eq|].
    { pose proof (tape_p _ _ _ _ _ Ht). done. }
    intros c s' Ht' Hl'. apply (run_computes _ _ _ (length path)); [done|lia|done..|].
    by constructor; try constructor. }
  destruct o; cbn in Hr; try done; unfold finish_args, finish; rewrite <- Hr;
    try done.
  by destruct (find_hash _ _).
Qed.

(** C4: For a URI that starts with a slash, the function computes the reference
    normalisation: the bytes of [r->uri] are those of [normalize], and the
    request is rejected exactly when [normalize] fails. *)
Theorem complex_uri_normalizes merge pre path e tl quoted plus :
  let buf := pre ++ "/"%ch :: path ++ e :: tl in
  let lo := Z.of_nat (length pre) in
  match ngx_http_parse_complex_uri merge buf lo (lo + 1 + Z.of_nat (length path)) quoted plus with
  | Ok r => normalize merge path = Some (uri r)
  | Error rc => rc = NGX_HTTP_PARSE_INVALID_REQUEST ∧ normalize merge path = None
  | _ => False
  end.
Proof. apply parse_normalizes. Qed.

(** ** The normalised path has no dot segments *)

Definition no_dots (merge : bool) (seg : list Z) : Prop :=
  seg ≠ bs "." ∧ seg ≠ bs ".." ∧ (merge = true → seg ≠ []).

Lemma split_first_inj a b x y :
  no_slash a → no_slash b → a ++ "/"%ch :: x = b ++ "/"%ch :: y → a = b ∧ x = y.
Proof.
  intros Ha. revert b. induction Ha as [|c a Hc Ha IH]; intros b Hb; destruct Hb; cbn;
    try (by intros; simplify_eq).
  intros [= <- Heq]. by destruct (IH _ Hb Heq) as [-> ->].
Qed.

Lemma split_last_inj a b x y :
  no_slash a → no_slash b → x ++ "/"%ch :: a = y ++ "/"%ch :: b → x = y ∧ a = b.
Proof.
  intros Ha Hb Heq. apply (f_equal reverse) in Heq.
  rewrite !reverse_app, !reverse_cons, <- !app_assoc in Heq. cbn [app] in Heq.
  apply split_first_inj in Heq as [->%(inj _) ->%(inj _)]; [done|by apply Forall_reverse..].
Qed.

Lemma split_last l : no_slash l ∨ ∃ l1 l2, l = l1 ++ "/"%ch :: l2 ∧ no_slash l2.
Proof.
  induction l as [|c l IH] using rev_ind; [by left; constructor|].
  destruct (decide (c = "/"%ch)) as [->|Hc]; [right; exists l, []; by repeat constructor|].
  destruct IH as [Hl|(l1 & l2 & -> & Hl)].
  - left. by apply Forall_app_2; [|constructor].
  - right. exists l1, (l2 ++ [c]). rewrite <- app_assoc. split; [done|].
    by apply Forall_app_2; [|constructor].
Qed.

Lemma slash_not_in l a b : no_slash l → l ≠ a ++ "/"%ch :: b.
Proof. intros Hl ->. apply Forall_app in Hl as [_ Hl]. by inversion_clear Hl. Qed.

Lemma render_segment (Q : list Z → Prop) st : ∀ cur pre seg post,
  Forall no_slash st → Forall Q st → no_slash cur → no_slash seg →
  render st ++ cur = pre ++ "/"%ch :: seg ++ "/"%ch :: post → Q seg.
Proof.
  induction st as [|s st IH]; intros cur pre seg post Hst HQ Hcur Hseg; cbn [render].
  - intros Heq. exfalso. destruct pre as [|c pre]; injection Heq as Heq.
    + by apply (slash_not_in _ _ _ Hcur Heq).
    + intros. by apply (slash_not_in _ _ _ Hcur H).
  - inversion_clear Hst. inversion_clear HQ. rewrite <- !app_assoc.
    change (bs "/" ++ cur) with ("/"%ch :: cur).
    destruct (split_last post) as [Hpost|(p1 & p2 & -> & Hpost)]; intros Heq.
    + rewrite (app_assoc (render st)), app_comm_cons, (app_assoc pre) in Heq.
      apply split_last_inj in Heq as [Heq _]; [|done..].
      destruct (render_snoc st) as [l Hl]. rewrite Hl, <- app_assoc in Heq.
      apply split_last_inj in Heq as [_ <-]; done.
    + eapply (IH s pre seg p1); [done..|].
      replace (pre ++ _ :: seg ++ _ :: p1 ++ _ :: p2)
        with ((pre ++ "/"%ch :: seg ++ "/"%ch :: p1) ++ "/"%ch :: p2) in Heq
        by by rewrite <- app_assoc; cbn; rewrite <- app_assoc.
      rewrite app_assoc in Heq. by apply split_last_inj in Heq as [? _].
Qed.

Lemma close_no_dots m cur st st' :
  no_slash cur → Forall no_slash st → Forall (no_dots m) st → close m cur st = Some st' →
  Forall no_slash st' ∧ Forall (no_dots m) st'.
Proof.
  intros Hc Hst HQ. unfold close.
  destruct (decide (cur = [])) as [->|Hn].
  { intros [= <-]. destruct m; [done|]. split; [by repeat constructor|].
    by constructor; [|done]. }
  destruct (decide (cur = bs ".")); [by intros [= <-]|].
  destruct (decide (cur = bs "..")); [intros Hp; split; eapply pop_forall; eauto|].
  intros [= <-]. by split; constructor.
Qed.

Lemma norm_segments m d : ∀ cur st u,
  no_slash cur → Forall no_slash st → Forall (no_dots m) st → norm m d cur st = Some u →
  ∃ st' cur', u = render st' ++ cur' ∧ no_slash cur' ∧ Forall no_slash st' ∧
    Forall (no_dots m) st'.
Proof.
  induction d as [|c d IH]; intros cur st u Hc Hst HQ; cbn [norm].
  - intros [= <-]. eauto 6.
  - destruct (Z.eqb_spec c "/"%ch).
    + destruct (close m cur st) as [st'|] eqn:E; [|done].
      apply close_no_dots in E as [??]; [|done..]. by apply IH; [constructor|..].
    + apply IH; [|done..]. by apply Forall_app_2; [|constructor].
Qed.

(** C27: The URI given to the rest of the server is absolute and has no segment
    ["."] or [".."] that a slash ends; with [merge_slashes] it has no empty one
    either.  A [".."] at the very end may stay, see
    [complex_uri_keeps_final_dots]. *)
Theorem complex_uri_no_dot_segments merge pre path e tl quoted plus r before seg after :
  let buf := pre ++ "/"%ch :: path ++ e :: tl in
  let lo := Z.of_nat (length pre) in
  ngx_http_parse_complex_uri merge buf lo (lo + 1 + Z.of_nat (length path)) quoted plus = Ok r →
  uri r = before ++ "/"%ch :: seg ++ "/"%ch :: after → Forall (λ c, c ≠ "/"%ch) seg →
  head (uri r) = Some "/"%ch ∧ no_dots merge seg.
Proof.
  intros buf lo Hok Hu Hseg.
  pose proof (parse_normalizes merge pre path e tl quoted plus) as H.
  cbv zeta in H. fold buf lo in H. rewrite Hok in H. unfold normalize in H.
  destruct (unescape path) as [d|]; [|done].
  apply norm_segments in H as (st & cur & Hr & Hcur & Hst & HQ); [|by constructor..].
  rewrite Hr in *. split; [|by eapply render_segment].
  clear. revert cur. induction st as [|s st IH]; intros cur; [done|].
  cbn [render]. by rewrite <- app_assoc.
Qed.

(** ** What the machine does not do *)

Lemma norm_no_slash m d st : no_slash d → ∀ cur, norm m d cur st = Some (render st ++ cur ++ d).
Proof.
  induction 1 as [|c d Hc Hd IH]; intros cur; cbn; [by rewrite app_nil_r|].
  rewrite (proj2 (Z.eqb_neq c 47) Hc), IH. by rewrite <- app_assoc.
Qed.

Lemma norm_app m d1 d2 : ∀ cur st,
  no_slash d2 → norm m (d1 ++ "/"%ch :: d2) cur st =
  (λ u, u ++ d2) <$> norm m (d1 ++ ["/"%ch]) cur st.
Proof.
  intros cur st Hd2. revert cur st. induction d1 as [|c d1 IH]; intros cur st; cbn.
  - destruct (close m cur st) as [st'|]; [|done]. cbn. rewrite app_nil_r.
    by rewrite norm_no_slash.
  - destruct (c =? 47); [|done]. by destruct (close m cur st).
Qed.

Lemma norm_ends_slash m d : ∀ cur st v,
  norm m (d ++ ["/"%ch]) cur st = Some v → ∃ w, v = w ++ ["/"%ch].
Proof.
  induction d as [|c d IH]; intros cur st v; cbn.
  - destruct (close m cur st) as [st'|]; [|done]. intros [= <-].
    destruct (render_snoc st') as [l ->]. exists l. by rewrite app_nil_r.
  - destruct (c =? 47); [|by apply IH]. destruct (close m cur st); [by apply IH|done].
Qed.

(** A path that ends in ["/.."] without a final slash is not resolved: the
    URI given to the rest of the server still ends in ["/.."]. *)
Theorem complex_uri_keeps_final_dots merge pre path e tl quoted plus r d :
  let buf := pre ++ "/"%ch :: path ++ e :: tl in
  let lo := Z.of_nat (length pre) in
  unescape path = Some (d ++ bs "/..") →
  ngx_http_parse_complex_uri merge buf lo (lo + 1 + Z.of_nat (length path)) quoted plus = Ok r →
  ∃ dir, uri r = dir ++ bs "/..".
Proof.
  intros buf lo Hun Hok.
  pose proof (parse_normalizes merge pre path e tl quoted plus) as H.
  cbv zeta in H. fold buf lo in H. rewrite Hok in H. unfold normalize in H.
  rewrite Hun in H. cbn in H. change (bs "/..") with ("/"%ch :: bs "..") in *.
  rewrite norm_app in H by (by repeat constructor).
  destruct (norm merge (d ++ ["/"%ch]) [] []) as [v|] eqn:E; [|done].
  injection H as <-. apply norm_ends_slash in E as [w ->].
  exists w. by rewrite <- app_assoc.
Qed.

Lemma unescape_plain_app l k :
  Forall plain l → unescape (l ++ k) = (λ d, l ++ d) <$> unescape k.
Proof.
  induction 1 as [|c l (H1 & H2 & H3) Hl IH]; cbn; [by destruct (unescape k)|].
  apply Z.eqb_neq in H1, H2, H3. rewrite H1, H2, H3, IH. cbn. by destruct (unescape k).
Qed.

(** An escape cut off by the end of the URI is not an error: it is dropped,
    whether a digit of it is there or not. *)
Theorem complex_uri_drops_cut_escape merge pre path a e tl quoted plus :
  Forall plain path → hexval a ≠ None →
  let lo := Z.of_nat (length pre) in
  let parse rest := ngx_http_parse_complex_uri merge
    (pre ++ "/"%ch :: (path ++ rest) ++ e :: tl) lo
    (lo + 1 + Z.of_nat (length (path ++ rest))) quoted plus in
  let uri_of o := match o with Ok r => Some (uri r) | _ => None end in
  uri_of (parse ["%"%ch]) = uri_of (parse []) ∧ uri_of (parse ["%"%ch; a]) = uri_of (parse []).
Proof.
  intros Hpl Ha lo parse uri_of.
  assert (Hn : ∀ rest, unescape rest = Some [] → uri_of (parse rest) = norm merge path [] []).
  { intros rest Hrest. unfold uri_of, parse, lo.
    pose proof (parse_normalizes merge pre (path ++ rest) e tl quoted plus) as H.
    cbv zeta in H. unfold normalize in H. rewrite unescape_plain_app, Hrest in H by done.
    cbn in H. rewrite app_nil_r in H.
    destruct (ngx_http_parse_complex_uri _ _ _ _ _ _); [done|by destruct H|done..]. }
  assert (Hcut : unescape ["%"%ch; a] = Some []) by (cbn; by destruct (hexval a)).
  by split; rewrite !Hn.
Qed.

(** With [merge_slashes] off, [/../] after an empty segment removes that
    segment and the one before it: ["/a//../b"] becomes ["/b"], where removing
    one segment gives ["/a/b"]. *)
Theorem complex_uri_empty_segment_parent pre seg rest e tl quoted plus :
  Forall plain (seg ++ rest) → no_slash seg → no_slash rest → no_dots true seg →
  let lo := Z.of_nat (length pre) in
  let path := seg ++ bs "//../" ++ rest in
  ∃ r, ngx_http_parse_complex_uri false (pre ++ "/"%ch :: path ++ e :: tl) lo
         (lo + 1 + Z.of_nat (length path)) quoted plus = Ok r ∧
    uri r = "/"%ch :: rest.
Proof.
  intros Hpl Hseg Hrest (H1 & H2 & H3) lo path. specialize (H3 eq_refl).
  pose proof (parse_normalizes false pre path e tl quoted plus) as H. cbv zeta in H.
  assert (Hp : unescape path = Some path).
  { rewrite <- (app_nil_r path) at 1. rewrite unescape_plain_app; cbn; [by rewrite app_nil_r|].
    apply Forall_app in Hpl as [??]. unfold path. repeat apply Forall_app_2; [done| |done].
    by repeat constructor. }
  assert (Hn : norm false path [] [] = Some ("/"%ch :: rest)).
  { assert (Hstart : ∀ k cur st, norm false (seg ++ k) cur st = norm false k (cur ++ seg) st).
    { clear -Hseg. induction Hseg as [|c l Hc Hl IH]; intros k cur st; cbn; [by rewrite app_nil_r|].
      rewrite (proj2 (Z.eqb_neq c 47) Hc), IH. by rewrite <- app_assoc. }
    unfold path. rewrite Hstart. cbn. unfold close at 1.
    rewrite !decide_False by done. cbv iota.
    change (close false [] [seg]) with (Some [[]; seg]). cbv iota.
    change (close false [46; 46] [[]; seg]) with (Some (@nil (list Z))). cbv iota.
    by rewrite norm_no_slash. }
  unfold normalize in H. rewrite Hp in H. cbn in H. rewrite Hn in H.
  destruct (ngx_http_parse_complex_uri _ _ _ _ _ _) as [r|rc| |]; [|by destruct H|done..].
  exists r. by injection H.
Qed.

(** ** Instances *)

Definition sample : list Z := bs "/a/b/../c//d/./e%2ehtml?x#y HTTP/1.1".

Lemma complex_uri_writes_bounded_witness :
  ∃ s, reaches true sample 27 (entry "/"%ch 0 false false) s ∧ u s ≤ 27.
Proof.
  destruct (step true sample (entry "/"%ch 0 false false)) as [s| | | |] eqn:E; try discriminate E.
  exists s. assert (Hr : reaches true sample 27 (entry "/"%ch 0 false false) s).
  { apply rtc_once. split; [by vm_compute|exact E]. }
  split; [exact Hr|].
  pose proof (complex_uri_writes_bounded true sample 0 27 "/"%ch false false s
    ltac:(lia) ltac:(vm_compute; reflexivity) Hr) as [H _]. exact H.
Defined.

Lemma complex_uri_total_witness :
  ∃ r, ngx_http_parse_complex_uri true sample 0 27 false false = Ok r ∧ exten_ok r.
Proof.
  pose proof (complex_uri_total true sample 0 27 false false ltac:(lia)
    ltac:(vm_compute; reflexivity)) as H.
  destruct (ngx_http_parse_complex_uri true sample 0 27 false false) as [r| | |] eqn:E;
    [|vm_compute in E; discriminate E..].
  destruct H as (_ & H & _). exists r. split; [reflexivity|exact H].
Defined.

Lemma complex_uri_no_dot_segments_witness : no_dots true (bs "c").
Proof.
  apply (complex_uri_no_dot_segments true [] (bs "a/../b/../c/x") " "%ch (bs "HTTP") false false
    (mk_parsed (bs "/c/x") None None None false false) [] (bs "c") (bs "x")
    ltac:(vm_compute; reflexivity) ltac:(reflexivity) ltac:(repeat constructor; done)).
Defined.

Lemma complex_uri_keeps_final_dots_witness :
  ∃ dir, bs "/a/.." = dir ++ bs "/..".
Proof.
  apply (complex_uri_keeps_final_dots true [] (bs "a/..") " "%ch (bs "HTTP") false false
    (mk_parsed (bs "/a/..") None None None false false) (bs "a")
    ltac:(vm_compute; reflexivity) ltac:(vm_compute; reflexivity)).
Defined.

Lemma complex_uri_drops_cut_escape_witness :
  match ngx_http_parse_complex_uri true (bs "/a%4 ") 0 4 false false with
  | Ok r => uri r = bs "/a" | _ => False
  end.
Proof.
  pose proof (complex_uri_drops_cut_escape true [] (bs "a") "4"%ch " "%ch [] false false
    ltac:(repeat constructor; done) ltac:(vm_compute; discriminate)) as [_ H].
  vm_compute in H. vm_compute. reflexivity.
Defined.

Lemma complex_uri_empty_segment_parent_witness :
  ∃ r, ngx_http_parse_complex_uri false (bs "/a//../b ") 0 8 false false = Ok r ∧
    uri r = bs "/b".
Proof.
  apply (complex_uri_empty_segment_parent [] (bs "a") (bs "b") " "%ch [] false false
    ltac:(repeat constructor; done) ltac:(repeat constructor; done)
    ltac:(repeat constructor; done) ltac:(by split_and!)).
Defined.

End ComplexUri.
