(* ===== verification/Number.v ===== *)
(** * Numbers in text: [ngx_atoi] and its relatives, [ngx_parse_size],
    [ngx_parse_offset] and [ngx_parse_time]

    src/core/ngx_string.c and src/core/ngx_parse.c.  A [u_char *line, size_t n]
    pair is the list of its [n] bytes. *)

From S2P Require Import Prelude.

Module Number.

(** ** src/core/ngx_string.c *)

(** The loop of [ngx_atoi]: [value] is a signed 64-bit integer that wraps;
    [None] is a byte that is not a digit. *)
Fixpoint atoi_loop (value : Z) (line : list Z) : option Z :=
  match line with
  | [] => Some value
  | c :: line' =>
      if (c <? "0"%ch) || ("9"%ch <? c) then None
      else atoi_loop (s64 (value * 10 + (c - "0"%ch))) line'
  end.

Definition ngx_atoi (line : list Z) : Z :=
  match line with
  | [] => NGX_ERROR
  | _ =>
      match atoi_loop 0 line with
      | None => NGX_ERROR
      | Some value => if value <? 0 then NGX_ERROR else value
      end
  end.

(** [ssize_t], [off_t] and [time_t] have the width of [ngx_int_t], and these
    three functions its body. *)
Definition ngx_atosz (line : list Z) : Z := ngx_atoi line.
Definition ngx_atoof (line : list Z) : Z := ngx_atoi line.
Definition ngx_atotm (line : list Z) : Z := ngx_atoi line.

(** The loop of [ngx_atofp], with the digits still wanted after the point and
    whether the point was seen. *)
Fixpoint atofp_loop (value : Z) (point : nat) (dot : bool) (line : list Z) :
    option (Z * nat) :=
  match line with
  | [] => Some (value, point)
  | c :: line' =>
      if (point =? 0)%nat then None
      else if c =? "."%ch then
        if dot then None else atofp_loop value point true line'
      else if (c <? "0"%ch) || ("9"%ch <? c) then None
      else atofp_loop (s64 (value * 10 + (c - "0"%ch)))
             (if dot then (point - 1)%nat else point) dot line'
  end.

Fixpoint scale10 (value : Z) (point : nat) : Z :=
  match point with O => value | S point' => scale10 (s64 (value * 10)) point' end.

Definition ngx_atofp (line : list Z) (point : nat) : Z :=
  match line with
  | [] => NGX_ERROR
  | _ =>
      match atofp_loop 0 point false line with
      | None => NGX_ERROR
      | Some (value, point) =>
          let value := scale10 value point in
          if value <? 0 then NGX_ERROR else value
      end
  end.

Definition hex_digit (ch : Z) : option Z :=
  if ("0"%ch <=? ch) && (ch <=? "9"%ch) then Some (ch - "0"%ch)
  else
    let c := u8 (Z.lor ch 0x20) in
    if ("a"%ch <=? c) && (c <=? "f"%ch) then Some (c - "a"%ch + 10) else None.

Fixpoint hextoi_loop (value : Z) (line : list Z) : option Z :=
  match line with
  | [] => Some value
  | ch :: line' =>
      match hex_digit ch with
      | Some d => hextoi_loop (s64 (value * 16 + d)) line'
      | None => None
      end
  end.

Definition ngx_hextoi (line : list Z) : Z :=
  match line with
  | [] => NGX_ERROR
  | _ =>
      match hextoi_loop 0 line with
      | None => NGX_ERROR
      | Some value => if value <? 0 then NGX_ERROR else value
      end
  end.

(** [hex[]] of [ngx_hex_dump]. *)
Definition hex : list Z := bs "0123456789abcdef".

Fixpoint ngx_hex_dump (src : list Z) : list Z :=
  match src with
  | [] => []
  | c :: src' =>
      nth (Z.to_nat (Z.shiftr c 4)) hex 0 :: nth (Z.to_nat (Z.land c 0xf)) hex 0 ::
      ngx_hex_dump src'
  end.

(** ** src/core/ngx_parse.c *)

(** The line without its last byte, and that byte ([data[len - 1]]: the
    functions are called on lines that are not empty). *)
Definition unit_of (line : list Z) : Z := match list.last line with Some c => c | None => NUL end.
Definition but_last (line : list Z) : list Z := take (length line - 1) line.

Definition ngx_parse_size (line : list Z) : Z :=
  let '(line', scale) :=
    let c := unit_of line in
    if (c =? "K"%ch) || (c =? "k"%ch) then (but_last line, 1024)
    else if (c =? "M"%ch) || (c =? "m"%ch) then (but_last line, 1024 * 1024)
    else (line, 1) in
  let size := ngx_atosz line' in
  if size =? NGX_ERROR then NGX_ERROR else s64 (size * scale).

Definition ngx_parse_offset (line : list Z) : Z :=
  let '(line', scale) :=
    let c := unit_of line in
    if (c =? "K"%ch) || (c =? "k"%ch) then (but_last line, 1024)
    else if (c =? "M"%ch) || (c =? "m"%ch) then (but_last line, 1024 * 1024)
    else if (c =? "G"%ch) || (c =? "g"%ch) then (but_last line, 1024 * 1024 * 1024)
    else (line, 1) in
  let offset := ngx_atoof line' in
  if offset =? NGX_ERROR then NGX_ERROR else s64 (offset * scale).

(** [ngx_parse_time]: the steps, in the order of the enumeration. *)
Inductive time_step : Set :=
  | st_start | st_year | st_month | st_week | st_day | st_hour | st_min
  | st_sec | st_msec | st_last.

Definition step_rank (s : time_step) : Z :=
  match s with
  | st_start => 0 | st_year => 1 | st_month => 2 | st_week => 3 | st_day => 4
  | st_hour => 5 | st_min => 6 | st_sec => 7 | st_msec => 8 | st_last => 9
  end.

Record time_state := mk_time {
  value : Z;
  total : Z;
  step : time_step;
  scale : Z;
  valid : bool;
}.

#[export] Instance eta_time_state : Eta time_state := λ s,
  mk_time (value s) (total s) (step s) (scale s) (valid s).

(** The [switch] on the byte read: from the letter [c], the byte [next] after it and the
    current step, the new step, [max], [scale] and whether [next] was consumed
    too; [None] is [NGX_ERROR]. *)
Definition time_unit (is_sec : bool) (c next : Z) (st : time_step) :
    option (time_step * Z * Z * bool) :=
  let r := step_rank st in
  if c =? "y"%ch then
    if step_rank st_start <? r then None
    else Some (st_year, NGX_MAX_INT32_VALUE / (60 * 60 * 24 * 365), 60 * 60 * 24 * 365, false)
  else if c =? "M"%ch then
    if step_rank st_month <=? r then None
    else Some (st_month, NGX_MAX_INT32_VALUE / (60 * 60 * 24 * 30), 60 * 60 * 24 * 30, false)
  else if c =? "w"%ch then
    if step_rank st_week <=? r then None
    else Some (st_week, NGX_MAX_INT32_VALUE / (60 * 60 * 24 * 7), 60 * 60 * 24 * 7, false)
  else if c =? "d"%ch then
    if step_rank st_day <=? r then None
    else Some (st_day, NGX_MAX_INT32_VALUE / (60 * 60 * 24), 60 * 60 * 24, false)
  else if c =? "h"%ch then
    if step_rank st_hour <=? r then None
    else Some (st_hour, NGX_MAX_INT32_VALUE / (60 * 60), 60 * 60, false)
  else if c =? "m"%ch then
    if next =? "s"%ch then
      if is_sec || (step_rank st_msec <=? r) then None
      else Some (st_msec, NGX_MAX_INT32_VALUE, 1, true)
    else if step_rank st_min <=? r then None
    else Some (st_min, NGX_MAX_INT32_VALUE / 60, 60, false)
  else if c =? "s"%ch then
    if step_rank st_sec <=? r then None
    else Some (st_sec, NGX_MAX_INT32_VALUE, 1, false)
  else if c =? " "%ch then
    if step_rank st_sec <=? r then None
    else Some (st_last, NGX_MAX_INT32_VALUE, 1, false)
  else None.

(** The rest of the loop body, after the switch. *)
Definition time_add (is_sec : bool) (s : time_state) (st : time_step) (max scale : Z) :
    option time_state :=
  let '(scale, max) :=
    match st with
    | st_msec => (scale, max)
    | _ => if is_sec then (scale, max) else (scale * 1000, max / 1000)
    end in
  if max <? u64 (value s) then None
  else
    let total := s64 (total s + s64 (value s * scale)) in
    if NGX_MAX_INT32_VALUE <? u64 total then None
    else Some (mk_time 0 total st (if is_sec then 1 else 1000) (valid s)).

(** [while (p < last && *p == ' ') p++]. *)
Fixpoint skip_spaces (line : list Z) : list Z :=
  match line with
  | c :: line' => if c =? " "%ch then skip_spaces line' else line
  | [] => []
  end.

(** [while (p < last)]; [after] is the byte in memory after the line.  [None]
    is a return of [NGX_ERROR] from the loop.  Every iteration consumes a
    byte, so [length line] is enough fuel (see [parse_time_fuel]). *)
Fixpoint time_loop (fuel : nat) (is_sec : bool) (after : Z) (line : list Z) (s : time_state) :
    option time_state :=
  match fuel, line with
  | _, [] => Some s
  | O, _ => None
  | S fuel, c :: line' =>
      if is_digit c then
        time_loop fuel is_sec after line'
          (s <| value := s64 (value s * 10 + (c - "0"%ch)) |> <| valid := true |>)
      else
        match time_unit is_sec c (hd after line') (step s) with
        | None => None
        | Some (st, max, scale, two) =>
            match time_add is_sec s st max scale with
            | None => None
            | Some s' =>
                time_loop fuel is_sec after
                  (skip_spaces (if two then tail line' else line')) s'
            end
        end
  end.

Definition ngx_parse_time (line : list Z) (after : Z) (is_sec : bool) : Z :=
  let s := mk_time 0 0 (if is_sec then st_start else st_month) (if is_sec then 1 else 1000) false in
  match time_loop (length line) is_sec after line s with
  | None => NGX_ERROR
  | Some s => if valid s then s64 (total s + s64 (value s * scale s)) else NGX_ERROR
  end.

(** ** Theorems: decimal and hexadecimal numbers *)

Lemma s64_ex x : ∃ k, s64 x = x + k * 18446744073709551616.
Proof.
  unfold s64. exists (- ((x + 9223372036854775808) / 18446744073709551616)).
  pose proof (Z.div_mod (x + 9223372036854775808) 18446744073709551616 ltac:(lia)). lia.
Qed.

Lemma s64_add x k : s64 (x + k * 18446744073709551616) = s64 x.
Proof.
  unfold s64. f_equal.
  replace (x + k * _ + _) with (x + 9223372036854775808 + k * 18446744073709551616) by lia.
  by rewrite Z.mod_add.
Qed.

(** Wrapping an intermediate value does not change the wrapped result. *)
Lemma s64_step v m d : s64 (s64 v * m + d) = s64 (v * m + d).
Proof.
  destruct (s64_ex v) as [k ->].
  replace ((v + k * _) * m + d) with (v * m + d + (k * m) * 18446744073709551616) by lia.
  apply s64_add.
Qed.

Lemma atoi_loop_digits ds : ∀ v,
  Forall is_digit ds → atoi_loop (s64 v) ds = Some (s64 (dec_from v ds)).
Proof.
  induction ds as [|c ds IH]; intros v Hds; [done|]. inversion_clear Hds as [|?? Hc Hds'].
  apply is_digit_range in Hc. cbn.
  replace ((c <? "0"%ch) || ("9"%ch <? c)) with false by lia.
  by rewrite s64_step, IH.
Qed.

Lemma atoi_loop_error ds : ∀ v, ¬ Forall is_digit ds → atoi_loop v ds = None.
Proof.
  induction ds as [|c ds IH]; intros v Hds; [destruct Hds; constructor|]. cbn.
  destruct ((c <? "0"%ch) || ("9"%ch <? c)) eqn:E; [done|].
  apply IH. intros Hd. apply Hds. constructor; [|done]. apply is_digit_range. lia.
Qed.

Lemma atoi_digits ds :
  Forall is_digit ds → ds ≠ [] →
  ngx_atoi ds = if s64 (dec ds) <? 0 then NGX_ERROR else s64 (dec ds).
Proof.
  intros Hds Hn. unfold ngx_atoi. destruct ds as [|c ds]; [done|].
  change 0 with (s64 0) at 1. by rewrite atoi_loop_digits.
Qed.

Lemma atoi_value ds :
  Forall is_digit ds → ds ≠ [] → dec ds ≤ MAX_INT64 → ngx_atoi ds = dec ds.
Proof.
  intros Hds Hn Hle. rewrite atoi_digits by done.
  pose proof (dec_from_nonneg ds 0 ltac:(lia) Hds). rewrite s64_id by lia.
  by replace (dec ds <? 0) with false by lia.
Qed.

Lemma atoi_error line : line = [] ∨ ¬ Forall is_digit line → ngx_atoi line = NGX_ERROR.
Proof.
  intros [->|Hl]; [done|]. unfold ngx_atoi. destruct line as [|c l]; [done|].
  by rewrite atoi_loop_error.
Qed.

(** [ngx_atoi] returns the number a line of digits writes when it fits 63
    bits, and an error for an empty line or one with another byte. *)
Theorem atoi_correct line :
  (Forall is_digit line → line ≠ [] → dec line ≤ MAX_INT64 → ngx_atoi line = dec line) ∧
  (line = [] ∨ ¬ Forall is_digit line → ngx_atoi line = NGX_ERROR).
Proof. split; [apply atoi_value|apply atoi_error]. Qed.

(** A number that does not fit is not always an error: only the sign of the
    wrapped value is examined, so a number is returned as its remainder modulo
    2^64 whenever that is below 2^63. *)
Theorem atoi_overflow line r k :
  Forall is_digit line → 0 ≤ r ≤ MAX_INT64 → dec line = r + k * 18446744073709551616 →
  line ≠ [] → ngx_atoi line = r.
Proof.
  intros Hd Hr Heq Hn. rewrite atoi_digits, Heq, s64_add, s64_id by (done || lia).
  by replace (r <? 0) with false by lia.
Qed.

Lemma scale10_wrap n : ∀ v, scale10 (s64 v) n = s64 (v * 10 ^ Z.of_nat n).
Proof.
  induction n as [|n IH]; intros v; cbn [scale10]; [f_equal; lia|].
  replace (s64 v * 10) with (s64 v * 10 + 0) by lia. rewrite s64_step, IH. f_equal.
  rewrite Nat2Z.inj_succ, Z.pow_succ_r by lia. lia.
Qed.

Lemma atofp_int ds : ∀ v point rest,
  Forall is_digit ds → (0 < point)%nat →
  atofp_loop (s64 v) point false (ds ++ rest) = atofp_loop (s64 (dec_from v ds)) point false rest.
Proof.
  induction ds as [|c ds IH]; intros v point rest Hds Hp; [done|].
  inversion_clear Hds as [|?? Hc Hds']. apply is_digit_range in Hc. cbn [app atofp_loop].
  replace (point =? 0)%nat with false by (symmetry; apply Nat.eqb_neq; lia).
  replace (c =? "."%ch) with false by lia.
  replace ((c <? "0"%ch) || ("9"%ch <? c)) with false by lia.
  by rewrite s64_step, IH.
Qed.

Lemma atofp_frac ds : ∀ v point,
  Forall is_digit ds → (length ds ≤ point)%nat →
  atofp_loop (s64 v) point true ds = Some (s64 (dec_from v ds), (point - length ds)%nat).
Proof.
  induction ds as [|c ds IH]; intros v point Hds Hp; cbn in Hp; [by cbn; rewrite Nat.sub_0_r|].
  inversion_clear Hds as [|?? Hc Hds']. apply is_digit_range in Hc. cbn [atofp_loop].
  replace (point =? 0)%nat with false by (symmetry; apply Nat.eqb_neq; lia).
  replace (c =? "."%ch) with false by lia.
  replace ((c <? "0"%ch) || ("9"%ch <? c)) with false by lia.
  rewrite s64_step, IH by (done || lia). cbn. by rewrite <- Nat.sub_add_distr.
Qed.

Lemma atofp_long ds : ∀ v point,
  Forall is_digit ds → (point < length ds)%nat → atofp_loop v point true ds = None.
Proof.
  induction ds as [|c ds IH]; intros v point Hds Hp; cbn in Hp; [lia|].
  inversion_clear Hds as [|?? Hc Hds']. apply is_digit_range in Hc. cbn [atofp_loop].
  destruct (Nat.eqb_spec point 0); [done|].
  replace (c =? "."%ch) with false by lia.
  replace ((c <? "0"%ch) || ("9"%ch <? c)) with false by lia.
  apply IH; [done|lia].
Qed.

(** [ngx_atofp] of a number with at most [point] digits after its dot is
    that number times [10 ^ point], wrapped to 64 bits, or an error when the
    wrapped value is negative; digits beyond [point] are an error. *)
Theorem atofp_correct int frac point :
  Forall is_digit int → Forall is_digit frac → (0 < point)%nat →
  ngx_atofp (int ++ "."%ch :: frac) point =
  if (length frac <=? point)%nat then
    let v := s64 (dec (int ++ frac) * 10 ^ (Z.of_nat point - Z.of_nat (length frac))) in
    if v <? 0 then NGX_ERROR else v
  else NGX_ERROR.
Proof.
  intros Hi Hf Hp. unfold ngx_atofp.
  destruct (int ++ "."%ch :: frac) as [|c l] eqn:E; [by destruct int|]. rewrite <- E. clear c l E.
  change 0 with (s64 0) at 1. rewrite atofp_int by done. cbn [atofp_loop].
  replace (point =? 0)%nat with false by (symmetry; apply Nat.eqb_neq; lia).
  change ("."%ch =? "."%ch) with true. cbn iota.
  rewrite dec_from_app. generalize (dec int) as v0. intros v0.
  destruct (Nat.leb_spec (length frac) point).
  - rewrite atofp_frac by done. rewrite scale10_wrap.
    by replace (Z.of_nat (point - length frac)) with (Z.of_nat point - Z.of_nat (length frac)) by lia.
  - by rewrite atofp_long by (done || lia).
Qed.

(** The number a list of bytes writes, most significant first. *)
Definition be (src : list Z) : Z := fold_left (λ v c, v * 256 + c) src 0.

Lemma be_nonneg src : bytes src → ∀ v, 0 ≤ v → 0 ≤ fold_left (λ v c, v * 256 + c) src v.
Proof.
  induction 1 as [|c src [Hc _] _ IH]; intros v Hv; [done|]. apply IH. lia.
Qed.

Lemma hex_digit_hex c :
  is_byte c →
  hex_digit (nth (Z.to_nat (Z.shiftr c 4)) hex 0) = Some (c / 16) ∧
  hex_digit (nth (Z.to_nat (Z.land c 0xf)) hex 0) = Some (c mod 16).
Proof.
  intros Hc.
  assert (H : (bool_decide (hex_digit (nth (Z.to_nat (Z.shiftr c 4)) hex 0) = Some (c / 16)) &&
    bool_decide (hex_digit (nth (Z.to_nat (Z.land c 0xf)) hex 0) = Some (c mod 16))) = true)
    by by_bytes c.
  by apply andb_true_iff in H as [?%bool_decide_eq_true ?%bool_decide_eq_true].
Qed.

Lemma hextoi_dump src : ∀ v, bytes src →
  hextoi_loop (s64 v) (ngx_hex_dump src) = Some (s64 (fold_left (λ v c, v * 256 + c) src v)).
Proof.
  induction src as [|c src IH]; intros v Hs; [done|]. inversion_clear Hs as [|?? Hc Hs'].
  cbn [ngx_hex_dump hextoi_loop]. destruct (hex_digit_hex c Hc) as [-> ->]. cbv iota.
  rewrite s64_step. pose proof (Z.div_mod c 16 ltac:(lia)).
  replace ((s64 v * 16 + c `div` 16) * 16 + c `mod` 16) with (s64 v * 256 + c) by lia.
  by rewrite s64_step, IH.
Qed.

(** [ngx_hextoi] reads back what [ngx_hex_dump] prints: two digits per byte,
    the number the bytes write most significant first. *)
Theorem hex_roundtrip src :
  bytes src → src ≠ [] → be src ≤ MAX_INT64 →
  length (ngx_hex_dump src) = (2 * length src)%nat ∧ ngx_hextoi (ngx_hex_dump src) = be src.
Proof.
  intros Hs Hn Hle. split.
  { clear. induction src as [|c src IH]; [done|]. cbn. lia. }
  assert (0 ≤ be src).
  { by apply be_nonneg. }
  unfold ngx_hextoi. destruct (ngx_hex_dump src) eqn:E; [by destruct src|]. rewrite <- E.
  change 0 with (s64 0) at 1. rewrite hextoi_dump by done.
  change (fold_left _ src 0) with (be src). rewrite s64_id by lia.
  by replace (be src <? 0) with false by lia.
Qed.

(** ** Theorems: sizes and offsets *)

Lemma but_last_snoc l c : but_last (l ++ [c]) = l ∧ unit_of (l ++ [c]) = c.
Proof.
  unfold but_last, unit_of. rewrite last_snoc, length_app. cbn.
  replace (length l + 1 - 1)%nat with (length l) by lia. by rewrite take_app_length.
Qed.

Lemma unit_of_digits ds : Forall is_digit ds → ds ≠ [] → is_digit (unit_of ds).
Proof.
  intros Hds Hn. destruct (exists_last Hn) as (l & d & ->). destruct (but_last_snoc l d) as [_ ->].
  apply Forall_app in Hds as [_ Hd]. by inversion_clear Hd.
Qed.

(** The suffixes and what they multiply by; [None] is no suffix. *)
Definition size_scale (c : Z) : option Z :=
  if (c =? "K"%ch) || (c =? "k"%ch) then Some 1024
  else if (c =? "M"%ch) || (c =? "m"%ch) then Some (1024 * 1024) else None.
Definition offset_scale (c : Z) : option Z :=
  if (c =? "G"%ch) || (c =? "g"%ch) then Some (1024 * 1024 * 1024) else size_scale c.

(** A size with a suffix is the number times the unit, a size without one the
    number itself, and an offset has gigabytes as well. *)
Theorem parse_size_correct ds c :
  Forall is_digit ds → ds ≠ [] → dec ds * 1073741824 ≤ MAX_INT64 →
  (size_scale c ≠ None → ngx_parse_size (ds ++ [c]) = dec ds * default 1 (size_scale c)) ∧
  (offset_scale c ≠ None → ngx_parse_offset (ds ++ [c]) = dec ds * default 1 (offset_scale c)) ∧
  ngx_parse_size ds = dec ds ∧ ngx_parse_offset ds = dec ds.
Proof.
  intros Hds Hn Hle. pose proof (dec_from_nonneg ds 0 ltac:(lia) Hds) as H0.
  assert (Ha : ngx_atoi ds = dec ds) by (apply atoi_value; [done..|lia]).
  unfold ngx_parse_size, ngx_parse_offset, offset_scale, size_scale, ngx_atosz, ngx_atoof.
  destruct (but_last_snoc ds c) as [-> ->].
  pose proof (unit_of_digits ds Hds Hn) as Hu. apply is_digit_range in Hu.
  assert (Hne : (dec ds =? NGX_ERROR) = false) by lia.
  split_and!.
  1, 2: split_ifs; intros; try done; cbn in *; rewrite ?Ha in *;
    first [exfalso; lia | rewrite s64_id by lia; lia].
  all: repeat (rewrite (proj2 (Z.eqb_neq (unit_of ds) _)) by lia); cbn;
    rewrite Ha, Hne, s64_id by lia; lia.
Qed.

(** ** Theorems: times *)

Lemma skip_spaces_length l : (length (skip_spaces l) ≤ length l)%nat.
Proof. induction l as [|c l IH]; [done|]. cbn. destruct (c =? " "%ch); cbn; lia. Qed.

Lemma time_rest_length (two : bool) (l : list Z) :
  (length (skip_spaces (if two then tail l else l)) ≤ length l)%nat.
Proof.
  etrans; [apply skip_spaces_length|]. destruct two; [|done]. destruct l; cbn; lia.
Qed.

(** Every iteration consumes a byte: more fuel than bytes changes nothing. *)
Lemma parse_time_fuel is_sec after fuel : ∀ line s,
  (length line ≤ fuel)%nat →
  time_loop fuel is_sec after line s = time_loop (length line) is_sec after line s.
Proof.
  assert (H : ∀ n fuel line s, (length line ≤ n)%nat → (length line ≤ fuel)%nat →
    time_loop fuel is_sec after line s = time_loop (length line) is_sec after line s).
  { clear fuel. induction n as [|n IH]; intros fuel line s Hn Hf.
    - destruct line; [by destruct fuel|cbn in Hn; lia].
    - destruct line as [|c line]; [by destruct fuel|]. destruct fuel as [|fuel]; cbn in Hf; [lia|].
      cbn in Hn. cbn [time_loop length]. destruct (is_digit c); [by apply IH; lia|].
      destruct (time_unit _ _ _ _) as [[[[st max] sc] two]|]; [|done].
      destruct (time_add _ _ _ _ _); [|done].
      pose proof (time_rest_length two line).
      rewrite (IH fuel), (IH (length line)) by lia. done. }
  intros line s Hf. by apply (H (length line)).
Qed.

(** The units a time is written in. *)
Inductive time_name : Set := Years | Months | Weeks | Days | Hours | Minutes | Seconds | Msecs.

Definition name_text (n : time_name) : list Z :=
  match n with
  | Years => bs "y" | Months => bs "M" | Weeks => bs "w" | Days => bs "d" | Hours => bs "h"
  | Minutes => bs "m" | Seconds => bs "s" | Msecs => bs "ms"
  end.

Definition name_step (n : time_name) : time_step :=
  match n with
  | Years => st_year | Months => st_month | Weeks => st_week | Days => st_day
  | Hours => st_hour | Minutes => st_min | Seconds => st_sec | Msecs => st_msec
  end.

(** The length of a unit in milliseconds. *)
Definition name_msec (n : time_name) : Z :=
  match n with
  | Years => 31536000000 | Months => 2592000000 | Weeks => 604800000 | Days => 86400000
  | Hours => 3600000 | Minutes => 60000 | Seconds => 1000 | Msecs => 1
  end.

(** Years and months are written only where seconds are counted, milliseconds
    only where milliseconds are. *)
Definition name_ok (is_sec : bool) (n : time_name) : bool :=
  match n with Years | Months => is_sec | Msecs => negb is_sec | _ => true end.

Definition name_value (is_sec : bool) (n : time_name) : Z :=
  if is_sec then name_msec n / 1000 else name_msec n.

(** A time as it is written: numbers with units. *)
Definition time_text (items : list (list Z * time_name)) : list Z :=
  concat (map (λ i, i.1 ++ name_text i.2) items).
Definition time_value (is_sec : bool) (items : list (list Z * time_name)) : Z :=
  fold_right (λ i v, dec i.1 * name_value is_sec i.2 + v) 0 items.

(** Numbers are not empty, units are allowed and grow smaller. *)
Fixpoint time_wf (is_sec : bool) (st : time_step) (items : list (list Z * time_name)) : Prop :=
  match items with
  | [] => True
  | (ds, n) :: items' =>
      Forall is_digit ds ∧ ds ≠ [] ∧ name_ok is_sec n = true ∧
      step_rank st < step_rank (name_step n) ∧ time_wf is_sec (name_step n) items'
  end.

Lemma dec_from_ge ds : ∀ v, 0 ≤ v → Forall is_digit ds → v ≤ dec_from v ds.
Proof.
  induction ds as [|c ds IH]; intros v Hv Hds; [done|]. inversion_clear Hds as [|?? Hc Hds'].
  apply is_digit_range in Hc. cbn. etrans; [|apply IH; [lia|done]]. lia.
Qed.

Lemma time_digits is_sec after ds : ∀ fuel rest s,
  Forall is_digit ds → 0 ≤ value s → dec_from (value s) ds ≤ MAX_INT64 →
  time_loop (length ds + fuel) is_sec after (ds ++ rest) s =
  time_loop fuel is_sec after rest
    (mk_time (dec_from (value s) ds) (total s) (step s) (scale s)
       (match ds with [] => valid s | _ => true end)).
Proof.
  induction ds as [|c ds IH]; intros fuel rest s Hds Hv Hle; [by destruct s|].
  inversion_clear Hds as [|?? Hc Hds']. pose proof (proj1 (is_digit_range c) Hc) as Hr.
  cbn [length Nat.add app time_loop]. apply Is_true_true in Hc. rewrite Hc.
  assert (Hle' : value s * 10 + (c - 48) ≤ MAX_INT64).
  { etrans; [|exact Hle]. cbn. apply dec_from_ge; [lia|done]. }
  rewrite s64_id by lia. rewrite IH; cbn; [|done|lia|done].
  by destruct ds.
Qed.

Lemma time_add_ok (is_sec : bool) s st max sc :
  let mult := if is_sec then sc else match st with st_msec => sc | _ => sc * 1000 end in
  0 < sc ≤ 31536000 → max = NGX_MAX_INT32_VALUE / sc →
  0 ≤ value s → 0 ≤ total s → total s + value s * mult ≤ NGX_MAX_INT32_VALUE →
  time_add is_sec s st max sc =
    Some (mk_time 0 (total s + value s * mult) st (if is_sec then 1 else 1000) (valid s)).
Proof.
  intros mult Hsc -> Hv Ht Hle. unfold time_add.
  assert (Hm : match st with
      | st_msec => (sc, NGX_MAX_INT32_VALUE / sc)
      | _ => if is_sec then (sc, NGX_MAX_INT32_VALUE / sc)
             else (sc * 1000, NGX_MAX_INT32_VALUE / sc / 1000) end =
    (mult, NGX_MAX_INT32_VALUE / mult)).
  { unfold mult. destruct is_sec; [by destruct st|].
    destruct st; rewrite ?Z.div_div by lia; done. }
  rewrite Hm. clear Hm.
  assert (0 < mult) by (unfold mult; destruct is_sec; [lia|destruct st; lia]).
  assert (value s ≤ NGX_MAX_INT32_VALUE / mult) by (apply Z.div_le_lower_bound; nia).
  assert (0 ≤ value s * mult ≤ NGX_MAX_INT32_VALUE) by nia.
  rewrite (u64_id (value s)) by nia. rewrite (s64_id (value s * mult)) by lia.
  rewrite s64_id, u64_id by lia.
  replace (_ <? value s) with false by lia. by replace (_ <? total s + _) with false by lia.
Qed.

#[local] Arguments time_add : simpl never.

Lemma time_item is_sec after fuel n rest s :
  name_ok is_sec n = true → step_rank (step s) < step_rank (name_step n) →
  hd after rest ≠ "s"%ch → hd after rest ≠ " "%ch →
  0 ≤ value s → 0 ≤ total s → total s + value s * name_value is_sec n ≤ NGX_MAX_INT32_VALUE →
  (length rest ≤ fuel)%nat →
  time_loop (S fuel) is_sec after (name_text n ++ rest) s =
  time_loop fuel is_sec after rest
    (mk_time 0 (total s + value s * name_value is_sec n) (name_step n)
       (if is_sec then 1 else 1000) (valid s)).
Proof.
  intros Hok Hst Hs Hsp Hv Ht Hle Hf.
  assert (Hskip : skip_spaces rest = rest).
  { destruct rest as [|c rest]; [done|]. cbn in *. by rewrite (proj2 (Z.eqb_neq c 32) Hsp). }
  apply Z.eqb_neq in Hs.
  destruct n, is_sec; try discriminate Hok; unfold name_value in *; cbn in Hst, Hle |- *;
    rewrite ?Hs; cbn;
    repeat match goal with
    | |- context [?a <? ?r] => replace (a <? r) with false by lia
    | |- context [?a <=? ?r] => replace (a <=? r) with false by lia
    end; cbn [orb].
  all: change (is_digit 121) with false; change (is_digit 77) with false;
    change (is_digit 119) with false; change (is_digit 100) with false;
    change (is_digit 104) with false; change (is_digit 109) with false;
    change (is_digit 115) with false; cbn iota.
  all: rewrite time_add_ok by (done || (cbn; lia)); rewrite Hskip; reflexivity.
Qed.

Lemma time_value_nonneg is_sec items : ∀ st, time_wf is_sec st items → 0 ≤ time_value is_sec items.
Proof.
  induction items as [|[ds n] items IH]; intros st; [done|]. intros (Hds & _ & _ & _ & Hwf).
  pose proof (dec_from_nonneg ds 0 ltac:(lia) Hds). apply IH in Hwf.
  assert (0 ≤ name_value is_sec n) by by destruct n, is_sec.
  change (0 ≤ dec ds * name_value is_sec n + time_value is_sec items). nia.
Qed.

Lemma time_loop_items is_sec after items : ∀ fuel s,
  after ≠ "s"%ch → after ≠ " "%ch →
  time_wf is_sec (step s) items → (length (time_text items) ≤ fuel)%nat →
  0 ≤ total s → value s = 0 → scale s = (if is_sec then 1 else 1000) →
  total s + time_value is_sec items ≤ NGX_MAX_INT32_VALUE →
  ∃ st, time_loop fuel is_sec after (time_text items) s =
    Some (mk_time 0 (total s + time_value is_sec items) st (if is_sec then 1 else 1000)
            (match items with [] => valid s | _ => true end)).
Proof.
  induction items as [|[ds n] items IH]; intros fuel s Ha Hsp Hwf Hf Ht Hv Hsc Hle.
  { exists (step s). cbn. rewrite Z.add_0_r, <- Hv, <- Hsc. by destruct s, fuel. }
  destruct Hwf as (Hds & Hn & Hok & Hst & Hwf).
  assert (Hv0 : 0 < name_value is_sec n) by by destruct n, is_sec.
  pose proof (dec_from_nonneg ds 0 ltac:(lia) Hds) as Hd.
  pose proof (time_value_nonneg is_sec _ _ Hwf) as Hi.
  change (time_value is_sec ((ds, n) :: items))
    with (dec ds * name_value is_sec n + time_value is_sec items) in *.
  change (time_text ((ds, n) :: items)) with ((ds ++ name_text n) ++ time_text items) in *.
  rewrite <- app_assoc in *. set (text := ds ++ name_text n ++ time_text items) in *.
  assert (Hlen : (length text ≤ length ds + S (S (length (time_text items))))%nat).
  { unfold text. rewrite !length_app. destruct n; cbn; lia. }
  rewrite parse_time_fuel by done.
  rewrite <- (parse_time_fuel is_sec after _ text s Hlen). unfold text.
  rewrite time_digits, Hv by (rewrite ?Hv; done || nia).
  assert (Hhd : hd after (time_text items) ≠ 115 ∧ hd after (time_text items) ≠ 32).
  { destruct items as [|[[|c ds'] n'] items]; [done|by destruct Hwf as (_ & ? & _)|].
    destruct Hwf as (Hds' & _). inversion_clear Hds' as [|?? Hc _].
    apply is_digit_range in Hc. cbn. lia. }
  destruct Hhd. rewrite time_item by (cbn; done || lia). cbn [total value valid].
  destruct (IH (S (length (time_text items))) (mk_time 0 (total s + dec ds * name_value is_sec n)
    (name_step n) (if is_sec then 1 else 1000) true)) as [st Hst'];
    [done|done|done|lia|cbn; nia|done|done|cbn; lia|].
  exists st. replace (match ds with [] => valid s | _ => true end) with true by by destruct ds.
  rewrite Hst'. cbn. f_equal. f_equal; [lia|]. by destruct items.
Qed.

(** A time written as numbers with ever smaller units is the sum of the
    numbers in seconds, or in milliseconds when those are counted. *)
Theorem parse_time_correct is_sec after items :
  after ≠ "s"%ch → after ≠ " "%ch → items ≠ [] →
  time_wf is_sec (if is_sec then st_start else st_month) items →
  time_value is_sec items ≤ NGX_MAX_INT32_VALUE →
  ngx_parse_time (time_text items) after is_sec = time_value is_sec items.
Proof.
  intros Ha Hsp Hn Hwf Hle. pose proof (time_value_nonneg _ _ _ Hwf) as Hi.
  unfold ngx_parse_time.
  destruct (time_loop_items is_sec after items (length (time_text items))
    (mk_time 0 0 (if is_sec then st_start else st_month) (if is_sec then 1 else 1000) false))
    as [st ->]; try done.
  destruct items; [done|]. cbn [valid total value scale].
  rewrite Z.mul_0_l. change (s64 0) with 0. rewrite s64_id by lia. lia.
Qed.

Lemma nonempty_valid {A} (l : list A) (b : bool) :
  l ≠ [] → match l with [] => b | _ => true end = true.
Proof. by destruct l. Qed.

(** A trailing ["m"] is read together with the byte after the string: when
    that byte is an ["s"], minutes become milliseconds. *)
Theorem parse_time_reads_past_end ds :
  Forall is_digit ds → ds ≠ [] → dec ds * 60000 ≤ NGX_MAX_INT32_VALUE →
  ngx_parse_time (ds ++ bs "m") NUL false = dec ds * 60000 ∧
  ngx_parse_time (ds ++ bs "m") "s"%ch false = dec ds.
Proof.
  intros Hds Hn Hle. pose proof (dec_from_nonneg ds 0 ltac:(lia) Hds) as Hd.
  unfold ngx_parse_time. rewrite length_app.
  change (length (bs "m")) with 1%nat.
  split; rewrite time_digits by (cbn; done || lia).
  - rewrite (time_item false NUL 0 Minutes []) by (cbn; done || lia).
    cbn [time_loop valid total value scale]. rewrite nonempty_valid by done.
    rewrite Z.mul_0_l. change (s64 0) with 0. change (name_value false Minutes) with 60000.
    rewrite s64_id by lia. lia.
  - cbn. rewrite time_add_ok by (cbn; done || lia). cbn [valid total value scale].
    rewrite nonempty_valid by done.
    change (is_digit 109) with false. cbn [valid total value scale].
    change (s64 (0 * 1000)) with 0. rewrite s64_id by lia. lia.
Qed.

(** The last number of a time, the one without a unit, is not checked: a
    time in seconds can exceed the 32-bit maximum every other term is held
    to. *)
Theorem parse_time_last_unchecked ds after :
  Forall is_digit ds → ds ≠ [] → dec ds ≤ MAX_INT64 →
  ngx_parse_time ds after true = dec ds.
Proof.
  intros Hds Hn Hle. pose proof (dec_from_nonneg ds 0 ltac:(lia) Hds) as Hd.
  unfold ngx_parse_time.
  pose proof (time_digits true after ds 0 [] (mk_time 0 0 st_start 1 false) Hds) as Ht.
  rewrite app_nil_r, Nat.add_0_r in Ht. rewrite Ht by (cbn; lia).
  cbn [time_loop valid total value scale]. rewrite nonempty_valid, Z.mul_1_r by done.
  rewrite (s64_id (dec ds)), s64_id by lia. lia.
Qed.

(** ** Instances *)

Lemma atoi_overflow_witness : ngx_atoi (bs "18446744073709551617") = 1.
Proof.
  by_instance (atoi_overflow (bs "18446744073709551617") 1 1 ltac:(by repeat constructor)
    ltac:(lia) ltac:(by vm_compute) ltac:(done)).
Defined.

Lemma atofp_correct_witness : ngx_atofp (bs "10.5") 2 = 1050.
Proof.
  by_instance (atofp_correct (bs "10") (bs "5") 2 ltac:(by repeat constructor)
    ltac:(by repeat constructor) ltac:(lia)).
Defined.

Lemma hex_roundtrip_witness : ngx_hextoi (ngx_hex_dump [0x12; 0xab]) = 0x12ab.
Proof.
  by_instance (proj2 (hex_roundtrip [0x12; 0xab] ltac:(by repeat constructor) ltac:(done)
    ltac:(by vm_compute))).
Defined.

Lemma parse_size_correct_witness : ngx_parse_size (bs "8k") = 8192.
Proof.
  by_instance (proj1 (parse_size_correct (bs "8") "k"%ch ltac:(by repeat constructor) ltac:(done)
    ltac:(by vm_compute)) ltac:(done)).
Defined.

Lemma parse_time_correct_witness : ngx_parse_time (bs "1d12h") NUL true = 129600.
Proof.
  by_instance (parse_time_correct true NUL [(bs "1", Days); (bs "12", Hours)] ltac:(done)
    ltac:(done) ltac:(done) ltac:(cbn; split_and!; by repeat constructor) ltac:(by vm_compute)).
Defined.

Lemma parse_time_reads_past_end_witness : ngx_parse_time (bs "5m") "s"%ch false = 5.
Proof.
  by_instance (proj2 (parse_time_reads_past_end (bs "5") ltac:(by repeat constructor) ltac:(done)
    ltac:(by vm_compute))).
Defined.

Lemma parse_time_last_unchecked_witness : ngx_parse_time (bs "9999999999") NUL true = 9999999999.
Proof.
  by_instance (parse_time_last_unchecked (bs "9999999999") NUL ltac:(by repeat constructor)
    ltac:(done) ltac:(by vm_compute)).
Defined.

End Number.
