(* ===== verification/StringOps.v ===== *)
(** * Comparison and search of strings

    src/core/ngx_string.c.  A [u_char *] is the memory from there on;
    [None] is a read past its end, the pointer a search returns is an offset
    from where it began. *)

From S2P Require Import Prelude.

Module StringOps.

(** [c1 = (c1 >= 'A' && c1 <= 'Z') ? (c1 | 0x20) : c1], which is also
    [ngx_tolower]; [ngx_rstrncasecmp] has the upper case instead. *)
Abbreviation lower := ngx_tolower.
Definition upper (c : Z) : Z :=
  if ("a"%ch <=? c) && (c <=? "z"%ch) then u8 (c - ("a"%ch - "A"%ch)) else c.

(** ** Copies *)

Fixpoint ngx_strlow (src : list Z) (n : nat) : option (list Z) :=
  match n, src with
  | O, _ => Some []
  | S n, c :: src => option_map (cons (lower c)) (ngx_strlow src n)
  | S _, [] => None
  end.

(** [while (--n)]: what is written, the terminating NUL included. *)
Fixpoint cpystrn_loop (src : list Z) (n : nat) : option (list Z) :=
  match n, src with
  | O, _ => Some [NUL]
  | S n, c :: src => if c =? NUL then Some [NUL] else option_map (cons c) (cpystrn_loop src n)
  | S _, [] => None
  end.

Definition ngx_cpystrn (src : list Z) (n : nat) : option (list Z) :=
  match n with O => Some [] | S n => cpystrn_loop src n end.

(** ** Comparisons *)

Fixpoint ngx_strcasecmp (s1 s2 : list Z) : option Z :=
  match s1, s2 with
  | c1 :: s1, c2 :: s2 =>
      let c1 := lower c1 in let c2 := lower c2 in
      if c1 =? c2 then if c1 =? 0 then Some 0 else ngx_strcasecmp s1 s2
      else Some (s64 (u64 (c1 - c2)))
  | _, _ => None
  end.

Fixpoint ngx_strncasecmp (s1 s2 : list Z) (n : nat) {struct n} : option Z :=
  match n, s1, s2 with
  | O, _, _ => Some 0
  | S n, c1 :: s1, c2 :: s2 =>
      let c1 := lower c1 in let c2 := lower c2 in
      if c1 =? c2 then if c1 =? 0 then Some 0 else ngx_strncasecmp s1 s2 n
      else Some (s64 (u64 (c1 - c2)))
  | _, _, _ => None
  end.

(** C's [strncmp]. *)
Fixpoint ngx_strncmp (s1 s2 : list Z) (n : nat) {struct n} : option Z :=
  match n, s1, s2 with
  | O, _, _ => Some 0
  | S n, c1 :: s1, c2 :: s2 =>
      if c1 =? c2 then if c1 =? 0 then Some 0 else ngx_strncmp s1 s2 n else Some (c1 - c2)
  | _, _, _ => None
  end.

(** C's [memcmp]. *)
Fixpoint ngx_memcmp (s1 s2 : list Z) (n : nat) {struct n} : option Z :=
  match n, s1, s2 with
  | O, _, _ => Some 0
  | S n, c1 :: s1, c2 :: s2 => if c1 =? c2 then ngx_memcmp s1 s2 n else Some (c1 - c2)
  | _, _, _ => None
  end.

(** From the last byte to the first. *)
Fixpoint rstrncmp_loop (s1 s2 : list Z) (n : nat) : option Z :=
  c1 ← s1 !! n; c2 ← s2 !! n;
  if c1 =? c2 then match n with O => Some 0 | S n => rstrncmp_loop s1 s2 n end
  else Some (c1 - c2).

Definition ngx_rstrncmp (s1 s2 : list Z) (n : nat) : option Z :=
  match n with O => Some 0 | S n => rstrncmp_loop s1 s2 n end.

Fixpoint rstrncasecmp_loop (s1 s2 : list Z) (n : nat) : option Z :=
  c1 ← s1 !! n; c2 ← s2 !! n;
  let c1 := upper c1 in let c2 := upper c2 in
  if c1 =? c2 then match n with O => Some 0 | S n => rstrncasecmp_loop s1 s2 n end
  else Some (c1 - c2).

Definition ngx_rstrncasecmp (s1 s2 : list Z) (n : nat) : option Z :=
  match n with O => Some 0 | S n => rstrncasecmp_loop s1 s2 n end.

Definition ngx_memn2cmp (s1 s2 : list Z) (n1 n2 : nat) : option Z :=
  let '(n, z) := if (n1 <=? n2)%nat then (n1, -1) else (n2, 1) in
  m ← ngx_memcmp s1 s2 n;
  if negb (m =? 0) || (n1 =? n2)%nat then Some m else Some z.

Fixpoint ngx_dns_strcmp (s1 s2 : list Z) : option Z :=
  match s1, s2 with
  | c1 :: s1, c2 :: s2 =>
      let c1 := lower c1 in let c2 := lower c2 in
      if c1 =? c2 then if c1 =? 0 then Some 0 else ngx_dns_strcmp s1 s2
      else
        let c1 := if c1 =? "."%ch then " "%ch else c1 in
        let c2 := if c2 =? "."%ch then " "%ch else c2 in
        Some (s64 (u64 (c1 - c2)))
  | _, _ => None
  end.

(** ** Searches

    [Some None] is the result [NULL]. *)

(** [ngx_strnstr]: the loops, with the rest [s2] of the second string. *)
Fixpoint strnstr_loop (c2 : Z) (s2 : list Z) (n : nat) (p : Z) (s1 : list Z) (len : nat) :
    option (option Z) :=
  match len, s1 with
  | O, _ => Some None
  | S _, [] => None
  | S len, c1 :: s1 =>
      if c1 =? 0 then Some None
      else if c1 =? c2 then
        if (len <? n)%nat then Some None
        else
          m ← ngx_strncmp s1 s2 n;
          if m =? 0 then Some (Some p) else strnstr_loop c2 s2 n (p + 1) s1 len
      else strnstr_loop c2 s2 n (p + 1) s1 len
  end.

(** [ngx_strlchr]: the offset of the first [c]. *)
Fixpoint ngx_strlchr (text : list Z) (c : Z) : option nat :=
  match text with
  | [] => None
  | p :: text => if p =? c then Some O else S <$> ngx_strlchr text c
  end.

(** [ngx_strlen] *)
Fixpoint ngx_strlen (s : list Z) : option nat :=
  match s with [] => None | c :: s => if c =? 0 then Some O else option_map S (ngx_strlen s) end.

Definition ngx_strnstr (s1 s2 : list Z) (len : nat) : option (option Z) :=
  match s2 with
  | [] => None
  | c2 :: s2 => n ← ngx_strlen s2; strnstr_loop c2 s2 n 0 s1 len
  end.

Fixpoint strstrn_loop (c2 : Z) (s2 : list Z) (n : nat) (p : Z) (s1 : list Z) : option (option Z) :=
  match s1 with
  | [] => None
  | c1 :: s1 =>
      if c1 =? 0 then Some None
      else if c1 =? c2 then
        m ← ngx_strncmp s1 s2 n;
        if m =? 0 then Some (Some p) else strstrn_loop c2 s2 n (p + 1) s1
      else strstrn_loop c2 s2 n (p + 1) s1
  end.

Definition ngx_strstrn (s1 s2 : list Z) (n : nat) : option (option Z) :=
  match s2 with [] => None | c2 :: s2 => strstrn_loop c2 s2 n 0 s1 end.

Fixpoint strcasestrn_loop (c2 : Z) (s2 : list Z) (n : nat) (p : Z) (s1 : list Z) :
    option (option Z) :=
  match s1 with
  | [] => None
  | c1 :: s1 =>
      if c1 =? 0 then Some None
      else if lower c1 =? c2 then
        m ← ngx_strncasecmp s1 s2 n;
        if m =? 0 then Some (Some p) else strcasestrn_loop c2 s2 n (p + 1) s1
      else strcasestrn_loop c2 s2 n (p + 1) s1
  end.

Definition ngx_strcasestrn (s1 s2 : list Z) (n : nat) : option (option Z) :=
  match s2 with [] => None | c2 :: s2 => strcasestrn_loop (lower c2) s2 n 0 s1 end.

(** [last] is the offset of [last - n]. *)
Fixpoint strlcasestrn_loop (c2 : Z) (s2 : list Z) (n : nat) (last p : Z) (s1 : list Z) :
    option (option Z) :=
  if last <=? p then Some None
  else
    match s1 with
    | [] => None
    | c1 :: s1 =>
        if lower c1 =? c2 then
          m ← ngx_strncasecmp s1 s2 n;
          if m =? 0 then Some (Some p) else strlcasestrn_loop c2 s2 n last (p + 1) s1
        else strlcasestrn_loop c2 s2 n last (p + 1) s1
    end.

Definition ngx_strlcasestrn (s1 : list Z) (last : Z) (s2 : list Z) (n : nat) : option (option Z) :=
  match s2 with
  | [] => None
  | c2 :: s2 => strlcasestrn_loop (lower c2) s2 n (last - Z.of_nat n) 0 s1
  end.

(** ** Theorems *)

(** The text begins with the word, up to the letters that [f] identifies. *)
Fixpoint starts (f : Z → Z) (word text : list Z) : bool :=
  match word, text with
  | [], _ => true
  | w :: word, c :: text => (f c =? f w) && starts f word text
  | _ :: _, [] => false
  end.

(** The first place of the text where the word occurs. *)
Fixpoint first_occurrence (f : Z → Z) (word : list Z) (p : Z) (text : list Z) : option Z :=
  match text with
  | [] => None
  | _ :: text' => if starts f word text then Some p else first_occurrence f word (p + 1) text'
  end.

Abbreviation no_nul := (Forall (λ c, is_byte c ∧ c ≠ NUL)).

Lemma lower_nul c : is_byte c → lower c = 0 ↔ c = NUL.
Proof. unfold lower, is_upper. intros Hc. split; [|by intros ->].
  destruct (_ && _) eqn:E; [|done]. intros H. exfalso. bool_to_prop.
  assert (Z.testbit (Z.lor c 32) 5 = true) as Hb by (rewrite Z.lor_spec; apply orb_true_r).
  by rewrite H in Hb.
Qed.

Lemma lower_byte c : is_byte c → 0 ≤ lower c < 256.
Proof.
  intros Hc. assert ((0 <=? lower c) && (lower c <? 256) = true) as H by by_bytes c.
  bool_to_prop. lia.
Qed.

(** What is compared is decided before a read past the end. *)
Definition readable (n : nat) (t : list Z) : Prop :=
  (n ≤ length t)%nat ∨ ∃ t0 r, t = t0 ++ NUL :: r ∧ no_nul t0.

Lemma strncasecmp_starts word : ∀ t rest,
  no_nul word → bytes t → readable (length word) t →
  ∃ m, ngx_strncasecmp t (word ++ rest) (length word) = Some m ∧ (m =? 0) = starts lower word t.
Proof.
  induction word as [|w word IH]; intros t rest Hw Ht Hr; [by exists 0|].
  inversion_clear Hw as [|?? [Hwb Hwn] Hw']. destruct t as [|c t].
  { destruct Hr as [Hr|(t0 & r & E & _)]; [cbn in Hr; lia|by destruct t0]. }
  inversion_clear Ht as [|?? Hc Ht']. cbn [length app ngx_strncasecmp starts].
  pose proof (lower_byte _ Hc) as Lc. pose proof (lower_byte _ Hwb) as Lw.
  destruct (Z.eqb_spec (lower c) (lower w)) as [E|E]; cbn [andb].
  - destruct (Z.eqb_spec (lower c) 0) as [E0|_].
    { exfalso. rewrite E in E0. apply Hwn. by apply lower_nul. }
    apply IH; [done..|]. destruct Hr as [Hr|(t0 & r & Et & Hnn)]; [left; cbn in Hr; lia|right].
    destruct t0 as [|c' t0]; cbn in Et.
    + injection Et as -> ->. exfalso. apply Hwn, lower_nul; [done|]. by rewrite <- E.
    + injection Et as -> ->. inversion_clear Hnn. by exists t0, r.
  - eexists. split; [done|]. unfold s64, u64. apply Z.eqb_neq. zlia.
Qed.

Lemma strncmp_starts word : ∀ t rest,
  no_nul word → readable (length word) t →
  ∃ m, ngx_strncmp t (word ++ rest) (length word) = Some m ∧ (m =? 0) = starts id word t.
Proof.
  induction word as [|w word IH]; intros t rest Hw Hr; [by exists 0|].
  inversion_clear Hw as [|?? [Hwb Hwn] Hw']. destruct t as [|c t].
  { destruct Hr as [Hr|(t0 & r & E & _)]; [cbn in Hr; lia|by destruct t0]. }
  cbn [length app ngx_strncmp starts id].
  destruct (Z.eqb_spec c w) as [->|E]; cbn [andb].
  - replace (w =? 0) with false by (symmetry; by apply Z.eqb_neq).
    apply IH; [done|]. destruct Hr as [Hr|(t0 & r & Et & Hnn)]; [left; cbn in Hr; lia|right].
    destruct t0 as [|c' t0]; cbn in Et; [by injection Et as -> ->|].
    injection Et as -> ->. inversion_clear Hnn. by exists t0, r.
  - eexists. split; [done|]. apply Z.eqb_neq. lia.
Qed.

(** A text of bytes that are not NUL, and its terminator. *)
Section Search.
Context (w : Z) (word text r : list Z).
Context (Hword : no_nul (w :: word)) (Htext : no_nul text) (Hr : bytes r).
Local Abbreviation n := (length word).

Lemma no_nul_bytes t : no_nul t → bytes t.
Proof. intros H. eapply list.Forall_impl; [exact H|]. by intros c [? _]. Qed.

Lemma no_nul_readable k t : no_nul t → readable k (t ++ NUL :: r).
Proof. intros Ht. right. by exists t, r. Qed.

Lemma starts_nul f t v :
  (∀ c, is_byte c → f c = 0 ↔ c = NUL) → no_nul v → starts f v (t ++ NUL :: r) = starts f v t.
Proof.
  intros Hf. revert t. induction v as [|x v IH]; intros t Hv; [done|].
  inversion_clear Hv as [|?? [Hxb Hxn] Hv']. destruct t as [|c t]; cbn.
  - assert (f NUL = 0) as -> by by apply Hf. apply andb_false_iff. left. apply Z.eqb_neq.
    intros E. apply Hxn. by apply Hf.
  - by rewrite IH.
Qed.

Lemma strstrn_first : ∀ p,
  strstrn_loop w (word ++ [NUL]) n p (text ++ NUL :: r) = Some (first_occurrence id (w :: word) p text).
Proof.
  inversion_clear Hword as [|?? [Hwb Hwn] Hw'].
  revert Htext. induction text as [|c t IH]; intros Ht p; [done|].
  inversion_clear Ht as [|?? [Hcb Hcn] Ht']. cbn [app strstrn_loop first_occurrence starts id].
  rewrite (proj2 (Z.eqb_neq _ _) Hcn).
  destruct (c =? w); cbn [andb]; [|by apply IH].
  destruct (strncmp_starts word (t ++ NUL :: r) [NUL] Hw') as (m & -> & E); [by apply no_nul_readable|].
  cbn [mbind option_bind]. rewrite E, starts_nul by (unfold id; tauto || done).
  by destruct (starts _ word t); [|apply IH].
Qed.

Lemma strcasestrn_first : ∀ p,
  strcasestrn_loop (lower w) (word ++ [NUL]) n p (text ++ NUL :: r) =
  Some (first_occurrence lower (w :: word) p text).
Proof.
  inversion_clear Hword as [|?? [Hwb Hwn] Hw'].
  revert Htext. induction text as [|c t IH]; intros Ht p; [done|].
  inversion_clear Ht as [|?? [Hcb Hcn] Ht']. cbn [app strcasestrn_loop first_occurrence starts].
  rewrite (proj2 (Z.eqb_neq _ _) Hcn).
  destruct (lower c =? lower w); cbn [andb]; [|by apply IH].
  destruct (strncasecmp_starts word (t ++ NUL :: r) [NUL] Hw') as (m & -> & E);
    [|by apply no_nul_readable|].
  { apply Forall_app_2; [by apply no_nul_bytes|]. by constructor. }
  cbn [mbind option_bind]. rewrite E, starts_nul by (apply lower_nul || done).
  by destruct (starts _ word t); [|apply IH].
Qed.

(** With a length, the text needs no terminator. *)
Lemma starts_short f v : ∀ t, (length t < length v)%nat → starts f v t = false.
Proof.
  induction v as [|x v IH]; intros [|c t] Hl; cbn in *; [lia|lia|done|].
  rewrite IH by lia. apply andb_false_r.
Qed.

Lemma first_short f v : ∀ t p, (length t < length v)%nat → first_occurrence f v p t = None.
Proof.
  induction t as [|c t IH]; intros p Hl; cbn [first_occurrence]; [done|].
  rewrite starts_short by done. apply IH. cbn in Hl. lia.
Qed.

Lemma starts_app f v k : ∀ t, (length v ≤ length t)%nat → starts f v (t ++ k) = starts f v t.
Proof. induction v as [|x v IH]; intros [|c t] Hl; cbn in *; [done..|lia|]. by rewrite IH by lia. Qed.

Lemma strnstr_first : ∀ p,
  strnstr_loop w (word ++ [NUL]) n p (text ++ r) (length text) =
  Some (first_occurrence id (w :: word) p text).
Proof.
  inversion_clear Hword as [|?? [Hwb Hwn] Hw'].
  revert Htext. induction text as [|c t IH]; intros Ht p; [by destruct r|].
  inversion_clear Ht as [|?? [Hcb Hcn] Ht']. cbn [app length strnstr_loop first_occurrence starts id].
  rewrite (proj2 (Z.eqb_neq _ _) Hcn).
  destruct (c =? w); cbn [andb]; [|by apply IH].
  destruct (Nat.ltb_spec (length t) n).
  { rewrite starts_short by done. by rewrite first_short by (cbn; lia). }
  destruct (strncmp_starts word (t ++ r) [NUL] Hw') as (m & -> & E); [left; rewrite length_app; lia|].
  cbn [mbind option_bind]. rewrite E, starts_app by done.
  by destruct (starts _ word t); [|apply IH].
Qed.

Lemma strlcasestrn_first k t : bytes t → ∀ p,
  strlcasestrn_loop (lower w) (word ++ k) n (p + Z.of_nat (length t) - Z.of_nat n) p (t ++ r) =
  Some (first_occurrence lower (w :: word) p t).
Proof.
  inversion_clear Hword as [|?? [Hwb Hwn] Hw'].
  induction t as [|c t IH]; intros Ht p.
  { destruct r; cbn [app strlcasestrn_loop length]; destruct (Z.leb_spec (p + Z.of_nat 0 - Z.of_nat n) p); done || lia. }
  inversion_clear Ht as [|?? Hcb Ht']. cbn [app strlcasestrn_loop].
  destruct (Z.leb_spec (p + Z.of_nat (length (c :: t)) - Z.of_nat n) p).
  { rewrite first_short; [done|]. cbn in *. lia. }
  specialize (IH Ht' (p + 1)).
  replace (p + 1 + Z.of_nat (length t) - Z.of_nat n)
    with (p + Z.of_nat (length (c :: t)) - Z.of_nat n) in IH by (cbn; lia).
  cbn [first_occurrence starts].
  destruct (lower c =? lower w); cbn [andb]; [|exact IH].
  destruct (strncasecmp_starts word (t ++ r) k Hw') as (m & -> & E).
  { by apply Forall_app_2. }
  { left. rewrite length_app. cbn in *. lia. }
  cbn [mbind option_bind]. rewrite E, starts_app by (cbn in *; lia).
  by destruct (starts _ word t).
Qed.
End Search.

(** The four searches find the first place of the text where the word occurs,
    in this or in any case of its letters, and read nothing behind the text
    and its terminator. *)
Theorem search_first w word text r :
  no_nul (w :: word) → no_nul text → bytes r →
  let s2 := (w :: word) ++ [NUL] in
  ngx_strstrn (text ++ NUL :: r) s2 (length word) = Some (first_occurrence id (w :: word) 0 text) ∧
  ngx_strcasestrn (text ++ NUL :: r) s2 (length word) = Some (first_occurrence lower (w :: word) 0 text) ∧
  ngx_strnstr (text ++ r) s2 (length text) = Some (first_occurrence id (w :: word) 0 text) ∧
  ngx_strlcasestrn (text ++ r) (Z.of_nat (length text)) s2 (length word) =
    Some (first_occurrence lower (w :: word) 0 text).
Proof.
  intros Hw Ht Hr. cbn [app].
  split; [by apply strstrn_first|]. split; [by apply strcasestrn_first|]. split.
  - unfold ngx_strnstr. replace (ngx_strlen (word ++ [NUL])) with (Some (length word)).
    + by apply strnstr_first.
    + inversion_clear Hw as [|?? _ Hw']. clear -Hw'. induction Hw' as [|c v [_ Hc] Hv IH]; [done|].
      cbn. rewrite (proj2 (Z.eqb_neq _ _) Hc). by rewrite <- IH.
  - by apply (strlcasestrn_first w word r Hw Hr [NUL] text (no_nul_bytes _ Ht) 0).
Qed.

(** [first_occurrence] is what its name says. *)
Lemma first_occurrence_spec f word text : ∀ p,
  match first_occurrence f word p text with
  | Some q => p ≤ q ∧ starts f word (drop (Z.to_nat (q - p)) text) = true ∧
              ∀ j, p ≤ j < q → starts f word (drop (Z.to_nat (j - p)) text) = false
  | None => ∀ j, (j < length text)%nat → starts f word (drop j text) = false
  end.
Proof.
  induction text as [|c t IH]; intros p; cbn [first_occurrence]; [cbn; lia|].
  destruct (starts f word (c :: t)) eqn:E.
  { replace (p - p) with 0 by lia. split; [lia|]. split; [done|lia]. }
  specialize (IH (p + 1)). destruct (first_occurrence f word (p + 1) t) as [q|].
  - destruct IH as (Hq & Hs & Hn). split; [lia|]. split.
    + replace (Z.to_nat (q - p)) with (S (Z.to_nat (q - (p + 1)))) by lia. done.
    + intros j Hj. destruct (decide (j = p)) as [->|].
      * by replace (p - p) with 0 by lia.
      * replace (Z.to_nat (j - p)) with (S (Z.to_nat (j - (p + 1)))) by lia. apply Hn. lia.
  - intros [|j] Hj; [done|]. cbn. apply IH. cbn in Hj. lia.
Qed.

Lemma search_first_witness :
  ngx_strlcasestrn (bs "Connection: Close") 17 (bs "close" ++ [NUL]) 4 = Some (Some 12).
Proof.
  pose proof (search_first "c"%ch (bs "lose") (bs "Connection: Close") []
    ltac:(repeat constructor; done) ltac:(repeat constructor; done) ltac:(constructor)) as (_ & _ & _ & H).
  by_instance H.
Defined.
End StringOps.
