(* ===== verification/Escape.v ===== *)
(** * Escaping

    src/core/ngx_string.c: [ngx_escape_uri], [ngx_unescape_uri] and
    [ngx_escape_html].  The source is the list of its [size] bytes; what is
    written at [dst] is a list. *)

From S2P Require Import Prelude.

Module Escape.

Abbreviation NGX_ESCAPE_URI := 0.
Abbreviation NGX_ESCAPE_ARGS := 1.
Abbreviation NGX_ESCAPE_URI_COMPONENT := 2.
Abbreviation NGX_ESCAPE_HTML := 3.
Abbreviation NGX_ESCAPE_REFRESH := 4.
Abbreviation NGX_ESCAPE_MEMCACHED := 5.
Abbreviation NGX_ESCAPE_MAIL_AUTH := 6.
Abbreviation NGX_UNESCAPE_URI := 1.
Abbreviation NGX_UNESCAPE_REDIRECT := 2.

(** ** ngx_escape_uri *)

Definition hex : list Z := bs "0123456789abcdef".

Definition uri : list Z :=
  [0xffffffff; 0x80000029; 0x00000000; 0x80000000; 0xffffffff; 0xffffffff; 0xffffffff; 0xffffffff].
Definition args : list Z :=
  [0xffffffff; 0x88000869; 0x00000000; 0x80000000; 0xffffffff; 0xffffffff; 0xffffffff; 0xffffffff].
Definition uri_component : list Z :=
  [0xffffffff; 0xfc009fff; 0x78000001; 0xb8000001; 0xffffffff; 0xffffffff; 0xffffffff; 0xffffffff].
Definition html : list Z :=
  [0xffffffff; 0x000000ad; 0x00000000; 0x80000000; 0xffffffff; 0xffffffff; 0xffffffff; 0xffffffff].
Definition refresh : list Z :=
  [0xffffffff; 0x00000085; 0x00000000; 0x80000000; 0xffffffff; 0xffffffff; 0xffffffff; 0xffffffff].
Definition memcached : list Z :=
  [0xffffffff; 0x00000021; 0x00000000; 0x00000000; 0x00000000; 0x00000000; 0x00000000; 0x00000000].

Definition map : list (list Z) :=
  [uri; args; uri_component; html; refresh; memcached; memcached].

(** The table of a type; a type outside the array is undefined. *)
Definition escape_table (type : nat) : option (list Z) := map !! type.

(** [dst == NULL]: the number of the characters to be escaped. *)
Fixpoint count_escaped (escape src : list Z) : Z :=
  match src with
  | [] => 0
  | c :: src => (if bitmap_test escape c then 1 else 0) + count_escaped escape src
  end.

Fixpoint write_escaped (escape src : list Z) : list Z :=
  match src with
  | [] => []
  | c :: src =>
      if bitmap_test escape c then
        "%"%ch :: nth (Z.to_nat (Z.shiftr c 4)) hex 0 :: nth (Z.to_nat (Z.land c 0xf)) hex 0 ::
        write_escaped escape src
      else c :: write_escaped escape src
  end.

(** The number for [dst == NULL], and what is written otherwise. *)
Definition ngx_escape_uri (src : list Z) (type : nat) : option (Z * list Z) :=
  escape ← escape_table type; Some (count_escaped escape src, write_escaped escape src).

(** ** ngx_unescape_uri *)

Inductive sw := sw_usual | sw_quoted | sw_quoted_second.

(** The first digit of an escape, and the second one added to it. *)
Definition unquote (c : Z) : option Z :=
  if is_digit c then Some (c - "0"%ch)
  else
    let c := Z.lor c 0x20 in
    if ("a"%ch <=? c) && (c <=? "f"%ch) then Some (c - "a"%ch + 10) else None.

(** [while (size--)]: what is written, and the rest of the source; [prev] is
    [*(s - 2)]. *)
Fixpoint unescape_loop (type : Z) (state : sw) (decoded prev : Z) (src : list Z) :
    list Z * list Z :=
  let flag b := negb (Z.land type b =? 0) in
  match src with
  | [] => ([], [])
  | ch :: src =>
      let next state decoded := unescape_loop type state decoded ch src in
      let put out r := (out ++ r.1, r.2) in
      match state with
      | sw_usual =>
          if (ch =? "?"%ch) && flag (Z.lor NGX_UNESCAPE_URI NGX_UNESCAPE_REDIRECT) then ([ch], src)
          else if ch =? "%"%ch then next sw_quoted decoded
          else put [ch] (next sw_usual decoded)
      | sw_quoted =>
          match unquote ch with
          | Some d => next sw_quoted_second d
          | None => put [ch] (next sw_usual decoded)
          end
      | sw_quoted_second =>
          if is_digit ch then
            let c := u8 (Z.shiftl decoded 4 + ch - "0"%ch) in
            if flag NGX_UNESCAPE_REDIRECT then
              if ("%"%ch <? c) && (c <? 0x7f) then put [c] (next sw_usual decoded)
              else put ["%"%ch; prev; ch] (next sw_usual decoded)
            else put [c] (next sw_usual decoded)
          else
            let c := Z.lor ch 0x20 in
            if ("a"%ch <=? c) && (c <=? "f"%ch) then
              let c := u8 (Z.shiftl decoded 4 + c - "a"%ch + 10) in
              if flag NGX_UNESCAPE_URI then
                if c =? "?"%ch then ([c], src) else put [c] (next sw_usual decoded)
              else if flag NGX_UNESCAPE_REDIRECT then
                if c =? "?"%ch then ([c], src)
                else if ("%"%ch <? c) && (c <? 0x7f) then put [c] (next sw_usual decoded)
                else put ["%"%ch; prev; ch] (next sw_usual decoded)
              else put [c] (next sw_usual decoded)
            else next sw_usual decoded
      end
  end.

Definition ngx_unescape_uri (src : list Z) (type : Z) : list Z * list Z :=
  unescape_loop type sw_usual 0 0 src.

(** ** ngx_escape_html *)

(** [dst == NULL]: the number of bytes that are added. *)
Fixpoint html_growth (src : list Z) : Z :=
  match src with
  | [] => 0
  | c :: src =>
      (if c =? "<"%ch then 3 else if c =? ">"%ch then 3 else if c =? "&"%ch then 4
       else if c =? DQUOTE then 5 else 0) + html_growth src
  end.

Fixpoint write_html (src : list Z) : list Z :=
  match src with
  | [] => []
  | c :: src =>
      (if c =? "<"%ch then bs "&lt;" else if c =? ">"%ch then bs "&gt;"
       else if c =? "&"%ch then bs "&amp;" else if c =? DQUOTE then bs "&quot;" else [c]) ++
      write_html src
  end.

Definition ngx_escape_html (src : list Z) : Z * list Z := (html_growth src, write_html src).

(** ** Theorems *)

(** What an escape stands for. *)
Lemma unquote_hex c : is_byte c →
  let h := nth (Z.to_nat (Z.shiftr c 4)) hex 0 in
  let l := nth (Z.to_nat (Z.land c 0xf)) hex 0 in
  unquote h = Some (Z.shiftr c 4) ∧
  (if is_digit l then u8 (Z.shiftl (Z.shiftr c 4) 4 + l - "0"%ch) = c
   else ("a"%ch <=? Z.lor l 0x20) && (Z.lor l 0x20 <=? "f"%ch) = true ∧
        u8 (Z.shiftl (Z.shiftr c 4) 4 + Z.lor l 0x20 - "a"%ch + 10) = c).
Proof.
  intros Hc h l.
  assert (bool_decide (unquote h = Some (Z.shiftr c 4)) &&
    (if is_digit l then u8 (Z.shiftl (Z.shiftr c 4) 4 + l - "0"%ch) =? c
     else ("a"%ch <=? Z.lor l 0x20) && (Z.lor l 0x20 <=? "f"%ch) &&
          (u8 (Z.shiftl (Z.shiftr c 4) 4 + Z.lor l 0x20 - "a"%ch + 10) =? c)) = true) as H
    by (subst h l; by_bytes c).
  apply andb_true_iff in H as [H1%bool_decide_eq_true H2]. split; [done|].
  destruct (is_digit l); [by apply Z.eqb_eq|]. apply andb_true_iff in H2 as [? ?%Z.eqb_eq]. done.
Qed.

(** The state before an escape does not depend on the ones before. *)
Lemma unescape_fresh t src : ∀ d p d' p',
  unescape_loop t sw_usual d p src = unescape_loop t sw_usual d' p' src ∧
  unescape_loop t sw_quoted d p src = unescape_loop t sw_quoted d' p' src.
Proof.
  induction src as [|c src IH]; intros d p d' p'; [done|]. cbn [unescape_loop].
  destruct (IH d c d' c) as [E1 E2]. rewrite E1, E2. split; [done|].
  by destruct (unquote c).
Qed.

Lemma unescape_usual t src d p : unescape_loop t sw_usual d p src = ngx_unescape_uri src t.
Proof. apply unescape_fresh. Qed.

(** An escaped byte is decoded, whatever its value is when there is no flag. *)
Lemma unescape_escape type c rest :
  is_byte c → (type = 0 ∨ type = NGX_UNESCAPE_URI ∧ c ≠ "?"%ch) →
  ngx_unescape_uri ("%"%ch :: nth (Z.to_nat (Z.shiftr c 4)) hex 0 ::
    nth (Z.to_nat (Z.land c 0xf)) hex 0 :: rest) type =
  (c :: (ngx_unescape_uri rest type).1, (ngx_unescape_uri rest type).2).
Proof.
  intros Hc Ht. destruct (unquote_hex c Hc) as [H1 H2]. unfold ngx_unescape_uri at 1.
  cbn [unescape_loop]. rewrite andb_false_l. change (37 =? 37) with true. cbv iota. rewrite H1.
  rewrite !unescape_usual.
  destruct (is_digit _) eqn:Hd.
  - rewrite H2. by destruct Ht as [-> |[-> _]].
  - destruct H2 as [-> ->]. destruct Ht as [-> |[-> Hq]]; [done|].
    change (negb (Z.land 1 1 =? 0)) with true. cbv iota. by rewrite (proj2 (Z.eqb_neq c 63) Hq).
Qed.

(** Decoding a text that was escaped and what follows it. *)
Lemma unescape_write escape type src rest :
  bytes src → bitmap_test escape "%"%ch = true →
  (type = 0 ∨ type = NGX_UNESCAPE_URI ∧ Forall (λ c, c ≠ "?"%ch) src) →
  ngx_unescape_uri (write_escaped escape src ++ rest) type =
  (src ++ (ngx_unescape_uri rest type).1, (ngx_unescape_uri rest type).2).
Proof.
  intros Hs He Ht. induction Hs as [|c src Hc Hs IH]; [apply surjective_pairing|].
  assert (type = 0 ∨ type = NGX_UNESCAPE_URI ∧ c ≠ "?"%ch) as Ht1.
  { destruct Ht as [?|[? Ht]]; [by left|right]. by inversion_clear Ht. }
  specialize (IH ltac:(destruct Ht as [?|[? Ht]]; [by left|right; by inversion_clear Ht])).
  cbn [write_escaped]. destruct (bitmap_test escape c) eqn:Hb.
  - cbn [app]. by rewrite unescape_escape, IH.
  - cbn [app]. unfold ngx_unescape_uri at 1. cbn [unescape_loop].
    assert (c ≠ "%"%ch) as Hp by congruence. rewrite (proj2 (Z.eqb_neq c 37) Hp).
    rewrite unescape_usual, IH. destruct Ht1 as [-> |[-> Hq]]; [by rewrite andb_false_r|].
    by rewrite (proj2 (Z.eqb_neq c 63) Hq).
Qed.

(** Bytes that are escaped are the only ones that grow. *)
Lemma write_escaped_length escape src :
  Z.of_nat (length (write_escaped escape src)) =
  Z.of_nat (length src) + 2 * count_escaped escape src.
Proof.
  induction src as [|c src IH]; [done|]. cbn [write_escaped count_escaped].
  destruct (bitmap_test escape c); cbn [length]; lia.
Qed.

(** Apart from the percent sign nothing that the table escapes is left. *)
Lemma write_escaped_clean escape src :
  bytes src → forallb (λ c, negb (bitmap_test escape c)) hex = true →
  Forall (λ c, c = "%"%ch ∨ bitmap_test escape c = false) (write_escaped escape src).
Proof.
  intros Hs Hhex. assert (∀ n, (n < 16)%nat → bitmap_test escape (nth n hex 0) = false) as Hd.
  { intros n Hn. apply negb_true_iff. rewrite forallb_forall in Hhex. apply Hhex. by apply nth_In. }
  induction Hs as [|c src Hc Hs IH]; [by constructor|]. cbn [write_escaped].
  destruct (bitmap_test escape c) eqn:E; [|constructor; [by right|done]].
  constructor; [by left|]. constructor; [|constructor; [|done]]; right; apply Hd.
  - rewrite Z.shiftr_div_pow2 by lia. unfold is_byte in Hc. change (2 ^ 4) with 16. zlia.
  - change 15 with (Z.ones 4). rewrite Z.land_ones by lia. change (2 ^ 4) with 16. zlia.
Qed.

(** Escaping for a URI, its arguments, one of their components, HTML,
    memcached or mail authentication is undone by decoding; the number for
    [dst == NULL] is the room needed; nothing the table escapes is left but
    the percent signs.  Decoding a request URI stops behind the question mark
    that ends it. *)
Theorem escape_roundtrip type src args :
  bytes src → type ∈ [0; 1; 2; 3; 5; 6]%nat →
  ∃ escape n out,
    escape_table type = Some escape ∧ ngx_escape_uri src type = Some (n, out) ∧
    ngx_unescape_uri out 0 = (src, []) ∧
    Z.of_nat (length out) = Z.of_nat (length src) + 2 * n ∧
    Forall (λ c, c = "%"%ch ∨ bitmap_test escape c = false) out ∧
    (Forall (λ c, c ≠ "?"%ch) src →
     ngx_unescape_uri (out ++ "?"%ch :: args) NGX_UNESCAPE_URI = (src ++ ["?"%ch], args)).
Proof.
  intros Hs Ht.
  assert (∃ escape, escape_table type = Some escape ∧ bitmap_test escape "%"%ch = true ∧
    forallb (λ c, negb (bitmap_test escape c)) hex = true) as (escape & E & Hp & Hh).
  { repeat (apply elem_of_cons in Ht as [-> |Ht]; [eexists; split; [reflexivity|]; by vm_compute|]).
    by apply elem_of_nil in Ht. }
  exists escape, (count_escaped escape src), (write_escaped escape src). unfold ngx_escape_uri.
  rewrite E. split_and!; [done|done| |by apply write_escaped_length|by apply write_escaped_clean|].
  - pose proof (unescape_write escape 0 src [] Hs Hp ltac:(by left)) as H. rewrite app_nil_r in H.
    rewrite H. cbn. by rewrite app_nil_r.
  - intros Hq. by rewrite (unescape_write escape NGX_UNESCAPE_URI src) by (done || by right).
Qed.

(** The table [refresh] leaves the percent sign alone, so that a text that has
    one is not recovered. *)
Lemma refresh_keeps_percent :
  ngx_escape_uri (bs "a%41") 4 = Some (0, bs "a%41") ∧ ngx_unescape_uri (bs "a%41") 0 = (bs "aA", []).
Proof. done. Qed.

(** *** HTML *)

(** Reading the four character references back. *)
Fixpoint read_html (fuel : nat) (src : list Z) : list Z :=
  match fuel, src with
  | S fuel, c :: src =>
      if c =? "&"%ch then
        match src with
        | 108 :: 116 :: 59 :: src => "<"%ch :: read_html fuel src
        | 103 :: 116 :: 59 :: src => ">"%ch :: read_html fuel src
        | 97 :: 109 :: 112 :: 59 :: src => "&"%ch :: read_html fuel src
        | 113 :: 117 :: 111 :: 116 :: 59 :: src => DQUOTE :: read_html fuel src
        | _ => c :: read_html fuel src
        end
      else c :: read_html fuel src
  | _, _ => []
  end.

Definition markup (c : Z) : Prop := c = "<"%ch ∨ c = ">"%ch ∨ c = DQUOTE.

(** Escaping for HTML leaves no markup, is undone by reading the character
    references, and takes the room that is computed for [dst == NULL]. *)
Theorem escape_html_correct src :
  let '(n, out) := ngx_escape_html src in
  Z.of_nat (length out) = Z.of_nat (length src) + n ∧
  Forall (λ c, ¬ markup c) out ∧
  read_html (length src) out = src.
Proof.
  cbn. induction src as [|c src (IH1 & IH2 & IH3)]; [split_and!; by try constructor|].
  cbn [write_html html_growth length].
  destruct (Z.eqb_spec c 60) as [->|H1]; [|destruct (Z.eqb_spec c 62) as [->|H2];
    [|destruct (Z.eqb_spec c 38) as [->|H3]; [|destruct (Z.eqb_spec c 34) as [->|H4]]]].
  1-4: split_and!; [rewrite length_app; cbn [length bs]; lia
    |apply Forall_app; split; [|done]; unfold markup; repeat constructor; lia
    |cbn [bs app read_html]; by rewrite IH3].
  split_and!; [cbn [length app]; lia|constructor; [unfold markup; lia|done]|].
  cbn [app read_html]. by rewrite (proj2 (Z.eqb_neq c 38) H3), IH3.
Qed.

(** ** Witnesses *)

Lemma escape_roundtrip_witness :
  ngx_unescape_uri (bs "a%20b%25%c3%a9?x=1") NGX_UNESCAPE_URI = (bs "a b%" ++ [0xc3; 0xa9] ++ bs "?", bs "x=1").
Proof.
  destruct (escape_roundtrip 0 (bs "a b%" ++ [0xc3; 0xa9]) (bs "x=1")) as (t & n & out & _ & E & _ & _ & _ & H).
  - by repeat constructor.
  - by left.
  - vm_compute in E. injection E as <- <-. apply H. by repeat constructor.
Defined.

End Escape.
