(* ===== verification/Utf8.v ===== *)
(** * UTF-8

    src/core/ngx_string.c: [ngx_utf8_decode], [ngx_utf8_length] and
    [ngx_utf8_cpystrn].  A [u_char *] is the memory from there on; [None] is a
    read past its end. *)

From S2P Require Import Prelude.

Module Utf8.

Abbreviation UTF8_ERROR := 0xffffffff.
Abbreviation UTF8_INCOMPLETE := 0xfffffffe.

(** ** ngx_utf8_decode *)

(** [while (len)]: the value and [*p]. *)
Fixpoint decode_tail (len : nat) (u valid : Z) (p : list Z) : option (Z * list Z) :=
  match len with
  | O => Some (if valid <? u then u else UTF8_ERROR, p)
  | S len =>
      match p with
      | [] => None
      | i :: p =>
          if i <? 0x80 then Some (UTF8_ERROR, p)
          else decode_tail len (Z.lor (u32 (Z.shiftl u 6)) (Z.land i 0x3f)) valid p
      end
  end.

(** The first byte: what it gives of the value, the largest value that needs
    fewer bytes, and the number of bytes that follow. *)
Definition first_byte (u : Z) : option (Z * Z * nat) :=
  if 0xf0 <=? u then Some (Z.land u 0x07, 0xffff, 3%nat)
  else if 0xe0 <=? u then Some (Z.land u 0x0f, 0x7ff, 2%nat)
  else if 0xc2 <=? u then Some (Z.land u 0x1f, 0x7f, 1%nat)
  else None.

Definition ngx_utf8_decode (p : list Z) (n : Z) : option (Z * list Z) :=
  match p with
  | [] => None
  | u :: p' =>
      match first_byte u with
      | None => Some (UTF8_ERROR, p')
      | Some (u, valid, len) =>
          if u64 (n - 1) <? Z.of_nat len then Some (UTF8_INCOMPLETE, p)
          else decode_tail len u valid p'
      end
  end.

(** ** ngx_utf8_length *)

(** [while (p < last)]: [last - p] is [room]; [n] is the whole length.  Every
    turn consumes a byte. *)
Fixpoint length_loop (fuel : nat) (n room : Z) (p : list Z) (len : Z) : option Z :=
  match fuel with
  | O => None
  | S fuel =>
      if room <=? 0 then Some len
      else
        match p with
        | [] => None
        | c :: p' =>
            if c <? 0x80 then length_loop fuel n (room - 1) p' (len + 1)
            else
              '(u, p') ← ngx_utf8_decode p n;
              if 0x10ffff <? u then Some n
              else
                let used := Z.of_nat (length p) - Z.of_nat (length p') in
                length_loop fuel n (room - used) p' (len + 1)
        end
  end.

Definition ngx_utf8_length (p : list Z) (n : Z) : option Z :=
  length_loop (S (Z.to_nat n)) n n p 0.

(** ** ngx_utf8_cpystrn *)

(** [while (--n)]: what is written; [len] is the length of the source. *)
Fixpoint cpystrn_loop (n : nat) (src : list Z) (len : Z) : option (list Z) :=
  match n with
  | O => Some [NUL]
  | S n =>
      match src with
      | [] => None
      | c :: src' =>
          if c <? 0x80 then
            if negb (c =? NUL) then option_map (cons c) (cpystrn_loop n src' (u64 (len - 1)))
            else Some [NUL]
          else
            '(u, next) ← ngx_utf8_decode src len;
            if 0x10ffff <? u then Some [NUL]
            else
              let used := (length src - length next)%nat in
              option_map (app (take used src)) (cpystrn_loop n next (u64 (len - Z.of_nat used)))
      end
  end.

Definition ngx_utf8_cpystrn (src : list Z) (n : nat) (len : Z) : option (list Z) :=
  match n with O => Some [] | S n => cpystrn_loop n src len end.

(** ** Theorems *)

(** The encoding of a character (RFC 3629). *)
Definition utf8 (u : Z) : list Z :=
  if u <? 0x80 then [u]
  else if u <? 0x800 then [0xc0 + u / 64; 0x80 + u mod 64]
  else if u <? 0x10000 then [0xe0 + u / 4096; 0x80 + u / 64 mod 64; 0x80 + u mod 64]
  else [0xf0 + u / 262144; 0x80 + u / 4096 mod 64; 0x80 + u / 64 mod 64; 0x80 + u mod 64].

Definition character (u : Z) : Prop := 0 ≤ u ≤ 0x10ffff.

Lemma decode_tail_step len v valid i p :
  0x80 ≤ i → 0 ≤ v < 2 ^ 26 →
  decode_tail (S len) v valid (i :: p) = decode_tail len (v * 64 + i mod 64) valid p.
Proof.
  intros Hi Hv. cbn [decode_tail]. replace (i <? 0x80) with false by lia.
  change 0x3f with (Z.ones 6). rewrite Z.land_ones by lia.
  rewrite u32_id by (rewrite Z.shiftl_mul_pow2 by lia; lia).
  change (2 ^ 6) with 64. rewrite lor_shiftl by (change (2 ^ 6) with 64; zlia). done.
Qed.

Lemma first_byte_eq c :
  first_byte c =
  if 0xf0 <=? c then Some (c mod 8, 0xffff, 3%nat)
  else if 0xe0 <=? c then Some (c mod 16, 0x7ff, 2%nat)
  else if 0xc2 <=? c then Some (c mod 32, 0x7f, 1%nat) else None.
Proof.
  unfold first_byte. change 0x07 with (Z.ones 3). change 0x0f with (Z.ones 4).
  change 0x1f with (Z.ones 5). by rewrite !Z.land_ones by done.
Qed.

Lemma utf8_length_range u : (1 ≤ length (utf8 u) ≤ 4)%nat.
Proof. unfold utf8. repeat case_match; cbn; lia. Qed.

(** A character of more than one byte is decoded. *)
Lemma decode_utf8 u rest n :
  0x80 ≤ u ≤ 0x10ffff → Z.of_nat (length (utf8 u)) ≤ n ≤ MAX_UINT64 →
  ngx_utf8_decode (utf8 u ++ rest) n = Some (u, rest).
Proof.
  intros Hu. unfold utf8. replace (u <? 0x80) with false by lia.
  destruct (Z.ltb_spec u 0x800); [|destruct (Z.ltb_spec u 0x10000)];
    cbn [app ngx_utf8_decode length]; intros Hn;
    rewrite first_byte_eq.
  - destruct (Z.leb_spec 0xf0 (0xc0 + u / 64)); [zlia|].
    destruct (Z.leb_spec 0xe0 (0xc0 + u / 64)); [zlia|].
    destruct (Z.leb_spec 0xc2 (0xc0 + u / 64)); [|zlia].
    rewrite u64_id, (proj2 (Z.ltb_ge (n - 1) _)) by lia.
    rewrite decode_tail_step by zlia. cbn [decode_tail].
    replace (_ * 64 + _) with u by zlia. by replace (0x7f <? u) with true by lia.
  - destruct (Z.leb_spec 0xf0 (0xe0 + u / 4096)); [zlia|].
    destruct (Z.leb_spec 0xe0 (0xe0 + u / 4096)); [|zlia].
    rewrite u64_id, (proj2 (Z.ltb_ge (n - 1) _)) by lia.
    do 2 rewrite decode_tail_step by zlia. cbn [decode_tail].
    replace ((_ * 64 + _) * 64 + _) with u by zlia. by replace (0x7ff <? u) with true by lia.
  - destruct (Z.leb_spec 0xf0 (0xf0 + u / 262144)); [|zlia].
    rewrite u64_id, (proj2 (Z.ltb_ge (n - 1) _)) by lia.
    do 3 rewrite decode_tail_step by zlia. cbn [decode_tail].
    replace (((_ * 64 + _) * 64 + _) * 64 + _) with u by zlia.
    by replace (0xffff <? u) with true by lia.
Qed.

Definition utf8_text (cs : list Z) : list Z := concat (utf8 <$> cs).

Lemma utf8_first u rest : character u → ∃ c p, utf8 u ++ rest = c :: p ∧
  (c <? 0x80) = (u <? 0x80) ∧ (u <? 0x80 = true → c = u ∧ p = rest).
Proof.
  intros Hu. unfold utf8, character in *.
  destruct (Z.ltb_spec u 0x80); [by exists u, rest; split_and!; [done|lia|done]|].
  destruct (Z.ltb_spec u 0x800); [|destruct (Z.ltb_spec u 0x10000)];
    (eexists _, _; split; [reflexivity|]; split; [zlia|done]).
Qed.

(** The turns over the characters of a text, with [r] bytes behind them. *)
Lemma length_loop_text n cs rest r : ∀ fuel len,
  Forall character cs → Z.of_nat (length (utf8_text cs)) ≤ n ≤ MAX_INT64 → 0 ≤ r →
  (length (utf8_text cs) < fuel)%nat →
  ∃ fuel', (fuel - length (utf8_text cs) ≤ fuel')%nat ∧
    length_loop fuel n (Z.of_nat (length (utf8_text cs)) + r) (utf8_text cs ++ rest) len =
    length_loop fuel' n r rest (len + Z.of_nat (length cs)).
Proof.
  intros fuel len Hcs Hn Hr. revert fuel len. induction Hcs as [|u cs Hu Hcs IH]; intros fuel len Hf.
  { exists fuel. split; [cbn; lia|]. cbn. f_equal; lia. }
  cbn [utf8_text fmap list_fmap concat] in *. fold (utf8_text cs) in *.
  pose proof (utf8_length_range u) as Hl. rewrite length_app in Hn, Hf.
  destruct fuel as [|fuel]; [lia|]. cbn [length_loop]. rewrite (length_app (utf8 u)).
  destruct (Z.leb_spec (Z.of_nat (length (utf8 u) + length (utf8_text cs)) + r) 0); [lia|].
  destruct (IH ltac:(lia) fuel (len + 1)) as (fuel' & Hf' & E'); [lia|].
  exists fuel'. split; [lia|].
  replace (len + Z.of_nat (length (u :: cs))) with (len + 1 + Z.of_nat (length cs)) by (cbn; lia).
  rewrite <- E', <- app_assoc. destruct (utf8_first u (utf8_text cs ++ rest) Hu) as (c & p & E & Ec & Ea).
  rewrite E, Ec. destruct (u <? 0x80) eqn:Hb.
  - destruct (Ea eq_refl) as [-> ->]. assert (length (utf8 u) = 1%nat) as H1 by (unfold utf8; by rewrite Hb).
    f_equal. lia.
  - rewrite <- E. bool_to_prop. unfold character in Hu. rewrite decode_utf8 by lia. cbn [mbind option_bind].
    destruct (Z.ltb_spec 0x10ffff u); [lia|]. f_equal. rewrite (length_app (utf8 u)). lia.
Qed.

Lemma cpystrn_loop_text cs rest : ∀ n len,
  Forall (λ u, character u ∧ u ≠ NUL) cs →
  Z.of_nat (length (utf8_text cs)) < len ≤ MAX_INT64 →
  cpystrn_loop n (utf8_text cs ++ NUL :: rest) len = Some (utf8_text (take n cs) ++ [NUL]).
Proof.
  intros n len Hcs. revert n len. induction Hcs as [|u cs [Hu Hnz] Hcs IH]; intros [|n] len Hlen; try done.
  cbn [utf8_text fmap list_fmap concat take cpystrn_loop] in *. fold (utf8_text cs) (utf8_text (take n cs)) in *.
  pose proof (utf8_length_range u) as Hl. rewrite length_app in Hlen. rewrite <- app_assoc.
  destruct (utf8_first u (utf8_text cs ++ NUL :: rest) Hu) as (c & p & E & Ec & Ea).
  rewrite E, Ec. destruct (u <? 0x80) eqn:Hb.
  - destruct (Ea eq_refl) as [-> ->]. assert (utf8 u = [u]) as E1 by (unfold utf8; by rewrite Hb).
    replace (u =? 0) with false by lia. cbn [negb]. rewrite E1 in *. cbn [length] in *.
    rewrite u64_id, IH by lia. done.
  - rewrite <- E. bool_to_prop. unfold character in Hu. rewrite decode_utf8 by lia. cbn [mbind option_bind].
    destruct (Z.ltb_spec 0x10ffff u); [lia|].
    assert ((length (utf8 u ++ utf8_text cs ++ NUL :: rest) - length (utf8_text cs ++ NUL :: rest))%nat =
      length (utf8 u)) as -> by (rewrite (length_app (utf8 u)); lia).
    rewrite u64_id, IH, take_app_length by lia. cbn [option_map]. by rewrite app_assoc.
Qed.

(** A character is decoded from its encoding; the length of a text is the
    number of its characters; a copy of [n] characters at most has whole
    characters only, and a terminator. *)
Theorem utf8_roundtrip cs rest n :
  Forall (λ u, character u ∧ u ≠ NUL) cs → Z.of_nat (length (utf8_text cs)) < MAX_INT64 →
  let len := Z.of_nat (length (utf8_text cs)) in
  Forall (λ u, 0x80 ≤ u → ∀ rest, ngx_utf8_decode (utf8 u ++ rest) len = Some (u, rest)) cs ∧
  ngx_utf8_length (utf8_text cs ++ rest) len = Some (Z.of_nat (length cs)) ∧
  ngx_utf8_cpystrn (utf8_text cs ++ NUL :: rest) (S n) (len + 1) = Some (utf8_text (take n cs) ++ [NUL]).
Proof.
  intros Hcs Hmax len. split_and!.
  - apply list.Forall_forall. intros u Hu Hb r.
    pose proof (proj1 (list.Forall_forall _ _) Hcs u Hu) as [Hc _]. unfold character in Hc.
    apply decode_utf8; [lia|]. split; [|lia]. unfold len, utf8_text. apply list_elem_of_split in Hu as (l1 & l2 & ->).
    rewrite fmap_app, concat_app, length_app. cbn [fmap list_fmap concat]. rewrite length_app. lia.
  - unfold ngx_utf8_length.
    destruct (length_loop_text len cs rest 0 (S (Z.to_nat len)) 0) as (fuel & Hf & E);
      [|lia|lia|lia|rewrite Z.add_0_r in E; fold len in E; rewrite E].
    { eapply list.Forall_impl; [exact Hcs|]. by intros u [? _]. }
    destruct fuel; [lia|done].
  - cbn [ngx_utf8_cpystrn]. apply cpystrn_loop_text; [done|lia].
Qed.

(** The length of a text that ends inside of a character is looked for behind
    the text, unless it is very short: [ngx_utf8_decode] is told that the whole
    length is left. *)
Theorem utf8_length_overread cs c v valid k :
  Forall character cs → first_byte c = Some (v, valid, k) → 0x80 ≤ c →
  (k ≤ length (utf8_text cs))%nat → Z.of_nat (length (utf8_text cs)) < MAX_INT64 →
  ngx_utf8_length (utf8_text cs ++ [c]) (Z.of_nat (length (utf8_text cs)) + 1) = None.
Proof.
  intros Hcs Hc Hb Hk Hmax. unfold ngx_utf8_length. set (n := _ + 1).
  destruct (length_loop_text n cs [c] 1 (S (Z.to_nat n)) 0) as (fuel & Hf & E); [done|lia|lia|lia|].
  fold n in E. rewrite E. clear E.
  destruct fuel as [|fuel]; [lia|]. cbn [length_loop Z.leb]. change (1 <=? 0) with false. cbv iota.
  destruct (Z.ltb_spec c 0x80); [lia|]. unfold ngx_utf8_decode. rewrite Hc.
  rewrite u64_id, (proj2 (Z.ltb_ge (n - 1) _)) by lia.
  assert (0 < k)%nat by (unfold first_byte in Hc; repeat case_match; simplify_eq; lia).
  by destruct k; [lia|].
Qed.

(** A byte that follows is not required to be below 0xc0. *)
Lemma utf8_lenient : ngx_utf8_decode [0xc3; 0xff] 2 = Some (0xff, []).
Proof. done. Qed.

(** ** Witnesses *)

Lemma utf8_roundtrip_witness :
  ngx_utf8_length (utf8_text [0x47; 0xe9; 0x20ac; 0x1f600]) 10 = Some 4.
Proof.
  pose proof (utf8_roundtrip [0x47; 0xe9; 0x20ac; 0x1f600] [] 2) as H.
  rewrite app_nil_r in H. apply H; [|by vm_compute].
  repeat (constructor; [unfold character; lia|]). constructor.
Defined.

Lemma utf8_length_overread_witness : ngx_utf8_length (bs "abc" ++ [0xf0]) 4 = None.
Proof.
  apply (utf8_length_overread [0x61; 0x62; 0x63] 0xf0 0 0xffff 3); try done.
  - repeat (constructor; [unfold character; lia|]). constructor.
Defined.
End Utf8.
