(* ===== verification/Printf.v ===== *)
(** * Formatted output: [ngx_vslprintf] and [ngx_sprintf_num]

    src/core/ngx_string.c.  The bytes written at [buf] are the result; the
    room is [last - buf].  The arguments are the list [va_arg] consumes;
    [None] is behaviour C leaves undefined: an argument that is missing or of
    another kind, a read past the bytes of an argument, a format that ends in
    the middle of a directive. *)

From Stdlib Require Import Floats.SpecFloat.
From S2P Require Import Prelude Number.

Module Printf.

(** [ngx_str_t *] and [ngx_variable_value_t *] arguments are their bytes; a
    [u_char *] is the memory from there on; doubles are IEEE binary64. *)
Inductive arg : Type :=
  | AInt (x : Z)
  | AStr (data : list Z)
  | APtr (mem : list Z)
  | ADouble (f : spec_float).

(** ** ngx_sprintf_num *)

Abbreviation NGX_INT64_LEN := 20%nat.

Definition HEX : list Z := bs "0123456789ABCDEF".

(** [do { *--p = ui32 % 10 + '0'; } while (ui32 /= 10)], downwards from the end
    of [temp]. *)
Fixpoint dec_digits (fuel : nat) (ui : Z) (acc : list Z) : list Z :=
  match fuel with
  | O => acc
  | S fuel =>
      let acc := (ui mod 10 + "0"%ch) :: acc in
      if ui / 10 =? 0 then acc else dec_digits fuel (ui / 10) acc
  end.

(** [do { *--p = hex[ui64 & 0xf]; } while (ui64 >>= 4)]. *)
Fixpoint hex_digits (fuel : nat) (hex : list Z) (ui : Z) (acc : list Z) : list Z :=
  match fuel with
  | O => acc
  | S fuel =>
      let acc := nth (Z.to_nat (Z.land ui 0xf)) hex 0 :: acc in
      if Z.shiftr ui 4 =? 0 then acc else hex_digits fuel hex (Z.shiftr ui 4) acc
  end.

(** The digits collected in [temp], which has room for [NGX_INT64_LEN]. *)
Definition num_digits (ui64 : Z) (hexadecimal : Z) : list Z :=
  if hexadecimal =? 0 then
    if ui64 <=? NGX_MAX_UINT32_VALUE then dec_digits NGX_INT64_LEN (u32 ui64) []
    else dec_digits NGX_INT64_LEN ui64 []
  else if hexadecimal =? 1 then hex_digits NGX_INT64_LEN Number.hex ui64 []
  else hex_digits NGX_INT64_LEN HEX ui64 [].

(** [while (len++ < width && buf < last) *buf++ = zero]: the shorter of the
    padding and the room. *)
Definition padding (room : Z) (zero width : Z) (len : Z) : list Z :=
  replicate (Z.to_nat (Z.min (width - len) room)) zero.

Definition ngx_sprintf_num (room : Z) (ui64 : Z) (zero : Z) (hexadecimal width : Z) : list Z :=
  let temp := num_digits ui64 hexadecimal in
  let len := Z.of_nat (length temp) in
  let pad := padding room zero width len in
  let room := room - Z.of_nat (length pad) in
  let len := if room <? len then room else len in
  pad ++ take (Z.to_nat len) temp.

(** ** The directive after a [%] *)

Record spec := mk_spec {
  zero : Z;
  width : Z;
  sign : bool;
  hex : Z;
  max_width : bool;
  frac_width : Z;
  slen : Z;
}.

#[export] Instance eta_spec : Eta spec := λ s,
  mk_spec (zero s) (width s) (sign s) (hex s) (max_width s) (frac_width s) (slen s).

(** [while ( *fmt >= '0' && *fmt <= '9') width = width * 10 + *fmt++ - '0']. *)
Fixpoint read_width (width : Z) (fmt : list Z) : Z * list Z :=
  match fmt with
  | c :: fmt' =>
      if is_digit c then read_width (u64 (width * 10 + c - "0"%ch)) fmt' else (width, fmt)
  | [] => (width, [])
  end.

(** [for ( ;; ) switch ( *fmt)] over the flags. *)
Fixpoint read_flags (s : spec) (fmt : list Z) (args : list arg) :
    option (spec * list Z * list arg) :=
  match fmt with
  | [] => Some (s, [], args)
  | c :: fmt' =>
      if c =? "u"%ch then read_flags (s <| sign := false |>) fmt' args
      else if c =? "m"%ch then read_flags (s <| max_width := true |>) fmt' args
      else if c =? "X"%ch then read_flags (s <| hex := 2 |> <| sign := false |>) fmt' args
      else if c =? "x"%ch then read_flags (s <| hex := 1 |> <| sign := false |>) fmt' args
      else if c =? "."%ch then
        let '(w, fmt'') := read_width (frac_width s) fmt' in
        Some (s <| frac_width := w |>, fmt'', args)
      else if c =? "*"%ch then
        match args with
        | AInt x :: args' => read_flags (s <| slen := u64 x |>) fmt' args'
        | _ => None
        end
      else Some (s, fmt, args)
  end.

(** [zero], [width] and the flags, in front of the conversion character. *)
Definition read_spec (fmt : list Z) (args : list arg) : option (spec * list Z * list arg) :=
  let zero := match fmt with c :: _ => if c =? "0"%ch then "0"%ch else " "%ch | [] => " "%ch end in
  let '(width, fmt) := read_width 0 fmt in
  read_flags (mk_spec zero width true 0 false 0 MAX_UINT64) fmt args.

(** ** Conversions *)

Abbreviation NGX_INT_T_LEN := 20.
Abbreviation NGX_ATOMIC_T_LEN := 20.

(** What a conversion of an integer has in [sign], [i64], [ui64] and the
    flags when the switch is left by [break]; [None]: not such a
    conversion. *)
Definition integer (c : Z) (x : Z) (s : spec) : option (Z * Z * spec) :=
  let signed (i : Z) (s : spec) := Some (i, 0, s <| sign := true |>) in
  let either (i u : Z) (s : spec) := Some (if sign s then (i, 0, s) else (0, u, s)) in
  if c =? "O"%ch then signed (s64 x) s
  else if c =? "P"%ch then signed (s32 x) s
  else if c =? "T"%ch then signed (s64 x) s
  else if c =? "M"%ch then
    let ms := u64 x in
    if s64 ms =? -1 then signed (-1) s else Some (0, ms, s <| sign := false |>)
  else if c =? "z"%ch then either (s64 x) (u64 x) s
  else if c =? "i"%ch then
    either (s64 x) (u64 x) (if max_width s then s <| width := NGX_INT_T_LEN |> else s)
  else if c =? "d"%ch then either (s32 x) (u32 x) s
  else if c =? "l"%ch then either (s64 x) (u64 x) s
  else if c =? "D"%ch then either (s32 x) (u32 x) s
  else if c =? "L"%ch then either (s64 x) (u64 x) s
  else if c =? "A"%ch then
    either (s64 x) (u64 x) (if max_width s then s <| width := NGX_ATOMIC_T_LEN |> else s)
  else if c =? "r"%ch then signed (s64 x) s
  else if c =? "p"%ch then
    Some (0, u64 x, s <| hex := 2 |> <| sign := false |> <| zero := "0"%ch |> <| width := 16 |>)
  else None.

(** The sign and the call of [ngx_sprintf_num] after the switch. *)
Definition put_integer (room : Z) (i64 ui64 : Z) (s : spec) : list Z :=
  let num room ui64 := ngx_sprintf_num room ui64 (zero s) (hex s) (width s) in
  if sign s then
    if i64 <? 0 then "-"%ch :: num (room - 1) (u64 (- i64)) else num room (u64 i64)
  else num room ui64.

(** [case 's'] without a length: [while ( *p && buf < last) *buf++ = *p++]. *)
Fixpoint copy_cstr (room : Z) (mem : list Z) : option (list Z) :=
  match mem with
  | [] => None
  | c :: mem' =>
      if c =? NUL then Some []
      else if room <=? 0 then Some []
      else option_map (cons c) (copy_cstr (room - 1) mem')
  end.

(** [ngx_min((size_t) (last - buf), len)] bytes copied from [mem]. *)
Definition cpymem (room len : Z) (mem : list Z) : option (list Z) :=
  let len := Z.min room len in
  if Z.of_nat (length mem) <? len then None else Some (take (Z.to_nat len) mem).

(** *** [case 'f'], on IEEE binary64 numbers *)

Definition double_of (z : Z) : spec_float := binary_normalize 53 1024 z 0 false.
Definition dsub : spec_float → spec_float → spec_float := SFsub 53 1024.
Definition dmul : spec_float → spec_float → spec_float := SFmul 53 1024.
Definition dadd : spec_float → spec_float → spec_float := SFadd 53 1024.
Definition half : spec_float := SFdiv 53 1024 (double_of 1) (double_of 2).

(** The conversion to an integer of [lo, hi] truncates; it is undefined on
    infinities, NaNs and numbers that do not fit. *)
Definition double_to (lo hi : Z) (f : spec_float) : option Z :=
  match f with
  | S754_zero _ => Some 0
  | S754_finite s m e =>
      let z := Z.shiftl (Zpos m) e in
      let z := if s then - z else z in
      if (lo <=? z) && (z <=? hi) then Some z else None
  | _ => None
  end.

Definition put_double (room : Z) (f : spec_float) (s : spec) : option (list Z) :=
  let neg := SFltb f (double_of 0) in
  let minus := if neg then ["-"%ch] else [] in
  let f := if neg then SFopp f else f in
  let room := room - Z.of_nat (length minus) in
  match double_to (-9223372036854775808) MAX_INT64 f with
  | None => None
  | Some ui64 =>
      if frac_width s =? 0 then
        Some (minus ++ ngx_sprintf_num room ui64 (zero s) 0 (width s))
      else
        let scale := Z.iter (frac_width s) (λ scale, u64 (scale * 10)) 1 in
        match double_to 0 MAX_UINT64 (dadd (dmul (dsub f (double_of ui64)) (double_of scale)) half) with
        | None => None
        | Some frac =>
            let '(ui64, frac) := if frac =? scale then (u64 (ui64 + 1), 0) else (ui64, frac) in
            let whole := ngx_sprintf_num room ui64 (zero s) 0 (width s) in
            let room := room - Z.of_nat (length whole) in
            let point := if 0 <? room then ["."%ch] else [] in
            let room := room - Z.of_nat (length point) in
            Some (minus ++ whole ++ point ++ ngx_sprintf_num room frac "0"%ch 0 (frac_width s))
        end
  end.

(** ** ngx_vslprintf *)

(** The body of the loop at a [%], [fmt] after it: the bytes written, the rest
    of the format and of the arguments. *)
Definition directive (room : Z) (fmt : list Z) (args : list arg) :
    option (list Z * list Z * list arg) :=
  match read_spec fmt args with
  | None => None
  | Some (s, [], args) => None
  | Some (s, c :: fmt, args) =>
      let put out args := match out with Some out => Some (out, fmt, args) | None => None end in
      if (c =? "V"%ch) || (c =? "v"%ch) then
        match args with
        | AStr data :: args => put (cpymem room (Z.of_nat (length data)) data) args
        | _ => None
        end
      else if c =? "s"%ch then
        match args with
        | APtr mem :: args =>
            put (if slen s =? MAX_UINT64 then copy_cstr room mem else cpymem room (slen s) mem)
              args
        | _ => None
        end
      else if c =? "f"%ch then
        match args with
        | ADouble f :: args => put (put_double room f s) args
        | _ => None
        end
      else if c =? "c"%ch then
        match args with AInt d :: args => put (Some [Z.land d 0xff]) args | _ => None end
      else if c =? "Z"%ch then put (Some [NUL]) args
      else if c =? "N"%ch then put (Some [LF]) args
      else if c =? "%"%ch then put (Some ["%"%ch]) args
      else
        match args with
        | AInt x :: args' =>
            match integer c x s with
            | Some (i64, ui64, s) => put (Some (put_integer room i64 ui64 s)) args'
            | None => put (Some [c]) args
            end
        | _ =>
            match integer c 0 s with
            | Some _ => None
            | None => put (Some [c]) args
            end
        end
  end.

(** [while ( *fmt && buf < last)].  Every turn consumes a byte of the format. *)
Fixpoint vslprintf_loop (fuel : nat) (room : Z) (fmt : list Z) (args : list arg) :
    option (list Z) :=
  match fuel, fmt with
  | _, [] => Some []
  | O, _ => None
  | S fuel, c :: fmt =>
      if room <=? 0 then Some []
      else if c =? "%"%ch then
        match directive room fmt args with
        | None => None
        | Some (out, fmt, args) =>
            option_map (app out) (vslprintf_loop fuel (room - Z.of_nat (length out)) fmt args)
        end
      else option_map (cons c) (vslprintf_loop fuel (room - 1) fmt args)
  end.

Definition ngx_vslprintf (room : Z) (fmt : list Z) (args : list arg) : option (list Z) :=
  vslprintf_loop (length fmt) room fmt args.

(** [last] is [(void * ) -1]. *)
Definition ngx_sprintf (buf : Z) (fmt : list Z) (args : list arg) : option (list Z) :=
  ngx_vslprintf (MAX_UINT64 - buf) fmt args.

Definition ngx_snprintf (max : Z) (fmt : list Z) (args : list arg) : option (list Z) :=
  ngx_vslprintf max fmt args.

Definition ngx_slprintf (buf last : Z) (fmt : list Z) (args : list arg) : option (list Z) :=
  ngx_vslprintf (last - buf) fmt args.

(** ** Theorems *)

(** *** Truncation: what is written with less room is a prefix of what is
    written with more. *)

Abbreviation clip room l := (take (Z.to_nat room) l).

Lemma clip_app room (l k : list Z) :
  0 ≤ room → clip room (l ++ k) =
  clip room l ++ clip (room - Z.of_nat (length (clip room l))) k.
Proof.
  intros. rewrite take_app, length_take.
  destruct (decide (Z.to_nat room ≤ length l)%nat).
  - replace (Z.to_nat room - length l)%nat with O by lia.
    by replace (Z.to_nat (room - Z.of_nat (Z.to_nat room `min` length l))) with O by lia.
  - do 2 f_equal. lia.
Qed.

Lemma clip_le room (l : list Z) : 0 ≤ room → Z.of_nat (length (clip room l)) ≤ room.
Proof. intros. rewrite length_take. lia. Qed.

(** The number in full, with its padding. *)
Definition number (ui64 zero hexadecimal width : Z) : list Z :=
  let temp := num_digits ui64 hexadecimal in
  replicate (Z.to_nat (width - Z.of_nat (length temp))) zero ++ temp.

Lemma sprintf_num_clip room ui64 zero hexadecimal width :
  0 ≤ room →
  ngx_sprintf_num room ui64 zero hexadecimal width =
  clip room (number ui64 zero hexadecimal width).
Proof.
  intros Hr. unfold ngx_sprintf_num, number, padding.
  set (temp := num_digits ui64 hexadecimal).
  rewrite clip_app, take_replicate by done.
  replace (Z.to_nat room `min` Z.to_nat (width - Z.of_nat (length temp)))%nat
    with (Z.to_nat (Z.min (width - Z.of_nat (length temp)) room)) by lia.
  f_equal. rewrite length_replicate. cases; bool_to_prop; [done|].
  rewrite !take_ge by lia. done.
Qed.

(** The text of an integer or a double in full. *)
Definition integer_text (i64 ui64 : Z) (s : spec) : list Z :=
  if sign s then
    if i64 <? 0 then "-"%ch :: number (u64 (- i64)) (zero s) (hex s) (width s)
    else number (u64 i64) (zero s) (hex s) (width s)
  else number ui64 (zero s) (hex s) (width s).

Lemma put_integer_clip room i64 ui64 s :
  0 < room → put_integer room i64 ui64 s = clip room (integer_text i64 ui64 s).
Proof.
  intros. unfold put_integer, integer_text. cases; rewrite sprintf_num_clip by lia; try done.
  replace (Z.to_nat room) with (S (Z.to_nat (room - 1))) by lia. done.
Qed.

Definition double_text (f : spec_float) (s : spec) : option (list Z) :=
  let neg := SFltb f (double_of 0) in
  let minus := if neg then ["-"%ch] else [] in
  let f := if neg then SFopp f else f in
  match double_to (-9223372036854775808) MAX_INT64 f with
  | None => None
  | Some ui64 =>
      if frac_width s =? 0 then Some (minus ++ number ui64 (zero s) 0 (width s))
      else
        let scale := Z.iter (frac_width s) (λ scale, u64 (scale * 10)) 1 in
        match double_to 0 MAX_UINT64 (dadd (dmul (dsub f (double_of ui64)) (double_of scale)) half) with
        | None => None
        | Some frac =>
            let '(ui64, frac) := if frac =? scale then (u64 (ui64 + 1), 0) else (ui64, frac) in
            Some (minus ++ number ui64 (zero s) 0 (width s) ++ ["."%ch] ++
                  number frac "0"%ch 0 (frac_width s))
        end
  end.

Lemma clip_one room (c : Z) : 0 ≤ room → clip room [c] = if 0 <? room then [c] else [].
Proof.
  intros. cases; bool_to_prop; [by rewrite take_ge by (cbn; lia)|].
  by replace room with 0 by lia.
Qed.

Lemma put_double_clip room f s :
  0 < room → put_double room f s = option_map (λ l, clip room l) (double_text f s).
Proof.
  intros. unfold put_double, double_text. set (neg := SFltb f (double_of 0)).
  set (minus := if neg then ["-"%ch] else []).
  assert (clip room minus = minus) as Hm
    by (apply take_ge; subst minus; destruct neg; cbn; lia).
  assert (Z.of_nat (length minus) ≤ room) by (subst minus; destruct neg; cbn; lia).
  destruct (double_to _ _ _) as [ui64|]; [|done].
  destruct (frac_width s =? 0).
  { cbn [option_map]. rewrite clip_app, Hm, sprintf_num_clip by lia. done. }
  destruct (double_to 0 _ _) as [frac|]; [|done].
  destruct (if frac =? _ then _ else _) as [u fr]. cbn [option_map].
  rewrite sprintf_num_clip by lia. set (room' := room - Z.of_nat (length minus)).
  rewrite clip_app, Hm by lia. fold room'. rewrite (clip_app room') by lia.
  set (whole := clip room' _).
  assert (Z.of_nat (length whole) ≤ room') by (apply clip_le; lia).
  rewrite (clip_app _ ["."%ch]), clip_one by lia.
  rewrite sprintf_num_clip; [done|]. cases; bool_to_prop; cbn; lia.
Qed.

(** A writer given less room writes a prefix. *)
Definition clips (put : Z → option (list Z)) : Prop :=
  ∀ r1 r2 out, 0 < r1 ≤ r2 → put r2 = Some out →
    put r1 = Some (clip r1 out) ∧ Z.of_nat (length out) ≤ r2.

Lemma clips_text (put : Z → option (list Z)) text :
  (∀ r, 0 < r → put r = option_map (λ l, clip r l) text) → clips put.
Proof.
  intros Hput r1 r2 out Hr Ho. rewrite Hput in * by lia. destruct text as [l|]; [|done].
  injection Ho as <-. cbn. rewrite take_take. split; [|apply clip_le; lia].
  do 2 f_equal. lia.
Qed.

Lemma clips_some l : (length l <= 1)%nat → clips (λ _, Some l).
Proof.
  intros Hl r1 r2 out Hr [= <-]. rewrite take_ge by lia. split; [done|lia].
Qed.

Lemma clips_cpymem len mem : 0 ≤ len → clips (λ room, cpymem room len mem).
Proof.
  intros Hlen r1 r2 out Hr. unfold cpymem.
  destruct (_ <? _) eqn:E; intros [= <-]. bool_to_prop.
  replace (_ <? _) with false by (symmetry; apply Z.ltb_ge; lia).
  rewrite take_take, length_take. split; [|lia]. do 2 f_equal. lia.
Qed.

Lemma copy_cstr_clip mem : ∀ r1 r2 out, 0 ≤ r1 ≤ r2 → copy_cstr r2 mem = Some out →
  copy_cstr r1 mem = Some (clip r1 out) ∧ Z.of_nat (length out) ≤ r2.
Proof.
  induction mem as [|c mem IH]; intros r1 r2 out Hr; cbn; [done|].
  destruct (c =? NUL); [intros [= <-]; rewrite take_nil; cbn; split; [done|lia]|].
  destruct (r2 <=? 0) eqn:E2; bool_to_prop.
  { intros [= <-]. replace (r1 <=? 0) with true by lia. rewrite take_nil. cbn. split; [done|lia]. }
  destruct (copy_cstr (r2 - 1) mem) as [o|] eqn:Eo; [|done]. intros [= <-].
  destruct (r1 <=? 0) eqn:E1; bool_to_prop.
  - apply (IH 0) in Eo as [_ Hl]; [|lia]. replace (Z.to_nat r1) with O by lia.
    cbn. split; [done|lia].
  - apply (IH (r1 - 1)) in Eo as [-> Hl]; [|lia].
    replace (Z.to_nat r1) with (S (Z.to_nat (r1 - 1))) by lia. cbn. split; [done|lia].
Qed.

Lemma clips_copy_cstr mem : clips (λ room, copy_cstr room mem).
Proof. intros r1 r2 out Hr. apply copy_cstr_clip. lia. Qed.

Lemma read_width_le fmt : ∀ w w' fmt', read_width w fmt = (w', fmt') →
  (length fmt' ≤ length fmt)%nat.
Proof.
  induction fmt as [|c fmt IH]; intros w w' fmt'; cbn; [by intros [= <- <-]|].
  destruct (is_digit c); [|by intros [= <- <-]]. intros H%IH. lia.
Qed.

Lemma read_flags_slen s fmt : ∀ args s' fmt' args',
  0 ≤ slen s → read_flags s fmt args = Some (s', fmt', args') →
  0 ≤ slen s' ∧ (length fmt' ≤ length fmt)%nat.
Proof.
  revert s. induction fmt as [|c fmt IH]; intros s args s' fmt' args' Hs; cbn.
  - intros [= <- <- <-]. split; [done|cbn; lia].
  - assert (∀ s1 args1, slen s1 = slen s → read_flags s1 fmt args1 = Some (s', fmt', args') →
      0 ≤ slen s' ∧ (length fmt' ≤ S (length fmt))%nat) as Hrec.
    { intros s1 args1 Hs1 H. apply IH in H as [? ?]; [split; [done|lia]|lia]. }
    destruct (c =? "u"%ch); [by apply Hrec|]. destruct (c =? "m"%ch); [by apply Hrec|].
    destruct (c =? "X"%ch); [by apply Hrec|]. destruct (c =? "x"%ch); [by apply Hrec|].
    destruct (c =? "."%ch).
    { destruct (read_width (frac_width s) fmt) as [w f] eqn:E. intros [= <- <- <-].
      split; [done|]. apply read_width_le in E. lia. }
    destruct (c =? "*"%ch); [|by intros [= <- <- <-]].
    destruct args as [|[x| | |] args]; try done. intros H.
    apply IH in H as [? ?]; [split; [done|lia]|]. cbn. apply u64_range.
Qed.

Lemma read_spec_slen fmt args s fmt' args' :
  read_spec fmt args = Some (s, fmt', args') →
  0 ≤ slen s ∧ (length fmt' ≤ length fmt)%nat.
Proof.
  unfold read_spec. destruct (read_width 0 fmt) as [w f] eqn:E.
  intros H. apply read_flags_slen in H as [? ?]; [|cbn; lia].
  apply read_width_le in E. split; [done|lia].
Qed.

(** What a directive writes, separated from what it consumes. *)
Lemma directive_clips r1 r2 fmt args out fmt' args' :
  0 < r1 ≤ r2 → directive r2 fmt args = Some (out, fmt', args') →
  directive r1 fmt args = Some (clip r1 out, fmt', args') ∧
  Z.of_nat (length out) ≤ r2 ∧ (length fmt' < length fmt)%nat.
Proof.
  intros Hr. unfold directive. destruct (read_spec fmt args) as [[[s f] a]|] eqn:Es; [|done].
  apply read_spec_slen in Es as [Hs Hf]. destruct f as [|c f]; [done|]. cbn in Hf.
  set (go put (o : option (list Z)) (b : list arg) :=
    match put : option (list Z) with Some x => Some (x, f, b) | None => None end).
  assert (∀ (put : Z → option (list Z)) b, clips put →
    match put r2 with Some o => Some (o, f, b) | None => None end = Some (out, fmt', args') →
    match put r1 with Some o => Some (o, f, b) | None => None end =
      Some (clip r1 out, fmt', args') ∧
    Z.of_nat (length out) ≤ r2 ∧ (length fmt' < length fmt)%nat) as Hput.
  { intros put b Hp. destruct (put r2) as [o|] eqn:Eo; [|done]. intros [= <- <- <-].
    destruct (Hp _ _ _ Hr Eo) as [-> ?]. split; [done|]. split; [done|lia]. }
  clear go.
  assert (∀ l b, (length l <= 1)%nat → Some (l, f, b) = Some (out, fmt', args') →
    Some (l, f, b) = Some (clip r1 out, fmt', args') ∧
    Z.of_nat (length out) ≤ r2 ∧ (length fmt' < length fmt)%nat) as Hone.
  { intros l b Hl. apply (Hput (λ _, Some l)). by apply clips_some. }
  destruct (_ || _).
  { destruct a as [|[] a]; try done.
    apply (Hput (λ r, cpymem r (Z.of_nat (length data)) data)), clips_cpymem. lia. }
  destruct (c =? "s"%ch).
  { destruct a as [|[] a]; try done. destruct (slen s =? MAX_UINT64).
    - apply (Hput (λ r, copy_cstr r mem)), clips_copy_cstr.
    - by apply (Hput (λ r, cpymem r (slen s) mem)), clips_cpymem. }
  destruct (c =? "f"%ch).
  { destruct a as [|[] a]; try done. apply (Hput (λ r, put_double r f0 s)).
    apply (clips_text _ (double_text f0 s)). intros. by apply put_double_clip. }
  destruct (c =? "c"%ch); [destruct a as [|[] a]; try done; by apply Hone|].
  destruct (c =? "Z"%ch); [by apply Hone|]. destruct (c =? "N"%ch); [by apply Hone|].
  destruct (c =? "%"%ch); [by apply Hone|].
  destruct a as [|[] a]; try (destruct (integer c 0 s); [done|by apply Hone]).
  destruct (integer c x s) as [[[i u] s']|]; [|by apply Hone].
  apply (Hput (λ r, Some (put_integer r i u s'))).
  apply (clips_text _ (Some (integer_text i u s'))). intros. cbn. by rewrite put_integer_clip.
Qed.

Lemma vslprintf_loop_clip fuel : ∀ r1 r2 fmt args out,
  (length fmt ≤ fuel)%nat → 0 ≤ r1 ≤ r2 → vslprintf_loop fuel r2 fmt args = Some out →
  vslprintf_loop fuel r1 fmt args = Some (clip r1 out) ∧ Z.of_nat (length out) ≤ r2.
Proof.
  induction fuel as [|fuel IH]; intros r1 r2 fmt args out Hf Hr.
  { destruct fmt; [|cbn in Hf; lia]. intros [= <-]. rewrite take_nil. cbn. split; [done|lia]. }
  destruct fmt as [|c fmt]; [intros [= <-]; rewrite take_nil; cbn; split; [done|lia]|].
  cbn [vslprintf_loop]. cbn in Hf.
  destruct (r2 <=? 0) eqn:E2; bool_to_prop.
  { intros [= <-]. replace (r1 <=? 0) with true by lia. rewrite take_nil. cbn. split; [done|lia]. }
  destruct (r1 <=? 0) eqn:E1; bool_to_prop.
  { intros H. replace r1 with 0 by lia. split; [done|].
    destruct (c =? "%"%ch).
    - destruct (directive r2 fmt args) as [[[o f] a]|] eqn:Ed; [|done].
      apply (directive_clips r2) in Ed as (_ & Hl & Hlt); [|lia].
      destruct (vslprintf_loop _ _ f a) as [rest|] eqn:Er; [|done]. injection H as <-.
      apply (IH 0) in Er as [_ ?]; [|lia|lia]. rewrite length_app. lia.
    - destruct (vslprintf_loop _ _ fmt args) as [rest|] eqn:Er; [|done]. injection H as <-.
      apply (IH 0) in Er as [_ ?]; [|lia|lia]. cbn. lia. }
  destruct (c =? "%"%ch).
  - destruct (directive r2 fmt args) as [[[o f] a]|] eqn:Ed; [|done].
    apply (directive_clips r1) in Ed as (-> & Hl & Hlt); [|lia].
    destruct (vslprintf_loop _ _ f a) as [rest|] eqn:Er; [|done]. intros [= <-].
    rewrite clip_app by lia.
    assert (Z.of_nat (length (clip r1 o)) ≤ r1) by (apply clip_le; lia).
    apply (IH (r1 - Z.of_nat (length (clip r1 o)))) in Er as [Er ?];
      [|lia|rewrite length_take in *; lia].
    rewrite Er. cbn. split; [done|]. rewrite length_app. lia.
  - destruct (vslprintf_loop _ _ fmt args) as [rest|] eqn:Er; [|done]. intros [= <-].
    apply (IH (r1 - 1)) in Er as [-> ?]; [|lia|lia].
    replace (Z.to_nat r1) with (S (Z.to_nat (r1 - 1))) by lia. cbn. split; [done|lia].
Qed.

(** [ngx_vslprintf] never writes past [last], and with less room it writes the
    beginning of what it writes with more: output is cut, nothing else
    changes. *)
Theorem vslprintf_truncates room1 room2 fmt args out :
  0 ≤ room1 ≤ room2 → ngx_vslprintf room2 fmt args = Some out →
  ngx_vslprintf room1 fmt args = Some (take (Z.to_nat room1) out) ∧
  Z.of_nat (length out) ≤ room2.
Proof. intros Hr H. by apply vslprintf_loop_clip. Qed.

(** *** Numbers are printed as the parsers of Number.v read them *)

Lemma dec_digits_spec fuel : ∀ n acc, (0 < fuel)%nat → 0 ≤ n < 10 ^ Z.of_nat fuel →
  ∃ ds, dec_digits fuel n acc = ds ++ acc ∧ Forall is_digit ds ∧ ds ≠ [] ∧ dec ds = n ∧
        (length ds ≤ fuel)%nat.
Proof.
  induction fuel as [|fuel IH]; intros n acc Hf Hn; [lia|].
  rewrite Nat2Z.inj_succ, Z.pow_succ_r in Hn by lia. cbn [dec_digits].
  assert (is_digit (n mod 10 + "0"%ch)) by (apply is_digit_range; zlia).
  destruct (Z.eqb_spec (n / 10) 0) as [E|E].
  - exists [n mod 10 + "0"%ch]. repeat split; [by constructor|done|cbn; zlia|cbn; lia].
  - destruct (IH (n / 10) ((n mod 10 + "0"%ch) :: acc)) as (ds & -> & Hd & Hne & Hv & Hl).
    { destruct fuel; [|lia]. cbn in Hn. zlia. }
    { split; [zlia|]. apply Z.div_lt_upper_bound; lia. }
    exists (ds ++ [n mod 10 + "0"%ch]). rewrite <- app_assoc.
    split; [done|]. split; [by apply Forall_app_2; [|constructor]|].
    split; [by destruct ds|]. split; [|rewrite length_app; cbn; lia].
    rewrite dec_from_app, Hv. cbn. zlia.
Qed.

Lemma num_digits_dec n : 0 ≤ n ≤ MAX_UINT64 →
  Forall is_digit (num_digits n 0) ∧ num_digits n 0 ≠ [] ∧ dec (num_digits n 0) = n ∧
  (length (num_digits n 0) ≤ NGX_INT64_LEN)%nat.
Proof.
  intros Hn. unfold num_digits. cbn [Z.eqb].
  destruct (dec_digits_spec NGX_INT64_LEN n []) as (ds & E & H); [lia|cbn; lia|].
  rewrite app_nil_r in E. destruct (n <=? _) eqn:El; bool_to_prop; rewrite ?u32_id, E by lia; done.
Qed.

(** The digits the width directive reads are those [%i] prints. *)
Lemma read_width_digits ds : ∀ w rest,
  Forall is_digit ds → 0 ≤ w → dec_from w ds ≤ MAX_INT64 →
  (match rest with c :: _ => is_digit c = false | [] => True end) →
  read_width w (ds ++ rest) = (dec_from w ds, rest).
Proof.
  induction ds as [|c ds IH]; intros w rest Hds Hw Hle Hrest.
  - cbn. destruct rest as [|c rest]; [done|]. cbn. by rewrite Hrest.
  - inversion_clear Hds as [|?? Hc Hds']. cbn.
    rewrite (proj1 (Is_true_true _) Hc). apply is_digit_range in Hc. cbn in Hle.
    assert (w * 10 + (c - 48) ≤ MAX_INT64).
    { etrans; [|apply Hle]. apply Number.dec_from_ge; [lia|done]. }
    rewrite u64_id by lia. replace (w * 10 + c - 48) with (w * 10 + (c - 48)) by lia.
    apply IH; [done|lia|done|done].
Qed.

Lemma dec_zeros k ds : dec (replicate k "0"%ch ++ ds) = dec ds.
Proof. induction k as [|k IH]; [done|]. cbn. apply IH. Qed.

Lemma number_dec n w : 0 ≤ n ≤ MAX_INT64 → Number.ngx_atoi (number n "0"%ch 0 w) = n.
Proof.
  intros Hn. destruct (num_digits_dec n) as (Hd & Hne & Hv & _); [lia|]. unfold number.
  rewrite Number.atoi_value; rewrite ?dec_zeros, ?Hv; [done| |set (k := Z.to_nat _); by destruct k|lia].
  apply Forall_app_2; [|done]. by apply Forall_replicate.
Qed.

Lemma hex_digit_nth d : 0 ≤ d < 16 → Number.hex_digit (nth (Z.to_nat d) Number.hex 0) = Some d.
Proof.
  intros Hd. assert (H : bool_decide (Number.hex_digit (nth (Z.to_nat (d mod 16)) Number.hex 0) = Some (d mod 16)) = true).
  { assert (is_byte d) as Hb by (unfold is_byte; lia). clear Hd. by_bytes d. }
  rewrite Z.mod_small in H by lia. by apply bool_decide_eq_true in H.
Qed.

Lemma hex_digits_spec fuel : ∀ n acc, (0 < fuel)%nat → 0 ≤ n < 16 ^ Z.of_nat fuel →
  ∃ ds, hex_digits fuel Number.hex n acc = ds ++ acc ∧ ds ≠ [] ∧ (length ds ≤ fuel)%nat ∧
        ∀ rest, Number.hextoi_loop 0 (ds ++ rest) = Number.hextoi_loop (s64 n) rest.
Proof.
  induction fuel as [|fuel IH]; intros n acc Hf Hn; [lia|].
  rewrite Nat2Z.inj_succ, Z.pow_succ_r in Hn by lia. cbn [hex_digits].
  change 0xf with (Z.ones 4). rewrite Z.land_ones, Z.shiftr_div_pow2 by lia.
  change (2 ^ 4) with 16.
  pose proof (hex_digit_nth (n mod 16) ltac:(zlia)) as Hd. set (d := nth _ _ _) in *.
  destruct (Z.eqb_spec (n / 16) 0) as [E|E].
  - exists [d]. split; [done|]. split; [done|]. split; [cbn; lia|]. intros rest.
    cbn [Number.hextoi_loop app]. rewrite Hd. do 2 f_equal. zlia.
  - destruct (IH (n / 16) (d :: acc)) as (ds & -> & Hne & Hl & Hv).
    { destruct fuel; [|lia]. cbn in Hn. zlia. }
    { split; [zlia|]. apply Z.div_lt_upper_bound; lia. }
    exists (ds ++ [d]). rewrite <- app_assoc.
    split; [done|]. split; [by destruct ds|]. split; [rewrite length_app; cbn; lia|].
    intros rest. rewrite <- app_assoc, Hv. cbn [Number.hextoi_loop app]. rewrite Hd, Number.s64_step. do 2 f_equal. zlia.
Qed.

Lemma hextoi_zeros k ds : Number.hextoi_loop 0 (replicate k "0"%ch ++ ds) = Number.hextoi_loop 0 ds.
Proof. induction k as [|k IH]; [done|]. cbn. apply IH. Qed.

Lemma number_hex n w : 0 ≤ n ≤ MAX_INT64 → Number.ngx_hextoi (number n "0"%ch 1 w) = n.
Proof.
  intros Hn. unfold number, num_digits. cbn [Z.eqb].
  destruct (hex_digits_spec NGX_INT64_LEN n []) as (ds & E & Hne & _ & Hv); [lia|cbn; lia|].
  rewrite app_nil_r in E. rewrite E. change (1 =? 1)%positive with true. cbv iota. unfold Number.ngx_hextoi.
  set (k := Z.to_nat _). destruct (replicate k "0"%ch ++ ds) eqn:El; [by destruct k|].
  rewrite <- El, hextoi_zeros, <- (app_nil_r ds), Hv. cbn. rewrite s64_id by lia.
  by replace (n <? 0) with false by lia.
Qed.

Lemma number_length n h w : 0 ≤ n ≤ MAX_UINT64 → h = 0 ∨ h = 1 →
  w ≤ Z.of_nat (length (number n "0"%ch h w)) ≤ Z.max 20 w.
Proof.
  intros Hn Hh. unfold number. rewrite length_app, length_replicate.
  assert (length (num_digits n h) ≤ 20)%nat; [|lia].
  destruct Hh as [-> | ->]; [by apply num_digits_dec|]. unfold num_digits. cbn [Z.eqb].
  destruct (hex_digits_spec NGX_INT64_LEN n []) as (ds & E & _ & Hl & _); [lia|cbn; lia|].
  by rewrite E, app_nil_r.
Qed.

Lemma read_spec_width w rest args :
  0 ≤ w ≤ MAX_INT64 → (match rest with c :: _ => is_digit c = false | [] => True end) →
  read_spec ("0"%ch :: num_digits w 0 ++ rest) args =
  read_flags (mk_spec "0"%ch w true 0 false 0 MAX_UINT64) rest args.
Proof.
  intros Hw Hrest. destruct (num_digits_dec w) as (Hd & _ & Hv & _); [lia|].
  assert (dec ("0"%ch :: num_digits w 0) = w) as Hv' by exact Hv.
  unfold read_spec. cbn [Z.eqb Pos.eqb].
  rewrite app_comm_cons.
  rewrite (read_width_digits ("0"%ch :: num_digits w 0)); [|by constructor|lia|lia|done].
  by rewrite Hv'.
Qed.

Lemma vslprintf_one room fmt args out args' :
  0 < room → directive room fmt args = Some (out, [], args') →
  ngx_vslprintf room ("%"%ch :: fmt) args = Some out.
Proof.
  intros Hr Hd. unfold ngx_vslprintf. cbn [length vslprintf_loop].
  replace (room <=? 0) with false by lia. cbn [Z.eqb Pos.eqb]. rewrite Hd.
  destruct (length fmt); cbn; by rewrite app_nil_r.
Qed.

(** A number printed by ["%0<w>i"] has at least [w] bytes and is read back by
    [ngx_atoi]; printed by ["%0<w>xi"] it is read back by [ngx_hextoi]; a
    negative number is its absolute value after a minus sign. *)
Theorem sprintf_number_roundtrip n w room :
  0 ≤ n ≤ MAX_INT64 → 0 ≤ w ≤ MAX_INT64 → Z.max 20 w < room →
  ∃ d h,
    ngx_vslprintf room (bs "%0" ++ num_digits w 0 ++ bs "i") [AInt n] = Some d ∧
    Number.ngx_atoi d = n ∧ w ≤ Z.of_nat (length d) ∧
    ngx_vslprintf room (bs "%0" ++ num_digits w 0 ++ bs "xi") [AInt n] = Some h ∧
    Number.ngx_hextoi h = n ∧ w ≤ Z.of_nat (length h) ∧
    (0 < n → ngx_vslprintf room (bs "%0" ++ num_digits w 0 ++ bs "i") [AInt (- n)] =
             Some ("-"%ch :: d)).
Proof.
  intros Hn Hw Hroom.
  pose proof (number_length n 0 w ltac:(lia) ltac:(by left)).
  pose proof (number_length n 1 w ltac:(lia) ltac:(by right)).
  exists (number n "0"%ch 0 w), (number n "0"%ch 1 w).
  assert (∀ k text, (k = n ∧ text = number n "0"%ch 0 w) ∨
      (0 < n ∧ k = - n ∧ text = "-"%ch :: number n "0"%ch 0 w) →
    ngx_vslprintf room (bs "%0" ++ num_digits w 0 ++ bs "i") [AInt k] = Some text) as Hi.
  { intros k text Hk. apply (vslprintf_one _ _ _ _ []); [lia|].
    unfold directive. cbn [bs app]. rewrite read_spec_width by done. cbn -[number put_integer s64].
    rewrite put_integer_clip by lia. unfold integer_text. cbn [sign zero hex width set_field].
    do 3 f_equal. destruct Hk as [[-> ->]|(? & -> & ->)]; rewrite s64_id by lia.
    - replace (n <? 0) with false by lia. rewrite u64_id, take_ge by lia. done.
    - replace (- n <? 0) with true by lia. rewrite Z.opp_involutive, u64_id, take_ge; [done| |lia].
      cbn. lia. }
  split; [by apply Hi; left|]. split; [by apply number_dec|]. split; [lia|].
  split; [|split; [by apply number_hex|split; [lia|intros; apply Hi; by right]]].
  apply (vslprintf_one _ _ _ _ []); [lia|].
  unfold directive. cbn [bs app]. rewrite read_spec_width by done. cbn -[number put_integer u64].
  rewrite put_integer_clip by lia. unfold integer_text. cbn [sign zero hex width set_field].
  rewrite u64_id, take_ge by lia. done.
Qed.

(** ** Witnesses *)

Lemma vslprintf_truncates_witness :
  ngx_vslprintf 7 (bs "%s: %05d%V") [APtr (bs "abc" ++ [NUL]); AInt (-42); AStr (bs "xyz")] =
    Some (bs "abc: -0") ∧ 14 ≤ 100.
Proof.
  by_instance (vslprintf_truncates 7 100 (bs "%s: %05d%V")
    [APtr (bs "abc" ++ [NUL]); AInt (-42); AStr (bs "xyz")] (bs "abc: -00042xyz")
    ltac:(lia) ltac:(reflexivity)).
Defined.

Lemma sprintf_number_roundtrip_witness : ∃ d h,
  ngx_vslprintf 100 (bs "%05i") [AInt 255] = Some d ∧ Number.ngx_atoi d = 255 ∧
  5 ≤ Z.of_nat (length d) ∧
  ngx_vslprintf 100 (bs "%05xi") [AInt 255] = Some h ∧ Number.ngx_hextoi h = 255 ∧
  5 ≤ Z.of_nat (length h) ∧
  (0 < 255 → ngx_vslprintf 100 (bs "%05i") [AInt (-255)] = Some ("-"%ch :: d)).
Proof.
  exact (sprintf_number_roundtrip 255 5 100 ltac:(lia) ltac:(lia) ltac:(lia)).
Defined.

End Printf.
