(* ===== verification/Times.v ===== *)
(** * Calendar time: [ngx_gmtime], [ngx_http_time] and [ngx_http_cookie_time]

    src/core/ngx_times.c (and the [ngx_tm_t] names of src/os/unix/ngx_time.h).
    [next_day] is the calendar as it is defined, one day at a time; the
    theorems show that the closed formulas of the code follow it. *)

From S2P Require Import Prelude Number Printf.

Module Times.

(** [ngx_tm_t] is [struct tm]: the fields are [int]s. *)
Record ngx_tm_t := mk_tm {
  tm_sec : Z;
  tm_min : Z;
  tm_hour : Z;
  tm_mday : Z;
  tm_mon : Z;
  tm_year : Z;
  tm_wday : Z;
}.

Definition week : list (list Z) :=
  [bs "Sun"; bs "Mon"; bs "Tue"; bs "Wed"; bs "Thu"; bs "Fri"; bs "Sat"].
Definition months : list (list Z) :=
  [bs "Jan"; bs "Feb"; bs "Mar"; bs "Apr"; bs "May"; bs "Jun";
   bs "Jul"; bs "Aug"; bs "Sep"; bs "Oct"; bs "Nov"; bs "Dec"].

(** ** ngx_gmtime *)

(** The year and the day of the year, both counted from March 1, of a number
    of days since March 1, 1 BC. *)
Definition year_yday (days : Z) : Z * Z :=
  let year := (days + 2) * 400 / (365 * 400 + 100 - 4 + 1) in
  let yday := s64 (days - (365 * year + year / 4 - year / 100 + year / 400)) in
  if yday <? 0 then
    let leap :=
      if (year mod 4 =? 0) && (negb (year mod 100 =? 0) || (year mod 400 =? 0)) then 1 else 0 in
    (year - 1, 365 + leap + yday)
  else (year, yday).

(** The year, month and day of the month. *)
Definition year_mon_mday (days : Z) : Z * Z * Z :=
  let '(year, yday) := year_yday days in
  let mon := (yday + 31) * 10 / 306 in
  let mday := u64 (yday - (367 * mon / 12 - 30) + 1) in
  if 306 <=? yday then (year + 1, mon - 10, mday) else (year, mon + 2, mday).

Definition ngx_gmtime (t : Z) : ngx_tm_t :=
  let n := u64 t in
  let days := n / 86400 in
  let wday := (4 + days) mod 7 in
  let n := n mod 86400 in
  let hour := n / 3600 in
  let n := n mod 3600 in
  let min := n / 60 in
  let sec := n mod 60 in
  let '(year, mon, mday) := year_mon_mday (days - (31 + 28) + 719527) in
  mk_tm (s32 sec) (s32 min) (s32 hour) (s32 mday) (s32 mon) (s32 year) (s32 wday).

(** ** Printing *)

(** A string constant in memory. *)
Definition c_str (s : list Z) : Printf.arg := Printf.APtr (s ++ [NUL]).

Definition ngx_http_time (buf : Z) (t : Z) : option (list Z) :=
  let tm := ngx_gmtime t in
  Printf.ngx_sprintf buf (bs "%s, %02d %s %4d %02d:%02d:%02d GMT")
    [c_str (nth (Z.to_nat (tm_wday tm)) week []);
     Printf.AInt (tm_mday tm);
     c_str (nth (Z.to_nat (tm_mon tm - 1)) months []);
     Printf.AInt (tm_year tm);
     Printf.AInt (tm_hour tm);
     Printf.AInt (tm_min tm);
     Printf.AInt (tm_sec tm)].

Definition ngx_http_cookie_time (buf : Z) (t : Z) : option (list Z) :=
  let tm := ngx_gmtime t in
  Printf.ngx_sprintf buf
    (if 2037 <? tm_year tm then bs "%s, %02d-%s-%d %02d:%02d:%02d GMT"
     else bs "%s, %02d-%s-%02d %02d:%02d:%02d GMT")
    [c_str (nth (Z.to_nat (tm_wday tm)) week []);
     Printf.AInt (tm_mday tm);
     c_str (nth (Z.to_nat (tm_mon tm - 1)) months []);
     Printf.AInt (if 2037 <? tm_year tm then tm_year tm else Z.rem (tm_year tm) 100);
     Printf.AInt (tm_hour tm);
     Printf.AInt (tm_min tm);
     Printf.AInt (tm_sec tm)].

(** ** The calendar *)

Definition leap (y : Z) : bool :=
  (y mod 4 =? 0) && (negb (y mod 100 =? 0) || (y mod 400 =? 0)).

Definition month_length (y m : Z) : Z :=
  if m =? 2 then if leap y then 29 else 28
  else if (m =? 4) || (m =? 6) || (m =? 9) || (m =? 11) then 30 else 31.

(** The day after the day [(y, m, d)]. *)
Definition next_day (date : Z * Z * Z) : Z * Z * Z :=
  let '(y, m, d) := date in
  if d <? month_length y m then (y, m, d + 1)
  else if m <? 12 then (y, m + 1, 1) else (y + 1, 1, 1).

(** The day [n] days after January 1, 1970. *)
Definition calendar (n : nat) : Z * Z * Z := Nat.iter n next_day (1970, 1, 1).

Definition date_of (tm : ngx_tm_t) : Z * Z * Z := (tm_year tm, tm_mon tm, tm_mday tm).

(** Two and four decimal digits. *)
Definition dd (n : Z) : list Z := [n / 10 + "0"%ch; n mod 10 + "0"%ch].
Definition dddd (n : Z) : list Z := dd (n / 100) ++ dd (n mod 100).

(** ** Theorems *)

(** *** Years that begin on March 1 *)

(** The days before March 1 of the year, and the days of the year that begins
    there (its February is in the next calendar year). *)
Definition year_start (y : Z) : Z := 365 * y + y / 4 - y / 100 + y / 400.
Definition year_length (y : Z) : Z := if leap (y + 1) then 366 else 365.

Lemma leap_spec y :
  leap y = true ↔ y mod 4 = 0 ∧ (y mod 100 ≠ 0 ∨ y mod 400 = 0).
Proof.
  unfold leap. rewrite andb_true_iff, orb_true_iff, negb_true_iff, Z.eqb_eq, Z.eqb_neq, Z.eqb_eq.
  done.
Qed.

Lemma year_start_succ y : year_start (y + 1) = year_start y + year_length y.
Proof.
  unfold year_start, year_length. pose proof (leap_spec (y + 1)) as H.
  destruct (leap (y + 1)).
  - destruct H as [H _]. specialize (H eq_refl). zlia.
  - destruct H as [_ H]. assert (¬ ((y + 1) mod 4 = 0 ∧ ((y + 1) mod 100 ≠ 0 ∨ (y + 1) mod 400 = 0)))
      by (intros Hn; by specialize (H Hn)). clear H. zlia.
Qed.

Lemma year_length_range y : 365 ≤ year_length y ≤ 366.
Proof. unfold year_length. destruct (leap _); lia. Qed.

Lemma year_start_mono y y' : y < y' → year_start (y + 1) ≤ year_start y'.
Proof. unfold year_start. intros. zlia. Qed.

(** What the division by the mean length of a year estimates. *)
Lemma year_estimate days :
  let year := (days + 2) * 400 / 146097 in
  year_start year - 2 ≤ days < year_start (year + 1).
Proof. intros year. unfold year_start. subst year. split; zlia. Qed.

Lemma year_yday_spec days :
  0 ≤ days < 9000000000000000 →
  ∃ y yd, year_yday days = (y, yd) ∧ days = year_start y + yd ∧ 0 ≤ yd < year_length y ∧ 0 ≤ y.
Proof.
  intros Hd. pose proof (year_estimate days) as He. unfold year_yday.
  change (365 * 400 + 100 - 4 + 1) with 146097. set (y := (days + 2) * 400 / 146097) in *.
  cbv zeta in He. fold (year_start y).
  assert (0 ≤ y ≤ 25000000000000) by (subst y; zlia).
  rewrite s64_id by (unfold year_start; zlia).
  change ((y mod 4 =? 0) && (negb (y mod 100 =? 0) || (y mod 400 =? 0))) with (leap y).
  destruct (Z.ltb_spec (days - year_start y) 0).
  - pose proof (year_start_succ (y - 1)) as Hs. replace (y - 1 + 1) with y in Hs by lia.
    unfold year_length in Hs. replace (y - 1 + 1) with y in Hs by lia.
    eexists _, _. split; [done|]. unfold year_length. replace (y - 1 + 1) with y by lia.
    assert (y ≠ 0) by (intros ->; change (year_start 0) with 0 in *; lia).
    destruct (leap y); lia.
  - pose proof (year_start_succ y). eexists _, _. split; [done|]. lia.
Qed.

Lemma year_yday_unique y y' yd yd' :
  0 ≤ yd < year_length y → 0 ≤ yd' < year_length y' →
  year_start y + yd = year_start y' + yd' → y = y' ∧ yd = yd'.
Proof.
  intros. pose proof (year_start_succ y). pose proof (year_start_succ y').
  pose proof (year_start_mono y y'). pose proof (year_start_mono y' y).
  destruct (Z.lt_trichotomy y y') as [|[->|]]; lia.
Qed.

Lemma year_yday_succ days y yd :
  0 ≤ days < 8000000000000000 → year_yday days = (y, yd) →
  year_yday (days + 1) = if yd + 1 <? year_length y then (y, yd + 1) else (y + 1, 0).
Proof.
  intros Hd Hy. destruct (year_yday_spec days ltac:(lia)) as (y1 & yd1 & E1 & H1 & ? & ?).
  rewrite Hy in E1. injection E1 as <- <-.
  destruct (year_yday_spec (days + 1) ltac:(lia)) as (y2 & yd2 & -> & H2 & ? & ?).
  pose proof (year_start_succ y). pose proof (year_length_range (y + 1)).
  destruct (Z.ltb_spec (yd + 1) (year_length y)).
  - destruct (year_yday_unique y y2 (yd + 1) yd2) as [-> ->]; [lia|lia|lia|done].
  - destruct (year_yday_unique (y + 1) y2 0 yd2) as [<- <-]; [lia|lia|lia|done].
Qed.

(** *** The day of the month, by evaluation of the 366 days *)

(** The date in the year that begins on March 1 of [y]. *)
Definition month_day (yday : Z) : Z * Z :=
  let mon := (yday + 31) * 10 / 306 in
  let mday := u64 (yday - (367 * mon / 12 - 30) + 1) in
  if 306 <=? yday then (mon - 10, mday) else (mon + 2, mday).

Lemma year_mon_mday_eq days y yd :
  year_yday days = (y, yd) →
  year_mon_mday days =
  ((if 306 <=? yd then y + 1 else y), (month_day yd).1, (month_day yd).2).
Proof. intros H. unfold year_mon_mday, month_day. rewrite H. by destruct (306 <=? yd). Qed.

(** A statement about the days of a year is checked by evaluation. *)
Lemma yday_forall (P : Z → bool) :
  forallb P (seqZ 0 366) = true → ∀ yd, 0 ≤ yd < 366 → P yd = true.
Proof.
  rewrite forallb_forall. intros HP yd Hyd. apply HP, list_elem_of_In, elem_of_seqZ. lia.
Qed.

(** In [lengths lp] February has 29 days when [lp]. *)
Definition month_days (lp : bool) (m : Z) : Z :=
  if m =? 2 then if lp then 29 else 28
  else if (m =? 4) || (m =? 6) || (m =? 9) || (m =? 11) then 30 else 31.

Lemma month_length_eq y m : month_length y m = month_days (leap y) m.
Proof. done. Qed.

(** The formulas within a year: the month and the day are in range, Gauss'
    formula gives the day of the year back, and the next day is the next one
    of the calendar or March 1. *)
Definition month_day_ok (lp : bool) (yd : Z) : bool :=
  let '(m, d) := month_day yd in
  let '(m', d') := month_day (yd + 1) in
  let march := if m <=? 2 then m + 10 else m - 2 in
  (1 <=? m) && (m <=? 12) && (1 <=? d) && (d <=? month_days lp m) &&
  Bool.eqb (306 <=? yd) (m <=? 2) &&
  (367 * march / 12 - 30 + d - 1 =? yd) &&
  (if yd + 1 <? (if lp then 366 else 365) then
     if d <? month_days lp m then
       (m' =? m) && (d' =? d + 1) && Bool.eqb (306 <=? yd) (306 <=? yd + 1)
     else if m =? 12 then (m' =? 1) && (d' =? 1) && (yd =? 305)
     else (m' =? m + 1) && (d' =? 1) && Bool.eqb (306 <=? yd) (306 <=? yd + 1)
   else (m =? 2) && (d =? month_days lp 2)).

Lemma month_day_checked (lp : bool) yd :
  0 ≤ yd < (if lp then 366 else 365) → month_day_ok lp yd = true.
Proof.
  intros Hyd.
  assert (H : (if yd <? (if lp then 366 else 365) then month_day_ok lp yd else true) = true).
  { apply (yday_forall (λ yd, if yd <? (if lp then 366 else 365) then month_day_ok lp yd else true));
      [destruct lp; vm_compute; reflexivity|destruct lp; cbv iota in Hyd; lia]. }
  destruct lp; cbv iota in *; by replace (yd <? _) with true in H by lia.
Qed.

(** Gauss' formula, counted from March 1, 1 BC. *)
Definition gauss (date : Z * Z * Z) : Z :=
  let '(y, m, d) := date in
  let '(y, march) := if m <=? 2 then (y - 1, m + 10) else (y, m - 2) in
  year_start y + 367 * march / 12 - 30 + d - 1.

Definition valid_date (date : Z * Z * Z) : Prop :=
  let '(y, m, d) := date in 1 ≤ m ≤ 12 ∧ 1 ≤ d ≤ month_length y m.

Lemma month_length_march lp y yd m :
  lp = leap (y + 1) → (306 <=? yd) = (m <=? 2) →
  month_length (if 306 <=? yd then y + 1 else y) m = month_days lp m.
Proof.
  intros -> ->. rewrite month_length_eq. unfold month_days.
  destruct (Z.eqb_spec m 2) as [->|]; [done|]. by destruct (m <=? 2).
Qed.

Lemma year_mon_mday_spec days :
  0 ≤ days < 8000000000000000 →
  valid_date (year_mon_mday days) ∧ gauss (year_mon_mday days) = days ∧
  year_mon_mday (days + 1) = next_day (year_mon_mday days).
Proof.
  intros Hd. destruct (year_yday_spec days ltac:(lia)) as (y & yd & E & Hdays & Hyd & Hy).
  pose proof (year_yday_succ days y yd ltac:(lia) E) as E'.
  rewrite (year_mon_mday_eq _ _ _ E). unfold year_length in Hyd, E'.
  set (lp := leap (y + 1)) in *.
  pose proof (month_day_checked lp yd Hyd) as Hc. unfold month_day_ok in Hc.
  assert (∀ y2 yd2, year_yday (days + 1) = (y2, yd2) → year_mon_mday (days + 1) =
    ((if 306 <=? yd2 then y2 + 1 else y2), (month_day yd2).1, (month_day yd2).2)) as Hn
    by (intros; by apply year_mon_mday_eq).
  rewrite E' in Hn. clear E'.
  destruct (month_day yd) as [m d] eqn:Em, (month_day (yd + 1)) as [m' d'] eqn:Em'.
  cbn [fst snd]. bool_to_prop.
  match goal with H : Bool.eqb (306 <=? yd) _ = true |- _ => apply eqb_prop in H as Hm end.
  pose proof (month_length_march lp y yd m eq_refl Hm) as Hl.
  split; [cbn; rewrite Hl; lia|]. split.
  - unfold gauss. rewrite Hm.
    match goal with H : _ - 30 + d - 1 = yd |- _ => revert H end.
    destruct (m <=? 2); [replace (y + 1 - 1) with y by lia|]; intros; lia.
  - cbn [next_day]. rewrite Hl. destruct (yd + 1 <? _) eqn:Elast; rewrite ?Elast in Hn.
    + rewrite (Hn _ _ eq_refl), Em'. cbn [fst snd].
      destruct (d <? month_days lp m); bool_to_prop.
      { match goal with H : Bool.eqb _ _ = true |- _ => apply eqb_prop in H as <- end.
        by subst m' d'. }
      destruct (Z.eqb_spec m 12) as [->|]; bool_to_prop; subst m' d'.
      { replace (306 <=? yd) with false by lia. by replace (306 <=? yd + 1) with true by lia. }
      match goal with H : Bool.eqb _ _ = true |- _ => apply eqb_prop in H as <- end.
      by replace (m <? 12) with true by lia.
    + bool_to_prop. subst m d. rewrite (Hn _ _ eq_refl). rewrite Z.ltb_irrefl.
      rewrite Hm. cbn. done.
Qed.

Lemma calendar_days n : Z.of_nat n ≤ 7000000000000 →
  year_mon_mday (719468 + Z.of_nat n) = calendar n.
Proof.
  induction n as [|n IH]; intros Hn; [by vm_compute|].
  change (calendar (S n)) with (next_day (calendar n)). rewrite <- IH by lia.
  destruct (year_mon_mday_spec (719468 + Z.of_nat n)) as (_ & _ & <-); [lia|]. f_equal. lia.
Qed.

Lemma year_mon_mday_year days :
  0 ≤ days ≤ 700001000000 → 0 ≤ (year_mon_mday days).1.1 ≤ 2147483647.
Proof.
  intros Hd. destruct (year_yday_spec days ltac:(lia)) as (y & yd & E & Hdays & Hyd & Hy).
  rewrite (year_mon_mday_eq _ _ _ E). cbn [fst]. unfold year_start in Hdays.
  destruct (306 <=? yd); zlia.
Qed.

(** What [ngx_gmtime] computes from the number of the day and the second of
    the day. *)
Lemma gmtime_fields n s :
  Z.of_nat n ≤ 700000000000 → 0 ≤ s < 86400 →
  let tm := ngx_gmtime (86400 * Z.of_nat n + s) in
  date_of tm = calendar n ∧
  tm_hour tm = s / 3600 ∧ tm_min tm = s / 60 mod 60 ∧ tm_sec tm = s mod 60 ∧
  tm_wday tm = (4 + Z.of_nat n) mod 7.
Proof.
  intros Hn Hs. cbv zeta. unfold ngx_gmtime. rewrite u64_id by lia.
  replace ((86400 * Z.of_nat n + s) / 86400) with (Z.of_nat n) by zlia.
  replace ((86400 * Z.of_nat n + s) mod 86400) with s by zlia.
  replace (Z.of_nat n - (31 + 28) + 719527) with (719468 + Z.of_nat n) by lia.
  pose proof (year_mon_mday_year (719468 + Z.of_nat n) ltac:(lia)) as Hy.
  destruct (year_mon_mday_spec (719468 + Z.of_nat n)) as (Hv & _ & _); [lia|].
  rewrite calendar_days in * by lia. destruct (calendar n) as [[y m] d]. cbn in Hv, Hy.
  assert (d ≤ 31) by (unfold month_length in Hv; revert Hv; cases; lia).
  unfold date_of. cbn [tm_year tm_mon tm_mday tm_hour tm_min tm_sec tm_wday].
  rewrite !s32_id by (lia || zlia). repeat split; zlia.
Qed.

(** C36: [ngx_gmtime] follows the calendar: the date of the second [s] of the [n]-th
    day after January 1, 1970 is the date reached by going to the next day
    [n] times, the week day advances with it from a Thursday, and the time of
    day is [s].  It holds until the year outgrows an [int]. *)
Theorem gmtime_calendar n s :
  Z.of_nat n ≤ 700000000000 → 0 ≤ s < 86400 →
  let tm := ngx_gmtime (86400 * Z.of_nat n + s) in
  date_of tm = Nat.iter n next_day (1970, 1, 1) ∧
  tm_wday tm = (4 + Z.of_nat n) mod 7 ∧
  3600 * tm_hour tm + 60 * tm_min tm + tm_sec tm = s ∧
  0 ≤ tm_hour tm < 24 ∧ 0 ≤ tm_min tm < 60 ∧ 0 ≤ tm_sec tm < 60.
Proof.
  intros Hn Hs. cbv zeta. destruct (gmtime_fields n s Hn Hs) as (-> & -> & -> & -> & ->). split; [done|]. split; [done|]. zlia.
Qed.

Lemma gmtime_calendar_witness :
  let tm := ngx_gmtime (86400 * Z.of_nat 59 + 3661) in
  date_of tm = Nat.iter 59 next_day (1970, 1, 1) ∧
  tm_wday tm = (4 + Z.of_nat 59) mod 7 ∧
  3600 * tm_hour tm + 60 * tm_min tm + tm_sec tm = 3661 ∧
  0 ≤ tm_hour tm < 24 ∧ 0 ≤ tm_min tm < 60 ∧ 0 ≤ tm_sec tm < 60.
Proof. exact (gmtime_calendar 59 3661 ltac:(lia) ltac:(lia)). Defined.

(** *** The text of a date *)

Lemma loop_literal fuel room c fmt args :
  0 < room → c ≠ "%"%ch →
  Printf.vslprintf_loop (S fuel) room (c :: fmt) args =
  option_map (cons c) (Printf.vslprintf_loop fuel (room - 1) fmt args).
Proof.
  intros Hr Hc. cbn [Printf.vslprintf_loop]. replace (room <=? 0) with false by lia.
  by replace (c =? "%"%ch) with false by lia.
Qed.

Lemma loop_directive fuel room fmt args out fmt' args' :
  0 < room → Printf.directive room fmt args = Some (out, fmt', args') →
  Printf.vslprintf_loop (S fuel) room ("%"%ch :: fmt) args =
  option_map (app out) (Printf.vslprintf_loop fuel (room - Z.of_nat (length out)) fmt' args').
Proof.
  intros Hr Hd. cbn [Printf.vslprintf_loop]. replace (room <=? 0) with false by lia.
  cbn [Z.eqb Pos.eqb]. by rewrite Hd.
Qed.

Lemma copy_cstr_c_str text : ∀ room,
  Z.of_nat (length text) ≤ room → Forall (λ c, c ≠ NUL) text →
  Printf.copy_cstr room (text ++ [NUL]) = Some text.
Proof.
  induction text as [|c text IH]; intros room Hr Ht; [done|].
  inversion_clear Ht as [|?? Hc Ht']. cbn in *.
  replace (c =? 0) with false by lia. replace (room <=? 0) with false by lia.
  by rewrite IH by (done || lia).
Qed.

Lemma directive_s room text fmt args :
  Z.of_nat (length text) ≤ room → Forall (λ c, c ≠ NUL) text →
  Printf.directive room ("s"%ch :: fmt) (c_str text :: args) = Some (text, fmt, args).
Proof.
  intros Hr Ht. unfold Printf.directive.
  change (Printf.read_spec _ _) with
    (Some (Printf.mk_spec " "%ch 0 true 0 false 0 MAX_UINT64, "s"%ch :: fmt, c_str text :: args)).
  cbn -[Printf.copy_cstr app]. by rewrite copy_cstr_c_str.
Qed.

Lemma directive_V room data fmt args :
  Z.of_nat (length data) ≤ room →
  Printf.directive room ("V"%ch :: fmt) (Printf.AStr data :: args) = Some (data, fmt, args).
Proof.
  intros Hr. unfold Printf.directive.
  change (Printf.read_spec _ _) with
    (Some (Printf.mk_spec " "%ch 0 true 0 false 0 MAX_UINT64, "V"%ch :: fmt, Printf.AStr data :: args)).
  cbn -[Printf.cpymem]. unfold Printf.cpymem. rewrite Z.min_r by lia.
  rewrite Z.ltb_irrefl. by rewrite take_ge by lia.
Qed.

Lemma dec_digits_more fuel n acc :
  10 ≤ n → Printf.dec_digits (S fuel) n acc =
  Printf.dec_digits fuel (n / 10) ((n mod 10 + "0"%ch) :: acc).
Proof. intros. cbn [Printf.dec_digits]. by replace (n / 10 =? 0) with false by zlia. Qed.

Lemma dec_digits_last fuel n acc :
  0 ≤ n < 10 → Printf.dec_digits (S fuel) n acc = (n + "0"%ch) :: acc.
Proof.
  intros. cbn [Printf.dec_digits]. replace (n / 10 =? 0) with true by zlia.
  by replace (n mod 10) with n by zlia.
Qed.

Lemma num_digits_small n : 0 ≤ n ≤ NGX_MAX_UINT32_VALUE →
  Printf.num_digits n 0 = Printf.dec_digits 20 n [].
Proof.
  intros. unfold Printf.num_digits. cbn [Z.eqb].
  replace (n <=? _) with true by lia. by rewrite u32_id by lia.
Qed.

Lemma number_dd n : 0 ≤ n < 100 → Printf.number n "0"%ch 0 2 = dd n.
Proof.
  intros. unfold Printf.number, dd. rewrite num_digits_small by lia.
  destruct (decide (n < 10)).
  - rewrite dec_digits_last by lia. cbn.
    replace (n / 10) with 0 by zlia. by replace (n mod 10) with n by zlia.
  - rewrite dec_digits_more by lia. rewrite dec_digits_last by zlia. done.
Qed.

Lemma number_dddd n z w : 1000 ≤ n ≤ 9999 → w ≤ 4 → Printf.number n z 0 w = dddd n.
Proof.
  intros. unfold Printf.number, dddd, dd. rewrite num_digits_small by lia.
  do 3 rewrite dec_digits_more by zlia. rewrite dec_digits_last by zlia.
  rewrite !Z.div_div by lia. cbn [length app].
  replace (Z.to_nat (w - _)) with O by lia. cbn [replicate app].
  replace (n / 100 / 10) with (n / 1000) by zlia.
  replace (n mod 100 / 10) with (n / 10 mod 10) by zlia.
  by replace (n mod 100 mod 10) with (n mod 10) by zlia.
Qed.

(** How the formats print a number: [text] is its text. *)
Lemma directive_number room zero width n text fmt' fmt args :
  Printf.read_spec fmt' (Printf.AInt n :: args) =
    Some (Printf.mk_spec zero width true 0 false 0 MAX_UINT64, "d"%ch :: fmt,
          Printf.AInt n :: args) →
  0 < room → Z.of_nat (length text) ≤ room → 0 ≤ n ≤ 2147483647 →
  Printf.number n zero 0 width = text →
  Printf.directive room fmt' (Printf.AInt n :: args) = Some (text, fmt, args).
Proof.
  intros Hs Hr Hl Hn Ht. unfold Printf.directive. rewrite Hs.
  cbn -[Printf.put_integer s32 u32]. rewrite Printf.put_integer_clip by lia.
  unfold Printf.integer_text. cbn -[Printf.number s32 u64]. rewrite s32_id by lia.
  replace (n <? 0) with false by lia. rewrite u64_id, Ht, take_ge by lia. done.
Qed.

Lemma directive_02d room n fmt args :
  2 ≤ room → 0 ≤ n < 100 →
  Printf.directive room ("0"%ch :: "2"%ch :: "d"%ch :: fmt) (Printf.AInt n :: args) =
  Some (dd n, fmt, args).
Proof.
  intros. apply (directive_number room "0"%ch 2); [reflexivity|lia|cbn; lia|lia|].
  by apply number_dd.
Qed.

Lemma directive_4d room n fmt args :
  4 ≤ room → 1000 ≤ n ≤ 9999 →
  Printf.directive room ("4"%ch :: "d"%ch :: fmt) (Printf.AInt n :: args) =
  Some (dddd n, fmt, args).
Proof.
  intros. apply (directive_number room " "%ch 4); [reflexivity|lia|cbn; lia|lia|].
  by apply number_dddd.
Qed.

Lemma directive_d room n fmt args :
  4 ≤ room → 1000 ≤ n ≤ 9999 →
  Printf.directive room ("d"%ch :: fmt) (Printf.AInt n :: args) = Some (dddd n, fmt, args).
Proof.
  intros. apply (directive_number room " "%ch 0); [reflexivity|lia|cbn; lia|lia|].
  by apply number_dddd.
Qed.

(** The seconds before the year 10000, whose years have four digits. *)
Abbreviation YEAR_10000 := 253402300800.

Lemma year_mon_mday_range days :
  719468 ≤ days < 719468 + 2932897 → 1970 ≤ (year_mon_mday days).1.1 ≤ 9999.
Proof.
  intros Hd. destruct (year_yday_spec days ltac:(lia)) as (y & yd & E & Hdays & Hyd & Hy).
  rewrite (year_mon_mday_eq _ _ _ E). cbn [fst]. unfold year_start in Hdays.
  pose proof (year_length_range y). destruct (Z.leb_spec 306 yd); zlia.
Qed.

(** The fields of a time whose year has four digits. *)
Record tm_ok (t : Z) (tm : ngx_tm_t) : Prop := {
  tm_ok_year : 1970 ≤ tm_year tm ≤ 9999;
  tm_ok_date : valid_date (date_of tm);
  tm_ok_days : gauss (date_of tm) = 719468 + t / 86400;
  tm_ok_wday : 0 ≤ tm_wday tm < 7;
  tm_ok_hour : 0 ≤ tm_hour tm < 24;
  tm_ok_min : 0 ≤ tm_min tm < 60;
  tm_ok_sec : 0 ≤ tm_sec tm < 60;
  tm_ok_time : 3600 * tm_hour tm + 60 * tm_min tm + tm_sec tm = t mod 86400;
}.

Lemma gmtime_ok t : 0 ≤ t < YEAR_10000 → tm_ok t (ngx_gmtime t).
Proof.
  intros Ht. set (n := Z.to_nat (t / 86400)).
  assert (Z.of_nat n = t / 86400) as Hn by (subst n; zlia).
  assert (t = 86400 * Z.of_nat n + t mod 86400) as Heq by (rewrite Hn; zlia).
  destruct (gmtime_fields n (t mod 86400)) as (Hdate & Hh & Hm & Hs & Hw); [zlia..|].
  rewrite <- Heq in Hdate, Hh, Hm, Hs, Hw. clear Heq.
  rewrite <- calendar_days in Hdate by zlia.
  destruct (year_mon_mday_spec (719468 + Z.of_nat n)) as (Hv & Hg & _); [zlia|].
  split; rewrite ?Hh, ?Hm, ?Hs, ?Hw, ?Hdate; [|done|by rewrite <- Hn|zlia..].
  pose proof (year_mon_mday_range (719468 + Z.of_nat n) ltac:(zlia)) as Hy.
  by rewrite <- Hdate in Hy.
Qed.

Lemma valid_date_range y m d : valid_date (y, m, d) → 1 ≤ m ≤ 12 ∧ 1 ≤ d ≤ 31.
Proof. intros [? ?]. unfold month_length in *. cases; lia. Qed.

(** The date as [ngx_http_time] and [ngx_http_cookie_time] write it. *)
Definition rfc1123_text (tm : ngx_tm_t) : list Z :=
  nth (Z.to_nat (tm_wday tm)) week [] ++ bs ", " ++ dd (tm_mday tm) ++ bs " " ++
  nth (Z.to_nat (tm_mon tm - 1)) months [] ++ bs " " ++ dddd (tm_year tm) ++ bs " " ++
  dd (tm_hour tm) ++ bs ":" ++ dd (tm_min tm) ++ bs ":" ++ dd (tm_sec tm) ++ bs " GMT".

Definition cookie_text (tm : ngx_tm_t) : list Z :=
  nth (Z.to_nat (tm_wday tm)) week [] ++ bs ", " ++ dd (tm_mday tm) ++ bs "-" ++
  nth (Z.to_nat (tm_mon tm - 1)) months [] ++ bs "-" ++
  (if 2037 <? tm_year tm then dddd (tm_year tm) else dd (tm_year tm mod 100)) ++ bs " " ++
  dd (tm_hour tm) ++ bs ":" ++ dd (tm_min tm) ++ bs ":" ++ dd (tm_sec tm) ++ bs " GMT".

(** The names of the tables have three letters. *)
Definition name_ok (s : list Z) : Prop := length s = 3%nat ∧ Forall (λ c, c ≠ NUL) s.

Lemma name_ok_nth names n :
  forallb (λ s, (length s =? 3)%nat && forallb (λ c, negb (c =? NUL)) s) names = true →
  0 ≤ n < Z.of_nat (length names) → name_ok (nth (Z.to_nat n) names []).
Proof.
  intros Hf Hn. rewrite forallb_forall in Hf.
  assert (In (nth (Z.to_nat n) names []) names) as Hin by (apply nth_In; lia).
  specialize (Hf _ Hin).
  apply andb_true_iff in Hf as [Hl Hc]. split; [by apply Nat.eqb_eq in Hl|].
  rewrite forallb_forall in Hc. apply list.Forall_forall. intros c Hcin.
  apply list_elem_of_In, Hc in Hcin. bool_to_prop. done.
Qed.

(** One directive of the formats. *)
Lemma loop_s fuel room text fmt args :
  3 ≤ room → name_ok text →
  Printf.vslprintf_loop (S fuel) room ("%"%ch :: "s"%ch :: fmt) (c_str text :: args) =
  option_map (app text) (Printf.vslprintf_loop fuel (room - 3) fmt args).
Proof.
  intros Hr [Hl Hn]. erewrite loop_directive; [|lia|apply directive_s; [lia|done]].
  by rewrite Hl.
Qed.

Lemma loop_02d fuel room n fmt args :
  2 ≤ room → 0 ≤ n < 100 →
  Printf.vslprintf_loop (S fuel) room ("%"%ch :: "0"%ch :: "2"%ch :: "d"%ch :: fmt)
    (Printf.AInt n :: args) =
  option_map (app (dd n)) (Printf.vslprintf_loop fuel (room - 2) fmt args).
Proof. intros. erewrite loop_directive; [|lia|by apply directive_02d]. done. Qed.

Lemma loop_4d fuel room n fmt args :
  4 ≤ room → 1000 ≤ n ≤ 9999 →
  Printf.vslprintf_loop (S fuel) room ("%"%ch :: "4"%ch :: "d"%ch :: fmt)
    (Printf.AInt n :: args) =
  option_map (app (dddd n)) (Printf.vslprintf_loop fuel (room - 4) fmt args).
Proof. intros. erewrite loop_directive; [|lia|by apply directive_4d]. done. Qed.

Lemma loop_d fuel room n fmt args :
  4 ≤ room → 1000 ≤ n ≤ 9999 →
  Printf.vslprintf_loop (S fuel) room ("%"%ch :: "d"%ch :: fmt) (Printf.AInt n :: args) =
  option_map (app (dddd n)) (Printf.vslprintf_loop fuel (room - 4) fmt args).
Proof. intros. erewrite loop_directive; [|lia|by apply directive_d]. done. Qed.

Ltac print_date :=
  repeat first
    [ rewrite loop_s by (assumption || lia) | rewrite loop_02d by (lia || zlia)
    | rewrite loop_4d by lia | rewrite loop_d by lia
    | rewrite loop_literal by (lia || done) ];
  cbn [Printf.vslprintf_loop option_map].

Ltac date_text t :=
  let Hok := fresh in
  pose proof (gmtime_ok t ltac:(assumption)) as Hok;
  generalize dependent (ngx_gmtime t); intros tm Hok;
  destruct Hok as [Hy Hv _ Hw Hh Hm Hs _];
  apply valid_date_range in Hv as [Hmon Hday];
  pose proof (name_ok_nth week (tm_wday tm) eq_refl Hw);
  pose proof (name_ok_nth months (tm_mon tm - 1) eq_refl ltac:(cbn; lia));
  generalize dependent (nth (Z.to_nat (tm_wday tm)) week []); intros w ?;
  generalize dependent (nth (Z.to_nat (tm_mon tm - 1)) months []); intros mo ?;
  cbn [bs length].

Lemma http_time_text buf t :
  0 ≤ buf ≤ MAX_UINT64 - 64 → 0 ≤ t < YEAR_10000 →
  ngx_http_time buf t = Some (rfc1123_text (ngx_gmtime t)).
Proof.
  intros Hb Ht. unfold ngx_http_time, rfc1123_text, Printf.ngx_sprintf, Printf.ngx_vslprintf.
  date_text t. by print_date.
Qed.

Lemma http_cookie_time_text buf t :
  0 ≤ buf ≤ MAX_UINT64 - 64 → 0 ≤ t < YEAR_10000 →
  ngx_http_cookie_time buf t = Some (cookie_text (ngx_gmtime t)).
Proof.
  intros Hb Ht.
  unfold ngx_http_cookie_time, cookie_text, Printf.ngx_sprintf, Printf.ngx_vslprintf.
  date_text t. rewrite Z.rem_mod_nonneg by lia.
  destruct (2037 <? tm_year tm); cbn [bs length]; by print_date.
Qed.

End Times.
