(* ===== verification/HttpDate.v ===== *)
(** * Dates in HTTP headers: [ngx_http_parse_time]

    src/http/ngx_http_parse_time.c.  The bytes [value, value + len) are a list;
    every read is checked against it, so that a read past the end is [Oob]
    and not an unnoticed default. *)

From S2P Require Import Prelude Scan Number Printf Times.

Module HttpDate.

(** A result, [NGX_ERROR], or a read outside the value. *)
Inductive result (A : Type) : Type :=
  | Ok (x : A)
  | Err
  | Oob.
Arguments Ok {A} x.
Arguments Err {A}.
Arguments Oob {A}.

#[export] Instance result_bind : MBind result := λ A B f r,
  match r with Ok x => f x | Err => Err | Oob => Oob end.

(** [if (condition) return NGX_ERROR] *)
Definition require (b : bool) : result unit := if b then Ok tt else Err.

Inductive format : Set := no | rfc822 | rfc850 | isoc.

(** *** Reads: [*p] and the digits *)

Definition rd (v : list Z) (p : Z) : result Z :=
  match at_ v p with Some c => Ok c | None => Oob end.

Definition digit (v : list Z) (p : Z) : result Z :=
  c ← rd v p;
  if is_digit c then Ok (c - "0"%ch) else Err.

Definition digits2 (v : list Z) (p : Z) : result Z :=
  a ← digit v p;
  b ← digit v (p + 1);
  Ok (a * 10 + b).

Definition digits4 (v : list Z) (p : Z) : result Z :=
  a ← digit v p;
  b ← digit v (p + 1);
  c ← digit v (p + 2);
  d ← digit v (p + 3);
  Ok (a * 1000 + b * 100 + c * 10 + d).

(** *** The two loops at the start *)

(** [for (p = value; p < end; p++)]: to the first comma, or the first space,
    which means the format of [asctime]. *)
Fixpoint find_end_of_day (p : Z) (rest : list Z) : Z * format :=
  match rest with
  | [] => (p, no)
  | c :: rest' =>
      if c =? ","%ch then (p, no)
      else if c =? " "%ch then (p, isoc)
      else find_end_of_day (p + 1) rest'
  end.

(** [for (p++; p < end; p++) if ( *p != ' ') break]. *)
Fixpoint skip_spaces (p : Z) (rest : list Z) : Z :=
  match rest with
  | c :: rest' => if c =? " "%ch then skip_spaces (p + 1) rest' else p
  | [] => p
  end.

(** *** The month *)

Definition parse_month (v : list Z) (p : Z) : result Z :=
  c ← rd v p;
  if c =? "J"%ch then
    c1 ← rd v (p + 1);
    if c1 =? "a"%ch then Ok 0
    else c2 ← rd v (p + 2); Ok (if c2 =? "n"%ch then 5 else 6)
  else if c =? "F"%ch then Ok 1
  else if c =? "M"%ch then c2 ← rd v (p + 2); Ok (if c2 =? "r"%ch then 2 else 4)
  else if c =? "A"%ch then c1 ← rd v (p + 1); Ok (if c1 =? "p"%ch then 3 else 7)
  else if c =? "S"%ch then Ok 8
  else if c =? "O"%ch then Ok 9
  else if c =? "N"%ch then Ok 10
  else if c =? "D"%ch then Ok 11
  else Err.

(** *** The date: [day], [month], [year] and the position behind them.

    In the format of [asctime] the year follows the time; it is not set yet. *)

Definition parse_day (v : list Z) (p : Z) (fmt : format) : result (Z * format * Z) :=
  match fmt with
  | isoc => Ok (32, isoc, p)
  | _ =>
      day ← digits2 v p;
      let p := p + 2 in
      c ← rd v p;
      if c =? " "%ch then
        _ ← require (18 <=? Z.of_nat (length v) - p);
        Ok (day, rfc822, p + 1)
      else if c =? "-"%ch then Ok (day, rfc850, p + 1)
      else Err
  end.

Definition parse_separator (v : list Z) (p : Z) (fmt : format) : result unit :=
  match fmt with
  | rfc822 => c ← rd v p; require (c =? " "%ch)
  | rfc850 => c ← rd v p; require (c =? "-"%ch)
  | _ => Ok tt
  end.

Definition parse_year (v : list Z) (p : Z) (fmt : format) : result (Z * Z) :=
  match fmt with
  | rfc822 => year ← digits4 v p; Ok (year, p + 4)
  | rfc850 =>
      year ← digits2 v p;
      Ok (year + (if year <? 70 then 2000 else 1900), p + 2)
  | _ => Ok (2038, p)
  end.

(** The day of the month in the format of [asctime]: one digit after a space,
    or two. *)
Definition parse_isoc_day (v : list Z) (p : Z) (fmt : format) (day : Z) : result (Z * Z) :=
  match fmt with
  | isoc =>
      c ← rd v p;
      let p := if c =? " "%ch then p + 1 else p in
      day ← digit v p;
      let p := p + 1 in
      c ← rd v p;
      '(day, p) ←
        if negb (c =? " "%ch) then d ← digit v p; Ok (day * 10 + d, p + 1)
        else Ok (day, p);
      _ ← require (14 <=? Z.of_nat (length v) - p);
      Ok (day, p)
  | _ => Ok (day, p)
  end.

(** *** The time, and the year behind it in the format of [asctime] *)

Definition expect (v : list Z) (p : Z) (ch : Z) : result Z :=
  c ← rd v p;
  _ ← require (c =? ch); Ok (p + 1).

Definition parse_hms (v : list Z) (p : Z) : result (Z * Z * Z * Z) :=
  p ← expect v p " "%ch;
  hour ← digits2 v p;
  p ← expect v (p + 2) ":"%ch;
  min ← digits2 v p;
  p ← expect v (p + 2) ":"%ch;
  sec ← digits2 v p;
  Ok (hour, min, sec, p).

Definition parse_isoc_year (v : list Z) (p : Z) (fmt : format) (year : Z) : result Z :=
  match fmt with
  | isoc => p ← expect v (p + 2) " "%ch; digits4 v p
  | _ => Ok year
  end.

(** *** Validation and Gauss' formula *)

Definition mday : list Z := [31; 28; 31; 30; 31; 30; 31; 31; 30; 31; 30; 31].

Definition check_date (day month year hour min sec : Z) : result unit :=
  _ ← require (negb ((23 <? hour) || (59 <? min) || (59 <? sec)));
  if (day =? 29) && (month =? 1) then
    require (negb (negb (Z.land year 3 =? 0) ||
                   ((year mod 100 =? 0) && negb (year mod 400 =? 0))))
  else require (negb (nth (Z.to_nat month) mday 0 <? day)).

(** The arithmetic is unsigned: the year before year 0 wraps around. *)
Definition date_seconds (day month year hour min sec : Z) : Z :=
  let month := month - 1 in
  let '(month, year) := if month <=? 0 then (month + 12, u64 (year - 1)) else (month, year) in
  let days := u64 (365 * year + year / 4 - year / 100 + year / 400
                   + 367 * month / 12 - 30 + day - 1 - 719527 + 31 + 28) in
  s64 (u64 (days * 86400 + hour * 3600 + min * 60 + sec)).

(** *** The function *)

Definition ngx_http_parse_time (v : list Z) : result Z :=
  let '(p, fmt) := find_end_of_day 0 v in
  let p := p + 1 in
  let p := skip_spaces p (drop (Z.to_nat p) v) in
  _ ← require (18 <=? Z.of_nat (length v) - p);
  '(day, fmt, p) ← parse_day v p fmt;
  month ← parse_month v p;
  let p := p + 3 in
  _ ← parse_separator v p fmt;
  let p := p + 1 in
  '(year, p) ← parse_year v p fmt;
  '(day, p) ← parse_isoc_day v p fmt day;
  '(hour, min, sec, p) ← parse_hms v p;
  year ← parse_isoc_year v p fmt year;
  _ ← check_date day month year hour min sec;
  Ok (date_seconds day month year hour min sec).

(** ** Theorems *)

(** *** No read past the end *)

Definition safe {A} (r : result A) : Prop := r ≠ Oob.

Lemma safe_bind {A B} (r : result A) (f : A → result B) :
  safe r → (∀ x, r = Ok x → safe (f x)) → safe (r ≫= f).
Proof. intros Hr Hf. destruct r; cbn; [by apply Hf|done|done]. Qed.

Lemma safe_require b : safe (require b).
Proof. by destruct b. Qed.

Lemma require_ok b u : require b = Ok u → b = true.
Proof. by destruct b. Qed.

Section Safety.
Context (v : list Z).
Abbreviation len := (Z.of_nat (length v)).

Lemma safe_rd p : 0 ≤ p < len → safe (rd v p).
Proof. intros Hp. unfold rd. destruct (Scan.at_lt_inv v p Hp) as [c ->]. done. Qed.

Lemma safe_digit p : 0 ≤ p < len → safe (digit v p).
Proof.
  intros Hp. apply safe_bind; [by apply safe_rd|]. intros c _. by destruct (is_digit c).
Qed.

Lemma safe_digits2 p : 0 ≤ p → p + 2 ≤ len → safe (digits2 v p).
Proof. intros. repeat (apply safe_bind; [apply safe_digit; lia|intros ? _]). done. Qed.

Lemma safe_digits4 p : 0 ≤ p → p + 4 ≤ len → safe (digits4 v p).
Proof. intros. repeat (apply safe_bind; [apply safe_digit; lia|intros ? _]). done. Qed.

Lemma safe_expect p c : 0 ≤ p < len → safe (expect v p c).
Proof.
  intros. apply safe_bind; [by apply safe_rd|]. intros c' _.
  apply safe_bind; [apply safe_require|done].
Qed.

Lemma expect_ok p c q : expect v p c = Ok q → q = p + 1.
Proof.
  unfold expect. destruct (rd v p); [|done..]. cbn. destruct (require _); [|done..].
  cbn. congruence.
Qed.

Lemma safe_month p : 0 ≤ p → p + 3 ≤ len → safe (parse_month v p).
Proof.
  intros. apply safe_bind; [apply safe_rd; lia|]. intros c _.
  destruct (c =? "J"%ch).
  { apply safe_bind; [apply safe_rd; lia|]. intros c1 _. destruct (_ =? _); [done|].
    apply safe_bind; [apply safe_rd; lia|done]. }
  repeat case_match; try done; apply safe_bind; (apply safe_rd; lia) || done.
Qed.

(** How far each part is from the end of the value. *)
Definition room_after_day (fmt : format) : Z :=
  match fmt with rfc822 => 17 | rfc850 => 15 | _ => 18 end.

Lemma parse_day_ok p fmt day fmt' p' :
  0 ≤ p → 18 ≤ len - p → parse_day v p fmt = Ok (day, fmt', p') →
  0 ≤ p' ∧ room_after_day fmt' ≤ len - p' ∧ fmt' ≠ no.
Proof.
  intros Hp Hr. unfold parse_day.
  destruct fmt; [| | |intros [= <- <- <-]; cbn; split; [lia|split; [lia|done]]];
  (destruct (digits2 v p) as [d| |]; [|done..]; cbn;
   destruct (rd v (p + 2)) as [c| |]; [|done..]; cbn;
   destruct (c =? " "%ch);
   [destruct (require (18 <=? len - (p + 2))) as [u| |] eqn:Hq; [|done..]; cbn;
    apply require_ok in Hq; intros [= <- <- <-]; cbn; split; [lia|split; [lia|done]]
   |destruct (c =? "-"%ch); [|done]; intros [= <- <- <-]; cbn; split; [lia|split; [lia|done]]]).
Qed.

Lemma safe_parse_day p fmt : 0 ≤ p → 18 ≤ len - p → safe (parse_day v p fmt).
Proof.
  intros. destruct fmt; [| | |done];
  (apply safe_bind; [apply safe_digits2; lia|]; intros d _;
   apply safe_bind; [apply safe_rd; lia|]; intros c _;
   destruct (c =? " "%ch); [apply safe_bind; [apply safe_require|done]|by destruct (c =? "-"%ch)]).
Qed.

Lemma safe_parse_separator p fmt : 0 ≤ p < len → safe (parse_separator v p fmt).
Proof.
  intros. destruct fmt; try done;
    (apply safe_bind; [by apply safe_rd|]; intros c _; apply safe_require).
Qed.

Definition room_after_year (fmt : format) : Z := match fmt with isoc => 14 | _ => 9 end.

Lemma parse_year_ok p fmt year p' :
  fmt ≠ no → 0 ≤ p → room_after_day fmt - 4 ≤ len - p → parse_year v p fmt = Ok (year, p') →
  0 ≤ p' ∧ room_after_year fmt ≤ len - p'.
Proof.
  intros Hno Hp Hr. destruct fmt; cbn in *; [done| | |intros [= <- <-]; lia].
  - destruct (digits4 v p); [|done..]. cbn. intros [= <- <-]. lia.
  - destruct (digits2 v p); [|done..]. cbn. intros [= <- <-]. lia.
Qed.

Lemma safe_parse_year p fmt : fmt ≠ no → 0 ≤ p → room_after_day fmt - 4 ≤ len - p →
  safe (parse_year v p fmt).
Proof.
  intros. destruct fmt; cbn in *; try done;
    (apply safe_bind; [apply safe_digits4 || apply safe_digits2; lia|done]).
Qed.

Lemma parse_isoc_day_ok p fmt day day' p' :
  fmt ≠ no → 0 ≤ p → room_after_year fmt ≤ len - p → parse_isoc_day v p fmt day = Ok (day', p') →
  0 ≤ p' ∧ room_after_year fmt ≤ len - p'.
Proof.
  intros Hno Hp Hr. destruct fmt; cbn in *; [done|by intros [= <- <-]..|].
  destruct (rd v p) as [c| |]; [|done..]. cbn. set (q := if c =? " "%ch then p + 1 else p).
  assert (p ≤ q) by (subst q; case_match; lia).
  destruct (digit v q) as [d| |]; [|done..]. cbn.
  destruct (rd v (q + 1)) as [c'| |]; [|done..]. cbn.
  destruct (negb (c' =? " "%ch)); cbn.
  - destruct (digit v (q + 1)) as [d'| |]; [|done..]. cbn.
    destruct (require _) eqn:Hq; [|done..]. apply require_ok in Hq. cbn. intros [= <- <-]. lia.
  - destruct (require _) eqn:Hq; [|done..]. apply require_ok in Hq. cbn. intros [= <- <-]. lia.
Qed.

Lemma safe_parse_isoc_day p fmt day :
  fmt ≠ no → 0 ≤ p → room_after_year fmt ≤ len - p → safe (parse_isoc_day v p fmt day).
Proof.
  intros Hno Hp Hr. destruct fmt; try done. cbn in Hr.
  apply safe_bind; [apply safe_rd; lia|]. intros c _.
  set (q := if c =? " "%ch then p + 1 else p).
  assert (p ≤ q ≤ p + 1) by (subst q; case_match; lia).
  apply safe_bind; [apply safe_digit; lia|]. intros d _.
  apply safe_bind; [apply safe_rd; lia|]. intros c' _.
  apply safe_bind.
  { destruct (negb _); [|done]. apply safe_bind; [apply safe_digit; lia|done]. }
  intros [day' p'] _. apply safe_bind; [apply safe_require|done].
Qed.

Lemma parse_hms_ok p h m s p' : parse_hms v p = Ok (h, m, s, p') → p' = p + 7.
Proof.
  unfold parse_hms.
  destruct (expect v p _) as [q| |] eqn:E1; [|done..]. apply expect_ok in E1. cbn.
  destruct (digits2 v q) as [h'| |]; [|done..]. cbn.
  destruct (expect v (q + 2) _) as [q2| |] eqn:E2; [|done..]. apply expect_ok in E2. cbn.
  destruct (digits2 v q2) as [m'| |]; [|done..]. cbn.
  destruct (expect v (q2 + 2) _) as [q3| |] eqn:E3; [|done..]. apply expect_ok in E3. cbn.
  destruct (digits2 v q3) as [s'| |]; [|done..]. cbn. intros [= _ _ _ <-]. lia.
Qed.

Lemma safe_parse_hms p : 0 ≤ p → 9 ≤ len - p → safe (parse_hms v p).
Proof.
  intros. apply safe_bind; [apply safe_expect; lia|]. intros q E1%expect_ok.
  apply safe_bind; [apply safe_digits2; lia|]. intros h _.
  apply safe_bind; [apply safe_expect; lia|]. intros q2 E2%expect_ok.
  apply safe_bind; [apply safe_digits2; lia|]. intros m _.
  apply safe_bind; [apply safe_expect; lia|]. intros q3 E3%expect_ok.
  apply safe_bind; [apply safe_digits2; lia|done].
Qed.

Lemma find_end_of_day_pos rest : ∀ p, p ≤ (find_end_of_day p rest).1.
Proof.
  induction rest as [|c rest IH]; intros p; cbn; [lia|].
  destruct (c =? ","%ch); [cbn; lia|]. destruct (c =? " "%ch); [cbn; lia|].
  specialize (IH (p + 1)). lia.
Qed.

Lemma skip_spaces_pos rest : ∀ p, p ≤ skip_spaces p rest.
Proof.
  induction rest as [|c rest IH]; intros p; cbn; [lia|].
  destruct (c =? " "%ch); [|lia]. specialize (IH (p + 1)). lia.
Qed.

(** [ngx_http_parse_time] reads nothing but the bytes of the value, whatever
    they are. *)
Theorem parse_time_no_overread : ngx_http_parse_time v ≠ Oob.
Proof.
  change (safe (ngx_http_parse_time v)). unfold ngx_http_parse_time.
  pose proof (find_end_of_day_pos v 0) as H0. destruct (find_end_of_day 0 v) as [p0 fmt0].
  cbn in H0. set (p := skip_spaces _ _).
  assert (0 ≤ p) by (subst p; pose proof (skip_spaces_pos (drop (Z.to_nat (p0 + 1)) v) (p0 + 1)); lia).
  apply safe_bind; [apply safe_require|]. intros ? Hr%require_ok. bool_to_prop.
  apply safe_bind; [by apply safe_parse_day|]. intros [[day fmt] p1] E.
  apply parse_day_ok in E as (Hp1 & Hr1 & Hno); [|done..].
  assert (15 ≤ room_after_day fmt) by (destruct fmt; cbn; lia).
  apply safe_bind; [apply safe_month; lia|]. intros month _.
  apply safe_bind; [apply safe_parse_separator; lia|]. intros _ _.
  apply safe_bind; [apply safe_parse_year; [done|lia|lia]|]. intros [year p2] E.
  apply parse_year_ok in E as [Hp2 Hr2]; [|done|lia|lia].
  apply safe_bind; [by apply safe_parse_isoc_day|]. intros [day' p3] E.
  apply parse_isoc_day_ok in E as [Hp3 Hr3]; [|done..].
  assert (9 ≤ room_after_year fmt) by (destruct fmt; cbn; lia).
  apply safe_bind; [apply safe_parse_hms; lia|]. intros [[[h m] s] p4] E%parse_hms_ok.
  apply safe_bind.
  { destruct fmt; try done. cbn in *. apply safe_bind; [apply safe_expect; lia|].
    intros q ->%expect_ok. apply safe_digits4; lia. }
  intros year' _. apply safe_bind; [|done].
  unfold check_date. apply safe_bind; [apply safe_require|]. intros _ _.
  case_match; apply safe_require.
Qed.
End Safety.

(** *** Dates that are printed are read back *)

Import Times.

(** The format of [asctime], which has no printer in the sources: the day is
    padded with a space and the year comes last. *)
Definition asctime_text (tm : ngx_tm_t) : list Z :=
  nth (Z.to_nat (tm_wday tm)) week [] ++ bs " " ++
  nth (Z.to_nat (tm_mon tm - 1)) months [] ++ bs " " ++
  (if tm_mday tm <? 10 then [" "%ch; tm_mday tm + "0"%ch] else dd (tm_mday tm)) ++ bs " " ++
  dd (tm_hour tm) ++ bs ":" ++ dd (tm_min tm) ++ bs ":" ++ dd (tm_sec tm) ++ bs " " ++
  dddd (tm_year tm).

Lemma digit_eq v p d : 0 ≤ d < 10 → at_ v p = Some (d + "0"%ch) → digit v p = Ok d.
Proof.
  intros Hd Hat. unfold digit, rd. rewrite Hat. cbn.
  assert (is_digit (d + 48)) as Hi by (apply is_digit_range; lia).
  rewrite (proj1 (Is_true_true _) Hi). f_equal. lia.
Qed.

Lemma digits2_dd v p n :
  0 ≤ n < 100 → at_ v p = Some (n / 10 + "0"%ch) → at_ v (p + 1) = Some (n mod 10 + "0"%ch) →
  digits2 v p = Ok n.
Proof.
  intros Hn H1 H2. unfold digits2.
  rewrite (digit_eq v p (n / 10)), (digit_eq v (p + 1) (n mod 10)) by (done || zlia).
  cbn. f_equal. zlia.
Qed.

Lemma digits4_dddd v p n :
  0 ≤ n ≤ 9999 →
  at_ v p = Some (n / 100 / 10 + "0"%ch) → at_ v (p + 1) = Some ((n / 100) mod 10 + "0"%ch) →
  at_ v (p + 2) = Some (n mod 100 / 10 + "0"%ch) →
  at_ v (p + 3) = Some (n mod 100 mod 10 + "0"%ch) →
  digits4 v p = Ok n.
Proof.
  intros Hn H1 H2 H3 H4. unfold digits4.
  rewrite (digit_eq v p (n / 100 / 10)), (digit_eq v (p + 1) ((n / 100) mod 10)),
    (digit_eq v (p + 2) (n mod 100 / 10)), (digit_eq v (p + 3) (n mod 100 mod 10))
    by (done || zlia).
  cbn. f_equal. zlia.
Qed.

Lemma rd_eq v p c : at_ v p = Some c → rd v p = Ok c.
Proof. intros H. unfold rd. by rewrite H. Qed.

Lemma expect_eq v p c : at_ v p = Some c → expect v p c = Ok (p + 1).
Proof. intros H. unfold expect. rewrite (rd_eq _ _ _ H). cbn. by rewrite Z.eqb_refl. Qed.

(** The letters of a name of the tables. *)
Lemma name_letters names n :
  name_ok (nth n names []) → ∃ a b c, nth n names [] = [a; b; c].
Proof.
  intros [Hl _]. destruct (nth n names []) as [|a [|b [|c [|]]]]; try done. by exists a, b, c.
Qed.

Lemma week_letters n a b c :
  0 ≤ n < 7 → nth (Z.to_nat n) week [] = [a; b; c] →
  Forall (λ x, (x =? ","%ch) = false ∧ (x =? " "%ch) = false) [a; b; c].
Proof.
  intros Hn. assert (n = 0 ∨ n = 1 ∨ n = 2 ∨ n = 3 ∨ n = 4 ∨ n = 5 ∨ n = 6) as H by lia.
  repeat destruct H as [->|H]; subst; intros [= <- <- <-]; repeat constructor.
Qed.

Lemma parse_month_eq v p m a b c :
  1 ≤ m ≤ 12 → nth (Z.to_nat (m - 1)) months [] = [a; b; c] →
  at_ v p = Some a → at_ v (p + 1) = Some b → at_ v (p + 2) = Some c →
  parse_month v p = Ok (m - 1).
Proof.
  intros Hm Hn Ha Hb Hc. unfold parse_month, rd. rewrite Ha, Hb, Hc.
  assert (m = 1 ∨ m = 2 ∨ m = 3 ∨ m = 4 ∨ m = 5 ∨ m = 6 ∨ m = 7 ∨ m = 8 ∨ m = 9 ∨ m = 10 ∨
    m = 11 ∨ m = 12) as H by lia.
  repeat destruct H as [->|H]; subst; injection Hn as <- <- <-; reflexivity.
Qed.

(** The table of month lengths and its leap-day rule are the calendar's. *)
Lemma mday_table m : 1 ≤ m ≤ 12 → nth (Z.to_nat (m - 1)) mday 0 = month_days false m.
Proof.
  intros Hm.
  assert (m = 1 ∨ m = 2 ∨ m = 3 ∨ m = 4 ∨ m = 5 ∨ m = 6 ∨ m = 7 ∨ m = 8 ∨ m = 9 ∨ m = 10 ∨
    m = 11 ∨ m = 12) as H by lia.
  by repeat destruct H as [->|H]; subst.
Qed.

Lemma leap_test y :
  negb (negb (y mod 4 =? 0) || ((y mod 100 =? 0) && negb (y mod 400 =? 0))) = leap y.
Proof. unfold leap. by destruct (_ mod 4 =? 0), (_ mod 100 =? 0), (_ mod 400 =? 0). Qed.

Lemma check_date_spec y m d h mi s :
  0 ≤ y → 1 ≤ m ≤ 12 → 0 ≤ d → 0 ≤ h → 0 ≤ mi → 0 ≤ s →
  check_date d (m - 1) y h mi s =
  if (h <? 24) && (mi <? 60) && (s <? 60) && (d <=? month_length y m) then Ok tt else Err.
Proof.
  intros Hy Hm Hd Hh Hmi Hs. unfold check_date. rewrite mday_table by done.
  change 3 with (Z.ones 2). rewrite Z.land_ones by lia. change (2 ^ 2) with 4.
  rewrite leap_test, month_length_eq.
  destruct (Z.ltb_spec h 24), (Z.ltb_spec mi 60), (Z.ltb_spec s 60);
    try (replace ((23 <? h) || (59 <? mi) || (59 <? s)) with true by lia; done).
  replace ((23 <? h) || (59 <? mi) || (59 <? s)) with false by lia.
  cbn [negb require mbind result_bind andb]. unfold require, month_days.
  destruct (Z.eqb_spec m 2) as [->|].
  - destruct (Z.eqb_spec d 29) as [->|]; [by destruct (leap y)|].
    cbn [andb Z.eqb Pos.eqb]. destruct (Z.leb_spec d 28).
    + replace (28 <? d) with false by lia. by replace (_ <=? _) with true by (destruct (leap y); lia).
    + replace (28 <? d) with true by lia. by replace (_ <=? _) with false by (destruct (leap y); lia).
  - replace (m - 1 =? 1) with false by lia. rewrite andb_false_r.
    match goal with |- context [if ?b then 30 else 31] => set (k := if b then 30 else 31) end.
    destruct (Z.leb_spec d k).
    + by replace (k <? d) with false by lia.
    + by replace (k <? d) with true by lia.
Qed.

Lemma date_seconds_eq t tm :
  0 ≤ t < YEAR_10000 → tm_ok t tm →
  date_seconds (tm_mday tm) (tm_mon tm - 1) (tm_year tm) (tm_hour tm) (tm_min tm) (tm_sec tm) = t.
Proof.
  intros Ht [Hy Hv Hg _ Hh Hm Hs Ht']. unfold date_of in *. destruct Hv as [Hmon _].
  unfold date_seconds. unfold gauss, year_start in Hg.
  set (m := tm_mon tm) in *. set (y := tm_year tm) in *.
  destruct (m <=? 2) eqn:E; bool_to_prop.
  - replace (m - 1 - 1 <=? 0) with true by lia. rewrite (u64_id (y - 1)) by lia.
    replace (m - 1 - 1 + 12) with (m + 10) by lia.
    match goal with |- context [u64 (?a * 86400 + _ + _ + _)] => assert (a = t / 86400) as -> end.
    { rewrite u64_id; [lia|]. zlia. }
    rewrite u64_id, s64_id by zlia. zlia.
  - replace (m - 1 - 1 <=? 0) with false by lia.
    replace (m - 1 - 1) with (m - 2) by lia.
    match goal with |- context [u64 (?a * 86400 + _ + _ + _)] => assert (a = t / 86400) as -> end.
    { rewrite u64_id; [lia|]. zlia. }
    rewrite u64_id, s64_id by zlia. zlia.
Qed.

(** The fields fit their digits. *)
Record fields_ok (tm : ngx_tm_t) : Prop := {
  fo_wday : 0 ≤ tm_wday tm < 7;
  fo_mon : 1 ≤ tm_mon tm ≤ 12;
  fo_mday : 0 ≤ tm_mday tm < 100;
  fo_year : 0 ≤ tm_year tm ≤ 9999;
  fo_hour : 0 ≤ tm_hour tm < 100;
  fo_min : 0 ≤ tm_min tm < 100;
  fo_sec : 0 ≤ tm_sec tm < 100;
}.

(** What the parser does once it has read the fields. *)
Definition finish (y m d h mi s : Z) : result Z :=
  _ ← check_date d (m - 1) y h mi s; Ok (date_seconds d (m - 1) y h mi s).

(** Bring the text of a date in the form of its bytes. *)
Ltac spell_date tm Hf :=
  destruct Hf as [Hw Hm Hd Hy Hh Hmi Hs];
  destruct (name_letters week (Z.to_nat (tm_wday tm))) as (w0 & w1 & w2 & Ew);
    [exact (name_ok_nth week (tm_wday tm) eq_refl Hw)|];
  destruct (name_letters months (Z.to_nat (tm_mon tm - 1))) as (m0 & m1 & m2 & Em);
    [exact (name_ok_nth months (tm_mon tm - 1) eq_refl ltac:(cbn; lia))|];
  pose proof (week_letters _ _ _ _ Hw Ew) as Hl; 
  rewrite Ew, Em; unfold dddd, dd; cbn [bs app];
  match goal with |- ngx_http_parse_time ?t = _ => set (v := t) end.


Lemma parse_hms_at v p h mi s :
  0 ≤ h < 100 → 0 ≤ mi < 100 → 0 ≤ s < 100 →
  at_ v p = Some " "%ch →
  at_ v (p + 1) = Some (h / 10 + "0"%ch) → at_ v (p + 2) = Some (h mod 10 + "0"%ch) →
  at_ v (p + 3) = Some ":"%ch →
  at_ v (p + 4) = Some (mi / 10 + "0"%ch) → at_ v (p + 5) = Some (mi mod 10 + "0"%ch) →
  at_ v (p + 6) = Some ":"%ch →
  at_ v (p + 7) = Some (s / 10 + "0"%ch) → at_ v (p + 8) = Some (s mod 10 + "0"%ch) →
  parse_hms v p = Ok (h, mi, s, p + 7).
Proof.
  intros Hh Hm Hs H0 H1 H2 H3 H4 H5 H6 H7 H8. unfold parse_hms.
  rewrite (expect_eq v p " "%ch) by done. cbn [mbind result_bind].
  rewrite (digits2_dd v (p + 1) h); [|done|done|by replace (p + 1 + 1) with (p + 2) by lia].
  cbn [mbind result_bind]. replace (p + 1 + 2) with (p + 3) by lia.
  rewrite (expect_eq v (p + 3) ":"%ch) by done. cbn [mbind result_bind].
  replace (p + 3 + 1) with (p + 4) by lia.
  rewrite (digits2_dd v (p + 4) mi); [|done|done|by replace (p + 4 + 1) with (p + 5) by lia].
  cbn [mbind result_bind]. replace (p + 4 + 2) with (p + 6) by lia.
  rewrite (expect_eq v (p + 6) ":"%ch) by done. cbn [mbind result_bind].
  replace (p + 6 + 1) with (p + 7) by lia.
  rewrite (digits2_dd v (p + 7) s); [|done|done|by replace (p + 7 + 1) with (p + 8) by lia].
  done.
Qed.

(** The first two loops: a name of three letters, a delimiter, a space or the
    month. *)
Lemma start_comma v w0 w1 w2 c rest :
  Forall (λ x, (x =? ","%ch) = false ∧ (x =? " "%ch) = false) [w0; w1; w2] →
  v = w0 :: w1 :: w2 :: ","%ch :: " "%ch :: c :: rest → c ≠ " "%ch →
  find_end_of_day 0 v = (3, no) ∧ skip_spaces (3 + 1) (drop (Z.to_nat (3 + 1)) v) = 5.
Proof.
  intros Hw -> Hc. inversion_clear Hw as [|?? [H0 H0'] Hw1].
  inversion_clear Hw1 as [|?? [H1 H1'] Hw2]. inversion_clear Hw2 as [|?? [H2 H2'] _].
  split.
  - cbn [find_end_of_day]. by rewrite H0, H0', H1, H1', H2, H2'.
  - change (Z.to_nat (3 + 1)) with 4%nat. cbn [drop skip_spaces Z.add Pos.add Pos.succ].
    change (32 =? 32) with true. cbv iota. by replace (c =? 32) with false by lia.
Qed.

Lemma start_space v w0 w1 w2 c rest :
  Forall (λ x, (x =? ","%ch) = false ∧ (x =? " "%ch) = false) [w0; w1; w2] →
  v = w0 :: w1 :: w2 :: " "%ch :: c :: rest → c ≠ " "%ch →
  find_end_of_day 0 v = (3, isoc) ∧ skip_spaces (3 + 1) (drop (Z.to_nat (3 + 1)) v) = 4.
Proof.
  intros Hw -> Hc. inversion_clear Hw as [|?? [H0 H0'] Hw1].
  inversion_clear Hw1 as [|?? [H1 H1'] Hw2]. inversion_clear Hw2 as [|?? [H2 H2'] _].
  split.
  - cbn [find_end_of_day]. by rewrite H0, H0', H1, H1', H2, H2'.
  - change (Z.to_nat (3 + 1)) with 4%nat. cbn [drop skip_spaces Z.add Pos.add Pos.succ].
    by replace (c =? 32) with false by lia.
Qed.

Lemma parse_rfc1123 tm :
  fields_ok tm →
  ngx_http_parse_time (rfc1123_text tm) =
  finish (tm_year tm) (tm_mon tm) (tm_mday tm) (tm_hour tm) (tm_min tm) (tm_sec tm).
Proof.
  intros Hf. unfold rfc1123_text. spell_date tm Hf. unfold ngx_http_parse_time.
  destruct (start_comma v _ _ _ _ _ Hl eq_refl) as [-> ->]; [zlia|].
  change (require (18 <=? Z.of_nat (length v) - 5)) with (Ok tt).
  unfold parse_day. rewrite (digits2_dd v 5 (tm_mday tm)) by done. cbn [mbind result_bind].
  change (rd v (5 + 2)) with (Ok " "%ch). cbn [mbind result_bind Z.eqb Pos.eqb].
  change (require (18 <=? Z.of_nat (length v) - (5 + 2))) with (Ok tt). cbn [mbind result_bind].
  rewrite (parse_month_eq v (5 + 2 + 1) (tm_mon tm) m0 m1 m2) by done. cbn [mbind result_bind].
  change (parse_separator v (5 + 2 + 1 + 3) rfc822) with (Ok tt). cbn [mbind result_bind].
  unfold parse_year. rewrite (digits4_dddd v _ (tm_year tm)) by done.
  cbn [mbind result_bind parse_isoc_day].
  rewrite (parse_hms_at v _ (tm_hour tm) (tm_min tm) (tm_sec tm)) by done. done.
Qed.

(** The two digits of a year with a century chosen by the parser. *)
Definition century (y : Z) : Z := y + (if y <? 70 then 2000 else 1900).

Lemma parse_rfc850 tm :
  fields_ok tm → tm_year tm ≤ 2037 →
  ngx_http_parse_time (cookie_text tm) =
  finish (century (tm_year tm mod 100)) (tm_mon tm) (tm_mday tm)
    (tm_hour tm) (tm_min tm) (tm_sec tm).
Proof.
  intros Hf Hyear. unfold cookie_text. replace (2037 <? tm_year tm) with false by lia.
  spell_date tm Hf. unfold ngx_http_parse_time.
  destruct (start_comma v _ _ _ _ _ Hl eq_refl) as [-> ->]; [zlia|].
  change (require (18 <=? Z.of_nat (length v) - 5)) with (Ok tt).
  unfold parse_day. rewrite (digits2_dd v 5 (tm_mday tm)) by done. cbn [mbind result_bind].
  change (rd v (5 + 2)) with (Ok "-"%ch). cbn [mbind result_bind Z.eqb Pos.eqb].
  rewrite (parse_month_eq v (5 + 2 + 1) (tm_mon tm) m0 m1 m2) by done. cbn [mbind result_bind].
  change (parse_separator v (5 + 2 + 1 + 3) rfc850) with (Ok tt). cbn [mbind result_bind].
  unfold parse_year. rewrite (digits2_dd v _ (tm_year tm mod 100)) by (done || zlia).
  cbn [mbind result_bind parse_isoc_day].
  rewrite (parse_hms_at v _ (tm_hour tm) (tm_min tm) (tm_sec tm)) by done. done.
Qed.

(** A cookie date with a year of four digits is not one the parser accepts. *)
Lemma parse_rfc850_long tm :
  fields_ok tm → 2037 < tm_year tm → ngx_http_parse_time (cookie_text tm) = Err.
Proof.
  intros Hf Hyear. unfold cookie_text. replace (2037 <? tm_year tm) with true by lia.
  spell_date tm Hf. unfold ngx_http_parse_time.
  destruct (start_comma v _ _ _ _ _ Hl eq_refl) as [-> ->]; [zlia|].
  change (require (18 <=? Z.of_nat (length v) - 5)) with (Ok tt).
  unfold parse_day. rewrite (digits2_dd v 5 (tm_mday tm)) by done. cbn [mbind result_bind].
  change (rd v (5 + 2)) with (Ok "-"%ch). cbn [mbind result_bind Z.eqb Pos.eqb].
  rewrite (parse_month_eq v (5 + 2 + 1) (tm_mon tm) m0 m1 m2) by done. cbn [mbind result_bind].
  change (parse_separator v (5 + 2 + 1 + 3) rfc850) with (Ok tt). cbn [mbind result_bind].
  unfold parse_year. rewrite (digits2_dd v _ (tm_year tm / 100)) by (done || zlia).
  cbn [mbind result_bind parse_isoc_day]. unfold parse_hms, expect.
  change (rd v (5 + 2 + 1 + 3 + 1 + 2)) with (Ok (tm_year tm mod 100 / 10 + 48)).
  cbn [mbind result_bind]. by replace (tm_year tm mod 100 / 10 + 48 =? " "%ch) with false by zlia.
Qed.

Lemma parse_asctime tm :
  fields_ok tm →
  ngx_http_parse_time (asctime_text tm) =
  finish (tm_year tm) (tm_mon tm) (tm_mday tm) (tm_hour tm) (tm_min tm) (tm_sec tm).
Proof.
  intros Hf. unfold asctime_text.
  assert (Hmo : ∀ a b c, nth (Z.to_nat (tm_mon tm - 1)) months [] = [a; b; c] → a ≠ " "%ch).
  { destruct Hf as [_ Hm _ _ _ _ _].
    assert (forallb (λ s, negb (hd 0 s =? " "%ch)) months = true) as Hall by reflexivity.
    rewrite forallb_forall in Hall. intros a b c E.
    assert (In [a; b; c] months) as Hin by (rewrite <- E; apply nth_In; cbn; lia).
    apply Hall in Hin. cbn [hd] in Hin. bool_to_prop. done. }
  destruct (tm_mday tm <? 10) eqn:E10; bool_to_prop;
    spell_date tm Hf; specialize (Hmo _ _ _ Em); unfold ngx_http_parse_time;
    (destruct (start_space v _ _ _ _ _ Hl eq_refl Hmo) as [-> ->]).
  - change (require (18 <=? Z.of_nat (length v) - 4)) with (Ok tt).
    cbn [parse_day mbind result_bind].
    rewrite (parse_month_eq v 4 (tm_mon tm) m0 m1 m2) by done.
    cbn [mbind result_bind parse_separator parse_year parse_isoc_day].
    change (rd v (4 + 3 + 1)) with (Ok " "%ch). cbn [mbind result_bind].
    change (" "%ch =? " "%ch) with true. cbv iota.
    rewrite (digit_eq v (4 + 3 + 1 + 1) (tm_mday tm)) by (done || lia). cbn [mbind result_bind].
    change (rd v (4 + 3 + 1 + 1 + 1)) with (Ok " "%ch). cbn [mbind result_bind].
    change (negb (" "%ch =? " "%ch)) with false. cbn [mbind result_bind].
    change (require (14 <=? Z.of_nat (length v) - (4 + 3 + 1 + 1 + 1))) with (Ok tt).
    cbn [mbind result_bind].
    rewrite (parse_hms_at v _ (tm_hour tm) (tm_min tm) (tm_sec tm)) by done.
    cbn [mbind result_bind parse_isoc_year]. rewrite (expect_eq v _ " "%ch) by done.
    cbn [mbind result_bind]. by rewrite (digits4_dddd v _ (tm_year tm)) by done.
  - change (require (18 <=? Z.of_nat (length v) - 4)) with (Ok tt).
    cbn [parse_day mbind result_bind].
    rewrite (parse_month_eq v 4 (tm_mon tm) m0 m1 m2) by done.
    cbn [mbind result_bind parse_separator parse_year parse_isoc_day].
    change (rd v (4 + 3 + 1)) with (Ok (tm_mday tm / 10 + 48)). cbn [mbind result_bind].
    replace (tm_mday tm / 10 + 48 =? " "%ch) with false by zlia. cbv iota.
    rewrite (digit_eq v (4 + 3 + 1) (tm_mday tm / 10)) by (done || zlia). cbn [mbind result_bind].
    change (rd v (4 + 3 + 1 + 1)) with (Ok (tm_mday tm mod 10 + 48)). cbn [mbind result_bind].
    replace (tm_mday tm mod 10 + 48 =? " "%ch) with false by zlia. cbn [negb].
    rewrite (digit_eq v (4 + 3 + 1 + 1) (tm_mday tm mod 10)) by (done || zlia).
    cbn [mbind result_bind].
    change (require (14 <=? Z.of_nat (length v) - (4 + 3 + 1 + 1 + 1))) with (Ok tt).
    cbn [mbind result_bind].
    rewrite (parse_hms_at v _ (tm_hour tm) (tm_min tm) (tm_sec tm)) by done.
    cbn [mbind result_bind parse_isoc_year]. rewrite (expect_eq v _ " "%ch) by done.
    cbn [mbind result_bind]. rewrite (digits4_dddd v _ (tm_year tm)) by done.
    cbn [mbind result_bind]. by replace (tm_mday tm / 10 * 10 + tm_mday tm mod 10) with (tm_mday tm) by zlia.
Qed.

Lemma tm_ok_fields t tm : tm_ok t tm → fields_ok tm.
Proof.
  intros [Hy Hv _ Hw Hh Hm Hs _]. apply valid_date_range in Hv as [? ?]. split; lia.
Qed.

Lemma finish_ok t tm :
  0 ≤ t < YEAR_10000 → tm_ok t tm →
  finish (tm_year tm) (tm_mon tm) (tm_mday tm) (tm_hour tm) (tm_min tm) (tm_sec tm) = Ok t.
Proof.
  intros Ht Hok. pose proof (date_seconds_eq t tm Ht Hok) as Hs.
  destruct Hok as [Hy Hv _ _ Hh Hm Hsec _]. unfold finish, date_of in *.
  pose proof (valid_date_range _ _ _ Hv) as [? ?]. destruct Hv as [_ Hd].
  rewrite check_date_spec by lia.
  replace (_ && _) with true; [cbn; by rewrite Hs|]. symmetry.
  repeat (apply andb_true_iff; split); lia.
Qed.

(** The dates [ngx_http_time] prints are read back as the same second, up to
    the year 9999; so are the dates [ngx_http_cookie_time] prints with two
    digits for the year, while those with four digits (from 2038) are rejected;
    and so is the same date in the format of [asctime]. *)
Theorem http_time_roundtrip buf t :
  0 ≤ buf ≤ MAX_UINT64 - 64 → 0 ≤ t < YEAR_10000 →
  (∃ s, ngx_http_time buf t = Some s ∧ length s = 29%nat ∧ ngx_http_parse_time s = Ok t) ∧
  (∃ s, ngx_http_cookie_time buf t = Some s ∧
        ngx_http_parse_time s = if tm_year (ngx_gmtime t) <=? 2037 then Ok t else Err) ∧
  ngx_http_parse_time (asctime_text (ngx_gmtime t)) = Ok t.
Proof.
  intros Hb Ht. pose proof (gmtime_ok t Ht) as Hok. pose proof (tm_ok_fields _ _ Hok) as Hf.
  pose proof (finish_ok t _ Ht Hok) as Hfin. split; [|split].
  - eexists. split; [by apply http_time_text|]. split; [|by rewrite parse_rfc1123].
    destruct Hf. unfold rfc1123_text. rewrite !length_app.
    destruct (name_ok_nth week (tm_wday (ngx_gmtime t))) as [-> _]; [done|done|].
    destruct (name_ok_nth months (tm_mon (ngx_gmtime t) - 1)) as [-> _]; [done|cbn; lia|]. done.
  - eexists. split; [by apply http_cookie_time_text|].
    destruct (Z.leb_spec (tm_year (ngx_gmtime t)) 2037); [|by apply parse_rfc850_long].
    rewrite parse_rfc850 by done.
    replace (century (tm_year (ngx_gmtime t) mod 100)) with (tm_year (ngx_gmtime t)); [done|].
    destruct Hok as [Hy _ _ _ _ _ _ _]. unfold century. case_match; bool_to_prop; zlia.
  - by rewrite parse_asctime.
Qed.

(** A date in the format of [ngx_http_time] is rejected exactly when its time
    of day or its day of the month is too big; the day 00 is accepted, as the
    day before the first. *)
Theorem parse_time_validates tm :
  fields_ok tm →
  ngx_http_parse_time (rfc1123_text tm) =
  if (tm_hour tm <? 24) && (tm_min tm <? 60) && (tm_sec tm <? 60) &&
     (tm_mday tm <=? month_length (tm_year tm) (tm_mon tm))
  then Ok (date_seconds (tm_mday tm) (tm_mon tm - 1) (tm_year tm)
             (tm_hour tm) (tm_min tm) (tm_sec tm))
  else Err.
Proof.
  intros Hf. rewrite parse_rfc1123 by done. destruct Hf. unfold finish.
  rewrite check_date_spec by lia. by destruct (_ && _).
Qed.

(** ** Witnesses *)

Lemma http_time_roundtrip_witness :
  (∃ s, ngx_http_time 4096 784111777 = Some s ∧ length s = 29%nat ∧
        ngx_http_parse_time s = Ok 784111777) ∧
  (∃ s, ngx_http_cookie_time 4096 784111777 = Some s ∧
        ngx_http_parse_time s =
        if tm_year (ngx_gmtime 784111777) <=? 2037 then Ok 784111777 else Err) ∧
  ngx_http_parse_time (asctime_text (ngx_gmtime 784111777)) = Ok 784111777.
Proof. exact (http_time_roundtrip 4096 784111777 ltac:(lia) ltac:(lia)). Defined.

(** "Thu, 00 Jan 1970 00:00:00 GMT" is the last day of 1969; "Thu, 30 Feb" is
    an error. *)
Lemma parse_time_validates_witness :
  ngx_http_parse_time (rfc1123_text (mk_tm 0 0 0 0 1 1970 4)) = Ok (-86400) ∧
  ngx_http_parse_time (rfc1123_text (mk_tm 0 0 0 30 2 1970 4)) = Err.
Proof.
  split.
  - refine (eq_trans (parse_time_validates (mk_tm 0 0 0 0 1 1970 4) _) _).
    + split; cbn; lia.
    + reflexivity.
  - refine (eq_trans (parse_time_validates (mk_tm 0 0 0 30 2 1970 4) _) _).
    + split; cbn; lia.
    + reflexivity.
Defined.

End HttpDate.
