(* ===== verification/Base64.v ===== *)
(** * Base64: [ngx_encode_base64], [ngx_decode_base64], [ngx_decode_base64url]

    src/core/ngx_string.c.  An [ngx_str_t] is the list of its bytes; what is
    written to [dst->data] is the result, its length [dst->len].  The theorems
    are the round trips, the lengths the callers allocate with the macros of
    ngx_string.h, and the exact set of strings the decoder rejects. *)

From S2P Require Import Prelude.

Module Base64.

(** ** Encoding *)

Definition alphabet : list Z :=
  bs "ABCDEFGHIJKLMNOPQRSTUVWXYZabcdefghijklmnopqrstuvwxyz0123456789+/".

Definition basis64 (i : Z) : Z := nth (Z.to_nat i) alphabet 0.

Fixpoint ngx_encode_base64 (s : list Z) : list Z :=
  match s with
  | s0 :: s1 :: s2 :: s' =>
      basis64 (Z.land (Z.shiftr s0 2) 0x3f) ::
      basis64 (Z.lor (Z.shiftl (Z.land s0 3) 4) (Z.shiftr s1 4)) ::
      basis64 (Z.lor (Z.shiftl (Z.land s1 0x0f) 2) (Z.shiftr s2 6)) ::
      basis64 (Z.land s2 0x3f) ::
      ngx_encode_base64 s'
  | [s0; s1] =>
      [ basis64 (Z.land (Z.shiftr s0 2) 0x3f);
        basis64 (Z.lor (Z.shiftl (Z.land s0 3) 4) (Z.shiftr s1 4));
        basis64 (Z.shiftl (Z.land s1 0x0f) 2);
        "="%ch ]
  | [s0] =>
      [ basis64 (Z.land (Z.shiftr s0 2) 0x3f);
        basis64 (Z.shiftl (Z.land s0 3) 4);
        "="%ch; "="%ch ]
  | [] => []
  end.

(** [ngx_base64_encoded_length] and [ngx_base64_decoded_length]. *)
Definition ngx_base64_encoded_length (len : Z) : Z := ((len + 2) / 3) * 4.
Definition ngx_base64_decoded_length (len : Z) : Z := ((len + 3) / 4) * 3.

(** ** Decoding *)

Definition table64 : list Z := [
  77; 77; 77; 77; 77; 77; 77; 77; 77; 77; 77; 77; 77; 77; 77; 77;
  77; 77; 77; 77; 77; 77; 77; 77; 77; 77; 77; 77; 77; 77; 77; 77;
  77; 77; 77; 77; 77; 77; 77; 77; 77; 77; 77; 62; 77; 77; 77; 63;
  52; 53; 54; 55; 56; 57; 58; 59; 60; 61; 77; 77; 77; 77; 77; 77;
  77;  0;  1;  2;  3;  4;  5;  6;  7;  8;  9; 10; 11; 12; 13; 14;
  15; 16; 17; 18; 19; 20; 21; 22; 23; 24; 25; 77; 77; 77; 77; 77;
  77; 26; 27; 28; 29; 30; 31; 32; 33; 34; 35; 36; 37; 38; 39; 40;
  41; 42; 43; 44; 45; 46; 47; 48; 49; 50; 51; 77; 77; 77; 77; 77;

  77; 77; 77; 77; 77; 77; 77; 77; 77; 77; 77; 77; 77; 77; 77; 77;
  77; 77; 77; 77; 77; 77; 77; 77; 77; 77; 77; 77; 77; 77; 77; 77;
  77; 77; 77; 77; 77; 77; 77; 77; 77; 77; 77; 77; 77; 77; 77; 77;
  77; 77; 77; 77; 77; 77; 77; 77; 77; 77; 77; 77; 77; 77; 77; 77;
  77; 77; 77; 77; 77; 77; 77; 77; 77; 77; 77; 77; 77; 77; 77; 77;
  77; 77; 77; 77; 77; 77; 77; 77; 77; 77; 77; 77; 77; 77; 77; 77;
  77; 77; 77; 77; 77; 77; 77; 77; 77; 77; 77; 77; 77; 77; 77; 77;
  77; 77; 77; 77; 77; 77; 77; 77; 77; 77; 77; 77; 77; 77; 77; 77 ].

Definition table64url : list Z := [
  77; 77; 77; 77; 77; 77; 77; 77; 77; 77; 77; 77; 77; 77; 77; 77;
  77; 77; 77; 77; 77; 77; 77; 77; 77; 77; 77; 77; 77; 77; 77; 77;
  77; 77; 77; 77; 77; 77; 77; 77; 77; 77; 77; 77; 77; 62; 77; 77;
  52; 53; 54; 55; 56; 57; 58; 59; 60; 61; 77; 77; 77; 77; 77; 77;
  77;  0;  1;  2;  3;  4;  5;  6;  7;  8;  9; 10; 11; 12; 13; 14;
  15; 16; 17; 18; 19; 20; 21; 22; 23; 24; 25; 77; 77; 77; 77; 63;
  77; 26; 27; 28; 29; 30; 31; 32; 33; 34; 35; 36; 37; 38; 39; 40;
  41; 42; 43; 44; 45; 46; 47; 48; 49; 50; 51; 77; 77; 77; 77; 77;

  77; 77; 77; 77; 77; 77; 77; 77; 77; 77; 77; 77; 77; 77; 77; 77;
  77; 77; 77; 77; 77; 77; 77; 77; 77; 77; 77; 77; 77; 77; 77; 77;
  77; 77; 77; 77; 77; 77; 77; 77; 77; 77; 77; 77; 77; 77; 77; 77;
  77; 77; 77; 77; 77; 77; 77; 77; 77; 77; 77; 77; 77; 77; 77; 77;
  77; 77; 77; 77; 77; 77; 77; 77; 77; 77; 77; 77; 77; 77; 77; 77;
  77; 77; 77; 77; 77; 77; 77; 77; 77; 77; 77; 77; 77; 77; 77; 77;
  77; 77; 77; 77; 77; 77; 77; 77; 77; 77; 77; 77; 77; 77; 77; 77;
  77; 77; 77; 77; 77; 77; 77; 77; 77; 77; 77; 77; 77; 77; 77; 77 ].

Section Decode.
Variable table : list Z.

Definition basis (c : Z) : Z := nth (Z.to_nat c) table 0.

(** The first loop: the bytes before the first "=", or [None] when one of
    them is not of the alphabet. *)
Fixpoint data_bytes (src : list Z) : option (list Z) :=
  match src with
  | [] => Some []
  | c :: src' =>
      if c =? "="%ch then Some []
      else if basis c =? 77 then None
      else cons c <$> data_bytes src'
  end.

(** [while (len > 3)] and the two [if]s after it. *)
Fixpoint decode_loop (s : list Z) : list Z :=
  match s with
  | s0 :: s1 :: s2 :: s3 :: s' =>
      u8 (Z.lor (Z.shiftl (basis s0) 2) (Z.shiftr (basis s1) 4)) ::
      u8 (Z.lor (Z.shiftl (basis s1) 4) (Z.shiftr (basis s2) 2)) ::
      u8 (Z.lor (Z.shiftl (basis s2) 6) (basis s3)) ::
      decode_loop s'
  | [s0; s1; s2] =>
      [ u8 (Z.lor (Z.shiftl (basis s0) 2) (Z.shiftr (basis s1) 4));
        u8 (Z.lor (Z.shiftl (basis s1) 4) (Z.shiftr (basis s2) 2)) ]
  | [s0; s1] => [ u8 (Z.lor (Z.shiftl (basis s0) 2) (Z.shiftr (basis s1) 4)) ]
  | _ => []
  end.

(** [None] is [NGX_ERROR]. *)
Definition ngx_decode_base64_internal (src : list Z) : option (list Z) :=
  match data_bytes src with
  | None => None
  | Some s => if Z.of_nat (length s) mod 4 =? 1 then None else Some (decode_loop s)
  end.
End Decode.

Definition ngx_decode_base64 : list Z → option (list Z) := ngx_decode_base64_internal table64.
Definition ngx_decode_base64url : list Z → option (list Z) :=
  ngx_decode_base64_internal table64url.

(** ** Arithmetic of the bit fields *)

(** The four sextets of three bytes. *)
Definition sextets (a b c : Z) : list Z :=
  [a / 4; a mod 4 * 16 + b / 16; b mod 16 * 4 + c / 64; c mod 64].

Lemma encode_sextets a b c :
  is_byte a → is_byte b → is_byte c →
  Z.land (Z.shiftr a 2) 0x3f = a / 4 ∧
  Z.lor (Z.shiftl (Z.land a 3) 4) (Z.shiftr b 4) = a mod 4 * 16 + b / 16 ∧
  Z.lor (Z.shiftl (Z.land b 0x0f) 2) (Z.shiftr c 6) = b mod 16 * 4 + c / 64 ∧
  Z.land c 0x3f = c mod 64 ∧
  Z.shiftl (Z.land a 3) 4 = a mod 4 * 16 + 0 / 16 ∧
  Z.shiftl (Z.land b 0x0f) 2 = b mod 16 * 4 + 0 / 64.
Proof.
  unfold is_byte. intros Ha Hb Hc.
  change 0x3f with (Z.ones 6). change 3 with (Z.ones 2). change 0x0f with (Z.ones 4).
  rewrite !Z.land_ones, !Z.shiftr_div_pow2 by done.
  rewrite !lor_shiftl by (cbn; zlia).
  rewrite !Z.shiftl_mul_pow2 by done. split_and!; cbn; zlia.
Qed.

Lemma decode_sextets a b c :
  is_byte a → is_byte b → is_byte c →
  ∀ i0 i1 i2 i3, sextets a b c = [i0; i1; i2; i3] →
  u8 (Z.lor (Z.shiftl i0 2) (Z.shiftr i1 4)) = a ∧
  u8 (Z.lor (Z.shiftl i1 4) (Z.shiftr i2 2)) = b ∧
  u8 (Z.lor (Z.shiftl i2 6) i3) = c.
Proof.
  unfold is_byte, sextets, u8. intros Ha Hb Hc i0 i1 i2 i3 [= <- <- <- <-].
  rewrite !Z.shiftr_div_pow2 by done.
  rewrite !lor_shiftl by (cbn; zlia).
  split_and!; zlia.
Qed.

(** ** Round trip *)

Lemma list_ind3 {A} (P : list A → Prop) :
  P [] → (∀ a, P [a]) → (∀ a b, P [a; b]) → (∀ a b c l, P l → P (a :: b :: c :: l)) →
  ∀ l, P l.
Proof.
  intros H0 H1 H2 H3. fix IH 1. intros [|a [|b [|c l]]]; [done|done|done|apply H3, IH].
Qed.

Lemma list_ind4 {A} (P : list A → Prop) :
  P [] → (∀ a, P [a]) → (∀ a b, P [a; b]) → (∀ a b c, P [a; b; c]) →
  (∀ a b c d l, P l → P (a :: b :: c :: d :: l)) → ∀ l, P l.
Proof.
  intros H0 H1 H2 H3 H4. fix IH 1.
  intros [|a [|b [|c [|d l]]]]; [done|done|done|done|apply H4, IH].
Qed.

(** The sextets of a string, and the padding of its encoding. *)
Fixpoint sextets_of (s : list Z) : list Z :=
  match s with
  | a :: b :: c :: s' => sextets a b c ++ sextets_of s'
  | [a; b] => take 3 (sextets a b 0)
  | [a] => take 2 (sextets a 0 0)
  | [] => []
  end.

Definition padding (s : list Z) : list Z :=
  match Z.of_nat (length s) mod 3 with 1 => bs "==" | 2 => bs "=" | _ => [] end.

Lemma byte_0 : is_byte 0.
Proof. done. Qed.

Lemma encode_eq s : bytes s → ngx_encode_base64 s = map basis64 (sextets_of s) ++ padding s.
Proof.
  induction s as [|a|a b|a b c s IH] using list_ind3; intros Hs; [done|..];
    repeat match goal with H : bytes (_ :: _) |- _ => inversion_clear H end.
  - cbn [ngx_encode_base64 sextets_of].
    destruct (encode_sextets a 0 0) as (-> & _ & _ & _ & -> & _); done || apply byte_0.
  - cbn [ngx_encode_base64 sextets_of].
    destruct (encode_sextets a b 0) as (-> & -> & _ & _ & _ & ->); done || apply byte_0.
  - cbn [ngx_encode_base64 sextets_of]. destruct (encode_sextets a b c) as (-> & -> & -> & -> & _);
      [done..|]. rewrite IH by done. cbn. do 5 f_equal. unfold padding.
    by replace (Z.of_nat (length (a :: b :: c :: s)) mod 3) with (Z.of_nat (length s) mod 3)
      by (cbn [length]; zlia).
Qed.

Lemma sextets_range s : bytes s → Forall (λ i, 0 ≤ i < 64) (sextets_of s).
Proof.
  induction s as [|a|a b|a b c s IH] using list_ind3; intros Hs; [constructor|..];
    repeat match goal with H : bytes (_ :: _) |- _ => inversion_clear H end;
    cbn; unfold is_byte in *; repeat constructor; try zlia; auto.
Qed.

Section Roundtrip.
Variable table : list Z.
(** The spelling of a sextet in the decoder's alphabet. *)
Variable spell : Z → Z.
Hypothesis spell_ok :
  forallb (λ i, (basis table (spell i) =? i) && negb (spell i =? "="%ch)) (seqZ 0 64) = true.

Lemma basis_spell i : 0 ≤ i < 64 → basis table (spell i) = i ∧ spell i ≠ "="%ch.
Proof.
  intros Hi. rewrite forallb_forall in spell_ok.
  specialize (spell_ok i). rewrite <- list_elem_of_In, elem_of_seqZ in spell_ok.
  specialize (spell_ok ltac:(lia)). lia.
Qed.

Lemma data_bytes_spell l rest :
  Forall (λ i, 0 ≤ i < 64) l → data_bytes table rest = Some [] →
  data_bytes table (map spell l ++ rest) = Some (map spell l).
Proof.
  intros Hl Hr. induction Hl as [|i l Hi Hl IH]; [done|].
  destruct (basis_spell i Hi) as [Hb Hs]. cbn.
  replace (spell i =? "="%ch) with false by lia. rewrite Hb, IH.
  by replace (i =? 77) with false by lia.
Qed.

Lemma decode_loop_spell s : bytes s → decode_loop table (map spell (sextets_of s)) = s.
Proof.
  induction s as [|a|a b|a b c s IH] using list_ind3; intros Hs; [done|..];
    pose proof (sextets_range _ Hs) as Hr;
    repeat match goal with H : bytes (_ :: _) |- _ => inversion_clear H end;
    cbn in Hr |- *;
    repeat match goal with H : Forall _ (_ :: _) |- _ =>
      let Hi := fresh "Hi" in inversion_clear H as [|?? Hi];
      destruct (basis_spell _ Hi) as [-> _] end.
  - by destruct (decode_sextets a 0 0 ltac:(done) byte_0 byte_0 _ _ _ _ eq_refl) as (-> & _).
  - by destruct (decode_sextets a b 0 ltac:(done) ltac:(done) byte_0 _ _ _ _ eq_refl)
      as (-> & -> & _).
  - destruct (decode_sextets a b c ltac:(done) ltac:(done) ltac:(done) _ _ _ _ eq_refl)
      as (-> & -> & ->). by rewrite IH.
Qed.

Lemma sextets_length s : Z.of_nat (length (sextets_of s)) mod 4 ≠ 1.
Proof.
  induction s as [|a|a b|a b c s IH] using list_ind3; [done..|].
  cbn [sextets_of sextets app length]. zlia.
Qed.

Lemma decode_spell s rest :
  bytes s → data_bytes table rest = Some [] →
  ngx_decode_base64_internal table (map spell (sextets_of s) ++ rest) = Some s.
Proof.
  intros Hs Hr. unfold ngx_decode_base64_internal.
  rewrite data_bytes_spell by (done || by apply sextets_range).
  rewrite length_map, decode_loop_spell by done.
  pose proof (sextets_length s). by replace (_ =? 1) with false by lia.
Qed.
End Roundtrip.

Lemma data_bytes_padding table s : data_bytes table (padding s) = Some [].
Proof. unfold padding. by repeat case_match. Qed.

(** C37: Decoding an encoded string gives it back. *)
Theorem base64_roundtrip s : bytes s → ngx_decode_base64 (ngx_encode_base64 s) = Some s.
Proof.
  intros Hs. rewrite encode_eq by done.
  apply decode_spell; [by vm_compute|done|apply data_bytes_padding].
Qed.

Lemma filter_spell l :
  Forall (λ i, 0 ≤ i < 64) l →
  filter (λ c, c ≠ "="%ch) (map basis64 l) = map basis64 l.
Proof.
  induction 1 as [|i l Hi Hl IH]; [done|]. cbn [map].
  rewrite filter_cons_True, IH; [done|].
  by destruct (basis_spell table64 basis64 ltac:(by vm_compute) i Hi).
Qed.

(** The URL alphabet. *)
Definition to_url (c : Z) : Z :=
  if c =? "+"%ch then "-"%ch else if c =? "/"%ch then "_"%ch else c.

(** The URL decoder decodes the encoding written in the URL alphabet, with
    and without its padding. *)
Theorem base64url_roundtrip s :
  bytes s →
  ngx_decode_base64url (map to_url (ngx_encode_base64 s)) = Some s ∧
  ngx_decode_base64url (map to_url (filter (λ c, c ≠ "="%ch) (ngx_encode_base64 s))) = Some s.
Proof.
  intros Hs. rewrite encode_eq by done.
  assert (Hok : forallb (λ i, (basis table64url (to_url (basis64 i)) =? i) &&
    negb (to_url (basis64 i) =? "="%ch)) (seqZ 0 64) = true) by by vm_compute.
  assert (Hpad : map to_url (padding s) = padding s) by (unfold padding; by repeat case_match).
  split.
  - rewrite map_app, Hpad, map_map.
    apply (decode_spell _ (λ i, to_url (basis64 i))); [done..|apply data_bytes_padding].
  - assert (filter (λ c, c ≠ "="%ch) (map basis64 (sextets_of s) ++ padding s) =
      map basis64 (sextets_of s)) as ->.
    { rewrite list.filter_app. unfold padding. rewrite filter_spell by by apply sextets_range.
      repeat case_match; cbn; by rewrite ?app_nil_r. }
    rewrite map_map, <- (app_nil_r (map _ _)).
    apply (decode_spell _ (λ i, to_url (basis64 i))); done.
Qed.

Lemma in_alphabet c :
  is_byte c → c ∉ alphabet ↔ (basis table64 c =? 77) = true.
Proof.
  intros Hc.
  assert (H : Bool.eqb (negb (bool_decide (c ∈ alphabet))) (basis table64 c =? 77) = true)
    by by_bytes c.
  apply eqb_prop in H. rewrite <- H, negb_true_iff, bool_decide_eq_false. done.
Qed.

(** The encoding has the length its callers allocate, the decoding at most. *)
Theorem base64_lengths s :
  Z.of_nat (length (ngx_encode_base64 s)) = ngx_base64_encoded_length (Z.of_nat (length s)) ∧
  ∀ table d, ngx_decode_base64_internal table s = Some d →
    Z.of_nat (length d) ≤ ngx_base64_decoded_length (Z.of_nat (length s)) ∧ bytes d.
Proof.
  split.
  - unfold ngx_base64_encoded_length.
    induction s as [|a|a b|a b c s IH] using list_ind3; [done..|].
    cbn [ngx_encode_base64 length]. zlia.
  - intros table d. unfold ngx_decode_base64_internal.
    assert (Hd : ∀ s d, data_bytes table s = Some d → (length d ≤ length s)%nat).
    { clear. induction s as [|c s IH]; intros d; cbn; [by intros [= <-]|].
      destruct (c =? "="%ch); [intros [= <-]; cbn; lia|]. destruct (basis table c =? 77); [done|].
      destruct (data_bytes table s) as [d'|]; [|done]. intros [= <-]. cbn.
      specialize (IH d' eq_refl). lia. }
    assert (Hb : ∀ l, Z.of_nat (length (decode_loop table l)) ≤
      ngx_base64_decoded_length (Z.of_nat (length l)) ∧ bytes (decode_loop table l)).
    { clear. unfold ngx_base64_decoded_length. intros l.
      induction l as [|a|a b|a b c|a b c d l [IH1 IH2]] using list_ind4;
        (split; [|by repeat constructor; try apply u8_range]); [done..|].
      cbn [decode_loop length]. zlia. }
    destruct (data_bytes table s) as [l|] eqn:E; [|done].
    apply Hd in E. destruct (_ =? 1); [done|]. intros [= <-]. destruct (Hb l) as [H1 H2].
    split; [|done]. etrans; [apply H1|]. unfold ngx_base64_decoded_length. zlia.
Qed.

(** The decoder rejects a string exactly when a byte before its first ["="]
    is not of the alphabet or one byte is left over after groups of four. *)
Theorem base64_rejects data rest :
  bytes data → Forall (λ c, c ≠ "="%ch) data → rest = [] ∨ head rest = Some "="%ch →
  ngx_decode_base64 (data ++ rest) = None ↔
  (∃ c, c ∈ data ∧ c ∉ alphabet) ∨ Z.of_nat (length data) mod 4 = 1.
Proof.
  intros Hb Hd Hr. unfold ngx_decode_base64, ngx_decode_base64_internal.
  assert (Hrest : data_bytes table64 rest = Some []).
  { destruct Hr as [->|Hr]; [done|]. destruct rest as [|c rest]; [done|]. by injection Hr as ->. }
  assert (Hcase : (Forall (λ c, c ∈ alphabet) data ∧
      data_bytes table64 (data ++ rest) = Some data) ∨
    ((∃ c, c ∈ data ∧ c ∉ alphabet) ∧ data_bytes table64 (data ++ rest) = None)).
  { induction Hb as [|c data Hc Hb IH]; [by left|]. inversion_clear Hd as [|?? Hc' Hd'].
    cbn [data_bytes app]. replace (c =? "="%ch) with false by lia. pose proof (in_alphabet c Hc) as Ha.
    destruct (IH Hd') as [[Hin ->]|[(c' & Hin & Hn) ->]].
    - destruct (basis table64 c =? 77) eqn:E; [right|left].
      + split; [|done]. exists c. split; [left|]. by apply Ha.
      + split; [|done]. constructor; [|done]. destruct (decide (c ∈ alphabet)) as [|Hn]; [done|].
        by apply Ha in Hn.
    - right. split; [exists c'; split; [by right|done]|]. by destruct (_ =? 77). }
  destruct Hcase as [[Hin ->]|[Hex ->]]; [|by split; [left|]].
  destruct (Z.eqb_spec (Z.of_nat (length data) mod 4) 1); [by split; [right|]|].
  split; [done|]. intros [(c & Hc & Hn)|?]; [|done]. rewrite list.Forall_forall in Hin. by apply Hin in Hc.
Qed.

(** ** Instances *)

Lemma base64_roundtrip_witness :
  ngx_decode_base64 (bs "bmdpbng=") = Some (bs "nginx").
Proof. by_instance (base64_roundtrip (bs "nginx") ltac:(by apply bytes_bs)). Defined.

Lemma base64url_roundtrip_witness :
  ngx_decode_base64url (bs "-_8") = Some [0xfb; 0xff].
Proof.
  by_instance (proj2 (base64url_roundtrip [0xfb; 0xff] ltac:(by repeat constructor))).
Defined.

Lemma base64_rejects_witness : ngx_decode_base64 (bs "abcde") = None.
Proof.
  apply (base64_rejects (bs "abcde") [] ltac:(by apply bytes_bs) ltac:(by repeat constructor)
    ltac:(by left)). by right.
Defined.

End Base64.
