(* ===== verification/Sort.v ===== *)
(** * The insertion sort of the sources: [ngx_sort]

    src/core/ngx_string.c.  An array is the list of its elements. *)

From stdpp Require Import sorting.
From S2P Require Import Prelude.
Open Scope Z_scope.

Module Sort.
Section Sort.
Context {A : Type} (cmp : A → A → Z).

(** [for (p2 = p1; p2 > base && cmp(p2 - size, p) > 0; p2 -= size)]: the
    elements before [p1], the nearest first, that are moved one place up. *)
Fixpoint shift (p : A) (before : list A) : list A :=
  match before with
  | [] => [p]
  | q :: before' => if 0 <? cmp q p then q :: shift p before' else p :: before
  end.

(** The loop over [p1]; [before] is the sorted part, the last element first. *)
Fixpoint sort_from (before rest : list A) : list A :=
  match rest with
  | [] => rev before
  | p :: rest' => sort_from (shift p before) rest'
  end.

Definition ngx_sort (base : list A) : list A :=
  match base with
  | [] => []
  | p :: rest => sort_from [p] rest
  end.

(** ** Theorems *)

Lemma shift_perm p before : shift p before ≡ₚ p :: before.
Proof.
  induction before as [|q before IH]; cbn; [done|].
  destruct (0 <? cmp q p); [|done]. by rewrite IH, Permutation_swap.
Qed.

Lemma sort_from_perm rest : ∀ before, sort_from before rest ≡ₚ before ++ rest.
Proof.
  induction rest as [|p rest IH]; intros before; cbn.
  - by rewrite app_nil_r, <- Permutation_rev.
  - rewrite IH, shift_perm. cbn. apply Permutation_middle.
Qed.

Lemma sort_perm base : ngx_sort base ≡ₚ base.
Proof. destruct base as [|p rest]; [done|]. cbn. apply sort_from_perm. Qed.

(** The order the comparison describes. *)
Definition le (x y : A) : Prop := cmp x y <= 0.

Context (Htrans : ∀ x y z, le x y → le y z → le x z).
Context (Htotal : ∀ x y, 0 < cmp x y → le y x).

Lemma shift_sorted p before :
  StronglySorted (flip le) before → StronglySorted (flip le) (shift p before).
Proof.
  induction before as [|q before IH]; intros Hs; cbn; [by repeat constructor|].
  inversion_clear Hs as [|?? Hs' Hq]. destruct (Z.ltb_spec 0 (cmp q p)) as [Hc|Hc].
  - constructor; [by apply IH|]. rewrite shift_perm. constructor; [by apply Htotal|done].
  - constructor; [by constructor|]. constructor; [done|].
    eapply list.Forall_impl; [exact Hq|]. intros x Hx. by eapply Htrans.
Qed.

Lemma sorted_snoc (l : list A) x :
  StronglySorted le l → Forall (λ y, le y x) l → StronglySorted le (l ++ [x]).
Proof.
  induction 1 as [|y l Hl IH Hy]; intros Hx; cbn; [by repeat constructor|].
  inversion_clear Hx. constructor; [by apply IH|]. apply Forall_app_2; [done|by constructor].
Qed.

Lemma rev_sorted (l : list A) : StronglySorted (flip le) l → StronglySorted le (rev l).
Proof.
  induction 1 as [|x l Hl IH Hx]; cbn; [constructor|].
  apply sorted_snoc; [done|]. rewrite <- Permutation_rev. exact Hx.
Qed.

Lemma sort_from_sorted rest : ∀ before,
  StronglySorted (flip le) before → StronglySorted le (sort_from before rest).
Proof.
  induction rest as [|p rest IH]; intros before Hs; cbn; [by apply rev_sorted|].
  by apply IH, shift_sorted.
Qed.

Lemma sort_sorted base : StronglySorted le (ngx_sort base).
Proof.
  destruct base as [|p rest]; [constructor|]. apply sort_from_sorted. by repeat constructor.
Qed.

(** Stability: the elements a predicate selects keep their order when the
    comparison does not separate them. *)
Context (P : A → bool) (Hstable : ∀ x y, P x = true → P y = true → cmp x y ≤ 0).

Lemma shift_stable p before :
  List.filter P (shift p before) = List.filter P (p :: before).
Proof.
  induction before as [|q before IH]; [done|]. cbn [shift].
  destruct (Z.ltb_spec 0 (cmp q p)) as [Hc|Hc]; [|done].
  cbn [List.filter]. rewrite IH. cbn [List.filter].
  destruct (P q) eqn:Eq, (P p) eqn:Ep; try done.
  specialize (Hstable q p Eq Ep). lia.
Qed.

Lemma sort_from_stable rest : ∀ before,
  List.filter P (sort_from before rest) = List.filter P (rev before ++ rest).
Proof.
  induction rest as [|p rest IH]; intros before; cbn [sort_from]; [by rewrite app_nil_r|].
  rewrite IH, !List.filter_app. cbn [rev].
  rewrite List.filter_rev, shift_stable. cbn [List.filter rev].
  destruct (P p); cbn; rewrite <- ?List.filter_rev, <- ?app_assoc; done.
Qed.

(** [ngx_sort] sorts, keeps the elements, and is stable: elements that compare
    as equal keep their order. *)
Theorem sort_correct base :
  ngx_sort base ≡ₚ base ∧ StronglySorted le (ngx_sort base) ∧
  List.filter P (ngx_sort base) = List.filter P base.
Proof.
  split; [apply sort_perm|]. split; [apply sort_sorted|].
  destruct base as [|p rest]; [done|]. cbn [ngx_sort]. by rewrite sort_from_stable.
Qed.
End Sort.

(** Pairs compared by their first component: the second shows the order of the
    equal ones. *)
Lemma sort_correct_witness :
  let cmp (x y : Z * Z) := x.1 - y.1 in
  let P (x : Z * Z) := x.1 =? 2 in
  let base := [(3, 0); (2, 1); (1, 2); (2, 3); (2, 4)] in
  ngx_sort cmp base = [(1, 2); (2, 1); (2, 3); (2, 4); (3, 0)] ∧
  (ngx_sort cmp base ≡ₚ base ∧ StronglySorted (le cmp) (ngx_sort cmp base) ∧
   List.filter P (ngx_sort cmp base) = List.filter P base).
Proof.
  split; [reflexivity|]. apply sort_correct.
  - unfold le. intros. lia.
  - unfold le. intros. lia.
  - intros x y Hx Hy. apply Z.eqb_eq in Hx, Hy. lia.
Defined.
End Sort.
