(* ===== verification/RoundRobin.v ===== *)
(** * The weighted round-robin balancer

    src/http/ngx_http_upstream_round_robin.c.  The peer structures of an
    upstream are shared by all its requests; [chain] lists them (the primary
    servers, then the backup ones).  A request has its own
    [ngx_http_upstream_rr_peer_data_t] and [ngx_peer_connection_t].  Reads and
    writes of arrays are checked: [None] is an access outside an array or a
    division by zero. *)

From stdpp Require Import relations sorting.
From S2P Require Import Prelude Sort.
Open Scope Z_scope.

Module RoundRobin.

(** ** Data *)

(** [addr] stands for the triple [sockaddr], [socklen] and [name]. *)
Record rr_peer := mk_peer {
  addr : Z;
  current_weight : Z;
  weight : Z;
  fails : Z;
  accessed : Z;
  checked : Z;
  max_fails : Z;
  fail_timeout : Z;
  down : bool;
}.

#[export] Instance eta_rr_peer : Eta rr_peer := λ p,
  mk_peer (addr p) (current_weight p) (weight p) (fails p) (accessed p) (checked p)
    (max_fails p) (fail_timeout p) (down p).

(** [ngx_http_upstream_rr_peers_t]; [cached] is the array of cached connections,
    by their addresses. *)
Record rr_peers := mk_peers {
  single : bool;
  last_cached : Z;
  cached : list Z;
  peer : list rr_peer;
}.

#[export] Instance eta_rr_peers : Eta rr_peers := λ p,
  mk_peers (single p) (last_cached p) (cached p) (peer p).

Definition number (p : rr_peers) : Z := Z.of_nat (length (peer p)).

(** The part of a request: [current] and [tried] of
    [ngx_http_upstream_rr_peer_data_t], and what the balancer uses of
    [ngx_peer_connection_t]; [at_peers] is [rrp->peers], by its distance from
    the first element of the chain. *)
Record rr_data := mk_data {
  at_peers : nat;
  current : Z;
  tried : list Z;
  tries : Z;
  pc_cached : bool;
  connection : option Z;
  sockaddr : option Z;
}.

#[export] Instance eta_rr_data : Eta rr_data := λ d,
  mk_data (at_peers d) (current d) (tried d) (tries d) (pc_cached d) (connection d) (sockaddr d).

Abbreviation NGX_BUSY := (-3).
Abbreviation NGX_PEER_FAILED := 4.

(** ** ngx_http_upstream_get_peer *)

(** [peer[n].current_weight * 1000 / peer[i].current_weight
    > peer[n].weight * 1000 / peer[i].weight] *)
Definition heavier (pn pi : rr_peer) : option bool :=
  if (current_weight pi =? 0) || (weight pi =? 0) then None
  else Some (s64 (weight pn * 1000) ÷ weight pi <?
             s64 (current_weight pn * 1000) ÷ current_weight pi).

(** [while (i < peers->number - 1)]: [n] is the candidate and [i] the last peer
    examined; [rest] are the peers after [i]. *)
Fixpoint pick (n : nat) (pn : rr_peer) (i : nat) (pi : rr_peer) (rest : list rr_peer) :
    option nat :=
  match rest with
  | [] => Some (if 0 <? current_weight pi then i else n)
  | p :: rest =>
      if current_weight p <=? 0 then pick n pn (S i) p rest
      else
        match heavier pn p with
        | None => None
        | Some true => Some n
        | Some false => pick (S i) p (S i) p rest
        end
  end.

(** [for (i = 0; i < peers->number; i++)]: the inner [Some] is a [return]. *)
Fixpoint first_positive (i : nat) (peers : list rr_peer) : option (option nat) :=
  match peers with
  | [] => Some None
  | p :: rest =>
      if current_weight p <=? 0 then first_positive (S i) rest
      else option_map Some (pick i p i p rest)
  end.

Definition reset_weights (peers : list rr_peer) : list rr_peer :=
  (λ p, p <| current_weight := weight p |>) <$> peers.

(** The index chosen and the peers, whose weights are reset when they are used
    up; a second failure is index 0. *)
Definition ngx_http_upstream_get_peer (peers : list rr_peer) : option (nat * list rr_peer) :=
  match first_positive 0 peers with
  | None => None
  | Some (Some n) => Some (n, peers)
  | Some None =>
      let peers := reset_weights peers in
      match first_positive 0 peers with
      | None => None
      | Some (Some n) => Some (n, peers)
      | Some None => Some (0%nat, peers)
      end
  end.

(** ** ngx_http_upstream_get_round_robin_peer *)

(** [n] and [m]: the word of the bitmap and the bit in it. *)
Definition bitmap_word (current : Z) : nat := Z.to_nat (current / 64).
Definition bitmap_bit (current : Z) : Z := Z.shiftl 1 (current mod 64).

Definition set_bit (tried : list Z) (current : Z) : option (list Z) :=
  match tried !! bitmap_word current with
  | None => None
  | Some w => Some (<[bitmap_word current := Z.lor w (bitmap_bit current)]> tried)
  end.

(** [for (i = 0; i < n; i++) tried[i] = 0]. *)
Definition clear_bits (tried : list Z) (n : Z) : option (list Z) :=
  if Z.of_nat (length tried) <? n then None
  else Some (replicate (Z.to_nat n) 0 ++ drop (Z.to_nat n) tried).

(** One turn of either loop for the peer at [current]: [true] is [break]. *)
Definition try_peer (now : Z) (ps : list rr_peer) (d : rr_data) :
    option (bool * list rr_peer * rr_data) :=
  match tried d !! bitmap_word (current d) with
  | None => None
  | Some w =>
      if Z.land w (bitmap_bit (current d)) =? 0 then
        let c := Z.to_nat (current d) in
        match ps !! c with
        | None => None
        | Some p =>
            if negb (down p) then
              if (max_fails p =? 0) || (fails p <? max_fails p) then Some (true, ps, d)
              else if fail_timeout p <? now - checked p then
                Some (true, <[c := p <| checked := now |>]> ps, d)
              else
                Some (false, <[c := p <| current_weight := 0 |>]> ps,
                      d <| tries := u64 (tries d - 1) |>)
            else
              match set_bit (tried d) (current d) with
              | None => None
              | Some t => Some (false, ps, d <| tried := t |> <| tries := u64 (tries d - 1) |>)
              end
        end
      else Some (false, ps, d)
  end.

(** The ways out of the loops: [break], and [goto failed]. *)
Inductive search_result : Set := Found | Failed.

(** "it's a first try - get a current peer": [i] is the counter of the loop. *)
Fixpoint first_try (i : nat) (now : Z) (ps : list rr_peer) (d : rr_data) :
    option (search_result * list rr_peer * rr_data) :=
  match i with
  | O => None
  | S i =>
      match ngx_http_upstream_get_peer ps with
      | None => None
      | Some (n, ps) =>
          match try_peer now ps (d <| current := Z.of_nat n |>) with
          | None => None
          | Some (true, ps, d) => Some (Found, ps, d)
          | Some (false, ps, d) =>
              if tries d =? 0 then Some (Failed, ps, d)
              else if (i =? 0)%nat then Some (Failed, ps, d)
              else first_try i now ps d
          end
      end
  end.

(** The next tries go on from the current peer. *)
Fixpoint next_try (i : nat) (now : Z) (ps : list rr_peer) (d : rr_data) :
    option (search_result * list rr_peer * rr_data) :=
  match i with
  | O => None
  | S i =>
      match try_peer now ps d with
      | None => None
      | Some (true, ps, d) => Some (Found, ps, d)
      | Some (false, ps, d) =>
          let c := current d + 1 in
          let d := d <| current := if Z.of_nat (length ps) <=? c then 0 else c |> in
          if tries d =? 0 then Some (Failed, ps, d)
          else if (i =? 0)%nat then Some (Failed, ps, d)
          else next_try i now ps d
      end
  end.

(** [peer->current_weight--] and [rrp->tried[n] |= m]. *)
Definition take_peer (ps : list rr_peer) (d : rr_data) : option (list rr_peer * rr_data) :=
  let c := Z.to_nat (current d) in
  match ps !! c, set_bit (tried d) (current d) with
  | Some p, Some t =>
      Some (<[c := p <| current_weight := current_weight p - 1 |>]> ps, d <| tried := t |>)
  | _, _ => None
  end.

(** After the choice: the address, and the bitmap for the backup servers when
    this is the last try of the primary ones. *)
Definition use_peer (next : list rr_peers) (p : rr_peer) (d : rr_data) : option rr_data :=
  let d := d <| sockaddr := Some (addr p) |> in
  match next with
  | backup :: _ =>
      if tries d =? 1 then
        match clear_bits (tried d) (number backup / 64 + 1) with
        | None => None
        | Some t => Some (d <| tries := tries d + number backup |> <| tried := t |>)
        end
      else Some d
  | [] => Some d
  end.

Definition mark_live (ps : list rr_peer) : list rr_peer := (λ p, p <| fails := 0 |>) <$> ps.

(** The function at [rrp->peers], the head of the list; the tail is reached by
    [next].  The result is [NGX_OK], [NGX_BUSY] and the new structures. *)
Fixpoint get_peer_at (now : Z) (chain : list rr_peers) (d : rr_data) :
    option (Z * list rr_peers * rr_data) :=
  match chain with
  | [] => None
  | ps :: next =>
      if negb (last_cached ps =? 0) then
        match cached ps !! Z.to_nat (last_cached ps) with
        | None => None
        | Some c =>
            Some (NGX_OK, ps <| last_cached := last_cached ps - 1 |> :: next,
                  d <| connection := Some c |> <| pc_cached := true |>)
        end
      else
        let d := d <| pc_cached := false |> <| connection := None |> in
        if single ps then
          match peer ps with
          | [] => None
          | p :: _ =>
              match use_peer next p d with
              | None => None
              | Some d => Some (NGX_OK, chain, d)
              end
          end
        else
          let search :=
            if tries d =? number ps then first_try (Z.to_nat (tries d)) now (peer ps) d
            else next_try (Z.to_nat (tries d)) now (peer ps) d in
          match search with
          | None => None
          | Some (Found, l, d) =>
              match take_peer l d with
              | None => None
              | Some (l, d) =>
                  match l !! Z.to_nat (current d) with
                  | None => None
                  | Some p =>
                      match use_peer next p d with
                      | None => None
                      | Some d => Some (NGX_OK, ps <| peer := l |> :: next, d)
                      end
                  end
              end
          | Some (Failed, l, d) =>
              let busy next d := Some (NGX_BUSY, ps <| peer := mark_live l |> :: next, d) in
              match next with
              | [] => busy [] d
              | backup :: _ =>
                  match clear_bits (tried d) (number backup / 64 + 1) with
                  | None => None
                  | Some t =>
                      let d := d <| at_peers := S (at_peers d) |> <| tries := number backup |>
                                 <| tried := t |> in
                      match get_peer_at now next d with
                      | None => None
                      | Some (rc, next, d) =>
                          if negb (rc =? NGX_BUSY) then Some (rc, ps <| peer := l |> :: next, d)
                          else busy next d
                      end
                  end
              end
          end
  end.

Definition ngx_http_upstream_get_round_robin_peer (now : Z) (chain : list rr_peers)
    (d : rr_data) : option (Z * list rr_peers * rr_data) :=
  match get_peer_at now (drop (at_peers d) chain) d with
  | None => None
  | Some (rc, suffix, d') => Some (rc, take (at_peers d) chain ++ suffix, d')
  end.

(** ** ngx_http_upstream_free_round_robin_peer *)



(** ** ngx_http_upstream_init_round_robin_peer: a new request *)

Definition ngx_http_upstream_init_round_robin_peer (chain : list rr_peers) : option rr_data :=
  match chain with
  | [] => None
  | ps :: next =>
      let n :=
        match next with
        | backup :: _ => if number ps <? number backup then number backup else number ps
        | [] => number ps
        end in
      let words := if n <=? 64 then 1 else (n + 63) / 64 in
      Some (mk_data 0 0 (replicate (Z.to_nat words) 0) (number ps) false None None)
  end.

(** ** ngx_http_upstream_init_round_robin: the configuration *)

(** [ngx_http_upstream_server_t]. *)
Record server := mk_server {
  s_addrs : list Z;
  s_weight : Z;
  s_max_fails : Z;
  s_fail_timeout : Z;
  s_down : bool;
  s_backup : bool;
}.

Definition primary_peers (s : server) : list rr_peer :=
  if s_backup s then []
  else
    (λ a, let w := if s_down s then 0 else s_weight s in
          mk_peer a w w 0 0 0 (s_max_fails s) (s_fail_timeout s) (s_down s)) <$> s_addrs s.

Definition backup_peers (s : server) : list rr_peer :=
  if s_backup s then
    (λ a, mk_peer a (s_weight s) (s_weight s) 0 0 0 (s_max_fails s) (s_fail_timeout s)
            (s_down s)) <$> s_addrs s
  else [].

Definition ngx_http_upstream_cmp_servers (first second : rr_peer) : Z :=
  if weight first <? weight second then 1 else 0.

Definition sort_peers (l : list rr_peer) : list rr_peer :=
  Sort.ngx_sort ngx_http_upstream_cmp_servers l.

(** An upstream block with servers; [None] is [NGX_ERROR] ("no servers"). *)
Definition ngx_http_upstream_init_round_robin (servers : list server) :
    option (list rr_peers) :=
  let peers := concat (primary_peers <$> servers) in
  let n := length peers in
  if (n =? 0)%nat then None
  else
    let backup := concat (backup_peers <$> servers) in
    if (length backup =? 0)%nat then Some [mk_peers (n =? 1)%nat 0 [] (sort_peers peers)]
    else Some [mk_peers false 0 [] (sort_peers peers); mk_peers false 0 [] (sort_peers backup)].

(** An implicit upstream, from the addresses of its host. *)
Definition init_implicit (addrs : list Z) : rr_peers :=
  mk_peers (length addrs =? 1)%nat 0 [] ((λ a, mk_peer a 1 1 0 0 0 1 10 false) <$> addrs).

(** ** Theorems *)

(** *** The choice *)

Lemma drop_cons_inv {A} (l : list A) i x r :
  drop i l = x :: r → l !! i = Some x ∧ drop (S i) l = r.
Proof.
  revert l. induction i as [|i IH]; intros [|y l]; cbn; try done.
  - by intros [= -> ->].
  - apply IH.
Qed.

(** A current weight is positive only where the weight is. *)
Definition weights_ok (ps : list rr_peer) : Prop :=
  Forall (λ p, 0 < current_weight p → weight p ≠ 0) ps.

Definition positive (ps : list rr_peer) (n : nat) : Prop :=
  ∃ p, ps !! n = Some p ∧ 0 < current_weight p.

Lemma pick_positive ps n pn i pi rest :
  weights_ok ps → ps !! n = Some pn → 0 < current_weight pn →
  ps !! i = Some pi → drop (S i) ps = rest →
  ∃ k, pick n pn i pi rest = Some k ∧ positive ps k.
Proof.
  intros Hw. revert n pn i pi. induction rest as [|p rest IH]; intros n pn i pi Hn Hpn Hi Hrest; cbn.
  - destruct (Z.ltb_spec 0 (current_weight pi)); eexists; (split; [done|]); eexists; done.
  - apply drop_cons_inv in Hrest as [HSi Hrest'].
    destruct (Z.leb_spec (current_weight p) 0); [by eapply IH|].
    unfold heavier. unfold weights_ok in Hw. rewrite Forall_lookup in Hw.
    specialize (Hw _ _ HSi ltac:(lia)).
    replace (current_weight p =? 0) with false by lia. replace (weight p =? 0) with false by lia.
    cbn [orb]. destruct (_ <? _); [by eexists; split; [|eexists]|]. by eapply IH.
Qed.

Lemma first_positive_spec ps i rest :
  weights_ok ps → drop i ps = rest →
  (∃ k, first_positive i rest = Some (Some k) ∧ positive ps k) ∨
  (first_positive i rest = Some None ∧ Forall (λ p, current_weight p ≤ 0) rest).
Proof.
  intros Hw. revert i. induction rest as [|p rest IH]; intros i Hrest; cbn; [by right|].
  apply drop_cons_inv in Hrest as [Hi Hrest'].
  destruct (Z.leb_spec (current_weight p) 0).
  - destruct (IH (S i) Hrest') as [?|[? ?]]; [by left|]. right. split; [done|by constructor].
  - left. destruct (pick_positive ps i p i p rest) as (k & -> & Hk); [done..|]. by exists k.
Qed.

(** [ngx_http_upstream_get_peer] chooses a peer whose current weight is
    positive, after a reset when there is none. *)
Lemma get_peer_spec ps :
  weights_ok ps →
  (∃ n, positive ps n ∧ ngx_http_upstream_get_peer ps = Some (n, ps)) ∨
  (Forall (λ p, current_weight p ≤ 0) ps ∧
   ngx_http_upstream_get_peer ps =
   match first_positive 0 (reset_weights ps) with
   | None => None
   | Some (Some n) => Some (n, reset_weights ps)
   | Some None => Some (0%nat, reset_weights ps)
   end).
Proof.
  intros Hw. unfold ngx_http_upstream_get_peer.
  destruct (first_positive_spec ps 0 ps Hw eq_refl) as [(k & -> & Hk)|[-> Hz]];
    [left; by exists k|by right].
Qed.

Lemma reset_weights_ok ps : Forall (λ p, 0 ≤ weight p) ps → weights_ok (reset_weights ps).
Proof.
  intros Hw. unfold weights_ok, reset_weights. apply Forall_fmap. eapply list.Forall_impl; [exact Hw|].
  intros p Hp. cbn. lia.
Qed.

Lemma get_peer_total ps :
  weights_ok ps → Forall (λ p, 0 ≤ weight p) ps →
  ∃ n ps', ngx_http_upstream_get_peer ps = Some (n, ps') ∧
    (ps' = ps ∨ ps' = reset_weights ps) ∧ (ps ≠ [] → (n < length ps)%nat).
Proof.
  intros Hw Hnn. destruct (get_peer_spec ps Hw) as [(n & (p & Hp & _) & ->)|[_ ->]].
  - exists n, ps. split; [done|]. split; [by left|]. intros _. by eapply lookup_lt_Some.
  - pose proof (reset_weights_ok ps Hnn) as Hr.
    assert (length (reset_weights ps) = length ps) as Hl by apply length_fmap.
    destruct (first_positive_spec _ 0 (reset_weights ps) Hr eq_refl) as [(k & -> & (p & Hp & _))|[-> _]].
    + exists k, (reset_weights ps). split; [done|]. split; [by right|]. intros _.
      rewrite <- Hl. by eapply lookup_lt_Some.
    + exists 0%nat, (reset_weights ps). split; [done|]. split; [by right|]. intros Hne.
      destruct ps; [done|]. cbn. lia.
Qed.

(** *** Fairness *)

(** A peer that requests may be sent to. *)
Definition available (p : rr_peer) : Prop :=
  down p = false ∧ (max_fails p = 0 ∨ fails p < max_fails p).

(** A request: its data are initialised and a peer is chosen; the index of the
    peer and the structures as they are left. *)
Definition serve (now : Z) (chain : list rr_peers) : option (Z * list rr_peers) :=
  match ngx_http_upstream_init_round_robin_peer chain with
  | None => None
  | Some d =>
      match ngx_http_upstream_get_round_robin_peer now chain d with
      | Some (rc, chain, d) => if rc =? NGX_OK then Some (current d, chain) else None
      | None => None
      end
  end.

(** Requests one after the other, at the times [nows]. *)
Fixpoint serve_all (nows : list Z) (chain : list rr_peers) : option (list Z * list rr_peers) :=
  match nows with
  | [] => Some ([], chain)
  | now :: nows =>
      match serve now chain with
      | None => None
      | Some (c, chain) =>
          match serve_all nows chain with
          | None => None
          | Some (cs, chain) => Some (c :: cs, chain)
          end
      end
  end.

Definition take_one (ps : list rr_peer) (n : nat) : list rr_peer :=
  alter (λ p, p <| current_weight := current_weight p - 1 |>) n ps.

Lemma bitmap_room n words :
  0 ≤ n < 64 * Z.of_nat words → (bitmap_word n < words)%nat.
Proof. intros. unfold bitmap_word. zlia. Qed.

Lemma lookup_zero_words n words :
  (n < words)%nat → replicate words 0 !! n = Some 0.
Proof. intros. by apply lookup_replicate_2. Qed.

Lemma init_peer_words ps next d :
  ngx_http_upstream_init_round_robin_peer (ps :: next) = Some d →
  ∃ words, d = mk_data 0 0 (replicate words 0) (number ps) false None None ∧
    number ps ≤ 64 * Z.of_nat words ∧
    (∀ b l, next = b :: l → number b ≤ 64 * Z.of_nat words ∧
       (number b mod 64 ≠ 0 → number b / 64 + 1 ≤ Z.of_nat words)).
Proof.
  intros [= <-]. set (n := match next with [] => _ | _ => _ end).
  exists (Z.to_nat (if n <=? 64 then 1 else (n + 63) / 64)). split; [done|].
  assert (0 ≤ number ps) by (unfold number; lia).
  assert (number ps ≤ n) by (subst n; destruct next; [done|]; case_match; lia).
  split; [destruct (Z.leb_spec n 64); zlia|]. intros b l ->.
  assert (0 ≤ number b) by (unfold number; lia).
  assert (number b ≤ n ∧ (n = number b ∨ n = number ps)) as [? ?] by (subst n; case_match; lia).
  clearbody n. split; destruct (Z.leb_spec n 64); zlia.
Qed.

Lemma serve_step now ps next n l p :
  single ps = false → last_cached ps = 0 → 2 ≤ number ps →
  ngx_http_upstream_get_peer (peer ps) = Some (n, l) → length l = length (peer ps) →
  l !! n = Some p → available p →
  serve now (ps :: next) = Some (Z.of_nat n, ps <| peer := take_one l n |> :: next).
Proof.
  intros Hs Hc Hnum Hget Hl Hn [Hdown Hfails]. unfold serve.
  destruct (ngx_http_upstream_init_round_robin_peer _) as [d|] eqn:Hd; [|by destruct next].
  apply init_peer_words in Hd as (words & -> & Hwords & _).
  unfold ngx_http_upstream_get_round_robin_peer. cbn [at_peers drop take].
  cbn [get_peer_at]. rewrite Hc, Hs. cbn [negb Z.eqb].
  cbn [tries set_field at_peers current tried pc_cached connection sockaddr].
  rewrite Z.eqb_refl. unfold first_try.
  destruct (Z.to_nat (number ps)) as [|i] eqn:Ei; [lia|]. cbn. rewrite Hget.
  apply lookup_lt_Some in Hn as Hlt. unfold number in *.
  pose proof (bitmap_room (Z.of_nat n) words ltac:(lia)) as Hroom.
  unfold try_peer. cbn [tried current set_field]. rewrite lookup_zero_words by done.
  rewrite Z.land_0_l. cbn [Z.eqb]. rewrite Nat2Z.id, Hn, Hdown. cbn [negb].
  replace ((max_fails p =? 0) || (fails p <? max_fails p)) with true
    by (symmetry; apply orb_true_iff; rewrite Z.eqb_eq, Z.ltb_lt; done).
  unfold take_peer. cbn [tried current set_field]. rewrite Nat2Z.id, Hn.
  unfold set_bit. rewrite lookup_zero_words by done. cbn [current set_field].
  rewrite Nat2Z.id, list_lookup_insert_eq by done.
  assert (<[n := p <| current_weight := current_weight p - 1 |>]> l = take_one l n) as ->.
  { unfold take_one. apply list_eq. intros j. destruct (decide (j = n)) as [->|].
    - rewrite list_lookup_insert_eq, list_lookup_alter_eq, Hn by done. done.
    - by rewrite list_lookup_insert_ne, list_lookup_alter_ne by done. }
  unfold use_peer. cbn [tries set_field]. destruct next as [|b next]; [done|].
  by replace (Z.of_nat (length (peer ps)) =? 1) with false by lia.
Qed.

Definition total (f : rr_peer → Z) (l : list rr_peer) : Z := foldr (λ p s, f p + s) 0 l.

Definition healthy (l : list rr_peer) : Prop := Forall (λ p, available p ∧ 0 < weight p) l.

Definition empty_weight (p : rr_peer) : rr_peer := p <| current_weight := 0 |>.

(** How often the peer [i] occurs in the choices. *)
Definition chosen (i : nat) (cs : list Z) : Z := Z.of_nat (count_occ Z.eq_dec cs (Z.of_nat i)).

Lemma total_take_one l n p :
  l !! n = Some p → total current_weight (take_one l n) = total current_weight l - 1.
Proof.
  unfold take_one. revert n. induction l as [|q l IH]; intros [|n]; cbn; try done.
  - intros [= ->]. lia.
  - intros Hn. change (foldr _ 0 (alter _ n l)) with (total current_weight (take_one l n)).
    unfold take_one. rewrite IH by done. fold (total current_weight l). lia.
Qed.

Lemma total_positive l :
  Forall (λ p, current_weight p ≤ 0) l → total current_weight l ≤ 0.
Proof. induction 1; cbn; [lia|]. fold (total current_weight l). lia. Qed.

Lemma total_zero l :
  Forall (λ p, 0 ≤ current_weight p) l → total current_weight l = 0 →
  Forall (λ p, current_weight p = 0) l.
Proof.
  induction 1 as [|p l Hp Hl IH]; [done|]. cbn. fold (total current_weight l). intros Hz.
  assert (0 ≤ total current_weight l).
  { clear IH Hz. induction Hl; cbn; [lia|]. fold (total current_weight l). lia. }
  constructor; [lia|]. apply IH. lia.
Qed.

Lemma empty_weight_id l : Forall (λ p, current_weight p = 0) l → empty_weight <$> l = l.
Proof.
  induction 1 as [|p l Hp Hl IH]; [done|]. cbn. rewrite IH. f_equal.
  destruct p; cbn in *. by subst.
Qed.

(** Taking from a peer or resetting the weights changes nothing but current
    weights. *)
Lemma take_one_empty l n : empty_weight <$> take_one l n = empty_weight <$> l.
Proof.
  unfold take_one. apply list_eq. intros j. rewrite !list_lookup_fmap.
  destruct (decide (j = n)) as [->|].
  - rewrite list_lookup_alter_eq. by destruct (l !! n).
  - by rewrite list_lookup_alter_ne.
Qed.

Lemma reset_empty l : empty_weight <$> reset_weights l = empty_weight <$> l.
Proof. unfold reset_weights. rewrite <- list_fmap_compose. by apply list_fmap_ext. Qed.

Lemma healthy_empty l l' : empty_weight <$> l = empty_weight <$> l' → healthy l → healthy l'.
Proof.
  intros He Hh. unfold healthy in *. rewrite Forall_lookup in *. intros i p' Hp'.
  assert ((empty_weight <$> l) !! i = Some (empty_weight p')) as Hi
    by (rewrite He, list_lookup_fmap, Hp'; done).
  rewrite list_lookup_fmap in Hi. destruct (l !! i) as [p|] eqn:Hp; [|done].
  specialize (Hh i p Hp). injection Hi. destruct p, p'. cbn in *. intros. by subst.
Qed.

Lemma healthy_weights_ok l : healthy l → weights_ok l.
Proof. intros Hh. eapply list.Forall_impl; [exact Hh|]. cbn. intros p [_ ?]. lia. Qed.

Lemma positive_exists l :
  healthy l → 0 < total current_weight l →
  ∃ n p, ngx_http_upstream_get_peer l = Some (n, l) ∧ l !! n = Some p ∧ 0 < current_weight p.
Proof.
  intros Hh Ht. destruct (get_peer_spec l (healthy_weights_ok l Hh)) as [(n & (p & Hp & Hc) & ->)|[Hz _]].
  - by exists n, p.
  - apply total_positive in Hz. lia.
Qed.

(** As many requests as the current weights add up to use them up exactly. *)
Lemma serve_all_drain nows : ∀ ps next,
  single ps = false → last_cached ps = 0 → 2 ≤ number ps → healthy (peer ps) →
  Forall (λ p, 0 ≤ current_weight p) (peer ps) →
  total current_weight (peer ps) = Z.of_nat (length nows) →
  ∃ cs, serve_all nows (ps :: next) =
        Some (cs, ps <| peer := empty_weight <$> peer ps |> :: next) ∧
    ∀ i p, peer ps !! i = Some p → chosen i cs = current_weight p.
Proof.
  induction nows as [|now nows IH]; intros ps next Hs Hc Hnum Hh Hnn Ht; cbn [length] in Ht.
  - apply total_zero in Hnn; [|done]. exists []. cbn. rewrite empty_weight_id by done.
    split; [by destruct ps|]. intros i p Hp. rewrite Forall_lookup in Hnn.
    by rewrite (Hnn _ _ Hp).
  - destruct (positive_exists (peer ps)) as (n & p & Hget & Hp & Hpos); [done|lia|].
    assert (available p) as Ha by (unfold healthy in Hh; rewrite Forall_lookup in Hh; by apply (Hh n)).
    cbn [serve_all]. rewrite (serve_step now ps next n (peer ps) p) by done.
    set (ps' := ps <| peer := take_one (peer ps) n |>).
    destruct (IH ps' next) as (cs & Hcs & Hcount).
    { done. } { done. }
    { unfold number, ps', take_one. cbn. by rewrite length_alter. }
    { eapply healthy_empty; [|exact Hh]. symmetry. apply take_one_empty. }
    { unfold ps', take_one. cbn. rewrite Forall_lookup in *. intros j q.
      destruct (decide (j = n)) as [->|].
      - rewrite list_lookup_alter_eq, Hp. cbn. intros [= <-]. cbn. lia.
      - rewrite list_lookup_alter_ne by done. apply Hnn. }
    { change (total current_weight (take_one (peer ps) n) = Z.of_nat (length nows)).
      rewrite (total_take_one _ _ p) by done. lia. }
    rewrite Hcs. exists (Z.of_nat n :: cs). split.
    { do 3 f_equal. unfold ps'. destruct ps. cbn. by rewrite take_one_empty. }
    intros i q Hq. unfold chosen. destruct (decide (i = n)) as [->|Hne].
    + rewrite count_occ_cons_eq by done. rewrite Hp in Hq. injection Hq as ->.
      specialize (Hcount n (q <| current_weight := current_weight q - 1 |>)).
      unfold chosen in Hcount. rewrite Nat2Z.inj_succ, Hcount; [cbn; lia|].
      unfold ps', take_one. cbn. by rewrite list_lookup_alter_eq, Hp.
    + rewrite count_occ_cons_neq by lia. apply Hcount.
      unfold ps', take_one. cbn. by rewrite list_lookup_alter_ne.
Qed.

Lemma total_reset l : total current_weight (reset_weights l) = total weight l.
Proof.
  induction l as [|p l IH]; [done|]. cbn.
  change (foldr _ 0 (_ <$> l)) with (total current_weight (reset_weights l)). rewrite IH. done.
Qed.

Lemma healthy_reset l : healthy l → healthy (reset_weights l).
Proof. intros. eapply healthy_empty; [|done]. symmetry. apply reset_empty. Qed.

Lemma total_weight_nonneg l : healthy l → 0 ≤ total weight l.
Proof. induction 1 as [|p l [_ Hp] Hl IH]; cbn; [lia|]. fold (total weight l). lia. Qed.

Lemma total_weight_pos l : healthy l → l ≠ [] → 0 < total weight l.
Proof.
  intros Hh Hne. destruct Hh as [|p l [_ Hp] Hl]; [done|]. cbn. fold (total weight l).
  pose proof (total_weight_nonneg l Hl). lia.
Qed.

(** A request that finds all the weights used up is served as after a reset. *)
Lemma serve_reset now ps next :
  single ps = false → last_cached ps = 0 → 2 ≤ number ps → healthy (peer ps) →
  Forall (λ p, current_weight p = 0) (peer ps) →
  serve now (ps :: next) = serve now (ps <| peer := reset_weights (peer ps) |> :: next).
Proof.
  intros Hs Hc Hnum Hh Hz.
  destruct (positive_exists (reset_weights (peer ps))) as (n & p & Hget & Hp & Hpos).
  { by apply healthy_reset. }
  { rewrite total_reset. apply total_weight_pos; [done|]. intros E. unfold number in Hnum.
    rewrite E in Hnum. cbn in Hnum. lia. }
  assert (length (reset_weights (peer ps)) = length (peer ps)) as Hlen by apply length_fmap.
  assert (available p) as Ha.
  { pose proof (healthy_reset _ Hh) as Hr. unfold healthy in Hr. rewrite Forall_lookup in Hr.
    by apply (Hr n). }
  rewrite (serve_step now ps next n (reset_weights (peer ps)) p); [|try done..].
  - symmetry. refine (eq_trans (serve_step now (ps <| peer := reset_weights (peer ps) |>) next n
      (reset_weights (peer ps)) p _ _ _ _ _ _ _) _);
      [done|done| |done|done|done|done|by destruct ps].
    unfold number. cbn. unfold number in Hnum. by rewrite Hlen.
  - destruct (get_peer_spec (peer ps) (healthy_weights_ok _ Hh)) as [(m & (q & Hq & Hqp) & _)|[_ ->]].
    { rewrite Forall_lookup in Hz. specialize (Hz _ _ Hq). lia. }
    destruct (get_peer_spec (reset_weights (peer ps)) (healthy_weights_ok _ (healthy_reset _ Hh)))
      as [(m & _ & E)|[Hr _]].
    + unfold ngx_http_upstream_get_peer in Hget.
      destruct (first_positive 0 (reset_weights (peer ps))) as [[k|]|] eqn:Ef; [|exfalso|done].
      * by injection Hget as ->.
      * pose proof (first_positive_spec (reset_weights (peer ps)) 0 (reset_weights (peer ps))
          (healthy_weights_ok _ (healthy_reset _ Hh)) eq_refl) as [(? & E' & _)|[_ Hr]];
          [rewrite Ef in E'; done|].
        rewrite Forall_lookup in Hr. specialize (Hr _ _ Hp). lia.
    + rewrite Forall_lookup in Hr. specialize (Hr _ _ Hp). lia.
Qed.

Lemma serve_all_cycle nows ps next :
  single ps = false → last_cached ps = 0 → 2 ≤ number ps → healthy (peer ps) →
  Forall (λ p, current_weight p = weight p) (peer ps) ∨
  Forall (λ p, current_weight p = 0) (peer ps) →
  Z.of_nat (length nows) = total weight (peer ps) →
  ∃ cs, serve_all nows (ps :: next) =
        Some (cs, ps <| peer := empty_weight <$> peer ps |> :: next) ∧
    ∀ i p, peer ps !! i = Some p → chosen i cs = weight p.
Proof.
  intros Hs Hc Hnum Hh Hstart Hlen.
  assert (Hreset : ∃ cs,
    serve_all nows (ps <| peer := reset_weights (peer ps) |> :: next) =
    Some (cs, ps <| peer := empty_weight <$> peer ps |> :: next) ∧
    ∀ i p, peer ps !! i = Some p → chosen i cs = weight p).
  { destruct (serve_all_drain nows (ps <| peer := reset_weights (peer ps) |>) next)
      as (cs & -> & Hcount).
    { done. } { done. }
    { unfold number in *. cbn. unfold reset_weights. by rewrite length_fmap. }
    { by apply healthy_reset. }
    { cbn. apply Forall_fmap. eapply list.Forall_impl; [exact Hh|]. intros p [_ ?]. cbn. lia. }
    { change (total current_weight (reset_weights (peer ps)) = Z.of_nat (length nows)).
      by rewrite total_reset. }
    exists cs. split; [do 3 f_equal; destruct ps; cbn; by rewrite reset_empty|].
    intros i p Hp. specialize (Hcount i (p <| current_weight := weight p |>)).
    apply Hcount. cbn. unfold reset_weights. by rewrite list_lookup_fmap, Hp. }
  destruct Hstart as [Hfresh|Hz].
  - assert (reset_weights (peer ps) = peer ps) as E.
    { clear -Hfresh. induction Hfresh as [|p l Hp Hl IH]; [done|]. cbn.
      change (_ <$> l) with (reset_weights l). rewrite IH. f_equal. destruct p; cbn in *. by subst. }
    rewrite E in Hreset. destruct ps. exact Hreset.
  - destruct nows as [|now nows].
    { pose proof (total_weight_pos (peer ps) Hh) as Hp. cbn in Hlen. exfalso.
      assert (peer ps ≠ []) by (intros E; unfold number in Hnum; rewrite E in Hnum; cbn in Hnum; lia).
      specialize (Hp ltac:(done)). lia. }
    cbn [serve_all] in *. by rewrite serve_reset.
Qed.

Lemma serve_all_app now1 now2 chain :
  serve_all (now1 ++ now2) chain =
  match serve_all now1 chain with
  | None => None
  | Some (cs, chain) =>
      match serve_all now2 chain with
      | None => None
      | Some (cs', chain) => Some (cs ++ cs', chain)
      end
  end.
Proof.
  revert chain. induction now1 as [|now now1 IH]; intros chain; cbn.
  - by destruct (serve_all now2 chain) as [[]|].
  - destruct (serve now chain) as [[c chain']|]; [|done]. rewrite IH.
    destruct (serve_all now1 chain') as [[cs chain'']|]; [|done].
    by destruct (serve_all now2 chain'') as [[]|].
Qed.

(** C34: The balancer is fair: when all the servers are available and [k] times as
    many requests arrive as the weights add up to, every server gets [k] times
    its weight of them, whatever the times of the requests are. *)
Theorem round_robin_fair k : ∀ nows ps next,
  single ps = false → last_cached ps = 0 → 2 ≤ number ps → healthy (peer ps) →
  Forall (λ p, current_weight p = weight p) (peer ps) ∨
  Forall (λ p, current_weight p = 0) (peer ps) →
  Z.of_nat (length nows) = Z.of_nat k * total weight (peer ps) →
  ∃ cs chain, serve_all nows (ps :: next) = Some (cs, chain) ∧
    ∀ i p, peer ps !! i = Some p → chosen i cs = Z.of_nat k * weight p.
Proof.
  induction k as [|k IH]; intros nows ps next Hs Hc Hnum Hh Hstart Hlen.
  { destruct nows; [|cbn in Hlen; lia]. by exists [], (ps :: next). }
  set (W := total weight (peer ps)) in *.
  assert (0 ≤ W) by by apply total_weight_nonneg.
  rewrite <- (take_drop (Z.to_nat W) nows), serve_all_app.
  destruct (serve_all_cycle (take (Z.to_nat W) nows) ps next) as (cs1 & -> & H1);
    [done..|rewrite length_take; fold W; nia|].
  set (ps' := ps <| peer := empty_weight <$> peer ps |>).
  assert (total weight (empty_weight <$> peer ps) = W) as HW.
  { unfold W. generalize (peer ps) as l. induction l as [|p l IHl]; [done|]. cbn.
    fold (total weight (empty_weight <$> l)). rewrite IHl. done. }
  destruct (IH (drop (Z.to_nat W) nows) ps' next) as (cs2 & chain & -> & H2).
  { done. } { done. }
  { unfold number, ps' in *. cbn. by rewrite length_fmap. }
  { eapply healthy_empty; [|exact Hh]. unfold ps'. cbn. rewrite <- list_fmap_compose.
    by apply list_fmap_ext. }
  { right. unfold ps'. cbn. apply Forall_fmap, Forall_forall. done. }
  { change (peer ps') with (empty_weight <$> peer ps). rewrite HW, length_drop. nia. }
  exists (cs1 ++ cs2), chain. split; [done|]. intros i p Hp. unfold chosen.
  rewrite count_occ_app, Nat2Z.inj_add.
  specialize (H1 i p Hp). specialize (H2 i (empty_weight p)). unfold chosen in H1, H2.
  rewrite H1, H2; [cbn; lia|]. unfold ps'. cbn. by rewrite list_lookup_fmap, Hp.
Qed.

(** *** The invariant of the structures *)

(** A current weight never exceeds the weight. *)
Definition peer_ok (p : rr_peer) : Prop :=
  0 ≤ weight p ∧ current_weight p ≤ weight p ∧ 0 ≤ max_fails p.

(** What the balancer never changes. *)
Definition config (p : rr_peer) : Z * Z * Z * Z * bool :=
  (addr p, weight p, max_fails p, fail_timeout p, down p).

(** [ps'] is a later state of the peers [ps]. *)
Record evolves (ps ps' : list rr_peer) : Prop := {
  ev_ok : Forall peer_ok ps → Forall peer_ok ps';
  ev_config : config <$> ps' = config <$> ps;
}.

#[export] Instance evolves_preorder : PreOrder evolves.
Proof.
  split; [done|]. intros l1 l2 l3 [Ho1 Hc1] [Ho2 Hc2]. split; [by auto|by rewrite Hc2].
Qed.

Lemma evolves_length ps ps' : evolves ps ps' → length ps' = length ps.
Proof. intros [_ H]. by rewrite <- (length_fmap config ps'), H, length_fmap. Qed.

Lemma evolves_insert ps c p p' :
  ps !! c = Some p → config p' = config p → (peer_ok p → peer_ok p') →
  evolves ps (<[c := p']> ps).
Proof.
  intros Hp Hc Ho. split.
  - intros Hok. apply Forall_insert; [done|]. apply Ho. rewrite Forall_lookup in Hok. by eapply Hok.
  - rewrite list_fmap_insert, Hc. apply list_insert_id. by rewrite list_lookup_fmap, Hp.
Qed.

Lemma evolves_fmap ps f :
  (∀ p, config (f p) = config p) → (∀ p, peer_ok p → peer_ok (f p)) → evolves ps (f <$> ps).
Proof.
  intros Hc Ho. split.
  - intros Hok. apply Forall_fmap. eapply list.Forall_impl; [exact Hok|]. done.
  - rewrite <- list_fmap_compose. apply list_fmap_ext. intros. apply Hc.
Qed.

Lemma evolves_reset ps : evolves ps (reset_weights ps).
Proof. apply evolves_fmap; [done|]. unfold peer_ok. cbn. lia. Qed.

Lemma evolves_live ps : evolves ps (mark_live ps).
Proof. apply evolves_fmap; [done|]. unfold peer_ok. by cbn. Qed.

Lemma peer_ok_weights ps : Forall peer_ok ps → weights_ok ps ∧ Forall (λ p, 0 ≤ weight p) ps.
Proof.
  intros H. split; (eapply list.Forall_impl; [exact H|]); unfold peer_ok; cbn; intros; lia.
Qed.

(** *** One peer *)

(** A peer a request is sent to: it is not down, and it has not failed too
    often or has just been given another chance. *)
Definition usable (now : Z) (p : rr_peer) : Prop :=
  down p = false ∧ (max_fails p = 0 ∨ fails p < max_fails p ∨ checked p = now).

Definition words_for (d : rr_data) (ps : list rr_peer) : Prop :=
  Z.of_nat (length ps) ≤ 64 * Z.of_nat (length (tried d)).

Lemma set_bit_some tried c :
  0 ≤ c < 64 * Z.of_nat (length tried) →
  ∃ t, set_bit tried c = Some t ∧ length t = length tried.
Proof.
  intros Hc. unfold set_bit.
  destruct (lookup_lt_is_Some_2 tried (bitmap_word c)) as [w ->]; [by apply bitmap_room|].
  eexists. split; [done|]. by rewrite length_insert.
Qed.

Lemma try_peer_spec now ps d :
  words_for d ps → 0 ≤ current d < Z.of_nat (length ps) → 1 ≤ tries d ≤ 4611686018427387904 →
  ∃ b ps' d', try_peer now ps d = Some (b, ps', d') ∧ evolves ps ps' ∧
    at_peers d' = at_peers d ∧ current d' = current d ∧ length (tried d') = length (tried d) ∧
    tries d - 1 ≤ tries d' ≤ tries d ∧
    (b = true → tries d' = tries d ∧
      ∃ p, ps' !! Z.to_nat (current d') = Some p ∧ usable now p).
Proof.
  intros Hw Hc Ht. unfold words_for in Hw. unfold try_peer.
  destruct (lookup_lt_is_Some_2 (tried d) (bitmap_word (current d))) as [w ->];
    [apply bitmap_room; lia|].
  destruct (Z.land w _ =? 0); [|by exists false, ps, d; repeat split; try lia].
  destruct (lookup_lt_is_Some_2 ps (Z.to_nat (current d))) as [p Hp]; [lia|]. rewrite Hp.
  destruct (down p) eqn:Hd; cbn [negb].
  { destruct (set_bit_some (tried d) (current d)) as (t & -> & Hl); [lia|].
    eexists false, ps, _. split; [done|]. cbn. rewrite u64_id by lia.
    repeat split; try lia; done. }
  destruct ((max_fails p =? 0) || (fails p <? max_fails p)) eqn:Hf.
  { exists true, ps, d. split; [done|]. repeat split; try lia; try done.
    exists p. split; [done|]. split; [done|]. apply orb_true_iff in Hf.
    rewrite Z.eqb_eq, Z.ltb_lt in Hf. lia. }
  destruct (fail_timeout p <? now - checked p).
  - eexists true, _, d. split; [done|]. split; [by eapply evolves_insert|].
    repeat split; try lia. eexists. rewrite list_lookup_insert_eq by lia.
    split; [done|]. split; [done|]. right. by right.
  - eexists false, _, _. split; [done|]. split.
    { eapply evolves_insert; [done|done|]. unfold peer_ok. cbn. lia. }
    cbn. rewrite u64_id by lia. repeat split; try lia; done.
Qed.

(** *** The loops *)

(** What a search leaves: [Found] is a usable peer of the new list. *)
Record search_post (now : Z) (ps : list rr_peer) (d : rr_data)
    (r : search_result) (ps' : list rr_peer) (d' : rr_data) : Prop := {
  sp_evolves : evolves ps ps';
  sp_at : at_peers d' = at_peers d;
  sp_words : length (tried d') = length (tried d);
  sp_current : 0 ≤ current d' < Z.of_nat (length ps');
  sp_tries : 0 ≤ tries d' ≤ tries d;
  sp_found : r = Found → 1 ≤ tries d' ∧
    ∃ p, ps' !! Z.to_nat (current d') = Some p ∧ usable now p;
}.

Lemma first_try_spec now i : ∀ ps d,
  (0 < i)%nat → words_for d ps → ps ≠ [] → Forall peer_ok ps → 1 ≤ tries d ≤ 4611686018427387904 →
  ∃ r ps' d', first_try i now ps d = Some (r, ps', d') ∧ search_post now ps d r ps' d'.
Proof.
  induction i as [|i IH]; intros ps d Hi Hw Hne Hok Ht; [lia|]. cbn [first_try].
  destruct (peer_ok_weights ps Hok) as [Hwt Hnn].
  destruct (get_peer_total ps Hwt Hnn) as (n & ps1 & -> & Hps1 & Hn). specialize (Hn Hne).
  assert (evolves ps ps1) as Hev by (destruct Hps1 as [-> | ->]; [done|apply evolves_reset]).
  pose proof (evolves_length _ _ Hev) as Hl.
  destruct (try_peer_spec now ps1 (d <| current := Z.of_nat n |>))
    as (b & ps2 & d2 & -> & Hev2 & Hat & Hcur & Hlt & Htr & Hb).
  { unfold words_for in *. cbn. lia. } { cbn. lia. } { done. }
  cbn in Hat, Hcur, Hlt, Htr, Hb. pose proof (evolves_length _ _ Hev2) as Hl2.
  assert (evolves ps ps2) as Hev' by (by etrans).
  destruct b.
  { destruct (Hb eq_refl) as [Htr' Hp]. exists Found, ps2, d2. split; [done|].
    split; try done; try lia. intros _. split; [lia|done]. }
  destruct (Z.eqb_spec (tries d2) 0); [|destruct (Nat.eqb_spec i 0)].
  1,2: exists Failed, ps2, d2; split; [done|]; split; try done; try lia.
  destruct (IH ps2 d2) as (r & ps3 & d3 & -> & [? ? ? ? ? ?]); [lia| | |by apply Hev'|lia|].
  { unfold words_for in *. lia. } { intros ->. cbn in Hl2. lia. }
  exists r, ps3, d3. split; [done|].
  split; [by etrans|congruence|congruence|done|lia|done].
Qed.

Lemma next_try_spec now i : ∀ ps d,
  (0 < i)%nat → words_for d ps → 0 ≤ current d < Z.of_nat (length ps) →
  1 ≤ tries d ≤ 4611686018427387904 →
  ∃ r ps' d', next_try i now ps d = Some (r, ps', d') ∧ search_post now ps d r ps' d'.
Proof.
  induction i as [|i IH]; intros ps d Hi Hw Hc Ht; [lia|]. cbn [next_try].
  destruct (try_peer_spec now ps d Hw Hc Ht) as (b & ps2 & d2 & -> & Hev2 & Hat & Hcur & Hlt & Htr & Hb).
  pose proof (evolves_length _ _ Hev2) as Hl2. destruct b.
  { destruct (Hb eq_refl) as [Htr' Hp]. exists Found, ps2, d2. split; [done|].
    split; try done; try lia. intros _. split; [lia|done]. }
  set (c := if _ <=? _ then 0 else _).
  assert (0 ≤ c < Z.of_nat (length ps2)) as Hc2
    by (subst c; destruct (Z.leb_spec (Z.of_nat (length ps2)) (current d2 + 1)); lia).
  cbn [tries set_field]. change (tries (d2 <| current := c |>)) with (tries d2).
  destruct (Z.eqb_spec (tries d2) 0); [|destruct (Nat.eqb_spec i 0)].
  1,2: exists Failed, ps2, (d2 <| current := c |>); split; [done|]; split; try done; cbn; try lia.
  destruct (IH ps2 (d2 <| current := c |>)) as (r & ps3 & d3 & -> & [? ? ? ? ? ?]);
    [lia| |done|cbn; lia|].
  { unfold words_for in *. cbn. lia. }
  exists r, ps3, d3. split; [done|]. cbn in *.
  split; [by etrans|congruence|congruence|done|lia|done].
Qed.

Lemma take_peer_spec now ps d p :
  words_for d ps → 0 ≤ current d → ps !! Z.to_nat (current d) = Some p → usable now p →
  ∃ ps' d' p', take_peer ps d = Some (ps', d') ∧ evolves ps ps' ∧
    d' = d <| tried := tried d' |> ∧ length (tried d') = length (tried d) ∧
    ps' !! Z.to_nat (current d) = Some p' ∧ usable now p'.
Proof.
  intros Hw Hc Hp Hu. unfold take_peer. rewrite Hp. apply lookup_lt_Some in Hp as Hlt.
  unfold words_for in Hw. destruct (set_bit_some (tried d) (current d)) as (t & -> & Hl); [lia|].
  eexists _, _, _. split; [done|]. split.
  { eapply evolves_insert; [done|done|]. unfold peer_ok. cbn. lia. }
  split; [done|]. split; [done|]. split; [by apply list_lookup_insert_eq|]. done.
Qed.

Lemma clear_bits_some tried n :
  0 ≤ n ≤ Z.of_nat (length tried) →
  ∃ t, clear_bits tried n = Some t ∧ length t = length tried.
Proof.
  intros Hn. unfold clear_bits. replace (_ <? n) with false by lia.
  eexists. split; [done|]. rewrite length_app, length_replicate, length_drop. lia.
Qed.

(** *** The whole function *)

Record level_ok (ps : rr_peers) : Prop := {
  lo_cached : last_cached ps = 0;
  lo_peers : peer ps ≠ [];
  lo_peer : Forall peer_ok (peer ps);
  lo_number : number ps ≤ 1152921504606846976;
  lo_single : single ps = true → number ps = 1;
}.

Record level_evolves (ps ps' : rr_peers) : Prop := {
  le_single : single ps' = single ps;
  le_cached : last_cached ps' = last_cached ps;
  le_peer : evolves (peer ps) (peer ps');
}.


Lemma level_evolves_refl ps : level_evolves ps ps.
Proof. by split. Qed.

Lemma level_evolves_set ps l : evolves (peer ps) l → level_evolves ps (ps <| peer := l |>).
Proof. by split. Qed.

(** The bitmap has a bit for every peer, and the words that are cleared for
    the backup servers. *)
Definition words_ok (chain : list rr_peers) (d : rr_data) : Prop :=
  Forall (λ ps, number ps ≤ 64 * Z.of_nat (length (tried d))) chain ∧
  Forall (λ ps, number ps / 64 + 1 ≤ Z.of_nat (length (tried d))) (tail chain).

(** A peer of the chain, from [rrp->peers] on, was chosen. *)
Definition chosen_peer (now : Z) (base : nat) (chain : list rr_peers) (d : rr_data) : Prop :=
  ∃ ps p, chain !! (at_peers d - base)%nat = Some ps ∧
    peer ps !! Z.to_nat (current d) = Some p ∧ sockaddr d = Some (addr p) ∧
    (single ps = true ∨ usable now p).

(** The position of a request: its current peer exists, its tries are bounded. *)
Abbreviation MAX_TRIES := 1152921504606846977.
Definition placed (base : nat) (chain : list rr_peers) (d : rr_data) : Prop :=
  0 ≤ tries d ≤ MAX_TRIES ∧
  ∃ ps, chain !! (at_peers d - base)%nat = Some ps ∧ 0 ≤ current d < number ps.

Definition all_live (chain : list rr_peers) : Prop :=
  Forall (λ ps, Forall (λ p, fails p = 0) (peer ps)) chain.

Lemma mark_live_fails l : Forall (λ p, fails p = 0) (mark_live l).
Proof. apply Forall_fmap, Forall_forall. done. Qed.

Lemma use_peer_spec next p d :
  words_ok (match next with [] => [] | b :: _ => [b; b] end) d →
  ∃ d', use_peer next p d = Some d' ∧ sockaddr d' = Some (addr p) ∧
    at_peers d' = at_peers d ∧ current d' = current d ∧ length (tried d') = length (tried d) ∧
    (tries d' = tries d ∨ ∃ b l, next = b :: l ∧ tries d' = 1 + number b).
Proof.
  intros Hw. unfold use_peer. destruct next as [|b next].
  { eexists. split; [done|]. split; [done|]. split; [done|]. split; [done|]. split; [done|by left]. }
  cbn [tries set_field]. change (tries (d <| sockaddr := _ |>)) with (tries d).
  destruct (Z.eqb_spec (tries d) 1) as [E1|];
    [|eexists; split; [done|]; split; [done|]; split; [done|]; split; [done|]; split; [done|by left]].
  destruct Hw as [_ Hb]. apply Forall_inv in Hb. change (tried (d <| sockaddr := _ |>)) with (tried d).
  assert (0 ≤ number b / 64) by (unfold number; zlia).
  destruct (clear_bits_some (tried d) (number b / 64 + 1)) as (t & -> & Hl); [lia|].
  eexists. split; [done|]. split; [done|]. split; [done|]. split; [done|]. split; [done|].
  right. exists b, next. split; [done|]. cbn. lia.
Qed.

Lemma words_ok_next ps next d d' :
  words_ok (ps :: next) d → length (tried d') = length (tried d) →
  words_ok next d' ∧ words_ok (match next with [] => [] | b :: _ => [b; b] end) d'.
Proof.
  intros [H1 H2] E. unfold words_ok. rewrite E. cbn [tail] in *.
  inversion_clear H1 as [|?? _ H1'].
  split; [split; [done|destruct next; [done|by inversion_clear H2]]|].
  destruct next as [|b next]; [by repeat constructor|].
  inversion_clear H1'. inversion_clear H2. by repeat constructor.
Qed.

Lemma get_peer_at_spec now chain : ∀ d,
  chain ≠ [] → Forall level_ok chain → Forall (λ ps, single ps = false) (tail chain) →
  words_ok chain d → 1 ≤ tries d ≤ MAX_TRIES →
  (∀ ps, head chain = Some ps →
     0 ≤ current d < number ps ∨ (tries d = number ps ∧ single ps = false)) →
  ∃ rc chain' d', get_peer_at now chain d = Some (rc, chain', d') ∧
    Forall2 level_evolves chain chain' ∧ length (tried d') = length (tried d) ∧
    (at_peers d ≤ at_peers d')%nat ∧ placed (at_peers d) chain' d' ∧
    ((rc = NGX_OK ∧ chosen_peer now (at_peers d) chain' d') ∨ (rc = NGX_BUSY ∧ all_live chain')).
Proof.
  induction chain as [|ps next IH]; intros d Hne Hok Hns Hw Ht Hcur; [done|].
  apply Forall_cons_1 in Hok as [[Hlc Hpn Hpok Hnum Hsingle] Hok'].
  cbn [get_peer_at]. rewrite Hlc. cbn [negb Z.eqb].
  set (d0 := d <| pc_cached := false |> <| connection := None |>).
  specialize (Hcur ps eq_refl).
  assert (Forall2 level_evolves next next) as Hrefl by (apply Forall_Forall2_diag, Forall_forall; intros; apply level_evolves_refl).
  destruct (single ps) eqn:Hs.
  { destruct (peer ps) as [|p l] eqn:Hp; [done|].
    destruct (use_peer_spec next p d0) as (d1 & -> & Hsock & Hat & Hc1 & Hl1 & Htr1).
    { by apply (words_ok_next ps next d d0). }
    eexists _, _, _. split; [done|]. split; [constructor; [apply level_evolves_refl|done]|].
    split; [done|]. split; [rewrite Hat; done|].
    destruct Hcur as [Hcur|[_ ?]]; [|done].
    split.
    { split.
      - destruct Htr1 as [-> |(b & l2 & -> & ->)]; [change (tries d0) with (tries d); lia|].
        apply Forall_inv in Hok' as [_ _ _ Hnb _]. unfold number in *. lia.
      - exists ps. rewrite Hat, Hc1. change (at_peers d0) with (at_peers d).
        by rewrite Nat.sub_diag. }
    left. split; [done|].
    exists ps, p. rewrite Hat. change (at_peers d0) with (at_peers d). rewrite Nat.sub_diag.
    split; [done|]. split; [|by split; [|left]].
    specialize (Hsingle eq_refl).
    rewrite Hc1. change (current d0) with (current d).
    replace (Z.to_nat (current d)) with O by lia. by rewrite Hp. }
  change (tries d0) with (tries d).
  assert (words_for d0 (peer ps)) as Hwf by (destruct Hw as [Hw _]; by apply Forall_inv in Hw).
  assert (∃ r l' d1, (if tries d =? number ps then first_try (Z.to_nat (tries d)) now (peer ps) d0
     else next_try (Z.to_nat (tries d)) now (peer ps) d0) = Some (r, l', d1) ∧
     search_post now (peer ps) d0 r l' d1) as (r & l' & d1 & -> & [Hev Hat Hwd Hc1 Htr Hfound]).
  { destruct (Z.eqb_spec (tries d) (number ps)).
    - apply first_try_spec; try done; change (tries d0) with (tries d); lia.
    - apply next_try_spec; [lia|done| |change (tries d0) with (tries d); lia]. change (current d0) with (current d).
      destruct Hcur as [?|[? _]]; [done|lia]. }
  change (length (tried d0)) with (length (tried d)) in Hwd.
  change (at_peers d0) with (at_peers d) in Hat.
  pose proof (evolves_length _ _ Hev) as Hl.
  destruct r.
  - destruct (Hfound eq_refl) as [Ht1 (p & Hp & Hu)].
    destruct (take_peer_spec now l' d1 p) as (l2 & d2 & p2 & -> & Hev2 & Hd2 & Hl2 & Hp2 & Hu2);
      [|lia|done|done|].
    { unfold words_for in *. rewrite Hwd, Hl. exact Hwf. }
    assert (current d2 = current d1 ∧ at_peers d2 = at_peers d1 ∧ tries d2 = tries d1)
      as (Ec & Ea & Et) by (rewrite Hd2; done).
    change (tries d0) with (tries d) in Htr.
    rewrite Ec, Hp2.
    destruct (use_peer_spec next p2 d2) as (d3 & -> & Hsock & Hat3 & Hc3 & Hl3 & Htr3).
    { apply (words_ok_next ps next d d2); [done|congruence]. }
    eexists _, _, _. split; [done|].
    split; [constructor; [apply level_evolves_set; by etrans|done]|].
    split; [congruence|]. split; [rewrite Hat3, Ea, Hat; done|]. split.
    { split.
      - destruct Htr3 as [-> |(b & l3 & -> & ->)]; [lia|].
        apply Forall_inv in Hok' as [_ _ _ Hnb _]. unfold number in *. lia.
      - eexists. rewrite Hat3, Ea, Hat, Nat.sub_diag, Hc3, Ec. split; [done|].
        unfold number. cbn. apply evolves_length in Hev2. lia. }
    left. split; [done|].
    exists (ps <| peer := l2 |>), p2. rewrite Hat3, Ea, Hat, Nat.sub_diag, Hc3, Ec.
    split; [done|]. split; [done|]. split; [done|by right].
  - assert (level_evolves ps (ps <| peer := mark_live l' |>)) as Hlive
      by (apply level_evolves_set; etrans; [exact Hev|apply evolves_live]).
    destruct next as [|b next].
    { eexists _, _, _. split; [done|]. split; [constructor; [exact Hlive|constructor]|].
      split; [done|]. split; [rewrite Hat; done|]. split.
      { split; [change (tries d0) with (tries d) in Htr; lia|]. eexists. rewrite Hat, Nat.sub_diag.
        split; [done|]. unfold number, mark_live. cbn. by rewrite length_fmap. }
      right. split; [done|]. constructor; [apply mark_live_fails|constructor]. }
    assert (0 ≤ number b / 64 ∧ number b / 64 + 1 ≤ Z.of_nat (length (tried d1))) as [? ?].
    { destruct Hw as [_ Hw]. apply Forall_inv in Hw. rewrite Hwd. unfold number in *. zlia. }
    destruct (clear_bits_some (tried d1) (number b / 64 + 1)) as (t & -> & Hlt); [lia|].
    set (d2 := d1 <| at_peers := S (at_peers d1) |> <| tries := number b |> <| tried := t |>).
    apply Forall_inv in Hok' as Hb.
    assert (1 ≤ number b) by (destruct Hb as [_ Hb _ _ _]; unfold number; destruct (peer b); [done|cbn; lia]).
    destruct (IH d2) as (rc & next' & d3 & Eq & Hev3 & Hl3 & Hat3 & Hpl & Hout).
    { done. } { done. } { by inversion_clear Hns. }
    { apply (words_ok_next ps (b :: next) d d2); [done|]. cbn. congruence. }
    { cbn. destruct Hb. lia. }
    { intros b' [= <-]. right. split; [done|]. by inversion_clear Hns. }
    rewrite Eq. change (at_peers d2) with (S (at_peers d1)) in *.
    assert (∀ l, placed (at_peers d) (l :: next') d3) as Hpl'.
    { intros l. destruct Hpl as [? (ps3 & Hps3 & ?)]. split; [done|]. exists ps3. split; [|done].
      replace (at_peers d3 - at_peers d)%nat with (S (at_peers d3 - S (at_peers d1))) by lia. done. }
    assert (length (tried d3) = length (tried d)) as El by (rewrite Hl3; cbn; congruence).
    destruct Hout as [[-> Hout]|[-> Hout]].
    + eexists _, _, _. split; [done|].
      split; [constructor; [by apply level_evolves_set|done]|]. split; [done|].
      split; [lia|]. split; [apply Hpl'|]. left. split; [done|]. destruct Hout as (ps2 & p2 & Hps2 & Hrest).
      exists ps2, p2. split; [|done].
      replace (at_peers d3 - at_peers d)%nat with (S (at_peers d3 - S (at_peers d1))) by lia. done.
    + eexists _, _, _. split; [done|]. split; [by constructor|]. split; [done|]. split; [lia|].
      split; [apply Hpl'|]. right. split; [done|]. constructor; [apply mark_live_fails|done].
Qed.

(** *** An upstream and its requests *)


(** Primary servers, and perhaps backup servers whose number is not a multiple
    of the 64 bits of a word (see [bitmap_overflow]). *)
Record upstream_ok (chain : list rr_peers) : Prop := {
  uo_level : Forall level_ok chain;
  uo_single : Forall (λ ps, single ps = false) (tail chain);
  uo_size : (∃ ps, chain = [ps]) ∨ (∃ ps b, chain = [ps; b] ∧ number b mod 64 ≠ 0);
}.

Definition request_ok (chain : list rr_peers) (d : rr_data) : Prop :=
  placed 0 chain d ∧ words_ok chain d.

Abbreviation chain_evolves := (Forall2 level_evolves).

Lemma level_evolves_number ps ps' : level_evolves ps ps' → number ps' = number ps.
Proof. intros [_ _ He]. unfold number. by rewrite (evolves_length _ _ He). Qed.

Lemma chain_evolves_tail chain chain' : chain_evolves chain chain' → chain_evolves (tail chain) (tail chain').
Proof. by intros [|????]. Qed.

Lemma forall_number (P : Z → Prop) chain chain' :
  chain_evolves chain chain' →
  Forall (λ ps, P (number ps)) chain → Forall (λ ps, P (number ps)) chain'.
Proof.
  induction 1 as [|ps ps' c c' He _ IH]; [done|]. intros H. apply Forall_cons_1 in H as [? ?].
  constructor; [|by apply IH]. by rewrite (level_evolves_number _ _ He).
Qed.

Lemma request_ok_evolves chain chain' d :
  chain_evolves chain chain' → request_ok chain d → request_ok chain' d.
Proof.
  intros He [[Ht (ps & Hps & Hc)] [H1 H2]]. split; [split; [done|]|split].
  - destruct (Forall2_lookup_l _ _ _ _ _ He Hps) as (ps' & Hps' & Hl).
    exists ps'. by rewrite (level_evolves_number _ _ Hl).
  - by eapply (forall_number (λ n, n ≤ _)).
  - eapply (forall_number (λ n, n / 64 + 1 ≤ _)); [by apply chain_evolves_tail|done].
Qed.



Lemma chain_evolves_refl chain : chain_evolves chain chain.
Proof. apply Forall_Forall2_diag, Forall_forall. intros. apply level_evolves_refl. Qed.


Lemma words_ok_drop n chain d : words_ok chain d → words_ok (drop n chain) d.
Proof.
  intros [H1 H2]. split; [by apply Forall_drop|]. destruct n as [|n]; [done|].
  destruct chain as [|ps chain]; [by rewrite drop_nil|]. cbn [drop tail] in *.
  destruct (drop n chain) eqn:E; [constructor|]. cbn.
  assert (Forall (λ ps, number ps / 64 + 1 ≤ Z.of_nat (length (tried d))) (drop n chain)) as H
    by by apply Forall_drop.
  rewrite E in H. by inversion_clear H.
Qed.

(** [ngx_http_upstream_get_round_robin_peer] gives an answer, keeps the
    invariant, and the answer is a usable peer or, when there is none,
    [NGX_BUSY] with all the failure counters reset. *)
Lemma get_spec now chain d :
  Forall level_ok chain → Forall (λ ps, single ps = false) (tail chain) → request_ok chain d →
  1 ≤ tries d →
  ∃ rc chain' d', ngx_http_upstream_get_round_robin_peer now chain d = Some (rc, chain', d') ∧
    chain_evolves chain chain' ∧ (at_peers d ≤ at_peers d')%nat ∧ request_ok chain' d' ∧
    ((rc = NGX_OK ∧ chosen_peer now 0 chain' d') ∨
     (rc = NGX_BUSY ∧ all_live (drop (at_peers d) chain'))).
Proof.
  intros Hok Hns [[Ht (ps & Hps & Hc)] Hw] H1. rewrite Nat.sub_0_r in Hps.
  assert (Hlt : (at_peers d < length chain)%nat) by by eapply lookup_lt_Some.
  set (k := at_peers d) in *.
  assert (∃ rest, drop k chain = ps :: rest) as [rest Hdrop] by (eexists; by apply drop_S).
  destruct (get_peer_at_spec now (drop k chain) d) as (rc & s' & d' & Eq & Hev & Hl & Hle & Hpl & Hout).
  { by rewrite Hdrop. } { by apply Forall_drop. }
  { destruct k as [|k']; [done|]. destruct chain as [|c chain]; [done|]. cbn [drop tail] in *.
    assert (Forall (λ ps, single ps = false) (drop k' chain)) as H by by apply Forall_drop.
    rewrite Hdrop in *. cbn. by inversion_clear H. }
  { by apply words_ok_drop. } { lia. }
  { intros ps'. rewrite Hdrop. cbn. intros [= <-]. by left. }
  unfold ngx_http_upstream_get_round_robin_peer. fold k. rewrite Eq.
  assert (length (take k chain) = k) as Hk by (rewrite length_take; lia).
  assert (∀ j, (k ≤ j)%nat → (take k chain ++ s') !! j = s' !! (j - k)%nat) as Hlook.
  { intros j Hj. rewrite lookup_app_r by lia. by rewrite Hk. }
  assert (chain_evolves chain (take k chain ++ s')) as Hev'.
  { rewrite <- (take_drop k chain) at 1. apply Forall2_app; [apply chain_evolves_refl|done]. }
  fold k in Hle, Hpl, Hout.
  eexists _, _, _. split; [done|]. split; [done|]. split; [done|]. split.
  - split.
    + destruct Hpl as [? (ps' & Hps' & ?)]. split; [done|]. exists ps'. split; [|done].
      by rewrite Nat.sub_0_r, Hlook.
    + assert (words_ok (take k chain ++ s') d) as [? ?]; [|by split; rewrite ?Hl].
      destruct (request_ok_evolves chain (take k chain ++ s') d Hev') as [_ ?]; [|done].
      split; [|done]. split; [done|]. exists ps. by rewrite Nat.sub_0_r.
  - destruct Hout as [[-> (ps' & p & Hps' & Hrest)]|[-> Hlive]]; [left|right]; (split; [done|]).
    + exists ps', p. split; [|done]. by rewrite Nat.sub_0_r, Hlook.
    + by rewrite drop_app_length' by done.
Qed.




Lemma init_spec chain :
  upstream_ok chain →
  ∃ d, ngx_http_upstream_init_round_robin_peer chain = Some d ∧ request_ok chain d ∧ 1 ≤ tries d.
Proof.
  intros [Hl _ Hsize].
  destruct (ngx_http_upstream_init_round_robin_peer chain) as [d|] eqn:E.
  2: { by destruct Hsize as [(ps & ->)|(ps & b & -> & _)]. }
  exists d. split; [done|].
  destruct Hsize as [(ps & ->)|(ps & b & -> & Hb)];
    apply init_peer_words in E as (words & -> & Hps & Hnext); apply Forall_cons_1 in Hl as [Hl Hl'];
    assert (1 ≤ number ps) as H1 by (destruct Hl as [_ Hne _ _ _]; unfold number; destruct (peer ps);
      [done|cbn; lia]).
  - split; [|done]. destruct Hl. split.
    + split; [cbn; lia|]. exists ps. split; [done|]. cbn. lia.
    + split; [|constructor]. constructor; [|constructor]. cbn [tried]. by rewrite length_replicate.
  - destruct (Hnext b [] eq_refl) as [Hb1 Hb2]. specialize (Hb2 Hb).
    split; [|done]. destruct Hl. split.
    + split; [cbn; lia|]. exists ps. split; [done|]. cbn. lia.
    + split; cbn [tried tail]; rewrite length_replicate; repeat (constructor; [done|]); constructor.
Qed.

(** *** When the answer is [NGX_OK] *)










(** The second server failed and is not tried again for 10 seconds, the first
    has no current weight left but is in order: both turns of the loop choose the
    second one, whose weight the second turn has just reset and whose bit is set
    only when it is down, and the request is refused. *)
Example busy_with_usable_peer :
  let failed := mk_peer 1 10 10 1 7 7 1 10 false in
  let usable_one := mk_peer 2 0 1 0 0 0 1 10 false in
  let chain := [mk_peers false 0 [] [usable_one; failed]] in
  let d := mk_data 0 0 [0] 2 false None None in
  ngx_http_upstream_init_round_robin_peer chain = Some d ∧ usable 8 usable_one ∧
  option_map (λ r, r.1.1) (ngx_http_upstream_get_round_robin_peer 8 chain d) = Some NGX_BUSY.
Proof. cbn. split; [reflexivity|]. split; [split; [reflexivity|right; left; cbn; lia]|]. vm_compute. reflexivity. Qed.

(** *** The bitmap of the backup servers *)

(** Two primary servers that are down and [n] backup servers. *)
Definition down_peer : rr_peer := mk_peer 0 0 0 0 0 0 1 10 true.
Definition down_with_backups (n : nat) : list rr_peers :=
  [mk_peers false 0 [] [down_peer; down_peer];
   mk_peers false 0 [] (replicate n (mk_peer 0 1 1 0 0 0 1 10 false))].

Definition first_request (chain : list rr_peers) : option (Z * list rr_peers * rr_data) :=
  match ngx_http_upstream_init_round_robin_peer chain with
  | None => None
  | Some d => ngx_http_upstream_get_round_robin_peer 0 chain d
  end.

Lemma down_clears b t :
  clear_bits (1 :: t) (number b / 64 + 1) = None →
  get_peer_at 0 [mk_peers false 0 [] [down_peer; down_peer]; b]
    (mk_data 0 0 (0 :: t) 2 false None None) = None.
Proof.
  intros Hc. cbn [get_peer_at last_cached single negb Z.eqb].
  match goal with |- (match ?s with Some _ => _ | None => _ end) = None =>
    replace s with (Some (Failed, [down_peer; down_peer],
      mk_data 0 0 (1 :: t) 1 false None None)) by reflexivity
  end.
  cbn [tried]. by rewrite Hc.
Qed.

(** The bitmap is allocated for [n] servers but cleared for [n / 64 + 1] words:
    when the number of backup servers is a multiple of 64, and only then, a
    request that falls back on them writes one word behind the bitmap. *)
Theorem bitmap_overflow n :
  (1 ≤ n)%nat → Z.of_nat n ≤ 1152921504606846976 →
  first_request (down_with_backups n) = None ↔ Z.of_nat n mod 64 = 0.
Proof.
  intros Hn Hmax. split.
  - intros Hnone. destruct (Z.eq_dec (Z.of_nat n mod 64) 0) as [|Hne]; [done|]. exfalso.
    assert (upstream_ok (down_with_backups n)) as Hup.
    { split.
      - constructor; [|constructor; [|constructor]].
        + split; [done|done|repeat (constructor; [unfold peer_ok; cbn; lia|]); constructor
                 |unfold number; cbn; lia|done].
        + split; [done|by destruct n; [lia|]| |unfold number; cbn; rewrite length_replicate; lia|done].
          apply Forall_replicate. unfold peer_ok. cbn. lia.
      - by repeat constructor.
      - right. eexists _, _. split; [reflexivity|]. unfold number. cbn. by rewrite length_replicate. }
    destruct (init_spec _ Hup) as (d & Ed & Hr & Ht).
    destruct (get_spec 0 _ d (uo_level _ Hup) (uo_single _ Hup) Hr Ht) as (rc & c & d' & Eg & _).
    unfold first_request in Hnone. rewrite Ed, Eg in Hnone. done.
  - intros Hmod. unfold first_request, ngx_http_upstream_init_round_robin_peer, down_with_backups.
    assert (number (mk_peers false 0 [] (replicate n (mk_peer 0 1 1 0 0 0 1 10 false))) = Z.of_nat n)
      as En by (unfold number; cbn; by rewrite length_replicate).
    set (b := mk_peers false 0 [] (replicate n _)) in *. rewrite En.
    change (number (mk_peers false 0 [] _)) with 2.
    set (words := if _ <=? 64 then 1 else _).
    assert (1 ≤ words ∧ words ≤ Z.of_nat n / 64) as [Hw1 Hw2].
    { subst words. destruct (Z.ltb_spec 2 (Z.of_nat n)); [|zlia].
      destruct (Z.leb_spec (Z.of_nat n) 64); zlia. }
    destruct (Z.to_nat words) as [|k] eqn:Ek; [lia|].
    unfold ngx_http_upstream_get_round_robin_peer. cbn [at_peers drop take].
    rewrite replicate_S, down_clears; [done|]. unfold clear_bits. cbn [length].
    rewrite length_replicate, En.
    rewrite (proj2 (Z.ltb_lt (Z.of_nat (S k)) _)); [done|]. rewrite <- Ek, Z2Nat.id; lia.
Qed.

(** *** The configuration *)

Definition fresh (ps : rr_peers) : Prop := Forall (λ p, current_weight p = weight p) (peer ps).

(** The heavier servers come first. *)
Definition by_weight (ps : rr_peers) : Prop :=
  StronglySorted (λ p q, weight q ≤ weight p) (peer ps).

Lemma cmp_servers_le p q :
  Sort.le ngx_http_upstream_cmp_servers p q ↔ weight q ≤ weight p.
Proof. unfold Sort.le, ngx_http_upstream_cmp_servers. destruct (Z.ltb_spec (weight p) (weight q)); lia. Qed.

Lemma sort_peers_sorted l : StronglySorted (λ p q, weight q ≤ weight p) (sort_peers l).
Proof.
  assert (StronglySorted (Sort.le ngx_http_upstream_cmp_servers) (sort_peers l)) as H.
  { apply Sort.sort_sorted; [intros x y z; rewrite !cmp_servers_le; lia|].
    intros x y. rewrite cmp_servers_le. unfold ngx_http_upstream_cmp_servers.
    destruct (Z.ltb_spec (weight x) (weight y)); lia. }
  induction H as [|p l' _ IH Hp]; constructor; [done|].
  eapply list.Forall_impl; [exact Hp|]. intros q. apply cmp_servers_le.
Qed.

Definition server_ok (s : server) : Prop := 1 ≤ s_weight s ∧ 0 ≤ s_max_fails s.

(** Every peer of the configuration is as the invariant wants it, and fresh. *)
Lemma configured_ok (f : server → list rr_peer) servers :
  f = primary_peers ∨ f = backup_peers → Forall server_ok servers →
  Forall (λ p, peer_ok p ∧ current_weight p = weight p) (concat (f <$> servers)).
Proof.
  intros Hf Hs. apply Forall_concat, Forall_fmap. eapply list.Forall_impl; [exact Hs|].
  intros s [? ?]. cbn. unfold peer_ok.
  destruct Hf as [-> | ->]; unfold primary_peers, backup_peers;
    (destruct (s_backup s); [|]); try constructor; apply Forall_fmap, Forall_forall;
    intros a _; cbn; [destruct (s_down s)|]; lia.
Qed.

Lemma sorted_level l sgl :
  Forall (λ p, peer_ok p ∧ current_weight p = weight p) l → l ≠ [] →
  Z.of_nat (length l) ≤ 1152921504606846976 → (sgl = true → length l = 1%nat) →
  let ps := mk_peers sgl 0 [] (sort_peers l) in level_ok ps ∧ fresh ps ∧ by_weight ps.
Proof.
  intros Hl Hne Hlen Hs ps. assert (sort_peers l ≡ₚ l) as Hp by apply Sort.sort_perm.
  assert (Forall (λ p, peer_ok p ∧ current_weight p = weight p) (sort_peers l)) as Hl'
    by by rewrite Hp.
  split; [|split; [|apply sort_peers_sorted]].
  - split; cbn; [done| |by eapply list.Forall_impl; [exact Hl'|]; intros ? []| |].
    + intros E. rewrite E in Hp. by apply Permutation_nil in Hp.
    + unfold number. cbn. by rewrite Hp.
    + intros H. unfold number. cbn. rewrite Hp. rewrite Hs by done. done.
  - eapply list.Forall_impl; [exact Hl'|]. by intros ? [].
Qed.

(** C35: A configuration whose servers have a weight and whose backup servers are
    not a multiple of 64 gives an upstream that [round_robin_safe] is about:
    every level holds the configured peers, the heavier ones first, with all
    their weight to use; there is an error exactly when no server is
    primary. *)
Theorem init_round_robin_ok servers :
  Forall server_ok servers →
  let primary := concat (primary_peers <$> servers) in
  let backup := concat (backup_peers <$> servers) in
  Z.of_nat (length primary) ≤ 1152921504606846976 →
  Z.of_nat (length backup) ≤ 1152921504606846976 →
  (length backup = 0 ∨ length backup mod 64 ≠ 0)%nat →
  match ngx_http_upstream_init_round_robin servers with
  | None => primary = []
  | Some chain =>
      upstream_ok chain ∧ Forall fresh chain ∧ Forall by_weight chain ∧
      Forall2 (λ ps l, peer ps ≡ₚ l) chain
        (match backup with [] => [primary] | _ => [primary; backup] end)
  end.
Proof.
  intros Hs primary backup Hp Hb Hmod. unfold ngx_http_upstream_init_round_robin.
  fold primary backup.
  pose proof (configured_ok primary_peers servers ltac:(by left) Hs) as Hpo.
  pose proof (configured_ok backup_peers servers ltac:(by right) Hs) as Hbo.
  fold primary in Hpo. fold backup in Hbo. clearbody primary backup.
  destruct (Nat.eqb_spec (length primary) 0) as [E|E].
  { by apply nil_length_inv in E. }
  assert (primary ≠ []) by (intros ->; done).
  destruct (Nat.eqb_spec (length backup) 0) as [Eb|Eb].
  - apply nil_length_inv in Eb as ->.
    destruct (sorted_level primary (length primary =? 1)%nat) as (H1 & H2 & H3);
      [done|done|done|by intros H1%Nat.eqb_eq|].
    split; [split|].
    + by constructor.
    + constructor.
    + left. by eexists.
    + split; [by constructor|]. split; [by constructor|]. constructor; [apply Sort.sort_perm|constructor].
  - assert (backup ≠ []) by (intros ->; done).
    destruct (sorted_level primary false) as (H1 & H2 & H3); [done..|].
    destruct (sorted_level backup false) as (H1' & H2' & H3'); [done..|].
    split; [split|].
    + constructor; [done|]. by constructor.
    + by constructor.
    + right. eexists _, _. split; [done|]. unfold number, sort_peers. cbn.
      rewrite (Permutation_length (Sort.sort_perm _ backup)). destruct Hmod as [?|Hmod]; [done|].
      intros Hz. apply Hmod, Nat2Z.inj. by rewrite Nat2Z.inj_mod.
    + split; [constructor; [done|by constructor]|]. split; [constructor; [done|by constructor]|].
      destruct backup; [done|].
      constructor; [apply Sort.sort_perm|constructor; [apply Sort.sort_perm|constructor]].
Qed.

(** ** Witnesses *)

Definition example_servers : list server :=
  [mk_server [10] 1 1 10 false false; mk_server [20; 21] 3 1 10 false false;
   mk_server [30] 2 1 10 false true].

Lemma init_round_robin_ok_witness : ∃ chain,
  ngx_http_upstream_init_round_robin example_servers = Some chain ∧ upstream_ok chain.
Proof.
  eexists. split; [reflexivity|].
  apply (init_round_robin_ok example_servers).
  - repeat constructor; cbn; lia.
  - cbn. lia.
  - cbn. lia.
  - right. cbn. lia.
Defined.

(** Weights 5, 1 and 1, two cycles: fourteen requests. *)
Lemma round_robin_fair_witness :
  let p w := mk_peer w w w 0 0 0 1 10 false in
  ∃ cs chain, serve_all (replicate 14 0) [mk_peers false 0 [] [p 5; p 1; p 1]] = Some (cs, chain) ∧
    chosen 0 cs = 10 ∧ chosen 1 cs = 2 ∧ chosen 2 cs = 2.
Proof.
  intros p.
  destruct (round_robin_fair 2 (replicate 14 0) (mk_peers false 0 [] [p 5; p 1; p 1]) [])
    as (cs & chain & Hs & Hc).
  - reflexivity.
  - reflexivity.
  - unfold number. cbn. lia.
  - repeat constructor; cbn; lia.
  - left. repeat constructor.
  - reflexivity.
  - exists cs, chain. split; [exact Hs|].
    split; [exact (Hc 0%nat _ eq_refl)|]. split; [exact (Hc 1%nat _ eq_refl)|exact (Hc 2%nat _ eq_refl)].
Defined.


Lemma bitmap_overflow_witness :
  first_request (down_with_backups 64) = None ↔ Z.of_nat 64 mod 64 = 0.
Proof. apply (bitmap_overflow 64); lia. Defined.

End RoundRobin.
