(* ===== verification/Range.v ===== *)
(** * Byte ranges

    src/http/modules/ngx_http_range_filter_module.c: the ranges of a request,
    the headers of the response and the part of the body that is sent.  A
    [u_char *] is the memory from there on, and [None] is a read past its end;
    [alloc k] is what the [k]-th allocation of the function at hand returns
    ([None] is [NULL]); [r->headers_in.range->value] is its length and its
    memory. *)

From S2P Require Import Prelude Number Printf Times HttpDate StringOps.

Module Range.

Abbreviation NGX_HTTP_OK := 200.
Abbreviation NGX_HTTP_PARTIAL_CONTENT := 206.
Abbreviation NGX_HTTP_RANGE_NOT_SATISFIABLE := 416.
Abbreviation NGX_HTTP_VERSION_10 := 1000.
Abbreviation NGX_OFF_T_LEN := 20.
Abbreviation NGX_ATOMIC_T_LEN := 20.

Record ngx_http_range_t := mk_range {
  start : Z;
  end_ : Z;
  content_range : list Z;
}.

Record ngx_http_range_filter_ctx_t := mk_ctx {
  offset : Z;
  boundary_header : list Z;
  ranges : list ngx_http_range_t;
}.

(** ** ngx_http_range_parse *)

(** [while ( *p == ' ') { p++; }] *)
Fixpoint skip_spaces (p : list Z) : option (list Z) :=
  match p with
  | [] => None
  | c :: p' => if c =? " "%ch then skip_spaces p' else Some p
  end.

(** [while ( *p >= '0' && *p <= '9') { n = n * 10 + *p++ - '0'; }] *)
Fixpoint read_number (n : Z) (p : list Z) : option (Z * list Z) :=
  match p with
  | [] => None
  | c :: p' => if is_digit c then read_number (s64 (n * 10 + c - "0"%ch)) p' else Some (n, p)
  end.

(** From the number after the dash to the label [found]; [Some None] is
    [return NGX_HTTP_RANGE_NOT_SATISFIABLE]. *)
Definition last_position (content_length : Z) (suffix : bool) (start : Z) (p : list Z) :
    option (option (Z * Z * list Z)) :=
  c ← head p;
  if negb (is_digit c) then Some None
  else
    '(end_, p) ← read_number 0 p;
    p ← skip_spaces p;
    c ← head p;
    if negb (c =? ","%ch) && negb (c =? NUL) then Some None
    else
      let '(start, end_) :=
        if suffix then (s64 (content_length - end_), s64 (content_length - 1))
        else (start, end_) in
      let end_ := if content_length <=? end_ then content_length else s64 (end_ + 1) in
      Some (Some (start, end_, p)).

(** One turn of the loop up to the label [found]. *)
Definition parse_spec (content_length : Z) (p : list Z) : option (option (Z * Z * list Z)) :=
  p ← skip_spaces p;
  c ← head p;
  if negb (c =? "-"%ch) then
    if negb (is_digit c) then Some None
    else
      '(start, p) ← read_number 0 p;
      p ← skip_spaces p;
      c ← head p;
      if negb (c =? "-"%ch) then Some None
      else
        p ← skip_spaces (tail p);
        c ← head p;
        if (c =? ","%ch) || (c =? NUL) then Some (Some (start, content_length, p))
        else last_position content_length false start p
  else last_position content_length true 0 (tail p).

(** What is returned after the loop. *)
Definition parse_end (content_length size : Z) (ranges : list ngx_http_range_t) : Z :=
  if (length ranges =? 0)%nat then NGX_HTTP_RANGE_NOT_SATISFIABLE
  else if content_length <? size then NGX_DECLINED
  else NGX_OK.

Section Alloc.
Context (alloc : nat → option Z).

(** The loop: [ranges] is the number of ranges that may still follow, [found]
    the array.  Every turn consumes a byte. *)
Fixpoint parse_loop (fuel : nat) (content_length : Z) (p : list Z) (size ranges : Z)
    (found : list ngx_http_range_t) : option (Z * list ngx_http_range_t) :=
  match fuel with
  | O => None
  | S fuel =>
      s ← parse_spec content_length p;
      match s with
      | None => Some (NGX_HTTP_RANGE_NOT_SATISFIABLE, found)
      | Some (start, end_, p) =>
          let next size ranges found :=
            c ← head p;
            if negb (c =? ","%ch) then Some (parse_end content_length size found, found)
            else parse_loop fuel content_length (tail p) size ranges found in
          if start <? end_ then
            match alloc (length found) with
            | None => Some (NGX_ERROR, found)
            | Some _ =>
                let found := found ++ [mk_range start end_ []] in
                let size := s64 (size + (end_ - start)) in
                if ranges =? 0 then Some (NGX_DECLINED, found)
                else next size (u64 (ranges - 1)) found
            end
          else next size ranges found
      end
  end.

(** [value] is the memory of the header's value. *)
Definition ngx_http_range_parse (value : list Z) (content_length ranges : Z) :
    option (Z * list ngx_http_range_t) :=
  let p := drop 6 value in
  parse_loop (S (length p)) content_length p 0 ranges [].
End Alloc.

(** ** The headers of the response *)

Record ngx_table_elt_t := mk_elt { hash : Z; key : list Z; value : list Z }.

(** The pointers [content_length], [content_range] and [accept_ranges] to
    headers of the list are their positions. *)
Record headers_out := mk_out {
  headers : list ngx_table_elt_t;
  status : Z;
  status_line : list Z;
  content_length : option nat;
  out_content_range : option nat;
  accept_ranges : option nat;
  content_type_len : Z;
  content_type : list Z;
  charset : list Z;
  content_type_lowcase : option (list Z);
  content_length_n : Z;
  last_modified_time : Z;
}.

#[export] Instance eta_headers_out : Eta headers_out := λ h,
  mk_out (headers h) (status h) (status_line h) (content_length h) (out_content_range h)
    (accept_ranges h) (content_type_len h) (content_type h) (charset h)
    (content_type_lowcase h) (content_length_n h) (last_modified_time h).

(** [ngx_list_push] and the assignments to the new header. *)
Definition push_header (h : headers_out) (e : ngx_table_elt_t) : headers_out :=
  h <| headers := headers h ++ [e] |>.

(** [if (r->headers_out.content_length) { ...->hash = 0; ... = NULL; }] *)
Definition drop_content_length (h : headers_out) : headers_out :=
  match content_length h with
  | None => h
  | Some k =>
      h <| headers := alter (λ e, mk_elt 0 (key e) (value e)) k (headers h) |>
        <| content_length := None |>
  end.

(** [ngx_http_clear_content_length] *)
Definition ngx_http_clear_content_length (h : headers_out) : headers_out :=
  drop_content_length (h <| content_length_n := -1 |>).

(** What a header filter does in the end: it calls the next one, or it
    returns.  [None] is undefined behaviour. *)
Inductive filtered : Type :=
  | Next (h : headers_out) (ctx : option ngx_http_range_filter_ctx_t)
  | Return (rc : Z) (h : headers_out).

Section Headers.
Context (alloc : nat → option Z).

Definition ngx_http_range_singlepart_header (h : headers_out)
    (ctx : ngx_http_range_filter_ctx_t) : option filtered :=
  match alloc 0%nat with
  | None => Some (Return NGX_ERROR h)
  | Some _ =>
      let h1 := push_header h (mk_elt 1 (bs "Content-Range") []) in
      let h1 := h1 <| out_content_range := Some (length (headers h)) |> in
      match alloc 1%nat with
      | None => Some (Return NGX_ERROR h1)
      | Some data =>
          range ← head (ranges ctx);
          v ← Printf.ngx_sprintf data (bs "bytes %O-%O/%O")
                [Printf.AInt (start range); Printf.AInt (s64 (end_ range - 1));
                 Printf.AInt (content_length_n h)];
          let h2 := h <| headers := headers h ++ [mk_elt 1 (bs "Content-Range") v] |>
                      <| out_content_range := Some (length (headers h)) |>
                      <| content_length_n := s64 (end_ range - start range) |> in
          Some (Next (drop_content_length h2) (Some ctx))
      end
  end.

Definition ngx_http_range_not_satisfiable (h : headers_out) : option filtered :=
  let h := h <| status := NGX_HTTP_RANGE_NOT_SATISFIABLE |> in
  match alloc 0%nat with
  | None => Some (Return NGX_ERROR h)
  | Some _ =>
      let h1 := push_header h (mk_elt 1 (bs "Content-Range") []) in
      let h1 := h1 <| out_content_range := Some (length (headers h)) |> in
      match alloc 1%nat with
      | None => Some (Return NGX_ERROR h1)
      | Some data =>
          v ← Printf.ngx_sprintf data (bs "bytes */%O") [Printf.AInt (content_length_n h)];
          let h2 := h <| headers := headers h ++ [mk_elt 1 (bs "Content-Range") v] |>
                      <| out_content_range := Some (length (headers h)) |> in
          Some (Return NGX_HTTP_RANGE_NOT_SATISFIABLE (ngx_http_clear_content_length h2))
      end
  end.

(** *** Several ranges *)

(** The bytes of a [u_char *] buffer that is printed into. *)
Definition print_boundary_header (data boundary : Z) (h : headers_out) : option (list Z) :=
  if negb (length (charset h) =? 0)%nat then
    Printf.ngx_sprintf data
      ([CR; LF] ++ bs "--%0muA" ++ [CR; LF] ++ bs "Content-Type: %V; charset=%V" ++ [CR; LF] ++
       bs "Content-Range: bytes ")
      [Printf.AInt boundary; Printf.AStr (content_type h); Printf.AStr (charset h)]
  else if negb (length (content_type h) =? 0)%nat then
    Printf.ngx_sprintf data
      ([CR; LF] ++ bs "--%0muA" ++ [CR; LF] ++ bs "Content-Type: %V" ++ [CR; LF] ++
       bs "Content-Range: bytes ")
      [Printf.AInt boundary; Printf.AStr (content_type h)]
  else
    Printf.ngx_sprintf data
      ([CR; LF] ++ bs "--%0muA" ++ [CR; LF] ++ bs "Content-Range: bytes ")
      [Printf.AInt boundary].

(** The number of bytes allocated for it. *)
Definition boundary_header_size (h : headers_out) : Z :=
  let len := 4 + NGX_ATOMIC_T_LEN + 16 + Z.of_nat (length (content_type h)) + 23 in
  if negb (length (charset h) =? 0)%nat then len + 10 + Z.of_nat (length (charset h)) else len.

(** The loop over the ranges, the [k]-th allocation first: the ranges with
    their texts and [len]; [inr] when an allocation fails. *)
Fixpoint print_ranges (k : nat) (boundary_header : list Z) (content_length_n : Z)
    (rs : list ngx_http_range_t) (len : Z) : option (option (list ngx_http_range_t * Z)) :=
  match rs with
  | [] => Some (Some ([], len))
  | range :: rs =>
      match alloc k with
      | None => Some None
      | Some data =>
          v ← Printf.ngx_sprintf data (bs "%O-%O/%O" ++ [CR; LF; CR; LF])
                [Printf.AInt (start range); Printf.AInt (s64 (end_ range - 1));
                 Printf.AInt content_length_n];
          let len := u64 (len + (Z.of_nat (length boundary_header) + Z.of_nat (length v)
                                 + u64 (s64 (end_ range - start range)))) in
          r ← print_ranges (S k) boundary_header content_length_n rs len;
          Some (option_map
                  (λ '(rs, len), (mk_range (start range) (end_ range) v :: rs, len)) r)
      end
  end.

(** [boundary] is [ngx_next_temp_number(0)]. *)
Definition ngx_http_range_multipart_header (boundary : Z) (h : headers_out)
    (ctx : ngx_http_range_filter_ctx_t) : option filtered :=
  match alloc 0%nat with
  | None => Some (Return NGX_ERROR h)
  | Some data =>
      bh ← print_boundary_header data boundary h;
      let h := if negb (length (charset h) =? 0)%nat then h <| charset := [] |> else h in
      match alloc 1%nat with
      | None => Some (Return NGX_ERROR h)
      | Some data =>
          ct ← Printf.ngx_sprintf data (bs "multipart/byteranges; boundary=%0muA")
                 [Printf.AInt boundary];
          let h := h <| content_type := ct |> <| content_type_lowcase := None |>
                     <| content_type_len := Z.of_nat (length ct) |> in
          let len := 4 + NGX_ATOMIC_T_LEN + 4 in
          r ← print_ranges 2 bh (content_length_n h) (ranges ctx) len;
          match r with
          | None => Some (Return NGX_ERROR h)
          | Some (rs, len) =>
              let h := h <| content_length_n := s64 len |> in
              Some (Next (drop_content_length h) (Some (mk_ctx (offset ctx) bh rs)))
          end
      end
  end.
End Headers.

(** ** ngx_http_range_header_filter *)

(** What the filter reads of the request; the pointer and the length of a
    header's value are its memory and a number. *)
Record request := mk_request {
  http_version : Z;
  is_main : bool;
  allow_ranges : bool;
  range : option (Z * list Z);
  if_range : option (list Z);
}.

(** [ngx_http_parse_time] returns [NGX_ERROR] for what is not a date. *)
Definition parse_time (v : list Z) : option Z :=
  match HttpDate.ngx_http_parse_time v with
  | HttpDate.Ok t => Some t
  | HttpDate.Err => Some NGX_ERROR
  | HttpDate.Oob => None
  end.

Section HeaderFilter.
(** The allocations of the filter itself, of the parser and of the function
    that writes the header. *)
Context (alloc alloc_parse alloc_header : nat → option Z).

(** The label [next_filter]. *)
Definition next_filter (h : headers_out) : option filtered :=
  match alloc 2%nat with
  | None => Some (Return NGX_ERROR h)
  | Some _ =>
      let e := mk_elt 1 (bs "Accept-Ranges") (bs "bytes") in
      Some (Next ((push_header h e) <| accept_ranges := Some (length (headers h)) |>) None)
  end.

(** The two conditions on the headers of the request. *)
Definition is_range_request (r : request) (h : headers_out) : option bool :=
  match range r with
  | None => Some false
  | Some (len, data) =>
      if len <? 7 then Some false
      else
        m ← StringOps.ngx_strncasecmp data (bs "bytes=" ++ [NUL]) 6;
        if negb (m =? 0) then Some false
        else
          match if_range r with
          | None => Some true
          | Some v =>
              if last_modified_time h =? -1 then Some true
              else t ← parse_time v; Some (t =? last_modified_time h)
          end
  end.

Definition ngx_http_range_header_filter (max_ranges boundary : Z) (r : request)
    (h : headers_out) : option filtered :=
  if (http_version r <? NGX_HTTP_VERSION_10) || negb (status h =? NGX_HTTP_OK)
     || negb (is_main r) || (content_length_n h =? -1) || negb (allow_ranges r)
  then Some (Next h None)
  else if max_ranges =? 0 then Some (Next h None)
  else
    wanted ← is_range_request r h;
    match wanted, range r with
    | true, Some (_, value) =>
        match alloc 0%nat, alloc 1%nat with
        | Some _, Some _ =>
            '(rc, ranges) ← ngx_http_range_parse alloc_parse value (content_length_n h) max_ranges;
            let ctx := mk_ctx 0 [] ranges in
            if rc =? NGX_OK then
              let h := h <| status := NGX_HTTP_PARTIAL_CONTENT |> <| status_line := [] |> in
              if (length ranges =? 1)%nat then ngx_http_range_singlepart_header alloc_header h ctx
              else ngx_http_range_multipart_header alloc_header boundary h ctx
            else if rc =? NGX_HTTP_RANGE_NOT_SATISFIABLE then
              ngx_http_range_not_satisfiable alloc_header h
            else if rc =? NGX_ERROR then Some (Return NGX_ERROR h)
            else next_filter h
        | _, _ => Some (Return NGX_ERROR h)
        end
    | _, _ => next_filter h
    end.
End HeaderFilter.

(** ** Buffers (src/core/ngx_buf.h) *)

(** The fields the filter uses: [start], [end], [tag], [shadow] and the other
    flags are left alone. *)
Record ngx_buf_t := mk_buf {
  pos : Z;
  last : Z;
  file_pos : Z;
  file_last : Z;
  file : Z;
  temporary : bool;
  memory : bool;
  mmap : bool;
  in_file : bool;
  flush : bool;
  sync : bool;
  last_buf : bool;
}.

#[export] Instance eta_buf : Eta ngx_buf_t := λ b,
  mk_buf (pos b) (last b) (file_pos b) (file_last b) (file b) (temporary b) (memory b)
    (mmap b) (in_file b) (flush b) (sync b) (last_buf b).

Definition ngx_buf_in_memory (b : ngx_buf_t) : bool := temporary b || memory b || mmap b.

Definition ngx_buf_special (b : ngx_buf_t) : bool :=
  (flush b || last_buf b || sync b) && negb (ngx_buf_in_memory b) && negb (in_file b).

Definition ngx_buf_size (b : ngx_buf_t) : Z :=
  if ngx_buf_in_memory b then s64 (last b - pos b) else s64 (file_last b - file_pos b).

(** ** The body: one range *)

(** A buffer outside the range. *)
Definition skip_buf (buf : ngx_buf_t) : ngx_buf_t :=
  let buf := if in_file buf then buf <| file_pos := file_last buf |> else buf in
  buf <| pos := last buf |> <| sync := true |>.

(** [range->start - start] bytes at the beginning do not belong to the range. *)
Definition cut_start (n : Z) (buf : ngx_buf_t) : ngx_buf_t :=
  let buf := if in_file buf then buf <| file_pos := s64 (file_pos buf + n) |> else buf in
  if ngx_buf_in_memory buf then buf <| pos := u64 (pos buf + u64 n) |> else buf.

(** [last - range->end] bytes at the end do not belong to it. *)
Definition cut_end (n : Z) (buf : ngx_buf_t) : ngx_buf_t :=
  let buf := if in_file buf then buf <| file_last := s64 (file_last buf - n) |> else buf in
  if ngx_buf_in_memory buf then buf <| last := u64 (last buf - u64 n) |> else buf.

(** [for (cl = in; cl; cl = cl->next)] with [ctx->offset] and [ll]: the
    offset, the chain as it is left, and what [*ll] is set to, if it is; [ll]
    points at the place before the chain. *)
Fixpoint singlepart_loop (rstart rend offset : Z) (cl : list ngx_buf_t) :
    Z * list ngx_buf_t * option (list ngx_buf_t) :=
  match cl with
  | [] => (offset, [], None)
  | buf :: cl =>
      let start := offset in
      let last := s64 (offset + ngx_buf_size buf) in
      let keep buf :=
        let '(offset, next, ll) := singlepart_loop rstart rend last cl in
        let next := default next ll in
        (offset, buf :: next, Some (buf :: next)) in
      if ngx_buf_special buf then keep buf
      else if (rend <=? start) || (last <=? rstart) then
        let '(offset, next, ll) := singlepart_loop rstart rend last cl in
        (offset, skip_buf buf :: next, ll)
      else
        let buf := if start <? rstart then cut_start (rstart - start) buf else buf in
        if rend <=? last then
          let buf := (cut_end (last - rend) buf) <| last_buf := true |> in
          (last, [buf], Some [buf])
        else keep buf
  end.

(** What a body filter does in the end.  The buffers that hold texts of the
    filter itself are their bytes and [last_buf]. *)
Inductive out_buf : Type :=
  | Text (data : list Z) (is_last : bool)
  | Buf (b : ngx_buf_t).

Inductive sent : Type :=
  | Send (out : list out_buf)
  | Stop (rc : Z).

Definition ngx_http_range_singlepart_body (ctx : ngx_http_range_filter_ctx_t)
    (cl : list ngx_buf_t) : option (sent * ngx_http_range_filter_ctx_t) :=
  range ← head (ranges ctx);
  let '(off, _, out) := singlepart_loop (start range) (end_ range) (offset ctx) cl in
  let ctx := mk_ctx off (boundary_header ctx) (ranges ctx) in
  match out with
  | None => Some (Stop NGX_OK, ctx)
  | Some out => Some (Send (Buf <$> out), ctx)
  end.

(** ** The body: several ranges *)

(** [None] is the label [overlapped]. *)
Definition ngx_http_range_test_overlapped (ctx : ngx_http_range_filter_ctx_t)
    (buf : ngx_buf_t) : option ngx_http_range_filter_ctx_t :=
  if negb (offset ctx =? 0) then None
  else
    let last := s64 (offset ctx + ngx_buf_size buf) in
    if negb (last_buf buf)
       && existsb (λ range, (start range <? offset ctx) || (last <? end_ range)) (ranges ctx)
    then None
    else Some (mk_ctx (ngx_buf_size buf) (boundary_header ctx) (ranges ctx)).

(** The part of the buffer that belongs to a range. *)
Definition part (buf : ngx_buf_t) (range : ngx_http_range_t) : ngx_buf_t :=
  let b := mk_buf 0 0 0 0 (file buf) (temporary buf) (memory buf) (mmap buf) (in_file buf)
             false false false in
  let b :=
    if in_file buf then
      b <| file_pos := s64 (file_pos buf + start range) |>
        <| file_last := s64 (file_pos buf + end_ range) |>
    else b in
  if ngx_buf_in_memory buf then
    b <| pos := u64 (pos buf + u64 (start range)) |>
      <| last := u64 (pos buf + u64 (end_ range)) |>
  else b.

Section Multipart.
Context (alloc : nat → option Z).

(** [n] allocations from the [k]-th on succeed. *)
Definition allocated (k n : nat) : bool :=
  forallb (λ i, match alloc i with Some _ => true | None => false end) (seq k n).

(** The three buffers of every range. *)
Fixpoint multipart_loop (k : nat) (boundary_header : list Z) (buf : ngx_buf_t)
    (rs : list ngx_http_range_t) : option (list out_buf) :=
  match rs with
  | [] => Some []
  | range :: rs =>
      if allocated k 6 then
        out ← multipart_loop (k + 6) boundary_header buf rs;
        Some (Text boundary_header false :: Text (content_range range) false ::
              Buf (part buf range) :: out)
      else None
  end.

(** [Some (Stop NGX_ERROR)] when an allocation fails; [None] when the last
    boundary is copied from bytes nobody wrote. *)
Definition ngx_http_range_multipart_body (ctx : ngx_http_range_filter_ctx_t)
    (buf : ngx_buf_t) : option sent :=
  match multipart_loop 0 (boundary_header ctx) buf (ranges ctx) with
  | None => Some (Stop NGX_ERROR)
  | Some out =>
      let k := (6 * length (ranges ctx))%nat in
      let n := (4 + Z.to_nat NGX_ATOMIC_T_LEN)%nat in
      if negb (allocated k 3) then Some (Stop NGX_ERROR)
      else if (length (boundary_header ctx) <? n)%nat then None
      else
        let text := take n (boundary_header ctx) ++ bs "--" ++ [CR; LF] in
        Some (Send (out ++ [Text text true]))
  end.

(** [r]'s context of the module is [ctx]. *)
Definition ngx_http_range_body_filter (ctx : option ngx_http_range_filter_ctx_t)
    (cl : list ngx_buf_t) : option (sent * option ngx_http_range_filter_ctx_t) :=
  match cl, ctx with
  | [], _ | _, None => Some (Send (Buf <$> cl), ctx)
  | buf :: _, Some c =>
      if (length (ranges c) =? 1)%nat then
        '(s, c) ← ngx_http_range_singlepart_body c cl; Some (s, Some c)
      else if ngx_buf_special buf then Some (Send (Buf <$> cl), ctx)
      else
        match ngx_http_range_test_overlapped c buf with
        | None => Some (Stop NGX_ERROR, ctx)
        | Some c => s ← ngx_http_range_multipart_body c buf; Some (s, Some c)
        end
  end.
End Multipart.

End Range.
