(* ===== verification/RangeParse.v ===== *)
(** * Byte ranges: the parser

    The ranges of a request are read inside the value; accepted ranges lie
    inside the content when nothing overflows; a well-formed header means what
    it says; the overflow of the number of bytes wanted. *)

From S2P Require Import Prelude Number Printf Times HttpDate StringOps Range.

Module RangeParse.
Import Range.

(** ** Theorems: the parser *)

Definition total (rs : list ngx_http_range_t) : Z :=
  foldr (λ r n, end_ r - start r + n) 0 rs.

Definition commas (t : list Z) : Z := Z.of_nat (length (filter (λ c, c = ","%ch) t)).

(** Every number written in the text is less than [K]. *)
Definition numbers_below (K : Z) (t : list Z) : Prop :=
  ∀ a ds b, t = a ++ ds ++ b → Forall is_digit ds → dec ds < K.

Abbreviation no_nul := (Forall (λ c, c ≠ NUL)).
Abbreviation spaces := (λ i, replicate i " "%ch).

Lemma skip_spaces_app i p : skip_spaces (spaces i ++ p) = skip_spaces p.
Proof. by induction i. Qed.

Lemma skip_spaces_at c p : c ≠ " "%ch → skip_spaces (c :: p) = Some (c :: p).
Proof. intros. cbn. by replace (c =? 32) with false by lia. Qed.

Lemma digit_not c : is_digit c → c ≠ " "%ch ∧ c ≠ ","%ch ∧ c ≠ "-"%ch ∧ c ≠ NUL.
Proof. intros ?%is_digit_range. lia. Qed.

Lemma read_number_app ds c p : ∀ n,
  0 ≤ n → Forall is_digit ds → dec_from n ds ≤ MAX_INT64 → is_digit c = false →
  read_number n (ds ++ c :: p) = Some (dec_from n ds, c :: p).
Proof.
  induction ds as [|d ds IH]; intros n Hn Hds Hm Hc; cbn [app read_number].
  { by rewrite Hc. }
  inversion_clear Hds as [|?? Hd Hds']. rewrite (proj1 (Is_true_true _) Hd).
  apply is_digit_range in Hd. cbn [dec_from fold_left] in *.
  assert (n * 10 + (d - 48) ≤ dec_from (n * 10 + (d - 48)) ds) as Hle.
  { apply Number.dec_from_ge; [lia|done]. }
  rewrite s64_id by (unfold dec_from in *; lia).
  replace (n * 10 + d - 48) with (n * 10 + (d - 48)) by lia. by apply IH; [lia|..].
Qed.

(** A text without NUL in front of the terminator, seen by the loops. *)
Section Terminated.
Context (r : list Z).
Local Abbreviation ended t := (t ++ NUL :: r).

Lemma skip_spaces_ended t : no_nul t →
  ∃ i t', t = spaces i ++ t' ∧ no_nul t' ∧ skip_spaces (ended t) = Some (ended t').
Proof.
  induction t as [|c t IH]; intros Ht; [by exists O, []|].
  inversion_clear Ht as [|?? Hc Ht']. destruct (decide (c = " "%ch)) as [->|Hs].
  - destruct (IH Ht') as (i & t' & -> & ? & ?). by exists (S i), t'.
  - exists O, (c :: t). split_and!; [done|by constructor|]. by apply skip_spaces_at.
Qed.

Lemma read_number_ended t : ∀ n, no_nul t →
  ∃ ds t' m, t = ds ++ t' ∧ Forall is_digit ds ∧ no_nul t' ∧
    read_number n (ended t) = Some (m, ended t') ∧
    (0 ≤ n → dec_from n ds ≤ MAX_INT64 → m = dec_from n ds).
Proof.
  induction t as [|c t IH]; intros n Ht; [by exists [], [], n|].
  inversion_clear Ht as [|?? Hc Ht']. cbn [app read_number].
  destruct (is_digit c) eqn:Hd.
  - destruct (IH (s64 (n * 10 + c - 48)) Ht') as (ds & t' & m & -> & Hds & Hn & -> & Hv).
    exists (c :: ds), t', m. split_and!; [done|by constructor; [apply Is_true_true|]|done|done|].
    intros H0 Hm. assert (is_digit c) as Hd' by by apply Is_true_true.
    apply is_digit_range in Hd'. cbn [dec_from fold_left] in *.
    assert (n * 10 + (c - 48) ≤ dec_from (n * 10 + (c - 48)) ds).
    { apply Number.dec_from_ge; [lia|done]. }
    rewrite s64_id in Hv by (unfold dec_from in *; lia).
    replace (n * 10 + c - 48) with (n * 10 + (c - 48)) in Hv by lia. apply Hv; [lia|done].
  - exists [], (c :: t), n. split_and!; [done..|by constructor|done|done].
Qed.

Lemma head_ended t : ∃ c, head (ended t) = Some c ∧ (c = NUL ∧ t = [] ∨ ∃ t', t = c :: t').
Proof. destruct t as [|c t]; [exists NUL|exists c]; cbn; eauto. Qed.

Lemma numbers_below_tail K a t : numbers_below K (a ++ t) → numbers_below K t.
Proof. intros H a' ds' b' -> Hds. apply (H (a ++ a') ds' b'); [|done]. by rewrite !app_assoc. Qed.

(** What is known of a range of the loop: [numbers] below [K] do not
    overflow. *)
Definition spec_bounds (K cl st en : Z) : Prop :=
  - K < st ∧ en ≤ cl ∧ (0 ≤ st ∨ en = cl).

(** [N] is the assumption on the whole text. *)
Definition spec_result (N : Prop) (K cl : Z) (t : list Z) (s : option (Z * Z * list Z)) : Prop :=
  match s with
  | None => True
  | Some (st, en, q) =>
      ∃ t1 t2, t = t1 ++ t2 ∧ q = ended t2 ∧ no_nul t2 ∧ (t2 = [] ∨ ∃ t3, t2 = ","%ch :: t3) ∧
        (N → spec_bounds K cl st en)
  end.

Definition sane (K cl : Z) : Prop := 0 ≤ cl ∧ 0 < K ∧ cl + K ≤ MAX_INT64.

Lemma spec_result_app N K cl u v s : spec_result N K cl v s → spec_result N K cl (u ++ v) s.
Proof.
  destruct s as [[[st en] q]|]; [|done]. intros (v1 & v2 & -> & ? & ? & ? & Hb).
  exists (u ++ v1), v2. by rewrite app_assoc.
Qed.

Lemma delimiter_ended t c :
  head (ended t) = Some c → (c =? ","%ch) || (c =? NUL) = true → no_nul t →
  t = [] ∨ ∃ t3, t = ","%ch :: t3.
Proof.
  intros Hh Hc Ht. destruct t as [|c' t]; [by left|]. right. cbn in Hh. injection Hh as ->.
  inversion_clear Ht. apply orb_true_iff in Hc as [Hc|Hc]; apply Z.eqb_eq in Hc; [|done].
  rewrite Hc. eauto.
Qed.

Lemma last_position_ended (N : Prop) K cl suffix st t :
  no_nul t → (N → numbers_below K t ∧ sane K cl ∧ (suffix = false → 0 ≤ st < K)) →
  ∃ s, last_position cl suffix st (ended t) = Some s ∧ spec_result N K cl t s.
Proof.
  intros Ht HN. unfold last_position.
  destruct (head_ended t) as (c & -> & _). cbn [mbind option_bind].
  destruct (is_digit c); cbn [negb]; [|by exists None].
  destruct (read_number_ended t 0 Ht) as (ds & t1 & m & E & Hds & Ht1 & -> & Hm). cbn [mbind option_bind].
  destruct (skip_spaces_ended t1 Ht1) as (i & t2 & E1 & Ht2 & ->). cbn [mbind option_bind].
  destruct (head_ended t2) as (c2 & Hc2 & _). rewrite Hc2. cbn [mbind option_bind].
  rewrite <- negb_orb. destruct (_ || _) eqn:Hd; cbn [negb]; [|by exists None].
  destruct (if suffix then _ else _) as [st' en'] eqn:Es.
  eexists. split; [done|]. exists (ds ++ spaces i), t2. subst t t1. rewrite <- app_assoc.
  split_and!; [done..|by eapply delimiter_ended|].
  intros (HK & (Hcl & HK0 & Hmax) & Hst)%HN. unfold spec_bounds.
  assert (dec ds < K) as Hdec by by apply (HK [] ds (spaces i ++ t2)).
  assert (0 ≤ dec ds) by by apply dec_from_nonneg.
  rewrite (Hm ltac:(lia) ltac:(lia)) in Es.
  destruct suffix; injection Es as <- <-.
  - rewrite !s64_id by lia. destruct (Z.leb_spec cl (cl - 1)); lia.
  - specialize (Hst eq_refl). destruct (Z.leb_spec cl (dec ds)); [lia|].
    rewrite s64_id by lia. lia.
Qed.

Lemma parse_spec_ended (N : Prop) K cl t : no_nul t → (N → numbers_below K t ∧ sane K cl) →
  ∃ s, parse_spec cl (ended t) = Some s ∧ spec_result N K cl t s.
Proof.
  intros Ht HN. unfold parse_spec.
  destruct (skip_spaces_ended t Ht) as (i & t1 & -> & Ht1 & ->). cbn [mbind option_bind].
  destruct (head_ended t1) as (c & Hc & Hc'). rewrite Hc. cbn [mbind option_bind].
  destruct (Z.eqb_spec c "-"%ch) as [->|Hdash]; cbn [negb].
  - destruct Hc' as [[??]|[t2 ->]]; [done|]. cbn [app tail]. inversion_clear Ht1 as [|?? _ Ht2].
    destruct (last_position_ended N K cl true 0 t2) as (s & -> & Hs); [done| |].
    { intros [HK ?]%HN. split_and!; [|done|done]. by apply (numbers_below_tail K (spaces i ++ ["-"%ch])); rewrite <- app_assoc. }
    exists s. split; [done|]. apply spec_result_app. by apply (spec_result_app _ _ _ ["-"%ch]).
  - destruct (is_digit c); cbn [negb]; [|by exists None].
    destruct (read_number_ended t1 0 Ht1) as (ds & t2 & m & -> & Hds & Ht2 & -> & Hm).
    cbn [mbind option_bind].
    destruct (skip_spaces_ended t2 Ht2) as (j & t3 & -> & Ht3 & ->). cbn [mbind option_bind].
    destruct (head_ended t3) as (c3 & Hc3 & Hc3'). rewrite Hc3. cbn [mbind option_bind].
    destruct (Z.eqb_spec c3 "-"%ch) as [->|_]; cbn [negb]; [|by exists None].
    destruct Hc3' as [[??]|[t4 ->]]; [done|]. cbn [app tail]. inversion_clear Ht3 as [|?? _ Ht4].
    destruct (skip_spaces_ended t4 Ht4) as (k & t5 & -> & Ht5 & ->). cbn [mbind option_bind].
    destruct (head_ended t5) as (c5 & Hc5 & _). rewrite Hc5. cbn [mbind option_bind].
    set (u := spaces i ++ ds ++ spaces j ++ "-"%ch :: spaces k).
    replace (spaces i ++ ds ++ spaces j ++ "-"%ch :: spaces k ++ t5) with (u ++ t5) in *
      by (unfold u; rewrite <- !app_assoc; cbn; by rewrite <- ?app_assoc).
    assert (N → 0 ≤ m < K) as Hm'.
    { intros (HK & Hcl & HK0 & Hmax)%HN.
      assert (dec ds < K).
      { apply (HK (spaces i) ds (spaces j ++ "-"%ch :: spaces k ++ t5)); [|done].
        unfold u. rewrite <- !app_assoc. cbn. by rewrite <- ?app_assoc. }
      assert (0 ≤ dec ds) by by apply dec_from_nonneg. rewrite Hm by lia. lia. }
    destruct (_ || _) eqn:Hd.
    + eexists. split; [done|]. exists u, t5.
      split_and!; [done..|by eapply delimiter_ended|].
      intros Hn. specialize (Hm' Hn). unfold spec_bounds. lia.
    + destruct (last_position_ended N K cl false m t5) as (s & -> & Hs); [done| |].
      { intros Hn. destruct (HN Hn) as [HK ?]. split_and!; [|done|by auto].
        by apply (numbers_below_tail K u). }
      exists s. split; [done|]. by apply spec_result_app.
Qed.

(** The loop.  [N] is the assumption under which nothing overflows: there are
    at most [k] commas in the rest of the text. *)
Definition found_ok (K cl : Z) (found : list ngx_http_range_t) : Prop :=
  Forall (λ g, start g < end_ g ∧ spec_bounds K cl (start g) (end_ g)) found.

Lemma found_total K cl found : sane K cl → found_ok K cl found →
  0 ≤ total found ≤ Z.of_nat (length found) * (cl + K) ∧
  (total found ≤ cl → Forall (λ g, 0 ≤ start g < end_ g ∧ end_ g ≤ cl) found).
Proof.
  intros Hs. induction 1 as [|g found [Hlt (Hst & Hen & Hor)] _ [IH1 IH2]].
  { cbn. split; [lia|by constructor]. }
  destruct Hs as (? & ? & ?). cbn [total foldr length] in *. fold (total found) in *.
  split; [nia|]. intros Ht. constructor; [|apply IH2]; lia.
Qed.

Lemma total_app rs rs' : total (rs ++ rs') = total rs + total rs'.
Proof. induction rs as [|g rs IH]; cbn in *; [done|]. fold (total (rs ++ rs')) (total rs). lia. Qed.

Lemma commas_cons t : commas (","%ch :: t) = 1 + commas t.
Proof. unfold commas. rewrite filter_cons_True by done. cbn [length]. lia. Qed.

Lemma commas_app t u : commas (t ++ u) = commas t + commas u.
Proof. unfold commas. rewrite list.filter_app, length_app. lia. Qed.

Lemma commas_nonneg t : 0 ≤ commas t.
Proof. unfold commas. lia. Qed.

(** The outcome of the loop for [max] ranges. *)
Definition parse_result (N : Prop) (alloc : nat → option Z) (cl max rc : Z)
    (found : list ngx_http_range_t) : Prop :=
  (rc = NGX_OK ∨ rc = NGX_HTTP_RANGE_NOT_SATISFIABLE ∨ rc = NGX_DECLINED ∨
   rc = NGX_ERROR ∧ ∃ k, alloc k = None) ∧
  (rc = NGX_OK → 0 < Z.of_nat (length found) ≤ max ∧
     (N → total found ≤ cl ∧ Forall (λ g, 0 ≤ start g < end_ g ∧ end_ g ≤ cl) found)).

Lemma parse_loop_ended (N : Prop) alloc K cl max fuel : ∀ t size n found,
  no_nul t → (length t < fuel)%nat → 0 ≤ n → 0 ≤ max < 2 ^ 64 → Z.of_nat (length found) + n = max →
  (N → sane K cl ∧ numbers_below K t ∧ found_ok K cl found ∧ size = total found ∧
       (Z.of_nat (length found) + commas t + 1) * (cl + K) ≤ MAX_INT64) →
  ∃ rc rs, parse_loop alloc fuel cl (ended t) size n found = Some (rc, rs) ∧
    parse_result N alloc cl max rc rs.
Proof.
  induction fuel as [|fuel IH]; intros t size n found Ht Hf Hn Hmax Hlen HN; [lia|].
  cbn [parse_loop].
  destruct (parse_spec_ended N K cl t Ht) as (s & -> & Hs). { intros Hn'%HN. tauto. }
  cbn [mbind option_bind]. destruct s as [[[st en] q]|]; cbn [spec_result] in Hs.
  2:{ eexists _, _. split; [done|]. split; [tauto|done]. }
  destruct Hs as (t1 & t2 & -> & -> & Ht2 & Hend & Hb).
  (* what follows a range *)
  assert (∀ size n found, 0 ≤ n → Z.of_nat (length found) + n = max →
    (N → sane K cl ∧ numbers_below K (t1 ++ t2) ∧ found_ok K cl found ∧ size = total found ∧
         (Z.of_nat (length found) + commas t2) * (cl + K) ≤ MAX_INT64) →
    ∃ rc rs,
      (c ← head (ended t2);
       if negb (c =? ","%ch) then Some (parse_end cl size found, found)
       else parse_loop alloc fuel cl (tail (ended t2)) size n found) = Some (rc, rs) ∧
      parse_result N alloc cl max rc rs) as Hnext.
  { clear size n found Hn Hlen HN. intros size n found Hn Hlen HN.
    destruct Hend as [->|[t3 ->]]; cbn [app head mbind option_bind tail].
    - change (negb (0 =? 44)) with true. eexists _, _. split; [done|].
      unfold parse_result, parse_end. destruct found as [|g found]; [cbn; split; [tauto|done]|].
      cbn [length Nat.eqb] in *. destruct (Z.ltb_spec cl size); (split; [tauto|]); [done|].
      intros _. split; [lia|]. intros (Hsane & _ & Hok & -> & _)%HN.
      split; [done|]. by apply (found_total K cl (g :: found)).
    - change (negb (44 =? 44)) with false. cbn [negb]. inversion_clear Ht2 as [|?? _ Ht3].
      apply IH; [done| |done..|].
      { rewrite length_app in Hf. cbn in Hf. lia. }
      intros (Hsane & HK & Hok & Hsize & Hc)%HN. split_and!; [done| |done|done|].
      { apply (numbers_below_tail K (t1 ++ [","%ch])). by rewrite <- app_assoc. }
      rewrite commas_cons in Hc. by replace (_ + commas t3 + 1) with (Z.of_nat (length found) + (1 + commas t3)) by lia. }
  pose proof (commas_nonneg t1) as Hc1. pose proof (commas_nonneg t2) as Hc2.
  rewrite commas_app in HN.
  destruct (Z.ltb_spec st en) as [Hlt|Hge].
  - destruct (alloc (length found)) as [a|] eqn:Ha.
    2:{ eexists _, _. split; [done|]. split; [|done]. do 3 right. split; [done|]. eauto. }
    assert (N → found_ok K cl (found ++ [mk_range st en []])) as Hfound.
    { intros Hn'. apply Forall_app. split; [by apply HN|]. constructor; [|by constructor]. split; [done|by apply Hb]. }
    assert (N → s64 (size + (en - st)) = total (found ++ [mk_range st en []])) as Hsize.
    { intros Hn'. destruct (HN Hn') as (Hsane & _ & Hok & -> & Hbig).
      destruct (found_total _ _ _ Hsane Hok) as [Htot _]. destruct (Hb Hn') as (? & ? & _).
      destruct Hsane as (? & ? & ?). rewrite total_app. cbn. rewrite s64_id by nia. lia. }
    destruct (Z.eqb_spec n 0) as [->|Hn0].
    { eexists _, _. split; [done|]. split; [tauto|done]. }
    rewrite u64_id by lia. apply Hnext; [lia|rewrite length_app; cbn; lia|].
    intros Hn'. destruct (HN Hn') as (Hsane & HK & _ & _ & Hbig).
    split_and!; [done|done|by apply Hfound|by apply Hsize|].
    rewrite length_app. cbn [length]. destruct Hsane as (? & ? & ?). nia.
  - apply Hnext; [done|done|]. intros (Hsane & HK & Hok & Hsz & Hbig)%HN.
    split_and!; [done..|]. destruct Hsane as (? & ? & ?). nia.
Qed.
End Terminated.

(** C38: The ranges of a request are read without leaving the terminated value.
    Ranges that are accepted are few enough, and, when the numbers in the value
    are too small to overflow [off_t], they lie inside the content, none is
    empty and together they are not longer than it. *)
Theorem range_parse_safe alloc prefix text r cl max :
  length prefix = 6%nat → no_nul text → 0 ≤ max < 2 ^ 64 →
  ∃ rc rs,
    ngx_http_range_parse alloc (prefix ++ text ++ NUL :: r) cl max = Some (rc, rs) ∧
    ∀ K, parse_result
           (0 ≤ cl ∧ 0 < K ∧ numbers_below K text ∧ (commas text + 1) * (cl + K) ≤ MAX_INT64)
           alloc cl max rc rs.
Proof.
  intros Hp Ht Hmax. unfold ngx_http_range_parse. rewrite drop_app_length' by done.
  assert (∀ K, ∃ rc rs, parse_loop alloc (S (length (text ++ NUL :: r))) cl (text ++ NUL :: r) 0 max [] =
      Some (rc, rs) ∧ parse_result
        (0 ≤ cl ∧ 0 < K ∧ numbers_below K text ∧ (commas text + 1) * (cl + K) ≤ MAX_INT64)
        alloc cl max rc rs) as H.
  { intros K. apply (parse_loop_ended r _ alloc K); [done| |lia|lia|cbn; lia|].
    { rewrite length_app. cbn. lia. }
    intros (Hcl & HK & Hn & Hbig). pose proof (commas_nonneg text).
    split_and!; [unfold sane; split_and!; nia|done|by constructor|done|cbn; lia]. }
  destruct (H 1) as (rc & rs & E & _). exists rc, rs. split; [done|]. intros K.
  destruct (H K) as (rc' & rs' & E' & Hr). rewrite E in E'. by injection E' as <- <-.
Qed.

(** *** Well-formed headers *)

(** The ranges of a header, with the spaces around their parts. *)
Inductive byte_range : Type :=
  | Between (i j k l : nat) (first last : list Z)
  | From (i j k : nat) (first : list Z)
  | Suffix (i l : nat) (size : list Z).

Definition range_text (b : byte_range) : list Z :=
  match b with
  | Between i j k l first last =>
      spaces i ++ first ++ spaces j ++ "-"%ch :: spaces k ++ last ++ spaces l
  | From i j k first => spaces i ++ first ++ spaces j ++ "-"%ch :: spaces k
  | Suffix i l size => spaces i ++ "-"%ch :: size ++ spaces l
  end.

Fixpoint ranges_text (bs : list byte_range) : list Z :=
  match bs with
  | [] => []
  | [b] => range_text b
  | b :: bs => range_text b ++ ","%ch :: ranges_text bs
  end.

(** A number of a range. *)
Definition decimal (K : Z) (ds : list Z) : Prop := ds ≠ [] ∧ Forall is_digit ds ∧ dec ds < K.

Definition range_ok (K : Z) (b : byte_range) : Prop :=
  match b with
  | Between _ _ _ _ first last => decimal K first ∧ decimal K last
  | From _ _ _ first => decimal K first
  | Suffix _ _ size => decimal K size
  end.

(** What a range means for a content of [cl] bytes: from a position up to
    another one or to the end, or the last bytes. *)
Definition meaning (cl : Z) (b : byte_range) : Z * Z :=
  match b with
  | Between _ _ _ _ first last => (dec first, Z.min cl (dec last + 1))
  | From _ _ _ first => (dec first, cl)
  | Suffix _ _ size => (cl - dec size, cl)
  end.

(** The ranges that are not empty. *)
Definition wanted (cl : Z) (bs : list byte_range) : list ngx_http_range_t :=
  omap (λ b, let '(st, en) := meaning cl b in
             if st <? en then Some (mk_range st en []) else None) bs.

Lemma read_number_spaces K ds l c p :
  decimal K ds → K ≤ MAX_INT64 → is_digit c = false →
  read_number 0 (ds ++ spaces l ++ c :: p) = Some (dec ds, spaces l ++ c :: p).
Proof.
  intros (_ & Hds & Hk) HK Hc. destruct l as [|l]; apply read_number_app; try done; lia.
Qed.

Lemma decimal_head K ds p :
  decimal K ds → ∃ c, head (ds ++ p) = Some c ∧ is_digit c = true ∧ (c =? "-"%ch) = false.
Proof.
  intros (Hne & Hds & _). destruct ds as [|c ds]; [done|]. exists c. inversion_clear Hds as [|?? Hc _].
  split_and!; [done|by apply Is_true_true|]. apply is_digit_range in Hc. lia.
Qed.

Lemma skip_spaces_digits K ds p : decimal K ds → skip_spaces (ds ++ p) = Some (ds ++ p).
Proof.
  intros (Hne & Hds & _). destruct ds as [|c ds]; [done|]. inversion_clear Hds as [|?? Hc _].
  apply is_digit_range in Hc. cbn [app]. apply skip_spaces_at. lia.
Qed.

Definition delimiter (c : Z) : Prop := c = ","%ch ∨ c = NUL.

Lemma delimiter_facts c : delimiter c →
  is_digit c = false ∧ c ≠ " "%ch ∧ (c =? ","%ch) || (c =? NUL) = true.
Proof. by intros [-> | ->]. Qed.

Lemma last_position_text K cl suffix st ds l c p :
  decimal K ds → sane K cl → delimiter c → 0 ≤ cl →
  last_position cl suffix st (ds ++ spaces l ++ c :: p) =
  Some (Some ((if suffix then cl - dec ds else st), (if suffix then cl else Z.min cl (dec ds + 1)), c :: p)).
Proof.
  intros Hds (? & ? & ?) (Hcd & Hcs & Hc)%delimiter_facts Hcl. unfold last_position.
  destruct (decimal_head K ds (spaces l ++ c :: p) Hds) as (d & -> & Hd & _).
  cbn [mbind option_bind]. rewrite Hd. cbn [negb].
  rewrite (read_number_spaces K) by (done || lia). cbn [mbind option_bind].
  rewrite skip_spaces_app, skip_spaces_at by done. cbn [mbind option_bind head].
  rewrite <- negb_orb, Hc. cbn [negb].
  assert (0 ≤ dec ds) by (apply dec_from_nonneg; [done|apply Hds]).
  assert (dec ds < K) by apply Hds.
  destruct suffix; rewrite ?s64_id by lia.
  - destruct (Z.leb_spec cl (cl - 1)); [lia|]. do 4 f_equal. lia.
  - destruct (Z.leb_spec cl (dec ds)); rewrite ?s64_id by lia; do 4 f_equal; lia.
Qed.

Lemma parse_spec_text K cl b c p :
  range_ok K b → sane K cl → delimiter c →
  parse_spec cl (range_text b ++ c :: p) = Some (Some (meaning cl b, c :: p)).
Proof.
  intros Hb Hs Hc. pose proof Hs as (? & ? & ?). pose proof (delimiter_facts c Hc) as (Hcd & Hcs & Hc').
  unfold parse_spec. destruct b as [i j k l a b|i j k a|i l n]; cbn [range_ok range_text meaning] in *;
    do 3 (rewrite <- ?app_assoc; cbn [app]); rewrite skip_spaces_app.
  - destruct Hb as [Ha Hb].
    rewrite (skip_spaces_digits K) by done. cbn [mbind option_bind].
    destruct (decimal_head K a (spaces j ++ "-"%ch :: spaces k ++ b ++ spaces l ++ c :: p) Ha)
      as (d & -> & Hd & Hdash).
    cbn [mbind option_bind]. rewrite Hdash, Hd. cbn [negb].
    rewrite (read_number_spaces K) by (done || lia). cbn [mbind option_bind].
    rewrite skip_spaces_app, skip_spaces_at by done. cbn [mbind option_bind head tail].
    change (negb (45 =? 45)) with false. cbv iota.
    rewrite skip_spaces_app, (skip_spaces_digits K) by done.
    cbn [mbind option_bind].
    destruct (decimal_head K b (spaces l ++ c :: p) Hb) as (d' & -> & Hd' & _). cbn [mbind option_bind].
    assert ((d' =? 44) || (d' =? 0) = false) as ->.
    { apply Is_true_true, is_digit_range in Hd'. lia. }
    by rewrite (last_position_text K).
  - rewrite (skip_spaces_digits K) by done. cbn [mbind option_bind].
    destruct (decimal_head K a (spaces j ++ "-"%ch :: spaces k ++ c :: p) Hb) as (d & -> & Hd & Hdash).
    cbn [mbind option_bind]. rewrite Hdash, Hd. cbn [negb].
    rewrite (read_number_spaces K) by (done || lia). cbn [mbind option_bind].
    rewrite skip_spaces_app, skip_spaces_at by done. cbn [mbind option_bind head tail].
    change (negb (45 =? 45)) with false. cbv iota.
    rewrite skip_spaces_app, skip_spaces_at by done. cbn [mbind option_bind head]. by rewrite Hc'.
  - rewrite skip_spaces_at by done. cbn [mbind option_bind head tail].
    change (negb (45 =? 45)) with false. cbv iota. by rewrite (last_position_text K).
Qed.

(** The result for the ranges [rs] of a header. *)
Definition accepts (cl max : Z) (rs : list ngx_http_range_t) : Z :=
  if max <? Z.of_nat (length rs) then NGX_DECLINED
  else if (length rs =? 0)%nat then NGX_HTTP_RANGE_NOT_SATISFIABLE
  else if cl <? total rs then NGX_DECLINED
  else NGX_OK.

Lemma meaning_bounds K cl b : range_ok K b → 0 ≤ cl → spec_bounds K cl (meaning cl b).1 (meaning cl b).2.
Proof.
  assert (∀ ds, decimal K ds → 0 ≤ dec ds < K) as Hd.
  { intros ds (_ & ? & ?). split; [by apply dec_from_nonneg|done]. }
  unfold spec_bounds. intros Hb Hcl. destruct b as [? ? ? ? a b|? ? ? a|? ? n]; cbn in *;
    [destruct Hb as [?%Hd ?%Hd]|apply Hd in Hb|apply Hd in Hb]; lia.
Qed.

Lemma wanted_cons cl b bs : wanted cl (b :: bs) =
  (if (meaning cl b).1 <? (meaning cl b).2
   then [mk_range (meaning cl b).1 (meaning cl b).2 []] else []) ++ wanted cl bs.
Proof.
  unfold wanted. cbn [omap list_omap]. destruct (meaning cl b) as [st en]. cbn [fst snd].
  by destruct (st <? en).
Qed.

Lemma wanted_ok K cl bs : Forall (range_ok K) bs → 0 ≤ cl → found_ok K cl (wanted cl bs).
Proof.
  intros Hbs Hcl. induction Hbs as [|b bs Hb _ IH]; [by constructor|].
  rewrite wanted_cons. destruct (Z.ltb_spec (meaning cl b).1 (meaning cl b).2); [|done].
  constructor; [|done]. split; [done|]. by apply meaning_bounds.
Qed.

Lemma wanted_length cl bs : (length (wanted cl bs) ≤ length bs)%nat.
Proof.
  induction bs as [|b bs IH]; [done|]. rewrite wanted_cons, length_app. cbn [length].
  destruct (_ <? _); cbn [length]; lia.
Qed.

Section Accepts.
Context (alloc : nat → option Z) (Halloc : ∀ k, alloc k ≠ None).
Context (K cl max : Z) (Hsane : sane K cl) (Hmax : 0 ≤ max < 2 ^ 64).

(** [before] are the ranges of the array. *)
Lemma parse_loop_text r bs : ∀ fuel n before size,
  bs ≠ [] → Forall (range_ok K) bs → (length bs ≤ fuel)%nat →
  found_ok K cl before → size = total before →
  Z.of_nat (length before + length bs) * (cl + K) ≤ MAX_INT64 →
  0 ≤ n → Z.of_nat (length before) + n = max →
  ∃ rs, parse_loop alloc fuel cl (ranges_text bs ++ NUL :: r) size n before =
          Some (accepts cl max (before ++ wanted cl bs), rs) ∧
        (Z.of_nat (length (before ++ wanted cl bs)) ≤ max → rs = before ++ wanted cl bs).
Proof.
  induction bs as [|b bs IH]; intros fuel n before size Hne Hbs Hf Hbef -> Hbig Hn Hlen; [done|].
  destruct fuel as [|fuel]; [cbn in Hf; lia|]. inversion_clear Hbs as [|?? Hb Hbs'].
  cbn [parse_loop].
  assert (∃ c p, delimiter c ∧ ranges_text (b :: bs) ++ NUL :: r = range_text b ++ c :: p ∧
    (c = NUL ∧ bs = [] ∨ c = ","%ch ∧ bs ≠ [] ∧ p = ranges_text bs ++ NUL :: r))
    as (c & p & Hc & -> & Hrest).
  { destruct bs as [|b' bs].
    - exists NUL, r. split_and!; [by right|done|by left].
    - exists ","%ch, (ranges_text (b' :: bs) ++ NUL :: r). split_and!; [by left| |by right].
      cbn [ranges_text]. by rewrite <- app_assoc. }
  rewrite (parse_spec_text K) by done. cbn [mbind option_bind].
  rewrite wanted_cons. pose proof (meaning_bounds K cl b Hb (proj1 Hsane)) as Hmb.
  destruct (meaning cl b) as [st en]. cbn [fst snd] in *.
  assert (∀ before' n, found_ok K cl before' → (length before' ≤ S (length before))%nat →
    0 ≤ n → Z.of_nat (length before') + n = max →
    ∃ rs, (c0 ← head (c :: p);
           if negb (c0 =? ","%ch) then Some (parse_end cl (total before') before', before')
           else parse_loop alloc fuel cl (tail (c :: p)) (total before') n before') =
          Some (accepts cl max (before' ++ wanted cl bs), rs) ∧
        (Z.of_nat (length (before' ++ wanted cl bs)) ≤ max → rs = before' ++ wanted cl bs)) as Hnext.
  { clear n Hn Hlen. intros before' n Hok Hl Hn Hlen. cbn [head mbind option_bind tail].
    destruct Hrest as [[-> ->]|(-> & Hne' & ->)].
    - exists before'. cbn [wanted omap list_omap]. rewrite app_nil_r. split; [|done].
      unfold accepts, parse_end. replace (max <? _) with false by lia. done.
    - apply IH; [done|done|cbn in Hf; lia|done|done| |done|done].
      destruct Hsane as (? & ? & ?). cbn in Hbig. nia. }
  destruct (Z.ltb_spec st en) as [Hlt|Hge].
  - set (g := mk_range st en []).
    assert (found_ok K cl (before ++ [g])) as Hok.
    { apply Forall_app. split; [done|]. constructor; [|by constructor]. split; [done|].
      done. }
    destruct (alloc (length before)) eqn:Ha; [|by destruct (Halloc _ Ha)].
    destruct (found_total _ _ _ Hsane Hbef) as [Htot _].
    assert (s64 (total before + (en - st)) = total (before ++ [g])) as ->.
    { rewrite total_app. cbn. destruct Hsane as (? & ? & ?), Hmb as (? & ? & _). rewrite s64_id; [lia|].
      cbn in Hbig. nia. }
    replace (before ++ [g] ++ wanted cl bs) with ((before ++ [g]) ++ wanted cl bs) by by rewrite <- app_assoc.
    destruct (Z.eqb_spec n 0) as [->|Hn0].
    + eexists. assert (max < Z.of_nat (length ((before ++ [g]) ++ wanted cl bs))) as Hover.
      { rewrite !length_app. cbn [length]. lia. }
      split; [|lia]. unfold accepts. by replace (max <? _) with true by lia.
    + rewrite u64_id by lia. apply Hnext; [done|rewrite length_app; cbn; lia|lia|].
      rewrite length_app. cbn [length]. lia.
  - cbn [app]. apply Hnext; [done|lia|done|done].
Qed.
End Accepts.

(** A header of ranges is read as it is meant: "a-b", "a-" and "-n", with
    spaces around the numbers, give the ranges that are not empty, in their
    order; there must be some, not too many of them, and together they must
    not be longer than the content. *)
Lemma range_parse_text alloc prefix r K cl max bs :
  length prefix = 6%nat → (∀ k, alloc k ≠ None) → 0 ≤ cl → 0 < K → 0 ≤ max < 2 ^ 64 →
  bs ≠ [] → Forall (range_ok K) bs → Z.of_nat (length bs) * (cl + K) ≤ MAX_INT64 →
  ∃ rs,
    ngx_http_range_parse alloc (prefix ++ ranges_text bs ++ NUL :: r) cl max =
      Some (accepts cl max (wanted cl bs), rs) ∧
    (accepts cl max (wanted cl bs) = NGX_OK → rs = wanted cl bs).
Proof.
  intros Hp Ha Hcl HK Hmax Hne Hbs Hbig. unfold ngx_http_range_parse. rewrite drop_app_length' by done.
  destruct (parse_loop_text alloc Ha K cl max) with (r := r) (bs := bs) (n := max) (size := 0)
    (before := @nil ngx_http_range_t) (fuel := S (length (ranges_text bs ++ NUL :: r)))
    as (rs & E & Hrs); try done; try (cbn; lia).
  - destruct bs as [|b bs]; [done|]. unfold sane. cbn in Hbig. nia.
  - clear. induction bs as [|b bs IH]; [cbn; lia|].
    rewrite length_app in *. cbn [length] in *. destruct bs as [|b' bs]; [cbn; lia|].
    cbn [ranges_text] in *. rewrite !length_app. cbn [length] in *. lia.
  - by constructor.
  - exists rs. split; [exact E|]. intros H. apply Hrs. unfold accepts in H. cbn [app].
    destruct (Z.ltb_spec max (Z.of_nat (length (wanted cl bs)))); [done|lia].
Qed.

Lemma parse_spec_suffix cl ds c p :
  ds ≠ [] → Forall is_digit ds → dec ds ≤ MAX_INT64 → 0 ≤ cl ≤ MAX_INT64 → delimiter c →
  parse_spec cl ("-"%ch :: ds ++ c :: p) = Some (Some (cl - dec ds, cl, c :: p)).
Proof.
  intros Hne Hds Hm Hcl (Hcd & Hcs & Hc)%delimiter_facts. unfold parse_spec.
  rewrite skip_spaces_at by done. cbn [mbind option_bind head tail].
  change (negb (45 =? 45)) with false. cbv iota. unfold last_position.
  destruct (decimal_head (dec ds + 1) ds (c :: p)) as (d & -> & Hd & _); [split_and!; [done..|lia]|].
  cbn [mbind option_bind]. rewrite Hd. cbn [negb].
  rewrite read_number_app by (done || lia). cbn [mbind option_bind].
  rewrite skip_spaces_at by done. cbn [mbind option_bind head]. rewrite <- negb_orb, Hc. cbn [negb].
  assert (0 ≤ dec ds) by by apply dec_from_nonneg.
  rewrite !s64_id by lia. destruct (Z.leb_spec cl (cl - 1)); [lia|]. do 4 f_equal. lia.
Qed.

(** C39: The number of bytes wanted overflows [off_t]: two suffixes of 2^63 or more
    bytes together are accepted for any content, although the ranges begin
    before it. *)
Theorem range_parse_overflow alloc prefix r cl max m n :
  length prefix = 6%nat → (∀ k, alloc k ≠ None) → 2 ≤ max < 2 ^ 64 →
  Forall is_digit m → Forall is_digit n →
  0 ≤ cl < dec m → cl < dec n → dec m ≤ MAX_INT64 → dec n ≤ MAX_INT64 → MAX_INT64 < dec m + dec n →
  ngx_http_range_parse alloc (prefix ++ "-"%ch :: m ++ ","%ch :: "-"%ch :: n ++ NUL :: r) cl max =
    Some (NGX_OK, [mk_range (cl - dec m) cl []; mk_range (cl - dec n) cl []]) ∧
  cl - dec m < 0 ∧ cl - dec n < 0.
Proof.
  intros Hp Ha Hmax Hdm Hdn Hcl Hn Hm1 Hn1 Hover. split; [|lia].
  assert (m ≠ [] ∧ n ≠ []) as [Hm0 Hn0] by (split; intros ->; cbn in *; lia).
  unfold ngx_http_range_parse. rewrite drop_app_length' by done.
  cbn [parse_loop length]. rewrite parse_spec_suffix by (done || lia || by left).
  cbn [mbind option_bind length head tail].
  destruct (Z.ltb_spec (cl - dec m) cl); [|lia].
  destruct (alloc 0%nat) eqn:?; [|by destruct (Ha 0%nat)].
  destruct (Z.eqb_spec max 0); [lia|]. change (negb (44 =? 44)) with false. cbv iota.
  rewrite parse_spec_suffix by (done || lia || by right).
  cbn [mbind option_bind length head tail app].
  destruct (Z.ltb_spec (cl - dec n) cl); [|lia].
  destruct (alloc 1%nat) eqn:?; [|by destruct (Ha 1%nat)].
  rewrite u64_id by lia. destruct (Z.eqb_spec (max - 1) 0); [lia|].
  change (negb (0 =? 44)) with true. cbv iota. unfold parse_end. cbn [length Nat.eqb].
  rewrite (s64_id (0 + _)) by lia.
  assert (s64 (0 + (cl - (cl - dec m)) + (cl - (cl - dec n))) < 0) by (unfold s64; zlia).
  destruct (Z.ltb_spec cl (s64 (0 + (cl - (cl - dec m)) + (cl - (cl - dec n))))); [lia|done].
Qed.

(** ** Witnesses *)

Definition example_alloc : nat → option Z := λ _, Some 4096.

Lemma dec_bound ds : ∀ v, 0 ≤ v → Forall is_digit ds → dec_from v ds < (v + 1) * 10 ^ Z.of_nat (length ds).
Proof.
  induction ds as [|d ds IH]; intros v Hv Hds; [cbn; lia|]. inversion_clear Hds as [|?? Hd Hds'].
  apply is_digit_range in Hd. cbn [length]. rewrite Nat2Z.inj_succ, Z.pow_succ_r by lia.
  cbn [dec_from fold_left]. specialize (IH (v * 10 + (d - 48)) ltac:(lia) Hds').
  pose proof (Z.pow_pos_nonneg 10 (Z.of_nat (length ds)) ltac:(lia) ltac:(lia)). unfold dec_from in *. nia.
Qed.

(** The numbers of a short text are small. *)
Lemma numbers_below_length t : numbers_below (10 ^ Z.of_nat (length t)) t.
Proof.
  intros a ds b -> Hds. apply (Z.lt_le_trans _ (10 ^ Z.of_nat (length ds))).
  - pose proof (dec_bound ds 0 ltac:(lia) Hds). lia.
  - apply Z.pow_le_mono_r; [lia|]. rewrite !length_app. lia.
Qed.

Lemma range_parse_safe_witness :
  ∃ rc rs,
    ngx_http_range_parse example_alloc (bs "bytes=" ++ bs "2-5,-4" ++ [NUL]) 10 3 = Some (rc, rs) ∧
    rc = NGX_OK ∧ Forall (λ g, 0 ≤ start g < end_ g ∧ end_ g ≤ 10) rs.
Proof.
  destruct (range_parse_safe example_alloc (bs "bytes=") (bs "2-5,-4") [] 10 3)
    as (rc & rs & E & H); [done|by repeat constructor|lia|].
  exists rc, rs. split; [exact E|]. vm_compute in E. injection E as <- <-. split; [done|].
  destruct (H (10 ^ 6)) as [_ Hok]. destruct (Hok eq_refl) as [_ Hv]. apply Hv.
  split; [lia|]. split; [lia|]. split; [|by vm_compute].
  apply (numbers_below_length (bs "2-5,-4")).
Defined.

Lemma range_parse_overflow_witness :
  ngx_http_range_parse example_alloc
    (bs "bytes=" ++ bs "-9223372036854775807,-9223372036854775807" ++ [NUL]) 10 3 =
  Some (NGX_OK, [mk_range (-9223372036854775797) 10 []; mk_range (-9223372036854775797) 10 []]).
Proof.
  set (m := bs "9223372036854775807").
  assert (Forall is_digit m ∧ dec m = MAX_INT64) as [Hm Em].
  { split; [|by vm_compute]. apply Forall_forall. intros c Hc. apply Is_true_true.
    revert c Hc. by apply forallb_forall. }
  destruct (range_parse_overflow example_alloc (bs "bytes=") [] 10 3 m m) as [E _];
    [done|done|lia|done|done|rewrite ?Em; lia..|]. rewrite Em in E. exact E.
Defined.

End RangeParse.
