(* ===== verification/RangeBody.v ===== *)
(** * Byte ranges: the body of a response with one range

    The bytes of the buffers, the part of them that is in the range, and what
    the body filter sends over all its calls. *)

From S2P Require Import Prelude Number Printf Times HttpDate StringOps Range.

Module RangeBody.
Import Range.

(** ** Theorems: the body *)

Section Body.
(** The bytes of the memory and of the files. *)
Context (mem : Z → Z) (fil : Z → Z → Z).

(** Where the bytes of a buffer are: in memory or not, in a file or not, and
    its four pointers.  A buffer that is in both has as many bytes in both. *)
Record place := mk_place { im : bool; inf : bool; p : Z; l : Z; fp : Z; fl : Z }.

Definition place_of (b : ngx_buf_t) : place :=
  mk_place (ngx_buf_in_memory b) (in_file b) (pos b) (last b) (file_pos b) (file_last b).

Record place_ok (a : place) : Prop := {
  ok_mem : 0 ≤ p a ≤ l a ∧ l a ≤ MAX_UINT64 ∧ l a - p a ≤ MAX_INT64;
  ok_file : 0 ≤ fp a ≤ fl a ∧ fl a ≤ MAX_INT64;
  ok_both : im a = true → inf a = true → l a - p a = fl a - fp a;
  ok_none : im a = false → inf a = false → fp a = fl a;
}.

Definition place_data (f : Z) (a : place) : list Z :=
  if im a then mem <$> seqZ (p a) (l a - p a)
  else if inf a then fil f <$> seqZ (fp a) (fl a - fp a)
  else [].

Abbreviation buf_ok b := (place_ok (place_of b)).
Definition buf_data (b : ngx_buf_t) : list Z := place_data (file b) (place_of b).
Definition chain_data (cl : list ngx_buf_t) : list Z := concat (buf_data <$> cl).

Lemma buf_size_data b : buf_ok b → ngx_buf_size b = Z.of_nat (length (buf_data b)).
Proof.
  intros [(?&?&?) (?&?) Hboth Hnone]. unfold ngx_buf_size, buf_data, place_data. cbn in *.
  destruct (ngx_buf_in_memory b).
  - rewrite length_fmap, length_seqZ, s64_id by lia. lia.
  - destruct (in_file b); [rewrite length_fmap, length_seqZ, s64_id by lia; lia|].
    specialize (Hnone eq_refl eq_refl). rewrite s64_id by lia. cbn. lia.
Qed.

Lemma buf_size_range b : buf_ok b → Z.of_nat (length (buf_data b)) ≤ MAX_INT64.
Proof. intros H. rewrite <- buf_size_data by done. unfold ngx_buf_size. case_match; apply s64_range. Qed.

(** Where the bytes are after each of the three changes. *)
Ltac places b :=
  destruct b as [? ? ? ? ? t m mm i ? ? ?]; by destruct t, m, mm, i.

Lemma place_skip b :
  file (skip_buf b) = file b ∧
  place_of (skip_buf b) =
    mk_place (ngx_buf_in_memory b) (in_file b) (last b) (last b)
      (if in_file b then file_last b else file_pos b) (file_last b).
Proof. places b. Qed.

Lemma place_cut_start n b :
  file (cut_start n b) = file b ∧
  place_of (cut_start n b) =
    mk_place (ngx_buf_in_memory b) (in_file b)
      (if ngx_buf_in_memory b then u64 (pos b + u64 n) else pos b) (last b)
      (if in_file b then s64 (file_pos b + n) else file_pos b) (file_last b).
Proof. places b. Qed.

Lemma place_cut_end n b :
  file (cut_end n b) = file b ∧
  place_of (cut_end n b) =
    mk_place (ngx_buf_in_memory b) (in_file b)
      (pos b) (if ngx_buf_in_memory b then u64 (last b - u64 n) else last b)
      (file_pos b) (if in_file b then s64 (file_last b - n) else file_last b).
Proof. places b. Qed.

Lemma place_last b :
  file (b <| last_buf := true |>) = file b ∧ place_of (b <| last_buf := true |>) = place_of b.
Proof. done. Qed.

Lemma seqZ_drop n k m : 0 ≤ k ≤ m → drop (Z.to_nat k) (seqZ n m) = seqZ (n + k) (m - k).
Proof.
  intros. replace m with (k + (m - k)) at 1 by lia. rewrite seqZ_app by lia.
  apply drop_app_length'. rewrite length_seqZ. lia.
Qed.

Lemma seqZ_take n k m : 0 ≤ k ≤ m → take (Z.to_nat k) (seqZ n m) = seqZ n k.
Proof.
  intros. replace m with (k + (m - k)) by lia. rewrite seqZ_app by lia.
  apply take_app_length'. rewrite length_seqZ. lia.
Qed.

Lemma skip_buf_spec b : buf_ok b → buf_ok (skip_buf b) ∧ buf_data (skip_buf b) = [].
Proof.
  intros [(?&?&?) (?&?) Hboth Hnone]. unfold buf_data. destruct (place_skip b) as [-> ->].
  unfold place_data. cbn in *. rewrite !Z.sub_diag.
  split; [split; cbn; intros; repeat case_match; (done || lia || auto)|].
  destruct (ngx_buf_in_memory b); [done|]. destruct (in_file b); [by rewrite Z.sub_diag|done].
Qed.

Lemma cut_start_spec n b : buf_ok b → 0 ≤ n ≤ Z.of_nat (length (buf_data b)) →
  buf_ok (cut_start n b) ∧ buf_data (cut_start n b) = drop (Z.to_nat n) (buf_data b).
Proof.
  intros [(?&?&?) (?&?) Hboth Hnone] Hn. unfold buf_data in *. destruct (place_cut_start n b) as [-> ->].
  unfold place_data in *. cbn in *.
  destruct (ngx_buf_in_memory b), (in_file b); cbn in *;
    rewrite ?length_fmap, ?length_seqZ in Hn;
    try specialize (Hboth eq_refl eq_refl); try specialize (Hnone eq_refl eq_refl);
    rewrite ?(u64_id n), ?u64_id by lia; rewrite ?s64_id by lia;
    (split; [split; cbn; intros; (done || lia)|]); rewrite <- ?fmap_drop, ?seqZ_drop, ?drop_nil by lia;
    try done; do 2 f_equal; lia.
Qed.

Lemma cut_end_spec n b : buf_ok b → 0 ≤ n ≤ Z.of_nat (length (buf_data b)) →
  buf_ok (cut_end n b) ∧
  buf_data (cut_end n b) = take (length (buf_data b) - Z.to_nat n) (buf_data b).
Proof.
  intros [(?&?&?) (?&?) Hboth Hnone] Hn. unfold buf_data in *. destruct (place_cut_end n b) as [-> ->].
  unfold place_data in *. cbn in *.
  destruct (ngx_buf_in_memory b), (in_file b); cbn in *;
    rewrite ?length_fmap, ?length_seqZ in *;
    try specialize (Hboth eq_refl eq_refl); try specialize (Hnone eq_refl eq_refl);
    rewrite ?(u64_id n), ?u64_id by lia; rewrite ?s64_id by lia;
    (split; [split; cbn; intros; (done || lia)|]);
    try (replace (Z.to_nat _ - Z.to_nat n)%nat with (Z.to_nat (last b - pos b - n)) by lia);
    try (replace (Z.to_nat _ - Z.to_nat n)%nat with (Z.to_nat (file_last b - file_pos b - n)) by lia);
    rewrite <- ?fmap_take, ?seqZ_take, ?take_nil by lia;
    try done; do 2 f_equal; lia.
Qed.

(** The bytes of [d], which begins at [off], that are in the range. *)
Definition window (rstart rend off : Z) (d : list Z) : list Z :=
  take (Z.to_nat (rend - Z.max rstart off)) (drop (Z.to_nat (rstart - off)) d).

Lemma window_app rs re off d1 d2 : 0 ≤ off →
  window rs re off (d1 ++ d2) = window rs re off d1 ++ window rs re (off + Z.of_nat (length d1)) d2.
Proof.
  intros Hoff. unfold window. rewrite drop_app, take_app. f_equal.
  rewrite length_drop.
  destruct (decide (rs ≤ off + Z.of_nat (length d1))).
  - replace (Z.to_nat (rs - (off + Z.of_nat (length d1)))) with O by lia.
    replace (Z.to_nat (rs - off) - length d1)%nat with O by lia. f_equal. lia.
  - replace (Z.to_nat (rs - off) - length d1)%nat with (Z.to_nat (rs - (off + Z.of_nat (length d1)))) by lia.
    f_equal. lia.
Qed.

Lemma window_after rs re off d : re ≤ off → window rs re off d = [].
Proof. intros. unfold window. by replace (Z.to_nat (re - Z.max rs off)) with O by lia. Qed.

Lemma window_before rs re off d : off + Z.of_nat (length d) ≤ rs → window rs re off d = [].
Proof. intros. unfold window. rewrite drop_ge by lia. apply take_nil. Qed.

Lemma window_nil rs re off : window rs re off [] = [].
Proof. unfold window. by rewrite drop_nil, take_nil. Qed.

Lemma chain_data_cons b cl : chain_data (b :: cl) = buf_data b ++ chain_data cl.
Proof. done. Qed.

Lemma special_data b : ngx_buf_special b = true → buf_data b = [].
Proof.
  unfold ngx_buf_special, buf_data, place_data. cbn. intros H. bool_to_prop.
  by repeat match goal with E : _ = false |- _ => rewrite E; clear E end.
Qed.

(** What the loop makes of a chain [cl] at [off]. *)
Definition loop_result (rs re off : Z) (cl : list ngx_buf_t)
    (res : Z * list ngx_buf_t * option (list ngx_buf_t)) : Prop :=
  let '(off', next, ll) := res in
  let end_ := off + Z.of_nat (length (chain_data cl)) in
  let w := window rs re off (chain_data cl) in
  (off ≤ off' ≤ end_ ∧ (off' = end_ ∨ re ≤ off')) ∧
  Forall (λ b, buf_ok b) next ∧ chain_data next = w ∧
  match ll with
  | Some out => Forall (λ b, buf_ok b) out ∧ chain_data out = w
  | None => w = []
  end ∧
  (off < re ≤ end_ → ∃ out b, ll = Some (out ++ [b]) ∧ last_buf b = true).

Section Chain.
Context (rs re : Z) (Hrange : 0 ≤ rs < re).

(** A buffer of which [b'] is sent stays in front of what follows. *)
Lemma loop_result_keep off b b' cl res :
  0 ≤ off → buf_ok b' → buf_data b' = window rs re off (buf_data b) →
  (re ≤ off ∨ off + Z.of_nat (length (buf_data b)) < re) →
  loop_result rs re (off + Z.of_nat (length (buf_data b))) cl res →
  loop_result rs re off (b :: cl)
    (let '(off', next, ll) := res in (off', b' :: default next ll, Some (b' :: default next ll))).
Proof.
  intros Hoff Hok Hd Hre. destruct res as [[off' next] ll]. unfold loop_result.
  rewrite !chain_data_cons, window_app, !length_app by done. rewrite Hd.
  intros ((?&?) & Hn & Hw & Hll & Hlast).
  assert (Forall (λ b, buf_ok b) (default next ll) ∧ chain_data (default next ll) =
    window rs re (off + Z.of_nat (length (buf_data b))) (chain_data cl)) as [Ho Hc] by by destruct ll.
  rewrite Hc. split_and!; [lia|lia|lia|by constructor|done|by constructor|done|].
  intros Hin. destruct Hlast as (out & b1 & -> & Hb1); [lia|]. by exists (b' :: out), b1.
Qed.

(** A buffer of which nothing is sent. *)
Lemma loop_result_skip off b cl res :
  0 ≤ off → buf_ok b → window rs re off (buf_data b) = [] →
  (re ≤ off ∨ off + Z.of_nat (length (buf_data b)) < re) →
  loop_result rs re (off + Z.of_nat (length (buf_data b))) cl res →
  loop_result rs re off (b :: cl)
    (let '(off', next, ll) := res in (off', skip_buf b :: next, ll)).
Proof.
  intros Hoff Hok Hw0 Hre. destruct res as [[off' next] ll]. unfold loop_result.
  destruct (skip_buf_spec b Hok) as [Hok' Hd'].
  rewrite !chain_data_cons, window_app, !length_app by done. rewrite Hd', Hw0.
  intros ((?&?) & Hn & Hw & Hll & Hlast).
  split_and!; [lia|lia|lia|by constructor|done|done|].
  intros Hin. apply Hlast. lia.
Qed.

Lemma singlepart_loop_spec cl : ∀ off,
  0 ≤ off → off + Z.of_nat (length (chain_data cl)) ≤ MAX_INT64 → Forall (λ b, buf_ok b) cl →
  loop_result rs re off cl (singlepart_loop rs re off cl).
Proof.
  induction cl as [|b cl IH]; intros off Hoff Hmax Hok.
  { cbn. rewrite window_nil. split_and!; first [lia|done|by constructor]. }
  inversion_clear Hok as [|?? Hb Hcl]. rewrite chain_data_cons, length_app in Hmax.
  cbn [singlepart_loop]. rewrite buf_size_data by done. rewrite s64_id by lia.
  set (n := Z.of_nat (length (buf_data b))) in *.
  specialize (IH (off + n) ltac:(lia) ltac:(lia) Hcl).
  destruct (ngx_buf_special b) eqn:Hs.
  { apply special_data in Hs. apply loop_result_keep; [done|done| | |exact IH].
    - by rewrite Hs, window_nil.
    - rewrite Hs. cbn. lia. }
  destruct (_ || _) eqn:Hout.
  { apply orb_true_iff in Hout as [?%Z.leb_le|?%Z.leb_le];
      (apply loop_result_skip; [done|done| |lia|exact IH]);
      [by apply window_after|by apply window_before]. }
  bool_to_prop. set (b1 := if off <? rs then _ else b).
  assert (buf_ok b1 ∧ buf_data b1 = drop (Z.to_nat (rs - off)) (buf_data b)) as [Hb1 Hd1].
  { unfold b1. destruct (Z.ltb_spec off rs); [apply cut_start_spec; [done|lia]|].
    by replace (Z.to_nat (rs - off)) with O by lia. }
  assert (Z.of_nat (length (buf_data b1)) = n - Z.max 0 (rs - off)) as Hl1.
  { rewrite Hd1, length_drop. lia. }
  destruct (Z.leb_spec re (off + n)).
  - destruct (cut_end_spec (off + n - re) b1 Hb1) as [Hb2 Hd2]; [lia|].
    assert (buf_data (cut_end (off + n - re) b1) = window rs re off (buf_data b)) as Hw.
    { rewrite Hd2, Hd1. unfold window. f_equal. rewrite <- Hd1. lia. }
    unfold loop_result. rewrite !chain_data_cons, window_app by done. cbn [chain_data concat fmap list_fmap].
    rewrite (window_after _ _ (off + Z.of_nat _)) by lia. rewrite length_app.
    change (buf_data ((cut_end _ _) <| last_buf := true |>)) with (buf_data (cut_end (off + n - re) b1)).
    rewrite Hw. split_and!; [lia|lia|lia|by constructor; [|constructor]|by rewrite app_nil_r|by constructor; [|constructor]|by rewrite app_nil_r|].
    intros _. by eexists [], _.
  - apply loop_result_keep; [done|done| |lia|exact IH].
    rewrite Hd1. unfold window. rewrite take_ge; [done|]. rewrite length_drop. lia.
Qed.
End Chain.

Definition out_data (o : out_buf) : list Z :=
  match o with Text d _ => d | Buf b => buf_data b end.

Definition sent_data (s : sent) : list Z :=
  match s with Send out => concat (out_data <$> out) | Stop _ => [] end.

Definition sent_ok (s : sent) : Prop :=
  match s with
  | Send out => Forall (λ o, match o with Buf b => buf_ok b | Text _ _ => True end) out
  | Stop rc => rc = NGX_OK
  end.

(** The filter is called with one chain after the other. *)
Fixpoint body_filter_calls (alloc : nat → option Z) (ctx : option ngx_http_range_filter_ctx_t)
    (ins : list (list ngx_buf_t)) : option (list sent) :=
  match ins with
  | [] => Some []
  | cl :: ins =>
      '(s, ctx) ← ngx_http_range_body_filter alloc ctx cl;
      option_map (cons s) (body_filter_calls alloc ctx ins)
  end.

Lemma sent_chain_data cl : concat (out_data <$> (Buf <$> cl)) = chain_data cl.
Proof. unfold chain_data. by rewrite <- list_fmap_compose. Qed.

Section Calls.
Context (alloc : nat → option Z) (g : ngx_http_range_t) (bh : list Z).
Context (Hg : 0 ≤ start g < end_ g).
Local Abbreviation rs := (start g).
Local Abbreviation re := (end_ g).

(** [off] is [ctx->offset] and [T] the number of bytes that came before. *)
Lemma single_call off T cl :
  0 ≤ off ≤ T → (off = T ∨ re ≤ off) → T + Z.of_nat (length (chain_data cl)) ≤ MAX_INT64 →
  Forall (λ b, buf_ok b) cl →
  ∃ s off', ngx_http_range_body_filter alloc (Some (mk_ctx off bh [g])) cl =
      Some (s, Some (mk_ctx off' bh [g])) ∧
    off ≤ off' ≤ T + Z.of_nat (length (chain_data cl)) ∧
    (off' = T + Z.of_nat (length (chain_data cl)) ∨ re ≤ off') ∧
    sent_ok s ∧ sent_data s = window rs re T (chain_data cl) ∧
    (T < re ≤ T + Z.of_nat (length (chain_data cl)) →
     ∃ out b, s = Send (out ++ [Buf b]) ∧ last_buf b = true).
Proof.
  intros Hoff Hre Hmax Hok.
  assert (window rs re off (chain_data cl) = window rs re T (chain_data cl)) as Hw.
  { destruct Hre as [->|?]; [done|]. rewrite !window_after by lia. done. }
  destruct cl as [|b cl].
  { exists (Send []), off. rewrite window_nil. cbn in *. split_and!; first [done|lia|by constructor]. }
  pose proof (singlepart_loop_spec rs re Hg (b :: cl) off ltac:(lia) ltac:(lia) Hok) as H.
  cbn [ngx_http_range_body_filter length ranges Nat.eqb]. unfold ngx_http_range_singlepart_body.
  cbn [ranges head mbind option_bind offset boundary_header].
  destruct (singlepart_loop _ _ _ _) as [[off' next] ll]. unfold loop_result in H. rewrite Hw in H.
  destruct H as ((Hr & Hend) & Hn & Hdn & Hll & Hlast).
  destruct ll as [out|]; cbn [mbind option_bind].
  - exists (Send (Buf <$> out)), off'. destruct Hll as [Hout Hdata].
    split_and!; try done; try lia.
    + cbn. apply Forall_fmap. eapply list.Forall_impl; [exact Hout|]. done.
    + cbn [sent_data]. by rewrite sent_chain_data.
    + intros Hin. destruct Hre as [->|?]; [|lia]. destruct (Hlast Hin) as (out1 & b1 & E & Hb1).
      injection E as ->. exists (Buf <$> out1), b1. by rewrite fmap_app.
  - exists (Stop NGX_OK), off'. split_and!; try done; try lia.
    intros Hin. destruct Hre as [->|?]; [|lia]. by destruct (Hlast Hin) as (? & ? & ? & ?).
Qed.

Lemma single_calls ins : ∀ off T,
  0 ≤ off ≤ T → (off = T ∨ re ≤ off) →
  T + Z.of_nat (length (concat (chain_data <$> ins))) ≤ MAX_INT64 →
  Forall (Forall (λ b, buf_ok b)) ins →
  ∃ outs, body_filter_calls alloc (Some (mk_ctx off bh [g])) ins = Some outs ∧
    Forall sent_ok outs ∧
    concat (sent_data <$> outs) = window rs re T (concat (chain_data <$> ins)) ∧
    (T < re ≤ T + Z.of_nat (length (concat (chain_data <$> ins))) →
     ∃ before out b after, outs = before ++ Send (out ++ [Buf b]) :: after ∧ last_buf b = true ∧
       concat (sent_data <$> after) = []).
Proof.
  induction ins as [|cl ins IH]; intros off T Hoff Hre Hmax Hok.
  { exists []. cbn. rewrite window_nil. cbn in Hmax. split_and!; first [done|lia|by constructor]. }
  inversion_clear Hok as [|?? Hcl Hins]. cbn [fmap list_fmap concat] in *. rewrite length_app in *.
  destruct (single_call off T cl) as (s & off' & E & Hr & Hend & Hs & Hd & Hlast); [done|done|lia|done|].
  destruct (IH off' (T + Z.of_nat (length (chain_data cl)))) as (outs & E' & Hss & Hds & Hlasts);
    [lia|lia|lia|done|].
  exists (s :: outs). cbn [body_filter_calls]. rewrite E. cbn [mbind option_bind]. rewrite E'.
  split; [done|]. cbn [fmap list_fmap concat]. rewrite window_app, Hd, Hds by lia.
  split_and!; [by constructor|done|]. intros Hin.
  destruct (decide (re ≤ T + Z.of_nat (length (chain_data cl)))).
  - destruct Hlast as (out & b & -> & Hb); [lia|]. exists [], out, b, outs. split_and!; [done..|].
    rewrite Hds. apply window_after. lia.
  - destruct Hlasts as (before & out & b & after & -> & Hb & Ha); [lia|].
    by exists (s :: before), out, b, after.
Qed.
End Calls.

(** Of a body that arrives in any chains of buffers exactly the bytes of the
    range are sent, in well-formed buffers, and the last one is marked as the
    last of the response. *)
Lemma singlepart_body_sends alloc g bh ins :
  0 ≤ start g < end_ g →
  Forall (Forall (λ b, buf_ok b)) ins →
  let content := concat (chain_data <$> ins) in
  Z.of_nat (length content) ≤ MAX_INT64 →
  ∃ outs, body_filter_calls alloc (Some (mk_ctx 0 bh [g])) ins = Some outs ∧
    Forall sent_ok outs ∧
    concat (sent_data <$> outs) = slice content (start g) (end_ g - start g) ∧
    (end_ g ≤ Z.of_nat (length content) →
     ∃ before out b after, outs = before ++ Send (out ++ [Buf b]) :: after ∧ last_buf b = true ∧
       concat (sent_data <$> after) = []).
Proof.
  intros Hg Hok content Hmax.
  destruct (single_calls alloc g bh Hg ins 0 0) as (outs & E & Hs & Hd & Hlast); [lia|lia|done|done|].
  exists outs. split_and!; [done|done| |intros; apply Hlast; fold content; lia].
  rewrite Hd. unfold window, slice. f_equal; [|f_equal]; lia.
Qed.
End Body.

End RangeBody.
