(* ===== verification/RangeResponse.v ===== *)
(** * Byte ranges: the response

    The texts the filters print, the response with several ranges, and the
    whole way from the header of the request to the bytes that are sent. *)

From S2P Require Import Prelude Number Printf Times HttpDate StringOps Range RangeParse RangeBody.

Module RangeResponse.
Import Range RangeParse RangeBody.

(** ** Theorems: several ranges *)

(** The texts that are printed. *)
Abbreviation dec_text n := (Printf.num_digits n 0).
Definition boundary_text (boundary : Z) : list Z := Printf.number boundary "0"%ch 0 20.

Lemma dec_text_length n : 0 ≤ n ≤ MAX_UINT64 → (1 ≤ length (dec_text n) ≤ 20)%nat.
Proof.
  intros Hn. destruct (Printf.num_digits_dec n Hn) as (_ & Hne & _ & ?).
  destruct (dec_text n); [done|cbn in *; lia].
Qed.

Lemma boundary_text_length n : 0 ≤ n ≤ MAX_UINT64 → length (boundary_text n) = 20%nat.
Proof.
  intros Hn. pose proof (Printf.number_length n 0 20 Hn ltac:(by left)). unfold boundary_text. lia.
Qed.

Lemma directive_O room n fmt args :
  0 ≤ n ≤ MAX_INT64 → 20 ≤ room →
  Printf.directive room ("O"%ch :: fmt) (Printf.AInt n :: args) = Some (dec_text n, fmt, args).
Proof.
  intros Hn Hr. unfold Printf.directive.
  change (Printf.read_spec _ _) with
    (Some (Printf.mk_spec " "%ch 0 true 0 false 0 MAX_UINT64, "O"%ch :: fmt, Printf.AInt n :: args)).
  cbn -[Printf.put_integer s64]. rewrite Printf.put_integer_clip by lia.
  unfold Printf.integer_text. cbn -[Printf.number s64 u64]. rewrite s64_id by lia.
  replace (n <? 0) with false by lia. rewrite u64_id by lia. unfold Printf.number.
  pose proof (dec_text_length n ltac:(lia)).
  replace (Z.to_nat (0 - _)) with O by lia. cbn [replicate app]. rewrite take_ge by lia. done.
Qed.

Lemma directive_muA room n fmt args :
  0 ≤ n ≤ MAX_UINT64 → 20 ≤ room →
  Printf.directive room (bs "0muA" ++ fmt) (Printf.AInt n :: args) = Some (boundary_text n, fmt, args).
Proof.
  intros Hn Hr. unfold Printf.directive.
  change (Printf.read_spec _ _) with
    (Some (Printf.mk_spec "0"%ch 0 false 0 true 0 MAX_UINT64, "A"%ch :: fmt, Printf.AInt n :: args)).
  cbn -[Printf.put_integer s64 u64]. rewrite Printf.put_integer_clip by lia.
  unfold Printf.integer_text. cbn -[Printf.number s64 u64]. rewrite u64_id by lia.
  pose proof (boundary_text_length n Hn) as Hl. unfold boundary_text in Hl. rewrite take_ge by lia. done.
Qed.

Lemma loop_O fuel room n fmt args :
  0 ≤ n ≤ MAX_INT64 → 20 ≤ room →
  Printf.vslprintf_loop (S fuel) room ("%"%ch :: "O"%ch :: fmt) (Printf.AInt n :: args) =
  option_map (app (dec_text n))
    (Printf.vslprintf_loop fuel (room - Z.of_nat (length (dec_text n))) fmt args).
Proof. intros. erewrite Times.loop_directive; [done|lia|by apply directive_O]. Qed.

Lemma loop_muA fuel room n fmt args :
  0 ≤ n ≤ MAX_UINT64 → 20 ≤ room →
  Printf.vslprintf_loop (S fuel) room ("%"%ch :: "0"%ch :: "m"%ch :: "u"%ch :: "A"%ch :: fmt)
    (Printf.AInt n :: args) =
  option_map (app (boundary_text n)) (Printf.vslprintf_loop fuel (room - 20) fmt args).
Proof.
  intros. erewrite Times.loop_directive; [|lia|by apply directive_muA].
  by rewrite boundary_text_length.
Qed.

Lemma loop_V fuel room data fmt args :
  0 < room → Z.of_nat (length data) ≤ room →
  Printf.vslprintf_loop (S fuel) room ("%"%ch :: "V"%ch :: fmt) (Printf.AStr data :: args) =
  option_map (app data) (Printf.vslprintf_loop fuel (room - Z.of_nat (length data)) fmt args).
Proof. intros. erewrite Times.loop_directive; [done|lia|by apply Times.directive_V]. Qed.

Ltac print :=
  unfold Printf.ngx_sprintf, Printf.ngx_vslprintf; cbn [bs app length];
  repeat first
    [ rewrite loop_O by lia | rewrite loop_muA by lia | rewrite loop_V by lia
    | rewrite Times.loop_literal by (lia || done) ];
  cbn [Printf.vslprintf_loop option_map].

(** An address with room for what is printed there. *)
Definition address (a : Z) : Prop := 0 ≤ a ≤ MAX_UINT64 - 4294967296.

Definition range_digits (st en n : Z) : list Z :=
  dec_text st ++ "-"%ch :: dec_text (en - 1) ++ "/"%ch :: dec_text n.

Definition valid_range (n : Z) (g : ngx_http_range_t) : Prop := 0 ≤ start g < end_ g ∧ end_ g ≤ n.

Lemma print_single data g n :
  address data → valid_range n g → n ≤ MAX_INT64 →
  Printf.ngx_sprintf data (bs "bytes %O-%O/%O")
    [Printf.AInt (start g); Printf.AInt (s64 (end_ g - 1)); Printf.AInt n] =
  Some (bs "bytes " ++ range_digits (start g) (end_ g) n).
Proof.
  intros Hd [Hg He] Hn. unfold address in Hd. rewrite s64_id by lia.
  pose proof (dec_text_length (start g) ltac:(lia)).
  pose proof (dec_text_length (end_ g - 1) ltac:(lia)). pose proof (dec_text_length n ltac:(lia)).
  print. unfold range_digits. cbn. by rewrite app_nil_r.
Qed.

Lemma print_multi data g n :
  address data → valid_range n g → n ≤ MAX_INT64 →
  Printf.ngx_sprintf data (bs "%O-%O/%O" ++ [CR; LF; CR; LF])
    [Printf.AInt (start g); Printf.AInt (s64 (end_ g - 1)); Printf.AInt n] =
  Some (range_digits (start g) (end_ g) n ++ [CR; LF; CR; LF]).
Proof.
  intros Hd [Hg He] Hn. unfold address in Hd. rewrite s64_id by lia.
  pose proof (dec_text_length (start g) ltac:(lia)).
  pose proof (dec_text_length (end_ g - 1) ltac:(lia)). pose proof (dec_text_length n ltac:(lia)).
  print. unfold range_digits. by rewrite <- !app_assoc; cbn; rewrite <- !app_assoc.
Qed.

(** CRLF "--0123456789" CRLF "Content-Type: image/jpeg" CRLF
    "Content-Range: bytes " *)
Definition boundary_header_text (boundary : Z) (h : headers_out) : list Z :=
  [CR; LF] ++ bs "--" ++ boundary_text boundary ++ [CR; LF] ++
  (if negb (length (charset h) =? 0)%nat then
     bs "Content-Type: " ++ content_type h ++ bs "; charset=" ++ charset h ++ [CR; LF]
   else if negb (length (content_type h) =? 0)%nat then
     bs "Content-Type: " ++ content_type h ++ [CR; LF]
   else []) ++
  bs "Content-Range: bytes ".

Lemma print_boundary data boundary h :
  address data → 0 ≤ boundary ≤ MAX_UINT64 →
  Z.of_nat (length (content_type h) + length (charset h)) ≤ 2147483647 →
  print_boundary_header data boundary h = Some (boundary_header_text boundary h) ∧
  Z.of_nat (length (boundary_header_text boundary h)) ≤ boundary_header_size h.
Proof.
  intros Hd Hb Hl. unfold address in Hd.
  unfold print_boundary_header, boundary_header_text, boundary_header_size.
  pose proof (boundary_text_length boundary Hb).
  destruct (negb (length (charset h) =? 0)%nat); [|destruct (negb (length (content_type h) =? 0)%nat)].
  all: split; [print; cbn [app]; repeat (rewrite <- !app_assoc; cbn [app]); by rewrite ?app_nil_r|].
  all: repeat (rewrite length_app || cbn [length bs app]); lia.
Qed.

Lemma print_type data boundary :
  address data → 0 ≤ boundary ≤ MAX_UINT64 →
  Printf.ngx_sprintf data (bs "multipart/byteranges; boundary=%0muA") [Printf.AInt boundary] =
  Some (bs "multipart/byteranges; boundary=" ++ boundary_text boundary).
Proof.
  intros Hd Hb. unfold address in Hd. print. cbn. by rewrite app_nil_r.
Qed.

(** The range with its text. *)
Definition with_text (n : Z) (g : ngx_http_range_t) : ngx_http_range_t :=
  mk_range (start g) (end_ g) (range_digits (start g) (end_ g) n ++ [CR; LF; CR; LF]).

(** The bytes of a part of the response. *)
Definition part_size (bh : list Z) (n : Z) (g : ngx_http_range_t) : Z :=
  Z.of_nat (length bh) + Z.of_nat (length (content_range (with_text n g))) + (end_ g - start g).

Lemma range_digits_length n g : valid_range n g → n ≤ MAX_INT64 →
  Z.of_nat (length (range_digits (start g) (end_ g) n)) ≤ 62.
Proof.
  intros [Hg He] Hn. unfold range_digits. repeat (rewrite length_app || cbn [length]).
  pose proof (dec_text_length (start g) ltac:(lia)).
  pose proof (dec_text_length (end_ g - 1) ltac:(lia)). pose proof (dec_text_length n ltac:(lia)). lia.
Qed.

Section Parts.
Context (alloc : nat → option Z) (Halloc : ∀ k, ∃ a, alloc k = Some a ∧ address a).

Lemma print_ranges_text bh n rs : ∀ k len,
  Forall (valid_range n) rs → n ≤ MAX_INT64 → 0 ≤ len →
  len + foldr (λ g s, part_size bh n g + s) 0 rs ≤ MAX_INT64 →
  print_ranges alloc k bh n rs len =
  Some (Some (with_text n <$> rs, len + foldr (λ g s, part_size bh n g + s) 0 rs)).
Proof.
  induction rs as [|g rs IH]; intros k len Hrs Hn Hlen Hmax; [cbn; by rewrite Z.add_0_r|].
  inversion_clear Hrs as [|?? Hg Hrs']. cbn [print_ranges foldr fmap list_fmap] in *.
  assert (0 ≤ foldr (λ g s, part_size bh n g + s) 0 rs) as H0.
  { clear -Hrs'. induction Hrs' as [|g rs [??] _ IH]; cbn; [done|]. unfold part_size at 1. lia. }
  destruct (Halloc k) as (a & -> & Ha). rewrite print_multi by done. cbn [mbind option_bind].
  pose proof Hg as [? ?].
  unfold part_size at 1 in Hmax. cbn [with_text content_range] in Hmax.
  rewrite (s64_id (end_ g - start g)), (u64_id (end_ g - start g)), u64_id by lia.
  rewrite IH; [|done|done|lia|lia].
  cbn [mbind option_bind option_map]. unfold part_size at 2. cbn [with_text content_range]. do 3 f_equal. lia.
Qed.

Lemma some_bind {A B} (x : A) (f : A → option B) : Some x ≫= f = f x.
Proof. done. Qed.

Lemma drop_content_length_spec h :
  content_length_n (drop_content_length h) = content_length_n h ∧
  status (drop_content_length h) = status h ∧
  content_length (drop_content_length h) = None ∧
  content_type (drop_content_length h) = content_type h.
Proof. unfold drop_content_length. by destruct (content_length h) eqn:E. Qed.

Lemma print_header boundary h ctx :
  let n := content_length_n h in
  let bh := boundary_header_text boundary h in
  let size := 28 + foldr (λ g s, part_size bh n g + s) 0 (ranges ctx) in
  0 ≤ boundary ≤ MAX_UINT64 → n ≤ MAX_INT64 → Forall (valid_range n) (ranges ctx) →
  Z.of_nat (length (content_type h) + length (charset h)) ≤ 2147483647 →
  size ≤ MAX_INT64 →
  ∃ h', ngx_http_range_multipart_header alloc boundary h ctx =
          Some (Next h' (Some (mk_ctx (offset ctx) bh (with_text n <$> ranges ctx)))) ∧
    content_length_n h' = size ∧ status h' = status h ∧ content_length h' = None ∧
    content_type h' = bs "multipart/byteranges; boundary=" ++ boundary_text boundary.
Proof.
  intros n bh size Hb Hn Hrs Hct Hmax. unfold ngx_http_range_multipart_header.
  destruct (Halloc 0) as (a0 & -> & Ha0).
  destruct (Halloc 1) as (a1 & -> & Ha1).
  destruct (print_boundary a0 boundary h Ha0 Hb Hct) as [-> _]. rewrite some_bind.
  rewrite print_type by done. rewrite some_bind. cbv beta zeta.
  set (h1 := if negb (length (charset h) =? 0)%nat then h <| charset := [] |> else h).
  assert (content_length_n h1 = n ∧ status h1 = status h) as [En Es].
  { unfold h1. by destruct (negb _). }
  clearbody h1.
  match goal with |- context [print_ranges alloc 2 _ (content_length_n ?x) _ _] => set (h2 := x) end.
  change (content_length_n h2) with (content_length_n h1). rewrite En. fold bh.
  rewrite print_ranges_text; [|done|done|lia|exact Hmax]. rewrite some_bind. fold size.
  assert (0 ≤ size) as H0.
  { unfold size. clear -Hrs. induction Hrs as [|g rs [??] _ IH]; cbn in *; [done|].
    unfold part_size at 1. lia. }
  change (4 + 20 + 4 + _) with size. rewrite s64_id by lia.
  destruct (drop_content_length_spec (h2 <| content_length_n := size |>)) as (E1 & E2 & E3 & E4).
  eexists. split; [reflexivity|]. rewrite E1, E2, E3, E4. split_and!; [done|exact Es|done|done].
Qed.
End Parts.

Section Sent.
Context (mem : Z → Z) (fil : Z → Z → Z).
Context (alloc : nat → option Z) (Halloc : ∀ k, ∃ a, alloc k = Some a ∧ address a).
Local Abbreviation data := (buf_data mem fil).
Local Abbreviation sent_bytes := (sent_data mem fil).

Lemma allocated_all k n : allocated alloc k n = true.
Proof.
  unfold allocated. apply forallb_forall. intros i _. by destruct (Halloc i) as (a & -> & _).
Qed.

Lemma place_part b g :
  file (part b g) = file b ∧
  place_of (part b g) =
    mk_place (ngx_buf_in_memory b) (in_file b)
      (if ngx_buf_in_memory b then u64 (pos b + u64 (start g)) else 0)
      (if ngx_buf_in_memory b then u64 (pos b + u64 (end_ g)) else 0)
      (if in_file b then s64 (file_pos b + start g) else 0)
      (if in_file b then s64 (file_pos b + end_ g) else 0).
Proof. destruct b as [? ? ? ? ? t m mm i ? ? ?]; by destruct t, m, mm, i. Qed.

Lemma part_spec b g :
  place_ok (place_of b) → valid_range (Z.of_nat (length (data b))) g →
  place_ok (place_of (part b g)) ∧
  data (part b g) = slice (data b) (start g) (end_ g - start g).
Proof.
  intros [(?&?&?) (?&?) Hboth Hnone] [Hg He]. unfold buf_data in *. destruct (place_part b g) as [-> ->].
  unfold place_data, slice in *. cbn in *.
  destruct (ngx_buf_in_memory b), (in_file b); cbn in *;
    rewrite ?length_fmap, ?length_seqZ in *; try lia;
    try specialize (Hboth eq_refl eq_refl);
    rewrite ?(u64_id (start g)), ?(u64_id (end_ g)), ?u64_id by lia; rewrite ?s64_id by lia;
    (split; [split; cbn; intros; (done || lia)|]);
    rewrite <- fmap_drop, <- fmap_take, seqZ_drop, seqZ_take by lia; do 2 f_equal; lia.
Qed.

(** The parts of a response with their headers. *)
Definition parts_text (bh : list Z) (n : Z) (content : list Z) (rs : list ngx_http_range_t) : list Z :=
  concat ((λ g, bh ++ content_range (with_text n g) ++ slice content (start g) (end_ g - start g)) <$> rs).

Lemma multipart_loop_sends bh n b rs : ∀ k,
  place_ok (place_of b) → Forall (valid_range (Z.of_nat (length (data b)))) rs →
  ∃ out, multipart_loop alloc k bh b (with_text n <$> rs) = Some out ∧
    sent_bytes (Send out) = parts_text bh n (data b) rs ∧ sent_ok (Send out) ∧
    Z.of_nat (length (parts_text bh n (data b) rs)) = foldr (λ g s, part_size bh n g + s) 0 rs.
Proof.
  intros k Hok Hrs. revert k. induction Hrs as [|g rs Hg _ IH]; intros k.
  { exists []. split_and!; try done. by constructor. }
  cbn [fmap list_fmap multipart_loop]. rewrite allocated_all.
  destruct (IH (k + 6)%nat) as (out & -> & E & Hs & Hl). cbn [mbind option_bind].
  destruct (part_spec b g Hok Hg) as [Hp Hd].
  eexists. split; [done|]. cbn [sent_data fmap list_fmap concat out_data] in *.
  change (part b (with_text n g)) with (part b g). rewrite E, Hd.
  unfold parts_text in *. cbn [fmap list_fmap concat foldr].
  split_and!; [by rewrite <- !app_assoc|by do 3 (constructor; [done|])|].
  rewrite !length_app. unfold part_size at 1. rewrite <- Hl.
  unfold slice. rewrite length_take, length_drop. destruct Hg as [??]. lia.
Qed.

(** The last boundary: CRLF "--0123456789--" CRLF. *)
Definition last_boundary_text (boundary : Z) : list Z :=
  [CR; LF] ++ bs "--" ++ boundary_text boundary ++ bs "--" ++ [CR; LF].

Lemma take_boundary boundary h : 0 ≤ boundary ≤ MAX_UINT64 →
  (length (boundary_header_text boundary h) <? 24)%nat = false ∧
  take 24 (boundary_header_text boundary h) ++ bs "--" ++ [CR; LF] = last_boundary_text boundary.
Proof.
  intros Hb. pose proof (boundary_text_length boundary Hb) as Hl. unfold boundary_header_text.
  split.
  - apply Nat.ltb_ge. rewrite !length_app, Hl. cbn. lia.
  - unfold last_boundary_text. cbn [app bs take]. do 4 f_equal.
    rewrite take_app_length' by lia. done.
Qed.

(** With several ranges the header that is sent announces the bytes that are
    sent: the parts with their headers and the last boundary; and every text
    fits into what was allocated for it. *)
Theorem multipart_sends boundary h rs b cl :
  let n := content_length_n h in
  let content := data b in
  let bh := boundary_header_text boundary h in
  0 ≤ boundary ≤ MAX_UINT64 → Z.of_nat (length content) = n → length rs ≠ 1%nat →
  Forall (valid_range n) rs →
  Z.of_nat (length (content_type h) + length (charset h)) ≤ 2147483647 →
  28 + foldr (λ g s, part_size bh n g + s) 0 rs ≤ MAX_INT64 →
  place_ok (place_of b) → ngx_buf_special b = false →
  ∃ h' ctx ctx' out,
    ngx_http_range_multipart_header alloc boundary h (mk_ctx 0 [] rs) = Some (Next h' (Some ctx)) ∧
    ngx_http_range_body_filter alloc (Some ctx) (b :: cl) = Some (Send out, Some ctx') ∧
    sent_ok (Send out) ∧
    sent_bytes (Send out) = parts_text bh n content rs ++ last_boundary_text boundary ∧
    content_length_n h' = Z.of_nat (length (sent_bytes (Send out))) ∧
    Z.of_nat (length (boundary_header ctx)) ≤ boundary_header_size h ∧
    Forall (λ g, Z.of_nat (length (content_range g)) ≤ 3 * NGX_OFF_T_LEN + 2 + 4) (ranges ctx).
Proof.
  intros n content bh Hb Hn Hone Hrs Hct Hmax Hok Hsp.
  assert (n ≤ MAX_INT64) as Hn' by (rewrite <- Hn; by apply buf_size_range).
  destruct (print_header alloc Halloc boundary h (mk_ctx 0 [] rs) Hb Hn' Hrs Hct Hmax)
    as (h' & E & Hlen & _ & _ & _).
  cbn [offset ranges] in *. set (ctx := mk_ctx 0 bh (with_text n <$> rs)).
  destruct (multipart_loop_sends bh n b rs 0 Hok) as (out & Eout & Hout & Hsok & Hl).
  { fold content. by rewrite Hn. }
  destruct (take_boundary boundary h Hb) as [Hshort Htake]. fold bh in Hshort, Htake.
  assert (ngx_http_range_body_filter alloc (Some ctx) (b :: cl) =
    Some (Send (out ++ [Text (last_boundary_text boundary) true]),
          Some (mk_ctx (ngx_buf_size b) bh (with_text n <$> rs)))) as Ebody.
  { unfold ngx_http_range_body_filter. cbn [ranges ctx]. rewrite length_fmap.
    rewrite (proj2 (Nat.eqb_neq _ _) Hone), Hsp.
    unfold ngx_http_range_test_overlapped, ngx_http_range_multipart_body. cbn [ctx offset ranges boundary_header].
    change (negb (0 =? 0)) with false. cbv iota.
    replace (existsb _ _) with false.
    - rewrite andb_false_r. cbn [offset ranges boundary_header]. rewrite Eout, allocated_all. cbn [negb].
      change (4 + Z.to_nat 20)%nat with 24%nat. by rewrite Hshort, Htake.
    - symmetry. apply not_true_is_false. intros H. apply existsb_exists in H as (g & Hg & H).
      apply list_elem_of_In, list_elem_of_fmap in Hg as (g0 & -> & Hg).
      rewrite list.Forall_forall in Hrs. destruct (Hrs g0 Hg) as [? ?]. cbn in H.
      rewrite (buf_size_data mem fil) in H by done. fold content in H. rewrite Hn, s64_id in H by lia.
      apply orb_true_iff in H as [H|H]; apply Z.ltb_lt in H; lia. }
  eexists h', ctx, _, _. split; [exact E|]. split; [exact Ebody|].
  assert (sent_bytes (Send (out ++ [Text (last_boundary_text boundary) true])) =
    parts_text bh n content rs ++ last_boundary_text boundary) as ->.
  { cbn [sent_data] in *. rewrite fmap_app, concat_app, Hout. cbn. by rewrite app_nil_r. }
  split_and!.
  - apply Forall_app. split; [exact Hsok|]. by repeat constructor.
  - done.
  - rewrite Hlen, length_app, Nat2Z.inj_add. unfold content. rewrite Hl. unfold last_boundary_text.
    rewrite !length_app, boundary_text_length by done. cbn [length bs]. fold n bh. lia.
  - cbn [ctx boundary_header]. destruct (Halloc 0) as (a & _ & Ha).
    by apply (print_boundary a boundary h Ha Hb Hct).
  - cbn [ctx ranges]. apply Forall_fmap. eapply list.Forall_impl; [exact Hrs|]. intros g Hg.
    change (Z.of_nat (length (range_digits (start g) (end_ g) n ++ [CR; LF; CR; LF])) ≤ 66).
    rewrite length_app. pose proof (range_digits_length n g Hg Hn'). cbn [length]. lia.
Qed.
End Sent.

(** ** Theorems: the response *)

(** A request for ranges that the filter answers: its condition on the date, if
    it has one, holds. *)
Record asks (r : request) (h : headers_out) (bs : list byte_range) : Prop := {
  asks_version : NGX_HTTP_VERSION_10 ≤ http_version r;
  asks_main : is_main r = true;
  asks_allowed : allow_ranges r = true;
  asks_status : status h = NGX_HTTP_OK;
  asks_range : ∃ rest, range r =
    Some (6 + Z.of_nat (length (ranges_text bs)), Prelude.bs "bytes=" ++ ranges_text bs ++ NUL :: rest);
  asks_if_range : match if_range r with
                  | None => True
                  | Some v => last_modified_time h = -1 ∨ parse_time v = Some (last_modified_time h)
                  end;
}.

Lemma ranges_text_nonempty bs : bs ≠ [] → (1 ≤ length (ranges_text bs))%nat.
Proof.
  assert (∀ b, (1 ≤ length (range_text b))%nat) as H.
  { intros [i j k l a b|i j k a|i l a]; cbn [range_text]; repeat (rewrite length_app || cbn [length]); lia. }
  intros Hne. destruct bs as [|b [|b' bs]]; [done|apply H|].
  cbn [ranges_text]. rewrite length_app. specialize (H b). lia.
Qed.

Lemma asks_range_request r h bs : bs ≠ [] → asks r h bs → is_range_request r h = Some true.
Proof.
  intros Hne [_ _ _ _ (rest & E) Hif]. unfold is_range_request. rewrite E.
  pose proof (ranges_text_nonempty bs Hne). destruct (Z.ltb_spec (6 + Z.of_nat (length (ranges_text bs))) 7); [lia|].
  change (StringOps.ngx_strncasecmp _ _ 6) with (Some 0). rewrite some_bind.
  change (negb (0 =? 0)) with false. cbv iota.
  destruct (if_range r) as [v|]; [|done].
  destruct (Z.eqb_spec (last_modified_time h) (-1)); [done|]. destruct Hif as [?|E']; [done|].
  rewrite E', some_bind. by rewrite Z.eqb_refl.
Qed.

Section Response.
Context (alloc alloc_parse alloc_header : nat → option Z).
Context (Halloc : ∀ k, ∃ a, alloc k = Some a ∧ address a).
Context (Hparse : ∀ k, ∃ a, alloc_parse k = Some a ∧ address a).
Context (Hheader : ∀ k, ∃ a, alloc_header k = Some a ∧ address a).
Context (r : request) (h : headers_out) (bs : list byte_range) (K max boundary : Z).
Local Abbreviation n := (content_length_n h).
Context (Hasks : asks r h bs) (Hbs : bs ≠ []) (Hok : Forall (range_ok K) bs).
Context (Hmax : 0 < max < 2 ^ 64) (Hn : 0 ≤ n) (HK : 0 < K).
Context (Hcl : match content_length h with Some k => (k < length (headers h))%nat | None => True end).
Context (Hbig : Z.of_nat (length bs) * (n + K) ≤ MAX_INT64).

(** The filter after the ranges are read. *)
Lemma header_filter_parsed : ∃ rs,
  (accepts n max (wanted n bs) = NGX_OK → rs = wanted n bs) ∧
  ngx_http_range_header_filter alloc alloc_parse alloc_header max boundary r h =
  let ctx := mk_ctx 0 [] rs in
  let rc := accepts n max (wanted n bs) in
  if rc =? NGX_OK then
    let h := h <| status := NGX_HTTP_PARTIAL_CONTENT |> <| status_line := [] |> in
    if (length rs =? 1)%nat then ngx_http_range_singlepart_header alloc_header h ctx
    else ngx_http_range_multipart_header alloc_header boundary h ctx
  else if rc =? NGX_HTTP_RANGE_NOT_SATISFIABLE then ngx_http_range_not_satisfiable alloc_header h
  else if rc =? NGX_ERROR then Some (Return NGX_ERROR h)
  else next_filter alloc h.
Proof.
  pose proof Hasks as [Hv Hm Ha Hs (rest & E) _].
  destruct (range_parse_text alloc_parse (Prelude.bs "bytes=") rest K n max bs) as (rs & Ep & Hrs);
    [done| |done|done|lia|done|done|done|].
  { intros k Hk. destruct (Hparse k) as (a & E' & _). by rewrite Hk in E'. }
  exists rs. split; [done|]. unfold ngx_http_range_header_filter.
  destruct (Z.ltb_spec (http_version r) 1000); [lia|].
  rewrite Hs, Hm, Ha. destruct (Z.eqb_spec n (-1)); [lia|]. cbn [negb orb Z.eqb Pos.eqb].
  destruct (Z.eqb_spec max 0); [lia|].
  rewrite (asks_range_request r h bs Hbs Hasks), some_bind, E.
  destruct (Halloc 0) as (? & -> & _). destruct (Halloc 1) as (? & -> & _).
  rewrite Ep, some_bind. done.
Qed.

Lemma print_not_satisfiable data : address data → 0 ≤ n ≤ MAX_INT64 →
  Printf.ngx_sprintf data (Prelude.bs "bytes */%O") [Printf.AInt n] =
  Some (Prelude.bs "bytes */" ++ dec_text n).
Proof.
  intros Hd ?. unfold address in Hd. pose proof (dec_text_length n ltac:(lia)).
  print. cbn. by rewrite app_nil_r.
Qed.

Lemma content_fits : n ≤ MAX_INT64.
Proof. destruct bs; [done|]. cbn in Hbig. nia. Qed.

Lemma wanted_valid : accepts n max (wanted n bs) = NGX_OK → Forall (valid_range n) (wanted n bs).
Proof.
  intros Hacc. assert (sane K n) as Hsane.
  { destruct bs; [done|]. unfold sane. cbn in Hbig. nia. }
  destruct (found_total _ _ _ Hsane (wanted_ok K n bs Hok Hn)) as [_ Hv].
  apply Hv. unfold accepts in Hacc. repeat case_match; bool_to_prop; lia.
Qed.

Lemma drop_content_length_header (x : headers_out) k :
  content_length x ≠ Some k →
  headers (drop_content_length x) !! k = headers x !! k ∧
  out_content_range (drop_content_length x) = out_content_range x.
Proof.
  intros Hk. unfold drop_content_length. destruct (content_length x) as [j|] eqn:E; [|done].
  split; [|done]. cbn. rewrite list_lookup_alter_ne; [done|]. congruence.
Qed.

(** C7: The response to a request for ranges: one range is sent with its
    Content-Range and its length, exactly its bytes go out and the last buffer is
    marked; without any
    range in the content the answer is 416; ranges that are not accepted leave
    the response as it was, with Accept-Ranges. *)
Theorem range_response :
  let filter := ngx_http_range_header_filter alloc alloc_parse alloc_header max boundary r h in
  let rs := wanted n bs in
  let rc := accepts n max rs in
  (∀ g, rs = [g] → rc = NGX_OK →
     ∃ h', filter = Some (Next h' (Some (mk_ctx 0 [] [g]))) ∧
       status h' = NGX_HTTP_PARTIAL_CONTENT ∧ content_length_n h' = end_ g - start g ∧
       content_length h' = None ∧
       (k ← out_content_range h'; headers h' !! k) =
         Some (mk_elt 1 (Prelude.bs "Content-Range")
                 (Prelude.bs "bytes " ++ range_digits (start g) (end_ g) n)) ∧
       ∀ mem fil ins,
         Forall (Forall (λ b, place_ok (place_of b))) ins →
         let content := concat (chain_data mem fil <$> ins) in
         Z.of_nat (length content) = n →
         ∃ outs, body_filter_calls alloc (Some (mk_ctx 0 [] [g])) ins = Some outs ∧
           concat (sent_data mem fil <$> outs) = slice content (start g) (end_ g - start g) ∧
           Z.of_nat (length (concat (sent_data mem fil <$> outs))) = content_length_n h' ∧
           ∃ before out b after, outs = before ++ Send (out ++ [Buf b]) :: after ∧
             last_buf b = true ∧ concat (sent_data mem fil <$> after) = []) ∧
  (rs = [] →
     ∃ h', filter = Some (Return NGX_HTTP_RANGE_NOT_SATISFIABLE h') ∧
       status h' = NGX_HTTP_RANGE_NOT_SATISFIABLE ∧ content_length_n h' = -1 ∧
       (k ← out_content_range h'; headers h' !! k) =
         Some (mk_elt 1 (Prelude.bs "Content-Range") (Prelude.bs "bytes */" ++ dec_text n))) ∧
  (rc = NGX_DECLINED →
     ∃ h', filter = Some (Next h' None) ∧ status h' = NGX_HTTP_OK ∧ content_length_n h' = n ∧
       headers h' = headers h ++ [mk_elt 1 (Prelude.bs "Accept-Ranges") (Prelude.bs "bytes")]).
Proof.
  intros filter rs rc. pose proof content_fits as Hfit.
  destruct header_filter_parsed as (found & Hfound & E). fold filter rs rc in Hfound, E.
  cbv zeta in E. split_and!.
  - intros g Hg Hrc. rewrite (Hfound Hrc), Hg, Hrc in E.
    pose proof (wanted_valid Hrc) as Hv. fold rs in Hv. rewrite Hg in Hv.
    inversion_clear Hv as [|?? Hgv _]. pose proof Hgv as [Hlt Hle].
    cbn [Z.eqb length Nat.eqb] in E. unfold ngx_http_range_singlepart_header in E.
    destruct (Hheader 0) as (a0 & E0 & _). destruct (Hheader 1) as (a1 & E1 & Ha1).
    rewrite E0, E1 in E. cbn [ranges head] in E. rewrite some_bind in E.
    match type of E with context [Printf.ngx_sprintf a1 _ [_; _; Printf.AInt (content_length_n ?x)]] =>
      change (content_length_n x) with n in E; set (h1 := x) in E
    end.
    rewrite print_single, some_bind in E by done.
    match type of E with _ = Some (Next (drop_content_length ?x) _) => set (h2 := x) in E end.
    destruct (drop_content_length_spec h2) as (F1 & F2 & F3 & _).
    eexists. split; [exact E|]. rewrite F1, F2, F3.
    assert (s64 (end_ g - start g) = end_ g - start g) as Hs by (apply s64_id; lia).
    split_and!; [done|exact Hs|done| |].
    + destruct (drop_content_length_header h2 (length (headers h))) as [G1 G2].
      { change (content_length h2) with (content_length h). intros Hk. rewrite Hk in Hcl. lia. }
      rewrite G2. change (out_content_range h2) with (Some (length (headers h))).
      rewrite some_bind, G1. change (headers h2) with (headers h ++ [mk_elt 1 (Prelude.bs "Content-Range")
        (Prelude.bs "bytes " ++ range_digits (start g) (end_ g) n)]).
      by rewrite list_lookup_middle.
    + intros mem fil ins Hins content Hc.
      destruct (singlepart_body_sends mem fil alloc g [] ins Hlt Hins) as (outs & Eo & _ & Ho & Hlast); [fold content; lia|].
      exists outs. split; [exact Eo|]. fold content in Ho. split; [done|]. rewrite Ho.
      change (content_length_n h2) with (s64 (end_ g - start g)). rewrite Hs.
      split; [unfold slice; rewrite length_take, length_drop; lia|].
      apply Hlast. fold content. lia.
  - intros Hrs. assert (rc = NGX_HTTP_RANGE_NOT_SATISFIABLE) as Hrc.
    { unfold rc. rewrite Hrs. unfold accepts. cbn [length]. by destruct (Z.ltb_spec max (Z.of_nat 0)); [lia|]. }
    rewrite Hrc in E. cbn [Z.eqb Pos.eqb] in E. unfold ngx_http_range_not_satisfiable in E.
    destruct (Hheader 0) as (a0 & E0 & _). destruct (Hheader 1) as (a1 & E1 & Ha1). rewrite E0, E1 in E.
    match type of E with context [Printf.ngx_sprintf a1 _ [Printf.AInt (content_length_n ?x)]] =>
      change (content_length_n x) with n in E; set (h1 := x) in E
    end.
    rewrite print_not_satisfiable, some_bind in E by done.
    match type of E with _ = Some (Return _ (ngx_http_clear_content_length ?x)) => set (h2 := x) in E end.
    unfold ngx_http_clear_content_length in E. set (h3 := h2 <| content_length_n := -1 |>) in E.
    destruct (drop_content_length_spec h3) as (F1 & F2 & _ & _).
    eexists. split; [exact E|]. rewrite F1, F2. split_and!; [done|done|].
    destruct (drop_content_length_header h3 (length (headers h))) as [G1 G2].
    { change (content_length h3) with (content_length h). intros Hk. rewrite Hk in Hcl. lia. }
    rewrite G2. change (out_content_range h3) with (Some (length (headers h))).
    rewrite some_bind, G1. change (headers h3) with (headers h ++ [mk_elt 1 (Prelude.bs "Content-Range")
      (Prelude.bs "bytes */" ++ dec_text n)]).
    by rewrite list_lookup_middle.
  - intros Hrc. rewrite Hrc in E. cbn [Z.eqb] in E. unfold next_filter in E.
    destruct (Halloc 2) as (a & Ea & _). rewrite Ea in E.
    eexists. split; [exact E|]. split_and!; [apply Hasks|done|done].
Qed.
End Response.

(** ** Witnesses *)

Definition example_out : headers_out :=
  mk_out [mk_elt 1 (bs "Content-Length") (bs "10")] 200 (bs "200 OK") (Some 0%nat) None None
    10 (bs "text/plain") [] None 10 (-1).

Definition example_request (b : byte_range) : request :=
  mk_request 1001 true true
    (Some (6 + Z.of_nat (length (ranges_text [b])), bs "bytes=" ++ ranges_text [b] ++ [NUL])) None.

(** Ten bytes of memory. *)
Definition example_buf (pos last : Z) : ngx_buf_t :=
  mk_buf pos last 0 0 0 true false false false false false false.

Lemma example_address k : ∃ a, example_alloc k = Some a ∧ address a.
Proof. exists 4096. split; [done|]. unfold address. lia. Qed.

Lemma example_place pos last : 0 ≤ pos ≤ last → last ≤ 100 → place_ok (place_of (example_buf pos last)).
Proof. intros. split; cbn; try lia; done. Qed.

Lemma example_decimal ds K :
  bool_decide (ds ≠ []) && forallb is_digit ds && (dec ds <? K) = true → decimal K ds.
Proof.
  rewrite !andb_true_iff, bool_decide_eq_true, forallb_forall, Z.ltb_lt. intros [[? H] ?].
  split_and!; [done| |done]. apply Forall_forall. intros c Hc. apply Is_true_true. by apply H.
Qed.

Lemma multipart_sends_witness :
  let b := example_buf 0 10 in
  ∃ h' ctx ctx' out,
    ngx_http_range_multipart_header example_alloc 7 example_out
      (mk_ctx 0 [] [mk_range 0 2 []; mk_range 6 10 []]) = Some (Next h' (Some ctx)) ∧
    ngx_http_range_body_filter example_alloc (Some ctx) [b] = Some (Send out, Some ctx') ∧
    content_length_n h' = Z.of_nat (length (sent_data (λ a, a + 97) (λ _ _, 0) (Send out))).
Proof.
  destruct (multipart_sends (λ a, a + 97) (λ _ _, 0) example_alloc example_address 7 example_out
    [mk_range 0 2 []; mk_range 6 10 []] (example_buf 0 10) []) as (h' & ctx & ctx' & out & E1 & E2 & _ & _ & E3 & _).
  - lia.
  - done.
  - done.
  - repeat (constructor; [unfold valid_range; cbn; lia|]). constructor.
  - done.
  - done.
  - apply (example_place 0 10); lia.
  - done.
  - exists h', ctx, ctx', out. split; [exact E1|]. split; [exact E2|exact E3].
Defined.

Lemma range_response_witness :
  let b := Between 0 0 0 0 (bs "2") (bs "5") in
  ∃ h' outs,
    ngx_http_range_header_filter example_alloc example_alloc example_alloc 3 7
      (example_request b) example_out = Some (Next h' (Some (mk_ctx 0 [] [mk_range 2 6 []]))) ∧
    status h' = NGX_HTTP_PARTIAL_CONTENT ∧
    body_filter_calls example_alloc (Some (mk_ctx 0 [] [mk_range 2 6 []]))
      [[example_buf 0 3]; [example_buf 3 10]] = Some outs ∧
    concat (sent_data (λ a, a + 97) (λ _ _, 0) <$> outs) = bs "cdef".
Proof.
  intros b.
  destruct (range_response example_alloc example_alloc example_alloc example_address example_address
    example_address (example_request b) example_out [b] 1000 3 7) as (H & _); try done; try lia.
  - constructor; try done. by exists [].
  - constructor; [|done]. split; by apply example_decimal.
  - cbn. lia.
  - destruct (H (mk_range 2 6 []) eq_refl eq_refl) as (h' & E & Hs & _ & _ & _ & Hb).
    destruct (Hb (λ a, a + 97) (λ _ _, 0) [[example_buf 0 3]; [example_buf 3 10]]) as (outs & Eo & Ho & _).
    + constructor; [constructor; [apply (example_place 0 3); lia|constructor]|].
      constructor; [constructor; [apply (example_place 3 10); lia|constructor]|]. constructor.
    + done.
    + exists h', outs. split; [exact E|]. split; [exact Hs|]. split; [exact Eo|]. exact Ho.
Defined.

End RangeResponse.
