(* ===== verification/Chunked.v ===== *)
(** * Chunked transfer

    src/http/modules/ngx_http_proxy_module.c: the parser of a chunked response
    and the filters that take the data out of the buffers it arrives in;
    src/http/modules/ngx_http_chunked_filter_module.c: the filter that sends a
    response in chunks.  A buffer is the memory from [buf->start] on, [pos] and
    [last] are offsets in it; [None] is a read outside of it. *)

From S2P Require Import Prelude Number Printf Range.

Module Chunked.

Abbreviation NGX_DONE := (-4).
#[local] Existing Instance Range.eta_buf.

(** ** ngx_http_proxy_parse_chunked *)

Inductive chunked_state : Set :=
  | sw_chunk_start | sw_chunk_size | sw_chunk_extension | sw_chunk_extension_almost_done
  | sw_chunk_data | sw_after_data | sw_after_data_almost_done | sw_last_chunk_extension
  | sw_last_chunk_extension_almost_done | sw_trailer | sw_trailer_almost_done
  | sw_trailer_header | sw_trailer_header_almost_done.

#[export] Instance chunked_state_eq_dec : EqDecision chunked_state.
Proof. solve_decision. Defined.

(** The fields of [ngx_http_proxy_ctx_t] that are used; [size] and [length] are
    of type [off_t]. *)
Record ngx_http_proxy_ctx_t := mk_ctx { state : chunked_state; size : Z; length : Z }.

#[export] Instance eta_ctx : Eta ngx_http_proxy_ctx_t := λ c, mk_ctx (state c) (size c) (length c).

(** What a byte does: it is used up, or the loop is left before it. *)
Inductive outcome :=
  | Next (state : chunked_state) (size : Z)
  | Data
  | Done
  | Invalid.

(** The value of a hexadecimal digit. *)
Definition hex_value (ch : Z) : option Z :=
  if is_digit ch then Some (ch - "0"%ch)
  else
    let c := u8 (Z.lor ch 0x20) in
    if ("a"%ch <=? c) && (c <=? "f"%ch) then Some (c - "a"%ch + 10) else None.

Definition is_blank (ch : Z) : bool := (ch =? ";"%ch) || (ch =? " "%ch) || (ch =? 9).

Definition step (state : chunked_state) (size ch : Z) : outcome :=
  let next st := Next st size in
  match state with
  | sw_chunk_start =>
      match hex_value ch with Some v => Next sw_chunk_size v | None => Invalid end
  | sw_chunk_size =>
      match hex_value ch with
      | Some v => Next sw_chunk_size (s64 (size * 16 + v))
      | None =>
          if size =? 0 then
            if ch =? CR then next sw_last_chunk_extension_almost_done
            else if ch =? LF then next sw_trailer
            else if is_blank ch then next sw_last_chunk_extension
            else Invalid
          else
            if ch =? CR then next sw_chunk_extension_almost_done
            else if ch =? LF then next sw_chunk_data
            else if is_blank ch then next sw_chunk_extension
            else Invalid
      end
  | sw_chunk_extension =>
      next (if ch =? CR then sw_chunk_extension_almost_done
            else if ch =? LF then sw_chunk_data else sw_chunk_extension)
  | sw_chunk_extension_almost_done => if ch =? LF then next sw_chunk_data else Invalid
  | sw_chunk_data => Data
  | sw_after_data =>
      next (if ch =? CR then sw_after_data_almost_done
            else if ch =? LF then sw_chunk_start else sw_after_data)
  | sw_after_data_almost_done => if ch =? LF then next sw_chunk_start else Invalid
  | sw_last_chunk_extension =>
      next (if ch =? CR then sw_last_chunk_extension_almost_done
            else if ch =? LF then sw_trailer else sw_last_chunk_extension)
  | sw_last_chunk_extension_almost_done => if ch =? LF then next sw_trailer else Invalid
  | sw_trailer =>
      if ch =? CR then next sw_trailer_almost_done
      else if ch =? LF then Done else next sw_trailer_header
  | sw_trailer_almost_done => if ch =? LF then Done else Invalid
  | sw_trailer_header =>
      next (if ch =? CR then sw_trailer_header_almost_done
            else if ch =? LF then sw_trailer else sw_trailer_header)
  | sw_trailer_header_almost_done => if ch =? LF then next sw_trailer else Invalid
  end.

(** [for (pos = buf->pos; pos < buf->last; pos++)]: the result, the state, the
    size and what is left of the bytes. *)
Fixpoint parse_loop (state : chunked_state) (size : Z) (input : list Z) :
    Z * chunked_state * Z * list Z :=
  match input with
  | [] => (NGX_AGAIN, state, size, [])
  | ch :: input' =>
      match step state size ch with
      | Next state size => parse_loop state size input'
      | Data => (NGX_OK, state, size, input)
      | Done => (NGX_DONE, state, size, input)
      | Invalid => (NGX_ERROR, state, size, input)
      end
  end.

(** The label [data]: the least number of bytes that must follow. *)
Definition length_of (state : chunked_state) (size length : Z) : Z :=
  match state with
  | sw_chunk_start => 3
  | sw_chunk_size => s64 (2 + (if size =? 0 then 0 else s64 (size + 4)))
  | sw_chunk_extension | sw_chunk_extension_almost_done => s64 (s64 (1 + size) + 4)
  | sw_chunk_data => s64 (size + 4)
  | sw_after_data | sw_after_data_almost_done => 4
  | sw_last_chunk_extension | sw_last_chunk_extension_almost_done => 2
  | sw_trailer | sw_trailer_almost_done => 1
  | sw_trailer_header | sw_trailer_header_almost_done => 2
  end.

Record ngx_buf_t := mk_buf { mem : list Z; pos : Z; last : Z }.

(** The bytes from [buf->pos] to [buf->last]. *)
Definition unread (buf : ngx_buf_t) : option (list Z) :=
  if last buf <=? pos buf then Some []
  else if (pos buf <? 0) || (Z.of_nat (List.length (mem buf)) <? last buf) then None
  else Some (slice (mem buf) (pos buf) (last buf - pos buf)).

Definition ngx_http_proxy_parse_chunked (ctx : ngx_http_proxy_ctx_t) (buf : ngx_buf_t) :
    option (Z * ngx_http_proxy_ctx_t * ngx_buf_t) :=
  input ← unread buf;
  let st := if bool_decide (state ctx = sw_chunk_data) && (size ctx =? 0) then sw_after_data else state ctx in
  let '(rc, st, sz, rest) := parse_loop st (size ctx) input in
  Some (if (rc =? NGX_DONE) || (rc =? NGX_ERROR) then (rc, mk_ctx (state ctx) sz (length ctx), buf)
        else (rc, mk_ctx st sz (length_of st sz (length ctx)),
              mk_buf (mem buf)
                (pos buf + (Z.of_nat (List.length input) - Z.of_nat (List.length rest))) (last buf))).

(** ** The filters

    [ngx_http_proxy_chunked_filter] and
    [ngx_http_proxy_non_buffered_chunked_filter]: the buffers made for the data,
    as their [pos] and [last]; the allocations succeed.  Both have this loop. *)
Fixpoint filter_loop (fuel : nat) (ctx : ngx_http_proxy_ctx_t) (buf : ngx_buf_t) (out : list (Z * Z)) :
    option (Z * ngx_http_proxy_ctx_t * ngx_buf_t * list (Z * Z)) :=
  match fuel with
  | O => None
  | S fuel =>
      '(rc, ctx, buf) ← ngx_http_proxy_parse_chunked ctx buf;
      if rc =? NGX_OK then
        if size ctx <=? last buf - pos buf then
          filter_loop fuel (ctx <| size := 0 |>) (mk_buf (mem buf) (pos buf + size ctx) (last buf))
            (out ++ [(pos buf, pos buf + size ctx)])
        else
          filter_loop fuel (ctx <| size := s64 (size ctx - (last buf - pos buf)) |>)
            (mk_buf (mem buf) (last buf) (last buf)) (out ++ [(pos buf, last buf)])
      else Some (rc, ctx, buf, out)
  end.

(** [ngx_http_proxy_chunked_filter]: what is returned, [p->upstream_done],
    [p->length], what [r->upstream->keepalive] is set to, whether [buf] goes
    back to the free buffers, and the buffers with data. *)
Record ngx_event_pipe_t := mk_pipe {
  upstream_done : bool;
  pipe_length : Z;
  keepalive : option bool;
  freed : bool;
  data : list (Z * Z);
}.

Definition ngx_http_proxy_chunked_filter (fuel : nat) (ctx : ngx_http_proxy_ctx_t) (p_length : Z)
    (connection_close : bool) (buf : ngx_buf_t) : option (Z * ngx_http_proxy_ctx_t * ngx_event_pipe_t) :=
  if pos buf =? last buf then Some (NGX_OK, ctx, mk_pipe false p_length None false [])
  else
    '(rc, ctx, _, out) ← filter_loop fuel ctx buf [];
    let no_data := bool_decide (out = []) in
    Some (if rc =? NGX_DONE then (NGX_OK, ctx, mk_pipe true p_length (Some (negb connection_close)) no_data out)
          else if rc =? NGX_AGAIN then (NGX_OK, ctx, mk_pipe false (length ctx) None no_data out)
          else (NGX_ERROR, ctx, mk_pipe false p_length None false out)).

(** [ngx_http_proxy_non_buffered_chunked_filter] up to the part for subrequests
    in memory: what is returned, [u->length], what [u->keepalive] is set to,
    [u->buffer] and the buffers. *)
Definition ngx_http_proxy_non_buffered_chunked_filter (fuel : nat) (ctx : ngx_http_proxy_ctx_t)
    (u_length : Z) (connection_close : bool) (buf : ngx_buf_t) (bytes : Z) :
    option (Z * ngx_http_proxy_ctx_t * Z * option bool * ngx_buf_t * list (Z * Z)) :=
  let buf := mk_buf (mem buf) (last buf) (last buf + bytes) in
  '(rc, ctx, buf, out) ← filter_loop fuel ctx buf [];
  Some (if rc =? NGX_DONE then (NGX_OK, ctx, 0, Some (negb connection_close), buf, out)
        else if rc =? NGX_AGAIN then (NGX_OK, ctx, u_length, None, buf, out)
        else (NGX_ERROR, ctx, u_length, None, buf, out)).

(** ** ngx_http_chunked_body_filter

    A buffer of the filter, as its text and [last_buf], or one of the chain;
    [chunk] is the address of the text of the size, and the allocations
    succeed. *)
Inductive out_buf :=
  | Own (text : list Z) (is_last : bool)
  | Buf (b : Range.ngx_buf_t).

Fixpoint chain_size (size : Z) (cl : list Range.ngx_buf_t) : Z :=
  match cl with [] => size | b :: cl => chain_size (s64 (size + Range.ngx_buf_size b)) cl end.

Definition sends (b : Range.ngx_buf_t) : bool :=
  Range.flush b || Range.sync b || Range.ngx_buf_in_memory b || Range.in_file b.

(** [in] is not [NULL], [r->chunked] is set and [r->header_only] is not. *)
Definition ngx_http_chunked_body_filter (chunk : Z) (cl : list Range.ngx_buf_t) : option (list out_buf) :=
  b ← list.last cl;
  let size := chain_size 0 cl in
  size_buf ← (if size =? 0 then Some []
              else text ← Printf.ngx_sprintf chunk (bs "%xO" ++ [CR; LF]) [Printf.AInt size];
                   Some [Own text false]);
  let clear (x : Range.ngx_buf_t) := if Range.last_buf b then (x) <| Range.last_buf := false |> else x in
  let kept := List.filter sends (removelast cl) ++ (if sends b then [clear b] else []) in
  let tail_buf :=
    if Range.last_buf b then
      let text := [CR; LF] ++ bs "0" ++ [CR; LF; CR; LF] in
      [Own (if size =? 0 then drop 2 text else text) true]
    else if 0 <? size then [Own [CR; LF] false]
    else [] in
  Some (size_buf ++ (Buf <$> kept) ++ tail_buf).

(** ** Decoding byte by byte *)

Inductive decoded :=
  | More (state : chunked_state) (size : Z) (data : list Z)
  | End_ (data : list Z)
  | Bad.

Definition with_data (d : list Z) (r : decoded) : decoded :=
  match r with
  | More st sz d' => More st sz (d ++ d')
  | End_ d' => End_ (d ++ d')
  | Bad => Bad
  end.

(** The data of a chunk that is used up is left. *)
Definition normal (st : chunked_state) (sz : Z) : chunked_state :=
  if bool_decide (st = sw_chunk_data) && (sz =? 0) then sw_after_data else st.

(** The size of the chunk does not fit into [off_t]. *)
Definition overflows (st : chunked_state) (sz ch : Z) : bool :=
  match st, hex_value ch with
  | sw_chunk_size, Some v => 9223372036854775807 <? sz * 16 + v
  | _, _ => false
  end.

Fixpoint decode (st : chunked_state) (sz : Z) (input : list Z) : decoded :=
  match input with
  | [] => More (normal st sz) sz []
  | ch :: input =>
      match step (normal st sz) sz ch with
      | Next st' sz' => if overflows (normal st sz) sz ch then Bad else decode st' sz' input
      | Data => with_data [ch] (decode sw_chunk_data (sz - 1) input)
      | Done => End_ []
      | Invalid => Bad
      end
  end.

Lemma with_data_app a b r : with_data (a ++ b) r = with_data a (with_data b r).
Proof. destruct r; cbn; by rewrite <- ?app_assoc. Qed.
Lemma with_data_nil r : with_data [] r = r.
Proof. by destruct r. Qed.

Lemma step_data st sz ch : step st sz ch = Data ↔ st = sw_chunk_data.
Proof. unfold step. split; [|by intros ->]. destruct st; repeat case_match; done. Qed.

Lemma normal_idem st sz : normal (normal st sz) sz = normal st sz.
Proof.
  unfold normal. destruct (sz =? 0) eqn:E; by destruct st.
Qed.
Lemma decode_normal st sz input : decode (normal st sz) sz input = decode st sz input.
Proof. destruct input; cbn; by rewrite normal_idem. Qed.

(** The data of a chunk. *)
Lemma decode_data d : ∀ sz input, Z.of_nat (List.length d) ≤ sz →
  decode sw_chunk_data sz (d ++ input) =
  with_data d (decode sw_chunk_data (sz - Z.of_nat (List.length d)) input).
Proof.
  induction d as [|c d IH]; intros sz input Hsz.
  { cbn. by rewrite with_data_nil, Z.sub_0_r. }
  cbn [app decode List.length] in *. unfold normal. rewrite bool_decide_eq_true_2 by done.
  rewrite (proj2 (Z.eqb_neq sz 0)) by lia. cbn [andb]. cbn [step].
  rewrite IH by lia. rewrite <- with_data_app. cbn [app]. do 2 f_equal. lia.
Qed.

Lemma decode_app a : ∀ st sz b,
  decode st sz (a ++ b) =
  match decode st sz a with
  | More st sz d => with_data d (decode st sz b)
  | r => r
  end.
Proof.
  induction a as [|c a IH]; intros st sz b; cbn [app decode].
  { by rewrite with_data_nil, decode_normal. }
  destruct (step (normal st sz) sz c) as [st' sz'| | |]; try done.
  - destruct (overflows (normal st sz) sz c); [done|]. apply IH.
  - rewrite IH. destruct (decode sw_chunk_data (sz - 1) a); try done. cbn [with_data].
    by rewrite <- with_data_app.
Qed.

Lemma hex_value_range ch v : hex_value ch = Some v → 0 ≤ v < 16.
Proof. unfold hex_value, is_digit. repeat case_match; intros [= <-]; bool_to_prop; lia. Qed.

Lemma step_size st sz ch st' sz' : step st sz ch = Next st' sz' → overflows st sz ch = false →
  0 ≤ sz < 9223372036854775808 → 0 ≤ sz' < 9223372036854775808.
Proof.
  unfold step, overflows. pose proof (hex_value_range ch) as Hv. intros E Ho H.
  destruct st; repeat case_match; simplify_eq; try done; specialize (Hv _ eq_refl); [lia|].
  bool_to_prop. rewrite s64_id; lia.
Qed.

(** [parse_loop] goes on to the data. *)
Lemma parse_loop_decode input : ∀ st sz, (st = sw_chunk_data → sz ≠ 0) → 0 ≤ sz < 9223372036854775808 →
  decode st sz input ≠ Bad →
  match parse_loop st sz input with
  | (rc, st', sz', rest) =>
      (rc = NGX_AGAIN ∧ decode st sz input = More (normal st' sz') sz' [] ∧ rest = [] ∨
       rc = NGX_OK ∧ st' = sw_chunk_data ∧ decode st sz input = decode st' sz' rest ∧ rest ≠ [] ∧
         (sz' = 0 → (List.length rest < List.length input)%nat) ∨
       rc = NGX_DONE ∧ decode st sz input = End_ []) ∧
      0 ≤ sz' < 9223372036854775808 ∧ (List.length rest ≤ List.length input)%nat ∧ ∃ used, input = used ++ rest
  end.
Proof.
  induction input as [|c input IH]; intros st sz Hst Hsz Hbad; cbn [parse_loop].
  { split; [by left|]. split; [done|]. split; [done|]. by exists []. }
  assert (normal st sz = st) as Hn.
  { unfold normal. destruct (decide (st = sw_chunk_data)) as [->|H]; [|by rewrite bool_decide_eq_false_2].
    by rewrite (proj2 (Z.eqb_neq sz 0) (Hst eq_refl)), andb_false_r. }
  cbn [decode] in *. rewrite Hn in *. destruct (step st sz c) as [st' sz'| | |] eqn:E; try done.
  - destruct (overflows st sz c) eqn:Eo; [done|].
    pose proof (step_size _ _ _ _ _ E Eo ltac:(lia)) as Hub.
    destruct (decide (st' = sw_chunk_data ∧ sz' = 0)) as [[-> ->]|Hne].
    + destruct input as [|c' input]; cbn [parse_loop].
      * split; [by left|]. split; [done|]. split; [cbn; lia|]. by exists [c].
      * cbn [step]. split; [|split; [done|split; [cbn; lia|by exists [c]]]].
        right; left. split; [done|]. split; [done|]. split; [done|]. split; [done|]. cbn. lia.
    + specialize (IH st' sz' ltac:(intros ? ?; tauto) ltac:(lia) Hbad).
      destruct (parse_loop st' sz' input) as [[[rc st2] sz2] rest]. destruct IH as (H1 & H2 & H3 & used & ->).
      split; [|split; [done|split; [cbn [List.length]; lia|by exists (c :: used)]]].
      destruct H1 as [H1|[(? & ? & ? & ? & H1)|H1]]; [by left|right; left|by right; right].
      repeat (split; [done|]). cbn [List.length]. lia.
  - apply step_data in E as ->. split; [|split; [done|split; [done|by exists []]]].
    right; left. split; [done|]. split; [done|]. split; [cbn [decode]; by rewrite Hn|]. split; [done|].
    intros ->. by destruct (Hst eq_refl).
  - split; [by right; right|]. split; [done|]. split; [done|]. by exists [].
Qed.

(** ** The filter decodes *)

Record in_buf (buf : ngx_buf_t) (input : list Z) : Prop := {
  ib_pos : 0 ≤ pos buf;
  ib_length : last buf - pos buf = Z.of_nat (List.length input);
  ib_last : last buf ≤ Z.of_nat (List.length (mem buf));
  ib_bytes : slice (mem buf) (pos buf) (last buf - pos buf) = input;
}.

Definition bytes_of (m : list Z) (p : Z * Z) : list Z := slice m p.1 (p.2 - p.1).

Lemma unread_in buf input : in_buf buf input → unread buf = Some input.
Proof.
  intros [Hp Hl Hm Hb]. unfold unread. destruct (Z.leb_spec (last buf) (pos buf)).
  - destruct input; [done|cbn in Hl; lia].
  - replace ((pos buf <? 0) || (Z.of_nat (List.length (mem buf)) <? last buf)) with false by lia. by rewrite Hb.
Qed.

Lemma slice_split (m a b : list Z) p :
  0 ≤ p → slice m p (Z.of_nat (List.length (a ++ b))) = a ++ b →
  slice m p (Z.of_nat (List.length a)) = a ∧
  slice m (p + Z.of_nat (List.length a)) (Z.of_nat (List.length b)) = b.
Proof.
  intros Hp H. unfold slice in *. rewrite Nat2Z.id in *. rewrite Nat2Z.id. split.
  - apply (f_equal (take (List.length a))) in H. rewrite take_take in H.
    rewrite take_app_length, Nat.min_l in H by (rewrite length_app; lia). exact H.
  - rewrite length_app in H. rewrite <- take_take_drop in H. apply app_inj_1 in H as [H1 H2].
    + rewrite Z2Nat.inj_add, Nat2Z.id, <- drop_drop by lia. exact H2.
    + apply (f_equal (@List.length Z)) in H. rewrite !length_app, !length_take, !length_drop in H.
      rewrite length_take, length_drop. lia.
Qed.

(** A part of the buffer is used up. *)
Lemma in_buf_split buf a b : in_buf buf (a ++ b) →
  in_buf (mk_buf (mem buf) (pos buf + Z.of_nat (List.length a)) (last buf)) b ∧
  bytes_of (mem buf) (pos buf, pos buf + Z.of_nat (List.length a)) = a.
Proof.
  intros [Hp Hl Hm Hb]. rewrite length_app in Hl. pose proof Hb as Hb'. rewrite Hl, <- length_app in Hb'.
  destruct (slice_split _ a b _ Hp Hb') as [Ha Hb2]. split.
  - split; cbn; [lia|lia|done|]. rewrite <- Hb2. f_equal. lia.
  - unfold bytes_of. cbn. rewrite <- Ha at 2. f_equal. lia.
Qed.

Definition pieces (m : list Z) (out : list (Z * Z)) : list Z := concat (bytes_of m <$> out).

(** What the filter gives for the result of the decoding. *)
Definition filtered (r : decoded) (m : list Z) (rc : Z) (ctx : ngx_http_proxy_ctx_t) (out : list (Z * Z)) : Prop :=
  match r with
  | More st sz d =>
      rc = NGX_AGAIN ∧ normal (state ctx) (size ctx) = st ∧ size ctx = sz ∧ 0 ≤ sz < 9223372036854775808 ∧
      (∃ old, length ctx = length_of (state ctx) sz old) ∧ pieces m out = d
  | End_ d => rc = NGX_DONE ∧ pieces m out = d
  | Bad => False
  end.

Lemma filtered_data d r m rc ctx p out :
  bytes_of m p = d → filtered r m rc ctx out → filtered (with_data d r) m rc ctx (p :: out).
Proof.
  intros <-. destruct r as [st sz d'|d'|]; cbn; [|..|done].
  - intros (-> & <- & <- & ? & ? & <-). split_and!; try done; lia.
  - intros (-> & <-). by split.
Qed.

(** The parser and the data that follows. *)
Lemma parse_in_buf ctx buf input :
  in_buf buf input → 0 ≤ size ctx < 9223372036854775808 → decode (state ctx) (size ctx) input ≠ Bad →
  ∃ rc ctx' buf' rest, ngx_http_proxy_parse_chunked ctx buf = Some (rc, ctx', buf') ∧
    ((rc = NGX_AGAIN ∨ rc = NGX_DONE) ∧ filtered (decode (state ctx) (size ctx) input) (mem buf) rc ctx' [] ∨
     rc = NGX_OK ∧ in_buf buf' rest ∧ mem buf' = mem buf ∧ last buf' = last buf ∧
       state ctx' = sw_chunk_data ∧ 0 ≤ size ctx' < 9223372036854775808 ∧
       decode (state ctx) (size ctx) input = decode sw_chunk_data (size ctx') rest ∧ rest ≠ [] ∧
       (List.length rest ≤ List.length input)%nat ∧
       (size ctx' = 0 → (List.length rest < List.length input)%nat)).
Proof.
  intros Hb Hsz Hbad. unfold ngx_http_proxy_parse_chunked. rewrite (unread_in buf input Hb). cbn [mbind option_bind].
  fold (normal (state ctx) (size ctx)). rewrite <- decode_normal in Hbad |- *.
  pose proof (parse_loop_decode input (normal (state ctx) (size ctx)) (size ctx)) as H.
  destruct (parse_loop (normal (state ctx) (size ctx)) (size ctx) input) as [[[rc st] sz] rest].
  destruct H as (Hrc & Hsz' & Hlen & used & Eu); [|done|done|].
  { intros E0 E. unfold normal in E0. rewrite E in E0. by destruct (state ctx). }
  destruct Hrc as [(-> & Hd & ->)|[(-> & -> & Hd & Hne & Hlt)|(-> & Hd)]]; cbn [Z.eqb orb Pos.eqb].
  - do 3 eexists. exists []. split; [done|]. left. split; [by left|]. rewrite Hd. cbn.
    split; [done|]. split; [done|]. split; [done|]. split; [done|]. split; [by eexists|done].
  - do 3 eexists. exists rest. split; [done|]. right. cbn [state size mem last].
    subst input. destruct (in_buf_split _ _ _ Hb) as [Hb' _].
    split; [done|]. split; [|done].
    rewrite length_app. replace (Z.of_nat (List.length used + List.length rest) - Z.of_nat (List.length rest))
        with (Z.of_nat (List.length used)) by lia. exact Hb'.
  - do 3 eexists. exists []. split; [done|]. left. split; [by right|]. by rewrite Hd.
Qed.

(** The data that is there is taken: [n] bytes. *)
Lemma filter_spec fuel : ∀ ctx buf out input,
  in_buf buf input → (List.length input < fuel)%nat → 0 ≤ size ctx < 9223372036854775808 →
  decode (state ctx) (size ctx) input ≠ Bad →
  ∃ rc ctx' buf' out', filter_loop fuel ctx buf out = Some (rc, ctx', buf', out ++ out') ∧
    filtered (decode (state ctx) (size ctx) input) (mem buf) rc ctx' out'.
Proof.
  induction fuel as [|fuel IH]; intros ctx buf out input Hb Hf Hsz Hbad; [lia|]. cbn [filter_loop].
  destruct (parse_in_buf ctx buf input Hb Hsz Hbad) as (rc & ctx1 & buf1 & rest & -> & H).
  cbn [mbind option_bind].
  destruct H as [[Hrc Hd]|(-> & Hb1 & Em & El & Est & Hs1 & Hd & Hne & Hl1 & Hl2)].
  { exists rc, ctx1, buf1, []. rewrite app_nil_r. destruct Hrc as [-> | ->]; by split. }
  cbn [Z.eqb]. rewrite Hd in *. pose proof Hb1 as [Hp1 Hlen1 _ _].
  assert (0 < List.length rest)%nat as Hpos by (destruct rest; cbn; [done|lia]).
  (* the data [d], and what is left of the buffer and of the size *)
  assert (∀ d rest' sz' q, rest = d ++ rest' → q = pos buf1 + Z.of_nat (List.length d) →
    sz' = size ctx1 - Z.of_nat (List.length d) → 0 ≤ sz' → (List.length rest' < List.length input)%nat →
    ∃ rc ctx' buf' out',
      filter_loop fuel (ctx1 <| size := sz' |>) (mk_buf (mem buf1) q (last buf1)) (out ++ [(pos buf1, q)]) =
        Some (rc, ctx', buf', out ++ out') ∧
      filtered (decode sw_chunk_data (size ctx1) rest) (mem buf) rc ctx' out') as Hgo.
  { intros d rest' sz' q -> -> -> Hsz' Hlen. destruct (in_buf_split _ _ _ Hb1) as [Hb2 Hp2].
    rewrite decode_data in Hbad |- * by lia.
    destruct (IH (ctx1 <| size := size ctx1 - Z.of_nat (List.length d) |>) _
      (out ++ [(pos buf1, pos buf1 + Z.of_nat (List.length d))]) _ Hb2) as (rc & ctx2 & buf2 & out2 & -> & H2).
    - lia.
    - cbn. lia.
    - cbn [state size set_field]. intros E. unfold set_field in E. cbn in E. rewrite Est in E. by rewrite E in Hbad.
    - exists rc, ctx2, buf2, ((pos buf1, pos buf1 + Z.of_nat (List.length d)) :: out2).
      split; [by rewrite <- app_assoc|]. unfold set_field in H2. cbn in H2. rewrite Est, Em in H2.
      apply filtered_data; [by rewrite <- Em|done]. }
  destruct (Z.leb_spec (size ctx1) (last buf1 - pos buf1)).
  - assert (List.length (take (Z.to_nat (size ctx1)) rest) = Z.to_nat (size ctx1)) as Hn.
    { rewrite length_take. lia. }
    apply (Hgo (take (Z.to_nat (size ctx1)) rest) (drop (Z.to_nat (size ctx1)) rest)).
    + by rewrite take_drop.
    + rewrite Hn. lia.
    + rewrite Hn. lia.
    + lia.
    + rewrite length_drop. destruct (decide (size ctx1 = 0)); [rewrite (Hl2 e) || (specialize (Hl2 e)); lia|lia].
  - rewrite s64_id by lia. apply (Hgo rest []); [by rewrite app_nil_r|lia|lia|lia|cbn; lia].
Qed.
End Chunked.
