(* ===== verification/ChunkedRoundtrip.v ===== *)
(** * Chunked transfer: what is sent is received

    The text that the filter sends for a response, in whatever buffers it
    arrives, is taken apart into the bytes of the response; how many bytes the
    parser waits for. *)

From S2P Require Import Prelude Number Printf Times Range Chunked.

Module ChunkedRoundtrip.
Import Chunked.
#[local] Existing Instance Range.eta_buf.

(** ** Receiving *)

(** The buffers of an upstream one after the other: whether the response is
    complete, and its bytes. *)
Fixpoint receive (close : bool) (ctx : ngx_http_proxy_ctx_t) (p_length : Z) (bufs : list ngx_buf_t) : option (bool * list Z) :=
  match bufs with
  | [] => Some (false, [])
  | buf :: bufs =>
      '(rc, ctx, p) ← ngx_http_proxy_chunked_filter (S (Z.to_nat (last buf - pos buf))) ctx p_length close buf;
      if negb (rc =? NGX_OK) then None
      else if upstream_done p then Some (true, pieces (mem buf) (data p))
      else
        '(done, bytes) ← receive close ctx (pipe_length p) bufs;
        Some (done, pieces (mem buf) (data p) ++ bytes)
  end.

Lemma receive_decodes close bufs inputs : Forall2 in_buf bufs inputs → ∀ ctx p_length,
  0 ≤ size ctx < 9223372036854775808 → decode (state ctx) (size ctx) (concat inputs) ≠ Bad →
  receive close ctx p_length bufs =
  match decode (state ctx) (size ctx) (concat inputs) with
  | More _ _ d => Some (false, d)
  | End_ d => Some (true, d)
  | Bad => None
  end.
Proof.
  induction 1 as [|buf input bufs inputs Hb Hbs IH]; intros ctx p_length Hsz Hbad; [done|].
  cbn [receive concat]. cbn [concat] in Hbad. rewrite decode_app in Hbad |- *.
  unfold ngx_http_proxy_chunked_filter. pose proof Hb as [Hp Hl Hm Hby].
  destruct (Z.eqb_spec (pos buf) (last buf)) as [E|E].
  - assert (input = []) as -> by (destruct input; cbn in Hl; [done|lia]).
    cbn [mbind option_bind upstream_done pipe_length Chunked.data]. cbn [decode] in Hbad |- *.
    rewrite with_data_nil, decode_normal in Hbad |- *.
    change (negb (NGX_OK =? NGX_OK)) with false. cbv iota. rewrite (IH ctx p_length Hsz Hbad).
    destruct (decode (state ctx) (size ctx) (concat inputs)); done.
  - assert (decode (state ctx) (size ctx) input ≠ Bad) as Hbad1 by (intros E1; by rewrite E1 in Hbad).
    destruct (filter_spec (S (Z.to_nat (last buf - pos buf))) ctx buf [] input Hb ltac:(lia) Hsz Hbad1)
      as (rc & ctx' & buf' & out & -> & Hr). cbn [mbind option_bind app].
    destruct (decode (state ctx) (size ctx) input) as [st sz d|d|]; cbn [filtered] in Hr; [| |done].
    + destruct Hr as (-> & Hst & Hsz' & Hsr & _ & <-). cbn [Z.eqb Pos.eqb mbind option_bind negb upstream_done pipe_length Chunked.data].
      subst st sz. rewrite decode_normal in Hbad |- *.
      assert (decode (state ctx') (size ctx') (concat inputs) ≠ Bad) as Hbad2 by (intros E1; by rewrite E1 in Hbad).
      rewrite (IH ctx' (length ctx')) by done.
      by destruct (decode (state ctx') (size ctx') (concat inputs)).
    + destruct Hr as (-> & <-). done.
Qed.

(** ** The size of a chunk *)

Lemma hex_value_digit ch : hex_value ch = Number.hex_digit ch.
Proof. done. Qed.

Lemma decode_size fuel : ∀ n acc, (0 < fuel)%nat → 0 ≤ n < 16 ^ Z.of_nat fuel → n ≤ MAX_INT64 →
  ∃ ds, Printf.hex_digits fuel Number.hex n acc = ds ++ acc ∧ (List.length ds ≤ fuel)%nat ∧
    ∀ sz rest, decode sw_chunk_start sz (ds ++ rest) = decode sw_chunk_size n rest.
Proof.
  induction fuel as [|fuel IH]; intros n acc Hf Hn Hmax; [lia|].
  rewrite Nat2Z.inj_succ, Z.pow_succ_r in Hn by lia. cbn [Printf.hex_digits].
  change 0xf with (Z.ones 4). rewrite Z.land_ones, Z.shiftr_div_pow2 by lia. change (2 ^ 4) with 16.
  pose proof (Printf.hex_digit_nth (n mod 16) ltac:(zlia)) as Hd. set (d := nth _ _ _) in *.
  destruct (Z.eqb_spec (n / 16) 0) as [E|E].
  - exists [d]. split; [done|]. split; [cbn; lia|]. intros sz rest. cbn [app decode].
    assert (normal sw_chunk_start sz = sw_chunk_start) as -> by done. cbn [step]. rewrite hex_value_digit, Hd.
    change (overflows sw_chunk_start sz d) with false. cbv iota. f_equal. zlia.
  - destruct (IH (n / 16) (d :: acc)) as (ds & -> & Hl & Hv).
    { destruct fuel; [|lia]. cbn in Hn. zlia. }
    { split; [zlia|]. apply Z.div_lt_upper_bound; lia. }
    { zlia. }
    exists (ds ++ [d]). rewrite <- app_assoc. split; [done|]. split; [rewrite length_app; cbn; lia|].
    intros sz rest. rewrite <- app_assoc, Hv. cbn [app decode].
    assert (normal sw_chunk_size (n / 16) = sw_chunk_size) as -> by done. cbn [step]. rewrite hex_value_digit, Hd.
    assert (s64 (n / 16 * 16 + n mod 16) = n) as -> by (rewrite s64_id; zlia).
    unfold overflows. rewrite hex_value_digit, Hd. by rewrite (proj2 (Z.ltb_ge _ _)) by zlia.
Qed.

Definition hex_text (n : Z) : list Z := Printf.num_digits n 1.

Lemma decode_hex n : 0 ≤ n ≤ MAX_INT64 → (List.length (hex_text n) ≤ 20)%nat ∧
  ∀ sz rest, decode sw_chunk_start sz (hex_text n ++ rest) = decode sw_chunk_size n rest.
Proof.
  intros Hn. destruct (decode_size Printf.NGX_INT64_LEN n []) as (ds & E & Hl & Hd); [lia|cbn; lia|lia|].
  unfold hex_text, Printf.num_digits. cbn [Z.eqb]. change (1 =? 1)%positive with true. cbv iota.
  rewrite E, app_nil_r. done.
Qed.

Lemma print_size chunk n : 0 ≤ chunk ≤ MAX_UINT64 - 4294967296 → 0 ≤ n ≤ MAX_INT64 →
  Printf.ngx_sprintf chunk (bs "%xO" ++ [CR; LF]) [Printf.AInt n] = Some (hex_text n ++ [CR; LF]).
Proof.
  intros Hc Hn. destruct (decode_hex n Hn) as [Hl _].
  unfold Printf.ngx_sprintf, Printf.ngx_vslprintf. cbn [bs app List.length].
  rewrite (Times.loop_directive _ _ _ _ (hex_text n) [CR; LF] []); [|lia|].
  - rewrite !Times.loop_literal by (lia || done). by cbn.
  - unfold Printf.directive.
    change (Printf.read_spec _ _) with
      (Some (Printf.mk_spec " "%ch 0 false 1 false 0 MAX_UINT64, "O"%ch :: [CR; LF], [Printf.AInt n])).
    cbn -[Printf.put_integer s64]. rewrite Printf.put_integer_clip by lia.
    unfold Printf.integer_text. cbn -[Printf.number s64 u64]. rewrite s64_id by lia.
    replace (n <? 0) with false by lia. rewrite u64_id by lia. unfold Printf.number. fold (hex_text n).
    replace (Z.to_nat (0 - _)) with O by lia. cbn [replicate app]. by rewrite take_ge by lia.
Qed.

(** ** Sending *)

Section Send.
Context (content : Range.ngx_buf_t → list Z).

(** The bytes of a buffer: as many as its size, none if it is not sent; the
    flag for the end of the response does not matter. *)
Record has_content (b : Range.ngx_buf_t) : Prop := {
  hc_size : Z.of_nat (List.length (content b)) = Range.ngx_buf_size b;
  hc_none : sends b = false → content b = [];
  hc_last : content ((b) <| Range.last_buf := false |>) = content b;
}.

Definition text_of (o : out_buf) : list Z := match o with Own t _ => t | Buf b => content b end.
Definition sent (out : list out_buf) : list Z := concat (text_of <$> out).
Definition body (cl : list Range.ngx_buf_t) : list Z := concat (content <$> cl).

Lemma body_app a b : body (a ++ b) = body a ++ body b.
Proof. unfold body. by rewrite fmap_app, concat_app. Qed.

Lemma chain_size_body cl : ∀ size, Forall has_content cl → 0 ≤ size →
  size + Z.of_nat (List.length (body cl)) ≤ MAX_INT64 →
  chain_size size cl = size + Z.of_nat (List.length (body cl)).
Proof.
  induction cl as [|b cl IH]; intros size Hc Hs Hm; [cbn; lia|].
  apply list.Forall_cons in Hc as [[Hb _ _] Hc]. change (body (b :: cl)) with (content b ++ body cl) in *.
  rewrite length_app in *. cbn [chain_size]. rewrite <- Hb, s64_id by lia. rewrite IH by (done || lia). lia.
Qed.

Lemma sent_kept cl : Forall has_content cl → sent (Buf <$> List.filter sends cl) = body cl.
Proof.
  induction 1 as [|b cl [_ Hn _] Hc IH]; [done|]. cbn [List.filter].
  change (body (b :: cl)) with (content b ++ body cl).
  destruct (sends b) eqn:E; [|by rewrite (Hn eq_refl), IH]. rewrite fmap_cons.
  change (sent (Buf b :: ?x)) with (content b ++ sent x). by rewrite IH.
Qed.

Lemma sent_app a b : sent (a ++ b) = sent a ++ sent b.
Proof. unfold sent. by rewrite fmap_app, concat_app. Qed.

(** The text of a chunk, and of the end of the response. *)
Definition chunk_text (d : list Z) (is_last : bool) : list Z :=
  (if (List.length d =? 0)%nat then [] else hex_text (Z.of_nat (List.length d)) ++ [CR; LF] ++ d ++ [CR; LF]) ++
  (if is_last then bs "0" ++ [CR; LF; CR; LF] else []).

Lemma chunked_filter_text chunk cl b :
  0 ≤ chunk ≤ MAX_UINT64 - 4294967296 → Forall has_content (cl ++ [b]) →
  Z.of_nat (List.length (body (cl ++ [b]))) ≤ MAX_INT64 →
  ∃ out, ngx_http_chunked_body_filter chunk (cl ++ [b]) = Some out ∧
    sent out = chunk_text (body (cl ++ [b])) (Range.last_buf b).
Proof.
  intros Hchunk Hc Hm. unfold ngx_http_chunked_body_filter. rewrite last_snoc. cbn [mbind option_bind].
  rewrite chain_size_body by (done || lia). rewrite Z.add_0_l, removelast_last.
  pose proof Hc as [Hcl [[_ Hbn Hbl] _]%list.Forall_cons]%list.Forall_app.
  assert (sent (Buf <$> List.filter sends cl ++
    (if sends b then [if Range.last_buf b then (b) <| Range.last_buf := false |> else b] else [])) =
    body (cl ++ [b])) as Hkept.
  { rewrite fmap_app, sent_app, sent_kept, body_app by done. f_equal.
    change (body [b]) with (content b ++ []). rewrite app_nil_r.
    destruct (sends b); [|by rewrite Hbn]. destruct (Range.last_buf b); cbn; by rewrite app_nil_r. }
  set (kept := List.filter sends cl ++ _) in *. set (d := body (cl ++ [b])) in *. unfold chunk_text.
  destruct (Nat.eqb_spec (List.length d) 0) as [E|E].
  - assert (d = []) as Ed by by destruct d. rewrite Ed in *. cbn [List.length Z.of_nat Z.eqb mbind option_bind].
    eexists. split; [done|]. rewrite app_nil_l, sent_app, Hkept. by destruct (Range.last_buf b).
  - rewrite (proj2 (Z.eqb_neq _ 0)), print_size by lia. cbn [mbind option_bind].
    eexists. split; [done|]. rewrite !sent_app, Hkept. unfold sent.
    destruct (Range.last_buf b); cbn [fmap list_fmap text_of concat]; [|rewrite (proj2 (Z.ltb_lt 0 _)) by lia];
      cbn [fmap list_fmap text_of concat]; rewrite ?app_nil_r; by rewrite <- !app_assoc.
Qed.

(** A chunk is decoded to its data. *)
Lemma decode_chunk d sz rest : (0 < List.length d)%nat → Z.of_nat (List.length d) ≤ MAX_INT64 →
  decode sw_chunk_start sz (hex_text (Z.of_nat (List.length d)) ++ [CR; LF] ++ d ++ [CR; LF] ++ rest) =
  with_data d (decode sw_chunk_start 0 rest).
Proof.
  intros Hd Hm. destruct (decode_hex (Z.of_nat (List.length d)) ltac:(lia)) as [_ ->].
  set (n := Z.of_nat (List.length d)) in *. cbn [app decode].
  assert (∀ st, st ≠ sw_chunk_data → normal st n = st) as Hnorm.
  { intros st Hst. unfold normal. by rewrite bool_decide_eq_false_2. }
  rewrite Hnorm by done. cbn [step]. change (hex_value CR) with (@None Z). cbv iota.
  rewrite (proj2 (Z.eqb_neq n 0)) by lia. cbn [Z.eqb Pos.eqb].
  change (overflows sw_chunk_size n CR) with false. cbv iota.
  rewrite Hnorm by done. cbn [step Z.eqb Pos.eqb overflows].
  rewrite decode_data by lia. fold n. rewrite Z.sub_diag. done.
Qed.

(** The response: the chains that the filter is called with, the last one with
    the end of the response. *)
Fixpoint response (calls : list (list Range.ngx_buf_t * Range.ngx_buf_t)) : Prop :=
  match calls with
  | [] => False
  | [(_, b)] => Range.last_buf b = true
  | (_, b) :: calls => Range.last_buf b = false ∧ response calls
  end.
Definition chain (c : list Range.ngx_buf_t * Range.ngx_buf_t) : list Range.ngx_buf_t := c.1 ++ [c.2].

Lemma decode_chunk_text d is_last sz rest :
  Z.of_nat (List.length d) ≤ MAX_INT64 →
  decode sw_chunk_start sz (chunk_text d is_last ++ rest) =
  if is_last then End_ d
  else with_data d (decode sw_chunk_start (if (List.length d =? 0)%nat then sz else 0) rest).
Proof.
  intros Hm. unfold chunk_text. destruct (Nat.eqb_spec (List.length d) 0) as [E|E].
  - assert (d = []) as -> by by destruct d. destruct is_last; cbn [app]; [done|by rewrite with_data_nil].
  - rewrite <- !app_assoc, decode_chunk by lia. destruct is_last; [|done].
    cbn [with_data]. 
    match goal with |- context [decode sw_chunk_start 0 ?x] => change (decode sw_chunk_start 0 x) with (End_ []) end.
    cbn [with_data]. by rewrite app_nil_r.
Qed.

Lemma decode_response chunk calls : ∀ sz,
  0 ≤ chunk ≤ MAX_UINT64 - 4294967296 → response calls →
  Forall (λ c, Forall has_content (chain c) ∧ Z.of_nat (List.length (body (chain c))) ≤ MAX_INT64) calls →
  ∃ outs, mapM (λ c, ngx_http_chunked_body_filter chunk (chain c)) calls = Some outs ∧
    decode sw_chunk_start sz (concat (sent <$> outs)) = End_ (concat ((λ c, body (chain c)) <$> calls)).
Proof.
  induction calls as [|[cl b] calls IH]; intros sz Hchunk Hr Hc; [done|].
  apply list.Forall_cons in Hc as [[Hb Hm] Hc]. unfold chain in Hb, Hm. cbn [fst snd] in Hb, Hm.
  destruct (chunked_filter_text chunk cl b Hchunk Hb Hm) as (out & Eo & Et).
  assert (∀ rest, decode sw_chunk_start sz (sent out ++ rest) =
    if Range.last_buf b then End_ (body (cl ++ [b]))
    else with_data (body (cl ++ [b])) (decode sw_chunk_start
           (if (List.length (body (cl ++ [b])) =? 0)%nat then sz else 0) rest)) as Hd.
  { intros rest. by rewrite Et, decode_chunk_text. }
  cbn [mapM]. change (chain (cl, b)) with (cl ++ [b]). rewrite Eo. cbn [mbind option_bind].
  destruct calls as [|c' calls'].
  - cbn [response] in Hr. exists [out]. split; [done|]. cbn [fmap list_fmap concat].
    rewrite Hd, Hr, !app_nil_r. done.
  - destruct Hr as [Hr1 Hr2].
    destruct (IH (if (List.length (body (cl ++ [b])) =? 0)%nat then sz else 0) Hchunk Hr2 Hc) as (outs & Es & Ed).
    exists (out :: outs). cbn [mapM] in Es |- *. rewrite Es. split; [done|].
    rewrite fmap_cons. cbn [concat]. rewrite Hd, Hr1, Ed. done.
Qed.

(** C12: A response that is sent in chunks, in any number of calls of the filter,
    and arrives at the proxy in any buffers, is received: exactly its bytes,
    and its end is found, whatever the buffers split. *)
Theorem chunked_roundtrip chunk calls close ctx p_length :
  0 ≤ chunk ≤ MAX_UINT64 - 4294967296 → response calls →
  Forall (λ c, Forall has_content (chain c) ∧ Z.of_nat (List.length (body (chain c))) ≤ MAX_INT64) calls →
  state ctx = sw_chunk_start → 0 ≤ size ctx ≤ MAX_INT64 →
  ∃ outs, mapM (λ c, ngx_http_chunked_body_filter chunk (chain c)) calls = Some outs ∧
    ∀ bufs inputs, Forall2 in_buf bufs inputs → concat inputs = concat (sent <$> outs) →
      receive close ctx p_length bufs = Some (true, concat ((λ c, body (chain c)) <$> calls)).
Proof.
  intros Hchunk Hr Hc Hst Hsz. destruct (decode_response chunk calls (size ctx) Hchunk Hr Hc) as (outs & Eo & Ed).
  exists outs. split; [done|]. intros bufs inputs Hb Ei.
  rewrite (receive_decodes close bufs inputs Hb); rewrite ?Hst, ?Ei, ?Ed; [done|lia|done].
Qed.
End Send.

(** Five bytes of a file and three in memory, then the end of the response. *)
Definition example_content (b : Range.ngx_buf_t) : list Z := replicate (Z.to_nat (Range.ngx_buf_size b)) "x"%ch.
Definition example_calls : list (list Range.ngx_buf_t * Range.ngx_buf_t) :=
  [([Range.mk_buf 0 0 10 15 3 false false false true false false false],
    Range.mk_buf 100 103 0 0 0 true false false false false false false);
   ([], Range.mk_buf 0 0 0 0 0 false false false false false false true)].

Lemma chunked_roundtrip_witness :
  ∃ outs, mapM (λ c, ngx_http_chunked_body_filter 4096 (chain c)) example_calls = Some outs ∧
    ∀ bufs inputs, Forall2 in_buf bufs inputs → concat inputs = concat (sent example_content <$> outs) →
      receive false (mk_ctx sw_chunk_start 0 0) 3 bufs = Some (true, bs "xxxxxxxx").
Proof.
  apply (chunked_roundtrip example_content 4096 example_calls false (mk_ctx sw_chunk_start 0 0) 3).
  - lia.
  - done.
  - assert (∀ b, Z.of_nat (List.length (example_content b)) = Range.ngx_buf_size b →
      (sends b = false → example_content b = []) → has_content example_content b) as Hc.
    { intros b H1 H2. split; [done|done|]. by destruct b. }
    assert (∀ c, c ∈ example_calls → Forall (has_content example_content) (chain c) ∧
      List.length (body example_content (chain c)) = (if decide (c.1 = []) then 0 else 8)%nat) as H.
    { intros c [->|[->|[]%elem_of_nil]%elem_of_cons]%elem_of_cons; (split; [|done]).
      - constructor; [by apply Hc|]. constructor; [by apply Hc|constructor].
      - constructor; [by apply Hc|constructor]. }
    apply list.Forall_forall. intros c Hin. destruct (H c Hin) as [H1 ->]. split; [exact H1|].
    case_decide; lia.
  - done.
  - cbn. lia.
Defined.

Example chunked_text : (λ outs, sent example_content <$> outs) <$> mapM (λ c, ngx_http_chunked_body_filter 4096 (chain c)) example_calls =
  Some [bs "8" ++ [CR; LF] ++ bs "xxxxxxxx" ++ [CR; LF]; bs "0" ++ [CR; LF; CR; LF]].
Proof. vm_compute. done. Qed.

(** ** How many bytes are waited for *)

(** The fewest bytes that can complete the response. *)
Definition need (st : chunked_state) (sz : Z) : Z :=
  match normal st sz with
  | sw_chunk_start => 3
  | sw_chunk_size => if sz =? 0 then 2 else sz + 5
  | sw_chunk_extension | sw_chunk_extension_almost_done => sz + 5
  | sw_chunk_data => sz + 4
  | sw_after_data | sw_after_data_almost_done => 4
  | sw_last_chunk_extension | sw_last_chunk_extension_almost_done => 2
  | sw_trailer | sw_trailer_almost_done => 1
  | sw_trailer_header | sw_trailer_header_almost_done => 2
  end.

(** An extension follows a size that is not zero. *)
Definition reached (st : chunked_state) (sz : Z) : Prop :=
  0 ≤ sz ≤ MAX_INT64 ∧ (st = sw_chunk_extension ∨ st = sw_chunk_extension_almost_done → sz ≠ 0).

Lemma reached_step st sz ch st' sz' : reached st sz → step (normal st sz) sz ch = Next st' sz' →
  overflows (normal st sz) sz ch = false → reached st' sz' ∧ need st sz ≤ 1 + need st' sz'.
Proof.
  intros [Hsz Hext] E Ho. pose proof (step_size _ _ _ _ _ E Ho ltac:(lia)) as Hsz'.
  pose proof (hex_value_range ch) as Hv. unfold need. rewrite <- (normal_idem st sz).
  assert (normal st sz = sw_chunk_extension ∨ normal st sz = sw_chunk_extension_almost_done → sz ≠ 0) as Hext'.
  { unfold normal. intros H. apply Hext. destruct st, (sz =? 0); cbn in H; destruct H; try done; auto. }
  destruct (normal st sz) eqn:En; unfold step, overflows in *; repeat case_match; simplify_eq; cbn;
    try (specialize (Hv _ eq_refl)); bool_to_prop; unfold reached; rewrite ?s64_id in * by lia;
    repeat case_match; bool_to_prop; repeat split; try lia; try (intros [|]; done); try (intros; lia).
  all: unfold normal in *; repeat case_match; try done; bool_to_prop; try lia.
  all: intros; tauto.
Qed.

Lemma decode_need input : ∀ st sz d, reached st sz → decode st sz input = End_ d →
  need st sz ≤ Z.of_nat (List.length input).
Proof.
  induction input as [|c input IH]; intros st sz d Hr E; cbn [decode] in E; [done|].
  cbn [List.length]. destruct (step (normal st sz) sz c) as [st' sz'| | |] eqn:Es; [| | |done].
  - destruct (overflows (normal st sz) sz c) eqn:Eo; [done|].
    destruct (reached_step _ _ _ _ _ Hr Es Eo) as [Hr' Hn]. specialize (IH _ _ _ Hr' E). lia.
  - apply step_data in Es. destruct (decode sw_chunk_data (sz - 1) input) as [| d'|] eqn:E1; try done.
    destruct Hr as [Hsz Hr]. unfold normal in Es.
    destruct (Z.eqb_spec sz 0) as [->|Hz]; [by destruct st|].
    apply IH in E1; [|split; [lia|by intros [|]]]. unfold need in *. unfold normal in *.
    rewrite (proj2 (Z.eqb_neq sz 0)), andb_false_r in * by lia. subst st.
    rewrite bool_decide_eq_true_2 in E1 by done. destruct (Z.eqb_spec (sz - 1) 0); cbn [andb] in E1; lia.
  - unfold need. destruct (normal st sz); cbn in Es; repeat case_match; simplify_eq; cbn; lia.
Qed.

(** The shortest text that completes the response. *)
Definition completion (st : chunked_state) (sz : Z) : list Z :=
  let data := replicate (Z.to_nat sz) 0 ++ [LF; "0"%ch; LF; LF] in
  match normal st sz with
  | sw_chunk_start => ["0"%ch; LF; LF]
  | sw_chunk_size => if sz =? 0 then [LF; LF] else LF :: data
  | sw_chunk_extension | sw_chunk_extension_almost_done => LF :: data
  | sw_chunk_data => data
  | sw_after_data | sw_after_data_almost_done => [LF; "0"%ch; LF; LF]
  | sw_last_chunk_extension | sw_last_chunk_extension_almost_done => [LF; LF]
  | sw_trailer | sw_trailer_almost_done => [LF]
  | sw_trailer_header | sw_trailer_header_almost_done => [LF; LF]
  end.

Lemma completes st sz : reached st sz →
  Z.of_nat (List.length (completion st sz)) = need st sz ∧ ∃ d, decode st sz (completion st sz) = End_ d.
Proof.
  intros [Hsz Hr].
  assert (decode sw_chunk_data sz (replicate (Z.to_nat sz) 0 ++ [LF; "0"%ch; LF; LF]) =
    End_ (replicate (Z.to_nat sz) 0)) as Hd.
  { rewrite decode_data; rewrite length_replicate, Z2Nat.id by lia; [|lia]. rewrite Z.sub_diag.
    change (decode sw_chunk_data 0 _) with (End_ []). cbn [with_data]. by rewrite app_nil_r. }
  unfold completion, need. rewrite <- (decode_normal st sz). split.
  { destruct (normal st sz); try case_match; cbn [List.length];
      rewrite ?length_app, ?length_replicate; cbn [List.length]; lia. }
  destruct (normal st sz) eqn:En; try (eexists; reflexivity).
  - destruct (Z.eqb_spec sz 0) as [->|Hz]; [by eexists|]. eexists. cbn [decode].
    replace (normal sw_chunk_size sz) with sw_chunk_size by done. cbn [step].
    change (hex_value LF) with (@None Z). cbv iota. rewrite (proj2 (Z.eqb_neq sz 0)) by lia. cbn [Z.eqb Pos.eqb].
    exact Hd.
  - by eexists.
  - by eexists.
  - by eexists.
Qed.

(** [ctx->length] is the number of bytes that are still needed: every text
    that completes the response has that many bytes and one has exactly that
    many, except after the digits of a size that is not zero, where it is one
    too many. *)
Theorem chunked_length st sz old :
  reached st sz → sz ≤ MAX_INT64 - 6 →
  let extra := if bool_decide (st = sw_chunk_size) && negb (sz =? 0) then 1 else 0 in
  (∀ more d, decode st sz more = End_ d →
     length_of (normal st sz) sz old - extra ≤ Z.of_nat (List.length more)) ∧
  (∃ more d, decode st sz more = End_ d ∧
     Z.of_nat (List.length more) = length_of (normal st sz) sz old - extra).
Proof.
  intros Hr Hm extra. assert (length_of (normal st sz) sz old - extra = need st sz) as ->.
  { subst extra. destruct Hr as [Hsz Hr]. unfold length_of, need, normal.
    destruct (Z.eqb_spec sz 0) as [->|Hz]; [by destruct st|].
    rewrite andb_false_r, andb_true_r. case_bool_decide as E; [subst st|destruct st; try done]; rewrite ?s64_id by (rewrite ?s64_id by lia; lia); lia. }
  split; [intros more d; by apply decode_need|].
  destruct (completes st sz Hr) as [Hl [d Hd]]. by exists (completion st sz), d.
Qed.

Lemma chunked_length_witness : decode sw_chunk_start 0 (bs "5") = More sw_chunk_size 5 [] ∧
  length_of sw_chunk_size 5 0 = 11 ∧
  ∃ more d, decode sw_chunk_size 5 more = End_ d ∧ Z.of_nat (List.length more) = 10.
Proof.
  split; [done|]. split; [done|].
  assert (reached sw_chunk_size 5) as Hr by (split; [lia|by intros [|]]).
  exact (proj2 (chunked_length sw_chunk_size 5 0 Hr ltac:(lia))).
Defined.

(** A size that does not fit into [off_t] is negative, and the loop of the
    filters moves [buf->pos] before the buffer. *)
Lemma chunked_negative_size :
  let text := bs "ffffffffffffff00" ++ [CR; LF] ++ bs "abc" in
  let buf := mk_buf text 0 (Z.of_nat (List.length text)) in
  ngx_http_proxy_parse_chunked (mk_ctx sw_chunk_start 0 0) buf =
    Some (NGX_OK, mk_ctx sw_chunk_data (-256) (-252), mk_buf text 18 21) ∧
  ngx_http_proxy_chunked_filter 3 (mk_ctx sw_chunk_start 0 0) 0 false buf = None.
Proof. vm_compute. done. Qed.
End ChunkedRoundtrip.
