(* ===== verification/Conf.v ===== *)
(** * The configuration file

    src/core/ngx_conf_file.c: the reader of tokens with its buffer, the parser
    of files and blocks, the look-up of directives. *)

From S2P Require Import Prelude.

Module Conf.

Definition NGX_CONF_BUFFER : nat := Z.to_nat 4096.
Abbreviation NGX_CONF_BLOCK_START := 1.
Abbreviation NGX_CONF_BLOCK_DONE := 2.
Abbreviation NGX_CONF_FILE_DONE := 3.
Abbreviation TAB := 9.
Abbreviation QUOTE := 39.
Abbreviation BACKSLASH := 92.

(** ** ngx_conf_read_token: one character

    The local variables; [args] is [cf->args] and [line] is
    [cf->conf_file->line]. *)
Record locals := mk_locals {
  need_space : bool;
  last_space : bool;
  sharp_comment : bool;
  variable : bool;
  quoted : bool;
  s_quoted : bool;
  d_quoted : bool;
  start_line : Z;
  line : Z;
  args : list (list Z);
}.

#[export] Instance eta_locals : Eta locals := λ s,
  mk_locals (need_space s) (last_space s) (sharp_comment s) (variable s) (quoted s) (s_quoted s)
    (d_quoted s) (start_line s) (line s) (args s).

Definition init (line : Z) : locals :=
  mk_locals false true false false false false false line line [].

(** What the turn of the loop does in the end: it returns, or goes on with
    [start] where it was, at the character, or behind it. *)
Inductive start_at := Keep | Here | Behind.
Inductive outcome :=
  | Return (rc : Z) (s : locals)
  | Continue (s : locals) (start : start_at).

Definition is_space (ch : Z) : bool :=
  (ch =? " "%ch) || (ch =? TAB) || (ch =? CR) || (ch =? LF).

(** [for (dst = word->data, src = start, len = 0; src < b->pos - 1; len++)]:
    [n] bytes are left before [b->pos - 1], and [mem] is what follows [src] in
    the buffer. *)
Fixpoint copy_word (n : nat) (mem : list Z) {struct mem} : list Z :=
  match n, mem with
  | S n, c :: mem' =>
      match mem' with
      | d :: mem'' =>
          if c =? BACKSLASH then
            if (d =? DQUOTE) || (d =? QUOTE) || (d =? BACKSLASH) then d :: copy_word (pred n) mem''
            else if d =? "t"%ch then TAB :: copy_word (pred n) mem''
            else if d =? "r"%ch then CR :: copy_word (pred n) mem''
            else if d =? "n"%ch then LF :: copy_word (pred n) mem''
            else c :: copy_word n mem'
          else c :: copy_word n mem'
      | [] => [c]
      end
  | _, _ => []
  end.

Section Reader.
(** Whether the [k]-th allocation of a call succeeds: two for every word. *)
Context (alloc : nat → bool).

(** [if (last_space)] *)
Definition step_between (s : locals) (ch : Z) : outcome :=
  if is_space ch then Continue s Keep
  else
    let s := s <| start_line := line s |> in
    if (ch =? ";"%ch) || (ch =? "{"%ch) then
      if (length (args s) =? 0)%nat then Return NGX_ERROR s
      else if ch =? "{"%ch then Return NGX_CONF_BLOCK_START s
      else Return NGX_OK s
    else if ch =? "}"%ch then
      if negb (length (args s) =? 0)%nat then Return NGX_ERROR s
      else Return NGX_CONF_BLOCK_DONE s
    else if ch =? "#"%ch then Continue (s <| sharp_comment := true |>) Here
    else if ch =? BACKSLASH then Continue (s <| quoted := true |> <| last_space := false |>) Here
    else if ch =? DQUOTE then Continue (s <| d_quoted := true |> <| last_space := false |>) Behind
    else if ch =? QUOTE then Continue (s <| s_quoted := true |> <| last_space := false |>) Behind
    else Continue (s <| last_space := false |>) Here.

(** Whether the word ends here. *)
Definition word_end (s : locals) (ch : Z) : locals * bool :=
  if d_quoted s then
    if ch =? DQUOTE then (s <| d_quoted := false |> <| need_space := true |>, true) else (s, false)
  else if s_quoted s then
    if ch =? QUOTE then (s <| s_quoted := false |> <| need_space := true |>, true) else (s, false)
  else if is_space ch || (ch =? ";"%ch) || (ch =? "{"%ch) then (s <| last_space := true |>, true)
  else (s, false).

(** The [else] branch: inside of a word; [raw] are the bytes from [start] to
    the character. *)
Definition step_word (s : locals) (raw : list Z) (ch : Z) : outcome :=
  if (ch =? "{"%ch) && variable s then Continue s Keep
  else
    let s := s <| variable := false |> in
    if ch =? BACKSLASH then Continue (s <| quoted := true |>) Keep
    else if ch =? "$"%ch then Continue (s <| variable := true |>) Keep
    else
      let '(s, found) := word_end s ch in
      if found then
        let k := (2 * length (args s))%nat in
        if negb (alloc k && alloc (S k)) then Return NGX_ERROR s
        else
          let s := s <| args := args s ++ [copy_word (length raw) (raw ++ [ch])] |> in
          if ch =? ";"%ch then Return NGX_OK s
          else if ch =? "{"%ch then Return NGX_CONF_BLOCK_START s
          else Continue s Keep
      else Continue s Keep.

Definition step_char (s : locals) (raw : list Z) (ch : Z) : outcome :=
  if last_space s then step_between s ch else step_word s raw ch.

(** The loop's body after [ch = *b->pos++]. *)
Definition step (s : locals) (raw : list Z) (ch : Z) : outcome :=
  let s :=
    if ch =? LF then s <| line := line s + 1 |> <| sharp_comment := false |> else s in
  if sharp_comment s then Continue s Keep
  else if quoted s then Continue (s <| quoted := false |>) Keep
  else if need_space s then
    if is_space ch then Continue (s <| last_space := true |> <| need_space := false |>) Keep
    else if ch =? ";"%ch then Return NGX_OK s
    else if ch =? "{"%ch then Return NGX_CONF_BLOCK_START s
    else if ch =? ")"%ch then
      step_char (s <| last_space := true |> <| need_space := false |>) raw ch
    else Return NGX_ERROR s
  else step_char s raw ch.

(** The end of the file. *)
Definition at_end (s : locals) : Z :=
  if negb (length (args s) =? 0)%nat || negb (last_space s) then NGX_ERROR
  else NGX_CONF_FILE_DONE.

(** ** ngx_conf_read_token: the buffer

    [buffer] are the bytes from [b->start] to [b->last]; [pos] is
    [b->pos - b->start], [cap] is [b->end - b->start]. *)
Record ngx_conf_file_t := mk_file {
  buffer : list Z;
  pos : nat;
  cap : nat;
  offset : nat;
  file_size : nat;
  file_line : Z;
}.

(** [ngx_read_file]: the bytes read at an offset, [None] for [NGX_ERROR]. *)
Context (ngx_read_file : nat → nat → option (list Z)).

(** The buffer is used up and the file is not: what is left from [start] on is
    moved to the front, and the file read behind it. *)
Definition refill (f : ngx_conf_file_t) (start : nat) : option ngx_conf_file_t :=
  let len := (pos f - start)%nat in
  if (len =? NGX_CONF_BUFFER)%nat then None
  else
    let size := Nat.min (file_size f - offset f) (cap f - len) in
    match ngx_read_file (offset f) size with
    | None => None
    | Some data =>
        if negb (length data =? size)%nat then None
        else
          Some (mk_file (take len (drop start (buffer f)) ++ data) len (cap f)
                  (offset f + size) (file_size f) (file_line f))
    end.

(** [for ( ;; )]; [None] is a read behind the buffer. *)
Fixpoint read_loop (fuel : nat) (f : ngx_conf_file_t) (start : nat) (s : locals) :
    option (Z * list (list Z) * ngx_conf_file_t) :=
  let return_ rc s f :=
    Some (rc, args s, mk_file (buffer f) (pos f) (cap f) (offset f) (file_size f) (line s)) in
  match fuel with
  | O => None
  | S fuel =>
      let next f start :=
        ch ← buffer f !! pos f;
        let raw := take (pos f - start) (drop start (buffer f)) in
        let f := mk_file (buffer f) (S (pos f)) (cap f) (offset f) (file_size f) (file_line f) in
        match step s raw ch with
        | Return rc s => return_ rc s f
        | Continue s at_ =>
            let start := match at_ with Keep => start | Here => pred (pos f) | Behind => pos f end in
            read_loop fuel f start s
        end in
      if (length (buffer f) <=? pos f)%nat then
        if (file_size f <=? offset f)%nat then return_ (at_end s) s f
        else
          match refill f start with
          | None =>
              return_ NGX_ERROR
                (if (pos f - start =? NGX_CONF_BUFFER)%nat then s <| line := start_line s |> else s) f
          | Some f => next f O
          end
      else next f start
  end.

(** Every turn of the loop reads a byte. *)
Definition ngx_conf_read_token (f : ngx_conf_file_t) : option (Z * list (list Z) * ngx_conf_file_t) :=
  read_loop (S (length (buffer f) - pos f + (file_size f - offset f))) f (pos f) (init (file_line f)).
End Reader.

(** ** ngx_conf_parse *)

Inductive parse_type := parse_file | parse_block | parse_param.

Section Parse.
(** The place in the text and what the directives build. *)
Context {Place World : Type}.
(** [ngx_conf_read_token]. *)
Context (read_token : Place → option (Z * list (list Z) * Place)).
(** [cf->handler] or [ngx_conf_handler] for the words of a directive: [NGX_OK]
    or [NGX_ERROR].  A handler of a block parses the block. *)
Context (handler : Z → list (list Z) → Place → World → option (Z * Place * World)).

Fixpoint parse_loop (fuel : nat) (type : parse_type) (p : Place) (w : World) :
    option (Z * Place * World) :=
  match fuel with
  | O => None
  | S fuel =>
      '(rc, words, p) ← read_token p;
      if rc =? NGX_ERROR then Some (NGX_ERROR, p, w)
      else if rc =? NGX_CONF_BLOCK_DONE then
        match type with parse_block => Some (rc, p, w) | _ => Some (NGX_ERROR, p, w) end
      else if rc =? NGX_CONF_FILE_DONE then
        match type with parse_block => Some (NGX_ERROR, p, w) | _ => Some (rc, p, w) end
      else
        match type, rc =? NGX_CONF_BLOCK_START with
        | parse_param, true => Some (NGX_ERROR, p, w)
        | _, _ =>
            '(rc, p, w) ← handler rc words p w;
            if rc =? NGX_ERROR then Some (NGX_ERROR, p, w) else parse_loop fuel type p w
        end
  end.
End Parse.

(** ** ngx_conf_handler *)

Abbreviation NGX_CONF_MODULE := 0x464E4F43.
Abbreviation NGX_CONF_BLOCK := 0x00000100.
Abbreviation NGX_CONF_FLAG := 0x00000200.
Abbreviation NGX_CONF_ANY := 0x00000400.
Abbreviation NGX_CONF_1MORE := 0x00000800.
Abbreviation NGX_CONF_2MORE := 0x00001000.
Abbreviation NGX_CONF_MULTI := 0x00002000.
Abbreviation NGX_DIRECT_CONF := 0x00010000.
Abbreviation NGX_MAIN_CONF := 0x01000000.
Abbreviation NGX_CONF_MAX_ARGS := 8%nat.

Definition argument_number : list Z := [0x01; 0x02; 0x04; 0x08; 0x10; 0x20; 0x40; 0x80].

(** [set] identifies the function. *)
Record ngx_command_t := mk_command { name : list Z; type : Z; set : nat; conf : Z }.

Record ngx_module_t := mk_module {
  ctx_index : nat;
  index : nat;
  commands : option (list ngx_command_t);
  module_type : Z;
}.

(** The configuration a directive is given: an element of [cf->ctx], its
    address, or an element of the array at an offset in [cf->ctx]. *)
Inductive conf_pointer :=
  | Null
  | Element (index : nat)
  | Address (index : nat)
  | Nested (offset : Z) (ctx_index : nat).

Definition flag (x b : Z) : bool := negb (Z.land x b =? 0).

(** [if (!(cmd->type & NGX_CONF_ANY))]: whether [n] words are allowed. *)
Definition argument_count_ok (type : Z) (n : nat) : bool :=
  if flag type NGX_CONF_ANY then true
  else if flag type NGX_CONF_FLAG then (n =? 2)%nat
  else if flag type NGX_CONF_1MORE then (2 <=? n)%nat
  else if flag type NGX_CONF_2MORE then (3 <=? n)%nat
  else if (NGX_CONF_MAX_ARGS <? n)%nat then false
  else flag type (nth (n - 1) argument_number 0).

(** What the two loops find for a directive: the command to be called, an
    error, or nothing. *)
Inductive looked_up :=
  | Call (set : nat) (conf : conf_pointer)
  | Refused
  | NotHere.

Section Handler.
(** [cf->module_type], [cf->cmd_type]; [ctx] and [confp at_] say whether
    [cf->ctx] and its element at an offset are set. *)
Context (cf_module_type cf_cmd_type : Z) (ctx : bool) (confp : Z → bool).

Definition conf_of (m : ngx_module_t) (cmd : ngx_command_t) : conf_pointer :=
  if flag (type cmd) NGX_DIRECT_CONF then Element (index m)
  else if flag (type cmd) NGX_MAIN_CONF then Address (index m)
  else if ctx && confp (conf cmd) then Nested (conf cmd) (ctx_index m)
  else Null.

Fixpoint find_command (m : ngx_module_t) (words : list (list Z)) (last : Z)
    (cmds : list ngx_command_t) : looked_up :=
  match cmds with
  | [] => NotHere
  | cmd :: cmds =>
      if (length (name cmd) =? 0)%nat then NotHere
      else if negb (bool_decide (head words = Some (name cmd))) then find_command m words last cmds
      else if negb (flag (type cmd) cf_cmd_type) then
        if flag (type cmd) NGX_CONF_MULTI then find_command m words last cmds else Refused
      else if negb (flag (type cmd) NGX_CONF_BLOCK) && negb (last =? NGX_OK) then Refused
      else if flag (type cmd) NGX_CONF_BLOCK && negb (last =? NGX_CONF_BLOCK_START) then Refused
      else if negb (argument_count_ok (type cmd) (length words)) then Refused
      else Call (set cmd) (conf_of m cmd)
  end.

(** Both ends of the search are errors: "unknown directive" and "not allowed
    here". *)
Fixpoint ngx_conf_handler (modules : list ngx_module_t) (words : list (list Z)) (last : Z) :
    looked_up :=
  match modules with
  | [] => Refused
  | m :: modules =>
      if negb (module_type m =? NGX_CONF_MODULE) && negb (module_type m =? cf_module_type) then
        ngx_conf_handler modules words last
      else
        match commands m with
        | None => ngx_conf_handler modules words last
        | Some cmds =>
            match find_command m words last cmds with
            | NotHere => ngx_conf_handler modules words last
            | r => r
            end
        end
  end.
End Handler.

End Conf.
