(* ===== verification/ConfRead.v ===== *)
(** * The configuration file: reading tokens

    The reader with its buffer reads what a reader of the whole text reads;
    words that are quoted are read back; what the code does at the edges. *)

From S2P Require Import Prelude Conf.

Module ConfRead.
Import Conf.

(** ** Reading the text without a buffer *)

Definition raw_after (raw : list Z) (ch : Z) (at_ : start_at) : list Z :=
  match at_ with Keep => raw ++ [ch] | Here => [ch] | Behind => [] end.

Section Spec.
Context (alloc : nat → bool).

(** The result, the words, the line and the rest of the text; [raw] are the
    bytes since [start], which must fit into the buffer. *)
Fixpoint text_loop (s : locals) (raw input : list Z) : Z * list (list Z) * Z * list Z :=
  match input with
  | [] => (at_end s, args s, line s, [])
  | ch :: input' =>
      if (length raw =? NGX_CONF_BUFFER)%nat then (NGX_ERROR, args s, start_line s, input)
      else
        match step alloc s raw ch with
        | Return rc s => (rc, args s, line s, input')
        | Continue s at_ => text_loop s (raw_after raw ch at_) input'
        end
  end.

Definition read_text (line : Z) (input : list Z) : Z * list (list Z) * Z * list Z :=
  text_loop (init line) [] input.

(** ** The buffer *)

Section Buffer.
Context (ngx_read_file : nat → nat → option (list Z)) (content : list Z).
Context (Hread : ∀ o n, (o + n ≤ length content)%nat → ngx_read_file o n = Some (take n (drop o content))).

(** The buffer and the rest of the file hold the text [input]. *)
Record holds (f : ngx_conf_file_t) (input : list Z) : Prop := {
  holds_cap : cap f = NGX_CONF_BUFFER;
  holds_fits : (pos f ≤ length (buffer f) ≤ NGX_CONF_BUFFER)%nat;
  holds_file : (offset f ≤ file_size f)%nat ∧ file_size f = length content;
  holds_input : drop (pos f) (buffer f) ++ drop (offset f) content = input;
}.

Lemma take_drop_snoc (l : list Z) start p ch :
  (start ≤ p)%nat → l !! p = Some ch →
  take (S p - start) (drop start l) = take (p - start) (drop start l) ++ [ch].
Proof.
  intros Hs Hl. replace (S p - start)%nat with (S (p - start)) by lia.
  apply take_S_r. rewrite lookup_drop. by replace (start + (p - start))%nat with p by lia.
Qed.

Lemma refill_spec f input start :
  holds f input → (start ≤ pos f)%nat → pos f = length (buffer f) → (offset f < file_size f)%nat →
  (pos f - start ≠ NGX_CONF_BUFFER)%nat →
  ∃ f', refill ngx_read_file f start = Some f' ∧ holds f' input ∧
    take (pos f') (buffer f') = take (pos f - start) (drop start (buffer f)) ∧
    (pos f' < length (buffer f'))%nat ∧ file_line f' = file_line f.
Proof.
  intros [Hc Hf [Ho Hs] Hi] Hst Hp Hoff Hlen. unfold refill. rewrite (proj2 (Nat.eqb_neq _ _) Hlen).
  set (len := (pos f - start)%nat) in *. set (size := Nat.min _ _).
  rewrite Hread by lia.
  assert (length (take size (drop (offset f) content)) = size) as Hl.
  { rewrite length_take, length_drop. lia. }
  rewrite Hl, Nat.eqb_refl. cbn [negb]. eexists. split; [done|]. cbn.
  assert (length (take len (drop start (buffer f))) = len) as Hl'.
  { rewrite length_take, length_drop. lia. }
  split_and!.
  - constructor; cbn; [done| |lia|].
    + rewrite length_app, Hl, Hl'. lia.
    + rewrite drop_app_length' by done. rewrite <- drop_drop, take_drop.
      rewrite <- Hi, Hp, drop_all. done.
  - by rewrite take_app_length'.
  - rewrite length_app, Hl, Hl'. lia.
  - done.
Qed.

(** The buffered loop agrees with the loop over the text. *)
Lemma read_loop_spec fuel : ∀ f start s input,
  holds f input → (start ≤ pos f)%nat → (length input < fuel)%nat →
  let '(rc, words, ln, rest) := text_loop s (take (pos f - start) (drop start (buffer f))) input in
  ∃ f', read_loop alloc ngx_read_file fuel f start s = Some (rc, words, f') ∧
    (rc ≠ NGX_ERROR → holds f' rest ∧ file_line f' = ln).
Proof.
  induction fuel as [|fuel IH]; intros f start s input Hh Hst Hfuel; [lia|].
  (* a turn with a byte in the buffer *)
  assert (∀ f start, holds f input → (start ≤ pos f)%nat → (pos f < length (buffer f))%nat →
    length (take (pos f - start) (drop start (buffer f))) ≠ NGX_CONF_BUFFER →
    let '(rc, words, ln, rest) := text_loop s (take (pos f - start) (drop start (buffer f))) input in
    ∃ f',
      (ch ← buffer f !! pos f;
       let raw := take (pos f - start) (drop start (buffer f)) in
       let f := mk_file (buffer f) (S (pos f)) (cap f) (offset f) (file_size f) (file_line f) in
       match step alloc s raw ch with
       | Return rc s =>
           Some (rc, args s, mk_file (buffer f) (pos f) (cap f) (offset f) (file_size f) (line s))
       | Continue s at_ =>
           let start := match at_ with Keep => start | Here => pred (pos f) | Behind => pos f end in
           read_loop alloc ngx_read_file fuel f start s
       end) = Some (rc, words, f') ∧
      (rc ≠ NGX_ERROR → holds f' rest ∧ file_line f' = ln)) as Hnext.
  { clear f start Hh Hst. intros f start [Hc Hf Ho Hi] Hst Hp Hraw.
    destruct (lookup_lt_is_Some_2 _ _ Hp) as [ch Hch]. rewrite Hch. cbn [mbind option_bind].
    assert (drop (pos f) (buffer f) = ch :: drop (S (pos f)) (buffer f)) as Hd by by apply drop_S.
    rewrite Hd in Hi. cbn [app] in Hi. subst input. cbn [text_loop].
    rewrite (proj2 (Nat.eqb_neq _ _) Hraw). cbn [length] in Hfuel.
    set (input := drop (S (pos f)) (buffer f) ++ drop (offset f) content) in *.
    assert (∀ ln, holds (mk_file (buffer f) (S (pos f)) (cap f) (offset f) (file_size f) ln) input) as Hh'.
    { intros ln. constructor; cbn; [done|lia|done|done]. }
    destruct (step alloc s _ ch) as [rc s'|s' at_]; [by eexists|].
    set (f1 := mk_file _ (S (pos f)) _ _ _ _).
    assert (∀ start', (start' ≤ S (pos f))%nat →
      take (S (pos f) - start') (drop start' (buffer f)) = raw_after (take (pos f - start) (drop start (buffer f))) ch at_ →
      let '(rc, words, ln, rest) := text_loop s' (raw_after (take (pos f - start) (drop start (buffer f))) ch at_) input in
      ∃ f', read_loop alloc ngx_read_file fuel f1 start' s' = Some (rc, words, f') ∧
        (rc ≠ NGX_ERROR → holds f' rest ∧ file_line f' = ln)) as Hgo.
    { intros start' Hs' <-. apply (IH f1); [apply Hh'|done|lia]. }
    destruct at_; apply Hgo; cbn [raw_after pos f1 pred].
    - lia.
    - by apply take_drop_snoc.
    - lia.
    - replace (S (pos f) - pos f)%nat with 1%nat by lia. by rewrite Hd.
    - lia.
    - by rewrite Nat.sub_diag. }
  cbn [read_loop]. pose proof Hh as [Hc Hf Ho Hi].
  destruct (Nat.leb_spec (length (buffer f)) (pos f)) as [Hend|Hmore].
  - assert (pos f = length (buffer f)) as Hp by lia.
    destruct (Nat.leb_spec (file_size f) (offset f)) as [Heof|Hfile].
    + assert (input = []) as ->.
      { rewrite <- Hi, Hp, drop_all, drop_ge by lia. done. }
      cbn [text_loop]. eexists. split; [done|]. intros _. split; [|done].
      constructor; cbn; [done|lia|done|]. rewrite Hp, drop_all, drop_ge by lia. done.
    + assert (length (take (pos f - start) (drop start (buffer f))) = (pos f - start)%nat) as Hl.
      { rewrite length_take, length_drop. lia. }
      destruct (decide (pos f - start = NGX_CONF_BUFFER)%nat) as [Hfull|Hroom].
      * unfold refill. rewrite Hfull in *. rewrite Nat.eqb_refl.
        assert (∃ ch input', input = ch :: input') as (ch & input' & ->).
        { destruct input as [|ch input']; [|eauto]. exfalso. apply (f_equal length) in Hi.
          rewrite length_app, !length_drop in Hi. cbn in Hi. lia. }
        cbn [text_loop]. rewrite Hl, Nat.eqb_refl. eexists. split; [done|done].
      * destruct (refill_spec f input start) as (f' & -> & Hh' & Ht & Hp' & Hline); [done..|].
        assert (take (pos f' - 0) (drop 0 (buffer f')) = take (pos f - start) (drop start (buffer f))) as Ht'.
        { by rewrite Nat.sub_0_r, drop_0. }
        rewrite <- Ht'. apply Hnext; [done|lia|done|]. by rewrite Ht', Hl.
  - apply Hnext; [done|done|done|]. rewrite length_take, length_drop. lia.
Qed.

(** Reading from a file through the buffer gives what reading its text gives:
    the result, the words, the line and the place behind the token. *)
Lemma read_token_text f input :
  holds f input →
  let '(rc, words, ln, rest) := read_text (file_line f) input in
  ∃ f', ngx_conf_read_token alloc ngx_read_file f = Some (rc, words, f') ∧
    (rc ≠ NGX_ERROR → holds f' rest ∧ file_line f' = ln).
Proof.
  intros Hh. unfold read_text, ngx_conf_read_token.
  pose proof (read_loop_spec (S (length (buffer f) - pos f + (file_size f - offset f))) f (pos f)
    (init (file_line f)) input Hh) as H.
  rewrite Nat.sub_diag in H. apply H; [lia|]. destruct Hh as [_ Hf [Ho Hs] <-].
  rewrite length_app, !length_drop. lia.
Qed.
End Buffer.
End Spec.

(** ** Words in quotes *)

Definition escape (c : Z) : list Z :=
  if (c =? DQUOTE) || (c =? BACKSLASH) then [BACKSLASH; c] else [c].
Definition escaped (w : list Z) : list Z := concat (escape <$> w).
Definition quote (w : list Z) : list Z := DQUOTE :: escaped w ++ [DQUOTE].

(** The words of a directive with spaces between them, and its terminator. *)
Fixpoint words_text (ws : list (list Z)) (terminator : Z) : list Z :=
  match ws with
  | [] => [terminator]
  | [w] => quote w ++ [terminator]
  | w :: ws => quote w ++ " "%ch :: words_text ws terminator
  end.

Definition line_feeds (w : list Z) : Z := Z.of_nat (length (filter (λ c, c = LF) w)).

(** A word that leaves room in the buffer. *)
Definition word_fits (w : list Z) : Prop := (length (escaped w) + 3 ≤ NGX_CONF_BUFFER)%nat.

Lemma escaped_cons c w : escaped (c :: w) = escape c ++ escaped w.
Proof. done. Qed.

Lemma copy_escaped w x t : copy_word (length (escaped w)) (escaped w ++ x :: t) = w.
Proof.
  induction w as [|c w IH]; [done|]. rewrite escaped_cons. unfold escape.
  destruct ((c =? DQUOTE) || (c =? BACKSLASH)) eqn:E.
  - cbn [app length copy_word pred]. change (BACKSLASH =? BACKSLASH) with true. cbv iota.
    replace ((c =? DQUOTE) || (c =? QUOTE) || (c =? BACKSLASH)) with true by lia. by rewrite IH.
  - cbn [app length]. assert (∃ d m, escaped w ++ x :: t = d :: m) as (d & m & Em).
    { destruct (escaped w); cbn; eauto. }
    apply orb_false_iff in E as [_ E]. cbn [copy_word]. rewrite Em, E, <- Em. by rewrite IH.
Qed.

(** Inside of quotes: only [variable] and the line change. *)
Definition in_quotes (n k : Z) (words : list (list Z)) (v : bool) : locals :=
  mk_locals false false false v false false true n k words.

Section Quotes.
Context (alloc : nat → bool) (Halloc : ∀ k, alloc k = true).

Lemma step_plain n k words v raw c :
  c ≠ DQUOTE → c ≠ BACKSLASH →
  ∃ v', step alloc (in_quotes n k words v) raw c =
        Continue (in_quotes n (k + line_feeds [c]) words v') Keep.
Proof.
  intros Hq Hb. unfold step. destruct (Z.eqb_spec c LF) as [->|Hlf].
  - exists false. unfold line_feeds. rewrite filter_cons_True by done. done.
  - assert (line_feeds [c] = 0) as -> by (unfold line_feeds; by rewrite filter_cons_False).
    rewrite Z.add_0_r. cbn. unfold step_word, word_end. cbn.
    destruct (Z.eqb_spec c 123) as [->|]; cbn [andb].
    { destruct v; cbn; by eexists. }
    rewrite (proj2 (Z.eqb_neq c 92) Hb). destruct (c =? 36); [by eexists|].
    rewrite (proj2 (Z.eqb_neq c 34) Hq). by eexists.
Qed.

Lemma text_loop_escaped w : ∀ n k words v raw rest,
  (length raw + length (escaped w) ≤ pred NGX_CONF_BUFFER)%nat →
  ∃ v', text_loop alloc (in_quotes n k words v) raw (escaped w ++ rest) =
        text_loop alloc (in_quotes n (k + line_feeds w) words v') (raw ++ escaped w) rest.
Proof.
  induction w as [|c w IH]; intros n k words v raw rest Hl.
  { exists v. cbn. by rewrite app_nil_r, Z.add_0_r. }
  rewrite escaped_cons in *. rewrite length_app in Hl.
  assert (line_feeds (c :: w) = line_feeds [c] + line_feeds w) as ->.
  { unfold line_feeds. change (c :: w) with ([c] ++ w). rewrite list.filter_app, length_app. lia. }
  assert (∃ v1, text_loop alloc (in_quotes n k words v) raw (escape c ++ escaped w ++ rest) =
    text_loop alloc (in_quotes n (k + line_feeds [c]) words v1) (raw ++ escape c) (escaped w ++ rest)) as (v1 & E1).
  { unfold escape in *. destruct ((c =? DQUOTE) || (c =? BACKSLASH)) eqn:E.
    - exists false. cbn [app text_loop length] in *.
      rewrite (proj2 (Nat.eqb_neq (length raw) _)) by lia.
      change (step alloc (in_quotes n k words v) raw BACKSLASH) with
        (Continue ((in_quotes n k words false) <| quoted := true |>) Keep).
      cbn [raw_after]. rewrite length_app. rewrite (proj2 (Nat.eqb_neq (length raw + _) _)) by (cbn; lia).
      assert (c ≠ LF) as Hlf by lia.
      assert (line_feeds [c] = 0) as -> by (unfold line_feeds; by rewrite filter_cons_False).
      rewrite Z.add_0_r. unfold step. rewrite (proj2 (Z.eqb_neq c LF) Hlf). cbn. by rewrite <- app_assoc.
    - apply orb_false_iff in E as [E1%Z.eqb_neq E2%Z.eqb_neq]. cbn [app text_loop length] in *.
      rewrite (proj2 (Nat.eqb_neq (length raw) _)) by lia.
      destruct (step_plain n k words v raw c E1 E2) as (v' & ->). by exists v'. }
  rewrite <- app_assoc, E1.
  destruct (IH n (k + line_feeds [c]) words v1 (raw ++ escape c) rest) as (v2 & E2).
  { rewrite length_app. lia. }
  exists v2. rewrite E2. by rewrite Z.add_assoc, <- app_assoc.
Qed.

(** Between two words, and behind a word. *)
Definition before_word (n k : Z) (words : list (list Z)) : locals :=
  mk_locals false true false false false false false n k words.
Definition behind_word (n k : Z) (words : list (list Z)) : locals :=
  mk_locals true false false false false false false n k words.

Lemma text_loop_quote n k words raw w rest :
  (length raw ≠ NGX_CONF_BUFFER) → word_fits w →
  ∃ raw', (length raw' < NGX_CONF_BUFFER - 1)%nat ∧
  text_loop alloc (before_word n k words) raw (quote w ++ rest) =
  text_loop alloc (behind_word k (k + line_feeds w) (words ++ [w])) raw' rest.
Proof.
  intros Hraw Hw. unfold word_fits in Hw. unfold quote. cbn [app text_loop].
  rewrite (proj2 (Nat.eqb_neq (length raw) _) Hraw).
  change (step alloc (before_word n k words) raw DQUOTE) with (Continue (in_quotes k k words false) Behind).
  cbn [raw_after]. rewrite <- app_assoc.
  destruct (text_loop_escaped w k k words false [] ([DQUOTE] ++ rest)) as (v & E); [cbn; lia|].
  rewrite E. cbn [app text_loop]. rewrite (proj2 (Nat.eqb_neq (length (escaped w)) _)) by lia.
  exists (escaped w ++ [DQUOTE]). split; [rewrite length_app; cbn; lia|].
  assert (step alloc (in_quotes k (k + line_feeds w) words v) (escaped w) DQUOTE =
    Continue (behind_word k (k + line_feeds w) (words ++ [w])) Keep) as ->; [|done].
  unfold step, step_char, step_word, word_end. cbn. rewrite !Halloc. cbn. by rewrite copy_escaped.
Qed.

Definition terminated (t rc : Z) : Prop :=
  t = ";"%ch ∧ rc = NGX_OK ∨ t = "{"%ch ∧ rc = NGX_CONF_BLOCK_START.

Lemma text_loop_words t rc ws : ∀ n k words raw rest,
  terminated t rc → ws ≠ [] → Forall word_fits ws → (length raw ≠ NGX_CONF_BUFFER) →
  text_loop alloc (before_word n k words) raw (words_text ws t ++ rest) =
  (rc, words ++ ws, k + line_feeds (concat ws), rest).
Proof.
  induction ws as [|w ws IH]; intros n k words raw rest Ht Hne Hws Hraw; [done|].
  inversion_clear Hws as [|?? Hw Hws'].
  assert (line_feeds (concat (w :: ws)) = line_feeds w + line_feeds (concat ws)) as ->.
  { unfold line_feeds. cbn [concat]. rewrite list.filter_app, length_app. lia. }
  destruct ws as [|w' ws].
  - cbn [words_text]. rewrite <- app_assoc.
    destruct (text_loop_quote n k words raw w ([t] ++ rest) Hraw Hw) as (raw' & Hl & ->).
    cbn [app text_loop]. rewrite (proj2 (Nat.eqb_neq (length raw') _)) by lia.
    unfold line_feeds at 2. cbn [concat filter]. rewrite Z.add_0_r.
    by destruct Ht as [[-> ->]|[-> ->]].
  - change (words_text (w :: w' :: ws) t) with (quote w ++ " "%ch :: words_text (w' :: ws) t).
    rewrite <- app_assoc.
    destruct (text_loop_quote n k words raw w (" "%ch :: words_text (w' :: ws) t ++ rest) Hraw Hw) as (raw' & Hl & E).
    cbn [app]. rewrite E. cbn [text_loop]. rewrite (proj2 (Nat.eqb_neq (length raw') _)) by lia.
    change (step alloc (behind_word k (k + line_feeds w) (words ++ [w])) raw' 32) with
      (Continue (before_word k (k + line_feeds w) (words ++ [w])) Keep).
    cbn [raw_after]. rewrite IH; [|done|done|done|rewrite length_app; cbn; lia].
    rewrite <- app_assoc. cbn [app]. by rewrite Z.add_assoc.
Qed.

(** A directive of quoted words is read as these words, whatever bytes they
    have. *)
Lemma read_text_words t rc ws line rest :
  terminated t rc → ws ≠ [] → Forall word_fits ws →
  read_text alloc line (words_text ws t ++ rest) = (rc, ws, line + line_feeds (concat ws), rest).
Proof.
  intros Ht Hne Hws. unfold read_text.
  apply (text_loop_words t rc ws line line [] []); [done..|]. unfold NGX_CONF_BUFFER. cbn [length]. lia.
Qed.
End Quotes.

(** ** At the edges *)

(** A comment that is longer than the buffer is refused as a parameter that is
    too long. *)
Lemma conf_long_comment alloc line c rest :
  Forall (λ c, c ≠ LF) c → (NGX_CONF_BUFFER ≤ length c)%nat →
  (read_text alloc line ("#"%ch :: c ++ rest)).1.1.1 = NGX_ERROR.
Proof.
  intros Hc Hl. unfold read_text. cbn [text_loop].
  rewrite (proj2 (Nat.eqb_neq (length (@nil Z)) _)) by (unfold NGX_CONF_BUFFER; cbn [length]; lia).
  change (step alloc (init line) [] 35) with (Continue ((init line) <| sharp_comment := true |>) Here).
  cbn [raw_after]. set (s := (init line) <| sharp_comment := true |>).
  assert (∀ raw, (length raw ≤ NGX_CONF_BUFFER)%nat → (NGX_CONF_BUFFER < length raw + length c)%nat →
    (text_loop alloc s raw (c ++ rest)).1.1.1 = NGX_ERROR) as H.
  { clear Hl. induction Hc as [|x c Hx Hc IH]; intros raw Hr Hrc; [cbn in Hrc; lia|].
    cbn [app text_loop]. destruct (Nat.eqb_spec (length raw) NGX_CONF_BUFFER) as [|Hne]; [done|].
    assert (step alloc s raw x = Continue s Keep) as ->.
    { unfold step. by rewrite (proj2 (Z.eqb_neq x LF) Hx). }
    apply IH; cbn [raw_after]; rewrite length_app; cbn [length] in *; lia. }
  apply H; cbn [length]; unfold NGX_CONF_BUFFER in *; lia.
Qed.

(** A variable in braces is not recognised at the beginning of a word: the
    brace opens a block. *)
Lemma conf_variable_start line rest :
  read_text (λ _, true) line (bs "${" ++ rest) = (NGX_CONF_BLOCK_START, [bs "$"], line, rest).
Proof. done. Qed.

Lemma conf_variable_inside line rest :
  read_text (λ _, true) line (bs "a${b};" ++ rest) = (NGX_OK, [bs "a${b}"], line, rest).
Proof. done. Qed.

(** ** An example *)

Definition example_text : list Z := bs "server { listen 80; }".
Definition example_read (o n : nat) : option (list Z) := Some (take n (drop o example_text)).
Definition example_file : ngx_conf_file_t := mk_file [] 0 NGX_CONF_BUFFER 0 (length example_text) 1.

Lemma example_holds : holds example_text example_file example_text.
Proof. constructor; [done|cbn; lia|cbn; lia|done]. Qed.
End ConfRead.
