(* ===== verification/ConfParse.v ===== *)
(** * The configuration file: blocks

    Parsing a file with nested blocks: it ends for every file, the buffer does
    not matter, and a configuration that was written is read back; the look-up
    of directives. *)

From S2P Require Import Prelude Conf ConfRead.

Module ConfParse.
Import Conf ConfRead.

(** ** A handler that collects the directives *)

Inductive directive : Type :=
  | Simple (words : list (list Z))
  | Block (words : list (list Z)) (body : list directive).

Section Tree.
Context {Place : Type} (read_token : Place → option (Z * list (list Z) * Place)).

(** A block is parsed by its handler, which calls [ngx_conf_parse] for it. *)
Definition tree_handler (block : Place → option (Z * Place * list directive))
    (rc : Z) (words : list (list Z)) (p : Place) (ds : list directive) :
    option (Z * Place * list directive) :=
  if rc =? NGX_CONF_BLOCK_START then
    '(rc, p, body) ← block p;
    if rc =? NGX_ERROR then Some (NGX_ERROR, p, ds) else Some (NGX_OK, p, ds ++ [Block words body])
  else Some (NGX_OK, p, ds ++ [Simple words]).

Fixpoint read_tree (fuel : nat) (type : parse_type) (p : Place) : option (Z * Place * list directive) :=
  match fuel with
  | O => None
  | S fuel => parse_loop read_token (tree_handler (read_tree fuel parse_block)) fuel type p []
  end.
End Tree.

(** ** The parser does not depend on how the text is read *)

Section Simulation.
Context {P1 P2 : Type} (read1 : P1 → option (Z * list (list Z) * P1))
  (read2 : P2 → option (Z * list (list Z) * P2)) (R : P1 → P2 → Prop).
Context (Hread : ∀ p1 p2 rc ws p2', R p1 p2 → read2 p2 = Some (rc, ws, p2') →
  ∃ p1', read1 p1 = Some (rc, ws, p1') ∧ (rc ≠ NGX_ERROR → R p1' p2')).

Definition simulates {W} (f1 : P1 → option (Z * P1 * W)) (f2 : P2 → option (Z * P2 * W)) : Prop :=
  ∀ p1 p2 rc p2' w, R p1 p2 → f2 p2 = Some (rc, p2', w) →
    ∃ p1', f1 p1 = Some (rc, p1', w) ∧ (rc ≠ NGX_ERROR → R p1' p2').

Lemma handler_simulates b1 b2 rc ws ds :
  simulates b1 b2 → simulates (λ p, tree_handler b1 rc ws p ds) (λ p, tree_handler b2 rc ws p ds).
Proof.
  intros Hb p1 p2 rc' p2' w HR. unfold tree_handler.
  destruct (rc =? NGX_CONF_BLOCK_START); [|intros [= <- <- <-]; by exists p1].
  destruct (b2 p2) as [[[rcb p2b] body]|] eqn:E; [|done]. cbn [mbind option_bind].
  destruct (Hb p1 p2 rcb p2b body HR E) as (p1b & -> & Hrel). cbn [mbind option_bind].
  destruct (Z.eqb_spec rcb NGX_ERROR); intros [= <- <- <-]; eexists; (split; [done|]); [done|].
  intros _. by apply Hrel.
Qed.

Lemma loop_simulates b1 b2 type : simulates b1 b2 →
  ∀ fuel ds, simulates (λ p, parse_loop read1 (tree_handler b1) fuel type p ds)
                       (λ p, parse_loop read2 (tree_handler b2) fuel type p ds).
Proof.
  intros Hb. induction fuel as [|fuel IH]; intros ds p1 p2 rc p2' w HR; [done|]. cbn [parse_loop].
  destruct (read2 p2) as [[[rct ws] p2t]|] eqn:E; [|done]. cbn [mbind option_bind].
  destruct (Hread _ _ _ _ _ HR E) as (p1t & -> & Hrel). cbn [mbind option_bind].
  destruct (Z.eqb_spec rct NGX_ERROR) as [->|Hne]; [intros [= <- <- <-]; by exists p1t|].
  specialize (Hrel Hne).
  assert (∀ b, (match type, b with parse_param, true => Some (NGX_ERROR, p2t, ds)
     | _, _ => '(rc, p, w) ← tree_handler b2 rct ws p2t ds;
               if rc =? NGX_ERROR then Some (NGX_ERROR, p, w)
               else parse_loop read2 (tree_handler b2) fuel type p w end) = Some (rc, p2', w) →
    ∃ p1', (match type, b with parse_param, true => Some (NGX_ERROR, p1t, ds)
     | _, _ => '(rc, p, w) ← tree_handler b1 rct ws p1t ds;
               if rc =? NGX_ERROR then Some (NGX_ERROR, p, w)
               else parse_loop read1 (tree_handler b1) fuel type p w end) = Some (rc, p1', w) ∧
      (rc ≠ NGX_ERROR → R p1' p2')) as Hdir.
  { intros b. assert (('(rc, p, w) ← tree_handler b2 rct ws p2t ds;
        if rc =? NGX_ERROR then Some (NGX_ERROR, p, w)
        else parse_loop read2 (tree_handler b2) fuel type p w) = Some (rc, p2', w) →
      ∃ p1', ('(rc, p, w) ← tree_handler b1 rct ws p1t ds;
        if rc =? NGX_ERROR then Some (NGX_ERROR, p, w)
        else parse_loop read1 (tree_handler b1) fuel type p w) = Some (rc, p1', w) ∧
        (rc ≠ NGX_ERROR → R p1' p2')) as H.
    { destruct (tree_handler b2 rct ws p2t ds) as [[[rch p2h] dsh]|] eqn:Eh; [|done]. cbn [mbind option_bind].
      destruct (handler_simulates b1 b2 rct ws ds Hb _ _ _ _ _ Hrel Eh) as (p1h & -> & Hrelh).
      cbn [mbind option_bind]. destruct (Z.eqb_spec rch NGX_ERROR); [intros [= <- <- <-]; by exists p1h|].
      intros H. exact (IH dsh _ _ _ _ _ (Hrelh n) H). }
    destruct type, b; try exact H. intros [= <- <- <-]. by exists p1t. }
  destruct (rct =? NGX_CONF_BLOCK_DONE); [destruct type; intros [= <- <- <-]; by exists p1t|].
  destruct (rct =? NGX_CONF_FILE_DONE); [destruct type; intros [= <- <- <-]; by exists p1t|].
  apply Hdir.
Qed.

Lemma tree_simulates fuel : ∀ type, simulates (read_tree read1 fuel type) (read_tree read2 fuel type).
Proof.
  induction fuel as [|fuel IH]; intros type p1 p2 rc p2' w HR; [done|].
  apply (loop_simulates _ _ type (IH parse_block) fuel [] p1 p2 rc p2' w HR).
Qed.
End Simulation.

(** ** Parsing the text *)

Definition place := (Z * list Z)%type.
Definition text_token (alloc : nat → bool) (p : place) : option (Z * list (list Z) * place) :=
  let '(rc, words, ln, rest) := read_text alloc p.1 p.2 in Some (rc, words, (ln, rest)).

Section Total.
Context (alloc : nat → bool).

Lemma text_loop_length input : ∀ s raw,
  let '(rc, _, _, rest) := text_loop alloc s raw input in
  (length rest ≤ length input)%nat ∧
  (rc = NGX_ERROR ∨ rc = NGX_CONF_FILE_DONE ∨ (length rest < length input)%nat).
Proof.
  induction input as [|ch input IH]; intros s raw; cbn [text_loop].
  { unfold at_end. destruct (_ || _); auto. }
  destruct (length raw =? NGX_CONF_BUFFER)%nat; [auto|].
  destruct (step alloc s raw ch) as [rc s'|s' at_]; [cbn [length]; lia|].
  specialize (IH s' (raw_after raw ch at_)). destruct (text_loop alloc s' _ input) as [[[rc ws] ln] rest].
  cbn [length]. destruct IH as [? [?|[?|?]]]; lia.
Qed.

Lemma tree_total fuel : ∀ type p, (length p.2 + 2 ≤ fuel)%nat →
  ∃ rc p' ds, read_tree (text_token alloc) fuel type p = Some (rc, p', ds) ∧
    (length p'.2 ≤ length p.2)%nat ∧
    (rc = NGX_ERROR ∨ rc = NGX_CONF_FILE_DONE ∨ rc = NGX_CONF_BLOCK_DONE).
Proof.
  induction fuel as [|fuel IH]; intros type p Hp; [lia|]. cbn [read_tree].
  assert (∀ fl p ds, (length p.2 < fl)%nat → (length p.2 < fuel)%nat →
    ∃ rc p' ds', parse_loop (text_token alloc) (tree_handler (read_tree (text_token alloc) fuel parse_block))
        fl type p ds = Some (rc, p', ds') ∧ (length p'.2 ≤ length p.2)%nat ∧
      (rc = NGX_ERROR ∨ rc = NGX_CONF_FILE_DONE ∨ rc = NGX_CONF_BLOCK_DONE)) as Hloop.
  { clear p Hp. induction fl as [|fl IHl]; intros p ds Hfl Hfuel; [lia|]. cbn [parse_loop].
    pose proof (text_loop_length p.2 (init p.1) []) as Hlen.
    assert (∃ rct ws ln rest, text_loop alloc (init p.1) [] p.2 = (rct, ws, ln, rest)) as (rct & ws & ln & rest & Et).
    { destruct (text_loop alloc (init p.1) [] p.2) as [[[??]?]?]. eauto. }
    rewrite Et in Hlen.
    assert (text_token alloc p = Some (rct, ws, (ln, rest))) as ->.
    { unfold text_token, read_text. by rewrite Et. }
    cbn [mbind option_bind].
    destruct Hlen as [Hle Hlt].
    destruct (Z.eqb_spec rct NGX_ERROR) as [->|Hne]; [do 3 eexists; split; [done|]; cbn; auto|].
    destruct (Z.eqb_spec rct NGX_CONF_BLOCK_DONE) as [->|Hnd].
    { destruct type; do 3 eexists; (split; [done|]); cbn; auto. }
    destruct (Z.eqb_spec rct NGX_CONF_FILE_DONE) as [->|Hnf].
    { destruct type; do 3 eexists; (split; [done|]); cbn; auto. }
    assert (length rest < length p.2)%nat as Hrest by tauto.
    assert (∃ rch (ph : place) dsh, tree_handler (read_tree (text_token alloc) fuel parse_block) rct ws
      (ln, rest) ds = Some (rch, ph, dsh) ∧ (length ph.2 ≤ length rest)%nat) as (rch & ph & dsh & Eh & Hh).
    { unfold tree_handler. destruct (rct =? NGX_CONF_BLOCK_START).
      - destruct (IH parse_block (ln, rest)) as (rcb & pb & body & -> & Hb & _); [cbn [snd]; lia|].
        cbn [mbind option_bind]. destruct (rcb =? NGX_ERROR); do 3 eexists; (split; [done|exact Hb]).
      - do 3 eexists. split; [done|]. cbn. lia. }
    rewrite Eh. cbn [mbind option_bind].
    assert (∃ rc p' ds', (if rch =? NGX_ERROR then Some (NGX_ERROR, ph, dsh)
        else parse_loop (text_token alloc) (tree_handler (read_tree (text_token alloc) fuel parse_block))
               fl type ph dsh) = Some (rc, p', ds') ∧ (length p'.2 ≤ length p.2)%nat ∧
      (rc = NGX_ERROR ∨ rc = NGX_CONF_FILE_DONE ∨ rc = NGX_CONF_BLOCK_DONE)) as Hend.
    { destruct (rch =? NGX_ERROR); [do 3 eexists; split; [done|]; split; [lia|auto]|].
      destruct (IHl ph dsh) as (rc & p' & ds' & E & Hl & Hrc); [lia..|].
      do 3 eexists. split; [exact E|]. split; [lia|done]. }
    destruct type, (rct =? NGX_CONF_BLOCK_START); try exact Hend.
    do 3 eexists. split; [done|]. cbn. split; [lia|auto]. }
  apply Hloop; lia.
Qed.
End Total.

(** ** Writing a configuration *)

Fixpoint print (d : directive) : list Z :=
  match d with
  | Simple words => words_text words ";"%ch
  | Block words body => words_text words "{"%ch ++ concat (print <$> body) ++ [ "}"%ch ]
  end.
Definition prints (ds : list directive) : list Z := concat (print <$> ds).

(** Directives have words, and the words fit into the buffer. *)
Fixpoint printable (d : directive) : Prop :=
  match d with
  | Simple words => words ≠ [] ∧ Forall word_fits words
  | Block words body => words ≠ [] ∧ Forall word_fits words ∧ fold_right (λ d P, printable d ∧ P) True body
  end.
Definition all_printable (ds : list directive) : Prop := fold_right (λ d P, printable d ∧ P) True ds.

(** The line feeds in the words. *)
Fixpoint lines_of (d : directive) : Z :=
  match d with
  | Simple words => line_feeds (concat words)
  | Block words body => line_feeds (concat words) + fold_right (λ d n, lines_of d + n) 0 body
  end.
Definition all_lines (ds : list directive) : Z := fold_right (λ d n, lines_of d + n) 0 ds.

(** The turns a parser needs. *)
Fixpoint turns (d : directive) : nat :=
  match d with
  | Simple _ => 1%nat
  | Block _ body => (2 + fold_right (λ d n, turns d + n) 0 body)%nat
  end.
Definition all_turns (ds : list directive) : nat := fold_right (λ d n, turns d + n)%nat 0%nat ds.

Lemma all_turns_length ds : (length ds ≤ all_turns ds)%nat.
Proof.
  induction ds as [|d ds IH]; [done|]. change (all_turns (d :: ds)) with (turns d + all_turns ds)%nat.
  destruct d; cbn [length turns]; lia.
Qed.

Section Print.
Context (alloc : nat → bool) (Halloc : ∀ k, alloc k = true).

Notation loop fb fl type p ds :=
  (parse_loop (text_token alloc) (tree_handler (read_tree (text_token alloc) fb parse_block)) fl type p ds).

Lemma token_words t rc ws ln rest :
  terminated t rc → ws ≠ [] → Forall word_fits ws →
  text_token alloc (ln, words_text ws t ++ rest) = Some (rc, ws, (ln + line_feeds (concat ws), rest)).
Proof. intros Ht Hne Hw. unfold text_token. cbn [fst snd]. by rewrite (read_text_words alloc Halloc t rc). Qed.

Lemma loop_print n : ∀ ds fb fl type ln tail acc,
  (all_turns ds ≤ n)%nat → all_printable ds → (all_turns ds ≤ fb)%nat → type ≠ parse_param →
  loop fb (length ds + fl) type (ln, prints ds ++ tail) acc =
  loop fb fl type (ln + all_lines ds, tail) (acc ++ ds).
Proof.
  induction n as [|n IH]; intros [|d ds] fb fl type ln tail acc Hn Hp Hfb Ht.
  1, 3: by rewrite app_nil_r; unfold all_lines; cbn [fold_right length prints fmap list_fmap concat app];
    rewrite Z.add_0_r.
  { pose proof (all_turns_length (d :: ds)). cbn in *. lia. }
  destruct Hp as [Hd Hp]. cbn [length Nat.add]. cbn [parse_loop].
  change (prints (d :: ds)) with (print d ++ prints ds).
  change (all_lines (d :: ds)) with (lines_of d + all_lines ds).
  change (all_turns (d :: ds)) with (turns d + all_turns ds)%nat in *. rewrite <- app_assoc.
  assert (∀ ln', loop fb (length ds + fl) type (ln', prints ds ++ tail) (acc ++ [d]) =
    loop fb fl type (ln' + all_lines ds, tail) (acc ++ d :: ds)) as Hrest.
  { intros ln'. rewrite (IH ds) by (try done; destruct d; cbn [turns] in *; lia). by rewrite <- app_assoc. }
  destruct d as [ws|ws body].
  - destruct Hd as [Hne Hw]. cbn [print lines_of].
    rewrite (token_words _ NGX_OK) by (try done; by left). cbn [mbind option_bind].
    rewrite Z.add_assoc, <- Hrest. by destruct type.
  - destruct Hd as (Hne & Hw & Hb). fold (all_printable body) in Hb. cbn [print lines_of turns] in *.
    fold (prints body) (all_lines body) (all_turns body) in *. rewrite <- !app_assoc.
    rewrite (token_words _ NGX_CONF_BLOCK_START) by (try done; by right). cbn [mbind option_bind].
    assert (read_tree (text_token alloc) fb parse_block
      (ln + line_feeds (concat ws), prints body ++ ["}"%ch] ++ prints ds ++ tail) =
      Some (NGX_CONF_BLOCK_DONE, (ln + line_feeds (concat ws) + all_lines body, prints ds ++ tail), body)) as Eb.
    { destruct fb as [|fb]; [lia|]. cbn [read_tree].
      pose proof (all_turns_length body) as Hlen.
      replace fb with (length body + S (fb - length body - 1))%nat at 2 by lia.
      rewrite (IH body) by (try done; lia). cbn [parse_loop app]. unfold text_token at 1, read_text.
      cbn [fst snd text_loop]. done. }
    assert (∀ p acc, p = (ln + line_feeds (concat ws), prints body ++ ["}"%ch] ++ prints ds ++ tail) →
      tree_handler (read_tree (text_token alloc) fb parse_block) NGX_CONF_BLOCK_START ws p acc =
      Some (NGX_OK, (ln + line_feeds (concat ws) + all_lines body, prints ds ++ tail), acc ++ [Block ws body]))
      as Eh.
    { intros p acc' ->. unfold tree_handler. by rewrite Eb. }
    rewrite Eh by done. cbn [mbind option_bind].
    replace (ln + (line_feeds (concat ws) + all_lines body + all_lines ds)) with
      (ln + line_feeds (concat ws) + all_lines body + all_lines ds) by lia.
    rewrite <- Hrest. by destruct type.
Qed.

Lemma tree_print fuel ln ds :
  all_printable ds → (all_turns ds + 1 < fuel)%nat →
  read_tree (text_token alloc) fuel parse_file (ln, prints ds) =
  Some (NGX_CONF_FILE_DONE, (ln + all_lines ds, []), ds).
Proof.
  intros Hp Hf. destruct fuel as [|fuel]; [lia|]. cbn [read_tree].
  pose proof (all_turns_length ds) as Hlen.
  replace fuel with (length ds + S (fuel - length ds - 1))%nat at 2 by lia.
  rewrite <- (app_nil_r (prints ds)). by rewrite (loop_print (all_turns ds)) by (try done; lia).
Qed.
End Print.

(** ** Parsing a file *)

Section File.
Context (alloc : nat → bool) (ngx_read_file : nat → nat → option (list Z)) (content : list Z).
Context (Hread : ∀ o n, (o + n ≤ length content)%nat → ngx_read_file o n = Some (take n (drop o content))).

Definition stands_at (f : ngx_conf_file_t) (p : place) : Prop :=
  holds content f p.2 ∧ file_line f = p.1.

Lemma token_simulates p1 p2 rc ws p2' :
  stands_at p1 p2 → text_token alloc p2 = Some (rc, ws, p2') →
  ∃ p1', ngx_conf_read_token alloc ngx_read_file p1 = Some (rc, ws, p1') ∧
    (rc ≠ NGX_ERROR → stands_at p1' p2').
Proof.
  intros [Hh Hl]. unfold text_token. pose proof (read_token_text alloc ngx_read_file content Hread p1 p2.2 Hh) as H.
  rewrite Hl in H. destruct (read_text alloc p2.1 p2.2) as [[[rc' ws'] ln] rest].
  intros [= <- <- <-]. exact H.
Qed.

(** C3: Parsing a file with its nested blocks through the buffer of
    [NGX_CONF_BUFFER] bytes ends, and gives what parsing its text gives: the
    result, the directives, the line and the place; no read is behind the
    buffer. *)
Theorem conf_parse_refines fuel type f input :
  holds content f input → (length input + 2 ≤ fuel)%nat →
  ∃ rc ln rest ds f',
    read_tree (text_token alloc) fuel type (file_line f, input) = Some (rc, (ln, rest), ds) ∧
    read_tree (ngx_conf_read_token alloc ngx_read_file) fuel type f = Some (rc, f', ds) ∧
    (rc = NGX_ERROR ∨ (rc = NGX_CONF_FILE_DONE ∨ rc = NGX_CONF_BLOCK_DONE) ∧
       holds content f' rest ∧ file_line f' = ln).
Proof.
  intros Hh Hf. destruct (tree_total alloc fuel type (file_line f, input) Hf) as (rc & [ln rest] & ds & E & _ & Hrc).
  destruct (tree_simulates _ _ stands_at token_simulates fuel type f (file_line f, input) rc (ln, rest) ds)
    as (f' & E' & Hst); [by split|done|].
  exists rc, ln, rest, ds, f'. split; [done|]. split; [done|].
  destruct (decide (rc = NGX_ERROR)) as [|Hne]; [by left|right]. split; [tauto|].
  by apply Hst.
Qed.

(** C9: A configuration that is written with its words in quotes is read back
    from the file: the same directives with the same words, whatever bytes they
    have, and the same blocks, and the line count is right. *)
Theorem conf_roundtrip fuel f ds :
  (∀ k, alloc k = true) → holds content f (prints ds) → all_printable ds →
  (all_turns ds + 1 < fuel)%nat →
  ∃ f', read_tree (ngx_conf_read_token alloc ngx_read_file) fuel parse_file f =
          Some (NGX_CONF_FILE_DONE, f', ds) ∧
    file_line f' = file_line f + all_lines ds.
Proof.
  intros Ha Hh Hp Hf.
  destruct (tree_simulates _ _ stands_at token_simulates fuel parse_file f (file_line f, prints ds)
    NGX_CONF_FILE_DONE (file_line f + all_lines ds, []) ds) as (f' & E & Hst);
    [by split|by apply tree_print|].
  exists f'. split; [done|]. by apply Hst.
Qed.
End File.

(** ** Witnesses *)

Lemma conf_parse_refines_witness :
  ∃ f, read_tree (ngx_conf_read_token (λ _, true) example_read) 23 parse_file example_file =
    Some (NGX_CONF_FILE_DONE, f, [Block [bs "server"] [Simple [bs "listen"; bs "80"]]]).
Proof.
  destruct (conf_parse_refines (λ _, true) example_read example_text ltac:(done) 23 parse_file example_file
    example_text example_holds ltac:(cbn; lia)) as (rc & ln & rest & ds & f & E1 & E2 & _).
  exists f.
  assert ((rc, ds) = (NGX_CONF_FILE_DONE, [Block [bs "server"] [Simple [bs "listen"; bs "80"]]])) as [= -> ->].
  { enough (Some (rc, (ln, rest), ds) = Some (NGX_CONF_FILE_DONE, (1, []),
      [Block [bs "server"] [Simple [bs "listen"; bs "80"]]])) as [= -> -> -> ->] by done.
    rewrite <- E1. vm_compute. reflexivity. }
  exact E2.
Defined.

Definition example_tree : list directive := [Block [bs "a"] [Simple [[LF; DQUOTE]; bs "{"]]; Simple [[]]].
Definition example_tree_read (o n : nat) : option (list Z) := Some (take n (drop o (prints example_tree))).

Lemma conf_roundtrip_witness :
  ∃ f, read_tree (ngx_conf_read_token (λ _, true) example_tree_read) 7 parse_file
         (mk_file [] 0 NGX_CONF_BUFFER 0 (length (prints example_tree)) 1) =
    Some (NGX_CONF_FILE_DONE, f, example_tree) ∧ file_line f = 2.
Proof.
  assert (∀ w, (length (escaped w) ≤ 10)%nat → word_fits w) as Hfit.
  { intros w Hw. unfold word_fits, NGX_CONF_BUFFER. lia. }
  apply (conf_roundtrip (λ _, true) example_tree_read (prints example_tree) ltac:(done) 7
    (mk_file [] 0 NGX_CONF_BUFFER 0 (length (prints example_tree)) 1) example_tree).
  - done.
  - constructor; [done|cbn; lia|cbn; lia|done].
  - cbn. repeat split; try done; repeat (apply list.Forall_cons; split; [apply Hfit; cbn; lia|]); by apply list.Forall_nil.
  - cbn. lia.
Defined.
End ConfParse.
