(* ===== verification/ConfSlots.v ===== *)
(** * The configuration file: directives

    src/core/ngx_conf_file.c: the functions that set a field of a
    configuration from the words of a directive, and what [ngx_conf_handler]
    and they do. *)

From S2P Require Import Prelude Number StringOps Conf.

Module ConfSlots.
Import Conf.

(** What a function of a directive returns: [NULL], [NGX_CONF_ERROR], or the
    text of an error. *)
Inductive result := NGX_CONF_OK | NGX_CONF_ERROR | Text (s : list Z).

Abbreviation NGX_CONF_UNSET := (-1).
Abbreviation NGX_CONF_UNSET_UINT := 18446744073709551615.
Definition is_duplicate : result := Text (bs "is duplicate").
Definition invalid_value : result := Text (bs "invalid value").

(** The words are terminated by a null character in memory. *)
Definition same_text (w name : list Z) : option bool :=
  d ← StringOps.ngx_strcasecmp (w ++ [NUL]) (name ++ [NUL]); Some (d =? 0).

(** [return post->post_handler(cf, post, field)] if there is a handler: it may
    change the field. *)
Definition call_post {A} (post : option (A → result * A)) (x : A) : result * A :=
  match post with Some f => f x | None => (NGX_CONF_OK, x) end.

(** The functions get the words and the field, and give what they return and
    the field; [None] is a word that is not there. *)
Definition ngx_conf_set_flag_slot (post : option (Z → result * Z)) (words : list (list Z)) (fp : Z) :
    option (result * Z) :=
  if negb (fp =? NGX_CONF_UNSET) then Some (is_duplicate, fp)
  else
    value ← words !! 1%nat;
    on ← same_text value (bs "on");
    if on : bool then Some (call_post post 1)
    else
      off ← same_text value (bs "off");
      if off : bool then Some (call_post post 0) else Some (NGX_CONF_ERROR, fp).

Definition ngx_conf_set_str_slot (post : option (option (list Z) → result * option (list Z)))
    (words : list (list Z)) (field : option (list Z)) : option (result * option (list Z)) :=
  match field with
  | Some _ => Some (is_duplicate, field)
  | None => value ← words !! 1%nat; Some (call_post post (Some value))
  end.

(** [alloc] says which of the allocations succeed: of the array, which is
    [None] before the first value, and of the element. *)
Definition ngx_conf_set_str_array_slot (alloc : bool * bool) (post : option (list Z → result * list Z))
    (words : list (list Z)) (a : option (list (list Z))) : option (result * option (list (list Z))) :=
  if bool_decide (a = None) && negb alloc.1 then Some (NGX_CONF_ERROR, a)
  else
    let elts := default [] a in
    if negb alloc.2 then Some (NGX_CONF_ERROR, Some elts)
    else
      value ← words !! 1%nat;
      let '(rv, s) := call_post post value in Some (rv, Some (elts ++ [s])).

Definition ngx_conf_set_keyval_slot (alloc : bool * bool)
    (post : option (list Z * list Z → result * (list Z * list Z)))
    (words : list (list Z)) (a : option (list (list Z * list Z))) :
    option (result * option (list (list Z * list Z))) :=
  if bool_decide (a = None) && negb alloc.1 then Some (NGX_CONF_ERROR, a)
  else
    let elts := default [] a in
    if negb alloc.2 then Some (NGX_CONF_ERROR, Some elts)
    else
      key ← words !! 1%nat;
      value ← words !! 2%nat;
      let '(rv, kv) := call_post post (key, value) in Some (rv, Some (elts ++ [kv])).

Definition ngx_conf_set_num_slot (post : option (Z → result * Z)) (words : list (list Z)) (np : Z) :
    option (result * Z) :=
  if negb (np =? NGX_CONF_UNSET) then Some (is_duplicate, np)
  else
    value ← words !! 1%nat;
    let np := Number.ngx_atoi value in
    if np =? NGX_ERROR then Some (Text (bs "invalid number"), np) else Some (call_post post np).

Definition ngx_conf_set_size_slot (post : option (Z → result * Z)) (words : list (list Z)) (sp : Z) :
    option (result * Z) :=
  if negb (sp =? NGX_CONF_UNSET_UINT) then Some (is_duplicate, sp)
  else
    value ← words !! 1%nat;
    let sp := u64 (Number.ngx_parse_size value) in
    if sp =? u64 NGX_ERROR then Some (invalid_value, sp) else Some (call_post post sp).

Definition ngx_conf_set_off_slot (post : option (Z → result * Z)) (words : list (list Z)) (op : Z) :
    option (result * Z) :=
  if negb (op =? NGX_CONF_UNSET) then Some (is_duplicate, op)
  else
    value ← words !! 1%nat;
    let op := Number.ngx_parse_offset value in
    if op =? NGX_ERROR then Some (invalid_value, op) else Some (call_post post op).

Definition ngx_conf_set_msec_slot (post : option (Z → result * Z)) (words : list (list Z)) (msp : Z) :
    option (result * Z) :=
  if negb (msp =? NGX_CONF_UNSET_UINT) then Some (is_duplicate, msp)
  else
    value ← words !! 1%nat;
    let msp := u64 (Number.ngx_parse_time value NUL false) in
    if msp =? u64 NGX_ERROR then Some (invalid_value, msp) else Some (call_post post msp).

Definition ngx_conf_set_sec_slot (post : option (Z → result * Z)) (words : list (list Z)) (sp : Z) :
    option (result * Z) :=
  if negb (sp =? NGX_CONF_UNSET) then Some (is_duplicate, sp)
  else
    value ← words !! 1%nat;
    let sp := Number.ngx_parse_time value NUL true in
    if sp =? NGX_ERROR then Some (invalid_value, sp) else Some (call_post post sp).

Record ngx_bufs_t := mk_bufs { num : Z; size : Z }.

Definition ngx_conf_set_bufs_slot (words : list (list Z)) (bufs : ngx_bufs_t) : option (result * ngx_bufs_t) :=
  if negb (num bufs =? 0) then Some (is_duplicate, bufs)
  else
    value ← words !! 1%nat;
    let n := Number.ngx_atoi value in
    if (n =? NGX_ERROR) || (n =? 0) then Some (invalid_value, mk_bufs n (size bufs))
    else
      value ← words !! 2%nat;
      let sz := u64 (Number.ngx_parse_size value) in
      if (sz =? u64 NGX_ERROR) || (sz =? 0) then Some (invalid_value, mk_bufs n sz)
      else Some (NGX_CONF_OK, mk_bufs n sz).

(** [for (i = 0; e[i].name.len != 0; i++)]: the value of the first name that is
    the word; the table ends with an empty name. *)
Fixpoint table_find (e : list (list Z * Z)) (w : list Z) : option (option Z) :=
  match e with
  | [] => None
  | (name, v) :: e =>
      if (length name =? 0)%nat then Some None
      else if negb (length name =? length w)%nat then table_find e w
      else
        same ← same_text name w;
        if same : bool then Some (Some v) else table_find e w
  end.

Definition ngx_conf_set_enum_slot (e : list (list Z * Z)) (words : list (list Z)) (np : Z) :
    option (result * Z) :=
  if negb (np =? NGX_CONF_UNSET_UINT) then Some (is_duplicate, np)
  else
    value ← words !! 1%nat;
    found ← table_find e value;
    match found with
    | Some v => Some (NGX_CONF_OK, v)
    | None => Some (NGX_CONF_ERROR, np)
    end.

(** [for (i = 1; i < cf->args->nelts; i++)]: [values] are the words from the
    [i]-th on. *)
Fixpoint bitmask_loop (mask : list (list Z * Z)) (values : list (list Z)) (np : Z) : option (result * Z) :=
  match values with
  | [] => Some (NGX_CONF_OK, np)
  | value :: values =>
      found ← table_find mask value;
      match found with
      | Some m => bitmask_loop mask values (if negb (Z.land np m =? 0) then np else Z.lor np m)
      | None => Some (NGX_CONF_ERROR, np)
      end
  end.
Definition ngx_conf_set_bitmask_slot (mask : list (list Z * Z)) (words : list (list Z)) (np : Z) :
    option (result * Z) :=
  bitmask_loop mask (tail words) np.

Record ngx_conf_num_bounds_t := mk_bounds { low : Z; high : Z }.

Definition ngx_conf_check_num_bounds (bounds : ngx_conf_num_bounds_t) (np : Z) : result * Z :=
  if high bounds =? -1 then (if low bounds <=? np then NGX_CONF_OK else NGX_CONF_ERROR, np)
  else (if (low bounds <=? np) && (np <=? high bounds) then NGX_CONF_OK else NGX_CONF_ERROR, np).

(** ** The look-up of a directive *)

Section Handler.
Context (cf_module_type cf_cmd_type : Z) (ctx : bool) (confp : Z → bool).

(** The commands of a module up to the one without a name, and those of the
    modules that belong to the file, with their modules. *)
Fixpoint named (cmds : list ngx_command_t) : list ngx_command_t :=
  match cmds with
  | [] => []
  | cmd :: cmds => if (length (name cmd) =? 0)%nat then [] else cmd :: named cmds
  end.
Definition belongs (m : ngx_module_t) : bool :=
  (module_type m =? NGX_CONF_MODULE) || (module_type m =? cf_module_type).
Definition candidates (w : option (list Z)) (modules : list ngx_module_t) : list (ngx_module_t * ngx_command_t) :=
  m ← filter belongs modules;
  cmd ← filter (λ cmd, w = Some (name cmd)) (named (default [] (commands m)));
  [(m, cmd)].

(** The directive may be here, or must be here as it cannot be at two
    places. *)
Definition decisive (c : ngx_module_t * ngx_command_t) : bool :=
  flag (type c.2) cf_cmd_type || negb (flag (type c.2) NGX_CONF_MULTI).

(** The bits of the type that say how many arguments there may be: any number,
    one ("on" or "off"), one or more, two or more, or one of the numbers up to
    seven that have their bits. *)
Definition takes (type : Z) (arguments : nat) : bool :=
  if Z.testbit type 10 then true
  else if Z.testbit type 9 then (arguments =? 1)%nat
  else if Z.testbit type 11 then (1 <=? arguments)%nat
  else if Z.testbit type 12 then (2 <=? arguments)%nat
  else (arguments <=? 7)%nat && Z.testbit type (Z.of_nat arguments).

Definition allowed (last : Z) (n : nat) (cmd : ngx_command_t) : bool :=
  flag (type cmd) cf_cmd_type &&
  (last =? (if flag (type cmd) NGX_CONF_BLOCK then NGX_CONF_BLOCK_START else NGX_OK)) &&
  takes (type cmd) (n - 1).

Lemma flag_bit x k : 0 ≤ k → flag x (2 ^ k) = Z.testbit x k.
Proof.
  intros Hk. unfold flag. destruct (Z.testbit x k) eqn:E.
  - apply negb_true_iff, Z.eqb_neq. intros H. apply (f_equal (λ y, Z.testbit y k)) in H.
    by rewrite Z.land_spec, E, Z.pow2_bits_true, Z.bits_0 in H.
  - apply negb_false_iff, Z.eqb_eq, Z.bits_inj'. intros i Hi.
    rewrite Z.land_spec, Z.pow2_bits_eqb, Z.bits_0 by done. destruct (Z.eqb_spec k i) as [<-|].
    + by rewrite E.
    + apply andb_false_r.
Qed.

Lemma argument_count_takes type n : (0 < n)%nat → argument_count_ok type n = takes type (n - 1).
Proof.
  intros Hn. unfold argument_count_ok, takes.
  change NGX_CONF_ANY with (2 ^ 10). change NGX_CONF_FLAG with (2 ^ 9).
  change NGX_CONF_1MORE with (2 ^ 11). change NGX_CONF_2MORE with (2 ^ 12). rewrite !flag_bit by done.
  destruct (Z.testbit type 10); [done|]. destruct (Z.testbit type 9).
  { by destruct n as [|[|[]]]. }
  destruct (Z.testbit type 11); [by destruct n as [|[]]|].
  destruct (Z.testbit type 12); [by destruct n as [|[|[]]]|].
  destruct n as [|n]; [lia|]. rewrite Nat.sub_1_r. cbn [pred].
  do 8 (destruct n as [|n]; [rewrite <- flag_bit by lia; done|]).
  done.
Qed.

Definition chosen (words : list (list Z)) (modules : list ngx_module_t) :
    option (ngx_module_t * ngx_command_t) :=
  head (filter decisive (candidates (head words) modules)).

Lemma candidates_cons w m modules :
  candidates w (m :: modules) =
  (if belongs m then pair m <$> filter (λ cmd, w = Some (name cmd)) (named (default [] (commands m))) else []) ++
  candidates w modules.
Proof.
  unfold candidates. destruct (belongs m) eqn:E.
  - by rewrite filter_cons_True, bind_cons by by rewrite E.
  - rewrite filter_cons_False; [done|]. rewrite E. tauto.
Qed.

Lemma find_command_spec m words last cmds rest :
  last = NGX_OK ∨ last = NGX_CONF_BLOCK_START →
  (0 < length words)%nat →
  (match find_command cf_cmd_type ctx confp m words last cmds with
   | NotHere => rest
   | r => r
   end) =
  match head (filter decisive (pair m <$> filter (λ cmd, head words = Some (name cmd)) (named cmds))) with
  | None => rest
  | Some (m, cmd) => if allowed last (length words) cmd then Call (set cmd) (conf_of ctx confp m cmd) else Refused
  end.
Proof.
  intros Hlast Hn. induction cmds as [|cmd cmds IH]; [done|]. cbn [find_command named].
  destruct (length (name cmd) =? 0)%nat; [done|].
  destruct (decide (head words = Some (name cmd))) as [Hw|Hw].
  2: { rewrite bool_decide_eq_false_2, filter_cons_False by done. exact IH. }
  rewrite bool_decide_eq_true_2, filter_cons_True by done. cbn [negb]. rewrite fmap_cons.
  set (cs := filter (λ cmd, head words = Some (name cmd)) (named cmds)) in *.
  destruct (flag (type cmd) cf_cmd_type) eqn:Ef; cbn [negb].
  - rewrite filter_cons_True by (unfold decisive; cbn; by rewrite Ef). cbn [head].
    unfold allowed. rewrite Ef, <- argument_count_takes by done.
    destruct (flag (type cmd) NGX_CONF_BLOCK), Hlast as [->| ->]; cbn [negb andb];
      by destruct (argument_count_ok (type cmd) (length words)).
  - destruct (flag (type cmd) NGX_CONF_MULTI) eqn:Em.
    + rewrite filter_cons_False by (unfold decisive; cbn; rewrite Ef, Em; tauto). exact IH.
    + rewrite filter_cons_True by (unfold decisive; cbn; by rewrite Ef, Em). cbn [head].
      unfold allowed. by rewrite Ef.
Qed.

(** The function of a directive is called if and only if the first command
    with its name, in the order of the modules and among the modules of the
    file, that is allowed at this place or cannot be at several places, is
    allowed here, takes a block if and only if there is one, and takes that
    many words; it gets the configuration of its module.  All else is an
    error. *)
Theorem conf_handler_first modules words last :
  last = NGX_OK ∨ last = NGX_CONF_BLOCK_START →
  words ≠ [] →
  ngx_conf_handler cf_module_type cf_cmd_type ctx confp modules words last =
  match chosen words modules with
  | Some (m, cmd) =>
      if allowed last (length words) cmd then Call (set cmd) (conf_of ctx confp m cmd) else Refused
  | None => Refused
  end.
Proof.
  intros Hlast Hne. unfold chosen. induction modules as [|m modules IH]; [done|].
  rewrite candidates_cons. cbn [ngx_conf_handler].
  assert (negb (module_type m =? NGX_CONF_MODULE) && negb (module_type m =? cf_module_type) =
    negb (belongs m)) as -> by (unfold belongs; by rewrite negb_orb).
  destruct (belongs m); [|exact IH]. cbn [negb].
  rewrite list.filter_app. destruct (commands m) as [cmds|]; [|exact IH]. change (default [] (Some cmds)) with cmds.
  rewrite find_command_spec by (done || (destruct words; cbn; [done|lia])). rewrite IH.
  match goal with |- context [head (?l ++ _)] => by destruct l as [|[??] ?] end.
Qed.
End Handler.

(** ** Sets of bits *)

Abbreviation no_nul := (Forall (λ c, is_byte c ∧ c ≠ NUL)).
Definition known (mask : list (list Z * Z)) (w : list Z) : option Z :=
  snd <$> head (filter (λ e, ngx_tolower <$> e.1 = ngx_tolower <$> w) mask).

Lemma same_text_spec name w : no_nul name → bytes w → length name = length w →
  same_text name w = Some (bool_decide (ngx_tolower <$> name = ngx_tolower <$> w)).
Proof.
  unfold same_text. intros Hn. revert w. induction Hn as [|c name [Hc Hc0] Hn IH]; intros [|d w] Hw Hl;
    [done..|]. apply list.Forall_cons in Hw as [Hd Hw]. injection Hl as Hl. cbn [app StringOps.ngx_strcasecmp].
  assert (ngx_tolower c ≠ 0) as Hlc by by rewrite StringOps.lower_nul.
  rewrite !fmap_cons. destruct (Z.eqb_spec (ngx_tolower c) (ngx_tolower d)) as [E|E].
  - rewrite (proj2 (Z.eqb_neq _ _) Hlc), (IH w Hw Hl). f_equal. rewrite E.
    apply bool_decide_ext. split; [by intros ->|by intros [=]].
  - cbn [mbind option_bind]. f_equal. rewrite bool_decide_eq_false_2 by (by intros [=]).
    pose proof (StringOps.lower_byte c Hc). pose proof (StringOps.lower_byte d Hd).
    apply Z.eqb_neq. unfold s64, u64. zlia.
Qed.

Lemma table_find_spec mask v w : 
  Forall (λ e, no_nul e.1 ∧ e.1 ≠ []) mask → bytes w →
  table_find (mask ++ [([], v)]) w = Some (known mask w).
Proof.
  intros Hm Hw. induction Hm as [|[name m] mask [Hn Hne] Hm IH]; [done|]. cbn [app table_find].
  cbn [fst] in *. assert ((length name =? 0)%nat = false) as -> by by destruct name.
  unfold known. destruct (Nat.eqb_spec (length name) (length w)) as [Hl|Hl]; cbn [negb].
  - rewrite same_text_spec by done. cbn [mbind option_bind].
    destruct (decide (ngx_tolower <$> name = ngx_tolower <$> w)) as [E|E].
    + by rewrite bool_decide_eq_true_2, filter_cons_True by done.
    + by rewrite bool_decide_eq_false_2, filter_cons_False by done.
  - rewrite filter_cons_False; [done|]. cbn [fst]. intros E. apply Hl.
    by rewrite <- (length_fmap ngx_tolower name), E, length_fmap.
Qed.

Definition bit_mask (m : Z) : Prop := ∃ k, 0 ≤ k ∧ m = 2 ^ k.

Lemma set_bit np m : bit_mask m →
  (if negb (Z.land np m =? 0) then np else Z.lor np m) = Z.lor np m.
Proof.
  intros (k & Hk & ->). destruct (Z.eqb_spec (Z.land np (2 ^ k)) 0) as [|H]; [done|]. cbn [negb].
  symmetry. apply Z.bits_inj'. intros i Hi. rewrite Z.lor_spec, Z.pow2_bits_eqb by done.
  destruct (Z.eqb_spec k i) as [->|]; [|apply orb_false_r]. rewrite orb_true_r.
  destruct (Z.testbit np i) eqn:E; [done|]. exfalso. apply H. apply Z.bits_inj'. intros j Hj.
  rewrite Z.land_spec, Z.pow2_bits_eqb, Z.bits_0 by done. destruct (Z.eqb_spec i j) as [->|]; [|apply andb_false_r].
  by rewrite E.
Qed.

(** The words up to the first one that is not in the table. *)
Fixpoint masks_of (mask : list (list Z * Z)) (values : list (list Z)) : list Z * bool :=
  match values with
  | [] => ([], true)
  | w :: values =>
      match known mask w with
      | None => ([], false)
      | Some m => let '(ms, ok) := masks_of mask values in (m :: ms, ok)
      end
  end.

(** A directive with a set of names sets the bits of its words, in any case
    of the letters, whether they were set before or not; a word that is not in
    the table is an error, and the bits of the words before it are set. *)
Theorem conf_bitmask_union mask v w values np :
  Forall (λ e, no_nul e.1 ∧ e.1 ≠ [] ∧ bit_mask e.2) mask → Forall bytes values →
  let '(ms, ok) := masks_of mask values in
  ngx_conf_set_bitmask_slot (mask ++ [([], v)]) (w :: values) np =
  Some (if ok then NGX_CONF_OK else NGX_CONF_ERROR, fold_left Z.lor ms np).
Proof.
  intros Hm Hv. unfold ngx_conf_set_bitmask_slot. cbn [tail]. revert np.
  induction Hv as [|x values Hx Hv IH]; intros np; [done|]. cbn [masks_of bitmask_loop].
  rewrite table_find_spec; [|eapply list.Forall_impl; [exact Hm|by intros e (? & ? & ?)]|done].
  cbn [mbind option_bind]. destruct (known mask x) as [m|] eqn:E; [|done].
  assert (bit_mask m) as Hbit.
  { unfold known in E. destruct (filter _ mask) as [|e l] eqn:El; [done|]. injection E as <-.
    assert (e ∈ mask) as Hin by (eapply (list_elem_of_filter _ _ e); rewrite El; left).
    by apply (proj1 (list.Forall_forall _ _) Hm e Hin). }
  rewrite set_bit by done. specialize (IH (Z.lor np m)).
  destruct (masks_of mask values) as [ms ok]. cbn [fold_left]. exact IH.
Qed.

(** ** Witnesses *)

Ltac each_element :=
  repeat match goal with
  | |- Forall _ _ => first [by apply list.Forall_nil | apply list.Forall_cons; split]
  | |- _ ∧ _ => split
  end.

Definition example_commands : list ngx_command_t :=
  [mk_command (bs "worker") (NGX_CONF_FLAG + NGX_MAIN_CONF + NGX_DIRECT_CONF) 1 0;
   mk_command [] 0 0 0].
Definition example_modules : list ngx_module_t := [mk_module 0 3 (Some example_commands) NGX_CONF_MODULE].

Lemma conf_handler_first_witness :
  ngx_conf_handler 1 NGX_MAIN_CONF false (λ _, false) example_modules [bs "worker"; bs "on"] NGX_OK =
  Call 1 (Element 3).
Proof.
  rewrite (conf_handler_first 1 NGX_MAIN_CONF false (λ _, false) example_modules
    [bs "worker"; bs "on"] NGX_OK (or_introl eq_refl) ltac:(done)).
  vm_compute. reflexivity.
Defined.

Lemma conf_bitmask_union_witness :
  ngx_conf_set_bitmask_slot [(bs "get", 2); (bs "head", 4); ([], 0)] [bs "methods"; bs "HEAD"; bs "get"] 4 =
  Some (NGX_CONF_OK, 6).
Proof.
  apply (conf_bitmask_union [(bs "get", 2); (bs "head", 4)] 0 (bs "methods") [bs "HEAD"; bs "get"] 4).
  - each_element; try done; first [by exists 1|by exists 2|unfold is_byte; cbn; lia].
  - each_element; unfold is_byte; cbn; lia.
Defined.
End ConfSlots.
