(* ===== verification/Location.v ===== *)
(** * Locations of a server

    src/http/ngx_http.c, src/http/ngx_http_core_module.c: the queue of the
    locations of a server or of a location, how the static ones are sorted,
    joined, nested and made a tree, and the search for the location of a
    request. *)

From S2P Require Import Prelude StringOps Sort.

Module Location.

Abbreviation NGX_DONE := (-4).

(** ** The data

    A configuration is a pointer to a [ngx_http_core_loc_conf_t]; [regex]
    identifies the compiled expression. *)
Abbreviation pointer := nat.

Record ngx_http_core_loc_conf_t := mk_conf {
  name : list Z;
  exact_match : bool;
  named : bool;
  noname : bool;
  noregex : bool;
  auto_redirect : bool;
  regex : option nat;
}.

(** [ngx_http_location_queue_t]: the fields, and the queue [list]. *)
Record entry := mk_entry {
  exact : option pointer;
  inclusive : option pointer;
  lq_name : list Z;
}.
Inductive ngx_http_location_queue_t := Lq (lq : entry) (list : list ngx_http_location_queue_t).
Abbreviation queue := (list ngx_http_location_queue_t).

Definition lq (x : ngx_http_location_queue_t) : entry := let 'Lq e _ := x in e.
Definition lq_list (x : ngx_http_location_queue_t) : queue := let 'Lq _ l := x in l.

(** [ngx_http_location_tree_node_t]. *)
Inductive tree :=
  | NULL
  | Node (left right tree : tree) (exact inclusive : option pointer) (auto_redirect : bool)
      (len : Z) (name : list Z).

(** C's [strncmp] and [strcmp] on strings that end with a null character. *)
Fixpoint strncmp (s1 s2 : list Z) (n : nat) {struct n} : Z :=
  match n with
  | O => 0
  | S n =>
      let c1 := hd NUL s1 in let c2 := hd NUL s2 in
      if negb (c1 =? c2) then c1 - c2
      else if c1 =? NUL then 0
      else strncmp (tail s1) (tail s2) n
  end.
Definition strcmp (s1 s2 : list Z) : Z := strncmp s1 s2 (S (length s1)).

Section Locations.
Context (conf : pointer → ngx_http_core_loc_conf_t).

(** ** The queue of a configuration *)

Definition ngx_http_add_location (locations : queue) (clcf : pointer) : queue :=
  let c := conf clcf in
  let e :=
    if exact_match c || (if regex c then true else false) || named c || noname c
    then mk_entry (Some clcf) None (name c)
    else mk_entry None (Some clcf) (name c) in
  locations ++ [Lq e []].

(** [lq->exact ? lq->exact : lq->inclusive]: one of them is set. *)
Definition clcf_of (x : ngx_http_location_queue_t) : pointer :=
  match exact (lq x) with
  | Some c => c
  | None => match inclusive (lq x) with Some c => c | None => O end
  end.

Definition ngx_http_cmp_locations (one two : ngx_http_location_queue_t) : Z :=
  let first := conf (clcf_of one) in
  let second := conf (clcf_of two) in
  let regex1 := if regex first then true else false in
  let regex2 := if regex second then true else false in
  if noname first && negb (noname second) then 1
  else if negb (noname first) && noname second then -1
  else if noname first || noname second then 0
  else if named first && negb (named second) then 1
  else if negb (named first) && named second then -1
  else if named first && named second then strcmp (name first) (name second)
  else if regex1 && negb regex2 then 1
  else if negb regex1 && regex2 then -1
  else if regex1 || regex2 then 0
  else
    let rc := strcmp (name first) (name second) in
    if (rc =? 0) && negb (exact_match first) && exact_match second then 1 else rc.

(** The static locations, [regex_locations] and [named_locations] of the sorted
    queue: the loop ends at the first location without a name, and the two
    arrays get what follows the first location of their kind. *)
Record split_locations := mk_split {
  static : queue;
  regex_locations : list (option pointer);
  named_locations : list (option pointer);
}.

Fixpoint span_queue (p : ngx_http_core_loc_conf_t → bool) (l : queue) : queue * queue :=
  match l with
  | [] => ([], [])
  | x :: l => if p (conf (clcf_of x)) then ([], x :: l) else let '(a, b) := span_queue p l in (x :: a, b)
  end.

Definition is_regex (c : ngx_http_core_loc_conf_t) : bool := if regex c then true else false.

Definition ngx_http_init_locations (locations : queue) : split_locations :=
  let locations := Sort.ngx_sort ngx_http_cmp_locations locations in
  let '(locations, _) :=
    span_queue (λ c, negb (is_regex c) && negb (named c) && noname c) locations in
  let '(locations, named_) := span_queue (λ c, negb (is_regex c) && named c) locations in
  let '(locations, regex_) := span_queue is_regex locations in
  mk_split locations ((λ x, exact (lq x)) <$> regex_) ((λ x, exact (lq x)) <$> named_).

(** ** The tree of the static locations *)

(** [None] is the error: "duplicate location". *)
Fixpoint join_from (q : ngx_http_location_queue_t) (rest : queue) : option queue :=
  match rest with
  | [] => Some [q]
  | x :: rest =>
      let lq_ := lq q in
      let lx := lq x in
      if strcmp (lq_name lq_) (lq_name lx) =? 0 then
        if (if exact lq_ then if exact lx then true else false else false) ||
           (if inclusive lq_ then if inclusive lx then true else false else false)
        then None
        else join_from (Lq (mk_entry (exact lq_) (inclusive lx) (lq_name lq_)) (lq_list q)) rest
      else l ← join_from x rest; Some (q :: l)
  end.
Definition ngx_http_join_exact_locations (locations : queue) : option queue :=
  match locations with
  | [] => Some []
  | q :: rest => join_from q rest
  end.

(** [for (x = ngx_queue_next(q); ...)]: the locations below a name, and the
    queue from [x] on. *)
Fixpoint below (name : list Z) (l : queue) : queue * queue :=
  match l with
  | [] => ([], [])
  | x :: l' =>
      if (length (lq_name (lq x)) <? length name)%nat ||
         negb (strncmp name (lq_name (lq x)) (length name) =? 0)
      then ([], l)
      else let '(a, b) := below name l' in (x :: a, b)
  end.

(** The queue from [q] on; a queue of no more elements than the fuel. *)
Fixpoint ngx_http_create_locations_list (fuel : nat) (q : queue) : queue :=
  match fuel, q with
  | S fuel, x :: (_ :: _) as l =>
      let rest := tail q in
      match inclusive (lq x) with
      | None => x :: ngx_http_create_locations_list fuel rest
      | Some _ =>
          let '(sub, rest) := below (lq_name (lq x)) rest in
          match sub with
          | [] => x :: ngx_http_create_locations_list fuel rest
          | _ =>
              Lq (lq x) (ngx_http_create_locations_list fuel (lq_list x ++ sub)) ::
              ngx_http_create_locations_list fuel rest
          end
      end
  | _, _ => q
  end.

(** The place of the middle: [middle] makes a step where [next] makes two. *)
Fixpoint middle_loop (fuel middle next last : nat) : nat :=
  match fuel with
  | O => middle
  | S fuel =>
      let middle := S middle in
      let next := S next in
      if (next =? last)%nat then middle
      else
        let next := S next in
        if (next =? last)%nat then middle else middle_loop fuel middle next last
  end.
Definition ngx_queue_middle (n : nat) : nat :=
  if (n =? 1)%nat then 0%nat else middle_loop n 0 0 (n - 1).

Definition redirects (c : option pointer) : bool :=
  match c with Some c => auto_redirect (conf c) | None => false end.

(** The allocations succeed.  The fuel is the number of the locations in the
    queue and below it. *)
Fixpoint ngx_http_create_locations_tree (fuel : nat) (locations : queue) (prefix : nat) : tree :=
  match fuel with
  | O => NULL
  | S fuel =>
      let m := ngx_queue_middle (length locations) in
      match drop m locations with
      | [] => NULL
      | x :: tail =>
          let len := (length (lq_name (lq x)) - prefix)%nat in
          let create := ngx_http_create_locations_tree fuel in
          let locations := take m locations in
          Node
            (match locations with [] => NULL | _ => create locations prefix end)
            (match locations, tail with
             | [], _ | _, [] => NULL
             | _, _ => create tail prefix
             end)
            (match lq_list x with [] => NULL | l => create l (prefix + len)%nat end)
            (exact (lq x)) (inclusive (lq x))
            (redirects (exact (lq x)) || redirects (inclusive (lq x)))
            (u8 (Z.of_nat len)) (take len (drop prefix (lq_name (lq x))))
      end
  end.

Definition ngx_http_init_static_location_trees (locations : queue) : option tree :=
  match locations with
  | [] => Some NULL
  | _ =>
      locations ← ngx_http_join_exact_locations locations;
      let n := length locations in
      Some (ngx_http_create_locations_tree (S n) (ngx_http_create_locations_list n locations) 0)
  end.

(** ** The search

    [rv] and [r->loc_conf] are passed along; [None] is a use of a null
    pointer or a read past the end. *)
Fixpoint ngx_http_core_find_static_location (node : tree) (uri : list Z) (rv : Z) (loc_conf : pointer) :
    option (Z * pointer) :=
  match node with
  | NULL => Some (rv, loc_conf)
  | Node left_ right_ sub ex inc auto len nm =>
      let n := if Z.of_nat (length uri) <=? len then length uri else Z.to_nat len in
      rc ← StringOps.ngx_memcmp uri nm n;
      if negb (rc =? 0) then
        ngx_http_core_find_static_location (if rc <? 0 then left_ else right_) uri rv loc_conf
      else if len <? Z.of_nat (length uri) then
        match inc with
        | Some c => ngx_http_core_find_static_location sub (drop n uri) NGX_AGAIN c
        | None => ngx_http_core_find_static_location right_ uri rv loc_conf
        end
      else if Z.of_nat (length uri) =? len then
        match ex with
        | Some c => Some (NGX_OK, c)
        | None => c ← inc; Some (NGX_AGAIN, c)
        end
      else if (Z.of_nat (length uri) + 1 =? len) && auto then
        c ← (match ex with Some c => Some c | None => inc end);
        ngx_http_core_find_static_location left_ uri NGX_DONE c
      else ngx_http_core_find_static_location left_ uri rv loc_conf
  end.

(** ** Nested locations and regular expressions

    [locations] are the locations inside of a location or server, in the order
    of the file; [regex_exec] is PCRE: [NGX_OK], [NGX_DECLINED] or an error. *)

Section Find.
Context (locations : pointer → list pointer) (regex_exec : nat → list Z → Z).

Definition initialized (pclcf : pointer) : split_locations :=
  ngx_http_init_locations (fold_left ngx_http_add_location (locations pclcf) []).
Definition static_locations (pclcf : pointer) : option tree :=
  ngx_http_init_static_location_trees (static (initialized pclcf)).

(** [for (clcfp = pclcf->regex_locations; *clcfp; clcfp++)]; [find] looks up the
    nested locations of [r->loc_conf]. *)
Fixpoint test_regex (find : pointer → option (Z * pointer)) (uri : list Z) (clcfp : list (option pointer))
    (rc : Z) (loc_conf : pointer) : option (Z * pointer) :=
  match clcfp with
  | Some clcf :: clcfp =>
      re ← regex (conf clcf);
      let n := regex_exec re uri in
      if n =? NGX_OK then
        '(rc, loc_conf) ← find clcf;
        Some (if rc =? NGX_ERROR then rc else NGX_OK, loc_conf)
      else if n =? NGX_DECLINED then test_regex find uri clcfp rc loc_conf
      else Some (NGX_ERROR, loc_conf)
  | _ => Some (rc, loc_conf)
  end.

(** The fuel is more than the depth of the nesting; [None] is a location whose
    tree could not be made. *)
Fixpoint ngx_http_core_find_location (fuel : nat) (uri : list Z) (loc_conf : pointer) : option (Z * pointer) :=
  match fuel with
  | O => None
  | S fuel =>
      let pclcf := loc_conf in
      t ← static_locations pclcf;
      '(rc, loc_conf) ← ngx_http_core_find_static_location t uri NGX_DECLINED loc_conf;
      '(rc, loc_conf, noregex_) ←
        (if rc =? NGX_AGAIN then
           let noregex_ := noregex (conf loc_conf) in
           '(rc, loc_conf) ← ngx_http_core_find_location fuel uri loc_conf;
           Some (rc, loc_conf, noregex_)
         else Some (rc, loc_conf, false));
      if (rc =? NGX_OK) || (rc =? NGX_DONE) then Some (rc, loc_conf)
      else if negb noregex_ then
        test_regex (ngx_http_core_find_location fuel uri) uri (regex_locations (initialized pclcf)) rc loc_conf
      else Some (rc, loc_conf)
  end.
End Find.
End Locations.
End Location.
