(* ===== verification/LocationOrder.v ===== *)
(** * Locations of a server: the order of names

    Names are compared byte by byte; C's comparisons decide this order. *)

From S2P Require Import Prelude StringOps Location.

Module LocationOrder.
Import Location.

Abbreviation no_nul := (Forall (λ c, is_byte c ∧ c ≠ NUL)).

(** The strings differ at a byte that both have. *)
Definition differs (a b : list Z) : Prop :=
  ∃ p c d x y, a = p ++ c :: x ∧ b = p ++ d :: y ∧ c < d.
Definition extends (a b : list Z) : Prop := ∃ c x, b = a ++ c :: x.
Definition lt (a b : list Z) : Prop := differs a b ∨ extends a b.

Inductive compared (a b : list Z) : Prop :=
  | cmp_eq : a = b → compared a b
  | cmp_below : differs a b → compared a b
  | cmp_above : differs b a → compared a b
  | cmp_prefix : extends a b → compared a b
  | cmp_extends : extends b a → compared a b.

Lemma differs_app p a b : differs a b → differs (p ++ a) (p ++ b).
Proof.
  intros (q & c & d & x & y & -> & -> & H). exists (p ++ q), c, d, x, y. by rewrite <- !app_assoc.
Qed.

Lemma extends_app p a b : extends a b → extends (p ++ a) (p ++ b).
Proof. intros (c & x & ->). exists c, x. by rewrite <- app_assoc. Qed.

Lemma compare a : ∀ b, compared a b.
Proof.
  induction a as [|c a IH]; intros [|d b].
  - by apply cmp_eq.
  - apply cmp_prefix. by exists d, b.
  - apply cmp_extends. by exists c, a.
  - destruct (Z.lt_trichotomy c d) as [H|[->|H]].
    + apply cmp_below. by exists [], c, d, a, b.
    + destruct (IH b) as [->|H|H|H|H].
      * by apply cmp_eq.
      * apply cmp_below. by apply (differs_app [d]).
      * apply cmp_above. by apply (differs_app [d]).
      * apply cmp_prefix. by apply (extends_app [d]).
      * apply cmp_extends. by apply (extends_app [d]).
    + apply cmp_above. by exists [], d, c, b, a.
Qed.

(** Two splits of a string at two places. *)
Lemma split_two (p q x y : list Z) :
  p ++ x = q ++ y → (∃ z, q = p ++ z ∧ x = z ++ y) ∨ (∃ z, p = q ++ z ∧ z ≠ [] ∧ y = z ++ x).
Proof.
  revert q. induction p as [|c p IH]; intros q E; cbn in E.
  - left. by exists q.
  - destruct q as [|d q]; cbn in E.
    + right. exists (c :: p). by rewrite <- E.
    + injection E as -> E. destruct (IH q E) as [(z & -> & ->)|(z & -> & ? & ->)]; [left|right]; by exists z.
Qed.

Lemma differs_trans a b c : differs a b → differs b c → differs a c.
Proof.
  intros (p & c1 & d1 & x & y & -> & E & H1) (q & c2 & d2 & x' & y' & E' & -> & H2).
  rewrite E in E'. destruct (split_two p q (d1 :: y) (c2 :: x') E') as [([|e z] & -> & Ez)|([|e z] & -> & Hz & Ez)];
    [| |done|]; injection Ez as -> ->.
  - rewrite app_nil_r. exists p, c1, d2, x, y'. split; [done|]. split; [done|lia].
  - exists p, c1, e, x, (z ++ d2 :: y'). by rewrite <- app_assoc.
  - exists q, e, d2, (z ++ c1 :: x), y'. by rewrite <- app_assoc.
Qed.

Lemma differs_extends_r a b c : differs a b → extends b c → differs a c.
Proof.
  intros (p & c1 & d1 & x & y & -> & -> & H) (e & z & ->). exists p, c1, d1, x, (y ++ e :: z).
  by rewrite <- app_assoc.
Qed.

Lemma differs_extends_l a b c : differs a b → extends a c → differs c b.
Proof.
  intros (p & c1 & d1 & x & y & -> & -> & H) (e & z & ->). exists p, c1, d1, (x ++ e :: z), y.
  by rewrite <- app_assoc.
Qed.

Lemma extends_trans a b c : extends a b → extends b c → extends a c.
Proof. intros (d & x & ->) (e & y & ->). exists d, (x ++ e :: y). by rewrite <- app_assoc. Qed.

(** What differs from an extension differs from the prefix or extends it. *)
Lemma extends_differs a b c : extends a b → differs b c → differs a c ∨ extends a c.
Proof.
  intros (d & x & ->) (p & c1 & d1 & y & z & E & -> & H).
  destruct (split_two a p (d :: x) (c1 :: y) E) as [([|e w] & -> & Ez)|([|e w] & -> & Hz & Ez)]; [| |done|].
  - right. exists d1, z. by rewrite app_nil_r.
  - right. exists e, (w ++ d1 :: z). by rewrite <- app_assoc.
  - left. injection Ez as -> ->. exists p, e, d1, w, z. done.
Qed.

Lemma lt_trans a b c : lt a b → lt b c → lt a c.
Proof.
  intros [H1|H1] [H2|H2].
  - left. by eapply differs_trans.
  - left. by eapply differs_extends_r.
  - by eapply extends_differs.
  - right. by eapply extends_trans.
Qed.

Lemma differs_irrefl a : ¬ differs a a.
Proof.
  intros (p & c & d & x & y & -> & E & H). apply app_inv_head in E. injection E as -> _. lia.
Qed.

Lemma lt_irrefl a : ¬ lt a a.
Proof.
  intros [H|(c & x & E)]; [by apply differs_irrefl in H|].
  apply (f_equal length) in E. rewrite length_app in E. cbn in E. lia.
Qed.

Lemma lt_asym a b : lt a b → ¬ lt b a.
Proof. intros H1 H2. by apply (lt_irrefl a), (lt_trans a b a). Qed.

(** Between a prefix and its extension there are only extensions. *)
Lemma extends_between a m b : lt a m → ¬ extends a m → extends a b → lt m b → False.
Proof.
  intros [Ham|Ham] Hn Hab Hmb; [|done]. apply (lt_asym m b Hmb). left. by eapply differs_extends_l.
Qed.

(** ** The comparisons of C *)

Lemma memcmp_app p n : ∀ x y, StringOps.ngx_memcmp (p ++ x) (p ++ y) (length p + n) = StringOps.ngx_memcmp x y n.
Proof. induction p as [|c p IH]; intros x y; [done|]. cbn. by rewrite Z.eqb_refl. Qed.

Lemma memcmp_differs a b : differs a b →
  ∃ rc, rc < 0 ∧ StringOps.ngx_memcmp a b (length a `min` length b) = Some rc ∧
    StringOps.ngx_memcmp b a (length a `min` length b) = Some (- rc).
Proof.
  intros (p & c & d & x & y & -> & -> & H). exists (c - d). split; [lia|]. rewrite !length_app. cbn [length].
  replace ((length p + S (length x)) `min` (length p + S (length y)))%nat with
    (length p + S (length x `min` length y))%nat by lia.
  rewrite !memcmp_app. cbn [StringOps.ngx_memcmp].
  rewrite (proj2 (Z.eqb_neq c d)), (proj2 (Z.eqb_neq d c)) by lia. split; [done|]. f_equal. lia.
Qed.

Lemma memcmp_prefix a b x : StringOps.ngx_memcmp (a ++ x) (a ++ b) (length a) = Some 0.
Proof. pose proof (memcmp_app a 0 x b) as H. by rewrite Nat.add_0_r in H. Qed.

Lemma strncmp_app p n : no_nul p → ∀ x y, strncmp (p ++ x) (p ++ y) (length p + n) = strncmp x y n.
Proof.
  induction 1 as [|c p [_ Hc] Hp IH]; intros x y; [done|]. cbn.
  rewrite Z.eqb_refl, (proj2 (Z.eqb_neq c NUL)) by done. apply IH.
Qed.

Lemma no_nul_app a b : no_nul (a ++ b) → no_nul a ∧ no_nul b.
Proof. by rewrite list.Forall_app. Qed.

Inductive strcmp_result (a b : list Z) (rc : Z) : Prop :=
  | strcmp_eq : a = b → rc = 0 → strcmp_result a b rc
  | strcmp_lt : lt a b → rc < 0 → strcmp_result a b rc
  | strcmp_gt : lt b a → 0 < rc → strcmp_result a b rc.

Lemma strcmp_spec a b : no_nul a → no_nul b → strcmp_result a b (strcmp a b).
Proof.
  intros Ha Hb. unfold strcmp. destruct (compare a b) as [->|H|H|H|H].
  - apply strcmp_eq; [done|]. rewrite <- (app_nil_r b) at 1 2. replace (S (length b)) with (length b + 1)%nat by lia.
    by rewrite strncmp_app.
  - apply strcmp_lt; [by left|]. destruct H as (p & c & d & x & y & -> & -> & H).
    apply no_nul_app in Ha as [Hp _]. rewrite length_app. cbn [length].
    replace (S (length p + S (length x))) with (length p + S (S (length x)))%nat by lia.
    rewrite strncmp_app by done. cbn. rewrite (proj2 (Z.eqb_neq c d)) by lia. cbn. lia.
  - apply strcmp_gt; [by left|]. destruct H as (p & c & d & x & y & -> & -> & H).
    apply no_nul_app in Ha as [Hp _]. rewrite length_app. cbn [length].
    replace (S (length p + S (length y))) with (length p + S (S (length y)))%nat by lia.
    rewrite strncmp_app by done. cbn. rewrite (proj2 (Z.eqb_neq d c)) by lia. cbn. lia.
  - apply strcmp_lt; [by right|]. destruct H as (c & x & ->). apply no_nul_app in Hb as [Hp [Hc _]%list.Forall_cons].
    rewrite <- (app_nil_r a) at 1. replace (S (length a)) with (length a + 1)%nat by lia.
    rewrite strncmp_app by done. cbn. destruct Hc as [Hc Hc0]. unfold is_byte in Hc.
    destruct c; cbn; lia.
  - apply strcmp_gt; [by right|]. destruct H as (c & x & ->). apply no_nul_app in Ha as [Hp [Hc _]%list.Forall_cons].
    rewrite <- (app_nil_r b) at 2. rewrite length_app. cbn [length].
    replace (S (length b + S (length x))) with (length b + S (S (length x)))%nat by lia.
    rewrite strncmp_app by done. cbn. destruct Hc as [Hc Hc0]. unfold is_byte in Hc.
    rewrite (proj2 (Z.eqb_neq c 0)) by done. cbn. lia.
Qed.

(** The test for a prefix. *)
Lemma strncmp_prefix a b :
  no_nul a → (length a ≤ length b)%nat → strncmp a b (length a) = 0 ↔ ∃ x, b = a ++ x.
Proof.
  intros Ha. revert b. induction Ha as [|c a [Hc Hc0] Ha IH]; intros b Hl.
  - split; [|done]. intros _. by exists b.
  - destruct b as [|d b]; cbn in Hl; [lia|]. cbn. destruct (Z.eqb_spec c d) as [->|Hne]; cbn.
    + rewrite (proj2 (Z.eqb_neq d NUL)) by done. rewrite IH by lia.
      split; intros (x & E); exists x; [by rewrite E|by injection E].
    + split; [lia|]. intros (x & [= <- _]). done.
Qed.
End LocationOrder.
