(* ===== verification/LocationTree.v ===== *)
(** * Locations of a server: the search

    The tree of the static locations is searched as the list of the locations
    would be. *)

From S2P Require Import Prelude StringOps Location LocationOrder.

Module LocationTree.
Import Location LocationOrder.

(** ** Nested queues *)

Fixpoint flat_entry (x : ngx_http_location_queue_t) : list entry :=
  lq x :: concat (flat_entry <$> lq_list x).
Definition flat (l : queue) : list entry := concat (flat_entry <$> l).

Lemma flat_cons x l : flat (x :: l) = lq x :: flat (lq_list x) ++ flat l.
Proof. by destruct x. Qed.

Lemma flat_app a b : flat (a ++ b) = flat a ++ flat b.
Proof. unfold flat. by rewrite fmap_app, concat_app. Qed.

Definition lt_entry (a b : entry) : Prop := lt (lq_name a) (lq_name b).
Definition above (a b : entry) : Prop := extends (lq_name a) (lq_name b).

(** The entries are in order; what is nested extends the name, what follows does
    not if the name covers what extends it. *)
Inductive forest : queue → Prop :=
  | forest_nil : forest []
  | forest_cons x l :
      forest (lq_list x) → forest l →
      Forall (lt_entry (lq x)) (flat (lq_list x) ++ flat l) →
      Forall (above (lq x)) (flat (lq_list x)) →
      (lq_list x ≠ [] → inclusive (lq x) ≠ None) →
      (inclusive (lq x) ≠ None → Forall (λ b, ¬ above (lq x) b) (flat l)) →
      forest (x :: l).

Lemma extends_lt a b : extends a b → lt a b.
Proof. by right. Qed.

(** What is below a name stays on the same side of what does not extend it. *)
Lemma below_lt a x b : above a x → lt_entry a b → ¬ above a b → lt_entry x b.
Proof. intros Hx [H|H] Hn; [|done]. left. by eapply differs_extends_l. Qed.

Lemma below_not_above a x b : above a x → ¬ above a b → ¬ above x b.
Proof. intros Hx Hn Hb. apply Hn. by eapply extends_trans. Qed.

Lemma forest_app_inv a b : forest (a ++ b) →
  forest a ∧ forest b ∧
  ∀ x y, x ∈ flat a → y ∈ flat b → lt_entry x y ∧ (inclusive x ≠ None → ¬ above x y).
Proof.
  induction a as [|z a IH]; intros Hf.
  { split; [constructor|]. split; [done|]. intros x y Hx. by apply elem_of_nil in Hx. }
  inversion Hf as [|? ? Hs Hl Hlt Hab Hinc Hnot]; subst.
  destruct (IH Hl) as (Ha & Hb & Hxy). rewrite flat_app in Hlt, Hnot.
  rewrite !list.Forall_app in Hlt. destruct Hlt as (Hlt1 & Hlt2 & Hlt3).
  split; [|split; [done|]].
  - constructor; try done.
    + by apply list.Forall_app.
    + intros Hi. by apply Hnot, list.Forall_app in Hi as [? _].
  - intros x y Hx Hy. rewrite flat_cons in Hx.
    pose proof (proj1 (list.Forall_forall _ _) Hlt3 y Hy) as Hzy.
    apply elem_of_cons in Hx as [->|[Hx|Hx]%elem_of_app].
    + split; [done|]. intros Hi. apply Hnot, list.Forall_app in Hi as [_ Hi].
      exact (proj1 (list.Forall_forall _ _) Hi y Hy).
    + pose proof (proj1 (list.Forall_forall _ _) Hab x Hx) as Hzx.
      assert (¬ above (lq z) y) as Hn.
      { assert (inclusive (lq z) ≠ None) as Hi by (apply Hinc; intros E; rewrite E in Hx; by apply elem_of_nil in Hx).
        apply Hnot, list.Forall_app in Hi as [_ Hi]. exact (proj1 (list.Forall_forall _ _) Hi y Hy). }
      split; [by eapply below_lt|]. intros _. by eapply below_not_above.
    + by apply Hxy.
Qed.

(** ** The search in a list *)

Section Search.
Context (conf : pointer → ngx_http_core_loc_conf_t).

Definition target (e : entry) : option pointer :=
  match exact e with Some c => Some c | None => inclusive e end.
Definition redirecting (e : entry) : bool := redirects conf (exact e) || redirects conf (inclusive e).

Definition same (uri : list Z) (e : entry) : Prop := lq_name e = uri.
Definition redirect (uri : list Z) (e : entry) : Prop := redirecting e = true ∧ lq_name e = uri ++ ["/"%ch].
Definition covers (uri : list Z) (e : entry) : Prop := inclusive e ≠ None ∧ extends (lq_name e) uri.

#[export] Instance extends_dec a b : Decision (extends a b).
Proof.
  destruct (decide (a `prefix_of` b ∧ a ≠ b)) as [H|H]; [left|right].
  - destruct H as [[x ->] Hne]. destruct x as [|c x]; [by rewrite app_nil_r in Hne|]. by exists c, x.
  - intros (c & x & ->). apply H. split; [by exists (c :: x)|].
    intros E. apply (f_equal length) in E. rewrite length_app in E. cbn in E. lia.
Defined.
#[export] Instance same_dec uri e : Decision (same uri e).
Proof. unfold same. apply _. Defined.
#[export] Instance redirect_dec uri e : Decision (redirect uri e).
Proof. unfold redirect. apply _. Defined.
#[export] Instance covers_dec uri e : Decision (covers uri e).
Proof. unfold covers. apply _. Defined.

(** The location with the name of the request; or the one that is redirected
    to; or the last that covers the name. *)
Definition search (uri : list Z) (l : list entry) (rv : Z) (loc : pointer) : option (Z * pointer) :=
  match head (filter (same uri) l) with
  | Some e =>
      match exact e with Some c => Some (NGX_OK, c) | None => pair NGX_AGAIN <$> inclusive e end
  | None =>
      match head (filter (redirect uri) l) with
      | Some e => pair NGX_DONE <$> target e
      | None =>
          match list.last (filter (covers uri) l) with
          | Some e => pair NGX_AGAIN <$> inclusive e
          | None => Some (rv, loc)
          end
      end
  end.

Definition irrelevant (uri : list Z) (e : entry) : Prop := ¬ same uri e ∧ ¬ redirect uri e ∧ ¬ covers uri e.

Lemma filter_none {A} (P : A → Prop) `{∀ x, Decision (P x)} l : Forall (λ x, ¬ P x) l → filter P l = [].
Proof. induction 1 as [|x l Hx Hl IH]; [done|]. by rewrite filter_cons_False. Qed.

Lemma search_irrelevant uri a l b rv loc :
  Forall (irrelevant uri) a → Forall (irrelevant uri) b →
  search uri (a ++ l ++ b) rv loc = search uri l rv loc.
Proof.
  intros Ha Hb. unfold search. rewrite !list.filter_app.
  assert (∀ (P : entry → Prop) (HP : ∀ x, Decision (P x)) l, (∀ e, irrelevant uri e → ¬ P e) →
    Forall (irrelevant uri) l → filter P l = []) as H.
  { intros P HP l' H Hl. apply filter_none. eapply list.Forall_impl; [exact Hl|]. exact H. }
  assert (∀ e, irrelevant uri e → ¬ same uri e) as H1 by (by intros e [? _]).
  assert (∀ e, irrelevant uri e → ¬ redirect uri e) as H2 by (by intros e (_ & ? & _)).
  assert (∀ e, irrelevant uri e → ¬ covers uri e) as H3 by (by intros e (_ & _ & ?)).
  rewrite (H _ _ a H1), (H _ _ a H2), (H _ _ a H3), (H _ _ b H1), (H _ _ b H2), (H _ _ b H3) by done.
  cbn [app]. by rewrite !app_nil_r.
Qed.
End Search.

(** ** What does not matter for a request *)

Lemma differs_not_extends a b : differs a b → ¬ extends a b.
Proof.
  intros (p & c & d & x & y & -> & -> & H) (e & z & E). rewrite <- app_assoc in E.
  apply app_inv_head in E. injection E as E _. lia.
Qed.
Lemma differs_not_extended a b : differs a b → ¬ extends b a.
Proof.
  intros (p & c & d & x & y & -> & -> & H) (e & z & E). rewrite <- app_assoc in E.
  apply app_inv_head in E. injection E as E _. lia.
Qed.

Section Irrelevant.
Context (conf : pointer → ngx_http_core_loc_conf_t) (uri : list Z).

Lemma irrelevant_differs b :
  differs uri (lq_name b) ∨ differs (lq_name b) uri → irrelevant conf uri b.
Proof.
  intros H. assert (∀ x, x = lq_name b → extends uri x → False) as Hext.
  { intros x -> Hx. destruct H as [H|H]; [by eapply differs_not_extends|by eapply differs_not_extended]. }
  split; [|split].
  - intros Hs. destruct H as [H|H]; rewrite Hs in H; by apply differs_irrefl in H.
  - intros [_ E]. apply (Hext _ (eq_sym E)). by exists "/"%ch, [].
  - intros [_ E]. destruct H as [H|H]; [by eapply differs_not_extended|by eapply differs_not_extends].
Qed.

Lemma irrelevant_after e b :
  differs uri (lq_name e) → lt_entry e b → irrelevant conf uri b.
Proof.
  intros He [H|H]; apply irrelevant_differs; left; [by eapply differs_trans|by eapply differs_extends_r].
Qed.

(** [e] is before the request in the order, or covers it. *)
Lemma irrelevant_before e a :
  differs (lq_name e) uri ∨ extends (lq_name e) uri →
  lt_entry a e → (inclusive a ≠ None → ¬ above a e) → irrelevant conf uri a.
Proof.
  intros He [H|H] Hn.
  { apply irrelevant_differs. right. destruct He; [by eapply differs_trans|by eapply differs_extends_r]. }
  assert (∀ x, extends x (lq_name e) → x = uri ∨ extends uri x → False) as Hno.
  { intros x Hx Hu. assert (extends uri (lq_name e)) as Hue.
    { destruct Hu as [->|Hu]; [done|by eapply extends_trans]. }
    destruct He as [He|He].
    - by eapply differs_not_extended.
    - eapply lt_asym; right; eassumption. }
  split; [|split].
  - intros E. eapply Hno; [exact H|by left].
  - intros [_ E]. eapply Hno; [exact H|right]. exists "/"%ch, []. done.
  - intros [Hi _]. by apply Hn.
Qed.

(** [e] extends the request by a byte that is not before the slash. *)
Lemma irrelevant_behind e b c t :
  lq_name e = uri ++ c :: t → "/"%ch ≤ c → lt_entry e b → irrelevant conf uri b.
Proof.
  intros Ee Hc Hb. assert (lt uri (lq_name b)) as Hub.
  { eapply lt_trans; [right|exact Hb]. rewrite Ee. by exists c, t. }
  split; [|split].
  - intros E. rewrite E in Hub. by apply lt_irrefl in Hub.
  - intros [_ E]. unfold lt_entry in Hb. rewrite Ee, E in Hb.
    assert (¬ lt (uri ++ ["/"%ch]) (uri ++ c :: t)) as Hn by by apply lt_asym.
    destruct (decide (c = "/"%ch)) as [->|Hne].
    + destruct t as [|d t]; [by apply lt_irrefl in Hb|]. apply Hn. right. exists d, t. by rewrite <- app_assoc.
    + apply Hn. left. exists uri, "/"%ch, c, [], t. split; [done|]. split; [done|lia].
  - intros [_ E]. apply (lt_asym _ _ Hub). by right.
Qed.
End Irrelevant.

(** ** The middle of a queue *)

Lemma middle_loop_spec fuel : ∀ m last, (last - 2 * m ≤ fuel)%nat → (2 * m < last)%nat →
  middle_loop fuel m (2 * m) last = ((last + 1) / 2)%nat.
Proof.
  induction fuel as [|fuel IH]; intros m last Hf Hl; [lia|]. cbn [middle_loop].
  destruct (Nat.eqb_spec (S (2 * m)) last) as [<-|H1].
  { replace (S (2 * m) + 1)%nat with ((m + 1) * 2)%nat by lia. rewrite Nat.div_mul; lia. }
  destruct (Nat.eqb_spec (S (S (2 * m))) last) as [<-|H2].
  { replace (S (S (2 * m)) + 1)%nat with (1 + (m + 1) * 2)%nat by lia. rewrite Nat.div_add by lia.
    change (1 / 2)%nat with 0%nat. lia. }
  replace (S (S (2 * m))) with (2 * S m)%nat by lia. apply IH; lia.
Qed.

Lemma queue_middle n : (0 < n)%nat → ngx_queue_middle n = (n / 2)%nat.
Proof.
  intros Hn. unfold ngx_queue_middle. destruct (Nat.eqb_spec n 1) as [->|H1]; [done|].
  rewrite (middle_loop_spec n 0) by lia. f_equal. lia.
Qed.

(** ** The tree *)

Section Tree.
Context (conf : pointer → ngx_http_core_loc_conf_t).

Notation create := (ngx_http_create_locations_tree conf).
Notation find := ngx_http_core_find_static_location.

Lemma create_nil fuel prefix : create fuel [] prefix = NULL.
Proof. by destruct fuel. Qed.

(** The names below a name [p] that a node of the tree can have. *)
Record below_name (p : list Z) (e : entry) : Prop := {
  bn_extends : extends p (lq_name e);
  bn_length : (length (lq_name e) ≤ length p + 255)%nat;
  bn_target : target e ≠ None;
  bn_slash : redirecting conf e = true → ∃ q, lq_name e = q ++ ["/"%ch];
}.

Lemma create_split fuel l p :
  l ≠ [] → Forall (λ x, below_name p (lq x)) l →
  ∃ a x b nm, l = a ++ x :: b ∧ lq_name (lq x) = p ++ nm ∧ nm ≠ [] ∧
    create (S fuel) l (length p) =
    Node (create fuel a (length p)) (create fuel b (length p)) (create fuel (lq_list x) (length (p ++ nm)))
      (exact (lq x)) (inclusive (lq x)) (redirecting conf (lq x)) (Z.of_nat (length nm)) nm.
Proof.
  intros Hne Hl. cbn [ngx_http_create_locations_tree].
  assert (0 < length l)%nat as Hlen by (destruct l; cbn; [done|lia]). rewrite queue_middle by done.
  assert (length l / 2 < length l)%nat as Hm by (apply Nat.div_lt; lia).
  set (m := (length l / 2)%nat) in *.
  destruct (drop m l) as [|x b] eqn:Ed.
  { apply (f_equal length) in Ed. rewrite length_drop in Ed. cbn [length] in Ed. lia. }
  pose proof (take_drop m l) as El. rewrite Ed in El.
  assert (below_name p (lq x)) as [(c & nm & En) Hbl _ _].
  { rewrite <- El in Hl. by apply list.Forall_app in Hl as [_ [? _]%list.Forall_cons]. }
  exists (take m l), x, b, (c :: nm). split; [done|]. split; [done|]. split; [done|].
  rewrite En, length_app in Hbl. cbn [length] in Hbl.
  assert (length (lq_name (lq x)) - length p = length (c :: nm))%nat as ->.
  { rewrite En, length_app. lia. }
  assert (take (length (c :: nm)) (drop (length p) (lq_name (lq x))) = c :: nm) as ->.
  { rewrite En, drop_app_length. by apply take_ge. }
  assert (u8 (Z.of_nat (length (c :: nm))) = Z.of_nat (length (c :: nm))) as ->.
  { apply Z.mod_small. cbn [length]. lia. }
  rewrite length_app. f_equal.
  - destruct (take m l) eqn:Et; [by rewrite create_nil|done].
  - destruct (take m l) eqn:Et.
    + assert (length l = 1)%nat as H1.
      { apply (f_equal length) in Et. rewrite length_take in Et. cbn [length] in Et.
        destruct (decide (length l = 1)%nat); [done|].
        assert (1 ≤ m)%nat by (apply Nat.div_le_lower_bound; lia). lia. }
      rewrite <- El in H1. cbn [length app] in H1. destruct b; [by rewrite create_nil|cbn [length] in H1; lia].
    + destruct b; [by rewrite create_nil|done].
  - destruct (lq_list x); [by rewrite create_nil|done].
Qed.

Lemma filter_same_none uri l : Forall (λ e, lt (lq_name e) uri ∨ lt uri (lq_name e)) l →
  filter (same uri) l = [].
Proof.
  intros H. apply filter_none. eapply list.Forall_impl; [exact H|].
  intros e He E. unfold same in E. cbv beta in He. rewrite E in He. by destruct He as [He|He]; apply lt_irrefl in He.
Qed.

Lemma search_same uri a x b rv loc :
  Forall (λ e, lt (lq_name e) uri) a → lq_name x = uri →
  search conf uri (a ++ x :: b) rv loc =
  match exact x with Some c => Some (NGX_OK, c) | None => pair NGX_AGAIN <$> inclusive x end.
Proof.
  intros Ha Hx. unfold search. rewrite list.filter_app, filter_same_none, filter_cons_True; [done|done|].
  eapply list.Forall_impl; [exact Ha|]. by left.
Qed.

Lemma search_covers uri x l c rv loc :
  extends (lq_name x) uri → inclusive x = Some c →
  search conf uri (x :: l) rv loc = search conf uri l NGX_AGAIN c.
Proof.
  intros Hx Hc. unfold search. rewrite filter_cons_False.
  2: { intros E. unfold same in E. rewrite E in Hx. by apply extends_lt, lt_irrefl in Hx. }
  rewrite filter_cons_False.
  2: { intros [_ E]. eapply lt_asym; right; [exact Hx|]. rewrite E. by exists "/"%ch, []. }
  rewrite filter_cons_True by (split; [by rewrite Hc|done]).
  destruct (head (filter (same uri) l)); [done|]. destruct (head (filter (redirect conf uri) l)); [done|].
  destruct (filter (covers uri) l) as [|y l'] eqn:E; [by cbn; rewrite Hc|].
  assert (list.last (x :: y :: l') = list.last (y :: l')) as -> by done.
  destruct (list.last (y :: l')) as [z|] eqn:El; [done|]. by apply last_None in El.
Qed.

Lemma search_redirects uri a x b c rv loc :
  Forall (λ e, ¬ redirect conf uri e ∧ ¬ covers uri e) a → redirect conf uri x → target x = Some c →
  Forall (λ e, ¬ same uri e) (x :: b) →
  search conf uri (a ++ x :: b) rv loc = search conf uri a NGX_DONE c.
Proof.
  intros Ha Hx Hc Hb. unfold search. rewrite !list.filter_app.
  rewrite (filter_none (same uri) (x :: b)) by done. rewrite app_nil_r.
  assert (filter (redirect conf uri) a = [] ∧ filter (covers uri) a = []) as [-> ->].
  { split; apply filter_none; (eapply list.Forall_impl; [exact Ha|]); by intros e []. }
  cbn [app]. rewrite (filter_cons_True (redirect conf uri)) by done. cbn [list.head list.last].
  by rewrite Hc.
Qed.

(** No name extends the request by a byte before the slash. *)
Definition no_smaller (uri : list Z) (e : entry) : Prop :=
  ∀ c t, lq_name e = uri ++ c :: t → "/"%ch ≤ c.

(** All that a queue below the name [p] is required to be. *)
Record searchable (p uri : list Z) (l : queue) : Prop := {
  sc_forest : forest l;
  sc_names : Forall (below_name p) (flat l);
  sc_uri : Forall (no_smaller uri) (flat l);
}.

Lemma flat_in l x : x ∈ l → lq x ∈ flat l.
Proof.
  induction l as [|y l IH]; [by intros ?%elem_of_nil|]. rewrite flat_cons. intros [->|Hx]%elem_of_cons; [left|].
  right. apply elem_of_app. by right; apply IH.
Qed.

Lemma searchable_split p uri a x b : searchable p uri (a ++ x :: b) →
  searchable p uri a ∧ searchable p uri b ∧ searchable (lq_name (lq x)) uri (lq_list x) ∧
  below_name p (lq x) ∧ no_smaller uri (lq x) ∧
  Forall (λ e, lt_entry e (lq x) ∧ (inclusive e ≠ None → ¬ above e (lq x))) (flat a) ∧
  Forall (lt_entry (lq x)) (flat (lq_list x) ++ flat b) ∧
  (inclusive (lq x) ≠ None → Forall (λ e, ¬ above (lq x) e) (flat b)) ∧
  (lq_list x ≠ [] → inclusive (lq x) ≠ None).
Proof.
  intros [Hf Hn Hu]. rewrite flat_app, flat_cons in Hn, Hu.
  apply list.Forall_app in Hn as [Hna [Hnx [Hns Hnb]%list.Forall_app]%list.Forall_cons].
  apply list.Forall_app in Hu as [Hua [Hux [Hus Hub]%list.Forall_app]%list.Forall_cons].
  destruct (forest_app_inv a (x :: b) Hf) as (Hfa & Hfx & Hax).
  inversion Hfx as [|? ? Hs Hl Hlt Hab Hinc Hnot]; subst.
  split; [done|]. split; [done|]. split.
  { split; [done| |done]. apply list.Forall_forall. intros e He.
    pose proof (proj1 (list.Forall_forall _ _) Hns e He) as [_ Hlen Ht Hsl].
    split; [exact (proj1 (list.Forall_forall _ _) Hab e He)| |done|done].
    destruct Hnx as [(c & y & E) _ _ _]. rewrite E, length_app. lia. }
  split; [done|]. split; [done|]. split; [|done].
  apply list.Forall_forall. intros e He. apply Hax; [done|]. rewrite flat_cons. left.
Qed.

Lemma irrelevant_list uri l (P : entry → Prop) :
  Forall P l → (∀ e, P e → irrelevant conf uri e) → Forall (irrelevant conf uri) l.
Proof. intros H HP. eapply list.Forall_impl; [exact H|exact HP]. Qed.

(** ** One node *)

Section Step.
Context (p u nm : list Z) (a b : queue) (x : ngx_http_location_queue_t) (left_ right_ sub : tree).
Context (Hs : searchable p (p ++ u) (a ++ x :: b)) (En : lq_name (lq x) = p ++ nm).
Context (Hleft : ∀ rv loc, find left_ u rv loc = search conf (p ++ u) (flat a) rv loc).
Context (Hright : ∀ rv loc, find right_ u rv loc = search conf (p ++ u) (flat b) rv loc).
Context (Hsub : ∀ u' rv loc, p ++ u = lq_name (lq x) ++ u' →
  find sub u' rv loc = search conf (p ++ u) (flat (lq_list x)) rv loc).

Notation node := (Node left_ right_ sub (exact (lq x)) (inclusive (lq x)) (redirecting conf (lq x))
  (Z.of_nat (length nm)) nm).
Notation whole := (flat a ++ lq x :: flat (lq_list x) ++ flat b).

Lemma compared_length :
  (if Z.of_nat (length u) <=? Z.of_nat (length nm) then length u else Z.to_nat (Z.of_nat (length nm))) =
  (length u `min` length nm)%nat.
Proof. destruct (Z.leb_spec (Z.of_nat (length u)) (Z.of_nat (length nm))); lia. Qed.

Lemma node_same rv loc : u = nm → find node u rv loc = search conf (p ++ u) whole rv loc.
Proof.
  intros Eu. destruct (searchable_split _ _ _ _ _ Hs) as (_ & _ & _ & Hx & _ & Hax & _).
  rewrite search_same; [|eapply list.Forall_impl; [exact Hax|]; intros e [He _]; by rewrite Eu, <- En|by rewrite Eu].
  cbn [ngx_http_core_find_static_location]. rewrite compared_length, Eu, Nat.min_id.
  pose proof (memcmp_prefix nm [] []) as Em. rewrite app_nil_r in Em. rewrite Em. cbn [mbind option_bind].
  change (negb (0 =? 0)) with false. cbv iota. rewrite Z.ltb_irrefl, Z.eqb_refl. destruct (exact (lq x)) eqn:Ee; [done|].
  destruct Hx as [_ _ Ht _]. unfold target in Ht. rewrite Ee in Ht. by destruct (inclusive (lq x)).
Qed.

Lemma node_below rv loc : differs u nm → find node u rv loc = search conf (p ++ u) whole rv loc.
Proof.
  intros Hd. destruct (searchable_split _ _ _ _ _ Hs) as (_ & _ & _ & _ & _ & _ & Hxb & _).
  assert (differs (p ++ u) (lq_name (lq x))) as Hde by (rewrite En; by apply differs_app).
  cbn [ngx_http_core_find_static_location]. rewrite compared_length.
  destruct (memcmp_differs _ _ Hd) as (rc & Hrc & -> & _). cbn [mbind option_bind].
  rewrite (proj2 (Z.eqb_neq rc 0)), (proj2 (Z.ltb_lt rc 0)) by lia. cbn [negb]. rewrite Hleft.
  symmetry. apply (search_irrelevant conf (p ++ u) [] (flat a)); [by apply list.Forall_nil|].
  apply list.Forall_cons. split; [by apply irrelevant_differs; left|].
  eapply list.Forall_impl; [exact Hxb|]. intros e. by apply irrelevant_after.
Qed.

Lemma before_irrelevant : differs (lq_name (lq x)) (p ++ u) ∨ extends (lq_name (lq x)) (p ++ u) →
  Forall (irrelevant conf (p ++ u)) (flat a).
Proof.
  intros He. destruct (searchable_split _ _ _ _ _ Hs) as (_ & _ & _ & _ & _ & Hax & _).
  eapply list.Forall_impl; [exact Hax|]. intros e [H1 H2]. by eapply irrelevant_before.
Qed.

Lemma node_above rv loc : differs nm u → find node u rv loc = search conf (p ++ u) whole rv loc.
Proof.
  intros Hd. destruct (searchable_split _ _ _ _ _ Hs) as (_ & _ & [Hfs Hns _] & _ & _ & _ & _).
  assert (differs (lq_name (lq x)) (p ++ u)) as Hde by (rewrite En; by apply differs_app).
  cbn [ngx_http_core_find_static_location]. rewrite compared_length, Nat.min_comm.
  destruct (memcmp_differs _ _ Hd) as (rc & Hrc & _ & ->). cbn [mbind option_bind].
  rewrite (proj2 (Z.eqb_neq (- rc) 0)), (proj2 (Z.ltb_ge (- rc) 0)) by lia. cbn [negb]. rewrite Hright.
  symmetry. rewrite app_comm_cons, app_assoc, <- (app_nil_r (flat b)) at 1.
  apply search_irrelevant; [|by apply list.Forall_nil].
  apply list.Forall_app. split; [by apply before_irrelevant; left|].
  apply list.Forall_cons. split; [by apply irrelevant_differs; right|].
  eapply list.Forall_impl; [exact Hns|]. intros e [He _ _ _]. apply irrelevant_differs. right.
  by eapply differs_extends_l.
Qed.

(** The name of the node covers the request. *)
Lemma node_covers rv loc : extends nm u → find node u rv loc = search conf (p ++ u) whole rv loc.
Proof.
  intros Hd. destruct (searchable_split _ _ _ _ _ Hs) as (_ & _ & _ & _ & _ & _ & Hxb & Hcov & Hinc).
  assert (extends (lq_name (lq x)) (p ++ u)) as Hde by (rewrite En; by apply extends_app).
  cbn [ngx_http_core_find_static_location]. rewrite compared_length.
  destruct Hd as (c & t & Eu). rewrite Eu, length_app. cbn [length].
  replace ((length nm + S (length t)) `min` length nm)%nat with (length nm) by lia.
  pose proof (memcmp_prefix nm [] (c :: t)) as Em. rewrite app_nil_r in Em. rewrite Em. cbn [mbind option_bind].
  change (negb (0 =? 0)) with false. cbv iota.
  rewrite (proj2 (Z.ltb_lt (Z.of_nat (length nm)) _)) by lia.
  assert (∀ l, search conf (p ++ u) (flat a ++ l) rv loc = search conf (p ++ u) l rv loc) as Hskip.
  { intros l. pose proof (search_irrelevant conf (p ++ u) (flat a) l [] rv loc) as H.
    rewrite !app_nil_r in H. apply H; [by apply before_irrelevant; right|by apply list.Forall_nil]. }
  rewrite <- Eu, Hskip. destruct (inclusive (lq x)) as [i|] eqn:Ei.
  - rewrite (search_covers _ _ _ i) by done.
    rewrite (Hsub (drop (length nm) u)) by (rewrite En, Eu, drop_app_length, <- app_assoc; done).
    symmetry. apply (search_irrelevant conf (p ++ u) [] (flat (lq_list x))); [by apply list.Forall_nil|].
    apply list.Forall_app in Hxb as [_ Hxb].
    apply list.Forall_forall. intros e He. pose proof (proj1 (list.Forall_forall _ _) Hxb e He) as [H|H].
    + apply irrelevant_differs. left. by eapply differs_extends_l.
    + exfalso. eapply (proj1 (list.Forall_forall _ _) (Hcov ltac:(done)) e He), H.
  - assert (lq_list x = []) as Esub.
    { destruct (lq_list x); [done|]. by destruct Hinc. }
    rewrite Esub, Hright. symmetry. pose proof (search_irrelevant conf (p ++ u) [lq x] (flat b) [] rv loc) as H.
    rewrite app_nil_r in H. apply H; [|by apply list.Forall_nil].
    apply list.Forall_cons. split; [|by apply list.Forall_nil]. split; [|split].
    + intros E. unfold same in E. rewrite E in Hde. by apply extends_lt, lt_irrefl in Hde.
    + intros [_ E]. eapply lt_asym; right; [exact Hde|]. rewrite E. by exists "/"%ch, [].
    + intros [Hi _]. done.
Qed.

(** The name of the node extends the request. *)
Lemma node_extends rv loc : extends u nm → find node u rv loc = search conf (p ++ u) whole rv loc.
Proof.
  intros Hd. destruct (searchable_split _ _ _ _ _ Hs) as (_ & _ & _ & [_ _ Ht Hsl] & Hux & Hax & Hxb & _).
  assert (extends (p ++ u) (lq_name (lq x))) as Hde by (rewrite En; by apply extends_app).
  cbn [ngx_http_core_find_static_location]. rewrite compared_length.
  destruct Hd as (c & t & Eu).
  assert (lq_name (lq x) = (p ++ u) ++ c :: t) as Ex by by rewrite En, Eu, <- app_assoc.
  pose proof (Hux c t Ex) as Hc.
  rewrite Eu, length_app. cbn [length].
  replace (length u `min` (length u + S (length t)))%nat with (length u) by lia.
  pose proof (memcmp_prefix u (c :: t) []) as Em. rewrite app_nil_r in Em. rewrite Em. cbn [mbind option_bind].
  change (negb (0 =? 0)) with false. cbv iota.
  rewrite (proj2 (Z.ltb_ge _ (Z.of_nat (length u)))), (proj2 (Z.eqb_neq (Z.of_nat (length u)) _)) by lia.
  assert (Forall (irrelevant conf (p ++ u)) (flat (lq_list x) ++ flat b)) as Hafter.
  { eapply list.Forall_impl; [exact Hxb|]. intros e. by eapply irrelevant_behind. }
  assert (¬ same (p ++ u) (lq x)) as Hsame.
  { intros E. unfold same in E. rewrite E in Hde. by apply extends_lt, lt_irrefl in Hde. }
  assert (∀ rv loc, irrelevant conf (p ++ u) (lq x) →
    search conf (p ++ u) whole rv loc = search conf (p ++ u) (flat a) rv loc) as Hskip.
  { intros rv' loc' Hx. apply (search_irrelevant conf (p ++ u) [] (flat a)); [by apply list.Forall_nil|].
    by apply list.Forall_cons. }
  assert (¬ covers (p ++ u) (lq x)) as Hcov.
  { intros [_ E]. eapply lt_asym; right; [exact Hde|exact E]. }
  destruct ((Z.of_nat (length u) + 1 =? Z.of_nat (length u + S (length t))) && redirecting conf (lq x)) eqn:Er.
  - apply andb_true_iff in Er as [El%Z.eqb_eq Er].
    assert (t = []) as -> by (destruct t; cbn [length] in El; [done|lia]).
    destruct (Hsl Er) as (q & Eq). rewrite Ex in Eq. apply app_inj_tail in Eq as [<- ->].
    change (match exact (lq x) with Some c => Some c | None => inclusive (lq x) end) with (target (lq x)).
    destruct (target (lq x)) as [i|] eqn:Et; [|done]. cbn [mbind option_bind]. rewrite Hleft.
    symmetry. apply search_redirects; [|by split|done|].
    + eapply list.Forall_impl; [exact Hax|]. intros e [He1 He2]. unfold lt_entry in He1. split.
      * intros [_ E]. rewrite E, Ex in He1. by apply lt_irrefl in He1.
      * intros [Hi E]. apply He2; [done|]. unfold above. by eapply extends_trans.
    + apply list.Forall_cons. split; [done|]. eapply list.Forall_impl; [exact Hafter|]. by intros e [? _].
  - rewrite Hleft. symmetry. apply Hskip. split; [done|]. split; [|done].
    intros [Hr E]. rewrite Ex in E. apply app_inv_head in E. injection E as -> ->.
    rewrite Hr, andb_true_r in Er. apply Z.eqb_neq in Er. cbn [length] in Er. lia.
Qed.
End Step.

(** The search in the tree of a queue is the search in the list. *)
Lemma find_search fuel : ∀ l p u rv loc,
  (length (flat l) ≤ fuel)%nat → searchable p (p ++ u) l →
  find (create fuel l (length p)) u rv loc = search conf (p ++ u) (flat l) rv loc.
Proof.
  induction fuel as [|fuel IH]; intros l p u rv loc Hlen Hs.
  { destruct l as [|x l]; [done|]. rewrite flat_cons in Hlen. cbn in Hlen. lia. }
  destruct (decide (l = [])) as [->|Hne]; [done|].
  destruct (create_split fuel l p Hne) as (a & x & b & nm & -> & En & Hnm & ->).
  { apply list.Forall_forall. intros x Hx. destruct Hs as [_ Hn _].
    apply (proj1 (list.Forall_forall _ _) Hn), flat_in, Hx. }
  destruct (searchable_split _ _ _ _ _ Hs) as (Ha & Hb & Hsub & _).
  rewrite flat_app, flat_cons, !length_app in Hlen. cbn [length] in Hlen. rewrite length_app in Hlen.
  rewrite flat_app, flat_cons.
  assert (∀ rv loc, find (create fuel a (length p)) u rv loc = search conf (p ++ u) (flat a) rv loc) as H1.
  { intros. apply IH; [lia|done]. }
  assert (∀ rv loc, find (create fuel b (length p)) u rv loc = search conf (p ++ u) (flat b) rv loc) as H2.
  { intros. apply IH; [lia|done]. }
  assert (∀ u' rv loc, p ++ u = lq_name (lq x) ++ u' →
    find (create fuel (lq_list x) (length (p ++ nm))) u' rv loc =
    search conf (p ++ u) (flat (lq_list x)) rv loc) as H3.
  { intros u' rv' loc' E. rewrite E in *. rewrite <- En. apply IH; [lia|done]. }
  destruct (compare u nm).
  - by eapply node_same.
  - by eapply node_below.
  - by eapply node_above.
  - by eapply node_extends.
  - by eapply node_covers.
Qed.
End Tree.
End LocationTree.
