(* ===== verification/LocationQueue.v ===== *)
(** * Locations of a server: the queues

    Sorting, joining and nesting the queue of the locations. *)

From stdpp Require Import sorting.
From S2P Require Import Prelude Sort Location LocationOrder LocationTree.
Open Scope Z_scope.

Module LocationQueue.
Import Location LocationOrder LocationTree.

(** ** Nesting *)

Definition plain (x : ngx_http_location_queue_t) : Prop := lq_list x = [] ∧ no_nul (lq_name (lq x)).

Lemma below_spec name l a b :
  no_nul name → below name l = (a, b) →
  l = a ++ b ∧ Forall (λ x, ∃ t, lq_name (lq x) = name ++ t) a ∧
  (∀ x b', b = x :: b' → ¬ ∃ t, lq_name (lq x) = name ++ t).
Proof.
  intros Hn. revert a b. induction l as [|x l IH]; intros a b; cbn [below].
  { intros [= <- <-]. split; [done|]. split; [by apply list.Forall_nil|done]. }
  destruct (Nat.ltb_spec (length (lq_name (lq x))) (length name)) as [Hl|Hl]; cbn [orb].
  { intros [= <- <-]. split; [done|]. split; [by apply list.Forall_nil|]. intros ? ? [= <- <-] (t & E).
    rewrite E, length_app in Hl. lia. }
  destruct (Z.eqb_spec (strncmp name (lq_name (lq x)) (length name)) 0) as [E|E]; cbn [negb].
  - destruct (below name l) as [a' b'] eqn:Eb. intros [= <- <-]. destruct (IH a' b' eq_refl) as (-> & Ha & Hb).
    split; [done|]. split; [|done]. apply list.Forall_cons. split; [|done]. by apply strncmp_prefix.
  - intros [= <- <-]. split; [done|]. split; [by apply list.Forall_nil|]. intros ? ? [= <- <-] Ht.
    apply E. by apply strncmp_prefix.
Qed.

Notation sorted l := (StronglySorted lt_entry (lq <$> l)).

Lemma sorted_entries_app a b : sorted (a ++ b) → sorted a ∧ sorted b.
Proof.
  rewrite fmap_app. intros H. split; [by eapply StronglySorted_app_1_l|by eapply StronglySorted_app_1_r].
Qed.

Lemma create_list_spec fuel : ∀ l, (length l ≤ fuel)%nat → Forall plain l → sorted l →
  forest (ngx_http_create_locations_list fuel l) ∧
  flat (ngx_http_create_locations_list fuel l) = lq <$> l.
Proof.
  induction fuel as [|fuel IH]; intros l Hl Hp Hs.
  { destruct l; cbn in Hl; [|lia]. split; [constructor|done]. }
  destruct l as [|x [|y l]].
  - split; [constructor|done].
  - apply list.Forall_cons in Hp as [[Hx _] _]. destruct x as [e s]. cbn in Hx. subst s. split; [|done].
    constructor; try done; try constructor.
  - cbn [ngx_http_create_locations_list tail]. set (rest := y :: l) in *.
    apply list.Forall_cons in Hp as [[Hx Hnx] Hp].
    clearbody rest. rewrite fmap_cons in Hs. apply StronglySorted_inv in Hs as [Hsr Hlt].
    assert (inclusive (lq x) = None → forest (x :: ngx_http_create_locations_list fuel rest) ∧
      flat (x :: ngx_http_create_locations_list fuel rest) = lq <$> x :: rest) as Hplain.
    { intros Hi. destruct (IH rest) as [Hf E]; [cbn in *; lia|done|done|].
      rewrite flat_cons, Hx, E. split; [|done]. constructor; rewrite ?Hx, ?E; try done; constructor. }
    destruct (inclusive (lq x)) as [i|] eqn:Ei; [|by apply Hplain]. clear Hplain.
    destruct (below (lq_name (lq x)) rest) as [a b] eqn:Eb.
    destruct (below_spec _ _ _ _ Hnx Eb) as (-> & Ha & Hb).
    apply list.Forall_app in Hp as [Hpa Hpb]. apply sorted_entries_app in Hsr as [Hsa Hsb].
    assert (length a + length b ≤ fuel)%nat as Hlen.
    { cbn [length] in Hl. rewrite length_app in Hl. lia. }
    destruct (IH b) as [Hfb Efb]; [lia|done|done|].
    destruct (IH a) as [Hfa Efa]; [lia|done|done|].
    assert (Forall (above (lq x)) (lq <$> a)) as Habove.
    { rewrite fmap_app in Hlt. apply list.Forall_app in Hlt as [Hlta _]. clear -Ha Hlta.
      induction a as [|z a IH]; [by apply list.Forall_nil|]. rewrite fmap_cons in *.
      apply list.Forall_cons in Ha as [(t & Et) Ha]. apply list.Forall_cons in Hlta as [Hlt Hlta].
      apply list.Forall_cons. split; [|by apply IH]. unfold above. rewrite Et.
      destruct t as [|c t]; [|by exists c, t]. rewrite app_nil_r in Et. unfold lt_entry in Hlt.
      rewrite Et in Hlt. by apply lt_irrefl in Hlt. }
    assert (Forall (λ z, ¬ above (lq x) z) (lq <$> b)) as Hnot.
    { rewrite fmap_app in Hlt. apply list.Forall_app in Hlt as [_ Hltb].
      destruct b as [|z b]; [by apply list.Forall_nil|]. rewrite fmap_cons in *.
      assert (¬ above (lq x) (lq z)) as Hz.
      { intros (c & t & Et). apply (Hb z b eq_refl). by exists (c :: t). }
      apply list.Forall_cons. split; [done|]. apply list.Forall_cons in Hltb as [Hltz _].
      apply StronglySorted_inv in Hsb as [_ Hzb]. eapply list.Forall_impl; [exact Hzb|].
      intros w Hw Hxw. exact (extends_between _ _ _ Hltz Hz Hxw Hw). }
    rewrite fmap_app in Hlt. apply list.Forall_app in Hlt as [Hlta Hltb].
    destruct a as [|z a].
    + cbn [app] in *. rewrite flat_cons, Hx, Efb. cbn [flat fmap list_fmap concat app]. split; [|done].
      constructor; rewrite ?Hx, ?Efb; try done; try constructor.
    + cbn [flat]. rewrite flat_cons. cbn [lq lq_list]. rewrite Hx. cbn [app]. cbn [app] in *.
      rewrite Efa, Efb. split; [|by rewrite <- (fmap_app lq (z :: a) b)].
      constructor; cbn [lq lq_list]; rewrite ?Efa, ?Efb; try done; [by apply list.Forall_app|].
      intros _. by rewrite Ei.
Qed.

(** ** Sorting *)

(** A string as C has it, with its end. *)
Fixpoint cut (s : list Z) : list Z :=
  match s with [] => [NUL] | c :: s => if c =? NUL then [NUL] else c :: cut s end.

Inductive strcmp_order (a b : list Z) (rc : Z) : Prop :=
  | order_eq : cut a = cut b → rc = 0 → strcmp_order a b rc
  | order_lt : differs (cut a) (cut b) → rc < 0 → strcmp_order a b rc
  | order_gt : differs (cut b) (cut a) → 0 < rc → strcmp_order a b rc.

Lemma cut_hd s : ∃ t, cut s = hd NUL s :: t ∧ (hd NUL s ≠ NUL → t = cut (tail s)) ∧ (hd NUL s = NUL → t = []).
Proof.
  destruct s as [|c s]; [by exists []|]. cbn. destruct (Z.eqb_spec c NUL) as [->|H]; [by exists []|by exists (cut s)].
Qed.

Lemma strcmp_total a b : strcmp_order a b (strcmp a b).
Proof.
  unfold strcmp. revert b. induction a as [|c a IH]; intros b; cbn [length]; cbn [strncmp].
  all: destruct (cut_hd b) as (t & Eb & Hb & Hb0).
  - cbn [hd]. destruct (Z.eqb_spec NUL (hd NUL b)) as [E|E]; cbn [negb].
    + apply order_eq; [|done]. by rewrite Eb, (Hb0 (eq_sym E)), <- E.
    + rewrite Z.sub_0_l. destruct (Z.lt_ge_cases (hd NUL b) 0).
      * apply order_gt; [|lia]. exists [], (hd NUL b), NUL, t, []. by rewrite Eb.
      * apply order_lt; [|lia]. exists [], NUL, (hd NUL b), [], t. rewrite Eb. split; [done|]. split; [done|lia].
  - cbn [hd tail]. destruct (Z.eqb_spec c (hd NUL b)) as [E|E]; cbn [negb].
    + destruct (Z.eqb_spec c NUL) as [->|Hc].
      * apply order_eq; [|done]. cbn. by rewrite Eb, (Hb0 (eq_sym E)), <- E.
      * assert (cut (c :: a) = [c] ++ cut a) as Ea by (cbn; by rewrite (proj2 (Z.eqb_neq c NUL))).
        assert (cut b = [c] ++ cut (tail b)) as Eb' by by rewrite Eb, <- E, (Hb ltac:(by rewrite <- E)).
        destruct (IH (tail b)) as [H H0|H H0|H H0]; [apply order_eq|apply order_lt|apply order_gt]; try done;
          rewrite Ea, Eb'; [by rewrite H|by apply differs_app..].
    + assert (∃ x, cut (c :: a) = c :: x) as (x & Ex).
      { cbn. destruct (Z.eqb_spec c NUL) as [->|]; eauto. }
      destruct (Z.lt_ge_cases c (hd NUL b)).
      * apply order_lt; [|lia]. exists [], c, (hd NUL b), x, t. by rewrite Eb, Ex.
      * apply order_gt; [|lia]. exists [], (hd NUL b), c, t, x. rewrite Eb, Ex. split; [done|]. split; [done|lia].
Qed.

Section Sorting.
Context (conf : pointer → ngx_http_core_loc_conf_t).

(** The locations that are searched in the tree come first, then the regular
    expressions, the named locations, and those without a name. *)
Definition class (c : ngx_http_core_loc_conf_t) : Z :=
  if noname c then 3 else if named c then 2 else if is_regex c then 1 else 0.
Definition key (x : ngx_http_location_queue_t) : Z * list Z * Z :=
  let c := conf (clcf_of x) in
  (class c, if (class c =? 0) || (class c =? 2) then cut (name c) else [],
   if (class c =? 0) && negb (exact_match c) then 1 else 0).
Definition key_le (k1 k2 : Z * list Z * Z) : Prop :=
  k1.1.1 < k2.1.1 ∨ k1.1.1 = k2.1.1 ∧ (differs k1.1.2 k2.1.2 ∨ k1.1.2 = k2.1.2 ∧ k1.2 ≤ k2.2).

Definition key_lt (k1 k2 : Z * list Z * Z) : Prop :=
  k1.1.1 < k2.1.1 ∨ k1.1.1 = k2.1.1 ∧ (differs k1.1.2 k2.1.2 ∨ k1.1.2 = k2.1.2 ∧ k1.2 < k2.2).

Lemma key_lt_not_le a b : key_lt a b → ¬ key_le b a.
Proof.
  intros [H1|[E1 [H1|[E2 H1]]]] [H2|[E3 [H2|[E4 H2]]]]; try lia.
  - by apply (differs_irrefl a.1.2), (differs_trans a.1.2 b.1.2).
  - rewrite E4 in H1. by apply differs_irrefl in H1.
  - rewrite E2 in H2. by apply differs_irrefl in H2.
Qed.
Lemma key_lt_le a b : key_lt a b → key_le a b.
Proof. intros [H|[E [H|[E' H]]]]; [by left|right; split; [done|by left]|right; split; [done|right; split; [done|lia]]]. Qed.

Lemma key_le_trans a b c : key_le a b → key_le b c → key_le a c.
Proof.
  intros [H1|[E1 [H1|[E2 H1]]]] [H2|[E3 [H2|[E4 H2]]]]; [left; lia|left; lia|left; lia| | | | | |].
  - left; lia.
  - right. split; [lia|]. left. by eapply differs_trans.
  - right. split; [lia|]. left. by rewrite <- E4.
  - left; lia.
  - right. split; [lia|]. left. by rewrite E2.
  - right. split; [lia|]. right. split; [by rewrite E2|lia].
Qed.

Lemma cmp_key x y :
  (ngx_http_cmp_locations conf x y ≤ 0 → key_le (key x) (key y)) ∧
  (0 < ngx_http_cmp_locations conf x y → key_lt (key y) (key x)).
Proof.
  unfold key_lt.
  unfold ngx_http_cmp_locations, key, key_le, class, is_regex. cbn [fst snd].
  set (c1 := conf (clcf_of x)). set (c2 := conf (clcf_of y)).
  pose proof (strcmp_total (name c1) (name c2)) as Hs. revert Hs.
  generalize (strcmp (name c1) (name c2)). intros rc Hs.
  assert ((rc =? 0) = true ∧ cut (name c1) = cut (name c2) ∧ rc = 0 ∨
    (rc =? 0) = false ∧ (differs (cut (name c1)) (cut (name c2)) ∧ rc < 0 ∨
                         differs (cut (name c2)) (cut (name c1)) ∧ 0 < rc)) as Hrc.
  { destruct Hs as [H ->|H H'|H H']; [by left|right..]; (split; [lia|]); [by left|by right]. }
  clear Hs. destruct (noname c1), (noname c2), (named c1), (named c2), (regex c1), (regex c2); cbn;
    destruct Hrc as [(Er & E & H0)|(Er & [[E H0]|[E H0]])]; rewrite ?Er; cbn [andb]; clear Er;
    try destruct (exact_match c1), (exact_match c2); cbn; split; intros;
    first [lia | left; lia
          | right; split; [done|]; first [by left | by right; split; [|lia]]].
Qed.

Notation cmp := (ngx_http_cmp_locations conf).

Lemma le_key x y : Sort.le cmp x y ↔ key_le (key x) (key y).
Proof.
  unfold Sort.le. destruct (cmp_key x y) as [H1 H2]. split; [done|]. intros H.
  destruct (Z.le_gt_cases (cmp x y) 0) as [|Hgt]; [done|]. by destruct (key_lt_not_le _ _ (H2 ltac:(lia))).
Qed.

Lemma sort_locations l :
  Sort.ngx_sort cmp l ≡ₚ l ∧ StronglySorted (Sort.le cmp) (Sort.ngx_sort cmp l).
Proof.
  split; [apply Sort.sort_perm|]. apply Sort.sort_sorted.
  - intros x y z. rewrite !le_key. apply key_le_trans.
  - intros x y H. apply le_key, key_lt_le, cmp_key, H.
Qed.

(** ** The static locations of the sorted queue *)

Definition is_static (c : pointer) : Prop := class (conf c) = 0.

Definition item (c : pointer) : ngx_http_location_queue_t :=
  let k := conf c in
  Lq (if exact_match k || is_regex k || named k || noname k
      then mk_entry (Some c) None (name k) else mk_entry None (Some c) (name k)) [].
Definition queue_of (cs : list pointer) : queue := fold_left (ngx_http_add_location conf) cs [].

Lemma queue_of_items cs : queue_of cs = item <$> cs.
Proof.
  unfold queue_of. assert (∀ q, fold_left (ngx_http_add_location conf) cs q = q ++ (item <$> cs)) as H; [|apply H].
  induction cs as [|c cs IH]; intros q; cbn; [by rewrite app_nil_r|]. rewrite IH.
  unfold ngx_http_add_location. by rewrite <- app_assoc.
Qed.

Lemma clcf_item c : clcf_of (item c) = c.
Proof. unfold item. by destruct (_ || noname (conf c)). Qed.

Lemma span_queue_spec p l a b : span_queue conf p l = (a, b) →
  l = a ++ b ∧ Forall (λ x, p (conf (clcf_of x)) = false) a ∧
  (∀ x b', b = x :: b' → p (conf (clcf_of x)) = true).
Proof.
  revert a b. induction l as [|x l IH]; intros a b; cbn [span_queue].
  { intros [= <- <-]. split; [done|]. split; [by apply list.Forall_nil|done]. }
  destruct (p (conf (clcf_of x))) eqn:E.
  - intros [= <- <-]. split; [done|]. split; [by apply list.Forall_nil|]. by intros ? ? [= <- <-].
  - destruct (span_queue conf p l) as [a' b'] eqn:Es. intros [= <- <-].
    destruct (IH a' b' eq_refl) as (-> & Ha & Hb). split; [done|]. split; [|done]. by apply list.Forall_cons.
Qed.

(** In the sorted queue, what follows has no smaller class. *)
Lemma span_class p k l a b : (∀ c, p c = true → k ≤ class c) →
  StronglySorted (Sort.le cmp) l → span_queue conf p l = (a, b) →
  l = a ++ b ∧ StronglySorted (Sort.le cmp) a ∧ Forall (λ x, p (conf (clcf_of x)) = false) a ∧
  Forall (λ x, k ≤ class (conf (clcf_of x))) b.
Proof.
  intros Hp Hs E. destruct (span_queue_spec p l a b E) as (-> & Ha & Hb).
  split; [done|]. split; [by eapply StronglySorted_app_1_l|]. split; [done|].
  apply StronglySorted_app_1_r in Hs. destruct b as [|x b]; [by apply list.Forall_nil|].
  assert (k ≤ class (conf (clcf_of x))) as Hx by (eapply Hp, Hb; done).
  apply StronglySorted_inv in Hs as [_ Hs]. apply list.Forall_cons. split; [done|].
  eapply list.Forall_impl; [exact Hs|]. intros y Hy%le_key. destruct Hy as [Hy|[Hy _]]; cbn [key fst] in Hy; lia.
Qed.

(** A location is at most one of these. *)
Definition one_kind (c : ngx_http_core_loc_conf_t) : Prop :=
  is_regex c = true → named c = false ∧ noname c = false.

(** The four parts of the sorted queue. *)
Lemma init_parts cs : ∃ a b c d,
  Sort.ngx_sort cmp (queue_of cs) = a ++ b ++ c ++ d ∧
  ngx_http_init_locations conf (queue_of cs) = mk_split a ((λ x, exact (lq x)) <$> b) ((λ x, exact (lq x)) <$> c) ∧
  StronglySorted (Sort.le cmp) a ∧ Forall (λ x, class (conf (clcf_of x)) = 0) a ∧
  Forall (λ x, 1 ≤ class (conf (clcf_of x)) ∧ (one_kind (conf (clcf_of x)) → class (conf (clcf_of x)) = 1)) b ∧
  Forall (λ x, 2 ≤ class (conf (clcf_of x))) c ∧ Forall (λ x, 3 ≤ class (conf (clcf_of x))) d.
Proof.
  unfold ngx_http_init_locations. destruct (sort_locations (queue_of cs)) as [_ Hs].
  set (l := Sort.ngx_sort cmp (queue_of cs)) in *.
  destruct (span_queue conf _ l) as [a1 b1] eqn:E1.
  destruct (span_queue conf (λ c, negb (is_regex c) && named c) a1) as [a2 b2] eqn:E2.
  destruct (span_queue conf is_regex a2) as [a3 b3] eqn:E3.
  apply (span_class _ 3) in E1 as (El & Hs1 & H1 & Hb1); [|intros c Hc; unfold class;
    by destruct (noname c), (named c), (is_regex c)|done].
  apply (span_class _ 2) in E2 as (El2 & Hs2 & H2 & Hb2); [|intros c Hc; unfold class;
    by destruct (noname c), (named c), (is_regex c)|done].
  apply (span_class _ 1) in E3 as (El3 & Hs3 & H3 & Hb3); [|intros c Hc; unfold class;
    by destruct (noname c), (named c), (is_regex c)|done].
  exists a3, b3, b2, b1. split; [by rewrite El, El2, El3, <- !app_assoc|]. split; [done|]. split; [done|].
  rewrite El2, El3 in H1. rewrite El3 in H2. apply list.Forall_app in H1 as [[H1a H1b]%list.Forall_app _].
  apply list.Forall_app in H2 as [H2a H2b].
  split; [|split; [|done]]; apply list.Forall_forall; intros x Hx.
  - pose proof (proj1 (list.Forall_forall _ _) H1a x Hx) as P1.
    pose proof (proj1 (list.Forall_forall _ _) H2a x Hx) as P2.
    pose proof (proj1 (list.Forall_forall _ _) H3 x Hx) as P3. cbv beta in *.
    unfold class. by destruct (noname _), (named _), (is_regex _).
  - pose proof (proj1 (list.Forall_forall _ _) H1b x Hx) as P1.
    pose proof (proj1 (list.Forall_forall _ _) H2b x Hx) as P2.
    pose proof (proj1 (list.Forall_forall _ _) Hb3 x Hx) as P3. cbv beta in *. split; [done|].
    unfold class, one_kind in *. destruct (noname _), (named _), (is_regex _); try done; intros H; by destruct H.
Qed.

#[export] Instance is_static_dec c : Decision (is_static c).
Proof. unfold is_static. apply _. Defined.

Lemma filter_static a b : Forall (λ x, ¬ is_static (clcf_of x)) b →
  filter (λ x, is_static (clcf_of x)) (a ++ b) = filter (λ x, is_static (clcf_of x)) a.
Proof. intros H. rewrite list.filter_app, (filter_none _ b) by done. apply app_nil_r. Qed.

Lemma filter_item (P : pointer → Prop) `{∀ c, Decision (P c)} (cs : list pointer) :
  filter (λ x, P (clcf_of x)) (item <$> cs) = item <$> filter P cs.
Proof.
  induction cs as [|c cs IH]; [done|]. rewrite fmap_cons. destruct (decide (P c)) as [Hc|Hc].
  - rewrite !filter_cons_True by (by rewrite ?clcf_item). by rewrite fmap_cons, IH.
  - rewrite !filter_cons_False by (by rewrite ?clcf_item). done.
Qed.

Lemma filter_all {A} (P : A → Prop) `{∀ x, Decision (P x)} l : Forall P l → filter P l = l.
Proof. induction 1 as [|x l Hx Hl IH]; [done|]. by rewrite filter_cons_True, IH. Qed.

Lemma static_part cs :
  let l := static (ngx_http_init_locations conf (queue_of cs)) in
  l ≡ₚ item <$> filter is_static cs ∧ StronglySorted (Sort.le cmp) l.
Proof.
  destruct (init_parts cs) as (a & b & c & d & El & -> & Hs & Ha & Hb & Hc & Hd). cbn [static].
  split; [|done]. destruct (sort_locations (queue_of cs)) as [Hp _].
  rewrite queue_of_items in *. rewrite <- filter_item, <- Hp, El.
  rewrite (filter_static a), (filter_all _ a); [done|exact Ha|].
  unfold is_static. rewrite !list.Forall_app. split; [|split];
    (eapply list.Forall_impl; [eassumption|]); [intros x [Hx _]|intros x Hx..]; cbv beta in *; lia.
Qed.

(** The regular expressions are kept in the order of the file. *)
Definition is_regex_location (c : pointer) : Prop := class (conf c) = 1.
#[export] Instance is_regex_location_dec c : Decision (is_regex_location c).
Proof. unfold is_regex_location. apply _. Defined.

Lemma sort_regexes cs :
  filter (λ x, is_regex_location (clcf_of x)) (Sort.ngx_sort cmp (queue_of cs)) =
  item <$> filter is_regex_location cs.
Proof.
  pose (P := λ x, bool_decide (is_regex_location (clcf_of x))).
  assert (∀ l, filter (λ x, is_regex_location (clcf_of x)) l = List.filter P l) as HP.
  { induction l as [|x l IH]; [done|]. cbn [List.filter]. unfold P at 1.
    destruct (decide (is_regex_location (clcf_of x))) as [H|H].
    - by rewrite filter_cons_True, bool_decide_eq_true_2, IH.
    - by rewrite filter_cons_False, bool_decide_eq_false_2, IH. }
  rewrite <- filter_item, queue_of_items, !HP.
  destruct (item <$> cs) as [|x l]; [done|]. cbn [Sort.ngx_sort].
  rewrite (Sort.sort_from_stable _ P); [done|].
  intros y z Hy%bool_decide_eq_true Hz%bool_decide_eq_true. apply le_key.
  right. unfold key, is_regex_location in *. cbn [fst snd]. rewrite Hy, Hz. split; [done|]. right. by split.
Qed.

Lemma regex_locations_order cs : (∀ c, c ∈ cs → one_kind (conf c)) →
  regex_locations (ngx_http_init_locations conf (queue_of cs)) = Some <$> filter is_regex_location cs.
Proof.
  intros Hk. destruct (init_parts cs) as (a & b & c & d & El & -> & _ & Ha & Hb & Hc & Hd). cbn [regex_locations].
  assert (b = item <$> filter is_regex_location cs) as ->.
  { rewrite <- sort_regexes, El, !list.filter_app.
    rewrite (filter_none _ a), (filter_none _ c), (filter_none _ d), app_nil_r, app_nil_l, ?app_nil_r.
    - symmetry. apply filter_all. apply list.Forall_forall. intros x Hx.
      destruct (proj1 (list.Forall_forall _ _) Hb x Hx) as [_ H]. apply H.
      assert (x ∈ item <$> cs) as (k & -> & Hin)%list_elem_of_fmap.
      { rewrite <- queue_of_items, <- (proj1 (sort_locations _)), El. rewrite !elem_of_app. auto. }
      rewrite clcf_item. by apply Hk.
    - eapply list.Forall_impl; [exact Hd|]. unfold is_regex_location. intros x Hx. cbv beta in *. lia.
    - eapply list.Forall_impl; [exact Hc|]. unfold is_regex_location. intros x Hx. cbv beta in *. lia.
    - eapply list.Forall_impl; [exact Ha|]. unfold is_regex_location. intros x Hx. cbv beta in *. lia. }
  rewrite <- list_fmap_compose. apply list_fmap_ext. intros i x [Hx _]%list_elem_of_lookup_2%list_elem_of_filter.
  unfold is_regex_location, class in Hx. unfold compose, item.
  destruct (noname (conf x)), (named (conf x)), (is_regex (conf x)); try done. by rewrite orb_true_r.
Qed.
End Sorting.

(** ** Joining *)

Lemma cut_no_nul s : no_nul s → cut s = s ++ [NUL].
Proof. induction 1 as [|c s [_ Hc] Hs IH]; [done|]. cbn. by rewrite (proj2 (Z.eqb_neq c NUL)), IH. Qed.

Lemma cut_lt a b : no_nul a → no_nul b → differs (cut a) (cut b) → lt a b.
Proof.
  intros Ha Hb. rewrite !cut_no_nul by done. intros H.
  assert (∀ x y, differs x y → differs (x ++ [NUL]) (y ++ [NUL])) as Hd.
  { intros x y (p & c & d & x' & y' & -> & -> & Hc). exists p, c, d, (x' ++ [NUL]), (y' ++ [NUL]).
    by rewrite <- !app_assoc. }
  destruct (compare a b) as [->|H1|H1|H1|H1].
  - by apply differs_irrefl in H.
  - by left.
  - by destruct (differs_irrefl _ (differs_trans _ _ _ H (Hd _ _ H1))).
  - by right.
  - destruct H1 as (c & t & ->). apply no_nul_app in Ha as [_ [[Hc Hc0] _]%list.Forall_cons].
    unfold is_byte in Hc. exfalso. eapply differs_irrefl, differs_trans; [exact H|].
    exists b, NUL, c, [], (t ++ [NUL]). rewrite <- app_assoc. split; [done|]. split; [done|lia].
Qed.

Definition joinable (x : ngx_http_location_queue_t) : Prop := plain x ∧ target (lq x) ≠ None.
Definition single (x : ngx_http_location_queue_t) : Prop := exact (lq x) = None ∨ inclusive (lq x) = None.

(** In the order of the names, the exact location before the other. *)
Definition ordered (x y : ngx_http_location_queue_t) : Prop :=
  lt_entry (lq x) (lq y) ∨
  lq_name (lq x) = lq_name (lq y) ∧ (exact (lq y) ≠ None → exact (lq x) ≠ None).

Definition has (field : entry → option pointer) (l : queue) (n : list Z) (c : pointer) : Prop :=
  ∃ x, x ∈ l ∧ field (lq x) = Some c ∧ lq_name (lq x) = n.
Definition twice (field : entry → option pointer) (l : queue) : Prop :=
  ∃ n a x b y c, l = a ++ x :: b ++ y :: c ∧ field (lq x) ≠ None ∧ field (lq y) ≠ None ∧
    lq_name (lq x) = n ∧ lq_name (lq y) = n.

Lemma has_cons field x l n c :
  has field (x :: l) n c ↔ (field (lq x) = Some c ∧ lq_name (lq x) = n) ∨ has field l n c.
Proof.
  split.
  - intros (y & [->|Hy]%elem_of_cons & H); [by left|right; by exists y].
  - intros [H|(y & Hy & H)]; [exists x; split; [left|done]|exists y; split; [by right|done]].
Qed.

Lemma twice_cons field x l : twice field l → twice field (x :: l).
Proof. intros (n & a & y & b & z & c & -> & H). by exists n, (x :: a), y, b, z, c. Qed.

(** The joined element stands for the two. *)
Lemma twice_join field x y z l :
  twice field (z :: l) → lq_name (lq x) = lq_name (lq z) → lq_name (lq y) = lq_name (lq z) →
  (field (lq z) = field (lq x) ∨ field (lq z) = field (lq y)) → twice field (x :: y :: l).
Proof.
  intros (n & [|w a] & z1 & b & z2 & c & E & H1 & H2 & H3 & H4) Ex Ey Hf; injection E as -> E.
  - destruct Hf as [Hf|Hf].
    + exists n, [], x, (y :: b), z2, c. cbn. rewrite E. rewrite <- Hf, Ex. done.
    + exists n, [x], y, b, z2, c. cbn. rewrite E. rewrite <- Hf, Ey. done.
  - exists n, (x :: y :: a), z1, b, z2, c. cbn. by rewrite E.
Qed.

(** Two elements with one name that are not of the same kind. *)
Lemma join_two q x :
  joinable q → joinable x → lq_name (lq q) = lq_name (lq x) →
  (exact (lq x) ≠ None → exact (lq q) ≠ None) →
  (if exact (lq q) then if exact (lq x) then true else false else false) ||
  (if inclusive (lq q) then if inclusive (lq x) then true else false else false) = false →
  exact (lq x) = None ∧ inclusive (lq q) = None ∧
  joinable (Lq (mk_entry (exact (lq q)) (inclusive (lq x)) (lq_name (lq q))) (lq_list q)).
Proof.
  intros [Hq Htq] [Hx Htx] En Ho Hd. unfold joinable, target in *. cbn.
  destruct (exact (lq q)), (exact (lq x)), (inclusive (lq q)), (inclusive (lq x)); try done;
    exfalso; by apply Ho.
Qed.

Lemma join_from_spec rest : ∀ q,
  joinable q → Forall (λ x, joinable x ∧ single x) rest → StronglySorted ordered (q :: rest) →
  match join_from q rest with
  | Some l =>
      sorted l ∧ Forall joinable l ∧ (∀ x, x ∈ l → lq_name (lq q) = lq_name (lq x) ∨ lt_entry (lq q) (lq x)) ∧
      (∀ n c, has exact l n c ↔ has exact (q :: rest) n c) ∧
      (∀ n c, has inclusive l n c ↔ has inclusive (q :: rest) n c)
  | None => twice exact (q :: rest) ∨ twice inclusive (q :: rest)
  end.
Proof.
  induction rest as [|x rest IH]; intros q Hq Hr Hs; cbn [join_from].
  { split; [by repeat constructor|]. split; [by apply list.Forall_singleton|]. split; [|done].
    intros x ->%list_elem_of_singleton. by left. }
  apply list.Forall_cons in Hr as [[Hx Hsx] Hr]. apply StronglySorted_inv in Hs as [Hs Hqx].
  pose proof Hs as Hs'. apply StronglySorted_inv in Hs' as [Hsr Hxr].
  apply list.Forall_cons in Hqx as [Hqx Hqr].
  destruct (strcmp_spec (lq_name (lq q)) (lq_name (lq x)) (proj2 (proj1 Hq)) (proj2 (proj1 Hx))) as [En E|Hlt E|Hlt E];
    [rewrite E, Z.eqb_refl| |].
  - destruct Hqx as [Hqx|[_ Hqx]]; [unfold lt_entry in Hqx; rewrite En in Hqx; by apply lt_irrefl in Hqx|].
    destruct (_ || _) eqn:Ed.
    + apply orb_true_iff in Ed as [Ed|Ed]; [left|right]; exists (lq_name (lq x)), [], q, [], x, rest.
      * by destruct (exact (lq q)), (exact (lq x)).
      * by destruct (inclusive (lq q)), (inclusive (lq x)).
    + destruct (join_two q x Hq Hx En Hqx Ed) as (Ex & Ei & Hj). specialize (IH _ Hj Hr).
      set (q' := Lq _ (lq_list q)) in *.
      assert (∀ n c, (exact (lq q') = Some c ∧ lq_name (lq q') = n ↔
          exact (lq q) = Some c ∧ lq_name (lq q) = n ∨ exact (lq x) = Some c ∧ lq_name (lq x) = n) ∧
        (inclusive (lq q') = Some c ∧ lq_name (lq q') = n ↔
          inclusive (lq q) = Some c ∧ lq_name (lq q) = n ∨ inclusive (lq x) = Some c ∧ lq_name (lq x) = n)) as Hq'.
      { intros n c. cbn. rewrite Ex, Ei, En. split; (split; [auto|intros [[??]|[??]]; done]). }
      destruct (join_from q' rest) as [l|].
      * destruct IH as (Hl & Hjl & Hn & He & Hi); [by constructor|].
        split; [done|]. split; [done|]. split; [done|].
        split; intros n c; destruct (Hq' n c) as [H1 H2]; [rewrite He|rewrite Hi]; rewrite !has_cons; tauto.
      * destruct IH as [IH|IH]; [by constructor|left|right];
          (eapply twice_join; [exact IH|done|exact (eq_sym En)|]); [by left|by right].
  - rewrite (proj2 (Z.eqb_neq _ 0)) by lia. specialize (IH x Hx Hr Hs).
    destruct (join_from x rest) as [l|]; cbn [mbind option_bind].
    + destruct IH as (Hl & Hj & Hn & He & Hi).
      split; [|split; [by apply list.Forall_cons|split; [|split]]].
      * rewrite fmap_cons. constructor; [done|]. apply list.Forall_fmap, list.Forall_forall.
        intros y Hy. cbn. unfold lt_entry in *. destruct (Hn y Hy) as [<-|Hy']; [done|by eapply lt_trans].
      * intros y [->|Hy]%elem_of_cons; [by left|right]. unfold lt_entry in *.
        destruct (Hn y Hy) as [<-|Hy']; [done|by eapply lt_trans].
      * intros n c. by rewrite has_cons, He, (has_cons _ q).
      * intros n c. by rewrite has_cons, Hi, (has_cons _ q).
    + destruct IH as [IH|IH]; [left|right]; by apply twice_cons.
  - destruct Hqx as [Hqx|[Hqx _]]; [by destruct (lt_asym _ _ Hlt)|].
    rewrite Hqx in Hlt. by apply lt_irrefl in Hlt.
Qed.
End LocationQueue.
