(* ===== verification/LocationSearch.v ===== *)
(** * Locations of a server: what a request gets

    From the locations of the configuration to the one that a request is
    handled by. *)

From stdpp Require Import sorting.
From S2P Require Import Prelude Sort Location LocationOrder LocationTree LocationQueue.
Open Scope Z_scope.

Module LocationSearch.
Import Location LocationOrder LocationTree LocationQueue.

(** Of two prefixes of a text the longer one extends the other. *)
Lemma longer_prefix a b c : extends a c → extends b c → (length a < length b)%nat → extends a b.
Proof.
  intros (x & s & ->) (y & t & E) Hl. destruct (split_two a b (x :: s) (y :: t) E) as [(z & -> & Ez)|(z & -> & Hz & _)].
  - destruct z as [|d z]; [rewrite length_app in Hl; cbn in Hl; lia|]. by exists d, z.
  - rewrite length_app in Hl. lia.
Qed.

Section Config.
Context (conf : pointer → ngx_http_core_loc_conf_t) (cs : list pointer).

(** The tree of the static locations of a configuration with the locations
    [cs], in the order of the file. *)
Definition static_tree : option tree :=
  ngx_http_init_static_location_trees conf (static (ngx_http_init_locations conf (queue_of conf cs))).

(** The locations that are searched by their names: [exactly] those with [=]. *)
Definition exactly (n : list Z) (c : pointer) : Prop :=
  c ∈ cs ∧ is_static conf c ∧ exact_match (conf c) = true ∧ name (conf c) = n.
Definition inclusively (n : list Z) (c : pointer) : Prop :=
  c ∈ cs ∧ is_static conf c ∧ exact_match (conf c) = false ∧ name (conf c) = n.
Definition redirecting_to (n : list Z) : Prop :=
  ∃ c, (exactly n c ∨ inclusively n c) ∧ auto_redirect (conf c) = true.

(** The location that a request should get: the exact one with its name, then
    the one with its name, then the one that a slash leads to, then the one with
    the longest name that the request starts with. *)
Inductive selected (uri : list Z) (loc : pointer) : Z → pointer → Prop :=
  | by_exact c : exactly uri c → selected uri loc NGX_OK c
  | by_name c : (∀ d, ¬ exactly uri d) → inclusively uri c → selected uri loc NGX_AGAIN c
  | by_redirect c :
      (∀ d, ¬ exactly uri d ∧ ¬ inclusively uri d) → redirecting_to (uri ++ ["/"%ch]) →
      exactly (uri ++ ["/"%ch]) c ∨ (∀ d, ¬ exactly (uri ++ ["/"%ch]) d) ∧ inclusively (uri ++ ["/"%ch]) c →
      selected uri loc NGX_DONE c
  | by_prefix c n :
      (∀ d, ¬ exactly uri d ∧ ¬ inclusively uri d) → ¬ redirecting_to (uri ++ ["/"%ch]) →
      inclusively n c → extends n uri →
      (∀ d m, inclusively m d → extends m uri → (length m ≤ length n)%nat) →
      selected uri loc NGX_AGAIN c
  | by_none :
      (∀ d, ¬ exactly uri d ∧ ¬ inclusively uri d) → ¬ redirecting_to (uri ++ ["/"%ch]) →
      (∀ d m, inclusively m d → ¬ extends m uri) →
      selected uri loc NGX_DECLINED loc.

(** The entries of the tree stand for the locations. *)
Record stands_for (l : list entry) : Prop := {
  sf_sorted : StronglySorted lt_entry l;
  sf_target : Forall (λ e, target e ≠ None) l;
  sf_exact : ∀ n c, (∃ e, e ∈ l ∧ exact e = Some c ∧ lq_name e = n) ↔ exactly n c;
  sf_inclusive : ∀ n c, (∃ e, e ∈ l ∧ inclusive e = Some c ∧ lq_name e = n) ↔ inclusively n c;
}.

Lemma sorted_entries_filter (P : entry → Prop) `{∀ x, Decision (P x)} l :
  StronglySorted lt_entry l → StronglySorted lt_entry (filter P l).
Proof.
  induction 1 as [|x l Hl IH Hx]; [constructor|]. destruct (decide (P x)).
  - rewrite filter_cons_True by done. constructor; [done|]. apply list.Forall_forall.
    intros y [_ Hy]%list_elem_of_filter. by apply (proj1 (list.Forall_forall _ _) Hx).
  - by rewrite filter_cons_False.
Qed.

Lemma sorted_last l e : StronglySorted lt_entry l → list.last l = Some e →
  ∀ x, x ∈ l → x = e ∨ lt_entry x e.
Proof.
  intros Hl (l' & ->)%last_Some x [Hx| ->%list_elem_of_singleton]%elem_of_app; [right|by left].
  induction l' as [|y l' IH]; [by apply elem_of_nil in Hx|]. apply StronglySorted_inv in Hl as [Hl Hy].
  apply elem_of_cons in Hx as [->|Hx]; [|by apply IH].
  apply list.Forall_app in Hy as [_ Hy]. by apply list.Forall_cons in Hy as [Hy _].
Qed.

Section Search.
Context (l : list entry) (Hl : stands_for l).

Lemma same_name e e' : e ∈ l → e' ∈ l → lq_name e = lq_name e' → e = e'.
Proof.
  pose proof (sf_sorted l Hl) as Hs. clear Hl. revert e e'. induction Hs as [|x l' Hs' IH Hx]; intros e e'; [by intros ?%elem_of_nil|].
  pose proof (proj1 (list.Forall_forall _ _) Hx) as Hx'. unfold lt_entry in Hx'.
  assert (∀ y, y ∈ l' → lq_name x ≠ lq_name y) as Hne.
  { intros y Hy E. specialize (Hx' y Hy). rewrite E in Hx'. by apply lt_irrefl in Hx'. }
  intros [->|He]%elem_of_cons [->|He']%elem_of_cons E; [done|..].
  - by destruct (Hne e' He').
  - by destruct (Hne e He).
  - by apply IH.
Qed.

(** An entry has the exact and the other location with its name. *)
Lemma entry_exact e c : e ∈ l → exact e = Some c ↔ exactly (lq_name e) c.
Proof.
  intros He. rewrite <- (sf_exact l Hl). split; [by exists e|]. intros (e' & He' & Hc & En).
  by rewrite <- (same_name e' e).
Qed.
Lemma entry_inclusive e c : e ∈ l → inclusive e = Some c ↔ inclusively (lq_name e) c.
Proof.
  intros He. rewrite <- (sf_inclusive l Hl). split; [by exists e|]. intros (e' & He' & Hc & En).
  by rewrite <- (same_name e' e).
Qed.

Lemma entry_target e : e ∈ l → ∃ c, target e = Some c ∧
  (exactly (lq_name e) c ∨ (∀ d, ¬ exactly (lq_name e) d) ∧ inclusively (lq_name e) c).
Proof.
  intros He. pose proof (proj1 (list.Forall_forall _ _) (sf_target l Hl) e He) as Ht. unfold target in *.
  destruct (exact e) as [c|] eqn:Ee; [exists c; split; [done|left]; by apply entry_exact|].
  destruct (inclusive e) as [c|] eqn:Ei; [|done]. exists c. split; [done|right].
  split; [|by apply entry_inclusive]. intros d Hd%entry_exact; [|done]. by rewrite Ee in Hd.
Qed.

Lemma entry_redirecting e : e ∈ l → redirecting conf e = true ↔ redirecting_to (lq_name e).
Proof.
  intros He. unfold redirecting, redirects, redirecting_to. split.
  - intros [H|H]%orb_true_iff.
    + destruct (exact e) as [c|] eqn:Ee; [|done]. exists c. split; [left|done]. by apply entry_exact.
    + destruct (inclusive e) as [c|] eqn:Ee; [|done]. exists c. split; [right|done]. by apply entry_inclusive.
  - intros (c & [Hc|Hc] & H).
    + apply entry_exact in Hc as ->; [|done]. by rewrite H.
    + apply entry_inclusive in Hc as ->; [|done]. by rewrite H, orb_true_r.
Qed.

Lemma named_entry n c : exactly n c ∨ inclusively n c → ∃ e, e ∈ l ∧ lq_name e = n.
Proof.
  intros [Hc|Hc].
  - apply (sf_exact l Hl) in Hc as (e & He & _ & E). by exists e.
  - apply (sf_inclusive l Hl) in Hc as (e & He & _ & E). by exists e.
Qed.

Lemma filter_head (P : entry → Prop) `{∀ x, Decision (P x)} e : head (filter P l) = Some e → P e ∧ e ∈ l.
Proof. intros He%head_Some_elem_of. by apply list_elem_of_filter in He. Qed.
Lemma filter_no_head (P : entry → Prop) `{∀ x, Decision (P x)} : head (filter P l) = None → ∀ e, e ∈ l → ¬ P e.
Proof.
  intros Hn e He HP. apply head_None in Hn. assert (e ∈ filter P l) as H1 by by apply list_elem_of_filter.
  rewrite Hn in H1. by apply elem_of_nil in H1.
Qed.

Lemma search_selected uri loc :
  ∃ rc c, search conf uri l NGX_DECLINED loc = Some (rc, c) ∧ selected uri loc rc c.
Proof.
  unfold search. destruct (head (filter (same uri) l)) as [e|] eqn:E1.
  { apply filter_head in E1 as [E1 He]. unfold same in E1. destruct (entry_target e He) as (c & Ht & Hc).
    rewrite E1 in Hc. unfold target in Ht. destruct (exact e) as [c'|] eqn:Ee.
    - injection Ht as ->. exists NGX_OK, c. split; [done|]. apply by_exact. rewrite <- E1. by apply entry_exact.
    - rewrite Ht. exists NGX_AGAIN, c. split; [done|]. apply by_name.
      + intros d Hd. rewrite <- E1 in Hd. apply entry_exact in Hd; [|done]. by rewrite Ee in Hd.
      + rewrite <- E1. by apply entry_inclusive. }
  assert (∀ d, ¬ exactly uri d ∧ ¬ inclusively uri d) as Hno.
  { intros d. split; intros Hd; [destruct (named_entry uri d (or_introl Hd)) as (e & He & En)
                                |destruct (named_entry uri d (or_intror Hd)) as (e & He & En)];
      by apply (filter_no_head _ E1 e He). }
  destruct (head (filter (redirect conf uri) l)) as [e|] eqn:E2.
  { apply filter_head in E2 as [[Hr E2] He]. apply entry_redirecting in Hr; [|done].
    destruct (entry_target e He) as (c & -> & Hc). rewrite E2 in *.
    exists NGX_DONE, c. split; [done|]. by apply by_redirect. }
  assert (¬ redirecting_to (uri ++ ["/"%ch])) as Hnr.
  { intros Hr. destruct Hr as (c & Hc & Ha). destruct (named_entry _ c Hc) as (e & He & En).
    apply (filter_no_head _ E2 e He). split; [|done]. apply entry_redirecting; [done|]. rewrite En. by exists c. }
  destruct (list.last (filter (covers uri) l)) as [e|] eqn:E3.
  - pose proof (sorted_last _ _ (sorted_entries_filter (covers uri) _ (sf_sorted l Hl)) E3) as Hlast.
    apply last_Some_elem_of, list_elem_of_filter in E3 as [[Hi Hext] He].
    destruct (inclusive e) as [c|] eqn:Ei; [|done]. exists NGX_AGAIN, c. split; [done|].
    apply by_prefix with (lq_name e); [done|done|by apply entry_inclusive|done|].
    intros d m Hd Hm. apply (sf_inclusive l Hl) in Hd as (e' & He' & Hd & <-).
    destruct (Hlast e') as [->|Hlt]; [apply list_elem_of_filter; split; [split; [by rewrite Hd|done]|done]|done|].
    destruct (Nat.le_gt_cases (length (lq_name e')) (length (lq_name e))) as [|Hlen]; [done|].
    exfalso. apply (lt_asym _ _ Hlt). right. by eapply longer_prefix.
  - exists NGX_DECLINED, loc. split; [done|]. apply by_none; [done|done|].
    intros d m Hd Hm. apply (sf_inclusive l Hl) in Hd as (e & He & Hd & <-).
    apply last_None in E3. assert (e ∈ filter (covers uri) l) as H1.
    { apply list_elem_of_filter. split; [split; [by rewrite Hd|done]|done]. }
    rewrite E3 in H1. by apply elem_of_nil in H1.
Qed.
End Search.

(** ** The tree of a configuration *)

(** What a name in the file can be, and where [auto_redirect] is set. *)
Record valid (c : pointer) : Prop := {
  valid_name : no_nul (name (conf c));
  valid_empty : name (conf c) ≠ [];
  valid_length : (length (name (conf c)) ≤ 255)%nat;
  valid_slash : auto_redirect (conf c) = true → ∃ q, name (conf c) = q ++ ["/"%ch];
}.
Context (Hvalid : ∀ c, c ∈ cs → is_static conf c → valid c).

Notation items := (item conf <$> filter (is_static conf) cs).

Lemma static_item c : is_static conf c →
  lq (item conf c) =
  if exact_match (conf c) then mk_entry (Some c) None (name (conf c)) else mk_entry None (Some c) (name (conf c)).
Proof.
  unfold is_static, class, item. intros H. destruct (noname (conf c)), (named (conf c)), (is_regex (conf c)); try done.
  by rewrite !orb_false_r.
Qed.

Lemma in_items x : x ∈ items → ∃ c, x = item conf c ∧ c ∈ cs ∧ is_static conf c ∧ valid c.
Proof. intros (c & -> & [Hs Hc]%list_elem_of_filter)%list_elem_of_fmap. exists c. auto. Qed.

Lemma items_joinable : Forall (λ x, joinable x ∧ single x) items.
Proof.
  apply list.Forall_forall. intros x (c & -> & Hc & Hs & [Hn _ _ _])%in_items.
  unfold joinable, single, plain, target. rewrite static_item by done.
  by destruct (exact_match (conf c)); cbn; (split; [|auto]); (split; [|done]).
Qed.

Lemma items_has :
  (∀ n c, has exact items n c ↔ exactly n c) ∧ (∀ n c, has inclusive items n c ↔ inclusively n c).
Proof.
  split; intros n c; (split; [intros (x & (d & -> & Hd & Hs & _)%in_items & Hf & Hn)|intros (Hc & Hs & He & Hn)]).
  1, 3: rewrite static_item in Hf, Hn by done; unfold exactly, inclusively;
    destruct (exact_match (conf d)) eqn:E; cbn in Hf, Hn; by simplify_eq.
  all: exists (item conf c); rewrite static_item, He by done; (split; [|done]);
    apply list_elem_of_fmap; exists c; (split; [done|]); by apply list_elem_of_filter.
Qed.

Lemma items_ordered x y : x ∈ items → y ∈ items → Sort.le (ngx_http_cmp_locations conf) x y → ordered x y.
Proof.
  intros (c & -> & Hc & Hcs & [Hcn _ _ _])%in_items (d & -> & Hd & Hds & [Hdn _ _ _])%in_items Hle%le_key.
  unfold key in Hle. rewrite !clcf_item in Hle. unfold is_static in *. rewrite Hcs, Hds in Hle. cbn in Hle.
  unfold ordered, lt_entry. rewrite !static_item by done.
  destruct Hle as [Hle|[_ [Hle|[E Hle]]]]; cbn in *; [lia| |].
  - left. by destruct (exact_match (conf c)), (exact_match (conf d)); cbn; apply cut_lt.
  - right. rewrite !cut_no_nul in E by done. apply app_inj_tail in E as [E _].
    destruct (exact_match (conf c)), (exact_match (conf d)); cbn in *; split; done || lia.
Qed.

(** Two locations with the same name, of the same kind. *)
Definition duplicates : Prop :=
  ∃ c d r, filter (is_static conf) cs ≡ₚ c :: d :: r ∧
    name (conf c) = name (conf d) ∧ exact_match (conf c) = exact_match (conf d).


Lemma twice_duplicates (l : queue) : l ≡ₚ items → twice exact l ∨ twice inclusive l → duplicates.
Proof.
  intros Hp H.
  assert (∃ (field : entry → option pointer) x y r, (field = exact ∨ field = inclusive) ∧ l ≡ₚ x :: y :: r ∧
    field (lq x) ≠ None ∧ field (lq y) ≠ None ∧ lq_name (lq x) = lq_name (lq y))
    as (field & x & y & r & Hfield & Hl & Hx & Hy & En).
  { destruct H as [(n & a & x & b & y & c & -> & Hx & Hy & E1 & E2)|(n & a & x & b & y & c & -> & Hx & Hy & E1 & E2)];
      [exists exact|exists inclusive]; exists x, y, (a ++ b ++ c); (split; [auto|]);
      (split; [|by rewrite E1, E2]); by rewrite <- !Permutation_middle, !app_assoc. }
  rewrite Hl in Hp. apply Permutation_map_inv in Hp as (l3 & El & Hp).
  destruct l3 as [|c [|d r3]]; [done..|]. injection El as -> -> _. exists c, d, r3. split; [done|].
  assert (∀ e, e ∈ c :: d :: r3 → is_static conf e) as Hst.
  { intros e He. rewrite <- Hp in He. by apply list_elem_of_filter in He as [? _]. }
  assert (is_static conf c) as Hc by (apply Hst; left).
  assert (is_static conf d) as Hd by (apply Hst; right; left).
  rewrite !static_item in * by done.
  destruct Hfield as [->| ->], (exact_match (conf c)), (exact_match (conf d)); cbn in *; by rewrite ?En.
Qed.

Lemma entries_stand l : sorted l → Forall joinable l →
  (∀ n c, has exact l n c ↔ exactly n c) → (∀ n c, has inclusive l n c ↔ inclusively n c) →
  stands_for (lq <$> l).
Proof.
  intros Hs Hj He Hi. split; [done| | |].
  - apply list.Forall_fmap. eapply list.Forall_impl; [exact Hj|]. by intros x [_ Hx].
  - intros n c. rewrite <- He. split.
    + intros (e & (x & -> & Hx)%list_elem_of_fmap & H). by exists x.
    + intros (x & Hx & H). exists (lq x). split; [|done]. apply list_elem_of_fmap. by exists x.
  - intros n c. rewrite <- Hi. split.
    + intros (e & (x & -> & Hx)%list_elem_of_fmap & H). by exists x.
    + intros (x & Hx & H). exists (lq x). split; [|done]. apply list_elem_of_fmap. by exists x.
Qed.

(** The joined queue of the configuration. *)
Lemma join_static :
  match ngx_http_join_exact_locations (static (ngx_http_init_locations conf (queue_of conf cs))) with
  | Some l => Forall plain l ∧ stands_for (lq <$> l)
  | None => duplicates
  end.
Proof.
  destruct (static_part conf cs) as [Hp Hs]. set (l := static _) in *.
  assert (Forall (λ x, joinable x ∧ single x) l) as Hj by (rewrite Hp; apply items_joinable).
  assert (StronglySorted ordered l) as Ho.
  { assert (∀ x, x ∈ l → x ∈ items) as Hin by (intros x; by rewrite Hp). clear Hp Hj.
    induction Hs as [|x l' Hs IH Hx]; [constructor|]. constructor.
    - apply IH. intros y Hy. apply Hin. by right.
    - apply list.Forall_forall. intros y Hy. apply items_ordered; [apply Hin; left|apply Hin; by right|].
      exact (proj1 (list.Forall_forall _ _) Hx y Hy). }
  destruct items_has as [He Hi].
  assert (∀ field n c, has field l n c ↔ has field items n c) as Hhas.
  { intros field n c. unfold has. by setoid_rewrite Hp. }
  destruct l as [|q rest]; cbn [ngx_http_join_exact_locations].
  { split; [by apply list.Forall_nil|]. apply (entries_stand []); [constructor|by apply list.Forall_nil|..];
      intros n c; [by rewrite Hhas, He|by rewrite Hhas, Hi]. }
  apply list.Forall_cons in Hj as [[Hjq _] Hj]. pose proof (join_from_spec rest q Hjq Hj Ho) as H.
  destruct (join_from q rest) as [l|]; [|by apply (twice_duplicates (q :: rest))].
  destruct H as (Hsl & Hjl & _ & He' & Hi'). split.
  { eapply list.Forall_impl; [exact Hjl|]. by intros x [Hx _]. }
  apply entries_stand; [done|done|..]; intros n c; [by rewrite He', Hhas, He|by rewrite Hi', Hhas, Hi].
Qed.

Lemma entries_below l : stands_for l → Forall (below_name conf []) l.
Proof.
  intros Hl. apply list.Forall_forall. intros e He.
  assert (∀ c, exactly (lq_name e) c ∨ inclusively (lq_name e) c → valid c ∧ lq_name e = name (conf c)) as Hc.
  { intros c [(Hc & Hs & _ & E)|(Hc & Hs & _ & E)]; (split; [by apply Hvalid|done]). }
  destruct (entry_target l Hl e He) as (c & Ht & H).
  assert (exactly (lq_name e) c ∨ inclusively (lq_name e) c) as H' by tauto.
  destruct (Hc c H') as [[_ Hne Hlen _] En]. split.
  - rewrite En. destruct (name (conf c)) as [|d t]; [done|]. by exists d, t.
  - rewrite En. cbn. lia.
  - by rewrite Ht.
  - intros Hr. apply (entry_redirecting l Hl e He) in Hr as (d & Hd & Ha).
    destruct (Hc d Hd) as [[_ _ _ Hsl] ->]. by apply Hsl.
Qed.

Lemma static_search uri loc :
  (∀ c d t, c ∈ cs → is_static conf c → name (conf c) = uri ++ d :: t → "/"%ch ≤ d) →
  match static_tree with
  | Some t =>
      ∃ rc c, ngx_http_core_find_static_location t uri NGX_DECLINED loc = Some (rc, c) ∧
        selected uri loc rc c
  | None => duplicates
  end.
Proof.
  intros Huri. unfold static_tree, ngx_http_init_static_location_trees.
  pose proof join_static as Hj. set (l := static _) in *.
  assert (∀ l', Forall plain l' → stands_for (lq <$> l') → ∃ rc c,
    ngx_http_core_find_static_location (ngx_http_create_locations_tree conf (S (length l'))
      (ngx_http_create_locations_list (length l') l') 0) uri NGX_DECLINED loc = Some (rc, c) ∧
    selected uri loc rc c) as Hfind.
  { intros l' Hp Hst. destruct (create_list_spec (length l') l' (le_n _) Hp (sf_sorted _ Hst)) as [Hf Ef].
    destruct (search_selected _ Hst uri loc) as (rc & c & Es & Hsel). exists rc, c. split; [|done].
    rewrite <- Es. rewrite <- Ef. apply (find_search conf _ _ [] uri).
    - rewrite Ef, length_fmap. lia.
    - split; [done| |]; rewrite Ef; [by apply entries_below|].
      apply list.Forall_forall. intros e He d t En. destruct (entry_target _ Hst e He) as (k & _ & Hk).
      assert (k ∈ cs ∧ is_static conf k ∧ name (conf k) = lq_name e) as (H1 & H2 & H3).
      { destruct Hk as [(? & ? & ? & ?)|[_ (? & ? & ? & ?)]]; done. }
      eapply Huri; [exact H1|exact H2|by rewrite H3]. }
  destruct l as [|x l0]; [destruct Hj as [Hp Hst]; by apply (Hfind [])|].
  destruct (ngx_http_join_exact_locations (x :: l0)) as [l'|]; cbn [mbind option_bind]; [|done].
  destruct Hj as [Hp Hst]. by apply Hfind.
Qed.

(** C1: For the locations of a server or location, in any order in the file, with
    names of 1 to 255 bytes without a null character and [auto_redirect] only on
    names that end with a slash ([valid]), and a request that no name continues
    with a byte below the slash: the tree is made unless two locations have the
    same name and are of the same kind, and the search in it gives the request
    the exact location with its name, then the one with its name, then the one a
    slash leads to, then the one with the longest name that the request starts
    with.  Without the condition on the request the slash may be forgotten, see
    [location_redirect_lost]; with longer names see [location_name_cut]. *)
Theorem location_search uri loc :
  (∀ c d t, c ∈ cs → is_static conf c → name (conf c) = uri ++ d :: t → "/"%ch ≤ d) →
  match static_tree with
  | Some t =>
      ∃ rc c, ngx_http_core_find_static_location t uri NGX_DECLINED loc = Some (rc, c) ∧
        selected uri loc rc c
  | None => duplicates
  end.
Proof. exact (static_search uri loc). Qed.
End Config.

(** ** Regular expressions *)

Section Find.
Context (conf : pointer → ngx_http_core_loc_conf_t) (locations : pointer → list pointer)
  (regex_exec : nat → list Z → Z).
Context (Hexec : ∀ re uri, regex_exec re uri = NGX_OK ∨ regex_exec re uri = NGX_DECLINED).


Notation find := (ngx_http_core_find_location conf locations regex_exec).




End Find.

(** ** Where the search does not find the location *)

Definition prefix_conf (n : list Z) (redirect : bool) : ngx_http_core_loc_conf_t :=
  mk_conf n false false false false redirect None.

(** The slash is not added when other names come before the slash in the order
    of the bytes: a request for [/a] is answered by [/], not redirected to
    [/a/]. *)
Definition redirect_confs (c : pointer) : ngx_http_core_loc_conf_t :=
  nth c [prefix_conf (bs "/") false; prefix_conf (bs "/a-a") false; prefix_conf (bs "/a-b") false;
         prefix_conf (bs "/a/") true] (prefix_conf [] false).

Lemma location_redirect_lost :
  (t ← static_tree redirect_confs [0; 1; 2; 3]%nat;
   ngx_http_core_find_static_location t (bs "/a") NGX_DECLINED 9) = Some (NGX_AGAIN, 0%nat) ∧
  selected redirect_confs [0; 1; 2; 3]%nat (bs "/a") 9 NGX_DONE 3 ∧
  (t ← static_tree redirect_confs [0; 1; 3]%nat;
   ngx_http_core_find_static_location t (bs "/a") NGX_DECLINED 9) = Some (NGX_DONE, 3%nat).
Proof.
  split; [by vm_compute|]. split; [|by vm_compute].
  assert (∀ d, d ∈ [0; 1; 2; 3]%nat → d = 0%nat ∨ d = 1%nat ∨ d = 2%nat ∨ d = 3%nat) as Hd.
  { intros d. rewrite !elem_of_cons, elem_of_nil. tauto. }
  assert (∀ n d, exactly redirect_confs [0; 1; 2; 3]%nat n d → False) as Hex.
  { intros n d (Hin & _ & He & _). by destruct (Hd d Hin) as [->|[->|[->| ->]]]. }
  assert (inclusively redirect_confs [0; 1; 2; 3]%nat (bs "/a/") 3) as H3.
  { split; [by repeat (left || right)|done]. }
  apply by_redirect.
  - intros d. split; [by intros ?%Hex|]. intros (Hin & _ & _ & Hn).
    by destruct (Hd d Hin) as [->|[->|[->| ->]]].
  - exists 3%nat. split; [by right|done].
  - right. split; [|done]. by intros d ?%Hex.
Qed.

(** The length of a name is kept in a byte: a location with a name of 257 bytes
    gets the requests for [/]. *)
Lemma location_name_cut :
  (t ← static_tree (λ _, prefix_conf (bs "/" ++ repeat "a"%ch 256) false) [7]%nat;
   ngx_http_core_find_static_location t (bs "/") NGX_DECLINED 9) = Some (NGX_AGAIN, 7%nat).
Proof. by vm_compute. Qed.

(** An expression inside of the location with the longest name is tried before
    an earlier one of the server, and although the location has [^~]. *)
Definition nested_confs (c : pointer) : ngx_http_core_loc_conf_t :=
  nth c [mk_conf (bs "\.php$") false false false false false (Some 5%nat);
         mk_conf (bs "/img/") false false false true false None;
         mk_conf (bs "\.php$") false false false false false (Some 5%nat)]
    (prefix_conf [] false).
Lemma nested_regex_first :
  ngx_http_core_find_location nested_confs
    (λ c, if (c =? 9)%nat then [0; 1]%nat else if (c =? 1)%nat then [2]%nat else [])
    (λ _ _, NGX_OK) 3 (bs "/img/a.php") 9 = Some (NGX_OK, 2%nat).
Proof. by vm_compute. Qed.

(** ** Witnesses *)

Definition example_confs (c : pointer) : ngx_http_core_loc_conf_t :=
  nth c [prefix_conf (bs "/") false;
         mk_conf (bs "\.php$") false false false false false (Some 5%nat);
         prefix_conf (bs "/img/") true;
         mk_conf (bs "/img") true false false false false None]
    (prefix_conf [] false).

Lemma example_in c : c ∈ [0; 1; 2; 3]%nat → c = 0%nat ∨ c = 1%nat ∨ c = 2%nat ∨ c = 3%nat.
Proof. rewrite !elem_of_cons, elem_of_nil. tauto. Qed.

Lemma example_valid c : c ∈ [0; 1; 2; 3]%nat → is_static example_confs c → valid example_confs c.
Proof.
  intros Hc Hs. assert (∀ n, forallb (λ c, (1 <=? c) && (c <? 256)) n = true → no_nul n) as Hno.
  { intros n H. apply list.Forall_forall. intros x Hx. rewrite forallb_forall in H.
    specialize (H x (proj1 (list_elem_of_In _ _) Hx)). unfold is_byte. bool_to_prop. lia. }
  destruct (example_in c Hc) as [->|[->|[->| ->]]]; [|done|..]; (split; [by apply Hno|done|cbn; lia|]); try done.
  intros _. by exists (bs "/img").
Qed.

Lemma example_after c d t u : c ∈ [0; 1; 2; 3]%nat → is_static example_confs c →
  u = bs "/i.php" ∨ u = bs "/img" → name (example_confs c) = u ++ d :: t → "/"%ch ≤ d.
Proof.
  intros Hc Hs Hu. by destruct (example_in c Hc) as [->|[->|[->| ->]]], Hu as [->| ->]; intros [=]; subst.
Qed.

Lemma location_search_witness :
  ∃ t, static_tree example_confs [0; 1; 2; 3]%nat = Some t ∧
    ngx_http_core_find_static_location t (bs "/img") NGX_DECLINED 9 = Some (NGX_OK, 3%nat).
Proof.
  pose proof (location_search example_confs [0; 1; 2; 3]%nat example_valid (bs "/img") 9
    ltac:(intros c d t Hc Hs; apply (example_after c d t _ Hc Hs); by right)) as H.
  destruct (static_tree example_confs [0; 1; 2; 3]%nat) as [t|] eqn:Et; [|by vm_compute in Et].
  destruct H as (rc & c & E & _). exists t. split; [done|].
  vm_compute in Et. injection Et as <-. vm_compute. reflexivity.
Defined.


End LocationSearch.
