(* ===== verification/Inet.v ===== *)
(** * Internet addresses

    src/core/ngx_inet.c: addresses from texts and texts of addresses, networks
    in CIDR notation.  The functions for IPv6 are those of a build with
    [NGX_HAVE_INET6], which is a parameter where both builds have a function.
    [None] is a write outside of the address. *)

From S2P Require Import Prelude Number StringOps Printf.

Module Inet.

(** ** IPv4 *)

Definition INADDR_NONE : Z := 0xffffffff.

(** A 32-bit number on a little-endian machine and its bytes in memory. *)
Definition load32 (b : list Z) : Z :=
  match b with
  | [b0; b1; b2; b3] => b0 + 256 * b1 + 65536 * b2 + 16777216 * b3
  | _ => 0
  end.
Definition bytes32 (x : Z) : list Z := [x mod 256; x / 256 mod 256; x / 65536 mod 256; x / 16777216 mod 256].
Definition htonl (x : Z) : Z := load32 (rev (bytes32 x)).
Definition ntohl : Z → Z := htonl.

Fixpoint inet_loop (addr octet n : Z) (text : list Z) : Z :=
  match text with
  | [] =>
      if (n =? 3) && (octet <? 256) then
        let addr := u32 (u32 (Z.shiftl addr 8) + octet) in htonl addr
      else INADDR_NONE
  | c :: text =>
      if is_digit c then inet_loop addr (u64 (octet * 10 + (c - "0"%ch))) n text
      else if (c =? "."%ch) && (octet <? 256) then
        inet_loop (u32 (u32 (Z.shiftl addr 8) + octet)) 0 (u64 (n + 1)) text
      else INADDR_NONE
  end.

Definition ngx_inet_addr (text : list Z) : Z := inet_loop 0 0 0 text.

(** ** IPv6 *)

(** The variables of [ngx_inet6_addr]: the 16 bytes at the parameter [addr] and
    the offset of [addr] in them; [zero] is an offset too, [digit] is the text
    from there on, of which [len4 - 1] bytes are left. *)
Record vars6 := mk_vars {
  mem : list Z;
  addr : Z;
  zero : option Z;
  digit : option (list Z);
  nibbles : Z;
  word : Z;
  n : Z;
}.

#[export] Instance eta_vars6 : Eta vars6 := λ v,
  mk_vars (mem v) (addr v) (zero v) (digit v) (nibbles v) (word v) (n v).

(** [*addr++ = (u_char) b] *)
Definition put (b : Z) (v : vars6) : option vars6 :=
  if (0 <=? addr v) && (addr v <? Z.of_nat (length (mem v))) then
    Some (v <| mem := <[Z.to_nat (addr v) := u8 b]> (mem v) |> <| addr := addr v + 1 |>)
  else None.

Inductive outcome6 := Next (v : vars6) | Stop (v : vars6) | Error.

(** The body of the loop: [c] is [*p++], [rest] the text from [p] on. *)
Definition step6 (v : vars6) (c : Z) (rest : list Z) : option outcome6 :=
  if c =? ":"%ch then
    if negb (nibbles v =? 0) then
      let v := v <| digit := Some rest |> in
      v ← put (Z.shiftr (word v) 8) v;
      v ← put (Z.land (word v) 0xff) v;
      let v := v <| n := u64 (n v - 1) |> in
      Some (if negb (n v =? 0) then Next (v <| nibbles := 0 |> <| word := 0 |>) else Error)
    else
      Some match zero v with
           | None => Next (v <| digit := Some rest |> <| zero := Some (addr v) |>)
           | Some _ => Error
           end
  else if (c =? "."%ch) && negb (nibbles v =? 0) then
    match digit v with
    | Some text =>
        if n v <? 2 then Some Error
        else
          let v := v <| word := ngx_inet_addr text |> in
          if word v =? INADDR_NONE then Some Error
          else
            let v := v <| word := ntohl (word v) |> in
            v ← put (Z.land (Z.shiftr (word v) 24) 0xff) v;
            v ← put (Z.land (Z.shiftr (word v) 16) 0xff) v;
            Some (Stop (v <| n := u64 (n v - 1) |>))
    | None => Some Error
    end
  else
    let v := v <| nibbles := u64 (nibbles v + 1) |> in
    if 4 <? nibbles v then Some Error
    else if is_digit c then Some (Next (v <| word := u64 (word v * 16 + (c - "0"%ch)) |>))
    else
      let c := u8 (Z.lor c 0x20) in
      if ("a"%ch <=? c) && (c <=? "f"%ch) then
        Some (Next (v <| word := u64 (u64 (word v * 16 + (c - "a"%ch)) + 10) |>))
      else Some Error.

(** [for ( ; len; len--)]: [inl] is the result of a [return]. *)
Fixpoint loop6 (v : vars6) (text : list Z) : option (Z + vars6) :=
  match text with
  | [] => Some (inr v)
  | c :: text =>
      r ← step6 v c text;
      match r with Next v => loop6 v text | Stop v => Some (inr v) | Error => Some (inl NGX_ERROR) end
  end.

(** [while (s >= zero) { *d-- = *s--; }] *)
Fixpoint move_up (fuel : nat) (mem : list Z) (zero s d : Z) : option (list Z) :=
  if s <? zero then Some mem
  else
    match fuel with
    | O => None
    | S fuel =>
        x ← mem !! Z.to_nat s;
        if (0 <=? d) && (d <? Z.of_nat (length mem)) then
          move_up fuel (<[Z.to_nat d := x]> mem) zero (s - 1) (d - 1)
        else None
    end.

(** [ngx_memzero(zero, n)] *)
Definition memzero (mem : list Z) (zero n : Z) : option (list Z) :=
  if (0 <=? zero) && (zero + n <=? Z.of_nat (length mem)) then
    Some (take (Z.to_nat zero) mem ++ replicate (Z.to_nat n) 0 ++ drop (Z.to_nat (zero + n)) mem)
  else None.

(** After the loop: the last word, and the zeros for ["::"]. *)
Definition finish6 (v : vars6) : option (Z * list Z) :=
  if (nibbles v =? 0) && bool_decide (zero v = None) then Some (NGX_ERROR, mem v)
  else
    v ← put (Z.shiftr (word v) 8) v;
    v ← put (Z.land (word v) 0xff) v;
    let v := v <| n := u64 (n v - 1) |> in
    if negb (n v =? 0) then
      match zero v with
      | Some z =>
          let n := u64 (n v * 2) in
          let s := addr v - 1 in
          mem ← move_up 16 (mem v) z s (s + n);
          mem ← memzero mem z n;
          Some (NGX_OK, mem)
      | None => Some (NGX_ERROR, mem v)
      end
    else Some (if bool_decide (zero v = None) then NGX_OK else NGX_ERROR, mem v).

(** The result and the bytes of the address on success, which were [mem0]
    before. *)
Definition ngx_inet6_addr (p : list Z) (mem0 : list Z) : option (Z * list Z) :=
  match p with
  | [] => Some (NGX_ERROR, mem0)
  | c :: p' =>
      let p := if c =? ":"%ch then p' else p in
      r ← loop6 (mk_vars mem0 0 None None 0 0 8) p;
      match r with
      | inl rc => Some (rc, mem0)
      | inr v => finish6 v
      end
  end.

(** ** Texts of addresses *)

Abbreviation NGX_INET6_ADDRSTRLEN := 45.

Definition dotted (p : list Z) : list Printf.arg :=
  [Printf.AInt (nth 0 p 0); Printf.AInt (nth 1 p 0); Printf.AInt (nth 2 p 0); Printf.AInt (nth 3 p 0)].

(** The runs of zeros: [zero], [last] ([None] is [-1]), [max] and [n]. *)
Fixpoint scan6 (i : Z) (p : list Z) (zero last : option Z) (max n : Z) : option Z * Z :=
  match p with
  | a :: b :: p =>
      if negb (a =? 0) || negb (b =? 0) then
        if max <? n then scan6 (i + 2) p last last n 0 else scan6 (i + 2) p zero last max 0
      else scan6 (i + 2) p zero (if n =? 0 then Some i else last) max (n + 1)
  | _ => if max <? n then (last, n) else (zero, max)
  end.

(** [for (i = 0; i < n; i += 2)]: the bytes written at [dst]. *)
Fixpoint print6 (fuel : nat) (dst : Z) (p : list Z) (i n : Z) (zero : option Z) (max : Z) : option (list Z) :=
  if i <? n then
    match fuel with
    | O => None
    | S fuel =>
        if bool_decide (zero = Some i) then
          out ← print6 fuel (dst + 1) p (i + (max - 1) * 2 + 2) n zero max;
          Some (":"%ch :: out)
        else
          a ← p !! Z.to_nat i;
          b ← p !! Z.to_nat (i + 1);
          text ← Printf.ngx_sprintf dst (bs "%uxi") [Printf.AInt (a * 256 + b)];
          let text := text ++ (if i <? 14 then [":"%ch] else []) in
          out ← print6 fuel (dst + Z.of_nat (length text)) p (i + 2) n zero max;
          Some (text ++ out)
    end
  else Some [].

(** The text; its length is the result of the function.  [p] are the 16 bytes
    of the address and [text] the address of the buffer. *)
Definition ngx_inet6_ntop (p : list Z) (text len : Z) : option (list Z) :=
  if len <? NGX_INET6_ADDRSTRLEN then Some []
  else
    let '(zero, max) := scan6 0 p None None 1 0 in
    let byte i := nth i p 0 in
    let compressed := bool_decide (zero = Some 0) in
    let n :=
      if compressed &&
         (((max =? 5) && (byte 10%nat =? 0xff) && (byte 11%nat =? 0xff)) || (max =? 6) ||
          ((max =? 7) && negb (byte 14%nat =? 0) && negb (byte 15%nat =? 1)))
      then 12 else 16 in
    let dst := if compressed then [":"%ch] else [] in
    out ← print6 8 (text + Z.of_nat (length dst)) p 0 n zero max;
    let dst := dst ++ out in
    tail ← (if n =? 12 then Printf.ngx_sprintf (text + Z.of_nat (length dst)) (bs "%ud.%ud.%ud.%ud") (dotted (drop 12 p))
            else Some []);
    Some (dst ++ tail).

Inductive sockaddr :=
  | AF_INET (sin_addr : list Z) (sin_port : Z)
  | AF_INET6 (sin6_addr : list Z) (sin6_port : Z)
  | AF_UNIX (sun_path : list Z)
  | AF_OTHER.

(** [ngx_inet_ntop] for the families [AF_INET] and [AF_INET6]. *)
Definition ngx_inet_ntop (have_inet6 : bool) (sa : sockaddr) (text len : Z) : option (list Z) :=
  match sa with
  | AF_INET p _ => Printf.ngx_snprintf len (bs "%ud.%ud.%ud.%ud") (dotted p)
  | AF_INET6 p _ => if have_inet6 then ngx_inet6_ntop p text len else Some []
  | _ => Some []
  end.

(** [ngx_sock_ntop], ports in the order of the machine, [len] not 0. *)
Definition ngx_sock_ntop (have_inet6 : bool) (sa : sockaddr) (text len : Z) (port : bool) : option (list Z) :=
  match sa with
  | AF_INET p sin_port =>
      if port then Printf.ngx_snprintf len (bs "%ud.%ud.%ud.%ud:%d") (dotted p ++ [Printf.AInt sin_port])
      else Printf.ngx_snprintf len (bs "%ud.%ud.%ud.%ud") (dotted p)
  | AF_INET6 p sin6_port =>
      if have_inet6 then
        let open := if port then ["["%ch] else [] in
        out ← ngx_inet6_ntop p (text + Z.of_nat (length open)) len;
        if port then
          tail ← Printf.ngx_sprintf (text + 1 + Z.of_nat (length out)) (bs "]:%d") [Printf.AInt sin6_port];
          Some (open ++ out ++ tail)
        else Some out
      else Some []
  | AF_UNIX path =>
      out ← Printf.ngx_snprintf len (bs "unix:%s%Z") [Printf.APtr path];
      Some (take (length out - 1) out)
  | AF_OTHER => Some []
  end.

(** ** Networks *)

Inductive ngx_cidr_t :=
  | In (addr mask : Z)
  | In6 (addr mask : list Z).

(** A network with bits after the mask. *)
Abbreviation NGX_DONE := (-4).

(** The loop over the bytes of an IPv6 address: [rc], the address and the mask. *)
Fixpoint mask6 (addr : list Z) (shift : Z) : Z * list Z * list Z :=
  match addr with
  | [] => (NGX_OK, [], [])
  | a :: addr =>
      let s := if 8 <? shift then 8 else shift in
      let m := u8 (Z.shiftl 0xff (8 - s)) in
      let '(rc, addr, mask) := mask6 addr (shift - s) in
      (if a =? Z.land a m then rc else NGX_DONE, Z.land a m :: addr, m :: mask)
  end.

(** [cidr->u.in6.addr] before the call is [mem0]; [None] for a network that is
    not set on return.  [NGX_DONE] is a network with bits after the mask. *)
Definition ngx_ptocidr (have_inet6 : bool) (text : list Z) (mem0 : list Z) : option (Z * option ngx_cidr_t) :=
  let mask := StringOps.ngx_strlchr text "/"%ch in
  let host := take (default (length text) mask) text in
  let inaddr := ngx_inet_addr host in
  family ← (if negb (inaddr =? INADDR_NONE) then Some (Some (In inaddr 0))
            else if have_inet6 then
              '(rc, a) ← ngx_inet6_addr host mem0;
              Some (if rc =? NGX_OK then Some (In6 a []) else None)
            else Some None);
  match family, mask with
  | None, _ => Some (NGX_ERROR, None)
  | Some (In a _), None => Some (NGX_OK, Some (In a 0xffffffff))
  | Some (In6 a _), None => Some (NGX_OK, Some (In6 a (replicate 16 0xff)))
  | Some cidr, Some i =>
      let shift := Number.ngx_atoi (drop (S i) text) in
      if shift =? NGX_ERROR then Some (NGX_ERROR, None)
      else
        match cidr with
        | In6 a _ =>
            if 128 <? shift then Some (NGX_ERROR, None)
            else
              let '(rc, a, m) := mask6 a shift in
              Some (rc, Some (In6 a m))
        | In a _ =>
            if 32 <? shift then Some (NGX_ERROR, None)
            else
              let m := if negb (shift =? 0) then htonl (u32 (Z.shiftl 0xffffffff (32 - shift))) else 0 in
              Some (if a =? Z.land a m then NGX_OK else NGX_DONE, Some (In (Z.land a m) m))
        end
  end.

(** [ngx_parse_addr], the allocation succeeding: the address has no port. *)
Definition ngx_parse_addr (have_inet6 : bool) (text : list Z) : option (Z * option sockaddr) :=
  let inaddr := ngx_inet_addr text in
  if negb (inaddr =? INADDR_NONE) then Some (NGX_OK, Some (AF_INET (bytes32 inaddr) 0))
  else if have_inet6 then
    '(rc, a) ← ngx_inet6_addr text (replicate 16 0);
    Some (if rc =? NGX_OK then (NGX_OK, Some (AF_INET6 a 0)) else (NGX_DECLINED, None))
  else Some (NGX_DECLINED, None).
End Inet.
