(* ===== verification/InetProof.v ===== *)
(** * Addresses are read back as they are printed

    [ngx_inet_addr] and [ngx_inet6_addr] on the texts of [ngx_inet_ntop], and
    what they do with any text. *)

From S2P Require Import Prelude Number Printf Times Inet.

Module InetProof.
Import Inet.

(** ** IPv4 *)

Definition dec_text (x : Z) : list Z := Printf.num_digits x 0.
Definition dotted_text (p : list Z) : list Z :=
  match p with
  | [a; b; c; d] => dec_text a ++ "."%ch :: dec_text b ++ "."%ch :: dec_text c ++ "."%ch :: dec_text d
  | _ => []
  end.

Lemma dec_text_digits x : 0 ≤ x < 256 →
  Forall is_digit (dec_text x) ∧ dec (dec_text x) = x ∧ (1 ≤ length (dec_text x) ≤ 3)%nat.
Proof.
  intros Hx. destruct (Printf.num_digits_dec x) as (Hd & Hne & Hv & _); [lia|]. split; [done|]. split; [done|].
  split; [destruct (dec_text x) eqn:E; [by unfold dec_text in E|cbn; lia]|].
  unfold dec_text. rewrite Times.num_digits_small by lia.
  destruct (decide (x < 10)); [rewrite Times.dec_digits_last by lia; cbn; lia|].
  rewrite Times.dec_digits_more by lia.
  destruct (decide (x < 100)); [rewrite Times.dec_digits_last by zlia; cbn; lia|].
  rewrite Times.dec_digits_more by zlia. rewrite Times.dec_digits_last by zlia. cbn. lia.
Qed.

Lemma inet_digits ds : ∀ addr octet n rest, Forall is_digit ds → 0 ≤ octet → dec_from octet ds ≤ MAX_INT64 →
  inet_loop addr octet n (ds ++ rest) = inet_loop addr (dec_from octet ds) n rest.
Proof.
  induction ds as [|c ds IH]; intros addr octet n rest Hd Ho Hm; [done|].
  inversion_clear Hd as [|?? Hc Hd']. cbn [app inet_loop]. rewrite (proj1 (Is_true_true _) Hc).
  apply is_digit_range in Hc. cbn in Hm.
  assert (octet * 10 + (c - 48) ≤ MAX_INT64).
  { etrans; [|apply Hm]. apply Number.dec_from_ge; [lia|done]. }
  rewrite u64_id by lia. apply IH; [done|lia|done].
Qed.

Lemma inet_octet addr n x rest : 0 ≤ x < 256 →
  inet_loop addr 0 n (dec_text x ++ rest) = inet_loop addr x n rest.
Proof.
  intros Hx. destruct (dec_text_digits x Hx) as (Hd & Hv & _).
  rewrite inet_digits; [by rewrite Hv|done|lia|rewrite Hv; lia].
Qed.

Lemma load32_bytes a b c d : is_byte a → is_byte b → is_byte c → is_byte d →
  htonl (((a * 256 + b) * 256 + c) * 256 + d) = load32 [a; b; c; d].
Proof.
  unfold is_byte. intros Ha Hb Hc Hd. unfold htonl, bytes32. cbn [rev app load32].
  rewrite (Z.mod_small (_ / 16777216)) by zlia.
  replace ((((a * 256 + b) * 256 + c) * 256 + d) mod 256) with d by zlia.
  replace ((((a * 256 + b) * 256 + c) * 256 + d) / 256 mod 256) with c by zlia.
  replace ((((a * 256 + b) * 256 + c) * 256 + d) / 65536 mod 256) with b by zlia.
  replace ((((a * 256 + b) * 256 + c) * 256 + d) / 16777216) with a by zlia. lia.
Qed.

Lemma shift_octet addr x : 0 ≤ addr → addr * 256 + x < 2 ^ 32 → 0 ≤ x < 256 →
  u32 (u32 (Z.shiftl addr 8) + x) = addr * 256 + x.
Proof. intros. rewrite Z.shiftl_mul_pow2 by lia. change (2 ^ 8) with 256. rewrite !u32_id; rewrite ?u32_id; lia. Qed.

Lemma inet_addr_dotted a b c d : is_byte a → is_byte b → is_byte c → is_byte d →
  ngx_inet_addr (dotted_text [a; b; c; d]) = load32 [a; b; c; d].
Proof.
  intros Ha Hb Hc Hd. pose proof (load32_bytes a b c d Ha Hb Hc Hd) as E. unfold is_byte in *.
  assert (∀ x, 0 ≤ x < 256 → (x <? 256) = true) as Hlt by (intros; lia).
  unfold ngx_inet_addr, dotted_text.
  rewrite inet_octet by lia. cbn [inet_loop]. change (is_digit "."%ch) with false. cbn [Z.eqb Pos.eqb andb].
  rewrite Hlt, shift_octet by lia. change (u64 (0 + 1)) with 1.
  rewrite inet_octet by lia. cbn [inet_loop]. change (is_digit "."%ch) with false. cbn [Z.eqb Pos.eqb andb].
  rewrite Hlt, shift_octet by lia. change (u64 (1 + 1)) with 2.
  rewrite inet_octet by lia. cbn [inet_loop]. change (is_digit "."%ch) with false. cbn [Z.eqb Pos.eqb andb].
  rewrite Hlt, shift_octet by lia. change (u64 (2 + 1)) with 3.
  rewrite <- (app_nil_r (dec_text d)), inet_octet by lia. cbn [inet_loop Z.eqb Pos.eqb andb].
  rewrite Hlt, shift_octet by lia. exact E.
Qed.

(** The directives ["%ud"] and ["%uxi"]. *)
Lemma directive_ud room x fmt args : 3 ≤ room → 0 ≤ x < 256 →
  Printf.directive room ("u"%ch :: "d"%ch :: fmt) (Printf.AInt x :: args) = Some (dec_text x, fmt, args).
Proof.
  intros Hr Hx. destruct (dec_text_digits x Hx) as (_ & _ & Hl). unfold Printf.directive.
  change (Printf.read_spec _ _) with
    (Some (Printf.mk_spec " "%ch 0 false 0 false 0 MAX_UINT64, "d"%ch :: fmt, Printf.AInt x :: args)).
  cbn -[Printf.put_integer s32 u32 dec_text]. rewrite Printf.put_integer_clip by lia.
  unfold Printf.integer_text. cbn -[Printf.number s32 u32 dec_text]. rewrite u32_id by lia.
  unfold Printf.number. fold (dec_text x). replace (Z.to_nat (0 - _)) with O by lia. cbn [replicate app].
  by rewrite take_ge by lia.
Qed.

Lemma loop_ud fuel room x fmt args : 3 ≤ room → 0 ≤ x < 256 →
  Printf.vslprintf_loop (S fuel) room ("%"%ch :: "u"%ch :: "d"%ch :: fmt) (Printf.AInt x :: args) =
  option_map (app (dec_text x)) (Printf.vslprintf_loop fuel (room - Z.of_nat (length (dec_text x))) fmt args).
Proof. intros. apply Times.loop_directive; [lia|by apply directive_ud]. Qed.

Lemma print_dotted room a b c d : 15 ≤ room → is_byte a → is_byte b → is_byte c → is_byte d →
  Printf.ngx_vslprintf room (bs "%ud.%ud.%ud.%ud") (dotted [a; b; c; d]) = Some (dotted_text [a; b; c; d]).
Proof.
  intros Hr Ha Hb Hc Hd. unfold is_byte in *.
  destruct (dec_text_digits a Ha) as (_ & _ & La), (dec_text_digits b Hb) as (_ & _ & Lb),
    (dec_text_digits c Hc) as (_ & _ & Lc), (dec_text_digits d Hd) as (_ & _ & Ld).
  unfold Printf.ngx_vslprintf, dotted. cbn [bs nth length].
  rewrite loop_ud by lia. rewrite Times.loop_literal by (lia || done).
  rewrite loop_ud by lia. rewrite Times.loop_literal by (lia || done).
  rewrite loop_ud by lia. rewrite Times.loop_literal by (lia || done).
  rewrite loop_ud by lia. cbn [Printf.vslprintf_loop option_map].
  unfold dotted_text. by rewrite app_nil_r.
Qed.

(** An IPv4 address that is printed is read back; 255.255.255.255 is the
    value that means an error. *)
Theorem inet_roundtrip have_inet6 a b c d port text len :
  is_byte a → is_byte b → is_byte c → is_byte d → 15 ≤ len →
  ∃ t, ngx_inet_ntop have_inet6 (AF_INET [a; b; c; d] port) text len = Some t ∧
    Z.of_nat (length t) ≤ 15 ∧ ngx_inet_addr t = load32 [a; b; c; d] ∧
    (ngx_inet_addr t = INADDR_NONE ↔ [a; b; c; d] = replicate 4 255).
Proof.
  intros Ha Hb Hc Hd Hl. exists (dotted_text [a; b; c; d]). split; [by apply print_dotted|].
  rewrite inet_addr_dotted by done. unfold is_byte in *. split.
  { unfold dotted_text. rewrite !length_app. cbn [length]. rewrite !length_app. cbn [length]. rewrite length_app. cbn [length].
    pose proof (dec_text_digits a Ha). pose proof (dec_text_digits b Hb). pose proof (dec_text_digits c Hc).
    pose proof (dec_text_digits d Hd). lia. }
  split; [done|]. cbn [load32 replicate]. unfold INADDR_NONE. split; [|by intros [= -> -> -> ->]].
  intros E. assert (a = 255 ∧ b = 255 ∧ c = 255 ∧ d = 255) as (-> & -> & -> & ->) by lia. done.
Qed.

(** ** IPv6: reading *)

Definition hex_text (w : Z) : list Z := Printf.num_digits w 1.

Lemma hex_digit_char c x : Number.hex_digit c = Some x → c ≠ ":"%ch ∧ c ≠ "."%ch ∧ 0 ≤ x < 16.
Proof.
  intros H. split; [by intros ->|]. split; [by intros ->|]. unfold Number.hex_digit in H.
  repeat case_match; simplify_eq; bool_to_prop; lia.
Qed.

(** A digit that is read. *)
Lemma step6_hex m a z dg nb w n c x rest : Number.hex_digit c = Some x → 0 ≤ nb < 4 → 0 ≤ w < 65536 →
  step6 (mk_vars m a z dg nb w n) c rest = Some (Next (mk_vars m a z dg (nb + 1) (w * 16 + x) n)).
Proof.
  intros Hc Hnb Hw. destruct (hex_digit_char c x Hc) as (Hc1 & Hc2 & Hx).
  unfold step6, Number.hex_digit, is_digit in *. cbn [nibbles].
  rewrite (proj2 (Z.eqb_neq c ":"%ch) Hc1), (proj2 (Z.eqb_neq c "."%ch) Hc2).
  cbn [andb]. unfold set_field. cbn [mem addr zero digit nibbles word Inet.n]. rewrite (u64_id (nb + 1)) by lia.
  rewrite (proj2 (Z.ltb_ge 4 (nb + 1))) by lia.
  destruct (("0"%ch <=? c) && (c <=? "9"%ch)) eqn:E.
  - simplify_eq. bool_to_prop. rewrite u64_id by lia. done.
  - destruct (("a"%ch <=? u8 (Z.lor c 0x20)) && (u8 (Z.lor c 0x20) <=? "f"%ch)) eqn:E1; simplify_eq.
    bool_to_prop. rewrite !u64_id by (rewrite ?u64_id; lia). do 3 f_equal. lia.
Qed.

(** A word of up to [k] digits. *)
Lemma hex_digits_read k : ∀ fuel w acc, (0 < k ≤ 4)%nat → (k ≤ fuel)%nat → 0 ≤ w < 16 ^ Z.of_nat k →
  ∃ ds, Printf.hex_digits fuel Number.hex w acc = ds ++ acc ∧ (1 ≤ length ds ≤ k)%nat ∧
    (∀ c, head ds = Some c → c ≠ ":"%ch) ∧
    ∀ m a z dg n rest, loop6 (mk_vars m a z dg 0 0 n) (ds ++ rest) =
      loop6 (mk_vars m a z dg (Z.of_nat (length ds)) w n) rest.
Proof.
  induction k as [|k IH]; intros fuel w acc Hk Hf Hw; [lia|].
  destruct fuel as [|fuel]; [lia|]. rewrite Nat2Z.inj_succ, Z.pow_succ_r in Hw by lia. cbn [Printf.hex_digits].
  change 0xf with (Z.ones 4). rewrite Z.land_ones, Z.shiftr_div_pow2 by lia. change (2 ^ 4) with 16.
  pose proof (Printf.hex_digit_nth (w mod 16) ltac:(zlia)) as Hd. set (d := nth _ _ _) in *.
  assert (16 ^ Z.of_nat k ≤ 4096) as Hpow.
  { change 4096 with (16 ^ 3). apply Z.pow_le_mono_r; lia. }
  destruct (Z.eqb_spec (w / 16) 0) as [E|E].
  - exists [d]. split; [done|]. split; [cbn; lia|]. split.
    { intros c [= <-] Hc. by rewrite Hc in Hd. }
    intros m a z dg n rest. cbn [app loop6]. rewrite (step6_hex _ _ _ _ _ _ _ _ _ _ Hd) by lia.
    cbn [mbind option_bind length]. do 2 f_equal. zlia.
  - destruct k as [|k]; [cbn in Hw; zlia|].
    destruct (IH fuel (w / 16) (d :: acc)) as (ds & -> & Hl & Hh & Hv);
      [lia|lia|split; [zlia|apply Z.div_lt_upper_bound; lia]|].
    exists (ds ++ [d]). rewrite <- app_assoc. split; [done|]. split; [rewrite length_app; cbn; lia|]. split.
    { intros c Hc. apply Hh. destruct ds; [cbn in Hl; lia|done]. }
    intros m a z dg n rest. rewrite <- app_assoc, Hv. cbn [app loop6].
    assert (w / 16 < 65536) by (apply Z.div_lt_upper_bound; lia).
    rewrite (step6_hex _ _ _ _ _ _ _ _ _ _ Hd) by zlia.
    cbn [mbind option_bind]. rewrite length_app. cbn [length]. do 2 f_equal; zlia.
Qed.

Lemma hex_text_read w : 0 ≤ w < 65536 → (1 ≤ length (hex_text w) ≤ 4)%nat ∧
  (∀ c, head (hex_text w) = Some c → c ≠ ":"%ch) ∧
  ∀ m a z dg n rest, loop6 (mk_vars m a z dg 0 0 n) (hex_text w ++ rest) =
    loop6 (mk_vars m a z dg (Z.of_nat (length (hex_text w))) w n) rest.
Proof.
  intros Hw. destruct (hex_digits_read 4 Printf.NGX_INT64_LEN w []) as (ds & E & H); [lia|lia|done|].
  unfold hex_text, Printf.num_digits. cbn [Z.eqb]. change (1 =? 1)%positive with true. cbv iota.
  rewrite app_nil_r in E. by rewrite E.
Qed.

(** The bytes of a word are written at the end of those that are there. *)
Abbreviation pairs := (list (Z * Z)).
Definition pair_ok (w : Z * Z) : Prop := is_byte w.1 ∧ is_byte w.2.
Definition value (w : Z * Z) : Z := w.1 * 256 + w.2.
Definition flat (ps : pairs) : list Z := concat ((λ w, [w.1; w.2]) <$> ps).

Lemma value_range w : pair_ok w → 0 ≤ value w < 65536.
Proof. destruct w as [a b]. unfold pair_ok, is_byte, value. cbn. lia. Qed.

Lemma flat_words_app ps qs : flat (ps ++ qs) = flat ps ++ flat qs.
Proof. unfold flat. by rewrite fmap_app, concat_app. Qed.
Lemma length_flat ps : length (flat ps) = (2 * length ps)%nat.
Proof.
  induction ps as [|w ps IH]; [done|]. change (flat (w :: ps)) with ([w.1; w.2] ++ flat ps).
  rewrite length_app, IH. cbn. lia.
Qed.

Lemma put_end out x tail z dg nb w n b :
  put b (mk_vars (out ++ x :: tail) (Z.of_nat (length out)) z dg nb w n) =
  Some (mk_vars ((out ++ [u8 b]) ++ tail) (Z.of_nat (length (out ++ [u8 b]))) z dg nb w n).
Proof.
  unfold put. cbn [addr mem]. rewrite !length_app. cbn [length].
  rewrite (proj2 (Z.leb_le 0 _)), (proj2 (Z.ltb_lt _ _)) by lia. cbn [andb]. unfold set_field. cbn [mem addr].
  rewrite Nat2Z.id, insert_app_r_alt, Nat.sub_diag by lia. cbn. rewrite <- app_assoc. do 2 f_equal. lia.
Qed.

Lemma high_byte w : pair_ok w → u8 (Z.shiftr (value w) 8) = w.1.
Proof.
  destruct w as [a b]. unfold pair_ok, is_byte, value. cbn. intros H.
  rewrite Z.shiftr_div_pow2 by lia. change (2 ^ 8) with 256. unfold u8. zlia.
Qed.
Lemma low_byte w : pair_ok w → u8 (Z.land (value w) 0xff) = w.2.
Proof.
  destruct w as [a b]. unfold pair_ok, is_byte, value. cbn. intros H.
  change 0xff with (Z.ones 8). rewrite Z.land_ones by lia. change (2 ^ 8) with 256. unfold u8. zlia.
Qed.

(** A word and a colon. *)
Lemma read_word out x y tail z dg n w rest : pair_ok w → 2 ≤ n ≤ 8 →
  loop6 (mk_vars (out ++ x :: y :: tail) (Z.of_nat (length out)) z dg 0 0 n) (hex_text (value w) ++ ":"%ch :: rest) =
  loop6 (mk_vars ((out ++ [w.1; w.2]) ++ tail) (Z.of_nat (length (out ++ [w.1; w.2]))) z (Some rest) 0 0 (n - 1)) rest.
Proof.
  intros Hw Hn. destruct (hex_text_read (value w) (value_range w Hw)) as (Hl & _ & ->).
  cbn [loop6]. unfold step6. cbn [Z.eqb Pos.eqb nibbles]. rewrite (proj2 (Z.eqb_neq (Z.of_nat _) 0)) by lia. cbn [negb].
  unfold set_field. cbn [mem addr zero digit nibbles word Inet.n].
  rewrite put_end. cbn [mbind option_bind word]. rewrite high_byte by done.
  rewrite put_end. cbn [mbind option_bind mem addr zero digit nibbles word Inet.n]. rewrite low_byte by done.
  rewrite u64_id by lia.
  rewrite (proj2 (Z.eqb_neq (n - 1) 0)) by lia. cbn [negb]. by rewrite <- !app_assoc.
Qed.

Definition colon_text (ps : pairs) : list Z := concat ((λ w, hex_text (value w) ++ [":"%ch]) <$> ps).

Lemma read_words ps : ∀ out gap tail z dg n rest, Forall pair_ok ps →
  Z.of_nat (length ps) < n ≤ 8 → length gap = (2 * length ps)%nat →
  loop6 (mk_vars (out ++ gap ++ tail) (Z.of_nat (length out)) z dg 0 0 n) (colon_text ps ++ rest) =
  loop6 (mk_vars ((out ++ flat ps) ++ tail) (Z.of_nat (length (out ++ flat ps))) z
    (if decide (ps = []) then dg else Some rest) 0 0 (n - Z.of_nat (length ps))) rest.
Proof.
  induction ps as [|w ps IH]; intros out gap tail z dg n rest Hps Hn Hg.
  { destruct gap; [|done]. cbn [length app flat fmap list_fmap concat colon_text decide]. by rewrite app_nil_r, Z.sub_0_r. }
  destruct gap as [|x [|y gap]]; cbn [length] in Hg; try lia. apply list.Forall_cons in Hps as [Hw Hps].
  change (colon_text (w :: ps)) with ((hex_text (value w) ++ [":"%ch]) ++ colon_text ps).
  change (flat (w :: ps)) with ([w.1; w.2] ++ flat ps). cbn [length] in Hn.
  rewrite <- !app_assoc. cbn [app]. rewrite read_word by (done || lia).
  rewrite (IH (out ++ [w.1; w.2])) by (done || lia). rewrite <- !app_assoc. cbn [app length].
  f_equal. f_equal; [|lia]. case_decide as E; [by subst|done].
Qed.

Ltac lengths := repeat (progress (rewrite ?length_app; cbn [length])).

(** The bytes of the words after ["::"] move to the end. *)
Lemma move_up_ok fuel : ∀ A B T C, (length B ≤ fuel)%nat → T ≠ [] →
  ∃ T', length T' = length T ∧
    move_up fuel (A ++ B ++ T ++ C) (Z.of_nat (length A)) (Z.of_nat (length (A ++ B)) - 1)
      (Z.of_nat (length (A ++ B ++ T)) - 1) = Some (A ++ T' ++ B ++ C).
Proof.
  induction fuel as [|fuel IH]; intros A B T C Hf HT.
  { destruct B; [|cbn in Hf; lia]. exists T. split; [done|]. cbn [move_up]. rewrite app_nil_r.
    by rewrite (proj2 (Z.ltb_lt _ _)) by lia. }
  destruct B as [|x B _] using rev_ind.
  { exists T. split; [done|]. cbn [move_up]. rewrite app_nil_r. by rewrite (proj2 (Z.ltb_lt _ _)) by lia. }
  destruct T as [|y T _] using rev_ind; [done|]. clear HT. rewrite length_app in Hf. cbn [length] in Hf.
  cbn [move_up]. rewrite (proj2 (Z.ltb_ge _ _)) by (lengths; lia).
  replace (Z.to_nat (Z.of_nat (length (A ++ B ++ [x])) - 1)) with (length (A ++ B)) by
    (lengths; lia).
  replace (A ++ (B ++ [x]) ++ (T ++ [y]) ++ C) with ((A ++ B) ++ x :: T ++ y :: C) by
    (rewrite <- !app_assoc; done).
  rewrite lookup_app_r, Nat.sub_diag by lia. cbn [lookup list_lookup mbind option_bind].
  assert (Z.of_nat (length (A ++ (B ++ [x]) ++ T ++ [y])) - 1 = Z.of_nat (length ((A ++ B) ++ x :: T))) as ->
    by (lengths; lia).
  rewrite (proj2 (Z.leb_le 0 _)) by lia.
  rewrite (proj2 (Z.ltb_lt _ _)) by (lengths; lia).
  cbn [andb]. rewrite Nat2Z.id.
  replace ((A ++ B) ++ x :: T ++ y :: C) with (((A ++ B) ++ x :: T) ++ y :: C) by (rewrite <- !app_assoc; done).
  rewrite insert_app_r_alt, Nat.sub_diag by lia. cbn [insert list_insert].
  destruct (IH A B (x :: T) (x :: C) ltac:(lia) ltac:(done)) as (T' & Hl & E).
  exists T'. split; [rewrite Hl, length_app; cbn; lia|].
  replace (((A ++ B) ++ x :: T) ++ x :: C) with (A ++ B ++ (x :: T) ++ x :: C) by (rewrite <- !app_assoc; done).
  replace (Z.of_nat (length (A ++ B ++ [x])) - 1 - 1) with (Z.of_nat (length (A ++ B)) - 1) by
    (lengths; lia).
  replace (Z.of_nat (length ((A ++ B) ++ x :: T)) - 1) with (Z.of_nat (length (A ++ B ++ x :: T)) - 1) by
    (rewrite <- app_assoc; done).
  rewrite E. by rewrite <- !app_assoc.
Qed.

Lemma finish_none out x y z nb w a b dg :
  z = None → nb ≠ 0 → u8 (Z.shiftr w 8) = a → u8 (Z.land w 0xff) = b →
  finish6 (mk_vars (out ++ [x; y]) (Z.of_nat (length out)) z dg nb w 1) = Some (NGX_OK, out ++ [a; b]).
Proof.
  intros -> Hnb <- <-. unfold finish6. cbn [nibbles zero word]. rewrite (proj2 (Z.eqb_neq nb 0) Hnb). cbn [andb].
  rewrite put_end. cbn [mbind option_bind word]. rewrite put_end. cbn [mbind option_bind].
  unfold set_field. cbn. change (u64 (1 - 1) =? 0) with true. by rewrite app_nil_r, <- app_assoc.
Qed.

Lemma finish_zero A B x y tail nb w a b dg n : tail ≠ [] → (length (A ++ B ++ x :: y :: tail) = 16)%nat →
  Z.of_nat (length tail) = 2 * (n - 1) → 0 < n → u8 (Z.shiftr w 8) = a → u8 (Z.land w 0xff) = b →
  finish6 (mk_vars (A ++ B ++ x :: y :: tail) (Z.of_nat (length (A ++ B))) (Some (Z.of_nat (length A))) dg nb w n) =
  Some (NGX_OK, A ++ replicate (length tail) 0 ++ B ++ [a; b]).
Proof.
  intros Ht Hl Hn Hn0 <- <-. unfold finish6. cbn [nibbles zero word]. rewrite (bool_decide_eq_false_2 (Some _ = None)) by done.
  rewrite andb_false_r, app_assoc. rewrite put_end. cbn [mbind option_bind word]. rewrite put_end.
  cbn [mbind option_bind]. unfold set_field. cbn [mem addr zero digit nibbles word Inet.n].
  rewrite !length_app in Hl. cbn [length] in Hl.
  assert (length tail ≠ O) by (destruct tail; [done|cbn; lia]).
  rewrite u64_id by lia. rewrite (proj2 (Z.eqb_neq (n - 1) 0)) by lia. cbn [negb]. rewrite u64_id by lia.
  set (B2 := B ++ [u8 (Z.shiftr w 8); u8 (Z.land w 255)]).
  replace ((((A ++ B) ++ [u8 (Z.shiftr w 8)]) ++ [u8 (Z.land w 255)]) ++ tail) with (A ++ B2 ++ tail ++ []) by
    (unfold B2; rewrite app_nil_r, <- !app_assoc; done).
  replace (((A ++ B) ++ [u8 (Z.shiftr w 8)]) ++ [u8 (Z.land w 255)]) with (A ++ B2) by
    (unfold B2; rewrite <- !app_assoc; done).
  destruct (move_up_ok 16 A B2 tail []) as (T' & Hl' & E).
  { unfold B2. rewrite length_app. cbn. lia. }
  { done. }
  replace (Z.of_nat (length (A ++ B2)) - 1 + (n - 1) * 2) with (Z.of_nat (length (A ++ B2 ++ tail)) - 1) by
    (rewrite !length_app; lia).
  rewrite E. cbn [mbind option_bind]. unfold memzero. rewrite !length_app, Hl'. unfold B2 at 1. rewrite length_app. cbn [length].
  rewrite (proj2 (Z.leb_le 0 _)), (proj2 (Z.leb_le _ _)) by lia. cbn [andb mbind option_bind].
  rewrite Nat2Z.id, take_app_length. replace (Z.to_nat ((n - 1) * 2)) with (length tail) by lia.
  replace (Z.to_nat (Z.of_nat (length A) + (n - 1) * 2)) with (length (A ++ T')) by (rewrite length_app; lia).
  rewrite (app_assoc A T'), drop_app_length, app_nil_r. done.
Qed.

(** The IPv4 address at the end. *)
Lemma read_dec ds : ∀ m a z dg nb w n rest, Forall is_digit ds → 0 ≤ nb → nb + Z.of_nat (length ds) ≤ 4 →
  0 ≤ w < 16 ^ nb →
  ∃ w', loop6 (mk_vars m a z dg nb w n) (ds ++ rest) =
    loop6 (mk_vars m a z dg (nb + Z.of_nat (length ds)) w' n) rest.
Proof.
  induction ds as [|c ds IH]; intros m a z dg nb w n rest Hd Hnb Hl Hw.
  { exists w. cbn [app length]. by rewrite Z.add_0_r. }
  inversion_clear Hd as [|?? Hc Hd']. cbn [length] in Hl. apply is_digit_range in Hc.
  assert (Number.hex_digit c = Some (c - 48)) as Hx.
  { unfold Number.hex_digit. rewrite (proj2 (Z.leb_le _ _)), (proj2 (Z.leb_le _ _)) by lia. done. }
  assert (16 ^ nb ≤ 16 ^ 3) by (apply Z.pow_le_mono_r; lia).
  assert (16 ^ (nb + 1) = 16 * 16 ^ nb) as Hp by (rewrite Z.pow_add_r by lia; lia).
  cbn [app loop6]. rewrite (step6_hex _ _ _ _ _ _ _ _ _ _ Hx) by lia. cbn [mbind option_bind].
  destruct (IH m a z dg (nb + 1) (w * 16 + (c - 48)) n rest Hd') as (w' & E); [lia|lia|rewrite Hp; lia|].
  exists w'. rewrite E. f_equal. f_equal. cbn [length]. lia.
Qed.

Lemma load32_inj a b c d : is_byte a → is_byte b → is_byte c → is_byte d →
  load32 [a; b; c; d] = INADDR_NONE → [a; b; c; d] = replicate 4 255.
Proof.
  unfold is_byte, INADDR_NONE. cbn [load32 replicate]. intros.
  assert (a = 255 ∧ b = 255 ∧ c = 255 ∧ d = 255) as (-> & -> & -> & ->) by lia. done.
Qed.

Lemma ntohl_load a b c d : is_byte a → is_byte b → is_byte c → is_byte d →
  ntohl (load32 [a; b; c; d]) = ((a * 256 + b) * 256 + c) * 256 + d.
Proof.
  unfold is_byte. intros Ha Hb Hc Hd. unfold ntohl, htonl, bytes32. cbn [rev app load32].
  replace ((a + 256 * b + 65536 * c + 16777216 * d) mod 256) with a by zlia.
  replace ((a + 256 * b + 65536 * c + 16777216 * d) / 256 mod 256) with b by zlia.
  replace ((a + 256 * b + 65536 * c + 16777216 * d) / 65536 mod 256) with c by zlia.
  replace ((a + 256 * b + 65536 * c + 16777216 * d) / 16777216 mod 256) with d by zlia. lia.
Qed.

Lemma read_dotted out x y tail z a b c d n : is_byte a → is_byte b → is_byte c → is_byte d → 2 ≤ n ≤ 8 →
  [a; b; c; d] ≠ replicate 4 255 →
  ∃ nb w, loop6 (mk_vars (out ++ x :: y :: tail) (Z.of_nat (length out)) z (Some (dotted_text [a; b; c; d])) 0 0 n)
      (dotted_text [a; b; c; d]) =
    Some (inr (mk_vars ((out ++ [a; b]) ++ tail) (Z.of_nat (length (out ++ [a; b]))) z
      (Some (dotted_text [a; b; c; d])) nb w (n - 1))) ∧
    u8 (Z.shiftr w 8) = c ∧ u8 (Z.land w 0xff) = d ∧ nb ≠ 0.
Proof.
  intros Ha Hb Hc Hd Hn Hne. set (text := dotted_text [a; b; c; d]) at 1 3.
  destruct (dec_text_digits a Ha) as (Hda & _ & Hla). unfold dotted_text.
  destruct (read_dec (dec_text a) (out ++ x :: y :: tail) (Z.of_nat (length out)) z (Some text) 0 0 n
    ("."%ch :: dec_text b ++ "."%ch :: dec_text c ++ "."%ch :: dec_text d) Hda) as (w' & ->); [lia|lia|lia|].
  cbn [loop6]. unfold step6. cbn [Z.eqb Pos.eqb nibbles digit Inet.n]. rewrite (proj2 (Z.eqb_neq (0 + _) 0)) by lia.
  cbn [negb andb]. rewrite (proj2 (Z.ltb_ge n 2)) by lia. unfold set_field. cbn [mem addr zero digit nibbles word Inet.n].
  assert (ngx_inet_addr text = load32 [a; b; c; d]) as -> by by apply inet_addr_dotted.
  destruct (Z.eqb_spec (load32 [a; b; c; d]) INADDR_NONE) as [E|_]; [by apply load32_inj in E|].
  rewrite ntohl_load by done. rewrite put_end. cbn [mbind option_bind word]. rewrite put_end.
  cbn [mbind option_bind mem addr zero digit nibbles word Inet.n]. rewrite u64_id by lia.
  change 255 with (Z.ones 8). rewrite !Z.land_ones, !Z.shiftr_div_pow2 by lia.
  change (2 ^ 8) with 256. change (2 ^ 24) with 16777216. change (2 ^ 16) with 65536. unfold is_byte in *.
  do 2 eexists. split; [do 3 f_equal|].
  - rewrite <- !app_assoc. cbn [app]. repeat f_equal; unfold u8; zlia.
  - rewrite !length_app. cbn [length]. lia.
  - rewrite Z.shiftr_div_pow2 by lia. split; [change (2 ^ 8) with 256; unfold u8; zlia|]. change 0xff with (Z.ones 8). rewrite Z.land_ones by lia. change (2 ^ 8) with 256.
    split; [unfold u8; zlia|lia].
Qed.

(** ** IPv6: printing *)

(** The words from byte [i] on, with a colon after each but the last of the
    address. *)
Fixpoint emit (i : Z) (ps : pairs) : list Z :=
  match ps with
  | [] => []
  | w :: ps => hex_text (value w) ++ (if i <? 14 then [":"%ch] else []) ++ emit (i + 2) ps
  end.

(** Where the text may be in memory. *)
Definition room (i dst : Z) : Prop := 0 ≤ dst ≤ MAX_UINT64 - 1000 + 5 * i.

Lemma print_uxi dst w : 0 ≤ dst ≤ MAX_UINT64 - 100 → 0 ≤ w < 65536 →
  Printf.ngx_sprintf dst (bs "%uxi") [Printf.AInt w] = Some (hex_text w).
Proof.
  intros Hd Hw. destruct (hex_text_read w Hw) as (Hl & _). unfold Printf.ngx_sprintf.
  apply (Printf.vslprintf_one _ _ _ _ []); [lia|]. unfold Printf.directive.
  change (Printf.read_spec _ _) with
    (Some (Printf.mk_spec " "%ch 0 false 1 false 0 MAX_UINT64, "i"%ch :: [], [Printf.AInt w])).
  cbn -[Printf.put_integer s64 u64 hex_text]. rewrite Printf.put_integer_clip by lia.
  unfold Printf.integer_text. cbn -[Printf.number s64 u64 hex_text]. rewrite u64_id by lia.
  unfold Printf.number. fold (hex_text w). replace (Z.to_nat (0 - _)) with O by lia. cbn [replicate app].
  by rewrite take_ge by lia.
Qed.

Lemma flat_lookup pre w post : flat (pre ++ w :: post) !! Z.to_nat (2 * Z.of_nat (length pre)) = Some w.1 ∧
  flat (pre ++ w :: post) !! Z.to_nat (2 * Z.of_nat (length pre) + 1) = Some w.2.
Proof.
  rewrite flat_words_app. change (flat (w :: post)) with (w.1 :: w.2 :: flat post).
  replace (Z.to_nat (2 * Z.of_nat (length pre))) with (length (flat pre)) by (rewrite length_flat; lia).
  replace (Z.to_nat (2 * Z.of_nat (length pre) + 1)) with (S (length (flat pre))) by (rewrite length_flat; lia).
  rewrite lookup_app_r, Nat.sub_diag, lookup_app_r by lia. by replace (_ - _)%nat with 1%nat by lia.
Qed.

(** Words that are not the start of the zeros, and then what follows. *)
Lemma print6_words mid : ∀ fuel pre post i n zero max out, Forall pair_ok mid →
  i = 2 * Z.of_nat (length pre) → i + 2 * Z.of_nat (length mid) ≤ n → n ≤ 16 →
  (∀ z, zero = Some z → ¬ i ≤ z < i + 2 * Z.of_nat (length mid)) →
  (∀ dst, room (i + 2 * Z.of_nat (length mid)) dst →
    print6 fuel dst (flat (pre ++ mid ++ post)) (i + 2 * Z.of_nat (length mid)) n zero max = Some out) →
  ∀ dst, room i dst →
  print6 (length mid + fuel) dst (flat (pre ++ mid ++ post)) i n zero max = Some (emit i mid ++ out).
Proof.
  induction mid as [|w mid IH]; intros fuel pre post i n zero max out Hok Hi Hn Hn16 Hz Hout dst Hdst.
  { cbn [length emit app Nat.add] in *. rewrite Z.add_0_r in Hout. by apply Hout. }
  apply list.Forall_cons in Hok as [Hw Hok]. cbn [length] in *. cbn [Nat.add print6].
  rewrite (proj2 (Z.ltb_lt i n)) by lia. rewrite bool_decide_eq_false_2 by (intros E; apply (Hz _ E); lia).
  destruct (flat_lookup pre w (mid ++ post)) as [H1 H2]. rewrite <- Hi in H1, H2. cbn [app] in *.
  rewrite H1, H2. cbn [mbind option_bind]. fold (value w). unfold room in *.
  destruct (hex_text_read (value w) (value_range w Hw)) as (Hl & _).
  rewrite print_uxi by (apply value_range in Hw; lia). cbn [mbind option_bind emit].
  set (colon := if i <? 14 then [":"%ch] else []). assert (length colon ≤ 1)%nat by (unfold colon; case_match; cbn; lia).
  replace (pre ++ w :: mid ++ post) with ((pre ++ [w]) ++ mid ++ post) in * by (rewrite <- app_assoc; done).
  rewrite (IH fuel (pre ++ [w]) post (i + 2) n zero max out Hok).
  - cbn [mbind option_bind]. by rewrite <- !app_assoc.
  - rewrite length_app. cbn [length]. lia.
  - lia.
  - done.
  - intros z E H3. apply (Hz z E). lia.
  - intros dst' Hd'. replace (i + 2 + 2 * Z.of_nat (length mid)) with (i + 2 * Z.of_nat (S (length mid))) in * by lia.
    by apply Hout.
  - rewrite length_app. lia.
Qed.

(** *** The runs of zeros *)

Definition zeros_at (ps : pairs) (zero : option Z) (max : Z) : Prop :=
  max = 1 ∧ zero = None ∨
  ∃ pre m post, ps = pre ++ replicate m (0, 0) ++ post ∧ (2 ≤ m)%nat ∧ max = Z.of_nat m ∧
    zero = Some (2 * Z.of_nat (length pre)).

Lemma zeros_at_app ps qs zero max : zeros_at ps zero max → zeros_at (ps ++ qs) zero max.
Proof.
  intros [H|(pre & m & post & -> & H)]; [by left|right]. exists pre, m, (post ++ qs).
  split; [by rewrite <- !app_assoc|done].
Qed.

Lemma scan6_ok post : ∀ pre k zero last max, Forall pair_ok post →
  zeros_at (pre ++ replicate k (0, 0)) zero max →
  ((0 < k)%nat → last = Some (2 * Z.of_nat (length pre))) →
  match scan6 (2 * Z.of_nat (length pre + k)) (flat post) zero last max (Z.of_nat k) with
  | (zero', max') => zeros_at (pre ++ replicate k (0, 0) ++ post) zero' max'
  end.
Proof.
  induction post as [|w post IH]; intros pre k zero last max Hok Hz Hlast.
  { cbn [flat fmap list_fmap concat scan6]. rewrite app_nil_r. destruct (Z.ltb_spec max (Z.of_nat k)); [|done].
    right. exists pre, k, []. rewrite app_nil_r. split; [done|].
    assert (1 ≤ max) by (destruct Hz as [[-> _]|(? & m & ? & _ & ? & -> & _)]; lia).
    split; [lia|]. split; [done|]. apply Hlast. lia. }
  apply list.Forall_cons in Hok as [Hw Hok]. change (flat (w :: post)) with (w.1 :: w.2 :: flat post). cbn [scan6].
  assert (2 * Z.of_nat (length pre + k) + 2 = 2 * Z.of_nat (length ((pre ++ replicate k (0, 0)) ++ [w]) + 0)) as Hi.
  { rewrite !length_app, length_replicate. cbn [length]. lia. }
  destruct (negb (w.1 =? 0) || negb (w.2 =? 0)) eqn:E.
  - rewrite Hi. specialize (IH ((pre ++ replicate k (0, 0)) ++ [w]) O). cbn [replicate app] in IH.
    replace (((pre ++ replicate k (0, 0)) ++ [w]) ++ post) with (pre ++ replicate k (0, 0) ++ w :: post) in IH by
      (rewrite <- !app_assoc; done).
    assert (1 ≤ max) by (destruct Hz as [[-> _]|(? & m & ? & _ & ? & -> & _)]; lia).
    destruct (Z.ltb_spec max (Z.of_nat k)); apply IH; try done; try lia.
    + right. exists pre, k, [w]. split; [by rewrite app_nil_r, <- app_assoc|]. split; [lia|]. split; [done|]. apply Hlast. lia.
    + rewrite app_nil_r. by apply zeros_at_app.
  - apply orb_false_iff in E as [E1 E2]. bool_to_prop. destruct w as [a b]. cbn [fst snd] in *. subst a b.
    specialize (IH pre (S k) zero (if Z.of_nat k =? 0 then Some (2 * Z.of_nat (length pre + k)) else last) max Hok).
    rewrite replicate_S_end in IH. rewrite <- !app_assoc in IH. cbn [app] in IH.
    replace (2 * Z.of_nat (length pre + k) + 2) with (2 * Z.of_nat (length pre + S k)) by lia.
    replace (Z.of_nat k + 1) with (Z.of_nat (S k)) by lia. apply IH.
    + rewrite app_assoc. by apply zeros_at_app.
    + intros _. destruct k as [|k]; [cbn [Z.of_nat Z.eqb]; do 2 f_equal; lia|].
      rewrite (proj2 (Z.eqb_neq _ 0)) by lia. apply Hlast. lia.
Qed.

(** ** The round trip of IPv6 *)

Lemma emit_colon ps : ∀ i, i + 2 * Z.of_nat (length ps) ≤ 14 → emit i ps = colon_text ps.
Proof.
  induction ps as [|w ps IH]; intros i Hi; [done|]. cbn [emit length] in *.
  rewrite (proj2 (Z.ltb_lt i 14)), IH by lia.
  change (colon_text (w :: ps)) with ((hex_text (value w) ++ [":"%ch]) ++ colon_text ps). by rewrite <- app_assoc.
Qed.

Lemma emit_last ps w : ∀ i, i + 2 * Z.of_nat (length ps) = 14 → emit i (ps ++ [w]) = colon_text ps ++ hex_text (value w).
Proof.
  induction ps as [|w' ps IH]; intros i Hi; cbn [emit length app] in *.
  { rewrite (proj2 (Z.ltb_ge i 14)) by lia. by rewrite app_nil_r. }
  rewrite (proj2 (Z.ltb_lt i 14)), IH by lia.
  change (colon_text (w' :: ps)) with ((hex_text (value w') ++ [":"%ch]) ++ colon_text ps). by rewrite <- !app_assoc.
Qed.

Lemma split_mem (m : list Z) k : (k ≤ length m)%nat → ∃ gap tail, m = gap ++ tail ∧ length gap = k ∧
  length tail = (length m - k)%nat.
Proof.
  intros H. exists (take k m), (drop k m). rewrite take_drop, length_take, length_drop. split; [done|lia].
Qed.

(** The words before ["::"] and the colon that makes it. *)
Lemma read_zero mem0 pre rest : length mem0 = 16%nat → Forall pair_ok pre → (length pre ≤ 7)%nat →
  ∃ tail, length tail = (16 - 2 * length pre)%nat ∧
  loop6 (mk_vars mem0 0 None None 0 0 8) (colon_text pre ++ ":"%ch :: rest) =
  loop6 (mk_vars (flat pre ++ tail) (Z.of_nat (length (flat pre))) (Some (Z.of_nat (length (flat pre)))) (Some rest)
    0 0 (8 - Z.of_nat (length pre))) rest.
Proof.
  intros Hm Hok Hl. destruct (split_mem mem0 (2 * length pre)) as (gap & tail & -> & Hg & Ht); [lia|].
  exists tail. split; [lia|]. rewrite (read_words pre [] gap tail) by (done || lia). cbn [app loop6].
  unfold step6 at 1. cbn [Z.eqb Pos.eqb nibbles negb zero]. unfold set_field. done.
Qed.

Lemma read_tail pre post tail rest : Forall pair_ok post → (length pre + length post ≤ 6)%nat →
  length tail = (16 - 2 * length pre)%nat →
  ∃ v, loop6 (mk_vars (flat pre ++ tail) (Z.of_nat (length (flat pre))) (Some (Z.of_nat (length (flat pre)))) (Some rest)
    0 0 (8 - Z.of_nat (length pre))) (emit (16 - 2 * Z.of_nat (length post)) post) = Some (inr v) ∧
    finish6 v = Some (NGX_OK, flat pre ++ replicate (16 - 2 * length pre - 2 * length post) 0 ++ flat post).
Proof.
  intros Hok Hl Ht. destruct post as [|w post _] using rev_ind.
  - eexists. split; [done|]. cbn [length] in *. destruct tail as [|x [|y tail]]; cbn [length] in Ht; try lia.
    pose proof (finish_zero (flat pre) [] x y tail 0 0 0 0 (Some rest) (8 - Z.of_nat (length pre))) as E.
    rewrite app_nil_r in E. cbn [app] in E. rewrite E; [|by destruct tail; [cbn in Ht; lia|]| |lia|lia|done|done].
    + do 3 f_equal. replace (16 - 2 * length pre - 2 * 0)%nat with (length tail + 2)%nat by lia.
      rewrite replicate_add. cbn. by rewrite app_nil_r.
    + rewrite length_app, length_flat. cbn [length]. lia.
  - apply list.Forall_app in Hok as [Hok [Hw _]%list.Forall_cons]. rewrite length_app in *. cbn [length] in *.
    rewrite emit_last by lia.
    destruct (split_mem tail (2 * length post)) as (gap & tail' & -> & Hg & Ht'); [lia|].
    rewrite length_app in Ht.
    rewrite read_words by (done || lia). rewrite <- (app_nil_r (hex_text _)).
    destruct (hex_text_read (value w) (value_range w Hw)) as (Hlw & _ & ->). cbn [loop6].
    eexists. split; [done|]. destruct tail' as [|x [|y tail']]; cbn [length] in *; try lia.
    rewrite <- app_assoc, (finish_zero (flat pre) (flat post) x y tail'
      (Z.of_nat (length (hex_text (value w)))) (value w) w.1 w.2); [| | |lia|lia|by apply high_byte|by apply low_byte].
    + do 3 f_equal. rewrite flat_words_app. replace (16 - 2 * length pre - 2 * (length post + 1))%nat with (length tail') by lia.
      cbn. done.
    + destruct tail'; [cbn in *; lia|done].
    + rewrite !length_app, !length_flat. cbn [length]. lia.
Qed.

(** As many zeros as before, and the IPv4 address. *)
Lemma read_tail_dotted mid tail a b c d : Forall pair_ok mid → (length mid ≤ 1)%nat → length tail = 16%nat →
  is_byte a → is_byte b → is_byte c → is_byte d → [a; b; c; d] ≠ replicate 4 255 →
  ∃ v, loop6 (mk_vars tail 0 (Some 0) (Some (colon_text mid ++ dotted_text [a; b; c; d])) 0 0 8)
      (colon_text mid ++ dotted_text [a; b; c; d]) = Some (inr v) ∧
    finish6 v = Some (NGX_OK, replicate (12 - 2 * length mid) 0 ++ flat mid ++ [a; b; c; d]).
Proof.
  intros Hok Hl Ht Ha Hb Hc Hd Hne.
  destruct (split_mem tail (2 * length mid)) as (gap & tail' & -> & Hg & Ht'); [lia|]. rewrite length_app in *.
  rewrite (read_words mid [] gap tail') by (done || lia). cbn [app].
  assert ((if decide (mid = []) then Some (colon_text mid ++ dotted_text [a; b; c; d])
           else Some (dotted_text [a; b; c; d])) = Some (dotted_text [a; b; c; d])) as ->.
  { case_decide as E; [by rewrite E|done]. }
  destruct tail' as [|x [|y [|x2 [|y2 tail']]]]; cbn [length] in *; try lia.
  destruct (read_dotted (flat mid) x y (x2 :: y2 :: tail') (Some 0) a b c d (8 - Z.of_nat (length mid)))
    as (nb & w & -> & Hwc & Hwd & Hnb); try done; [lia|].
  eexists. split; [done|].
  rewrite (finish_zero [] (flat mid ++ [a; b]) x2 y2 tail' nb w c d _ _); try done; try lia.
  - cbn [app]. rewrite <- app_assoc. cbn [app]. by replace (length tail') with (12 - 2 * length mid)%nat by lia.
  - destruct tail'; [cbn in *; lia|done].
  - cbn [app]. lengths. rewrite length_flat. lia.
Qed.

(** *** The texts *)

Definition ntop_ok (text len : Z) : Prop := 0 ≤ text ≤ MAX_UINT64 - 4096 ∧ NGX_INET6_ADDRSTRLEN ≤ len.

Lemma print_end dst ps i n zero max : n ≤ i → print6 0 dst ps i n zero max = Some [].
Proof. intros H. cbn [print6]. by rewrite (proj2 (Z.ltb_ge i n)) by lia. Qed.

Lemma print6_more fuel : ∀ k dst p i n zero max out, print6 fuel dst p i n zero max = Some out →
  print6 (fuel + k) dst p i n zero max = Some out.
Proof.
  induction fuel as [|fuel IH]; intros k dst p i n zero max out H.
  - cbn [Nat.add]. cbn [print6] in H. destruct (i <? n) eqn:E; [done|]. destruct k; cbn [print6]; by rewrite E.
  - cbn [Nat.add print6] in *. destruct (i <? n); [|done]. case_bool_decide.
    + destruct (print6 fuel (dst + 1) _ _ _ _ _) eqn:E; [|done]. by rewrite (IH _ _ _ _ _ _ _ _ E).
    + destruct (p !! Z.to_nat i); [|done]. destruct (p !! Z.to_nat (i + 1)); [|done]. cbn [mbind option_bind] in *.
      destruct (Printf.ngx_sprintf dst _ _); [|done]. cbn [mbind option_bind] in *.
      destruct (print6 fuel _ _ _ _ _ _) eqn:E; [|done].
      by rewrite (IH _ _ _ _ _ _ _ _ E).
Qed.

(** All words from the [k]-th on. *)
Lemma print6_rest pre post n zero max : Forall pair_ok post → n ≤ 16 →
  2 * Z.of_nat (length pre + length post) = n →
  (∀ z, zero = Some z → z < 2 * Z.of_nat (length pre)) → ∀ rest dst, room (2 * Z.of_nat (length pre)) dst →
  print6 (length post) dst (flat (pre ++ post ++ rest)) (2 * Z.of_nat (length pre)) n zero max =
  Some (emit (2 * Z.of_nat (length pre)) post).
Proof.
  intros Hok Hn Hl Hz rest dst Hd. rewrite <- (Nat.add_0_r (length post)), <- (app_nil_r (emit _ _)).
  apply print6_words; try done; try lia.
  - intros z E. specialize (Hz z E). lia.
  - intros dst' _. apply print_end. lia.
Qed.

Lemma ntop_none ps text len : ntop_ok text len → Forall pair_ok ps → length ps = 8%nat →
  (scan6 0 (flat ps) None None 1 0).1 = None →
  ngx_inet6_ntop (flat ps) text len = Some (emit 0 ps).
Proof.
  intros [Ht Hlen] Hok Hl Hs. unfold ngx_inet6_ntop. rewrite (proj2 (Z.ltb_ge _ _)) by lia.
  destruct (scan6 0 (flat ps) None None 1 0) as [zero max]. cbn [fst] in Hs. subst zero.
  rewrite (bool_decide_eq_false_2 (None = Some 0)) by done. cbn [andb length Z.of_nat app].
  pose proof (print6_rest [] ps 16 None max Hok ltac:(lia) ltac:(cbn; lia) ltac:(done) [] (text + 0)) as E.
  rewrite app_nil_r, Hl in E. cbn [app length] in E. change (2 * Z.of_nat 0) with 0 in E.
  change (Z.of_nat 0) with 0. rewrite E by (unfold room; lia). cbn [mbind option_bind Z.eqb Pos.eqb]. by rewrite app_nil_r.
Qed.

Ltac halves := change (Z.to_nat (16 / 2)) with 8%nat in *; change (Z.to_nat (12 / 2)) with 6%nat in *.

(** The zeros, the words before and after them. *)
Lemma print6_zeros pre m post n dst : Forall pair_ok pre → Forall pair_ok post → (2 ≤ m)%nat →
  (length pre + m + length post = 8)%nat → room 0 dst → n = 16 ∨ pre = [] ∧ n = 12 →
  print6 8 dst (flat (pre ++ replicate m (0, 0) ++ post)) 0 n (Some (2 * Z.of_nat (length pre))) (Z.of_nat m) =
  Some (emit 0 pre ++ ":"%ch ::
        emit (2 * Z.of_nat (length pre + m)) (take (Z.to_nat (n / 2) - length pre - m) post)).
Proof.
  intros Hpre Hpost Hm Hl Hd Hn. set (q := take _ post).
  assert (length q = Z.to_nat (n / 2) - length pre - m)%nat as Hq.
  { unfold q. rewrite length_take. destruct Hn as [->|[-> ->]]; halves; cbn [length] in *; lia. }
  assert (2 * Z.of_nat (length pre) < n) as Hlt by (destruct Hn as [->|[-> ->]]; halves; cbn [length] in *; lia).
  assert (length pre + 1 + length q ≤ 8)%nat by (destruct Hn as [->|[-> ->]]; halves; cbn [length] in *; lia).
  replace 8%nat with (length pre + S (length q + (8 - length pre - 1 - length q)))%nat by lia.
  pose proof (print6_words pre (S (length q + (8 - length pre - 1 - length q))) [] (replicate m (0, 0) ++ post) 0 n
    (Some (2 * Z.of_nat (length pre))) (Z.of_nat m)) as E. cbn [app length] in E.
  change (2 * Z.of_nat 0) with 0 in E. cbn [Z.add] in E. apply E; try done; try lia.
  { intros z [= <-]. lia. }
  clear E. intros dst' Hd'. cbn [print6]. rewrite (proj2 (Z.ltb_lt _ _)) by lia.
  rewrite bool_decide_eq_true_2 by done.
  replace (0 + 2 * Z.of_nat (length pre) + (Z.of_nat m - 1) * 2 + 2) with (2 * Z.of_nat (length pre + m)) by lia.
  assert (Forall pair_ok q) as Hokq by by apply Forall_take.
  destruct (decide (q = [])) as [Eq|Eq].
  - rewrite Eq. cbn [length emit].
    rewrite (print6_more 0 _ _ _ _ _ _ _ []); [done|]. apply print_end.
    rewrite Eq in Hq. cbn [length] in Hq. destruct Hn as [->|[-> ->]]; halves; cbn [length] in *; lia.
  - assert (length q ≠ O) as Hq0 by (destruct q; [done|cbn; lia]).
    assert (post = q ++ drop (Z.to_nat (n / 2) - length pre - m) post) as Epost by (unfold q; by rewrite take_drop).
    rewrite (print6_more (length q) _ _ _ _ _ _ _ (emit (2 * Z.of_nat (length pre + m)) q)); [done|].
    assert (length (pre ++ replicate m (0, 0)) = (length pre + m)%nat) as Hlm by by rewrite length_app, length_replicate.
    pose proof (print6_rest (pre ++ replicate m (0, 0)) q n (Some (2 * Z.of_nat (length pre))) (Z.of_nat m) Hokq) as E.
    rewrite Hlm in E. rewrite Epost, app_assoc. apply E; try lia.
    + destruct Hn as [->|[-> ->]]; halves; cbn [length] in *; lia.
    + intros z [= <-]. lia.
    + unfold room in *. lia.
Qed.

Lemma to_pairs p : ∀ k, length p = (2 * k)%nat → Forall is_byte p →
  ∃ ps, p = flat ps ∧ length ps = k ∧ Forall pair_ok ps.
Proof.
  intros k. revert p. induction k as [|k IH]; intros p Hl Hp.
  { exists []. by destruct p. }
  destruct p as [|a [|b p]]; cbn [length] in Hl; try lia.
  apply list.Forall_cons in Hp as [Ha [Hb Hp]%list.Forall_cons].
  destruct (IH p) as (ps & -> & Hk & Hok); [lia|done|]. exists ((a, b) :: ps). split; [done|]. split; [cbn; lia|].
  by constructor.
Qed.

Lemma colon_text_head ps t c : Forall pair_ok ps → ps ≠ [] → head (colon_text ps ++ t) = Some c → c ≠ ":"%ch.
Proof.
  intros Hok Hne Hc. destruct ps as [|w ps]; [done|]. apply list.Forall_cons in Hok as [Hw _].
  destruct (hex_text_read (value w) (value_range w Hw)) as (Hl & Hh & _). apply Hh.
  change (colon_text (w :: ps)) with ((hex_text (value w) ++ [":"%ch]) ++ colon_text ps) in Hc.
  destruct (hex_text (value w)); [cbn in Hl; lia|exact Hc].
Qed.

Lemma colon_text_ne ps t : ps ≠ [] → colon_text ps ++ t ≠ [].
Proof.
  intros Hne. destruct ps as [|w ps]; [done|].
  change (colon_text (w :: ps)) with ((hex_text (value w) ++ [":"%ch]) ++ colon_text ps). by destruct (hex_text (value w)).
Qed.

(** The first byte is a colon only for ["::"]. *)
Lemma addr_start t mem0 : (∀ c, head t = Some c → c ≠ ":"%ch) → t ≠ [] →
  ngx_inet6_addr t mem0 =
  (r ← loop6 (mk_vars mem0 0 None None 0 0 8) t;
   match r with inl rc => Some (rc, mem0) | inr v => finish6 v end).
Proof.
  intros H Hne. destruct t as [|c t]; [done|]. unfold ngx_inet6_addr.
  by rewrite (proj2 (Z.eqb_neq c ":"%ch) (H c eq_refl)).
Qed.

(** An address in full. *)
Lemma addr_full ps w mem0 : length mem0 = 16%nat → Forall pair_ok (ps ++ [w]) → length ps = 7%nat →
  ngx_inet6_addr (emit 0 (ps ++ [w])) mem0 = Some (NGX_OK, flat (ps ++ [w])).
Proof.
  intros Hm [Hok [Hw _]%list.Forall_cons]%list.Forall_app Hl. rewrite emit_last by lia.
  rewrite addr_start; [|intros c; apply colon_text_head; [done|by destruct ps]|apply colon_text_ne; by destruct ps].
  destruct (split_mem mem0 (2 * length ps)) as (gap & tail & -> & Hg & Ht); [lia|].
  rewrite (read_words ps [] gap tail) by (done || lia). cbn [app]. rewrite <- (app_nil_r (hex_text _)).
  destruct (hex_text_read (value w) (value_range w Hw)) as (Hlw & _ & ->). cbn [loop6 mbind option_bind].
  rewrite length_app in *. destruct tail as [|x [|y [|]]]; cbn [length] in *; try lia. rewrite Hl.
  rewrite (finish_none (flat ps) x y None _ (value w) w.1 w.2) by (done || lia || by apply high_byte || by apply low_byte).
  by rewrite flat_words_app.
Qed.

(** An address with ["::"]. *)
Lemma addr_zeros pre post mem0 : length mem0 = 16%nat → Forall pair_ok pre → Forall pair_ok post →
  (length pre + length post ≤ 6)%nat →
  ngx_inet6_addr ((if decide (pre = []) then [":"%ch] else []) ++
      colon_text pre ++ ":"%ch :: emit (16 - 2 * Z.of_nat (length post)) post) mem0 =
  Some (NGX_OK, flat pre ++ replicate (16 - 2 * length pre - 2 * length post) 0 ++ flat post).
Proof.
  intros Hm Hpre Hpost Hl.
  destruct (read_zero mem0 pre (emit (16 - 2 * Z.of_nat (length post)) post) Hm Hpre ltac:(lia)) as (tail & Ht & E).
  destruct (read_tail pre post tail (emit (16 - 2 * Z.of_nat (length post)) post) Hpost Hl Ht) as (v & Ev & Hv).
  case_decide as Hp.
  - subst pre. change (colon_text []) with (@nil Z) in *. cbn [app] in *. unfold ngx_inet6_addr. cbn [Z.eqb Pos.eqb].
    by rewrite E, Ev.
  - cbn [app]. rewrite addr_start; [by rewrite E, Ev|intros c; by apply colon_text_head|by apply colon_text_ne].
Qed.

Lemma addr_dotted mid a b c d mem0 : length mem0 = 16%nat → Forall pair_ok mid → (length mid ≤ 1)%nat →
  is_byte a → is_byte b → is_byte c → is_byte d → [a; b; c; d] ≠ replicate 4 255 →
  ngx_inet6_addr (":"%ch :: ":"%ch :: colon_text mid ++ dotted_text [a; b; c; d]) mem0 =
  Some (NGX_OK, replicate (12 - 2 * length mid) 0 ++ flat mid ++ [a; b; c; d]).
Proof.
  intros Hm Hok Hl Ha Hb Hc Hd Hne.
  destruct (read_zero mem0 [] (colon_text mid ++ dotted_text [a; b; c; d]) Hm) as (tail & Ht & E); [done|cbn; lia|].
  destruct (read_tail_dotted mid tail a b c d) as (v & Ev & Hv); try done.
  unfold ngx_inet6_addr. cbn [Z.eqb Pos.eqb]. change (colon_text []) with (@nil Z) in E.
  change (flat []) with (@nil Z) in E. cbn [app length Z.of_nat] in E.
  change (Z.of_nat 0) with 0 in E. rewrite Z.sub_0_r in E. by rewrite E, Ev.
Qed.

(** *** Which text an address has *)

Definition mapped (p : list Z) : Prop := take 12 p = replicate 12 0 ∨ take 12 p = replicate 10 0 ++ [255; 255].

Lemma ntop_zeros pre m post text len : ntop_ok text len → Forall pair_ok pre → Forall pair_ok post → (2 ≤ m)%nat →
  (length pre + m + length post = 8)%nat → pre ≠ [] →
  scan6 0 (flat (pre ++ replicate m (0, 0) ++ post)) None None 1 0 = (Some (2 * Z.of_nat (length pre)), Z.of_nat m) →
  ngx_inet6_ntop (flat (pre ++ replicate m (0, 0) ++ post)) text len =
  Some (colon_text pre ++ ":"%ch :: emit (16 - 2 * Z.of_nat (length post)) post).
Proof.
  intros [Ht Hlen] Hpre Hpost Hm Hl Hne Hs. unfold ngx_inet6_ntop. rewrite (proj2 (Z.ltb_ge _ _)) by lia. rewrite Hs.
  assert (length pre ≠ O) by (destruct pre; [done|cbn; lia]).
  rewrite bool_decide_eq_false_2 by (intros E; simplify_eq; lia). cbn [andb length app]. change (Z.of_nat 0) with 0.
  rewrite print6_zeros; try done; [|unfold room; lia|by left]. cbn [mbind option_bind Z.eqb Pos.eqb].
  halves. rewrite app_nil_r, emit_colon, take_ge by lia.
  do 3 f_equal. replace (2 * Z.of_nat (length pre + m)) with (16 - 2 * Z.of_nat (length post)) by lia. done.
Qed.

Lemma ntop_start m post text len : ntop_ok text len → Forall pair_ok post → (2 ≤ m)%nat → (m + length post = 8)%nat →
  scan6 0 (flat (replicate m (0, 0) ++ post)) None None 1 0 = (Some 0, Z.of_nat m) →
  ngx_inet6_ntop (flat (replicate m (0, 0) ++ post)) text len =
    Some (":"%ch :: ":"%ch :: emit (16 - 2 * Z.of_nat (length post)) post) ∨
  ∃ mid a b c d, flat (replicate m (0, 0) ++ post) = replicate (12 - 2 * length mid) 0 ++ flat mid ++ [a; b; c; d] ∧
    (mid = [] ∨ mid = [(255, 255)]) ∧ is_byte a ∧ is_byte b ∧ is_byte c ∧ is_byte d ∧
    ngx_inet6_ntop (flat (replicate m (0, 0) ++ post)) text len =
      Some (":"%ch :: ":"%ch :: colon_text mid ++ dotted_text [a; b; c; d]).
Proof.
  intros [Ht Hlen] Hok Hm Hl Hs. unfold ngx_inet6_ntop. rewrite (proj2 (Z.ltb_ge _ _)) by lia. rewrite Hs.
  rewrite bool_decide_eq_true_2 by done. cbn [andb length app]. change (Z.of_nat 1) with 1.
  set (p := flat (replicate m (0, 0) ++ post)).
  destruct (((Z.of_nat m =? 5) && (nth 10 p 0 =? 255) && (nth 11 p 0 =? 255)) || (Z.of_nat m =? 6) ||
          ((Z.of_nat m =? 7) && negb (nth 14 p 0 =? 0) && negb (nth 15 p 0 =? 1))) eqn:E.
  - right.
    pose proof (print6_zeros [] m post 12 (text + 1) (Forall_nil_2 _) Hok Hm Hl ltac:(unfold room; lia) ltac:(by right)) as P.
    cbn [app length Nat.add] in P. change (2 * Z.of_nat 0) with 0 in P. fold p in P. rewrite P.
    cbn [mbind option_bind Z.eqb Pos.eqb emit app]. halves. rewrite Nat.sub_0_r in *.
    assert (∃ mid a b c d, (mid = [] ∨ mid = [(255, 255)]) ∧ is_byte a ∧ is_byte b ∧ is_byte c ∧ is_byte d ∧
      take (6 - m) post = mid ∧ p = replicate (12 - 2 * length mid) 0 ++ flat mid ++ [a; b; c; d] ∧
      emit (2 * Z.of_nat m) mid = colon_text mid) as (mid & a & b & c & d & Hmid & Ha & Hb & Hc & Hd & Em & Ep & Ee).
    { apply orb_true_iff in E as [[E|E]%orb_true_iff|E];
        rewrite ?andb_true_iff, ?Z.eqb_eq in E.
      - assert (m = 5%nat) as -> by lia. destruct post as [|[x y] [|[a b] [|[c d] [|]]]]; try (cbn in Hl; lia).
        destruct E as [[_ Ex] Ey]. cbn in Ex, Ey. subst x y.
        apply list.Forall_cons in Hok as [_ [[Ha Hb] [[Hc Hd] _]%list.Forall_cons]%list.Forall_cons].
        exists [(255, 255)], a, b, c, d. by auto 9.
      - assert (m = 6%nat) as -> by lia. destruct post as [|[a b] [|[c d] [|]]]; try (cbn in Hl; lia).
        apply list.Forall_cons in Hok as [[Ha Hb] [[Hc Hd] _]%list.Forall_cons].
        exists [], a, b, c, d. by auto 9.
      - assert (m = 7%nat) as -> by lia. destruct post as [|[c d] [|]]; try (cbn in Hl; lia).
        apply list.Forall_cons in Hok as [[Hc Hd] _]. exists [], 0, 0, c, d. unfold is_byte at 1 2. by auto 12 with lia. }
    rewrite Em, Ee.
    assert (drop 12 p = [a; b; c; d]) as ->.
    { rewrite Ep. destruct Hmid as [->| ->]; done. }
    exists mid, a, b, c, d. do 6 (split; [done|]).
    unfold Printf.ngx_sprintf. rewrite print_dotted; try done.
    cbn [length]. assert (length (colon_text mid) ≤ 100)%nat by (destruct Hmid as [-> | ->]; vm_compute; lia). lia.
  - left.
    pose proof (print6_zeros [] m post 16 (text + 1) (Forall_nil_2 _) Hok Hm Hl ltac:(unfold room; lia) ltac:(by left)) as P.
    cbn [app length Nat.add] in P. change (2 * Z.of_nat 0) with 0 in P. fold p in P. rewrite P.
    cbn [mbind option_bind Z.eqb Pos.eqb emit app]. halves. rewrite Nat.sub_0_r, take_ge, app_nil_r by lia.
    do 3 f_equal. replace (2 * Z.of_nat m) with (16 - 2 * Z.of_nat (length post)) by lia. done.
Qed.

(** C10: An IPv6 address that is printed is read back, whatever was in the memory
    for it; only ::255.255.255.255 and ::ffff:255.255.255.255 are not. *)
Theorem inet6_roundtrip p text len mem0 :
  length p = 16%nat → Forall is_byte p → length mem0 = 16%nat →
  0 ≤ text ≤ MAX_UINT64 - 4096 → NGX_INET6_ADDRSTRLEN ≤ len → (mapped p → drop 12 p ≠ replicate 4 255) →
  ∃ t, ngx_inet6_ntop p text len = Some t ∧ ngx_inet6_addr t mem0 = Some (NGX_OK, p).
Proof.
  intros Hl Hp Hm Ht Hlen Hne. destruct (to_pairs p 8 Hl Hp) as (ps & -> & Hk & Hok).
  pose proof (scan6_ok ps [] O None None 1 Hok ltac:(by left) ltac:(lia)) as Hs.
  cbn [length Nat.add replicate app] in Hs. change (Z.of_nat 0) with 0 in Hs. change (2 * 0) with 0 in Hs.
  destruct (scan6 0 (flat ps) None None 1 0) as [zero max] eqn:E.
  destruct Hs as [[-> ->]|(pre & m & post & -> & Hm2 & -> & ->)].
  - exists (emit 0 ps). split; [apply ntop_none; [done|done|done|by rewrite E]|].
    destruct ps as [|w ps _] using rev_ind; [done|]. rewrite length_app in Hk. cbn [length] in Hk. apply addr_full; [done|done|lia].
  - rewrite !length_app, length_replicate in Hk.
    apply list.Forall_app in Hok as [Hpre [_ Hpost]%list.Forall_app].
    assert (flat (pre ++ replicate m (0, 0) ++ post) =
      flat pre ++ replicate (16 - 2 * length pre - 2 * length post) 0 ++ flat post) as Eflat.
    { rewrite !flat_words_app. do 2 f_equal. replace (16 - 2 * length pre - 2 * length post)%nat with (2 * m)%nat by lia.
      clear. induction m as [|m IH]; [done|]. replace (2 * S m)%nat with (S (S (2 * m))) by lia.
      cbn [replicate]. by rewrite <- IH. }
    pose proof (addr_zeros pre post mem0 Hm Hpre Hpost ltac:(lia)) as Ha. rewrite <- Eflat in Ha.
    case_decide as Hpre0.
    + subst pre. cbn [app length Nat.add] in *. change (2 * Z.of_nat 0) with 0 in E.
      destruct (ntop_start m post text len ltac:(done) Hpost Hm2 ltac:(lia) E)
        as [En|(mid & a & b & c & d & Ep & Hmid & Hba & Hbb & Hbc & Hbd & En)].
      * rewrite En. eexists. split; [done|exact Ha].
      * rewrite En. eexists. split; [done|].
        assert ([a; b; c; d] ≠ replicate 4 255) as Hne'.
        { intros Ed. rewrite Ep in Hne. destruct Hmid as [->| ->]; cbn in Hne; apply Hne; try done; unfold mapped; auto. }
        assert (Forall pair_ok mid ∧ (length mid ≤ 1)%nat) as [Hokm Hlm].
        { destruct Hmid as [->| ->]; (split; [|cbn; lia]); by repeat constructor. }
        rewrite Ep. by apply addr_dotted.
    + rewrite (ntop_zeros pre m post text len ltac:(done) Hpre Hpost Hm2 ltac:(lia) Hpre0 E).
      eexists. split; [done|exact Ha].
Qed.

(** ** Any text *)

#[local] Arguments put : simpl never.

Record bounded (v : vars6) : Prop := {
  b_mem : length (mem v) = 16%nat;
  b_n : 1 ≤ n v ≤ 8;
  b_addr : addr v = 2 * (8 - n v);
  b_zero : ∀ z, zero v = Some z → 0 ≤ z ≤ addr v;
}.

Lemma put_bounded b v : 0 ≤ addr v < Z.of_nat (length (mem v)) →
  ∃ v', put b v = Some v' ∧ length (mem v') = length (mem v) ∧ addr v' = addr v + 1 ∧ n v' = n v ∧
    zero v' = zero v ∧ word v' = word v.
Proof.
  intros H. unfold put. rewrite (proj2 (Z.leb_le 0 _)), (proj2 (Z.ltb_lt _ _)) by lia. cbn [andb].
  eexists. split; [done|]. unfold set_field. cbn. by rewrite length_insert.
Qed.

Lemma step6_bounded v c rest : bounded v →
  match step6 v c rest with
  | Some (Next v') | Some (Stop v') => bounded v'
  | Some Error => True
  | None => False
  end.
Proof.
  intros [Hm Hn Ha Hz]. unfold step6. destruct (c =? ":"%ch).
  { destruct (negb (nibbles v =? 0)).
    - destruct (put_bounded (Z.shiftr (word v) 8) (v <| digit := Some rest |>)) as (v1 & E1 & Hm1 & Ha1 & Hn1 & Hz1 & Hw1);
        [unfold set_field; cbn; lia|]. unfold set_field in *. cbn in *. rewrite E1. cbn [mbind option_bind].
      destruct (put_bounded (Z.land (word v1) 255) v1) as (v2 & E2 & Hm2 & Ha2 & Hn2 & Hz2 & _); [lia|]. rewrite E2.
      cbn [mbind option_bind]. rewrite Hn2, Hn1, u64_id by lia. destruct (Z.eqb_spec (n v - 1) 0); cbn; [done|].
      split; cbn; [lia|lia|lia|]. intros z E. rewrite Hz2, Hz1 in E. specialize (Hz z E). lia.
    - destruct (zero v) eqn:E; [done|]. split; unfold set_field; cbn; try done. intros z [= <-]. lia. }
  destruct ((c =? "."%ch) && _).
  { destruct (digit v); [|done]. destruct (Z.ltb_spec (n v) 2); [done|]. destruct (_ =? INADDR_NONE); [done|].
    match goal with |- context [put ?b ?v0 ≫= _] => destruct (put_bounded b v0) as (v1 & E1 & Hm1 & Ha1 & Hn1 & Hz1 & Hw1);
      [unfold set_field; cbn; lia|] end. unfold set_field in *. cbn in *. rewrite E1. cbn [mbind option_bind].
    match goal with |- context [put ?b v1] => destruct (put_bounded b v1) as (v2 & E2 & Hm2 & Ha2 & Hn2 & Hz2 & _); [lia|] end.
    rewrite E2. cbn [mbind option_bind]. rewrite Hn2, Hn1, u64_id by lia.
    split; cbn; [lia|lia|lia|]. intros z E. rewrite Hz2, Hz1 in E. specialize (Hz z E). lia. }
  destruct (4 <? _); [done|]. destruct (is_digit c); [by split|]. destruct (_ && _); [by split|done].
Qed.

Lemma loop6_bounded text : ∀ v, bounded v →
  match loop6 v text with Some (inr v') => bounded v' | Some (inl _) => True | None => False end.
Proof.
  induction text as [|c text IH]; intros v Hv; [done|]. cbn [loop6]. pose proof (step6_bounded v c text Hv) as Hs.
  destruct (step6 v c text) as [[v'|v'|]|]; [|done..]. cbn [mbind option_bind]. by apply IH.
Qed.

Lemma move_up_bounded fuel : ∀ m z s d, 0 ≤ z → s < Z.of_nat (length m) → s ≤ d → d < Z.of_nat (length m) →
  s - z < Z.of_nat fuel → ∃ m', move_up fuel m z s d = Some m' ∧ length m' = length m.
Proof.
  induction fuel as [|fuel IH]; intros m z s d Hz Hs Hsd Hd Hf; cbn [move_up].
  { rewrite (proj2 (Z.ltb_lt s z)) by lia. by eexists. }
  destruct (Z.ltb_spec s z); [by eexists|].
  destruct (lookup_lt_is_Some_2 m (Z.to_nat s)) as [x ->]; [lia|]. cbn [mbind option_bind].
  rewrite (proj2 (Z.leb_le 0 d)), (proj2 (Z.ltb_lt d _)) by lia. cbn [andb].
  destruct (IH (<[Z.to_nat d := x]> m) z (s - 1) (d - 1)) as (m' & E & Hl); rewrite ?length_insert in *; try lia.
  by exists m'.
Qed.

(** [ngx_inet6_addr] writes only to the 16 bytes of the address, whatever
    the text is. *)
Theorem inet6_addr_safe text mem0 : length mem0 = 16%nat →
  ∃ rc a, ngx_inet6_addr text mem0 = Some (rc, a) ∧ length a = 16%nat ∧ (rc = NGX_OK ∨ rc = NGX_ERROR).
Proof.
  intros Hm. destruct text as [|c text]; [by exists NGX_ERROR, mem0; auto|]. unfold ngx_inet6_addr.
  set (t := if c =? ":"%ch then text else c :: text).
  assert (bounded (mk_vars mem0 0 None None 0 0 8)) as Hb by (split; cbn; [done|lia|lia|done]).
  pose proof (loop6_bounded t _ Hb) as Hl.
  destruct (loop6 _ t) as [[rc|v]|] eqn:E; [| |done]; cbn [mbind option_bind].
  { exists rc, mem0. split; [done|]. split; [done|]. right. clear -E. revert E.
    generalize (mk_vars mem0 0 None None 0 0 8). induction t as [|c' t' IH]; intros v E; [done|]. cbn [loop6] in E.
    destruct (step6 v c' t') as [[v'|v'|]|]; try done; cbn [mbind option_bind] in E; [by eapply IH|by simplify_eq]. }
  destruct Hl as [Hm1 Hn Ha Hz]. unfold finish6. destruct (_ && _); [by exists NGX_ERROR, (mem v); auto|].
  destruct (put_bounded (Z.shiftr (word v) 8) v) as (v1 & -> & Hl1 & Ha1 & Hn1 & Hz1 & Hw1); [lia|]. cbn [mbind option_bind].
  destruct (put_bounded (Z.land (word v1) 255) v1) as (v2 & -> & Hl2 & Ha2 & Hn2 & Hz2 & Hw2); [lia|]. cbn [mbind option_bind].
  unfold set_field. cbn [mem addr zero n]. rewrite Hn2, Hn1, u64_id by lia.
  destruct (Z.eqb_spec (n v - 1) 0) as [E1|E1]; cbn [negb].
  { exists (if bool_decide (zero v2 = None) then NGX_OK else NGX_ERROR), (mem v2). split; [done|]. split; [lia|].
    case_bool_decide; auto. }
  destruct (zero v2) as [z|] eqn:Ez; [|exists NGX_ERROR, (mem v2); split; [done|]; split; [lia|by right]].
  specialize (Hz z ltac:(congruence)). rewrite u64_id by lia.
  destruct (move_up_bounded 16 (mem v2) z (addr v2 - 1) (addr v2 - 1 + (n v - 1) * 2)) as (m' & -> & Hl'); try lia.
  cbn [mbind option_bind]. unfold memzero. rewrite (proj2 (Z.leb_le 0 z)), (proj2 (Z.leb_le _ _)) by lia.
  cbn [andb mbind option_bind]. do 2 eexists. split; [done|]. split; [|by left].
  rewrite !length_app, length_take, length_replicate, length_drop. lia.
Qed.

(** ** Witnesses and what is not read back *)

Lemma inet_roundtrip_witness :
  ∃ t, ngx_inet_ntop false (AF_INET [192; 168; 0; 1] 0) 4096 15 = Some t ∧
    Z.of_nat (length t) ≤ 15 ∧ ngx_inet_addr t = load32 [192; 168; 0; 1] ∧
    (ngx_inet_addr t = INADDR_NONE ↔ [192; 168; 0; 1] = replicate 4 255).
Proof. apply inet_roundtrip; unfold is_byte; lia. Defined.

Definition example_addr : list Z := [0x20; 1; 0xd; 0xb8; 0; 0; 0; 0; 0; 0; 0; 0; 0; 0; 0; 1].

Lemma inet6_roundtrip_witness :
  ∃ t, ngx_inet6_ntop example_addr 4096 45 = Some t ∧
    ngx_inet6_addr t (replicate 16 7) = Some (NGX_OK, example_addr).
Proof.
  apply inet6_roundtrip; [done| |done|lia|lia|by intros [|]].
  repeat constructor; unfold is_byte; lia.
Defined.

Lemma inet6_addr_safe_witness :
  ∃ rc a, ngx_inet6_addr (bs "1:2:3:4:5:6:7:8:9") (replicate 16 0) = Some (rc, a) ∧ length a = 16%nat ∧
    (rc = NGX_OK ∨ rc = NGX_ERROR).
Proof. by apply inet6_addr_safe. Defined.

Example inet6_text : ngx_inet6_ntop example_addr 4096 45 = Some (bs "2001:db8::1").
Proof. vm_compute. done. Qed.

(** The IPv4 part must not be 255.255.255.255. *)
Example inet6_broadcast : ngx_inet6_ntop (replicate 10 0 ++ replicate 6 255) 4096 45 = Some (bs "::ffff:255.255.255.255") ∧
  option_map fst (ngx_inet6_addr (bs "::ffff:255.255.255.255") (replicate 16 0)) = Some NGX_ERROR.
Proof. vm_compute. done. Qed.

(** An octet is taken modulo 2 ^ 64 and may be empty. *)
Example inet_addr_wraps : ngx_inet_addr (bs "18446744073709551617.2..4") = load32 [1; 2; 0; 4].
Proof. vm_compute. done. Qed.

(** Networks. *)
Example cidr : ngx_ptocidr true (bs "10.1.2.3/8") [] = Some (NGX_DONE, Some (In (load32 [10; 0; 0; 0]) (load32 [255; 0; 0; 0]))) ∧
  ngx_ptocidr true (bs "fe80::1/10") (replicate 16 0) =
    Some (NGX_DONE, Some (In6 (254 :: 128 :: replicate 14 0) (255 :: 192 :: replicate 14 0))) ∧
  ngx_ptocidr true (bs "10.0.0.0/33") [] = Some (NGX_ERROR, None).
Proof. vm_compute. done. Qed.

(** A single colon at the start or after ["::"] is accepted. *)
Example inet6_single_colon :
  option_map fst (ngx_inet6_addr (bs ":1:2:3:4:5:6:7:8") (replicate 16 0)) = Some NGX_OK ∧
  ngx_inet6_addr (bs "::1:") (replicate 16 0) = Some (NGX_OK, replicate 13 0 ++ [1; 0; 0]).
Proof. vm_compute. done. Qed.
End InetProof.
