(* ===== verification/Url.v ===== *)
(** * Addresses with hosts, ports and URIs: [ngx_parse_url]

    src/core/ngx_inet.c.  What follows [listen], [proxy_pass], [server] of an
    upstream and the like is taken apart into a host, a port and a URI, and the
    host is resolved.

    A [ngx_str_t] inside of the text is the text it has; the text itself is
    followed by a NUL, as the words of a configuration are.  [gethostbyname] is a
    parameter; the allocations succeed.  Ports are in the order of the machine.
    [None] is a read behind the NUL. *)

From S2P Require Import Prelude Number StringOps Printf Inet.

Module Url.

(** [sizeof(saun->sun_path)] of Linux. *)
Abbreviation sun_path_size := 108.

Inductive family_t := AF_UNSPEC | AF_INET | AF_INET6 | AF_UNIX.

(** [ngx_addr_t]; [socklen] goes with the kind of the address. *)
Record ngx_addr_t := mk_addr { sockaddr : Inet.sockaddr; name : list Z }.

Record ngx_url_t := mk_url {
  url : list Z;
  host : list Z;
  port_text : list Z;
  uri : list Z;
  port : Z;
  default_port : Z;
  family : family_t;
  listen : bool;
  uri_part : bool;
  no_resolve : bool;
  one_addr : bool;
  no_port : bool;
  wildcard : bool;
  u_sockaddr : Inet.sockaddr;
  addrs : list ngx_addr_t;
  err : option (list Z);
}.

#[export] Instance eta_url : Eta ngx_url_t := λ u,
  mk_url (url u) (host u) (port_text u) (uri u) (port u) (default_port u) (family u) (listen u)
    (uri_part u) (no_resolve u) (one_addr u) (no_port u) (wildcard u) (u_sockaddr u) (addrs u) (err u).

(** The return code and the structure, or a read behind the NUL. *)
Abbreviation result := (option (Z * ngx_url_t)).

Definition ok (u : ngx_url_t) : result := Some (NGX_OK, u).
Definition fail (msg : list Z) (u : ngx_url_t) : result := Some (NGX_ERROR, u <| err := Some msg |>).

(** [sin_port], [sin6_port] *)
Definition set_port (p : Z) (sa : Inet.sockaddr) : Inet.sockaddr :=
  match sa with
  | Inet.AF_INET a _ => Inet.AF_INET a p
  | Inet.AF_INET6 a _ => Inet.AF_INET6 a p
  | sa => sa
  end.

(** [ngx_strlchr] and what is before and from the character on. *)
Definition cut (text : list Z) (c : Z) : list Z * option (list Z) :=
  match StringOps.ngx_strlchr text c with
  | Some i => (take i text, Some (drop i text))
  | None => (text, None)
  end.

(** [n = ngx_atoi(port, len)] and the checks around it. *)
Definition parse_port (text : list Z) : option Z :=
  if (length text =? 0)%nat then None
  else
    let n := Number.Number.ngx_atoi text in
    if (n <? 1) || (65535 <? n) then None else Some n.

(** ** ngx_parse_unix_domain_url *)

Definition ngx_parse_unix_domain_url (u : ngx_url_t) : result :=
  let path := drop 5 (url u) in
  let '(path, rest) := if uri_part u then cut path ":"%ch else (path, None) in
  let u := match rest with Some r => u <| uri := drop 1 r |> | None => u end in
  if (length path =? 0)%nat then fail (bs "no path in the unix domain socket") u
  else
    let u := u <| host := path |> in
    let len := S (length path) in
    if (sun_path_size <? Z.of_nat len) then fail (bs "too long path in the unix domain socket") u
    else
      sun_path ← StringOps.ngx_cpystrn (drop 5 (url u ++ [NUL])) len;
      let sa := Inet.AF_UNIX sun_path in
      ok (u <| u_sockaddr := sa |> <| family := AF_UNIX |>
            <| addrs := [mk_addr sa (take (len + 4) (url u))] |>).

(** ** ngx_inet_resolve_host *)

Section Resolve.

(** The addresses of a host, [None] for an error. *)
Context (gethostbyname : list Z → option (list (list Z))).

(** The first address of the host. *)
Definition first_address (name : list Z) : option (list Z) :=
  match gethostbyname name with Some (a :: _) => Some a | _ => None end.

(** The loop over [h->h_addr_list]. *)
Fixpoint host_addrs (port : Z) (l : list (list Z)) : option (list ngx_addr_t) :=
  match l with
  | [] => Some []
  | a :: l =>
      let sa := Inet.AF_INET a port in
      name ← Inet.ngx_sock_ntop false sa 0 (15 + 6) true;
      rest ← host_addrs port l;
      Some (mk_addr sa name :: rest)
  end.

Definition ngx_inet_resolve_host (u : ngx_url_t) : result :=
  let in_addr := Inet.ngx_inet_addr (host u) in
  if in_addr =? Inet.INADDR_NONE then
    match gethostbyname (host u) with
    | None | Some [] => fail (bs "host not found") u
    | Some (a :: l) =>
        addrs_ ← host_addrs (port u) (if one_addr u then [a] else a :: l);
        ok (u <| addrs := addrs_ |>)
    end
  else
    name ← Printf.ngx_sprintf 0 (bs "%V:%d") [Printf.AStr (host u); Printf.AInt (port u)];
    ok (u <| addrs := [mk_addr (Inet.AF_INET (Inet.bytes32 in_addr) (port u)) name] |>).

(** ** ngx_parse_inet_url *)

(** Where the URI begins: at the first slash, or at a question mark before it. *)
Definition find_uri (text : list Z) : option nat :=
  let uri := StringOps.ngx_strlchr text "/"%ch in
  match StringOps.ngx_strlchr text "?"%ch with
  | None => uri
  | Some args => match uri with
                 | None => Some args
                 | Some uri => Some (if (args <? uri)%nat then args else uri)
                 end
  end.

(** From [u->host.len = len] on. *)
Definition inet_host (host_ : list Z) (u : ngx_url_t) : result :=
  if (length host_ =? 0)%nat then fail (bs "no host") u
  else
    let host_ := if bool_decide (host_ = bs "*") then [] else host_ in
    let u := u <| host := host_ |> in
    if no_resolve u then ok u
    else
      let resolved :=
        if (length host_ =? 0)%nat then Some (replicate 4 0)
        else
          let a := Inet.ngx_inet_addr host_ in
          if a =? Inet.INADDR_NONE then first_address host_ else Some (Inet.bytes32 a) in
      match resolved with
      | None => fail (bs "host not found") (u <| u_sockaddr := Inet.AF_INET (replicate 4 255) (port u) |>)
      | Some a =>
          let u := u <| u_sockaddr := Inet.AF_INET a (if no_port u then default_port u else port u) |>
                     <| wildcard := wildcard u || bool_decide (a = replicate 4 0) |> in
          let u := if no_port u then u <| port := default_port u |> else u in
          if listen u then ok u else ngx_inet_resolve_host u
      end.

(** A colon behind the beginning of the URI does not count. *)
Definition port_before (uri_ port_ : option nat) : option nat :=
  match uri_, port_ with
  | Some i, Some p => if (i <? p)%nat then None else Some p
  | _, _ => port_
  end.

Definition ngx_parse_inet_url (u : ngx_url_t) : result :=
  let text := url u in
  let u := u <| u_sockaddr := Inet.AF_INET (replicate 4 0) 0 |> <| family := AF_INET |> in
  let port_ := StringOps.ngx_strlchr text ":"%ch in
  let uri_ := find_uri text in
  if bool_decide (is_Some uri_) && (listen u || negb (uri_part u)) then fail (bs "invalid host") u
  else
    let last := default (length text) uri_ in
    let u := match uri_ with Some i => u <| uri := drop i text |> | None => u end in
    match port_before uri_ port_ with
    | Some p =>
        let text_ := drop (S p) (take last text) in
        match parse_port text_ with
        | None => fail (bs "invalid port") u
        | Some n =>
            inet_host (take p text)
              (u <| port := n |> <| u_sockaddr := set_port n (u_sockaddr u) |> <| port_text := text_ |>)
        end
    | None =>
        let host_ := take last text in
        let n := Number.Number.ngx_atoi host_ in
        if bool_decide (uri_ = None) && listen u && negb (n =? NGX_ERROR) then
          if (n <? 1) || (65535 <? n) then fail (bs "invalid port") u
          else ok (u <| port := n |> <| u_sockaddr := set_port n (u_sockaddr u) |> <| port_text := host_ |>
                     <| wildcard := true |>)
        else inet_host host_ (u <| no_port := true |>)
    end.

(** ** ngx_parse_inet6_url *)

(** The port and the URI behind the bracket; [None] when the function returns
    there. *)
Definition inet6_tail (rest : list Z) (u : ngx_url_t) : option (list Z * ngx_url_t + ngx_url_t) :=
  let '(_, uri_) := cut rest "/"%ch in
  if bool_decide (is_Some uri_) && (listen u || negb (uri_part u)) then Some (inl (bs "invalid host", u))
  else
    let u := match uri_ with Some t => u <| uri := t |> | None => u end in
    c ← (rest ++ [NUL]) !! 0%nat;
    if c =? ":"%ch then
      match parse_port (drop 1 rest) with
      | None => Some (inl (bs "invalid port", u))
      | Some n =>
          Some (inr (u <| port := n |> <| u_sockaddr := set_port n (u_sockaddr u) |> <| port_text := drop 1 rest |>))
      end
    else Some (inr (u <| no_port := true |>)).

Definition ngx_parse_inet6_url (have_inet6 : bool) (u : ngx_url_t) : result :=
  if negb have_inet6 then fail (bs "the INET6 sockets are not supported on this platform") u
  else
    let u := u <| u_sockaddr := Inet.AF_INET6 (replicate 16 0) 0 |> in
    match cut (drop 1 (url u)) "]"%ch with
    | (_, None) => fail (bs "invalid host") u
    | (host_, Some rest) =>
        t ← inet6_tail (drop 1 rest) u;
        match t with
        | inl (msg, u) => fail msg u
        | inr u =>
            if (length host_ =? 0)%nat then fail (bs "no host") u
            else
              let u := u <| host := host_ |> in
              '(rc, a) ← Inet.ngx_inet6_addr host_ (replicate 16 0);
              let sin6_port := match u_sockaddr u with Inet.AF_INET6 _ p => p | _ => 0 end in
              let u := u <| u_sockaddr := Inet.AF_INET6 a sin6_port |> in
              if negb (rc =? NGX_OK) then fail (bs "invalid IPv6 address") u
              else
                let u := if bool_decide (a = replicate 16 0) then u <| wildcard := true |> else u in
                let u := u <| family := AF_INET6 |> in
                if no_resolve u then ok u
                else if no_port u then
                  ok (u <| port := default_port u |> <| u_sockaddr := set_port (default_port u) (u_sockaddr u) |>)
                else ok u
        end
    end.

(** ** ngx_parse_url *)

Definition ngx_parse_url (have_inet6 : bool) (u : ngx_url_t) : result :=
  let p := url u ++ [NUL] in
  c ← StringOps.ngx_strncasecmp p (bs "unix:" ++ [NUL]) 5;
  if c =? 0 then ngx_parse_unix_domain_url u
  else
    c ← p !! 0%nat;
    if ((c =? ":"%ch) || (c =? "/"%ch)) && negb (listen u) then fail (bs "invalid host") u
    else if c =? "["%ch then ngx_parse_inet6_url have_inet6 u
    else ngx_parse_inet_url u.
End Resolve.

End Url.
