(* ===== verification/UrlProof.v ===== *)
(** * [ngx_parse_url]: what an address is taken apart into

    An address that is put together from a host, a port and a URI is taken apart
    into them again, and an IPv4 address with a port is resolved to itself. *)

From S2P Require Import Prelude Number StringOps Printf Times Inet InetProof Url.
Import InetProof Url.

Module UrlProof.

(** ** Searching for a character *)

Lemma strlchr_app c l t : c ∉ l → StringOps.ngx_strlchr (l ++ t) c = (λ j, (length l + j)%nat) <$> StringOps.ngx_strlchr t c.
Proof.
  induction l as [|x l IH]; intros Hc; cbn [app length].
  - by destruct (StringOps.ngx_strlchr t c).
  - apply not_elem_of_cons in Hc as [Hx Hl]. cbn. rewrite (proj2 (Z.eqb_neq _ _)) by done.
    rewrite IH by done. by destruct (StringOps.ngx_strlchr t c).
Qed.

Lemma strlchr_notin c l : c ∉ l → StringOps.ngx_strlchr l c = None.
Proof. intros H. by rewrite <- (app_nil_r l), strlchr_app. Qed.

Lemma strlchr_here c l t : c ∉ l → StringOps.ngx_strlchr (l ++ c :: t) c = Some (length l).
Proof.
  intros H. rewrite strlchr_app by done. cbn. rewrite Z.eqb_refl. cbn. f_equal. lia.
Qed.

(** A URI is empty or begins with a slash or a question mark. *)
Definition uri_ok (x : list Z) : Prop := ∀ c t, x = c :: t → c = "/"%ch ∨ c = "?"%ch.

Lemma find_uri_at b x : "/"%ch ∉ b → "?"%ch ∉ b → uri_ok x →
  find_uri (b ++ x) = match x with [] => None | _ => Some (length b) end.
Proof.
  intros Hs Hq Hx. unfold find_uri. destruct x as [|c t].
  { by rewrite app_nil_r, !strlchr_notin by done. }
  destruct (Hx c t eq_refl) as [->| ->].
  - rewrite strlchr_here by done. rewrite strlchr_app by done. cbn [StringOps.ngx_strlchr].
    change ("/"%ch =? "?"%ch) with false. cbv iota. destruct (StringOps.ngx_strlchr t "?"%ch) as [j|]; [|done].
    cbn [fmap option_fmap option_map]. by destruct (Nat.ltb_spec (length b + S j) (length b)); [lia|].
  - rewrite strlchr_here by done. rewrite strlchr_app by done. cbn [StringOps.ngx_strlchr].
    change ("?"%ch =? "/"%ch) with false. cbv iota. destruct (StringOps.ngx_strlchr t "/"%ch) as [j|]; [|done].
    cbn [fmap option_fmap option_map]. by destruct (Nat.ltb_spec (length b) (length b + S j)); [|lia].
Qed.

(** ** The parts of an address *)

(** A host is not empty, begins like no other kind of address, and holds none of
    the separators. *)
Record host_ok (h : list Z) : Prop := {
  host_some : h ≠ [];
  host_bracket : head h ≠ Some "["%ch;
  host_chars : Forall (λ c, is_byte c ∧ c ≠ NUL ∧ c ≠ ":"%ch ∧ c ≠ "/"%ch ∧ c ≠ "?"%ch) h;
}.

Definition port_ok (ds : list Z) : Prop := Forall is_digit ds ∧ ds ≠ [] ∧ 1 ≤ dec ds ≤ 65535.

(** The text of a port: a colon and its digits. *)
Definition port_part (p : option (list Z)) : list Z :=
  match p with Some ds => ":"%ch :: ds | None => [] end.

Lemma host_no h c : host_ok h → c = ":"%ch ∨ c = "/"%ch ∨ c = "?"%ch → c ∉ h.
Proof.
  intros [_ _ Hh] Hc Hin. rewrite list.Forall_forall in Hh. destruct (Hh c Hin) as (_ & _ & H1 & H2 & H3). tauto.
Qed.

Lemma digit_no ds c : Forall is_digit ds → c = ":"%ch ∨ c = "/"%ch ∨ c = "?"%ch → c ∉ ds.
Proof.
  intros Hd Hc Hin. rewrite list.Forall_forall in Hd. specialize (Hd c Hin). apply is_digit_range in Hd. lia.
Qed.

Lemma parse_port_ok ds : port_ok ds → parse_port ds = Some (dec ds).
Proof.
  intros (Hd & Hn & Hr). unfold parse_port. rewrite Number.atoi_value by (done || lia).
  destruct (Nat.eqb_spec (length ds) 0); [by destruct ds|].
  by destruct (Z.ltb_spec (dec ds) 1), (Z.ltb_spec 65535 (dec ds)); [lia..|].
Qed.

Section Parts.
Context (gethostbyname : list Z → option (list (list Z))).
#[local] Abbreviation inet_host := (Url.inet_host gethostbyname).

(** The address before its host is looked at. *)
Definition with_parts (p : option (list Z)) (x : list Z) (u : ngx_url_t) : ngx_url_t :=
  let u := u <| u_sockaddr := Inet.AF_INET (replicate 4 0) 0 |> <| family := AF_INET |> in
  let u := match x with [] => u | _ => u <| uri := x |> end in
  match p with
  | Some ds => u <| port := dec ds |> <| u_sockaddr := Inet.AF_INET (replicate 4 0) (dec ds) |> <| port_text := ds |>
  | None => u <| no_port := true |>
  end.

Lemma inet_url_parts u h p x : url u = h ++ port_part p ++ x → host_ok h → (∀ ds, p = Some ds → port_ok ds) → uri_ok x →
  (x ≠ [] → listen u = false ∧ uri_part u = true) →
  (p = None → listen u = false) →
  ngx_parse_inet_url gethostbyname u = inet_host h (with_parts p x u).
Proof.
  intros Hu Hh Hp Hx Hflags Hlisten. unfold ngx_parse_inet_url. cbn [listen uri_part url set_field]. rewrite Hu.
  assert (∀ c, c = "/"%ch ∨ c = "?"%ch → c ∉ h ++ port_part p) as Hb.
  { intros c Hc. rewrite not_elem_of_app. split; [apply host_no; tauto|].
    destruct p as [ds|]; cbn; [|apply not_elem_of_nil]. apply not_elem_of_cons. split; [destruct Hc as [->| ->]; done|].
    apply digit_no; [by apply (Hp ds)|tauto]. }
  rewrite app_assoc, (find_uri_at (h ++ port_part p) x) by (auto || done).
  set (b := h ++ port_part p) in *.
  assert (bool_decide (is_Some (match x with [] => None | _ => Some (length b) end)) && (listen u || negb (uri_part u)) = false) as E1.
  { destruct x as [|c t]; [by rewrite bool_decide_eq_false_2 by (by intros [? ?])|].
    destruct Hflags as [-> ->]; [done|]. by rewrite andb_false_r. }
  rewrite E1. cbv iota.
  set (U := u <| u_sockaddr := Inet.AF_INET (replicate 4 0) 0 |> <| family := AF_INET |>).
  assert (match (match x with [] => None | _ => Some (length b) end) with
          | Some i => U <| uri := drop i (b ++ x) |> | None => U end =
          match x with [] => U | _ => U <| uri := x |> end) as ->
    by (destruct x; [done|by rewrite drop_app_length]).
  assert (take (default (length (b ++ x)) (match x with [] => None | _ => Some (length b) end)) (b ++ x) = b) as Etake.
  { destruct x; cbn; [by rewrite app_nil_r, firstn_all|by rewrite take_app_length]. }
  rewrite Etake. unfold with_parts. destruct p as [ds|].
  - assert (StringOps.ngx_strlchr (b ++ x) ":"%ch = Some (length h)) as ->.
    { unfold b. cbn [port_part]. rewrite <- app_assoc. cbn [app]. apply strlchr_here, host_no; tauto. }
    assert (port_before (match x with [] => None | _ => Some (length b) end) (Some (length h)) = Some (length h)) as ->.
    { destruct x; [done|]. cbn [port_before]. unfold b. rewrite length_app.
      by destruct (Nat.ltb_spec (length h + length (port_part (Some ds))) (length h)); [lia|]. }
    assert (drop (S (length h)) b = ds) as ->.
    { unfold b. cbn [port_part]. replace (h ++ ":"%ch :: ds) with ((h ++ [":"%ch]) ++ ds) by by rewrite <- app_assoc.
      apply drop_app_length'. rewrite length_app. cbn. lia. }
    rewrite parse_port_ok by auto. unfold b. rewrite <- app_assoc, take_app_length. by destruct x.
  - assert (port_before (match x with [] => None | _ => Some (length b) end) (StringOps.ngx_strlchr (b ++ x) ":"%ch) = None) as ->.
    { assert (b = h) as -> by apply app_nil_r. destruct x as [|c t].
      - rewrite app_nil_r, strlchr_notin; [done|]. apply host_no; tauto.
      - rewrite strlchr_app by (apply host_no; tauto). cbn [StringOps.ngx_strlchr].
        destruct (Hx c t eq_refl) as [->| ->].
        all: change ("/"%ch =? ":"%ch) with false; change ("?"%ch =? ":"%ch) with false; cbv iota;
          destruct (StringOps.ngx_strlchr t ":"%ch) as [j|]; [|done]; cbn [fmap option_fmap option_map port_before];
          by destruct (Nat.ltb_spec (length h) (length h + S j)); [|lia]. }
    assert (listen (match x with [] => U | _ => U <| uri := x |> end) = false) as -> by (destruct x; by apply Hlisten).
    rewrite andb_false_r. cbn [andb]. assert (b = h) as -> by apply app_nil_r. by destruct x.
Qed.
End Parts.

(** ** Which kind of address it is *)

Lemma not_unix text : bytes text → Forall (λ c, c ≠ NUL) text →
  StringOps.starts StringOps.lower (bs "unix:") text = false →
  ∃ m, StringOps.ngx_strncasecmp (text ++ [NUL]) (bs "unix:" ++ [NUL]) 5 = Some m ∧ m ≠ 0.
Proof.
  intros Hb Hn Hs. assert (StringOps.no_nul text) as Ht.
  { rewrite list.Forall_forall in Hb |- *. intros c Hc. split; [by apply Hb|]. rewrite list.Forall_forall in Hn. by apply Hn. }
  destruct (StringOps.strncasecmp_starts (bs "unix:") (text ++ [NUL]) [NUL]) as (m & E & Em).
  - by repeat constructor.
  - apply Forall_app_2; [done|]. by repeat constructor.
  - right. by exists text, [].
  - exists m. split; [exact E|]. rewrite StringOps.starts_nul, Hs in Em.
    + by apply Z.eqb_neq.
    + apply StringOps.lower_nul.
    + by repeat constructor.
Qed.

(** The text of an address. *)
Record text_ok (h : list Z) (p : option (list Z)) (x : list Z) : Prop := {
  text_host : host_ok h;
  text_port : ∀ ds, p = Some ds → port_ok ds;
  text_uri : uri_ok x;
  text_chars : StringOps.no_nul x;
  text_not_unix : StringOps.starts StringOps.lower (bs "unix:") (h ++ port_part p ++ x) = false;
}.

Lemma text_bytes h p x : text_ok h p x →
  bytes (h ++ port_part p ++ x) ∧ Forall (λ c, c ≠ NUL) (h ++ port_part p ++ x).
Proof.
  intros [[_ _ Hh] Hp _ Hx _].
  assert (StringOps.no_nul (h ++ port_part p ++ x)) as H.
  { apply Forall_app_2; [eapply list.Forall_impl; [exact Hh|]; by intros c (? & ? & _)|].
    apply Forall_app_2; [|done]. destruct p as [ds|]; [|constructor]. constructor; [done|].
    destruct (Hp ds eq_refl) as [Hd _]. eapply list.Forall_impl; [exact Hd|]. intros c Hc%is_digit_range.
    unfold is_byte. lia. }
  split; (eapply list.Forall_impl; [exact H|]); by intros c [? ?].
Qed.

Section Theorems.
Context (gethostbyname : list Z → option (list (list Z))).

Lemma parse_url_inet have_inet6 u h p x : url u = h ++ port_part p ++ x → text_ok h p x →
  listen u = false → uri_part u = true →
  ngx_parse_url gethostbyname have_inet6 u = inet_host gethostbyname h (with_parts p x u).
Proof.
  intros Hu Ht Hl Huri. pose proof (text_bytes _ _ _ Ht) as [Hb Hn]. destruct Ht as [Hh Hp Hx _ Hunix].
  unfold ngx_parse_url. rewrite Hu in *. destruct (not_unix _ Hb Hn Hunix) as (m & -> & Hm).
  cbn [mbind option_bind]. rewrite (proj2 (Z.eqb_neq _ _) Hm).
  destruct Hh as [H1 H2 H3]. destruct h as [|c h]; [done|].
  change ((((c :: h) ++ port_part p ++ x) ++ [NUL]) !! 0%nat) with (Some c). cbn [mbind option_bind].
  inversion H3 as [|?? (_ & _ & Hc1 & Hc2 & _)]; subst.
  rewrite (proj2 (Z.eqb_neq c ":"%ch)), (proj2 (Z.eqb_neq c "/"%ch)) by done. cbn [orb andb].
  rewrite (proj2 (Z.eqb_neq c "["%ch)) by (intros ->; by apply H2).
  by apply inet_url_parts.
Qed.


(** *** Printing *)

Definition name_text (h : list Z) (n : Z) : list Z := h ++ ":"%ch :: Printf.num_digits n 0.

Lemma print_name h n : Z.of_nat (length h) ≤ MAX_INT64 → 0 ≤ n ≤ 65535 →
  Printf.ngx_sprintf 0 (bs "%V:%d") [Printf.AStr h; Printf.AInt n] = Some (name_text h n).
Proof.
  intros Hh Hn. destruct (Printf.num_digits_dec n) as (_ & _ & _ & Hl); [lia|].
  unfold Printf.ngx_sprintf, Printf.ngx_vslprintf. cbn [bs nth length].
  erewrite Times.loop_directive; [|lia|apply Times.directive_V; lia].
  rewrite Times.loop_literal by (lia || done).
  rewrite (Times.loop_directive _ _ _ _ (Printf.num_digits n 0) [] []); [|lia|].
  - cbn [Printf.vslprintf_loop option_map]. unfold name_text. by rewrite app_nil_r.
  - apply (Times.directive_number _ " "%ch 0); [reflexivity|lia|lia|lia|].
    unfold Printf.number. by replace (Z.to_nat (0 - _)) with O by lia.
Qed.

(** *** An IPv4 address is resolved to itself *)

Lemma dotted_host a b c d : is_byte a → is_byte b → is_byte c → is_byte d →
  host_ok (dotted_text [a; b; c; d]) ∧ dotted_text [a; b; c; d] ≠ bs "*" ∧ (length (dotted_text [a; b; c; d]) ≤ 15)%nat.
Proof.
  intros Ha Hb Hc Hd.
  destruct (dec_text_digits a Ha) as (Da & _ & La), (dec_text_digits b Hb) as (Db & _ & Lb),
    (dec_text_digits c Hc) as (Dc & _ & Lc), (dec_text_digits d Hd) as (Dd & _ & Ld).
  assert (∀ t, Forall is_digit t → Forall (λ c, is_byte c ∧ c ≠ NUL ∧ c ≠ ":"%ch ∧ c ≠ "/"%ch ∧ c ≠ "?"%ch) t) as Hdig.
  { intros t Ht. eapply list.Forall_impl; [exact Ht|]. intros x Hx%is_digit_range. unfold is_byte. lia. }
  unfold dotted_text. split; [|split].
  - split.
    + destruct (dec_text a); [cbn in La; lia|done].
    + destruct (dec_text a) as [|x t]; [cbn in La; lia|]. cbn. intros [= ->].
      inversion_clear Da as [|?? Hx _]. apply is_digit_range in Hx. lia.
    + repeat (apply Forall_app_2; [by apply Hdig|constructor; [by repeat split|]]). by apply Hdig.
  - destruct (dec_text a) as [|x [|y t]]; [cbn in La; lia| |]; by intros [=].
  - rewrite !length_app; cbn [length]; rewrite !length_app; cbn [length]; rewrite length_app; cbn [length]. lia.
Qed.

(** C26: The address [a.b.c.d] other than 255.255.255.255, with a port or without
    and with a URI or without, of a directive that takes a URI and does not
    listen, is resolved to itself with that port or the default one, and is
    called [a.b.c.d:port]. *)
Theorem parse_url_ipv4 have_inet6 u a b c d p x : let h := dotted_text [a; b; c; d] in
  url u = h ++ port_part p ++ x → text_ok h p x →
  listen u = false → uri_part u = true → no_resolve u = false → no_port u = false → uri u = [] →
  0 ≤ default_port u ≤ 65535 →
  is_byte a → is_byte b → is_byte c → is_byte d → [a; b; c; d] ≠ replicate 4 255 →
  let n := match p with Some ds => dec ds | None => default_port u end in
  ∃ u', ngx_parse_url gethostbyname have_inet6 u = Some (NGX_OK, u') ∧
    host u' = h ∧ port u' = n ∧ uri u' = x ∧ u_sockaddr u' = Inet.AF_INET [a; b; c; d] n ∧
    addrs u' = [mk_addr (Inet.AF_INET [a; b; c; d] n) (name_text h n)] ∧
    wildcard u' = wildcard u || bool_decide ([a; b; c; d] = replicate 4 0).
Proof.
  intros h Hu Ht Hl Huri Hr Hnp Hx Hdef Ha Hb Hc Hd Hne n. rewrite (parse_url_inet _ _ h p x) by done.
  destruct (dotted_host a b c d Ha Hb Hc Hd) as ([Hsome _ _] & Hstar & Hlen). fold h in Hsome, Hstar, Hlen.
  assert (Inet.ngx_inet_addr h = Inet.load32 [a; b; c; d]) as Eaddr by by apply inet_addr_dotted.
  assert (Inet.bytes32 (Inet.load32 [a; b; c; d]) = [a; b; c; d]) as Ebytes.
  { unfold is_byte in *. unfold Inet.bytes32, Inet.load32. repeat f_equal; zlia. }
  assert (Inet.load32 [a; b; c; d] ≠ Inet.INADDR_NONE) as Enone.
  { intros E. apply Hne. rewrite <- Ebytes, E. reflexivity. }
  assert (0 ≤ n ≤ 65535) as Hn.
  { unfold n. destruct p as [ds|]; [|done]. destruct (text_port _ _ _ Ht ds eq_refl) as (_ & _ & ?). lia. }
  unfold inet_host. destruct (Nat.eqb_spec (length h) 0) as [E|Hlen0]; [by destruct h|].
  rewrite (bool_decide_eq_false_2 (h = bs "*")) by done.
  assert (no_resolve (with_parts p x u) = false) as Er by (destruct p, x; done).
  assert (listen (with_parts p x u) = false) as El by (destruct p, x; done).
  assert (wildcard (with_parts p x u) = wildcard u) as Ew by (destruct p, x; done).
  assert (uri (with_parts p x u) = x) as Ex by (destruct p, x; done).
  assert ((if no_port (with_parts p x u) then default_port (with_parts p x u) else port (with_parts p x u)) = n) as En
    by (unfold n; destruct p, x; cbn; rewrite ?Hnp; done).
  set (v := with_parts p x u) in *. clearbody v n.
  cbn [no_resolve set_field]. rewrite Er, (proj2 (Nat.eqb_neq _ _)) by done.
  cbn [negb]. rewrite Eaddr, (proj2 (Z.eqb_neq _ _) Enone), Ebytes.
  cbn [no_port default_port port listen set_field] in *.
  destruct (no_port v); cbn [listen port set_field]; rewrite El; unfold ngx_inet_resolve_host;
    cbn [host port set_field]; rewrite Eaddr, (proj2 (Z.eqb_neq _ _) Enone), Ebytes, En, print_name by lia;
    cbn [mbind option_bind]; (eexists; split; [done|]); cbn; rewrite ?Ew; by repeat split.
Qed.
End Theorems.

(** ** Examples *)

Definition new_url (text : list Z) : ngx_url_t :=
  mk_url text [] [] [] 0 80 AF_UNSPEC false true false false false false Inet.AF_OTHER [] None.
Definition no_hosts (name : list Z) : option (list (list Z)) := None.

Lemma example_text : text_ok (bs "10.0.0.1") (Some (bs "8080")) (bs "/a?b").
Proof.
  split; [split; [done|done|by apply (bool_decide_unpack _)]| | | |done].
  - intros ds [= <-]. split; [by apply (bool_decide_unpack _)|]. split; [done|]. by split; apply (bool_decide_unpack _).
  - intros c t [= <- _]. by left.
  - by apply (bool_decide_unpack _).
Qed.


Lemma parse_url_ipv4_witness :
  ∃ u', ngx_parse_url no_hosts true (new_url (bs "10.0.0.1:8080/a?b")) = Some (NGX_OK, u') ∧
    host u' = bs "10.0.0.1" ∧ port u' = 8080 ∧ uri u' = bs "/a?b" ∧ u_sockaddr u' = Inet.AF_INET [10; 0; 0; 1] 8080 ∧
    addrs u' = [mk_addr (Inet.AF_INET [10; 0; 0; 1] 8080) (bs "10.0.0.1:8080")] ∧ wildcard u' = false.
Proof.
  exact (parse_url_ipv4 no_hosts true (new_url (bs "10.0.0.1:8080/a?b")) 10 0 0 1 (Some (bs "8080")) (bs "/a?b")
    eq_refl example_text eq_refl eq_refl eq_refl eq_refl eq_refl ltac:(cbn; lia) ltac:(done) ltac:(done) ltac:(done) ltac:(done) ltac:(done)).
Defined.

(** ** What the code does not mean to do *)

(** With a URI the port of an IPv6 address goes on to the end of the text. *)
Example ipv6_port_with_uri :
  ((λ r, (r.1, err r.2)) <$> ngx_parse_url no_hosts true (new_url (bs "[::1]:80/a"))) = Some (NGX_ERROR, Some (bs "invalid port")) ∧
  ((λ r, (r.1, uri r.2)) <$> ngx_parse_url no_hosts true (new_url (bs "[::1]/a"))) = Some (NGX_OK, bs "/a").
Proof. split; by vm_compute. Qed.

(** What follows the bracket is not looked at. *)
Example ipv6_garbage :
  ((λ r, (r.1, port r.2)) <$> ngx_parse_url no_hosts true (new_url (bs "[::1]8080"))) = Some (NGX_OK, 80).
Proof. by vm_compute. Qed.

End UrlProof.
