(* ===== verification/Resolver.v ===== *)
(** * DNS messages of the resolver

    The parts of src/core/ngx_resolver.c that write and read DNS messages: the
    queries ([ngx_resolver_create_name_query], [..._create_addr_query]), the
    names of a response ([ngx_resolver_copy]), its header
    ([ngx_resolver_process_response]) and its answers (the loops of
    [ngx_resolver_process_a] and [..._process_ptr]).

    [buf] is the whole array that a datagram was received into (4096 bytes in
    [ngx_resolver_read_response]), [n] or [last] the number of its bytes that
    the datagram has; what comes after them is old.  [None] is a read outside
    of the array (or a loop that has not ended with its fuel).  Allocation is a
    parameter: [alloc size] tells whether the allocation of [size] bytes
    succeeds. *)

From S2P Require Import Prelude Number StringOps Printf Inet.

Module Resolver.

Abbreviation NGX_RESOLVE_A := 1.
Abbreviation NGX_RESOLVE_CNAME := 5.
Abbreviation NGX_RESOLVE_PTR := 12.
Abbreviation NGX_RESOLVE_DNAME := 39.
Abbreviation NGX_RESOLVE_FORMERR := 1.
Abbreviation NGX_RESOLVE_NXDOMAIN := 3.
Abbreviation NGX_RESOLVE_REFUSED := 5.

(** The sizes of [ngx_resolver_query_t], [ngx_resolver_qs_t] and
    [ngx_resolver_an_t]. *)
Abbreviation query_size := 12.
Abbreviation qs_size := 4.
Abbreviation an_size := 10.

(** Two bytes in the order of the network. *)
Definition be16 (hi lo : Z) : Z := Z.shiftl hi 8 + lo.
Definition read16 (buf : list Z) (p : Z) : option Z :=
  hi ← at_ buf p; lo ← at_ buf (p + 1); Some (be16 hi lo).

(** ** Queries *)

(** The twelve bytes of [ngx_resolver_query_t]: the identifier, recursion
    desired, one question. *)
Definition query_header (ident : Z) : list Z :=
  [u8 (Z.land (Z.shiftr ident 8) 0xff); u8 (Z.land ident 0xff); 1; 0; 0; 1; 0; 0; 0; 0; 0; 0].

Definition query_tail (type : Z) : list Z := [0; u8 type; 0; 1].

(** The loop that writes a name from its end: [s] is the rest of the name, from
    the last byte on, [p] what is written already, the first byte of which is
    at [p + 1].  [None] is [NGX_DECLINED]. *)
Fixpoint name_loop (s : list Z) (len : Z) (p : list Z) : option (list Z) :=
  match s with
  | [] => if (len =? 0) || (255 <? len) then None else Some (u8 len :: p)
  | c :: s =>
      if negb (c =? "."%ch) then name_loop s (len + 1) (c :: p)
      else if (len =? 0) || (255 <? len) then None
      else name_loop s 0 (u8 len :: p)
  end.

(** The return code, [rn->query] and [rn->qlen]; after [NGX_DECLINED] the
    query has no name yet, and is of no use. *)
Record created := mk_created { rc : Z; query : option (list Z); qlen : Z }.

Definition ngx_resolver_create_name_query (alloc : Z → bool) (ident type : Z) (name : list Z) : created :=
  let nlen := if negb (Z.of_nat (length name) =? 0) then 1 + Z.of_nat (length name) + 1 else 1 in
  let len := query_size + nlen + qs_size in
  if negb (alloc len) then mk_created NGX_ERROR None 0
  else
    match name_loop (rev name) 0 [0] with
    | None => mk_created NGX_DECLINED None (u16 len)
    | Some text => mk_created NGX_OK (Some (query_header ident ++ text ++ query_tail type)) (u16 len)
    end.

(** ["\7in-addr\4arpa"], without its final zero. *)
Definition in_addr_arpa : list Z := 7 :: bs "in-addr" ++ 4 :: bs "arpa".

(** The labels of an address: [ngx_sprintf] writes the digits after the byte
    for their number.  [p] is the address the text is written to, a number. *)
Fixpoint addr_loop (addr : Z) (ns : list Z) (p : Z) : option (list Z) :=
  match ns with
  | [] => Some []
  | n :: ns =>
      d ← Printf.ngx_sprintf (p + 1) (bs "%ud") [Printf.AInt (Z.land (Z.shiftr addr n) 0xff)];
      let label := u8 (Z.of_nat (length d)) :: d in
      text ← addr_loop addr ns (p + Z.of_nat (length label));
      Some (label ++ text)
  end.

Definition ngx_resolver_create_addr_query (alloc : Z → bool) (ident addr : Z) (p : Z) : option created :=
  let len := query_size + 30 + qs_size in
  if negb (alloc len) then Some (mk_created NGX_ERROR None 0)
  else
    text ← addr_loop addr [0; 8; 16; 24] (p + query_size);
    let query := query_header ident ++ text ++ in_addr_arpa ++ [0; 0; 12; 0; 1] in
    Some (mk_created NGX_OK (Some query) (u16 (query_size + Z.of_nat (length text) + 14 + qs_size))).

(** ** [ngx_resolver_copy] *)

(** A byte with one of the two upper bits set begins a compression pointer. *)
Definition is_pointer (n : Z) : bool := negb (Z.land n 0xc0 =? 0).
Definition pointer_to (n m : Z) : Z := Z.shiftl (Z.land n 0x3f) 8 + m.

(** How the first loop ends: the length of the name, or one of its errors. *)
Inductive scanned := Length (len : Z) | OutOfResponse | PointersLoop.

Fixpoint scan_loop (buf : list Z) (last : Z) (i : nat) (p len : Z) : option scanned :=
  match i with
  | O => Some PointersLoop
  | S i =>
      n ← at_ buf p;
      let p := p + 1 in
      if n =? 0 then Some (Length len)
      else
        '(p, len) ← (if is_pointer n then m ← at_ buf p; Some (pointer_to n m, len)
                     else Some (p + n, len + (1 + n)));
        if last <=? p then Some OutOfResponse else scan_loop buf last i p len
  end.

(** [ngx_memcpy(dst, src, n)]: the bytes that are copied. *)
Definition memcpy_from (buf : list Z) (src n : Z) : option (list Z) :=
  if src + n <=? Z.of_nat (length buf) then Some (slice buf src n) else None.

(** The second loop, which writes [dst]; it has no bound of its own. *)
Fixpoint copy_loop (fuel : nat) (buf : list Z) (n src : Z) (dst : list Z) : option (list Z) :=
  match fuel with
  | O => None
  | S fuel =>
      '(n, src, dst) ←
        (if is_pointer n then
           m ← at_ buf src;
           let src := pointer_to n m in
           n ← at_ buf src; Some (n, src + 1, dst)
         else
           label ← memcpy_from buf src n;
           let dst := dst ++ label in
           let src := src + n in
           n ← at_ buf src;
           Some (n, src + 1, if negb (n =? 0) then dst ++ ["."%ch] else dst));
      if n =? 0 then Some dst else copy_loop fuel buf n src dst
  end.

(** What the function returns and stores: an error, with [name] left alone;
    [NGX_OK] without a name wanted; [NGX_OK] and a name, of which [size] bytes
    were allocated and [data] was written to them. *)
Inductive copied :=
  | Invalid | NoMemory | Checked | Copied (size : Z) (data : list Z).

Definition copy_fuel : nat := 128.

Definition ngx_resolver_copy (alloc : Z → bool) (wanted : bool) (buf : list Z) (src last : Z) : option copied :=
  s ← scan_loop buf last 128 src (-1);
  match s with
  | OutOfResponse | PointersLoop => Some Invalid
  | Length len =>
      if negb wanted then Some Checked
      else if len =? -1 then Some (Copied 0 [])
      else if negb (alloc len) then Some NoMemory
      else
        n ← at_ buf src;
        dst ← copy_loop copy_fuel buf n (src + 1) [];
        Some (Copied len dst)
  end.

(** ** [ngx_resolver_process_response]

    What the function does with a datagram: the message it logs, or the
    function that it calls.  [DnsError] has the code of the response and, for
    [NGX_RESOLVE_FORMERR], the position in the queue of the query that it
    belongs to. *)
Inductive verdict :=
  | ShortResponse | InvalidResponse | BadQuestions | ZeroName | UnknownClass (qclass : Z) | UnknownType (qtype : Z)
  | DnsError (code : Z) (rn : option nat)
  | ProcessA (ident code nan ans : Z)
  | ProcessPtr (ident code nan : Z).

(** The walk in [name_resend_queue]: [queue] is the identifiers of the queries
    in it.  The condition of the loop lets it go past the last element, to the
    sentinel, whose "query" are the bytes [sentinel] of another field of the
    resolver; behind that the queue begins again.  [i] is the place of the
    element, [rest] the elements from there on. *)
Fixpoint formerr_loop (fuel : nat) (queue : list Z) (sentinel ident : Z) (rest : list Z) (i : nat) (times : Z) :
    option (option nat) :=
  match fuel with
  | O => None
  | S fuel =>
      match rest with
      | qident :: rest =>
          if qident =? ident then Some (Some i)
          else formerr_loop fuel queue sentinel ident rest (S i) times
      | [] =>
          if times <? 100 then
            if sentinel =? ident then Some (Some i)
            else formerr_loop fuel queue sentinel ident queue O (times + 1)
          else Some None
      end
  end.

(** The loop over the question: the offset of the byte that ends its name, or
    [None] when the datagram ends before. *)
Fixpoint question_loop (fuel : nat) (buf : list Z) (n i : Z) : option (option Z) :=
  match fuel with
  | O => None
  | S fuel =>
      if i <? n then
        len ← at_ buf i;
        if len =? 0 then Some (Some i) else question_loop fuel buf n (i + (1 + len))
      else Some None
  end.

Definition ngx_resolver_process_response (queue : list Z) (sentinel : Z) (buf : list Z) (n : Z) : option verdict :=
  if n <? query_size then Some ShortResponse
  else
    ident ← read16 buf 0;
    flags ← read16 buf 2;
    nqs ← read16 buf 4;
    nan ← read16 buf 6;
    if Z.land flags 0x8000 =? 0 then Some InvalidResponse
    else
      let code := Z.land flags 0x7f in
      if code =? NGX_RESOLVE_FORMERR then
        rn ← formerr_loop (101 * S (length queue)) queue sentinel ident queue O 0;
        Some (DnsError code rn)
      else if NGX_RESOLVE_REFUSED <? code then Some (DnsError code None)
      else if negb (nqs =? 1) then Some BadQuestions
      else
        found ← question_loop (S (Z.to_nat n)) buf n query_size;
        match found with
        | None => Some ShortResponse
        | Some i =>
            if i =? 0 then Some ZeroName
            else
              let i := i + 1 in
              if n <? i + qs_size + nan * (2 + an_size) then Some ShortResponse
              else
                qtype ← read16 buf i;
                qclass ← read16 buf (i + 2);
                if negb (qclass =? 1) then Some (UnknownClass qclass)
                else if qtype =? NGX_RESOLVE_A then Some (ProcessA ident code nan (i + qs_size))
                else if qtype =? NGX_RESOLVE_PTR then Some (ProcessPtr ident code nan)
                else Some (UnknownType qtype)
        end.

(** ** The answers of [ngx_resolver_process_a] *)

(** The name of an answer: where it ends, and whether with a pointer. *)
Fixpoint skip_name (fuel : nat) (buf : list Z) (last i : Z) : option (option (Z * bool)) :=
  match fuel with
  | O => None
  | S fuel =>
      if i <? last then
        c ← at_ buf i;
        if is_pointer c then Some (Some (i + 2, true))
        else if c =? 0 then Some (Some (i + 1, false))
        else skip_name fuel buf last (i + (1 + c))
      else Some None
  end.

(** [htonl((buf[i] << 24) + ... + (buf[i + 3]))] *)
Definition read_addr (buf : list Z) (i : Z) : option Z :=
  a ← at_ buf i; b ← at_ buf (i + 1); c ← at_ buf (i + 2); d ← at_ buf (i + 3);
  Some (Inet.htonl (u32 (Z.shiftl a 24 + Z.shiftl b 16 + Z.shiftl c 8 + d))).

(** The fields of [ngx_resolver_an_t] that are read: type, ttl, length. *)
Definition read_an (buf : list Z) (i : Z) : option (Z * Z * Z) :=
  qtype ← read16 buf i;
  t0 ← at_ buf (i + 4); t1 ← at_ buf (i + 5); t2 ← at_ buf (i + 6); t3 ← at_ buf (i + 7);
  len ← read16 buf (i + 8);
  let ttl := s32 (Z.shiftl t0 24 + Z.shiftl t1 16 + Z.shiftl t2 8 + t3) in
  Some (qtype, (if ttl <? 0 then 0 else ttl), len).

(** The variables of the first loop over the answers. *)
Record found := mk_found {
  naddrs : Z;
  addr : Z;
  cname : option Z;
  qtype : Z;
  ttl : Z;
}.
#[export] Instance eta_found : Eta found := λ s, mk_found (naddrs s) (addr s) (cname s) (qtype s) (ttl s).

Inductive answers := Answers (s : found) | ShortAnswers | InvalidName.

Definition an_step (buf : list Z) (last i : Z) (s : found) : option (option (Z * found)) :=
  if last <=? i + an_size then Some None
  else
    '(qtype', ttl', len) ← read_an buf i;
    let s' := s <| qtype := qtype' |> <| ttl := ttl' |> in
    if qtype' =? NGX_RESOLVE_A then
      let i := i + an_size in
      if last <? i + len then Some None
      else
        a ← read_addr buf i;
        Some (Some (i + len, s' <| addr := a |> <| naddrs := naddrs s + 1 |>))
    else if qtype' =? NGX_RESOLVE_CNAME then
      Some (Some (i + (an_size + len), s' <| cname := Some (i + an_size) |>))
    else if qtype' =? NGX_RESOLVE_DNAME then Some (Some (i + (an_size + len), s'))
    else Some (Some (i, s')).

Fixpoint answers_loop (buf : list Z) (last : Z) (nan : nat) (i : Z) (s : found) : option answers :=
  match nan with
  | O => Some (Answers s)
  | S nan =>
      let start := i in
      skipped ← skip_name (S (Z.to_nat last)) buf last i;
      match skipped with
      | None => Some ShortAnswers
      | Some (i, pointer) =>
          if negb pointer && (i - start <? 2) then Some InvalidName
          else
            next ← an_step buf last i s;
            match next with
            | None => Some ShortAnswers
            | Some (i, s) => answers_loop buf last nan i s
            end
      end
  end.

(** The loop that stores the addresses when there are several: [nan] answers
    are left, [n] of the [naddrs] addresses are stored.  Its loop over a name
    has no bound: [last] is the end of the array there. *)
Fixpoint addrs_loop (buf : list Z) (nan : nat) (naddrs i n : Z) : option (list Z) :=
  match nan with
  | O => Some []
  | S nan =>
      skipped ← skip_name (S (length buf)) buf (Z.of_nat (length buf)) i;
      '(i, _) ← skipped;
      '(qtype, _, len) ← read_an buf i;
      let i := i + an_size in
      if qtype =? NGX_RESOLVE_A then
        a ← read_addr buf i;
        if n + 1 =? naddrs then Some [a]
        else
          rest ← addrs_loop buf nan naddrs (i + len) (n + 1);
          Some (a :: rest)
      else addrs_loop buf nan naddrs (i + len) n
  end.

(** ** [ngx_resolver_process_a]

    What the function decides about a response, before it changes the node and
    calls the handlers: the reasons for dropping the response (those up to
    [NoType] leave a message in the log), the code that the requests fail
    with, the addresses, or the name that is looked up instead.
    An address that is [None] was counted but not stored: what it is in the
    memory that was allocated is left as it was. *)
Inductive reply :=
  | BadName | Unexpected | WrongIdent (qident : Z) | Short | BadAnswerName | NoType (qtype : Z) | BadAlias
  | OutOfMemory
  | Failed (code : Z)
  | Addresses (addrs : list (option Z)) (ttl : Z)
  | Alias (name : list Z) (ttl : Z).

(** [lookup name hash] is [rn->query] of the node that
    [ngx_resolver_lookup_name] finds, [None] without node or without query. *)
Definition process_answers (alloc : Z → bool) (buf : list Z) (last nan ans : Z) : option reply :=
  found ← answers_loop buf last (Z.to_nat nan) ans (mk_found 0 0 None 0 0);
  match found with
  | ShortAnswers => Some Short
  | InvalidName => Some BadAnswerName
  | Answers s =>
      if negb (naddrs s =? 0) then
        if naddrs s =? 1 then Some (Addresses [Some (addr s)] (ttl s))
        else if negb (alloc (naddrs s * 4)) then Some OutOfMemory
        else
          addrs ← addrs_loop buf (Z.to_nat nan) (naddrs s) ans 0;
          Some (Addresses (resize (Z.to_nat (naddrs s)) None (Some <$> addrs)) (ttl s))
      else
        match cname s with
        | Some cname =>
            name ← ngx_resolver_copy alloc true buf cname last;
            match name with
            | Copied _ data => Some (Alias data (ttl s))
            | _ => Some BadAlias
            end
        | None => Some (NoType (qtype s))
        end
  end.

Definition ngx_resolver_process_a (alloc : Z → bool) (crc32_short : list Z → Z)
    (lookup : list Z → Z → option (list Z))
    (buf : list Z) (last ident code nan ans : Z) : option reply :=
  name ← ngx_resolver_copy alloc true buf 12 last;
  match name with
  | Copied _ name =>
      match lookup name (crc32_short name) with
      | None => Some Unexpected
      | Some query =>
          qident ← read16 query 0;
          if negb (ident =? qident) then Some (WrongIdent qident)
          else
            let code := if (code =? 0) && (nan =? 0) then NGX_RESOLVE_NXDOMAIN else code in
            if negb (code =? 0) then Some (Failed code)
            else process_answers alloc buf last nan ans
      end
  | _ => Some BadName
  end.

(** ** [ngx_resolver_process_ptr] *)

(** [ngx_atoi(&buf[i], len)]: the text may be longer than the array when a byte
    that is no digit stops the function before. *)
Definition atoi_at (buf : list Z) (i len : Z) : option Z :=
  let line := slice buf i len in
  if (Z.of_nat (length line) <? len) && forallb is_digit line then None
  else Some (Number.ngx_atoi line).

(** The address that the labels of the question spell, and where they end;
    [Some None] is an invalid name. *)
Fixpoint ptr_loop (buf : list Z) (masks : list Z) (addr i : Z) : option (option (Z * Z)) :=
  match masks with
  | [] => Some (Some (addr, i))
  | mask :: masks =>
      len ← at_ buf i;
      let i := i + 1 in
      digit ← atoi_at buf i len;
      if (digit =? NGX_ERROR) || (255 <? digit) then Some None
      else ptr_loop buf masks (u32 (addr + Z.shiftl digit mask)) (i + len)
  end.

(** [ngx_strcmp(&buf[i], s) == 0] *)
Fixpoint strcmp_at (buf : list Z) (i : Z) (s : list Z) : option bool :=
  c ← at_ buf i;
  match s with
  | [] => Some (c =? 0)
  | x :: s => if c =? x then strcmp_at buf (i + 1) s else Some false
  end.

(** The address asked for, and the offset of the zero after the labels. *)
Definition ptr_question (alloc : Z → bool) (buf : list Z) (n : Z) : option (option (Z * Z)) :=
  checked ← ngx_resolver_copy alloc false buf 12 n;
  match checked with
  | Checked =>
      labels ← ptr_loop buf [0; 8; 16; 24] 0 12;
      match labels with
      | None => Some None
      | Some (addr, i) =>
          same ← strcmp_at buf i in_addr_arpa;
          if (same : bool) then Some (Some (addr, i)) else Some None
      end
  | _ => Some None
  end.

(** The name of the answer, with its time to live. *)
Definition ptr_answer (alloc : Z → bool) (buf : list Z) (n i : Z) : option reply :=
  let i := i + (14 + qs_size) in
  if n <? i + 2 + an_size then Some Short
  else
    c ← at_ buf i;
    d ← at_ buf (i + 1);
    if negb (c =? 0xc0) || negb (d =? 0x0c) then Some BadAnswerName
    else
      '(_, ttl, len) ← read_an buf (i + 2);
      let i := i + (2 + an_size) in
      if n <? i + len then Some Short
      else
        name ← ngx_resolver_copy alloc true buf i n;
        match name with
        | Copied _ data => Some (Alias data ttl)
        | _ => Some BadAlias
        end.

(** [lookup addr] is as in [ngx_resolver_process_a]. *)
Definition ngx_resolver_process_ptr (alloc : Z → bool) (lookup : Z → option (list Z))
    (buf : list Z) (n ident code nan : Z) : option reply :=
  question ← ptr_question alloc buf n;
  match question with
  | None => Some BadName
  | Some (addr, i) =>
      match lookup addr with
      | None => Some Unexpected
      | Some query =>
          qident ← read16 query 0;
          if negb (ident =? qident) then Some (WrongIdent qident)
          else
            let code := if (code =? 0) && (nan =? 0) then NGX_RESOLVE_NXDOMAIN else code in
            if negb (code =? 0) then Some (Failed code)
            else ptr_answer alloc buf n i
      end
  end.

End Resolver.
