(* ===== verification/ResolverProof.v ===== *)
(** * DNS messages of the resolver: the theorems

    Names as sequences of labels and pointers, the copy of a name against them,
    the round trips of queries, and a response with its answers from the
    datagram to the addresses. *)

From S2P Require Import Prelude Number StringOps Printf Inet InetProof Resolver.

Module ResolverProof.
Import Resolver.

(** *** Reading at the end of what is known *)

Lemma at_app l c r p : p = Z.of_nat (length l) → at_ (l ++ c :: r) p = Some c.
Proof.
  intros ->. unfold at_. destruct (Z.ltb_spec (Z.of_nat (length l)) 0); [lia|].
  rewrite lookup_app_r by lia. by rewrite Nat2Z.id, Nat.sub_diag.
Qed.

Lemma at_lookup l p c : 0 ≤ p → l !! Z.to_nat p = Some c → at_ l p = Some c.
Proof. intros Hp Hl. unfold at_. by destruct (Z.ltb_spec p 0); [lia|]. Qed.

Lemma at_is_Some l p : 0 ≤ p < Z.of_nat (length l) → ∃ c, at_ l p = Some c.
Proof.
  intros Hp. destruct (lookup_lt_is_Some_2 l (Z.to_nat p)) as [c Hc]; [lia|].
  exists c. apply at_lookup; [lia|done].
Qed.

Lemma at_byte l p c : bytes l → at_ l p = Some c → is_byte c.
Proof.
  unfold at_. intros Hl. destruct (p <? 0); [done|].
  intros Hc. exact (Forall_lookup_1 _ _ _ _ Hl Hc).
Qed.

Lemma slice_app l k r p n : p = Z.of_nat (length l) → n = Z.of_nat (length k) → slice (l ++ k ++ r) p n = k.
Proof.
  intros -> ->. unfold slice. rewrite !Nat2Z.id, drop_app_length, take_app_le, firstn_all; [done|lia].
Qed.

(** *** Names

    What a name consists of, as it is met on the way through the message:
    labels, and pointers to the place where it goes on. *)
Inductive item := Label (l : list Z) | Jump.

(** The name that begins at [p]: after every item the place is before [last]. *)
Inductive name_at (buf : list Z) (last : Z) : Z → list item → Prop :=
  | name_end p : at_ buf p = Some 0 → name_at buf last p []
  | name_label p n l items :
      at_ buf p = Some n → n ≠ 0 → is_pointer n = false → l = slice buf (p + 1) n →
      p + 1 + n < last → name_at buf last (p + 1 + n) items → name_at buf last p (Label l :: items)
  | name_pointer p n m items :
      at_ buf p = Some n → is_pointer n = true → at_ buf (p + 1) = Some m →
      pointer_to n m < last → name_at buf last (pointer_to n m) items → name_at buf last p (Jump :: items).

Fixpoint labels (items : list item) : list (list Z) :=
  match items with
  | [] => []
  | Label l :: items => l :: labels items
  | Jump :: items => labels items
  end.

(** The labels of a name with dots between them. *)
Fixpoint dotted (ls : list (list Z)) : list Z :=
  match ls with
  | [] => []
  | [l] => l
  | l :: ls => l ++ "."%ch :: dotted ls
  end.

(** The bytes that the first loop counts. *)
Definition counted (items : list item) : Z := foldr (λ l n, 1 + Z.of_nat (length l) + n) 0 (labels items).

(** The name ends with a pointer to a zero byte. *)
Fixpoint ends_in_jump (items : list item) : bool :=
  match items with
  | [] => false
  | [i] => match i with Jump => true | Label _ => false end
  | _ :: items => ends_in_jump items
  end.

(** The text that the second loop writes. *)
Fixpoint written (items : list item) : list Z :=
  match items with
  | [] => []
  | [Label l] => l
  | Label l :: items => l ++ "."%ch :: written items
  | Jump :: items => written items
  end.

Lemma pointer_zero n : is_pointer n = true → n ≠ 0.
Proof. by intros H ->. Qed.

(** A name is what its bytes say. *)
Lemma name_at_fun buf last p items : name_at buf last p items → ∀ items', name_at buf last p items' → items = items'.
Proof.
  induction 1 as [p E|p n l items E Hn Hp -> Hl _ IH|p n m items E Hp Em Hl _ IH];
    intros items' H'; inversion H'; simplify_eq; try congruence; f_equal; by apply IH.
Qed.

Lemma slice_length buf p n : 0 ≤ p → 0 ≤ n → p + n ≤ Z.of_nat (length buf) → Z.of_nat (length (slice buf p n)) = n.
Proof. intros. unfold slice. rewrite length_take, length_drop. lia. Qed.

Lemma pointer_range n m : 0 ≤ m → 0 ≤ pointer_to n m.
Proof.
  intros. unfold pointer_to. assert (0 ≤ Z.shiftl (Z.land n 0x3f) 8); [|lia].
  apply Z.shiftl_nonneg, Z.land_nonneg. by right.
Qed.

(** *** The first loop *)

Lemma scan_sound buf last i : bytes buf → last ≤ Z.of_nat (length buf) → ∀ p len r, 0 ≤ p →
  scan_loop buf last i p len = Some (Length r) →
  ∃ items, name_at buf last p items ∧ (length items < i)%nat ∧ r = len + counted items.
Proof.
  intros Hb Hlast. induction i as [|i IH]; intros p len r Hp; [done|].
  cbn [scan_loop]. destruct (at_ buf p) as [n|] eqn:En; [|done]. cbn [mbind option_bind].
  pose proof (at_byte _ _ _ Hb En) as Hn. unfold is_byte in Hn.
  destruct (Z.eqb_spec n 0) as [->|Hz].
  { intros [= <-]. exists []. split; [by constructor|]. cbn. unfold counted. cbn. lia. }
  destruct (is_pointer n) eqn:Ep; cbn [mbind option_bind].
  - destruct (at_ buf (p + 1)) as [m|] eqn:Em; [|done]. cbn [mbind option_bind].
    pose proof (at_byte _ _ _ Hb Em) as Hm. unfold is_byte in Hm.
    destruct (Z.leb_spec last (pointer_to n m)); [done|]. intros Hs.
    destruct (IH _ _ _ (pointer_range n m ltac:(lia)) Hs) as (items & Hi & Hlen & ->).
    exists (Jump :: items). split; [by econstructor|]. cbn. unfold counted. cbn. lia.
  - destruct (Z.leb_spec last (p + 1 + n)); [done|]. intros Hs.
    destruct (IH (p + 1 + n) _ _ ltac:(lia) Hs) as (items & Hi & Hlen & ->).
    exists (Label (slice buf (p + 1) n) :: items). split; [by econstructor|]. cbn. unfold counted. cbn.
    rewrite slice_length by lia. fold (counted items). lia.
Qed.

Lemma scan_complete buf last p items : name_at buf last p items → last ≤ Z.of_nat (length buf) → bytes buf →
  ∀ i len, 0 ≤ p → (length items < i)%nat → scan_loop buf last i p len = Some (Length (len + counted items)).
Proof.
  intros H Hlast Hb. induction H as [p E|p n l items E Hn Hp -> Hl _ IH|p n m items E Hp Em Hl _ IH]; intros i len Hp0 Hi;
    (destruct i as [|i]; [cbn in Hi; lia|]); cbn [scan_loop]; rewrite E; cbn [mbind option_bind].
  - cbn. f_equal. f_equal. unfold counted. cbn. lia.
  - pose proof (at_byte _ _ _ Hb E) as Hr. unfold is_byte in Hr.
    destruct (Z.eqb_spec n 0); [done|]. rewrite Hp. cbn [mbind option_bind].
    destruct (Z.leb_spec last (p + 1 + n)); [lia|]. cbn in Hi. rewrite IH by lia.
    f_equal. f_equal. unfold counted. cbn. rewrite slice_length by lia. lia.
  - pose proof (at_byte _ _ _ Hb Em) as Hr. unfold is_byte in Hr. pose proof (pointer_range n m).
    destruct (Z.eqb_spec n 0); [by apply pointer_zero in Hp|]. rewrite Hp. cbn [mbind option_bind].
    rewrite Em. cbn [mbind option_bind].
    destruct (Z.leb_spec last (pointer_to n m)); [lia|]. cbn in Hi. rewrite IH by lia. done.
Qed.

(** No read of the first loop leaves an array that is longer than the datagram. *)
Lemma scan_safe buf last i : bytes buf → last < Z.of_nat (length buf) → ∀ p len, 0 ≤ p < last →
  is_Some (scan_loop buf last i p len).
Proof.
  intros Hb Hlast. induction i as [|i IH]; intros p len Hp; [by eexists|].
  cbn [scan_loop]. destruct (at_is_Some buf p) as [n En]; [lia|]. rewrite En. cbn [mbind option_bind].
  pose proof (at_byte _ _ _ Hb En) as Hn. unfold is_byte in Hn.
  destruct (Z.eqb_spec n 0); [by eexists|].
  destruct (is_pointer n); cbn [mbind option_bind].
  - destruct (at_is_Some buf (p + 1)) as [m Em]; [lia|]. rewrite Em. cbn [mbind option_bind].
    pose proof (at_byte _ _ _ Hb Em) as Hm. unfold is_byte in Hm. pose proof (pointer_range n m).
    destruct (Z.leb_spec last (pointer_to n m)); [by eexists|]. apply IH. lia.
  - destruct (Z.leb_spec last (p + 1 + n)); [by eexists|]. apply IH. lia.
Qed.

(** *** The second loop *)

Lemma copy_writes buf last p items : name_at buf last p items → last ≤ Z.of_nat (length buf) → bytes buf →
  ∀ fuel n dst, 0 ≤ p → items ≠ [] → (length items ≤ fuel)%nat → at_ buf p = Some n →
  copy_loop fuel buf n (p + 1) dst = Some (dst ++ written items).
Proof.
  intros H Hlast Hb. induction H as [p E|p n l items E Hn Hp -> Hl Hi IH|p n m items E Hp Em Hl Hi IH];
    intros fuel n' dst Hp0 Hne Hf E'; [done| |]; rewrite E in E'; injection E' as <-;
    (destruct fuel as [|fuel]; [cbn in Hf; lia|]); cbn [copy_loop]; rewrite Hp; cbn [mbind option_bind].
  - pose proof (at_byte _ _ _ Hb E) as Hr. unfold is_byte in Hr.
    unfold memcpy_from. destruct (Z.leb_spec (p + 1 + n) (Z.of_nat (length buf))); [|lia]. cbn [mbind option_bind].
    assert (H0 : 0 ≤ p + 1 + n) by lia. remember (p + 1 + n) as q0 eqn:Hq0. clear Hq0.
    destruct Hi as [q Eq|q k l' items Eq Hk Hpk El Hq Hi|q k j items Eq Hpk Ej Hq Hi].
    + rewrite Eq. done.
    + rewrite Eq. cbn [mbind option_bind]. destruct (Z.eqb_spec k 0) as [|_]; [done|]. cbn [negb].
      cbn in Hf. rewrite (IH fuel k) by (cbn; done || lia). subst l'. cbn [written].
      by rewrite <- !app_assoc.
    + rewrite Eq. cbn [mbind option_bind]. pose proof (pointer_zero _ Hpk). destruct (Z.eqb_spec k 0) as [|_]; [done|].
      cbn [negb]. cbn in Hf. rewrite (IH fuel k) by (cbn; done || lia). cbn [written].
      by rewrite <- !app_assoc.
  - rewrite Em. cbn [mbind option_bind]. pose proof (at_byte _ _ _ Hb Em) as Hm. unfold is_byte in Hm.
    pose proof (pointer_range n m).
    destruct (at_is_Some buf (pointer_to n m)) as [k Ek]; [lia|]. rewrite Ek. cbn [mbind option_bind].
    destruct (decide (items = [])) as [->|Hne'].
    { inversion Hi as [q E0| |]; subst. rewrite Ek in E0. injection E0 as ->. cbn. by rewrite app_nil_r. }
    assert (k ≠ 0). { inversion Hi; subst; [done| |]; simplify_eq; [done|by apply pointer_zero]. }
    destruct (Z.eqb_spec k 0) as [|_]; [done|]. cbn in Hf. rewrite (IH fuel k) by (done || lia). done.
Qed.

(** *** What is written, and for how much there is room *)

(** The dot that the second loop leaves at the end. *)
Definition dangling (items : list item) : list Z :=
  match labels items with [] => [] | _ => if ends_in_jump items then ["."%ch] else [] end.

Lemma dangling_cons i j items : labels (j :: items) ≠ [] → dangling (i :: j :: items) = dangling (j :: items).
Proof.
  intros Hl. unfold dangling. change (ends_in_jump (i :: j :: items)) with (ends_in_jump (j :: items)).
  assert (labels (i :: j :: items) ≠ []) by by destruct i.
  by destruct (labels (i :: j :: items)), (labels (j :: items)).
Qed.

Lemma no_labels items : labels items = [] → written items = [] ∧ (items ≠ [] → ends_in_jump items = true).
Proof.
  induction items as [|[l|] items IH]; cbn; [done|done|]. intros Hl. destruct (IH Hl) as [Hw He].
  split; [done|]. intros _. destruct items; [done|]. by apply He.
Qed.

Lemma written_dotted items : written items = dotted (labels items) ++ dangling items.
Proof.
  induction items as [|i items IH]; [done|].
  destruct items as [|j items]; [by destruct i; cbn; rewrite ?app_nil_r|].
  destruct (decide (labels (j :: items) = [])) as [Hn|Hn].
  - destruct (no_labels _ Hn) as [Hw He]. specialize (He ltac:(done)).
    unfold dangling. change (ends_in_jump (i :: j :: items)) with (ends_in_jump (j :: items)). rewrite He.
    destruct i as [l|].
    + change (written (Label l :: j :: items)) with (l ++ "."%ch :: written (j :: items)).
      change (labels (Label l :: j :: items)) with (l :: labels (j :: items)). by rewrite Hw, Hn.
    + change (written (Jump :: j :: items)) with (written (j :: items)).
      change (labels (Jump :: j :: items)) with (labels (j :: items)). by rewrite Hw, Hn.
  - rewrite dangling_cons by done. destruct i as [l|].
    + change (written (Label l :: j :: items)) with (l ++ "."%ch :: written (j :: items)).
      change (labels (Label l :: j :: items)) with (l :: labels (j :: items)). rewrite IH.
      destruct (labels (j :: items)) eqn:E; [done|]. cbn [dotted]. by rewrite <- app_assoc.
    + change (written (Jump :: j :: items)) with (written (j :: items)). by rewrite IH.
Qed.

Lemma length_dotted ls : ls ≠ [] →
  Z.of_nat (length (dotted ls)) = foldr (λ l n, 1 + Z.of_nat (length l) + n) 0 ls - 1.
Proof.
  induction ls as [|l ls IH]; [done|]. intros _. destruct ls as [|k ls]; [cbn; lia|].
  change (dotted (l :: k :: ls)) with (l ++ "."%ch :: dotted (k :: ls)). rewrite length_app. cbn [length].
  rewrite Nat2Z.inj_add, Nat2Z.inj_succ, IH by done. cbn [foldr]. lia.
Qed.

Lemma counted_dotted items : -1 + counted items = if decide (labels items = []) then -1 else Z.of_nat (length (dotted (labels items))).
Proof.
  unfold counted. destruct (decide (labels items = [])) as [->|Hl]; [done|]. rewrite length_dotted by done. lia.
Qed.

Lemma counted_nonneg items : 0 ≤ counted items.
Proof. unfold counted. induction (labels items); cbn; lia. Qed.

(** A name is read from a message that does not fill the array: never outside
    of the array, and without an endless loop.  The name that is returned is
    the labels on the way with dots between them, in memory that was allocated
    for exactly this; the name is refused only if it leaves the datagram or
    takes more than 127 steps.  But a name whose last label is followed by a
    pointer to a zero byte gets one more dot, for which there is no room. *)
Theorem resolver_copy_correct alloc buf src last :
  bytes buf → 0 ≤ src < last → last < Z.of_nat (length buf) →
  match ngx_resolver_copy alloc true buf src last with
  | Some (Copied size data) => ∃ items, name_at buf last src items ∧ (length items < 128)%nat ∧
      size = Z.of_nat (length (dotted (labels items))) ∧
      data = dotted (labels items) ++ dangling items
  | Some NoMemory => ∃ items, name_at buf last src items ∧ alloc (Z.of_nat (length (dotted (labels items)))) = false
  | Some Invalid => ∀ items, name_at buf last src items → (128 ≤ length items)%nat
  | _ => False
  end.
Proof.
  intros Hb Hsrc Hlast. unfold ngx_resolver_copy.
  destruct (scan_safe buf last 128 Hb Hlast src (-1) Hsrc) as [r Er]. rewrite Er. cbn [mbind option_bind negb].
  assert (Hinvalid : (∀ len, r ≠ Length len) → ∀ items, name_at buf last src items → (128 ≤ length items)%nat).
  { intros Hr items Hi. destruct (decide (length items < 128)%nat) as [Hk|]; [|lia].
    rewrite (scan_complete _ _ _ _ Hi) in Er by (done || lia). injection Er as <-. by destruct (Hr _ eq_refl). }
  destruct r as [len| |]; [|by apply Hinvalid|by apply Hinvalid].
  destruct (scan_sound buf last 128 Hb ltac:(lia) src (-1) len ltac:(lia) Er) as (items & Hi & Hk & ->).
  rewrite counted_dotted. destruct (decide (labels items = [])) as [Hn|Hn].
  - change (-1 =? -1) with true. cbn iota. exists items. unfold dangling. rewrite Hn. done.
  - destruct (Z.eqb_spec (Z.of_nat (length (dotted (labels items)))) (-1)) as [|_]; [lia|].
    destruct (alloc _) eqn:Ea; cbn [negb]; [|by exists items].
    destruct (at_is_Some buf src) as [c Ec]; [lia|]. rewrite Ec. cbn [mbind option_bind].
    assert (items ≠ []) by by intros ->.
    rewrite (copy_writes _ _ _ _ Hi ltac:(lia) Hb copy_fuel c []) by (done || lia || (unfold copy_fuel; lia)).
    exists items. cbn [app]. by rewrite written_dotted.
Qed.

(** The heap is written out of bounds by one byte: "www" followed by a pointer
    to the zero in the header has room for three bytes, and four are written. *)
Example resolver_copy_overflow :
  ngx_resolver_copy (λ _, true) true (0 :: replicate 11 0 ++ 3 :: bs "www" ++ [0xc0; 0; 0]) 12 18 =
  Some (Copied 3 (bs "www.")).
Proof. reflexivity. Qed.

(** A datagram that fills the array and ends in the middle of a pointer makes
    the first loop read behind the array. *)
Example resolver_copy_reads_past_end :
  ngx_resolver_copy (λ _, true) true (replicate 12 0 ++ [3; 119; 119; 119; 0xc0]) 12 17 = None.
Proof. reflexivity. Qed.

Lemma resolver_copy_correct_witness :
  match ngx_resolver_copy (λ _, true) true (3 :: bs "www" ++ 7 :: bs "example" ++ [0xc0; 15; 0; 2] ++ bs "de" ++ [0; 0; 0]) 0 20 with
  | Some (Copied size data) => size = 14 ∧ data = bs "www.example.de"
  | _ => False
  end.
Proof.
  pose proof (resolver_copy_correct (λ _, true) (3 :: bs "www" ++ 7 :: bs "example" ++ [0xc0; 15; 0; 2] ++ bs "de" ++ [0; 0; 0]) 0 20
    ltac:(apply (bool_decide_eq_true (Forall is_byte _)); reflexivity) ltac:(lia) ltac:(cbn; lia)) as H.
  vm_compute in H |- *. destruct H as (? & ? & ? & ? & ?). done.
Defined.

(** *** Queries *)

(** A name as it stands in a message, without the zero at its end. *)
Definition encode (ls : list (list Z)) : list Z := concat ((λ l, Z.of_nat (length l) :: l) <$> ls).

Definition no_dot (l : list Z) : Prop := Forall (λ c, c ≠ "."%ch) l.

Lemma name_loop_label l : no_dot l → ∀ s len p, name_loop (rev l ++ s) len p = name_loop s (len + Z.of_nat (length l)) (l ++ p).
Proof.
  induction l as [|c l IH] using rev_ind; intros Hl s len p; [cbn; by rewrite Z.add_0_r|].
  apply Forall_app in Hl as [Hl Hc]. inversion_clear Hc as [|?? Hd _].
  rewrite rev_app_distr. cbn [rev app name_loop].
  destruct (Z.eqb_spec c "."%ch) as [|_]; [done|]. cbn [negb]. rewrite IH by done.
  rewrite length_app, <- app_assoc. f_equal. cbn. lia.
Qed.

(** A label that the loop accepts. *)
Definition accepted (l : list Z) : bool := (1 <=? length l)%nat && (length l <=? 255)%nat.

Lemma accepted_test l : (Z.of_nat (length l) =? 0) || (255 <? Z.of_nat (length l)) = negb (accepted l).
Proof.
  unfold accepted.
  destruct (Z.eqb_spec (Z.of_nat (length l)) 0), (Z.ltb_spec 255 (Z.of_nat (length l))),
    (Nat.leb_spec 1 (length l)), (Nat.leb_spec (length l) 255); cbn; done || lia.
Qed.

Lemma name_loop_labels ls : ∀ l s p, no_dot l → Forall no_dot ls →
  name_loop (rev (dotted (l :: ls)) ++ s) 0 p =
  if forallb accepted ls then name_loop s (Z.of_nat (length l)) (l ++ encode ls ++ p) else None.
Proof.
  induction ls as [|k ls IH]; intros l s p Hl Hls; [by apply name_loop_label|].
  inversion_clear Hls as [|?? Hk Hls'].
  change (dotted (l :: k :: ls)) with (l ++ "."%ch :: dotted (k :: ls)).
  rewrite rev_app_distr. cbn [rev]. rewrite <- !app_assoc. rewrite IH by done. cbn [forallb app name_loop].
  rewrite accepted_test, <- andb_comm. change (negb ("."%ch =? "."%ch)) with false. cbn iota.
  destruct (accepted k) eqn:Ek; [|by destruct (forallb accepted ls)].
  destruct (forallb accepted ls); [|done]. cbn [negb andb]. rewrite name_loop_label by done.
  unfold accepted in Ek. apply andb_true_iff in Ek as [_ Ek]. apply Nat.leb_le in Ek.
  rewrite u8_id by lia. change (encode (k :: ls)) with (Z.of_nat (length k) :: k ++ encode ls).
  cbn [app]. by rewrite <- !app_assoc.
Qed.

(** The query for the name of the labels [ls]: [NGX_DECLINED] if and only if a
    label is empty or longer than 255 bytes. *)
Lemma create_name_query ident type ls alloc : ls ≠ [] → Forall no_dot ls →
  let len := query_size + (1 + Z.of_nat (length (dotted ls)) + 1) + qs_size in
  dotted ls ≠ [] → alloc len = true →
  ngx_resolver_create_name_query alloc ident type (dotted ls) =
  if forallb accepted ls then
    mk_created NGX_OK (Some (query_header ident ++ (encode ls ++ [0]) ++ query_tail type)) (u16 len)
  else mk_created NGX_DECLINED None (u16 len).
Proof.
  intros Hne Hls len Hd Ha. unfold ngx_resolver_create_name_query.
  destruct (Z.eqb_spec (Z.of_nat (length (dotted ls))) 0) as [E|_].
  { destruct (dotted ls); [done|cbn in E; lia]. }
  cbn [negb]. fold len. rewrite Ha. cbn [negb].
  destruct ls as [|l ls]; [done|]. inversion_clear Hls as [|?? Hl Hls'].
  rewrite <- (app_nil_r (rev _)), name_loop_labels by done. cbn [forallb name_loop].
  rewrite accepted_test, <- andb_comm.
  destruct (accepted l) eqn:Ek; [|by destruct (forallb accepted ls)].
  destruct (forallb accepted ls); [|done]. cbn [negb andb].
  unfold accepted in Ek. apply andb_true_iff in Ek as [_ Ek]. apply Nat.leb_le in Ek.
  rewrite u8_id by lia. change (encode (l :: ls)) with (Z.of_nat (length l) :: l ++ encode ls).
  cbn [app]. by rewrite <- !app_assoc.
Qed.

(** *** A name that is written out *)

(** A label of the length that a byte of a message can tell. *)
Definition label_ok (l : list Z) : Prop := (1 ≤ length l ≤ 63)%nat ∧ bytes l.

Lemma small_no_pointer n : 0 ≤ n < 64 → is_pointer n = false.
Proof.
  intros Hn. assert (H : is_pointer (n mod 64) = false); [|by rewrite Z.mod_small in H].
  assert (Hb : is_byte n) by (unfold is_byte; lia). clear Hn. revert n Hb.
  enough (E : ∀ n, is_byte n → negb (is_pointer (n mod 64)) = true) by (intros n Hb; by apply negb_true_iff, E).
  apply (byte_forall (λ n, negb (is_pointer (n mod 64)))). vm_compute. reflexivity.
Qed.

Lemma encode_cons l ls : encode (l :: ls) = Z.of_nat (length l) :: l ++ encode ls.
Proof. done. Qed.

Lemma labels_Label ls : labels (Label <$> ls) = ls.
Proof. induction ls as [|l ls IH]; [done|]. cbn. f_equal. apply IH. Qed.

Lemma encode_length ls : Z.of_nat (length (encode ls)) = counted (Label <$> ls).
Proof.
  unfold counted. rewrite labels_Label. induction ls as [|l ls IH]; [done|].
  rewrite encode_cons. cbn [length foldr]. rewrite length_app, <- IH. lia.
Qed.

Lemma name_at_encoded last ls : ∀ pre post p, Forall label_ok ls → p = Z.of_nat (length pre) →
  p + Z.of_nat (length (encode ls)) < last →
  name_at (pre ++ encode ls ++ 0 :: post) last p (Label <$> ls).
Proof.
  induction ls as [|l ls IH]; intros pre post p Hls -> Hlast; [by apply name_end, at_app|].
  inversion_clear Hls as [|?? [Hl Hb] Hls']. rewrite encode_cons in *. cbn [app fmap list_fmap length] in *.
  rewrite length_app in Hlast.
  eapply (name_label _ _ _ (Z.of_nat (length l))); [by apply at_app|lia|apply small_no_pointer; lia| |lia|].
  - replace (pre ++ _) with ((pre ++ [Z.of_nat (length l)]) ++ l ++ encode ls ++ 0 :: post)
      by by rewrite <- !app_assoc.
    symmetry. apply slice_app; [rewrite length_app; cbn; lia|done].
  - replace (pre ++ _) with ((pre ++ Z.of_nat (length l) :: l) ++ encode ls ++ 0 :: post)
      by by rewrite <- !app_assoc.
    apply IH; [done|rewrite length_app; cbn; lia|lia].
Qed.

Lemma ends_in_Label ls : ends_in_jump (Label <$> ls) = false.
Proof. induction ls as [|l ls IH]; [done|]. by destruct ls. Qed.

Lemma dangling_Label ls : dangling (Label <$> ls) = [].
Proof. unfold dangling. rewrite ends_in_Label. by destruct (labels _). Qed.

(** A name that is written out without pointers is read back. *)
Lemma copy_encoded alloc wanted pre ls post p last :
  let buf := pre ++ encode ls ++ 0 :: post in
  bytes buf → Forall label_ok ls → ls ≠ [] → (length ls < 128)%nat → p = Z.of_nat (length pre) →
  p + Z.of_nat (length (encode ls)) < last → last ≤ Z.of_nat (length buf) →
  alloc (Z.of_nat (length (dotted ls))) = true →
  ngx_resolver_copy alloc wanted buf p last =
  Some (if wanted then Copied (Z.of_nat (length (dotted ls))) (dotted ls) else Checked).
Proof.
  intros buf Hb Hls Hne Hk Hp Hlast Hlen Ha. unfold ngx_resolver_copy.
  pose proof (name_at_encoded last ls pre post p Hls Hp Hlast) as Hi. fold buf in Hi.
  rewrite (scan_complete _ _ _ _ Hi) by (done || lia || (rewrite length_fmap; lia)). cbn [mbind option_bind].
  destruct wanted; [|done]. cbn [negb]. rewrite counted_dotted, labels_Label.
  destruct (decide (ls = [])) as [|_]; [done|].
  destruct (Z.eqb_spec (Z.of_nat (length (dotted ls))) (-1)) as [|_]; [lia|]. rewrite Ha. cbn [negb].
  destruct (at_is_Some buf p) as [c Ec]; [lia|]. rewrite Ec. cbn [mbind option_bind].
  rewrite (copy_writes _ _ _ _ Hi Hlen Hb copy_fuel c []);
    [|lia|by destruct ls|unfold copy_fuel; rewrite length_fmap; lia|done].
  cbn [mbind option_bind app]. by rewrite written_dotted, labels_Label, dangling_Label, app_nil_r.
Qed.

(** *** Reading what is written *)

Lemma at_skip pre l p k : p = Z.of_nat (length pre) + k → 0 ≤ k → at_ (pre ++ l) p = at_ l k.
Proof.
  intros -> Hk. unfold at_. destruct (Z.ltb_spec (Z.of_nat (length pre) + k) 0), (Z.ltb_spec k 0); try lia.
  rewrite lookup_app_r by lia. f_equal. lia.
Qed.

Lemma at_start pre l : at_ (pre ++ l) (Z.of_nat (length pre)) = at_ l 0.
Proof. by apply at_skip; lia. Qed.

Lemma at_plus pre l k : 0 ≤ k → at_ (pre ++ l) (Z.of_nat (length pre) + k) = at_ l k.
Proof. by apply at_skip. Qed.

Lemma read16_app pre a b post p : p = Z.of_nat (length pre) → read16 (pre ++ a :: b :: post) p = Some (be16 a b).
Proof.
  intros ->. unfold read16. by rewrite at_start, at_plus by lia.
Qed.

Lemma read_addr_app pre a b c d post p : p = Z.of_nat (length pre) → is_byte a → is_byte b → is_byte c → is_byte d →
  read_addr (pre ++ a :: b :: c :: d :: post) p = Some (Inet.load32 [a; b; c; d]).
Proof.
  intros -> Ha Hb Hc Hd. unfold read_addr.
  rewrite at_start, !at_plus by lia.
  cbn [mbind option_bind]. change (at_ (a :: b :: c :: d :: post) 0) with (Some a).
  change (at_ (a :: b :: c :: d :: post) 1) with (Some b). change (at_ (a :: b :: c :: d :: post) 2) with (Some c).
  change (at_ (a :: b :: c :: d :: post) 3) with (Some d). cbn [mbind option_bind]. f_equal.
  unfold is_byte in *. rewrite !Z.shiftl_mul_pow2 by lia. rewrite u32_id by lia.
  unfold Inet.htonl, Inet.bytes32. cbn [rev app Inet.load32]. zlia.
Qed.

Lemma read_addr_data pre d post p : p = Z.of_nat (length pre) → length d = 4%nat → bytes d →
  read_addr (pre ++ d ++ post) p = Some (Inet.load32 d).
Proof.
  intros Hp Hl Hb. destruct d as [|a [|b [|c [|e []]]]]; try done.
  repeat match goal with H : Forall _ (_ :: _) |- _ => inversion_clear H end. by apply read_addr_app.
Qed.

(** The ten bytes of [ngx_resolver_an_t]. *)
Definition an_bytes (qtype ttl len : Z) : list Z :=
  [qtype / 256; qtype mod 256; 0; 1; ttl / 16777216; ttl / 65536 mod 256; ttl / 256 mod 256; ttl mod 256;
   len / 256; len mod 256].

Lemma be16_split x : be16 (x / 256) (x mod 256) = x.
Proof. unfold be16. rewrite Z.shiftl_mul_pow2 by lia. zlia. Qed.

Lemma read_an_app pre qtype ttl len post p : p = Z.of_nat (length pre) → 0 ≤ ttl < 2 ^ 31 →
  read_an (pre ++ an_bytes qtype ttl len ++ post) p = Some (qtype, ttl, len).
Proof.
  intros -> Ht. unfold read_an, an_bytes, read16. cbn [app].
  rewrite <- !Z.add_assoc, at_start, !at_plus by done.
  set (l := _ :: _).
  rewrite (at_lookup l 0 _ ltac:(done) eq_refl), (at_lookup l 1 _ ltac:(done) eq_refl), (at_lookup l 4 _ ltac:(done) eq_refl),
    (at_lookup l 5 _ ltac:(done) eq_refl), (at_lookup l 6 _ ltac:(done) eq_refl), (at_lookup l 7 _ ltac:(done) eq_refl),
    (at_lookup l 8 _ ltac:(done) eq_refl), (at_lookup l (8 + 1) _ ltac:(done) eq_refl). clear l.
  cbn [mbind option_bind]. rewrite !be16_split. rewrite !Z.shiftl_mul_pow2 by lia.
  change (2 ^ 31) with 2147483648 in Ht.
  replace (ttl / 16777216 * 2 ^ 24 + ttl / 65536 mod 256 * 2 ^ 16 + ttl / 256 mod 256 * 2 ^ 8 + ttl mod 256) with ttl by zlia.
  rewrite s32_id by lia. destruct (Z.ltb_spec ttl 0); [lia|done].
Qed.

(** A name in front of something: labels, and a zero or a pointer. *)
Definition name_bytes (ls : list (list Z)) (end_ : option (Z * Z)) : list Z :=
  encode ls ++ match end_ with None => [0] | Some (x, y) => [x; y] end.

Definition name_end_ok (end_ : option (Z * Z)) : Prop :=
  match end_ with None => True | Some (x, y) => is_byte x ∧ is_byte y ∧ is_pointer x = true end.

Lemma skip_name_bytes end_ last ls : ∀ fuel pre post p, Forall label_ok ls → name_end_ok end_ →
  p = Z.of_nat (length pre) → p + Z.of_nat (length (encode ls)) < last → (length ls < fuel)%nat →
  skip_name fuel (pre ++ name_bytes ls end_ ++ post) last p =
  Some (Some (p + Z.of_nat (length (name_bytes ls end_)), match end_ with None => false | _ => true end)).
Proof.
  induction ls as [|l ls IH]; intros fuel pre post p Hls He -> Hlast Hf; (destruct fuel as [|fuel]; [cbn in Hf; lia|]);
    cbn [skip_name].
  - cbn in Hlast. destruct (Z.ltb_spec (Z.of_nat (length pre)) last); [|lia].
    destruct end_ as [[x y]|]; cbn [name_bytes encode fmap list_fmap concat app].
    + destruct He as (Hx & Hy & Hp). rewrite at_app by done. cbn [mbind option_bind]. by rewrite Hp.
    + by rewrite at_app.
  - inversion_clear Hls as [|?? [Hl Hb] Hls']. unfold name_bytes in *. rewrite encode_cons in *. cbn [length app] in *.
    rewrite length_app in Hlast.
    destruct (Z.ltb_spec (Z.of_nat (length pre)) last); [|lia]. rewrite at_app by done. cbn [mbind option_bind].
    rewrite small_no_pointer by lia. destruct (Z.eqb_spec (Z.of_nat (length l)) 0); [lia|].
    replace (pre ++ _) with ((pre ++ Z.of_nat (length l) :: l) ++
      (encode ls ++ match end_ with None => [0] | Some (x, y) => [x; y] end) ++ post)
      by (rewrite <- !app_assoc; cbn [app]; by rewrite <- ?app_assoc).
    rewrite IH by (done || lia || (rewrite length_app; cbn; lia) || (cbn in Hf; lia)).
    f_equal. f_equal. f_equal. cbn [length]. rewrite !length_app. lia.
Qed.

(** *** Answers *)

(** An answer: its name, the type, the time to live and the data. *)
Record answer := mk_answer {
  owner : list (list Z);
  owner_end : option (Z * Z);
  atype : Z;
  attl : Z;
  rdata : list Z;
}.

Definition owner_bytes (a : answer) : list Z := name_bytes (owner a) (owner_end a).
Definition answer_bytes (a : answer) : list Z :=
  owner_bytes a ++ an_bytes (atype a) (attl a) (Z.of_nat (length (rdata a))) ++ rdata a.
Definition answers_bytes (l : list answer) : list Z := concat (answer_bytes <$> l).

(** The types that the loop knows; four bytes are an address. *)
Definition data_ok (a : answer) : Prop :=
  atype a = NGX_RESOLVE_A ∧ length (rdata a) = 4%nat ∧ bytes (rdata a) ∨
  atype a = NGX_RESOLVE_CNAME ∨ atype a = NGX_RESOLVE_DNAME.

Definition answer_ok (a : answer) : Prop :=
  Forall label_ok (owner a) ∧ name_end_ok (owner_end a) ∧ (owner a = [] → owner_end a ≠ None) ∧
  0 ≤ attl a < 2 ^ 31 ∧ (1 ≤ length (rdata a))%nat ∧ data_ok a.

#[export] Instance label_ok_dec l : Decision (label_ok l).
Proof. unfold label_ok. apply _. Defined.
#[export] Instance name_end_ok_dec e : Decision (name_end_ok e).
Proof. destruct e as [[x y]|]; cbn; apply _. Defined.
#[export] Instance answer_ok_dec a : Decision (answer_ok a).
Proof. unfold answer_ok, data_ok. apply _. Defined.

(** The addresses, as they lie in memory. *)
Definition address (a : answer) : list Z := if atype a =? NGX_RESOLVE_A then [Inet.load32 (rdata a)] else [].
Definition addresses (l : list answer) : list Z := concat (address <$> l).

(** What the loop knows after the answers [l], the first of which is at [i]. *)
Definition found_one (i : Z) (a : answer) (s : found) : found :=
  let s' := s <| qtype := atype a |> <| ttl := attl a |> in
  if atype a =? NGX_RESOLVE_A then s' <| addr := Inet.load32 (rdata a) |> <| naddrs := naddrs s + 1 |>
  else if atype a =? NGX_RESOLVE_CNAME then s' <| cname := Some (i + Z.of_nat (length (owner_bytes a)) + an_size) |>
  else s'.

Fixpoint found_after (i : Z) (l : list answer) (s : found) : found :=
  match l with
  | [] => s
  | a :: l => found_after (i + Z.of_nat (length (answer_bytes a))) l (found_one i a s)
  end.

Lemma answer_length a : Z.of_nat (length (answer_bytes a)) =
  Z.of_nat (length (owner_bytes a)) + an_size + Z.of_nat (length (rdata a)).
Proof. unfold answer_bytes. rewrite !length_app. cbn. lia. Qed.

Lemma owner_length a : Z.of_nat (length (encode (owner a))) < Z.of_nat (length (owner_bytes a)).
Proof. unfold owner_bytes, name_bytes. rewrite length_app. destruct (owner_end a) as [[]|]; cbn; lia. Qed.

Lemma encode_labels ls : (length ls ≤ length (encode ls))%nat.
Proof. induction ls as [|l ls IH]; [done|]. rewrite encode_cons. cbn. rewrite length_app. lia. Qed.

Lemma owner_skip a fuel pre post last p : answer_ok a → p = Z.of_nat (length pre) →
  p + Z.of_nat (length (owner_bytes a)) ≤ last → last < Z.of_nat fuel →
  skip_name fuel (pre ++ owner_bytes a ++ post) last p =
  Some (Some (p + Z.of_nat (length (owner_bytes a)), match owner_end a with None => false | _ => true end)).
Proof.
  intros (Hl & He & _) -> Hlast Hf. pose proof (owner_length a). pose proof (encode_labels (owner a)).
  apply skip_name_bytes; [done|done|done|lia|lia].
Qed.

Lemma owner_min a : answer_ok a → owner_end a = None → 2 ≤ Z.of_nat (length (owner_bytes a)).
Proof.
  intros (Hl & _ & Hne & _) He. unfold owner_bytes, name_bytes. rewrite He, length_app. cbn.
  destruct (owner a) as [|l ls]; [by destruct (Hne eq_refl)|]. inversion_clear Hl as [|?? [? _] _].
  rewrite encode_cons. cbn. rewrite length_app. lia.
Qed.

(** One answer in the first loop. *)
Lemma an_step_answer a pre post i s last : answer_ok a → i = Z.of_nat (length pre) →
  i + Z.of_nat (length (answer_bytes a)) ≤ last →
  an_step (pre ++ answer_bytes a ++ post) last (i + Z.of_nat (length (owner_bytes a))) s =
  Some (Some (i + Z.of_nat (length (answer_bytes a)), found_one i a s)).
Proof.
  intros (_ & _ & _ & Ht & Hr & Hd) -> Hlast. rewrite answer_length in *. unfold an_step.
  destruct (Z.leb_spec last (Z.of_nat (length pre) + Z.of_nat (length (owner_bytes a)) + an_size)); [lia|].
  replace (pre ++ answer_bytes a ++ post) with
    ((pre ++ owner_bytes a) ++ an_bytes (atype a) (attl a) (Z.of_nat (length (rdata a))) ++ rdata a ++ post)
    by (unfold answer_bytes; by rewrite <- !app_assoc).
  rewrite read_an_app by (done || (rewrite length_app; lia)). cbn [mbind option_bind]. unfold found_one.
  destruct Hd as [(Ha & H4 & Hb)|[Ha|Ha]]; rewrite Ha; cbn [Z.eqb Pos.eqb].
  - destruct (Z.ltb_spec last (Z.of_nat (length pre) + Z.of_nat (length (owner_bytes a)) + an_size + Z.of_nat (length (rdata a)))); [lia|].
    rewrite app_assoc. rewrite read_addr_data by (done || (rewrite !length_app; cbn; lia)).
    cbn [mbind option_bind]. f_equal. f_equal. f_equal. lia.
  - f_equal. f_equal. f_equal. lia.
  - f_equal. f_equal. f_equal. lia.
Qed.

Lemma answers_loop_all l : ∀ pre post i s last, Forall answer_ok l → i = Z.of_nat (length pre) →
  i + Z.of_nat (length (answers_bytes l)) ≤ last →
  answers_loop (pre ++ answers_bytes l ++ post) last (length l) i s = Some (Answers (found_after i l s)).
Proof.
  induction l as [|a l IH]; intros pre post i s last Hl -> Hlast; [done|].
  inversion_clear Hl as [|?? Ha Hl']. cbn [length answers_loop].
  change (answers_bytes (a :: l)) with (answer_bytes a ++ answers_bytes l) in *. rewrite length_app in Hlast.
  pose proof (answer_length a). rewrite <- app_assoc. set (rest := answers_bytes l ++ post) in *.
  assert (E : pre ++ answer_bytes a ++ rest = pre ++ owner_bytes a ++
    (an_bytes (atype a) (attl a) (Z.of_nat (length (rdata a))) ++ rdata a) ++ rest)
    by (unfold answer_bytes; by rewrite <- !app_assoc).
  rewrite E at 1. rewrite owner_skip by (done || lia). cbn [mbind option_bind]. clear E.
  replace (negb _ && _) with false.
  - rewrite an_step_answer by (done || lia). cbn [mbind option_bind found_after]. unfold rest.
    rewrite (app_assoc pre). apply IH; [done|rewrite length_app; lia|lia].
  - pose proof (owner_min a Ha). destruct (owner_end a) as [|]; [done|]. cbn [negb andb].
    destruct (Z.ltb_spec (Z.of_nat (length pre) + Z.of_nat (length (owner_bytes a)) - Z.of_nat (length pre)) 2); [|done].
    specialize (H0 eq_refl). lia.
Qed.

(** The second loop stores exactly the addresses that the first has counted. *)
Lemma addrs_loop_all l : ∀ pre post i n total, Forall answer_ok l → i = Z.of_nat (length pre) →
  n + Z.of_nat (length (addresses l)) = total →
  addrs_loop (pre ++ answers_bytes l ++ post) (length l) total i n = Some (addresses l).
Proof.
  induction l as [|a l IH]; intros pre post i n total Hl -> Ht; [done|].
  inversion_clear Hl as [|?? Ha Hl']. cbn [length addrs_loop].
  change (answers_bytes (a :: l)) with (answer_bytes a ++ answers_bytes l).
  pose proof (answer_length a). rewrite <- app_assoc. set (rest := answers_bytes l ++ post) in *.
  set (buf := pre ++ answer_bytes a ++ rest).
  assert (Hlen : Z.of_nat (length pre) + Z.of_nat (length (answer_bytes a)) ≤ Z.of_nat (length buf))
    by (unfold buf; rewrite !length_app; lia).
  assert (Hskip : skip_name (S (length buf)) buf (Z.of_nat (length buf)) (Z.of_nat (length pre)) =
    Some (Some (Z.of_nat (length pre) + Z.of_nat (length (owner_bytes a)), match owner_end a with None => false | _ => true end))).
  { unfold buf at 2, answer_bytes. rewrite <- app_assoc. apply owner_skip; [done|done|lia|lia]. }
  rewrite Hskip. cbn [mbind option_bind]. clear Hskip.
  destruct Ha as (_ & _ & _ & Httl & Hr & Hd).
  assert (E : buf = (pre ++ owner_bytes a) ++ an_bytes (atype a) (attl a) (Z.of_nat (length (rdata a))) ++ rdata a ++ rest)
    by (unfold buf, answer_bytes; by rewrite <- !app_assoc).
  assert (Han : read_an buf (Z.of_nat (length pre) + Z.of_nat (length (owner_bytes a))) =
    Some (atype a, attl a, Z.of_nat (length (rdata a))))
    by (rewrite E, read_an_app by (done || (rewrite length_app; lia)); done).
  rewrite Han. cbn [mbind option_bind]. clear Han.
  change (addresses (a :: l)) with (address a ++ addresses l) in *. unfold address in *. rewrite length_app in Ht.
  assert (Hnext : Z.of_nat (length pre) + Z.of_nat (length (owner_bytes a)) + an_size + Z.of_nat (length (rdata a)) =
    Z.of_nat (length (pre ++ answer_bytes a))) by (rewrite length_app; lia).
  rewrite Hnext. replace buf with ((pre ++ answer_bytes a) ++ rest) in * by (unfold buf; by rewrite <- app_assoc).
  destruct Hd as [(Htype & H4 & Hb)|Htype].
  - rewrite Htype in *. cbn [Z.eqb Pos.eqb length app] in *.
    assert (Hra : read_addr ((pre ++ answer_bytes a) ++ rest) (Z.of_nat (length pre) + Z.of_nat (length (owner_bytes a)) + an_size) =
      Some (Inet.load32 (rdata a)))
      by (rewrite E, app_assoc, read_addr_data by (done || (rewrite !length_app; cbn; lia)); done).
    rewrite Hra. cbn [mbind option_bind]. clear Hra E.
    destruct (Z.eqb_spec (n + 1) total) as [En|En].
    + destruct (addresses l); [done|cbn in Ht; lia].
    + unfold rest. rewrite (IH _ _ _ _ total) by (done || lia). done.
  - destruct Htype as [Htype|Htype]; rewrite Htype in *; cbn [Z.eqb Pos.eqb length app] in *; (apply IH; [done|done|lia]).
Qed.

(** *** What the loop has found *)

Definition last_ttl (l : list answer) : Z := fold_left (λ _ a, attl a) l 0.

Lemma found_naddrs l : ∀ i s, naddrs (found_after i l s) = naddrs s + Z.of_nat (length (addresses l)).
Proof.
  induction l as [|a l IH]; intros i s; cbn [found_after]; [cbn; lia|]. rewrite IH.
  change (addresses (a :: l)) with (address a ++ addresses l). rewrite length_app. unfold found_one, address.
  destruct (atype a =? 1); [cbn; lia|]. by destruct (atype a =? 5).
Qed.

Lemma found_addr_none l : ∀ i s, addresses l = [] → addr (found_after i l s) = addr s.
Proof.
  induction l as [|a l IH]; intros i s; cbn [found_after]; [done|].
  change (addresses (a :: l)) with (address a ++ addresses l). intros [Ha Hl]%app_nil. rewrite IH by done.
  unfold found_one, address in *. destruct (atype a =? 1); [done|]. by destruct (atype a =? 5).
Qed.

Lemma found_addr l x : ∀ i s, addresses l = [x] → addr (found_after i l s) = x.
Proof.
  induction l as [|a l IH]; intros i s; cbn [found_after]; [done|].
  change (addresses (a :: l)) with (address a ++ addresses l). unfold address.
  destruct (atype a =? 1) eqn:E; [|apply IH]. intros [= <- Hl]. rewrite found_addr_none by done.
  unfold found_one. by rewrite E.
Qed.

Lemma found_ttl l : ∀ i s, ttl (found_after i l s) = fold_left (λ _ a, attl a) l (ttl s).
Proof.
  induction l as [|a l IH]; intros i s; cbn [found_after fold_left]; [done|]. rewrite IH. f_equal.
  unfold found_one. destruct (atype a =? 1); [done|]. by destruct (atype a =? 5).
Qed.

Lemma found_cname_none l : ∀ i s, Forall (λ b, atype b ≠ NGX_RESOLVE_CNAME) l → cname (found_after i l s) = cname s.
Proof.
  induction l as [|a l IH]; intros i s; cbn [found_after]; [done|]. intros Hl. inversion_clear Hl as [|?? Ha Hl'].
  rewrite IH by done. unfold found_one. destruct (atype a =? 1); [done|].
  destruct (Z.eqb_spec (atype a) 5); [congruence|done].
Qed.

Lemma found_cname l1 a l2 : ∀ i s, atype a = NGX_RESOLVE_CNAME → Forall (λ b, atype b ≠ NGX_RESOLVE_CNAME) l2 →
  cname (found_after i (l1 ++ a :: l2) s) =
  Some (i + Z.of_nat (length (answers_bytes l1)) + Z.of_nat (length (owner_bytes a)) + an_size).
Proof.
  induction l1 as [|b l1 IH]; intros i s Ha Hl2; cbn [app found_after].
  - rewrite found_cname_none by done. unfold found_one. rewrite Ha. cbn. f_equal. lia.
  - rewrite IH by done. change (answers_bytes (b :: l1)) with (answer_bytes b ++ answers_bytes l1).
    rewrite length_app. f_equal. lia.
Qed.

(** What the answers say: the addresses, or the name to look up instead. *)
Inductive says (l : list answer) : reply → Prop :=
  | says_addresses : addresses l ≠ [] → says l (Addresses (Some <$> addresses l) (last_ttl l))
  | says_alias l1 a l2 t :
      addresses l = [] → l = l1 ++ a :: l2 →
      atype a = NGX_RESOLVE_CNAME → Forall (λ b, atype b ≠ NGX_RESOLVE_CNAME) l2 →
      rdata a = encode t ++ [0] → Forall label_ok t → t ≠ [] → (length t < 128)%nat →
      says l (Alias (dotted t) (last_ttl l)).

Lemma answers_app l1 l2 : answers_bytes (l1 ++ l2) = answers_bytes l1 ++ answers_bytes l2.
Proof. unfold answers_bytes. by rewrite fmap_app, concat_app. Qed.

Lemma process_answers_all alloc pre post l r last : (∀ n, alloc n = true) →
  let buf := pre ++ answers_bytes l ++ post in
  bytes buf → Forall answer_ok l → says l r →
  Z.of_nat (length pre) + Z.of_nat (length (answers_bytes l)) ≤ last ≤ Z.of_nat (length buf) →
  process_answers alloc buf last (Z.of_nat (length l)) (Z.of_nat (length pre)) = Some r.
Proof.
  intros Halloc buf Hb Hl Hr Hlast. unfold process_answers. rewrite Nat2Z.id.
  unfold buf. rewrite answers_loop_all by (done || lia). fold buf. cbn [mbind option_bind].
  rewrite found_naddrs, found_ttl. cbn [naddrs ttl]. fold (last_ttl l). rewrite Z.add_0_l.
  destruct Hr as [Hne|l1 a l2 t Hnone -> Ha Hl2 Hd Ht Htne Htl].
  - destruct (Z.eqb_spec (Z.of_nat (length (addresses l))) 0) as [E|_]; [by destruct (addresses l)|]. cbn [negb].
    destruct (Z.eqb_spec (Z.of_nat (length (addresses l))) 1) as [E|E].
    + destruct (addresses l) as [|x [|]] eqn:Ex; [done| |cbn in E; lia]. by rewrite (found_addr l x).
    + rewrite Halloc. cbn [negb]. unfold buf. rewrite addrs_loop_all by (done || lia). cbn [mbind option_bind].
      by rewrite resize_all_alt by (rewrite length_fmap; lia).
  - rewrite Hnone. cbn [length Z.of_nat Z.eqb negb]. rewrite found_cname by done.
    assert (E : buf = (pre ++ answers_bytes l1 ++ owner_bytes a ++ an_bytes (atype a) (attl a) (Z.of_nat (length (rdata a)))) ++
      encode t ++ 0 :: (answers_bytes l2 ++ post)).
    { unfold buf. rewrite answers_app. change (answers_bytes (a :: l2)) with (answer_bytes a ++ answers_bytes l2).
      unfold answer_bytes. rewrite Hd. by rewrite <- !app_assoc. }
    assert (Hin : Z.of_nat (length (answers_bytes l1)) + Z.of_nat (length (owner_bytes a)) + an_size +
      Z.of_nat (length (encode t)) < Z.of_nat (length (answers_bytes (l1 ++ a :: l2)))).
    { rewrite answers_app, length_app. change (answers_bytes (a :: l2)) with (answer_bytes a ++ answers_bytes l2).
      rewrite length_app. pose proof (answer_length a) as Hal. rewrite Hd, length_app in Hal. cbn [length] in Hal. lia. }
    rewrite E in Hb, Hlast |- *. rewrite copy_encoded; [done|done|done|done|done| | |lia|done].
    + rewrite !length_app. cbn. lia.
    + lia.
Qed.

(** *** A whole response *)

Lemma question_encoded ls n : ∀ fuel pre post p, p = Z.of_nat (length pre) → Forall label_ok ls →
  p + Z.of_nat (length (encode ls)) < n → (length ls < fuel)%nat →
  question_loop fuel (pre ++ encode ls ++ 0 :: post) n p = Some (Some (p + Z.of_nat (length (encode ls)))).
Proof.
  induction ls as [|l ls IH]; intros fuel pre post p -> Hls Hn Hf; (destruct fuel as [|fuel]; [cbn in Hf; lia|]);
    cbn [question_loop].
  - cbn in Hn. destruct (Z.ltb_spec (Z.of_nat (length pre)) n); [|lia]. cbn [encode fmap list_fmap concat app].
    rewrite at_app by done. cbn. by rewrite Z.add_0_r.
  - inversion_clear Hls as [|?? [Hl Hb] Hls']. rewrite encode_cons in *. cbn [length app] in *.
    rewrite length_app in Hn. destruct (Z.ltb_spec (Z.of_nat (length pre)) n); [|lia].
    rewrite at_app by done. cbn [mbind option_bind].
    destruct (Z.eqb_spec (Z.of_nat (length l)) 0); [lia|].
    replace (pre ++ _) with ((pre ++ Z.of_nat (length l) :: l) ++ encode ls ++ 0 :: post)
      by (rewrite <- !app_assoc; cbn [app]; by rewrite <- ?app_assoc).
    rewrite IH by (done || lia || (rewrite length_app; cbn; lia) || (cbn in Hf; lia)).
    f_equal. f_equal. cbn [length]. rewrite length_app. lia.
Qed.

(** The header of a response, and a response to the question for the addresses
    of a name. *)
Definition response_header (ident flags nan : Z) : list Z :=
  [ident / 256; ident mod 256; flags / 256; flags mod 256; 0; 1; nan / 256; nan mod 256; 0; 0; 0; 0].
Definition response (ident flags : Z) (ls : list (list Z)) (l : list answer) : list Z :=
  response_header ident flags (Z.of_nat (length l)) ++ encode ls ++ 0 :: [0; 1; 0; 1] ++ answers_bytes l.

Lemma answers_min l : Forall answer_ok l → 12 * Z.of_nat (length l) ≤ Z.of_nat (length (answers_bytes l)).
Proof.
  induction 1 as [|a l Ha _ IH]; [cbn; lia|]. change (answers_bytes (a :: l)) with (answer_bytes a ++ answers_bytes l).
  rewrite length_app. pose proof (answer_length a) as E. cbn [length]. pose proof (owner_min a Ha) as Hm.
  assert (2 ≤ Z.of_nat (length (owner_bytes a))); [|lia].
  destruct (owner_end a) as [[x y]|] eqn:Ee; [|by apply Hm]. unfold owner_bytes, name_bytes. rewrite Ee, length_app. cbn. lia.
Qed.

Lemma u8_land x : u8 (Z.land x 0xff) = x mod 256.
Proof. change 0xff with (Z.ones 8). rewrite Z.land_ones by lia. change (2 ^ 8) with 256. apply u8_id. zlia. Qed.

(** What the parser of responses makes of a question of the type [t]. *)
Lemma process_question queue sentinel ident flags nan ls t body n :
  let buf := response_header ident flags nan ++ encode ls ++ 0 :: [0; t; 0; 1] ++ body in
  0 ≤ flags → Z.land flags 0x8000 ≠ 0 → Z.land flags 0x7f = 0 → 0 ≤ nan → Forall label_ok ls →
  17 + Z.of_nat (length (encode ls)) + 12 * nan ≤ n →
  ngx_resolver_process_response queue sentinel buf n =
  Some (if t =? NGX_RESOLVE_A then ProcessA ident 0 nan (17 + Z.of_nat (length (encode ls)))
        else if t =? NGX_RESOLVE_PTR then ProcessPtr ident 0 nan else UnknownType t).
Proof.
  intros buf Hf Hqr Hcode Hnan Hls Hn. unfold ngx_resolver_process_response.
  set (header := response_header ident flags nan) in *. assert (Hh : length header = 12%nat) by done.
  destruct (Z.ltb_spec n query_size); [lia|].
  assert (Hr : ∀ p x y, header !! Z.to_nat p = Some x → header !! Z.to_nat (p + 1) = Some y → 0 ≤ p →
    read16 buf p = Some (be16 x y)).
  { intros p x y Hx Hy Hp. unfold read16, buf.
    rewrite (at_lookup _ p x), (at_lookup _ (p + 1) y); [done|lia|by apply lookup_app_l_Some|lia|by apply lookup_app_l_Some]. }
  rewrite (Hr 0 (ident / 256) (ident mod 256)), (Hr 2 (flags / 256) (flags mod 256)), (Hr 4 0 1),
    (Hr 6 (nan / 256) (nan mod 256)) by done.
  clear Hr. cbn [mbind option_bind]. rewrite !be16_split.
  destruct (Z.eqb_spec (Z.land flags 0x8000) 0); [done|]. rewrite Hcode.
  cbn [Z.eqb Pos.eqb Z.ltb Z.compare]. change (negb (be16 0 1 =? 1)) with false. cbn iota.
  match goal with |- context [question_loop ?f buf n query_size] =>
    assert (Eq : question_loop f buf n query_size = Some (Some (12 + Z.of_nat (length (encode ls))))) end.
  { unfold buf. rewrite question_encoded by (done || lia || (pose proof (encode_labels ls); lia)). done. }
  rewrite Eq. clear Eq.
  cbn [mbind option_bind]. change (Z.of_nat (length header)) with 12.
  destruct (Z.eqb_spec (12 + Z.of_nat (length (encode ls))) 0); [lia|].
  destruct (Z.ltb_spec n (12 + Z.of_nat (length (encode ls)) + 1 + qs_size + nan * (2 + an_size))); [lia|].
  assert (E1 : buf = (header ++ encode ls ++ [0]) ++ 0 :: t :: [0; 1] ++ body)
    by (unfold buf; rewrite <- !app_assoc; cbn [app]; by rewrite <- ?app_assoc).
  assert (E2 : buf = (header ++ encode ls ++ [0; 0; t]) ++ 0 :: 1 :: body)
    by (unfold buf; rewrite <- !app_assoc; cbn [app]; by rewrite <- ?app_assoc).
  rewrite E1 at 1. rewrite (read16_app _ _ _ _ (12 + Z.of_nat (length (encode ls)) + 1))
    by (rewrite !length_app, Hh; cbn [length]; lia). cbn [mbind option_bind].
  rewrite E2. rewrite (read16_app _ _ _ _ (12 + Z.of_nat (length (encode ls)) + 1 + 2))
    by (rewrite !length_app, Hh; cbn [length]; lia). cbn [mbind option_bind].
  change (be16 0 1) with 1. change (be16 0 t) with t. cbn [Z.eqb Pos.eqb negb].
  destruct (t =? NGX_RESOLVE_A); [do 2 f_equal; lia|by destruct (t =? NGX_RESOLVE_PTR)].
Qed.

Lemma process_response_ok queue sentinel ident flags ls l post n :
  let buf := response ident flags ls l ++ post in
  0 ≤ flags → Z.land flags 0x8000 ≠ 0 → Z.land flags 0x7f = 0 →
  Forall label_ok ls → Forall answer_ok l →
  Z.of_nat (length (response ident flags ls l)) ≤ n →
  ngx_resolver_process_response queue sentinel buf n =
  Some (ProcessA ident 0 (Z.of_nat (length l)) (17 + Z.of_nat (length (encode ls)))).
Proof.
  intros buf Hf Hqr Hcode Hls Hl Hn. pose proof (answers_min l Hl) as Hmin. unfold buf, response in *.
  rewrite !length_app in Hn. cbn [length] in Hn. rewrite length_app in Hn. cbn [length] in Hn.
  replace ((_ ++ encode ls ++ _) ++ post) with (response_header ident flags (Z.of_nat (length l)) ++ encode ls ++
    0 :: [0; 1; 0; 1] ++ answers_bytes l ++ post) by (rewrite <- !app_assoc; cbn [app]; by rewrite <- ?app_assoc).
  change (length (response_header _ _ _)) with 12%nat in Hn. rewrite process_question by (done || lia). done.
Qed.

(** The first two bytes of a query are its identifier. *)
Lemma query_ident ident rest : 0 ≤ ident < 65536 → read16 (query_header ident ++ rest) 0 = Some ident.
Proof.
  intros Hi. unfold query_header. rewrite !u8_land. unfold read16. cbn [app]. set (q := _ :: _).
  rewrite (at_lookup q 0 _ ltac:(done) eq_refl), (at_lookup q (0 + 1) _ ltac:(done) eq_refl). clear q. cbn [mbind option_bind].
  f_equal. rewrite <- (be16_split ident) at 3. f_equal. rewrite Z.shiftr_div_pow2 by lia. change (2 ^ 8) with 256. zlia.
Qed.

(** The query for the addresses of a name is made of labels of 1 to 63
    bytes without dots, and a response to it is understood: whatever old bytes
    follow the datagram in the array, the response with the identifier and the
    question of the query and with answers that are addresses or aliases,
    their names written with labels or with a pointer, is taken apart into the
    addresses of all its answers in their order, or without any into the name
    that the last alias stands for, with the time to live of the last
    answer. *)
Theorem resolver_answered alloc crc32_short lookup queue sentinel ident flags ls l r post n :
  (∀ size, alloc size = true) → 0 ≤ ident < 65536 →
  0 ≤ flags → Z.land flags 0x8000 ≠ 0 → Z.land flags 0x7f = 0 →
  Forall label_ok ls → Forall no_dot ls → ls ≠ [] → (length ls < 128)%nat →
  Forall answer_ok l → says l r →
  let created := ngx_resolver_create_name_query alloc ident NGX_RESOLVE_A (dotted ls) in
  let message := response ident flags ls l in
  let buf := message ++ post in
  bytes buf → Z.of_nat (length message) ≤ n ≤ Z.of_nat (length buf) →
  rc created = NGX_OK ∧ ∃ q, query created = Some q ∧
    q = query_header ident ++ encode ls ++ [0; 0; 1; 0; 1] ∧
    ngx_resolver_process_response queue sentinel buf n =
      Some (ProcessA ident 0 (Z.of_nat (length l)) (17 + Z.of_nat (length (encode ls)))) ∧
    (lookup (dotted ls) (crc32_short (dotted ls)) = Some q →
     ngx_resolver_process_a alloc crc32_short lookup buf n ident 0 (Z.of_nat (length l))
       (17 + Z.of_nat (length (encode ls))) = Some r).
Proof.
  intros Halloc Hid Hf Hqr Hcode Hls Hdot Hne Hk Hl Hr created message buf Hb Hn.
  assert (Hacc : forallb accepted ls = true).
  { apply forallb_forall. intros x Hx. rewrite list.Forall_forall in Hls. destruct (Hls x) as [Hlx _]; [by apply list_elem_of_In|].
    unfold accepted. apply andb_true_iff. rewrite !Nat.leb_le. lia. }
  assert (Hd : dotted ls ≠ []).
  { destruct ls as [|x [|]]; [done| |by destruct x]. inversion_clear Hls as [|?? [Hx _] _]. by destruct x; cbn in Hx; [lia|]. }
  unfold created. rewrite create_name_query, Hacc by (done || apply Halloc). split; [done|].
  eexists. split; [done|]. split; [by rewrite <- app_assoc|]. split; [apply process_response_ok; try done; apply Hn|].
  intros Hlook. unfold ngx_resolver_process_a.
  set (header := response_header ident flags (Z.of_nat (length l))).
  assert (Eb : buf = header ++ encode ls ++ 0 :: ([0; 1; 0; 1] ++ answers_bytes l) ++ post).
  { unfold buf, message, response. fold header. by rewrite <- !app_assoc. }
  assert (Hlen : Z.of_nat (length message) =
    17 + Z.of_nat (length (encode ls)) + Z.of_nat (length (answers_bytes l))).
  { unfold message, response. rewrite !length_app. cbn [length]. rewrite length_app. cbn. lia. }
  rewrite Eb in Hb, Hn |- *. rewrite copy_encoded by (done || lia || apply Halloc). cbn [mbind option_bind].
  rewrite Hlook. cbn [mbind option_bind]. rewrite query_ident by done. cbn [mbind option_bind].
  rewrite Z.eqb_refl. cbn [negb].
  assert (l ≠ []) as Hlne by (destruct Hr as [Ha|l1 a l2 t _ ->]; [by intros ->|by destruct l1]).
  destruct (Z.eqb_spec (Z.of_nat (length l)) 0) as [E|_]; [by destruct l|].
  cbn [Z.eqb andb negb].
  replace (header ++ _) with ((header ++ encode ls ++ [0; 0; 1; 0; 1]) ++ answers_bytes l ++ post) in *
    by (rewrite <- !app_assoc; cbn [app]; by rewrite <- ?app_assoc).
  replace (17 + Z.of_nat (length (encode ls))) with (Z.of_nat (length (header ++ encode ls ++ [0; 0; 1; 0; 1])))
    by (rewrite !length_app; cbn; lia).
  apply process_answers_all; [done|done|done|done|].
  assert (Hp : Z.of_nat (length (header ++ encode ls ++ [0; 0; 1; 0; 1])) = 17 + Z.of_nat (length (encode ls)))
    by (rewrite !length_app; cbn; lia).
  rewrite Hp. split; [lia|apply Hn].
Qed.

Lemma resolver_answered_witness :
  let ls := [bs "www"; bs "de"] in
  let l := [mk_answer [] (Some (0xc0, 12)) NGX_RESOLVE_CNAME 60 (encode [bs "a"; bs "de"] ++ [0]);
            mk_answer [bs "a"; bs "de"] None NGX_RESOLVE_A 30 [10; 0; 0; 1];
            mk_answer [] (Some (0xc0, 42)) NGX_RESOLVE_A 20 [10; 0; 0; 2]] in
  let query := query_header 258 ++ encode ls ++ [0; 0; 1; 0; 1] in
  ngx_resolver_process_a (λ _, true) (λ _, 7) (λ _ _, Some query) (response 258 0x8180 ls l ++ [1; 2; 3]) 78 258 0 3 24 =
  Some (Addresses [Some (Inet.load32 [10; 0; 0; 1]); Some (Inet.load32 [10; 0; 0; 2])] 20).
Proof.
  intros ls l query.
  destruct (resolver_answered (λ _, true) (λ _, 7) (λ _ _, Some query) [] 0 258 0x8180 ls l
    (Addresses (Some <$> addresses l) (last_ttl l)) [1; 2; 3] 78) as (_ & q & _ & -> & _ & H).
  - done.
  - lia.
  - lia.
  - done.
  - done.
  - apply (bool_decide_unpack _). vm_compute. exact I.
  - apply (bool_decide_unpack _). vm_compute. exact I.
  - done.
  - cbn. lia.
  - apply (bool_decide_unpack _). vm_compute. exact I.
  - by apply says_addresses.
  - apply (bool_decide_unpack _). vm_compute. exact I.
  - vm_compute. split; discriminate.
  - exact (H eq_refl).
Defined.

(** *** Names for addresses *)

(** The labels of [4.3.2.1.in-addr.arpa]. *)
Definition octets (addr : Z) : list Z := (λ n, Z.land (Z.shiftr addr n) 0xff) <$> [0; 8; 16; 24].
Definition ptr_labels (addr : Z) : list (list Z) := (InetProof.dec_text <$> octets addr) ++ [bs "in-addr"; bs "arpa"].

Lemma octet_byte addr n : is_byte (Z.land (Z.shiftr addr n) 0xff).
Proof. change 0xff with (Z.ones 8). rewrite Z.land_ones by lia. unfold is_byte. change (2 ^ 8) with 256. zlia. Qed.

Lemma sprintf_ud p x : 0 ≤ p < 2 ^ 63 → is_byte x → Printf.ngx_sprintf p (bs "%ud") [Printf.AInt x] = Some (InetProof.dec_text x).
Proof.
  intros Hp Hx. unfold Printf.ngx_sprintf, Printf.ngx_vslprintf. cbn [bs length].
  rewrite InetProof.loop_ud by (unfold is_byte in Hx; lia). cbn [Printf.vslprintf_loop option_map]. by rewrite app_nil_r.
Qed.

Lemma addr_loop_ok addr ns : ∀ p, 0 ≤ p → p + 4 * Z.of_nat (length ns) < 2 ^ 63 →
  addr_loop addr ns p = Some (encode (InetProof.dec_text <$> ((λ n, Z.land (Z.shiftr addr n) 0xff) <$> ns))).
Proof.
  induction ns as [|n ns IH]; intros p Hp Hlen; [done|]. cbn [addr_loop length fmap list_fmap] in *.
  pose proof (octet_byte addr n) as Hx. rewrite sprintf_ud by (done || lia). cbn [mbind option_bind].
  destruct (InetProof.dec_text_digits _ Hx) as (_ & _ & Hl).
  rewrite u8_id by lia. cbn [length]. rewrite IH by lia. done.
Qed.

(** The query for the name of an address. *)
Lemma create_addr_query alloc ident addr p : (∀ size, alloc size = true) → 0 ≤ p < 2 ^ 62 →
  ∃ n, ngx_resolver_create_addr_query alloc ident addr p =
    Some (mk_created NGX_OK (Some (query_header ident ++ encode (ptr_labels addr) ++ [0; 0; 12; 0; 1])) n) ∧
    n = Z.of_nat (length (query_header ident ++ encode (ptr_labels addr) ++ [0; 0; 12; 0; 1])).
Proof.
  intros Ha Hp. unfold ngx_resolver_create_addr_query. rewrite Ha. cbn [negb].
  rewrite addr_loop_ok by (cbn [length]; lia). cbn [mbind option_bind]. fold (octets addr).
  eexists. split.
  - do 3 f_equal. unfold ptr_labels, encode at 2. rewrite fmap_app, concat_app. by rewrite <- !app_assoc.
  - assert (Hl : (length (encode (InetProof.dec_text <$> octets addr)) ≤ 16)%nat).
    { unfold octets. cbn [fmap list_fmap]. rewrite !encode_cons. cbn [length].
      repeat (rewrite length_app; cbn [length]).
      pose proof (InetProof.dec_text_digits _ (octet_byte addr 0)). pose proof (InetProof.dec_text_digits _ (octet_byte addr 8)).
      pose proof (InetProof.dec_text_digits _ (octet_byte addr 16)). pose proof (InetProof.dec_text_digits _ (octet_byte addr 24)).
      change (encode []) with (@nil Z). cbn [length]. lia. }
    unfold ptr_labels, encode at 2. rewrite fmap_app, concat_app, !length_app. fold (encode (InetProof.dec_text <$> octets addr)).
    rewrite u16_id by lia. cbn. lia.
Qed.

Lemma ptr_labels_ok addr : Forall label_ok (ptr_labels addr).
Proof.
  unfold ptr_labels. apply Forall_app_2; [|apply (bool_decide_unpack _); vm_compute; exact I].
  apply list.Forall_fmap. apply list.Forall_forall. intros x Hx. unfold octets in Hx.
  apply list_elem_of_fmap in Hx as (n & -> & _). destruct (InetProof.dec_text_digits _ (octet_byte addr n)) as (Hd & _ & Hl).
  split; [lia|]. eapply list.Forall_impl; [exact Hd|]. intros c Hc%is_digit_range. unfold is_byte. lia.
Qed.

Lemma atoi_label pre ds rest i len : i = Z.of_nat (length pre) → len = Z.of_nat (length ds) →
  Forall is_digit ds → ds ≠ [] → dec ds ≤ MAX_INT64 → atoi_at (pre ++ ds ++ rest) i len = Some (dec ds).
Proof.
  intros Hi Hlen Hd Hne Hm. unfold atoi_at. rewrite slice_app by done. rewrite Hlen, Z.ltb_irrefl. cbn [andb].
  by rewrite Number.atoi_value.
Qed.

Lemma ptr_loop_ok xs : ∀ masks pre rest addr i, Forall is_byte xs → length masks = length xs →
  i = Z.of_nat (length pre) →
  ptr_loop (pre ++ encode (InetProof.dec_text <$> xs) ++ rest) masks addr i =
  Some (Some (fold_left (λ a mx, u32 (a + Z.shiftl mx.2 mx.1)) (zip masks xs) addr,
              i + Z.of_nat (length (encode (InetProof.dec_text <$> xs))))).
Proof.
  induction xs as [|x xs IH]; intros [|mask masks] pre rest addr i Hxs Hlen ->; try done.
  { cbn. by rewrite Z.add_0_r. }
  inversion_clear Hxs as [|?? Hx Hxs']. cbn [fmap list_fmap ptr_loop]. rewrite encode_cons. cbn [app].
  destruct (InetProof.dec_text_digits x Hx) as (Hd & Hv & Hl).
  rewrite at_app by done. cbn [mbind option_bind].
  replace (pre ++ _) with ((pre ++ [Z.of_nat (length (InetProof.dec_text x))]) ++ InetProof.dec_text x ++
    encode (InetProof.dec_text <$> xs) ++ rest) by (rewrite <- !app_assoc; cbn [app]; by rewrite <- ?app_assoc).
  assert (InetProof.dec_text x ≠ []) by by destruct (InetProof.dec_text x); cbn in Hl; [lia|].
  rewrite atoi_label; [|rewrite length_app; cbn; lia|done|done|done|rewrite Hv; unfold is_byte in Hx; lia].
  cbn [mbind option_bind]. rewrite Hv. unfold is_byte in Hx.
  replace ((x =? NGX_ERROR) || (255 <? x)) with false by lia.
  replace ((pre ++ [Z.of_nat (length (InetProof.dec_text x))]) ++ _) with
    ((pre ++ [Z.of_nat (length (InetProof.dec_text x))] ++ InetProof.dec_text x) ++ encode (InetProof.dec_text <$> xs) ++ rest)
    by (rewrite <- !app_assoc; cbn [app]; by rewrite <- ?app_assoc).
  rewrite IH by (done || (cbn in Hlen; lia) || (rewrite !length_app; cbn; lia)).
  cbn [zip zip_with fold_left]. cbn [length]. rewrite length_app. do 3 f_equal. lia.
Qed.

Lemma octets_addr addr : 0 ≤ addr < 2 ^ 32 →
  fold_left (λ a mx, u32 (a + Z.shiftl mx.2 mx.1)) (zip [0; 8; 16; 24] (octets addr)) 0 = addr.
Proof.
  intros Ha. unfold octets. cbn [fmap list_fmap zip zip_with fold_left fst snd]. change 0xff with (Z.ones 8).
  rewrite !Z.land_ones, !Z.shiftr_div_pow2, !Z.shiftl_mul_pow2 by lia.
  change (2 ^ 32) with 4294967296 in Ha. change (2 ^ 0) with 1. change (2 ^ 8) with 256. change (2 ^ 16) with 65536.
  change (2 ^ 24) with 16777216. rewrite (u32_id (0 + _)) by zlia. rewrite (u32_id (_ + _ * 256)) by zlia.
  rewrite (u32_id (_ + _ * 65536)) by zlia. rewrite u32_id by zlia. zlia.
Qed.

Lemma strcmp_at_ok s : ∀ pre rest i, i = Z.of_nat (length pre) →
  strcmp_at (pre ++ s ++ 0 :: rest) i s = Some true.
Proof.
  induction s as [|c s IH]; intros pre rest i ->; cbn [strcmp_at app]; rewrite at_app by done; cbn [mbind option_bind]; [done|].
  rewrite Z.eqb_refl. replace (pre ++ c :: s ++ 0 :: rest) with ((pre ++ [c]) ++ s ++ 0 :: rest) by by rewrite <- app_assoc.
  apply IH. rewrite length_app. cbn. lia.
Qed.

(** A response with the name of an address. *)
Definition ptr_response (ident flags nan addr atype ttl : Z) (t : list (list Z)) : list Z :=
  response_header ident flags nan ++ encode (ptr_labels addr) ++ 0 :: [0; 12; 0; 1] ++
  0xc0 :: 0x0c :: an_bytes atype ttl (Z.of_nat (length (encode t)) + 1) ++ encode t ++ [0].

Lemma ptr_answer_ok alloc pre atype ttl t more n i :
  let buf := pre ++ 0xc0 :: 0x0c :: an_bytes atype ttl (Z.of_nat (length (encode t)) + 1) ++ encode t ++ 0 :: more in
  (∀ size, alloc size = true) → bytes buf → 0 ≤ ttl < 2 ^ 31 → Forall label_ok t → t ≠ [] → (length t < 128)%nat →
  i + (14 + qs_size) = Z.of_nat (length pre) →
  Z.of_nat (length pre) + (2 + an_size) + Z.of_nat (length (encode t)) + 1 ≤ n ≤ Z.of_nat (length buf) →
  ptr_answer alloc buf n i = Some (Alias (dotted t) ttl).
Proof.
  intros buf Halloc Hb Httl Ht Htne Htl Hi Hn. unfold ptr_answer. rewrite Hi.
  set (an := an_bytes atype ttl (Z.of_nat (length (encode t)) + 1)) in *. assert (Han : length an = 10%nat) by done.
  destruct (Z.ltb_spec n (Z.of_nat (length pre) + 2 + 10)); [lia|].
  assert (E0 : at_ buf (Z.of_nat (length pre)) = Some 0xc0) by (unfold buf; by rewrite at_start).
  assert (E1 : at_ buf (Z.of_nat (length pre) + 1) = Some 0x0c) by (unfold buf; by rewrite at_plus).
  rewrite E0, E1. cbn [mbind option_bind Z.eqb Pos.eqb negb orb].
  assert (E2 : buf = (pre ++ [0xc0; 0x0c]) ++ an ++ encode t ++ 0 :: more) by (unfold buf; by rewrite <- app_assoc).
  assert (E3 : read_an buf (Z.of_nat (length pre) + 2) = Some (atype, ttl, Z.of_nat (length (encode t)) + 1)).
  { rewrite E2. apply read_an_app; [rewrite length_app; cbn; lia|done]. }
  rewrite E3. cbn [mbind option_bind].
  destruct (Z.ltb_spec n (Z.of_nat (length pre) + (2 + 10) + (Z.of_nat (length (encode t)) + 1))); [lia|].
  rewrite app_assoc in E2. rewrite E2 in Hb, Hn |- *.
  rewrite copy_encoded; [done|done|done|done|done| |lia|lia|apply Halloc].
  rewrite !length_app, Han. cbn [length]. lia.
Qed.

(** The same for the name of an IPv4 address: the query asks for the address
    under in-addr.arpa, and a response with the identifier and the question of
    the query whose first answer points to the question and holds a name, of
    whatever type, is read back to the address and gives that name with its time
    to live. *)
Theorem resolver_ptr_answered alloc lookup queue sentinel ident flags nan addr atype ttl t more n q0 :
  (∀ size, alloc size = true) → 0 ≤ ident < 65536 →
  0 ≤ flags → Z.land flags 0x8000 ≠ 0 → Z.land flags 0x7f = 0 → 1 ≤ nan →
  0 ≤ addr < 2 ^ 32 → 0 ≤ ttl < 2 ^ 31 → 0 ≤ q0 < 2 ^ 62 →
  Forall label_ok t → t ≠ [] → (length t < 128)%nat →
  let message := ptr_response ident flags nan addr atype ttl t in
  let buf := message ++ more in
  bytes buf → Z.of_nat (length message) ≤ n ≤ Z.of_nat (length buf) →
  17 + Z.of_nat (length (encode (ptr_labels addr))) + 12 * nan ≤ n →
  ∃ q len, ngx_resolver_create_addr_query alloc ident addr q0 = Some (mk_created NGX_OK (Some q) len) ∧
    q = query_header ident ++ encode (ptr_labels addr) ++ [0; 0; 12; 0; 1] ∧ len = Z.of_nat (length q) ∧
    ngx_resolver_process_response queue sentinel buf n = Some (ProcessPtr ident 0 nan) ∧
    (lookup addr = Some q → ngx_resolver_process_ptr alloc lookup buf n ident 0 nan = Some (Alias (dotted t) ttl)).
Proof.
  intros Halloc Hid Hf Hqr Hcode Hnan Haddr Httl Hq0 Ht Htne Htl message buf Hb Hn Hn2.
  destruct (create_addr_query alloc ident addr q0 Halloc Hq0) as (len & E & Hlen).
  eexists _, _. split; [exact E|]. split; [done|]. split; [exact Hlen|]. clear E Hlen len.
  set (header := response_header ident flags nan). assert (Hh : length header = 12%nat) by done.
  set (an := an_bytes atype ttl (Z.of_nat (length (encode t)) + 1)). assert (Han : length an = 10%nat) by done.
  assert (Eb : buf = header ++ encode (ptr_labels addr) ++ 0 :: [0; 12; 0; 1] ++ 0xc0 :: 0x0c :: an ++ encode t ++ 0 :: more).
  { unfold buf, message, ptr_response. fold header an. rewrite <- !app_assoc. cbn [app]. by rewrite <- !app_assoc. }
  assert (Hml : Z.of_nat (length message) = 30 + Z.of_nat (length (encode (ptr_labels addr))) + Z.of_nat (length (encode t))).
  { unfold message, ptr_response. fold header an. rewrite !length_app. cbn [length]. rewrite !length_app. cbn [length].
    rewrite !length_app, Hh, Han. cbn [length]. lia. }
  split.
  { rewrite Eb. unfold header. rewrite process_question; [done|done|done|done|lia|apply ptr_labels_ok|lia]. }
  intros Hlook. unfold ngx_resolver_process_ptr, ptr_question.
  assert (Hchk : ngx_resolver_copy alloc false buf 12 n = Some Checked).
  { rewrite Eb in Hb, Hn |- *. apply (copy_encoded alloc false header (ptr_labels addr)); try done; try apply ptr_labels_ok; try lia; try apply Halloc.
    all: first [apply Halloc | unfold ptr_labels; cbn; lia]. }
  rewrite Hchk. cbn [mbind option_bind]. clear Hchk.
  set (digits := encode (InetProof.dec_text <$> octets addr)).
  assert (Elab : encode (ptr_labels addr) = digits ++ in_addr_arpa).
  { unfold ptr_labels, encode. by rewrite fmap_app, concat_app. }
  assert (E3 : buf = header ++ digits ++ (in_addr_arpa ++ 0 :: [0; 12; 0; 1] ++ 0xc0 :: 0x0c :: an ++ encode t ++ 0 :: more)).
  { rewrite Eb, Elab. by rewrite <- !app_assoc. }
  rewrite E3 at 1. unfold digits at 1. rewrite ptr_loop_ok; [|unfold octets; repeat constructor; apply octet_byte|done|by rewrite Hh].
  cbn [mbind option_bind]. rewrite octets_addr by done. fold digits.
  assert (E4 : buf = (header ++ digits) ++ in_addr_arpa ++ 0 :: [0; 12; 0; 1] ++ 0xc0 :: 0x0c :: an ++ encode t ++ 0 :: more)
    by (rewrite E3; by rewrite <- !app_assoc).
  rewrite E4 at 1. rewrite strcmp_at_ok by (rewrite length_app, Hh; lia). cbn [mbind option_bind].
  rewrite Hlook. cbn [mbind option_bind]. rewrite query_ident by done. cbn [mbind option_bind].
  rewrite Z.eqb_refl. cbn [negb]. destruct (Z.eqb_spec nan 0); [lia|]. cbn [Z.eqb andb negb].
  rewrite Elab, length_app in Hml, Hn2. change (length in_addr_arpa) with 13%nat in Hml, Hn2.
  set (pre := header ++ digits ++ in_addr_arpa ++ 0 :: [0; 12; 0; 1]).
  assert (E5 : buf = pre ++ 0xc0 :: 0x0c :: an ++ encode t ++ 0 :: more)
    by (rewrite E4; unfold pre; rewrite <- !app_assoc; cbn [app]; by rewrite <- ?app_assoc).
  rewrite E5 in Hb, Hn |- *. 
  assert (Hpre : 12 + Z.of_nat (length digits) + (14 + qs_size) = Z.of_nat (length pre)).
  2: { apply ptr_answer_ok; try done; try lia. destruct Hn as [Hn Hn3]. split; [lia|exact Hn3]. }
  unfold pre. rewrite !length_app, Hh. change (length in_addr_arpa) with 13%nat. cbn [length]. lia.
Qed.
End ResolverProof.
