(* ===== verification/Memory.v ===== *)
(** * Memories of nodes

    The monad in which code on linked structures runs: a map from addresses to
    nodes of one type and the variables of the program; [None] is an access to
    an address where there is no node. *)

From stdpp Require Import gmap.
From S2P Require Import Prelude.
Open Scope Z_scope.

Module Memory.

Record store (N R : Type) := mk_store { mem : gmap Z N; vars : R }.
Arguments mk_store {_ _} _ _.
Arguments mem {_ _} _.
Arguments vars {_ _} _.

Definition M (N R A : Type) : Type := store N R → option (A * store N R).

#[export] Instance M_ret {N R} : MRet (M N R) := λ A x s, Some (x, s).
#[export] Instance M_bind {N R} : MBind (M N R) := λ A B f m s,
  match m s with Some (x, s') => f x s' | None => None end.

Section Operations.
Context {N R : Type}.

Definition get {A} (f : N → A) (a : Z) : M N R A := λ s, n ← mem s !! a; Some (f n, s).
Definition update (f : N → N) (a : Z) : M N R unit := λ s,
  n ← mem s !! a; Some (tt, mk_store (<[a := f n]> (mem s)) (vars s)).
(** Memory that is new, or whose contents do not matter. *)
Definition new (n : N) (a : Z) : M N R unit := λ s, Some (tt, mk_store (<[a := n]> (mem s)) (vars s)).
Definition var {A} (f : R → A) : M N R A := λ s, Some (f (vars s), s).
Definition assign (f : R → R) : M N R unit := λ s, Some (tt, mk_store (mem s) (f (vars s))).
Definition nothing : M N R unit := mret tt.
Definition stuck {A} : M N R A := λ _, None.

Lemma run_bind {A B} (m : M N R A) (f : A → M N R B) s x s' : m s = Some (x, s') → (m ≫= f) s = f x s'.
Proof. unfold mbind, M_bind. by intros ->. Qed.

Lemma run_get {A B} (f : N → A) a (k : A → M N R B) s n : mem s !! a = Some n → (get f a ≫= k) s = k (f n) s.
Proof. intros H. unfold mbind, M_bind, get. by rewrite H. Qed.

Lemma run_update {B} (f : N → N) a (k : unit → M N R B) s n : mem s !! a = Some n →
  (update f a ≫= k) s = k tt (mk_store (<[a := f n]> (mem s)) (vars s)).
Proof. intros H. unfold mbind, M_bind, update. by rewrite H. Qed.

Lemma run_var {A B} (f : R → A) (k : A → M N R B) s : (var f ≫= k) s = k (f (vars s)) s.
Proof. done. Qed.

Lemma run_assign {B} (f : R → R) (k : unit → M N R B) s :
  (assign f ≫= k) s = k tt (mk_store (mem s) (f (vars s))).
Proof. done. Qed.

Lemma run_new {B} (n : N) a (k : unit → M N R B) s :
  (new n a ≫= k) s = k tt (mk_store (<[a := n]> (mem s)) (vars s)).
Proof. done. Qed.

Lemma run_last_update (f : N → N) a s n : mem s !! a = Some n →
  update f a s = Some (tt, mk_store (<[a := f n]> (mem s)) (vars s)).
Proof. intros H. unfold update. by rewrite H. Qed.
End Operations.

(** [a @ f] is [a->f], [a @ f := v] the assignment; [$ f] is the variable [f],
    [$ f := v] the assignment to it. *)
Declare Scope memory_scope.
Notation "a @ f" := (get f a) (at level 20, f at next level, no associativity) : memory_scope.
Notation "a @ f := v" := (update (set_field f (λ _, v)) a)
  (at level 20, f at next level, v at level 70, no associativity) : memory_scope.
Notation "$ f" := (var f) (at level 20, f at level 9) : memory_scope.
Notation "$ f := v" := (assign (set_field f (λ _, v)))
  (at level 20, f at level 9, v at level 70) : memory_scope.
End Memory.
