(* ===== verification/Radix.v ===== *)
(** * The radix tree of IPv4 prefixes

    src/core/ngx_radix_tree.h and ngx_radix_tree.c, on a memory of nodes.  The
    memory comes in pages from the pool: [page i] is the address that the i-th
    call of [ngx_pmemalign] returns, [NULL] if it fails, and [junk] is what the
    memory holds before it is written. *)

From stdpp Require Import gmap.
From S2P Require Import Prelude Memory.
Import Memory.Memory.
Open Scope Z_scope.

Module Radix.
Open Scope memory_scope.

Abbreviation NULL := 0.
Abbreviation NGX_BUSY := (-3).

(** ** Data *)

Definition NGX_RADIX_NO_VALUE : Z := u64 (-1).

(** [ngx_radix_node_t], of 32 bytes. *)
Record node := mk_node { right : Z; left : Z; parent : Z; value : Z }.
#[export] Instance eta_node : Eta node := λ n, mk_node (right n) (left n) (parent n) (value n).

(** [ngx_radix_tree_t], of 40 bytes, with the number of pages taken from
    [tree->pool]. *)
Record ngx_radix_tree_t := mk_tree {
  root : Z;
  free : Z;
  start : Z;
  size : Z;
  pages : nat;
}.
#[export] Instance eta_tree : Eta ngx_radix_tree_t := λ t,
  mk_tree (root t) (free t) (start t) (size t) (pages t).

Definition sizeof_node : Z := 32.
Definition sizeof_tree : Z := 40.

Abbreviation state := (store node ngx_radix_tree_t).
Abbreviation R := (M node ngx_radix_tree_t).

Section Tree.
Context (ngx_pagesize : Z) (page : nat → Z) (junk : Z → node).

Definition ngx_pmemalign : R Z :=
  n ← $ pages;
  $ pages := S n;;
  mret (page n).

(** ** Operations *)

Definition ngx_radix_alloc : R Z :=
  f ← $ free;
  if negb (f =? NULL) then
    p ← $ free;
    r ← p @ right;
    $ free := r;;
    mret p
  else
    s ← $ size;
    ok ← (if s <? sizeof_node then
            p ← ngx_pmemalign;
            $ start := p;;
            if p =? NULL then mret false
            else $ size := ngx_pagesize;; mret true
          else mret true);
    if (ok : bool) then
      p ← $ start;
      s ← $ size;
      $ start := p + sizeof_node;;
      $ size := s - sizeof_node;;
      new (junk p) p;;
      mret p
    else mret NULL.

(** [while (bit & mask)], down to the node or to the last one that exists: the
    bit, the node and [next]. *)
Fixpoint descend (fuel : nat) (key mask bit node next : Z) : R (Z * Z * Z) :=
  match fuel with
  | O => stuck
  | S fuel =>
      if negb (Z.land bit mask =? 0) then
        next ← (if negb (Z.land key bit =? 0) then node @ right else node @ left);
        if next =? NULL then mret (bit, node, next)
        else descend fuel key mask (Z.shiftr bit 1) next next
      else mret (bit, node, next)
  end.

(** The new node [next] becomes the child of [node] for the bit of the key. *)
Definition add_child (key bit node next : Z) : R unit :=
  next @ right := NULL;;
  next @ left := NULL;;
  next @ parent := node;;
  next @ value := NGX_RADIX_NO_VALUE;;
  if negb (Z.land key bit =? 0) then node @ right := next else node @ left := next.

(** The second loop and the assignment after it. *)
Fixpoint extend (fuel : nat) (key mask val bit node : Z) : R Z :=
  match fuel with
  | O => stuck
  | S fuel =>
      if negb (Z.land bit mask =? 0) then
        next ← ngx_radix_alloc;
        if next =? NULL then mret NGX_ERROR
        else
          add_child key bit node next;;
          extend fuel key mask val (Z.shiftr bit 1) next
      else
        node @ value := val;;
        mret NGX_OK
  end.

(** A bit goes through 32 places before it is 0. *)
Definition turns : nat := 33.

Definition ngx_radix32tree_insert (key mask val : Z) : R Z :=
  r ← $ root;
  '(bit, node, next) ← descend turns key mask 0x80000000 r r;
  if negb (next =? NULL) then
    v ← node @ value;
    if negb (v =? NGX_RADIX_NO_VALUE) then mret NGX_BUSY
    else
      node @ value := val;;
      mret NGX_OK
  else extend turns key mask val bit node.

(** [while (node && (bit & mask))] *)
Fixpoint walk (fuel : nat) (key mask bit node : Z) : R Z :=
  match fuel with
  | O => stuck
  | S fuel =>
      if negb (node =? NULL) && negb (Z.land bit mask =? 0) then
        node ← (if negb (Z.land key bit =? 0) then node @ right else node @ left);
        walk fuel key mask (Z.shiftr bit 1) node
      else mret node
  end.

(** [node->right || node->left] *)
Definition has_child (node : Z) : R bool :=
  r ← node @ right;
  if negb (r =? NULL) then mret true else l ← node @ left; mret (negb (l =? NULL)).

(** The parent forgets the node, which becomes free. *)
Definition unlink (node : Z) : R unit :=
  p ← node @ parent;
  pr ← p @ right;
  (if pr =? node then
     p ← node @ parent;
     p @ right := NULL
   else
     p ← node @ parent;
     p @ left := NULL);;
  f ← $ free;
  node @ right := f;;
  $ free := node.

(** The loop that gives back the node and its parents that are of no use. *)
Fixpoint prune (fuel : nat) (node : Z) : R unit :=
  match fuel with
  | O => stuck
  | S fuel =>
      unlink node;;
      node ← node @ parent;
      c ← has_child node;
      if (c : bool) then nothing
      else
        v ← node @ value;
        if negb (v =? NGX_RADIX_NO_VALUE) then nothing
        else
          p ← node @ parent;
          if p =? NULL then nothing else prune fuel node
  end.

Definition ngx_radix32tree_delete (key mask : Z) : R Z :=
  r ← $ root;
  node ← walk turns key mask 0x80000000 r;
  if node =? NULL then mret NGX_ERROR
  else
    c ← has_child node;
    if (c : bool) then
      v ← node @ value;
      if negb (v =? NGX_RADIX_NO_VALUE) then
        node @ value := NGX_RADIX_NO_VALUE;;
        mret NGX_OK
      else mret NGX_ERROR
    else
      prune turns node;;
      mret NGX_OK.

(** [while (node)] *)
Fixpoint find_loop (fuel : nat) (key bit node val : Z) : R Z :=
  match fuel with
  | O => stuck
  | S fuel =>
      if negb (node =? NULL) then
        v ← node @ value;
        val ← (if negb (v =? NGX_RADIX_NO_VALUE) then node @ value else mret val);
        node ← (if negb (Z.land key bit =? 0) then node @ right else node @ left);
        find_loop fuel key (Z.shiftr bit 1) node val
      else mret val
  end.

Definition ngx_radix32tree_find (key : Z) : R Z :=
  r ← $ root;
  find_loop (S turns) key 0x80000000 r NGX_RADIX_NO_VALUE.

(** ** Creation *)

(** [do ... while (key)]: [false] is [return NULL]. *)
Fixpoint fill_level (fuel : nat) (key mask inc : Z) : R bool :=
  match fuel with
  | O => stuck
  | S fuel =>
      rc ← ngx_radix32tree_insert key mask NGX_RADIX_NO_VALUE;
      if negb (rc =? NGX_OK) then mret false
      else
        let key := u32 (key + inc) in
        if negb (key =? 0) then fill_level fuel key mask inc else mret true
  end.

(** [while (preallocate--)], for [preallocate] that is not negative; [key]
    takes [2 ^ 32 / inc] values. *)
Fixpoint fill (preallocate : nat) (mask inc : Z) : R bool :=
  match preallocate with
  | O => mret true
  | S preallocate =>
      let mask := Z.lor (Z.shiftr mask 1) 0x80000000 in
      ok ← fill_level (Z.to_nat (2 ^ 32 / inc)) 0 mask inc;
      if negb ok then mret false else fill preallocate mask (Z.shiftr inc 1)
  end.

Definition preallocated (preallocate : Z) : Z :=
  if preallocate =? -1 then
    let n := ngx_pagesize / sizeof_tree in
    if n =? 128 then 6 else if n =? 256 then 7 else 8
  else preallocate.

(** The result is [false] for [NULL]; the tree itself is in the state. *)
Definition ngx_radix_tree_create (preallocate : Z) : R bool :=
  $ free := NULL;;
  $ start := NULL;;
  $ size := 0;;
  r ← ngx_radix_alloc;
  $ root := r;;
  if r =? NULL then mret false
  else
    r @ right := NULL;;
    r @ left := NULL;;
    r @ parent := NULL;;
    r @ value := NGX_RADIX_NO_VALUE;;
    if preallocate =? 0 then mret true
    else fill (Z.to_nat (preallocated preallocate)) 0 0x80000000.
End Tree.
End Radix.
