(* ===== verification/RadixProof.v ===== *)
(** * The radix tree is a map of prefixes

    The tree in the memory is described by the address of the node of every
    prefix; the operations are those of a finite map from prefixes to values,
    and the search gives the value of the longest prefix.  The loops go down at
    most 32 bits, so their fuel is enough. *)

From stdpp Require Import gmap.
From S2P Require Import Prelude Memory Radix.
Import Memory.Memory Radix.
Open Scope Z_scope.

Module RadixProof.
Open Scope memory_scope.

(** ** Prefixes *)

Abbreviation prefix := (list bool).

(** The bits of an address from the highest on. *)
Definition bits (x : Z) : list bool := (λ i, Z.testbit x (31 - Z.of_nat i)) <$> seq 0 32.

Fixpoint leading (l : list bool) : nat := match l with true :: l => S (leading l) | _ => O end.

(** The bits that the mask selects: those before its first 0. *)
Definition prefix_of (key mask : Z) : prefix := take (leading (bits mask)) (bits key).

Definition bit_at (i : nat) : Z := Z.shiftr 0x80000000 (Z.of_nat i).

Lemma bit_at_next i : Z.shiftr (bit_at i) 1 = bit_at (S i).
Proof. unfold bit_at. rewrite Z.shiftr_shiftr by lia. f_equal. lia. Qed.

Lemma length_bits x : length (bits x) = 32%nat.
Proof. unfold bits. by rewrite length_fmap, length_seq. Qed.

Lemma bits_lookup x i : (i < 32)%nat → bits x !! i = Some (Z.testbit x (31 - Z.of_nat i)).
Proof. intros Hi. unfold bits. rewrite list_lookup_fmap, lookup_seq_lt by done. done. Qed.

Lemma land_pow2 x k : 0 ≤ k → negb (Z.land x (2 ^ k) =? 0) = Z.testbit x k.
Proof.
  intros Hk. destruct (Z.testbit x k) eqn:E.
  - apply negb_true_iff, Z.eqb_neq. intros H. apply (f_equal (λ y, Z.testbit y k)) in H.
    rewrite Z.land_spec, Z.pow2_bits_true, E, Z.bits_0 in H by done. done.
  - apply negb_false_iff, Z.eqb_eq. apply Z.bits_inj'. intros n Hn.
    rewrite Z.land_spec, Z.bits_0, Z.pow2_bits_eqb by done.
    destruct (Z.eqb_spec k n) as [->|]; [by rewrite E|by rewrite andb_false_r].
Qed.

Lemma bit_at_pow i : (i < 32)%nat → bit_at i = 2 ^ (31 - Z.of_nat i).
Proof.
  intros Hi. unfold bit_at. change 0x80000000 with (2 ^ 31). rewrite Z.shiftr_div_pow2 by lia.
  rewrite <- Z.pow_sub_r by lia. done.
Qed.

Lemma bit_set x i : (i < 32)%nat → bits x !! i = Some (negb (Z.land x (bit_at i) =? 0)).
Proof. intros Hi. rewrite bits_lookup by done. rewrite bit_at_pow, land_pow2 by lia. done. Qed.

Lemma leading_length l : (leading l ≤ length l)%nat.
Proof. induction l as [|[] l IH]; cbn; lia. Qed.
Lemma leading_lt l : ∀ i, (i < leading l)%nat → l !! i = Some true.
Proof. induction l as [|[] l IH]; intros [|i] Hi; cbn in *; try lia; [done|]. apply IH. lia. Qed.
Lemma leading_at l : l !! leading l ≠ Some true.
Proof. by induction l as [|[] l IH]. Qed.

Lemma leading_bits mask : (leading (bits mask) ≤ 32)%nat.
Proof. rewrite <- (length_bits mask). apply leading_length. Qed.

(** The test of the loops. *)
Lemma mask_bit mask i : (i ≤ leading (bits mask))%nat →
  negb (Z.land (bit_at i) mask =? 0) = (i <? leading (bits mask))%nat.
Proof.
  intros Hi. pose proof (leading_bits mask) as HL. rewrite Z.land_comm.
  destruct (decide (i = 32)%nat) as [->|Hne].
  - change (bit_at 32) with 0. rewrite Z.land_0_r. cbn [Z.eqb negb]. symmetry. apply Nat.ltb_ge. lia.
  - pose proof (bit_set mask i ltac:(lia)) as H. destruct (Nat.ltb_spec i (leading (bits mask))) as [Hlt|Hge].
    + rewrite (leading_lt _ _ Hlt) in H. by simplify_eq.
    + assert (i = leading (bits mask)) as -> by lia. pose proof (leading_at (bits mask)) as Hn.
      rewrite H in Hn. by destruct (negb _).
Qed.

Lemma take_bit x i : (i < 32)%nat → take (S i) (bits x) = take i (bits x) ++ [negb (Z.land x (bit_at i) =? 0)].
Proof. intros Hi. by apply take_S_r, bit_set. Qed.

(** ** The tree in the memory *)

Section Rep.
Context (A : gmap prefix Z) (V : gmap prefix Z).

Definition ptr (p : prefix) : Z := default NULL (A !! p).

Definition cell (p : prefix) : node :=
  mk_node (ptr (p ++ [true])) (ptr (p ++ [false]))
    (if decide (p = []) then NULL else ptr (removelast p)) (default NGX_RADIX_NO_VALUE (V !! p)).

(** [A] has the addresses of the nodes, [V] the values. *)
Record tree_ok (m : gmap Z node) (root : Z) : Prop := {
  t_root : A !! [] = Some root;
  t_null : ∀ p, A !! p ≠ Some NULL;
  t_cell : ∀ p a, A !! p = Some a → m !! a = Some (cell p);
  t_closed : ∀ p b, is_Some (A !! (p ++ [b])) → is_Some (A !! p);
  t_depth : ∀ p a, A !! p = Some a → (length p ≤ 32)%nat;
  t_inj : ∀ p q a, A !! p = Some a → A !! q = Some a → p = q;
  t_values : ∀ p v, V !! p = Some v → is_Some (A !! p) ∧ v ≠ NGX_RADIX_NO_VALUE;
}.

Lemma ptr_null m r p : tree_ok m r → ptr p = NULL ↔ A !! p = None.
Proof.
  intros H. unfold ptr. split; [|by intros ->]. destruct (A !! p) eqn:E; [|done].
  cbn. intros ->. by destruct (t_null _ _ H p).
Qed.

Lemma ptr_some p a : A !! p = Some a → ptr p = a.
Proof. unfold ptr. by intros ->. Qed.

Context (s : state) (r : Z) (H : tree_ok (mem s) r).

Lemma run_field {X} p a (f : node → X) : A !! p = Some a → get f a s = Some (f (cell p), s).
Proof. intros Ha. unfold get. by rewrite (t_cell _ _ H _ _ Ha). Qed.

(** [key & bit ? node->right : node->left] *)
Lemma run_child key i a : (i < 32)%nat → A !! take i (bits key) = Some a →
  (if negb (Z.land key (bit_at i) =? 0) then a @ right else a @ left) s =
  Some (ptr (take (S i) (bits key)), s).
Proof.
  intros Hi Ha. rewrite take_bit by done.
  destruct (negb _); rewrite (run_field _ _ _ Ha); done.
Qed.

(** ** Going down *)

Lemma descend_ok key mask fuel : ∀ i node next,
  (i ≤ leading (bits mask))%nat → (leading (bits mask) - i < fuel)%nat →
  A !! take i (bits key) = Some node → next ≠ NULL →
  ∃ j node' next', descend fuel key mask (bit_at i) node next s = Some (bit_at j, node', next', s) ∧
    (j ≤ leading (bits mask))%nat ∧ A !! take j (bits key) = Some node' ∧
    (next' ≠ NULL ∧ j = leading (bits mask) ∨
     next' = NULL ∧ (j < leading (bits mask))%nat ∧ A !! take (S j) (bits key) = None).
Proof.
  pose proof (leading_bits mask) as HL.
  induction fuel as [|fuel IH]; intros i node next Hi Hf Hn Hnext; [lia|]. cbn [descend].
  rewrite mask_bit by done. destruct (Nat.ltb_spec i (leading (bits mask))) as [Hlt|Hge].
  - rewrite (run_bind _ _ _ _ _ (run_child key i node ltac:(lia) Hn)).
    destruct (Z.eqb_spec (ptr (take (S i) (bits key))) NULL) as [E|E].
    + exists i, node, NULL. rewrite E. split; [done|]. split; [lia|]. split; [done|]. right.
      split; [done|]. split; [done|]. by apply (ptr_null _ _ _ H).
    + rewrite bit_at_next. apply IH; [lia|lia| |done].
      unfold ptr in *. by destruct (A !! take (S i) (bits key)).
  - exists i, node, next. split; [done|]. split; [lia|]. split; [done|]. left. split; [done|lia].
Qed.

Lemma closed_take l n : ∀ j, (n ≤ j)%nat → A !! take n l = None → A !! take j l = None.
Proof.
  intros j Hj Hn. induction Hj as [|j Hj IH]; [done|]. destruct (decide (j < length l)%nat) as [Hl|Hl].
  - destruct (l !! j) as [b|] eqn:Eb; [|apply lookup_ge_None in Eb; lia].
    rewrite (take_S_r _ _ _ Eb). destruct (A !! (take j l ++ [b])) eqn:E; [|done].
    destruct (t_closed _ _ H (take j l) b) as [x Hx]; [by eexists|]. by rewrite IH in Hx.
  - by rewrite !take_ge in * by lia.
Qed.

Lemma walk_ok key mask fuel : ∀ i,
  (i ≤ leading (bits mask))%nat → (leading (bits mask) - i < fuel)%nat →
  walk fuel key mask (bit_at i) (ptr (take i (bits key))) s = Some (ptr (prefix_of key mask), s).
Proof.
  pose proof (leading_bits mask) as HL.
  induction fuel as [|fuel IH]; intros i Hi Hf; [lia|]. cbn [walk]. unfold prefix_of in *.
  rewrite mask_bit by done.
  destruct (Z.eqb_spec (ptr (take i (bits key))) NULL) as [E|E]; cbn [negb andb].
  - rewrite E. pose proof (proj1 (ptr_null _ _ _ H) E) as E'.
    rewrite (proj2 (ptr_null _ _ _ H)); [done|]. by apply (closed_take _ i).
  - destruct (Nat.ltb_spec i (leading (bits mask))) as [Hlt|Hge].
    + destruct (A !! take i (bits key)) as [a|] eqn:Ea; [|by destruct E; apply (ptr_null _ _ _ H)].
      rewrite (ptr_some _ _ Ea), (run_bind _ _ _ _ _ (run_child key i a ltac:(lia) Ea)), bit_at_next.
      apply IH; lia.
    + by replace i with (leading (bits mask)) by lia.
Qed.

(** ** The search *)

(** The value of the longest of the prefixes of up to [n] bits. *)
Fixpoint longest (l : list bool) (n : nat) : Z :=
  match V !! take n l with
  | Some v => v
  | None => match n with O => NGX_RADIX_NO_VALUE | S n => longest l n end
  end.

Definition before (l : list bool) (n : nat) : Z :=
  match n with O => NGX_RADIX_NO_VALUE | S n => longest l n end.

Lemma values_none l i n : A !! take i l = None → (i ≤ S n)%nat → longest l n = before l i.
Proof.
  intros Hi Hn. induction n as [|n IH].
  - destruct i as [|i]; cbn.
    + destruct (V !! take 0 l) eqn:E; [|done]. destruct (t_values _ _ H _ _ E) as [[? Hx] _]. by rewrite Hi in Hx.
    + by replace i with O by lia.
  - destruct (decide (i = S (S n))) as [->|Hne]; [done|]. cbn [longest].
    destruct (V !! take (S n) l) eqn:E; [|apply IH; lia].
    destruct (t_values _ _ H _ _ E) as [[? Hx] _]. by rewrite (closed_take l i (S n) ltac:(lia) Hi) in Hx.
Qed.

Lemma find_loop_ok key fuel : ∀ i, (i ≤ 33)%nat → (33 - i < fuel)%nat →
  find_loop fuel key (bit_at i) (ptr (if decide (i = 33)%nat then bits key ++ [false] else take i (bits key)))
    (before (bits key) i) s = Some (longest (bits key) 32, s).
Proof.
  induction fuel as [|fuel IH]; intros i Hi Hf; [lia|]. cbn [find_loop].
  destruct (decide (i = 33)%nat) as [->|Hne].
  - rewrite (proj2 (ptr_null _ _ _ H)); [done|]. destruct (A !! (bits key ++ [false])) eqn:E; [|done].
    apply (t_depth _ _ H) in E. rewrite length_app, length_bits in E. cbn in E. lia.
  - destruct (Z.eqb_spec (ptr (take i (bits key))) NULL) as [E|E]; cbn [negb].
    + apply (ptr_null _ _ _ H) in E. by rewrite (values_none _ i) by (done || lia).
    + destruct (A !! take i (bits key)) as [a|] eqn:Ea; [|by destruct E; apply (ptr_null _ _ _ H)].
      rewrite (ptr_some _ _ Ea). rewrite (run_bind _ _ _ _ _ (run_field _ _ value Ea)). cbn [value cell].
      assert ((if negb (default NGX_RADIX_NO_VALUE (V !! take i (bits key)) =? NGX_RADIX_NO_VALUE)
               then a @ value else mret (before (bits key) i)) s = Some (before (bits key) (S i), s)) as Hv.
      { cbn [before]. destruct (V !! take i (bits key)) as [v|] eqn:Ev; cbn [default id].
        - destruct (t_values _ _ H _ _ Ev) as [_ Hv]. rewrite (proj2 (Z.eqb_neq _ _) Hv). cbn [negb].
          rewrite (run_field _ _ value Ea). cbn [value cell]. rewrite Ev. destruct i; cbn [longest]; by rewrite Ev.
        - rewrite Z.eqb_refl. cbn [negb]. destruct i; cbn [longest]; by rewrite Ev. }
      rewrite (run_bind _ _ _ _ _ Hv). destruct (decide (i = 32)%nat) as [->|Hne'].
      * change (bit_at 32) with 0. rewrite Z.land_0_r. cbn [Z.eqb negb].
        rewrite (run_bind _ _ _ _ _ (run_field _ _ left Ea)). cbn [left cell].
        rewrite take_ge by by rewrite length_bits. apply (IH 33%nat); lia.
      * rewrite (run_bind _ _ _ _ _ (run_child key i a ltac:(lia) Ea)), bit_at_next.
        specialize (IH (S i) ltac:(lia) ltac:(lia)). by rewrite decide_False in IH by lia.
Qed.

Lemma find_ok key : root (vars s) = r →
  ngx_radix32tree_find key s = Some (longest (bits key) 32, s).
Proof.
  intros Hr. unfold ngx_radix32tree_find, turns.
  rewrite run_var, Hr.
  rewrite <- (ptr_some [] r (t_root _ _ H)). apply (find_loop_ok key 34 0); lia.
Qed.
End Rep.

(** ** The memory of the nodes *)

Ltac run := cbv [mbind option_bind M_bind mret M_ret var assign new get ngx_pmemalign set_field nothing]; cbn.

Fixpoint chain (m : gmap Z node) (f : Z) (l : list Z) : Prop :=
  match l with
  | [] => f = NULL
  | a :: l => f = a ∧ a ≠ NULL ∧ ∃ n, m !! a = Some n ∧ chain m (right n) l
  end.

Lemma chain_update m l a n : a ∉ l → ∀ f, chain m f l → chain (<[a := n]> m) f l.
Proof.
  induction l as [|b l IH]; intros Ha f; [done|]. rewrite not_elem_of_cons in Ha. destruct Ha as [Hab Ha].
  intros (-> & Hb & n' & Hn & Hc). split; [done|]. split; [done|]. exists n'.
  rewrite lookup_insert_ne by done. split; [done|]. by apply IH.
Qed.

Section Pool.
Context (ngx_pagesize : Z) (page : nat → Z) (junk : Z → node).
Context (page_size : 32 ≤ ngx_pagesize).
Context (page_pos : ∀ i, 0 ≤ page i).
Context (page_disjoint : ∀ i j, i ≠ j → page i ≠ NULL → page j ≠ NULL →
  page i + ngx_pagesize ≤ page j ∨ page j + ngx_pagesize ≤ page i).

(** Memory that no node has been made of. *)
Definition fresh (t : ngx_radix_tree_t) (a : Z) : Prop :=
  32 ≤ size t ∧ start t ≤ a < start t + size t ∨
  ∃ i, (pages t ≤ i)%nat ∧ page i ≠ NULL ∧ page i ≤ a < page i + ngx_pagesize.

(** [fl] are the free nodes. *)
Record pool_ok (fl : list Z) (s : state) : Prop := {
  p_chain : chain (mem s) (free (vars s)) fl;
  p_nodup : NoDup fl;
  p_fresh : ∀ a, fresh (vars s) a → mem s !! a = None;
  p_start : 32 ≤ size (vars s) → ∃ i, (i < pages (vars s))%nat ∧ page i ≠ NULL ∧
    page i ≤ start (vars s) ∧ start (vars s) + size (vars s) ≤ page i + ngx_pagesize;
}.

Lemma chain_mem m l : ∀ f a, chain m f l → a ∈ l → a ≠ NULL ∧ is_Some (m !! a).
Proof.
  induction l as [|b l IH]; intros f a; [by intros _ ?%elem_of_nil|].
  intros (-> & Hb & n & Hn & Hc) [->|Ha]%elem_of_cons; [by eauto|by eapply IH].
Qed.

Lemma pool_update fl s a n : pool_ok fl s → a ∉ fl → is_Some (mem s !! a) →
  pool_ok fl (mk_store (<[a := n]> (mem s)) (vars s)).
Proof.
  intros [Hc Hn Hf Hs] Ha [n' Hm]. split; cbn [mem vars]; try done; [by apply chain_update|].
  intros b Hb. specialize (Hf b Hb). rewrite lookup_insert_ne; [done|]. by intros ->; simplify_eq.
Qed.

(** A node that can be used, of unknown contents; [NULL] if a page could not be
    had. *)
Definition failed (t t' : ngx_radix_tree_t) : Prop :=
  ∃ i, (pages t ≤ i < pages t')%nat ∧ page i = NULL.

Lemma alloc_ok fl s : pool_ok fl s → ∃ a s' fl',
  ngx_radix_alloc ngx_pagesize page junk s = Some (a, s') ∧ pool_ok fl' s' ∧ fl' ⊆ fl ∧
  root (vars s') = root (vars s) ∧ (pages (vars s) ≤ pages (vars s'))%nat ∧
  (a = NULL ∧ mem s' = mem s ∧ failed (vars s) (vars s') ∨
   a ≠ NULL ∧ a ∉ fl' ∧ (a ∈ fl ∨ mem s !! a = None) ∧ ∃ n, mem s' = <[a := n]> (mem s)).
Proof.
  intros Hp. pose proof Hp as [Hc Hn Hf Hs]. destruct s as [m [r f st sz pg]]. cbn in Hc, Hn, Hf, Hs.
  unfold ngx_radix_alloc. rewrite run_var. cbn [free vars].
  destruct (Z.eqb_spec f NULL) as [->|Hf0]; cbn [negb].
  - destruct fl as [|? fl]; [|by destruct Hc as (<- & ? & _)].
    rewrite run_var. cbn [size vars]. unfold sizeof_node.
    destruct (Z.ltb_spec sz 32) as [Hsz|Hsz].
    + destruct (Z.eqb_spec (page pg) NULL) as [E|E].
      * exists NULL, (mk_store m (mk_tree r NULL (page pg) sz (S pg))), [].
        split. { run. rewrite E. done. }
        split; [|split; [done|split; [done|split; [cbn; lia|]]]].
        -- split; cbn; [done|constructor| |lia].
           intros a [[? _]|(i & Hi & H)]; cbn in *; [lia|]. apply Hf. right. exists i. split; [cbn in *; lia|done].
        -- left. split; [done|]. split; [done|]. exists pg. cbn. split; [lia|done].
      * pose proof (page_pos pg) as Hpos.
        exists (page pg), (mk_store (<[page pg := junk (page pg)]> m)
          (mk_tree r NULL (page pg + 32) (ngx_pagesize - 32) (S pg))), [].
        split. { run. rewrite (proj2 (Z.eqb_neq _ _) E). done. }
        split; [|split; [done|split; [done|split; [cbn; lia|]]]].
        -- split; cbn; [done|constructor| |].
           ++ intros a Ha. rewrite lookup_insert_ne; [apply Hf; right|].
              ** destruct Ha as [[? ?]|(i & Hi & H)]; cbn in *; [exists pg; split; [lia|split; [done|lia]]|].
                 exists i. split; [lia|done].
              ** intros <-. destruct Ha as [[? ?]|(i & Hi & Hi0 & H)]; cbn in *; [lia|].
                 destruct (page_disjoint i pg ltac:(lia) Hi0 E); lia.
           ++ intros _. exists pg. split; [lia|]. split; [done|lia].
        -- right. split; [done|]. split; [by intros ?%elem_of_nil|]. split.
           ++ right. apply Hf. right. exists pg. cbn. split; [lia|]. split; [done|lia].
           ++ by eexists.
    + destruct (Hs Hsz) as (i & Hi & Hi0 & Hi1 & Hi2). pose proof (page_pos i) as Hpos.
      exists st, (mk_store (<[st := junk st]> m) (mk_tree r NULL (st + 32) (sz - 32) pg)), [].
      split; [done|]. split; [|split; [done|split; [done|split; [cbn; lia|]]]].
      * split; cbn; [done|constructor| |].
        -- intros a Ha. rewrite lookup_insert_ne; [apply Hf|].
           ++ destruct Ha as [[? ?]|Ha]; cbn in *; [left; cbn; lia|by right].
           ++ intros <-. destruct Ha as [[? ?]|(j & Hj & Hj0 & H)]; cbn in *; [lia|].
              destruct (page_disjoint i j ltac:(lia) Hi0 Hj0); lia.
        -- intros Hsz'. exists i. split; [done|]. split; [done|lia].
      * right. split; [lia|]. split; [by intros ?%elem_of_nil|]. split; [|by eexists].
        right. apply Hf. left. cbn. lia.
  - destruct fl as [|a fl]; [by cbn in Hc|]. destruct Hc as (-> & Ha & n & Hm & Hc).
    apply list.NoDup_cons in Hn as [Hna Hn].
    exists a, (mk_store m (mk_tree r (right n) st sz pg)), fl.
    split. { run. by rewrite Hm. }
    split; [by split|]. split; [set_solver|]. split; [done|]. split; [done|].
    right. split; [done|]. split; [done|]. split; [left; set_solver|]. exists n. cbn. by rewrite insert_id.
Qed.

(** ** The invariant and its changes *)

Definition put (p : prefix) (v : Z) (V : gmap prefix Z) : gmap prefix Z :=
  if v =? NGX_RADIX_NO_VALUE then delete p V else <[p := v]> V.

Lemma put_lookup p v V q : default NGX_RADIX_NO_VALUE (put p v V !! q) =
  if decide (q = p) then v else default NGX_RADIX_NO_VALUE (V !! q).
Proof.
  unfold put. destruct (Z.eqb_spec v NGX_RADIX_NO_VALUE) as [->|Hv]; case_decide as E.
  - subst. by rewrite lookup_delete_eq.
  - by rewrite lookup_delete_ne.
  - subst. by rewrite lookup_insert_eq.
  - by rewrite lookup_insert_ne.
Qed.

Lemma put_some p v V q x : put p v V !! q = Some x →
  (q = p ∧ x = v ∨ V !! q = Some x) ∧ (q = p → x ≠ NGX_RADIX_NO_VALUE).
Proof.
  unfold put. destruct (Z.eqb_spec v NGX_RADIX_NO_VALUE) as [->|Hv].
  - intros [Hq Hx]%lookup_delete_Some. split; [by right|]. by intros ->.
  - intros [[<- <-]|[Hq Hx]]%lookup_insert_Some; [by split; [left|]|]. split; [by right|]. by intros ->.
Qed.

Lemma tree_put A V m r p a v : tree_ok A V m r → A !! p = Some a →
  tree_ok A (put p v V) (<[a := (cell A V p) <| value := v |>]> m) r.
Proof.
  intros H Ha. split; try apply H.
  - intros q b Hb. unfold cell. rewrite put_lookup. destruct (decide (q = p)) as [E|E].
    + subst q. simplify_eq. by rewrite lookup_insert_eq.
    + rewrite lookup_insert_ne; [exact (t_cell _ _ _ _ H _ _ Hb)|]. intros ->. by destruct E; eapply (t_inj _ _ _ _ H).
  - intros q x [[[-> ->]|Hx] Hn]%put_some; [by eauto|]. by apply (t_values _ _ _ _ H).
Qed.

Definition set_child (b : bool) (c : Z) (n : node) : node := if b then n <| right := c |> else n <| left := c |>.

Lemma snoc_inj (p q : prefix) b c : p ++ [b] = q ++ [c] → p = q ∧ b = c.
Proof. intros E%app_inj_2; [|done]. destruct E as [-> E]. by simplify_eq. Qed.
Lemma snoc_ne (p : prefix) b : p ++ [b] ≠ p.
Proof. intros E%(f_equal length). rewrite length_app in E. cbn in E. lia. Qed.
Lemma snoc_nil (p : prefix) b : p ++ [b] ≠ [].
Proof. by destruct p. Qed.

(** The cells of other nodes when the child [p ++ [b]] changes. *)
Lemma cell_child A A' V V' p b q : q ≠ p ++ [b] →
  (∀ x, x ≠ p ++ [b] → A' !! x = A !! x) → V' !! q = V !! q → (q ≠ [] → removelast q ≠ p ++ [b]) →
  cell A' V' q = if decide (q = p) then set_child b (ptr A' (p ++ [b])) (cell A V p) else cell A V q.
Proof.
  intros Hq HA HV Hr. unfold cell, ptr. rewrite HV.
  assert ((if decide (q = []) then NULL else default NULL (A' !! removelast q)) =
    (if decide (q = []) then NULL else default NULL (A !! removelast q))) as ->.
  { case_decide as E; [done|]. by rewrite HA by auto. }
  destruct (decide (q = p)) as [E|E].
  - subst q. unfold set_child. destruct b; unfold set_field; cbn; f_equal; apply (f_equal (default NULL)), HA;
      intros E%snoc_inj; by destruct E.
  - by rewrite !HA by (intros E'%snoc_inj; by destruct E').
Qed.

Lemma tree_add A V m r p b a c : tree_ok A V m r → A !! p = Some a → (length p < 32)%nat →
  A !! (p ++ [b]) = None → c ≠ NULL → (∀ q, A !! q ≠ Some c) →
  tree_ok (<[p ++ [b] := c]> A) V
    (<[a := set_child b c (cell A V p)]> (<[c := mk_node NULL NULL a NGX_RADIX_NO_VALUE]> m)) r.
Proof.
  intros H Ha Hp Hn Hc Hnew.
  assert (∀ b', A !! ((p ++ [b]) ++ [b']) = None) as Hleaf.
  { intros b'. destruct (A !! ((p ++ [b]) ++ [b'])) eqn:E; [|done].
    destruct (t_closed _ _ _ _ H (p ++ [b]) b') as [x Hx]; [by eexists|]. by rewrite Hn in Hx. }
  assert (c ≠ a) as Hca by (intros ->; by destruct (Hnew p)).
  split.
  - rewrite lookup_insert_ne by apply snoc_nil. apply H.
  - intros q. rewrite lookup_insert_Some. intros [[_ ?]|[_ Hq]]; [done|]. by apply (t_null _ _ _ _ H) in Hq.
  - intros q x [[<- <-]|[Hq Hx]]%lookup_insert_Some.
    + rewrite lookup_insert_ne, lookup_insert_eq by done. unfold cell, ptr.
      rewrite !(lookup_insert_ne _ _ ((p ++ [b]) ++ _)) by (intros E; symmetry in E; by apply snoc_ne in E).
      rewrite !Hleaf, decide_False by apply snoc_nil. rewrite removelast_last, lookup_insert_ne by apply snoc_ne.
      rewrite Ha. destruct (V !! (p ++ [b])) eqn:E; [|done].
      destruct (t_values _ _ _ _ H _ _ E) as [[? Hx] _]. by rewrite Hn in Hx.
    + rewrite (cell_child A _ V V p b q); [|done| |done|].
      * case_decide as E.
        -- subst q. simplify_eq. rewrite lookup_insert_eq. unfold ptr. by rewrite lookup_insert_eq.
        -- rewrite !lookup_insert_ne; [by apply H| |].
           ++ intros ->. by destruct (Hnew q).
           ++ intros ->. destruct E. by eapply (t_inj _ _ _ _ H).
      * intros y Hy. by rewrite lookup_insert_ne.
      * intros Hq0 E. destruct q as [|b' q' _] using rev_ind; [done|]. rewrite removelast_last in E. subst q'.
        by rewrite Hleaf in Hx.
  - intros q b' [x [[E <-]|[Hq Hx]]%lookup_insert_Some].
    + apply snoc_inj in E as [-> ->]. rewrite lookup_insert_ne by apply snoc_ne. by eexists.
    + destruct (decide (q = p ++ [b])) as [->|Hne]; [by rewrite lookup_insert_eq; eexists|].
      rewrite lookup_insert_ne by done. eapply (t_closed _ _ _ _ H). by eexists.
  - intros q x [[<- <-]|[Hq Hx]]%lookup_insert_Some; [rewrite length_app; cbn; lia|]. by eapply (t_depth _ _ _ _ H).
  - intros q q' x [[<- <-]|[Hq Hx]]%lookup_insert_Some [[<- E]|[Hq' Hx']]%lookup_insert_Some;
      [done|by destruct (Hnew q')|subst; by destruct (Hnew q)|by eapply (t_inj _ _ _ _ H)].
  - intros q v Hv. destruct (t_values _ _ _ _ H _ _ Hv) as [[x Hx] Hno]. split; [|done].
    destruct (decide (q = p ++ [b])) as [->|Hne]; [by rewrite lookup_insert_eq; eexists|].
    rewrite lookup_insert_ne by done. by eexists.
Qed.

Lemma tree_remove A V m r p b a c n : tree_ok A V m r → A !! p = Some a → A !! (p ++ [b]) = Some c →
  (∀ b', A !! ((p ++ [b]) ++ [b']) = None) →
  tree_ok (delete (p ++ [b]) A) (delete (p ++ [b]) V)
    (<[c := n]> (<[a := set_child b NULL (cell A V p)]> m)) r.
Proof.
  intros H Ha Hc Hleaf. split.
  - rewrite lookup_delete_ne by apply snoc_nil. apply H.
  - intros q [_ Hq]%lookup_delete_Some. by apply (t_null _ _ _ _ H) in Hq.
  - intros q x [Hq Hx]%lookup_delete_Some.
    rewrite (cell_child A _ V (delete (p ++ [b]) V) p b q); [|done| | |].
    + rewrite (lookup_insert_ne _ c); [|intros ->; apply Hq; by eapply (t_inj _ _ _ _ H)].
      case_decide as E.
      * subst q. simplify_eq. rewrite lookup_insert_eq. unfold ptr. by rewrite lookup_delete_eq.
      * rewrite lookup_insert_ne; [by apply H|]. intros ->. destruct E. by eapply (t_inj _ _ _ _ H).
    + intros y Hy. by rewrite lookup_delete_ne.
    + by rewrite lookup_delete_ne.
    + intros Hq0 E. destruct q as [|b' q' _] using rev_ind; [done|]. rewrite removelast_last in E. subst q'.
      by rewrite Hleaf in Hx.
  - intros q b' [x [Hq Hx]%lookup_delete_Some].
    rewrite lookup_delete_ne; [eapply (t_closed _ _ _ _ H); by eexists|].
    intros <-. by rewrite Hleaf in Hx.
  - intros q x [Hq Hx]%lookup_delete_Some. by eapply (t_depth _ _ _ _ H).
  - intros q q' x [_ Hx]%lookup_delete_Some [_ Hx']%lookup_delete_Some. by eapply (t_inj _ _ _ _ H).
  - intros q v [Hq Hv]%lookup_delete_Some. rewrite lookup_delete_ne by done. by apply (t_values _ _ _ _ H).
Qed.

Record inv (A V : gmap prefix Z) (fl : list Z) (s : state) : Prop := {
  v_tree : tree_ok A V (mem s) (root (vars s));
  v_pool : pool_ok fl s;
  v_used : ∀ p a, A !! p = Some a → a ∉ fl;
}.

Lemma failed_trans t t1 t2 : (pages t ≤ pages t1)%nat → failed t1 t2 → failed t t2.
Proof. intros H (i & Hi & E). exists i. split; [lia|done]. Qed.

(** An assignment to [node->value]. *)
Lemma inv_put A V fl s p a v : inv A V fl s → A !! p = Some a →
  update (set_field value (λ _, v)) a s =
    Some (tt, mk_store (<[a := (cell A V p) <| value := v |>]> (mem s)) (vars s)) ∧
  inv A (put p v V) fl (mk_store (<[a := (cell A V p) <| value := v |>]> (mem s)) (vars s)).
Proof.
  intros [Ht Hp Hu] Ha. pose proof (t_cell _ _ _ _ Ht _ _ Ha) as Hc. split; [by apply run_last_update|].
  split; cbn [mem vars]; [by apply tree_put|apply pool_update; by eauto|done].
Qed.

(** ** Insertion *)

(** The memory of [alloc_ok] can become a new node. *)
Lemma add_child_ok A V fl s p key i node c n t1 fl1 (b := negb (Z.land key (bit_at i) =? 0)) :
  inv A V fl s → A !! p = Some node → (length p < 32)%nat → A !! (p ++ [b]) = None →
  c ≠ NULL → c ∉ fl1 → (c ∈ fl ∨ mem s !! c = None) → fl1 ⊆ fl → root t1 = root (vars s) →
  pool_ok fl1 (mk_store (<[c := n]> (mem s)) t1) →
  ∃ s', add_child key (bit_at i) node c (mk_store (<[c := n]> (mem s)) t1) = Some (tt, s') ∧
    vars s' = t1 ∧ inv (<[p ++ [b] := c]> A) V fl1 s'.
Proof.
  intros [Ht Hp Hu] Ha Hlen Hn Hc0 Hc1 Hc2 Hsub Hr1 Hp1.
  assert (∀ q, A !! q ≠ Some c) as Hnew.
  { intros q Hq. destruct Hc2 as [Hin|Hmc]; [by destruct (Hu q c Hq)|].
    by rewrite (t_cell _ _ _ _ Ht _ _ Hq) in Hmc. }
  assert (c ≠ node) as Hcn by (intros ->; by destruct (Hnew p)).
  set (c0 := mk_node NULL NULL node NGX_RADIX_NO_VALUE).
  assert ((<[c := c0]> (mem s)) !! node = Some (cell A V p)) as Hnode.
  { rewrite lookup_insert_ne by done. exact (t_cell _ _ _ _ Ht _ _ Ha). }
  exists (mk_store (<[node := set_child b c (cell A V p)]> (<[c := c0]> (mem s))) t1). split; [|split; [done|split]].
  - unfold add_child. fold b.
    do 4 (rewrite (run_update _ _ _ _ _ (lookup_insert_eq _ _ _)); cbn [mem vars]; rewrite insert_insert_eq).
    destruct b; by apply run_last_update.
  - cbn [mem vars]. rewrite Hr1. exact (tree_add A V (mem s) _ _ b node c Ht Ha Hlen Hn Hc0 Hnew).
  - assert (pool_ok fl1 (mk_store (<[c := c0]> (mem s)) t1)) as Hp2.
    { rewrite <- (insert_insert_eq (mem s) c c0 n).
      apply (pool_update fl1 (mk_store (<[c := n]> (mem s)) t1) c c0 Hp1 Hc1).
      cbn. rewrite lookup_insert_eq. by eexists. }
    apply (pool_update fl1 (mk_store (<[c := c0]> (mem s)) t1) node _ Hp2).
    + intros Hin. by apply (Hu _ _ Ha), Hsub.
    + cbn. rewrite Hnode. by eexists.
  - intros q x [[<- <-]|[_ Hx]]%lookup_insert_Some; [done|]. intros Hin. by apply (Hu q x Hx), Hsub.
Qed.

Lemma extend_ok key mask val V (P := prefix_of key mask) fuel : ∀ j node A fl s, inv A V fl s →
  (j ≤ leading (bits mask))%nat → (leading (bits mask) - j < fuel)%nat →
  A !! take j (bits key) = Some node → ((j < leading (bits mask))%nat → A !! take (S j) (bits key) = None) →
  ∃ rc s' A' V' fl', extend ngx_pagesize page junk fuel key mask val (bit_at j) node s = Some (rc, s') ∧
    inv A' V' fl' s' ∧ (pages (vars s) ≤ pages (vars s'))%nat ∧
    (rc = NGX_OK ∧ V' = put P val V ∨ rc = NGX_ERROR ∧ V' = V ∧ failed (vars s) (vars s')).
Proof.
  pose proof (leading_bits mask) as HL.
  induction fuel as [|fuel IH]; intros j node A fl s Hi Hj Hf Ha Hn; [lia|]. cbn [extend].
  rewrite mask_bit by done. destruct (Nat.ltb_spec j (leading (bits mask))) as [Hlt|Hge].
  - pose proof Hi as [Ht Hp Hu]. specialize (Hn Hlt).
    destruct (alloc_ok fl s Hp) as (c & s1 & fl1 & E & Hp1 & Hsub & Hr1 & Hg1 & Hc). rewrite (run_bind _ _ _ _ _ E).
    destruct Hc as [(-> & Hm & Hfail)|(Hc0 & Hc1 & Hc2 & n & Hm)].
    + exists NGX_ERROR, s1, A, V, fl1. split; [done|]. split; [|split; [done|by right]].
      split; [by rewrite Hm, Hr1|done|]. intros p a Hpa Hin. by apply (Hu p a Hpa), Hsub.
    + rewrite (proj2 (Z.eqb_neq _ _) Hc0). destruct s1 as [m1 t1]. cbn [mem vars] in *. subst m1.
      pose proof (take_bit key j ltac:(lia)) as Htake. set (b := negb (Z.land key (bit_at j) =? 0)) in Htake.
      rewrite Htake in Hn.
      assert (length (take j (bits key)) < 32)%nat as Hlen by (rewrite length_take, length_bits; lia).
      destruct (add_child_ok A V fl s _ key j node c n t1 fl1 Hi Ha Hlen Hn Hc0 Hc1 Hc2 Hsub Hr1 Hp1)
        as (s2 & E2 & Hv2 & Hi2). fold b in Hi2. rewrite (run_bind _ _ _ _ _ E2), bit_at_next.
      destruct (IH (S j) c _ _ s2 Hi2) as (rc & s' & A' & V' & fl' & E' & Hi' & Hg' & Hr).
      * lia.
      * lia.
      * by rewrite Htake, lookup_insert_eq.
      * intros Hlt2. rewrite (take_bit key (S j)), Htake by lia.
        rewrite lookup_insert_ne; [|intros E3; symmetry in E3; by apply snoc_ne in E3].
        apply eq_None_not_Some. intros Hx. apply (t_closed _ _ _ _ Ht) in Hx as [y Hy]. by rewrite Hn in Hy.
      * exists rc, s', A', V', fl'. split; [exact E'|]. split; [done|]. rewrite Hv2 in *. split; [lia|].
        destruct Hr as [?|(? & ? & Hfail)]; [by left|right]. split; [done|]. split; [done|].
        by eapply failed_trans.
  - assert (j = leading (bits mask)) as -> by lia.
    destruct (inv_put A V fl s _ node val Hi Ha) as [E Hi']. rewrite (run_bind _ _ _ _ _ E).
    do 5 eexists. split; [done|]. split; [exact Hi'|]. split; [done|]. by left.
Qed.

Lemma radix_insert_ok A V fl s key mask val (P := prefix_of key mask) : inv A V fl s →
  ∃ rc s' A' V' fl', ngx_radix32tree_insert ngx_pagesize page junk key mask val s = Some (rc, s') ∧
    inv A' V' fl' s' ∧ (pages (vars s) ≤ pages (vars s'))%nat ∧
    match V !! P with
    | Some _ => rc = NGX_BUSY ∧ V' = V
    | None => rc = NGX_OK ∧ V' = put P val V ∨ rc = NGX_ERROR ∧ V' = V ∧ failed (vars s) (vars s')
    end.
Proof.
  intros Hi. pose proof Hi as [Ht _ _]. unfold ngx_radix32tree_insert. rewrite run_var.
  pose proof (t_root _ _ _ _ Ht) as Hroot.
  assert (root (vars s) ≠ NULL) as Hr0 by (intros E; rewrite E in Hroot; by apply (t_null _ _ _ _ Ht) in Hroot).
  pose proof (leading_bits mask) as HL.
  destruct (descend_ok A V s _ Ht key mask turns 0 _ _ ltac:(lia) ltac:(unfold turns; lia) Hroot Hr0)
    as (j & node & next & E & Hj & Ha & Hn).
  rewrite (run_bind _ _ _ _ _ E). cbn beta iota.
  destruct Hn as [[Hn ->]|(-> & Hlt & Hnone)].
  - rewrite (proj2 (Z.eqb_neq _ _) Hn). cbn [negb].
    rewrite (run_bind _ _ _ _ _ (run_field A V s _ Ht _ _ value Ha)). cbn [value cell].
    fold (prefix_of key mask) in Ha |- *. fold P in Ha |- *.
    destruct (V !! P) as [v|] eqn:Ev; cbn [default id].
    + destruct (t_values _ _ _ _ Ht _ _ Ev) as [_ Hv]. rewrite (proj2 (Z.eqb_neq _ _) Hv). by do 5 eexists.
    + rewrite Z.eqb_refl. cbn [negb]. destruct (inv_put A V fl s _ node val Hi Ha) as [E1 Hi'].
      rewrite (run_bind _ _ _ _ _ E1). do 5 eexists. split; [done|]. split; [exact Hi'|]. split; [done|]. by left.
  - cbn [Z.eqb negb].
    destruct (extend_ok key mask val V turns j node A fl s Hi Hj ltac:(unfold turns; lia) Ha (λ _, Hnone))
      as (rc & s' & A' & V' & fl' & E1 & Hi' & Hg & Hr).
    exists rc, s', A', V', fl'. split; [exact E1|]. split; [done|]. split; [done|].
    destruct (V !! P) eqn:Ev; [|done]. destruct (t_values _ _ _ _ Ht _ _ Ev) as [[x Hx] _].
    assert (A !! P = None) as E2 by (eapply (closed_take A V s); [exact Ht| |exact Hnone]; lia).
    by rewrite E2 in Hx.
Qed.

(** ** Deletion *)

Lemma run_has_child A V s r p a : tree_ok A V (mem s) r → A !! p = Some a →
  has_child a s = Some (bool_decide (is_Some (A !! (p ++ [true])) ∨ is_Some (A !! (p ++ [false]))), s).
Proof.
  intros Ht Ha. unfold has_child. rewrite (run_bind _ _ _ _ _ (run_field A V s r Ht _ _ right Ha)). cbn [right cell].
  destruct (Z.eqb_spec (ptr A (p ++ [true])) NULL) as [E|E]; cbn [negb].
  - rewrite (run_bind _ _ _ _ _ (run_field A V s r Ht _ _ left Ha)). cbn [left cell].
    apply (ptr_null _ _ _ _ _ Ht) in E. rewrite E.
    destruct (Z.eqb_spec (ptr A (p ++ [false])) NULL) as [E'|E']; cbn [negb].
    + apply (ptr_null _ _ _ _ _ Ht) in E'. rewrite E'. rewrite bool_decide_eq_false_2; [done|].
      by intros [[]|[]].
    + rewrite bool_decide_eq_true_2; [done|]. right. apply not_eq_None_Some. by rewrite <- (ptr_null _ _ _ _ _ Ht).
  - rewrite bool_decide_eq_true_2; [done|]. left. apply not_eq_None_Some. by rewrite <- (ptr_null _ _ _ _ _ Ht).
Qed.

Lemma pool_free fl m t c n : pool_ok fl (mk_store m t) → m !! c = Some n → c ≠ NULL → c ∉ fl →
  pool_ok (c :: fl) (mk_store (<[c := n <| right := free t |>]> m) (t <| free := c |>)).
Proof.
  intros Hp Hm Hc Hin. destruct (pool_update fl (mk_store m t) c (n <| right := free t |>) Hp Hin ltac:(by eexists))
    as [Hc' Hn Hf Hs]. cbn [mem vars] in *.
  split; cbn [mem vars]; [|by constructor|exact Hf|exact Hs].
  split; [done|]. split; [done|]. eexists. split; [apply lookup_insert_eq|]. exact Hc'.
Qed.

(** A leaf other than the root. *)
Lemma unlink_ok q b A V fl s c a : inv A V fl s → A !! (q ++ [b]) = Some c → A !! q = Some a →
  (∀ b', A !! ((q ++ [b]) ++ [b']) = None) →
  ∃ s', unlink c s = Some (tt, s') ∧ inv (delete (q ++ [b]) A) (delete (q ++ [b]) V) (c :: fl) s' ∧
    pages (vars s') = pages (vars s) ∧ get parent c s' = Some (a, s').
Proof.
  intros [Ht Hp Hu] Hc Ha Hleaf. unfold unlink.
  assert (parent (cell A V (q ++ [b])) = a) as Hparent.
  { cbn [parent cell]. rewrite decide_False by apply snoc_nil. rewrite removelast_last. by apply ptr_some. }
  assert (a ≠ c) as Hac.
  { intros <-. destruct (snoc_ne q b). symmetry. by eapply (t_inj _ _ _ _ Ht). }
  rewrite (run_bind _ _ _ _ _ (run_field A V s _ Ht _ _ parent Hc)), Hparent.
  rewrite (run_bind _ _ _ _ _ (run_field A V s _ Ht _ _ right Ha)). cbn [right cell].
  assert ((ptr A (q ++ [true]) =? c) = b) as ->.
  { destruct b; [rewrite (ptr_some _ _ _ Hc); apply Z.eqb_refl|]. apply Z.eqb_neq. intros E. unfold ptr in E.
    destruct (A !! (q ++ [true])) eqn:E1; cbn in E; [|subst c; by apply (t_null _ _ _ _ Ht) in Hc].
    subst z. pose proof (t_inj _ _ _ _ Ht _ _ _ Hc E1) as E%snoc_inj. by destruct E. }
  set (m1 := <[a := set_child b NULL (cell A V q)]> (mem s)).
  assert ((if b then p ← c @ parent; p @ right := NULL else p ← c @ parent; p @ left := NULL) s =
    Some (tt, mk_store m1 (vars s))) as Hset.
  { pose proof (t_cell _ _ _ _ Ht _ _ Ha) as Hm.
    destruct b; rewrite (run_bind _ _ _ _ _ (run_field A V s _ Ht _ _ parent Hc)), Hparent; by apply run_last_update. }
  rewrite (run_bind _ _ _ _ _ Hset). rewrite run_var. cbn [mem vars].
  assert (m1 !! c = Some (cell A V (q ++ [b]))) as Hm1.
  { unfold m1. rewrite lookup_insert_ne by done. exact (t_cell _ _ _ _ Ht _ _ Hc). }
  rewrite (run_update _ _ _ (mk_store m1 (vars s)) _ Hm1). unfold assign. cbn [mem vars].
  set (n2 := (cell A V (q ++ [b])) <| right := free (vars s) |>).
  eexists. split; [done|]. split; [|split; [done|]].
  - split; cbn [mem vars].
    + by apply (tree_remove A V (mem s) (root (vars s)) q b a c n2 Ht Ha Hc).
    + apply pool_free; [|done|intros ->; by apply (t_null _ _ _ _ Ht) in Hc|by eapply Hu].
      apply (pool_update fl s a _ Hp (Hu _ _ Ha)). eexists. exact (t_cell _ _ _ _ Ht _ _ Ha).
    + intros p x [Hpq Hx]%lookup_delete_Some [->|Hin]%elem_of_cons; [|by eapply Hu].
      apply Hpq. by eapply (t_inj _ _ _ _ Ht).
  - unfold get. cbn [mem]. rewrite lookup_insert_eq. unfold n2, set_field. cbn -[cell]. by rewrite <- Hparent.
Qed.

Lemma prune_ok fuel : ∀ p A V fl s c, inv A V fl s → A !! p = Some c → p ≠ [] → (length p ≤ fuel)%nat →
  (∀ b, A !! (p ++ [b]) = None) →
  ∃ s' A' fl', prune fuel c s = Some (tt, s') ∧ inv A' (delete p V) fl' s' ∧ pages (vars s') = pages (vars s).
Proof.
  induction fuel as [|fuel IH]; intros p A V fl s c Hi Hc Hp0 Hf Hleaf;
    [destruct p; [done|cbn in Hf; lia]|].
  destruct p as [|b q _] using rev_ind; [done|]. clear Hp0. cbn [prune]. pose proof Hi as [Ht _ _].
  destruct (t_closed _ _ _ _ Ht q b (mk_is_Some _ _ Hc)) as [a Ha].
  destruct (unlink_ok q b A V fl s c a Hi Hc Ha Hleaf) as (s2 & E2 & Hi2 & Hg2 & Hpar2).
  rewrite (run_bind _ _ _ _ _ E2), (run_bind _ _ _ _ _ Hpar2). pose proof Hi2 as [Ht2 _ _].
  assert (delete (q ++ [b]) A !! q = Some a) as Ha2 by (rewrite lookup_delete_ne by apply snoc_ne; done).
  rewrite (run_bind _ _ _ _ _ (run_has_child _ _ s2 _ _ _ Ht2 Ha2)).
  case_bool_decide as Hch; [by exists s2, (delete (q ++ [b]) A), (c :: fl)|].
  rewrite (run_bind _ _ _ _ _ (run_field _ _ s2 _ Ht2 _ _ value Ha2)). cbn [value cell].
  destruct (delete (q ++ [b]) V !! q) as [v|] eqn:Ev; cbn [default id].
  { destruct (t_values _ _ _ _ Ht2 _ _ Ev) as [_ Hv]. rewrite (proj2 (Z.eqb_neq _ _) Hv). cbn [negb].
    by exists s2, (delete (q ++ [b]) A), (c :: fl). }
  rewrite Z.eqb_refl. cbn [negb].
  rewrite (run_bind _ _ _ _ _ (run_field _ _ s2 _ Ht2 _ _ parent Ha2)). cbn [parent cell].
  destruct (decide (q = [])) as [->|Hq]; [by exists s2, (delete ([] ++ [b]) A), (c :: fl)|].
  destruct q as [|b' q' _] using rev_ind; [done|]. rewrite removelast_last.
  destruct (t_closed _ _ _ _ Ht2 q' b' (mk_is_Some _ _ Ha2)) as [a' Ha'].
  rewrite (ptr_some _ _ _ Ha'). rewrite (proj2 (Z.eqb_neq a' NULL)) by
    (intros ->; by apply (t_null _ _ _ _ Ht2) in Ha').
  destruct (IH (q' ++ [b']) _ _ _ s2 a Hi2 Ha2 Hq) as (s' & A' & fl' & E & Hi' & Hpg).
  - rewrite !length_app in *. cbn in *. lia.
  - intros b2. apply eq_None_not_Some. intros Hb2. destruct Hch. destruct b2; auto.
  - exists s', A', fl'. rewrite (delete_id _ (q' ++ [b'])) in Hi' by done. rewrite <- Hg2. by split.
Qed.

Lemma radix_delete_ok A V fl s key mask (P := prefix_of key mask) : inv A V fl s →
  (P = [] → ∃ p v, p ≠ [] ∧ V !! p = Some v) →
  ∃ rc s' A' fl', ngx_radix32tree_delete key mask s = Some (rc, s') ∧
    inv A' (delete P V) fl' s' ∧ pages (vars s') = pages (vars s) ∧
    (rc = NGX_OK ∨ rc = NGX_ERROR ∧ V !! P = None).
Proof.
  intros Hi Hroot. pose proof Hi as [Ht _ _]. unfold ngx_radix32tree_delete. rewrite run_var.
  pose proof (walk_ok A V s _ Ht key mask turns 0 ltac:(lia)) as E.
  change (take 0 (bits key)) with (@nil bool) in E.
  rewrite (ptr_some _ _ _ (t_root _ _ _ _ Ht)) in E.
  rewrite (run_bind _ _ _ _ _ (E ltac:(pose proof (leading_bits mask); unfold turns; lia))). clear E. fold P.
  destruct (A !! P) as [a|] eqn:Ea.
  2:{ rewrite (proj2 (ptr_null _ _ _ _ _ Ht) Ea). cbn [Z.eqb].
      assert (V !! P = None) as Ev.
      { destruct (V !! P) eqn:Ev; [|done]. destruct (t_values _ _ _ _ Ht _ _ Ev) as [[? Hx] _]. by rewrite Ea in Hx. }
      exists NGX_ERROR, s, A, fl. rewrite delete_id by done. by eauto 6. }
  rewrite (ptr_some _ _ _ Ea).
  rewrite (proj2 (Z.eqb_neq a NULL)) by (intros ->; by apply (t_null _ _ _ _ Ht) in Ea).
  rewrite (run_bind _ _ _ _ _ (run_has_child _ _ s _ _ _ Ht Ea)).
  case_bool_decide as Hch.
  - rewrite (run_bind _ _ _ _ _ (run_field _ _ s _ Ht _ _ value Ea)). cbn [value cell].
    destruct (V !! P) as [v|] eqn:Ev; cbn [default id].
    + destruct (t_values _ _ _ _ Ht _ _ Ev) as [_ Hv]. rewrite (proj2 (Z.eqb_neq _ _) Hv). cbn [negb].
      destruct (inv_put A V fl s _ a NGX_RADIX_NO_VALUE Hi Ea) as [E Hi']. rewrite (run_bind _ _ _ _ _ E).
      do 4 eexists. split; [done|]. split; [exact Hi'|]. split; [done|by left].
    + rewrite Z.eqb_refl. exists NGX_ERROR, s, A, fl. rewrite delete_id by done. by eauto 6.
  - assert (∀ b, A !! (P ++ [b]) = None) as Hleaf.
    { intros b. apply eq_None_not_Some. intros Hb. destruct Hch. destruct b; auto. }
    destruct (prune_ok turns P A V fl s a Hi Ea) as (s' & A' & fl' & E & Hi' & Hpg).
    + intros HP. destruct (Hroot HP) as (p & v & Hp & Hv). destruct (t_values _ _ _ _ Ht _ _ Hv) as [[x Hx] _].
      destruct p as [|b p]; [done|]. pose proof (Hleaf b) as Hb. rewrite HP in Hb.
      pose proof (closed_take A V s _ Ht (b :: p) 1 (S (length p)) ltac:(lia) Hb) as Hn.
      rewrite take_ge in Hn by (cbn; lia). by rewrite Hn in Hx.
    + pose proof (t_depth _ _ _ _ Ht _ _ Ea). unfold turns. lia.
    + exact Hleaf.
    + rewrite (run_bind _ _ _ _ _ E). exists NGX_OK, s', A', fl'. by eauto 6.
Qed.

(** ** Creation *)

Lemma fill_level_ok mask inc n fuel : ∀ k A fl s, 0 < inc → n * inc = 2 ^ 32 → 0 ≤ k < n →
  (Z.to_nat (n - k) ≤ fuel)%nat → inv A ∅ fl s →
  ∃ ok s' A' fl', fill_level ngx_pagesize page junk fuel (k * inc) mask inc s = Some (ok, s') ∧
    inv A' ∅ fl' s' ∧ (pages (vars s) ≤ pages (vars s'))%nat ∧ (ok = true ∨ ok = false ∧ failed (vars s) (vars s')).
Proof.
  induction fuel as [|fuel IH]; intros k A fl s Hinc Hn Hk Hf Hi; [lia|]. cbn [fill_level].
  destruct (radix_insert_ok A ∅ fl s (k * inc) mask NGX_RADIX_NO_VALUE Hi)
    as (rc & s1 & A1 & V1 & fl1 & E & Hi1 & Hp1 & Hr).
  rewrite lookup_empty in Hr. rewrite (run_bind _ _ _ _ _ E).
  destruct Hr as [[-> ->]|(-> & -> & Hfail)].
  2:{ exists false, s1, A1, fl1. split; [done|]. split; [done|]. split; [done|]. by right. }
  unfold put in Hi1. rewrite Z.eqb_refl, delete_empty in Hi1. cbn [Z.eqb negb].
  assert (k * inc + inc = (k + 1) * inc) as -> by lia.
  destruct (decide (k + 1 = n)) as [->|Hne].
  - rewrite Hn. change (u32 (2 ^ 32)) with 0. cbn [Z.eqb negb].
    exists true, s1, A1, fl1. split; [done|]. split; [done|]. split; [done|]. by left.
  - assert (0 < (k + 1) * inc < 2 ^ 32) as Hb by nia. rewrite u32_id by lia.
    rewrite (proj2 (Z.eqb_neq ((k + 1) * inc) 0)) by lia. cbn [negb].
    destruct (IH (k + 1) A1 fl1 s1 Hinc Hn ltac:(lia) ltac:(lia) Hi1) as (ok & s' & A' & fl' & E' & Hi' & Hp' & Hr).
    exists ok, s', A', fl'. split; [exact E'|]. split; [done|]. split; [lia|].
    destruct Hr as [|[? Hfail]]; [by left|right]. split; [done|]. by eapply failed_trans.
Qed.

Lemma fill_ok n : ∀ i mask A fl s, (n + i ≤ 32)%nat → inv A ∅ fl s →
  ∃ ok s' A' fl', fill ngx_pagesize page junk n mask (bit_at i) s = Some (ok, s') ∧ inv A' ∅ fl' s' ∧
    (pages (vars s) ≤ pages (vars s'))%nat ∧ (ok = true ∨ ok = false ∧ failed (vars s) (vars s')).
Proof.
  induction n as [|n IH]; intros i mask A fl s Hn Hi; cbn [fill].
  { exists true, s, A, fl. split; [done|]. split; [done|]. split; [done|]. by left. }
  rewrite bit_at_next, (bit_at_pow i) by lia. set (inc := 2 ^ (31 - Z.of_nat i)).
  assert (0 < inc) as Hinc by (apply Z.pow_pos_nonneg; lia).
  assert (2 ^ (Z.of_nat i + 1) * inc = 2 ^ 32) as Hm.
  { unfold inc. rewrite <- Z.pow_add_r by lia. f_equal. lia. }
  assert (2 ^ 32 / inc = 2 ^ (Z.of_nat i + 1)) as Hdiv by (rewrite <- Hm, Z.div_mul by lia; done).
  assert (0 < 2 ^ (Z.of_nat i + 1)) as Hpos by (apply Z.pow_pos_nonneg; lia). rewrite Hdiv.
  destruct (fill_level_ok (Z.lor (Z.shiftr mask 1) 0x80000000) inc _ (Z.to_nat (2 ^ (Z.of_nat i + 1))) 0 A fl s
    Hinc Hm ltac:(lia) ltac:(rewrite Z.sub_0_r; lia) Hi) as (ok & s1 & A1 & fl1 & E & Hi1 & Hp1 & Hr).
  cbn [Z.mul] in E. rewrite (run_bind _ _ _ _ _ E). destruct Hr as [->|[-> Hfail]]; cbn [negb].
  2:{ exists false, s1, A1, fl1. split; [done|]. split; [done|]. split; [done|]. by right. }
  destruct (IH (S i) (Z.lor (Z.shiftr mask 1) 0x80000000) A1 fl1 s1 ltac:(lia) Hi1) as (ok & s' & A' & fl' & E' & Hi' & Hp' & Hr).
  exists ok, s', A', fl'. split; [exact E'|]. split; [done|]. split; [lia|].
  destruct Hr as [|[? Hfail]]; [by left|right]. split; [done|]. by eapply failed_trans.
Qed.

Lemma create_ok preallocate t : -1 ≤ preallocate ≤ 32 →
  ∃ ok s, ngx_radix_tree_create ngx_pagesize page junk preallocate (mk_store ∅ t) = Some (ok, s) ∧
    (ok = true ∧ (∃ A fl, inv A ∅ fl s) ∨ ok = false ∧ ∃ i, page i = NULL).
Proof.
  intros Hpre. unfold ngx_radix_tree_create. rewrite !run_assign. cbn [mem vars].
  set (s0 := mk_store ∅ _ : state).
  assert (pool_ok [] s0) as Hp0.
  { split; [done|constructor|intros a _; apply lookup_empty|]. cbn. lia. }
  destruct (alloc_ok [] s0 Hp0) as (r & s1 & fl1 & E & Hp1 & Hsub & _ & _ & Hr).
  rewrite (run_bind _ _ _ _ _ E), run_assign. destruct s1 as [m1 t1]. cbn [mem vars].
  destruct Hr as [(-> & _ & i & _ & Hi)|(Hr0 & Hr1 & _ & n & Hm)].
  { do 2 eexists. split; [done|]. right. by eauto. }
  cbn [mem] in Hm. subst m1. rewrite (proj2 (Z.eqb_neq r NULL)) by done.
  do 4 (rewrite (run_update _ _ _ _ _ (lookup_insert_eq _ _ _)); cbn [mem vars]; rewrite insert_insert_eq).
  set (s2 := mk_store _ _ : state).
  assert (inv {[ [] := r ]} ∅ fl1 s2) as Hi.
  { split; cbn [mem vars s2].
    - split; cbn.
      + by rewrite lookup_singleton_eq.
      + intros p [_ Hp]%lookup_singleton_Some. done.
      + intros p a [<- <-]%lookup_singleton_Some. rewrite lookup_insert_eq. unfold cell, ptr.
        by rewrite !lookup_singleton_ne by (by destruct p || done).
      + intros p b [x [E1 _]%lookup_singleton_Some]. by destruct p.
      + intros p a [<- _]%lookup_singleton_Some. cbn. lia.
      + by intros p q a [<- _]%lookup_singleton_Some [<- _]%lookup_singleton_Some.
      + done.
    - assert (pool_ok fl1 (mk_store (<[r := n]> ∅) (t1 <| root := r |>))) as Hp by (destruct Hp1; by split).
      unfold s2. cbn [mem s0]. rewrite <- (insert_insert_eq (∅ : gmap Z node) r _ n).
      apply (pool_update fl1 (mk_store (<[r := n]> ∅) (t1 <| root := r |>)) r _ Hp Hr1).
      cbn. rewrite lookup_insert_eq. by eexists.
    - by intros p a [_ <-]%lookup_singleton_Some. }
  destruct (preallocate =? 0); [exists true, s2; split; [done|left; by eauto]|].
  assert (Z.to_nat (preallocated ngx_pagesize preallocate) + 0 ≤ 32)%nat as Hn.
  { unfold preallocated. destruct (preallocate =? -1); [|lia]. repeat case_match; lia. }
  destruct (fill_ok _ 0 0 _ _ _ Hn Hi) as (ok & s' & A' & fl' & E' & Hi' & _ & Hr).
  exists ok, s'. split; [exact E'|]. destruct Hr as [->|[-> (i & _ & Hi0)]]; [left|right]; by eauto.
Qed.

(** ** The tree as a finite map *)

Inductive op := Insert (key mask val : Z) | Delete (key mask : Z) | Find (key : Z).

Definition run_op (o : op) : R Z :=
  match o with
  | Insert key mask val => ngx_radix32tree_insert ngx_pagesize page junk key mask val
  | Delete key mask => ngx_radix32tree_delete key mask
  | Find key => ngx_radix32tree_find key
  end.

(** What an operation does to the map of prefixes, and its result. *)
Definition spec_op (V : gmap prefix Z) (o : op) (rc : Z) (V' : gmap prefix Z) : Prop :=
  match o with
  | Insert key mask val =>
      match V !! prefix_of key mask with
      | Some _ => rc = NGX_BUSY ∧ V' = V
      | None =>
          rc = NGX_OK ∧ V' = put (prefix_of key mask) val V ∨
          rc = NGX_ERROR ∧ V' = V ∧ ∃ i, page i = NULL
      end
  | Delete key mask =>
      V' = delete (prefix_of key mask) V ∧
      (rc = NGX_OK ∨ rc = NGX_ERROR ∧ V !! prefix_of key mask = None)
  | Find key => V' = V ∧ rc = longest V (bits key) 32
  end.

(** The empty prefix is deleted only while there is another one. *)
Definition safe (V : gmap prefix Z) (o : op) : Prop :=
  match o with
  | Delete key mask => prefix_of key mask = [] → ∃ p v, p ≠ [] ∧ V !! p = Some v
  | _ => True
  end.

Fixpoint simulates (ops : list op) (V : gmap prefix Z) (s : state) : Prop :=
  match ops with
  | [] => True
  | o :: ops => safe V o →
      ∃ rc s' V', run_op o s = Some (rc, s') ∧ spec_op V o rc V' ∧ simulates ops V' s'
  end.

Lemma inv_simulates ops : ∀ A V fl s, inv A V fl s → simulates ops V s.
Proof.
  induction ops as [|o ops IH]; intros A V fl s Hi; [done|]. intros Hs. destruct o as [key mask val|key mask|key]; cbn [run_op spec_op].
  - destruct (radix_insert_ok A V fl s key mask val Hi) as (rc & s' & A' & V' & fl' & E & Hi' & _ & Hr).
    exists rc, s', V'. split; [exact E|]. split; [|by eapply IH].
    destruct (V !! prefix_of key mask); [done|]. destruct Hr as [|(? & ? & i & _ & ?)]; [by left|right].
    split; [done|]. split; [done|by exists i].
  - destruct (radix_delete_ok A V fl s key mask Hi Hs) as (rc & s' & A' & fl' & E & Hi' & _ & Hr).
    exists rc, s', (delete (prefix_of key mask) V). split; [exact E|]. split; [done|]. by eapply IH.
  - destruct Hi as [Ht Hp Hu]. exists (longest V (bits key) 32), s, V.
    split; [by eapply find_ok|]. split; [done|]. by eapply IH.
Qed.

(** C11: A tree that has been created, with any number of preallocated bits,
    answers any sequence of insertions, deletions and searches as a finite map
    from prefixes to values does, as long as the empty prefix is deleted only
    while another one is in the map ([safe]; the code dereferences the parent of
    the root in [radix_delete_root]).  An insertion is [NGX_BUSY] exactly for a
    prefix with a value; a search gives the value of the longest prefix of the
    address; a deletion of a prefix with a value is [NGX_OK] and removes just
    this value, and one of a prefix without a value changes no value, but its
    answer depends on the preallocated nodes ([radix_delete_absent]).  The
    creation and an insertion fail only if the pool has no page. *)
Theorem radix_tree_correct preallocate t : -1 ≤ preallocate ≤ 32 →
  ∃ ok s, ngx_radix_tree_create ngx_pagesize page junk preallocate (mk_store ∅ t) = Some (ok, s) ∧
    if ok : bool then ∀ ops, simulates ops ∅ s else ∃ i, page i = NULL.
Proof.
  intros Hp. destruct (create_ok preallocate t Hp) as (ok & s & E & Hr). exists ok, s. split; [exact E|].
  destruct Hr as [[-> (A & fl & Hi)]|[-> Hi]]; [|done]. intros ops. by eapply inv_simulates.
Qed.
End Pool.

(** Pages one after the other, the memory above 1M being used up. *)
Definition example_page (i : nat) : Z := if (i <? 255)%nat then 4096 * (Z.of_nat i + 1) else NULL.
Definition example_junk (a : Z) : node := mk_node a a a a.
Definition example_tree : ngx_radix_tree_t := mk_tree 1 2 3 4 0.

Lemma radix_tree_correct_witness :
  ∃ ok s, ngx_radix_tree_create 4096 example_page example_junk 2 (mk_store ∅ example_tree) = Some (ok, s) ∧
    if ok : bool then ∀ ops, simulates 4096 example_page example_junk ops ∅ s else ∃ i, example_page i = NULL.
Proof.
  apply (radix_tree_correct 4096 example_page example_junk); unfold example_page.
  - lia.
  - intros i. case_match; lia.
  - intros i j Hij. repeat case_match; lia.
  - lia.
Defined.

(** 10/8 and 10.1/16, and a search after each change. *)
Example radix_run :
  (λ r, r.1) <$> (ngx_radix_tree_create 4096 example_page example_junk 0 ≫= (λ _,
    mapM (run_op 4096 example_page example_junk)
      [Insert 0x0A000000 0xFF000000 1; Insert 0x0A010000 0xFFFF0000 2; Insert 0x0A010000 0xFFFF0000 3;
       Find 0x0A010203; Delete 0x0A010000 0xFFFF0000; Find 0x0A010203; Find 0x0B010203]))
    (mk_store ∅ example_tree) =
  Some [NGX_OK; NGX_OK; NGX_BUSY; 2; NGX_OK; 1; NGX_RADIX_NO_VALUE].
Proof. vm_compute. done. Qed.

(** The deletion of the empty prefix from a tree that holds nothing else reads
    the parent of the root. *)
Example radix_delete_root :
  (ngx_radix_tree_create 4096 example_page example_junk 0 ≫= (λ _,
    mapM (run_op 4096 example_page example_junk) [Insert 0 0 7; Delete 0 0])) (mk_store ∅ example_tree) = None.
Proof. vm_compute. done. Qed.

(** A prefix that was only preallocated is deleted with success. *)
Example radix_delete_absent :
  (λ r, r.1) <$> (ngx_radix_tree_create 4096 example_page example_junk 1 ≫= (λ _,
    mapM (run_op 4096 example_page example_junk) [Delete 0x80000000 0x80000000; Delete 0x80000000 0x80000000]))
    (mk_store ∅ example_tree) = Some [NGX_OK; NGX_ERROR].
Proof. vm_compute. done. Qed.

(** On amd64 8 bits are preallocated: the size of a page is divided by the size
    of the tree instead of that of a node. *)
Example radix_preallocated : preallocated 4096 (-1) = 8 ∧ 4096 / sizeof_node = 128.
Proof. done. Qed.
End RadixProof.
