(* ===== verification/Rbtree.v ===== *)
(** * The red-black tree of the core: [ngx_rbtree_t]

    src/core/ngx_rbtree.h and ngx_rbtree.c.  The nodes live in a memory, a map
    from addresses to nodes; the operations read and write it through
    pointers as the code does.  [None] is an access to an address where there
    is no node.  The loops have a fuel of one more than the nodes of the memory;
    the theorems of RbtreeInsert.v and RbtreeDelete.v show that it is enough. *)

From stdpp Require Import gmap sorting relations.
From S2P Require Import Prelude.
Open Scope Z_scope.

Module Rbtree.

(** ** Data *)

(** [ngx_rbtree_node_t]; [data] belongs to the owner of the node and is left
    out. *)
Record node := mk_node {
  key : Z;
  left : Z;
  right : Z;
  parent : Z;
  color : Z;
}.

#[export] Instance eta_node : Eta node := λ n,
  mk_node (key n) (left n) (right n) (parent n) (color n).

Abbreviation NULL := 0.

(** The memory and [tree->root]; [tree->sentinel] and [tree->insert] do not
    change and are parameters. *)
Record store := mk_store { mem : gmap Z node; root : Z }.

(** *** Memory accesses, in a state and error monad *)

Definition M (A : Type) : Type := store → option (A * store).

#[export] Instance M_ret : MRet M := λ A x s, Some (x, s).
#[export] Instance M_bind : MBind M := λ A B f m s,
  match m s with Some (x, s') => f x s' | None => None end.

Definition get {A} (f : node → A) (a : Z) : M A := λ s, n ← mem s !! a; Some (f n, s).
Definition update (f : node → node) (a : Z) : M unit := λ s,
  n ← mem s !! a; Some (tt, mk_store (<[a := f n]> (mem s)) (root s)).
Definition get_root : M Z := λ s, Some (root s, s).
Definition set_root (v : Z) : M unit := λ s, Some (tt, mk_store (mem s) v).
Definition nothing : M unit := mret tt.
Definition stuck {A} : M A := λ _, None.

(** [a @ f] is [a->f], [a @ f := v] the assignment. *)
Notation "a @ f" := (get f a) (at level 20, f at next level, no associativity).
Notation "a @ f := v" := (update (set_field f (λ _, v)) a)
  (at level 20, f at next level, v at level 70, no associativity).

(** *** The macros of ngx_rbtree.h *)

Definition ngx_rbt_red (node : Z) : M unit := node @ color := 1.
Definition ngx_rbt_black (node : Z) : M unit := node @ color := 0.
Definition ngx_rbt_is_red (node : Z) : M bool := c ← node @ color; mret (negb (c =? 0)).
Definition ngx_rbt_is_black (node : Z) : M bool := r ← ngx_rbt_is_red node; mret (negb r).
Definition ngx_rbt_copy_color (n1 n2 : Z) : M unit := c ← n2 @ color; n1 @ color := c.

Section Tree.
Context (sentinel : Z).

(** [ngx_rbtree_init]: the sentinel is black, the rest of it is not
    initialised. *)
Definition ngx_rbtree_init : M unit := ngx_rbt_black sentinel;; set_root sentinel.

Fixpoint min_loop (fuel : nat) (node : Z) : M Z :=
  match fuel with
  | O => stuck
  | S fuel =>
      l ← node @ left;
      if l =? sentinel then mret node else node ← node @ left; min_loop fuel node
  end.

Definition fuel_of (s : store) : nat := S (size (mem s)).

Definition ngx_rbtree_min (node : Z) : M Z := λ s, min_loop (fuel_of s) node s.

(** ** Rotations *)

Definition ngx_rbtree_left_rotate (node : Z) : M unit :=
  temp ← node @ right;
  tl ← temp @ left;
  node @ right := tl;;
  tl ← temp @ left;
  (if tl =? sentinel then nothing else tl @ parent := node);;
  np ← node @ parent;
  temp @ parent := np;;
  r ← get_root;
  (if node =? r then set_root temp
   else
     np ← node @ parent;
     npl ← np @ left;
     if node =? npl then np @ left := temp else np @ right := temp);;
  temp @ left := node;;
  node @ parent := temp.

Definition ngx_rbtree_right_rotate (node : Z) : M unit :=
  temp ← node @ left;
  tr ← temp @ right;
  node @ left := tr;;
  tr ← temp @ right;
  (if tr =? sentinel then nothing else tr @ parent := node);;
  np ← node @ parent;
  temp @ parent := np;;
  r ← get_root;
  (if node =? r then set_root temp
   else
     np ← node @ parent;
     npr ← np @ right;
     if node =? npr then np @ right := temp else np @ left := temp);;
  temp @ right := node;;
  node @ parent := temp.

(** ** Insertion *)

(** The loop of [ngx_rbtree_insert_value] and [ngx_rbtree_insert_timer_value];
    [before node_key temp_key] is the comparison that goes left. *)
Fixpoint walk (before : Z → Z → bool) (fuel : nat) (temp node : Z) : M (Z * bool) :=
  match fuel with
  | O => stuck
  | S fuel =>
      nk ← node @ key;
      tk ← temp @ key;
      let go_left := before nk tk in
      p ← (if go_left then temp @ left else temp @ right);
      if p =? sentinel then mret (temp, go_left) else walk before fuel p node
  end.

(** The assignments after it. *)
Definition attach (temp : Z) (go_left : bool) (node : Z) : M unit :=
  (if go_left then temp @ left := node else temp @ right := node);;
  node @ parent := temp;;
  node @ left := sentinel;;
  node @ right := sentinel;;
  ngx_rbt_red node.

Definition insert_by (before : Z → Z → bool) (temp node : Z) : M unit := λ s,
  ('(temp, go_left) ← walk before (fuel_of s) temp node; attach temp go_left node) s.

Definition value_before (node_key temp_key : Z) : bool := node_key <? temp_key.
Definition timer_before (node_key temp_key : Z) : bool := s64 (u64 (node_key - temp_key)) <? 0.

Definition ngx_rbtree_insert_value : Z → Z → M unit := insert_by value_before.
Definition ngx_rbtree_insert_timer_value : Z → Z → M unit := insert_by timer_before.

(** [node->parent->parent] *)
Definition grandparent (node : Z) : M Z := p ← node @ parent; p @ parent.

(** One turn of the loop that re-balances, for [node->parent] on the left of
    its parent and for it on the right; the result is the new [node]. *)
Definition insert_left (node : Z) : M Z :=
  g ← grandparent node;
  temp ← g @ right;
  red ← ngx_rbt_is_red temp;
  if (red : bool) then
    p ← node @ parent;
    ngx_rbt_black p;;
    ngx_rbt_black temp;;
    g ← grandparent node;
    ngx_rbt_red g;;
    grandparent node
  else
    p ← node @ parent;
    pr ← p @ right;
    node ← (if node =? pr then
              node ← node @ parent;
              ngx_rbtree_left_rotate node;;
              mret node
            else mret node);
    p ← node @ parent;
    ngx_rbt_black p;;
    g ← grandparent node;
    ngx_rbt_red g;;
    g ← grandparent node;
    ngx_rbtree_right_rotate g;;
    mret node.

Definition insert_right (node : Z) : M Z :=
  g ← grandparent node;
  temp ← g @ left;
  red ← ngx_rbt_is_red temp;
  if (red : bool) then
    p ← node @ parent;
    ngx_rbt_black p;;
    ngx_rbt_black temp;;
    g ← grandparent node;
    ngx_rbt_red g;;
    grandparent node
  else
    p ← node @ parent;
    pl ← p @ left;
    node ← (if node =? pl then
              node ← node @ parent;
              ngx_rbtree_right_rotate node;;
              mret node
            else mret node);
    p ← node @ parent;
    ngx_rbt_black p;;
    g ← grandparent node;
    ngx_rbt_red g;;
    g ← grandparent node;
    ngx_rbtree_left_rotate g;;
    mret node.

Fixpoint insert_loop (fuel : nat) (node : Z) : M unit :=
  match fuel with
  | O => stuck
  | S fuel =>
      r ← get_root;
      if node =? r then nothing
      else
        p ← node @ parent;
        red ← ngx_rbt_is_red p;
        if (red : bool) then
          g ← grandparent node;
          gl ← g @ left;
          node ← (if p =? gl then insert_left node else insert_right node);
          insert_loop fuel node
        else nothing
  end.

(** [insert] is [tree->insert] with the sentinel. *)
Definition ngx_rbtree_insert (insert : Z → Z → M unit) (node : Z) : M unit :=
  r ← get_root;
  if r =? sentinel then
    node @ parent := NULL;;
    node @ left := sentinel;;
    node @ right := sentinel;;
    ngx_rbt_black node;;
    set_root node
  else
    insert r node;;
    (λ s, insert_loop (fuel_of s) node s);;
    r ← get_root;
    ngx_rbt_black r.

(** ** Deletion *)

Definition delete_left (temp : Z) : M Z :=
  p ← temp @ parent;
  w ← p @ right;
  red ← ngx_rbt_is_red w;
  w ← (if (red : bool) then
         ngx_rbt_black w;;
         p ← temp @ parent;
         ngx_rbt_red p;;
         p ← temp @ parent;
         ngx_rbtree_left_rotate p;;
         p ← temp @ parent;
         p @ right
       else mret w);
  wl ← w @ left;
  lblack ← ngx_rbt_is_black wl;
  both ← (if (lblack : bool) then wr ← w @ right; ngx_rbt_is_black wr else mret false);
  if (both : bool) then
    ngx_rbt_red w;;
    temp @ parent
  else
    wr ← w @ right;
    rblack ← ngx_rbt_is_black wr;
    w ← (if (rblack : bool) then
           wl ← w @ left;
           ngx_rbt_black wl;;
           ngx_rbt_red w;;
           ngx_rbtree_right_rotate w;;
           p ← temp @ parent;
           p @ right
         else mret w);
    p ← temp @ parent;
    ngx_rbt_copy_color w p;;
    p ← temp @ parent;
    ngx_rbt_black p;;
    wr ← w @ right;
    ngx_rbt_black wr;;
    p ← temp @ parent;
    ngx_rbtree_left_rotate p;;
    get_root.

Definition delete_right (temp : Z) : M Z :=
  p ← temp @ parent;
  w ← p @ left;
  red ← ngx_rbt_is_red w;
  w ← (if (red : bool) then
         ngx_rbt_black w;;
         p ← temp @ parent;
         ngx_rbt_red p;;
         p ← temp @ parent;
         ngx_rbtree_right_rotate p;;
         p ← temp @ parent;
         p @ left
       else mret w);
  wl ← w @ left;
  lblack ← ngx_rbt_is_black wl;
  both ← (if (lblack : bool) then wr ← w @ right; ngx_rbt_is_black wr else mret false);
  if (both : bool) then
    ngx_rbt_red w;;
    temp @ parent
  else
    wl ← w @ left;
    lblack ← ngx_rbt_is_black wl;
    w ← (if (lblack : bool) then
           wr ← w @ right;
           ngx_rbt_black wr;;
           ngx_rbt_red w;;
           ngx_rbtree_left_rotate w;;
           p ← temp @ parent;
           p @ left
         else mret w);
    p ← temp @ parent;
    ngx_rbt_copy_color w p;;
    p ← temp @ parent;
    ngx_rbt_black p;;
    wl ← w @ left;
    ngx_rbt_black wl;;
    p ← temp @ parent;
    ngx_rbtree_right_rotate p;;
    get_root.

Fixpoint delete_loop (fuel : nat) (temp : Z) : M unit :=
  match fuel with
  | O => stuck
  | S fuel =>
      r ← get_root;
      black ← (if temp =? r then mret false else ngx_rbt_is_black temp);
      if (black : bool) then
        p ← temp @ parent;
        pl ← p @ left;
        temp ← (if temp =? pl then delete_left temp else delete_right temp);
        delete_loop fuel temp
      else ngx_rbt_black temp
  end.

(** [DEBUG stuff] *)
Definition clear (node : Z) : M unit :=
  node @ left := NULL;;
  node @ right := NULL;;
  node @ parent := NULL;;
  node @ key := 0.

(** [temp] and [subst] of the binary tree delete. *)
Definition choose_subst (node : Z) : M (Z * Z) :=
  l ← node @ left;
  if l =? sentinel then temp ← node @ right; mret (temp, node)
  else
    r ← node @ right;
    if r =? sentinel then temp ← node @ left; mret (temp, node)
    else
      r ← node @ right;
      subst ← ngx_rbtree_min r;
      sl ← subst @ left;
      temp ← (if sl =? sentinel then subst @ right else subst @ left);
      mret (temp, subst).

(** [subst] takes the place of [node]. *)
Definition replace_node (node subst : Z) : M unit :=
  nl ← node @ left;
  subst @ left := nl;;
  nr ← node @ right;
  subst @ right := nr;;
  np ← node @ parent;
  subst @ parent := np;;
  ngx_rbt_copy_color subst node;;
  r ← get_root;
  (if node =? r then set_root subst
   else
     np ← node @ parent;
     npl ← np @ left;
     if node =? npl then np @ left := subst else np @ right := subst);;
  sl ← subst @ left;
  (if sl =? sentinel then nothing else sl @ parent := subst);;
  sr ← subst @ right;
  (if sr =? sentinel then nothing else sr @ parent := subst).

Definition ngx_rbtree_delete (node : Z) : M unit :=
  '(temp, subst) ← choose_subst node;
  r ← get_root;
  if subst =? r then
    set_root temp;;
    ngx_rbt_black temp;;
    clear node
  else
    red ← ngx_rbt_is_red subst;
    sp ← subst @ parent;
    spl ← sp @ left;
    (if subst =? spl then sp @ left := temp else sp @ right := temp);;
    (if subst =? node then
       sp ← subst @ parent;
       temp @ parent := sp
     else
       sp ← subst @ parent;
       (if sp =? node then temp @ parent := subst
        else
          sp ← subst @ parent;
          temp @ parent := sp);;
       replace_node node subst);;
    clear node;;
    if (red : bool) then nothing
    else λ s, delete_loop (fuel_of s) temp s.

End Tree.

End Rbtree.
