(* ===== verification/RbtreeRep.v ===== *)
(** * Trees in the memory of the red-black tree

    The trees with their contexts, the predicate that a memory holds a tree, and
    the rules by which the memory accesses and the rotations of Rbtree.v act on
    it. *)

From stdpp Require Import gmap sorting relations.
From S2P Require Import Prelude Rbtree.
Import Rbtree.Rbtree.
Open Scope Z_scope.

Module RbtreeRep.

(** ** The trees the memory represents

    A tree of nodes with their colours ([true] is red), addresses and keys; a
    context is the path from a place in a tree up to its root. *)

Inductive dir := DL | DR.
Definition opp (d : dir) : dir := match d with DL => DR | DR => DL end.

Inductive tree := Leaf | Node (c : bool) (l : tree) (a k : Z) (r : tree).

(** The node whose subtree in direction [d] is [x] and whose other is [y]. *)
Definition mk (d : dir) (c : bool) (x : tree) (a k : Z) (y : tree) : tree :=
  match d with DL => Node c x a k y | DR => Node c y a k x end.

(** A frame is a node without its subtree in direction [d]. *)
Record frame := Frame { fdir : dir; fred : bool; faddr : Z; fkey : Z; fsib : tree }.

Definition fill (f : frame) (x : tree) : tree := mk (fdir f) (fred f) x (faddr f) (fkey f) (fsib f).
Fixpoint plug (C : list frame) (x : tree) : tree :=
  match C with [] => x | f :: C => plug C (fill f x) end.

Fixpoint elements (t : tree) : list (Z * Z) :=
  match t with Leaf => [] | Node _ l a k r => elements l ++ (a, k) :: elements r end.
Definition addrs (t : tree) : list Z := (elements t).*1.

(** What stands before and after the hole of a context, in order. *)
Fixpoint before_hole (C : list frame) : list (Z * Z) :=
  match C with
  | [] => []
  | f :: C =>
      before_hole C ++
      match fdir f with DL => [] | DR => elements (fsib f) ++ [(faddr f, fkey f)] end
  end.
Fixpoint after_hole (C : list frame) : list (Z * Z) :=
  match C with
  | [] => []
  | f :: C =>
      match fdir f with DL => (faddr f, fkey f) :: elements (fsib f) | DR => [] end
      ++ after_hole C
  end.

Fixpoint ctx_addrs (C : list frame) : list Z :=
  match C with [] => [] | f :: C => faddr f :: addrs (fsib f) ++ ctx_addrs C end.

Lemma elements_mk d c x a k y :
  elements (mk d c x a k y) =
  match d with DL => elements x ++ (a, k) :: elements y | DR => elements y ++ (a, k) :: elements x end.
Proof. by destruct d. Qed.

Lemma elements_plug C : ∀ x, elements (plug C x) = before_hole C ++ elements x ++ after_hole C.
Proof.
  induction C as [|f C IH]; intros x; cbn; [by rewrite app_nil_r|].
  rewrite IH. unfold fill. rewrite elements_mk. destruct (fdir f); cbn; by rewrite <- ?app_assoc.
Qed.

Lemma addrs_mk d c x a k y : addrs (mk d c x a k y) ≡ₚ a :: addrs x ++ addrs y.
Proof.
  unfold addrs. rewrite elements_mk. destruct d; rewrite fmap_app; cbn.
  - symmetry. apply Permutation_middle.
  - rewrite <- Permutation_middle. by rewrite (Permutation_app_comm (elements y).*1).
Qed.

Lemma addrs_plug C : ∀ x, addrs (plug C x) ≡ₚ addrs x ++ ctx_addrs C.
Proof.
  induction C as [|f C IH]; intros x; cbn [plug ctx_addrs]; [by rewrite app_nil_r|].
  rewrite IH. unfold fill. rewrite addrs_mk. cbn [app]. rewrite <- app_assoc. apply Permutation_middle.
Qed.

Lemma plug_app C D : ∀ x, plug (D ++ C) x = plug C (plug D x).
Proof. induction D as [|f D IH]; intros x; cbn; [done|apply IH]. Qed.

Lemma mk_opp d c x a k y : mk (opp d) c x a k y = mk d c y a k x.
Proof. by destruct d. Qed.

Definition is_red (t : tree) : bool := match t with Leaf => false | Node c _ _ _ _ => c end.

Definition blacken (t : tree) : tree :=
  match t with Leaf => Leaf | Node _ l a k r => Node false l a k r end.

Lemma elements_blacken t : elements (blacken t) = elements t.
Proof. by destruct t. Qed.

(** Two trees with the same nodes in the same order. *)
Ltac elements_eq :=
  cbn [plug]; unfold fill; cbn [fdir fred faddr fkey fsib];
  rewrite ?elements_plug, ?elements_mk; f_equal;
  repeat match goal with d : dir |- _ => destruct d end; cbn [opp];
  rewrite ?elements_mk, ?elements_blacken; cbn [elements opp]; repeat (progress (rewrite <- ?app_assoc; cbn [app]));
  reflexivity.

(** *** Representation in the memory *)

Definition opposite_of (d : dir) (n : node) : Z := match d with DL => right n | DR => left n end.

Section Rep.
Context (sentinel : Z).

Definition ptr (t : tree) : Z := match t with Leaf => sentinel | Node _ _ a _ _ => a end.

(** The contents of a node with [x] in direction [d]. *)
Definition cell (d : dir) (k x y par : Z) (c : bool) : node :=
  match d with
  | DL => mk_node k x y par (Z.b2z c)
  | DR => mk_node k y x par (Z.b2z c)
  end.

Fixpoint rep (h : gmap Z node) (par : Z) (t : tree) : Prop :=
  match t with
  | Leaf => True
  | Node c l a k r => h !! a = Some (cell DL k (ptr l) (ptr r) par c) ∧ rep h a l ∧ rep h a r
  end.

(** The address of the node above the hole; [gp] above the root. *)
Definition above (gp : Z) (C : list frame) : Z := match C with [] => gp | f :: _ => faddr f end.

(** The context is in the memory, with the pointer [p] in its hole. *)
Fixpoint ctx_rep (h : gmap Z node) (gp p : Z) (C : list frame) : Prop :=
  match C with
  | [] => True
  | f :: C =>
      h !! faddr f = Some (cell (fdir f) (fkey f) p (ptr (fsib f)) (above gp C) (fred f)) ∧
      rep h (faddr f) (fsib f) ∧ ctx_rep h gp (faddr f) C
  end.

Fixpoint top (p : Z) (C : list frame) : Z :=
  match C with [] => p | f :: C => top (faddr f) C end.

Lemma rep_mk h par d c x a k y :
  rep h par (mk d c x a k y) ↔
  h !! a = Some (cell d k (ptr x) (ptr y) par c) ∧ rep h a x ∧ rep h a y.
Proof. destruct d; cbn; tauto. Qed.

Lemma ptr_mk d c x a k y : ptr (mk d c x a k y) = a.
Proof. by destruct d. Qed.

Lemma rep_plug h gp C : ∀ x,
  rep h gp (plug C x) ↔ ctx_rep h gp (ptr x) C ∧ rep h (above gp C) x.
Proof.
  induction C as [|f C IH]; intros x; cbn; [tauto|].
  rewrite IH. unfold fill. rewrite rep_mk, ptr_mk. tauto.
Qed.

Lemma ptr_plug C : ∀ x, ptr (plug C x) = top (ptr x) C.
Proof. induction C as [|f C IH]; intros x; cbn; [done|]. by rewrite IH; unfold fill; rewrite ptr_mk. Qed.

(** A change elsewhere leaves the representation. *)
Lemma rep_frame h h' t : ∀ par,
  (∀ a, a ∈ addrs t → h' !! a = h !! a) → rep h par t → rep h' par t.
Proof.
  induction t as [|c l IHl a k r IHr]; intros par Hh; [done|].
  unfold addrs in *. cbn in *. rewrite fmap_app in Hh. cbn in Hh. intros (Ha & Hl & Hr).
  split; [rewrite Hh; [done|set_solver]|].
  split; [apply IHl|apply IHr]; try done; intros b Hb; apply Hh; set_solver.
Qed.

Lemma ctx_frame h h' gp C : ∀ p,
  (∀ a, a ∈ ctx_addrs C → h' !! a = h !! a) → ctx_rep h gp p C → ctx_rep h' gp p C.
Proof.
  induction C as [|f C IH]; intros p Hh; [done|]. cbn in *. intros (Ha & Hs & HC).
  split; [rewrite Hh; [done|set_solver]|]. split.
  - eapply rep_frame; [|done]. intros b Hb. apply Hh. set_solver.
  - apply IH; [|done]. intros b Hb. apply Hh. set_solver.
Qed.

(** The memory holds the tree [T] at the root, and the cell [sn] as its
    black sentinel; since the memory [s0] only the cells at [A] were
    changed. *)
Record repr (s0 : store) (A : list Z) (sn : node) (s : store) (T : tree) : Prop := {
  repr_rep : ∃ gp, rep (mem s) gp T;
  repr_root : root s = ptr T;
  repr_nodup : NoDup (sentinel :: addrs T);
  repr_sentinel : mem s !! sentinel = Some sn;
  repr_black : color sn = 0;
  repr_within : ∀ a, a ∈ addrs T → a ∈ A;
  repr_only : ∀ a, a ∉ A → mem s !! a = mem s0 !! a;
}.
End Rep.

(** ** Rules for the memory accesses

    [wp m s Q]: started in [s], [m] succeeds, and its result and the store
    after it satisfy [Q]. *)
Definition wp {A} (m : M A) (s : store) (Q : A → store → Prop) : Prop :=
  ∃ v s', m s = Some (v, s') ∧ Q v s'.

Lemma wp_bind {A B} (m : M A) (f : A → M B) s Q :
  wp m s (λ v s', wp (f v) s' Q) → wp (m ≫= f) s Q.
Proof.
  intros (v & s' & Hm & v' & s'' & Hf & HQ). exists v', s''. split; [|done].
  unfold mbind, M_bind. by rewrite Hm.
Qed.

Lemma wp_ret {A} (v : A) s (Q : A → store → Prop) : Q v s → wp (mret v) s Q.
Proof. intros. by exists v, s. Qed.

Lemma wp_nothing s (Q : unit → store → Prop) : Q tt s → wp nothing s Q.
Proof. apply wp_ret. Qed.

Lemma wp_mono {A} (m : M A) s (Q Q' : A → store → Prop) :
  wp m s Q → (∀ v s', Q v s' → Q' v s') → wp m s Q'.
Proof. intros (v & s' & Hm & HQ) Himp. exists v, s'. auto. Qed.

Lemma wp_get {A} (f : node → A) a s n Q : mem s !! a = Some n → Q (f n) s → wp (a @ f) s Q.
Proof. intros Ha HQ. exists (f n), s. unfold get. by rewrite Ha. Qed.

Lemma wp_update f a s n Q :
  mem s !! a = Some n → Q tt (mk_store (<[a := f n]> (mem s)) (root s)) → wp (update f a) s Q.
Proof. intros Ha HQ. eexists tt, _. unfold update. rewrite Ha. done. Qed.

Lemma wp_root s (Q : Z → store → Prop) : Q (root s) s → wp get_root s Q.
Proof. intros. by exists (root s), s. Qed.

Lemma wp_set_root v s (Q : unit → store → Prop) : Q tt (mk_store (mem s) v) → wp (set_root v) s Q.
Proof. intros. by eexists tt, _. Qed.

Lemma wp_is_red a s n Q :
  mem s !! a = Some n → Q (negb (color n =? 0)) s → wp (ngx_rbt_is_red a) s Q.
Proof. intros Ha HQ. apply wp_bind, (wp_get _ _ _ _ _ Ha), wp_ret, HQ. Qed.

Definition child (d : dir) : node → Z := match d with DL => left | DR => right end.
Definition set_child (d : dir) (v : Z) : node → node :=
  match d with DL => set_field left (λ _, v) | DR => set_field right (λ _, v) end.

Lemma child_cell sen d d' k x y par c :
  child d (cell d' k (ptr sen x) (ptr sen y) par c) = ptr sen (match d, d' with DL, DL | DR, DR => x | _, _ => y end).
Proof. by destruct d, d'. Qed.

(** *** The two mirrored rotations as one

    [rotate DL] is the left rotation, [rotate DR] the right one. *)
Section Ops.
Context (sentinel : Z).

Definition relink (d : dir) (node temp : Z) : M unit :=
  r ← get_root;
  if node =? r then set_root temp
  else
    np ← node @ parent;
    npc ← np @ child d;
    if node =? npc then update (set_child d temp) np else update (set_child (opp d) temp) np.

Definition reparent (p v : Z) : M unit :=
  if p =? sentinel then nothing else p @ parent := v.

Definition rotate (d : dir) (node : Z) : M unit :=
  temp ← node @ child (opp d);
  tc ← temp @ child d;
  update (set_child (opp d) tc) node;;
  tc ← temp @ child d;
  reparent tc node;;
  np ← node @ parent;
  temp @ parent := np;;
  relink d node temp;;
  update (set_child d node) temp;;
  node @ parent := temp.

Lemma rotate_left : ngx_rbtree_left_rotate sentinel = rotate DL.
Proof. reflexivity. Qed.
Lemma rotate_right : ngx_rbtree_right_rotate sentinel = rotate DR.
Proof. reflexivity. Qed.

Lemma top_in C : ∀ p, C ≠ [] → top p C ∈ ctx_addrs C.
Proof.
  induction C as [|f C IH]; intros p Hne; [done|]. cbn. destruct C; [set_solver|].
  right. apply elem_of_app. right. by apply IH.
Qed.

Lemma top_notin C a p : a ∉ ctx_addrs C → a ≠ p → a ≠ top p C.
Proof. intros Ha Hp ->. destruct C; [done|]. by apply Ha, top_in. Qed.

Lemma ptr_in t : t = Leaf ∨ ptr sentinel t ∈ addrs t.
Proof.
  destruct t as [|c l a k r]; [by left|right]. unfold addrs. cbn. rewrite fmap_app.
  apply elem_of_app. right. left.
Qed.

Lemma ptr_notin t a : a ≠ sentinel → a ∉ addrs t → a ≠ ptr sentinel t.
Proof. intros Hs Ha ->. by destruct (ptr_in t) as [->|]. Qed.

(** [node]'s place in its parent, or the root, is given to [temp]. *)
Lemma wp_relink d a b C gp s n Q :
  mem s !! a = Some n → parent n = above gp C →
  ctx_rep sentinel (mem s) gp a C → root s = top a C →
  a ≠ sentinel → a ∉ ctx_addrs C → NoDup (ctx_addrs C) →
  (∀ s', ctx_rep sentinel (mem s') gp b C → root s' = top b C →
         (∀ e, e ∉ ctx_addrs C → mem s' !! e = mem s !! e) → Q tt s') →
  wp (relink d a b) s Q.
Proof.
  intros Ha Hp HC Hr Hs Hn Hd HQ. apply wp_bind, wp_root. destruct C as [|f C].
  { cbn in Hr. rewrite Hr, Z.eqb_refl. apply wp_set_root, HQ; done. }
  cbn [ctx_rep above ctx_addrs] in *. destruct HC as (Hf & Hsib & HC).
  destruct (Z.eqb_spec a (root s)) as [E|_].
  { rewrite Hr in E. cbn in E. exfalso. revert E. apply top_notin; set_solver. }
  assert (Hnew : wp (update (set_child (fdir f) b) (faddr f)) s Q).
  { apply (wp_update _ _ _ _ _ Hf), HQ; cbn [mem root ctx_rep above].
    - split; [rewrite lookup_insert_eq; by destruct (fdir f)|].
      apply list.NoDup_cons in Hd as [Hd1 Hd2]. split.
      + eapply rep_frame; [|done]. intros e He. rewrite lookup_insert_ne; [done|].
        intros <-. apply Hd1. set_solver.
      + eapply ctx_frame; [|done]. intros e He. rewrite lookup_insert_ne; [done|].
        intros <-. apply Hd1. set_solver.
    - by rewrite Hr.
    - intros e He. rewrite lookup_insert_ne; [done|]. set_solver. }
  apply wp_bind, (wp_get _ _ _ _ _ Ha). rewrite Hp. apply wp_bind, (wp_get _ _ _ _ _ Hf).
  assert (a ≠ ptr sentinel (fsib f)) by (apply ptr_notin; set_solver).
  destruct d, (fdir f); cbn [child cell left right opp].
  all: first [rewrite Z.eqb_refl | rewrite (proj2 (Z.eqb_neq _ _)) by done].
  all: exact Hnew.
Qed.

(** [p], the root of a subtree or the sentinel, gets the parent [v]. *)
Lemma wp_reparent y q v s Q :
  rep sentinel (mem s) q y → NoDup (sentinel :: addrs y) →
  (∀ s', rep sentinel (mem s') v y → root s' = root s →
         (∀ e, e ∉ addrs y → mem s' !! e = mem s !! e) → Q tt s') →
  wp (reparent (ptr sentinel y) v) s Q.
Proof.
  unfold reparent. destruct y as [|c l a k r]; cbn [ptr]; intros Hy Hd HQ.
  { rewrite Z.eqb_refl. by apply wp_nothing, HQ. }
  unfold addrs in Hd. cbn in Hd. rewrite fmap_app in Hd. cbn in Hd.
  rewrite <- Permutation_middle in Hd.
  apply list.NoDup_cons in Hd as [Hs Hd]. apply list.NoDup_cons in Hd as [Ha Hd].
  replace (a =? sentinel) with false by (symmetry; apply Z.eqb_neq; set_solver).
  destruct Hy as (Hc & Hl & Hr). apply (wp_update _ _ _ _ _ Hc), HQ; cbn [mem root].
  - cbn. split; [by rewrite lookup_insert_eq|].
    split; (eapply rep_frame; [|done]); intros e He; rewrite lookup_insert_ne; set_solver.
  - done.
  - intros e He. rewrite lookup_insert_ne; [done|]. intros <-. apply He.
    unfold addrs. cbn. rewrite fmap_app. set_solver.
Qed.
End Ops.

(** [nodup H] takes [H : NoDup _] apart into the distinctness facts it
    states; [distinct] closes goals that follow from one of them. *)
Lemma disjoint_app (x y z : list Z) :
  (∀ e, e ∈ x → e ∉ y ++ z) → (∀ e, e ∈ x → e ∉ y) ∧ (∀ e, e ∈ x → e ∉ z).
Proof. intros H. split; intros e He; specialize (H e He); apply not_elem_of_app in H; tauto. Qed.

Ltac nodup_split H :=
  lazymatch type of H with
  | NoDup (_ :: _) =>
      let H' := fresh H in apply list.NoDup_cons in H; destruct H as [H' H]; nodup_split H
  | NoDup (_ ++ _) =>
      let H1 := fresh H in let H2 := fresh H in
      apply list.NoDup_app in H; destruct H as (H1 & H2 & H); nodup_split H
  | _ => idtac
  end.
Ltac split_notin :=
  repeat match goal with
  | H : _ ∉ _ :: _ |- _ => apply not_elem_of_cons in H as [? ?]
  | H : _ ∉ _ ++ _ |- _ => apply not_elem_of_app in H as [? ?]
  | H : ∀ e, e ∈ _ → e ∉ _ ++ _ |- _ => apply disjoint_app in H as [? ?]
  end.
Ltac nodup H := nodup_split H; split_notin.
Ltac distinct :=
  solve [ assumption | congruence
        | try (let E := fresh in intros E; try subst);
          match goal with
          | H : ?x ≠ ?x |- _ => by destruct (H eq_refl)
          | H : ?e ∈ ?x, H' : ?e ∉ ?x |- _ => exact (H' H)
          | H : ∀ e, e ∈ ?x → e ∉ ?y, H1 : ?e ∈ ?x, H2 : ?e ∈ ?y |- _ => exact (H e H1 H2)
          end ].

(** *** Rules for a whole tree *)
Section Rules.
Context (sentinel : Z) (s0 : store) (A : list Z) (sn : node).
Abbreviation repr := (repr sentinel s0 A sn).
Abbreviation ptr := (ptr sentinel).
Abbreviation rep := (rep sentinel).
Abbreviation ctx_rep := (ctx_rep sentinel).

Lemma repr_cut s C x :
  repr s (plug C x) →
  ∃ gp, ctx_rep (mem s) gp (ptr x) C ∧ rep (mem s) (above gp C) x ∧
        root s = top (ptr x) C ∧ NoDup (sentinel :: addrs x ++ ctx_addrs C).
Proof.
  intros [[gp Hrep] Hroot Hd Hs Hb _ _]. exists gp. apply rep_plug in Hrep as [HC Hx].
  rewrite ptr_plug in Hroot. rewrite addrs_plug in Hd. done.
Qed.

Lemma repr_join s s' C x x' gp :
  repr s (plug C x) → addrs x' ≡ₚ addrs x →
  ctx_rep (mem s') gp (ptr x') C → rep (mem s') (above gp C) x' → root s' = top (ptr x') C →
  (∀ e, e ∉ addrs x → e ∉ ctx_addrs C → mem s' !! e = mem s !! e) →
  repr s' (plug C x').
Proof.
  intros [_ Hroot Hd Hs Hb Hw Ho] Hperm HC Hx Hr Hf. rewrite addrs_plug in Hd.
  apply list.NoDup_cons in Hd as [Hd1 Hd2].
  split.
  - exists gp. by apply rep_plug.
  - by rewrite ptr_plug.
  - rewrite addrs_plug, Hperm. by constructor.
  - rewrite Hf; [done|set_solver..].
  - done.
  - intros a Ha. apply Hw. rewrite addrs_plug in *. rewrite Hperm in Ha. done.
  - intros a Ha. rewrite <- Ho by done.
    assert (a ∉ addrs (plug C x)) as Hn by (intros Hin; by apply Ha, Hw).
    rewrite addrs_plug in Hn. apply Hf; set_solver.
Qed.

(** The distinctness facts of a node [mk d c x a k y] in a context. *)
Lemma nodup_mk d c x a k y B :
  NoDup (sentinel :: addrs (mk d c x a k y) ++ B) →
  a ≠ sentinel ∧ NoDup (a :: sentinel :: addrs x ++ addrs y ++ B).
Proof.
  intros H. rewrite addrs_mk in H. cbn in H. rewrite <- app_assoc in H.
  rewrite perm_swap in H. split; [|done]. apply list.NoDup_cons in H as [H _]. set_solver.
Qed.

Lemma repr_cell s C d c x a k y :
  repr s (plug C (mk d c x a k y)) →
  ∃ gp, mem s !! a = Some (cell d k (ptr x) (ptr y) (above gp C) c).
Proof.
  intros (gp & _ & Hx & _ & _)%repr_cut. exists gp. by apply rep_mk in Hx as [? _].
Qed.

Lemma wp_child s C d c x a k y Q :
  repr s (plug C (mk d c x a k y)) → Q (ptr x) s → wp (a @ child d) s Q.
Proof. intros [gp H]%repr_cell HQ. apply (wp_get _ _ _ _ _ H). by destruct d. Qed.

Lemma wp_child_opp s C d c x a k y Q :
  repr s (plug C (mk d c x a k y)) → Q (ptr y) s → wp (a @ child (opp d)) s Q.
Proof. intros [gp H]%repr_cell HQ. apply (wp_get _ _ _ _ _ H). by destruct d. Qed.

Lemma wp_key s C d c x a k y Q :
  repr s (plug C (mk d c x a k y)) → Q k s → wp (a @ key) s Q.
Proof. intros [gp H]%repr_cell HQ. apply (wp_get _ _ _ _ _ H). by destruct d. Qed.

Lemma wp_parent s f C d c x a k y Q :
  repr s (plug (f :: C) (mk d c x a k y)) → Q (faddr f) s → wp (a @ parent) s Q.
Proof. intros [gp H]%repr_cell HQ. apply (wp_get _ _ _ _ _ H). by destruct d. Qed.

Lemma is_red_mk d c x a k y : is_red (mk d c x a k y) = c.
Proof. by destruct d. Qed.

Lemma color_b2z c : negb (Z.b2z c =? 0) = c.
Proof. by destruct c. Qed.

Lemma wp_red s C x (Q : bool → store → Prop) :
  repr s (plug C x) → Q (is_red x) s → wp (ngx_rbt_is_red (ptr x)) s Q.
Proof.
  intros H HQ. destruct x as [|c l a k r].
  - apply (wp_is_red _ _ _ _ (repr_sentinel _ _ _ _ _ _ H)).
    rewrite (repr_black _ _ _ _ _ _ H). done.
  - destruct (repr_cell s C DL c l a k r H) as [gp Hc].
    apply (wp_is_red _ _ _ _ Hc). cbn [color cell]. rewrite color_b2z. exact HQ.
Qed.

Lemma wp_black s C x (Q : bool → store → Prop) :
  repr s (plug C x) → Q (negb (is_red x)) s → wp (ngx_rbt_is_black (ptr x)) s Q.
Proof. intros H HQ. eapply wp_bind, wp_red; [exact H|]. by apply wp_ret. Qed.

Lemma wp_color s C d c x a k y (v : Z) Q :
  repr s (plug C (mk d c x a k y)) → (v = 0 ∨ v = 1) →
  (∀ s', repr s' (plug C (mk d (v =? 1) x a k y)) → Q tt s') →
  wp (a @ color := v) s Q.
Proof.
  intros H Hv HQ. pose proof H as (gp & HC & Hx & Hr & Hd)%repr_cut.
  apply nodup_mk in Hd as [Ha Hd]. apply list.NoDup_cons in Hd as [Hn Hd].
  apply rep_mk in Hx as (Hc & Hx & Hy). apply (wp_update _ _ _ _ _ Hc), HQ.
  eapply (repr_join s _ C _ _ gp H); cbn [mem root].
  - by rewrite !addrs_mk.
  - rewrite ptr_mk in *. eapply ctx_frame; [|exact HC].
    intros e He. rewrite lookup_insert_ne; [done|]. set_solver.
  - apply rep_mk. rewrite lookup_insert_eq. split.
    { by destruct d, Hv as [-> | ->]. }
    split; (eapply rep_frame; [|done]); intros e He; rewrite lookup_insert_ne; set_solver.
  - by rewrite ptr_mk in *.
  - intros e He _. rewrite addrs_mk in He. rewrite lookup_insert_ne; [done|]. set_solver.
Qed.

Lemma wp_blacken s C x (Q : unit → store → Prop) :
  repr s (plug C x) → (∀ s', repr s' (plug C (blacken x)) → Q tt s') →
  wp (ngx_rbt_black (ptr x)) s Q.
Proof.
  intros H HQ. destruct x as [|c l a k r].
  - cbn [blacken] in HQ. apply (wp_update _ _ _ _ _ (repr_sentinel _ _ _ _ _ _ H)), HQ.
    replace (set_field color (λ _, 0) sn) with sn.
    + destruct s as [m rt]. cbn. rewrite insert_id; [done|]. apply H.
    + pose proof (repr_black _ _ _ _ _ _ H). destruct sn. cbn in *. by subst.
  - apply (wp_color s C DL c l a k r 0 _ H); [by left|]. exact HQ.
Qed.

Lemma wp_rotate s C d c x a k c2 y b k2 z Q :
  repr s (plug C (mk d c x a k (mk d c2 y b k2 z))) →
  (∀ s', repr s' (plug C (mk d c2 (mk d c x a k y) b k2 z)) → Q tt s') →
  wp (rotate sentinel d a) s Q.
Proof.
  intros H HQ. pose proof H as (gp & HC & Hx & Hr & Hd)%repr_cut.
  rewrite ptr_mk in HC, Hr. apply rep_mk in Hx as (Ha & Hx & Hyz).
  apply rep_mk in Hyz as (Hb & Hy & Hz). rewrite ptr_mk in Ha.
  assert (Hd' : NoDup (a :: b :: sentinel :: addrs x ++ addrs y ++ addrs z ++ ctx_addrs C)).
  { revert Hd. apply NoDup_Permutation_proper. rewrite addrs_mk, addrs_mk. solve_Permutation. }
  clear Hd. nodup Hd'.
  eapply wp_bind, (wp_get _ _ _ _ _ Ha).
  replace (child (opp d) _) with b by by destruct d.
  eapply wp_bind, (wp_get _ _ _ _ _ Hb).
  replace (child d _) with (ptr y) by by destruct d.
  eapply wp_bind, (wp_update _ _ _ _ _ Ha).
  set (s1 := mk_store _ _).
  assert (Hb1 : mem s1 !! b = Some (cell d k2 (ptr y) (ptr z) a c2)).
  { subst s1. cbn [mem]. rewrite lookup_insert_ne; [done|distinct]. }
  assert (Ha1 : mem s1 !! a = Some (cell d k (ptr x) (ptr y) (above gp C) c)).
  { subst s1. cbn [mem]. rewrite lookup_insert_eq. by destruct d. }
  assert (Hs1 : ∀ e, e ≠ a → mem s1 !! e = mem s !! e).
  { intros e He. subst s1. cbn [mem]. by rewrite lookup_insert_ne. }
  assert (Hr1 : root s1 = root s) by done. clearbody s1.
  eapply wp_bind, (wp_get _ _ _ _ _ Hb1).
  replace (child d _) with (ptr y) by by destruct d.
  eapply wp_bind, (wp_reparent sentinel y b).
  { eapply rep_frame; [|done]. intros e He. apply Hs1. distinct. }
  { constructor; [distinct|]; assumption. }
  intros s2 Hy2 Hr2 Hs2.
  eapply wp_bind, wp_get; [rewrite Hs2 by distinct; exact Ha1|].
  replace (parent _) with (above gp C) by by destruct d.
  eapply wp_bind, wp_update; [rewrite Hs2 by distinct; exact Hb1|].
  set (s3 := mk_store _ _).
  assert (Hb3 : mem s3 !! b = Some (cell d k2 (ptr y) (ptr z) (above gp C) c2)).
  { subst s3. cbn [mem]. rewrite lookup_insert_eq. by destruct d. }
  assert (Hs3 : ∀ e, e ≠ b → mem s3 !! e = mem s2 !! e).
  { intros e He. subst s3. cbn [mem]. by rewrite lookup_insert_ne. }
  assert (Hr3 : root s3 = root s2) by done. clearbody s3.
  eapply wp_bind, (wp_relink sentinel d a b C gp).
  { rewrite Hs3, Hs2 by distinct. exact Ha1. }
  { by destruct d. }
  { eapply ctx_frame; [|exact HC]. intros e He. rewrite Hs3, Hs2, Hs1 by distinct. done. }
  { congruence. }
  1-3: distinct.
  intros s4 HC4 Hr4 Hs4.
  eapply wp_bind, wp_update; [rewrite Hs4 by distinct; exact Hb3|].
  eapply wp_update; [cbn [mem]; rewrite lookup_insert_ne, Hs4, Hs3, Hs2 by distinct; exact Ha1|].
  cbn [mem root]. set (s5 := mk_store _ _).
  assert (Hs5 : ∀ e, e ≠ a → e ≠ b → mem s5 !! e = mem s4 !! e).
  { intros e He He'. subst s5. cbn [mem]. by rewrite !lookup_insert_ne. }
  assert (Hb5 : mem s5 !! b = Some (cell d k2 a (ptr z) (above gp C) c2)).
  { subst s5. cbn [mem]. rewrite lookup_insert_ne, lookup_insert_eq by distinct. by destruct d. }
  assert (Ha5 : mem s5 !! a = Some (cell d k (ptr x) (ptr y) b c)).
  { subst s5. cbn [mem]. rewrite lookup_insert_eq. by destruct d. }
  assert (Hr5 : root s5 = root s4) by done. clearbody s5.
  apply HQ. eapply (repr_join s _ C _ _ gp H).
  - rewrite !addrs_mk. solve_Permutation.
  - rewrite ptr_mk. eapply ctx_frame; [|exact HC4]. intros e He. apply Hs5; distinct.
  - apply rep_mk. rewrite ptr_mk. split; [done|]. split.
    + apply rep_mk. split; [done|]. split.
      * eapply rep_frame; [|exact Hx]. intros e He. rewrite Hs5, Hs4, Hs3, Hs2, Hs1; distinct.
      * eapply rep_frame; [|exact Hy2]. intros e He. rewrite Hs5, Hs4, Hs3; distinct.
    + eapply rep_frame; [|exact Hz]. intros e He. rewrite Hs5, Hs4, Hs3, Hs2, Hs1; distinct.
  - rewrite ptr_mk. congruence.
  - intros e He HeC. rewrite addrs_mk, addrs_mk in He. split_notin.
    rewrite Hs5, Hs4, Hs3, Hs2, Hs1; distinct.
Qed.
End Rules.

End RbtreeRep.
