(* ===== verification/RbtreeInsert.v ===== *)
(** * Insertion into the red-black tree

    The colours of a tree and of a context, the loop of [ngx_rbtree_insert], the
    interface of [tree->insert] with its two instances, and the correctness of
    the insertion. *)

From stdpp Require Import gmap sorting relations.
From S2P Require Import Prelude Rbtree RbtreeRep.
Import Rbtree.Rbtree RbtreeRep.RbtreeRep.
Open Scope Z_scope.

Module RbtreeInsert.

(** ** The colours

    [rb c n t]: the root of [t] has the colour [c], no red node has a red
    child, and every path down has [n] black nodes. *)
Inductive rb : bool → nat → tree → Prop :=
  | rb_leaf : rb false 0 Leaf
  | rb_red n l a k r : rb false n l → rb false n r → rb true n (Node true l a k r)
  | rb_black n c c' l a k r : rb c n l → rb c' n r → rb false (S n) (Node false l a k r).

Definition black_top (C : list frame) : Prop :=
  match C with [] => False | f :: _ => fred f = false end.

(** [rbc m C n]: a tree of black height [n] in the hole of [C] makes one of
    black height [m]; the root of the context is black. *)
Inductive rbc (m : nat) : list frame → nat → Prop :=
  | rbc_nil : rbc m [] m
  | rbc_red f C n :
      fred f = true → rb false n (fsib f) → black_top C → rbc m C n → rbc m (f :: C) n
  | rbc_black f C n c :
      fred f = false → rb c n (fsib f) → rbc m C (S n) → rbc m (f :: C) n.

Lemma rb_mk_red d n c x a k y :
  rb c n (mk d true x a k y) ↔ c = true ∧ rb false n x ∧ rb false n y.
Proof.
  destruct d; (split; [intros H; by inversion H|intros (-> & ? & ?); by constructor]).
Qed.

Lemma rb_mk_black d n c x a k y :
  rb c n (mk d false x a k y) ↔
  ∃ n' c1 c2, c = false ∧ n = S n' ∧ rb c1 n' x ∧ rb c2 n' y.
Proof.
  destruct d; split.
  1,3: intros H; inversion H; subst; by eexists _, _, _.
  all: intros (n' & c1 & c2 & -> & -> & ? & ?); by econstructor.
Qed.

Lemma rb_color c n t : rb c n t → is_red t = c.
Proof. by intros []. Qed.

Lemma rb_blacken c n t : rb c n t → ∃ n', rb false n' (blacken t).
Proof.
  intros H. inversion H; subst; cbn; [by exists O; constructor|..]; eexists; by econstructor.
Qed.

Lemma rb_plug m C : ∀ n c x,
  rbc m C n → rb c n x → (c = true → C = [] ∨ black_top C) →
  ∃ c', rb c' m (plug C x) ∧ (C ≠ [] → c' = false).
Proof.
  induction C as [|f C IH]; intros n c x HC Hx Hc; inversion HC; subst; cbn.
  - by exists c.
  - destruct c; [destruct Hc as [|Ht]; [done|done|]; cbn in Ht; congruence|].
    destruct (IH n true (fill f x)) as (c' & Hc' & Hb); [done| |by right|].
    { unfold fill. replace (fred f) with true. by apply rb_mk_red. }
    exists c'. split; [done|]. intros _. apply Hb. by destruct C.
  - destruct (IH (S n) false (fill f x)) as (c' & Hc' & Hb); [done| |done|].
    { unfold fill. replace (fred f) with false. apply rb_mk_black. by exists n, c, c0. }
    exists c'. split; [done|]. intros _. destruct C as [|f' C].
    + cbn in Hc'. unfold fill in Hc'. replace (fred f) with false in Hc'.
      by apply rb_mk_black in Hc' as (? & ? & ? & -> & _).
    + by apply Hb.
Qed.

Lemma rb_unplug m C : ∀ x,
  rb false m (plug C x) →
  ∃ c n, rb c n x ∧ rbc m C n ∧ (c = true → black_top C).
Proof.
  induction C as [|f C IH]; intros x H; cbn in *.
  - exists false, m. split; [done|]. split; [constructor|done].
  - apply IH in H as (c & n & Hf & HC & Ht). unfold fill in Hf. destruct (fred f) eqn:Ef.
    + apply rb_mk_red in Hf as (-> & Hx & Hs). exists false, n.
      split; [done|]. split; [|done]. apply rbc_red; auto.
    + apply rb_mk_black in Hf as (n' & c1 & c2 & -> & -> & Hx & Hs). exists c1, n'.
      split; [done|]. split; [by eapply rbc_black|done].
Qed.

(** A comparison of keys, as one of nodes with their keys. *)
Abbreviation on_keys before := (λ x y : Z * Z, before x.2 y.2).

Section Rules.
Context (sentinel : Z) (s0 : store) (A : list Z) (sn : node).
Abbreviation repr := (repr sentinel s0 A sn).
Abbreviation ptr := (ptr sentinel).
Abbreviation rep := (rep sentinel).
Abbreviation ctx_rep := (ctx_rep sentinel).

(** ** The insertion re-balances the tree *)

(** [insert_left] and [insert_right] as one. *)
Definition insert_last (d : dir) (node : Z) : M Z :=
  p ← node @ parent;
  ngx_rbt_black p;;
  g ← grandparent node;
  ngx_rbt_red g;;
  g ← grandparent node;
  rotate sentinel (opp d) g;;
  mret node.

Definition insert_side (d : dir) (node : Z) : M Z :=
  g ← grandparent node;
  temp ← g @ child (opp d);
  red ← ngx_rbt_is_red temp;
  if (red : bool) then
    p ← node @ parent;
    ngx_rbt_black p;;
    ngx_rbt_black temp;;
    g ← grandparent node;
    ngx_rbt_red g;;
    grandparent node
  else
    p ← node @ parent;
    pc ← p @ child (opp d);
    node ← (if node =? pc then
              node ← node @ parent;
              rotate sentinel d node;;
              mret node
            else mret node);
    insert_last d node.

Lemma insert_left_side : insert_left sentinel = insert_side DL.
Proof. reflexivity. Qed.
Lemma insert_right_side : insert_right sentinel = insert_side DR.
Proof. reflexivity. Qed.

Lemma wp_grandparent s f f' C d c x a k y Q :
  repr s (plug (f :: f' :: C) (mk d c x a k y)) → Q (faddr f') s → wp (grandparent a) s Q.
Proof.
  intros H HQ. eapply wp_bind, (wp_parent sentinel s0 A sn s f (f' :: C)); [exact H|].
  by apply (wp_parent sentinel s0 A sn s f' C (fdir f) (fred f) (mk d c x a k y) (faddr f) (fkey f) (fsib f)).
Qed.

(** The same tree with the hole in the other child. *)
Lemma plug_swap d c x a k y C :
  plug C (mk d c x a k y) = plug (Frame (opp d) c a k x :: C) y.
Proof. cbn. unfold fill. cbn. by rewrite mk_opp. Qed.

Lemma repr_neq s C d c x a k y : repr s (plug C (mk d c x a k y)) → a ≠ ptr x ∧ a ≠ ptr y.
Proof.
  intros (gp & _ & _ & _ & Hd)%repr_cut. apply nodup_mk in Hd as [Ha Hd]. nodup Hd.
  split; by apply ptr_notin.
Qed.

(** What a turn of the loop gives: a red node nearer to the root, and the
    rest of the tree in order. *)
Definition inserting (m : nat) (E : list (Z * Z)) (C : list frame) (X : tree) : Prop :=
  (∃ n, rb true n X ∧ rbc m C n) ∧ elements (plug C X) = E.

(** The last rotation, with [node] the outer grandchild of its grandparent. *)
Lemma insert_last_ok d p pk sib g gk u C x1 a k x2 m n s Q :
  let X := mk d true x1 a k x2 in
  let C1 := Frame d true p pk sib :: Frame d false g gk u :: C in
  repr s (plug C1 X) → rb true n X → rb false n sib → rb false n u → rbc m C (S n) →
  (∀ s' C' X', repr s' (plug C' X') → inserting m (elements (plug C1 X)) C' X' →
     (length C' < length C1)%nat → Q (ptr X') s') →
  wp (insert_last d a) s Q.
Proof.
  intros X C1 H HX Hsib Hu HC HQ.
  eapply wp_bind, wp_parent; [exact H|]. cbn [faddr].
  eapply wp_bind, (wp_color sentinel s0 A sn s (Frame d false g gk u :: C) d true X p pk sib); [exact H|by left|].
  intros s1 H1.
  eapply wp_bind, (wp_grandparent s1 (Frame d false p pk sib) (Frame d false g gk u) C);
    [exact H1|]. cbn [faddr].
  eapply wp_bind, (wp_color sentinel s0 A sn s1 C d false _ g gk u); [exact H1|by right|]. intros s2 H2.
  eapply wp_bind, (wp_grandparent s2 (Frame d false p pk sib) (Frame d true g gk u) C);
    [exact H2|]. cbn [faddr].
  eapply wp_bind, (wp_rotate sentinel s0 A sn s2 C (opp d) true u g gk false sib p pk X).
  { rewrite !mk_opp. exact H2. }
  rewrite !mk_opp. intros s3 H3. apply wp_ret.
  replace a with (ptr X) by by subst X; rewrite ptr_mk.
  apply HQ with (C' := Frame d false p pk (mk d true sib g gk u) :: C).
  - exact H3.
  - split.
    + exists n. split; [done|]. eapply (rbc_black _ _ _ _ true); cbn; [done| |done].
      by apply rb_mk_red.
    + subst X C1. elements_eq.
  - subst C1. cbn. lia.
Qed.

Lemma insert_side_ok d fp g gk u C x1 a k x2 m E s Q :
  let X := mk d true x1 a k x2 in
  repr s (plug (fp :: Frame d false g gk u :: C) X) →
  inserting m E (fp :: Frame d false g gk u :: C) X → fred fp = true →
  (∀ s' C' X', repr s' (plug C' X') → inserting m E C' X' →
     (length C' < length (fp :: Frame d false g gk u :: C))%nat → Q (ptr X') s') →
  wp (insert_side d a) s Q.
Proof.
  intros X H [(n & HX & HC) <-] Hred HQ. destruct fp as [dp rp p pk sib]. cbn in Hred. subst rp.
  inversion HC as [|? ? ? _ Hsib Hblack HC'|]; subst; [|done]. cbn in Hsib.
  inversion HC' as [| |? ? ? cu _ Hu HC'']; subst; [done|]. cbn in Hu.
  pose proof HX as (_ & Hx1 & Hx2)%rb_mk_red.
  eapply wp_bind, wp_grandparent; [exact H|]. cbn [faddr].
  eapply wp_bind, (wp_child_opp sentinel s0 A sn s C d false (mk dp true X p pk sib) g gk u); [exact H|].
  pose proof H as Hu'. cbn [plug] in Hu'. unfold fill in Hu'. cbn [fdir fred faddr fkey fsib] in Hu'.
  rewrite plug_swap in Hu'.
  eapply wp_bind, (wp_red sentinel s0 A sn s _ u); [exact Hu'|]. rewrite (rb_color _ _ _ Hu).
  destruct cu.
  - (* the uncle is red *)
    eapply wp_bind, wp_parent; [exact H|]. cbn [faddr].
    eapply wp_bind, (wp_color sentinel s0 A sn s (Frame d false g gk u :: C) dp true X p pk sib); [exact H|by left|].
    intros s1 H1. pose proof H1 as H1'. cbn [plug] in H1'. unfold fill in H1'.
    cbn [fdir fred faddr fkey fsib] in H1'. rewrite plug_swap in H1'.
    eapply wp_bind, wp_blacken; [exact H1'|]. intros s2 H2.
    rewrite <- plug_swap in H2.
    eapply wp_bind, (wp_grandparent s2 (Frame dp false p pk sib) (Frame d false g gk (blacken u)) C);
      [exact H2|]. cbn [faddr].
    eapply wp_bind, (wp_color sentinel s0 A sn s2 C d false _ g gk (blacken u)); [exact H2|by right|].
    intros s3 H3.
    eapply (wp_grandparent s3 (Frame dp false p pk sib) (Frame d true g gk (blacken u)) C);
      [exact H3|]. cbn [faddr].
    replace g with (ptr (mk d true (mk dp false X p pk sib) g gk (blacken u))) at 1
      by apply ptr_mk.
    apply HQ with (C' := C); [exact H3| |cbn; lia]. split.
    + exists (S n). split; [|done]. apply rb_mk_red. split; [done|]. split.
      * apply rb_mk_black. by eexists _, _, _.
      * inversion Hu; subst. by econstructor.
    + subst X. elements_eq.
  - (* the uncle is black *)
    eapply wp_bind, wp_parent; [exact H|]. cbn [faddr].
    assert (Hd : dp = d ∨ dp = opp d) by (destruct dp, d; auto).
    destruct Hd as [-> | ->].
    + (* the outer child *)
      eapply wp_bind, (wp_child_opp sentinel s0 A sn s (Frame d false g gk u :: C) d true X p pk sib); [exact H|].
      assert (a ≠ ptr sib) as Hne.
      { apply repr_cut in H as (gp & _ & _ & _ & Hd). apply nodup_mk in Hd as [Ha Hd].
        cbn in Hd. nodup Hd. by apply ptr_notin. }
      rewrite (proj2 (Z.eqb_neq _ _) Hne). eapply wp_bind, wp_ret.
      eapply (insert_last_ok d p pk sib g gk u C x1 a k x2 m n); [exact H|done..|].
      intros s' C' X' H' Hi Hl. apply HQ with C'; [done..|]. cbn in *. lia.
    + (* the inner child *)
      pose proof H as Hp. cbn [plug] in Hp. unfold fill in Hp at 2.
      cbn [fdir fred faddr fkey fsib] in Hp. rewrite mk_opp in Hp.
      eapply wp_bind, (wp_child_opp sentinel s0 A sn s (Frame d false g gk u :: C) d true sib p pk X); [exact Hp|].
      subst X. rewrite ptr_mk, Z.eqb_refl.
      eapply wp_bind, wp_bind, wp_parent; [exact H|]. cbn [faddr].
      eapply wp_bind, (wp_rotate sentinel s0 A sn s (Frame d false g gk u :: C) d true sib p pk true x1 a k x2);
        [exact Hp|]. intros s1 H1. apply wp_ret.
      eapply (insert_last_ok d a k x2 g gk u C sib p pk x1 m n); [exact H1| |done..|].
      { by apply rb_mk_red. }
      intros s' C' X' H' [Hi He] Hl. apply HQ with C'; [done| |cbn in *; lia].
      split; [done|]. rewrite He. elements_eq.
Qed.

(** The loop ends, at the root or below a black node. *)
Lemma insert_loop_ok m E (Q : unit → store → Prop) : ∀ fuel C d x1 a k x2 s,
  let X := mk d true x1 a k x2 in
  repr s (plug C X) → inserting m E C X → (length C < fuel)%nat →
  (∀ s' T, repr s' T → (∃ c, rb c m T) → elements T = E → Q tt s') →
  wp (insert_loop sentinel fuel a) s Q.
Proof.
  induction fuel as [|fuel IH]; intros C d x1 a k x2 s X H Hi Hl HQ; [lia|].
  cbn [insert_loop]. eapply wp_bind, wp_root.
  pose proof H as (gp & _ & _ & Hr & Hd)%repr_cut. subst X. rewrite ptr_mk in Hr.
  pose proof Hi as [(n & HX & HC) _].
  destruct C as [|f C].
  { cbn in Hr. rewrite Hr, Z.eqb_refl. apply wp_nothing.
    inversion HC; subst. eapply HQ; [exact H|by exists true|apply Hi]. }
  assert (a ≠ root s) as Hne.
  { rewrite Hr. apply nodup_mk in Hd as [Ha Hd]. apply list.NoDup_cons in Hd as [Hn _].
    cbn in *. split_notin. by apply top_notin. }
  rewrite (proj2 (Z.eqb_neq _ _) Hne).
  eapply wp_bind, wp_parent; [exact H|].
  set (X := mk d true x1 a k x2) in *.
  destruct f as [dp rp p pk sib]. cbn [faddr].
  replace p with (ptr (mk dp rp X p pk sib)) at 1 by apply ptr_mk.
  eapply wp_bind, (wp_red sentinel s0 A sn s C (mk dp rp X p pk sib)); [exact H|]. rewrite is_red_mk.
  destruct rp.
  2:{ apply wp_nothing.
      destruct (rb_plug m _ n true X HC HX) as (c & Hc & _); [intros _; by right|].
      eapply HQ; [exact H|by exists c|apply Hi]. }
  inversion HC as [|? ? ? _ Hsib Hblack HC'|]; subst; [|done].
  destruct C as [|[dg rg g gk u] C]; [done|]. cbn in Hblack. subst rg.
  eapply wp_bind, wp_grandparent; [exact H|]. cbn [faddr].
  assert (Hside : wp (insert_side dg a) s (λ v s', wp (insert_loop sentinel fuel v) s' Q)).
  { assert (∃ y1 y2, X = mk dg true y1 a k y2) as (y1 & y2 & EX).
    { subst X. destruct d, dg; by eexists _, _. }
    rewrite EX in *.
    eapply (insert_side_ok dg (Frame dp true p pk sib) g gk u C y1 a k y2 m E); [exact H| |done|].
    { exact Hi. }
    intros s' C' X' H' Hi' Hl'. assert (exists b k' z1 z2, X' = mk DL true z1 b k' z2) as
      (b & k' & z1 & z2 & ->).
    { destruct Hi' as [(n' & Hr' & _) _]. inversion Hr'; subst. by eexists _, _, _, _. }
    rewrite ptr_mk. eapply IH; [exact H'|done|cbn in *; lia|done]. }
  pose proof H as Hg. cbn [plug] in Hg. unfold fill in Hg. cbn [fdir fred faddr fkey fsib] in Hg.
  destruct dg.
  - eapply wp_bind, (wp_child sentinel s0 A sn s C DL); [exact Hg|]. rewrite ptr_mk, Z.eqb_refl.
    apply wp_bind. rewrite insert_left_side. exact Hside.
  - eapply wp_bind, (wp_child_opp sentinel s0 A sn s C DR); [exact Hg|].
    assert (p ≠ ptr u) as Hpu.
    { apply repr_cut in Hg as (? & _ & _ & _ & Hdg). rewrite addrs_mk in Hdg. cbn in Hdg.
      rewrite addrs_mk in Hdg. cbn in Hdg. nodup Hdg. by apply ptr_notin. }
    rewrite (proj2 (Z.eqb_neq _ _) Hpu). apply wp_bind. rewrite insert_right_side. exact Hside.
Qed.

(** The fuel is enough: a context is not longer than the memory. *)
Lemma rep_in h par t a : rep h par t → a ∈ addrs t → is_Some (h !! a).
Proof.
  revert par. induction t as [|c l IHl b k r IHr]; intros par.
  { intros _ H. unfold addrs in H. cbn in H. by apply elem_of_nil in H. }
  intros (Hb & Hl & Hr) Ha. change (Node c l b k r) with (mk DL c l b k r) in Ha.
  rewrite addrs_mk in Ha. apply elem_of_cons in Ha as [-> | [Ha|Ha]%elem_of_app]; eauto.
Qed.

Lemma addrs_fuel s T : repr s T → (length (addrs T) < fuel_of s)%nat.
Proof.
  intros [[gp Hrep] _ Hd _ _ _ _]. apply list.NoDup_cons in Hd as [_ Hd].
  unfold fuel_of. apply le_n_S. rewrite <- (size_list_to_set (C := gset Z)) by done.
  rewrite <- (size_dom (mem s)). apply subseteq_size. intros a Ha%elem_of_list_to_set.
  apply elem_of_dom. by eapply rep_in.
Qed.

Lemma ctx_length C : (length C ≤ length (ctx_addrs C))%nat.
Proof. induction C as [|f C IH]; cbn; [done|]. rewrite length_app. lia. Qed.

Lemma ctx_fuel s C x : repr s (plug C x) → (length C + length (addrs x) < fuel_of s)%nat.
Proof.
  intros H%addrs_fuel. rewrite addrs_plug, length_app in H. pose proof (ctx_length C). lia.
Qed.

(** *** The place of a new node *)

(** The comparison led to the hole of the frame. *)
Definition path_ok (before : Z * Z → Z * Z → bool) (e : Z * Z) (f : frame) : Prop :=
  before e (faddr f, fkey f) = match fdir f with DL => true | DR => false end.

Definition goes_left (d : dir) : bool := match d with DL => true | DR => false end.

(** [node] is in the memory with the key [k], and not in the tree. *)
Record outside (s : store) (T : tree) (node k : Z) : Prop := {
  outside_cell : ∃ n, mem s !! node = Some n ∧ key n = k;
  outside_addrs : node ∉ addrs T;
  outside_sentinel : node ≠ sentinel;
  outside_A : node ∈ A;
}.

(** A loop that goes down from [a]: [compare a] is its comparison at [a]. *)
Definition descends (compare : Z → M bool) (loop : nat → Z → M (Z * bool)) : Prop := ∀ fuel a s Q,
  wp (go_left ← compare a;
      p ← (if (go_left : bool) then a @ left else a @ right);
      if p =? sentinel then mret (a, go_left) else loop fuel p) s Q → wp (loop (S fuel) a) s Q.

Lemma wp_descend before compare loop node k Q : descends compare loop → ∀ fuel C c l a ka r s,
  let X := Node c l a ka r in
  repr s (plug C X) → outside s (plug C X) node k → Forall (path_ok before (node, k)) C →
  (∀ b kb (R : bool → store → Prop), (b, kb) ∈ elements (plug C X) →
     (∃ n, mem s !! b = Some n ∧ key n = kb) → R (before (node, k) (b, kb)) s → wp (compare b) s R) →
  (length (addrs X) ≤ fuel)%nat →
  (∀ f C', plug C X = plug (f :: C') Leaf → Forall (path_ok before (node, k)) (f :: C') →
     Q (faddr f, goes_left (fdir f)) s) →
  wp (loop fuel a) s Q.
Proof.
  intros Hloop. induction fuel as [|fuel IH]; intros C c l a ka r s X H Ho HC Hcmp Hl HQ.
  { subst X. change (Node c l a ka r) with (mk DL c l a ka r) in Hl.
    rewrite addrs_mk in Hl. cbn in Hl. lia. }
  assert (Hlen : length (addrs X) = S (length (addrs l) + length (addrs r))).
  { subst X. change (Node c l a ka r) with (mk DL c l a ka r). rewrite addrs_mk. cbn.
    by rewrite length_app. }
  apply Hloop. eapply wp_bind, Hcmp.
  { rewrite elements_plug. apply elem_of_app. right. apply elem_of_app. left. subst X. cbn.
    apply elem_of_app. right. by left. }
  { pose proof H as (gp & _ & Hx & _)%repr_cut. destruct Hx as [Ha _]. eexists. split; [exact Ha|done]. }
  assert (Hgo : ∀ d y, (match d with DL => l | DR => r end) = y → before (node, k) (a, ka) = goes_left d →
    wp (if ptr y =? sentinel then mret (a, before (node, k) (a, ka)) else loop fuel (ptr y)) s Q).
  { intros d y Hy Hb.
    assert (HX : plug C X = plug (Frame d c a ka (match d with DL => r | DR => l end) :: C) y).
    { by subst; destruct d. }
    assert (HC' : Forall (path_ok before (node, k)) (Frame d c a ka (match d with DL => r | DR => l end) :: C)).
    { constructor; [|done]. by destruct d. }
    assert (length (addrs y) ≤ fuel)%nat by (destruct d; subst y; lia).
    destruct y as [|c' l' a' k' r']; cbn [RbtreeRep.ptr].
    - rewrite Z.eqb_refl. apply wp_ret. rewrite Hb. exact (HQ _ _ HX HC').
    - rewrite HX in H, Ho, Hcmp.
      replace (a' =? sentinel) with false.
      + eapply IH; [exact H|exact Ho|done|exact Hcmp|done|]. intros f C' Hf. rewrite <- HX in Hf. by apply HQ.
      + symmetry. apply Z.eqb_neq. apply repr_cut in H as (_ & _ & _ & _ & Hd).
        by apply (nodup_mk sentinel DL) in Hd as [? _]. }
  destruct (before (node, k) (a, ka)) eqn:Eb.
  - eapply wp_bind, (wp_child sentinel s0 A sn s C DL); [exact H|]. by apply (Hgo DL).
  - eapply wp_bind, (wp_child_opp sentinel s0 A sn s C DL); [exact H|]. by apply (Hgo DR).
Qed.

Lemma wp_attach f C node k s (Q : unit → store → Prop) :
  repr s (plug (f :: C) Leaf) → outside s (plug (f :: C) Leaf) node k →
  (∀ s', repr s' (plug (f :: C) (Node true Leaf node k Leaf)) → Q tt s') →
  wp (attach sentinel (faddr f) (goes_left (fdir f)) node) s Q.
Proof.
  intros H [(n & Hn & Hk) Hna Hns HA] HQ.
  destruct f as [d c a ka sib]. cbn [faddr fdir].
  pose proof H as (gp & HC & Hx & Hr & Hd)%(repr_cut sentinel s0 A sn _ C). cbn [fill fdir fred faddr fkey fsib] in *.
  unfold fill in HC, Hx, Hr, Hd. cbn [fdir fred faddr fkey fsib] in *. rewrite ptr_mk in *.
  apply rep_mk in Hx as (Ha & _ & Hsib).
  apply nodup_mk in Hd as [Has Hd]. cbn [addrs elements fmap list_fmap app] in Hd. nodup Hd.
  cbn [plug] in Hna. unfold fill in Hna. cbn [fdir fred faddr fkey fsib] in Hna.
  rewrite addrs_plug, addrs_mk in Hna. split_notin.
  unfold attach. apply wp_bind.
  assert (Hset : wp (if goes_left d then a @ left := node else a @ right := node) s
    (λ _ s', mem s' = <[a := cell d ka node (ptr sib) (above gp C) c]> (mem s) ∧ root s' = root s)).
  { destruct d; cbn [goes_left]; eapply wp_update; try exact Ha; done. }
  eapply wp_mono; [exact Hset|]. intros [] s1 [E1 Hr1]. apply wp_bind.
  assert (mem s1 !! node = Some n) as Hn1.
  { rewrite E1, lookup_insert_ne; [done|]. intros <-. set_solver. }
  eapply wp_update; [exact Hn1|].
  eapply wp_bind, wp_update; [cbn [mem]; apply lookup_insert_eq|].
  eapply wp_bind, wp_update; [cbn [mem]; apply lookup_insert_eq|].
  eapply wp_update; [cbn [mem]; apply lookup_insert_eq|]. cbn [mem root].
  rewrite !insert_insert_eq. set (s2 := mk_store _ _).
  assert (Hs2 : ∀ e, e ≠ a → e ≠ node → mem s2 !! e = mem s !! e).
  { intros e He He'. subst s2. cbn [mem]. rewrite E1, !lookup_insert_ne; done. }
  assert (Ha2 : mem s2 !! a = Some (cell d ka node (ptr sib) (above gp C) c)).
  { subst s2. cbn [mem]. rewrite E1, lookup_insert_ne, lookup_insert_eq; [done|]. set_solver. }
  assert (Hn2 : mem s2 !! node = Some (cell DL k sentinel sentinel a true)).
  { subst s2. cbn [mem]. rewrite lookup_insert_eq. by destruct n; cbn in *; subst. }
  assert (Hr2 : root s2 = root s) by done. clearbody s2. clear s1 E1 Hr1 Hn1 Hset.
  apply HQ. cbn [plug]. unfold fill. cbn [fdir fred faddr fkey fsib].
  destruct H as [_ Hroot Hnd Hs Hb Hw Hon]. cbn [plug] in Hw.
  unfold fill in Hw. cbn [fdir fred faddr fkey fsib] in Hw.
  assert (Hperm : addrs (plug C (mk d c (Node true Leaf node k Leaf) a ka sib)) ≡ₚ
                  node :: addrs (plug C (mk d c Leaf a ka sib))).
  { rewrite !addrs_plug, !addrs_mk. cbn. solve_Permutation. }
  cbn [plug] in Hnd, Hon. unfold fill in Hnd, Hon. cbn [fdir fred faddr fkey fsib] in Hnd, Hon.
  split.
  - exists gp. apply rep_plug. rewrite ptr_mk. split.
    + eapply ctx_frame; [|exact HC]. intros e He. apply Hs2; distinct.
    + apply rep_mk. split; [done|]. split.
      * cbn. split; [done|]. done.
      * eapply rep_frame; [|exact Hsib]. intros e He. apply Hs2; distinct.
  - rewrite ptr_plug, ptr_mk. congruence.
  - rewrite Hperm. rewrite (perm_swap node sentinel). constructor; [|done].
    apply not_elem_of_cons. split; [done|]. rewrite addrs_plug, addrs_mk.
    apply not_elem_of_app. split; [|done]. apply not_elem_of_cons. split; [done|].
    apply not_elem_of_app. done.
  - rewrite Hs2; [done|distinct..].
  - done.
  - intros e. rewrite Hperm. intros [-> | He]%elem_of_cons; [done|by apply Hw].
  - intros e He. rewrite <- Hon by done.
    assert (e ∉ addrs (plug C (mk d c Leaf a ka sib))) as Hne by (intros Hin; by apply He, Hw).
    rewrite addrs_plug, addrs_mk in Hne. split_notin. apply Hs2; [done|]. intros ->. done.
Qed.

(** The loop, and the assignments behind it. *)
Lemma wp_insert_at before compare loop T node k s (Q : unit → store → Prop) : descends compare loop →
  repr s T → T ≠ Leaf → outside s T node k →
  (∀ b kb (R : bool → store → Prop), (b, kb) ∈ elements T →
     (∃ n, mem s !! b = Some n ∧ key n = kb) → R (before (node, k) (b, kb)) s → wp (compare b) s R) →
  (∀ s' f C, T = plug (f :: C) Leaf → Forall (path_ok before (node, k)) (f :: C) →
     repr s' (plug (f :: C) (Node true Leaf node k Leaf)) → Q tt s') →
  wp (λ s, ('(temp, go_left) ← loop (fuel_of s) (root s); attach sentinel temp go_left node) s) s Q.
Proof.
  intros Hloop H HT Ho Hcmp HQ. destruct T as [|c l a ka r]; [done|].
  assert (wp ('(temp, go_left) ← loop (fuel_of s) (root s);
              attach sentinel temp go_left node) s Q) as (v & s' & Hm & HQ').
  { apply wp_bind. rewrite (repr_root _ _ _ _ _ _ H). cbn [RbtreeRep.ptr].
    eapply (wp_descend before compare loop node k _ Hloop (fuel_of s) [] c l a ka r);
      [exact H|exact Ho|constructor|exact Hcmp| |].
    { apply Nat.lt_le_incl. by eapply addrs_fuel. }
    intros f C Hf HC. cbn [plug] in Hf. rewrite Hf in H, Ho.
    eapply wp_attach; [exact H|exact Ho|]. intros s' Hs'. by eapply HQ. }
  by exists v, s'.
Qed.

Lemma walk_descends before node : descends (λ a, nk ← node @ key; tk ← a @ key; mret (before nk tk))
  (λ fuel temp, walk sentinel before fuel temp node).
Proof.
  intros fuel a s Q (v & s' & E & HQ). exists v, s'. split; [|done]. cbn [walk].
  revert E. unfold mbind, M_bind. destruct (get key node s) as [[nk s1]|]; [|done].
  by destruct (get key a s1) as [[tk s2]|].
Qed.

Lemma wp_insert_by before T node k s (Q : unit → store → Prop) :
  repr s T → T ≠ Leaf → outside s T node k →
  (∀ s' f C, T = plug (f :: C) Leaf → Forall (path_ok (on_keys before) (node, k)) (f :: C) →
     repr s' (plug (f :: C) (Node true Leaf node k Leaf)) → Q tt s') →
  wp (insert_by sentinel before (root s) node) s Q.
Proof.
  intros H HT Ho HQ.
  assert (wp (λ s1, ('(temp, go_left) ← walk sentinel before (fuel_of s1) (root s1) node;
                     attach sentinel temp go_left node) s1) s Q) as (v & s' & E & HQ').
  { eapply (wp_insert_at (on_keys before) _ _ T node k s Q (walk_descends before node)); [done..| |exact HQ].
    intros b kb R _ (n & Hn & <-) HR. destruct (outside_cell _ _ _ _ Ho) as (m & Hm & <-).
    eapply wp_bind, wp_get; [exact Hm|]. eapply wp_bind, wp_get; [exact Hn|]. by apply wp_ret. }
  by exists v, s'.
Qed.
End Rules.

(** ** The tree as an ordered list

    [rbtree sentinel s l]: the store holds a red-black tree whose nodes, with
    their keys, are [l] in order. *)
Definition rbtree (sentinel : Z) (s : store) (l : list (Z * Z)) : Prop :=
  ∃ sn T m, repr sentinel s (addrs T) sn s T ∧ rb false m T ∧ elements T = l.

Lemma repr_rebase sentinel s0 A s0' A' sn s T :
  repr sentinel s0 A sn s T → (∀ a, a ∈ addrs T → a ∈ A') →
  (∀ a, a ∉ A' → mem s !! a = mem s0' !! a) → repr sentinel s0' A' sn s T.
Proof. by intros [] ? ?; split. Qed.

(** The nodes of a list are in the order of a comparison, the keys in that of a
    comparison of keys. *)
Abbreviation sorted_by before := (StronglySorted (λ x y : Z * Z, before y x = false)).
Abbreviation in_order before := (λ x y : Z * Z, before y.2 x.2 = false).
Abbreviation ordered before := (StronglySorted (in_order before)).

Fixpoint insert_sorted (before : Z * Z → Z * Z → bool) (e : Z * Z) (l : list (Z * Z)) : list (Z * Z) :=
  match l with
  | [] => [e]
  | x :: l' => if before e x then e :: l else x :: insert_sorted before e l'
  end.
Abbreviation insert_ordered before := (insert_sorted (on_keys before)).

(** "Not before" is transitive among the given nodes, or keys. *)
Definition transitive_in (before : Z * Z → Z * Z → bool) (E : list (Z * Z)) : Prop :=
  ∀ x y z, x ∈ E → y ∈ E → z ∈ E →
    before y x = false → before z y = false → before z x = false.
Definition transitive_on (before : Z → Z → bool) (K : list Z) : Prop :=
  ∀ x y z, x ∈ K → y ∈ K → z ∈ K →
    before y x = false → before z y = false → before z x = false.

Lemma transitive_keys before e l : transitive_on before (e.2 :: l.*2) → transitive_in (on_keys before) (e :: l).
Proof.
  intros Ht x y z Hx Hy Hz. by apply Ht; apply (list_elem_of_fmap_2 snd (e :: l)).
Qed.

Lemma insert_sorted_app before e B l :
  Forall (λ x, before e x = false) B →
  match l with [] => True | y :: _ => before e y = true end →
  insert_sorted before e (B ++ l) = B ++ e :: l.
Proof.
  induction 1 as [|x B Hx HB IH]; intros Hl; cbn.
  - destruct l as [|y l]; cbn; [done|]. by rewrite Hl.
  - by rewrite Hx, IH.
Qed.

Lemma insert_sorted_perm before e l : insert_sorted before e l ≡ₚ e :: l.
Proof.
  induction l as [|x l IH]; cbn; [done|]. destruct (before _ _); [done|]. by rewrite IH, perm_swap.
Qed.

Lemma sorted_filter {X} (R : X → X → Prop) (Q : X → Prop) `{!∀ x, Decision (Q x)} l :
  StronglySorted R l → StronglySorted R (filter Q l).
Proof.
  induction 1 as [|e l Ho IH Hf]; [constructor|]. rewrite filter_cons. case_decide; [|done].
  constructor; [done|]. rewrite list.Forall_forall in *. intros x Hx. apply list_elem_of_filter in Hx as [_ Hx]. by apply Hf.
Qed.

Lemma insert_sorted_ok before e l :
  transitive_in before (e :: l) → (∀ x, x ∈ l → before e x = true → before x e = false) →
  sorted_by before l → sorted_by before (insert_sorted before e l).
Proof.
  induction l as [|x l IH]; intros Ht Ha Hs; cbn; [by repeat constructor|].
  inversion_clear Hs as [|?? Hs' Hx]. destruct (before e x) eqn:Eb.
  - assert (before x e = false) as Hxe by (apply Ha; [left|done]).
    constructor; [by constructor|]. constructor; [done|]. rewrite list.Forall_forall in *.
    intros y Hy. apply (Ht e x y); [left|right; left| |done|by apply Hx].
    right; by right.
  - constructor.
    + apply IH; [|by intros y Hy; apply Ha; right|done].
      intros a b c Ha' Hb Hc. apply Ht; set_solver.
    + rewrite insert_sorted_perm. constructor; [done|done].
Qed.

Lemma insert_ordered_sorted before e l :
  transitive_on before (e.2 :: l.*2) → (∀ x, x ∈ l.*2 → before e.2 x = true → before x e.2 = false) →
  ordered before l → ordered before (insert_ordered before e l).
Proof.
  intros Ht Ha. apply (insert_sorted_ok (on_keys before)); [by apply transitive_keys|].
  intros x Hx. by apply Ha, list_elem_of_fmap_2.
Qed.

Lemma sorted_app {X} (R : X → X → Prop) l k :
  StronglySorted R (l ++ k) → StronglySorted R l ∧ StronglySorted R k ∧
  (∀ x y, x ∈ l → y ∈ k → R x y).
Proof.
  induction l as [|x l IH]; cbn; intros H.
  { split; [constructor|]. split; [done|]. intros ?? Hx. by apply elem_of_nil in Hx. }
  inversion_clear H as [|?? Hs Hx]. apply IH in Hs as (Hl & Hk & Hlk).
  rewrite Forall_app in Hx. destruct Hx as [Hxl Hxk]. rewrite list.Forall_forall in Hxk.
  split; [by constructor|]. split; [done|].
  intros a b [-> | Ha]%elem_of_cons Hb; [by apply Hxk|by apply Hlk].
Qed.

(** The path of the comparisons leads to the place of the new node. *)
Lemma path_before before e C E : ∀ x,
  transitive_in before (e :: E) → (∀ y, y ∈ elements (plug C x) → y ∈ E) →
  sorted_by before (elements (plug C x)) → Forall (path_ok before e) C →
  Forall (λ y, before e y = false) (before_hole C).
Proof.
  induction C as [|f C IH]; intros x Ht HE Hs HC; cbn; [constructor|].
  inversion_clear HC as [|?? Hf HC']. cbn [plug] in *.
  apply Forall_app_2; [by apply (IH (fill f x))|].
  rewrite elements_plug in Hs, HE. unfold fill, path_ok in *. rewrite elements_mk in Hs, HE.
  destruct (fdir f); [constructor|].
  apply sorted_app in Hs as (_ & Hs & _). apply sorted_app in Hs as (Hs & _ & _).
  apply sorted_app in Hs as (_ & _ & Hs). apply Forall_app_2.
  - apply list.Forall_forall. intros y Hy. apply (Ht y (faddr f, fkey f) e); [| |by left| |done].
    + right. apply HE. set_solver.
    + right. apply HE. set_solver.
    + apply (Hs y (faddr f, fkey f)); [done|]. by left.
  - by repeat constructor.
Qed.

Lemma path_after before e C :
  Forall (path_ok before e) C →
  match after_hole C with [] => True | y :: _ => before e y = true end.
Proof.
  induction 1 as [|f C Hf HC IH]; cbn; [done|]. unfold path_ok in Hf. by destruct (fdir f).
Qed.

(** What a tree promises to [tree->insert], and what it needs from it: the node
    is attached, red, at the place where the comparison leads.  [valid] is what
    the comparison needs to know of the nodes. *)
Class InsertsBy (sentinel : Z) (insert : Z → Z → M unit) (valid : Z * Z → Prop) (before : Z * Z → Z * Z → bool) : Prop :=
  inserts : ∀ s0 A sn T node k s (Q : unit → store → Prop),
    repr sentinel s0 A sn s T → T ≠ Leaf → outside sentinel A s T node k →
    Forall valid ((node, k) :: elements T) →
    (∀ s' f C, T = plug (f :: C) Leaf → Forall (path_ok before (node, k)) (f :: C) →
       repr sentinel s0 A sn s' (plug (f :: C) (Node true Leaf node k Leaf)) → Q tt s') →
    wp (insert (root s) node) s Q.

(** A function that compares nothing but keys. *)
Abbreviation Inserts sentinel insert before := (InsertsBy sentinel insert (λ _, True) (on_keys before)).

#[export] Instance insert_value_inserts sentinel :
  Inserts sentinel (ngx_rbtree_insert_value sentinel) value_before.
Proof. intros s0 A sn T node k s Q H HT Ho _. by apply (wp_insert_by sentinel s0 A sn). Qed.

#[export] Instance insert_timer_value_inserts sentinel :
  Inserts sentinel (ngx_rbtree_insert_timer_value sentinel) timer_before.
Proof. intros s0 A sn T node k s Q H HT Ho _. by apply (wp_insert_by sentinel s0 A sn). Qed.

Section Insert.
Context (sentinel : Z) (insert : Z → Z → M unit) (valid : Z * Z → Prop) (before : Z * Z → Z * Z → bool).
Context `{!InsertsBy sentinel insert valid before}.

Definition inserted (s : store) (T : tree) (node k : Z) (_ : unit) (s' : store) : Prop :=
  ∃ sn T' m', repr sentinel s (node :: addrs T) sn s' T' ∧ rb false m' T' ∧
    elements T' = insert_sorted before (node, k) (elements T).

Lemma insert_empty s node sn n :
  repr sentinel s [node] sn s Leaf → mem s !! node = Some n → node ≠ sentinel →
  wp (ngx_rbtree_insert sentinel insert node) s (inserted s Leaf node (key n)).
Proof.
  intros H Hn Hns. unfold ngx_rbtree_insert. apply wp_bind, wp_root.
  rewrite (repr_root _ _ _ _ _ _ H). cbn [RbtreeRep.ptr]. rewrite Z.eqb_refl.
  eapply wp_bind, wp_update; [exact Hn|].
  eapply wp_bind, wp_update; [cbn [mem]; apply lookup_insert_eq|].
  eapply wp_bind, wp_update; [cbn [mem]; apply lookup_insert_eq|].
  eapply wp_bind, wp_update; [cbn [mem]; apply lookup_insert_eq|].
  apply wp_set_root. cbn [mem root]. rewrite !insert_insert_eq.
  exists sn, (Node false Leaf node (key n) Leaf), 1%nat. split; [|split].
  - destruct H as [_ _ Hd Hs Hb Hw Ho]. split; cbn [mem root].
    + exists NULL. cbn. rewrite lookup_insert_eq. by destruct n.
    + done.
    + change (addrs _) with [node]. apply NoDup_cons_2; [|apply NoDup_singleton].
      by intros ->%list_elem_of_singleton.
    + by rewrite lookup_insert_ne.
    + done.
    + intros a Ha. cbn in Ha. exact Ha.
    + intros a Ha. rewrite lookup_insert_ne; [done|]. set_solver.
  - by repeat econstructor.
  - done.
Qed.

Lemma insert_nonempty s T sn m node n :
  repr sentinel s (node :: addrs T) sn s T → T ≠ Leaf → rb false m T →
  sorted_by before (elements T) → transitive_in before ((node, key n) :: elements T) →
  Forall valid ((node, key n) :: elements T) →
  mem s !! node = Some n → node ≠ sentinel → node ∉ addrs T →
  wp (ngx_rbtree_insert sentinel insert node) s (inserted s T node (key n)).
Proof.
  intros H HT Hrb Hs Ht Hv Hn Hns Hnl. unfold ngx_rbtree_insert. apply wp_bind, wp_root.
  assert (root s ≠ sentinel) as Hr.
  { rewrite (repr_root _ _ _ _ _ _ H). pose proof (repr_nodup _ _ _ _ _ _ H) as Hd.
    destruct (ptr_in sentinel T) as [->|Hin]; [done|]. intros E. rewrite E in Hin.
    by apply list.NoDup_cons in Hd as [? _]. }
  rewrite (proj2 (Z.eqb_neq _ _) Hr). apply wp_bind.
  eapply (InsertsBy0 s (node :: addrs T) sn T node (key n)); [exact H|done| |exact Hv|].
  { split; [by exists n|done|done|by left]. }
  intros s1 f C -> HC H1. apply wp_bind.
  apply rb_unplug in Hrb as (c & n' & Hleaf & HrbC & _). inversion Hleaf; subst.
  assert (HE : elements (plug (f :: C) (Node true Leaf node (key n) Leaf)) =
               insert_sorted before (node, key n) (elements (plug (f :: C) Leaf))).
  { rewrite !elements_plug. cbn [elements app]. rewrite insert_sorted_app; [done| |].
    - eapply path_before; [exact Ht| |exact Hs|done]. done.
    - by eapply path_after. }
  assert (wp (insert_loop sentinel (fuel_of s1) node) s1 (λ _ s',
    wp (r ← get_root; ngx_rbt_black r) s' (inserted s (plug (f :: C) Leaf) node (key n))))
    as (v & s' & Hrun & HQ); [|by exists v, s'].
  eapply (insert_loop_ok _ _ _ _ m _ _ _ (f :: C) DL Leaf node (key n) Leaf); [exact H1| | |].
  - split; [|exact HE]. exists 0%nat. split; [|done]. by repeat constructor.
  - eapply ctx_fuel in H1. lia.
  - intros s2 T' H2 (c & Hc) HE2. apply wp_bind, wp_root.
    rewrite (repr_root _ _ _ _ _ _ H2). eapply (wp_blacken _ _ _ _ _ []); [exact H2|].
    intros s3 H3. destruct (rb_blacken _ _ _ Hc) as [m' Hm'].
    exists sn, (blacken T'), m'. split; [exact H3|]. split; [done|]. by destruct T'.
Qed.

(** A new node is inserted behind those that are not after it. *)
Lemma insert_by_ok s l node n :
  rbtree sentinel s l → sorted_by before l → transitive_in before ((node, key n) :: l) →
  Forall valid ((node, key n) :: l) →
  mem s !! node = Some n → node ≠ sentinel → node ∉ l.*1 →
  ∃ s', ngx_rbtree_insert sentinel insert node s = Some (tt, s') ∧
    rbtree sentinel s' (insert_sorted before (node, key n) l) ∧
    (∀ a, a ≠ node → a ∉ l.*1 → mem s' !! a = mem s !! a).
Proof.
  intros (sn & T & m & H & Hrb & <-) Hs Ht Hv Hn Hns Hnl.
  assert (H0 : repr sentinel s (node :: addrs T) sn s T).
  { eapply repr_rebase; [exact H| |done]. intros a Ha. by right. }
  assert (wp (ngx_rbtree_insert sentinel insert node) s (inserted s T node (key n)))
    as ([] & s' & Hrun & sn' & T' & m' & H' & Hrb' & HE).
  { destruct T as [|c l a k r]; [by eapply insert_empty|by eapply insert_nonempty]. }
  exists s'. split; [done|]. split.
  - exists sn', T', m'. split; [|done]. eapply repr_rebase; [exact H'|done|done].
  - intros a Ha Hal. apply (repr_only _ _ _ _ _ _ H'). by apply not_elem_of_cons.
Qed.
End Insert.

Lemma insert_ok sentinel insert before `{!Inserts sentinel insert before} s l node n :
  rbtree sentinel s l → ordered before l → transitive_on before (key n :: l.*2) →
  mem s !! node = Some n → node ≠ sentinel → node ∉ l.*1 →
  ∃ s', ngx_rbtree_insert sentinel insert node s = Some (tt, s') ∧
    rbtree sentinel s' (insert_ordered before (node, key n) l) ∧
    (∀ a, a ≠ node → a ∉ l.*1 → mem s' !! a = mem s !! a).
Proof.
  intros H Hs Ht. apply (insert_by_ok sentinel insert (λ _, True) (on_keys before)); [done|done| |].
  - by apply (transitive_keys before (node, key n)).
  - by apply list.Forall_forall.
Qed.

(** *** Depth *)
Fixpoint depth (t : tree) : nat :=
  match t with Leaf => 0 | Node _ l _ _ r => S (max (depth l) (depth r)) end.

Lemma rb_size c n t : rb c n t → (2 ^ n ≤ S (length (elements t)))%nat.
Proof.
  induction 1 as [|n l a k r Hl IHl Hr IHr|n c c' l a k r Hl IHl Hr IHr]; cbn [elements];
    rewrite ?length_app; cbn [length Nat.pow]; lia.
Qed.

Lemma rb_depth c n t : rb c n t → (depth t ≤ 2 * n + (if c then 1 else 0))%nat.
Proof.
  induction 1 as [|n l a k r Hl IHl Hr IHr|n c c' l a k r Hl IHl Hr IHr]; cbn [depth]; [lia|lia|].
  destruct c, c'; lia.
Qed.

(** A search goes through at most [2 log2 (n + 1)] of [n] nodes. *)
Lemma rbtree_depth sentinel s l :
  rbtree sentinel s l →
  ∃ sn T, repr sentinel s (addrs T) sn s T ∧ elements T = l ∧
    (depth T ≤ 2 * Nat.log2 (S (length l)))%nat.
Proof.
  intros (sn & T & m & H & Hrb & <-). exists sn, T. do 2 (split; [done|]).
  pose proof (rb_size _ _ _ Hrb) as Hs. pose proof (rb_depth _ _ _ Hrb) as Hd. cbn in Hd.
  apply Nat.log2_le_mono in Hs. rewrite Nat.log2_pow2 in Hs by lia. lia.
Qed.

(** ** Correctness *)

Lemma value_transitive K : transitive_on value_before K.
Proof. intros x y z _ _ _. unfold value_before. lia. Qed.

Section Correct.
Context (sentinel : Z) (insert : Z → Z → M unit) (before : Z → Z → bool).
Context `{!Inserts sentinel insert before}.

(** [ngx_rbtree_insert] is the insertion into an ordered list: whatever
    function of the interface [tree->insert] is, the new node stands behind
    all those that are not after it, the tree stays a red-black tree of
    logarithmic depth, and no other memory is touched. *)
Theorem rbtree_insert_correct s l node n :
  rbtree sentinel s l → ordered before l → transitive_on before (key n :: l.*2) →
  (∀ k, k ∈ l.*2 → before (key n) k = true → before k (key n) = false) →
  mem s !! node = Some n → node ≠ sentinel → node ∉ l.*1 →
  ∃ s', ngx_rbtree_insert sentinel insert node s = Some (tt, s') ∧
    rbtree sentinel s' (insert_ordered before (node, key n) l) ∧
    ordered before (insert_ordered before (node, key n) l) ∧
    (∀ a, a ≠ node → a ∉ l.*1 → mem s' !! a = mem s !! a) ∧
    ∃ sn T, repr sentinel s' (addrs T) sn s' T ∧
      elements T = insert_ordered before (node, key n) l ∧
      (depth T ≤ 2 * Nat.log2 (2 + length l))%nat.
Proof.
  intros H Hs Ht Ha Hn Hns Hnl.
  destruct (insert_ok sentinel insert before s l node n) as (s' & Hrun & H' & Hf); [done..|].
  exists s'. split; [done|]. split; [done|]. split; [by apply insert_ordered_sorted|]. split; [done|].
  destruct (rbtree_depth _ _ _ H') as (sn & T & Hr & He & Hd). exists sn, T. do 2 (split; [done|]).
  by rewrite insert_sorted_perm in Hd.
Qed.
End Correct.

(** *** A tree of three nodes *)
Definition fresh_node (k : Z) : node := mk_node k 0 0 0 0.

Definition example_store : store :=
  mk_store (list_to_map [(1, fresh_node 0); (2, fresh_node 30); (3, fresh_node 10); (4, fresh_node 20)]) 0.

Definition example_build : M unit :=
  ngx_rbtree_init 1;;
  ngx_rbtree_insert 1 (ngx_rbtree_insert_value 1) 2;;
  ngx_rbtree_insert 1 (ngx_rbtree_insert_value 1) 3;;
  ngx_rbtree_insert 1 (ngx_rbtree_insert_value 1) 4.

Definition example_node (k l r p c : Z) : option node := Some (mk_node k l r p c).

Example build_rotates :
  match example_build example_store with
  | Some (_, s) =>
      (root s =? 4) &&
      bool_decide (key <$> mem s !! 4 = Some 20) && bool_decide (left <$> mem s !! 4 = Some 3) &&
      bool_decide (right <$> mem s !! 4 = Some 2) && bool_decide (color <$> mem s !! 3 = Some 1)
  | None => false
  end = true.
Proof. reflexivity. Qed.

Lemma example_empty : rbtree 1 (mk_store (mem example_store) 1) [].
Proof.
  exists (fresh_node 0), Leaf, 0%nat. split; [|split; [constructor|done]]. split; try done.
  - by exists 0.
  - apply NoDup_singleton.
Qed.

Lemma rbtree_insert_correct_witness :
  ∃ s', ngx_rbtree_insert 1 (ngx_rbtree_insert_value 1) 2 (mk_store (mem example_store) 1) = Some (tt, s') ∧
    rbtree 1 s' [(2, 30)].
Proof.
  destruct (rbtree_insert_correct 1 (ngx_rbtree_insert_value 1) value_before
    (mk_store (mem example_store) 1) [] 2 (fresh_node 30)) as (s' & H1 & H2 & _).
  - exact example_empty.
  - constructor.
  - apply value_transitive.
  - by intros k Hk%elem_of_nil.
  - reflexivity.
  - done.
  - by apply not_elem_of_nil.
  - by exists s'.
Defined.

End RbtreeInsert.
