(* ===== verification/RbtreeDelete.v ===== *)
(** * Deletion from the red-black tree

    The loop of [ngx_rbtree_delete], the removal of a node with one child or
    with two, [ngx_rbtree_min] and [ngx_rbtree_init]. *)

From stdpp Require Import gmap sorting relations.
From S2P Require Import Prelude Rbtree RbtreeRep RbtreeInsert.
Import Rbtree.Rbtree RbtreeRep.RbtreeRep RbtreeInsert.RbtreeInsert.
Open Scope Z_scope.

Module RbtreeDelete.

(** ** The deletion re-balances the tree *)
Section Delete.
Context (sentinel : Z) (s0 : store) (A : list Z) (sn : node).
Abbreviation repr := (repr sentinel s0 A sn).
Abbreviation ptr := (ptr sentinel).

(** [delete_left] and [delete_right] as one; [delete_last] starts where [w] is
    black. *)
Definition delete_last (d : dir) (temp w : Z) : M Z :=
  wl ← w @ left;
  lblack ← ngx_rbt_is_black wl;
  both ← (if (lblack : bool) then wr ← w @ right; ngx_rbt_is_black wr else mret false);
  if (both : bool) then
    ngx_rbt_red w;;
    temp @ parent
  else
    wf ← w @ child (opp d);
    fblack ← ngx_rbt_is_black wf;
    w ← (if (fblack : bool) then
           wn ← w @ child d;
           ngx_rbt_black wn;;
           ngx_rbt_red w;;
           rotate sentinel (opp d) w;;
           p ← temp @ parent;
           p @ child (opp d)
         else mret w);
    p ← temp @ parent;
    ngx_rbt_copy_color w p;;
    p ← temp @ parent;
    ngx_rbt_black p;;
    wf ← w @ child (opp d);
    ngx_rbt_black wf;;
    p ← temp @ parent;
    rotate sentinel d p;;
    get_root.

Definition delete_side (d : dir) (temp : Z) : M Z :=
  p ← temp @ parent;
  w ← p @ child (opp d);
  red ← ngx_rbt_is_red w;
  w ← (if (red : bool) then
         ngx_rbt_black w;;
         p ← temp @ parent;
         ngx_rbt_red p;;
         p ← temp @ parent;
         rotate sentinel d p;;
         p ← temp @ parent;
         p @ child (opp d)
       else mret w);
  delete_last d temp w.

Lemma delete_left_side : delete_left sentinel = delete_side DL.
Proof. reflexivity. Qed.
Lemma delete_right_side : delete_right sentinel = delete_side DR.
Proof. reflexivity. Qed.

(** The tree [X] has a black node too few; a red root makes up for it. *)
Definition lacking (n : nat) (X : tree) : Prop :=
  if is_red X then rb false (S n) (blacken X) else rb false n X.

Definition deleting (m : nat) (E : list (Z * Z)) (C : list frame) (X : tree) : Prop :=
  (∃ n, lacking n X ∧ (C = [] ∨ rbc m C (S n))) ∧ elements (plug C X) = E.

(** The parent of [temp], which may be the sentinel. *)
Definition parent_ok (f : frame) (X : tree) : Prop := X = Leaf → parent sn = faddr f.

Lemma wp_temp_parent s f C X Q :
  repr s (plug (f :: C) X) → parent_ok f X → Q (faddr f) s → wp (ptr X @ parent) s Q.
Proof.
  intros H Hp HQ. destruct X as [|c l a k r].
  - eapply wp_get; [apply (repr_sentinel _ _ _ _ _ _ H)|]. by rewrite Hp.
  - by apply (wp_parent sentinel s0 A sn s f C DL c l a k r).
Qed.

Lemma wp_both s C d c w1 w wk w2 (K : bool → M Z) Q :
  repr s (plug C (mk d c w1 w wk w2)) →
  wp (K (negb (is_red w1) && negb (is_red w2))) s Q →
  wp (wl ← w @ left;
      lblack ← ngx_rbt_is_black wl;
      both ← (if (lblack : bool) then wr ← w @ right; ngx_rbt_is_black wr else mret false);
      K both) s Q.
Proof.
  intros H HQ.
  assert (∃ l r, repr s (plug C (mk DL c l w wk r)) ∧
    negb (is_red w1) && negb (is_red w2) = negb (is_red l) && negb (is_red r)) as (l & r & H' & E).
  { destruct d; [by exists w1, w2|]. exists w2, w1. split; [done|]. apply andb_comm. }
  rewrite E in HQ. eapply wp_bind, (wp_child _ _ _ _ s C DL c l w wk r); [exact H'|].
  eapply wp_bind, (wp_black _ _ _ _ s (Frame DL c w wk r :: C) l); [exact H'|].
  destruct (is_red l); cbn [negb andb] in *; [by apply wp_bind, wp_ret|].
  eapply wp_bind, wp_bind, (wp_child_opp _ _ _ _ s C DL c l w wk r); [exact H'|].
  rewrite plug_swap in H'. eapply (wp_black _ _ _ _ s _ r); [exact H'|done].
Qed.

(** The last rotation, with a black sibling [w] whose far child is red. *)
Lemma delete_rotate_ok d c p pk w1 w wk w2 C X m n s Q :
  let T := plug (Frame d c p pk (mk d false w1 w wk w2) :: C) X in
  repr s T → parent_ok (Frame d c p pk (mk d false w1 w wk w2)) X →
  rb false n X → (∃ c1, rb c1 n w1) → rb true n w2 →
  rbc m (Frame d c p pk (mk d false w1 w wk w2) :: C) (S n) →
  (∀ s' X', repr s' X' → rb false m X' → X' ≠ Leaf → elements X' = elements T → Q (ptr X') s') →
  wp (p ← ptr X @ parent;
      ngx_rbt_copy_color w p;;
      p ← ptr X @ parent;
      ngx_rbt_black p;;
      wf ← w @ child (opp d);
      ngx_rbt_black wf;;
      p ← ptr X @ parent;
      rotate sentinel d p;;
      get_root) s Q.
Proof.
  intros T H Hpar HX [c1 Hw1] Hw2 HC HQ. subst T.
  eapply wp_bind, wp_temp_parent; [exact H|done|]. cbn [faddr].
  eapply wp_bind, wp_bind.
  destruct (repr_cell _ _ _ _ _ _ d c X p pk (mk d false w1 w wk w2) H) as [gp Hcell].
  eapply wp_get; [exact Hcell|]. replace (color _) with (Z.b2z c) by by destruct d.
  pose proof H as Hw. cbn [plug] in Hw. unfold fill in Hw. cbn [fdir fred faddr fkey fsib] in Hw.
  rewrite plug_swap in Hw.
  eapply (wp_color _ _ _ _ s _ d false w1 w wk w2); [exact Hw|by destruct c; [right|left]|].
  replace (Z.b2z c =? 1) with c by by destruct c. intros s1 H1.
  rewrite <- plug_swap in H1.
  eapply wp_bind, (wp_temp_parent s1 (Frame d c p pk (mk d c w1 w wk w2)) C X); [exact H1|done|].
  eapply wp_bind, (wp_color _ _ _ _ s1 C d c X p pk); [exact H1|by left|]. intros s2 H2.
  rewrite plug_swap in H2.
  eapply wp_bind, (wp_child_opp _ _ _ _ s2 _ d c w1 w wk w2); [exact H2|].
  rewrite plug_swap in H2.
  eapply wp_bind, (wp_blacken _ _ _ _ _ _ w2); [exact H2|]. intros s3 H3.
  rewrite <- plug_swap, <- plug_swap in H3.
  eapply wp_bind, (wp_temp_parent s3 (Frame d false p pk (mk d c w1 w wk (blacken w2))) C X);
    [exact H3|done|]. cbn [faddr].
  eapply wp_bind, (wp_rotate _ _ _ _ s3 C d false X p pk c w1 w wk (blacken w2)); [exact H3|].
  intros s4 H4. apply wp_root. rewrite (repr_root _ _ _ _ _ _ H4). apply HQ; [exact H4| | |].
  - assert (Hb2 : rb false (S n) (blacken w2)) by (inversion Hw2; subst; by econstructor).
    assert (Hnew : rb c (if c then S n else S (S n)) (mk d c (mk d false X p pk w1) w wk (blacken w2))).
    { destruct c.
      - apply rb_mk_red. split; [done|]. split; [|done]. apply rb_mk_black. by eexists _, _, _.
      - apply rb_mk_black. eexists _, _, _. split; [done|]. split; [done|]. split; [|exact Hb2].
        apply rb_mk_black. by eexists _, _, _. }
    inversion HC as [|? ? ? Hc _ Hbt HC'|? ? ? ? Hc _ HC']; cbn in Hc; subst c.
    + destruct (rb_plug m C _ _ _ HC' Hnew) as (c' & Hc' & Hf); [by right|].
      rewrite Hf in Hc'; [done|]. by destruct C.
    + destruct (rb_plug m C _ _ _ HC' Hnew) as (c' & Hc' & Hf); [done|].
      destruct C; [|by rewrite Hf in Hc']. cbn in Hc'.
      by apply rb_mk_black in Hc' as (? & ? & ? & -> & -> & ? & ?); apply rb_mk_black; eexists _, _, _.
  - intros E. apply (f_equal addrs) in E.
    assert (w ∈ addrs (plug C (mk d c (mk d false X p pk w1) w wk (blacken w2)))) as Hin.
    { rewrite addrs_plug, addrs_mk. by left. }
    rewrite E in Hin. by apply elem_of_nil in Hin.
  - elements_eq.
Qed.

(** With a black sibling: the lack moves up, or is gone. *)
Lemma delete_last_ok d c p pk w1 w wk w2 C X m n s Q :
  let T := plug (Frame d c p pk (mk d false w1 w wk w2) :: C) X in
  repr s T → parent_ok (Frame d c p pk (mk d false w1 w wk w2)) X →
  rb false n X → (∃ c1, rb c1 n w1) → (∃ c2, rb c2 n w2) →
  rbc m (Frame d c p pk (mk d false w1 w wk w2) :: C) (S n) →
  (∀ s' C' X', repr s' (plug C' X') → deleting m (elements T) C' X' → X' ≠ Leaf →
     C' = [] ∨ (C' = C ∧ is_red X' = c) → Q (ptr X') s') →
  wp (delete_last d (ptr X) w) s Q.
Proof.
  intros T H Hpar HX [c1 Hw1] [c2 Hw2] HC HQ. subst T.
  pose proof H as Hw. cbn [plug] in Hw. unfold fill in Hw. cbn [fdir fred faddr fkey fsib] in Hw.
  rewrite plug_swap in Hw.
  unfold delete_last. eapply (wp_both s _ d false w1 w wk w2); [exact Hw|].
  rewrite (rb_color _ _ _ Hw1), (rb_color _ _ _ Hw2).
  assert (Hdone : ∀ s' X', repr s' X' → rb false m X' → X' ≠ Leaf →
    elements X' = elements (plug (Frame d c p pk (mk d false w1 w wk w2) :: C) X) → Q (ptr X') s').
  { intros s' X' H' Hrb Hne He. apply (HQ s' [] X'); [done| |done|by left]. split; [|done].
    exists m. split; [|by left]. unfold lacking. by rewrite (rb_color _ _ _ Hrb). }
  destruct c2; [|destruct c1]; cbn [negb andb].
  - (* the far child is red *)
    rewrite andb_false_r. eapply wp_bind, (wp_child_opp _ _ _ _ s _ d false w1 w wk w2); [exact Hw|].
    rewrite plug_swap in Hw.
    eapply wp_bind, (wp_black _ _ _ _ s _ w2); [exact Hw|]. rewrite (rb_color _ _ _ Hw2). cbn [negb].
    apply wp_bind, wp_ret.
    eapply (delete_rotate_ok d c p pk w1 w wk w2 C X m n); [exact H|done|done|by exists c1|done|done|].
    exact Hdone.
  - (* the near child is red, the far one black *)
    assert (exists y1 b bk y2, w1 = mk (opp d) true y2 b bk y1) as (y1 & b & bk & y2 & ->).
    { inversion Hw1; subst. destruct d; by eexists _, _, _, _. }
    pose proof Hw1 as (_ & Hy2 & Hy1)%rb_mk_red.
    eapply wp_bind, (wp_child_opp _ _ _ _ s _ d false _ w wk w2); [exact Hw|].
    pose proof Hw as Hw'. rewrite plug_swap in Hw'.
    eapply wp_bind, (wp_black _ _ _ _ s _ w2); [exact Hw'|]. rewrite (rb_color _ _ _ Hw2). cbn [negb].
    apply wp_bind.
    eapply wp_bind, (wp_child _ _ _ _ s _ d false _ w wk w2); [exact Hw|].
    eapply wp_bind, (wp_blacken _ _ _ _ s (Frame d false w wk w2 :: Frame (opp d) c p pk X :: C)); [exact Hw|]. intros s1 H1.
    eapply wp_bind, (wp_color _ _ _ _ s1 (Frame (opp d) c p pk X :: C) d false
      (blacken (mk (opp d) true y2 b bk y1)) w wk w2); [exact H1|by right|]. intros s2 H2.
    replace (blacken _) with (mk (opp d) false y2 b bk y1) in H2 by by destruct d.
    rewrite mk_opp in H2. rewrite <- (mk_opp d) in H2.
    assert (H2' : repr s2 (plug (Frame (opp d) c p pk X :: C)
      (mk (opp d) true w2 w wk (mk (opp d) false y2 b bk y1)))).
    { rewrite !mk_opp. rewrite !mk_opp in H2. exact H2. }
    eapply wp_bind, (wp_rotate _ _ _ _ s2 (Frame (opp d) c p pk X :: C) (opp d) true w2 w wk false y2 b bk y1); [exact H2'|].
    intros s3 H3. rewrite !mk_opp in H3. rewrite <- plug_swap in H3.
    eapply wp_bind, (wp_temp_parent s3 (Frame d c p pk _) C X); [exact H3|done|]. cbn [faddr].
    eapply (wp_child_opp _ _ _ _ s3 C d c X p pk); [exact H3|]. rewrite ptr_mk.
    eapply (delete_rotate_ok d c p pk y1 b bk (mk d true y2 w wk w2) C X m n);
      [exact H3|done|done|by exists false|by apply rb_mk_red| |].
    + inversion HC as [|? ? ? Hc _ Hbt HC'|? ? ? ? Hc _ HC']; cbn in Hc; subst c.
      * apply rbc_red; cbn; [done| |done|done]. apply rb_mk_black.
        eexists _, _, _. split; [done|]. split; [done|]. split; [done|]. by apply rb_mk_red.
      * apply (rbc_black _ _ _ _ false); cbn; [done| |done]. apply rb_mk_black.
        eexists _, _, _. split; [done|]. split; [done|]. split; [done|]. by apply rb_mk_red.
    + intros s' X' H' Hrb Hne He. apply Hdone; [done..|]. rewrite He. elements_eq.
  - (* both children are black *)
    eapply wp_bind, (wp_color _ _ _ _ s _ d false w1 w wk w2); [exact Hw|by right|]. intros s1 H1.
    rewrite <- plug_swap in H1.
    eapply (wp_temp_parent s1 (Frame d c p pk _) C X); [exact H1|done|]. cbn [faddr].
    set (X' := mk d c X p pk (mk d true w1 w wk w2)).
    replace p with (ptr X') by apply ptr_mk.
    assert (Hred : rb true n (mk d true w1 w wk w2)) by by apply rb_mk_red.
    apply (HQ s1 C X'); [exact H1| |by destruct d|right; split; [done|apply is_red_mk]].
    split; [|subst X'; elements_eq].
    inversion HC as [|? ? ? Hc _ Hbt HC'|? ? ? ? Hc _ HC']; cbn in Hc; subst c.
    + exists n. split; [|by right]. unfold lacking. subst X'. rewrite is_red_mk.
      replace (blacken _) with (mk d false X p pk (mk d true w1 w wk w2)) by by destruct d.
      apply rb_mk_black. by eexists _, _, _.
    + exists (S n). split; [|by right]. unfold lacking. subst X'. rewrite is_red_mk.
      apply rb_mk_black. by eexists _, _, _.
Qed.

(** One turn of the loop. *)
Lemma delete_side_ok d c p pk W C X m s Q :
  let T := plug (Frame d c p pk W :: C) X in
  repr s T → parent_ok (Frame d c p pk W) X → deleting m (elements T) (Frame d c p pk W :: C) X →
  is_red X = false →
  (∀ s' C' X', repr s' (plug C' X') → deleting m (elements T) C' X' → X' ≠ Leaf →
     is_red X' = true ∨ (length C' ≤ length C)%nat → Q (ptr X') s') →
  wp (delete_side d (ptr X)) s Q.
Proof.
  intros T H Hpar Hdel Hblack HQ. subst T.
  destruct Hdel as [(n & HX & HC) _]. unfold lacking in HX. rewrite Hblack in HX.
  destruct HC as [|HC]; [done|].
  eapply wp_bind, wp_temp_parent; [exact H|done|]. cbn [faddr].
  eapply wp_bind, (wp_child_opp _ _ _ _ s C d c X p pk W); [exact H|].
  pose proof H as HW. cbn [plug] in HW. unfold fill in HW. cbn [fdir fred faddr fkey fsib] in HW.
  rewrite plug_swap in HW.
  eapply wp_bind, (wp_red _ _ _ _ s _ W); [exact HW|].
  assert (∃ cw w1 w wk w2, W = mk d cw w1 w wk w2 ∧ rb cw (S n) W) as (cw & w1 & w & wk & w2 & -> & HrbW).
  { assert (∃ cw, rb cw (S n) W) as [cw HrbW].
    { inversion HC; subst; cbn in *; by eexists. }
    exists cw. inversion HrbW; subst; destruct d; by eexists _, _, _, _. }
  rewrite is_red_mk, ptr_mk. destruct cw.
  - (* the sibling is red *)
    pose proof HrbW as (_ & Hw1 & Hw2)%rb_mk_red.
    assert (c = false) as ->.
    { inversion HC as [|? ? ? Hc Hs _ _|]; subst; cbn in *; [|done].
      apply rb_color in Hs. by rewrite is_red_mk in Hs. }
    inversion HC as [|? ? ? Hc _ _ _|? ? ? ? _ _ HC']; [done|]. subst.
    assert (∃ y1 b bk y2, w1 = mk d false y1 b bk y2 ∧ (∃ c1, rb c1 n y1) ∧ (∃ c2, rb c2 n y2))
      as (y1 & b & bk & y2 & -> & Hy1 & Hy2).
    { inversion Hw1; subst.
      destruct d; eexists _, _, _, _; (split; [reflexivity|]); split; by eexists. }
    eapply wp_bind, wp_bind, (wp_color _ _ _ _ s _ d true _ w wk w2); [exact HW|by left|].
    intros s1 H1. rewrite <- plug_swap in H1.
    eapply wp_bind, (wp_temp_parent s1 (Frame d false p pk _) C X); [exact H1|done|]. cbn [faddr].
    eapply wp_bind, (wp_color _ _ _ _ s1 C d false X p pk); [exact H1|by right|]. intros s2 H2.
    eapply wp_bind, (wp_temp_parent s2 (Frame d true p pk _) C X); [exact H2|done|]. cbn [faddr].
    eapply wp_bind, (wp_rotate _ _ _ _ s2 C d true X p pk false _ w wk w2); [exact H2|].
    intros s3 H3.
    eapply wp_bind, (wp_temp_parent s3 (Frame d true p pk _) (Frame d false w wk w2 :: C) X);
      [exact H3|done|]. cbn [faddr].
    eapply (wp_child_opp _ _ _ _ s3 (Frame d false w wk w2 :: C) d true X p pk); [exact H3|].
    rewrite ptr_mk.
    eapply (delete_last_ok d true p pk y1 b bk y2 (Frame d false w wk w2 :: C) X m n);
      [exact H3|done|done|done|done| |].
    + apply rbc_red; [done|done|done|]. by eapply rbc_black.
    + intros s' C' X' H' [Hd' He] Hne Hor. apply (HQ s' C' X'); [done| |done|].
      * split; [done|]. rewrite He. elements_eq.
      * destruct Hor as [-> | [_ ?]]; [right; cbn; lia|by left].
  - (* the sibling is black *)
    pose proof HrbW as (n' & c1 & c2 & _ & [= <-] & Hw1 & Hw2)%rb_mk_black.
    apply wp_bind, wp_ret.
    eapply (delete_last_ok d c p pk w1 w wk w2 C X m n);
      [exact H|done|done|by exists c1|by exists c2|done|].
    intros s' C' X' H' Hd' Hne Hor. apply (HQ s' C' X'); [done..|].
    destruct Hor as [-> | [-> _]]; right; cbn; lia.
Qed.

(** The whole loop. *)
Lemma rbc_sibling m f C n : rbc m (f :: C) (S n) → fsib f ≠ Leaf.
Proof. inversion 1 as [|? ? ? _ Hs _ _|? ? ? ? _ Hs _]; intros E; rewrite E in Hs; inversion Hs. Qed.

Lemma not_root s f C X : repr s (plug (f :: C) X) → ptr X ≠ root s.
Proof.
  intros (gp & _ & _ & -> & Hd)%repr_cut. pose proof (top_in (f :: C) (ptr X) ltac:(done)) as Hin.
  intros E. rewrite <- E in Hin. nodup Hd.
  destruct (ptr_in sentinel X) as [-> | HX]; [cbn in *; contradiction|].
  by eapply Hd2.
Qed.

(** On which side of its parent [temp] is; both may be the sentinel, but a
    sibling cannot. *)
Lemma wp_left_test s f C X Q :
  repr s (plug (f :: C) X) → fsib f ≠ Leaf →
  (∀ pl, (ptr X =? pl) = goes_left (fdir f) → Q pl s) → wp (faddr f @ left) s Q.
Proof.
  intros H Hs HQ. destruct f as [d c p pk sib]. cbn [faddr fdir fsib] in *. destruct d.
  - eapply (wp_child _ _ _ _ s C DL c X p pk sib); [exact H|]. apply HQ, Z.eqb_refl.
  - eapply (wp_child_opp _ _ _ _ s C DR c X p pk sib); [exact H|]. apply HQ. apply Z.eqb_neq.
    intros E. apply repr_cut in H as (gp & _ & _ & _ & Hn). cbn in Hn. nodup Hn.
    destruct (ptr_in sentinel sib) as [?|Hin]; [done|]. rewrite <- E in Hin.
    destruct (ptr_in sentinel X) as [-> | HX]; [cbn in *; contradiction|].
    apply (Hn2 _ HX). right. apply elem_of_app. by left.
Qed.

Lemma delete_loop_ok m E (Q : unit → store → Prop) : ∀ fuel C X s,
  repr s (plug C X) → deleting m E C X →
  (X = Leaf → match C with f :: _ => parent sn = faddr f | [] => False end) →
  ((if is_red X then 1 else S (length C)) ≤ fuel)%nat →
  (∀ s' T m', repr s' T → rb false m' T → elements T = E → Q tt s') →
  wp (delete_loop sentinel fuel (ptr X)) s Q.
Proof.
  induction fuel as [|fuel IH]; intros C X s H Hdel Hpar Hl HQ; [destruct (is_red X); lia|].
  cbn [delete_loop]. eapply wp_bind, wp_root. pose proof Hdel as [(n & HX & HC) HE].
  assert (Hend : ∀ C' X', repr s (plug C' X') → (∃ m', rb false m' (plug C' (blacken X'))) →
    elements (plug C' X') = E → wp (ngx_rbt_black (ptr X')) s Q).
  { intros C' X' H' [m' Hm'] He. eapply wp_blacken; [exact H'|]. intros s' Hs'.
    eapply HQ; [exact Hs'|exact Hm'|]. rewrite <- He. elements_eq. }
  assert (Hfin : (∃ m', rb false m' (blacken X))).
  { unfold lacking in HX. destruct (is_red X); [by eexists|by eapply rb_blacken]. }
  destruct C as [|f C].
  { rewrite (repr_root _ _ _ _ _ _ H). cbn [plug]. rewrite Z.eqb_refl.
    apply wp_bind, wp_ret. by apply (Hend [] X). }
  destruct HC as [|HC]; [done|].
  rewrite (proj2 (Z.eqb_neq _ _) (not_root _ _ _ _ H)).
  eapply wp_bind, wp_black; [exact H|]. unfold lacking in HX.
  destruct (is_red X) eqn:Ered; cbn [negb].
  { apply (Hend (f :: C)); [exact H| |done].
    destruct (rb_plug m (f :: C) _ false _ HC HX) as (c' & Hc' & Hf); [done|].
    rewrite Hf in Hc' by done. by exists m. }
  eapply wp_bind, wp_temp_parent; [exact H|exact Hpar|].
  pose proof (rbc_sibling _ _ _ _ HC) as Hsib.
  eapply wp_bind, wp_left_test; [exact H|exact Hsib|]. intros pl Hpl. rewrite Hpl.
  assert (Hside : wp (delete_side (fdir f) (ptr X)) s
    (λ v s', wp (delete_loop sentinel fuel v) s' Q)).
  { destruct f as [d c p pk W]. rewrite <- HE in Hdel.
    eapply (delete_side_ok d c p pk W C X m); [exact H|exact Hpar|exact Hdel|done|].
    intros s' C' X' H' Hd' Hne Hlen. eapply IH; [exact H'|by rewrite <- HE|done| |done].
    cbn in Hl. destruct Hlen as [-> | Hlen]; [lia|]. destruct (is_red X'); lia. }
  apply wp_bind. destruct (fdir f); cbn [goes_left].
  - by rewrite delete_left_side.
  - by rewrite delete_right_side.
Qed.
End Delete.

(** ** The binary tree delete *)
Section Unlink.
Context (sentinel : Z).
Abbreviation ptr := (ptr sentinel).
Abbreviation rep := (rep sentinel).
Abbreviation ctx_rep := (ctx_rep sentinel).

(** [temp] takes the place of [subst] in its parent. *)
Definition unlink (subst temp : Z) : M unit :=
  sp ← subst @ parent;
  spl ← sp @ left;
  if subst =? spl then sp @ left := temp else sp @ right := temp.

Lemma wp_unlink b t f C gp s n Q :
  mem s !! b = Some n → parent n = faddr f → ctx_rep (mem s) gp b (f :: C) →
  b ≠ sentinel → b ∉ ctx_addrs (f :: C) → NoDup (ctx_addrs (f :: C)) →
  (∀ s', ctx_rep (mem s') gp t (f :: C) → root s' = root s →
         (∀ e, e ∉ ctx_addrs (f :: C) → mem s' !! e = mem s !! e) → Q tt s') →
  wp (unlink b t) s Q.
Proof.
  intros Hb Hp HC Hs Hn Hd HQ. cbn [ctx_rep above ctx_addrs] in *. destruct HC as (Hf & Hsib & HC).
  eapply wp_bind, wp_get; [exact Hb|]. rewrite Hp. eapply wp_bind, wp_get; [exact Hf|].
  assert (Hnew : wp (update (set_child (fdir f) t) (faddr f)) s Q).
  { apply (wp_update _ _ _ _ _ Hf), HQ; cbn [mem root].
    - split; [rewrite lookup_insert_eq; by destruct (fdir f)|]. nodup Hd. split.
      + eapply rep_frame; [|done]. intros e He. rewrite lookup_insert_ne; [done|distinct].
      + eapply ctx_frame; [|done]. intros e He. rewrite lookup_insert_ne; [done|distinct].
    - done.
    - intros e He. split_notin. rewrite lookup_insert_ne; [done|distinct]. }
  split_notin. assert (b ≠ ptr (fsib f)) by by apply ptr_notin.
  destruct (fdir f); cbn [cell left];
    first [rewrite Z.eqb_refl | rewrite (proj2 (Z.eqb_neq _ _)) by done]; exact Hnew.
Qed.

(** [temp->parent = v], for a tree or the sentinel. *)
Definition sentinel_parent (X : tree) (sn sn' : node) (v : Z) : Prop :=
  match X with Leaf => sn' = sn <| parent := v |> | _ => sn' = sn end.

Lemma wp_set_parent X v q s sn Q :
  rep (mem s) q X → NoDup (sentinel :: addrs X) → mem s !! sentinel = Some sn →
  (∀ s' sn', rep (mem s') v X → mem s' !! sentinel = Some sn' → sentinel_parent X sn sn' v →
     root s' = root s →
     (∀ e, e ≠ sentinel → e ∉ addrs X → mem s' !! e = mem s !! e) → Q tt s') →
  wp (ptr X @ parent := v) s Q.
Proof.
  intros HX Hd Hs HQ. destruct X as [|c l a k r].
  - eapply wp_update; [exact Hs|]. eapply HQ; cbn [mem root]; [done|apply lookup_insert_eq|done|done|].
    intros e He _. by rewrite lookup_insert_ne.
  - assert (ptr (Node c l a k r) ≠ sentinel) as Hne.
    { intros E. apply list.NoDup_cons in Hd as [Hd _].
      destruct (ptr_in sentinel (Node c l a k r)) as [|Hin]; [done|]. by rewrite E in Hin. }
    pose proof (wp_reparent sentinel (Node c l a k r) q v s Q HX Hd) as H. unfold reparent in H.
    rewrite (proj2 (Z.eqb_neq _ _) Hne) in H. apply H. intros s' H1 H2 H3.
    eapply HQ; [done| |done|done|].
    + rewrite H3; [exact Hs|]. by apply list.NoDup_cons in Hd as [? _].
    + intros e _ He. by apply H3.
Qed.

(** [b] takes the place of [a]. *)
Lemma wp_replace a b k kb c l r q C gp s nb Q :
  mem s !! a = Some (cell DL k (ptr l) (ptr r) (above gp C) c) →
  mem s !! b = Some nb → key nb = kb →
  rep (mem s) a l → rep (mem s) q r → ctx_rep (mem s) gp a C → root s = top a C →
  NoDup (a :: b :: sentinel :: addrs l ++ addrs r ++ ctx_addrs C) →
  (∀ s', rep (mem s') (above gp C) (Node c l b kb r) → ctx_rep (mem s') gp b C → root s' = top b C →
     (∀ e, e ≠ b → e ∉ addrs l → e ∉ addrs r → e ∉ ctx_addrs C → mem s' !! e = mem s !! e) →
     Q tt s') →
  wp (replace_node sentinel a b) s Q.
Proof.
  intros Ha Hb Hk Hl Hr HC Hroot Hd HQ. nodup Hd.
  eapply wp_bind, wp_get; [exact Ha|]. cbn [left cell].
  eapply wp_bind, wp_update; [exact Hb|].
  eapply wp_bind, wp_get; [cbn [mem]; rewrite lookup_insert_ne by distinct; exact Ha|].
  cbn [right cell].
  eapply wp_bind, wp_update; [cbn [mem]; apply lookup_insert_eq|].
  eapply wp_bind, wp_get; [cbn [mem]; rewrite !lookup_insert_ne by distinct; exact Ha|].
  cbn [parent cell].
  eapply wp_bind, wp_update; [cbn [mem]; apply lookup_insert_eq|].
  eapply wp_bind, wp_bind, wp_get;
    [cbn [mem]; rewrite !lookup_insert_ne by distinct; exact Ha|].
  cbn [color cell]. eapply wp_update; [cbn [mem]; apply lookup_insert_eq|].
  cbn [mem root]. rewrite !insert_insert_eq. set (s1 := mk_store _ _).
  assert (Hb1 : mem s1 !! b = Some (cell DL kb (ptr l) (ptr r) (above gp C) c)).
  { subst s1. cbn [mem]. rewrite lookup_insert_eq. destruct nb. cbn in *. by subst. }
  assert (Hs1 : ∀ e, e ≠ b → mem s1 !! e = mem s !! e).
  { intros e He. subst s1. cbn [mem]. by rewrite lookup_insert_ne. }
  assert (Hr1 : root s1 = root s) by done. clearbody s1.
  change (wp (relink DL a b;;
    sl ← b @ left; reparent sentinel sl b;; sr ← b @ right; reparent sentinel sr b) s1 Q).
  eapply wp_bind, (wp_relink sentinel DL a b C gp);
    [rewrite Hs1 by distinct; exact Ha|done| |congruence|distinct..|].
  { eapply ctx_frame; [|exact HC]. intros e He. apply Hs1. distinct. }
  intros s2 HC2 Hr2 Hs2.
  eapply wp_bind, wp_get; [rewrite Hs2 by distinct; exact Hb1|]. cbn [left cell].
  eapply wp_bind, (wp_reparent sentinel l a).
  { eapply rep_frame; [|exact Hl]. intros e He. rewrite Hs2, Hs1 by distinct. done. }
  { constructor; distinct. }
  intros s3 Hl3 Hr3 Hs3.
  eapply wp_bind, wp_get; [rewrite Hs3, Hs2 by distinct; exact Hb1|]. cbn [right cell].
  eapply (wp_reparent sentinel r q).
  { eapply rep_frame; [|exact Hr]. intros e He. rewrite Hs3, Hs2, Hs1 by distinct. done. }
  { constructor; distinct. }
  intros s4 Hr4 Hroot4 Hs4. apply HQ.
  - cbn. split; [rewrite Hs4, Hs3, Hs2 by distinct; exact Hb1|]. split; [|exact Hr4].
    eapply rep_frame; [|exact Hl3]. intros e He. rewrite Hs4 by distinct. done.
  - eapply ctx_frame; [|exact HC2]. intros e He. rewrite Hs4, Hs3 by distinct. done.
  - congruence.
  - intros e H1' H2' H3' H4'. by rewrite Hs4, Hs3, Hs2, Hs1.
Qed.
End Unlink.

(** ** [ngx_rbtree_min] and [ngx_rbtree_delete] *)
Section DeleteNode.
Context (sentinel : Z).
Abbreviation ptr := (ptr sentinel).
Abbreviation rep := (rep sentinel).
Abbreviation ctx_rep := (ctx_rep sentinel).

Abbreviation leftmost := (Forall (λ f, fdir f = DL)).

Lemma wp_min s0 A sn Q : ∀ fuel C c l a k r s,
  repr sentinel s0 A sn s (plug C (Node c l a k r)) →
  (length (addrs (Node c l a k r)) ≤ fuel)%nat →
  (∀ D cb b kb X, Node c l a k r = plug D (Node cb Leaf b kb X) → leftmost D → Q b s) →
  wp (min_loop sentinel fuel a) s Q.
Proof.
  induction fuel as [|fuel IH]; intros C c l a k r s H Hl HQ;
    change (Node c l a k r) with (mk DL c l a k r) in Hl; rewrite addrs_mk in Hl;
    cbn [length app] in Hl; [lia|]. rewrite length_app in Hl.
  cbn [min_loop]. eapply wp_bind, (wp_child _ _ _ _ s C DL c l a k r); [exact H|].
  destruct l as [|c' l' a' k' r'].
  - cbn [RbtreeRep.ptr]. rewrite Z.eqb_refl. apply wp_ret. by apply (HQ [] c a k r).
  - pose proof H as H'. change (repr sentinel s0 A sn s
      (plug (Frame DL c a k r :: C) (Node c' l' a' k' r'))) in H'.
    replace (ptr _ =? sentinel) with false.
    + eapply wp_bind, (wp_child _ _ _ _ s C DL c _ a k r); [exact H|].
      change (ptr (Node c' l' a' k' r')) with a'. eapply IH; [exact H'|lia|].
      intros D cb b kb X E HD. apply (HQ (D ++ [Frame DL c a k r]) cb b kb X).
      * by rewrite plug_app, <- E.
      * apply Forall_app_2; [done|]. by repeat constructor.
    + symmetry. apply Z.eqb_neq. intros E. apply repr_cut in H' as (gp & _ & _ & _ & Hn).
      nodup Hn. rewrite <- E in *. by destruct (ptr_in sentinel (Node c' l' a' k' r')) as [|?].
Qed.

Definition cleared (n : node) : node := mk_node 0 NULL NULL NULL (color n).

Lemma wp_clear node n s Q :
  mem s !! node = Some n → Q tt (mk_store (<[node := cleared n]> (mem s)) (root s)) →
  wp (clear node) s Q.
Proof.
  intros Hn HQ.
  eapply wp_bind, wp_update; [exact Hn|].
  do 2 (eapply wp_bind, wp_update; [cbn [mem]; apply lookup_insert_eq|]).
  eapply wp_update; [cbn [mem]; apply lookup_insert_eq|]. cbn [mem root].
  rewrite !insert_insert_eq. exact HQ.
Qed.

(** A representation that only looks at the present store. *)
Abbreviation holds := (λ sn s T, repr sentinel s (addrs T) sn s T).

Lemma holds_intro gp sn s C X :
  ctx_rep (mem s) gp (ptr X) C → rep (mem s) (above gp C) X → root s = top (ptr X) C →
  NoDup (sentinel :: addrs X ++ ctx_addrs C) → mem s !! sentinel = Some sn → color sn = 0 →
  holds sn s (plug C X).
Proof.
  intros. split; try done.
  - exists gp. by apply rep_plug.
  - by rewrite ptr_plug.
  - by rewrite addrs_plug.
Qed.

Lemma holds_same sn s s' T :
  holds sn s T → root s' = root s →
  (∀ e, e = sentinel ∨ e ∈ addrs T → mem s' !! e = mem s !! e) → holds sn s' T.
Proof.
  intros [[gp Hrep] Hr Hd Hs Hb _ _] Hr' Hm. split; try done.
  - exists gp. eapply rep_frame; [|exact Hrep]. auto.
  - congruence.
  - rewrite Hm; auto.
Qed.

(** The result of a deletion that leaves the nodes of [T]. *)
Definition deleted (s : store) (node : Z) (n : Rbtree.node) (T : tree) (_ : unit) (s' : store) : Prop :=
  ∃ sn T' m, holds sn s' T' ∧ rb false m T' ∧ elements T' = elements T ∧
    mem s' !! node = Some (cleared n) ∧
    (∀ e, e ≠ node → e ≠ sentinel → e ∉ addrs T → mem s' !! e = mem s !! e).

(** [DEBUG stuff] and the loop. *)
Lemma delete_finish_ok sn s f C X node n cb m :
  holds sn s (plug (f :: C) X) → parent_ok sn f X →
  mem s !! node = Some n → node ≠ sentinel → node ∉ addrs (plug (f :: C) X) →
  (if cb : bool then rb false 0 X ∧ rbc m (f :: C) 0 else lacking 0 X ∧ rbc m (f :: C) 1) →
  wp (clear node;; if cb then nothing else λ s, delete_loop sentinel (fuel_of s) (ptr X) s) s
    (deleted s node n (plug (f :: C) X)).
Proof.
  intros H Hp Hn Hns Hna Hrb. eapply wp_bind, wp_clear; [exact Hn|].
  set (s1 := mk_store _ _).
  assert (Hs1 : ∀ e, e ≠ node → mem s1 !! e = mem s !! e).
  { intros e He. subst s1. cbn [mem]. by rewrite lookup_insert_ne. }
  assert (Hn1 : mem s1 !! node = Some (cleared n)) by apply lookup_insert_eq.
  assert (H1 : holds sn s1 (plug (f :: C) X)).
  { eapply holds_same; [exact H|done|]. intros e He. apply Hs1. intros ->. by destruct He. }
  clearbody s1. destruct cb.
  - apply wp_nothing. destruct Hrb as [HX HC].
    destruct (rb_plug m (f :: C) _ false _ HC HX) as (c' & Hc' & Hf); [done|].
    rewrite Hf in Hc' by done. exists sn, (plug (f :: C) X), m. do 4 (split; [done|]).
    intros e He _ _. by apply Hs1.
  - assert (wp (delete_loop sentinel (fuel_of s1) (ptr X)) s1
      (deleted s node n (plug (f :: C) X))) as (v & s' & Hrun & HQ); [|by exists v, s'].
    eapply (delete_loop_ok sentinel s1 (addrs (plug (f :: C) X)) sn m _ _ _ (f :: C) X);
      [exact H1| |exact Hp| |].
    + split; [|reflexivity]. exists 0%nat. split; [apply Hrb|]. right. apply Hrb.
    + apply ctx_fuel in H1. destruct (is_red X); lia.
    + intros s2 T' m' H2 Hrb2 HE. exists sn, T', m'. split; [|split; [done|split; [done|split]]].
      * eapply repr_rebase; [exact H2|done|done].
      * rewrite <- Hn1. by apply (repr_only _ _ _ _ _ _ H2).
      * intros e He _ He'. rewrite <- Hs1 by done. by apply (repr_only _ _ _ _ _ _ H2).
Qed.

(** The second half of [ngx_rbtree_delete]. *)
Definition delete_subst (node temp subst : Z) : M unit :=
  r ← get_root;
  if subst =? r then
    set_root temp;;
    ngx_rbt_black temp;;
    clear node
  else
    red ← ngx_rbt_is_red subst;
    sp ← subst @ parent;
    spl ← sp @ left;
    (if subst =? spl then sp @ left := temp else sp @ right := temp);;
    (if subst =? node then
       sp ← subst @ parent;
       temp @ parent := sp
     else
       sp ← subst @ parent;
       (if sp =? node then temp @ parent := subst
        else
          sp ← subst @ parent;
          temp @ parent := sp);;
       replace_node sentinel node subst);;
    clear node;;
    if (red : bool) then nothing
    else λ s, delete_loop sentinel (fuel_of s) temp s.

Lemma delete_unfold node :
  ngx_rbtree_delete sentinel node =
  ('(temp, subst) ← choose_subst sentinel node; delete_subst node temp subst).
Proof. reflexivity. Qed.

Lemma wp_unlink_bind b t (K : M unit) s Q :
  wp (unlink b t;; K) s Q →
  wp (sp ← b @ parent; spl ← sp @ left;
      (if b =? spl then sp @ left := t else sp @ right := t);; K) s Q.
Proof.
  unfold wp, unlink, mbind, M_bind. intros (v & s' & H & HQ). exists v, s'. split; [|done].
  destruct ((b @ parent) s) as [[sp s1]|]; [|done]. by destruct ((sp @ left) s1) as [[spl s2]|].
Qed.

(** The colours after the removal of a node with at most one child. *)
Lemma rb_one_child d c n X a k m C :
  rb c n (mk d c X a k Leaf) → rbc m C n →
  if c then rb false 0 X ∧ rbc m C 0 else lacking 0 X ∧ rbc m C 1.
Proof.
  intros Hrb HC. destruct c.
  - apply rb_mk_red in Hrb as (_ & HX & HL). inversion HL; subst. done.
  - apply rb_mk_black in Hrb as (n' & c1 & c2 & _ & -> & HX & HL). inversion HL; subst.
    split; [|done]. unfold lacking. rewrite (rb_color _ _ _ HX). destruct c1; [|done].
    inversion HX; subst. by econstructor.
Qed.

(** What a deletion has to show: the nodes but [node] are left. *)
Definition removes (s : store) (T : tree) (node : Z) (n : Rbtree.node) (_ : unit) (s' : store) : Prop :=
  ∃ sn T' m, holds sn s' T' ∧ rb false m T' ∧
    elements T' = filter (λ e, e.1 ≠ node) (elements T) ∧
    mem s' !! node = Some (cleared n) ∧
    (∀ e, e ≠ sentinel → e ∉ addrs T → mem s' !! e = mem s !! e).

Lemma filter_removed (B Af : list (Z * Z)) a k :
  NoDup (B ++ (a, k) :: Af).*1 → filter (λ e, e.1 ≠ a) (B ++ (a, k) :: Af) = B ++ Af.
Proof.
  intros Hd. rewrite fmap_app in Hd. cbn in Hd. nodup Hd.
  assert (Hall : ∀ l : list (Z * Z), a ∉ l.*1 → filter (λ e, e.1 ≠ a) l = l).
  { induction l as [|[x y] l IH]; intros Hl; [done|]. cbn in Hl. split_notin.
    rewrite filter_cons_True by (cbn; congruence). by rewrite IH. }
  rewrite list.filter_app, filter_cons_False by (cbn; tauto). rewrite !Hall; [done|done|].
  intros Hin. apply (Hd1 a Hin). by left.
Qed.

Lemma removes_deleted s s1 T node n k T1 B Af v s' :
  deleted s1 node n T1 v s' → NoDup (addrs T) →
  elements T = B ++ (node, k) :: Af → elements T1 = B ++ Af →
  (∀ e, e ≠ sentinel → e ∉ addrs T → mem s1 !! e = mem s !! e) → removes s T node n v s'.
Proof.
  intros (sn & T' & m & H & Hrb & HE & Hn & Hf) Hd HT HT1 Hs1.
  assert (HT1' : addrs T ≡ₚ node :: addrs T1).
  { unfold addrs. rewrite HT, HT1, !fmap_app. cbn. symmetry. apply Permutation_middle. }
  exists sn, T', m. do 2 (split; [done|]). split; [|split; [done|]].
  - rewrite HE, HT1, HT. symmetry. eapply filter_removed. unfold addrs in Hd. by rewrite <- HT.
  - intros e He HeT. rewrite HT1' in HeT. split_notin. rewrite Hf by done. apply Hs1; [done|].
    rewrite HT1'. by apply not_elem_of_cons.
Qed.

(** [subst] is [node]: it has one child at most. *)
Lemma delete_one_child sn s C d c X a k n m :
  let T := plug C (mk d c X a k Leaf) in
  holds sn s T → rb false m T → mem s !! a = Some n →
  wp (delete_subst a (ptr X) a) s (removes s T a n).
Proof.
  intros T H Hrb Hn. subst T. pose proof (repr_nodup _ _ _ _ _ _ H) as HdT.
  apply list.NoDup_cons in HdT as [_ HdT].
  apply rb_unplug in Hrb as (c' & nh & Hx & HC & _).
  assert (c' = c) as -> by (apply rb_color in Hx; by rewrite is_red_mk in Hx).
  assert (∃ B Af, elements (plug C (mk d c X a k Leaf)) = B ++ (a, k) :: Af ∧
                  elements (plug C X) = B ++ Af) as (B & Af & HB & HB').
  { rewrite !elements_plug, elements_mk. destruct d; cbn.
    - exists (before_hole C ++ elements X), (after_hole C). by rewrite <- !app_assoc.
    - exists (before_hole C), (elements X ++ after_hole C). by rewrite <- ?app_assoc. }
  pose proof H as (gp & HCr & Hrep & Hroot & Hd)%repr_cut. rewrite ptr_mk in *.
  apply rep_mk in Hrep as (Ha & HX & _). rewrite Ha in Hn. injection Hn as <-.
  apply nodup_mk in Hd as [Has Hd]. cbn [app] in Hd.
  pose proof (repr_sentinel _ _ _ _ _ _ H) as Hsn. pose proof (repr_black _ _ _ _ _ _ H) as Hb.
  assert (∃ cx nx, rb cx nx X) as (cx & nx & HrbX).
  { destruct c; [apply rb_mk_red in Hx as (_ & Hx & _); by eexists _, _|].
    apply rb_mk_black in Hx as (n' & c1 & c2 & _ & _ & Hx & _). by eexists _, _. }
  unfold delete_subst. apply wp_bind, wp_root.
  destruct C as [|f C].
  { (* the root *)
    cbn in Hroot. rewrite Hroot, Z.eqb_refl. apply wp_bind, wp_set_root.
    cbn [ctx_addrs addrs] in Hd. change (addrs Leaf) with (@nil Z) in Hd. cbn in Hd.
    rewrite app_nil_r in Hd.
    assert (H1 : holds sn (mk_store (mem s) (ptr X)) (plug [] X)).
    { apply (holds_intro a); try done. cbn. rewrite app_nil_r. by apply list.NoDup_cons in Hd as [_ ?]. }
    eapply wp_bind, wp_blacken; [exact H1|]. intros s2 H2.
    assert (Hs2 : ∀ e, e ∉ addrs X → mem s2 !! e = mem s !! e).
    { intros e He. by rewrite (repr_only _ _ _ _ _ _ H2). }
    nodup Hd.
    eapply wp_clear; [rewrite Hs2 by done; exact Ha|].
    destruct (rb_blacken _ _ _ HrbX) as [m' Hm'].
    eapply (removes_deleted s s); [|exact HdT|exact HB|exact HB'|done].
    exists sn, (blacken X), m'. split; [|split; [done|split; [apply elements_blacken|split]]].
    - eapply holds_same; [eapply repr_rebase; [exact H2|done|done]|done|].
      intros e He. cbn [mem]. rewrite lookup_insert_ne; [done|]. intros <-. destruct He as [->|He]; [done|].
      cbn [plug] in He. unfold addrs in He. rewrite elements_blacken in He. done.
    - apply lookup_insert_eq.
    - intros e He _ He'. cbn [mem]. rewrite lookup_insert_ne by done. by apply Hs2. }
  (* below the root *)
  assert (a ≠ root s) as Hne.
  { rewrite Hroot. cbn [top]. apply list.NoDup_cons in Hd as [Hd _]. cbn [ctx_addrs] in Hd.
    split_notin. by apply top_notin. }
  rewrite (proj2 (Z.eqb_neq _ _) Hne).
  eapply wp_bind, wp_is_red; [exact Ha|].
  replace (color _) with (Z.b2z c) by by destruct d. rewrite color_b2z.
  apply wp_unlink_bind. apply wp_bind.
  eapply (wp_unlink sentinel a (ptr X) f C gp);
    [exact Ha|by destruct d|exact HCr|done| | |].
  { apply list.NoDup_cons in Hd as [Hd _]. split_notin. done. }
  { apply list.NoDup_cons in Hd as [_ Hd]. nodup Hd. done. }
  intros s1 HC1 Hr1 Hs1. rewrite Z.eqb_refl.
  assert (Hd0 := Hd). apply list.NoDup_cons in Hd as [Han Hd]. split_notin.
  assert (Ha1 : mem s1 !! a = Some (cell d k (ptr X) (ptr Leaf) (above gp (f :: C)) c)).
  { by rewrite Hs1. }
  apply wp_bind. eapply wp_bind, wp_get; [exact Ha1|].
  replace (parent _) with (faddr f) by by destruct d.
  eapply (wp_set_parent sentinel X (faddr f) a s1 sn).
  { eapply rep_frame; [|exact HX]. intros e He. apply Hs1. nodup Hd. distinct. }
  { change (sentinel :: addrs X ++ addrs Leaf ++ ctx_addrs (f :: C))
      with (sentinel :: addrs X ++ ctx_addrs (f :: C)) in Hd. nodup Hd. by constructor. }
  { rewrite Hs1; [done|]. nodup Hd. done. }
  change (sentinel :: addrs X ++ addrs Leaf ++ ctx_addrs (f :: C))
      with (sentinel :: addrs X ++ ctx_addrs (f :: C)) in Hd.
  intros s2 sn2 HX2 Hsn2 Hsp Hr2 Hs2.
  assert (Hb2 : color sn2 = 0) by (destruct X; cbn in Hsp; by rewrite Hsp).
  assert (Hh2 : holds sn2 s2 (plug (f :: C) X)).
  { apply (holds_intro gp); try done.
    - eapply ctx_frame; [|exact HC1]. intros e He. nodup Hd. apply Hs2; distinct.
    - rewrite Hr2, Hr1, Hroot. done. }
  eapply wp_mono.
  - eapply (delete_finish_ok sn2 s2 f C X a _ c m); [exact Hh2| | |done| |].
    + intros ->. cbn in Hsp. by rewrite Hsp.
    + rewrite Hs2 by done. exact Ha1.
    + rewrite addrs_plug. by apply not_elem_of_app.
    + eapply rb_one_child; [exact Hx|exact HC].
  - intros v s' Hdel. eapply (removes_deleted s s2); [|exact HdT|exact HB|exact HB'|].
    + destruct d; exact Hdel.
    + intros e He HeT. rewrite addrs_plug, addrs_mk in HeT. split_notin.
      rewrite Hs2, Hs1; done.
Qed.

Lemma above_app gp D C : above gp (D ++ C) = above (above gp C) D.
Proof. by destruct D. Qed.

Lemma top_app D C : ∀ p, top p (D ++ C) = top (top p D) C.
Proof. induction D as [|f D IH]; intros p; cbn; [done|apply IH]. Qed.

Lemma ctx_addrs_app D C : ctx_addrs (D ++ C) = ctx_addrs D ++ ctx_addrs C.
Proof. induction D as [|f D IH]; cbn; [done|]. by rewrite IH, <- app_assoc. Qed.

Lemma ctx_rep_app h gp D C : ∀ p,
  ctx_rep h gp p (D ++ C) ↔ ctx_rep h (above gp C) p D ∧ ctx_rep h gp (top p D) C.
Proof.
  induction D as [|f D IH]; intros p; cbn; [tauto|]. rewrite IH, above_app. tauto.
Qed.

Lemma leftmost_elements D x :
  leftmost D → elements (plug D x) = elements x ++ after_hole D.
Proof.
  intros HD. rewrite elements_plug. replace (before_hole D) with (@nil (Z * Z)); [done|].
  induction HD as [|f D Hf HD IH]; cbn; [done|]. by rewrite Hf, <- IH.
Qed.

Lemma rbc_readdr m d c l a k b kb C D : ∀ n,
  rbc m (D ++ Frame d c a k l :: C) n → rbc m (D ++ Frame d c b kb l :: C) n.
Proof.
  induction D as [|f D IH]; intros n H; inversion H; subst; cbn in *.
  - by apply rbc_red.
  - by eapply rbc_black.
  - apply rbc_red; [done|done| |by apply IH]. by destruct D.
  - eapply rbc_black; [done|done|by apply IH].
Qed.

Section TwoChildren.
Context (sn n : Rbtree.node) (s : store) (c cb : bool) (l X : tree) (a k b kb : Z) (C D : list frame).
Context (m : nat).
Let CC : list frame := D ++ Frame DR c a k l :: C.
Let T : tree := plug CC (Node cb Leaf b kb X).
Context (HD : leftmost D) (H : holds sn s T) (Hrb : rb false m T) (Hn : mem s !! a = Some n).

Lemma two_nodup : NoDup (a :: b :: sentinel :: addrs l ++ addrs X ++ ctx_addrs D ++ ctx_addrs C).
Proof.
  pose proof (repr_nodup _ _ _ _ _ _ H) as Hd. revert Hd. apply NoDup_Permutation_proper.
  unfold T, CC. rewrite addrs_plug, ctx_addrs_app.
  change (Node cb Leaf b kb X) with (mk DL cb Leaf b kb X). rewrite addrs_mk.
  change (addrs Leaf) with (@nil Z). cbn [ctx_addrs faddr fsib]. solve_Permutation.
Qed.

(** The head of the new context, and its address. *)
Definition new_parent : Z := match D with [] => b | f :: _ => faddr f end.

Lemma wp_two_parent s1 gp q Q :
  mem s1 !! b = Some (cell DL kb sentinel (ptr X) (above gp CC) cb) →
  rep (mem s1) q X → mem s1 !! sentinel = Some sn →
  (∀ s2 sn2, rep (mem s2) new_parent X → mem s2 !! sentinel = Some sn2 →
     sentinel_parent X sn sn2 new_parent → root s2 = root s1 →
     (∀ e, e ≠ sentinel → e ∉ addrs X → mem s2 !! e = mem s1 !! e) → Q tt s2) →
  wp (sp ← b @ parent;
      if sp =? a then ptr X @ parent := b else sp ← b @ parent; ptr X @ parent := sp) s1 Q.
Proof.
  intros Hb HX Hs HQ. pose proof two_nodup as Hd. nodup Hd.
  assert (Hset : wp (ptr X @ parent := new_parent) s1 Q).
  { eapply wp_set_parent; [exact HX|by constructor|exact Hs|exact HQ]. }
  eapply wp_bind, wp_get; [exact Hb|]. unfold CC, new_parent in *. cbn [parent cell].
  destruct D as [|f D']; cbn [app above faddr] in *; [by rewrite Z.eqb_refl|].
  cbn [ctx_addrs] in *. split_notin. rewrite (proj2 (Z.eqb_neq _ _)) by distinct.
  eapply wp_bind, wp_get; [exact Hb|]. exact Hset.
Qed.

(** The part below [subst]'s new place, before it gets there. *)
Lemma two_below h gp :
  ctx_rep h gp (ptr X) CC → rep h new_parent X →
  h !! a = Some (cell DL k (ptr l) (ptr (plug D X)) (above gp C) c) ∧ rep h a l ∧
  (∃ q, rep h q (plug D X)) ∧ ctx_rep h gp a C.
Proof.
  intros HCC HX. apply ctx_rep_app in HCC as [HCD (Ha & Hl & HC)]. cbn [faddr fsib fred fkey fdir] in *.
  rewrite ptr_plug. split; [exact Ha|]. split; [exact Hl|]. split; [|exact HC].
  unfold new_parent in HX. exists (match D with [] => b | _ => a end).
  destruct D as [|f D']; [exact HX|]. apply rep_plug. split; [exact HCD|exact HX].
Qed.

Lemma two_elements :
  let Af := (b, kb) :: elements (plug D X) ++ after_hole C in
  elements T = (before_hole C ++ elements l) ++ (a, k) :: Af ∧
  elements (plug C (Node c l b kb (plug D X))) = (before_hole C ++ elements l) ++ Af.
Proof.
  unfold T, CC. rewrite plug_app. cbn [plug]. unfold fill. cbn [fdir fred faddr fkey fsib mk].
  rewrite !(elements_plug C). cbn [elements]. rewrite !(leftmost_elements D) by done. cbn [elements app].
  split; by repeat (progress (rewrite <- ?app_assoc; cbn [app])).
Qed.

Lemma wp_two_assoc v (m2 : M unit) s1 Q :
  wp ((sp ← b @ parent;
       if sp =? a then v @ parent := b else sp ← b @ parent; v @ parent := sp);; m2) s1 Q →
  wp (sp ← b @ parent;
      (if sp =? a then v @ parent := b else sp ← b @ parent; v @ parent := sp);; m2) s1 Q.
Proof.
  unfold wp, mbind, M_bind. intros (w & s' & Hr & HQ). exists w, s'. split; [|done].
  by destruct ((b @ parent) s1) as [[sp s2]|].
Qed.

(** [subst] is the leftmost node on the right of [node]. *)
Lemma delete_two_children : wp (delete_subst a (ptr X) b) s (removes s T a n).
Proof.
  pose proof H as (gp & HCC & HX & Hroot & Hd0)%repr_cut. cbn [RbtreeRep.ptr] in HCC, Hroot.
  destruct HX as (Hb & _ & HX). cbn [RbtreeRep.ptr] in Hb.
  pose proof two_nodup as Hd. pose proof two_elements as [HE HE'].
  pose proof (repr_nodup _ _ _ _ _ _ H) as HdT. apply list.NoDup_cons in HdT as [_ HdT].
  pose proof Hrb as (cb' & nh & HrbX & HrbC & _)%rb_unplug.
  assert (cb' = cb) as -> by by apply rb_color in HrbX.
  change (Node cb Leaf b kb X) with (mk DR cb X b kb Leaf) in HrbX.
  assert (Hfin := rb_one_child DR cb nh X b kb m _ HrbX (rbc_readdr m DR c l a k b kb C D nh HrbC)).
  assert (Hor : b ≠ a) by (nodup Hd; distinct).
  unfold delete_subst. apply wp_bind, wp_root.
  assert (Hcc : ∃ f CC', CC = f :: CC') by (unfold CC; destruct D; by eexists _, _).
  assert (Hbr : b ≠ root s).
  { destruct Hcc as (f & CC' & E). apply (not_root sentinel s (addrs T) sn s f CC' (Node cb Leaf b kb X)).
    rewrite <- E. exact H. }
  rewrite (proj2 (Z.eqb_neq _ _) Hbr).
  eapply wp_bind, wp_is_red; [exact Hb|]. cbn [color cell]. rewrite color_b2z.
  apply wp_unlink_bind. apply wp_bind.
  change (Node cb Leaf b kb X) with (mk DL cb Leaf b kb X) in Hd0.
  apply nodup_mk in Hd0 as [Hbs Hd0]. nodup Hd0.
  assert (Hu : ∀ Q, (∀ s', ctx_rep (mem s') gp (ptr X) CC → root s' = root s →
         (∀ e, e ∉ ctx_addrs CC → mem s' !! e = mem s !! e) → Q tt s') →
         wp (unlink b (ptr X)) s Q).
  { destruct Hcc as (f & CC' & E). rewrite E in *. intros Q.
    eapply (wp_unlink sentinel b (ptr X) f CC' gp); [exact Hb|done|exact HCC|done|done|done]. }
  apply Hu. intros s1 HC1 Hr1 Hs1. rewrite (proj2 (Z.eqb_neq _ _) Hor).
  assert (Hb1 : mem s1 !! b = Some (cell DL kb sentinel (ptr X) (above gp CC) cb)) by by rewrite Hs1.
  assert (HX1 : rep (mem s1) b X).
  { eapply rep_frame; [|exact HX]. intros e He. apply Hs1. distinct. }
  apply wp_bind. apply wp_two_assoc. eapply wp_bind, (wp_two_parent s1 gp b); [exact Hb1|exact HX1| |].
  { rewrite Hs1 by done. apply H. }
  intros s2 sn2 HX2 Hsn2 Hsp Hr2 Hs2.
  assert (HC2 : ctx_rep (mem s2) gp (ptr X) CC).
  { eapply ctx_frame; [|exact HC1]. intros e He. apply Hs2; distinct. }
  destruct (two_below _ _ HC2 HX2) as (Ha2 & Hl2 & [q Hq] & HCa).
  assert (Hr1a : addrs (plug D X) ≡ₚ addrs X ++ ctx_addrs D) by apply addrs_plug.
  assert (Hd2 : NoDup (a :: b :: sentinel :: addrs l ++ addrs (plug D X) ++ ctx_addrs C)).
  { revert Hd. apply NoDup_Permutation_proper. rewrite Hr1a. solve_Permutation. }
  eapply (wp_replace sentinel a b k kb c l (plug D X) q C gp s2);
    [exact Ha2|rewrite Hs2 by done; exact Hb1|done|exact Hl2|exact Hq|exact HCa| |exact Hd2|].
  { rewrite Hr2, Hr1, Hroot. unfold CC. by rewrite top_app. }
  intros s3 Hrep3 HC3 Hr3 Hs3.
  (* the tree is complete again *)
  assert (HCD : ∀ e, e ∉ ctx_addrs CC ↔ e ≠ a ∧ e ∉ addrs l ∧ e ∉ ctx_addrs D ∧ e ∉ ctx_addrs C).
  { intros e. unfold CC. rewrite ctx_addrs_app. cbn. rewrite !not_elem_of_app, not_elem_of_cons,
      not_elem_of_app. tauto. }
  nodup Hd.
  assert (Hb3 : color sn2 = 0).
  { pose proof (repr_black _ _ _ _ _ _ H). destruct X; cbn in Hsp; by rewrite Hsp. }
  assert (HT3 : holds sn2 s3 (plug C (Node c l b kb (plug D X)))).
  { apply (holds_intro gp); [exact HC3|exact Hrep3|exact Hr3| |rewrite Hs3; [done|distinct|distinct| |distinct]|done].
    - apply list.NoDup_cons in Hd2 as [_ Hd2]. revert Hd2. apply NoDup_Permutation_proper.
      change (Node c l b kb (plug D X)) with (mk DL c l b kb (plug D X)). rewrite addrs_mk.
      solve_Permutation.
    - rewrite Hr1a. by apply not_elem_of_app. }
  assert (HT1 : plug C (Node c l b kb (plug D X)) = plug (D ++ Frame DR c b kb l :: C) X).
  { by rewrite plug_app. }
  assert (∃ f' C', D ++ Frame DR c b kb l :: C = f' :: C' ∧ faddr f' = new_parent)
    as (f' & C' & EC & Ef') by (unfold new_parent; destruct D; by eexists _, _).
  rewrite HT1 in HT3, HE'. rewrite EC in HT3, HE', Hfin.
  assert (Hn' : cleared n = cleared (cell DL k (ptr l) (ptr (plug D X)) (above gp C) c)).
  { assert (H' : holds sn s (plug C (mk DL c l a k (plug D (Node cb Leaf b kb X))))).
    { unfold T, CC in H. by rewrite plug_app in H. }
    apply repr_cell in H' as [gp' Ha]. rewrite Ha in Hn. by injection Hn as <-. }
  eapply wp_mono.
  - eapply (delete_finish_ok sn2 s3 f' C' X a _ cb m);
      [exact HT3| |rewrite Hs3; [exact Ha2|distinct|distinct| |distinct]|distinct| |exact Hfin].
    + intros ->. cbn in Hsp. rewrite Hsp. by rewrite Ef'.
    + rewrite Hr1a. by apply not_elem_of_app.
    + rewrite <- EC, addrs_plug, ctx_addrs_app. cbn. rewrite !not_elem_of_app, not_elem_of_cons,
        not_elem_of_app. repeat split; distinct.
  - intros v s' Hdel. unfold deleted in Hdel. rewrite <- Hn' in Hdel.
    eapply (removes_deleted s s3); [exact Hdel|exact HdT|exact HE|exact HE'|].
    intros e He HeT. unfold T in HeT. rewrite addrs_plug in HeT.
    change (Node cb Leaf b kb X) with (mk DL cb Leaf b kb X) in HeT. rewrite addrs_mk in HeT.
    split_notin. assert (HeC : e ∉ ctx_addrs CC) by done. apply HCD in HeC as (? & ? & ? & ?).
    rewrite Hs3, Hs2, Hs1; try done. rewrite Hr1a. by apply not_elem_of_app.
Qed.
End TwoChildren.

Lemma tree_split T a :
  a ∈ addrs T → ∃ C c l k r, T = plug C (Node c l a k r).
Proof.
  induction T as [|c l IHl b k r IHr]; intros Ha; [by apply elem_of_nil in Ha|].
  change (Node c l b k r) with (mk DL c l b k r) in Ha. rewrite addrs_mk in Ha.
  apply elem_of_cons in Ha as [-> | [Ha|Ha]%elem_of_app]; [by exists [], c, l, k, r|..].
  - destruct (IHl Ha) as (C & c' & l' & k' & r' & ->). exists (C ++ [Frame DL c b k r]), c', l', k', r'.
    by rewrite plug_app.
  - destruct (IHr Ha) as (C & c' & l' & k' & r' & ->). exists (C ++ [Frame DR c b k l]), c', l', k', r'.
    by rewrite plug_app.
Qed.

Lemma ptr_sentinel sn s C X : holds sn s (plug C X) → (ptr X =? sentinel) = true ↔ X = Leaf.
Proof.
  intros H. rewrite Z.eqb_eq. split; [|by intros ->]. intros E.
  destruct (ptr_in sentinel X) as [|Hin]; [done|]. rewrite E in Hin.
  pose proof (repr_nodup _ _ _ _ _ _ H) as Hd. apply list.NoDup_cons in Hd as [Hd _].
  rewrite addrs_plug in Hd. by split_notin.
Qed.

Lemma delete_wp sn s T m a n :
  holds sn s T → rb false m T → mem s !! a = Some n → a ∈ addrs T →
  wp (ngx_rbtree_delete sentinel a) s (removes s T a n).
Proof.
  intros H Hrb Hn (C & c & l & k & r & ->)%tree_split. rewrite delete_unfold.
  apply wp_bind. unfold choose_subst.
  pose proof (ptr_sentinel sn s (Frame DL c a k r :: C) l H) as Hl.
  pose proof (ptr_sentinel sn s (Frame DR c a k l :: C) r H) as Hr.
  eapply wp_bind, (wp_child _ _ _ _ s C DL c l a k r); [exact H|].
  destruct (ptr l =? sentinel) eqn:El.
  { rewrite (proj1 Hl eq_refl) in *.
    eapply wp_bind, (wp_child_opp _ _ _ _ s C DL c Leaf a k r); [exact H|]. apply wp_ret.
    by apply (delete_one_child sn s C DR c r a k n m). }
  eapply wp_bind, (wp_child_opp _ _ _ _ s C DL c l a k r); [exact H|].
  destruct (ptr r =? sentinel) eqn:Er.
  { rewrite (proj1 Hr eq_refl) in *.
    eapply wp_bind, (wp_child _ _ _ _ s C DL c l a k Leaf); [exact H|]. apply wp_ret.
    by apply (delete_one_child sn s C DL c l a k n m). }
  eapply wp_bind, (wp_child_opp _ _ _ _ s C DL c l a k r); [exact H|].
  destruct r as [|c' l' a' k' r']; [cbn in Er; by rewrite Z.eqb_refl in Er|].
  assert (Hmin : wp (min_loop sentinel (fuel_of s) a') s (λ v s', s' = s ∧
    ∃ D cb b kb X, v = b ∧ Node c' l' a' k' r' = plug D (Node cb Leaf b kb X) ∧ leftmost D)).
  { eapply (wp_min s _ sn _ _ (Frame DR c a k l :: C)); [exact H| |].
    - apply (ctx_fuel _ _ _ _ s (Frame DR c a k l :: C)) in H. lia.
    - intros D cb b kb X E HD. split; [done|]. by exists D, cb, b, kb, X. }
  destruct Hmin as (v & s' & Hrun & -> & D & cb & b & kb & X & -> & E & HD).
  assert (Hp : a' = ptr (plug D (Node cb Leaf b kb X))) by by rewrite <- E.
  rewrite E in *. clear E. rewrite Hp in Hrun.
  assert (H' : holds sn s (plug (D ++ Frame DR c a k l :: C) (Node cb Leaf b kb X))).
  { by rewrite plug_app. }
  eapply wp_bind. exists b, s. split; [exact Hrun|].
  eapply wp_bind, (wp_child _ _ _ _ s _ DL cb Leaf b kb X); [exact H'|]. cbn [RbtreeRep.ptr].
  rewrite Z.eqb_refl.
  eapply wp_bind, (wp_child_opp _ _ _ _ s _ DL cb Leaf b kb X); [exact H'|]. apply wp_ret.
  pose proof (delete_two_children sn n s c cb l X a k b kb C D m HD H') as Hdel.
  rewrite plug_app in Hdel. by apply Hdel.
Qed.

Lemma delete_ok s l a :
  rbtree sentinel s l → a ∈ l.*1 →
  ∃ s' n, ngx_rbtree_delete sentinel a s = Some (tt, s') ∧
    rbtree sentinel s' (filter (λ e, e.1 ≠ a) l) ∧
    mem s !! a = Some n ∧ mem s' !! a = Some (cleared n) ∧
    (∀ e, e ≠ sentinel → e ∉ l.*1 → mem s' !! e = mem s !! e).
Proof.
  intros (sn & T & m & H & Hrb & <-) Ha. pose proof H as [[gp Hrep] _ _ _ _ _ _].
  destruct (rep_in _ _ _ _ _ Hrep Ha) as [n Hn].
  destruct (delete_wp sn s T m a n H Hrb Hn Ha) as ([] & s' & Hrun & sn' & T' & m' & H' & Hrb' & HE & Hc & Hf).
  exists s', n. split; [done|]. split; [|done]. by exists sn', T', m'.
Qed.

Lemma min_ok s x l :
  rbtree sentinel s (x :: l) → ngx_rbtree_min sentinel (root s) s = Some (x.1, s).
Proof.
  intros (sn & T & m & H & Hrb & HE). destruct T as [|c tl a k r]; [done|].
  rewrite (repr_root _ _ _ _ _ _ H). cbn [RbtreeRep.ptr].
  assert (wp (min_loop sentinel (fuel_of s) a) s (λ v s', v = x.1 ∧ s' = s)) as (v & s' & Hrun & -> & ->).
  { eapply (wp_min s _ sn _ _ []); [exact H| |].
    - apply (ctx_fuel _ _ _ _ s []) in H. lia.
    - intros D cb b kb X E HD. split; [|done]. rewrite E, (leftmost_elements D) in HE by done.
      cbn in HE. by injection HE as <- _. }
  exact Hrun.
Qed.

Lemma init_ok s n :
  mem s !! sentinel = Some n →
  ∃ s', ngx_rbtree_init sentinel s = Some (tt, s') ∧ rbtree sentinel s' [] ∧
    (∀ e, e ≠ sentinel → mem s' !! e = mem s !! e).
Proof.
  intros Hs.
  assert (wp (ngx_rbtree_init sentinel) s (λ _ s',
    mem s' = <[sentinel := n <| color := 0 |>]> (mem s) ∧ root s' = sentinel)) as ([] & s' & Hrun & Hm & Hr).
  { eapply wp_bind, wp_update; [exact Hs|]. by apply wp_set_root. }
  exists s'. split; [done|]. split.
  - exists (n <| color := 0 |>), Leaf, 0%nat. split; [|split; [constructor|done]]. split.
    + by exists 0.
    + done.
    + apply NoDup_singleton.
    + by rewrite Hm, lookup_insert_eq.
    + done.
    + by intros a Ha%elem_of_nil.
    + done.
  - intros e He. by rewrite Hm, lookup_insert_ne.
Qed.

(** *** The keys are where the list says *)
Lemma rep_cell h par t a k : rep h par t → (a, k) ∈ elements t → ∃ n, h !! a = Some n ∧ key n = k.
Proof.
  revert par. induction t as [|c l IHl b kb r IHr]; intros par; [by intros _ ?%elem_of_nil|].
  intros (Hb & Hl & Hr) Ha. cbn in Ha.
  apply elem_of_app in Ha as [Ha | [[= -> ->] | Ha]%elem_of_cons]; eauto.
Qed.

Lemma rbtree_key s l a k : rbtree sentinel s l → (a, k) ∈ l → ∃ n, mem s !! a = Some n ∧ key n = k.
Proof. intros (sn & T & m & [[gp Hrep] _ _ _ _ _ _] & _ & <-). by apply rep_cell with gp. Qed.

Lemma rbtree_nodup s l : rbtree sentinel s l → NoDup (sentinel :: l.*1).
Proof. intros (sn & T & m & [] & _ & <-). done. Qed.

Lemma rbtree_empty s l : rbtree sentinel s l → root s = sentinel ↔ l = [].
Proof.
  intros (sn & T & m & H & _ & <-). rewrite (repr_root _ _ _ _ _ _ H).
  pose proof (ptr_sentinel sn s [] T H) as Hp. rewrite Z.eqb_eq in Hp. cbn [plug] in Hp.
  rewrite Hp. destruct T as [|c l a k r]; [done|]. split; [done|]. cbn. by destruct (elements l).
Qed.
End DeleteNode.


(** C5: [ngx_rbtree_delete] removes exactly the given node: the others stay in
    order in a red-black tree of logarithmic depth, the node is cleared, and
    besides the sentinel no other memory is touched. *)
Theorem rbtree_delete_correct sentinel s l a :
  rbtree sentinel s l → a ∈ l.*1 →
  ∃ s' n, ngx_rbtree_delete sentinel a s = Some (tt, s') ∧
    rbtree sentinel s' (filter (λ e, e.1 ≠ a) l) ∧
    mem s !! a = Some n ∧ mem s' !! a = Some (mk_node 0 NULL NULL NULL (color n)) ∧
    (∀ e, e ≠ sentinel → e ∉ l.*1 → mem s' !! e = mem s !! e) ∧
    ∃ sn T, repr sentinel s' (addrs T) sn s' T ∧
      elements T = filter (λ e, e.1 ≠ a) l ∧
      (depth T ≤ 2 * Nat.log2 (S (length l)))%nat.
Proof.
  intros H Ha. destruct (delete_ok sentinel s l a H Ha) as (s' & n & Hrun & H' & Hn & Hc & Hf).
  exists s', n. do 5 (split; [done|]).
  destruct (rbtree_depth _ _ _ H') as (sn & T & Hr & He & Hd). exists sn, T. do 2 (split; [done|]).
  etrans; [exact Hd|]. apply Nat.mul_le_mono_l, Nat.log2_le_mono, le_n_S, length_filter.
Qed.

Lemma example_single : ∃ s, rbtree 1 s [(2, 30)].
Proof.
  exists (mk_store (list_to_map [(1, fresh_node 0); (2, mk_node 30 1 1 0 0)]) 2).
  exists (fresh_node 0), (Node false Leaf 2 30 Leaf), 1%nat. split; [|split; [by repeat econstructor|done]].
  split; try done.
  - by exists 0.
  - change (addrs _) with [2]. apply NoDup_cons_2; [|apply NoDup_singleton]. by intros ?%list_elem_of_singleton.
Qed.

Lemma rbtree_delete_correct_witness : ∃ s s', 
  ngx_rbtree_delete 1 2 s = Some (tt, s') ∧ rbtree 1 s' [].
Proof.
  destruct example_single as [s Hs].
  destruct (rbtree_delete_correct 1 s [(2, 30)] 2 Hs ltac:(by left)) as (s' & n & H1 & H2 & _).
  exists s, s'. split; [exact H1|exact H2].
Defined.

End RbtreeDelete.
