(* ===== verification/Timer.v ===== *)
(** * Event timers on the red-black tree

    src/event/ngx_event_timer.h and ngx_event_timer.c, built without threads
    and without debugging.  An event is named by the address of its [timer]
    node; [handler] stands for [ev->handler], which may change everything,
    its own data [user] included. *)

From stdpp Require Import gmap sorting relations.
From S2P Require Import Prelude Rbtree RbtreeRep RbtreeInsert RbtreeDelete.
Import Rbtree.Rbtree RbtreeRep.RbtreeRep RbtreeInsert.RbtreeInsert RbtreeDelete.RbtreeDelete.
Open Scope Z_scope.

Module Timer.

Abbreviation NGX_TIMER_INFINITE := MAX_UINT64.
Abbreviation NGX_TIMER_LAZY_DELAY := 300.

Section Timers.
Context {U : Type}.

(** The tree [ngx_event_timer_rbtree], the flags of the events, and what
    else the handlers use. *)
Record timers := mk_timers {
  tree : store;
  timer_set : gmap Z bool;
  timedout : gmap Z bool;
  user : U;
}.

#[export] Instance eta_timers : Eta timers := λ t,
  mk_timers (tree t) (timer_set t) (timedout t) (user t).

Definition T (A : Type) : Type := timers → option (A * timers).

#[export] Instance T_ret : MRet T := λ A x t, Some (x, t).
#[export] Instance T_bind : MBind T := λ A B f m t,
  match m t with Some (x, t') => f x t' | None => None end.

Definition on_tree {A} (m : M A) : T A := λ t,
  '(x, s) ← m (tree t); Some (x, t <| tree := s |>).

(** [ev->timer_set] and [ev->timedout], of an event that exists. *)
Definition get_timer_set (ev : Z) : T bool := λ t, b ← timer_set t !! ev; Some (b, t).
Definition set_timer_set (ev : Z) (b : bool) : T unit := λ t,
  _ ← timer_set t !! ev; Some (tt, t <| timer_set := <[ev := b]> (timer_set t) |>).
Definition set_timedout (ev : Z) : T unit := λ t,
  Some (tt, t <| timedout := <[ev := true]> (timedout t) |>).

Context (sentinel : Z).

Definition ngx_event_timer_init : T Z :=
  on_tree (ngx_rbtree_init sentinel);; mret NGX_OK.

Definition ngx_event_find_timer (ngx_current_msec : Z) : T Z :=
  r ← on_tree get_root;
  if r =? sentinel then mret NGX_TIMER_INFINITE
  else
    node ← on_tree (ngx_rbtree_min sentinel r);
    k ← on_tree (node @ key);
    let timer := s64 (u64 (k - ngx_current_msec)) in
    mret (u64 (if 0 <? timer then timer else 0)).

Definition ngx_event_del_timer (ev : Z) : T unit :=
  on_tree (ngx_rbtree_delete sentinel ev);; set_timer_set ev false.

Definition ngx_abs (value : Z) : Z := if 0 <=? value then value else s64 (- value).

Definition ngx_event_add_timer (ngx_current_msec : Z) (ev timer : Z) : T unit :=
  let k := u64 (ngx_current_msec + timer) in
  set ← get_timer_set ev;
  lazy ← (if (set : bool) then
            old ← on_tree (ev @ key);
            let diff := s64 (u64 (k - old)) in
            if ngx_abs diff <? NGX_TIMER_LAZY_DELAY then mret true
            else ngx_event_del_timer ev;; mret false
          else mret false);
  if (lazy : bool) then mret tt
  else
    on_tree (ev @ key := k);;
    on_tree (ngx_rbtree_insert sentinel (ngx_rbtree_insert_timer_value sentinel) ev);;
    set_timer_set ev true.

(** [fuel] bounds the turns of [for ( ;; )]. *)
Fixpoint ngx_event_expire_timers (handler : Z → T unit) (fuel : nat) (ngx_current_msec : Z) : T unit :=
  match fuel with
  | O => λ _, None
  | S fuel =>
      r ← on_tree get_root;
      if r =? sentinel then mret tt
      else
        node ← on_tree (ngx_rbtree_min sentinel r);
        k ← on_tree (node @ key);
        if s64 (u64 (k - ngx_current_msec)) <=? 0 then
          on_tree (ngx_rbtree_delete sentinel node);;
          set_timer_set node false;;
          set_timedout node;;
          handler node;;
          ngx_event_expire_timers handler fuel ngx_current_msec
        else mret tt
  end.

(** ** The order of the timers

    The keys wrap around; they are compared correctly while they all lie in
    half of the range, from [base] on. *)
Definition idx (base k : Z) : Z := u64 (k - base).
Definition in_window (base k : Z) : Prop := idx base k < 9223372036854775808.

Lemma s64_diff base a b :
  in_window base a → in_window base b → s64 (u64 (a - b)) = idx base a - idx base b.
Proof.
  unfold in_window, idx. pose proof (u64_range (a - base)). pose proof (u64_range (b - base)).
  intros Ha Hb. unfold s64, u64 in *.
  pose proof (Z.div_mod (a - base) 18446744073709551616 ltac:(lia)).
  pose proof (Z.div_mod (b - base) 18446744073709551616 ltac:(lia)).
  pose proof (Z.div_mod (a - b) 18446744073709551616 ltac:(lia)).
  pose proof (Z.mod_pos_bound (a - b) 18446744073709551616 ltac:(lia)).
  set (x := (a - base) mod _) in *. set (y := (b - base) mod _) in *.
  set (z := (a - b) mod _) in *. clearbody x y z. zlia.
Qed.

Lemma before_idx base a b :
  in_window base a → in_window base b → timer_before a b = (idx base a <? idx base b).
Proof.
  intros Ha Hb. unfold timer_before. rewrite (s64_diff base) by done.
  destruct (Z.ltb_spec (idx base a) (idx base b)); [apply Z.ltb_lt|apply Z.ltb_ge]; lia.
Qed.

Lemma window_transitive base K : Forall (in_window base) K → transitive_on timer_before K.
Proof.
  rewrite list.Forall_forall. intros HK x y z Hx Hy Hz.
  rewrite !(before_idx base) by auto. rewrite !Z.ltb_ge. lia.
Qed.

(** The time left until a timer of key [k]. *)
Definition remaining (now k : Z) : Z := Z.max 0 (s64 (u64 (k - now))).
Definition expired (now k : Z) : bool := s64 (u64 (k - now)) <=? 0.

(** The tree holds the timers [l], in order; the events of these have
    [timer_set]; the others have a node in the memory. *)
Record good (base : Z) (t : timers) (l : list (Z * Z)) : Prop := {
  good_tree : rbtree sentinel (tree t) l;
  good_order : ordered timer_before l;
  good_window : Forall (in_window base) l.*2;
  good_set : ∀ ev, timer_set t !! ev = Some true ↔ ev ∈ l.*1;
  good_events : ∀ ev, is_Some (timer_set t !! ev) → ev ≠ sentinel ∧ is_Some (mem (tree t) !! ev);
}.

(** *** Lifted operations *)
Definition twp {A} (m : T A) (t : timers) (Q : A → timers → Prop) : Prop :=
  ∃ v t', m t = Some (v, t') ∧ Q v t'.

Lemma twp_bind {A B} (m : T A) (f : A → T B) t Q :
  twp m t (λ v t', twp (f v) t' Q) → twp (m ≫= f) t Q.
Proof.
  intros (v & t' & Hm & v' & t'' & Hf & HQ). exists v', t''. split; [|done].
  unfold mbind, T_bind. by rewrite Hm.
Qed.

Lemma twp_ret {A} (v : A) t (Q : A → timers → Prop) : Q v t → twp (mret v) t Q.
Proof. intros. by exists v, t. Qed.

Lemma twp_tree {A} (m : M A) t v s (Q : A → timers → Prop) :
  m (tree t) = Some (v, s) → Q v (t <| tree := s |>) → twp (on_tree m) t Q.
Proof. intros Hm HQ. eexists v, _. unfold on_tree. rewrite Hm. done. Qed.

Lemma tree_id t : t <| tree := tree t |> = t.
Proof. by destruct t. Qed.

Lemma twp_key base t l a k Q :
  good base t l → (a, k) ∈ l → Q k t → twp (on_tree (a @ key)) t Q.
Proof.
  intros H Hin HQ. destruct (rbtree_key _ _ _ _ _ (good_tree _ _ _ H) Hin) as (n & Hn & <-).
  eapply twp_tree; [unfold get; by rewrite Hn|]. by rewrite tree_id.
Qed.

Lemma twp_first base t l (Q : Z → timers → Prop) :
  good base t l → Q (root (tree t)) t → twp (on_tree get_root) t Q.
Proof. intros H HQ. eapply twp_tree; [done|]. by rewrite tree_id. Qed.

Lemma root_test base t l : good base t l → (root (tree t) =? sentinel) = match l with [] => true | _ => false end.
Proof.
  intros H. pose proof (rbtree_empty _ _ _ (good_tree _ _ _ H)) as Hr.
  destruct l; [apply Z.eqb_eq; by apply Hr|]. apply Z.eqb_neq. intros E. by apply Hr in E.
Qed.

Lemma twp_min base t x l (Q : Z → timers → Prop) :
  good base t (x :: l) → Q x.1 t → twp (on_tree (ngx_rbtree_min sentinel (root (tree t)))) t Q.
Proof.
  intros H HQ. eapply twp_tree; [eapply min_ok, (good_tree _ _ _ H)|]. by rewrite tree_id.
Qed.

(** [ngx_event_find_timer] is the time until the first timer expires, 0 when
    one has, and [NGX_TIMER_INFINITE] when there is none. *)
Theorem find_timer_correct base now t l :
  good base t l → in_window base now →
  ∃ timer, ngx_event_find_timer now t = Some (timer, t) ∧
    match l with
    | [] => timer = NGX_TIMER_INFINITE
    | _ => (∃ a k, (a, k) ∈ l ∧ timer = remaining now k) ∧
           ∀ a k, (a, k) ∈ l → timer ≤ remaining now k
    end.
Proof.
  intros H Hnow.
  assert (twp (ngx_event_find_timer now) t (λ timer t', t' = t ∧
    timer = match l with [] => NGX_TIMER_INFINITE | x :: _ => remaining now x.2 end))
    as (timer & t' & Hrun & -> & ->).
  { eapply twp_bind, twp_first; [exact H|]. rewrite (root_test _ _ _ H).
    destruct l as [|[a k] l]; [by apply twp_ret|].
    eapply twp_bind, twp_min; [exact H|].
    eapply twp_bind, (twp_key base t _ a k); [exact H|by left|]. apply twp_ret. split; [done|].
    unfold remaining. pose proof (s64_range (u64 (k - now))). cbn [snd].
    destruct (Z.ltb_spec 0 (s64 (u64 (k - now)))); rewrite u64_id by lia; lia. }
  eexists. split; [exact Hrun|]. destruct l as [|[a k] l]; [done|]. split.
  - exists a, k. split; [by left|done].
  - intros b kb Hb. pose proof (good_order _ _ _ H) as Ho. pose proof (good_window _ _ _ H) as Hw.
    rewrite list.Forall_forall in Hw.
    assert (in_window base k) by (apply Hw; by left).
    assert (in_window base kb) by (apply Hw; by apply (list_elem_of_fmap_2 snd) in Hb).
    cbn [snd]. unfold remaining. rewrite !(s64_diff base) by done.
    assert (idx base k ≤ idx base kb); [|lia].
    apply elem_of_cons in Hb as [[= -> ->] | Hb]; [done|].
    inversion_clear Ho as [|?? _ Hx]. rewrite list.Forall_forall in Hx. specialize (Hx _ Hb).
    cbn in Hx. rewrite (before_idx base) in Hx by done. by apply Z.ltb_ge in Hx.
Qed.

(** *** Removing and adding a timer *)
Abbreviation without ev := (filter (λ e : Z * Z, e.1 ≠ ev)).

Lemma without_addrs ev a l : a ∈ (without ev l).*1 ↔ a ≠ ev ∧ a ∈ l.*1.
Proof.
  split.
  - intros ([x k] & -> & Hin)%list_elem_of_fmap. apply list_elem_of_filter in Hin as [Hx Hin].
    split; [done|]. by apply (list_elem_of_fmap_2 fst) in Hin.
  - intros [Hne ([x k] & -> & Hin)%list_elem_of_fmap]. apply list_elem_of_fmap. exists (x, k).
    split; [done|]. by apply list_elem_of_filter.
Qed.

Lemma without_notin ev l : ev ∉ l.*1 → without ev l = l.
Proof.
  induction l as [|[a k] l IH]; [done|]. intros [Ha Hl]%not_elem_of_cons.
  rewrite filter_cons_True by done. by rewrite IH.
Qed.

Lemma good_filter_window base (P : Z * Z → Prop) `{∀ x, Decision (P x)} l :
  Forall (in_window base) l.*2 → Forall (in_window base) (filter P l).*2.
Proof.
  rewrite !list.Forall_forall. intros Hw k ([a k'] & -> & Hin)%list_elem_of_fmap.
  apply list_elem_of_filter in Hin as [_ Hin]. apply Hw. by apply (list_elem_of_fmap_2 snd) in Hin.
Qed.

Lemma in_key t base l a : good base t l → a ∈ l.*1 → a ≠ sentinel ∧ is_Some (mem (tree t) !! a).
Proof.
  intros H Ha. apply (good_events _ _ _ H). exists true. by apply (good_set _ _ _ H).
Qed.

(** The tree loses [ev], and its flag. *)
Lemma twp_delete base t l ev Q :
  good base t l → ev ∈ l.*1 →
  (∀ s, good base (t <| tree := s |> <| timer_set := <[ev := false]> (timer_set t) |>) (without ev l) →
        Q tt (t <| tree := s |>)) →
  twp (on_tree (ngx_rbtree_delete sentinel ev)) t Q.
Proof.
  intros H Hin HQ.
  destruct (delete_ok _ _ _ _ (good_tree _ _ _ H) Hin) as (s & n & Hrun & Hs & Hn & Hc & Hf).
  eapply twp_tree; [exact Hrun|]. apply HQ. split; cbn [tree timer_set].
  - exact Hs.
  - apply sorted_filter, H.
  - apply good_filter_window, H.
  - intros a. rewrite without_addrs. change (timer_set _) with (<[ev := false]> (timer_set t)).
    destruct (decide (a = ev)) as [-> | Hne].
    + rewrite lookup_insert_eq. split; [done|]. by intros [? _].
    + rewrite lookup_insert_ne by done. rewrite (good_set _ _ _ H). tauto.
  - intros a Ha. change (timer_set _) with (<[ev := false]> (timer_set t)) in Ha.
    change (tree _) with s.
    assert (is_Some (timer_set t !! a)) as Ha'.
    { destruct (decide (a = ev)) as [-> | Hne]; [exists true; by apply (good_set _ _ _ H)|].
      by rewrite lookup_insert_ne in Ha. }
    destruct (good_events _ _ _ H a Ha') as [Hns Hm]. split; [done|].
    destruct (decide (a ∈ l.*1)) as [Hal|Hal]; [|by rewrite Hf].
    destruct (decide (a = ev)) as [-> | Hne]; [by rewrite Hc|].
    assert (a ∈ (without ev l).*1) as ([x k] & -> & Hk)%list_elem_of_fmap by by apply without_addrs.
    destruct (rbtree_key _ _ _ _ _ Hs Hk) as (n' & Hn' & _). by exists n'.
Qed.

Lemma twp_set ev b t Q :
  is_Some (timer_set t !! ev) → Q tt (t <| timer_set := <[ev := b]> (timer_set t) |>) →
  twp (set_timer_set ev b) t Q.
Proof. intros [x Hx] HQ. eexists tt, _. unfold set_timer_set. rewrite Hx. done. Qed.

Lemma twp_del_timer base t l ev Q :
  good base t l → ev ∈ l.*1 →
  (∀ t', good base t' (without ev l) → timedout t' = timedout t → user t' = user t →
         timer_set t' = <[ev := false]> (timer_set t) → Q tt t') →
  twp (ngx_event_del_timer ev) t Q.
Proof.
  intros H Hin HQ. apply twp_bind. eapply (twp_delete base t l ev); [done|done|].
  intros s Hs. apply twp_set.
  - exists true. by apply (good_set _ _ _ H).
  - by apply HQ.
Qed.

Lemma rbtree_same s s' l :
  rbtree sentinel s l → root s' = root s →
  (∀ a, a = sentinel ∨ a ∈ l.*1 → mem s' !! a = mem s !! a) → rbtree sentinel s' l.
Proof.
  intros (sn & T0 & m & H & Hrb & <-) Hr Hm. exists sn, T0, m. split; [|done].
  by eapply holds_same.
Qed.

Lemma window_u64 base k : in_window base k ↔ in_window base (u64 k).
Proof. unfold in_window, idx, u64. by rewrite Zminus_mod_idemp_l. Qed.

(** [ev->timer.key = key] and the insertion. *)
Lemma twp_insert base t l ev k (Q : unit → timers → Prop) :
  good base t l → is_Some (timer_set t !! ev) → ev ∉ l.*1 → in_window base k →
  (∀ t', good base t' (insert_ordered timer_before (ev, k) l) →
         timedout t' = timedout t → user t' = user t →
         timer_set t' = <[ev := true]> (timer_set t) → Q tt t') →
  twp (on_tree (ev @ key := k);;
       on_tree (ngx_rbtree_insert sentinel (ngx_rbtree_insert_timer_value sentinel) ev);;
       set_timer_set ev true) t Q.
Proof.
  intros H Hev Hnl Hw HQ. destruct (good_events _ _ _ H ev Hev) as [Hns [n Hn]].
  apply twp_bind. eapply twp_tree; [unfold update; by rewrite Hn|].
  set (s1 := mk_store _ _). cbn beta.
  assert (Hs1 : rbtree sentinel s1 l).
  { eapply rbtree_same; [apply (good_tree _ _ _ H)|done|]. intros a Ha. cbn [s1 mem].
    rewrite lookup_insert_ne; [done|]. intros <-. by destruct Ha. }
  assert (Hn1 : mem s1 !! ev = Some (n <| key := k |>)) by apply lookup_insert_eq.
  assert (HK : Forall (in_window base) (k :: l.*2)) by (constructor; [done|apply H]).
  set (n' := n <| key := k |>) in Hn1. assert (Hk : key n' = k) by reflexivity.
  assert (Htr : transitive_on timer_before (key n' :: l.*2)).
  { rewrite Hk. by apply window_transitive in HK. }
  destruct (insert_ok sentinel _ timer_before s1 l ev n' Hs1 (good_order _ _ _ H) Htr
    Hn1 Hns Hnl) as (s2 & Hrun & Hs2 & Hf).
  rewrite Hk in Hs2. clearbody n'.
  apply twp_bind. eapply twp_tree; [exact Hrun|]. apply twp_set; [exact Hev|].
  apply HQ; [|done..]. split.
  - exact Hs2.
  - apply insert_ordered_sorted; [by apply window_transitive in HK| |apply H].
    intros x Hx. cbn [snd]. rewrite list.Forall_forall in HK.
    rewrite !(before_idx base) by (apply HK; [by left || by right]). rewrite Z.ltb_lt, Z.ltb_ge. lia.
  - rewrite insert_sorted_perm. exact HK.
  - intros a. rewrite insert_sorted_perm. cbn [fmap list_fmap fst].
    change (timer_set _) with (<[ev := true]> (timer_set t)). rewrite elem_of_cons.
    destruct (decide (a = ev)) as [-> | Hne].
    + rewrite lookup_insert_eq. split; [by left|done].
    + rewrite lookup_insert_ne by done. rewrite (good_set _ _ _ H). naive_solver.
  - intros a Ha. change (timer_set _) with (<[ev := true]> (timer_set t)) in Ha.
    change (tree _) with s2.
    assert (is_Some (timer_set t !! a)) as Ha'.
    { destruct (decide (a = ev)) as [-> | Hne]; [done|]. by rewrite lookup_insert_ne in Ha. }
    destruct (good_events _ _ _ H a Ha') as [Hns' Hm]. split; [done|].
    destruct (decide (a ∈ (insert_ordered timer_before (ev, k) l).*1))
      as [([x kx] & -> & Hxk)%list_elem_of_fmap|Hal].
    + destruct (rbtree_key _ _ _ _ _ Hs2 Hxk) as (m & Hm' & _). by exists m.
    + rewrite insert_sorted_perm in Hal. apply not_elem_of_cons in Hal as [Hae Hal].
      rewrite Hf by done. cbn [s1 mem]. by rewrite lookup_insert_ne.
Qed.

(** The timer [ev] of [l], if it has one, expires so near to [k] that it is
    left alone. *)
Definition lazy_timer (l : list (Z * Z)) (ev k : Z) : Prop :=
  Exists (λ e, e.1 = ev ∧ ngx_abs (s64 (u64 (k - e.2))) < NGX_TIMER_LAZY_DELAY) l.
#[export] Instance lazy_timer_dec l ev k : Decision (lazy_timer l ev k) := _.

Definition added (l : list (Z * Z)) (ev k : Z) : list (Z * Z) :=
  if decide (lazy_timer l ev k) then l else insert_ordered timer_before (ev, k) (without ev l).

Lemma nodup_key base t l ev k k' : good base t l → (ev, k) ∈ l → (ev, k') ∈ l → k = k'.
Proof.
  intros H H1 H2. destruct (rbtree_key _ _ _ _ _ (good_tree _ _ _ H) H1) as (n & Hn & <-).
  destruct (rbtree_key _ _ _ _ _ (good_tree _ _ _ H) H2) as (n' & Hn' & <-). congruence.
Qed.

Lemma without_good_notin ev l : ev ∉ (without ev l).*1.
Proof. rewrite without_addrs. tauto. Qed.

Lemma lazy_key base t l ev k k0 : good base t l → (ev, k0) ∈ l →
  lazy_timer l ev k ↔ ngx_abs (s64 (u64 (k - k0))) < NGX_TIMER_LAZY_DELAY.
Proof.
  intros H Hin. unfold lazy_timer. rewrite list.Exists_exists. split.
  - intros ([a k'] & Hin' & E & Hlt). cbn in *. subst. by rewrite (nodup_key _ _ _ _ _ _ H Hin Hin').
  - intros Hlt. by exists (ev, k0).
Qed.

(** [ngx_event_add_timer] leaves exactly one timer of the event: a new one in
    its place in the order, or the old one, if that is less than
    [NGX_TIMER_LAZY_DELAY] away from it. *)
Theorem add_timer_correct base now t l ev timer :
  good base t l → is_Some (timer_set t !! ev) → in_window base (now + timer) →
  ∃ t', ngx_event_add_timer now ev timer t = Some (tt, t') ∧
    good base t' (added l ev (u64 (now + timer))) ∧
    timedout t' = timedout t ∧ user t' = user t ∧
    ∃ k, (ev, k) ∈ added l ev (u64 (now + timer)) ∧
      ngx_abs (s64 (u64 (u64 (now + timer) - k))) < NGX_TIMER_LAZY_DELAY.
Proof.
  intros H [set Hev] Hw%window_u64. set (k := u64 (now + timer)) in *.
  assert (H0 : ngx_abs (s64 (u64 (k - k))) < NGX_TIMER_LAZY_DELAY) by by rewrite Z.sub_diag.
  assert (twp (ngx_event_add_timer now ev timer) t (λ _ t', good base t' (added l ev k) ∧
    timedout t' = timedout t ∧ user t' = user t)) as ([] & t' & Hrun & Hg & Ht & Hu).
  { unfold ngx_event_add_timer. fold k. apply twp_bind. exists set, t.
    split; [unfold get_timer_set; by rewrite Hev|]. apply twp_bind.
    assert (Hset : set = true ↔ ev ∈ l.*1).
    { rewrite <- (good_set _ _ _ H), Hev. split; [by intros ->|by intros [= ->]]. }
    destruct set; cbn [orb].
    - pose proof (proj1 Hset eq_refl) as ([ev' k0] & -> & Hin)%list_elem_of_fmap. cbn [fst] in *.
      pose proof (lazy_key _ _ _ _ k _ H Hin) as Hlazy. rename ev' into ev.
      eapply twp_bind, (twp_key base t l ev k0); [done..|]. unfold added.
      destruct (decide (lazy_timer l ev k)) as [Hl|Hl].
      + apply Hlazy, Z.ltb_lt in Hl. rewrite Hl. apply twp_ret. by apply twp_ret.
      + rewrite Hlazy in Hl. apply Z.nlt_ge, Z.ltb_ge in Hl. rewrite Hl.
        apply twp_bind. eapply twp_del_timer; [done|by apply Hset|].
        intros t1 H1 Ht1 Hu1 Hs1. apply twp_ret.
        eapply (twp_insert base t1 (without ev l)); [done| |apply without_good_notin|done|].
        { rewrite Hs1. exists false. apply lookup_insert_eq. }
        intros t2 H2 Ht2 Hu2 _. split; [done|]. split; congruence.
    - apply twp_ret. assert (ev ∉ l.*1) as Hnl by (intros Hin; by apply Hset in Hin).
      eapply (twp_insert base t l); [done|by exists false|done|done|].
      intros t2 H2 Ht2 Hu2 _. unfold added.
      destruct (decide (lazy_timer l ev k)) as [Hl|Hl]; [|by rewrite without_notin].
      exfalso. apply Hnl. apply list.Exists_exists in Hl as ([a k'] & Hin & <- & _).
      by apply (list_elem_of_fmap_2 fst) in Hin. }
  exists t'. do 4 (split; [done|]). unfold added.
  destruct (decide (lazy_timer l ev k)) as [Hl|Hl].
  - apply list.Exists_exists in Hl as ([a k'] & Hin & <- & Hlt). by exists k'.
  - exists k. split; [|done]. rewrite insert_sorted_perm. by left.
Qed.

(** *** Expiry *)
Abbreviation due now := (filter (λ e : Z * Z, expired now e.2 = true)).
Abbreviation not_due now := (filter (λ e : Z * Z, expired now e.2 = false)).

(** The timers that have expired come first. *)
Lemma not_due_head base now t a k l :
  good base t ((a, k) :: l) → in_window base now → expired now k = false → due now ((a, k) :: l) = [].
Proof.
  intros H Hnow Hk. pose proof (good_order _ _ _ H) as Ho. pose proof (good_window _ _ _ H) as Hw.
  rewrite list.Forall_forall in Hw. inversion_clear Ho as [|?? _ Hx].
  rewrite filter_cons_False by (cbn; congruence).
  assert (Forall (λ e, ¬ expired now e.2 = true) l) as Hall.
  { rewrite list.Forall_forall in *. intros [b kb] Hb. specialize (Hx _ Hb). cbn in *.
    assert (in_window base k) by (apply Hw; by left).
    assert (in_window base kb) by (apply Hw; right; by apply (list_elem_of_fmap_2 snd) in Hb).
    rewrite (before_idx base), Z.ltb_ge in Hx by done. unfold expired in *.
    rewrite (s64_diff base) in Hk |- * by done. rewrite Z.leb_gt in Hk. rewrite Z.leb_le. lia. }
  clear -Hall. induction Hall as [|e l He Hl IH]; [done|]. by rewrite filter_cons_False.
Qed.

Section Expire.
Context (handler : Z → T unit) (base now : Z) (Hnow : in_window base now).

(** One turn of the loop: the first timer expires and its handler runs. *)
Lemma expire_step fuel t a k l (Q : unit → timers → Prop) :
  good base t ((a, k) :: l) → expired now k = true →
  (∀ t', good base t' l → timedout t' = <[a := true]> (timedout t) → user t' = user t →
     is_Some (timer_set t' !! a) →
     twp (handler a;; ngx_event_expire_timers handler fuel now) t' Q) →
  twp (ngx_event_expire_timers handler (S fuel) now) t Q.
Proof.
  intros H Hk HQ. cbn [ngx_event_expire_timers].
  eapply twp_bind, twp_first; [exact H|]. rewrite (root_test _ _ _ H).
  eapply twp_bind, twp_min; [exact H|]. cbn [fst].
  eapply twp_bind, (twp_key base t _ a k); [exact H|by left|].
  unfold expired in Hk. rewrite Hk.
  assert (Hl : without a ((a, k) :: l) = l).
  { rewrite filter_cons_False by (cbn; tauto). apply without_notin.
    pose proof (rbtree_nodup _ _ _ (good_tree _ _ _ H)) as Hd.
    apply list.NoDup_cons in Hd as [_ Hd]. by apply list.NoDup_cons in Hd as [? _]. }
  eapply twp_bind, (twp_delete base t _ a); [exact H|by left|]. rewrite Hl. intros s Hs.
  apply twp_bind, twp_set; [exists true; apply (good_set _ _ _ H); by left|].
  apply twp_bind. eexists tt, _. split; [reflexivity|].
  apply HQ; [|done|done|].
  - destruct Hs as [H1 H2 H3 H4 H5]. by split.
  - exists false. apply lookup_insert_eq.
Qed.

Lemma expire_stop fuel t l (Q : unit → timers → Prop) :
  good base t l → match l with [] => True | e :: _ => expired now e.2 = false end → Q tt t →
  twp (ngx_event_expire_timers handler (S fuel) now) t Q.
Proof.
  intros H Hk HQ. cbn [ngx_event_expire_timers].
  eapply twp_bind, twp_first; [exact H|]. rewrite (root_test _ _ _ H).
  destruct l as [|[a k] l]; [by apply twp_ret|].
  eapply twp_bind, twp_min; [exact H|]. cbn [fst].
  eapply twp_bind, (twp_key base t _ a k); [exact H|by left|].
  unfold expired in Hk. cbn in Hk. rewrite Hk. by apply twp_ret.
Qed.

(** Handlers may delete timers, and add such as expire later. *)
Definition handler_ok : Prop := ∀ ev t l,
  good base t l → ev ∉ l.*1 → is_Some (timer_set t !! ev) →
  ∃ t' l', handler ev t = Some (tt, t') ∧ good base t' l' ∧ sublist (due now l') (due now l).

(** Handlers that do not use timers change only their own data. *)
Definition handler_own (f : Z → U → U) : Prop := ∀ ev t,
  handler ev t = Some (tt, t <| user := f ev (user t) |>).
End Expire.

Lemma good_notin base t a k l : good base t ((a, k) :: l) → a ∉ l.*1.
Proof.
  intros H. pose proof (rbtree_nodup _ _ _ (good_tree _ _ _ H)) as Hd.
  apply list.NoDup_cons in Hd as [_ Hd]. by apply list.NoDup_cons in Hd as [? _].
Qed.

(** C33: [ngx_event_expire_timers] returns, and no expired timer is left, whatever
    the handlers do as long as they add no timer that has already expired. *)
Theorem expire_timers_total handler base now t l fuel :
  in_window base now → handler_ok handler base now → good base t l →
  (length (due now l) < fuel)%nat →
  ∃ t' l', ngx_event_expire_timers handler fuel now t = Some (tt, t') ∧
    good base t' l' ∧ due now l' = [].
Proof.
  intros Hnow Hh. revert t l. induction fuel as [|fuel IH]; intros t l H Hl; [lia|].
  assert (twp (ngx_event_expire_timers handler (S fuel) now) t (λ _ t', ∃ l',
    good base t' l' ∧ due now l' = [])) as ([] & t' & Hrun & l' & Hg & Hd); [|by exists t', l'].
  destruct l as [|[a k] l]; [eapply expire_stop; [exact H|done|by exists []]|].
  destruct (expired now k) eqn:Ek.
  - rewrite filter_cons_True in Hl by done. cbn in Hl.
    eapply (expire_step handler base now); [exact H|exact Ek|]. intros t1 H1 _ _ Hs1.
    destruct (Hh a t1 l H1 (good_notin _ _ _ _ _ H) Hs1) as (t2 & l2 & Hrun & H2 & Hsub).
    apply twp_bind. exists tt, t2. split; [done|].
    apply sublist_length in Hsub.
    destruct (IH t2 l2 H2 ltac:(lia)) as (t' & l' & Hrun' & Hg & Hd).
    exists tt, t'. split; [done|]. by exists l'.
  - eapply expire_stop; [exact H|exact Ek|]. eexists. split; [exact H|].
    by eapply not_due_head.
Qed.

Lemma not_due_all now l : due now l = [] → not_due now l = l.
Proof.
  induction l as [|e l IH]; [done|]. intros H. destruct (expired now e.2) eqn:E.
  - by rewrite filter_cons_True in H.
  - rewrite filter_cons_False in H by congruence. rewrite filter_cons_True by done. by rewrite IH.
Qed.

Lemma expire_order handler f base now : in_window base now → handler_own handler f →
  ∀ fuel t l, good base t l → (length (due now l) < fuel)%nat →
  twp (ngx_event_expire_timers handler fuel now) t (λ _ t',
    good base t' (not_due now l) ∧ user t' = fold_left (λ u e, f e.1 u) (due now l) (user t) ∧
    ∀ ev, ev ∈ (due now l).*1 ∨ timedout t !! ev = Some true → timedout t' !! ev = Some true).
Proof.
  intros Hnow Hh fuel. induction fuel as [|fuel IH]; intros t l H Hl; [lia|].
  assert (Hstop : due now l = [] → good base t (not_due now l) ∧
    user t = fold_left (λ u e, f e.1 u) (due now l) (user t) ∧
    ∀ ev, ev ∈ (due now l).*1 ∨ timedout t !! ev = Some true → timedout t !! ev = Some true).
  { intros E. rewrite E, not_due_all by done. split; [done|]. split; [done|].
    by intros ev [?%elem_of_nil|]. }
  destruct l as [|[a k] l]; [eapply expire_stop; [exact H|done|by apply Hstop]|].
  destruct (expired now k) eqn:Ek.
  - rewrite filter_cons_True in Hl by done. cbn [length] in Hl.
    eapply (expire_step handler base now); [exact H|exact Ek|]. intros t1 H1 Ht1 Hu1 Hs1.
    set (t2 := t1 <| user := f a (user t1) |>).
    assert (H2 : good base t2 l) by (destruct H1; by split).
    apply twp_bind. exists tt, t2. split; [apply Hh|].
    destruct (IH t2 l H2 ltac:(lia)) as ([] & t' & Hrun & Hg & Hu & Ho).
    exists tt, t'. split; [done|].
    rewrite filter_cons_False, filter_cons_True by (cbn; congruence). split; [done|]. split.
    + rewrite Hu. cbn [fold_left fst]. change (user t2) with (f a (user t1)). by rewrite Hu1.
    + intros ev Hev. apply Ho. change (timedout t2) with (timedout t1). rewrite Ht1.
      destruct (decide (ev = a)) as [->|Hne]; [right; apply lookup_insert_eq|].
      rewrite lookup_insert_ne by done. destruct Hev as [[->|Hev]%elem_of_cons|Hev]; auto; done.
  - eapply expire_stop; [exact H|exact Ek|]. apply Hstop. by eapply not_due_head.
Qed.

(** When the handlers use no timers, those of the expired timers run once each,
    in the order in which the timers expire; the other timers stay. *)
Theorem expire_timers_order handler f base now t l fuel :
  in_window base now → handler_own handler f → good base t l →
  (length (due now l) < fuel)%nat →
  ∃ t', ngx_event_expire_timers handler fuel now t = Some (tt, t') ∧
    good base t' (not_due now l) ∧
    user t' = fold_left (λ u e, f e.1 u) (due now l) (user t) ∧
    ∀ ev, ev ∈ (due now l).*1 → timedout t' !! ev = Some true.
Proof.
  intros Hnow Hh H Hl.
  destruct (expire_order handler f base now Hnow Hh fuel t l H Hl) as ([] & t' & Hrun & Hg & Hu & Ho).
  exists t'. do 3 (split; [done|]). intros ev Hev. apply Ho. by left.
Qed.

(** ** The timers of a running process *)
Inductive timer_step (base : Z) : timers → timers → Prop :=
  | step_add now ev timer t t' :
      is_Some (timer_set t !! ev) → in_window base (now + timer) →
      ngx_event_add_timer now ev timer t = Some (tt, t') → timer_step base t t'
  | step_del ev t t' :
      timer_set t !! ev = Some true → ngx_event_del_timer ev t = Some (tt, t') →
      timer_step base t t'
  | step_user t u : timer_step base t (t <| user := u |>).

(** C32: Whatever the order in which timers are added and deleted, the tree holds
    exactly the events that have [timer_set], in the order in which they
    expire, and every further operation succeeds. *)
Theorem timers_invariant base t0 t :
  good base t0 [] → rtc (timer_step base) t0 t →
  ∃ l, good base t l ∧
    (∀ now ev timer, is_Some (timer_set t !! ev) → in_window base (now + timer) →
       is_Some (ngx_event_add_timer now ev timer t)) ∧
    (∀ ev, timer_set t !! ev = Some true → is_Some (ngx_event_del_timer ev t)).
Proof.
  intros H0 Hrtc. assert (∃ l, good base t l) as [l H].
  { revert Hrtc. revert t. apply rtc_ind_r; [by exists []|]. intros y z _ Hstep [l H].
    destruct Hstep as [now ev timer t t' Hev Hw Hrun|ev t t' Hev Hrun|t u].
    - destruct (add_timer_correct base now t l ev timer H Hev Hw) as (t1 & Hrun' & Hg & _).
      exists (added l ev (u64 (now + timer))). congruence.
    - apply (good_set _ _ _ H) in Hev.
      assert (twp (ngx_event_del_timer ev) t (λ _ t1, good base t1 (without ev l)))
        as ([] & t1 & Hrun' & Hg) by by eapply twp_del_timer.
      exists (without ev l). congruence.
    - exists l. destruct H. by split. }
  exists l. split; [done|]. split.
  - intros now ev timer Hev Hw.
    destruct (add_timer_correct base now t l ev timer H Hev Hw) as (t1 & Hrun & _). by exists (tt, t1).
  - intros ev Hev. apply (good_set _ _ _ H) in Hev.
    assert (twp (ngx_event_del_timer ev) t (λ _ _, True)) as (v & t1 & Hrun & _)
      by by eapply twp_del_timer.
    by exists (v, t1).
Qed.
End Timers.

(** ** Witnesses: the timer of event 2 expires at 30 *)
Definition example_timers : timers (U := list Z) :=
  mk_timers (mk_store (list_to_map [(1, mk_node 0 0 0 0 0); (2, mk_node 30 1 1 0 0); (3, mk_node 0 0 0 0 0)]) 2)
    (<[2 := true]> (<[3 := false]> ∅)) ∅ [].

Lemma example_good : good 1 0 example_timers [(2, 30)].
Proof.
  split.
  - exists (mk_node 0 0 0 0 0), (Node false Leaf 2 30 Leaf), 1%nat.
    split; [|split; [by repeat econstructor|done]]. split; try done.
    + by exists 0.
    + change (addrs _) with [2]. apply NoDup_cons_2; [|apply NoDup_singleton].
      by intros ?%list_elem_of_singleton.
  - by repeat constructor.
  - by repeat constructor.
  - intros ev. change ([(2, 30)].*1) with [2]. rewrite list_elem_of_singleton.
    cbn [example_timers timer_set].
    destruct (decide (2 = ev)) as [<-|H2]; [by rewrite lookup_insert_eq|].
    rewrite lookup_insert_ne by done. split; [|congruence].
    destruct (decide (3 = ev)) as [<-|H3]; [by rewrite lookup_insert_eq|].
    by rewrite lookup_insert_ne by done.
  - intros ev [b Hb]. cbn [example_timers timer_set] in Hb.
    destruct (decide (2 = ev)) as [<-|H2]; [split; [done|by eexists]|].
    rewrite lookup_insert_ne in Hb by done.
    destruct (decide (3 = ev)) as [<-|H3]; [split; [done|by eexists]|].
    by rewrite lookup_insert_ne in Hb by done.
Qed.

Definition log_handler (ev : Z) : T (U := list Z) unit := λ t,
  Some (tt, t <| user := user t ++ [ev] |>).

Lemma log_own : handler_own log_handler (λ ev u, u ++ [ev]).
Proof. by intros ev t. Qed.

Lemma log_ok base now : handler_ok 1 log_handler base now.
Proof.
  intros ev t l H _ _. eexists _, l. split; [reflexivity|]. split; [|done]. destruct H. by split.
Qed.

Lemma find_timer_correct_witness :
  ∃ timer, ngx_event_find_timer 1 10 example_timers = Some (timer, example_timers) ∧
    timer ≤ remaining 10 30.
Proof.
  destruct (find_timer_correct 1 0 10 example_timers [(2, 30)] example_good ltac:(done))
    as (timer & H1 & _ & H2).
  exists timer. split; [exact H1|]. apply (H2 2). by left.
Defined.

Lemma add_timer_correct_witness :
  ∃ t', ngx_event_add_timer 1 10 3 5 example_timers = Some (tt, t') ∧ good 1 0 t' [(3, 15); (2, 30)].
Proof.
  destruct (add_timer_correct 1 0 10 example_timers [(2, 30)] 3 5 example_good
    ltac:(by eexists) ltac:(done)) as (t' & H1 & H2 & _).
  exists t'. split; [exact H1|]. exact H2.
Defined.

Lemma expire_timers_total_witness :
  ∃ t' l', ngx_event_expire_timers 1 log_handler 2 40 example_timers = Some (tt, t') ∧
    good 1 0 t' l' ∧ filter (λ e : Z * Z, expired 40 e.2 = true) l' = [].
Proof.
  apply (expire_timers_total 1 log_handler 0 40 example_timers [(2, 30)]);
    [done|apply log_ok|exact example_good|]. vm_compute. lia.
Defined.

Lemma expire_timers_order_witness :
  ∃ t', ngx_event_expire_timers 1 log_handler 2 40 example_timers = Some (tt, t') ∧
    good 1 0 t' [] ∧ user t' = [2].
Proof.
  destruct (expire_timers_order 1 log_handler (λ ev u, u ++ [ev]) 0 40 example_timers [(2, 30)] 2)
    as (t' & H1 & H2 & H3 & _); [done|exact log_own|exact example_good|vm_compute; lia|].
  exists t'. split; [exact H1|]. split; [exact H2|exact H3].
Defined.

Definition example_idle : timers (U := list Z) :=
  mk_timers (mk_store (list_to_map [(1, mk_node 0 0 0 0 0); (2, mk_node 0 0 0 0 0)]) 1)
    (<[2 := false]> ∅) ∅ [].

Lemma example_idle_good : good 1 0 example_idle [].
Proof.
  split.
  - exists (mk_node 0 0 0 0 0), Leaf, 0%nat. split; [|split; [constructor|done]]. split; try done.
    + by exists 0.
    + apply NoDup_singleton.
  - constructor.
  - constructor.
  - intros ev. cbn [example_idle timer_set]. split; [|by intros ?%elem_of_nil].
    destruct (decide (2 = ev)) as [<-|H2]; [by rewrite lookup_insert_eq|].
    by rewrite lookup_insert_ne by done.
  - intros ev [b Hb]. cbn [example_idle timer_set] in Hb.
    destruct (decide (2 = ev)) as [<-|H2]; [split; [done|by eexists]|].
    by rewrite lookup_insert_ne in Hb by done.
Qed.

Lemma timers_invariant_witness :
  ∃ t l, ngx_event_add_timer 1 10 2 5 example_idle = Some (tt, t) ∧ good 1 0 t l ∧
    is_Some (ngx_event_add_timer 1 20 2 500 t).
Proof.
  destruct (add_timer_correct 1 0 10 example_idle [] 2 5 example_idle_good
    ltac:(by eexists) ltac:(done)) as (t & H1 & H2 & _).
  destruct (timers_invariant 1 0 example_idle t example_idle_good) as (l & H3 & H4 & _).
  - apply rtc_once. apply (step_add 1 0 10 2 5); [by eexists|done|exact H1].
  - exists t, l. split; [exact H1|]. split; [exact H3|]. apply H4; [|done].
    exists true. by apply (good_set _ _ _ _ H2); left.
Defined.
End Timer.
