(* ===== verification/MailParse.v ===== *)
(** * The mail proxy's command parsers: POP3 and SMTP

    src/mail/ngx_mail_parse.c.  Resumable state machines over the session's
    buffer, run by the loop of [Scan]; the IMAP parser, on the same session, is
    in [MailImap].  Offsets are relative to
    [s->buffer->start]; an argument is its offset and length.  The build option
    [NGX_MAIL_SSL] and the outcome of [ngx_array_push] are parameters:
    [push_ok n] says whether the array that holds [n] elements can grow. *)

From S2P Require Import Prelude Scan.

(** ** What the parsers share *)

(** The two labels after the loop. *)
Inductive mail_label : Set := mail_done | mail_invalid.

(** The fields of [ngx_mail_session_t] the parsers use, [state] apart. *)
Record session := mk_session {
  command : Z;
  tag : option (Z * Z);
  args : list (Z * Z);
  cmd_start : option Z;
  arg_start : option Z;
  arg_end : option Z;
  quoted : bool;
  backslash : bool;
  no_sync_literal : bool;
  literal_len : Z;
}.

#[export] Instance eta_session : Eta session := λ s,
  mk_session (command s) (tag s) (args s) (cmd_start s) (arg_start s) (arg_end s)
    (quoted s) (backslash s) (no_sync_literal s) (literal_len s).

Abbreviation NGX_MAIL_PARSE_INVALID_COMMAND := 20.

Definition ngx_toupper (c : Z) : Z :=
  if ("a"%ch <=? c) && (c <=? "z"%ch) then Z.land c (Z.lnot 0x20) else c.
Definition is_letter (c : Z) : bool :=
  ("A"%ch <=? c) && (c <=? "Z"%ch) || ("a"%ch <=? c) && (c <=? "z"%ch).
Arguments ngx_toupper : simpl never.
Arguments is_letter : simpl never.

(** Is the word at [c] the word [w], whatever the case of its letters: the
    comparisons [c0 == 'U' && ...] after [ngx_toupper] of POP3 and SMTP. *)
Definition word_at (buf : list Z) (c n : Z) (w : list Z) : bool :=
  bool_decide (map ngx_toupper (slice buf c n) = w).

(** [c[0] == 'N' || c[0] == 'n'] and so on, of IMAP and STARTTLS. *)
Fixpoint either_case (word w : list Z) : bool :=
  match word, w with
  | [], [] => true
  | c :: word', k :: w' => ((c =? k) || (c =? Z.lor k 0x20)) && either_case word' w'
  | _, _ => false
  end.

(** [ngx_array_push] of the argument that ends before [p]. *)
Definition push_arg (p : Z) (s : session) : session :=
  let a := deref (arg_start s) in
  s <| args := args s ++ [(a, p - a)] |> <| arg_start := None |>.

(** The commands of a protocol: the words and their numbers. *)
Definition find_command (table : list (list Z * Z)) (eqb : list Z → bool) : option Z :=
  match find (λ e, eqb e.1) table with Some (_, n) => Some n | None => None end.

Section Mail.
Variable mail_ssl : bool.
Variable push_ok : nat → bool.

Definition with_ssl (e : list Z * Z) : list (list Z * Z) := if mail_ssl then [e] else [].

(** A [break] after an argument is pushed, or [return NGX_ERROR]. *)
Definition pushing {St : Type} (st : St) (s : session)
    (k : flow mail_label (St * session)) : flow mail_label (St * session) :=
  if push_ok (length (args s)) then k else Ret NGX_ERROR (st, s).

(** ** POP3 and SMTP *)

Inductive sw : Set := sw_start | sw_spaces_before_argument | sw_argument | sw_almost_done.

Abbreviation outcome := (flow mail_label (sw * session)).

Definition pop3_commands : list (list Z * Z) :=
  [(bs "USER", 1); (bs "PASS", 2); (bs "APOP", 7); (bs "QUIT", 4); (bs "CAPA", 3);
   (bs "AUTH", 8); (bs "NOOP", 5)] ++ with_ssl (bs "STLS", 6).

Definition smtp_commands : list (list Z * Z) :=
  [(bs "HELO", 1); (bs "EHLO", 2); (bs "QUIT", 4); (bs "AUTH", 3); (bs "NOOP", 5);
   (bs "MAIL", 6); (bs "RSET", 7); (bs "RCPT", 8); (bs "VRFY", 10); (bs "EXPN", 11);
   (bs "HELP", 12)].

Abbreviation NGX_POP3_USER := 1.
Abbreviation NGX_POP3_PASS := 2.
Abbreviation NGX_POP3_AUTH := 8.
Abbreviation NGX_SMTP_AUTH := 3.
Abbreviation NGX_SMTP_STARTTLS := 13.

(** The command that the first [p] bytes of the buffer write. *)
Definition pop3_command (buf : list Z) (p : Z) : option Z :=
  if p =? 4 then find_command pop3_commands (word_at buf 0 4) else None.

Definition smtp_command (buf : list Z) (p : Z) : option Z :=
  if p =? 4 then find_command smtp_commands (word_at buf 0 4)
  else if mail_ssl && (p =? 8) then
    if either_case (slice buf 0 8) (bs "STARTTLS") then Some NGX_SMTP_STARTTLS else None
  else None.

(** After a word or an argument: [' '], CR or LF. *)
Definition after_word (ch : Z) (s : session) : outcome :=
  if ch =? " "%ch then Cont (sw_spaces_before_argument, s)
  else if ch =? CR then Cont (sw_almost_done, s)
  else Goto mail_done (sw_start, s).

Definition step_start (cmd : option Z) (ch : Z) (s : session) : outcome :=
  if (ch =? " "%ch) || (ch =? CR) || (ch =? LF) then
    match cmd with
    | Some n => after_word ch (s <| command := n |>)
    | None => Goto mail_invalid (sw_start, s)
    end
  else if negb (is_letter ch) then Goto mail_invalid (sw_start, s)
  else Cont (sw_start, s).

Definition step_spaces_before_argument (max_args : nat) (p ch : Z) (s : session) : outcome :=
  if ch =? " "%ch then Cont (sw_spaces_before_argument, s)
  else if ch =? CR then Cont (sw_almost_done, s <| arg_end := Some p |>)
  else if ch =? LF then
    Goto mail_done (sw_spaces_before_argument, s <| arg_end := Some p |>)
  else if (length (args s) <=? max_args)%nat then
    Cont (sw_argument, s <| arg_start := Some p |>)
  else Goto mail_invalid (sw_spaces_before_argument, s).

(** [keep_space]: spaces belong to the argument. *)
Definition step_argument (keep_space : bool) (p ch : Z) (s : session) : outcome :=
  if (ch =? " "%ch) && keep_space then Cont (sw_argument, s)
  else if (ch =? " "%ch) || (ch =? CR) || (ch =? LF) then
    pushing sw_argument s (after_word ch (push_arg p s))
  else Cont (sw_argument, s).

Definition step_almost_done (ch : Z) (s : session) : outcome :=
  if ch =? LF then Goto mail_done (sw_almost_done, s)
  else Goto mail_invalid (sw_almost_done, s).

(** The [switch (state)] of the two parsers: they differ in the words, in
    the number of arguments and in the treatment of spaces. *)
Definition word_step (cmd : option Z) (keep_space : bool) (max_args : nat) (p ch : Z)
    (x : sw * session) : outcome :=
  let '(st, s) := x in
  match st with
  | sw_start => step_start cmd ch s
  | sw_spaces_before_argument => step_spaces_before_argument max_args p ch s
  | sw_argument => step_argument keep_space p ch s
  | sw_almost_done => step_almost_done ch s
  end.

Definition pop3_step (buf : list Z) (p ch : Z) (x : sw * session) : outcome :=
  word_step (pop3_command buf p)
    ((command x.2 =? NGX_POP3_USER) || (command x.2 =? NGX_POP3_PASS)) 2 p ch x.

Definition smtp_step (buf : list Z) (p ch : Z) (x : sw * session) : outcome :=
  word_step (smtp_command buf p) false 10 p ch x.

(** [done:] of POP3 and SMTP; [auth] is the AUTH command of the protocol. *)
Definition finish_command (auth : Z) (st : sw) (s : session) : Z * (sw * session) :=
  let after s := (NGX_OK, (if command s =? auth then sw_argument else sw_start, s)) in
  match arg_start s with
  | Some a =>
      if push_ok (length (args s)) then
        after (s <| args := args s ++ [(a, deref (arg_end s) - a)] |> <| arg_start := None |>)
      else (NGX_ERROR, (st, s))
  | None => after s
  end.

(** The return code, [s->state] with the session, and [s->buffer->pos]. *)
Definition parse_command (step : list Z → Z → Z → sw * session → outcome) (auth : Z)
    (x : sw * session) (buf : list Z) (pos : Z) : Z * (sw * session) * Z :=
  match scan step buf pos x with
  | (p, Cont x') => (NGX_AGAIN, x', p)
  | (p, Goto mail_done (_, s)) => (finish_command auth x.1 s, p + 1)
  | (_, Goto mail_invalid (_, s)) =>
      (NGX_MAIL_PARSE_INVALID_COMMAND, (sw_start, s <| arg_start := None |>), pos)
  | (_, Ret rc (_, s)) => (rc, (x.1, s), pos)
  end.

Definition ngx_mail_pop3_parse_command := parse_command pop3_step NGX_POP3_AUTH.
Definition ngx_mail_smtp_parse_command := parse_command smtp_step NGX_SMTP_AUTH.
End Mail.

(** ** Theorems: POP3 and SMTP *)

(** Every argument lies before [p]. *)
Definition args_before (p : Z) (l : list (Z * Z)) : Prop :=
  Forall (λ a, 0 ≤ a.1 ∧ 0 ≤ a.2 ∧ a.1 + a.2 ≤ p) l.

Lemma args_before_mono p q l : args_before p l → p ≤ q → args_before q l.
Proof. intros H Hpq. eapply list.Forall_impl; [exact H|]. cbn. lia. Qed.

Lemma args_before_snoc p l a n :
  args_before p l → 0 ≤ a → 0 ≤ n → a + n ≤ p → args_before p (l ++ [(a, n)]).
Proof. intros. apply Forall_app_2; [done|]. by constructor. Qed.

Definition is_argument (st : sw) : bool := match st with sw_argument => true | _ => false end.

(** The states between calls: arguments lie behind [p], at most [max + 1] of
    them, and one is open exactly in [sw_argument]. *)
Definition word_inv (max : nat) (p : Z) (x : sw * session) : Prop :=
  args_before p (args x.2) ∧
  if is_argument x.1
  then (length (args x.2) ≤ max)%nat ∧ within 0 (arg_start x.2) (p + 1)
  else (length (args x.2) ≤ S max)%nat ∧ arg_start x.2 = None.

Definition word_done (max : nat) (p : Z) (s : session) : Prop :=
  args_before p (args s) ∧ (length (args s) ≤ S max)%nat ∧ arg_start s = None.

Lemma word_step_inv push_ok cmd keep max p ch x :
  0 ≤ p → word_inv max p x →
  match word_step push_ok cmd keep max p ch x with
  | Cont x' => word_inv max (p + 1) x'
  | Goto mail_done x' => word_done max p x'.2
  | Goto mail_invalid x' => args_before p (args x'.2) ∧ (length (args x'.2) ≤ S max)%nat
  | Ret rc _ => rc = NGX_ERROR
  end.
Proof.
  intros Hp. destruct x as [st s]. unfold word_inv, word_done, word_step. cbn [fst snd].
  intros [Ha Hst]. assert (Ha' : args_before (p + 1) (args s)) by (eapply args_before_mono; [done|lia]).
  destruct st; cbn in Hst; destruct Hst as [Hl Hs];
    unfold step_start, step_spaces_before_argument, step_argument, step_almost_done,
      after_word, pushing, push_arg;
    try (destruct cmd); split_ifs; cbn; try done.
  all: try match goal with H : within _ _ _ |- _ => pose proof (within_r _ _ _ H) end.
  all: rewrite ?length_app, ?Nat.leb_le in *; cbn;
    split_and!; try done; try lia;
    first [ apply args_before_snoc; [done|lia..]
          | apply within_some; lia
          | eapply within_mono; [eassumption|lia..] ].
Qed.

(** The commands of POP3 and of SMTP are read from bytes already in the buffer. *)
Lemma slice0_app_l buf more n :
  0 ≤ n ≤ Z.of_nat (length buf) → slice (buf ++ more) 0 n = slice buf 0 n.
Proof. intros. apply slice_app_l; lia. Qed.

Lemma pop3_command_app ssl buf more p :
  p < Z.of_nat (length buf) → pop3_command ssl (buf ++ more) p = pop3_command ssl buf p.
Proof.
  intros. unfold pop3_command, find_command, word_at.
  destruct (Z.eqb_spec p 4); [|done]. by rewrite slice0_app_l by lia.
Qed.

Lemma smtp_command_app ssl buf more p :
  p < Z.of_nat (length buf) → smtp_command ssl (buf ++ more) p = smtp_command ssl buf p.
Proof.
  intros. unfold smtp_command, find_command, word_at.
  destruct (Z.eqb_spec p 4); [by rewrite slice0_app_l by lia|].
  destruct (Z.eqb_spec p 8); [by rewrite slice0_app_l by lia|by rewrite !andb_false_r].
Qed.

(** How the loop may end. *)
Definition words_ok (max : nat) (p : Z) (f : flow mail_label (sw * session)) : Prop :=
  match f with
  | Cont x' => word_inv max p x'
  | Goto mail_done x' => word_done max p x'.2
  | Goto mail_invalid x' => args_before p (args x'.2) ∧ (length (args x'.2) ≤ S max)%nat
  | Ret rc _ => rc = NGX_ERROR
  end.

(** Two calls end alike: the same result, or the same error with the same
    session. *)
Definition same_outcome (x y : Z * (sw * session) * Z) : Prop :=
  x = y ∨ (x.1.1 = y.1.1 ∧ x.1.1 ≠ NGX_OK ∧ x.1.1 ≠ NGX_AGAIN ∧ x.1.2.2 = y.1.2.2).

Lemma finish_command_done push_ok max auth p st s :
  word_done max p s →
  finish_command push_ok auth st s =
    (NGX_OK, (if command s =? auth then sw_argument else sw_start, s)).
Proof. intros (_ & _ & Ha). unfold finish_command. by rewrite Ha. Qed.

Section Words.
Variable push_ok : nat → bool.
Variable auth : Z.
Variable step : list Z → Z → Z → sw * session → flow mail_label (sw * session).
Variable max : nat.
Hypothesis step_ok : ∀ buf p ch x, 0 ≤ p → word_inv max p x →
  match step buf p ch x with Cont x' => word_inv max (p + 1) x' | f => words_ok max p f end.
Hypothesis step_app : ∀ buf more p ch x,
  p < Z.of_nat (length buf) → step (buf ++ more) p ch x = step buf p ch x.

Program Definition words_resumable : ResumableParser mail_label (sw * session) := {|
  rp_step := step; rp_inv := word_inv max |}.
Next Obligation.
  intros buf p ch x x' Hp Hi Hs. pose proof (step_ok buf p ch x Hp Hi) as H. by rewrite Hs in H.
Qed.
Next Obligation. intros buf more p ch x Hp _. apply step_app. lia. Qed.

Lemma words_scan buf pos x :
  0 ≤ pos ≤ Z.of_nat (length buf) → word_inv max pos x →
  words_ok max (scan step buf pos x).1 (scan step buf pos x).2.
Proof.
  intros Hpos Hx. apply (scan_rule step (word_inv max) (words_ok max)); [done|done| |done].
  intros p ch s Hp _ Hs. pose proof (step_ok buf p ch s ltac:(lia) Hs) as H.
  by destruct (step buf p ch s).
Qed.

Lemma words_incremental x d1 d2 pos :
  0 ≤ pos ≤ Z.of_nat (length d1) → word_inv max pos x →
  let whole := parse_command push_ok step auth x (d1 ++ d2) pos in
  let '(rc, x1, pos1) := parse_command push_ok step auth x d1 pos in
  if rc =? NGX_AGAIN
  then same_outcome whole (parse_command push_ok step auth x1 (d1 ++ d2) pos1)
  else whole = (rc, x1, pos1).
Proof.
  intros Hpos Hx. unfold parse_command.
  pose proof (scan_app (RP := words_resumable) d1 d2 pos x Hpos Hx) as Happ.
  cbn [rp_step words_resumable] in Happ. rewrite Happ. clear Happ.
  pose proof (words_scan d1 pos x Hpos Hx) as H1.
  destruct (scan step d1 pos x) as [p [y|[] [st s]|rc [st s]]] eqn:E1; cbn in H1 |- *.
  - apply scan_pos in E1; [|done].
    pose proof (words_scan (d1 ++ d2) p y ltac:(rewrite length_app; lia) H1) as H2.
    unfold same_outcome.
    destruct (scan step (d1 ++ d2) p y) as [q [z|[] [? ?]|rc2 [? ?]]]; cbn in H2 |- *.
    + by left.
    + left. by rewrite !(finish_command_done push_ok max auth q) by done.
    + by right.
    + right. by subst.
  - by rewrite (finish_command_done push_ok max auth p) by done.
  - done.
  - by subst.
Qed.

Lemma words_arguments x buf pos rc x' pos' :
  0 ≤ pos ≤ Z.of_nat (length buf) → word_inv max pos x →
  parse_command push_ok step auth x buf pos = (rc, x', pos') →
  (rc = NGX_OK → pos < pos' ≤ Z.of_nat (length buf) ∧
     args_before pos' (args x'.2) ∧ (length (args x'.2) ≤ S max)%nat) ∧
  (rc = NGX_AGAIN → pos' = Z.of_nat (length buf) ∧ word_inv max pos' x').
Proof.
  intros Hpos Hx. unfold parse_command.
  pose proof (words_scan buf pos x Hpos Hx) as H.
  destruct (scan step buf pos x) as [p f] eqn:E. apply scan_pos in E as Hp; [|done].
  destruct f as [y|[] [st s]|rc0 [st s]]; cbn in H.
  - intros [= <- <- <-]. split; [done|]. intros _. split; [apply Hp|exact H].
  - rewrite (finish_command_done push_ok max auth p) by done. intros [= <- <- <-].
    split; [|done]. intros _. destruct H as (Ha & Hl & _).
    split_and!; [lia|lia| |done]. eapply args_before_mono; [exact Ha|lia].
  - by intros [= <- <- <-].
  - intros [= <- <- <-]. by subst.
Qed.
End Words.

Lemma pop3_step_ok ssl push_ok buf p ch x :
  0 ≤ p → word_inv 2 p x →
  match pop3_step ssl push_ok buf p ch x with
  | Cont x' => word_inv 2 (p + 1) x' | f => words_ok 2 p f end.
Proof.
  intros Hp Hx. pose proof (word_step_inv push_ok (pop3_command ssl buf p)
    ((command x.2 =? 1) || (command x.2 =? 2)) 2 p ch x Hp Hx) as H.
  unfold pop3_step. by destruct (word_step _ _ _ _ _ _ _) as [|[]|].
Qed.

Lemma smtp_step_ok ssl push_ok buf p ch x :
  0 ≤ p → word_inv 10 p x →
  match smtp_step ssl push_ok buf p ch x with
  | Cont x' => word_inv 10 (p + 1) x' | f => words_ok 10 p f end.
Proof.
  intros Hp Hx. pose proof (word_step_inv push_ok (smtp_command ssl buf p) false 10 p ch x Hp Hx) as H.
  unfold smtp_step. by destruct (word_step _ _ _ _ _ _ _) as [|[]|].
Qed.

Lemma pop3_step_app ssl push_ok buf more p ch x :
  p < Z.of_nat (length buf) →
  pop3_step ssl push_ok (buf ++ more) p ch x = pop3_step ssl push_ok buf p ch x.
Proof. intros. unfold pop3_step. by rewrite pop3_command_app. Qed.

Lemma smtp_step_app ssl push_ok buf more p ch x :
  p < Z.of_nat (length buf) →
  smtp_step ssl push_ok (buf ++ more) p ch x = smtp_step ssl push_ok buf p ch x.
Proof. intros. unfold smtp_step. by rewrite smtp_command_app. Qed.

(** A POP3 or SMTP command read as it arrives is parsed as it is parsed at
    once. *)
Theorem mail_words_incremental ssl push_ok x d1 d2 pos :
  0 ≤ pos ≤ Z.of_nat (length d1) →
  (word_inv 2 pos x →
    let '(rc, x1, pos1) := ngx_mail_pop3_parse_command ssl push_ok x d1 pos in
    let whole := ngx_mail_pop3_parse_command ssl push_ok x (d1 ++ d2) pos in
    if rc =? NGX_AGAIN
    then same_outcome whole (ngx_mail_pop3_parse_command ssl push_ok x1 (d1 ++ d2) pos1)
    else whole = (rc, x1, pos1)) ∧
  (word_inv 10 pos x →
    let '(rc, x1, pos1) := ngx_mail_smtp_parse_command ssl push_ok x d1 pos in
    let whole := ngx_mail_smtp_parse_command ssl push_ok x (d1 ++ d2) pos in
    if rc =? NGX_AGAIN
    then same_outcome whole (ngx_mail_smtp_parse_command ssl push_ok x1 (d1 ++ d2) pos1)
    else whole = (rc, x1, pos1)).
Proof.
  intros Hpos. split; intros Hx.
  - apply (words_incremental push_ok 8 _ 2 (pop3_step_ok ssl push_ok) (pop3_step_app ssl push_ok));
      done.
  - apply (words_incremental push_ok 3 _ 10 (smtp_step_ok ssl push_ok) (smtp_step_app ssl push_ok));
      done.
Qed.

(** The arguments of an accepted POP3 or SMTP command lie inside the bytes
    consumed, and there are at most three or eleven of them. *)
Theorem mail_words_arguments ssl push_ok x buf pos rc x' pos' :
  0 ≤ pos ≤ Z.of_nat (length buf) →
  (word_inv 2 pos x → ngx_mail_pop3_parse_command ssl push_ok x buf pos = (rc, x', pos') →
   (rc = NGX_OK → pos < pos' ≤ Z.of_nat (length buf) ∧
      args_before pos' (args x'.2) ∧ (length (args x'.2) ≤ 3)%nat)) ∧
  (word_inv 10 pos x → ngx_mail_smtp_parse_command ssl push_ok x buf pos = (rc, x', pos') →
   (rc = NGX_OK → pos < pos' ≤ Z.of_nat (length buf) ∧
      args_before pos' (args x'.2) ∧ (length (args x'.2) ≤ 11)%nat)).
Proof.
  intros Hpos. split; intros Hx Hp.
  - by apply (words_arguments push_ok 8 _ 2 (pop3_step_ok ssl push_ok)) in Hp as [? _].
  - by apply (words_arguments push_ok 3 _ 10 (smtp_step_ok ssl push_ok)) in Hp as [? _].
Qed.

(** ** Well-formed POP3 and SMTP commands are accepted *)

(** An argument as it is written: it does not start with a space, and contains
    one only where the command keeps spaces. *)
Definition arg_text (keep : bool) (a : list Z) : Prop :=
  match a with
  | [] => False
  | c :: _ => c ≠ " "%ch
  end ∧ Forall (λ c, c ≠ CR ∧ c ≠ LF ∧ (keep = false → c ≠ " "%ch)) a.

(** The arguments, each after a space, and the end of the line. *)
Fixpoint args_text (l : list (list Z)) : list Z :=
  match l with [] => [CR; LF] | a :: l' => " "%ch :: a ++ args_text l' end.

(** Where they are, when the word before them ends at [p]. *)
Fixpoint locate (p : Z) (l : list (list Z)) : list (Z * Z) :=
  match l with
  | [] => []
  | a :: l' => (p + 1, Z.of_nat (length a)) :: locate (p + 1 + Z.of_nat (length a)) l'
  end.

Section Accept.
Variable step : list Z → Z → Z → sw * session → flow mail_label (sw * session).
Variable buf : list Z.
Variable n : Z.
Variable keep : bool.
Variable max : nat.
Hypothesis step_eq : ∀ p ch st s, command s = n →
  step buf p ch (st, s) = word_step (λ _, true) None keep max p ch (st, s) ∨ st = sw_start.

Lemma step_eq' p ch st s : command s = n → st ≠ sw_start →
  step buf p ch (st, s) = word_step (λ _, true) None keep max p ch (st, s).
Proof. intros Hc Hst. by destruct (step_eq p ch st s Hc). Qed.

Lemma scan_argument a : ∀ p rest s,
  command s = n → Forall (λ c, c ≠ CR ∧ c ≠ LF ∧ (keep = false → c ≠ " "%ch)) a →
  scan_from step buf p (a ++ rest) (sw_argument, s) =
  scan_from step buf (p + Z.of_nat (length a)) rest (sw_argument, s).
Proof.
  induction a as [|c a IH]; intros p rest s Hc Ha; [by rewrite Z.add_0_r|].
  inversion_clear Ha as [|?? (H1 & H2 & H3) Ha']. cbn [app scan_from].
  rewrite step_eq' by done. cbn [word_step]. unfold step_argument.
  replace (c =? CR) with false by lia. replace (c =? LF) with false by lia.
  assert ((c =? " "%ch) && keep = true ∨ (c =? " "%ch) = false) as [->|Hsp].
  { destruct (Z.eqb_spec c 32); [|by right]. destruct keep; [by left|]. by destruct H3. }
  2: rewrite Hsp; cbn [andb orb].
  all: rewrite IH by done; f_equal; cbn [length]; lia.
Qed.

(** The rest of a line after a word that ends at [p]. *)
Lemma scan_args_text l : ∀ p rest st s0 s,
  command s = n → arg_start s = None → Forall (arg_text keep) l →
  (length (args s) + length l ≤ S max)%nat → (keep = true → (length l ≤ 1)%nat) →
  (∀ ch, ch = CR ∨ (ch = " "%ch ∧ l ≠ []) → step buf p ch (st, s0) = after_word ch s) →
  ∃ st', scan_from step buf p (args_text l ++ rest) (st, s0) =
    (p + Z.of_nat (length (args_text l)) - 1,
     Goto mail_done (st', s <| args := args s ++ locate p l |>)).
Proof.
  induction l as [|a l IH]; intros p rest st s0 s Hc Hn Hl Hlen Hk Hst.
  - exists sw_almost_done. cbn. rewrite Hst by by left. cbn.
    rewrite step_eq' by done. cbn. rewrite app_nil_r. f_equal; [lia|].
    by destruct s.
  - inversion_clear Hl as [|?? [Ha1 Ha2] Hl']. destruct a as [|c a]; [done|].
    inversion_clear Ha2 as [|?? (H1 & H2 & _) Ha2']. cbn in Hlen, Hk.
    cbn [args_text app scan_from]. rewrite Hst by by right.
    unfold after_word at 1. change (" "%ch =? " "%ch) with true. cbv iota.
    rewrite step_eq' by done. cbn [word_step]. unfold step_spaces_before_argument.
    replace (c =? " "%ch) with false by lia. replace (c =? CR) with false by lia.
    replace (c =? LF) with false by lia.
    rewrite (proj2 (Nat.leb_le _ _)) by lia. rewrite <- app_assoc, scan_argument by done.
    set (q := p + 1 + 1 + Z.of_nat (length a)).
    set (s1 := s <| arg_start := Some (p + 1) |>).
    destruct (IH q rest sw_argument s1 (push_arg q s1)) as [st' ->]; try done.
    + unfold push_arg, s1. cbn. rewrite length_app. cbn. lia.
    + intros Hkeep. specialize (Hk Hkeep). lia.
    + intros ch Hch. rewrite step_eq' by done. cbn [word_step]. unfold step_argument, pushing.
      assert ((ch =? " "%ch) && keep = false ∧
        (ch =? " "%ch) || (ch =? CR) || (ch =? LF) = true) as [-> ->]; [|done].
      destruct Hch as [->|[-> Hne]]; [done|]. split; [|done]. destruct keep; [|done].
      specialize (Hk eq_refl). destruct l; [done|cbn in Hk; lia].
    + assert (Hq : q = p + 1 + Z.of_nat (length (c :: a))) by (cbn [length]; lia).
      exists st'. cbn [locate]. rewrite <- Hq. f_equal.
      { rewrite Hq. cbn [args_text app length]. rewrite length_app. lia. }
      f_equal. f_equal. unfold push_arg, s1. destruct s; cbn in *. subst arg_start0.
      replace (q - (p + 1)) with (Z.of_nat (S (length a))) by lia. by rewrite <- app_assoc.
Qed.
End Accept.

(** A session before a command. *)
Definition fresh : session := mk_session 0 None [] None None None false false false 0.

(** A word that names the command [n] of the protocol. *)
Definition names (table : list (list Z * Z)) (w : list Z) (n : Z) : Prop :=
  length w = 4%nat ∧ Forall is_letter w ∧
  find_command table (λ k, bool_decide (map ngx_toupper w = k)) = Some n.

Lemma scan_word (step : list Z → Z → Z → sw * session → flow mail_label (sw * session)) buf w :
  (∀ p ch s, is_letter ch → step buf p ch (sw_start, s) = Cont (sw_start, s)) →
  Forall is_letter w → ∀ p rest s,
  scan_from step buf p (w ++ rest) (sw_start, s) =
  scan_from step buf (p + Z.of_nat (length w)) rest (sw_start, s).
Proof.
  intros Hstep. induction 1 as [|c w Hc Hw IH]; intros p rest s; [by rewrite Z.add_0_r|].
  cbn [app scan_from]. rewrite Hstep, IH by done. f_equal. cbn [length]. lia.
Qed.

Lemma letter_inv c : is_letter c → c ≠ " "%ch ∧ c ≠ CR ∧ c ≠ LF.
Proof. intros H%Is_true_true. unfold is_letter in H. lia. Qed.

Lemma step_start_letter cmd c s : is_letter c → step_start cmd c s = Cont (sw_start, s).
Proof.
  intros Hc. destruct (letter_inv c Hc) as (? & ? & ?). unfold step_start.
  replace (c =? " "%ch) with false by lia. replace (c =? CR) with false by lia.
  replace (c =? LF) with false by lia. apply Is_true_true in Hc. by rewrite Hc.
Qed.

Lemma step_start_end n ch s :
  ch = CR ∨ ch = " "%ch → step_start (Some n) ch s = after_word ch (s <| command := n |>).
Proof. by intros [-> | ->]. Qed.

Lemma word_at_4 w rest : length w = 4%nat → slice (w ++ rest) 0 4 = w.
Proof.
  intros Hw. unfold slice. change (Z.to_nat 0) with O. rewrite drop_0.
  change (Z.to_nat 4) with 4%nat. rewrite <- Hw. apply take_app_length.
Qed.

(** A line made of a word and its arguments. *)
Definition mail_line (w : list Z) (l : list (list Z)) : list Z := w ++ args_text l.

Lemma words_accept step auth max w n keep l rest :
  (∀ buf p ch st s, command s = n →
    step buf p ch (st, s) = word_step (λ _, true) None keep max p ch (st, s) ∨ st = sw_start) →
  (∀ buf p ch s, is_letter ch → step buf p ch (sw_start, s) = Cont (sw_start, s)) →
  (∀ rest ch s, ch = CR ∨ ch = " "%ch →
    step (w ++ rest) 4 ch (sw_start, s) = after_word ch (s <| command := n |>)) →
  length w = 4%nat → Forall is_letter w → Forall (arg_text keep) l →
  (length l ≤ S max)%nat → (keep = true → (length l ≤ 1)%nat) →
  parse_command (λ _, true) step auth (sw_start, fresh) (mail_line w l ++ rest) 0 =
    (NGX_OK, (if n =? auth then sw_argument else sw_start,
              fresh <| command := n |> <| args := locate 4 l |>),
     Z.of_nat (length (mail_line w l))).
Proof.
  intros Hstep Hlet Hend Hw Hwl Hl Hmax Hk. unfold parse_command, scan, mail_line.
  change (drop (Z.to_nat 0) ((w ++ args_text l) ++ rest)) with ((w ++ args_text l) ++ rest).
  rewrite <- app_assoc. set (buf := w ++ args_text l ++ rest).
  unfold buf at 2. rewrite scan_word by (auto || done). rewrite Hw.
  destruct (scan_args_text step buf n keep max (Hstep buf) l (0 + Z.of_nat 4) rest sw_start fresh
    (fresh <| command := n |>)) as [st' ->]; try done.
  { intros ch Hch. apply Hend. tauto. }
  cbn [finish_command]. cbn. rewrite length_app, Hw. f_equal. lia.
Qed.

(** A POP3 command line is accepted with its command, in any case of
    letters, and exactly its arguments: up to three, or the single argument of
    USER and PASS, spaces included. *)
Theorem pop3_accepts ssl w n l rest :
  names (pop3_commands ssl) w n →
  let keep := (n =? 1) || (n =? 2) in
  Forall (arg_text keep) l → (length l ≤ (if keep then 1 else 3))%nat →
  ngx_mail_pop3_parse_command ssl (λ _, true) (sw_start, fresh) (mail_line w l ++ rest) 0 =
    (NGX_OK, (if n =? 8 then sw_argument else sw_start,
              fresh <| command := n |> <| args := locate 4 l |>),
     Z.of_nat (length (mail_line w l))).
Proof.
  intros (Hw & Hwl & Hn) keep Hl Hlen.
  apply (words_accept _ 8 2 w n keep); try done.
  - intros buf p ch st s Hc. unfold pop3_step. cbn [snd]. rewrite Hc.
    destruct st; [by right|by left..].
  - intros buf p ch s Hch. by apply step_start_letter.
  - intros rest' ch s Hch. unfold pop3_step, pop3_command, word_at. cbn [word_step Z.eqb Pos.eqb].
    rewrite word_at_4, Hn by done. by apply step_start_end.
  - destruct keep; lia.
  - intros ->. lia.
Qed.

(** An SMTP command line is accepted with its command, in any case of
    letters, and exactly its arguments, up to eleven. *)
Theorem smtp_accepts ssl w n l rest :
  names smtp_commands w n → Forall (arg_text false) l → (length l ≤ 11)%nat →
  ngx_mail_smtp_parse_command ssl (λ _, true) (sw_start, fresh) (mail_line w l ++ rest) 0 =
    (NGX_OK, (if n =? 3 then sw_argument else sw_start,
              fresh <| command := n |> <| args := locate 4 l |>),
     Z.of_nat (length (mail_line w l))).
Proof.
  intros (Hw & Hwl & Hn) Hl Hlen.
  apply (words_accept _ 3 10 w n false); try done.
  - intros buf p ch st s Hc. unfold smtp_step. destruct st; [by right|by left..].
  - intros buf p ch s Hch. by apply step_start_letter.
  - intros rest' ch s Hch. unfold smtp_step, smtp_command, word_at. cbn [word_step Z.eqb Pos.eqb].
    rewrite word_at_4, Hn by done. by apply step_start_end.
Qed.

(** ** Instances *)

Definition sample : list Z := mail_line (bs "user") [bs "bob smith"].

Lemma fresh_inv max : word_inv max 0 (sw_start, fresh).
Proof. unfold word_inv. cbn. split_and!; [constructor|lia|done]. Qed.

Lemma mail_words_incremental_witness :
  same_outcome
    (ngx_mail_pop3_parse_command true (λ _, true) (sw_start, fresh) sample 0)
    (ngx_mail_pop3_parse_command true (λ _, true)
       (ngx_mail_pop3_parse_command true (λ _, true) (sw_start, fresh) (take 7 sample) 0).1.2
       sample 7).
Proof.
  by_instance (proj1 (mail_words_incremental true (λ _, true) (sw_start, fresh)
    (take 7 sample) (drop 7 sample) 0 ltac:(vm_compute; split; congruence)) (fresh_inv 2)).
Defined.

Lemma mail_words_arguments_witness :
  ∃ x pos, ngx_mail_pop3_parse_command true (λ _, true) (sw_start, fresh) sample 0 =
    (NGX_OK, x, pos) ∧ args_before pos (args x.2).
Proof.
  destruct (ngx_mail_pop3_parse_command true (λ _, true) (sw_start, fresh) sample 0)
    as [[rc x] pos] eqn:E.
  pose proof (proj1 (mail_words_arguments true (λ _, true) (sw_start, fresh) sample 0 rc x pos
    ltac:(vm_compute; split; congruence)) (fresh_inv 2) E) as H.
  assert (Hrc : rc = NGX_OK) by (vm_compute in E; congruence). subst rc.
  exists x, pos. split; [reflexivity|]. by destruct (H eq_refl) as (_ & ? & _).
Defined.

Lemma pop3_accepts_witness :
  (ngx_mail_pop3_parse_command true (λ _, true) (sw_start, fresh) sample 0).1.1 = NGX_OK.
Proof.
  by_instance (f_equal (λ x, x.1.1) (pop3_accepts true (bs "user") 1 [bs "bob smith"] []
    ltac:(by split_and!; repeat constructor) ltac:(by repeat constructor) ltac:(cbn; lia))).
Defined.

Lemma smtp_accepts_witness :
  (ngx_mail_smtp_parse_command true (λ _, true) (sw_start, fresh)
     (mail_line (bs "Mail") [bs "from:<a>"]) 0).1.1 = NGX_OK.
Proof.
  by_instance (f_equal (λ x, x.1.1) (smtp_accepts true (bs "Mail") 6 [bs "from:<a>"] []
    ltac:(by split_and!; repeat constructor) ltac:(by repeat constructor) ltac:(cbn; lia))).
Defined.
