(* ===== verification/MailImap.v ===== *)
(** * The mail proxy's command parsers: IMAP

    [ngx_mail_imap_parse_command] of src/mail/ngx_mail_parse.c, on the session of
    [MailParse]: tags, quoted arguments and literals, synchronising or not. *)

From S2P Require Import Prelude Scan MailParse.

(** ** IMAP *)

Module Imap.

Inductive sw : Set :=
  | sw_start | sw_spaces_before_command | sw_command | sw_spaces_before_argument
  | sw_argument | sw_backslash | sw_literal | sw_no_sync_literal_argument
  | sw_start_literal_argument | sw_literal_argument | sw_end_literal_argument
  | sw_almost_done.

Abbreviation NGX_IMAP_NOOP := 4.
Abbreviation NGX_IMAP_LOGIN := 1.
Abbreviation NGX_IMAP_LOGOUT := 2.
Abbreviation NGX_IMAP_CAPABILITY := 3.
Abbreviation NGX_IMAP_STARTTLS := 5.
Abbreviation NGX_IMAP_NEXT := 6.
Abbreviation NGX_IMAP_AUTHENTICATE := 7.

Section Imap.
Variable mail_ssl : bool.
Variable push_ok : nat → bool.

Abbreviation outcome := (flow mail_label (sw * session)).

(** [switch (p - c)]: the words, by their lengths. *)
Definition imap_commands : list (list Z * Z) :=
  [(bs "NOOP", NGX_IMAP_NOOP); (bs "LOGIN", NGX_IMAP_LOGIN); (bs "LOGOUT", NGX_IMAP_LOGOUT);
   (bs "CAPABILITY", NGX_IMAP_CAPABILITY); (bs "AUTHENTICATE", NGX_IMAP_AUTHENTICATE)]
  ++ with_ssl mail_ssl (bs "STARTTLS", NGX_IMAP_STARTTLS).

Definition imap_command (buf : list Z) (c p : Z) : option Z :=
  find_command imap_commands (either_case (slice buf c (p - c))).

Definition step_start (p ch : Z) (s : session) : outcome :=
  if ch =? " "%ch then
    Cont (sw_spaces_before_command, s <| tag := Some (0, p + 1) |>)
  else if (ch =? CR) || (ch =? LF) then Ret NGX_MAIL_PARSE_INVALID_COMMAND (sw_start, s)
  else Cont (sw_start, s).

Definition step_spaces_before_command (p ch : Z) (s : session) : outcome :=
  if ch =? " "%ch then Cont (sw_spaces_before_command, s)
  else if (ch =? CR) || (ch =? LF) then Ret NGX_MAIL_PARSE_INVALID_COMMAND (sw_start, s)
  else Cont (sw_command, s <| cmd_start := Some p |>).

Definition after_word (ch : Z) (s : session) : outcome :=
  if (ch =? " "%ch) || (ch =? DQUOTE) then Cont (sw_spaces_before_argument, s)
  else if ch =? CR then Cont (sw_almost_done, s)
  else Goto mail_done (sw_start, s).

Definition step_command (buf : list Z) (p ch : Z) (s : session) : outcome :=
  if (ch =? " "%ch) || (ch =? CR) || (ch =? LF) then
    match imap_command buf (deref (cmd_start s)) p with
    | Some n => after_word ch (s <| command := n |>)
    | None => Goto mail_invalid (sw_command, s)
    end
  else if negb (is_letter ch) then Goto mail_invalid (sw_command, s)
  else Cont (sw_command, s).

(** The guard [s->args.nelts <= 2]. *)
Definition if_room (st : sw) (s : session) (k : outcome) : outcome :=
  if (length (args s) <=? 2)%nat then k else Goto mail_invalid (st, s).

Definition step_spaces_before_argument (p ch : Z) (s : session) : outcome :=
  if ch =? " "%ch then Cont (sw_spaces_before_argument, s)
  else if ch =? CR then Cont (sw_almost_done, s <| arg_end := Some p |>)
  else if ch =? LF then
    Goto mail_done (sw_spaces_before_argument, s <| arg_end := Some p |>)
  else if ch =? DQUOTE then
    if_room sw_spaces_before_argument s
      (Cont (sw_argument, s <| quoted := true |> <| arg_start := Some (p + 1) |>))
  else if ch =? "{"%ch then
    if_room sw_spaces_before_argument s (Cont (sw_literal, s))
  else
    if_room sw_spaces_before_argument s (Cont (sw_argument, s <| arg_start := Some p |>)).

Definition step_argument (p ch : Z) (s : session) : outcome :=
  if (ch =? " "%ch) && quoted s then Cont (sw_argument, s)
  else if ch =? DQUOTE then
    if negb (quoted s) then Cont (sw_argument, s)
    else
      let s := s <| quoted := false |> in
      pushing push_ok sw_argument s (after_word ch (push_arg p s))
  else if (ch =? " "%ch) || (ch =? CR) || (ch =? LF) then
    pushing push_ok sw_argument s (after_word ch (push_arg p s))
  else if ch =? "\"%ch then
    if quoted s then Cont (sw_backslash, s <| backslash := true |>)
    else Cont (sw_argument, s)
  else Cont (sw_argument, s).

Definition step_backslash (ch : Z) (s : session) : outcome :=
  if (ch =? CR) || (ch =? LF) then Goto mail_invalid (sw_backslash, s)
  else Cont (sw_argument, s).

Definition step_literal (ch : Z) (s : session) : outcome :=
  if is_digit ch then
    Cont (sw_literal, s <| literal_len := u64 (literal_len s * 10 + (ch - "0"%ch)) |>)
  else if ch =? "}"%ch then Cont (sw_start_literal_argument, s)
  else if ch =? "+"%ch then Cont (sw_no_sync_literal_argument, s)
  else Goto mail_invalid (sw_literal, s).

Definition step_no_sync_literal_argument (ch : Z) (s : session) : outcome :=
  if ch =? "}"%ch then Cont (sw_start_literal_argument, s <| no_sync_literal := true |>)
  else Goto mail_invalid (sw_no_sync_literal_argument, s).

Definition step_start_literal_argument (p ch : Z) (s : session) : outcome :=
  if ch =? CR then Cont (sw_start_literal_argument, s)
  else if ch =? LF then
    let s := s <| arg_start := Some (p + 1) |> in
    if negb (no_sync_literal s) then Ret NGX_IMAP_NEXT (sw_literal_argument, s)
    else Cont (sw_literal_argument, s <| no_sync_literal := false |>)
  else Goto mail_invalid (sw_start_literal_argument, s).

Definition step_literal_argument (p : Z) (s : session) : outcome :=
  let s := if literal_len s =? 0 then s else s <| literal_len := literal_len s - 1 |> in
  if negb (literal_len s =? 0) then Cont (sw_literal_argument, s)
  else pushing push_ok sw_literal_argument s (Cont (sw_end_literal_argument, push_arg (p + 1) s)).

Definition step_end_literal_argument (ch : Z) (s : session) : outcome :=
  if ch =? "{"%ch then if_room sw_end_literal_argument s (Cont (sw_literal, s))
  else if ch =? CR then Cont (sw_almost_done, s)
  else if ch =? LF then Goto mail_done (sw_end_literal_argument, s)
  else Cont (sw_spaces_before_argument, s).

Definition step_almost_done (ch : Z) (s : session) : outcome :=
  if ch =? LF then Goto mail_done (sw_almost_done, s)
  else Goto mail_invalid (sw_almost_done, s).

Definition step (buf : list Z) (p ch : Z) (x : sw * session) : outcome :=
  let '(st, s) := x in
  match st with
  | sw_start => step_start p ch s
  | sw_spaces_before_command => step_spaces_before_command p ch s
  | sw_command => step_command buf p ch s
  | sw_spaces_before_argument => step_spaces_before_argument p ch s
  | sw_argument => step_argument p ch s
  | sw_backslash => step_backslash ch s
  | sw_literal => step_literal ch s
  | sw_no_sync_literal_argument => step_no_sync_literal_argument ch s
  | sw_start_literal_argument => step_start_literal_argument p ch s
  | sw_literal_argument => step_literal_argument p s
  | sw_end_literal_argument => step_end_literal_argument ch s
  | sw_almost_done => step_almost_done ch s
  end.

(** [done:]; only when an argument is open are the flags of the command
    reset. *)
Definition finish (st : sw) (s : session) : Z * (sw * session) :=
  let after s :=
    (NGX_OK, (if command s =? NGX_IMAP_AUTHENTICATE then sw_argument else sw_start, s)) in
  match arg_start s with
  | Some a =>
      if push_ok (length (args s)) then
        after (s <| args := args s ++ [(a, deref (arg_end s) - a)] |>
                 <| arg_start := None |> <| cmd_start := None |> <| quoted := false |>
                 <| no_sync_literal := false |> <| literal_len := 0 |>)
      else (NGX_ERROR, (st, s))
  | None => after s
  end.

(** [s->buffer->pos], which the LF before a literal moves inside the loop. *)
Definition writes_pos (st : sw) (ch : Z) : bool :=
  match st with sw_start_literal_argument => ch =? LF | _ => false end.

Definition step_pos (buf : list Z) (p ch : Z) (x : sw * session * Z) :
    flow mail_label (sw * session * Z) :=
  let pos := if writes_pos x.1.1 ch then p + 1 else x.2 in
  match step buf p ch x.1 with
  | Cont x' => Cont (x', pos)
  | Goto l x' => Goto l (x', pos)
  | Ret rc x' => Ret rc (x', pos)
  end.

(** A [return NGX_ERROR] from the loop leaves [s->state] alone. *)
Definition ngx_mail_imap_parse_command (x : sw * session) (buf : list Z) (pos : Z) :
    Z * (sw * session) * Z :=
  match scan step_pos buf pos (x, pos) with
  | (p, Cont (x', _)) => (NGX_AGAIN, x', p)
  | (p, Goto mail_done (_, s, _)) => (finish x.1 s, p + 1)
  | (_, Goto mail_invalid (_, s, pos')) =>
      (NGX_MAIL_PARSE_INVALID_COMMAND,
       (sw_start, s <| quoted := false |> <| no_sync_literal := false |>
                    <| literal_len := 0 |>), pos')
  | (_, Ret rc (st, s, pos')) => (rc, (if rc =? NGX_ERROR then x.1 else st, s), pos')
  end.
End Imap.
End Imap.

(** ** Theorems: IMAP *)

Module ImapTheorems.
Import Imap.

(** The states between calls.  An argument is open in [sw_argument],
    [sw_backslash] and [sw_literal_argument]. *)
Definition opens (st : sw) : bool :=
  match st with sw_argument | sw_backslash | sw_literal_argument => true | _ => false end.
Definition has_room (st : sw) : bool :=
  match st with
  | sw_literal | sw_no_sync_literal_argument | sw_start_literal_argument => true
  | _ => opens st
  end.

Definition imap_inv (p : Z) (x : sw * session) : Prop :=
  args_before p (args x.2) ∧
  (length (args x.2) ≤ if has_room x.1 then 2 else 3)%nat ∧
  (if opens x.1 then within 0 (arg_start x.2) (p + 1) else arg_start x.2 = None) ∧
  (x.1 = sw_command → within 0 (cmd_start x.2) p).

(** How the loop may end. *)
Definition imap_ok (p : Z) (f : flow mail_label (sw * session)) : Prop :=
  match f with
  | Cont x' => imap_inv p x'
  | Goto mail_done x' =>
      args_before p (args x'.2) ∧ (length (args x'.2) ≤ 3)%nat ∧ arg_start x'.2 = None
  | Goto mail_invalid x' => args_before p (args x'.2)
  | Ret rc x' =>
      rc = NGX_IMAP_NEXT ∧ x'.1 = sw_literal_argument ∧ imap_inv (p + 1) x' ∨
      rc = NGX_ERROR ∨ rc = NGX_MAIL_PARSE_INVALID_COMMAND
  end.

Lemma imap_step_ok ssl push_ok buf p ch x :
  0 ≤ p → imap_inv p x →
  match step ssl push_ok buf p ch x with
  | Cont x' => imap_inv (p + 1) x' | f => imap_ok p f end.
Proof.
  intros Hp. destruct x as [st s]. unfold imap_inv. cbn [fst snd].
  intros (Ha & Hl & Hs & Hc).
  assert (Ha' : args_before (p + 1) (args s)) by (eapply args_before_mono; [done|lia]).
  destruct st; cbn in Hl, Hs; unfold step;
    unfold step_start, step_spaces_before_command, step_command, step_spaces_before_argument,
      step_argument, step_backslash, step_literal, step_no_sync_literal_argument,
      step_start_literal_argument, step_literal_argument, step_end_literal_argument,
      step_almost_done, if_room, after_word, pushing, push_arg;
    try destruct (imap_command ssl buf _ p);
    try match goal with H : within _ _ _ |- _ => pose proof (within_r _ _ _ H) end;
    split_ifs; cbn; try (by auto).
  all: rewrite ?length_app, ?Nat.leb_le in *; cbn.
  all: try (left; split_and!; [done..|]; unfold imap_inv; cbn).
  all: split_and!; try done; try lia; intros; try discriminate.
  all: first [ apply args_before_snoc; [done|lia..]
             | apply within_some; lia
             | eapply within_mono; [by apply Hc || eassumption|lia..] ].
Qed.

Lemma imap_command_app ssl buf more c p :
  0 ≤ c → c ≤ p < Z.of_nat (length buf) →
  imap_command ssl (buf ++ more) c p = imap_command ssl buf c p.
Proof. intros. unfold imap_command. by rewrite slice_app_l by lia. Qed.

Lemma imap_step_app ssl push_ok buf more p ch x :
  0 ≤ p < Z.of_nat (length buf) → imap_inv p x →
  step ssl push_ok (buf ++ more) p ch x = step ssl push_ok buf p ch x.
Proof.
  intros Hp (_ & _ & _ & Hc). destruct x as [[] s]; try done. cbn in *. unfold step_command.
  destruct (within_r _ _ _ (Hc eq_refl)). by rewrite imap_command_app by lia.
Qed.

(** [s->buffer->pos] rides along. *)
Definition attach {L S} (q : Z) (f : flow L S) : flow L (S * Z) :=
  match f with Cont x => Cont (x, q) | Goto l x => Goto l (x, q) | Ret rc x => Ret rc (x, q) end.

(** Only the LF before a literal returns [NGX_IMAP_NEXT]. *)
Lemma step_next ssl push_ok buf p ch x x' :
  step ssl push_ok buf p ch x = Ret NGX_IMAP_NEXT x' → writes_pos x.1 ch = true.
Proof.
  destruct x as [st s]. unfold step.
  destruct st;
    unfold step_start, step_spaces_before_command, step_command, step_spaces_before_argument,
      step_argument, step_backslash, step_literal, step_no_sync_literal_argument,
      step_start_literal_argument, step_literal_argument, step_end_literal_argument,
      step_almost_done, if_room, after_word, pushing;
    try destruct (imap_command ssl buf _ p);
    split_ifs; cbn; try discriminate; done.
Qed.

Section Calls.
Variable mail_ssl : bool.
Variable push_ok : nat → bool.

#[export] Program Instance imap_resumable : ResumableParser mail_label (sw * session) := {|
  rp_step := step mail_ssl push_ok; rp_inv := imap_inv |}.
Next Obligation.
  intros buf p ch x x' Hp Hi Hs. pose proof (imap_step_ok mail_ssl push_ok buf p ch x Hp Hi) as H.
  by rewrite Hs in H.
Qed.
Next Obligation. intros. by apply imap_step_app. Qed.

(** The position does not steer the machine, and [NGX_IMAP_NEXT] is returned
    just after the position was set. *)
Lemma scan_step_pos buf rest : ∀ p x q, 0 ≤ p → imap_inv p x →
  ∃ q', scan_from (step_pos mail_ssl push_ok) buf p rest (x, q) =
    ((scan_from (step mail_ssl push_ok) buf p rest x).1,
     attach q' (scan_from (step mail_ssl push_ok) buf p rest x).2) ∧
    match (scan_from (step mail_ssl push_ok) buf p rest x).2 with
    | Ret rc _ => rc = NGX_IMAP_NEXT →
        q' = (scan_from (step mail_ssl push_ok) buf p rest x).1 + 1
    | _ => True
    end.
Proof.
  induction rest as [|ch rest IH]; intros p x q Hp Hx; [by exists q|].
  cbn [scan_from]. unfold step_pos. cbn [fst snd].
  set (q1 := if writes_pos x.1 ch then p + 1 else q).
  pose proof (imap_step_ok mail_ssl push_ok buf p ch x Hp Hx) as Hok.
  destruct (step mail_ssl push_ok buf p ch x) as [x'|l x'|rc x'] eqn:E.
  - apply (IH (p + 1)); [lia|done].
  - by exists q1.
  - exists q1. split; [done|]. cbn. intros ->. unfold q1. clear q1 IH.
    by rewrite (step_next _ _ _ _ _ _ _ E).
Qed.

Lemma imap_scan buf pos x :
  0 ≤ pos ≤ Z.of_nat (length buf) → imap_inv pos x →
  imap_ok (scan (step mail_ssl push_ok) buf pos x).1 (scan (step mail_ssl push_ok) buf pos x).2.
Proof.
  intros Hpos Hx. apply (scan_rule (step mail_ssl push_ok) imap_inv imap_ok);
    [done|done| |done].
  intros p ch s Hp _ Hs. pose proof (imap_step_ok mail_ssl push_ok buf p ch s ltac:(lia) Hs) as H.
  by destruct (step mail_ssl push_ok buf p ch s).
Qed.

(** One call, in terms of the machine without the position. *)
Lemma imap_parse_eq x buf pos :
  0 ≤ pos → imap_inv pos x →
  let r := ngx_mail_imap_parse_command mail_ssl push_ok x buf pos in
  let '(p, f) := scan (step mail_ssl push_ok) buf pos x in
  match f with
  | Cont x' => r = (NGX_AGAIN, x', p)
  | Goto mail_done x' => r = (finish push_ok x.1 x'.2, p + 1)
  | Goto mail_invalid x' =>
      r.1.1 = NGX_MAIL_PARSE_INVALID_COMMAND ∧
      r.1.2 = (sw_start, x'.2 <| quoted := false |> <| no_sync_literal := false |>
                              <| literal_len := 0 |>)
  | Ret rc x' =>
      r.1 = (rc, (if rc =? NGX_ERROR then x.1 else x'.1, x'.2)) ∧
      (rc = NGX_IMAP_NEXT → r.2 = p + 1)
  end.
Proof.
  intros Hp Hx. unfold ngx_mail_imap_parse_command, scan.
  destruct (scan_step_pos buf (drop (Z.to_nat pos) buf) pos x pos Hp Hx) as (q & -> & Hq).
  destruct (scan_from (step mail_ssl push_ok) buf pos (drop (Z.to_nat pos) buf) x)
    as [p [x'|[] [st s]|rc [st s]]]; cbn in *; done.
Qed.

Lemma finish_done st s :
  arg_start s = None →
  finish push_ok st s =
    (NGX_OK, (if command s =? NGX_IMAP_AUTHENTICATE then sw_argument else sw_start, s)).
Proof. intros Ha. unfold finish. by rewrite Ha. Qed.

(** C31: An IMAP command read as it arrives is parsed as it is parsed at once,
    including the pause before a synchronising literal. *)
Theorem imap_incremental x d1 d2 pos :
  0 ≤ pos ≤ Z.of_nat (length d1) → imap_inv pos x →
  let whole := ngx_mail_imap_parse_command mail_ssl push_ok x (d1 ++ d2) pos in
  let '(rc, x1, pos1) := ngx_mail_imap_parse_command mail_ssl push_ok x d1 pos in
  if rc =? NGX_AGAIN then
    let rest := ngx_mail_imap_parse_command mail_ssl push_ok x1 (d1 ++ d2) pos1 in
    whole = rest ∨
    (whole.1.1 = rest.1.1 ∧ whole.1.2.2 = rest.1.2.2 ∧
     (whole.1.1 = NGX_ERROR ∨ whole.1.1 = NGX_MAIL_PARSE_INVALID_COMMAND))
  else whole.1 = (rc, x1) ∧ (rc = NGX_OK ∨ rc = NGX_IMAP_NEXT → whole.2 = pos1).
Proof.
  intros Hpos Hx.
  pose proof (imap_parse_eq x d1 pos ltac:(lia) Hx) as H1.
  pose proof (imap_parse_eq x (d1 ++ d2) pos ltac:(lia) Hx) as H2.
  rewrite (scan_app (RP := imap_resumable)) in H2 by done.
  cbn [rp_step imap_resumable] in H2.
  pose proof (imap_scan d1 pos x Hpos Hx) as Hok.
  destruct (ngx_mail_imap_parse_command mail_ssl push_ok x d1 pos) as [[rc x1] pos1].
  destruct (ngx_mail_imap_parse_command mail_ssl push_ok x (d1 ++ d2) pos) as [[rcw xw] posw].
  destruct (scan (step mail_ssl push_ok) d1 pos x) as [p [y|[] y|rc0 y]] eqn:E1;
    cbn in H1, H2, Hok |- *.
  - injection H1 as -> -> ->. cbn. apply scan_pos in E1; [|done].
    pose proof (imap_parse_eq y (d1 ++ d2) p ltac:(lia) Hok) as H3.
    pose proof (imap_scan (d1 ++ d2) p y ltac:(rewrite length_app; lia) Hok) as Hok2.
    destruct (ngx_mail_imap_parse_command mail_ssl push_ok y (d1 ++ d2) p) as [[rc3 x3] pos3].
    destruct (scan (step mail_ssl push_ok) (d1 ++ d2) p y) as [q [z|[] z|rc4 z]];
      cbn in H2, H3, Hok2 |- *.
    + left. congruence.
    + left. rewrite finish_done in * by apply Hok2. congruence.
    + right. destruct H2 as [-> ->], H3 as [-> ->]. auto.
    + destruct H2 as [[= -> ->] H2], H3 as [[= -> ->] H3].
      destruct Hok2 as [(-> & Hz & _)|Hrc].
      * left. cbn. by rewrite H2, H3.
      * right. cbn. auto.
  - rewrite finish_done in * by apply Hok. injection H1 as -> -> ->. injection H2 as -> -> ->.
    done.
  - destruct H1 as [-> ->], H2 as [-> ->]. cbn. split; [done|]. by intros [?|?].
  - destruct H1 as [[= -> ->] H1], H2 as [[= -> ->] H2].
    destruct Hok as [(-> & _)|[-> | ->]]; cbn; (split; [done|]); intros [?|?]; try done.
    by rewrite H1, H2.
Qed.

(** The arguments of an accepted IMAP command lie inside the bytes
    consumed, and there are at most three. *)
Theorem imap_arguments x buf pos rc x' pos' :
  0 ≤ pos ≤ Z.of_nat (length buf) → imap_inv pos x →
  ngx_mail_imap_parse_command mail_ssl push_ok x buf pos = (rc, x', pos') →
  (rc = NGX_OK → pos < pos' ≤ Z.of_nat (length buf) ∧
     args_before pos' (args x'.2) ∧ (length (args x'.2) ≤ 3)%nat) ∧
  (rc = NGX_AGAIN ∨ rc = NGX_IMAP_NEXT → pos' ≤ Z.of_nat (length buf) ∧ imap_inv pos' x').
Proof.
  intros Hpos Hx Hr. pose proof (imap_parse_eq x buf pos ltac:(lia) Hx) as H.
  rewrite Hr in H. pose proof (imap_scan buf pos x Hpos Hx) as Hok.
  destruct (scan (step mail_ssl push_ok) buf pos x) as [p f] eqn:E.
  apply scan_pos in E as Hp; [|done].
  destruct f as [y|[] y|rc0 y]; cbn in H, Hok.
  - injection H as -> -> ->. split; [done|]. intros _. split; [lia|done].
  - destruct Hok as (Ha & Hl & Hn). rewrite finish_done in H by done.
    injection H as -> -> ->. split; [|by intros [?|?]]. intros _.
    split_and!; [lia|lia| |done]. eapply args_before_mono; [done|lia].
  - destruct H as [-> _]. split; [done|]. by intros [?|?].
  - destruct H as [[= -> ->] H].
    destruct Hok as [(-> & Hz & Hok)|[-> | ->]]; (split; [done|]); intros [?|?]; try done.
    rewrite H by done. split; [lia|]. destruct y as [st s]. cbn in *. by subst.
Qed.
End Calls.
End ImapTheorems.

(** *** Lines of IMAP *)

Module ImapLines.
Import Imap ImapTheorems.

(** The text of a tag or of an atom. *)
Definition word_text (w : list Z) : Prop :=
  w ≠ [] ∧ Forall (λ c, c ≠ " "%ch ∧ c ≠ CR ∧ c ≠ LF) w.
Definition atom_text (w : list Z) : Prop :=
  word_text w ∧ match w with c :: _ => c ≠ DQUOTE ∧ c ≠ "{"%ch | [] => False end.

Section Lines.
Variable mail_ssl : bool.
Variable buf : list Z.
Abbreviation step := (step mail_ssl (λ _, true)).

Lemma scan_tag w : ∀ p rest s, Forall (λ c, c ≠ " "%ch ∧ c ≠ CR ∧ c ≠ LF) w →
  scan_from step buf p (w ++ rest) (sw_start, s) =
  scan_from step buf (p + Z.of_nat (length w)) rest (sw_start, s).
Proof.
  induction w as [|c w IH]; intros p rest s Hw; [by rewrite Z.add_0_r|].
  inversion_clear Hw as [|?? (H1 & H2 & H3) Hw']. cbn [app scan_from].
  cbn [Imap.step]. unfold step_start.
  replace (c =? " "%ch) with false by lia. replace (c =? CR) with false by lia.
  replace (c =? LF) with false by lia. cbn [orb]. rewrite IH by done. f_equal.
  cbn [length]. lia.
Qed.

(** Inside an argument: when an open quote is pending, spaces are part of
    it. *)
Lemma scan_atom w : ∀ p rest s,
  Forall (λ c, c ≠ CR ∧ c ≠ LF ∧ if quoted s then c ≠ DQUOTE ∧ c ≠ "\"%ch else c ≠ " "%ch) w →
  scan_from step buf p (w ++ rest) (sw_argument, s) =
  scan_from step buf (p + Z.of_nat (length w)) rest (sw_argument, s).
Proof.
  induction w as [|c w IH]; intros p rest s Hw; [by rewrite Z.add_0_r|].
  inversion_clear Hw as [|?? (H1 & H2 & H3) Hw']. cbn [app scan_from].
  assert (Imap.step mail_ssl (λ _, true) buf p c (sw_argument, s) = Cont (sw_argument, s)) as ->.
  { cbn [Imap.step]. unfold step_argument.
    replace (c =? CR) with false by lia. replace (c =? LF) with false by lia.
    destruct (quoted s).
    - destruct H3. replace (c =? DQUOTE) with false by lia. replace (c =? "\"%ch) with false by lia.
      by destruct (c =? " "%ch).
    - replace (c =? " "%ch) with false by lia. cbn. by destruct (c =? DQUOTE), (c =? "\"%ch). }
  rewrite IH by done. f_equal. cbn [length]. lia.
Qed.

Lemma push_arg_eq p n s :
  push_arg (p + n) (s <| arg_start := Some p |>) =
  s <| args := args s ++ [(p, n)] |> <| arg_start := None |>.
Proof. unfold push_arg. cbn. by replace (p + n - p) with n by lia. Qed.

(** The whole argument, to the character after it. *)
Lemma scan_arg w ch p rest s :
  atom_text w → quoted s = false → (length (args s) ≤ 2)%nat → ch = " "%ch ∨ ch = CR →
  scan_from step buf p (w ++ ch :: rest) (sw_spaces_before_argument, s) =
  scan_from step buf (p + Z.of_nat (length w) + 1) rest
    (if ch =? " "%ch then sw_spaces_before_argument else sw_almost_done,
     s <| args := args s ++ [(p, Z.of_nat (length w))] |> <| arg_start := None |>).
Proof.
  rewrite <- push_arg_eq.
  intros [[_ Hw] Hh] Hq Hl Hch. destruct w as [|c w]; [done|].
  inversion_clear Hw as [|?? (H1 & H2 & H3) Hw']. destruct Hh as [H4 H5].
  cbn [app scan_from]. cbn [Imap.step]. unfold step_spaces_before_argument, if_room.
  replace (c =? " "%ch) with false by lia. replace (c =? CR) with false by lia.
  replace (c =? LF) with false by lia. replace (c =? DQUOTE) with false by lia.
  replace (c =? "{"%ch) with false by lia. rewrite (proj2 (Nat.leb_le _ _)) by done.
  rewrite scan_atom by (cbn; rewrite Hq; eapply list.Forall_impl; [exact Hw'|cbn; tauto]).
  cbn [scan_from Imap.step]. unfold step_argument. cbn [quoted set_field]. rewrite Hq.
  replace (p + 1 + Z.of_nat (length w)) with (p + Z.of_nat (length (c :: w)))
    by (cbn [length]; lia).
  by destruct Hch as [-> | ->].
Qed.

Definition after_login (t : list Z) (s : session) : session :=
  s <| tag := Some (0, Z.of_nat (length t) + 1) |>
    <| cmd_start := Some (Z.of_nat (length t) + 1) |> <| command := NGX_IMAP_LOGIN |>.
End Lines.

Definition login_line (t a : list Z) : list Z := t ++ bs " LOGIN " ++ a ++ [CR; LF].

Lemma login_command mail_ssl t rest :
  imap_command mail_ssl (t ++ bs " LOGIN " ++ rest) (Z.of_nat (length t) + 1)
    (Z.of_nat (length t) + 6) = Some NGX_IMAP_LOGIN.
Proof.
  unfold imap_command, slice.
  replace (Z.to_nat (Z.of_nat (length t) + 1)) with (length t + 1)%nat by lia.
  rewrite <- drop_drop, drop_app_length.
  replace (Z.of_nat (length t) + 6 - (Z.of_nat (length t) + 1)) with 5 by lia.
  by destruct mail_ssl.
Qed.

Lemma scan_login mail_ssl t a rest s :
  word_text t →
  let buf := login_line t a ++ rest in
  scan (step mail_ssl (λ _, true)) buf 0 (sw_start, s) =
  scan_from (step mail_ssl (λ _, true)) buf (Z.of_nat (length t) + 7) (a ++ CR :: LF :: rest)
    (sw_spaces_before_argument, after_login t s).
Proof.
  intros [_ Ht] buf. unfold scan. change (drop (Z.to_nat 0) buf) with buf.
  assert (Hbuf : buf = t ++ bs " LOGIN " ++ (a ++ CR :: LF :: rest)).
  { unfold buf, login_line. by rewrite <- !app_assoc. }
  rewrite Hbuf at 2. rewrite scan_tag by done.
  pose proof (login_command mail_ssl t (a ++ CR :: LF :: rest)) as Hc. rewrite <- Hbuf in Hc.
  clearbody buf. clear Hbuf. cbn [bs app scan_from]. rewrite Z.add_0_l.
  cbn [step]. unfold step_start. cbn.
  do 4 (match goal with |- context [is_letter ?c] => change (is_letter c) with true end; cbn).
  unfold step_command. cbn.
  replace (Z.of_nat (length t) + 1 + 1 + 1 + 1 + 1 + 1) with (Z.of_nat (length t) + 6) by lia.
  rewrite Hc. cbn. by replace (Z.of_nat (length t) + 6 + 1) with (Z.of_nat (length t) + 7) by lia.
Qed.

(** A complete line, from the argument that reaches the CR on. *)
Lemma parse_login mail_ssl t a rest s s' :
  word_text t → arg_start s = None → args s = [] →
  (let buf := login_line t a ++ rest in
   scan_from (step mail_ssl (λ _, true)) buf (Z.of_nat (length t) + 7)
     (a ++ CR :: LF :: rest) (sw_spaces_before_argument, after_login t s) =
   scan_from (step mail_ssl (λ _, true)) buf (Z.of_nat (length t + length a) + 8)
     (LF :: rest) (sw_almost_done, s')) →
  arg_start s' = None → command s' = NGX_IMAP_LOGIN →
  ngx_mail_imap_parse_command mail_ssl (λ _, true) (sw_start, s) (login_line t a ++ rest) 0 =
    (NGX_OK, (sw_start, s'), Z.of_nat (length (login_line t a))).
Proof.
  intros Ht Hs Hargs Hscan Hn Hcmd.
  assert (Hinv : imap_inv 0 (sw_start, s)).
  { unfold imap_inv. cbn. rewrite Hargs, Hs. split_and!; [constructor|cbn; lia|done|done]. }
  pose proof (imap_parse_eq mail_ssl (λ _, true) (sw_start, s) (login_line t a ++ rest) 0
    ltac:(lia) Hinv) as H.
  cbv zeta in H, Hscan. rewrite scan_login, Hscan in H by done. cbn in H. rewrite H.
  rewrite finish_done, Hcmd by done. f_equal. unfold login_line.
  rewrite !length_app. cbn. lia.
Qed.

(** An IMAP LOGIN line with two atoms is accepted with exactly these
    arguments. *)
Theorem imap_login_accepts mail_ssl t user pass rest s :
  word_text t → atom_text user → atom_text pass →
  quoted s = false → arg_start s = None → args s = [] →
  let line := login_line t (user ++ " "%ch :: pass) in
  let p := Z.of_nat (length t) + 7 in
  ngx_mail_imap_parse_command mail_ssl (λ _, true) (sw_start, s) (line ++ rest) 0 =
    (NGX_OK, (sw_start, after_login t s <| args :=
       [(p, Z.of_nat (length user));
        (p + Z.of_nat (length user) + 1, Z.of_nat (length pass))] |>),
     Z.of_nat (length line)).
Proof.
  intros Ht Hu Hp Hq Hs Hargs line p. unfold line.
  apply (parse_login mail_ssl t (user ++ " "%ch :: pass) rest s); [done..| |done|done].
  cbv zeta. rewrite <- app_assoc. cbn [app].
  rewrite scan_arg by (done || (cbn; rewrite ?Hargs; cbn; lia) || by left).
  change (" "%ch =? " "%ch) with true. cbv iota.
  rewrite scan_arg by (done || (cbn; rewrite ?Hargs; cbn; lia) || by right).
  change (CR =? " "%ch) with false. cbv iota. fold p.
  assert (Hend : p + Z.of_nat (length user) + 1 + Z.of_nat (length pass) + 1 =
    Z.of_nat (length t + length (user ++ " "%ch :: pass)) + 8).
  { unfold p. rewrite length_app. cbn [length]. lia. }
  rewrite Hend. f_equal. f_equal. unfold after_login. destruct s; cbn in *. by subst.
Qed.

(** An argument whose quote is not closed on its line leaves the session
    quoting, and then the spaces of the next command do not separate its
    arguments: its user and password arrive as one argument. *)
Theorem imap_quote_leaks mail_ssl t user pass rest s :
  word_text t → atom_text user → atom_text pass → arg_start s = None → args s = [] →
  Forall (λ c, c ≠ DQUOTE ∧ c ≠ "\"%ch) (user ++ pass) →
  (quoted s = false →
   let '(rc, (st, s'), _) := ngx_mail_imap_parse_command mail_ssl (λ _, true) (sw_start, s)
     (login_line t (DQUOTE :: user) ++ rest) 0 in
   rc = NGX_OK ∧ st = sw_start ∧ quoted s' = true) ∧
  (quoted s = true →
   let '(rc, (st, s'), _) := ngx_mail_imap_parse_command mail_ssl (λ _, true) (sw_start, s)
     (login_line t (user ++ " "%ch :: pass) ++ rest) 0 in
   rc = NGX_OK ∧ args s' = [(Z.of_nat (length t) + 7, Z.of_nat (length (user ++ " "%ch :: pass)))]).
Proof.
  intros Ht Hu Hp Hs Hargs Hch.
  assert (Hin : ∀ l, Forall (λ c, c ≠ " "%ch ∧ c ≠ CR ∧ c ≠ LF) l →
    Forall (λ c, c ≠ DQUOTE ∧ c ≠ "\"%ch) l →
    Forall (λ c, c ≠ CR ∧ c ≠ LF ∧ c ≠ DQUOTE ∧ c ≠ "\"%ch) l).
  { intros l H1 H2. rewrite list.Forall_forall in *. intros c Hc.
    destruct (H1 c Hc), (H2 c Hc). tauto. }
  apply Forall_app in Hch as [Hcu Hcp].
  destruct Hu as [[_ Hu] Hu1], Hp as [[_ Hp] Hp1].
  assert (Hroom : ∀ s1 : session, args s1 = [] → (length (args s1) <=? 2)%nat = true)
    by by intros s1 ->.
  split; intros Hq.
  - set (s' := after_login t s <| quoted := true |> <| args :=
      [(Z.of_nat (length t) + 8, Z.of_nat (length user))] |>).
    rewrite (parse_login mail_ssl t (DQUOTE :: user) rest s s'); try done.
    cbv zeta. cbn [app scan_from step]. unfold step_spaces_before_argument, if_room.
    change (DQUOTE =? " "%ch) with false. change (DQUOTE =? CR) with false.
    change (DQUOTE =? LF) with false. change (DQUOTE =? DQUOTE) with true. cbv iota.
    rewrite Hroom by done.
    rewrite scan_atom by (cbn; auto).
    cbn [scan_from step]. unfold step_argument. cbn. rewrite push_arg_eq.
    f_equal; [lia|]. f_equal. f_equal. unfold s', after_login.
    replace (Z.of_nat (length t) + 7 + 1) with (Z.of_nat (length t) + 8) by lia.
    destruct s; cbn in *. by subst.
  - set (w := user ++ " "%ch :: pass).
    set (s' := after_login t s <| args := [(Z.of_nat (length t) + 7, Z.of_nat (length w))] |>).
    rewrite (parse_login mail_ssl t w rest s s'); try done.
    destruct user as [|c user]; [done|]. cbv zeta.
    set (buf := login_line t w ++ rest). unfold w.
    inversion_clear Hu as [|?? (H1 & H2 & H3) Hu']. destruct Hu1 as [H4 H5].
    cbn [app scan_from step]. unfold step_spaces_before_argument, if_room.
    replace (c =? " "%ch) with false by lia. replace (c =? CR) with false by lia.
    replace (c =? LF) with false by lia. replace (c =? DQUOTE) with false by lia.
    replace (c =? "{"%ch) with false by lia. rewrite Hroom by done. cbv iota.
    inversion_clear Hcu as [|?? _ Hcu'].
    rewrite scan_atom.
    2: { cbn. rewrite Hq. apply Forall_app_2; [auto|]. constructor; [done|auto]. }
    cbn [scan_from step]. unfold step_argument. cbn [quoted set_field after_login].
    rewrite Hq. change (CR =? " "%ch) with false. cbn [andb].
    change (CR =? DQUOTE) with false. change (CR =? CR) with true. cbn [orb].
    unfold pushing. cbn [after_word]. unfold after_word. cbn.
    replace (Z.of_nat (length t) + 7 + 1 + Z.of_nat (length (user ++ 32 :: pass)))
      with (Z.of_nat (length t) + 7 + Z.of_nat (length w)) by (unfold w; cbn [app length]; lia).
    rewrite push_arg_eq. f_equal; [unfold w; cbn [app length]; lia|].
    f_equal. f_equal. unfold s', after_login. destruct s; cbn in *. by subst.
Qed.

(** *** Literals *)

Lemma scan_literal mail_ssl buf lit : ∀ p rest s,
  literal_len s = Z.of_nat (length lit) → lit ≠ [] →
  scan_from (step mail_ssl (λ _, true)) buf p (lit ++ rest) (sw_literal_argument, s) =
  scan_from (step mail_ssl (λ _, true)) buf (p + Z.of_nat (length lit)) rest
    (sw_end_literal_argument,
     push_arg (p + Z.of_nat (length lit)) (s <| literal_len := 0 |>)).
Proof.
  induction lit as [|c lit IH]; intros p rest s Hl Hn; [done|].
  cbn [app scan_from step]. unfold step_literal_argument. rewrite Hl.
  assert (Hz : ∀ (x : Z) l, (Z.of_nat (length (x :: l)) =? 0) = false)
    by (intros; apply Z.eqb_neq; cbn [length]; lia).
  rewrite Hz. cbn -[length].
  replace (Z.of_nat (length (c :: lit)) - 1) with (Z.of_nat (length lit)) by (cbn [length]; lia).
  destruct lit as [|d lit].
  - cbn. done.
  - rewrite Hz. cbn [negb].
    rewrite IH by done.
    by replace (p + 1 + Z.of_nat (length (d :: lit))) with (p + Z.of_nat (length (c :: d :: lit)))
      by (cbn [length]; lia).
Qed.

(** After the client is told to go on, a literal of [n] bytes is taken whole,
    whatever its bytes are, and the command ends at the line feed after it; but
    a literal announced as empty takes the next byte all the same. *)
Theorem imap_literal mail_ssl pre lit rest s :
  args_before (Z.of_nat (length pre)) (args s) → (length (args s) ≤ 2)%nat →
  arg_start s = Some (Z.of_nat (length pre)) → command s = NGX_IMAP_LOGIN →
  let parse n l := ngx_mail_imap_parse_command mail_ssl (λ _, true)
    (sw_literal_argument, s <| literal_len := n |>) (pre ++ l ++ LF :: rest)
    (Z.of_nat (length pre)) in
  let accepted l := (NGX_OK, (sw_start, s <| literal_len := 0 |> <| args := args s ++
      [(Z.of_nat (length pre), Z.of_nat (length l))] |> <| arg_start := None |>),
    Z.of_nat (length pre + length l) + 1) in
  (lit ≠ [] → parse (Z.of_nat (length lit)) lit = accepted lit) ∧
  parse 0 [CR] = accepted [CR].
Proof.
  intros Ha Hl Hs Hc parse accepted.
  assert (Hgen : ∀ n l, (∀ buf, scan_from (step mail_ssl (λ _, true)) buf (Z.of_nat (length pre))
      (l ++ LF :: rest) (sw_literal_argument, s <| literal_len := n |>) =
    scan_from (step mail_ssl (λ _, true)) buf (Z.of_nat (length pre) + Z.of_nat (length l))
      (LF :: rest) (sw_end_literal_argument,
        push_arg (Z.of_nat (length pre) + Z.of_nat (length l)) (s <| literal_len := 0 |>))) →
    parse n l = accepted l).
  { intros n l Hscan. unfold parse, accepted.
    assert (Hinv : imap_inv (Z.of_nat (length pre)) (sw_literal_argument, s <| literal_len := n |>)).
    { unfold imap_inv. cbn. rewrite Hs. split_and!; try done. apply within_some. lia. }
    pose proof (imap_parse_eq mail_ssl (λ _, true) (sw_literal_argument, s <| literal_len := n |>)
      (pre ++ l ++ LF :: rest) (Z.of_nat (length pre)) ltac:(lia) Hinv) as H.
    cbv zeta in H. unfold scan in H. rewrite Nat2Z.id, drop_app_length, Hscan in H.
    cbn in H. rewrite H, Hc. cbn.
    unfold push_arg. cbn. rewrite Hs. cbn.
    replace (Z.of_nat (length pre) + Z.of_nat (length l) - Z.of_nat (length pre))
      with (Z.of_nat (length l)) by lia.
    rewrite Nat2Z.inj_add. done. }
  split.
  - intros Hn. apply Hgen. intros buf. by rewrite scan_literal.
  - apply Hgen. intros buf. cbn. done.
Qed.
End ImapLines.

(** *** Instances *)

Module ImapInstances.
Import Imap ImapTheorems ImapLines.

Definition idle : session := mk_session 0 None [] None None None false false false 0.
Definition sample : list Z := login_line (bs "a1") (bs "bob secret").

Lemma idle_inv : imap_inv 0 (sw_start, idle).
Proof. unfold imap_inv. cbn. split_and!; [constructor|lia|done|done]. Qed.

Lemma imap_incremental_witness :
  (ngx_mail_imap_parse_command true (λ _, true)
     (ngx_mail_imap_parse_command true (λ _, true) (sw_start, idle) (take 12 sample) 0).1.2
     sample 12).1.1 = NGX_OK.
Proof.
  pose proof (imap_incremental true (λ _, true) (sw_start, idle) (take 12 sample) (drop 12 sample)
    0 ltac:(vm_compute; split; congruence) idle_inv) as H.
  vm_compute in H. vm_compute. destruct H as [H|[H _]]; congruence.
Defined.

Lemma imap_arguments_witness :
  ∃ x pos, ngx_mail_imap_parse_command true (λ _, true) (sw_start, idle) sample 0 =
    (NGX_OK, x, pos) ∧ args_before pos (args x.2).
Proof.
  destruct (ngx_mail_imap_parse_command true (λ _, true) (sw_start, idle) sample 0)
    as [[rc x] pos] eqn:E.
  pose proof (proj1 (imap_arguments true (λ _, true) (sw_start, idle) sample 0 rc x pos
    ltac:(vm_compute; split; congruence) idle_inv E)) as H.
  assert (Hrc : rc = NGX_OK) by (vm_compute in E; congruence). subst rc.
  exists x, pos. split; [reflexivity|]. by destruct (H eq_refl) as (_ & ? & _).
Defined.

Lemma word_text_a1 : word_text (bs "a1").
Proof. split; [done|]. by repeat constructor. Qed.
Lemma atom_text_bob : atom_text (bs "bob").
Proof. split; [split; [done|]|done]. by repeat constructor. Qed.
Lemma atom_text_secret : atom_text (bs "secret").
Proof. split; [split; [done|]|done]. by repeat constructor. Qed.

Lemma imap_login_accepts_witness :
  args (ngx_mail_imap_parse_command true (λ _, true) (sw_start, idle) sample 0).1.2.2 =
    [(9, 3); (13, 6)].
Proof.
  by_instance (f_equal (λ x, args x.1.2.2) (imap_login_accepts true (bs "a1") (bs "bob")
    (bs "secret") [] idle word_text_a1 atom_text_bob atom_text_secret eq_refl eq_refl eq_refl)).
Defined.

Lemma imap_quote_leaks_witness :
  args (ngx_mail_imap_parse_command true (λ _, true) (sw_start, idle <| quoted := true |>)
    sample 0).1.2.2 = [(9, 10)].
Proof.
  pose proof (proj2 (imap_quote_leaks true (bs "a1") (bs "bob") (bs "secret") []
    (idle <| quoted := true |>) word_text_a1 atom_text_bob atom_text_secret eq_refl eq_refl
    ltac:(by repeat constructor)) eq_refl) as H.
  vm_compute in H. vm_compute. by destruct H.
Defined.

Lemma imap_literal_witness :
  args (ngx_mail_imap_parse_command true (λ _, true)
    (sw_literal_argument, idle <| arg_start := Some 0 |> <| command := NGX_IMAP_LOGIN |>
       <| literal_len := 0 |>) [CR; LF] 0).1.2.2 = [(0, 1)].
Proof.
  by_instance (f_equal (λ x, args x.1.2.2) (proj2 (imap_literal true [] [] []
    (idle <| arg_start := Some 0 |> <| command := NGX_IMAP_LOGIN |>)
    (list.Forall_nil_2 _) ltac:(cbn; lia) eq_refl eq_refl))).
Defined.
End ImapInstances.
