(* ===== verification/Checksum.v ===== *)
(** * Checksums

    src/core/ngx_crc32.h, ngx_crc32.c, ngx_crc.h and ngx_murmurhash.c.  The two
    ways to compute a CRC-32, with a table of 16 and with one of 256 entries, are
    the division of polynomials that defines it. *)

From S2P Require Import Prelude.

Module Checksum.

(** ** CRC-32 *)

Definition ngx_crc32_table16 : list Z :=
  [
   0x00000000; 0x1db71064; 0x3b6e20c8; 0x26d930ac;
   0x76dc4190; 0x6b6b51f4; 0x4db26158; 0x5005713c;
   0xedb88320; 0xf00f9344; 0xd6d6a3e8; 0xcb61b38c;
   0x9b64c2b0; 0x86d3d2d4; 0xa00ae278; 0xbdbdf21c
  ].

Definition ngx_crc32_table256 : list Z :=
  [
   0x00000000; 0x77073096; 0xee0e612c; 0x990951ba;
   0x076dc419; 0x706af48f; 0xe963a535; 0x9e6495a3;
   0x0edb8832; 0x79dcb8a4; 0xe0d5e91e; 0x97d2d988;
   0x09b64c2b; 0x7eb17cbd; 0xe7b82d07; 0x90bf1d91;
   0x1db71064; 0x6ab020f2; 0xf3b97148; 0x84be41de;
   0x1adad47d; 0x6ddde4eb; 0xf4d4b551; 0x83d385c7;
   0x136c9856; 0x646ba8c0; 0xfd62f97a; 0x8a65c9ec;
   0x14015c4f; 0x63066cd9; 0xfa0f3d63; 0x8d080df5;
   0x3b6e20c8; 0x4c69105e; 0xd56041e4; 0xa2677172;
   0x3c03e4d1; 0x4b04d447; 0xd20d85fd; 0xa50ab56b;
   0x35b5a8fa; 0x42b2986c; 0xdbbbc9d6; 0xacbcf940;
   0x32d86ce3; 0x45df5c75; 0xdcd60dcf; 0xabd13d59;
   0x26d930ac; 0x51de003a; 0xc8d75180; 0xbfd06116;
   0x21b4f4b5; 0x56b3c423; 0xcfba9599; 0xb8bda50f;
   0x2802b89e; 0x5f058808; 0xc60cd9b2; 0xb10be924;
   0x2f6f7c87; 0x58684c11; 0xc1611dab; 0xb6662d3d;
   0x76dc4190; 0x01db7106; 0x98d220bc; 0xefd5102a;
   0x71b18589; 0x06b6b51f; 0x9fbfe4a5; 0xe8b8d433;
   0x7807c9a2; 0x0f00f934; 0x9609a88e; 0xe10e9818;
   0x7f6a0dbb; 0x086d3d2d; 0x91646c97; 0xe6635c01;
   0x6b6b51f4; 0x1c6c6162; 0x856530d8; 0xf262004e;
   0x6c0695ed; 0x1b01a57b; 0x8208f4c1; 0xf50fc457;
   0x65b0d9c6; 0x12b7e950; 0x8bbeb8ea; 0xfcb9887c;
   0x62dd1ddf; 0x15da2d49; 0x8cd37cf3; 0xfbd44c65;
   0x4db26158; 0x3ab551ce; 0xa3bc0074; 0xd4bb30e2;
   0x4adfa541; 0x3dd895d7; 0xa4d1c46d; 0xd3d6f4fb;
   0x4369e96a; 0x346ed9fc; 0xad678846; 0xda60b8d0;
   0x44042d73; 0x33031de5; 0xaa0a4c5f; 0xdd0d7cc9;
   0x5005713c; 0x270241aa; 0xbe0b1010; 0xc90c2086;
   0x5768b525; 0x206f85b3; 0xb966d409; 0xce61e49f;
   0x5edef90e; 0x29d9c998; 0xb0d09822; 0xc7d7a8b4;
   0x59b33d17; 0x2eb40d81; 0xb7bd5c3b; 0xc0ba6cad;
   0xedb88320; 0x9abfb3b6; 0x03b6e20c; 0x74b1d29a;
   0xead54739; 0x9dd277af; 0x04db2615; 0x73dc1683;
   0xe3630b12; 0x94643b84; 0x0d6d6a3e; 0x7a6a5aa8;
   0xe40ecf0b; 0x9309ff9d; 0x0a00ae27; 0x7d079eb1;
   0xf00f9344; 0x8708a3d2; 0x1e01f268; 0x6906c2fe;
   0xf762575d; 0x806567cb; 0x196c3671; 0x6e6b06e7;
   0xfed41b76; 0x89d32be0; 0x10da7a5a; 0x67dd4acc;
   0xf9b9df6f; 0x8ebeeff9; 0x17b7be43; 0x60b08ed5;
   0xd6d6a3e8; 0xa1d1937e; 0x38d8c2c4; 0x4fdff252;
   0xd1bb67f1; 0xa6bc5767; 0x3fb506dd; 0x48b2364b;
   0xd80d2bda; 0xaf0a1b4c; 0x36034af6; 0x41047a60;
   0xdf60efc3; 0xa867df55; 0x316e8eef; 0x4669be79;
   0xcb61b38c; 0xbc66831a; 0x256fd2a0; 0x5268e236;
   0xcc0c7795; 0xbb0b4703; 0x220216b9; 0x5505262f;
   0xc5ba3bbe; 0xb2bd0b28; 0x2bb45a92; 0x5cb36a04;
   0xc2d7ffa7; 0xb5d0cf31; 0x2cd99e8b; 0x5bdeae1d;
   0x9b64c2b0; 0xec63f226; 0x756aa39c; 0x026d930a;
   0x9c0906a9; 0xeb0e363f; 0x72076785; 0x05005713;
   0x95bf4a82; 0xe2b87a14; 0x7bb12bae; 0x0cb61b38;
   0x92d28e9b; 0xe5d5be0d; 0x7cdcefb7; 0x0bdbdf21;
   0x86d3d2d4; 0xf1d4e242; 0x68ddb3f8; 0x1fda836e;
   0x81be16cd; 0xf6b9265b; 0x6fb077e1; 0x18b74777;
   0x88085ae6; 0xff0f6a70; 0x66063bca; 0x11010b5c;
   0x8f659eff; 0xf862ae69; 0x616bffd3; 0x166ccf45;
   0xa00ae278; 0xd70dd2ee; 0x4e048354; 0x3903b3c2;
   0xa7672661; 0xd06016f7; 0x4969474d; 0x3e6e77db;
   0xaed16a4a; 0xd9d65adc; 0x40df0b66; 0x37d83bf0;
   0xa9bcae53; 0xdebb9ec5; 0x47b2cf7f; 0x30b5ffe9;
   0xbdbdf21c; 0xcabac28a; 0x53b39330; 0x24b4a3a6;
   0xbad03605; 0xcdd70693; 0x54de5729; 0x23d967bf;
   0xb3667a2e; 0xc4614ab8; 0x5d681b02; 0x2a6f2b94;
   0xb40bbe37; 0xc30c8ea1; 0x5a05df1b; 0x2d02ef8d
  ].

Definition crc32_short_step (crc c : Z) : Z :=
  let crc := Z.lxor (nth (Z.to_nat (Z.land (Z.lxor crc (Z.land c 0xf)) 0xf)) ngx_crc32_table16 0) (Z.shiftr crc 4) in
  Z.lxor (nth (Z.to_nat (Z.land (Z.lxor crc (Z.shiftr c 4)) 0xf)) ngx_crc32_table16 0) (Z.shiftr crc 4).

Definition ngx_crc32_short (p : list Z) : Z :=
  Z.lxor (fold_left crc32_short_step p 0xffffffff) 0xffffffff.

Definition crc32_long_step (crc c : Z) : Z :=
  Z.lxor (nth (Z.to_nat (Z.land (Z.lxor crc c) 0xff)) ngx_crc32_table256 0) (Z.shiftr crc 8).

Definition ngx_crc32_long (p : list Z) : Z :=
  Z.lxor (fold_left crc32_long_step p 0xffffffff) 0xffffffff.

Definition ngx_crc32_init : Z := 0xffffffff.
Definition ngx_crc32_update (crc : Z) (p : list Z) : Z := fold_left crc32_long_step p crc.
Definition ngx_crc32_final (crc : Z) : Z := Z.lxor crc 0xffffffff.

(** ** The 32-bit sum of ngx_crc.h *)

Definition crc_step (sum c : Z) : Z :=
  u32 (Z.lor (Z.shiftr sum 1) (u32 (Z.shiftl sum 31)) + c).
Definition ngx_crc (data : list Z) : Z := fold_left crc_step data 0.

(** ** MurmurHash2 *)

Definition murmur_m : Z := 0x5bd1e995.

Fixpoint murmur_loop (h : Z) (data : list Z) : Z :=
  match data with
  | d0 :: d1 :: d2 :: d3 :: data =>
      let k := Z.lor (Z.lor (Z.lor d0 (Z.shiftl d1 8)) (Z.shiftl d2 16)) (u32 (Z.shiftl d3 24)) in
      let k := u32 (k * murmur_m) in
      let k := Z.lxor k (Z.shiftr k 24) in
      let k := u32 (k * murmur_m) in
      murmur_loop (Z.lxor (u32 (h * murmur_m)) k) data
  | [d0; d1; d2] =>
      u32 (Z.lxor (Z.lxor (Z.lxor h (Z.shiftl d2 16)) (Z.shiftl d1 8)) d0 * murmur_m)
  | [d0; d1] => u32 (Z.lxor (Z.lxor h (Z.shiftl d1 8)) d0 * murmur_m)
  | [d0] => u32 (Z.lxor h d0 * murmur_m)
  | [] => h
  end.

Definition ngx_murmur_hash2 (data : list Z) : Z :=
  let h := murmur_loop (u32 (Z.of_nat (length data))) data in
  let h := Z.lxor h (Z.shiftr h 13) in
  let h := u32 (h * murmur_m) in
  Z.lxor h (Z.shiftr h 15).

(** ** The definition of CRC-32

    The remainder of the bits, each byte from its lowest bit on, by the
    polynomial 0xedb88320 in reversed order. *)

Definition divide_bit (crc : Z) : Z :=
  if Z.testbit crc 0 then Z.lxor (Z.shiftr crc 1) 0xedb88320 else Z.shiftr crc 1.

Definition divide_byte (crc c : Z) : Z := Nat.iter 8 divide_bit (Z.lxor crc c).

Definition crc32 (p : list Z) : Z := Z.lxor (fold_left divide_byte p 0xffffffff) 0xffffffff.

(** Eight turns see the low byte only: they are linear. *)
Lemma divide_bit_xor a b : divide_bit (Z.lxor a b) = Z.lxor (divide_bit a) (divide_bit b).
Proof.
  unfold divide_bit. rewrite Z.lxor_spec, Z.shiftr_lxor.
  destruct (Z.testbit a 0), (Z.testbit b 0); cbn [xorb]; apply Z.bits_inj'; intros n Hn; rewrite !Z.lxor_spec;
    by destruct (Z.testbit (Z.shiftr a 1) n), (Z.testbit (Z.shiftr b 1) n), (Z.testbit 0xedb88320 n).
Qed.

Lemma divide_bits_xor n : ∀ a b, Nat.iter n divide_bit (Z.lxor a b) = Z.lxor (Nat.iter n divide_bit a) (Nat.iter n divide_bit b).
Proof. induction n as [|n IH]; intros a b; [done|]. by rewrite !Nat.iter_succ, IH, divide_bit_xor. Qed.

Lemma divide_bits_shift n : ∀ x, Nat.iter n divide_bit (Z.shiftl x (Z.of_nat n)) = x.
Proof.
  induction n as [|n IH]; intros x; [apply Z.shiftl_0_r|].
  rewrite Nat.iter_succ_r. rewrite <- (IH x) at 2. f_equal. unfold divide_bit.
  rewrite Z.shiftl_spec_low by lia. rewrite Z.shiftr_shiftl_l by lia. f_equal. lia.
Qed.

(** The low byte and the rest. *)
Lemma split_byte x : x = Z.lxor (Z.land x 0xff) (Z.shiftl (Z.shiftr x 8) 8).
Proof.
  apply Z.bits_inj'. intros n Hn. change 0xff with (Z.ones 8). rewrite Z.lxor_spec, Z.land_spec, Z.shiftl_spec by done.
  destruct (decide (n < 8)).
  - rewrite Z.ones_spec_low, (Z.testbit_neg_r _ (n - 8)) by lia. by rewrite andb_true_r, xorb_false_r.
  - rewrite Z.ones_spec_high, Z.shiftr_spec by lia. rewrite andb_false_r, xorb_false_l. f_equal. lia.
Qed.

Lemma divide_byte_split crc c : is_byte c →
  divide_byte crc c = Z.lxor (Nat.iter 8 divide_bit (Z.land (Z.lxor crc c) 0xff)) (Z.shiftr crc 8).
Proof.
  intros Hc. unfold divide_byte. rewrite (split_byte (Z.lxor crc c)) at 1. rewrite divide_bits_xor. f_equal.
  change 8 with (Z.of_nat 8) at 2. rewrite divide_bits_shift, Z.shiftr_lxor.
  replace (Z.shiftr c 8) with 0; [by rewrite Z.lxor_0_r|]. unfold is_byte in Hc.
  rewrite Z.shiftr_div_pow2 by lia. change (2 ^ 8) with 256. zlia.
Qed.

Lemma table256_ok x : is_byte x → nth (Z.to_nat x) ngx_crc32_table256 0 = Nat.iter 8 divide_bit x.
Proof.
  intros Hx. assert (bool_decide (nth (Z.to_nat x) ngx_crc32_table256 0 = Nat.iter 8 divide_bit x) = true) as H.
  { by_bytes x. }
  by apply bool_decide_eq_true in H.
Qed.

Lemma land_byte x : is_byte (Z.land x 0xff).
Proof. unfold is_byte. change 0xff with (Z.ones 8). rewrite Z.land_ones by lia. change (2 ^ 8) with 256. zlia. Qed.

Lemma long_step_ok crc c : is_byte c → crc32_long_step crc c = divide_byte crc c.
Proof. intros Hc. unfold crc32_long_step. by rewrite table256_ok, divide_byte_split by (done || apply land_byte). Qed.

(** Four bits at a time. *)
Definition nibbles (x : Z) : Z :=
  let t := nth (Z.to_nat (Z.land x 0xf)) ngx_crc32_table16 0 in
  Z.lxor (nth (Z.to_nat (Z.land (Z.lxor t (Z.shiftr x 4)) 0xf)) ngx_crc32_table16 0) (Z.shiftr t 4).

Lemma table16_ok x : is_byte x → nibbles x = Nat.iter 8 divide_bit x.
Proof.
  intros Hx. assert (bool_decide (nibbles x = Nat.iter 8 divide_bit x) = true) as H by by_bytes x.
  by apply bool_decide_eq_true in H.
Qed.

Lemma land_low a b k : 0 ≤ k → Z.land a (Z.ones k) = Z.land b (Z.ones k) ↔ ∀ n, 0 ≤ n < k → Z.testbit a n = Z.testbit b n.
Proof.
  intros Hk. split.
  - intros H n Hn. apply (f_equal (λ z, Z.testbit z n)) in H. rewrite !Z.land_spec, !Z.ones_spec_low, !andb_true_r in H by lia.
    done.
  - intros H. apply Z.bits_inj'. intros n Hn. rewrite !Z.land_spec. destruct (decide (n < k)).
    + by rewrite H by lia.
    + rewrite Z.ones_spec_high by lia. by rewrite !andb_false_r.
Qed.

Lemma short_step_ok crc c : is_byte c → crc32_short_step crc c = divide_byte crc c.
Proof.
  intros Hc. rewrite divide_byte_split by done. rewrite <- (table16_ok (Z.land (Z.lxor crc c) 0xff)) by apply land_byte.
  unfold crc32_short_step, nibbles. change 0xff with (Z.ones 8). change 0xf with (Z.ones 4).
  assert (Z.land (Z.lxor crc (Z.land c (Z.ones 4))) (Z.ones 4) = Z.land (Z.land (Z.lxor crc c) (Z.ones 8)) (Z.ones 4)) as ->.
  { apply land_low; [lia|]. intros n Hn. rewrite !Z.land_spec, !Z.lxor_spec, !Z.land_spec, !Z.ones_spec_low by lia.
    by rewrite !andb_true_r. }
  set (t := nth (Z.to_nat (Z.land (Z.land (Z.lxor crc c) (Z.ones 8)) (Z.ones 4))) ngx_crc32_table16 0).
  assert (Z.land (Z.lxor (Z.lxor t (Z.shiftr crc 4)) (Z.shiftr c 4)) (Z.ones 4) =
    Z.land (Z.lxor t (Z.shiftr (Z.land (Z.lxor crc c) (Z.ones 8)) 4)) (Z.ones 4)) as ->.
  { apply land_low; [lia|]. intros n Hn.
    rewrite !Z.lxor_spec, !Z.shiftr_spec, !Z.land_spec, !Z.lxor_spec, !Z.ones_spec_low by lia.
    by rewrite andb_true_r, xorb_assoc. }
  rewrite Z.shiftr_lxor, Z.shiftr_shiftr by lia. by rewrite Z.lxor_assoc.
Qed.

Lemma fold_steps (f g : Z → Z → Z) p : (∀ crc c, is_byte c → f crc c = g crc c) → Forall is_byte p →
  ∀ crc, fold_left f p crc = fold_left g p crc.
Proof. intros Hfg. induction 1 as [|c p Hc Hp IH]; intros crc; [done|]. cbn. by rewrite Hfg. Qed.

(** C40: Both functions compute the CRC-32 that the polynomial defines, and so do
    [ngx_crc32_update]s of the pieces of a text. *)
Theorem crc32_correct p pieces : Forall is_byte p → concat pieces = p →
  ngx_crc32_short p = crc32 p ∧ ngx_crc32_long p = crc32 p ∧
  ngx_crc32_final (fold_left ngx_crc32_update pieces ngx_crc32_init) = crc32 p.
Proof.
  intros Hp <-. split; [|split].
  - unfold ngx_crc32_short, crc32. f_equal. by apply fold_steps; [apply short_step_ok|].
  - unfold ngx_crc32_long, crc32. f_equal. by apply fold_steps; [apply long_step_ok|].
  - unfold ngx_crc32_final, crc32, ngx_crc32_init. f_equal. generalize 0xffffffff. revert Hp.
    induction pieces as [|q pieces IH]; intros Hp crc; [done|]. cbn [concat fold_left] in *.
    apply list.Forall_app in Hp as [Hq Hp]. rewrite IH, fold_left_app by done. f_equal.
    unfold ngx_crc32_update. by apply fold_steps; [apply long_step_ok|].
Qed.

Lemma crc32_correct_witness : crc32 (bs "123456789") = 0xcbf43926 ∧ ngx_crc32_short (bs "123456789") = crc32 (bs "123456789") ∧
  ngx_crc32_long (bs "123456789") = crc32 (bs "123456789") ∧
  ngx_crc32_final (fold_left ngx_crc32_update [bs "1234"; bs "56789"] ngx_crc32_init) = crc32 (bs "123456789").
Proof.
  split; [vm_compute; reflexivity|]. apply crc32_correct; [|reflexivity].
  apply (bool_decide_unpack _). vm_compute. exact I.
Defined.
End Checksum.
