(* ===== verification/Md5.v ===== *)
(** * MD5

    src/core/ngx_md5.c, which is used when the system has no MD5.  The digest of
    a text that is given in pieces is that of RFC 1321. *)

From Stdlib Require Import ZifyNat.
From S2P Require Import Prelude.

Module Md5.

(** ** Data *)

(** [ngx_md5_t] *)
Record ngx_md5_t := mk_md5 {
  bytes : Z;
  a : Z;
  b : Z;
  c : Z;
  d : Z;
  buffer : list Z;
}.

(** [ngx_memcpy(&mem[at], data, size)] *)
Definition store (mem : list Z) (at_ : nat) (data : list Z) : list Z :=
  take at_ mem ++ data ++ drop (at_ + length data) mem.

(** ** The basic functions *)

Definition F (x y z : Z) : Z := Z.lxor z (Z.land x (Z.lxor y z)).
Definition G (x y z : Z) : Z := Z.lxor y (Z.land z (Z.lxor x y)).
Definition H (x y z : Z) : Z := Z.lxor (Z.lxor x y) z.
Definition I (x y z : Z) : Z := Z.lxor y (Z.lor x (u32 (Z.lnot z))).

(** [STEP(f, a, b, c, d, x, t, s)]: the new [a]. *)
Definition STEP (f : Z → Z → Z → Z) (a b c d x t s : Z) : Z :=
  let a := u32 (a + f b c d + x + t) in
  let a := Z.lor (u32 (Z.shiftl a s)) (Z.shiftr a (32 - s)) in
  u32 (a + b).

Definition regs : Type := Z * Z * Z * Z.

(** The four orders of the registers. *)
Definition step_a (f : Z → Z → Z → Z) (r : regs) (x t s : Z) : regs :=
  let '(a, b, c, d) := r in (STEP f a b c d x t s, b, c, d).
Definition step_d (f : Z → Z → Z → Z) (r : regs) (x t s : Z) : regs :=
  let '(a, b, c, d) := r in (a, b, c, STEP f d a b c x t s).
Definition step_c (f : Z → Z → Z → Z) (r : regs) (x t s : Z) : regs :=
  let '(a, b, c, d) := r in (a, b, STEP f c d a b x t s, d).
Definition step_b (f : Z → Z → Z → Z) (r : regs) (x t s : Z) : regs :=
  let '(a, b, c, d) := r in (a, STEP f b c d a x t s, c, d).

(** ** ngx_md5_body *)

(** [SET(n)] and [GET(n)] *)
Definition word (p : list Z) (n : nat) : Z :=
  nth (n * 4) p 0 + 256 * nth (n * 4 + 1) p 0 + 65536 * nth (n * 4 + 2) p 0 + 16777216 * nth (n * 4 + 3) p 0.

Definition round1 (w : nat → Z) (r : regs) : regs :=
  let r := step_a F r (w 0%nat) 0xd76aa478 7 in
  let r := step_d F r (w 1%nat) 0xe8c7b756 12 in
  let r := step_c F r (w 2%nat) 0x242070db 17 in
  let r := step_b F r (w 3%nat) 0xc1bdceee 22 in
  let r := step_a F r (w 4%nat) 0xf57c0faf 7 in
  let r := step_d F r (w 5%nat) 0x4787c62a 12 in
  let r := step_c F r (w 6%nat) 0xa8304613 17 in
  let r := step_b F r (w 7%nat) 0xfd469501 22 in
  let r := step_a F r (w 8%nat) 0x698098d8 7 in
  let r := step_d F r (w 9%nat) 0x8b44f7af 12 in
  let r := step_c F r (w 10%nat) 0xffff5bb1 17 in
  let r := step_b F r (w 11%nat) 0x895cd7be 22 in
  let r := step_a F r (w 12%nat) 0x6b901122 7 in
  let r := step_d F r (w 13%nat) 0xfd987193 12 in
  let r := step_c F r (w 14%nat) 0xa679438e 17 in
  let r := step_b F r (w 15%nat) 0x49b40821 22 in
  r.

Definition round2 (w : nat → Z) (r : regs) : regs :=
  let r := step_a G r (w 1%nat) 0xf61e2562 5 in
  let r := step_d G r (w 6%nat) 0xc040b340 9 in
  let r := step_c G r (w 11%nat) 0x265e5a51 14 in
  let r := step_b G r (w 0%nat) 0xe9b6c7aa 20 in
  let r := step_a G r (w 5%nat) 0xd62f105d 5 in
  let r := step_d G r (w 10%nat) 0x02441453 9 in
  let r := step_c G r (w 15%nat) 0xd8a1e681 14 in
  let r := step_b G r (w 4%nat) 0xe7d3fbc8 20 in
  let r := step_a G r (w 9%nat) 0x21e1cde6 5 in
  let r := step_d G r (w 14%nat) 0xc33707d6 9 in
  let r := step_c G r (w 3%nat) 0xf4d50d87 14 in
  let r := step_b G r (w 8%nat) 0x455a14ed 20 in
  let r := step_a G r (w 13%nat) 0xa9e3e905 5 in
  let r := step_d G r (w 2%nat) 0xfcefa3f8 9 in
  let r := step_c G r (w 7%nat) 0x676f02d9 14 in
  let r := step_b G r (w 12%nat) 0x8d2a4c8a 20 in
  r.

Definition round3 (w : nat → Z) (r : regs) : regs :=
  let r := step_a H r (w 5%nat) 0xfffa3942 4 in
  let r := step_d H r (w 8%nat) 0x8771f681 11 in
  let r := step_c H r (w 11%nat) 0x6d9d6122 16 in
  let r := step_b H r (w 14%nat) 0xfde5380c 23 in
  let r := step_a H r (w 1%nat) 0xa4beea44 4 in
  let r := step_d H r (w 4%nat) 0x4bdecfa9 11 in
  let r := step_c H r (w 7%nat) 0xf6bb4b60 16 in
  let r := step_b H r (w 10%nat) 0xbebfbc70 23 in
  let r := step_a H r (w 13%nat) 0x289b7ec6 4 in
  let r := step_d H r (w 0%nat) 0xeaa127fa 11 in
  let r := step_c H r (w 3%nat) 0xd4ef3085 16 in
  let r := step_b H r (w 6%nat) 0x04881d05 23 in
  let r := step_a H r (w 9%nat) 0xd9d4d039 4 in
  let r := step_d H r (w 12%nat) 0xe6db99e5 11 in
  let r := step_c H r (w 15%nat) 0x1fa27cf8 16 in
  let r := step_b H r (w 2%nat) 0xc4ac5665 23 in
  r.

Definition round4 (w : nat → Z) (r : regs) : regs :=
  let r := step_a I r (w 0%nat) 0xf4292244 6 in
  let r := step_d I r (w 7%nat) 0x432aff97 10 in
  let r := step_c I r (w 14%nat) 0xab9423a7 15 in
  let r := step_b I r (w 5%nat) 0xfc93a039 21 in
  let r := step_a I r (w 12%nat) 0x655b59c3 6 in
  let r := step_d I r (w 3%nat) 0x8f0ccc92 10 in
  let r := step_c I r (w 10%nat) 0xffeff47d 15 in
  let r := step_b I r (w 1%nat) 0x85845dd1 21 in
  let r := step_a I r (w 8%nat) 0x6fa87e4f 6 in
  let r := step_d I r (w 15%nat) 0xfe2ce6e0 10 in
  let r := step_c I r (w 6%nat) 0xa3014314 15 in
  let r := step_b I r (w 13%nat) 0x4e0811a1 21 in
  let r := step_a I r (w 4%nat) 0xf7537e82 6 in
  let r := step_d I r (w 11%nat) 0xbd3af235 10 in
  let r := step_c I r (w 2%nat) 0x2ad7d2bb 15 in
  let r := step_b I r (w 9%nat) 0xeb86d391 21 in
  r.

(** The body of the loop for the 64 bytes at [p]. *)
Definition transform (r : regs) (p : list Z) : regs :=
  let '(saved_a, saved_b, saved_c, saved_d) := r in
  let w := word p in
  let '(a, b, c, d) := round4 w (round3 w (round2 w (round1 w r))) in
  (u32 (a + saved_a), u32 (b + saved_b), u32 (c + saved_c), u32 (d + saved_d)).

(** [size] is [64 * (n + 1)]. *)
Fixpoint body_loop (n : nat) (r : regs) (p : list Z) : regs * list Z :=
  let r := transform r (take 64 p) in
  let p := drop 64 p in
  match n with O => (r, p) | S n => body_loop n r p end.

(** The result is [p]: the data after the blocks. *)
Definition ngx_md5_body (ctx : ngx_md5_t) (data : list Z) (size : nat) : ngx_md5_t * list Z :=
  let '(ra, rb, rc, rd, p) := body_loop (size / 64 - 1) (a ctx, b ctx, c ctx, d ctx) data in
  (mk_md5 (bytes ctx) ra rb rc rd (buffer ctx), p).

(** ** Operations *)

(** The buffer is not initialised. *)
Definition ngx_md5_init (buffer0 : list Z) : ngx_md5_t :=
  mk_md5 0 0x67452301 0xefcdab89 0x98badcfe 0x10325476 buffer0.

Definition set_buffer (ctx : ngx_md5_t) (at_ : nat) (data : list Z) : ngx_md5_t :=
  mk_md5 (bytes ctx) (a ctx) (b ctx) (c ctx) (d ctx) (store (buffer ctx) at_ data).

(** After the part that fills the buffer. *)
Definition update_rest (ctx : ngx_md5_t) (data : list Z) : ngx_md5_t :=
  let size := length data in
  let '(ctx, data, size) :=
    if (64 <=? size)%nat then
      let '(ctx, data) := ngx_md5_body ctx data (size - size mod 64) in (ctx, data, (size mod 64)%nat)
    else (ctx, data, size) in
  set_buffer ctx 0 (take size data).

Definition ngx_md5_update (ctx : ngx_md5_t) (data : list Z) : ngx_md5_t :=
  let size := length data in
  let used := Z.to_nat (Z.land (bytes ctx) 0x3f) in
  let ctx := mk_md5 (u64 (bytes ctx + Z.of_nat size)) (a ctx) (b ctx) (c ctx) (d ctx) (buffer ctx) in
  if (used =? 0)%nat then update_rest ctx data
  else
    let free := (64 - used)%nat in
    if (size <? free)%nat then set_buffer ctx used data
    else
      let ctx := set_buffer ctx used (take free data) in
      update_rest (fst (ngx_md5_body ctx (buffer ctx) 64)) (drop free data).

(** The bytes of a number, from the lowest on. *)
Definition le_bytes (n : nat) (x : Z) : list Z := (λ i, u8 (Z.shiftr x (8 * Z.of_nat i))) <$> seq 0 n.

(** The result; the context is cleared. *)
Definition ngx_md5_final (ctx : ngx_md5_t) : list Z :=
  let used := Z.to_nat (Z.land (bytes ctx) 0x3f) in
  let ctx := set_buffer ctx used [0x80] in
  let used := S used in
  let free := (64 - used)%nat in
  let '(ctx, used, free) :=
    if (free <? 8)%nat then
      let ctx := set_buffer ctx used (replicate free 0) in
      (fst (ngx_md5_body ctx (buffer ctx) 64), 0%nat, 64%nat)
    else (ctx, used, free) in
  let ctx := set_buffer ctx used (replicate (free - 8) 0) in
  let ctx := set_buffer ctx 56 (le_bytes 8 (u64 (Z.shiftl (bytes ctx) 3))) in
  let ctx := fst (ngx_md5_body ctx (buffer ctx) 64) in
  le_bytes 4 (a ctx) ++ le_bytes 4 (b ctx) ++ le_bytes 4 (c ctx) ++ le_bytes 4 (d ctx).

(** ** RFC 1321 *)

Definition rfc_F (x y z : Z) : Z := Z.lor (Z.land x y) (Z.land (u32 (Z.lnot x)) z).
Definition rfc_G (x y z : Z) : Z := Z.lor (Z.land x z) (Z.land y (u32 (Z.lnot z))).
Definition rfc_H (x y z : Z) : Z := Z.lxor (Z.lxor x y) z.
Definition rfc_I (x y z : Z) : Z := Z.lxor y (Z.lor x (u32 (Z.lnot z))).

(** [T[i]]: the integer part of 4294967296 times abs(sin(i)). *)
Definition rfc_T : list Z :=
  [
   0xd76aa478; 0xe8c7b756; 0x242070db; 0xc1bdceee; 0xf57c0faf; 0x4787c62a; 0xa8304613; 0xfd469501;
   0x698098d8; 0x8b44f7af; 0xffff5bb1; 0x895cd7be; 0x6b901122; 0xfd987193; 0xa679438e; 0x49b40821;
   0xf61e2562; 0xc040b340; 0x265e5a51; 0xe9b6c7aa; 0xd62f105d; 0x02441453; 0xd8a1e681; 0xe7d3fbc8;
   0x21e1cde6; 0xc33707d6; 0xf4d50d87; 0x455a14ed; 0xa9e3e905; 0xfcefa3f8; 0x676f02d9; 0x8d2a4c8a;
   0xfffa3942; 0x8771f681; 0x6d9d6122; 0xfde5380c; 0xa4beea44; 0x4bdecfa9; 0xf6bb4b60; 0xbebfbc70;
   0x289b7ec6; 0xeaa127fa; 0xd4ef3085; 0x04881d05; 0xd9d4d039; 0xe6db99e5; 0x1fa27cf8; 0xc4ac5665;
   0xf4292244; 0x432aff97; 0xab9423a7; 0xfc93a039; 0x655b59c3; 0x8f0ccc92; 0xffeff47d; 0x85845dd1;
   0x6fa87e4f; 0xfe2ce6e0; 0xa3014314; 0x4e0811a1; 0xf7537e82; 0xbd3af235; 0x2ad7d2bb; 0xeb86d391
  ].

(** The function, the word and the rotation of step [i]. *)
Definition rfc_step (i : nat) : (Z → Z → Z → Z) * nat * Z :=
  let sel (l : list Z) := nth (i mod 4) l 0 in
  match (i / 16)%nat with
  | 0%nat => (rfc_F, (i mod 16)%nat, sel [7; 12; 17; 22])
  | 1%nat => (rfc_G, ((1 + 5 * i) mod 16)%nat, sel [5; 9; 14; 20])
  | 2%nat => (rfc_H, ((5 + 3 * i) mod 16)%nat, sel [4; 11; 16; 23])
  | _ => (rfc_I, ((7 * i) mod 16)%nat, sel [6; 10; 15; 21])
  end.

Definition rotate_left (x s : Z) : Z := Z.lor (u32 (Z.shiftl x s)) (Z.shiftr x (32 - s)).

(** [b + ((a + f(b, c, d) + X[k] + T[i]) <<< s)]; the registers move on by one. *)
Definition rfc_turn (x : list Z) (r : regs) (i : nat) : regs :=
  let '(a, b, c, d) := r in
  let '(f, k, s) := rfc_step i in
  (d, u32 (rotate_left (u32 (a + f b c d + word x k + nth i rfc_T 0)) s + b), b, c).

Definition rfc_block (r : regs) (x : list Z) : regs :=
  let '(a, b, c, d) := r in
  let '(a', b', c', d') := fold_left (rfc_turn x) (seq 0 64) r in
  (u32 (a + a'), u32 (b + b'), u32 (c + c'), u32 (d + d')).

Fixpoint rfc_blocks (n : nat) (r : regs) (m : list Z) : regs :=
  match n with O => r | S n => rfc_blocks n (rfc_block r (take 64 m)) (drop 64 m) end.

(** A 1 bit, zeros up to 56 bytes modulo 64, and the number of bits. *)
Definition rfc_pad (m : list Z) : list Z :=
  m ++ [0x80] ++ replicate (Z.to_nat ((55 - Z.of_nat (length m)) mod 64)) 0 ++
  le_bytes 8 (u64 (8 * Z.of_nat (length m))).

Definition md5 (m : list Z) : list Z :=
  let '(a, b, c, d) :=
    rfc_blocks (length (rfc_pad m) / 64) (0x67452301, 0xefcdab89, 0x98badcfe, 0x10325476) (rfc_pad m) in
  le_bytes 4 a ++ le_bytes 4 b ++ le_bytes 4 c ++ le_bytes 4 d.

(** ** The transformation is that of RFC 1321 *)

Definition word32 (x : Z) : Prop := 0 ≤ x < 4294967296.
Definition ok (r : regs) : Prop := let '(a, b, c, d) := r in word32 a ∧ word32 b ∧ word32 c ∧ word32 d.

Lemma u32_word x : word32 (u32 x).
Proof. unfold word32, u32. zlia. Qed.

Lemma word32_high x n : word32 x → 32 ≤ n → Z.testbit x n = false.
Proof.
  intros Hx Hn. rewrite <- (Z.mod_small x (2 ^ 32)) by (unfold word32 in Hx; lia).
  by apply Z.mod_pow2_bits_high.
Qed.

Lemma not_bit x n : Z.testbit (u32 (Z.lnot x)) n = (0 <=? n) && (n <? 32) && negb (Z.testbit x n).
Proof.
  unfold u32. change 4294967296 with (2 ^ 32). destruct (Z.leb_spec 0 n); [|by rewrite Z.testbit_neg_r].
  destruct (Z.ltb_spec n 32).
  - rewrite Z.mod_pow2_bits_low, Z.lnot_spec by lia. done.
  - by rewrite Z.mod_pow2_bits_high by lia.
Qed.

Definition same (f g : Z → Z → Z → Z) : Prop :=
  ∀ x y z, word32 x → word32 y → word32 z → f x y z = g x y z.

Lemma F_same : same rfc_F F.
Proof.
  intros x y z Hx Hy Hz. apply Z.bits_inj'. intros n Hn. unfold rfc_F, F.
  rewrite Z.lor_spec, !Z.lxor_spec, !Z.land_spec, Z.lxor_spec, not_bit.
  rewrite (proj2 (Z.leb_le 0 n)) by done. destruct (Z.ltb_spec n 32).
  - by destruct (Z.testbit x n), (Z.testbit y n), (Z.testbit z n).
  - by rewrite (word32_high x), (word32_high y), (word32_high z) by done.
Qed.

Lemma G_same : same rfc_G G.
Proof.
  intros x y z Hx Hy Hz. apply Z.bits_inj'. intros n Hn. unfold rfc_G, G.
  rewrite Z.lor_spec, !Z.lxor_spec, !Z.land_spec, Z.lxor_spec, not_bit.
  rewrite (proj2 (Z.leb_le 0 n)) by done. destruct (Z.ltb_spec n 32).
  - by destruct (Z.testbit x n), (Z.testbit y n), (Z.testbit z n).
  - by rewrite (word32_high x), (word32_high y), (word32_high z) by done.
Qed.

Lemma H_same : same rfc_H H.
Proof. done. Qed.
Lemma I_same : same rfc_I I.
Proof. done. Qed.

(** Four steps bring the registers back to their places. *)
Lemma four_steps x r i f g k0 k1 k2 k3 s0 s1 s2 s3 :
  rfc_step i = (f, k0, s0) → rfc_step (S i) = (f, k1, s1) → rfc_step (S (S i)) = (f, k2, s2) →
  rfc_step (S (S (S i))) = (f, k3, s3) → same f g → ok r →
  fold_left (rfc_turn x) [i; S i; S (S i); S (S (S i))] r =
    (let r := step_a g r (word x k0) (nth i rfc_T 0) s0 in
     let r := step_d g r (word x k1) (nth (S i) rfc_T 0) s1 in
     let r := step_c g r (word x k2) (nth (S (S i)) rfc_T 0) s2 in
     step_b g r (word x k3) (nth (S (S (S i))) rfc_T 0) s3) ∧
  ok (fold_left (rfc_turn x) [i; S i; S (S i); S (S (S i))] r).
Proof.
  intros E0 E1 E2 E3 Hfg. destruct r as [[[a b] c] d]. intros (Ha & Hb & Hc & Hd).
  cbn [fold_left]. unfold rfc_turn. rewrite E0, E1, E2, E3.
  assert (∀ a b c d x t s, word32 b → word32 c → word32 d →
    u32 (rotate_left (u32 (a + f b c d + x + t)) s + b) = STEP g a b c d x t s) as Hs.
  { intros. unfold STEP. by rewrite Hfg. }
  assert (∀ a b c d x t s, word32 (STEP g a b c d x t s)) as Hw by (intros; apply u32_word).
  rewrite !Hs by auto using u32_word. unfold step_a, step_b, step_c, step_d. split; [done|]. cbn [ok]. auto 10.
Qed.

(** One round: the steps from [i] on, in groups of four. *)
Lemma round_ok x r i g (round : (nat → Z) → regs → regs) f k s :
  (∀ j, (j < 16)%nat → rfc_step (i + j) = (f, k j, s (j mod 4)%nat)) → same f g → ok r →
  (∀ w r, round w r =
     fold_left (λ r j,
       let r := step_a g r (w (k (4 * j)%nat)) (nth (i + 4 * j) rfc_T 0) (s 0%nat) in
       let r := step_d g r (w (k (4 * j + 1)%nat)) (nth (i + 4 * j + 1) rfc_T 0) (s 1%nat) in
       let r := step_c g r (w (k (4 * j + 2)%nat)) (nth (i + 4 * j + 2) rfc_T 0) (s 2%nat) in
       step_b g r (w (k (4 * j + 3)%nat)) (nth (i + 4 * j + 3) rfc_T 0) (s 3%nat)) (seq 0 4) r) →
  fold_left (rfc_turn x) (seq i 16) r = round (word x) r ∧ ok (round (word x) r).
Proof.
  intros Hstep Hfg Hr ->.
  assert (∀ n m r, (n + m ≤ 4)%nat → ok r →
    fold_left (rfc_turn x) (seq (i + 4 * m) (4 * n)) r =
    fold_left (λ r j,
       let r := step_a g r (word x (k (4 * j)%nat)) (nth (i + 4 * j) rfc_T 0) (s 0%nat) in
       let r := step_d g r (word x (k (4 * j + 1)%nat)) (nth (i + 4 * j + 1) rfc_T 0) (s 1%nat) in
       let r := step_c g r (word x (k (4 * j + 2)%nat)) (nth (i + 4 * j + 2) rfc_T 0) (s 2%nat) in
       step_b g r (word x (k (4 * j + 3)%nat)) (nth (i + 4 * j + 3) rfc_T 0) (s 3%nat)) (seq m n) r ∧
    ok (fold_left (rfc_turn x) (seq (i + 4 * m) (4 * n)) r)) as H.
  { clear r Hr. induction n as [|n IH]; intros m r Hm Hr; [done|].
    replace (4 * S n)%nat with (4 + 4 * n)%nat by lia. rewrite seq_app, fold_left_app.
    replace (i + 4 * m + 4)%nat with (i + 4 * S m)%nat by lia.
    set (j := (i + 4 * m)%nat). change (seq j 4) with [j; S j; S (S j); S (S (S j))].
    assert (∀ q, (q < 4)%nat → rfc_step (j + q) = (f, k (4 * m + q)%nat, s q)) as Hq.
    { intros q Hq. unfold j. replace (i + 4 * m + q)%nat with (i + (4 * m + q))%nat by lia. rewrite Hstep by lia.
      do 2 f_equal. rewrite (Nat.mul_comm 4 m), Nat.add_comm, Nat.Div0.mod_add, Nat.mod_small by lia. done. }
    pose proof (Hq 0%nat ltac:(lia)) as Q0. pose proof (Hq 1%nat ltac:(lia)) as Q1.
    pose proof (Hq 2%nat ltac:(lia)) as Q2. pose proof (Hq 3%nat ltac:(lia)) as Q3.
    rewrite !Nat.add_0_r in Q0. rewrite Nat.add_1_r in Q1.
    replace (j + 2)%nat with (S (S j)) in Q2 by lia. replace (j + 3)%nat with (S (S (S j))) in Q3 by lia.
    destruct (four_steps x r j f g _ _ _ _ _ _ _ _ Q0 Q1 Q2 Q3 Hfg Hr) as [E Ho].
    rewrite E in Ho |- *. cbn [seq fold_left].
    replace (S (S (S j))) with (i + 4 * m + 3)%nat in * by (unfold j; lia).
    replace (S (S j)) with (i + 4 * m + 2)%nat in * by (unfold j; lia).
    replace (S j) with (i + 4 * m + 1)%nat in * by (unfold j; lia). fold j in Ho |- *. exact (IH (S m) _ ltac:(lia) Ho). }
  specialize (H 4%nat 0%nat r ltac:(lia) Hr). rewrite Nat.mul_0_r, Nat.add_0_r in H. cbn [Nat.mul Nat.add] in H.
  destruct H as [E Ho]. rewrite E in Ho. by split.
Qed.

(** The 16 steps of a round, one by one. *)
Ltac steps16 := by intros [|[|[|[|[|[|[|[|[|[|[|[|[|[|[|[|j]]]]]]]]]]]]]]]] Hj; [..|lia].

Definition round_spec (x : list Z) (i : nat) (round : (nat → Z) → regs → regs) : Prop :=
  ∀ r, ok r → fold_left (rfc_turn x) (seq i 16) r = round (word x) r ∧ ok (round (word x) r).

Lemma round1_ok x : round_spec x 0 round1.
Proof.
  intros r Hr. apply (round_ok x r 0 F round1 rfc_F (λ j, j mod 16)%nat (λ j, nth j [7; 12; 17; 22] 0));
    [steps16|apply F_same|done|done].
Qed.

Lemma round2_ok x : round_spec x 16 round2.
Proof.
  intros r Hr. apply (round_ok x r 16 G round2 rfc_G (λ j, (1 + 5 * (16 + j)) mod 16)%nat (λ j, nth j [5; 9; 14; 20] 0));
    [steps16|apply G_same|done|done].
Qed.

Lemma round3_ok x : round_spec x 32 round3.
Proof.
  intros r Hr. apply (round_ok x r 32 H round3 rfc_H (λ j, (5 + 3 * (32 + j)) mod 16)%nat (λ j, nth j [4; 11; 16; 23] 0));
    [steps16|apply H_same|done|done].
Qed.

Lemma round4_ok x : round_spec x 48 round4.
Proof.
  intros r Hr. apply (round_ok x r 48 I round4 rfc_I (λ j, (7 * (48 + j)) mod 16)%nat (λ j, nth j [6; 10; 15; 21] 0));
    [steps16|apply I_same|done|done].
Qed.

Lemma rounds_ok x r : ok r →
  fold_left (rfc_turn x) (seq 0 64) r = round4 (word x) (round3 (word x) (round2 (word x) (round1 (word x) r))) ∧
  ok (fold_left (rfc_turn x) (seq 0 64) r).
Proof.
  intros Hr. change (seq 0 64) with (seq 0 16 ++ seq 16 16 ++ seq 32 16 ++ seq 48 16). rewrite !fold_left_app.
  destruct (round1_ok x _ Hr) as [-> H1]. destruct (round2_ok x _ H1) as [-> H2].
  destruct (round3_ok x _ H2) as [-> H3]. destruct (round4_ok x _ H3) as [-> H4]. by split.
Qed.

Lemma transform_ok r x : ok r → transform r x = rfc_block r x ∧ ok (rfc_block r x).
Proof.
  intros Hr. unfold transform, rfc_block. destruct r as [[[a b] c] d].
  destruct (rounds_ok x (a, b, c, d) Hr) as [E _]. rewrite <- E.
  destruct (fold_left _ _ _) as [[[a' b'] c'] d'].
  rewrite (Z.add_comm a), (Z.add_comm b), (Z.add_comm c), (Z.add_comm d). split; [done|].
  cbn [ok]. auto using u32_word.
Qed.

(** Division and remainder on natural numbers *)
Ltac nlia := zify; zdiv; lia.

(** ** Blocks *)

Definition regs_of (ctx : ngx_md5_t) : regs := (a ctx, b ctx, c ctx, d ctx).
Definition rfc_init : regs := (0x67452301, 0xefcdab89, 0x98badcfe, 0x10325476).

Lemma rfc_init_ok : ok rfc_init.
Proof. unfold ok, rfc_init, word32. lia. Qed.

Lemma rfc_blocks_ok n r m : ok r → ok (rfc_blocks n r m).
Proof. revert r m. induction n as [|n IH]; intros r m Hr; cbn; [done|]. apply IH. by apply transform_ok. Qed.

(** Blocks after whole blocks. *)
Lemma rfc_blocks_app q n r M m : length M = (64 * q)%nat →
  rfc_blocks (q + n) r (M ++ m) = rfc_blocks n (rfc_blocks q r M) m.
Proof.
  revert r M. induction q as [|q IH]; intros r M HM.
  - by destruct M.
  - cbn [Nat.add rfc_blocks]. rewrite take_app_le, drop_app_le by lia. apply IH. rewrite length_drop. lia.
Qed.

(** Only the bytes of the blocks matter. *)
Lemma rfc_blocks_prefix q r M m : (64 * q ≤ length M)%nat → rfc_blocks q r (M ++ m) = rfc_blocks q r M.
Proof.
  revert r M. induction q as [|q IH]; intros r M HM; [done|].
  cbn [rfc_blocks]. rewrite take_app_le, drop_app_le by lia. apply IH. rewrite length_drop. lia.
Qed.

Lemma rfc_blocks_snoc q r M t : length M = (64 * q)%nat → length t = 64%nat →
  rfc_block (rfc_blocks q r M) t = rfc_blocks (S q) r (M ++ t).
Proof.
  intros HM Ht. replace (S q) with (q + 1)%nat by lia. rewrite rfc_blocks_app by done. cbn.
  by rewrite take_ge by lia.
Qed.

Lemma body_loop_blocks n r p : ok r →
  body_loop n r p = (rfc_blocks (S n) r p, drop (64 * S n) p).
Proof.
  revert r p. induction n as [|n IH]; intros r p Hr; cbn [body_loop];
    destruct (transform_ok r (take 64 p) Hr) as [-> Ho]; [done|].
  rewrite IH by done. rewrite drop_drop. cbn [rfc_blocks]. do 2 f_equal. lia.
Qed.

Lemma ngx_md5_body_blocks ctx data n : (0 < n)%nat → ok (regs_of ctx) →
  ∃ ctx', ngx_md5_body ctx data (64 * n) = (ctx', drop (64 * n) data) ∧ bytes ctx' = bytes ctx ∧
    buffer ctx' = buffer ctx ∧ regs_of ctx' = rfc_blocks n (regs_of ctx) data.
Proof.
  intros Hn Hok. unfold ngx_md5_body. replace (64 * n / 64 - 1)%nat with (n - 1)%nat
    by (rewrite Nat.mul_comm, Nat.div_mul by done; done).
  change (a ctx, b ctx, c ctx, d ctx) with (regs_of ctx). rewrite body_loop_blocks by done.
  replace (S (n - 1)) with n by lia. destruct (rfc_blocks n (regs_of ctx) data) as [[[ra rb] rc] rd].
  by eexists.
Qed.

(** ** The buffer *)

(** The context has the registers [r] and the bytes [t] in its buffer. *)
Definition holding (ctx : ngx_md5_t) (r : regs) (t : list Z) : Prop :=
  regs_of ctx = r ∧ length (buffer ctx) = 64%nat ∧ take (length t) (buffer ctx) = t.

Lemma holding_nil ctx r : regs_of ctx = r → length (buffer ctx) = 64%nat → holding ctx r [].
Proof. by repeat split. Qed.

Lemma set_buffer_holding ctx r t data n : holding ctx r t → n = length t → (n + length data ≤ 64)%nat →
  holding (set_buffer ctx n data) r (t ++ data).
Proof.
  intros (Hr & Hb & Ht) -> Hl. assert (take (length t) (buffer ctx) = t) as Ht' by done.
  unfold holding, set_buffer, regs_of, store. cbn. rewrite Ht'. split; [exact Hr|]. split.
  - rewrite !length_app, length_drop. lia.
  - rewrite app_assoc. by rewrite take_app_length.
Qed.

Lemma set_buffer_bytes ctx n data : bytes (set_buffer ctx n data) = bytes ctx.
Proof. done. Qed.

Lemma full_body ctx r t : holding ctx r t → length t = 64%nat → ok r →
  let ctx' := fst (ngx_md5_body ctx (buffer ctx) 64) in
  bytes ctx' = bytes ctx ∧ length (buffer ctx') = 64%nat ∧ regs_of ctx' = rfc_block r t.
Proof.
  intros (Hr & Hb & Ht) Hl Hok. rewrite <- Hr in Hok.
  destruct (ngx_md5_body_blocks ctx (buffer ctx) 1 ltac:(lia) Hok) as (ctx' & E & E1 & E2 & E3).
  change (64 * 1)%nat with 64%nat in E. rewrite E. cbn [fst]. split; [done|]. split; [congruence|].
  rewrite E3, <- Hr. cbn [rfc_blocks]. f_equal. rewrite <- Hl. exact Ht.
Qed.

(** ** A text in pieces *)

(** The context has taken in the text [M]. *)
Definition absorbed (ctx : ngx_md5_t) (M : list Z) : Prop :=
  bytes ctx = u64 (Z.of_nat (length M)) ∧
  holding ctx (rfc_blocks (length M / 64) rfc_init M) (drop (64 * (length M / 64)) M).

Lemma absorbed_init buffer0 : length buffer0 = 64%nat → absorbed (ngx_md5_init buffer0) [].
Proof. by repeat split. Qed.

(** The number of bytes in the buffer. *)
Lemma used_mod (x : nat) : Z.to_nat (Z.land (u64 (Z.of_nat x)) 0x3f) = (x mod 64)%nat.
Proof. change 0x3f with (Z.ones 6). rewrite Z.land_ones by lia. change (2 ^ 6) with 64. unfold u64.
  rewrite Z.mod_mod_divide by (by exists 288230376151711744). nlia. Qed.

Lemma absorbed_split q t M : length M = (64 * q)%nat → (length t < 64)%nat →
  (length (M ++ t) / 64)%nat = q ∧ drop (64 * q) (M ++ t) = t ∧
  rfc_blocks q rfc_init (M ++ t) = rfc_blocks q rfc_init M.
Proof.
  intros HM Ht. split; [rewrite length_app, HM; nlia|]. split; [by rewrite <- HM, drop_app_length|].
  apply rfc_blocks_prefix. lia.
Qed.

Lemma absorbed_intro ctx q M t : length M = (64 * q)%nat → (length t < 64)%nat →
  bytes ctx = u64 (Z.of_nat (length (M ++ t))) → holding ctx (rfc_blocks q rfc_init M) t → absorbed ctx (M ++ t).
Proof.
  intros HM Ht Hb Hh. split; [done|]. destruct (absorbed_split q t M HM Ht) as (-> & -> & ->). done.
Qed.

Lemma absorbed_inv ctx M : absorbed ctx M →
  ∃ q B t, M = B ++ t ∧ length B = (64 * q)%nat ∧ (length t < 64)%nat ∧ length t = (length M mod 64)%nat ∧
    holding ctx (rfc_blocks q rfc_init B) t.
Proof.
  intros [_ Hh]. set (q := (length M / 64)%nat). exists q, (take (64 * q) M), (drop (64 * q) M).
  assert (64 * q ≤ length M)%nat by (unfold q; nlia).
  assert (length (drop (64 * q) M) = length M mod 64)%nat as E by (rewrite length_drop; unfold q; nlia).
  rewrite take_drop, length_take_le by done. repeat split; auto; [rewrite E; nlia|..|apply Hh|apply Hh].
  destruct Hh as [-> _]. fold q. rewrite <- (take_drop (64 * q) M) at 1. apply rfc_blocks_prefix.
  rewrite length_take_le; lia.
Qed.

Lemma update_rest_ok ctx q M data : length M = (64 * q)%nat → length (buffer ctx) = 64%nat →
  regs_of ctx = rfc_blocks q rfc_init M → bytes ctx = u64 (Z.of_nat (length (M ++ data))) →
  absorbed (update_rest ctx data) (M ++ data).
Proof.
  intros HM Hb Hr Hby. unfold update_rest. destruct (Nat.leb_spec 64 (length data)) as [Hl|Hl].
  - set (n := (length data / 64)%nat).
    replace (length data - length data mod 64)%nat with (64 * n)%nat by (unfold n; nlia).
    assert (0 < n ∧ 64 * n ≤ length data ∧ length data mod 64 = length data - 64 * n)%nat as (Hn & Hn' & E)
      by (unfold n; nlia).
    destruct (ngx_md5_body_blocks ctx data n Hn) as (ctx' & -> & E1 & E2 & E3);
      [rewrite Hr; apply rfc_blocks_ok, rfc_init_ok|].
    rewrite take_ge by (rewrite length_drop; lia). rewrite <- (take_drop (64 * n) data) at 2.
    assert (length (take (64 * n) data) = 64 * n)%nat as Ht by (rewrite length_take; lia).
    rewrite app_assoc. apply (absorbed_intro _ (q + n)).
    + rewrite length_app. lia.
    + rewrite length_drop. unfold n in *. nlia.
    + rewrite set_buffer_bytes, E1, Hby, <- app_assoc, take_drop. done.
    + apply (set_buffer_holding _ _ []); [|done|rewrite length_drop; unfold n in *; nlia].
      apply holding_nil; [|congruence]. rewrite rfc_blocks_app, E3, Hr by done.
      rewrite <- (take_drop (64 * n) data) at 1. apply rfc_blocks_prefix. lia.
  - rewrite take_ge by done. apply (absorbed_intro _ q); [done..|].
    apply (set_buffer_holding _ _ []); [by apply holding_nil|done|lia].
Qed.

Lemma absorbed_update ctx M data : absorbed ctx M → absorbed (ngx_md5_update ctx data) (M ++ data).
Proof.
  intros Ha. pose proof Ha as [Hby _]. destruct (absorbed_inv _ _ Ha) as (q & B & t & -> & HB & Ht & Hm & Hh).
  unfold ngx_md5_update. rewrite Hby, used_mod, <- Hm.
  replace (u64 (u64 (Z.of_nat (length (B ++ t))) + Z.of_nat (length data)))
    with (u64 (Z.of_nat (length ((B ++ t) ++ data)))) by (rewrite (length_app (B ++ t)); unfold u64; nlia).
  set (c := mk_md5 _ _ _ _ _ _).
  assert (holding c (rfc_blocks q rfc_init B) t) as Hc by exact Hh.
  assert (bytes c = u64 (Z.of_nat (length ((B ++ t) ++ data)))) as Hcb by done. clearbody c. clear ctx Ha Hby Hh.
  destruct (Nat.eqb_spec (length t) 0) as [E|E].
  { destruct t; [|done]. rewrite app_nil_r in *. by apply (update_rest_ok _ q); [|apply Hc..|]. }
  destruct (Nat.ltb_spec (length data) (64 - length t)) as [Hs|Hs].
  - rewrite <- app_assoc in *. apply (absorbed_intro _ q); [done|rewrite length_app; lia|done|].
    apply set_buffer_holding; [done..|lia].
  - set (free := (64 - length t)%nat) in *.
    assert (length (take free data) = free) as Hf by (rewrite length_take; lia).
    assert (holding (set_buffer c (length t) (take free data)) (rfc_blocks q rfc_init B) (t ++ take free data)) as Hfull
      by (apply set_buffer_holding; [done..|lia]).
    destruct (full_body _ _ _ Hfull) as (E1 & E2 & E3);
      [rewrite length_app; lia|apply rfc_blocks_ok, rfc_init_ok|].
    assert ((B ++ t) ++ data = (B ++ t ++ take free data) ++ drop free data) as Em
      by (by rewrite <- !app_assoc, take_drop). rewrite Em in Hcb |- *.
    set (c2 := fst _) in *. clearbody c2.
    apply (update_rest_ok _ (S q)); [rewrite !length_app; lia|exact E2| |rewrite E1; exact Hcb].
    rewrite E3. apply rfc_blocks_snoc; [done|rewrite length_app; lia].
Qed.

Lemma absorbed_fold pieces ctx M : absorbed ctx M →
  absorbed (fold_left ngx_md5_update pieces ctx) (M ++ concat pieces).
Proof.
  revert ctx M. induction pieces as [|p l IH]; intros ctx M Ha; cbn.
  - by rewrite app_nil_r.
  - rewrite app_assoc. by apply IH, absorbed_update.
Qed.

(** ** The digest *)

Definition digest (r : regs) : list Z :=
  let '(a, b, c, d) := r in le_bytes 4 a ++ le_bytes 4 b ++ le_bytes 4 c ++ le_bytes 4 d.

Lemma length_le_bytes n x : length (le_bytes n x) = n.
Proof. unfold le_bytes. by rewrite length_fmap, length_seq. Qed.

Lemma digest_of ctx r : regs_of ctx = r →
  le_bytes 4 (a ctx) ++ le_bytes 4 (b ctx) ++ le_bytes 4 (c ctx) ++ le_bytes 4 (d ctx) = digest r.
Proof. by intros <-. Qed.

(** The last block. *)
Lemma last_block ctx r t x : holding ctx r t → ok r → (length t ≤ 56)%nat →
  let ctx := set_buffer ctx (length t) (replicate (64 - length t - 8) 0) in
  let ctx := set_buffer ctx 56 (le_bytes 8 x) in
  let ctx := fst (ngx_md5_body ctx (buffer ctx) 64) in
  regs_of ctx = rfc_block r (t ++ replicate (56 - length t) 0 ++ le_bytes 8 x).
Proof.
  intros Hh Hr Ht. cbv zeta. replace (64 - length t - 8)%nat with (56 - length t)%nat by lia.
  rewrite app_assoc. apply full_body; [|rewrite !length_app, length_replicate, length_le_bytes; lia|done].
  apply set_buffer_holding; [|rewrite length_app, length_replicate; lia|rewrite length_le_bytes; lia].
  apply set_buffer_holding; [done..|rewrite length_replicate; lia].
Qed.

Lemma bits_of (n : nat) : u64 (Z.shiftl (u64 (Z.of_nat n)) 3) = u64 (8 * Z.of_nat n).
Proof. rewrite Z.shiftl_mul_pow2 by lia. unfold u64. change (2 ^ 3) with 8. nlia. Qed.

Lemma md5_pad M q P : rfc_pad M = P → length P = (64 * q)%nat → md5 M = digest (rfc_blocks q rfc_init P).
Proof.
  intros E HP. unfold md5. rewrite E, HP, (Nat.mul_comm 64), Nat.div_mul by done. done.
Qed.

Lemma absorbed_final ctx M : absorbed ctx M → ngx_md5_final ctx = md5 M.
Proof.
  intros Ha. pose proof Ha as [Hby _]. destruct (absorbed_inv _ _ Ha) as (q & B & t & -> & HB & Ht & Hm & Hh).
  unfold ngx_md5_final. rewrite Hby, used_mod, <- Hm. set (x := u64 (8 * Z.of_nat (length (B ++ t)))).
  assert (holding (set_buffer ctx (length t) [0x80]) (rfc_blocks q rfc_init B) (t ++ [0x80])) as H1
    by (apply set_buffer_holding; [done..|cbn; lia]).
  assert (ok (rfc_blocks q rfc_init B)) as Hok by apply rfc_blocks_ok, rfc_init_ok.
  assert (length (t ++ [0x80]) = S (length t)) as El by (rewrite length_app; cbn; lia).
  destruct (Nat.ltb_spec (64 - S (length t)) 8) as [Hf|Hf]; cbv zeta.
  - assert (holding (set_buffer (set_buffer ctx (length t) [0x80]) (S (length t)) (replicate (64 - S (length t)) 0))
      (rfc_blocks q rfc_init B) ((t ++ [0x80]) ++ replicate (64 - S (length t)) 0)) as H2
      by (apply set_buffer_holding; [done..|rewrite length_replicate; lia]).
    assert (length ((t ++ [0x80]) ++ replicate (64 - S (length t)) 0) = 64%nat) as El2
      by (rewrite length_app, length_replicate; lia).
    destruct (full_body _ _ _ H2 El2 Hok) as (F1 & F2 & F3). set (c2 := fst _) in *.
    rewrite !set_buffer_bytes, F1, !set_buffer_bytes, Hby, bits_of. fold x.
    assert (ok (regs_of c2)) as Hok2 by (rewrite F3; by apply transform_ok).
    erewrite digest_of; [|exact (last_block c2 (regs_of c2) [] x (holding_nil _ _ eq_refl F2) Hok2 ltac:(cbn; lia))].
    rewrite F3. rewrite rfc_blocks_snoc by done. rewrite rfc_blocks_snoc;
      [|rewrite length_app; lia|rewrite !length_app, length_replicate, length_le_bytes; done].
    symmetry. apply md5_pad; [|rewrite !length_app, !length_replicate, length_le_bytes; cbn; lia].
    unfold rfc_pad. fold x. rewrite <- !app_assoc. do 3 f_equal. cbn [app length]. rewrite app_assoc.
    rewrite <- replicate_add. do 2 f_equal. rewrite length_app, HB. nlia.
  - rewrite !set_buffer_bytes, Hby, bits_of. fold x. rewrite <- El.
    erewrite digest_of; [|exact (last_block _ _ _ x H1 Hok ltac:(lia))].
    rewrite rfc_blocks_snoc; [|done|rewrite !length_app, length_replicate, length_le_bytes; cbn; lia].
    symmetry. apply md5_pad; [|rewrite !length_app, !length_replicate, length_le_bytes; cbn; lia].
    unfold rfc_pad. fold x. rewrite <- !app_assoc. do 3 f_equal. cbn [app]. do 3 f_equal.
    rewrite !length_app, HB. cbn. nlia.
Qed.

(** C13: The digest that ngx_md5_final() gives for a text that was passed to
    ngx_md5_update() in any number of pieces, of any lengths, is the MD5 of RFC
    1321 of the whole text, whatever was in the buffer of the context. *)
Theorem md5_correct buffer0 pieces : length buffer0 = 64%nat →
  ngx_md5_final (fold_left ngx_md5_update pieces (ngx_md5_init buffer0)) = md5 (concat pieces).
Proof. intros Hb. apply absorbed_final. apply (absorbed_fold _ _ []). by apply absorbed_init. Qed.

Lemma md5_correct_witness :
  ngx_md5_final (fold_left ngx_md5_update [[97]; [98; 99]] (ngx_md5_init (replicate 64 7))) =
    [0x90; 0x01; 0x50; 0x98; 0x3c; 0xd2; 0x4f; 0xb0; 0xd6; 0x96; 0x3f; 0x7d; 0x28; 0xe1; 0x7f; 0x72].
Proof.
  rewrite (md5_correct (replicate 64 7) [[97]; [98; 99]]) by reflexivity. vm_compute. reflexivity.
Defined.
End Md5.
