(* ===== verification/LimitReq.v ===== *)
(** * Request limiting

    src/http/modules/ngx_http_limit_req_module.c.  A zone of shared memory holds
    the clients in a red-black tree, by the CRC-32 of their key, and in a queue,
    the last one used first.  A client that was not seen for a minute is
    forgotten when another one comes, or the oldest one is when there is no room.

    The allocator of the zone is the interface [SlabPool]; [garbage] is what is in
    memory that was just allocated.  A queue is the list of the
    nodes in it. *)

From stdpp Require Import gmap sorting relations.
From S2P Require Import Prelude Rbtree RbtreeRep RbtreeInsert RbtreeDelete StringOps Number Checksum.
Import Rbtree.Rbtree RbtreeRep.RbtreeRep RbtreeInsert.RbtreeInsert RbtreeDelete.RbtreeDelete.
Import StringOps.StringOps Checksum.Checksum.
Open Scope Z_scope.

Module LimitReq.

Abbreviation NGX_BUSY := (-3).
Abbreviation NGX_HTTP_SERVICE_UNAVAILABLE := 503.
Abbreviation NGX_HTTP_INTERNAL_SERVER_ERROR := 500.

(** ** The allocator of the zone *)

Class SlabPool (P : Type) := {
  ngx_slab_alloc_locked : P → Z → option Z * P;
  ngx_slab_free_locked : P → Z → P;
  allocated : P → gset Z;
  alloc_new p size a p' : ngx_slab_alloc_locked p size = (Some a, p') →
    a ∉ allocated p ∧ allocated p' = {[a]} ∪ allocated p;
  alloc_none p size p' : ngx_slab_alloc_locked p size = (None, p') → allocated p' = allocated p;
  free_old p a : a ∈ allocated p → allocated (ngx_slab_free_locked p a) = allocated p ∖ {[a]};
}.

(** ** Data *)

(** [ngx_http_limit_req_node_t], without its [queue]; [color] is in the node of
    the tree. *)
Record ngx_http_limit_req_node_t := mk_lr {
  len : Z;
  last : Z;
  excess : Z;
  count : Z;
  data : list Z;
}.

#[export] Instance eta_lr : Eta ngx_http_limit_req_node_t := λ r,
  mk_lr (len r) (last r) (excess r) (count r) (data r).

(** [offsetof(ngx_rbtree_node_t, color) + offsetof(ngx_http_limit_req_node_t, data)] *)
Definition node_size : Z := 32 + 48.

(** [ngx_http_limit_req_ctx_t]; [node] is in the state of the process. *)
Record ngx_http_limit_req_ctx_t := mk_ctx { rate : Z; index : Z }.

(** [ngx_http_limit_req_limit_t]; a zone has a number. *)
Record ngx_http_limit_req_limit_t := mk_limit { shm_zone : nat; burst : Z; nodelay : bool }.

Definition ngx_abs (x : Z) : Z := if 0 <=? x then x else s64 (- x).

(** The address of the sentinel, and what is in the memory at an address when it
    is allocated. *)
Class ZoneMemory (P : Type) := {
  sentinel : Z;
  garbage : P → Z → node * ngx_http_limit_req_node_t;
}.

Section Zone.
Context {P : Type} `{!SlabPool P, !ZoneMemory P}.

(** [ngx_http_limit_req_shctx_t], and the memory of the zone. *)
Record ngx_http_limit_req_shctx_t := mk_shctx {
  rbtree : store;
  lrs : gmap Z ngx_http_limit_req_node_t;
  queue : list Z;
  shpool : P;
}.

#[export] Instance eta_shctx : Eta ngx_http_limit_req_shctx_t := λ s,
  mk_shctx (rbtree s) (lrs s) (queue s) (shpool s).

Definition T (A : Type) : Type := ngx_http_limit_req_shctx_t → option (A * ngx_http_limit_req_shctx_t).

#[export] Instance T_ret : MRet T := λ A x s, Some (x, s).
#[export] Instance T_bind : MBind T := λ A B f m s,
  match m s with Some (x, s') => f x s' | None => None end.

Definition on_tree {A} (m : M A) : T A := λ s,
  '(x, t) ← m (rbtree s); Some (x, s <| rbtree := t |>).
Definition lift {A} (o : option A) : T A := λ s, x ← o; Some (x, s).
Definition get_lr (a : Z) : T ngx_http_limit_req_node_t := λ s, r ← lrs s !! a; Some (r, s).
Definition update_lr (f : ngx_http_limit_req_node_t → ngx_http_limit_req_node_t) (a : Z) : T unit := λ s,
  r ← lrs s !! a; Some (tt, s <| lrs := <[a := f r]> (lrs s) |>).
Definition get_queue : T (list Z) := λ s, Some (queue s, s).
Definition ngx_queue_init : T unit := λ s, Some (tt, s <| queue := [] |>).
Definition ngx_queue_remove (a : Z) : T unit := λ s,
  Some (tt, s <| queue := filter (λ x, x ≠ a) (queue s) |>).
Definition ngx_queue_insert_head (a : Z) : T unit := λ s, Some (tt, s <| queue := a :: queue s |>).

(** The memory of a node comes and goes with its allocation. *)
Definition slab_alloc (size : Z) : T (option Z) := λ s,
  let '(r, p) := ngx_slab_alloc_locked (shpool s) size in
  match r with
  | None => Some (None, s <| shpool := p |>)
  | Some a =>
      let '(n, r) := garbage (shpool s) a in
      Some (Some a, mk_shctx (mk_store (<[a := n]> (mem (rbtree s))) (root (rbtree s))) (<[a := r]> (lrs s))
        (queue s) p)
  end.

Definition slab_free (a : Z) : T unit := λ s,
  _ ← lrs s !! a;
  Some (tt, mk_shctx (mk_store (delete a (mem (rbtree s))) (root (rbtree s))) (delete a (lrs s))
    (queue s) (ngx_slab_free_locked (shpool s) a)).

(** ** ngx_http_limit_req_rbtree_insert_value *)

Definition node_before (L : gmap Z ngx_http_limit_req_node_t) (node temp : Z) : option bool :=
  lrn ← L !! node; lrnt ← L !! temp;
  c ← ngx_memn2cmp (data lrn) (data lrnt) (Z.to_nat (len lrn)) (Z.to_nat (len lrnt));
  Some (c <? 0).

Fixpoint insert_value_loop (L : gmap Z ngx_http_limit_req_node_t) (fuel : nat) (temp node : Z) : M (Z * bool) :=
  match fuel with
  | O => stuck
  | S fuel =>
      nk ← node @ key;
      tk ← temp @ key;
      go_left ← (if nk <? tk then mret true
                 else if tk <? nk then mret false
                 else λ s, b ← node_before L node temp; Some (b, s));
      p ← (if (go_left : bool) then temp @ left else temp @ right);
      if p =? sentinel then mret (temp, go_left) else insert_value_loop L fuel p node
  end.

Definition ngx_http_limit_req_rbtree_insert_value (L : gmap Z ngx_http_limit_req_node_t) (temp node : Z) : M unit :=
  λ s, ('(temp, go_left) ← insert_value_loop L (fuel_of s) temp node; attach sentinel temp go_left node) s.

(** ** ngx_http_limit_req_expire *)

(** The excess when [ms] milliseconds have passed. *)
Definition leak (rate ms : Z) (lr : ngx_http_limit_req_node_t) : Z :=
  excess lr - u64 (rate * u64 ms) / 1000.

(** The body of the loop; [force] is [n == 0], and [next] what follows. *)
Definition expire_one (rate now : Z) (force : bool) (next : T unit) : T unit :=
  q ← get_queue;
  match list.last q with
  | None => mret tt
  | Some node =>
      lr ← get_lr node;
      if negb (count lr =? 0) then mret tt
      else
        let ms := ngx_abs (s64 (u64 (now - last lr))) in
        let excess := s64 (u64 (leak rate ms lr)) in
        if negb force && ((ms <? 60000) || (0 <? excess)) then mret tt
        else
          ngx_queue_remove node;;
          on_tree (ngx_rbtree_delete sentinel node);;
          slab_free node;;
          next
  end.

(** [n] is less than 3, so there are three turns at most. *)
Fixpoint expire_loop (fuel : nat) (rate now : Z) (n : Z) : T unit :=
  match fuel with
  | O => mret tt
  | S fuel =>
      if n <? 3 then expire_one rate now (n =? 0) (expire_loop fuel rate now (n + 1)) else mret tt
  end.

Definition ngx_http_limit_req_expire (rate now n : Z) : T unit := expire_loop 3 rate now n.

(** ** ngx_http_limit_req_lookup *)

(** The excess with one more request. *)
Definition charge (rate now : Z) (lr : ngx_http_limit_req_node_t) : Z :=
  let ms := s64 (u64 (now - last lr)) in
  let excess := s64 (u64 (leak rate (ngx_abs ms) lr + 1000)) in
  if excess <? 0 then 0 else excess.

Fixpoint find_loop (hash : Z) (key_ : list Z) (fuel : nat) (node : Z) : T (option Z) :=
  match fuel with
  | O => λ _, None
  | S fuel =>
      if node =? sentinel then mret None
      else
        k ← on_tree (node @ key);
        if hash <? k then node ← on_tree (node @ left); find_loop hash key_ fuel node
        else if k <? hash then node ← on_tree (node @ right); find_loop hash key_ fuel node
        else
          lr ← get_lr node;
          rc ← lift (ngx_memn2cmp key_ (data lr) (length key_) (Z.to_nat (len lr)));
          if rc =? 0 then mret (Some node)
          else
            node ← (if rc <? 0 then on_tree (node @ left) else on_tree (node @ right));
            find_loop hash key_ fuel node
  end.

(** A client that was found: the return code, [*ep] and the new [ctx->node]. *)
Definition bump (rate burst now : Z) (account : bool) (node : Z) : T (Z * Z * option Z) :=
  ngx_queue_remove node;;
  ngx_queue_insert_head node;;
  lr ← get_lr node;
  let ep := charge rate now lr in
  if burst <? u64 ep then mret (NGX_BUSY, ep, None)
  else if account then
    update_lr (λ lr, lr <| excess := ep |> <| last := now |>) node;;
    mret (NGX_OK, ep, None)
  else
    update_lr (λ lr, lr <| count := u64 (count lr + 1) |>) node;;
    mret (NGX_AGAIN, ep, Some node).

(** A new one. *)
Definition add_node (now hash : Z) (key_ : list Z) (account : bool) (node : Z) : T (Z * Z * option Z) :=
  on_tree (node @ key := hash);;
  (λ s, on_tree (ngx_rbtree_insert sentinel (ngx_http_limit_req_rbtree_insert_value (lrs s)) node) s);;
  ngx_queue_insert_head node;;
  update_lr (λ lr, lr <| len := u8 (Z.of_nat (length key_)) |> <| excess := 0 |> <| data := key_ |>) node;;
  if account then
    update_lr (λ lr, lr <| last := now |> <| count := 0 |>) node;;
    mret (NGX_OK, 0, None)
  else
    update_lr (λ lr, lr <| last := 0 |> <| count := 1 |>) node;;
    mret (NGX_AGAIN, 0, Some node).

Definition ngx_http_limit_req_lookup (rate burst now hash : Z) (key_ : list Z) (account : bool) : T (Z * Z * option Z) :=
  r ← on_tree get_root;
  found ← (λ s, find_loop hash key_ (fuel_of (rbtree s)) r s);
  match found with
  | Some node => bump rate burst now account node
  | None =>
      let size := node_size + Z.of_nat (length key_) in
      ngx_http_limit_req_expire rate now 1;;
      a ← slab_alloc size;
      match a with
      | Some node => add_node now hash key_ account node
      | None =>
          ngx_http_limit_req_expire rate now 0;;
          a ← slab_alloc size;
          match a with
          | Some node => add_node now hash key_ account node
          | None => mret (NGX_ERROR, 0, None)
          end
      end
  end.

(** ** The locked parts of the handler *)

(** [ngx_http_limit_req_account]: the excess of a client that was kept. *)
Definition account_node (rate now : Z) (node : Z) : T Z :=
  lr ← get_lr node;
  let e := charge rate now lr in
  update_lr (λ lr, lr <| last := now |> <| excess := e |> <| count := u64 (count lr - 1) |>) node;;
  mret e.

(** When the request is refused by another limit. *)
Definition release_node (node : Z) : T unit :=
  update_lr (λ lr, lr <| count := u64 (count lr - 1) |>) node.

(** [ngx_http_limit_req_init_zone] of a new zone, after its allocations. *)
Definition init_zone : T unit :=
  on_tree (ngx_rbtree_init sentinel);; ngx_queue_init.
End Zone.

(** ** The handler *)

(** [NGX_DECLINED], [NGX_HTTP_SERVICE_UNAVAILABLE], [NGX_AGAIN] after the timer of
    the request was set, and [NGX_HTTP_INTERNAL_SERVER_ERROR]. *)
Inductive answer := Declined | Unavailable | Delayed (delay : Z) | InternalError.

Section Handler.
Context {P : Type} `{!SlabPool P, !ZoneMemory P}.

(** The zones, and [ctx->node] of those where it is not NULL. *)
Record world := mk_world { zones : gmap nat (@ngx_http_limit_req_shctx_t P); nodes : gmap nat Z }.

#[export] Instance eta_world : Eta world := λ w, mk_world (zones w) (nodes w).

Definition W (A : Type) : Type := world → option (A * world).

#[export] Instance W_ret : MRet W := λ A x w, Some (x, w).
#[export] Instance W_bind : MBind W := λ A B f m w,
  match m w with Some (x, w') => f x w' | None => None end.

Definition on_zone {A} (i : nat) (m : T A) : W A := λ w,
  s ← zones w !! i; '(x, s') ← m s; Some (x, w <| zones := <[i := s']> (zones w) |>).
Definition get_node (i : nat) : W (option Z) := λ w, Some (nodes w !! i, w).
Definition set_node (i : nat) (node : Z) : W unit := λ w, Some (tt, w <| nodes := <[i := node]> (nodes w) |>).
Definition clear_node (i : nat) : W unit := λ w, Some (tt, w <| nodes := delete i (nodes w) |>).

(** Unsigned division; dividing by 0 is undefined. *)
Definition udiv (x y : Z) : W Z := λ w, if y =? 0 then None else Some (u64 x / y, w).

(** [limit->shm_zone->data], the value of a variable, and the time. *)
Context (ctx_of : nat → ngx_http_limit_req_ctx_t) (variable : Z → option (list Z)) (now : Z).

Definition zone_rate (l : ngx_http_limit_req_limit_t) : Z := rate (ctx_of (shm_zone l)).

(** The first loop, from limit [n] on: the last [rc], the limit where it ended
    and the excess; [excess] is an [ngx_uint_t]. *)
Fixpoint lookup_limits (limits : list ngx_http_limit_req_limit_t) (n : nat) (rc excess : Z) : W (Z * nat * Z) :=
  match limits with
  | [] => mret (rc, n, excess)
  | limit :: rest =>
      match variable (index (ctx_of (shm_zone limit))) with
      | None => lookup_limits rest (S n) rc excess
      | Some vv =>
          let len := length vv in
          if (len =? 0)%nat || (65535 <? Z.of_nat len) then lookup_limits rest (S n) rc excess
          else
            let hash := ngx_crc32_short vv in
            let account := match rest with [] => true | _ => false end in
            '(rc, excess, node) ← on_zone (shm_zone limit)
              (ngx_http_limit_req_lookup (zone_rate limit) (burst limit) now hash vv account);
            match node with Some node => set_node (shm_zone limit) node | None => mret tt end;;
            if rc =? NGX_AGAIN then lookup_limits rest (S n) rc excess else mret (rc, n, excess)
      end
  end.

(** [while (n--)], with the first [n] limits from the last to the first. *)
Fixpoint release_limits (limits : list ngx_http_limit_req_limit_t) : W unit :=
  match limits with
  | [] => mret tt
  | limit :: limits =>
      node ← get_node (shm_zone limit);
      match node with
      | None => mret tt
      | Some node => on_zone (shm_zone limit) (release_node node);; clear_node (shm_zone limit)
      end;;
      release_limits limits
  end.

Fixpoint account_limits (limits : list ngx_http_limit_req_limit_t) (max_delay : Z) : W Z :=
  match limits with
  | [] => mret max_delay
  | limit :: limits =>
      node ← get_node (shm_zone limit);
      match node with
      | None => account_limits limits max_delay
      | Some node =>
          excess ← on_zone (shm_zone limit) (account_node (zone_rate limit) now node);
          clear_node (shm_zone limit);;
          if nodelay limit then account_limits limits max_delay
          else
            delay ← udiv (s64 (excess * 1000)) (zone_rate limit);
            account_limits limits (if max_delay <? delay then delay else max_delay)
      end
  end.

(** [limit] is the one where the first loop ended. *)
Definition ngx_http_limit_req_account (limits : list ngx_http_limit_req_limit_t) (n : nat) (ep : Z)
    (limit : option ngx_http_limit_req_limit_t) : W Z :=
  let excess := s64 ep in
  max_delay ← (if excess =? 0 then mret 0
               else match limit with
                    | None => λ _, None
                    | Some limit => if nodelay limit then mret 0 else udiv (s64 (excess * 1000)) (zone_rate limit)
                    end);
  account_limits (rev (take n limits)) max_delay.

(** The result, and the new [r->main->limit_req_set]; [read_ok] is whether
    [ngx_handle_read_event] succeeds. *)
Definition ngx_http_limit_req_handler (limits : list ngx_http_limit_req_limit_t) (limit_req_set read_ok : bool)
    : W (answer * bool) :=
  if limit_req_set then mret (Declined, true)
  else
    '(rc, n, excess) ← lookup_limits limits 0 NGX_DECLINED 0;
    if rc =? NGX_DECLINED then mret (Declined, false)
    else if (rc =? NGX_BUSY) || (rc =? NGX_ERROR) then
      release_limits (rev (take n limits));;
      mret (Unavailable, true)
    else
      let excess := if rc =? NGX_AGAIN then 0 else excess in
      delay ← ngx_http_limit_req_account limits n excess (limits !! n);
      if delay =? 0 then mret (Declined, true)
      else if negb read_ok then mret (InternalError, true)
      else mret (Delayed delay, true).
End Handler.

(** ** Directives *)

(** [ngx_strncmp(data, word, n) == 0] for a word of [n] characters and a text that
    holds no 0. *)
Definition starts_with (word text : list Z) : bool := bool_decide (take (length word) text = word).

(** What [limit_req_zone] sets: the name and the size of the zone, and its
    context. *)
Record zone_conf := mk_zone_conf { z_name : list Z; z_size : Z; z_rate : Z; z_scale : Z; z_ctx : option (list Z * Z) }.

#[export] Instance eta_zone_conf : Eta zone_conf := λ z,
  mk_zone_conf (z_name z) (z_size z) (z_rate z) (z_scale z) (z_ctx z).

Section Directives.

(** [ngx_http_get_variable_index]; [ngx_shared_memory_add], the number of a
    zone; the contexts of the zones that have one. *)
Context (ngx_pagesize : Z) (get_variable_index : list Z → Z).
Context (shared_memory_add : list Z → Z → option nat).

(** [zone=name:size]; [None] is NGX_CONF_ERROR. *)
Definition zone_argument (value : list Z) (z : zone_conf) : option zone_conf :=
  let text := drop 5 value in
  '(i, _) ← list_find (λ c, c = ":"%ch) text;
  let size := Number.Number.ngx_parse_size (drop (S i) text) in
  if size =? NGX_ERROR then None
  else if size <? 8 * ngx_pagesize then None
  else Some (z <| z_name := take i text |> <| z_size := size |>).

(** [rate=...] *)
Definition rate_argument (value : list Z) (z : zone_conf) : option zone_conf :=
  let p := drop (length value - 3) value in
  let '(scale, cut) := if starts_with (bs "r/s") p then (1, 3%nat)
                       else if starts_with (bs "r/m") p then (60, 3%nat) else (z_scale z, 0%nat) in
  let rate := Number.Number.ngx_atoi (take (length value - cut - 5) (drop 5 value)) in
  if rate <=? NGX_ERROR then None else Some (z <| z_rate := rate |> <| z_scale := scale |>).

(** [$variable] *)
Definition variable_argument (name : list Z) (z : zone_conf) : option zone_conf :=
  let index := get_variable_index name in
  if index =? NGX_ERROR then None else Some (z <| z_ctx := Some (name, index) |>).

Fixpoint zone_arguments (values : list (list Z)) (z : zone_conf) : option zone_conf :=
  match values with
  | [] => Some z
  | value :: values =>
      z ← (if starts_with (bs "zone=") value then zone_argument value z
           else if starts_with (bs "rate=") value then rate_argument value z
           else match value with
                | c :: name => if c =? "$"%ch then variable_argument name z else None
                | [] => None
                end);
      zone_arguments values z
  end.

(** The zone and its context. *)
Definition ngx_http_limit_req_zone (values : list (list Z)) (data : nat → option ngx_http_limit_req_ctx_t)
    : option (nat * ngx_http_limit_req_ctx_t) :=
  z ← zone_arguments values (mk_zone_conf [] 0 1 1 None);
  if (length (z_name z) =? 0)%nat then None
  else
    '(_, index) ← z_ctx z;
    let ctx := mk_ctx (u64 (Z.quot (s64 (z_rate z * 1000)) (z_scale z))) index in
    zone ← shared_memory_add (z_name z) (z_size z);
    match data zone with Some _ => None | None => Some (zone, ctx) end.

(** The arguments of [limit_req]. *)
Fixpoint limit_arguments (values : list (list Z)) (zone : option nat) (burst : Z) (nodelay : bool)
    : option (option nat * Z * bool) :=
  match values with
  | [] => Some (zone, burst, nodelay)
  | value :: values =>
      if starts_with (bs "zone=") value then
        match shared_memory_add (drop 5 value) 0 with
        | None => None
        | Some zone => limit_arguments values (Some zone) burst nodelay
        end
      else if starts_with (bs "burst=") value then
        let burst := Number.Number.ngx_atoi (drop 6 value) in
        if burst <=? 0 then None else limit_arguments values zone burst nodelay
      else if starts_with (bs "nodelay") value then limit_arguments values zone burst true
      else None
  end.

(** The limits of the location with the new one; [None] is an error, also when
    the zone is there already. *)
Definition ngx_http_limit_req (values : list (list Z)) (data : nat → option ngx_http_limit_req_ctx_t)
    (limits : list ngx_http_limit_req_limit_t) : option (list ngx_http_limit_req_limit_t) :=
  '(zone, burst, nodelay) ← limit_arguments values None 0 false;
  zone ← zone;
  _ ← data zone;
  if existsb (λ l, (shm_zone l =? zone)%nat) limits then None
  else Some (limits ++ [mk_limit zone (u64 (s64 (burst * 1000))) nodelay]).
End Directives.

(** [ngx_http_limit_req_conf_t] without the limits, and its merging; -1 is
    [NGX_CONF_UNSET_UINT]. *)
Definition merge_levels (prev conf : Z) : Z * Z :=
  let limit_log_level := if conf =? -1 then (if prev =? -1 then 4 else prev) else conf in
  (limit_log_level, if limit_log_level =? 7 then 7 else limit_log_level + 1).
End LimitReq.
