(* ===== verification/LimitReqZone.v ===== *)
(** * The zones of request limiting

    What LimitReq.v does with the tree, the queue and the memory of a zone is what
    the list of the clients, the last one used first, promises. *)

From stdpp Require Import gmap sorting relations.
From S2P Require Import Prelude Rbtree RbtreeRep RbtreeInsert RbtreeDelete StringOps LocationOrder Checksum LimitReq.
Import Rbtree.Rbtree RbtreeRep.RbtreeRep RbtreeInsert.RbtreeInsert RbtreeDelete.RbtreeDelete.
Import StringOps.StringOps Checksum.Checksum LimitReq.LimitReq.
Module Order := LocationOrder.LocationOrder.
Open Scope Z_scope.

Module LimitReqZone.

Section Zone.
Context {P : Type} `{!SlabPool P, !ZoneMemory P}.

#[local] Abbreviation T := (LimitReq.T (P := P)).
#[local] Abbreviation ngx_http_limit_req_shctx_t := (LimitReq.ngx_http_limit_req_shctx_t (P := P)).

(** ** Running the code *)

Lemma t_bind {A B} (m : T A) (f : A → T B) s x s' : m s = Some (x, s') → (m ≫= f) s = f x s'.
Proof. unfold mbind, T_bind. by intros ->. Qed.

Lemma run_tree {A B} (m : M A) (f : A → T B) s x t : m (rbtree s) = Some (x, t) →
  (on_tree m ≫= f) s = f x (s <| rbtree := t |>).
Proof. intros H. apply t_bind. unfold on_tree. by rewrite H. Qed.

Lemma run_read {A B} (g : node → A) a (f : A → T B) s n : mem (rbtree s) !! a = Some n →
  (on_tree (a @ g) ≫= f) s = f (g n) s.
Proof. intros H. apply t_bind. unfold on_tree, get. rewrite H. by destruct s. Qed.

Lemma run_lr {B} a (f : _ → T B) s r : lrs s !! a = Some r → (get_lr a ≫= f) s = f r s.
Proof. intros H. apply t_bind. unfold get_lr. by rewrite H. Qed.

Lemma t_update {B} g a (f : unit → T B) s r : lrs s !! a = Some r →
  (update_lr g a ≫= f) s = f tt (s <| lrs := <[a := g r]> (lrs s) |>).
Proof. intros H. apply t_bind. unfold update_lr. by rewrite H. Qed.

(** ** Clients

    What a zone remembers of a client. *)
Record client := mk_client { c_key : list Z; c_last : Z; c_excess : Z; c_count : Z }.

#[export] Instance eta_client : Eta client := λ c,
  mk_client (c_key c) (c_last c) (c_excess c) (c_count c).

Definition lr_of (c : client) : ngx_http_limit_req_node_t :=
  mk_lr (Z.of_nat (length (c_key c))) (c_last c) (c_excess c) (c_count c) (c_key c).

Definition hash_of (c : client) : Z := ngx_crc32_short (c_key c).

(** *** The order of the nodes

    By the checksum, and those of one checksum by their keys. *)
Definition memn2cmp_key (a b : list Z) : Z :=
  match ngx_memn2cmp a b (length a) (length b) with Some c => c | None => 0 end.

Lemma memn2cmp_spec a b : ngx_memn2cmp a b (length a) (length b) = Some (memn2cmp_key a b) ∧
  Order.strcmp_result a b (memn2cmp_key a b).
Proof.
  assert (∃ c, ngx_memn2cmp a b (length a) (length b) = Some c ∧ Order.strcmp_result a b c) as (c & E & Hc);
    [|unfold memn2cmp_key; by rewrite E].
  unfold ngx_memn2cmp. destruct (Order.compare a b) as [->|H|H|H|H].
  - exists 0. rewrite Nat.leb_refl, Nat.eqb_refl. pose proof (Order.memcmp_prefix b [] []) as E. rewrite app_nil_r in E.
    rewrite E. split; [done|]. by apply Order.strcmp_eq.
  - destruct (Order.memcmp_differs a b H) as (rc & Hrc & E & _). exists rc.
    assert (negb (rc =? 0) = true) as Hn by (by apply negb_true_iff, Z.eqb_neq; lia).
    split; [|apply Order.strcmp_lt; [by left|done]].
    destruct (Nat.leb_spec (length a) (length b)); cbv beta iota zeta;
      [rewrite Nat.min_l in E by lia|rewrite Nat.min_r in E by lia]; rewrite E; cbn [mbind option_bind]; by rewrite Hn.
  - destruct (Order.memcmp_differs b a H) as (rc & Hrc & _ & E). exists (- rc).
    assert (negb (- rc =? 0) = true) as Hn by (by apply negb_true_iff, Z.eqb_neq; lia).
    split; [|apply Order.strcmp_gt; [by left|lia]].
    destruct (Nat.leb_spec (length a) (length b)); cbv beta iota zeta;
      [rewrite Nat.min_r in E by lia|rewrite Nat.min_l in E by lia]; rewrite E; cbn [mbind option_bind]; by rewrite Hn.
  - exists (-1). split; [|apply Order.strcmp_lt; [by right|done]]. destruct H as (c & x & ->).
    rewrite length_app. cbn [length]. rewrite (proj2 (Nat.leb_le _ _)) by lia.
    pose proof (Order.memcmp_prefix a (c :: x) []) as E. rewrite app_nil_r in E. rewrite E. cbn [mbind option_bind].
    by rewrite (proj2 (Nat.eqb_neq _ _)) by lia.
  - exists 1. split; [|apply Order.strcmp_gt; [by right|done]]. destruct H as (c & x & ->).
    rewrite length_app. cbn [length]. rewrite (proj2 (Nat.leb_gt _ _)) by lia.
    pose proof (Order.memcmp_prefix b [] (c :: x)) as E. rewrite app_nil_r in E. rewrite E. cbn [mbind option_bind].
    by rewrite (proj2 (Nat.eqb_neq _ _)) by lia.
Qed.

(** [node_before] when the data of a node is [D] of its address. *)
Definition key_before (D : Z → list Z) (x y : Z * Z) : bool :=
  (x.2 <? y.2) || (x.2 =? y.2) && (memn2cmp_key (D x.1) (D y.1) <? 0).

Lemma key_before_spec D x y : reflect (x.2 < y.2 ∨ x.2 = y.2 ∧ Order.lt (D x.1) (D y.1)) (key_before D x y).
Proof.
  apply iff_reflect. unfold key_before. rewrite orb_true_iff, andb_true_iff, Z.ltb_lt, Z.eqb_eq, Z.ltb_lt.
  destruct (memn2cmp_spec (D x.1) (D y.1)) as [_ Hc].
  assert (Order.lt (D x.1) (D y.1) ↔ memn2cmp_key (D x.1) (D y.1) < 0) as ->; [|done].
  split; [|by destruct Hc; intros; try lia].
  intros H. destruct Hc as [E|_|H' _]; [|done|].
  - rewrite E in H. by apply Order.lt_irrefl in H.
  - by apply Order.lt_asym in H.
Qed.

Lemma not_key_before D x y : key_before D x y = false ↔
  y.2 < x.2 ∨ x.2 = y.2 ∧ (D x.1 = D y.1 ∨ Order.lt (D y.1) (D x.1)).
Proof.
  destruct (key_before_spec D x y) as [H|H]; (split; [intros E|intros E]); try done.
  - exfalso. destruct H as [H|[H1 H2]], E as [E|[E1 [E2|E2]]]; try lia.
    + rewrite E2 in H2. by apply Order.lt_irrefl in H2.
    + by apply Order.lt_asym in H2.
  - destruct (Z.lt_trichotomy x.2 y.2) as [Hl|[Hl|Hl]]; [exfalso; auto| |by left].
    right. split; [done|]. destruct (memn2cmp_spec (D x.1) (D y.1)) as [_ [?|?|?]]; auto. exfalso. auto.
Qed.

Lemma key_transitive D E : transitive_in (key_before D) E.
Proof.
  intros x y z _ _ _. rewrite !not_key_before.
  intros [H1|[H1 H1']] [H2|[H2 H2']]; [left; lia..|right]. split; [lia|].
  destruct H1' as [E1|H1'], H2' as [E2|H2']; [left; congruence|right..].
  - by rewrite <- E1.
  - by rewrite E2.
  - by eapply Order.lt_trans.
Qed.

Lemma key_asym D x y : key_before D x y = true → key_before D y x = false.
Proof.
  destruct (key_before_spec D x y) as [H|]; [|done]. intros _. apply not_key_before.
  destruct H as [H|[H1 H2]]; [by left|right; split; [done|by right]].
Qed.

(** The order depends on the data of the nodes only. *)
Lemma sorted_ext D D' l : (∀ x, x ∈ l → D x.1 = D' x.1) → sorted_by (key_before D) l → sorted_by (key_before D') l.
Proof.
  intros HD. induction 1 as [|x l Hs IH Hx]; [constructor|]. constructor; [apply IH; intros; apply HD; by right|].
  rewrite list.Forall_forall in *. intros y Hy. specialize (Hx y Hy). unfold key_before in *.
  rewrite (HD x), (HD y) in Hx by (by left || by right). done.
Qed.

Lemma sorted_by_key D l : sorted_by (key_before D) l → ordered value_before l.
Proof.
  induction 1 as [|x l Hs IH Hx]; [constructor|]. constructor; [done|].
  rewrite list.Forall_forall in *. intros y Hy. specialize (Hx y Hy). apply not_key_before in Hx.
  unfold value_before. destruct Hx as [|[]]; lia.
Qed.

Definition data_of (L : gmap Z ngx_http_limit_req_node_t) (a : Z) : list Z :=
  match L !! a with Some r => data r | None => [] end.

(** ** The zone

    The keys that are used are not longer than 255 bytes. *)
Class Keys (K : list Z → Prop) : Prop := keys_short k : K k → (length k ≤ 255)%nat.

Context (K : list Z → Prop) `{!Keys K}.

(** The zone holds the clients [z], each at its address, the last one used
    first. *)
Record zone (s : ngx_http_limit_req_shctx_t) (z : list (Z * client)) : Prop := {
  zone_tree : ∃ l, RbtreeInsert.rbtree sentinel (rbtree s) l ∧ sorted_by (key_before (data_of (lrs s))) l ∧
    l ≡ₚ (λ e, (e.1, hash_of e.2)) <$> z;
  zone_queue : queue s = z.*1;
  zone_lrs : ∀ a c, (a, c) ∈ z → lrs s !! a = Some (lr_of c);
  zone_keys : NoDup (c_key <$> z.*2);
  zone_used : ∀ a c, (a, c) ∈ z → K (c_key c);
  zone_allocated : {[sentinel]} ∪ list_to_set z.*1 ⊆ allocated (shpool s);
}.

Lemma zone_nodup s z : zone s z → NoDup (sentinel :: z.*1).
Proof.
  intros [(l & Hl & _ & Hp) _ _ _ _ _]. apply rbtree_nodup in Hl. rewrite Hp in Hl.
  by rewrite <- list_fmap_compose in Hl.
Qed.

(** *** Changes *)
Lemma rbtree_frame s s' l : RbtreeInsert.rbtree sentinel s l → root s' = root s →
  (∀ a, a ∈ sentinel :: l.*1 → mem s' !! a = mem s !! a) → RbtreeInsert.rbtree sentinel s' l.
Proof.
  intros (sn & T & m & [[gp Hrep] Hr Hd Hs Hb Hw Ho] & Hrb & <-) Er Em.
  exists sn, T, m. split; [|done]. split.
  - exists gp. eapply rep_frame; [|exact Hrep]. intros a Ha. apply Em. by right.
  - by rewrite Er.
  - done.
  - rewrite Em; [done|by left].
  - done.
  - done.
  - done.
Qed.

(** The queue is put into another order. *)
Lemma zone_permute s z z' : zone s z → z' ≡ₚ z → zone (s <| queue := z'.*1 |>) z'.
Proof.
  intros [(l & Hl & Ho & Hp) Hq Hr Hk Hu Ha] E. split; cbn.
  - exists l. by rewrite E.
  - done.
  - intros a c. rewrite E. apply Hr.
  - by rewrite E.
  - intros a c. rewrite E. apply Hu.
  - by rewrite E.
Qed.

(** A client's data change. *)
Lemma zone_update s z a c c' : zone s ((a, c) :: z) → c_key c' = c_key c →
  zone (s <| lrs := <[a := lr_of c']> (lrs s) |>) ((a, c') :: z).
Proof.
  intros Hz E. pose proof (zone_nodup _ _ Hz) as Hn. destruct Hz as [(l & Hl & Ho & Hp) Hq Hr Hk Hu Ha].
  split; cbn in *.
  - exists l. split; [done|]. split; [|unfold hash_of in *; by rewrite E].
    eapply sorted_ext; [|exact Ho]. intros x _. unfold data_of. destruct (decide (a = x.1)) as [<-|Hne].
    + rewrite lookup_insert_eq, (Hr a c) by (by left). by cbn.
    + by rewrite lookup_insert_ne.
  - done.
  - intros b d [[= -> ->]|Hin]%elem_of_cons; [by rewrite lookup_insert_eq|].
    rewrite lookup_insert_ne; [apply Hr; by right|]. intros <-.
    apply list.NoDup_cons in Hn as [_ Hn]. apply list.NoDup_cons in Hn as [Hn _].
    apply Hn. apply (list_elem_of_fmap_2 fst) in Hin. exact Hin.
  - by rewrite E.
  - intros b d [[= -> ->]|Hin]%elem_of_cons; [|apply (Hu b); by right]. rewrite E. apply (Hu a). by left.
  - done.
Qed.

Lemma filter_out (a : Z) (l : list Z) : a ∉ l → filter (λ x, x ≠ a) l = l.
Proof.
  induction l as [|x l IH]; intros Ha; [done|]. rewrite filter_cons_True by set_solver. f_equal. set_solver.
Qed.

(** What [node_before] needs to know of a node: all its data are there. *)
Definition filled (L : gmap Z ngx_http_limit_req_node_t) (e : Z * Z) : Prop :=
  ∃ r, L !! e.1 = Some r ∧ len r = Z.of_nat (length (data r)).

Lemma filled_data L e : filled L e → ∃ r, L !! e.1 = Some r ∧ data r = data_of L e.1 ∧
  Z.to_nat (len r) = length (data_of L e.1).
Proof. intros (r & E & El). exists r. unfold data_of. rewrite E, El. split; [done|]. split; [done|lia]. Qed.

Lemma zone_filled s z l : zone s z → l ≡ₚ (λ e, (e.1, hash_of e.2)) <$> z → Forall (filled (lrs s)) l.
Proof.
  intros Hz Hp. apply list.Forall_forall. intros x Hx. rewrite Hp in Hx.
  apply list_elem_of_fmap in Hx as ([a c] & -> & Hin). exists (lr_of c). split; [by apply (zone_lrs _ _ Hz)|done].
Qed.

Lemma zone_data s z a c : zone s z → (a, c) ∈ z → data_of (lrs s) a = c_key c.
Proof. intros Hz Hin. unfold data_of. by rewrite (zone_lrs _ _ Hz a c Hin). Qed.

(** *** The tree is searched by the checksum and the key *)
Lemma find_tree (h : Z) (k : list Z) s : ∀ fuel t par, rep sentinel (mem (rbtree s)) par t → sentinel ∉ addrs t →
  sorted_by (key_before (data_of (lrs s))) (elements t) → (length (addrs t) < fuel)%nat →
  Forall (filled (lrs s)) (elements t) →
  ∃ r, find_loop h k fuel (ptr sentinel t) s = Some (r, s) ∧
    match r with
    | Some a => (a, h) ∈ elements t ∧ data_of (lrs s) a = k
    | None => ∀ a, (a, h) ∈ elements t → data_of (lrs s) a ≠ k
    end.
Proof.
  set (D := data_of (lrs s)).
  induction fuel as [|fuel IH]; intros t par Hr Hs Ho Hf Hd; [lia|]. cbn [find_loop].
  destruct t as [|c l a ka r]; cbn [ptr].
  { rewrite Z.eqb_refl. exists None. split; [done|]. by intros a Ha%elem_of_nil. }
  unfold addrs in Hs, Hf. cbn [elements] in *. rewrite fmap_app in Hs, Hf. cbn in Hs, Hf.
  rewrite length_app in Hf. cbn in Hf. apply not_elem_of_app in Hs as [Hsl Hsr].
  apply not_elem_of_cons in Hsr as [Hsa Hsr]. destruct Hr as (Ha & Hrl & Hrr).
  rewrite (proj2 (Z.eqb_neq _ _)) by done.
  apply sorted_app in Ho as (Hol & Hor & Hlr). inversion_clear Hor as [|?? Hor' Hoa].
  rewrite list.Forall_forall in Hoa.
  apply list.Forall_app in Hd as [Hdl Hdr]. apply list.Forall_cons in Hdr as [Hda Hdr].
  rewrite (run_read _ _ _ _ _ Ha). cbn [key cell].
  assert (Hleft : (∀ b, (b, h) ∈ (a, ka) :: elements r → D b ≠ k) → ∃ x, find_loop h k fuel (ptr sentinel l) s = Some (x, s) ∧
    match x with Some b => (b, h) ∈ elements l ++ (a, ka) :: elements r ∧ D b = k
            | None => ∀ b, (b, h) ∈ elements l ++ (a, ka) :: elements r → D b ≠ k end).
  { intros Hno. destruct (IH l a Hrl Hsl Hol ltac:(unfold addrs; lia) Hdl) as (x & E & Hx). exists x. split; [exact E|].
    destruct x as [b|]; [destruct Hx; split; [apply elem_of_app; by left|done]|].
    intros b [Hb|Hb]%elem_of_app; [by apply Hx|by apply Hno]. }
  assert (Hright : (∀ b, (b, h) ∈ elements l ++ [(a, ka)] → D b ≠ k) → ∃ x, find_loop h k fuel (ptr sentinel r) s = Some (x, s) ∧
    match x with Some b => (b, h) ∈ elements l ++ (a, ka) :: elements r ∧ D b = k
            | None => ∀ b, (b, h) ∈ elements l ++ (a, ka) :: elements r → D b ≠ k end).
  { intros Hno. destruct (IH r a Hrr Hsr Hor' ltac:(unfold addrs; lia) Hdr) as (x & E & Hx). exists x. split; [exact E|].
    destruct x as [b|]; [destruct Hx; split; [apply elem_of_app; right; by right|done]|].
    intros b [Hb|[Hb|Hb]%elem_of_cons]%elem_of_app; [| |by apply Hx].
    - apply Hno, elem_of_app. by left.
    - injection Hb as -> ->. apply Hno, elem_of_app. right. by left. }
  destruct (Z.ltb_spec h ka) as [Hh|Hh].
  { rewrite (run_read _ _ _ _ _ Ha). cbn [left cell]. apply Hleft.
    intros b [[= -> ->]|Hb]%elem_of_cons; [lia|]. specialize (Hoa _ Hb). apply not_key_before in Hoa. cbn in Hoa. lia. }
  destruct (Z.ltb_spec ka h) as [Hh'|Hh'].
  { rewrite (run_read _ _ _ _ _ Ha). cbn [right cell]. apply Hright.
    intros b [Hb|[= -> ->]%list_elem_of_singleton]%elem_of_app; [|lia].
    specialize (Hlr _ (a, ka) Hb (list_elem_of_here _ _)). apply not_key_before in Hlr. cbn in Hlr. lia. }
  assert (h = ka) as -> by lia. destruct (filled_data _ _ Hda) as (x & Ex & Ek & El). cbn [fst] in *. fold D in Ek, El.
  rewrite (run_lr _ _ _ _ Ex), Ek, El. unfold lift. destruct (memn2cmp_spec k (D a)) as [Ec Hc].
  unfold mbind at 1, T_bind. rewrite Ec. cbn [mbind option_bind].
  destruct Hc as [E Ec0|Hlt Ec0|Hgt Ec0].
  - rewrite Ec0. exists (Some a). split; [done|]. split; [apply elem_of_app; right; by left|done].
  - rewrite (proj2 (Z.eqb_neq _ 0)), (proj2 (Z.ltb_lt _ 0)) by lia. rewrite (run_read _ _ _ _ _ Ha). cbn [left cell].
    apply Hleft. intros b [[= ->]|Hb]%elem_of_cons; [intros E; rewrite E in Hlt; by apply Order.lt_irrefl in Hlt|].
    specialize (Hoa _ Hb). apply not_key_before in Hoa as [Hoa|[_ Hoa]]; [cbn in Hoa; lia|]. cbn in Hoa.
    intros E. rewrite E in Hoa. destruct Hoa as [Hoa|Hoa].
    + rewrite Hoa in Hlt. by apply Order.lt_irrefl in Hlt.
    + by apply Order.lt_asym in Hlt.
  - rewrite (proj2 (Z.eqb_neq _ 0)), (proj2 (Z.ltb_ge _ 0)) by lia. rewrite (run_read _ _ _ _ _ Ha). cbn [right cell].
    apply Hright. intros b [Hb|[= ->]%list_elem_of_singleton]%elem_of_app;
      [|intros E; rewrite E in Hgt; by apply Order.lt_irrefl in Hgt].
    specialize (Hlr _ (a, ka) Hb (list_elem_of_here _ _)). apply not_key_before in Hlr as [Hlr|[_ Hlr]]; [cbn in Hlr; lia|].
    cbn in Hlr. intros E. rewrite E in Hlr. destruct Hlr as [Hlr|Hlr].
    + rewrite Hlr in Hgt. by apply Order.lt_irrefl in Hgt.
    + by apply Order.lt_asym in Hgt.
Qed.

(** The search in the tree of the zone. *)
Lemma find_client s z k : zone s z →
  ∃ r, find_loop (ngx_crc32_short k) k (fuel_of (rbtree s)) (root (rbtree s)) s = Some (r, s) ∧
    match r with Some a => ∃ c, (a, c) ∈ z ∧ c_key c = k | None => ∀ a c, (a, c) ∈ z → c_key c ≠ k end.
Proof.
  intros Hz. pose proof Hz as [(l & (sn & t & m & Hrep & Hrb & <-) & Ho & Hp) Hq Hr Hk Hu Ha].
  pose proof (addrs_fuel _ _ _ _ _ _ Hrep) as Hf. pose proof Hrep as [[gp Hg] Hroot Hd _ _ _ _].
  apply list.NoDup_cons in Hd as [Hd _].
  destruct (find_tree (ngx_crc32_short k) k s (fuel_of (rbtree s)) t gp Hg Hd Ho Hf (zone_filled _ _ _ Hz Hp)) as (r & E & HR).
  rewrite Hroot. exists r. split; [exact E|]. destruct r as [a|].
  - destruct HR as [HR Hdata]. rewrite Hp in HR. apply list_elem_of_fmap in HR as ([b c] & [= -> Eh] & Hin).
    exists c. split; [done|]. by rewrite (zone_data _ _ _ _ Hz Hin) in Hdata.
  - intros a c Hin Ek. apply (HR a); [|by rewrite (zone_data _ _ _ _ Hz Hin)].
    rewrite Hp, <- Ek. apply list_elem_of_fmap. by exists (a, c).
Qed.

Lemma m_get {A B} (g : node → A) a (f : A → M B) (s : store) n : mem s !! a = Some n →
  (get g a ≫= f) s = f (g n) s.
Proof. intros H. unfold mbind, M_bind, get. by rewrite H. Qed.

Lemma m_ret {A B} (x : A) (f : A → M B) (s : store) : (mret x ≫= f) s = f x s.
Proof. done. Qed.

(** *** A node is inserted

    As no key of the tree is that of the node, the data are not compared. *)
Lemma loop_same L node n s : ∀ fuel t par, rep sentinel (mem s) par t → t ≠ Leaf → mem s !! node = Some n →
  key n ∉ (elements t).*2 →
  insert_value_loop L fuel (ptr sentinel t) node s = walk sentinel value_before fuel (ptr sentinel t) node s.
Proof.
  induction fuel as [|fuel IH]; intros t par Hr Ht Hn Hk; [done|].
  destruct t as [|c l a ka r]; [done|]. destruct Hr as (Ha & Hl & Hr). cbn [elements] in Hk.
  rewrite fmap_app in Hk. apply not_elem_of_app in Hk as [Hkl Hkr]. apply not_elem_of_cons in Hkr as [Hka Hkr].
  cbn [insert_value_loop walk ptr]. rewrite !(m_get _ _ _ _ _ Hn), !(m_get _ _ _ _ _ Ha).
  cbn [key cell snd] in *. unfold value_before. destruct (Z.ltb_spec (key n) ka).
  - rewrite m_ret, !(m_get _ _ _ _ _ Ha). cbn [left cell].
    destruct l as [|lc ll la lk lr]; cbn [ptr]; [by rewrite Z.eqb_refl|].
    destruct (_ =? _); [done|]. by apply (IH (Node lc ll la lk lr) a).
  - rewrite (proj2 (Z.ltb_lt ka (key n))) by (cbn in Hka; lia).
    rewrite m_ret, !(m_get _ _ _ _ _ Ha). cbn [right cell].
    destruct r as [|rc rl ra rk rr]; cbn [ptr]; [by rewrite Z.eqb_refl|].
    destruct (_ =? _); [done|]. by apply (IH (Node rc rl ra rk rr) a).
Qed.

Lemma insert_same L s l node n : RbtreeInsert.rbtree sentinel s l → mem s !! node = Some n → key n ∉ l.*2 →
  ngx_rbtree_insert sentinel (ngx_http_limit_req_rbtree_insert_value L) node s =
  ngx_rbtree_insert sentinel (ngx_rbtree_insert_value sentinel) node s.
Proof.
  intros Hl Hn Hk. pose proof (rbtree_empty _ _ _ Hl) as He. destruct Hl as (sn & t & m & Hrep & Hrb & <-).
  destruct Hrep as [[gp Hg] Hr _ _ _ _ _].
  assert (root s ≠ sentinel → ngx_http_limit_req_rbtree_insert_value L (root s) node s =
          ngx_rbtree_insert_value sentinel (root s) node s) as Es.
  { intros E. unfold ngx_http_limit_req_rbtree_insert_value, ngx_rbtree_insert_value, insert_by, mbind, M_bind.
    rewrite Hr. erewrite loop_same; [done|exact Hg| |exact Hn|exact Hk]. intros ->. by apply E, He. }
  unfold ngx_rbtree_insert. set (f := ngx_http_limit_req_rbtree_insert_value L) in *.
  set (g := ngx_rbtree_insert_value sentinel) in *. clearbody f g.
  unfold mbind, M_bind, get_root. destruct (Z.eqb_spec (root s) sentinel) as [E|E]; [done|]. by rewrite Es.
Qed.

(** *** Memory comes and goes *)
Definition has_room (a : Z) (s : ngx_http_limit_req_shctx_t) (z : list (Z * client)) : Prop :=
  a ∉ sentinel :: z.*1 ∧ a ∈ allocated (shpool s) ∧ is_Some (mem (rbtree s) !! a) ∧ is_Some (lrs s !! a).

Lemma room_ok s z size : zone s z →
  ∃ r s', slab_alloc size s = Some (r, s') ∧ zone s' z ∧
    match r with Some a => has_room a s' z | None => True end.
Proof.
  intros Hz. pose proof (zone_nodup _ _ Hz) as Hd. destruct Hz as [(l & Hl & Ho & Hp) Hq Hr Hk Hu Ha].
  unfold slab_alloc. destruct (ngx_slab_alloc_locked (shpool s) size) as [[a|] p] eqn:E.
  - destruct (garbage (shpool s) a) as [n r]. apply alloc_new in E as [Hna Ep].
    assert (a ∉ sentinel :: z.*1) as Hnz.
    { intros [->|Hin]%elem_of_cons; apply Hna, Ha; [by apply elem_of_union_l, elem_of_singleton|].
      by apply elem_of_union_r, elem_of_list_to_set. }
    eexists (Some a), _. split; [done|]. split; [split; cbn|].
    + assert (∀ b, b ∈ sentinel :: l.*1 → a ≠ b) as Hne.
      { intros b Hb <-. apply Hnz. rewrite Hp, <- list_fmap_compose in Hb. exact Hb. }
      exists l. split; [|split; [|done]].
      * eapply rbtree_frame; [exact Hl|done|]. cbn. intros b Hb. by rewrite lookup_insert_ne by by apply Hne.
      * eapply sorted_ext; [|exact Ho]. intros x Hx. unfold data_of. rewrite lookup_insert_ne; [done|].
        apply Hne. right. by apply list_elem_of_fmap_2.
    + done.
    + intros b c Hin. rewrite lookup_insert_ne; [by apply Hr|]. intros <-. apply Hnz. right.
      apply (list_elem_of_fmap_2 fst) in Hin. exact Hin.
    + done.
    + done.
    + rewrite Ep. set_solver.
    + split; [done|]. cbn. split; [rewrite Ep; set_solver|]. split; eexists; apply lookup_insert_eq.
  - apply alloc_none in E. eexists None, _. split; [done|]. split; [|done]. split; cbn; try done.
    + by exists l.
    + by rewrite E.
Qed.

Lemma tree_without a c (z : list (Z * client)) : a ∉ z.*1 →
  filter (λ e : Z * Z, e.1 ≠ a)
    (((λ e : Z * client, (e.1, hash_of e.2)) <$> z) ++ ((λ e : Z * client, (e.1, hash_of e.2)) <$> [(a, c)])) =
  (λ e : Z * client, (e.1, hash_of e.2)) <$> z.
Proof.
  intros Ha. change ((λ e : Z * client, (e.1, hash_of e.2)) <$> [(a, c)]) with [(a, hash_of c)].
  rewrite list.filter_app, filter_cons_False by (cbn; tauto).
  rewrite filter_nil, app_nil_r. induction z as [|e z IH]; [done|]. csimpl in *.
  apply not_elem_of_cons in Ha as [H1 H2]. rewrite filter_cons_True by (cbn; congruence). by rewrite IH.
Qed.

Lemma remove_ok s z a c : zone s (z ++ [(a, c)]) →
  ∃ s', zone s' z ∧ ∀ B (f : T B),
    (ngx_queue_remove a;; on_tree (ngx_rbtree_delete sentinel a);; slab_free a;; f) s = f s'.
Proof.
  intros Hz. pose proof (zone_nodup _ _ Hz) as Hd. destruct Hz as [(l & Hl & Ho & Hp) Hq Hr Hk Hu Ha].
  assert ((a, hash_of c) ∈ l) as Hal by (rewrite Hp, fmap_app; apply elem_of_app; right; by left).
  destruct (delete_ok sentinel (rbtree s) l a Hl) as (t & n & Hdel & Ht & _ & _ & Hm).
  { apply list_elem_of_fmap. by exists (a, hash_of c). }
  rewrite fmap_app in Hd. cbn in Hd. apply list.NoDup_cons in Hd as [Hds Hd].
  apply list.NoDup_app in Hd as (Hdz & Hdd & _).
  assert (a ∉ z.*1) as Haz by (intros Hin; apply (Hdd a Hin); by left).
  set (l' := filter (λ e, e.1 ≠ a) l) in *.
  assert (l' ≡ₚ (λ e, (e.1, hash_of e.2)) <$> z) as Hp'.
  { unfold l'. rewrite Hp, fmap_app. by rewrite tree_without. }
  assert (∀ e : Z * client, e ∈ z → e.1 ≠ a) as Hne.
  { intros e He <-. by apply Haz, list_elem_of_fmap_2. }
  eexists (mk_shctx (mk_store (delete a (mem t)) (root t)) (delete a (lrs s)) z.*1 (ngx_slab_free_locked (shpool s) a)).
  split; [split; cbn|].
  - exists l'. split; [|split; [|done]].
    + eapply rbtree_frame; [exact Ht|done|]. cbn. intros b Hb. rewrite lookup_delete_ne; [done|]. intros <-.
      rewrite Hp', <- list_fmap_compose in Hb. apply elem_of_cons in Hb as [->|Hb]; [|done].
      apply Hds, elem_of_app. right. by left.
    + apply (sorted_ext (data_of (lrs s))); [|by apply sorted_filter]. intros x Hx. unfold data_of.
      apply list_elem_of_filter in Hx as [Hx _]. by rewrite lookup_delete_ne.
  - done.
  - intros b d Hin. rewrite lookup_delete_ne by (intros <-; by apply (Hne _ Hin)). apply Hr, elem_of_app. by left.
  - rewrite !fmap_app in Hk. by apply list.NoDup_app in Hk as [? _].
  - intros b d Hin. eapply (Hu b), elem_of_app. by left.
  - rewrite free_old; [|apply Ha; rewrite fmap_app; set_solver]. rewrite fmap_app in Ha. set_solver.
  - intros B f. unfold ngx_queue_remove. erewrite t_bind; [|done]. erewrite run_tree; [|exact Hdel].
    erewrite t_bind; [reflexivity|]. unfold slab_free. cbn. rewrite (Hr a c) by (apply elem_of_app; right; by left). cbn.
    do 3 f_equal. rewrite Hq, fmap_app, list.filter_app. cbn [fmap list_fmap fst]. rewrite filter_cons_False by tauto.
    by rewrite filter_nil, app_nil_r, filter_out.
Qed.

(** A new node becomes a client. *)
Definition new_client (now : Z) (k : list Z) (account : bool) : client :=
  if account then mk_client k now 0 0 else mk_client k 0 0 1.

(** The zone with the node [a] of the key [k] in the tree [t]. *)
Lemma zone_inserted s z l t a k r : zone s z → has_room a s z → K k → (∀ b c, (b, c) ∈ z → c_key c ≠ k) →
  l ≡ₚ (λ e, (e.1, hash_of e.2)) <$> z →
  (let D := data_of (<[a := r]> (lrs s)) in
   sorted_by (key_before D) l → ∃ l', RbtreeInsert.rbtree sentinel t l' ∧ sorted_by (key_before D) l' ∧
     l' ≡ₚ (a, ngx_crc32_short k) :: l) →
  sorted_by (key_before (data_of (lrs s))) l →
  len r = Z.of_nat (length k) → data r = k →
  zone (mk_shctx t (<[a := r]> (lrs s)) (a :: queue s) (shpool s))
    ((a, mk_client k (last r) (excess r) (count r)) :: z).
Proof.
  intros [_ Hq Hr Hk Hu Ha] (Haz & Hal & _ & _) HK Hnew Hp Ht Ho El Ed. split; cbn.
  - destruct Ht as (l' & Hl' & Ho' & Hp').
    { eapply sorted_ext; [|exact Ho]. intros x Hx. unfold data_of. rewrite lookup_insert_ne; [done|]. intros E.
      apply Haz. rewrite E. right. rewrite Hp in Hx. apply list_elem_of_fmap in Hx as ([b c] & -> & Hin).
      by apply (list_elem_of_fmap_2 fst) in Hin. }
    exists l'. split; [done|]. split; [done|]. by rewrite Hp', Hp.
  - by rewrite Hq.
  - intros b c [[= -> ->]|Hin]%elem_of_cons.
    + rewrite lookup_insert_eq. unfold lr_of. cbn. rewrite <- El. destruct r. cbn in *. by rewrite Ed.
    + rewrite lookup_insert_ne; [by apply Hr|]. intros <-. apply Haz. right. by apply (list_elem_of_fmap_2 fst) in Hin.
  - apply NoDup_cons_2; [|done]. intros (c & E & Hin)%list_elem_of_fmap.
    apply list_elem_of_fmap in Hin as ([b d] & -> & Hin). by apply (Hnew b d).
  - intros b c [[= -> ->]|Hin]%elem_of_cons; [done|]. by eapply Hu.
  - set_solver.
Qed.

(** The store when the node at [a] has got its checksum. *)
Definition with_hash (s : ngx_http_limit_req_shctx_t) (a : Z) (n : node) (h : Z) : store :=
  mk_store (<[a := n <| key := h |>]> (mem (rbtree s))) (root (rbtree s)).

Lemma with_hash_tree s a n h l : RbtreeInsert.rbtree sentinel (rbtree s) l → a ∉ sentinel :: l.*1 →
  RbtreeInsert.rbtree sentinel (with_hash s a n h) l ∧ mem (with_hash s a n h) !! a = Some (n <| key := h |>).
Proof.
  intros Hl Ha. split; [|apply lookup_insert_eq]. eapply rbtree_frame; [exact Hl|done|].
  cbn. intros b Hb. rewrite lookup_insert_ne; [done|]. by intros <-.
Qed.

(** The node gets its key and is put into the tree when no other has its
    checksum: nothing but the checksums is compared, whatever the data are. *)
Lemma insert_client s z a k n : zone s z → has_room a s z → K k →
  (∀ b c, (b, c) ∈ z → hash_of c ≠ ngx_crc32_short k) → mem (rbtree s) !! a = Some n →
  ∃ t, (∀ L, ngx_rbtree_insert sentinel (ngx_http_limit_req_rbtree_insert_value L) a
          (with_hash s a n (ngx_crc32_short k)) = Some (tt, t)) ∧
    ∀ r, len r = Z.of_nat (length k) → data r = k →
      zone (mk_shctx t (<[a := r]> (lrs s)) (a :: queue s) (shpool s))
        ((a, mk_client k (last r) (excess r) (count r)) :: z).
Proof.
  intros Hz Hroom HK Hnew Hn. pose proof Hz as [(l & Hl & Ho & Hp) _ _ _ _ _].
  set (h := ngx_crc32_short k) in *.
  assert (l.*1 ≡ₚ z.*1) as Hp1 by (rewrite Hp, <- list_fmap_compose; done).
  assert (a ∉ sentinel :: l.*1) as Haz by (rewrite Hp1; apply Hroom).
  destruct (with_hash_tree s a n h l Hl Haz) as [Hl1 Hn1].
  assert (h ∉ l.*2) as Hh.
  { rewrite Hp, <- list_fmap_compose. intros ([b c] & E & Hin)%list_elem_of_fmap. by apply (Hnew b c Hin). }
  destruct (insert_ok sentinel (ngx_rbtree_insert_value sentinel) value_before _ l a (n <| key := h |>) Hl1)
    as (t2 & Hins & Hl2 & Hf); [by eapply sorted_by_key|apply value_transitive|done|set_solver|set_solver|].
  exists t2. split; [intros L; by rewrite (insert_same _ _ l a _ Hl1 Hn1 Hh)|]. intros r' El Ed.
  eapply zone_inserted; try done; [by intros b c Hin E; apply (Hnew b c Hin); unfold hash_of; rewrite E|].
  intros D HD. eexists. split; [exact Hl2|]. cbn [key set_field].
  assert (insert_ordered value_before (a, h) l = insert_sorted (key_before D) (a, h) l) as ->.
  { clear -Hh. induction l as [|x l IH]; [done|]. cbn in *. apply not_elem_of_cons in Hh as [Hx Hh].
    rewrite IH by done. unfold key_before, value_before. cbn. by rewrite (proj2 (Z.eqb_neq _ _) Hx), orb_false_r. }
  split; [|apply insert_sorted_perm].
  apply insert_sorted_ok; [apply key_transitive|intros x _; apply key_asym|done].
Qed.

(** The comparison of [ngx_http_limit_req_rbtree_insert_value] at [temp]. *)
Definition compare_at (L : gmap Z ngx_http_limit_req_node_t) (node temp : Z) : M bool :=
  nk ← node @ key;
  tk ← temp @ key;
  if nk <? tk then mret true
  else if tk <? nk then mret false
  else λ s, match node_before L node temp with Some b => Some (b, s) | None => None end.

(** The function of the interface when the data of all nodes are there. *)
#[local] Instance filled_inserts L :
  InsertsBy sentinel (ngx_http_limit_req_rbtree_insert_value L) (filled L) (key_before (data_of L)).
Proof.
  intros s0 A sn T node kn s Q H HT Ho Hv HQ. inversion_clear Hv as [|?? Hnode HT'].
  rewrite list.Forall_forall in HT'.
  assert (wp (λ s1, ('(temp, go_left) ← insert_value_loop L (fuel_of s1) (root s1) node;
                     attach sentinel temp go_left node) s1) s Q) as (v & s' & E & HQ'); [|by exists v, s'].
  eapply (wp_insert_at sentinel s0 A sn (key_before (data_of L))
    (compare_at L node) (λ fuel temp, insert_value_loop L fuel temp node) T node kn s Q);
    [|done|done|done| |exact HQ].
  - intros fuel a s1 Q1 (v & s' & E & HQ'). exists v, s'. split; [|done]. cbn [insert_value_loop].
    revert E. unfold compare_at, mbind, M_bind. destruct (get key node s1) as [[nk s2]|]; [|done].
    by destruct (get key a s2) as [[tk s3]|].
  - intros b kb R Hb (m & Hm & <-) HR. destruct (outside_cell _ _ _ _ _ _ Ho) as (m' & Hm' & <-).
    eapply wp_bind, wp_get; [exact Hm'|]. eapply wp_bind, wp_get; [exact Hm|].
    destruct (filled_data _ _ Hnode) as (r1 & E1 & D1 & L1), (filled_data _ _ (HT' _ Hb)) as (r2 & E2 & D2 & L2).
    cbn [fst] in *. unfold key_before in HR. cbn [fst snd] in HR.
    destruct (Z.ltb_spec (key m') (key m)); cbn [orb] in HR; [by apply wp_ret|].
    destruct (Z.ltb_spec (key m) (key m')).
    + rewrite (proj2 (Z.eqb_neq _ _)) in HR by lia. by apply wp_ret.
    + rewrite (proj2 (Z.eqb_eq _ _)) in HR by lia. cbn [andb] in HR.
      eexists _, s. split; [|exact HR]. unfold node_before. rewrite E1, E2. cbn [mbind option_bind].
      rewrite D1, D2, L1, L2. destruct (memn2cmp_spec (data_of L node) (data_of L b)) as [Ec _]. by rewrite Ec.
Qed.

(** The node is put into the tree when its data are there already: the nodes of
    one checksum are in the order of their keys. *)
Lemma insert_filled s z a k n r : zone s z → has_room a s z → K k →
  (∀ b c, (b, c) ∈ z → c_key c ≠ k) → mem (rbtree s) !! a = Some n →
  len r = Z.of_nat (length k) → data r = k →
  ∃ t, ngx_rbtree_insert sentinel (ngx_http_limit_req_rbtree_insert_value (<[a := r]> (lrs s))) a
          (with_hash s a n (ngx_crc32_short k)) = Some (tt, t) ∧
    zone (mk_shctx t (<[a := r]> (lrs s)) (a :: queue s) (shpool s))
      ((a, mk_client k (last r) (excess r) (count r)) :: z).
Proof.
  intros Hz Hroom HK Hnew Hn El Ed. pose proof Hz as [(l & Hl & Ho & Hp) _ _ _ _ _].
  set (h := ngx_crc32_short k) in *. set (L := <[a := r]> (lrs s)).
  assert (l.*1 ≡ₚ z.*1) as Hp1 by (rewrite Hp, <- list_fmap_compose; done).
  assert (a ∉ sentinel :: l.*1) as Haz by (rewrite Hp1; apply Hroom).
  destruct (with_hash_tree s a n h l Hl Haz) as [Hl1 Hn1].
  assert (∀ x, x ∈ l → L !! x.1 = lrs s !! x.1) as Hsame.
  { intros x Hx. unfold L. rewrite lookup_insert_ne; [done|]. intros E. apply Haz. rewrite E. right. by apply list_elem_of_fmap_2. }
  assert (sorted_by (key_before (data_of L)) l) as HoL.
  { eapply sorted_ext; [|exact Ho]. intros x Hx. unfold data_of. by rewrite Hsame. }
  destruct (insert_by_ok sentinel (ngx_http_limit_req_rbtree_insert_value L) (filled L) (key_before (data_of L)) _ l a
    (n <| key := h |>) Hl1 HoL (key_transitive _ _)) as (t2 & Hins & Hl2 & Hf); [|done|set_solver|set_solver|].
  { constructor.
    - exists r. cbn. unfold L. rewrite lookup_insert_eq, El, Ed. done.
    - pose proof (zone_filled _ _ _ Hz Hp) as Hfl. rewrite list.Forall_forall in *. intros x Hx.
      destruct (Hfl x Hx) as (q & E & Eq). exists q. by rewrite Hsame. }
  exists t2. split; [exact Hins|]. eapply zone_inserted; try done. cbn zeta. intros HD. eexists. split; [exact Hl2|].
  split; [|apply insert_sorted_perm].
  apply insert_sorted_ok; [apply key_transitive|intros x _; apply key_asym|done].
Qed.

Lemma add_ok s z a k now account : zone s z → has_room a s z → K k →
  (∀ b c, (b, c) ∈ z → hash_of c ≠ ngx_crc32_short k) →
  ∃ s', add_node now (ngx_crc32_short k) k account a s =
      Some (if account then (NGX_OK, 0, None) else (NGX_AGAIN, 0, Some a), s') ∧
    zone s' ((a, new_client now k account) :: z).
Proof.
  intros Hz Hroom HK Hnew. pose proof Hroom as (_ & _ & [n Hn] & [r Hlr]).
  destruct (insert_client s z a k n Hz Hroom HK Hnew Hn) as (t2 & Hins & Hzone).
  unfold add_node. set (h := ngx_crc32_short k) in *.
  assert (on_tree (a @ key := h) s = Some (tt, s <| rbtree := mk_store (<[a := n <| key := h |>]> (mem (rbtree s))) (root (rbtree s)) |>)) as E
    by (unfold on_tree, update; by rewrite Hn).
  rewrite (t_bind _ _ _ _ _ E). clear E. fold (with_hash s a n h). set (t1 := with_hash _ _ _ _) in *.
  erewrite t_bind; [|unfold on_tree; cbn [rbtree set_field lrs]; rewrite Hins; reflexivity].
  unfold ngx_queue_insert_head. erewrite t_bind; [|done]. erewrite t_update; [|cbn; exact Hlr].
  cbn [rbtree set_field lrs queue shpool].
  assert (u8 (Z.of_nat (length k)) = Z.of_nat (length k)) as E8
    by (apply u8_id; pose proof (keys_short _ HK); lia).
  rewrite E8. destruct account.
  - erewrite t_update; [|cbn; apply lookup_insert_eq]. eexists. split; [done|]. cbn. rewrite insert_insert_eq.
    apply (Hzone (mk_lr (Z.of_nat (length k)) now 0 0 k)); done.
  - erewrite t_update; [|cbn; apply lookup_insert_eq]. eexists. split; [done|]. cbn. rewrite insert_insert_eq.
    apply (Hzone (mk_lr (Z.of_nat (length k)) 0 0 1 k)); done.
Qed.

(** ** What the zone promises

    The clients in the order of their last use. *)

(** Nobody waits for the client, it was not seen for a minute and it has no
    excess left. *)
Definition stale (rate now : Z) (c : client) : bool :=
  let ms := ngx_abs (s64 (u64 (now - c_last c))) in
  (c_count c =? 0) && negb (ms <? 60000) && negb (0 <? s64 (u64 (leak rate ms (lr_of c)))).

(** How many of the oldest clients, [n] at most, are stale. *)
Fixpoint stale_count (rate now : Z) (n : nat) (oldest : list client) : nat :=
  match n, oldest with
  | S n, c :: oldest => if stale rate now c then S (stale_count rate now n oldest) else 0
  | _, _ => 0
  end.

(** Up to two stale clients are forgotten; by force, the oldest one before. *)
Definition forgotten (rate now : Z) (force : bool) (oldest : list client) : nat :=
  if force then
    match oldest with c :: oldest => if c_count c =? 0 then S (stale_count rate now 2 oldest) else 0 | [] => 0 end
  else stale_count rate now 2 oldest.

Definition forget (rate now : Z) (force : bool) (cs : list client) : list client :=
  take (length cs - forgotten rate now force (reverse cs)) cs.

(** [room1] and [room2] tell whether memory was found before and after a client
    was forgotten by force. *)
Definition spec_lookup (rate burst now : Z) (k : list Z) (account room1 room2 : bool) (cs : list client)
    : Z * Z * list client :=
  match list_find (λ c, c_key c = k) cs with
  | Some (i, c) =>
      let rest := delete i cs in
      let e := charge rate now (lr_of c) in
      if burst <? u64 e then (NGX_BUSY, e, c :: rest)
      else if account then (NGX_OK, e, c <| c_excess := e |> <| c_last := now |> :: rest)
      else (NGX_AGAIN, e, c <| c_count := u64 (c_count c + 1) |> :: rest)
  | None =>
      let rc := if account then NGX_OK else NGX_AGAIN in
      let cs := forget rate now false cs in
      if room1 then (rc, 0, new_client now k account :: cs)
      else
        let cs := forget rate now true cs in
        if room2 then (rc, 0, new_client now k account :: cs) else (NGX_ERROR, 0, cs)
  end.

(** *** Forgetting *)
Lemma keep_all (z : list (Z * client)) : take (length z - 0) z = z.
Proof. by rewrite Nat.sub_0_r, firstn_all. Qed.

Lemma keep_drop (z : list (Z * client)) e n : take (length (z ++ [e]) - S n) (z ++ [e]) = take (length z - n) z.
Proof. rewrite length_app. cbn [length]. rewrite take_app_le by lia. f_equal. lia. Qed.

(** Whether the oldest client goes. *)
Definition goes (rate now : Z) (force : bool) (c : client) : bool :=
  if force then c_count c =? 0 else stale rate now c.

Lemma expire_one_ok rate now force next s z a c : zone s (z ++ [(a, c)]) →
  if goes rate now force c then ∃ s', zone s' z ∧ expire_one rate now force next s = next s'
  else expire_one rate now force next s = Some (tt, s).
Proof.
  intros Hz. unfold expire_one. rewrite (t_bind get_queue _ s (queue s) s) by done.
  rewrite (zone_queue _ _ Hz), fmap_app. change (fst <$> [(a, c)]) with [a]. rewrite list.last_snoc.
  rewrite (run_lr a _ s (lr_of c)) by (apply (zone_lrs _ _ Hz), elem_of_app; right; by left).
  cbn [count lr_of last]. unfold goes, stale. set (ms := ngx_abs _). cbv zeta.
  destruct (remove_ok _ _ _ _ Hz) as (s' & Hz' & E).
  destruct force, (c_count c =? 0); cbn [negb andb]; try done; [exists s'; by rewrite E|].
  destruct (ms <? 60000); cbn [negb andb orb]; [done|]. destruct (0 <? _); cbn [negb]; [done|]. exists s'. by rewrite E.
Qed.

Lemma expire_none rate now force next s : zone s [] → expire_one rate now force next s = Some (tt, s).
Proof.
  intros Hz. unfold expire_one. rewrite (t_bind get_queue _ s (queue s) s) by done. by rewrite (zone_queue _ _ Hz).
Qed.

Lemma rev_clients (z : list (Z * client)) a c : reverse (z ++ [(a, c)]).*2 = c :: reverse z.*2.
Proof. rewrite fmap_app. change (snd <$> [(a, c)]) with [c]. by rewrite reverse_snoc. Qed.

Lemma stale_loop rate now : ∀ k fuel z n s, zone s z → 0 < n → n + Z.of_nat k = 3 → (k ≤ fuel)%nat →
  ∃ s', expire_loop fuel rate now n s = Some (tt, s') ∧
    zone s' (take (length z - stale_count rate now k (reverse z.*2)) z).
Proof.
  induction k as [|k IH]; intros fuel z n s Hz Hn Hk Hf.
  { exists s. cbn [stale_count]. rewrite keep_all. split; [|done]. destruct fuel; [done|]. cbn [expire_loop].
    by rewrite (proj2 (Z.ltb_ge n 3)) by lia. }
  destruct fuel as [|fuel]; [lia|]. cbn [expire_loop]. rewrite (proj2 (Z.ltb_lt n 3)), (proj2 (Z.eqb_neq n 0)) by lia.
  destruct z as [|[a c] z _] using rev_ind; [exists s; by rewrite expire_none|].
  rewrite rev_clients. cbn [stale_count].
  pose proof (expire_one_ok rate now false (expire_loop fuel rate now (n + 1)) s z a c Hz) as H. cbn [goes] in H.
  destruct (stale rate now c); [|exists s; by rewrite keep_all].
  destruct H as (s' & Hz' & ->). rewrite keep_drop. apply IH; [done|lia..].
Qed.

Lemma expire_ok rate now (force : bool) s z : zone s z →
  ∃ s', ngx_http_limit_req_expire rate now (if force then 0 else 1) s = Some (tt, s') ∧
    zone s' (take (length z - forgotten rate now force (reverse z.*2)) z).
Proof.
  intros Hz. unfold ngx_http_limit_req_expire. destruct force; [|apply (stale_loop rate now 2 3); [done|lia..]].
  change (expire_loop 3 rate now 0) with (expire_one rate now true (expire_loop 2 rate now 1)).
  destruct z as [|[a c] z _] using rev_ind; [exists s; by rewrite expire_none|].
  rewrite rev_clients. cbn [forgotten].
  pose proof (expire_one_ok rate now true (expire_loop 2 rate now 1) s z a c Hz) as H. cbn [goes] in H.
  destruct (c_count c =? 0); [|exists s; by rewrite keep_all].
  destruct H as (s' & Hz' & ->). rewrite keep_drop. apply (stale_loop rate now 2 2); [done|lia..].
Qed.

(** *** Looking up *)

(** How many hold the client at an address. *)
Definition cnt (z : list (Z * client)) (a : Z) : Z :=
  match list_find (λ e, e.1 = a) z with Some (_, e) => c_count e.2 | None => 0 end.

Lemma cnt_in z a c : NoDup z.*1 → (a, c) ∈ z → cnt z a = c_count c.
Proof.
  intros Hd Hin. unfold cnt. destruct (list_find _ z) as [[i [b d]]|] eqn:E.
  - apply list_find_Some in E as (Hi & Hb & _). cbn in Hb. subst b.
    apply list_elem_of_lookup in Hin as [j Hj]. assert (i = j) as <-; [|rewrite Hi in Hj; by injection Hj as ->].
    eapply NoDup_lookup; [exact Hd| |]; rewrite list_lookup_fmap; [by rewrite Hi|by rewrite Hj].
  - apply list_find_None in E. rewrite list.Forall_forall in E. by apply E in Hin.
Qed.

Lemma cnt_notin z a : a ∉ z.*1 → cnt z a = 0.
Proof.
  intros Ha. unfold cnt. destruct (list_find _ z) as [[i [b d]]|] eqn:E; [|done].
  apply list_find_Some in E as (Hi & Hb & _). cbn in Hb. subst b. exfalso. apply Ha.
  apply list_elem_of_lookup_2 in Hi. by apply (list_elem_of_fmap_2 fst) in Hi.
Qed.

(** The same clients with the same counts. *)
Lemma cnt_perm z z' a : NoDup z.*1 → z' ≡ₚ z → cnt z' a = cnt z a.
Proof.
  intros Hd Hp. destruct (decide (a ∈ z.*1)) as [([b c] & -> & Hin)%list_elem_of_fmap|Hn].
  - cbn [fst]. rewrite (cnt_in z b c) by done. apply cnt_in; [by rewrite Hp|by rewrite Hp].
  - rewrite !cnt_notin by (try rewrite Hp; done). done.
Qed.

Lemma cnt_cons z a c b : cnt ((a, c) :: z) b = if decide (a = b) then c_count c else cnt z b.
Proof. unfold cnt. cbn. destruct (decide (a = b)); [done|]. by destruct (list_find _ z) as [[]|]. Qed.

Lemma stale_free rate now k : ∀ oldest c, c ∈ take (stale_count rate now k oldest) oldest → c_count c = 0.
Proof.
  induction k as [|k IH]; intros [|d oldest] c; cbn [stale_count]; try (intros H; by apply elem_of_nil in H).
  unfold stale. destruct (c_count d =? 0) eqn:E; cbn [andb]; [|by intros ?%elem_of_nil].
  destruct (negb _ && negb _); cbn [take]; [|by intros ?%elem_of_nil].
  intros [->|Hin]%elem_of_cons; [lia|by eapply IH].
Qed.

Lemma forgotten_free rate now (force : bool) oldest c :
  c ∈ take (forgotten rate now force oldest) oldest → c_count c = 0.
Proof.
  unfold forgotten. destruct force; [|apply stale_free]. destruct oldest as [|d oldest]; [by intros ?%elem_of_nil|].
  destruct (Z.eqb_spec (c_count d) 0) as [E|E]; [|by intros ?%elem_of_nil]. cbn [take].
  intros [->|Hin]%elem_of_cons; [done|by eapply stale_free].
Qed.

(** Only clients that nobody holds are forgotten. *)
Lemma cnt_forget rate now (force : bool) z a : NoDup z.*1 →
  cnt (take (length z - forgotten rate now force (reverse z.*2)) z) a = cnt z a.
Proof.
  intros Hd. set (n := forgotten rate now force (reverse z.*2)).
  assert (∀ c, c ∈ (drop (length z - n) z).*2 → c_count c = 0) as Hfree.
  { intros c Hc. apply (forgotten_free rate now force (reverse z.*2)). fold n.
    rewrite take_reverse, length_fmap, <- fmap_drop. by apply elem_of_reverse. }
  rewrite <- (take_drop (length z - n) z) in Hd. rewrite fmap_app in Hd. apply list.NoDup_app in Hd as (H1 & H2 & H3).
  destruct (decide (a ∈ (take (length z - n) z).*1)) as [([b c] & -> & Hin)%list_elem_of_fmap|Hn].
  - cbn [fst]. rewrite (cnt_in _ b c) by done. symmetry. apply cnt_in; [|apply (subseteq_take (length z - n)); exact Hin].
    rewrite <- (take_drop (length z - n) z), fmap_app. by apply list.NoDup_app.
  - rewrite (cnt_notin _ a Hn). destruct (decide (a ∈ z.*1)) as [([b c] & -> & Hin)%list_elem_of_fmap|Hn'].
    + cbn [fst] in *. symmetry. rewrite (cnt_in z b c); [|rewrite <- (take_drop (length z - n) z), fmap_app; by apply list.NoDup_app|done].
      apply Hfree. rewrite <- (take_drop (length z - n) z) in Hin. apply elem_of_app in Hin as [Hin|Hin].
      * exfalso. apply Hn. by apply (list_elem_of_fmap_2 fst) in Hin.
      * by apply (list_elem_of_fmap_2 snd) in Hin.
    + by rewrite cnt_notin.
Qed.

(** The result of a request that is not refused. *)
Definition accepted (account : bool) (ep a : Z) : Z * Z * option Z :=
  if account then (NGX_OK, ep, None) else (NGX_AGAIN, ep, Some a).

(** The counts after a request: one more waits for the client at [x]. *)
Definition counted (z z' : list (Z * client)) (x : option Z) : Prop :=
  ∀ a, cnt z' a = if decide (x = Some a) then u64 (cnt z a + 1) else cnt z a.

Lemma find_key (z : list (Z * client)) a c : NoDup (c_key <$> z.*2) → (a, c) ∈ z →
  ∃ i, z !! i = Some (a, c) ∧ list_find (λ d, c_key d = c_key c) z.*2 = Some (i, c).
Proof.
  intros Hk [i Hi]%list_elem_of_lookup. exists i. split; [done|].
  apply list_find_Some. split; [by rewrite list_lookup_fmap, Hi|]. split; [done|].
  intros j d Hj Hlt Hd. assert (i = j); [|lia]. eapply NoDup_lookup; [exact Hk| |].
  - rewrite !list_lookup_fmap, Hi. done.
  - rewrite list_lookup_fmap, Hj. cbn. by rewrite Hd.
Qed.

Lemma find_no_key (z : list (Z * client)) k : (∀ a c, (a, c) ∈ z → c_key c ≠ k) → list_find (λ d, c_key d = k) z.*2 = None.
Proof.
  intros H. apply list_find_None, list.Forall_forall. intros d ([a c] & -> & Hin)%list_elem_of_fmap. by apply (H a).
Qed.

Lemma filter_client (z : list (Z * client)) i a c : NoDup z.*1 → z !! i = Some (a, c) →
  filter (λ x, x ≠ a) z.*1 = (delete i z).*1.
Proof.
  revert i. induction z as [|e z IH]; intros [|i] Hd Hi; try done; csimpl in *; apply list.NoDup_cons in Hd as [Hn Hd].
  - injection Hi as ->. rewrite filter_cons_False by tauto. by apply filter_out.
  - rewrite filter_cons_True; [by rewrite (IH i)|]. intros <-. apply Hn.
    apply list_elem_of_lookup_2 in Hi. by apply (list_elem_of_fmap_2 fst) in Hi.
Qed.

Lemma bump_ok rate burst now account s z a c : zone s z → (a, c) ∈ z →
  ∃ rc ep x s' z', bump rate burst now account a s = Some ((rc, ep, x), s') ∧ zone s' z' ∧
    spec_lookup rate burst now (c_key c) account true true z.*2 = (rc, ep, z'.*2) ∧
    counted z z' x ∧ (is_Some x ↔ rc = NGX_AGAIN).
Proof.
  intros Hz Hin. pose proof (zone_nodup _ _ Hz) as Hd. apply list.NoDup_cons in Hd as [_ Hd].
  destruct (find_key _ _ _ (zone_keys _ _ Hz) Hin) as (i & Hi & Hf).
  set (rest := delete i z).
  assert ((a, c) :: rest ≡ₚ z) as Hp by (symmetry; by apply delete_Permutation).
  pose proof (zone_permute _ _ _ Hz Hp) as Hz1. cbn [fmap list_fmap fst] in Hz1.
  assert (∀ B (f : T B), (ngx_queue_remove a;; ngx_queue_insert_head a;; f) s = f (s <| queue := a :: rest.*1 |>)) as Erun.
  { intros B f. unfold ngx_queue_remove, ngx_queue_insert_head. erewrite t_bind; [|done]. erewrite t_bind; [|done].
    cbn. rewrite (zone_queue _ _ Hz). unfold rest. rewrite (filter_client z i a c); done. }
  unfold bump. rewrite Erun. set (s1 := s <| queue := _ |>) in *. cbn in Hz1. fold s1 in Hz1.
  assert (lrs s1 !! a = Some (lr_of c)) as Hr by (apply (zone_lrs _ _ Hz1); by left).
  rewrite (run_lr _ _ _ _ Hr). unfold spec_lookup. rewrite Hf.
  assert (delete i z.*2 = rest.*2) as Erest by (unfold rest; by rewrite list_fmap_delete).
  rewrite Erest. set (ep := charge rate now (lr_of c)). cbv zeta.
  assert (∀ b, cnt z b = cnt ((a, c) :: rest) b) as Hc by (intros b; symmetry; by apply cnt_perm).
  destruct (burst <? u64 ep); [|destruct account].
  - exists NGX_BUSY, ep, None, s1, ((a, c) :: rest). repeat (split; [done|]). split; [|split; [by intros []|done]].
    intros b. by rewrite Hc.
  - erewrite t_update by exact Hr. eexists NGX_OK, ep, None, _, ((a, mk_client (c_key c) now ep (c_count c)) :: rest).
    split; [done|]. split; [exact (zone_update s1 rest a c (mk_client (c_key c) now ep (c_count c)) Hz1 eq_refl)|]. split; [done|]. split; [|split; [by intros []|done]].
    intros b. by rewrite Hc, !cnt_cons.
  - erewrite t_update by exact Hr. eexists NGX_AGAIN, ep, (Some a), _, ((a, mk_client (c_key c) (c_last c) (c_excess c) (u64 (c_count c + 1))) :: rest).
    split; [done|]. split; [exact (zone_update s1 rest a c (mk_client (c_key c) (c_last c) (c_excess c) (u64 (c_count c + 1))) Hz1 eq_refl)|]. split; [done|]. split; [|split; [done|by eexists]].
    intros b. rewrite Hc, !cnt_cons. destruct (decide (a = b)) as [->|Hne].
    + by rewrite decide_True.
    + rewrite decide_False; [done|]. congruence.
Qed.

Lemma added_ok now k account s z a : zone s z → has_room a s z → K k →
  (∀ b c, (b, c) ∈ z → hash_of c ≠ ngx_crc32_short k) →
  ∃ rc x s', add_node now (ngx_crc32_short k) k account a s = Some ((rc, 0, x), s') ∧
    zone s' ((a, new_client now k account) :: z) ∧ rc = (if account then NGX_OK else NGX_AGAIN) ∧
    counted z ((a, new_client now k account) :: z) x ∧ (is_Some x ↔ rc = NGX_AGAIN).
Proof.
  intros Hz Hroom HK Hnew. destruct (add_ok s z a k now account Hz Hroom HK Hnew) as (s' & E & Hz').
  assert (cnt z a = 0) as H0.
  { destruct Hroom as [Hn _]. apply cnt_notin. by apply not_elem_of_cons in Hn as [_ ?]. }
  destruct account.
  - eexists NGX_OK, None, s'. split; [exact E|]. do 2 (split; [done|]). split; [|split; [by intros []|done]].
    intros b. rewrite cnt_cons. destruct (decide (a = b)) as [<-|]; done.
  - eexists NGX_AGAIN, (Some a), s'. split; [exact E|]. do 2 (split; [done|]). split; [|split; [done|by eexists]].
    intros b. rewrite cnt_cons. destruct (decide (a = b)) as [<-|].
    + by rewrite decide_True, H0.
    + rewrite decide_False; [done|]. congruence.
Qed.

(** The key is known, or no client has its checksum. *)
Definition apart (k : list Z) (cs : list client) : Prop :=
  k ∈ c_key <$> cs ∨ ∀ c, c ∈ cs → hash_of c ≠ ngx_crc32_short k.

Lemma lookup_ok rate burst now k account s z : zone s z → K k → apart k z.*2 →
  ∃ room1 room2 rc ep x s' z',
    ngx_http_limit_req_lookup rate burst now (ngx_crc32_short k) k account s = Some ((rc, ep, x), s') ∧
    zone s' z' ∧ spec_lookup rate burst now k account room1 room2 z.*2 = (rc, ep, z'.*2) ∧
    counted z z' x ∧ (is_Some x ↔ rc = NGX_AGAIN).
Proof.
  intros Hz HK Hap. unfold ngx_http_limit_req_lookup.
  assert (on_tree get_root s = Some (root (rbtree s), s)) as E0 by (by destruct s).
  rewrite (t_bind _ _ _ _ _ E0). clear E0.
  destruct (find_client s z k Hz) as (r & E & Hr).
  erewrite t_bind; [|exact E]. destruct r as [a|].
  { destruct Hr as (c & Hin & <-). exists true, true. by apply bump_ok. }
  unfold spec_lookup. rewrite (find_no_key z k Hr). cbv zeta. unfold forget. rewrite length_fmap, <- fmap_take.
  pose proof (zone_nodup _ _ Hz) as Hd. apply list.NoDup_cons in Hd as [_ Hd].
  destruct (expire_ok rate now false s z Hz) as (s1 & E1 & Hz1). cbn [negb] in E1.
  erewrite t_bind; [|exact E1]. set (z1 := take _ z) in *.
  assert (∀ b c, (b, c) ∈ z → hash_of c ≠ ngx_crc32_short k) as Hnew.
  { destruct Hap as [(c & -> & ([b d] & -> & Hin)%list_elem_of_fmap)%list_elem_of_fmap|Hap]; [by destruct (Hr b d Hin)|].
    intros b c Hin. apply Hap. by apply (list_elem_of_fmap_2 snd) in Hin. }
  assert (∀ b c, (b, c) ∈ z1 → hash_of c ≠ ngx_crc32_short k) as Hnew1 by (intros b c Hin; apply (Hnew b); by eapply subseteq_take).
  assert (∀ b, cnt z1 b = cnt z b) as Hc1 by (intros b; by apply cnt_forget).
  destruct (room_ok s1 z1 (node_size + Z.of_nat (length k)) Hz1) as ([a|] & s2 & E2 & Hz2 & Hroom).
  { erewrite t_bind; [|exact E2]. destruct (added_ok now k account s2 z1 a) as (rc & x & s' & Ea & Hz' & -> & Hcnt & Hx); [done..|].
    exists true, true. eexists _, 0, x, s', _. do 2 (split; [done|]). split; [done|]. split; [|done].
    intros b. by rewrite <- Hc1. }
  erewrite t_bind; [|exact E2]. pose proof (zone_nodup _ _ Hz2) as Hd2. apply list.NoDup_cons in Hd2 as [_ Hd2].
  destruct (expire_ok rate now true s2 z1 Hz2) as (s3 & E3 & Hz3).
  erewrite t_bind; [|exact E3]. set (z2 := take _ z1) in *.
  assert (∀ b c, (b, c) ∈ z2 → hash_of c ≠ ngx_crc32_short k) as Hnew2 by (intros b c Hin; apply (Hnew1 b); by eapply subseteq_take).
  assert (∀ b, cnt z2 b = cnt z b) as Hc2 by (intros b; rewrite <- Hc1; by apply cnt_forget).
  destruct (room_ok s3 z2 (node_size + Z.of_nat (length k)) Hz3) as ([a|] & s4 & E4 & Hz4 & Hroom').
  - erewrite t_bind; [|exact E4]. destruct (added_ok now k account s4 z2 a) as (rc & x & s' & Ea & Hz' & -> & Hcnt & Hx); [done..|].
    exists false, true. eexists _, 0, x, s', _. do 2 (split; [done|]). rewrite length_fmap, <- fmap_take. split; [done|]. split; [|done].
    intros b. by rewrite <- Hc2.
  - erewrite t_bind; [|exact E4]. exists false, false. eexists NGX_ERROR, 0, None, s4, z2.
    do 2 (split; [done|]). rewrite length_fmap, <- fmap_take. split; [done|]. split; [|split; [by intros []|done]]. done.
Qed.

(** *** Giving back *)
Lemma held_in z a : cnt z a ≠ 0 → ∃ c, (a, c) ∈ z.
Proof.
  intros H. destruct (decide (a ∈ z.*1)) as [([b c] & -> & Hin)%list_elem_of_fmap|Hn]; [by exists c|].
  by rewrite cnt_notin in H.
Qed.

(** One less waits for the client at [a]. *)
Definition uncounted (z z' : list (Z * client)) (a : Z) : Prop :=
  ∀ b, cnt z' b = if decide (b = a) then u64 (cnt z a - 1) else cnt z b.

Lemma give_back s z a c l e : zone s z → (a, c) ∈ z →
  let r := mk_lr (len (lr_of c)) l e (u64 (c_count c - 1)) (c_key c) in
  ∃ z', zone (s <| lrs := <[a := r]> (lrs s) |>) z' ∧ uncounted z z' a.
Proof.
  intros Hz Hin r. pose proof (zone_nodup _ _ Hz) as Hd. apply list.NoDup_cons in Hd as [_ Hd].
  destruct (find_key _ _ _ (zone_keys _ _ Hz) Hin) as (i & Hi & _).
  assert ((a, c) :: delete i z ≡ₚ z) as Hp by (symmetry; by apply delete_Permutation).
  set (c' := mk_client (c_key c) l e (u64 (c_count c - 1))).
  exists (<[i := (a, c')]> z). split.
  - pose proof (zone_update _ _ a c c' (zone_permute _ _ _ Hz Hp) eq_refl) as Hz1.
    assert (<[i := (a, c')]> z ≡ₚ (a, c') :: delete i z) as Hp'.
    { rewrite delete_take_drop, insert_take_drop by (by eapply lookup_lt_Some).
      by rewrite Permutation_middle. }
    pose proof (zone_permute _ _ _ Hz1 Hp') as Hz2. cbn in Hz2.
    replace (<[i:=(a, c')]> z).*1 with (queue s) in Hz2; [by destruct s|].
    rewrite (zone_queue _ _ Hz), list_fmap_insert. symmetry. apply list_insert_id. by rewrite list_lookup_fmap, Hi.
  - assert ((<[i := (a, c')]> z).*1 = z.*1) as E.
    { rewrite list_fmap_insert. apply list_insert_id. by rewrite list_lookup_fmap, Hi. }
    assert (z !! i = Some (a, c)) as Hi' by done. apply lookup_lt_Some in Hi as Hlt.
    intros b. destruct (decide (b = a)) as [->|Hne].
    + rewrite (cnt_in z a c) by done. apply (cnt_in _ a c'); [by rewrite E|].
      apply list_elem_of_lookup. exists i. by rewrite list_lookup_insert_eq.
    + destruct (decide (b ∈ z.*1)) as [([x d] & -> & Hb)%list_elem_of_fmap|Hn]; cbn [fst] in *.
      * rewrite (cnt_in z x d) by done. apply cnt_in; [by rewrite E|].
        apply list_elem_of_lookup in Hb as [j Hj]. apply list_elem_of_lookup. exists j.
        rewrite list_lookup_insert_ne; [done|]. intros ->. congruence.
      * by rewrite !cnt_notin by (rewrite ?E; done).
Qed.

Lemma account_ok rate now a s z : zone s z → cnt z a ≠ 0 →
  ∃ e s' z', account_node rate now a s = Some (e, s') ∧ zone s' z' ∧ uncounted z z' a.
Proof.
  intros Hz (c & Hin)%held_in. unfold account_node.
  rewrite (run_lr _ _ _ _ (zone_lrs _ _ Hz _ _ Hin)). cbv zeta.
  rewrite (t_update _ _ _ _ _ (zone_lrs _ _ Hz _ _ Hin)).
  destruct (give_back s z a c now (charge rate now (lr_of c)) Hz Hin) as (z' & Hz' & Hc).
  eexists _, _, z'. split; [done|]. split; [exact Hz'|done].
Qed.

Lemma release_ok a s z : zone s z → cnt z a ≠ 0 →
  ∃ s' z', release_node a s = Some (tt, s') ∧ zone s' z' ∧ uncounted z z' a.
Proof.
  intros Hz (c & Hin)%held_in. unfold release_node, update_lr. rewrite (zone_lrs _ _ Hz _ _ Hin).
  destruct (give_back s z a c (c_last c) (c_excess c) Hz Hin) as (z' & Hz' & Hc).
  eexists _, z'. split; [done|]. split; [exact Hz'|done].
Qed.

(** Among keys without two of one checksum, all are apart. *)
Class DistinctKeys : Prop :=
  keys_distinct k k' : K k → K k' → ngx_crc32_short k = ngx_crc32_short k' → k = k'.

Lemma zone_apart `{!DistinctKeys} s z k : zone s z → K k → apart k z.*2.
Proof.
  intros Hz HK. destruct (decide (k ∈ c_key <$> z.*2)) as [Hin|Hn]; [by left|right].
  intros c Hc E. apply Hn. apply list_elem_of_fmap in Hc as Hc'. destruct Hc' as ([a d] & -> & Hin). cbn [snd] in *.
  replace k with (c_key d); [by apply list_elem_of_fmap_2|].
  apply keys_distinct; [by apply (zone_used _ _ Hz a)|done|exact E].
Qed.

(** A zone that was just made. *)
Lemma init_zone_ok s n : mem (rbtree s) !! sentinel = Some n → sentinel ∈ allocated (shpool s) →
  ∃ s', init_zone s = Some (tt, s') ∧ zone s' [].
Proof.
  intros Hs Ha. destruct (init_ok sentinel (rbtree s) n Hs) as (t & E & Ht & _).
  unfold init_zone. erewrite run_tree; [|exact E]. eexists. split; [done|]. split; cbn.
  - exists []. repeat split; [done|constructor|done].
  - done.
  - by intros a c ?%elem_of_nil.
  - constructor.
  - by intros a c ?%elem_of_nil.
  - set_solver.
Qed.
End Zone.

(** All keys that are short enough. *)
Definition short_key (k : list Z) : Prop := (length k ≤ 255)%nat.
#[export] Instance short_keys : Keys short_key.
Proof. by intros k. Qed.
End LimitReqZone.
