(* ===== verification/LimitReqProof.v ===== *)
(** * Request limiting is correct

    The look-up refines that of a list of clients; no client for which a request
    waits is forgotten, however the processes alternate; a client does not get
    more requests through than its bucket holds. *)

From stdpp Require Import gmap sorting relations.
From S2P Require Import Prelude Rbtree RbtreeRep RbtreeInsert RbtreeDelete StringOps Checksum LimitReq LimitReqZone.
Import Rbtree.Rbtree Checksum.Checksum LimitReq.LimitReq LimitReqZone.LimitReqZone.
Open Scope Z_scope.

Module LimitReqProof.

Section Zone.
Context {P : Type} `{!SlabPool P, !ZoneMemory P}.
#[local] Abbreviation shctx := (LimitReq.ngx_http_limit_req_shctx_t (P := P)).
Context (K : list Z → Prop) `{!Keys K}.

(** The zone holds the clients [cs]. *)
Definition represents (s : shctx) (cs : list client) : Prop := ∃ z, zone K s z ∧ z.*2 = cs.

(** C15: The look-up in the shared memory, with its tree, its queue and its
    allocations, never touches memory that is not a node of the zone, and it
    answers and changes the clients as the look-up in a list does that moves the
    client to the front, charges it, and forgets up to two stale clients (and the
    oldest one when there is no room) before a new one is added.  Keys are not
    longer than 255 bytes here (see [limit_req_long_key]); clients whose keys have
    one CRC-32 are told apart, but the zone must not get a new client with the
    CRC-32 of one that it holds (see [limit_req_collision]). *)
Theorem limit_req_lookup_refines s cs rate burst now k account : represents s cs → K k → apart k cs →
  ∃ room1 room2 rc ep node s' cs',
    ngx_http_limit_req_lookup rate burst now (ngx_crc32_short k) k account s = Some ((rc, ep, node), s') ∧
    represents s' cs' ∧ spec_lookup rate burst now k account room1 room2 cs = (rc, ep, cs') ∧
    (is_Some node ↔ rc = NGX_AGAIN).
Proof.
  intros (z & Hz & <-) HK Hap.
  destruct (lookup_ok K rate burst now k account s z Hz HK Hap) as (r1 & r2 & rc & ep & x & s' & z' & E & Hz' & Es & _ & Hx).
  exists r1, r2, rc, ep, x, s', z'.*2. split; [exact E|]. split; [by exists z'|done].
Qed.

Context `{!DistinctKeys K}.

(** ** Processes that share a zone

    A process holds a client, in [ctx->node], from the look-up on that answers
    NGX_AGAIN, until the request is accounted for or refused. *)
Section Processes.
Context (workers : nat) (zone_rate : Z).

Inductive event :=
| Lookup (w : nat) (burst now : Z) (k : list Z) (account : bool)
| Account (w : nat) (now : Z)
| Release (w : nat).

Definition run_event (e : event) (s : shctx) (held : gmap nat Z) : option (shctx * gmap nat Z) :=
  match e with
  | Lookup w burst now k account =>
      '((_, _, x), s) ← ngx_http_limit_req_lookup zone_rate burst now (ngx_crc32_short k) k account s;
      Some (s, match x with Some a => <[w := a]> held | None => held end)
  | Account w now => a ← held !! w; '(_, s) ← account_node zone_rate now a s; Some (s, delete w held)
  | Release w => a ← held !! w; '(_, s) ← release_node a s; Some (s, delete w held)
  end.

(** What a process does next. *)
Definition allowed (e : event) (held : gmap nat Z) : Prop :=
  match e with
  | Lookup w _ _ k _ => (w < workers)%nat ∧ held !! w = None ∧ K k
  | Account w _ | Release w => is_Some (held !! w)
  end.

Inductive reachable : shctx → gmap nat Z → Prop :=
| reachable_init s0 s n : mem (rbtree s0) !! sentinel = Some n → sentinel ∈ allocated (shpool s0) →
    init_zone s0 = Some (tt, s) → reachable s ∅
| reachable_event e s held s' held' : reachable s held → allowed e held → run_event e s held = Some (s', held') →
    reachable s' held'.

(** How many processes hold the client at [a]. *)
Definition holders (held : gmap nat Z) (a : Z) : nat := length (filter (λ e, e.2 = a) (map_to_list held)).

Lemma holders_insert held w a b : held !! w = None →
  holders (<[w := a]> held) b = (if decide (a = b) then S (holders held b) else holders held b).
Proof.
  intros Hw. unfold holders. rewrite map_to_list_insert by done. rewrite filter_cons. cbn [snd].
  by destruct (decide (a = b)).
Qed.

Lemma holders_delete held w a b : held !! w = Some a →
  holders held b = (if decide (a = b) then S (holders (delete w held) b) else holders (delete w held) b).
Proof.
  intros Hw. rewrite <- (insert_delete_id held w a) at 1 by done. apply holders_insert, lookup_delete_eq.
Qed.

Definition small (held : gmap nat Z) : Prop := ∀ w, is_Some (held !! w) → (w < workers)%nat.

Lemma holders_small held a : small held → (holders held a ≤ workers)%nat.
Proof.
  intros Hs. unfold holders. etrans; [apply length_filter|]. rewrite length_map_to_list, <- size_dom.
  rewrite <- (size_set_seq (C := gset nat) 0 workers). apply subseteq_size. intros w Hw.
  apply elem_of_set_seq. apply elem_of_dom, Hs in Hw. lia.
Qed.

Definition consistent (s : shctx) (held : gmap nat Z) : Prop :=
  small held ∧ ∃ z, zone K s z ∧ ∀ a, cnt z a = Z.of_nat (holders held a).

Lemma holders_pos held w a : held !! w = Some a → (0 < holders held a)%nat.
Proof. intros H. rewrite (holders_delete _ _ _ _ H), decide_True by done. lia. Qed.

Lemma consistent_less s' held (z z' : list (Z * client)) w a : held !! w = Some a → small held → Z.of_nat workers < MAX_UINT64 →
  (∀ b, cnt z b = Z.of_nat (holders held b)) → zone K s' z' → uncounted z z' a → consistent s' (delete w held).
Proof.
  intros Hw Hs HW Hc Hz' Hu. split.
  - intros v Hv. apply Hs. destruct (decide (w = v)) as [->|]; [by rewrite lookup_delete_eq in Hv; destruct Hv|].
    by rewrite lookup_delete_ne in Hv.
  - exists z'. split; [done|]. intros b. rewrite Hu, !Hc. pose proof (holders_delete held w a b Hw) as Hd.
    destruct (decide (b = a)) as [->|Hne].
    + rewrite decide_True in Hd by done. pose proof (holders_small held a Hs). rewrite u64_id by lia. lia.
    + rewrite decide_False in Hd by congruence. by rewrite Hd.
Qed.

Lemma event_ok e s held : Z.of_nat workers < MAX_UINT64 → consistent s held → allowed e held →
  ∃ s' held', run_event e s held = Some (s', held') ∧ consistent s' held'.
Proof.
  intros HW (Hs & z & Hz & Hc) He. destruct e as [w burst now k account|w now|w]; cbn [run_event allowed] in *.
  - destruct He as (Hw & Hn & HK).
    destruct (lookup_ok K zone_rate burst now k account s z Hz HK (zone_apart K s z _ Hz HK)) as (r1 & r2 & rc & ep & x & s' & z' & -> & Hz' & _ & Hcnt & _).
    eexists _, _. split; [done|]. destruct x as [a|].
    + split; [|exists z'; split; [done|]].
      * intros v. destruct (decide (w = v)) as [->|]; [done|]. rewrite lookup_insert_ne by done. apply Hs.
      * intros b. rewrite Hcnt, Hc, holders_insert by done. pose proof (holders_small held b Hs).
        destruct (decide (Some a = Some b)) as [[= ->]|Hne].
        -- rewrite decide_True by done. rewrite u64_id by lia. lia.
        -- rewrite decide_False by congruence. done.
    + split; [done|]. exists z'. split; [done|]. intros b. by rewrite Hcnt, decide_False.
  - destruct He as [a Ha]. rewrite Ha. cbn.
    destruct (account_ok K zone_rate now a s z Hz) as (e & s' & z' & -> & Hz' & Hu).
    { rewrite Hc. pose proof (holders_pos _ _ _ Ha). lia. }
    eexists _, _. split; [done|]. by eapply consistent_less.
  - destruct He as [a Ha]. rewrite Ha. cbn.
    destruct (release_ok K a s z Hz) as (s' & z' & -> & Hz' & Hu).
    { rewrite Hc. pose proof (holders_pos _ _ _ Ha). lia. }
    eexists _, _. split; [done|]. by eapply consistent_less.
Qed.

(** C14: However look-ups, accounting and refusals of the processes that share a
    zone alternate, for keys of at most 255 bytes no two of which have the same
    CRC-32 ([Keys] and [DistinctKeys]; [limit_req_collision] shows what the code
    does otherwise): no access to the memory fails, so no process is left with a
    client whose node was freed and used again, and [count] of every client is
    the number of processes that hold it. *)
Theorem limit_req_workers s held : Z.of_nat workers < MAX_UINT64 → reachable s held →
  (∃ z, zone K s z ∧ (∀ a, cnt z a = Z.of_nat (holders held a)) ∧ ∀ w a, held !! w = Some a → a ∈ z.*1) ∧
  ∀ e, allowed e held → is_Some (run_event e s held).
Proof.
  intros HW Hr. assert (consistent s held) as Hcon.
  { induction Hr as [s0 s n Hn Ha Hi|e s held s' held' Hr IH He Hrun].
    - destruct (init_zone_ok K s0 n Hn Ha) as (s' & E & Hz). rewrite Hi in E. injection E as <-.
      split; [by intros w [a Hw]; rewrite lookup_empty in Hw|]. exists []. split; [exact Hz|]. done.
    - destruct (event_ok e s held HW IH He) as (s1 & h1 & E & H1). rewrite Hrun in E. by injection E as -> ->. }
  split.
  - destruct Hcon as (Hs & z & Hz & Hc). exists z. split; [done|]. split; [done|]. intros w a Hw.
    assert (cnt z a ≠ 0) as (c & Hin)%held_in by (rewrite Hc; pose proof (holders_pos _ _ _ Hw); lia).
    by apply (list_elem_of_fmap_2 fst) in Hin.
  - intros e He. destruct (event_ok e s held HW Hcon He) as (s' & h' & -> & _). done.
Qed.
End Processes.

(** ** The rate *)

Abbreviation KEYS cs := (NoDup (c_key <$> cs)).












Section Rate.
Context (zone_rate burst : Z).

Definition known_key (k : list Z) : LimitReq.T (P := P) bool := λ s,
  Some (existsb (λ a, match lrs s !! a with Some r => bool_decide (data r = k) | None => false end) (queue s), s).

(** Requests at their times: the key, the answer, and whether the key was
    remembered before. *)
Fixpoint run_requests (reqs : list (Z * list Z)) : LimitReq.T (P := P) (list (list Z * Z * bool)) :=
  match reqs with
  | [] => mret []
  | (now, k) :: reqs =>
      known ← known_key k;
      '(rc, _, _) ← ngx_http_limit_req_lookup zone_rate burst now (ngx_crc32_short k) k true;
      rest ← run_requests reqs;
      mret ((k, rc, known) :: rest)
  end.



Context (t1 : Z) (rate_ok : 0 ≤ zone_rate) (rate_small : zone_rate * t1 < 9223372036854775808).
Context (burst_ok : 0 ≤ burst < 4611686018427387904) (t1_small : t1 < 9223372036854775808).



End Rate.


(** ** The handler

    The limits of a location have zones of their own, with rates that are not 0. *)
Context (ctx_of : nat → ngx_http_limit_req_ctx_t) (variable : Z → option (list Z)).
#[local] Abbreviation W := (LimitReq.W (P := P)).
#[local] Abbreviation ZONE := (shm_zone).

Definition limits_ok (limits : list ngx_http_limit_req_limit_t) : Prop :=
  NoDup (ZONE <$> limits) ∧
  ∀ l, l ∈ limits → rate (ctx_of (ZONE l)) ≠ 0 ∧
    ∀ v, variable (index (ctx_of (ZONE l))) = Some v → (length v ≠ 0)%nat → Z.of_nat (length v) ≤ 65535 → K v.

(** The zones hold clients; the process waits for those in [nodes], besides
    [base i a] others. *)
Definition good (base : nat → Z → Z) (w : world (P := P)) : Prop :=
  ∀ i s, zones w !! i = Some s → ∃ z, zone K s z ∧
    ∀ a, cnt z a = if decide (nodes w !! i = Some a) then u64 (base i a + 1) else base i a.

Definition base_ok (base : nat → Z → Z) : Prop := ∀ i a, 0 ≤ base i a < MAX_UINT64.

Lemma w_bind {A B} (m : W A) (f : A → W B) w x w' : m w = Some (x, w') → (m ≫= f) w = f x w'.
Proof. unfold mbind, W_bind. by intros ->. Qed.

Lemma run_zone {A} i (m : LimitReq.T (P := P) A) (w : world (P := P)) s x s' : zones w !! i = Some s → m s = Some (x, s') →
  on_zone i m w = Some (x, w <| zones := <[i := s']> (zones w) |>).
Proof. intros Hs Hm. unfold on_zone. by rewrite Hs; cbn; rewrite Hm. Qed.

Definition has_zones (w : world (P := P)) (limits : list ngx_http_limit_req_limit_t) : Prop :=
  ∀ l, l ∈ limits → is_Some (zones w !! ZONE l).

(** A client is given back. *)
Lemma good_less base w i s s' z z' a : good base w → base_ok base → nodes w !! i = Some a → zones w !! i = Some s →
  (∀ b, cnt z b = if decide (nodes w !! i = Some b) then u64 (base i b + 1) else base i b) →
  zone K s' z' → uncounted z z' a →
  good base (mk_world (<[i := s']> (zones w)) (delete i (nodes w))).
Proof.
  intros Hg Hb Hn Hs Hc Hz' Hu j t Hj. cbn in *. destruct (decide (i = j)) as [<-|Hne].
  - rewrite lookup_insert_eq in Hj. injection Hj as <-. exists z'. split; [done|]. intros b.
    rewrite lookup_delete_eq, decide_False by done. rewrite Hu. destruct (decide (b = a)) as [->|Hba].
    + rewrite Hc, decide_True by done. pose proof (Hb i a). rewrite (u64_id (base i a + 1)) by lia. rewrite u64_id by lia. lia.
    + rewrite Hc, decide_False; [done|congruence].
  - rewrite lookup_insert_ne in Hj by done. rewrite lookup_delete_ne by done. by apply Hg.
Qed.

(** The loops that give back what is held. *)
Definition given_back (base : nat → Z → Z) (limits : list ngx_http_limit_req_limit_t) (w w' : world (P := P)) : Prop :=
  good base w' ∧ (∀ i, is_Some (zones w !! i) → is_Some (zones w' !! i)) ∧
  ∀ i, nodes w' !! i = if decide (i ∈ ZONE <$> limits) then None else nodes w !! i.

Lemma given_back_cons base l limits w w1 w' : given_back base limits w1 w' →
  (∀ i, is_Some (zones w !! i) → is_Some (zones w1 !! i)) →
  (∀ i, nodes w1 !! i = if decide (i = ZONE l) then None else nodes w !! i) → given_back base (l :: limits) w w'.
Proof.
  intros (Hg & Hz & Hn) Hz1 Hn1. split; [done|]. split; [auto|]. intros i. rewrite Hn, Hn1. cbn.
  destruct (decide (i = ZONE l)) as [->|Hne].
  - destruct (decide (ZONE l ∈ _ :: _)) as [|Hn']; [by destruct (decide _)|]. exfalso. apply Hn'. by left.
  - destruct (decide (i ∈ ZONE <$> limits)) as [Hin|Hin], (decide (i ∈ ZONE l :: (ZONE <$> limits))) as [Hin'|Hin']; try done.
    + exfalso. apply Hin'. by right.
    + by apply elem_of_cons in Hin' as [|].
Qed.

Lemma none_held base w i s : good base w → nodes w !! i = None → zones w !! i = Some s →
  ∀ j, nodes w !! j = if decide (j = i) then None else nodes w !! j.
Proof. intros _ Hn _ j. by destruct (decide (j = i)) as [->|]. Qed.

Lemma release_all base limits : base_ok base → ∀ w, good base w → has_zones w limits →
  ∃ w', release_limits limits w = Some (tt, w') ∧ given_back base limits w w'.
Proof.
  intros Hb. induction limits as [|l limits IH]; intros w Hg Hz.
  { exists w. split; [done|]. by split. }
  assert (has_zones w limits) as Hz' by (intros x Hx; apply Hz; by right).
  destruct (Hz l (list_elem_of_here _ _)) as [s Hs]. cbn [release_limits].
  rewrite (w_bind _ _ _ (nodes w !! ZONE l) w) by done. destruct (nodes w !! ZONE l) as [a|] eqn:Hn.
  - destruct (Hg _ _ Hs) as (z & Hzone & Hc).
    destruct (release_ok K a s z Hzone) as (s' & z' & E & Hzone' & Hu).
    { rewrite Hc, decide_True by done. pose proof (Hb (ZONE l) a). rewrite u64_id by lia. lia. }
    pose proof (good_less base w (ZONE l) s s' z z' a Hg Hb Hn Hs Hc Hzone' Hu) as Hg1.
    set (w1 := mk_world _ _) in Hg1.
    assert ((on_zone (ZONE l) (release_node a);; clear_node (ZONE l)) w = Some (tt, w1)) as Erun
      by (erewrite w_bind; [|by eapply run_zone]; done).
    rewrite (w_bind _ _ _ _ _ Erun).
    destruct (IH w1 Hg1) as (w' & E' & Hgb).
    { intros x Hx. cbn. destruct (decide (ZONE l = ZONE x)) as [->|]; [by rewrite lookup_insert_eq|].
      rewrite lookup_insert_ne by done. by apply Hz'. }
    exists w'. split; [exact E'|]. eapply given_back_cons; [exact Hgb| |].
    + intros i Hi. cbn. destruct (decide (ZONE l = i)) as [->|]; [by rewrite lookup_insert_eq|by rewrite lookup_insert_ne].
    + intros i. cbn. destruct (decide (i = ZONE l)) as [->|]; [by rewrite lookup_delete_eq|by rewrite lookup_delete_ne].
  - rewrite (w_bind _ _ w tt w) by done. destruct (IH w Hg Hz') as (w' & E' & Hgb). exists w'. split; [exact E'|].
    eapply given_back_cons; [exact Hgb|done|]. by eapply none_held.
Qed.

Lemma account_all now base limits : base_ok base → (∀ l, l ∈ limits → rate (ctx_of (ZONE l)) ≠ 0) →
  ∀ w d, good base w → has_zones w limits →
  ∃ d' w', account_limits ctx_of now limits d w = Some (d', w') ∧ given_back base limits w w'.
Proof.
  intros Hb. induction limits as [|l limits IH]; intros Hrate w d Hg Hz.
  { exists d, w. split; [done|]. by split. }
  assert (has_zones w limits) as Hz' by (intros x Hx; apply Hz; by right).
  assert (∀ l, l ∈ limits → rate (ctx_of (ZONE l)) ≠ 0) as Hrate' by (intros x Hx; apply Hrate; by right).
  destruct (Hz l (list_elem_of_here _ _)) as [s Hs]. cbn [account_limits].
  rewrite (w_bind _ _ _ (nodes w !! ZONE l) w) by done. destruct (nodes w !! ZONE l) as [a|] eqn:Hn.
  - destruct (Hg _ _ Hs) as (z & Hzone & Hc).
    destruct (account_ok K (LimitReq.zone_rate ctx_of l) now a s z Hzone) as (e & s' & z' & E & Hzone' & Hu).
    { rewrite Hc, decide_True by done. pose proof (Hb (ZONE l) a). rewrite u64_id by lia. lia. }
    pose proof (good_less base w (ZONE l) s s' z z' a Hg Hb Hn Hs Hc Hzone' Hu) as Hg1.
    erewrite w_bind; [|by eapply run_zone]. erewrite w_bind; [|done]. cbn [zones nodes set_field].
    set (w1 := mk_world _ _) in *.
    assert (has_zones w1 limits) as Hz1.
    { intros x Hx. cbn. destruct (decide (ZONE l = ZONE x)) as [->|]; [by rewrite lookup_insert_eq|].
      rewrite lookup_insert_ne by done. by apply Hz'. }
    assert (∀ d', ∃ d'' w', account_limits ctx_of now limits d' w1 = Some (d'', w') ∧ given_back base (l :: limits) w w') as Hgo.
    { intros d'. destruct (IH Hrate' w1 d' Hg1 Hz1) as (d'' & w' & E' & Hgb). exists d'', w'. split; [exact E'|].
      eapply given_back_cons; [exact Hgb| |].
      + intros i Hi. cbn. destruct (decide (ZONE l = i)) as [->|]; [by rewrite lookup_insert_eq|by rewrite lookup_insert_ne].
      + intros i. cbn. destruct (decide (i = ZONE l)) as [->|]; [by rewrite lookup_delete_eq|by rewrite lookup_delete_ne]. }
    destruct (nodelay l); [apply Hgo|]. unfold udiv at 1. unfold LimitReq.zone_rate.
    rewrite (proj2 (Z.eqb_neq _ 0)) by (apply Hrate; by left). erewrite w_bind; [|done]. apply Hgo.
  - destruct (IH Hrate' w d Hg Hz') as (d' & w' & E' & Hgb). exists d', w'. split; [exact E'|].
    eapply given_back_cons; [exact Hgb|done|]. by eapply none_held.
Qed.

(** *** The look-ups of a request *)
Lemma limits_tail l rest : limits_ok (l :: rest) → ZONE l ∉ ZONE <$> rest ∧ limits_ok rest.
Proof.
  intros [Hd Hl]. rewrite fmap_cons in Hd. apply list.NoDup_cons in Hd as [Hn Hd]. split; [done|]. split; [done|].
  intros x Hx. apply Hl. by right.
Qed.

(** The zone of a limit changes, and its client may be held. *)
Lemma good_more base w i s s' z z' x : good base w → base_ok base → nodes w !! i = None → zones w !! i = Some s →
  (∀ b, cnt z b = if decide (nodes w !! i = Some b) then u64 (base i b + 1) else base i b) →
  zone K s' z' → counted z z' x →
  good base (mk_world (<[i := s']> (zones w)) (match x with Some a => <[i := a]> (nodes w) | None => nodes w end)).
Proof.
  intros Hg Hb Hn Hs Hc Hz' Hcnt j t Hj. cbn in *. destruct (decide (i = j)) as [<-|Hne].
  - rewrite lookup_insert_eq in Hj. injection Hj as <-. exists z'. split; [done|]. intros b.
    assert (cnt z b = base i b) as Eb by (by rewrite Hc, Hn). rewrite Hcnt, Eb.
    destruct x as [a|]; [by rewrite lookup_insert_eq|by rewrite Hn].
  - rewrite lookup_insert_ne in Hj by done. destruct (Hg j t Hj) as (y & Hy & Hcy). exists y. split; [done|].
    intros b. rewrite Hcy. destruct x as [a|]; [by rewrite lookup_insert_ne|done].
Qed.

Definition answers : list Z := [NGX_DECLINED; NGX_AGAIN; NGX_OK; NGX_BUSY; NGX_ERROR].

Lemma spec_answer rate burst now k account r1 r2 cs rc ep cs' :
  spec_lookup rate burst now k account r1 r2 cs = (rc, ep, cs') → rc ∈ answers ∧ rc ≠ NGX_DECLINED.
Proof.
  intros E. assert (rc ∈ [NGX_AGAIN; NGX_OK; NGX_BUSY; NGX_ERROR]) as H.
  { unfold spec_lookup in E. destruct (list_find _ _) as [[]|], account; cbv zeta in E;
      repeat (destruct (_ <? _) in E); destruct r1, r2; injection E as <- _ _; set_solver. }
  split; [by right|]. intros ->. set_solver.
Qed.

Lemma lookups_ok now base rest : base_ok base → ∀ w n rc excess, limits_ok rest → good base w → has_zones w rest →
  (∀ l, l ∈ rest → nodes w !! ZONE l = None) → rc = NGX_DECLINED ∨ rc = NGX_AGAIN → (rc = NGX_DECLINED → nodes w = ∅) →
  ∃ rc' n' ep w', lookup_limits ctx_of variable now rest n rc excess w = Some ((rc', n', ep), w') ∧
    good base w' ∧ (∀ i, is_Some (zones w !! i) → is_Some (zones w' !! i)) ∧ (n ≤ n')%nat ∧
    (rc' = NGX_DECLINED → nodes w' = ∅) ∧ rc' ∈ answers ∧
    (rc' = NGX_OK → is_Some (rest !! (n' - n)%nat)) ∧
    ∀ i, nodes w !! i = None → i ∉ ZONE <$> take (n' - n) rest → nodes w' !! i = None.
Proof.
  intros Hb. induction rest as [|l rest IH]; intros w n rc excess Hok Hg Hz Hn Hrc Hd.
  { exists rc, n, excess, w. split; [done|]. do 2 (split; [done|]). split; [lia|]. split; [done|].
    split; [destruct Hrc as [->| ->]; unfold answers; set_solver|]. split; [intros ->; by destruct Hrc|done]. }
  apply limits_tail in Hok as Htail. destruct Htail as [Hnot Hok'].
  assert (has_zones w rest) as Hz' by (intros x Hx; apply Hz; by right).
  cbn [lookup_limits].
  assert (∀ w1 rc1 ep1, good base w1 → (∀ i, is_Some (zones w !! i) → is_Some (zones w1 !! i)) →
    (∀ i, i ≠ ZONE l → nodes w1 !! i = nodes w !! i) →
    rc1 = NGX_DECLINED ∨ rc1 = NGX_AGAIN → (rc1 = NGX_DECLINED → nodes w1 = ∅) →
    ∃ rc' n' ep w', lookup_limits ctx_of variable now rest (S n) rc1 ep1 w1 = Some ((rc', n', ep), w') ∧
    good base w' ∧ (∀ i, is_Some (zones w !! i) → is_Some (zones w' !! i)) ∧ (n ≤ n')%nat ∧
    (rc' = NGX_DECLINED → nodes w' = ∅) ∧ rc' ∈ answers ∧
    (rc' = NGX_OK → is_Some ((l :: rest) !! (n' - n)%nat)) ∧
    ∀ i, nodes w !! i = None → i ∉ ZONE <$> take (n' - n) (l :: rest) → nodes w' !! i = None) as Hnext.
  { intros w1 rc1 ep1 Hg1 Hz1 Hn1 Hrc1 Hd1.
    destruct (IH w1 (S n) rc1 ep1) as (rc' & n' & ep & w' & E & Hg' & Hz2 & Hle & Hd' & Hin & Hok2 & Hfree);
      [done|done|by intros x Hx; apply Hz1, Hz'| |done|done|].
    { intros x Hx. rewrite Hn1; [apply Hn; by right|]. intros Ex. apply Hnot. rewrite <- Ex. by apply list_elem_of_fmap_2. }
    exists rc', n', ep, w'. split; [exact E|]. split; [done|]. split; [auto|]. split; [lia|]. do 2 (split; [done|]).
    replace (n' - n)%nat with (S (n' - S n)) by lia. split; [exact Hok2|].
    intros i Hi Hnin. cbn in Hnin. apply not_elem_of_cons in Hnin as [Hne Hnin]. apply Hfree; [by rewrite Hn1|done]. }
  destruct (variable (index (ctx_of (ZONE l)))) as [v|] eqn:Ev; [|by apply Hnext].
  destruct ((length v =? 0)%nat || (65535 <? Z.of_nat (length v))) eqn:El; [by apply Hnext|].
  apply orb_false_iff in El as [El1 El2]. apply Nat.eqb_neq in El1. apply Z.ltb_ge in El2.
  destruct (Hz l (list_elem_of_here _ _)) as [s Hs]. destruct (Hg _ _ Hs) as (z & Hzone & Hc).
  assert (K v) as HK by (destruct Hok as [_ Hl]; destruct (Hl l (list_elem_of_here _ _)) as [_ HK]; by apply HK).
  set (account := match rest with [] => true | _ => false end).
  destruct (lookup_ok K (LimitReq.zone_rate ctx_of l) (burst l) now v account s z Hzone HK (zone_apart K s z _ Hzone HK))
    as (r1 & r2 & rc1 & ep & x & s' & z' & E & Hzone' & Es & Hcnt & Hx).
  assert (nodes w !! ZONE l = None) as Hnl by (apply Hn; by left).
  pose proof (good_more base w (ZONE l) s s' z z' x Hg Hb Hnl Hs Hc Hzone' Hcnt) as Hg1.
  erewrite w_bind; [|by eapply run_zone]. set (w1 := mk_world _ _) in Hg1.
  assert (match x with Some node => set_node (ZONE l) node | None => mret tt end
    (w <| zones := <[ZONE l := s']> (zones w) |>) = Some (tt, w1)) as E1 by (by destruct x).
  cbv beta iota. rewrite (w_bind _ _ _ _ _ E1).
  assert (∀ i, is_Some (zones w !! i) → is_Some (zones w1 !! i)) as Hz1.
  { intros i Hi. cbn. destruct (decide (ZONE l = i)) as [->|]; [by rewrite lookup_insert_eq|by rewrite lookup_insert_ne]. }
  destruct (Z.eqb_spec rc1 NGX_AGAIN) as [->|Hrc1].
  - apply Hnext; [done|done| |by right|done]. intros i Hi. cbn. destruct x; [by rewrite lookup_insert_ne|done].
  - assert (x = None) as -> by (destruct x; [exfalso; by apply Hrc1, Hx|done]).
    exists rc1, n, ep, w1. split; [done|]. split; [done|]. split; [done|]. split; [lia|].
    rewrite Nat.sub_diag. destruct (spec_answer _ _ _ _ _ _ _ _ _ _ _ Es) as [Ha Hne]. by repeat split.
Qed.

Lemma all_given_back base w n limits w' : (∀ i, i ∉ ZONE <$> take n limits → nodes w !! i = None) →
  given_back base (rev (take n limits)) w w' → nodes w' = ∅.
Proof.
  intros Hfree (_ & _ & Hn). apply map_eq. intros i. rewrite Hn, lookup_empty.
  destruct (decide _) as [|Hnin]; [done|]. apply Hfree. intros Hin. apply Hnin.
  apply list_elem_of_fmap in Hin as (l & -> & Hl). apply list_elem_of_fmap_2, list_elem_of_In.
  rewrite <- in_rev. by apply list_elem_of_In.
Qed.

(** C17: When no zone of the limits has the rate 0 (see [limit_req_zero_rate]) and
    the keys have at most 255 bytes and CRC-32s of their own, a request passes all
    its limits, is delayed or is refused without any access outside of the zones;
    afterwards it holds no client of any zone, and the zones count for every
    client those that waited for it before. *)
Theorem limit_req_handler_safe limits limit_req_set read_ok now base w : limits_ok limits → has_zones w limits →
  base_ok base → good base w → nodes w = ∅ →
  ∃ a set' w', ngx_http_limit_req_handler ctx_of variable now limits limit_req_set read_ok w = Some ((a, set'), w') ∧
    nodes w' = ∅ ∧ good base w' ∧ (∀ i, is_Some (zones w !! i) → is_Some (zones w' !! i)).
Proof.
  intros Hok Hz Hb Hg Hn. unfold ngx_http_limit_req_handler. destruct limit_req_set.
  { by exists Declined, true, w. }
  destruct (lookups_ok now base limits Hb w 0 NGX_DECLINED 0) as (rc & n & ep & w1 & E & Hg1 & Hz1 & _ & Hd & Hin & Hlim & Hfree);
    [done|done|done|by intros l _; rewrite Hn|by left|done|].
  rewrite (w_bind _ _ _ _ _ E). rewrite Nat.sub_0_r in *.
  destruct (Z.eqb_spec rc NGX_DECLINED) as [->|Hrc]; [exists Declined, false, w1; auto|].
  assert (∀ i, i ∉ ZONE <$> take n limits → nodes w1 !! i = None) as Hfree' by (intros i; apply Hfree; by rewrite Hn).
  assert (has_zones w1 (rev (take n limits))) as Hzr.
  { intros l Hl. apply Hz1, Hz. apply list_elem_of_In in Hl. rewrite <- in_rev in Hl. apply list_elem_of_In in Hl.
    by eapply subseteq_take. }
  destruct ((rc =? NGX_BUSY) || (rc =? NGX_ERROR)) eqn:Erc.
  - destruct (release_all base _ Hb w1 Hg1 Hzr) as (w2 & E2 & Hgb). rewrite (w_bind _ _ _ _ _ E2).
    exists Unavailable, true, w2. split; [done|]. split; [by eapply all_given_back|]. destruct Hgb as (Hg2 & Hz2 & _). auto.
  - assert (∀ d, ∃ d' w2, account_limits ctx_of now (rev (take n limits)) d w1 = Some (d', w2) ∧
      given_back base (rev (take n limits)) w1 w2) as Hacc.
    { intros d. apply account_all; [done| |done|done]. intros l Hl. destruct Hok as [_ Hok]. apply Hok.
      apply list_elem_of_In in Hl. rewrite <- in_rev in Hl. apply list_elem_of_In in Hl. by eapply subseteq_take. }
    set (ep' := if rc =? NGX_AGAIN then 0 else ep). cbv zeta.
    assert (∃ d w2, ngx_http_limit_req_account ctx_of now limits n ep' (limits !! n) w1 = Some (d, w2) ∧
      given_back base (rev (take n limits)) w1 w2) as (d & w2 & E2 & Hgb).
    { unfold ngx_http_limit_req_account. destruct (Z.eqb_spec (s64 ep') 0) as [Ez|Ez]; cbv zeta.
      - erewrite w_bind; [apply Hacc|done].
      - assert (rc = NGX_OK) as ->.
        { unfold ep' in Ez. destruct (Z.eqb_spec rc NGX_AGAIN); [done|]. unfold answers in Hin. clear -Hin Hrc Erc n0. set_solver by lia. }
        destruct (Hlim eq_refl) as [l Hl]. rewrite Hl. destruct (nodelay l); [erewrite w_bind; [apply Hacc|done]|].
        erewrite w_bind; [apply Hacc|]. unfold udiv, LimitReq.zone_rate. rewrite (proj2 (Z.eqb_neq _ 0)); [done|].
        destruct Hok as [_ Hok]. apply Hok. by eapply list_elem_of_lookup_2. }
    rewrite (w_bind _ _ _ _ _ E2). destruct Hgb as (Hg2 & Hz2 & Hn2).
    assert (nodes w2 = ∅) as He by (by eapply all_given_back).
    destruct (d =? 0); [|destruct read_ok; cbn [negb]]; eexists _, _, w2; split; try done; auto.
Qed.
End Zone.

(** ** An allocator

    It hands out the lowest address that is free, of at most 100. *)
Definition cells_alloc (p : gset Z) (size : Z) : option Z * gset Z :=
  if (base.size p <? 100)%nat then let a := fresh p in (Some a, {[a]} ∪ p) else (None, p).
Definition cells_free (p : gset Z) (a : Z) : gset Z := p ∖ {[a]}.

#[export] Instance cells_slab : SlabPool (gset Z).
Proof.
  refine {| ngx_slab_alloc_locked := cells_alloc; ngx_slab_free_locked := cells_free; allocated := id |}.
  - intros p sz a p'. unfold cells_alloc. destruct (_ <? _)%nat; [|done]. intros [= <- <-]. split; [apply is_fresh|done].
  - intros p sz p'. unfold cells_alloc. destruct (_ <? _)%nat; [done|]. by intros [= <-].
  - done.
Defined.

#[export] Instance example_memory : ZoneMemory (gset Z) :=
  {| sentinel := 1; garbage := λ _ _, (mk_node 7 7 7 7 7, mk_lr 7 7 7 7 []) |}.

Definition new_zone : LimitReq.ngx_http_limit_req_shctx_t (P := gset Z) :=
  mk_shctx (mk_store {[1 := mk_node 0 0 0 0 0]} 0) ∅ [] {[1]}.

Definition two_keys (k : list Z) : Prop := k ∈ [bs "a"; bs "b"].

#[export] Instance two_keys_short : Keys two_keys.
Proof.
  intros k Hk. unfold two_keys in Hk. apply elem_of_cons in Hk as [->|Hk]; [cbn; lia|].
  apply list_elem_of_singleton in Hk as ->. cbn. lia.
Qed.

#[export] Instance two_keys_distinct : DistinctKeys two_keys.
Proof.
  intros k k' Hk Hk'. unfold two_keys in *. rewrite elem_of_cons, list_elem_of_singleton in Hk, Hk'.
  destruct Hk as [->| ->], Hk' as [->| ->]; vm_compute; intros H; try done; discriminate H.
Qed.

Lemma key_a : two_keys (bs "a"). Proof. by left. Qed.

Lemma new_zone_ok : ∃ s, init_zone new_zone = Some (tt, s) ∧ zone two_keys s [].
Proof. apply (init_zone_ok two_keys new_zone (mk_node 0 0 0 0 0)); [done|]. cbn. set_solver. Qed.

Lemma new_zone_represents : ∃ s, init_zone new_zone = Some (tt, s) ∧ represents two_keys s [].
Proof. destruct new_zone_ok as (s & E & Hz). exists s. split; [done|]. by exists []. Qed.

Lemma limit_req_lookup_refines_witness : ∃ s room1 room2 rc ep node s' cs',
  init_zone new_zone = Some (tt, s) ∧
  ngx_http_limit_req_lookup 1000 0 5 (ngx_crc32_short (bs "a")) (bs "a") true s = Some ((rc, ep, node), s') ∧
  represents two_keys s' cs' ∧ spec_lookup 1000 0 5 (bs "a") true room1 room2 [] = (rc, ep, cs') ∧
  (is_Some node ↔ rc = NGX_AGAIN).
Proof.
  destruct new_zone_represents as (s & E & Hs).
  destruct (limit_req_lookup_refines two_keys s [] 1000 0 5 (bs "a") true Hs key_a)
    as (r1 & r2 & rc & ep & node & s' & cs' & H); [right; by intros c ?%elem_of_nil|].
  exists s, r1, r2, rc, ep, node, s', cs'. by split.
Defined.

Lemma limit_req_workers_witness : ∃ s, init_zone new_zone = Some (tt, s) ∧
  is_Some (run_event 1000 (Lookup 0 0 5 (bs "a") false) s ∅).
Proof.
  destruct new_zone_ok as (s & E & _). exists s. split; [done|].
  assert (reachable two_keys 4 1000 s ∅) as Hr.
  { apply (reachable_init two_keys 4 1000 new_zone s (mk_node 0 0 0 0 0)); [done|cbn; set_solver|done]. }
  destruct (limit_req_workers two_keys 4 1000 s ∅) as [_ H]; [lia|done|]. apply H. split; [lia|]. split; [done|].
  apply key_a.
Defined.


Definition example_limit (burst : Z) : ngx_http_limit_req_limit_t := mk_limit 0 burst false.
Definition example_ctx (rate : Z) (i : nat) : ngx_http_limit_req_ctx_t := mk_ctx rate 0.
Definition example_variable (i : Z) : option (list Z) := Some (bs "a").

Lemma limit_req_handler_safe_witness : ∃ s a set' w', init_zone new_zone = Some (tt, s) ∧
  ngx_http_limit_req_handler (example_ctx 1000) example_variable 5 [example_limit 0] false true (mk_world {[0%nat := s]} ∅) =
    Some ((a, set'), w') ∧ nodes w' = ∅ ∧ good two_keys (λ _ _, 0) w'.
Proof.
  destruct new_zone_ok as (s & E & Hz).
  destruct (limit_req_handler_safe two_keys (example_ctx 1000) example_variable [example_limit 0] false true 5
    (λ _ _, 0) (mk_world {[0%nat := s]} ∅)) as (a & set' & w' & E' & Hn & Hg & _).
  - split; [apply NoDup_singleton|]. intros l _. split; [done|]. intros v [= <-] _ _. apply key_a.
  - intros l ->%list_elem_of_singleton. by exists s.
  - intros i b. lia.
  - intros i t Ht. cbn in Ht. apply lookup_singleton_Some in Ht as [<- <-]. exists []. split; [done|]. done.
  - done.
  - by exists s, a, set', w'.
Defined.

(** ** What the code does not mean to do *)

(** A key of more than 255 bytes is not found again, because only the low byte of
    its length is kept: it is never limited. *)
Definition long_key : list Z := replicate 256 120.

(** The answers to three requests at the same time without a burst, and whether
    the key was in the zone. *)
Definition three_requests (k : list Z) : option (list (Z * bool)) :=
  match init_zone new_zone with
  | Some (_, s) =>
      match run_requests 1 0 [(5, k); (5, k); (5, k)] s with
      | Some (out, _) => Some (map (λ '(_, rc, known), (rc, known)) out)
      | None => None
      end
  | None => None
  end.

Lemma limit_req_long_key : three_requests long_key = Some [(NGX_OK, false); (NGX_OK, true); (NGX_OK, true)].
Proof. vm_compute. reflexivity. Qed.

(** With a short key the second and the third request are refused. *)
Lemma limit_req_short_key : three_requests (bs "a") = Some [(NGX_OK, false); (NGX_BUSY, true); (NGX_BUSY, true)].
Proof. vm_compute. reflexivity. Qed.

(** A node is put into the tree before it gets its key, so it is compared by
    what was in its memory before.  Of two keys of one checksum the second may
    get to a place where it is not looked for: then it is new again, and not
    limited.  Here the memory was filled with zeros. *)
Definition zero_memory : ZoneMemory (gset Z) :=
  {| sentinel := 1; garbage := λ _ _, (mk_node 0 0 0 0 0, mk_lr 0 0 0 0 (replicate 255 0)) |}.

Definition first_key : list Z := bs "adwoqc8j".
Definition second_key : list Z := bs "xs4ibwwl".

(** The answers to requests at the same time without a burst. *)
Definition answers_in_zero_memory (keys : list (list Z)) : option (list Z) :=
  match init_zone (ZoneMemory0 := zero_memory) new_zone with
  | Some (_, s) =>
      match run_requests (ZoneMemory0 := zero_memory) 1 0 (map (λ k, (5, k)) keys) s with
      | Some (out, _) => Some (map (λ '(_, rc, _), rc) out)
      | None => None
      end
  | None => None
  end.

Lemma limit_req_collision : ngx_crc32_short first_key = ngx_crc32_short second_key ∧
  answers_in_zero_memory [second_key; second_key; second_key] = Some [NGX_OK; NGX_BUSY; NGX_BUSY] ∧
  answers_in_zero_memory [first_key; second_key; second_key; second_key] = Some [NGX_OK; NGX_OK; NGX_OK; NGX_BUSY].
Proof. vm_compute. done. Qed.

(** [rate=0r/s] is a rate, and the delay of a request is divided by it. *)
Definition handle_at_rate (rate : Z) (w : world (P := gset Z)) : option (answer * bool * world) :=
  ngx_http_limit_req_handler (example_ctx rate) example_variable 5 [example_limit 5000] false true w.

Lemma limit_req_zero_rate :
  ngx_http_limit_req_zone 4096 (λ _, 0) (λ _ _, Some 0%nat) [bs "zone=one:1m"; bs "rate=0r/s"; bs "$remote_addr"] (λ _, None) =
    Some (0%nat, mk_ctx 0 0) ∧
  match init_zone new_zone with
  | Some (_, s) =>
      match handle_at_rate 0 (mk_world {[0%nat := s]} ∅) with
      | Some (a, _, w) => a = Declined ∧ handle_at_rate 0 w = None
      | None => False
      end
  | None => False
  end.
Proof. split; vm_compute; [reflexivity|split; reflexivity]. Qed.
End LimitReqProof.
