(* ===== verification/LimitConn.v ===== *)
(** * Connection limiting

    src/http/modules/ngx_http_limit_conn_module.c.  A zone of shared memory holds
    a red-black tree of the clients that have connections now, by the CRC-32 of
    their key, with the number of these connections.  A request counts itself in
    the zones of its location and registers cleanups in its pool that take it out
    again; the last one of a client frees the client's node.

    The allocator of a zone is the interface [SlabPool] of LimitReq.v; [garbage]
    is what is in memory that was just allocated. *)

From stdpp Require Import gmap.
From S2P Require Import Prelude Rbtree RbtreeRep RbtreeInsert RbtreeDelete StringOps Number Checksum LimitReq.
Import Rbtree.Rbtree RbtreeInsert.RbtreeInsert.
Import StringOps.StringOps Checksum.Checksum.
Open Scope Z_scope.

Module LimitConn.

Abbreviation NGX_HTTP_SERVICE_UNAVAILABLE := 503.
Abbreviation NGX_HTTP_INTERNAL_SERVER_ERROR := 500.

Abbreviation SlabPool := LimitReq.LimitReq.SlabPool.
Abbreviation ngx_slab_alloc_locked := LimitReq.LimitReq.ngx_slab_alloc_locked.
Abbreviation ngx_slab_free_locked := LimitReq.LimitReq.ngx_slab_free_locked.
Abbreviation allocated := LimitReq.LimitReq.allocated.

(** ** Data *)

(** [ngx_http_limit_conn_node_t]; [color] is in the node of the tree. *)
Record ngx_http_limit_conn_node_t := mk_lc { len : Z; conn : Z; data : list Z }.

#[export] Instance eta_lc : Eta ngx_http_limit_conn_node_t := λ r, mk_lc (len r) (conn r) (data r).

(** [offsetof(ngx_rbtree_node_t, color) + offsetof(ngx_http_limit_conn_node_t, data)] *)
Definition node_size : Z := 32 + 4.

(** [ngx_http_limit_conn_limit_t]; a zone has a number. *)
Record ngx_http_limit_conn_limit_t := mk_limit { shm_zone : nat; limit_conn : Z }.

(** The cleanups of a pool: [ngx_http_limit_conn_cleanup] with its data, and
    those of others. *)
Inductive cleanup := ConnCleanup (shm_zone : nat) (node : Z) | OtherCleanup (handler : nat).

(** The address of the sentinel, and what is in the memory at an address when it
    is allocated. *)
Class ConnMemory (P : Type) := {
  sentinel : Z;
  garbage : P → Z → node * ngx_http_limit_conn_node_t;
}.

Section Zone.
Context {P : Type} `{!SlabPool P, !ConnMemory P}.

(** [ctx->rbtree], and the memory of the zone. *)
Record shctx := mk_shctx {
  rbtree : store;
  lcs : gmap Z ngx_http_limit_conn_node_t;
  shpool : P;
}.

#[export] Instance eta_shctx : Eta shctx := λ s, mk_shctx (rbtree s) (lcs s) (shpool s).

Definition T (A : Type) : Type := shctx → option (A * shctx).

#[export] Instance T_ret : MRet T := λ A x s, Some (x, s).
#[export] Instance T_bind : MBind T := λ A B f m s,
  match m s with Some (x, s') => f x s' | None => None end.

Definition on_tree {A} (m : M A) : T A := λ s,
  '(x, t) ← m (rbtree s); Some (x, s <| rbtree := t |>).
Definition lift {A} (o : option A) : T A := λ s, x ← o; Some (x, s).
Definition get_fuel : T nat := λ s, Some (fuel_of (rbtree s), s).
Definition get_lcs : T (gmap Z ngx_http_limit_conn_node_t) := λ s, Some (lcs s, s).
Definition get_lc (a : Z) : T ngx_http_limit_conn_node_t := λ s, r ← lcs s !! a; Some (r, s).
Definition update_lc (f : ngx_http_limit_conn_node_t → ngx_http_limit_conn_node_t) (a : Z) : T unit := λ s,
  r ← lcs s !! a; Some (tt, s <| lcs := <[a := f r]> (lcs s) |>).

(** The memory of a node comes and goes with its allocation. *)
Definition slab_alloc (size : Z) : T (option Z) := λ s,
  let '(r, p) := ngx_slab_alloc_locked (shpool s) size in
  match r with
  | None => Some (None, s <| shpool := p |>)
  | Some a =>
      let '(n, r) := garbage (shpool s) a in
      Some (Some a, mk_shctx (mk_store (<[a := n]> (mem (rbtree s))) (root (rbtree s))) (<[a := r]> (lcs s)) p)
  end.

Definition slab_free (a : Z) : T unit := λ s,
  _ ← lcs s !! a;
  Some (tt, mk_shctx (mk_store (delete a (mem (rbtree s))) (root (rbtree s))) (delete a (lcs s))
    (ngx_slab_free_locked (shpool s) a)).

(** ** ngx_http_limit_conn_rbtree_insert_value *)

Definition node_before (L : gmap Z ngx_http_limit_conn_node_t) (node temp : Z) : option bool :=
  lcn ← L !! node; lcnt ← L !! temp;
  c ← ngx_memn2cmp (data lcn) (data lcnt) (Z.to_nat (len lcn)) (Z.to_nat (len lcnt));
  Some (c <? 0).

Fixpoint insert_value_loop (L : gmap Z ngx_http_limit_conn_node_t) (fuel : nat) (temp node : Z) : M (Z * bool) :=
  match fuel with
  | O => stuck
  | S fuel =>
      nk ← node @ key;
      tk ← temp @ key;
      go_left ← (if nk <? tk then mret true
                 else if tk <? nk then mret false
                 else λ s, b ← node_before L node temp; Some (b, s));
      p ← (if (go_left : bool) then temp @ left else temp @ right);
      if p =? sentinel then mret (temp, go_left) else insert_value_loop L fuel p node
  end.

Definition ngx_http_limit_conn_rbtree_insert_value (L : gmap Z ngx_http_limit_conn_node_t) (temp node : Z) : M unit :=
  λ s, ('(temp, go_left) ← insert_value_loop L (fuel_of s) temp node; attach sentinel temp go_left node) s.

(** ** ngx_http_limit_conn_lookup *)

Fixpoint find_loop (hash : Z) (key_ : list Z) (fuel : nat) (node : Z) : T (option Z) :=
  match fuel with
  | O => λ _, None
  | S fuel =>
      if node =? sentinel then mret None
      else
        k ← on_tree (node @ key);
        if hash <? k then node ← on_tree (node @ left); find_loop hash key_ fuel node
        else if k <? hash then node ← on_tree (node @ right); find_loop hash key_ fuel node
        else
          lcn ← get_lc node;
          rc ← lift (ngx_memn2cmp key_ (data lcn) (length key_) (Z.to_nat (len lcn)));
          if rc =? 0 then mret (Some node)
          else
            node ← (if rc <? 0 then on_tree (node @ left) else on_tree (node @ right));
            find_loop hash key_ fuel node
  end.

Definition ngx_http_limit_conn_lookup (hash : Z) (key_ : list Z) : T (option Z) :=
  r ← on_tree get_root;
  fuel ← get_fuel;
  find_loop hash key_ fuel r.

(** ** The locked part of the handler *)

Inductive verdict := NoMemory | Limited | Counted (node : Z).

(** A node that was just allocated. *)
Definition add_node (hash : Z) (key_ : list Z) (node : Z) : T unit :=
  on_tree (node @ key := hash);;
  update_lc (λ lc, lc <| len := u8 (Z.of_nat (length key_)) |> <| conn := 1 |> <| data := key_ |>) node;;
  L ← get_lcs;
  on_tree (ngx_rbtree_insert sentinel (ngx_http_limit_conn_rbtree_insert_value L) node).

Definition count_connection (max hash : Z) (key_ : list Z) : T verdict :=
  node ← ngx_http_limit_conn_lookup hash key_;
  match node with
  | None =>
      node ← slab_alloc (node_size + Z.of_nat (length key_));
      match node with
      | None => mret NoMemory
      | Some node => add_node hash key_ node;; mret (Counted node)
      end
  | Some node =>
      lc ← get_lc node;
      if max <=? conn lc then mret Limited
      else
        update_lc (λ lc, lc <| conn := u16 (conn lc + 1) |>) node;;
        mret (Counted node)
  end.

(** ** ngx_http_limit_conn_cleanup *)

Definition ngx_http_limit_conn_cleanup (node : Z) : T unit :=
  update_lc (λ lc, lc <| conn := u16 (conn lc - 1) |>) node;;
  lc ← get_lc node;
  if conn lc =? 0 then on_tree (ngx_rbtree_delete sentinel node);; slab_free node
  else mret tt.

(** ** ngx_http_limit_conn_init_zone

    [octx] is the variable of the zone in the configuration before, [exists_] is
    [shm.exists], and [room] whether the tree, the sentinel and the text for the
    log were allocated. *)
Definition ngx_http_limit_conn_init_zone (var : list Z) (octx : option (list Z)) (exists_ room : bool) : T Z :=
  match octx with
  | Some ovar => mret (if bool_decide (var = ovar) then NGX_OK else NGX_ERROR)
  | None =>
      if exists_ then mret NGX_OK
      else if room then on_tree (ngx_rbtree_init sentinel);; mret NGX_OK
      else mret NGX_ERROR
  end.
End Zone.

(** ** The handler *)

Section Handler.
Context {P : Type} `{!SlabPool P, !ConnMemory P}.

(** The zones, and [r->pool->cleanup]. *)
Record world := mk_world { zones : gmap nat (shctx (P := P)); cleanups : list cleanup }.

#[export] Instance eta_world : Eta world := λ w, mk_world (zones w) (cleanups w).

Definition W (A : Type) : Type := world → option (A * world).

#[export] Instance W_ret : MRet W := λ A x w, Some (x, w).
#[export] Instance W_bind : MBind W := λ A B f m w,
  match m w with Some (x, w') => f x w' | None => None end.

Definition on_zone {A} (i : nat) (m : T A) : W A := λ w,
  s ← zones w !! i; '(x, s') ← m s; Some (x, w <| zones := <[i := s']> (zones w) |>).
Definition get_cleanups : W (list cleanup) := λ w, Some (cleanups w, w).
Definition set_cleanups (l : list cleanup) : W unit := λ w, Some (tt, w <| cleanups := l |>).

(** The cleanups of this module that are in front. *)
Fixpoint cleanup_loop (l : list cleanup) : W unit :=
  match l with
  | ConnCleanup i node :: l => on_zone i (ngx_http_limit_conn_cleanup node);; cleanup_loop l
  | _ => set_cleanups l
  end.

Definition ngx_http_limit_conn_cleanup_all : W unit := l ← get_cleanups; cleanup_loop l.

(** [ngx_destroy_pool]: all the cleanups; what the others do does not matter
    here. *)
Fixpoint run_cleanups (l : list cleanup) : W unit :=
  match l with
  | [] => set_cleanups []
  | ConnCleanup i node :: l => on_zone i (ngx_http_limit_conn_cleanup node);; run_cleanups l
  | OtherCleanup _ :: l => run_cleanups l
  end.

Definition destroy_pool : W unit := l ← get_cleanups; run_cleanups l.

(** [ctx->index] of a zone, the value of a variable, and whether
    [ngx_pool_cleanup_add] succeeds for the limit [i]. *)
Context (index_of : nat → Z) (variable : Z → option (list Z)) (cleanup_add : nat → bool).

(** The loop, from limit [i] on: the answer and [limit_conn_set]. *)
Fixpoint limits_loop (limits : list ngx_http_limit_conn_limit_t) (i : nat) (set : bool) : W (Z * bool) :=
  match limits with
  | [] => mret (NGX_DECLINED, set)
  | limit :: limits =>
      match variable (index_of (shm_zone limit)) with
      | None => limits_loop limits (S i) set
      | Some vv =>
          let len := length vv in
          if (len =? 0)%nat || (255 <? Z.of_nat len) then limits_loop limits (S i) set
          else
            let hash := ngx_crc32_short vv in
            v ← on_zone (shm_zone limit) (count_connection (limit_conn limit) hash vv);
            match v with
            | NoMemory | Limited =>
                ngx_http_limit_conn_cleanup_all;;
                mret (NGX_HTTP_SERVICE_UNAVAILABLE, true)
            | Counted node =>
                if cleanup_add i then
                  l ← get_cleanups;
                  set_cleanups (ConnCleanup (shm_zone limit) node :: l);;
                  limits_loop limits (S i) true
                else mret (NGX_HTTP_INTERNAL_SERVER_ERROR, true)
            end
      end
  end.

Definition ngx_http_limit_conn_handler (limits : list ngx_http_limit_conn_limit_t) (limit_conn_set : bool) : W (Z * bool) :=
  if limit_conn_set then mret (NGX_DECLINED, true) else limits_loop limits 0 false.
End Handler.

(** ** Directives *)

(** The name and the size of the zone, and the variable with its index. *)
Record zone_conf := mk_zone_conf { z_name : list Z; z_size : Z; z_ctx : option (list Z * Z) }.

#[export] Instance eta_zone_conf : Eta zone_conf := λ z, mk_zone_conf (z_name z) (z_size z) (z_ctx z).

Abbreviation starts_with := LimitReq.LimitReq.starts_with.

Section Directives.

(** [ngx_http_get_variable_index]; [ngx_shared_memory_add], the number of a
    zone. *)
Context (ngx_pagesize : Z) (get_variable_index : list Z → Z).
Context (shared_memory_add : list Z → Z → option nat).

(** [zone=name:size]; [None] is NGX_CONF_ERROR. *)
Definition zone_argument (value : list Z) (z : zone_conf) : option zone_conf :=
  let name := drop 5 value in
  '(i, _) ← list_find (λ c, c = ":"%ch) name;
  let size := Number.Number.ngx_parse_size (drop (S i) name) in
  if size =? NGX_ERROR then None
  else if size <? 8 * ngx_pagesize then None
  else Some (z <| z_name := take i name |> <| z_size := size |>).

(** [$variable] *)
Definition variable_argument (name : list Z) : option (list Z * Z) :=
  let index := get_variable_index name in
  if index =? NGX_ERROR then None else Some (name, index).

Fixpoint zone_arguments (values : list (list Z)) (z : zone_conf) : option zone_conf :=
  match values with
  | [] => Some z
  | value :: values =>
      z ← (if starts_with (bs "zone=") value then zone_argument value z
           else match value with
                | c :: name =>
                    if c =? "$"%ch then ctx ← variable_argument name; Some (z <| z_ctx := Some ctx |>) else None
                | [] => None
                end);
      zone_arguments values z
  end.

(** A zone with its variable and index; [data] are those of the zones that have
    them. *)
Definition bind_zone (data : nat → option (list Z * Z)) (name : list Z) (size : Z) (ctx : list Z * Z)
    : option (nat * (list Z * Z)) :=
  zone ← shared_memory_add name size;
  match data zone with Some _ => None | None => Some (zone, ctx) end.

Definition ngx_http_limit_conn_zone (values : list (list Z)) (data : nat → option (list Z * Z))
    : option (nat * (list Z * Z)) :=
  z ← zone_arguments values (mk_zone_conf [] 0 None);
  if (length (z_name z) =? 0)%nat then None
  else ctx ← z_ctx z; bind_zone data (z_name z) (z_size z) ctx.

(** [limit_zone name $variable size], which is deprecated. *)
Definition ngx_http_limit_zone (name variable size : list Z) (data : nat → option (list Z * Z))
    : option (nat * (list Z * Z)) :=
  match variable with
  | c :: var =>
      if c =? "$"%ch then
        ctx ← variable_argument var;
        let n := Number.Number.ngx_parse_size size in
        if n =? NGX_ERROR then None
        else if n <? 8 * ngx_pagesize then None
        else bind_zone data name n ctx
      else None
  | [] => None
  end.

(** [limit_conn zone number]: the limits of the location with the new one. *)
Definition ngx_http_limit_conn (zone number : list Z) (limits : list ngx_http_limit_conn_limit_t)
    : option (list ngx_http_limit_conn_limit_t) :=
  zone ← shared_memory_add zone 0;
  if existsb (λ l, (shm_zone l =? zone)%nat) limits then None
  else
    let n := Number.Number.ngx_atoi number in
    if n <=? 0 then None
    else if 65535 <? n then None
    else Some (limits ++ [mk_limit zone n]).
End Directives.

(** Merging: the limits, [None] for [NULL], and [log_level], -1 for
    [NGX_CONF_UNSET_UINT]. *)
Definition ngx_http_limit_conn_merge_conf (prev conf : option (list ngx_http_limit_conn_limit_t) * Z)
    : option (list ngx_http_limit_conn_limit_t) * Z :=
  (match conf.1 with None => prev.1 | limits => limits end,
   if conf.2 =? -1 then (if prev.2 =? -1 then 4 else prev.2) else conf.2).

End LimitConn.
