(* ===== verification/LimitConnProof.v ===== *)
(** * Connection limiting is correct

    The tree, the memory and the searches of a zone are those of request
    limiting without the queue, so a zone of connections is looked at as a zone
    of LimitReqZone.v whose queue is in any order ([emb]), and what was proved
    there is carried over by a simulation.  Then: whatever requests begin and
    end in the processes that share the zones, a client is counted once for each
    cleanup that will take it out again. *)

From stdpp Require Import gmap sorting relations.
From S2P Require Import Prelude Rbtree RbtreeRep RbtreeInsert RbtreeDelete StringOps Checksum LimitReq LimitReqZone LimitReqProof LimitConn.
Import Rbtree.Rbtree Checksum.Checksum LimitReq.LimitReq LimitReqZone.LimitReqZone LimitConn.LimitConn.
Open Scope Z_scope.

Module LimitConnProof.

Module LR := LimitReq.LimitReq.
Abbreviation count := c_count.

Section Zone.
Context {P : Type} `{!SlabPool P, !ConnMemory P}.
#[local] Abbreviation shctx := (LimitConn.shctx (P := P)).
#[local] Abbreviation T := (LimitConn.T (P := P)).

(** ** The simulation *)

Definition to_lr (lc : ngx_http_limit_conn_node_t) : LR.ngx_http_limit_req_node_t :=
  LR.mk_lr (len lc) 0 0 (conn lc) (data lc).

#[export] Instance conn_memory : LR.ZoneMemory P :=
  {| LR.sentinel := sentinel; LR.garbage := λ p a, let '(n, r) := garbage p a in (n, to_lr r) |}.

#[export] Instance to_lr_inj : Inj (=) (=) to_lr.
Proof. intros [] [] E. unfold to_lr in E. cbn in E. by injection E as -> -> ->. Qed.

Definition emb (q : list Z) (s : shctx) : LR.ngx_http_limit_req_shctx_t (P := P) :=
  LR.mk_shctx (rbtree s) (to_lr <$> lcs s) q (shpool s).

Lemma emb_inj q q' s s' : emb q s = emb q' s' → s = s' ∧ q = q'.
Proof.
  destruct s, s'. unfold emb. cbn. intros [= -> E -> ->]. apply (inj (fmap to_lr)) in E as ->. done.
Qed.

(** Where the code of this module does what that of request limiting does. *)
Definition sim {A} (q q' : list Z) (m : T A) (m' : LR.T (P := P) A) : Prop :=
  ∀ s, m' (emb q s) = (λ '(x, s'), (x, emb q' s')) <$> m s.

Lemma sim_ret {A} q (x : A) : sim q q (mret x) (mret x).
Proof. done. Qed.

Lemma sim_bind {A B} q q1 q2 (m : T A) m' (f : A → T B) f' :
  sim q q1 m m' → (∀ x, sim q1 q2 (f x) (f' x)) → sim q q2 (m ≫= f) (m' ≫= f').
Proof.
  intros Hm Hf s. unfold mbind at 1, LR.T_bind. rewrite Hm. unfold mbind, T_bind.
  destruct (m s) as [[x s']|]; cbn; [apply Hf|done].
Qed.

Lemma sim_tree {A} q (m : M A) : sim q q (on_tree m) (LR.on_tree m).
Proof.
  intros s. unfold on_tree, LR.on_tree. cbn [LR.rbtree emb].
  destruct (m (rbtree s)) as [[x t]|]; [|done]. by destruct s.
Qed.

Lemma sim_get {B} q q' a (f : _ → T B) f' :
  (∀ r, sim q q' (f r) (f' (to_lr r))) → sim q q' (get_lc a ≫= f) (LR.get_lr a ≫= f').
Proof.
  intros Hf s. unfold mbind, LR.T_bind, T_bind, LR.get_lr, get_lc. cbn [LR.lrs emb].
  rewrite lookup_fmap. destruct (lcs s !! a) as [r|]; [|done]. cbn. apply Hf.
Qed.

Lemma sim_lift {A} q (o : option A) : sim q q (lift o) (LR.lift o).
Proof. intros s. unfold lift, LR.lift. by destruct o. Qed.

Lemma sim_find q hash k fuel : ∀ node, sim q q (find_loop hash k fuel node) (LR.find_loop hash k fuel node).
Proof.
  induction fuel as [|fuel IH]; intros node; cbn [find_loop LR.find_loop]; [done|].
  change LR.sentinel with sentinel. destruct (node =? sentinel); [apply sim_ret|].
  eapply sim_bind; [apply sim_tree|]. intros ka.
  destruct (hash <? ka); [eapply sim_bind; [apply sim_tree|apply IH]|].
  destruct (ka <? hash); [eapply sim_bind; [apply sim_tree|apply IH]|].
  apply sim_get. intros r. eapply sim_bind; [apply sim_lift|]. intros rc.
  destruct (rc =? 0); [apply sim_ret|].
  eapply sim_bind; [|apply IH]. destruct (rc <? 0); apply sim_tree.
Qed.

Lemma sim_alloc q size : sim q q (slab_alloc size) (LR.slab_alloc size).
Proof.
  intros s. unfold slab_alloc, LR.slab_alloc. cbn [LR.shpool emb].
  destruct (LR.ngx_slab_alloc_locked (shpool s) size) as [[a|] p]; [|done].
  cbn [LR.garbage conn_memory]. destruct (garbage (shpool s) a) as [n r]. cbn.
  unfold emb. cbn. by rewrite fmap_insert.
Qed.

Lemma sim_free q a : sim q q (slab_free a) (LR.slab_free a).
Proof.
  intros s. unfold slab_free, LR.slab_free. cbn [LR.lrs emb]. rewrite lookup_fmap.
  destruct (lcs s !! a); [|done]. cbn. unfold emb. cbn. by rewrite fmap_delete.
Qed.

Lemma insert_loop_same L fuel : ∀ temp node s,
  insert_value_loop L fuel temp node s = LR.insert_value_loop (to_lr <$> L) fuel temp node s.
Proof.
  assert (∀ node temp, node_before L node temp = LR.node_before (to_lr <$> L) node temp) as Eb.
  { intros node temp. unfold node_before, LR.node_before. rewrite !lookup_fmap.
    destruct (L !! node); [|done]. cbn. by destruct (L !! temp). }
  induction fuel as [|fuel IH]; intros temp node s; [done|]. cbn [insert_value_loop LR.insert_value_loop].
  change LR.sentinel with sentinel. unfold mbind, M_bind.
  destruct (get key node s) as [[nk s1]|]; [|done]. destruct (get key temp s1) as [[tk s2]|]; [|done].
  rewrite Eb. repeat (case_match; try done).
Qed.

Lemma insert_value_same L temp node s :
  ngx_http_limit_conn_rbtree_insert_value L temp node s =
  LR.ngx_http_limit_req_rbtree_insert_value (to_lr <$> L) temp node s.
Proof.
  unfold ngx_http_limit_conn_rbtree_insert_value, LR.ngx_http_limit_req_rbtree_insert_value, mbind, M_bind.
  by rewrite insert_loop_same.
Qed.

Lemma rbtree_insert_same L node s :
  ngx_rbtree_insert sentinel (ngx_http_limit_conn_rbtree_insert_value L) node s =
  ngx_rbtree_insert sentinel (LR.ngx_http_limit_req_rbtree_insert_value (to_lr <$> L)) node s.
Proof.
  unfold ngx_rbtree_insert, mbind, M_bind.
  destruct (get_root s) as [[r s1]|]; [|done]. destruct (r =? sentinel); [done|]. by rewrite insert_value_same.
Qed.

(** ** A zone and its clients *)

#[local] Abbreviation K := short_key.

(** The zone holds the clients [z], each at its address. *)
Definition czone (s : shctx) (z : list (Z * client)) : Prop := zone K (emb z.*1 s) z.

Lemma czone_permute s z z' : czone s z → z' ≡ₚ z → czone s z'.
Proof. intros Hz Hp. exact (zone_permute K _ _ _ Hz Hp). Qed.

Lemma czone_nodup s z : czone s z → NoDup z.*1.
Proof. intros Hz%zone_nodup. by apply list.NoDup_cons in Hz as [_ ?]. Qed.

Lemma czone_node s z a c : czone s z → (a, c) ∈ z →
  ∃ r, lcs s !! a = Some r ∧ to_lr r = lr_of c.
Proof.
  intros Hz Hin. pose proof (zone_lrs _ _ _ Hz a c Hin) as E. cbn in E.
  rewrite lookup_fmap in E. apply fmap_Some in E as (r & Hr & E). by exists r.
Qed.

Lemma c_bind {A B} (m : T A) (f : A → T B) s x s' : m s = Some (x, s') → (m ≫= f) s = f x s'.
Proof. unfold mbind, T_bind. by intros ->. Qed.

Lemma sim_run {A} q q' (m : T A) m' s x s1 : sim q q' m m' → m' (emb q s) = Some (x, s1) →
  ∃ s', m s = Some (x, s') ∧ s1 = emb q' s'.
Proof.
  intros Hs E. rewrite Hs in E. apply fmap_Some in E as ([y s'] & Em & [= -> ->]). by exists s'.
Qed.

Lemma conn_lookup_ok s z k : czone s z →
  ∃ r, ngx_http_limit_conn_lookup (ngx_crc32_short k) k s = Some (r, s) ∧
    match r with Some a => ∃ c, (a, c) ∈ z ∧ c_key c = k | None => ∀ a c, (a, c) ∈ z → c_key c ≠ k end.
Proof.
  intros Hz. destruct (find_client K _ _ k Hz) as (r & E & Hr). exists r. split; [|exact Hr].
  unfold ngx_http_limit_conn_lookup. rewrite (c_bind _ _ s (root (rbtree s)) s) by (by destruct s).
  rewrite (c_bind get_fuel _ s (fuel_of (rbtree s)) s) by done.
  destruct (sim_run _ _ _ _ s r _ (sim_find _ _ _ _ _) E) as (s' & E' & Es).
  apply emb_inj in Es as [<- _]. exact E'.
Qed.

Lemma conn_alloc_ok s z size : czone s z →
  ∃ r s', slab_alloc size s = Some (r, s') ∧ czone s' z ∧
    match r with Some a => has_room a (emb z.*1 s') z | None => True end.
Proof.
  intros Hz. destruct (room_ok K _ _ size Hz) as (r & s1 & E & Hz1 & Hroom).
  destruct (sim_run _ _ _ _ s r _ (sim_alloc _ _) E) as (s' & E' & ->). by exists r, s'.
Qed.

Lemma conn_update {B} g a (f : unit → T B) s r : lcs s !! a = Some r →
  (update_lc g a ≫= f) s = f tt (s <| lcs := <[a := g r]> (lcs s) |>).
Proof. intros H. apply c_bind. unfold update_lc. by rewrite H. Qed.

(** A client with [n] connections. *)
Definition conns (k : list Z) (n : Z) : client := mk_client k 0 0 n.

Lemma conn_add_ok s z a k : czone s z → has_room a (emb z.*1 s) z → K k →
  (∀ b c, (b, c) ∈ z → c_key c ≠ k) →
  ∃ s', add_node (ngx_crc32_short k) k a s = Some (tt, s') ∧ czone s' ((a, conns k 1) :: z).
Proof.
  intros Hz Hroom HK Hnew. pose proof Hroom as (_ & _ & [n Hn] & [lr Hlr]). cbn in Hn, Hlr.
  rewrite lookup_fmap in Hlr. apply fmap_Some in Hlr as (r & Hr & _).
  set (lc := mk_lc (Z.of_nat (length k)) 1 k).
  destruct (insert_filled K _ _ a k n (to_lr lc) Hz Hroom HK Hnew Hn eq_refl eq_refl) as (t & Hins & Hzone).
  cbn in Hins, Hzone. unfold add_node. set (h := ngx_crc32_short k) in *.
  assert (on_tree (a @ key := h) s = Some (tt, s <| rbtree := with_hash (emb z.*1 s) a n h |>)) as E
    by (unfold on_tree, update; by rewrite Hn).
  rewrite (c_bind _ _ _ _ _ E). clear E. erewrite conn_update; [|exact Hr].
  assert (u8 (Z.of_nat (length k)) = Z.of_nat (length k)) as E8 by (apply u8_id; pose proof (keys_short _ HK); lia).
  replace (r <| len := u8 (Z.of_nat (length k)) |> <| conn := 1 |> <| data := k |>) with lc
    by (rewrite E8; by destruct r).
  erewrite c_bind; [|done]. unfold on_tree at 1. cbn [rbtree lcs set_field].
  rewrite <- fmap_insert in Hins. rewrite rbtree_insert_same, Hins. cbn.
  eexists. split; [done|]. unfold czone, emb. cbn. rewrite fmap_insert. exact Hzone.
Qed.

(** The number of a client's connections changes. *)
Lemma conn_set_ok s z rest a c r n : czone s z → z ≡ₚ (a, c) :: rest → lcs s !! a = Some r →
  czone (s <| lcs := <[a := r <| conn := n |>]> (lcs s) |>) ((a, c <| c_count := n |>) :: rest).
Proof.
  intros Hz Hp Hr. assert ((a, c) ∈ z) as Hin by (rewrite Hp; left).
  destruct (czone_node _ _ _ _ Hz Hin) as (r' & Hr' & E). rewrite Hr in Hr'. injection Hr' as <-.
  pose proof (czone_permute _ _ _ Hz (symmetry Hp)) as Hz'.
  set (c' := c <| c_count := n |>).
  pose proof (zone_update K _ rest a c c' Hz' eq_refl) as Hu.
  unfold czone, emb. cbn in *. rewrite fmap_insert.
  replace (to_lr (r <| conn := n |>)) with (lr_of c'); [exact Hu|].
  unfold c'. destruct r, c. unfold to_lr, lr_of in *. cbn in *. by injection E as -> <- <- _ ->.
Qed.

Lemma conn_remove_ok s z rest a c : czone s z → z ≡ₚ (a, c) :: rest →
  ∃ s', (on_tree (ngx_rbtree_delete sentinel a);; slab_free a) s = Some (tt, s') ∧ czone s' rest.
Proof.
  intros Hz Hp. assert (rest ++ [(a, c)] ≡ₚ z) as Hp' by (rewrite Hp; by rewrite Permutation_app_comm).
  pose proof (czone_permute _ _ _ Hz Hp') as Hz'.
  destruct (remove_ok K _ _ _ _ Hz') as (s1 & Hz1 & E). specialize (E unit (mret tt)).
  set (q := (rest ++ [(a, c)]).*1) in *.
  assert (sim q (filter (λ x, x ≠ a) q) (mret tt;; on_tree (ngx_rbtree_delete sentinel a);; slab_free a)
    (LR.ngx_queue_remove a;; LR.on_tree (ngx_rbtree_delete sentinel a);; LR.slab_free a;; mret tt)) as Hsim.
  { apply (sim_bind (A := unit) q (filter (λ x, x ≠ a) q)); [done|]. intros _.
    eapply sim_bind; [apply sim_tree|]. intros _ t.
    unfold mbind, LR.T_bind. rewrite (sim_free _ a t). by destruct (slab_free a t) as [[[] ?]|]. }
  destruct (sim_run _ _ _ _ s tt s1 Hsim) as (s' & E' & ->); [exact E|].
  exists s'. split; [exact E'|]. pose proof (zone_queue _ _ _ Hz1) as Eq. cbn in Eq.
  unfold czone. rewrite <- Eq. exact Hz1.
Qed.

(** ** Counting a connection and taking it out again *)

(** Every client has a connection, and none more than [cap]. *)
Definition live (cap : Z) (z : list (Z * client)) : Prop :=
  ∀ a c, (a, c) ∈ z → 1 ≤ count c ≤ cap.

(** What the verdict says of the clients before and after. *)
Definition counted_ok (max : Z) (k : list Z) (z z' : list (Z * client)) (v : verdict) : Prop :=
  match v with
  | NoMemory => z' = z ∧ ∀ a c, (a, c) ∈ z → c_key c ≠ k
  | Limited => z' = z ∧ ∃ a c, (a, c) ∈ z ∧ c_key c = k ∧ max ≤ count c
  | Counted a =>
      (∃ c rest, z ≡ₚ (a, c) :: rest ∧ c_key c = k ∧ count c < max ∧
         z' = (a, c <| c_count := count c + 1 |>) :: rest) ∨
      ((∀ b c, (b, c) ∈ z → c_key c ≠ k) ∧ a ∉ z.*1 ∧ z' = (a, conns k 1) :: z)
  end.

Lemma conn_count_ok s z k max cap : czone s z → live cap z → K k → 1 ≤ max ≤ cap → cap ≤ 65535 →
  ∃ v s' z', count_connection max (ngx_crc32_short k) k s = Some (v, s') ∧ czone s' z' ∧ live cap z' ∧
    counted_ok max k z z' v.
Proof.
  intros Hz Hl HK Hmax Hcap. unfold count_connection.
  destruct (conn_lookup_ok s z k Hz) as (found & E & Hf). rewrite (c_bind _ _ _ _ _ E). clear E.
  destruct found as [a|].
  - destruct Hf as (c & Hin & Hk). destruct (czone_node _ _ _ _ Hz Hin) as (r & Hr & Er).
    assert (conn r = count c) as En by (by injection Er).
    rewrite (c_bind _ _ s r s) by (unfold get_lc; by rewrite Hr). rewrite En.
    pose proof (Hl _ _ Hin) as Hc.
    destruct (Z.leb_spec max (count c)) as [Hle|Hlt].
    { exists Limited, s, z. split; [done|]. do 2 (split; [done|]). split; [done|]. by exists a, c. }
    erewrite conn_update; [|exact Hr]. rewrite En, u16_id by lia.
    apply list.elem_of_Permutation in Hin as [rest Hp].
    eexists (Counted a), _, ((a, c <| c_count := count c + 1 |>) :: rest). split; [done|].
    split; [by eapply conn_set_ok|]. split; [|left; by exists c, rest].
    intros b d [[= -> ->]|Hd]%elem_of_cons; [cbn; lia|]. apply (Hl b). rewrite Hp. by right.
  - destruct (conn_alloc_ok s z (node_size + Z.of_nat (length k)) Hz) as (r & s1 & E & Hz1 & Hroom).
    rewrite (c_bind _ _ _ _ _ E). clear E. destruct r as [a|].
    + destruct (conn_add_ok s1 z a k Hz1 Hroom HK Hf) as (s2 & E & Hz2). rewrite (c_bind _ _ _ _ _ E).
      eexists (Counted a), s2, _. split; [done|]. split; [exact Hz2|]. split.
      * intros b d [[= -> ->]|Hd]%elem_of_cons; [cbn; lia|]. by apply (Hl b).
      * right. split; [done|]. split; [|done]. destruct Hroom as [Hn _]. by apply not_elem_of_cons in Hn as [_ ?].
    + by exists NoMemory, s1, z.
Qed.

Lemma conn_cleanup_ok s z a cap : czone s z → live cap z → cap ≤ 65535 → cnt z a ≠ 0 →
  ∃ s' z' c rest, ngx_http_limit_conn_cleanup a s = Some (tt, s') ∧ czone s' z' ∧ live cap z' ∧
    z ≡ₚ (a, c) :: rest ∧ z' = (if count c =? 1 then rest else (a, c <| c_count := count c - 1 |>) :: rest).
Proof.
  intros Hz Hl Hcap (c & Hin)%held_in. unfold ngx_http_limit_conn_cleanup.
  destruct (czone_node _ _ _ _ Hz Hin) as (r & Hr & Er). assert (conn r = count c) as En by (by injection Er).
  pose proof (Hl _ _ Hin) as Hc. apply list.elem_of_Permutation in Hin as [rest Hp].
  erewrite conn_update; [|exact Hr]. rewrite En, u16_id by lia.
  pose proof (conn_set_ok s z rest a c r (count c - 1) Hz Hp Hr) as Hz1. set (s1 := s <| lcs := _ |>) in *.
  rewrite (c_bind _ _ s1 (r <| conn := count c - 1 |>) s1)
    by (unfold get_lc; cbn; by rewrite lookup_insert_eq).
  cbn [conn set_field].
  assert (live cap rest) as Hrest by (intros b d Hd; apply (Hl b); rewrite Hp; by right).
  destruct (Z.eqb_spec (count c - 1) 0) as [E0|E0].
  - destruct (conn_remove_ok s1 _ rest a _ Hz1 (reflexivity _)) as (s2 & E & Hz2).
    exists s2, rest, c, rest. split; [exact E|]. split; [done|]. split; [done|]. split; [done|].
    by rewrite (proj2 (Z.eqb_eq _ _)) by lia.
  - eexists s1, _, c, rest. split; [done|]. split; [exact Hz1|]. split; [|split; [done|]].
    + intros b d [[= -> ->]|Hd]%elem_of_cons; [cbn; lia|by apply (Hrest b)].
    + by rewrite (proj2 (Z.eqb_neq _ _)) by lia.
Qed.

Definition one (a b : Z) : Z := if decide (a = b) then 1 else 0.

Lemma counted_cnt max k s z z' a : czone s z → counted_ok max k z z' (Counted a) →
  ∀ b, cnt z' b = cnt z b + one a b.
Proof.
  intros Hd%czone_nodup [(c & rest & Hp & _ & _ & ->)|(_ & Ha & ->)] b; unfold one; rewrite cnt_cons; cbn.
  - rewrite <- (cnt_perm _ _ b Hd (symmetry Hp)), cnt_cons. by destruct (decide (a = b)); [|lia].
  - destruct (decide (a = b)) as [<-|]; [by rewrite cnt_notin|lia].
Qed.

Lemma cleaned_cnt s z z' a c rest : czone s z → z ≡ₚ (a, c) :: rest →
  z' = (if count c =? 1 then rest else (a, c <| c_count := count c - 1 |>) :: rest) →
  ∀ b, cnt z' b = cnt z b - one a b.
Proof.
  intros Hd%czone_nodup Hp -> b. unfold one. rewrite <- (cnt_perm _ _ b Hd (symmetry Hp)), cnt_cons.
  rewrite Hp in Hd. cbn in Hd. apply list.NoDup_cons in Hd as [Ha _].
  destruct (Z.eqb_spec (count c) 1) as [E|E]; [|rewrite cnt_cons; cbn].
  - destruct (decide (a = b)) as [<-|]; [|lia]. rewrite cnt_notin by done. lia.
  - by destruct (decide (a = b)); [|lia].
Qed.

(** A zone that was just made. *)
Lemma conn_init_ok s n var : mem (rbtree s) !! sentinel = Some n → sentinel ∈ allocated (shpool s) →
  ∃ s', ngx_http_limit_conn_init_zone var None false true s = Some (NGX_OK, s') ∧ czone s' [].
Proof.
  intros Hs Ha. destruct (init_zone_ok K (emb [] s) n) as (s1 & E & Hz); [exact Hs|exact Ha|].
  unfold init_zone in E. unfold mbind, LR.T_bind in E. rewrite (sim_tree [] _ s) in E.
  unfold ngx_http_limit_conn_init_zone, mbind, T_bind. change LR.sentinel with sentinel in E.
  destruct (on_tree (ngx_rbtree_init sentinel) s) as [[[] s']|]; [|done].
  exists s'. split; [done|]. cbn in E. injection E as <-. exact Hz.
Qed.

(** ** Requests *)

#[local] Abbreviation zmap := (gmap nat shctx).
#[local] Abbreviation W := (LimitConn.W (P := P)).
#[local] Abbreviation world := (LimitConn.world (P := P)).

(** [cap i]: no limit on the zone [i] is larger. *)
Context (cap : nat → Z) (Hcap : ∀ i, cap i ≤ 65535).

(** How many of the cleanups are for the client at [a] of the zone [i]. *)
Fixpoint entries (l : list cleanup) (i : nat) (a : Z) : Z :=
  match l with
  | [] => 0
  | ConnCleanup j b :: l => (if decide (j = i) then one b a else 0) + entries l i a
  | OtherCleanup _ :: l => entries l i a
  end.

Lemma entries_app l l' i a : entries (l ++ l') i a = entries l i a + entries l' i a.
Proof. induction l as [|[j b|h] l IH]; cbn; [done| |done]. rewrite IH. lia. Qed.

Lemma one_range a b : 0 ≤ one a b ≤ 1.
Proof. unfold one. destruct (decide _); lia. Qed.

Lemma entries_nonneg l i a : 0 ≤ entries l i a.
Proof.
  induction l as [|[j b|h] l IH]; cbn; [done| |done]. pose proof (one_range b a). destruct (decide _); lia.
Qed.

(** The zones hold clients with [tot i a] connections each. *)
Definition good (tot : nat → Z → Z) (zs : zmap) : Prop :=
  ∀ i s, zs !! i = Some s → ∃ z, czone s z ∧ live (cap i) z ∧ ∀ a, cnt z a = tot i a.

Lemma good_ext tot tot' zs : good tot zs → (∀ i a, tot i a = tot' i a) → good tot' zs.
Proof.
  intros Hg E i s Hs. destruct (Hg i s Hs) as (z & Hz & Hl & Hc). exists z. split; [done|]. split; [done|].
  intros a. by rewrite Hc, E.
Qed.

(** The zones are there. *)
Definition same_zones (zs zs' : zmap) : Prop := ∀ i, is_Some (zs !! i) → is_Some (zs' !! i).
Definition in_zones (l : list cleanup) (zs : zmap) : Prop :=
  ∀ i a, ConnCleanup i a ∈ l → is_Some (zs !! i).

Lemma same_zones_insert (zs : zmap) i s : same_zones zs (<[i := s]> zs).
Proof. intros j Hj. destruct (decide (i = j)) as [->|]; [by rewrite lookup_insert_eq|by rewrite lookup_insert_ne]. Qed.

Lemma in_zones_mono l zs zs' : in_zones l zs → same_zones zs zs' → in_zones l zs'.
Proof. intros Hl Hs i a Hin. by eapply Hs, Hl. Qed.

Lemma conn_w_bind {A B} (m : W A) (f : A → W B) w x w' : m w = Some (x, w') → (m ≫= f) w = f x w'.
Proof. unfold mbind, W_bind. by intros ->. Qed.

Lemma run_conn_zone {A} i (m : T A) (w : world) s x s' : zones w !! i = Some s → m s = Some (x, s') →
  on_zone i m w = Some (x, w <| zones := <[i := s']> (zones w) |>).
Proof. intros Hs Hm. unfold on_zone. by rewrite Hs; cbn; rewrite Hm. Qed.

Lemma good_change tot d (zs : zmap) i s s' z z' : good tot zs → zs !! i = Some s →
  czone s' z' → live (cap i) z' → (∀ a, cnt z a = tot i a) → (∀ a, cnt z' a = cnt z a + d a) →
  good (λ j a, tot j a + if decide (j = i) then d a else 0) (<[i := s']> zs).
Proof.
  intros Hg Hs Hz' Hl Hc Hd j t Hj. destruct (decide (i = j)) as [<-|Hne].
  - rewrite lookup_insert_eq in Hj. injection Hj as <-. exists z'. split; [done|]. split; [done|].
    intros a. rewrite Hd, Hc. by destruct (decide (i = i)).
  - rewrite lookup_insert_ne in Hj by done. destruct (Hg j t Hj) as (y & Hy & Hly & Hcy).
    exists y. split; [done|]. split; [done|]. intros a. rewrite Hcy. destruct (decide (j = i)); [congruence|lia].
Qed.

(** One cleanup runs. *)
Lemma cleanup_step tot w i a : good tot (zones w) → is_Some (zones w !! i) → tot i a ≠ 0 →
  ∃ w', on_zone i (ngx_http_limit_conn_cleanup a) w = Some (tt, w') ∧ cleanups w' = cleanups w ∧
    same_zones (zones w) (zones w') ∧ good (λ j b, tot j b - if decide (j = i) then one a b else 0) (zones w').
Proof.
  intros Hg [s Hs] Ht. destruct (Hg i s Hs) as (z & Hz & Hl & Hc).
  destruct (conn_cleanup_ok s z a (cap i) Hz Hl (Hcap i)) as (s' & z' & c & rest & E & Hz' & Hl' & Hp & Ez);
    [by rewrite Hc|].
  exists (w <| zones := <[i := s']> (zones w) |>). split; [by eapply run_conn_zone|]. split; [done|].
  split; [apply same_zones_insert|].
  pose proof (good_change tot (λ b, - one a b) _ i s s' z z' Hg Hs Hz' Hl' Hc) as Hg'.
  eapply good_ext; [apply Hg'|].
  - intros b. rewrite (cleaned_cnt s z z' a c rest) by done. lia.
  - intros j b. cbn. destruct (decide (j = i)); lia.
Qed.

(** What is behind the cleanups of this module that are in front. *)
Fixpoint others_of (l : list cleanup) : list cleanup :=
  match l with ConnCleanup _ _ :: l => others_of l | l => l end.

Section Base.
Context (base : nat → Z → Z) (Hbase : ∀ i a, 0 ≤ base i a).

(** The pool's cleanups and what others hold make up the counts. *)
Definition balanced (l : list cleanup) (zs : zmap) : Prop :=
  good (λ i a, base i a + entries l i a) zs ∧ in_zones l zs.

Lemma balanced_cleanup i a l w : balanced (ConnCleanup i a :: l) (zones w) →
  ∃ w', on_zone i (ngx_http_limit_conn_cleanup a) w = Some (tt, w') ∧ cleanups w' = cleanups w ∧
    same_zones (zones w) (zones w') ∧ balanced l (zones w').
Proof.
  intros [Hg Hin]. destruct (cleanup_step _ w i a Hg) as (w' & E & Hc & Hs & Hg').
  - apply (Hin i a). by left.
  - cbn. rewrite decide_True by done. unfold one. rewrite decide_True by done.
    pose proof (Hbase i a). pose proof (entries_nonneg l i a). lia.
  - exists w'. split; [done|]. split; [done|]. split; [done|]. split.
    + eapply good_ext; [exact Hg'|]. intros j b. cbn. destruct (decide (i = j)) as [->|].
      * rewrite decide_True by done. lia.
      * rewrite decide_False by congruence. lia.
    + eapply in_zones_mono; [|exact Hs]. intros j b Hb. eapply Hin. right. exact Hb.
Qed.

Lemma balanced_other h l zs : balanced (OtherCleanup h :: l) zs → balanced l zs.
Proof. intros [Hg Hin]. split; [exact Hg|]. intros i a Ha. eapply Hin. right. exact Ha. Qed.

Lemma cleanup_loop_ok l : ∀ w, balanced l (zones w) →
  ∃ w', cleanup_loop l w = Some (tt, w') ∧ cleanups w' = others_of l ∧
    same_zones (zones w) (zones w') ∧ balanced (others_of l) (zones w').
Proof.
  induction l as [|[i a|h] l IH]; intros w Hb; cbn [cleanup_loop others_of].
  - exists (w <| cleanups := [] |>). do 2 (split; [done|]). by split; [intros j Hj|].
  - destruct (balanced_cleanup i a l w Hb) as (w1 & E & _ & Hs & Hb1). rewrite (conn_w_bind _ _ _ _ _ E).
    destruct (IH w1 Hb1) as (w' & E' & Hc & Hs' & Hb'). exists w'. split; [done|]. split; [done|]. split; [|done].
    intros j Hj. by apply Hs', Hs.
  - exists (w <| cleanups := OtherCleanup h :: l |>). do 2 (split; [done|]). by split; [intros j Hj|].
Qed.

Lemma run_cleanups_ok l : ∀ w, balanced l (zones w) →
  ∃ w', run_cleanups l w = Some (tt, w') ∧ cleanups w' = [] ∧
    same_zones (zones w) (zones w') ∧ balanced [] (zones w').
Proof.
  induction l as [|[i a|h] l IH]; intros w Hb; cbn [run_cleanups].
  - exists (w <| cleanups := [] |>). do 2 (split; [done|]). by split; [intros j Hj|].
  - destruct (balanced_cleanup i a l w Hb) as (w1 & E & _ & Hs & Hb1). rewrite (conn_w_bind _ _ _ _ _ E).
    destruct (IH w1 Hb1) as (w' & E' & Hc & Hs' & Hb'). exists w'. split; [done|]. split; [done|]. split; [|done].
    intros j Hj. by apply Hs', Hs.
  - by apply IH, (balanced_other h).
Qed.

(** The limits of a location have zones that are there. *)
Definition limits_ok (limits : list ngx_http_limit_conn_limit_t) (zs : zmap) : Prop :=
  ∀ l, l ∈ limits → is_Some (zs !! shm_zone l) ∧ 1 ≤ limit_conn l ≤ cap (shm_zone l).

(** The answers of the handler.  [lost] is what would take the request out of a
    zone again, but was not registered, as [add] failed. *)
Definition answer_ok (add : nat → bool) (rc : Z) (before after lost : list cleanup) : Prop :=
  lost = [] ∧ (rc = NGX_DECLINED ∨ rc = NGX_HTTP_SERVICE_UNAVAILABLE ∧ after = others_of before) ∨
  length lost = 1%nat ∧ rc = NGX_HTTP_INTERNAL_SERVER_ERROR ∧ ∃ i, add i = false.

Lemma limits_loop_ok index_of variable add limits : ∀ i set w,
  balanced (cleanups w) (zones w) → limits_ok limits (zones w) →
  ∃ rc set' w' lost, limits_loop index_of variable add limits i set w = Some ((rc, set'), w') ∧
    same_zones (zones w) (zones w') ∧ balanced (lost ++ cleanups w') (zones w') ∧
    others_of (cleanups w') = others_of (cleanups w) ∧
    answer_ok add rc (cleanups w) (cleanups w') lost ∧
    (set' = false → set = false ∧ cleanups w' = cleanups w).
Proof.
  induction limits as [|l limits IH]; intros i set w Hb Hok; cbn [limits_loop].
  { exists NGX_DECLINED, set, w, []. split; [done|]. split; [by intros j Hj|]. do 2 (split; [done|]).
    split; [left; split; [done|by left]|done]. }
  assert (∀ zs', same_zones (zones w) zs' → limits_ok limits zs') as Hok'.
  { intros zs' Hs x Hx. destruct (Hok x) as (H1 & H2); [by right|]. split; [by apply Hs|done]. }
  assert (limits_ok limits (zones w)) as Hok0 by (apply Hok'; by intros j Hj).
  destruct (variable (index_of (shm_zone l))) as [v|]; [|by apply IH].
  destruct ((length v =? 0)%nat || (255 <? Z.of_nat (length v))) eqn:El; [by apply IH|].
  apply orb_false_iff in El as [_ El]. apply Z.ltb_ge in El.
  assert (K v) as HK by (unfold short_key; lia).
  destruct (Hok l (list_elem_of_here _ _)) as ([s Hs] & Hmax).
  destruct Hb as [Hg Hin]. destruct (Hg _ _ Hs) as (z & Hz & Hl & Hc).
  destruct (conn_count_ok s z v (limit_conn l) (cap (shm_zone l)) Hz Hl HK Hmax (Hcap _))
    as (vd & s' & z' & E & Hz' & Hl' & Hv).
  erewrite conn_w_bind; [|by eapply run_conn_zone]. set (w1 := w <| zones := _ |>).
  assert (same_zones (zones w) (zones w1)) as Hs1 by apply same_zones_insert.
  assert (in_zones (cleanups w) (zones w1)) as Hin1 by (by eapply in_zones_mono).
  destruct vd as [| |a].
  1, 2: destruct Hv as [-> _]; destruct (cleanup_loop_ok (cleanups w) w1) as (w' & E' & Hc' & Hs' & Hb');
    [split; [|done]; eapply good_ext; [apply (good_change _ (λ _, 0) _ _ s s' z z Hg Hs Hz' Hl' Hc); intros a; lia|];
     intros j a; cbn; destruct (decide _); lia|];
    erewrite conn_w_bind by exact E'; exists NGX_HTTP_SERVICE_UNAVAILABLE, true, w', []; split; [done|];
    split; [intros j Hj; by apply Hs', Hs1|]; rewrite Hc'; split; [done|];
    split; [clear; by induction (cleanups w) as [|[] q IHq]|]; split; [left; split; [done|by right]|done].
  set (cl := ConnCleanup (shm_zone l) a).
  assert (balanced (cl :: cleanups w) (zones w1)) as Hb1.
  { split.
    - eapply good_ext; [apply (good_change _ (one a) _ _ s s' z z' Hg Hs Hz' Hl' Hc); by eapply counted_cnt|].
      intros j b. cbn. destruct (decide (j = shm_zone l)) as [->|]; [rewrite decide_True by done; lia|].
      rewrite decide_False by congruence. lia.
    - intros j b [[= -> ->]|Hjb]%elem_of_cons; [by apply Hs1|by eapply Hin1]. }
  destruct (add i) eqn:Eadd.
  - erewrite conn_w_bind; [|done]. erewrite conn_w_bind; [|done].
    set (w2 := w1 <| cleanups := _ |>).
    destruct (IH (S i) true w2 Hb1) as (rc & set' & w' & lost & E' & Hs' & Hb' & Ho & Hrc & Hset).
    { by apply Hok', same_zones_insert. }
    exists rc, set', w', lost. split; [done|]. split; [intros j Hj; by apply Hs', Hs1|]. do 3 (split; [done|]).
    intros E2. by destruct (Hset E2).
  - exists NGX_HTTP_INTERNAL_SERVER_ERROR, true, w1, [cl]. do 4 (split; [done|]).
    split; [|done]. right. do 2 (split; [done|]). by exists i.
Qed.
End Base.

(** ** Whatever requests begin and end

    The state: the zones, and for every request whether [limit_conn_set] is set
    and the cleanups of its pool.  [add] is whether [ngx_pool_cleanup_add] will
    succeed for the limits of a request. *)
#[local] Abbreviation pools := (gmap nat (bool * list cleanup)).

Inductive event :=
| Open (id : nat)
| Handle (id : nat) (limits : list ngx_http_limit_conn_limit_t) (variable : Z → option (list Z)) (add : nat → bool)
| AddCleanup (id handler : nat)
| Close (id : nat).

Section System.
Context (index_of : nat → Z).

(** The answer of the handler, and the state after the event. *)
Definition run_event (e : event) (zs : zmap) (ps : pools) : option (option Z * zmap * pools) :=
  match e with
  | Open id => Some (None, zs, <[id := (false, [])]> ps)
  | Handle id limits variable add =>
      '(set, l) ← ps !! id;
      '((rc, set), w) ← ngx_http_limit_conn_handler index_of variable add limits set (mk_world zs l);
      Some (Some rc, zones w, <[id := (set, cleanups w)]> ps)
  | AddCleanup id h => '(set, l) ← ps !! id; Some (None, zs, <[id := (set, OtherCleanup h :: l)]> ps)
  | Close id => '(_, l) ← ps !! id; '(_, w) ← destroy_pool (mk_world zs l); Some (None, zones w, delete id ps)
  end.

Definition allowed (e : event) (zs : zmap) (ps : pools) : Prop :=
  match e with
  | Open id => ps !! id = None
  | Handle id limits _ _ => is_Some (ps !! id) ∧ limits_ok limits zs
  | AddCleanup id _ | Close id => is_Some (ps !! id)
  end.

(** [n] requests were answered with 500, as a cleanup could not be added. *)
Inductive reachable : zmap → pools → nat → Prop :=
| reachable_init zs :
    (∀ i s, zs !! i = Some s → ∃ s0 n var, mem (rbtree s0) !! sentinel = Some n ∧ sentinel ∈ allocated (shpool s0) ∧
       ngx_http_limit_conn_init_zone var None false true s0 = Some (NGX_OK, s)) →
    reachable zs ∅ 0
| reachable_event e zs ps n rc zs' ps' : reachable zs ps n → allowed e zs ps →
    run_event e zs ps = Some (rc, zs', ps') →
    reachable zs' ps' (if decide (rc = Some NGX_HTTP_INTERNAL_SERVER_ERROR) then S n else n).

(** How many cleanups of all the requests are for a client. *)
Definition total (ps : pools) (i : nat) (a : Z) : Z := map_fold (λ _ p n, entries p.2 i a + n) 0 ps.

Lemma total_insert ps id p i a : ps !! id = None → total (<[id := p]> ps) i a = entries p.2 i a + total ps i a.
Proof. intros H. unfold total. rewrite map_fold_insert_L; [done|intros; lia|done]. Qed.

Lemma total_delete ps id p i a : ps !! id = Some p → total ps i a = entries p.2 i a + total (delete id ps) i a.
Proof. intros H. rewrite <- (insert_delete_id ps id p) at 1 by done. apply total_insert, lookup_delete_eq. Qed.

Lemma total_set ps id p q i a : ps !! id = Some p →
  total (<[id := q]> ps) i a = entries q.2 i a + total (delete id ps) i a.
Proof. intros _. rewrite <- insert_delete_eq. apply total_insert, lookup_delete_eq. Qed.

Lemma total_nonneg ps i a : 0 ≤ total ps i a.
Proof.
  induction ps as [|id p ps Hn IH] using map_ind; [done|]. rewrite total_insert by done.
  pose proof (entries_nonneg p.2 i a). lia.
Qed.

(** A request that did not set [limit_conn_set] is not counted; what is in
    [lost] is counted for ever. *)
Record consistent (zs : zmap) (ps : pools) (lost : list cleanup) : Prop := {
  con_good : good (λ i a, total ps i a + entries lost i a) zs;
  con_zones : ∀ id p, ps !! id = Some p → in_zones p.2 zs;
  con_unset : ∀ id l, ps !! id = Some (false, l) → others_of l = l;
}.

(** What the others hold, when the request [id] is left out. *)
Definition others (ps : pools) (lost : list cleanup) (id : nat) (i : nat) (a : Z) : Z :=
  total (delete id ps) i a + entries lost i a.

Lemma others_nonneg ps lost id i a : 0 ≤ others ps lost id i a.
Proof. unfold others. pose proof (total_nonneg (delete id ps) i a). pose proof (entries_nonneg lost i a). lia. Qed.

(** The pool of one request changes, and something may get lost. *)
Lemma consistent_set zs zs' ps lost lost' id set l set' l' : consistent zs ps lost → ps !! id = Some (set, l) →
  same_zones zs zs' → balanced (others ps lost id) (lost' ++ l') zs' → (set' = false → others_of l' = l') →
  consistent zs' (<[id := (set', l')]> ps) (lost' ++ lost).
Proof.
  intros [Hg Hz Hu] Hid Hs [Hg' Hin] Hset. split.
  - eapply good_ext; [exact Hg'|]. intros i a. cbv beta. rewrite (total_set _ _ _ _ _ _ Hid), !entries_app. cbn.
    unfold others. lia.
  - intros jd p Hp. destruct (decide (id = jd)) as [<-|Hne].
    + rewrite lookup_insert_eq in Hp. injection Hp as <-. intros i a Ha. eapply Hin, elem_of_app. by right.
    + rewrite lookup_insert_ne in Hp by done. eapply in_zones_mono; [by eapply Hz|done].
  - intros jd m Hp. destruct (decide (id = jd)) as [<-|Hne].
    + rewrite lookup_insert_eq in Hp. injection Hp as -> ->. by apply Hset.
    + rewrite lookup_insert_ne in Hp by done. by eapply Hu.
Qed.

Lemma consistent_balanced zs ps lost id p : consistent zs ps lost → ps !! id = Some p →
  balanced (others ps lost id) p.2 zs.
Proof.
  intros [Hg Hz _] Hp. split; [|by eapply Hz]. eapply good_ext; [exact Hg|].
  intros i a. cbv beta. rewrite (total_delete _ _ _ _ _ Hp). unfold others. lia.
Qed.

(** What one event does: the answer 500 loses one connection. *)
Definition loses (rc : option Z) : nat := if decide (rc = Some NGX_HTTP_INTERNAL_SERVER_ERROR) then 1 else 0.

Lemma handle_ok id limits variable add set l zs ps lost : consistent zs ps lost → ps !! id = Some (set, l) →
  limits_ok limits zs → ∃ rc zs' ps' lost', run_event (Handle id limits variable add) zs ps = Some (rc, zs', ps') ∧
    consistent zs' ps' (lost' ++ lost) ∧ length lost' = loses rc.
Proof.
  intros Hc Hid Hok. cbn [run_event]. rewrite Hid. cbn [mbind option_bind].
  pose proof (consistent_balanced _ _ _ _ _ Hc Hid) as Hb. cbn [snd] in Hb.
  unfold ngx_http_limit_conn_handler. destruct set.
  { cbn. eexists _, _, _, []. split; [done|]. split; [|done].
    eapply consistent_set; [done|exact Hid|by intros ? ?|done|done]. }
  destruct (limits_loop_ok _ (others_nonneg ps lost id) index_of variable add limits 0%nat false (mk_world zs l) Hb Hok)
    as (rc & set' & w' & lost' & -> & Hs & Hb' & _ & Ha & Hset). cbn [mbind option_bind].
  eexists _, _, _, lost'. split; [done|]. split.
  - eapply consistent_set; [done|exact Hid|exact Hs|exact Hb'|].
    intros Es. destruct (Hset Es) as [_ ->]. cbn. by eapply con_unset.
  - unfold loses. destruct Ha as [[-> [->|[-> _]]]|(-> & -> & _)]; [by rewrite decide_False..|by rewrite decide_True].
Qed.

Lemma close_ok id set l zs ps lost : consistent zs ps lost → ps !! id = Some (set, l) →
  ∃ zs', run_event (Close id) zs ps = Some (None, zs', delete id ps) ∧ consistent zs' (delete id ps) lost.
Proof.
  intros Hc Hid. cbn [run_event]. rewrite Hid. cbn [mbind option_bind].
  pose proof (consistent_balanced _ _ _ _ _ Hc Hid) as Hb.
  destruct (run_cleanups_ok _ (others_nonneg ps lost id) l (mk_world zs l) Hb) as (w' & E & _ & Hs & [Hg' _]).
  unfold destroy_pool. rewrite (conn_w_bind get_cleanups _ (mk_world zs l) l (mk_world zs l)) by done. rewrite E. cbn.
  eexists _. split; [done|]. destruct Hc as [_ Hz Hu]. split.
  - eapply good_ext; [exact Hg'|]. intros i a. cbn. unfold others. lia.
  - intros jd p Hp. apply lookup_delete_Some in Hp as [_ Hp]. eapply in_zones_mono; [by eapply Hz|done].
  - intros jd m Hp. apply lookup_delete_Some in Hp as [_ Hp]. by eapply Hu.
Qed.

Lemma conn_event_ok e zs ps lost : consistent zs ps lost → allowed e zs ps →
  ∃ rc zs' ps' lost', run_event e zs ps = Some (rc, zs', ps') ∧ consistent zs' ps' (lost' ++ lost) ∧
    length lost' = loses rc.
Proof.
  intros Hc He. destruct e as [id|id limits variable add|id h|id]; cbn [allowed] in *.
  - eexists _, _, _, []. split; [done|]. split; [|done]. destruct Hc as [Hg Hz Hu]. split.
    + eapply good_ext; [exact Hg|]. intros i a. cbv beta. by rewrite total_insert.
    + intros jd p Hp. apply lookup_insert_Some in Hp as [[_ <-]|[_ Hp]]; [|by eapply Hz].
      intros i a Hin. by apply elem_of_nil in Hin.
    + intros jd l Hp. apply lookup_insert_Some in Hp as [[_ [= <-]]|[_ Hp]]; [done|by eapply Hu].
  - destruct He as [[[set l] Hid] Hok]. by eapply handle_ok.
  - destruct He as [[set l] Hid]. cbn [run_event]. rewrite Hid. cbn [mbind option_bind]. eexists _, _, _, [].
    split; [done|]. split; [|done]. eapply consistent_set; [done|exact Hid|by intros ? ?| |].
    + pose proof (consistent_balanced _ _ _ _ _ Hc Hid) as [Hg Hin]. split; [exact Hg|].
      intros i a [[=]|Ha]%elem_of_cons. by eapply Hin.
    + intros ->. done.
  - destruct He as [[set l] Hid]. destruct (close_ok id set l zs ps lost Hc Hid) as (zs' & E & Hc').
    eexists _, _, _, []. by split.
Qed.

Lemma reachable_consistent zs ps n : reachable zs ps n → ∃ lost, length lost = n ∧ consistent zs ps lost.
Proof.
  induction 1 as [zs Hi|e zs ps n rc zs' ps' Hr (lost & Hn & IH) He Hrun].
  - exists []. split; [done|]. split; [|intros id p Hp; by rewrite lookup_empty in Hp..].
    intros i s Hs. destruct (Hi i s Hs) as (s0 & n & var & Hn & Ha & E). exists [].
    destruct (conn_init_ok s0 n var Hn Ha) as (s' & E' & Hz). rewrite E in E'. injection E' as <-.
    split; [exact Hz|]. split; [by intros a c Hin%elem_of_nil|done].
  - destruct (conn_event_ok e zs ps lost IH He) as (rc1 & zs1 & ps1 & lost' & E & H1 & Hl).
    rewrite Hrun in E. injection E as -> -> ->. exists (lost' ++ lost). split; [|done].
    rewrite length_app, Hl, Hn. unfold loses. by destruct (decide _).
Qed.

Lemma entries_pos l i a : ConnCleanup i a ∈ l → 1 ≤ entries l i a.
Proof.
  induction l as [|[j b|h] l IH]; intros Hin; [by apply elem_of_nil in Hin| |].
  - pose proof (entries_nonneg l i a). pose proof (one_range b a). cbn.
    apply elem_of_cons in Hin as [[= <- <-]|Hin].
    + unfold one. rewrite !decide_True by done. lia.
    + specialize (IH Hin). destruct (decide (j = i)); lia.
  - apply elem_of_cons in Hin as [[=]|Hin]. by apply IH.
Qed.

Lemma entries_in l i a : entries l i a ≠ 0 → ConnCleanup i a ∈ l.
Proof.
  induction l as [|[j b|h] l IH]; cbn; intros H; [done| |right; by apply IH].
  destruct (decide (j = i)) as [->|]; [|right; apply IH; lia].
  unfold one in H. destruct (decide (b = a)) as [->|]; [by left|right; apply IH; lia].
Qed.

(** C18: However the requests of all processes begin, are handled, add cleanups and
    end, and whether or not [ngx_pool_cleanup_add] succeeds: nothing outside of
    the nodes of a zone is accessed; the number of a client's connections is that
    of the cleanups that will take them out again, and one for each time that the
    request was answered with 500 because its cleanup could not be added ([lost]:
    these are never taken out again, see [limit_conn_leak]); it is at least 1, and
    never more than the largest limit of the zone; a node that a cleanup will use
    is not freed before, and when no request is left the zones hold no clients
    but the lost ones. *)
Theorem limit_conn_counts zs ps n : reachable zs ps n →
  (∃ lost, length lost = n ∧ ∀ i s, zs !! i = Some s → ∃ z, czone s z ∧
     (∀ a c, (a, c) ∈ z → count c = total ps i a + entries lost i a ∧ 1 ≤ count c ≤ cap i) ∧
     (∀ id p a, ps !! id = Some p → ConnCleanup i a ∈ p.2 → a ∈ z.*1) ∧
     (ps = ∅ → ∀ a, a ∈ z.*1 → ConnCleanup i a ∈ lost)) ∧
  ∀ e, allowed e zs ps → is_Some (run_event e zs ps).
Proof.
  intros (lost & Hn & Hc)%reachable_consistent. split.
  - exists lost. split; [done|]. intros i s Hs. destruct (con_good _ _ _ Hc i s Hs) as (z & Hz & Hl & Ht). exists z. split; [done|].
    assert (∀ a c, (a, c) ∈ z → count c = total ps i a + entries lost i a) as Hcnt.
    { intros a c Hin. by rewrite <- Ht, (cnt_in z a c (czone_nodup _ _ Hz) Hin). }
    split; [|split].
    + intros a c Hin. split; [by apply Hcnt|by apply (Hl a)].
    + intros id p a Hp Ha. assert (cnt z a ≠ 0) as (c & Hin)%held_in.
      { rewrite Ht, (total_delete _ _ _ _ _ Hp). pose proof (entries_pos _ _ _ Ha).
        pose proof (total_nonneg (delete id ps) i a). pose proof (entries_nonneg lost i a). lia. }
      by apply (list_elem_of_fmap_2 fst) in Hin.
    + intros -> a ([b c] & -> & Hin)%list_elem_of_fmap. apply entries_in. cbn [fst].
      destruct (Hl b c Hin) as [H1 _]. rewrite (Hcnt b c Hin) in H1. unfold total in H1. rewrite map_fold_empty in H1. lia.
  - intros e He. destruct (conn_event_ok e zs ps lost Hc He) as (rc & zs' & ps' & lost' & -> & _). done.
Qed.

(** A request that is refused is not counted any more. *)
Theorem limit_conn_refused zs ps n id l limits variable add w rc set : reachable zs ps n → ps !! id = Some (false, l) →
  limits_ok limits zs →
  ngx_http_limit_conn_handler index_of variable add limits false (mk_world zs l) = Some ((rc, set), w) →
  rc = NGX_DECLINED ∨ rc = NGX_HTTP_SERVICE_UNAVAILABLE ∧ cleanups w = l ∨
  rc = NGX_HTTP_INTERNAL_SERVER_ERROR ∧ ∃ i, add i = false.
Proof.
  intros (lost & _ & Hc)%reachable_consistent Hid Hok E.
  pose proof (consistent_balanced _ _ _ _ _ Hc Hid) as Hb. cbn [snd] in Hb.
  destruct (limits_loop_ok _ (others_nonneg ps lost id) index_of variable add limits 0%nat false (mk_world zs l) Hb Hok)
    as (rc' & set' & w' & lost' & E' & _ & _ & _ & Ha & _).
  unfold ngx_http_limit_conn_handler in E. rewrite E in E'. injection E' as <- <- <-.
  destruct Ha as [[_ [->|[-> Hcl]]]|(_ & -> & H)]; [by left|right; left|by right; right].
  split; [done|]. rewrite Hcl. by eapply con_unset.
Qed.
End System.

(** ** What a zone promises

    A finite map from the nodes to the client's key and the number of its
    connections. *)
#[local] Abbreviation zmodel := (gmap Z (list Z * Z)).

Definition node_of (e : Z * client) : Z * (list Z * Z) := (e.1, (c_key e.2, count e.2)).
Definition model (z : list (Z * client)) : zmodel := list_to_map (node_of <$> z).

Definition represents (c : Z) (s : shctx) (m : zmodel) : Prop := ∃ z, czone s z ∧ live c z ∧ m = model z.

Lemma model_cons a c z : model ((a, c) :: z) = <[a := (c_key c, count c)]> (model z).
Proof. done. Qed.

Lemma model_keys z : (node_of <$> z).*1 = z.*1.
Proof. by rewrite <- list_fmap_compose. Qed.

Lemma model_perm z z' : NoDup z.*1 → z ≡ₚ z' → model z = model z'.
Proof. intros Hd Hp. unfold model. apply list_to_map_proper; [by rewrite model_keys|by rewrite Hp]. Qed.

Lemma model_in z a c : NoDup z.*1 → (a, c) ∈ z → model z !! a = Some (c_key c, count c).
Proof.
  intros Hd Hin. unfold model. apply elem_of_list_to_map_1; [by rewrite model_keys|].
  apply list_elem_of_fmap. by exists (a, c).
Qed.

Lemma model_some z a k n : model z !! a = Some (k, n) → ∃ c, (a, c) ∈ z ∧ c_key c = k ∧ count c = n.
Proof.
  intros H. unfold model in H. apply elem_of_list_to_map_2, list_elem_of_fmap in H as ([b c] & [= -> -> ->] & Hin).
  by exists c.
Qed.

Lemma model_none z a : a ∉ z.*1 → model z !! a = None.
Proof. intros H. unfold model. apply not_elem_of_list_to_map_1. by rewrite model_keys. Qed.

Definition counts_as (max : Z) (k : list Z) (m m' : zmodel) (v : verdict) : Prop :=
  match v with
  | NoMemory => m' = m ∧ ∀ a n, m !! a ≠ Some (k, n)
  | Limited => m' = m ∧ ∃ a n, m !! a = Some (k, n) ∧ max ≤ n
  | Counted a =>
      (∃ n, m !! a = Some (k, n) ∧ n < max ∧ m' = <[a := (k, n + 1)]> m) ∨
      (m !! a = None ∧ (∀ b n, m !! b ≠ Some (k, n)) ∧ m' = <[a := (k, 1)]> m)
  end.

Lemma counted_model max k s z z' v : czone s z → counted_ok max k z z' v → counts_as max k (model z) (model z') v.
Proof.
  intros Hz Hv. pose proof (czone_nodup _ _ Hz) as Hd. destruct v as [| |a]; cbn in *.
  - destruct Hv as [-> Hno]. split; [done|]. intros a n (c & Hin & Hk & _)%model_some. by apply (Hno a c).
  - destruct Hv as (-> & a & c & Hin & Hk & Hle). split; [done|]. exists a, (count c). rewrite <- Hk.
    by rewrite (model_in z a c).
  - destruct Hv as [(c & rest & Hp & Hk & Hlt & ->)|(Hno & Ha & ->)].
    + left. exists (count c). assert ((a, c) ∈ z) as Hin by (rewrite Hp; left). rewrite <- Hk.
      split; [by apply model_in|]. split; [done|].
      rewrite (model_perm z _ Hd Hp), !model_cons. by rewrite insert_insert_eq.
    + right. split; [by apply model_none|]. split; [|by rewrite model_cons].
      intros b n (c & Hin & Hk & _)%model_some. by apply (Hno b c).
Qed.

(** C19: Counting a connection in the tree and the memory of a zone, and taking it
    out again, do to the zone what they mean to do to a map: the client with the
    key gets one connection more if it has less than [max] of them, a new client
    has one, if there is memory, and a client without connections is
    forgotten.  Clients whose keys have the same CRC-32 are told apart; a key has
    at most 255 bytes, which the handler checks. *)
Theorem limit_conn_refines s m c : represents c s m → c ≤ 65535 →
  (∀ k max, (length k ≤ 255)%nat → 1 ≤ max ≤ c → ∃ v s' m',
     count_connection max (ngx_crc32_short k) k s = Some (v, s') ∧ represents c s' m' ∧ counts_as max k m m' v) ∧
  (∀ a k n, m !! a = Some (k, n) → ∃ s' m',
     ngx_http_limit_conn_cleanup a s = Some (tt, s') ∧ represents c s' m' ∧
     m' = (if n =? 1 then delete a m else <[a := (k, n - 1)]> m)).
Proof.
  intros (z & Hz & Hl & ->) Hc. pose proof (czone_nodup _ _ Hz) as Hd. split.
  - intros k max HK Hmax. destruct (conn_count_ok s z k max c Hz Hl HK Hmax Hc) as (v & s' & z' & E & Hz' & Hl' & Hv).
    exists v, s', (model z'). split; [exact E|]. split; [by exists z'|]. by eapply counted_model.
  - intros a k n (d & Hin & <- & <-)%model_some. pose proof (Hl _ _ Hin) as Hlive.
    destruct (conn_cleanup_ok s z a c Hz Hl Hc) as (s' & z' & d' & rest & E & Hz' & Hl' & Hp & Ez).
    { rewrite (cnt_in z a d) by done. lia. }
    exists s', (model z'). split; [exact E|]. split; [by exists z'|].
    pose proof Hd as Hd'. rewrite Hp in Hd'. cbn in Hd'. apply list.NoDup_cons in Hd' as [Ha _].
    assert (d' = d) as ->.
    { assert (model z !! a = Some (c_key d', count d')) as E1 by (rewrite (model_perm z _ Hd Hp), model_cons; apply lookup_insert_eq).
      rewrite Hp in Hin. apply elem_of_cons in Hin as [[= ->]|Hin]; [done|].
      exfalso. apply Ha. by apply (list_elem_of_fmap_2 fst) in Hin. }
    rewrite (model_perm z _ Hd Hp), model_cons. subst z'. destruct (count d =? 1).
    + rewrite delete_insert_eq, delete_id; [done|]. by apply model_none.
    + by rewrite model_cons, insert_insert_eq.
Qed.
End Zone.

(** ** The directive

    The limits of a location are for different zones and between 1 and 65535, so
    the 16 bits of [conn] are enough. *)
Lemma limit_conn_directive add zone number limits limits' :
  ngx_http_limit_conn add zone number limits = Some limits' →
  NoDup (shm_zone <$> limits) → Forall (λ l, 1 ≤ limit_conn l ≤ 65535) limits →
  NoDup (shm_zone <$> limits') ∧ Forall (λ l, 1 ≤ limit_conn l ≤ 65535) limits'.
Proof.
  unfold ngx_http_limit_conn. destruct (add zone 0) as [i|]; [|done]. cbn [mbind option_bind].
  destruct (existsb _ limits) eqn:E; [done|]. set (n := Number.Number.ngx_atoi number).
  destruct (Z.leb_spec n 0); [done|]. destruct (Z.ltb_spec 65535 n); [done|]. intros [= <-] Hd Hl. split.
  - rewrite fmap_app. apply list.NoDup_app. split; [done|]. split; [|apply NoDup_singleton].
    intros j Hj Hi. apply list_elem_of_singleton in Hi as ->. apply not_true_iff_false in E. apply E.
    apply existsb_exists. apply list_elem_of_fmap in Hj as (l & Ej & Hin). exists l.
    split; [by apply list_elem_of_In|]. cbn in Ej. by rewrite <- Ej, Nat.eqb_refl.
  - apply list.Forall_app. split; [done|]. constructor; [cbn; lia|done].
Qed.

(** ** Examples *)

#[export] Instance example_conn_memory : ConnMemory (gset Z) :=
  {| sentinel := 1; garbage := λ _ _, (mk_node 7 7 7 7 7, mk_lc 7 7 []) |}.

#[local] Existing Instance LimitReqProof.LimitReqProof.cells_slab.

Definition new_conn_zone : LimitConn.shctx (P := gset Z) := mk_shctx (mk_store {[1 := mk_node 0 0 0 0 0]} 0) ∅ {[1]}.

Lemma new_conn_zone_ok : ∃ s, ngx_http_limit_conn_init_zone [] None false true new_conn_zone = Some (NGX_OK, s) ∧
  czone s [].
Proof. apply (conn_init_ok new_conn_zone (mk_node 0 0 0 0 0)); [done|]. cbn. set_solver. Qed.

(** Two keys with one checksum are counted apart. *)
Lemma limit_conn_refines_witness : ∃ s v s' m' v' s'' m'',
  ngx_http_limit_conn_init_zone [] None false true new_conn_zone = Some (NGX_OK, s) ∧
  count_connection 2 (ngx_crc32_short (bs "adwoqc8j")) (bs "adwoqc8j") s = Some (v, s') ∧
  counts_as 2 (bs "adwoqc8j") ∅ m' v ∧
  count_connection 2 (ngx_crc32_short (bs "xs4ibwwl")) (bs "xs4ibwwl") s' = Some (v', s'') ∧
  counts_as 2 (bs "xs4ibwwl") m' m'' v' ∧
  ngx_crc32_short (bs "adwoqc8j") = ngx_crc32_short (bs "xs4ibwwl").
Proof.
  destruct new_conn_zone_ok as (s & E & Hz).
  destruct (limit_conn_refines s ∅ 65535) as [H _]; [|done|].
  { exists []. split; [exact Hz|]. split; [by intros a c Hin%elem_of_nil|done]. }
  destruct (H (bs "adwoqc8j") 2) as (v & s' & m' & E1 & Hr & H1); [cbn; lia|lia|].
  destruct (limit_conn_refines s' m' 65535 Hr ltac:(done)) as [H' _].
  destruct (H' (bs "xs4ibwwl") 2) as (v' & s'' & m'' & E2 & _ & H2); [cbn; lia|lia|].
  exists s, v, s', m', v', s'', m''. do 5 (split; [done|]). vm_compute. reflexivity.
Defined.

Definition one_limit (n : Z) : list ngx_http_limit_conn_limit_t := [mk_limit 0 n].
Definition remote (i : Z) : option (list Z) := Some (bs "a").

Lemma new_conn_zone_reachable s : ngx_http_limit_conn_init_zone [] None false true new_conn_zone = Some (NGX_OK, s) →
  reachable (λ _, 65535) (λ _, 0) {[0%nat := s]} ∅ 0.
Proof.
  intros E. apply reachable_init. intros i t Ht. apply lookup_singleton_Some in Ht as [<- <-].
  exists new_conn_zone, (mk_node 0 0 0 0 0), []. split; [done|]. split; [cbn; set_solver|done].
Qed.

Lemma limit_conn_counts_witness : ∃ s, ngx_http_limit_conn_init_zone [] None false true new_conn_zone = Some (NGX_OK, s) ∧
  is_Some (run_event (λ _, 0) (Open 5) {[0%nat := s]} ∅).
Proof.
  destruct new_conn_zone_ok as (s & E & _). exists s. split; [done|].
  destruct (limit_conn_counts (λ _, 65535) ltac:(done) (λ _, 0) {[0%nat := s]} ∅ 0) as [_ H].
  - by apply new_conn_zone_reachable.
  - by apply H.
Defined.

(** ** What the code does not mean to do *)

(** [ngx_pool_cleanup_add] fails: the request is answered with 500 and counted
    for ever, as no cleanup will take it out.  The client's node remains
    with no request left. *)
Definition leaked : option (Z * list cleanup * option (list Z)) :=
  match ngx_http_limit_conn_init_zone [] None false true new_conn_zone with
  | Some (_, s) =>
      match ngx_http_limit_conn_handler (λ _, 0) remote (λ _, false) (one_limit 2) false (mk_world {[0%nat := s]} []) with
      | Some ((rc, _), w) =>
          match destroy_pool w with
          | Some (_, w') => Some (rc, cleanups w, s ← zones w' !! 0%nat; Some ((λ e, conn e.2) <$> map_to_list (lcs s)))
          | None => None
          end
      | None => None
      end
  | None => None
  end.

Example limit_conn_leak : leaked = Some (NGX_HTTP_INTERNAL_SERVER_ERROR, [], Some [1]).
Proof. vm_compute. reflexivity. Qed.

End LimitConnProof.
