(* ===== verification/Pool.v ===== *)
(** * The interface of a pool

    What the code that allocates from a pool relies on.  Palloc.v has the pools of
    src/core/ngx_palloc.c, which give an instance. *)

From stdpp Require Import base.
From S2P Require Import Prelude.
Open Scope Z_scope.

Module Pool.

(** The memory that is [taken] is never given again, and what is given lies at a
    multiple of the size of a pointer. *)
Class Pool (P : Type) := {
  ngx_palloc : P → Z → option Z * P;
  pool_ok : P → Prop;
  taken : P → Z → Prop;
  palloc_ok p size r p' : pool_ok p → 0 ≤ size < 2 ^ 64 → ngx_palloc p size = (r, p') → pool_ok p';
  palloc_new p size a p' : pool_ok p → 0 ≤ size < 2 ^ 64 → ngx_palloc p size = (Some a, p') →
    0 < a ∧ a mod 8 = 0 ∧ ∀ x, a ≤ x < a + size → ¬ taken p x ∧ taken p' x;
  palloc_old p size r p' x : pool_ok p → 0 ≤ size < 2 ^ 64 → ngx_palloc p size = (r, p') → taken p x → taken p' x;
}.

(** The memory that is taken, a range of it. *)
Definition all_taken `{Pool P} (p : P) (lo hi : Z) : Prop := ∀ x, lo ≤ x < hi → taken p x.

(** ** One block without an end

    A pool of a single block that is never full, for examples. *)
Definition bump := Z.

Definition bump_palloc (p : bump) (size : Z) : option Z * bump := let a := (p + 7) / 8 * 8 in (Some a, a + size).

#[export, refine] Instance bump_pool : Pool bump :=
  {| ngx_palloc := bump_palloc; pool_ok p := 0 < p; taken p x := x < p |}.
Proof.
  - intros p size r p' Hp Hs [= <- <-]. zlia.
  - intros p size a p' Hp Hs [= <- <-]. split; [zlia|]. split; [zlia|]. intros x Hx. zlia.
  - intros p size r p' x Hp Hs [= <- <-] Hx. zlia.
Defined.

End Pool.
