(* ===== verification/Hash.v ===== *)
(** * Hash tables

    src/core/ngx_hash.h and ngx_hash.c.  A table is built once: the elements of a
    bucket lie one behind the other, each with its name and aligned to a pointer,
    up to an element whose value is NULL.  The memory holds them at their
    addresses; to write one destroys those that it overlaps. *)

From stdpp Require Import gmap.
From S2P Require Import Prelude Pool.
Import Pool.Pool.
Open Scope Z_scope.

Module Hash.

(** ** Data *)

Abbreviation NULL := 0.

(** [ngx_hash_elt_t], and the NULL value that ends a bucket. *)
Inductive ngx_hash_elt_t :=
| Elt (value len : Z) (name : list Z)
| End.

(** The bytes that are written: [value], [len] and [name]. *)
Definition elt_size (e : ngx_hash_elt_t) : Z :=
  match e with Elt _ len _ => 8 + 2 + len | End => 8 end.

Abbreviation memory := (gmap Z ngx_hash_elt_t).

Definition write (a : Z) (e : ngx_hash_elt_t) (m : memory) : memory :=
  <[a := e]> (filter (λ x, x.1 + elt_size x.2 ≤ a ∨ a + elt_size e ≤ x.1) m).

Record ngx_hash_t := mk_hash { buckets : list Z; size : Z }.

(** [ngx_hash_key_t]; [key] is [None] where [key.data] is NULL, and then [key_len]
    is [key.len] only. *)
Record ngx_hash_key_t := mk_key { key : option (list Z); key_len : Z; key_hash : Z; value : Z }.

(** [ngx_hash_init_t] *)
Record ngx_hash_init_t := mk_init { max_size : Z; bucket_size : Z }.

(** ** Keys *)

Definition ngx_hash (key c : Z) : Z := u64 (key * 31 + c).

Definition ngx_hash_key (data : list Z) : Z := fold_left ngx_hash data 0.
Definition ngx_hash_key_lc (data : list Z) : Z := fold_left (λ k c, ngx_hash k (ngx_tolower c)) data 0.

(** The key, and the text in lower case. *)
Definition ngx_hash_strlow (src : list Z) : Z * list Z :=
  fold_left (λ '(key, dst) c, let d := ngx_tolower c in (ngx_hash key d, dst ++ [d])) src (0, []).

(** ** ngx_hash_find *)

(** [ngx_align] *)
Definition ngx_align (d a : Z) : Z := Z.land (d + (a - 1)) (Z.lnot (a - 1)).

(** [NULL] where the name is not in the bucket; [None] where there is no
    element. *)
Fixpoint find_loop (fuel : nat) (m : memory) (elt : Z) (name : list Z) : option Z :=
  match fuel with
  | O => None
  | S fuel =>
      e ← m !! elt;
      match e with
      | End => Some NULL
      | Elt value len elt_name =>
          if value =? NULL then Some NULL
          else if negb (Z.of_nat (length name) =? len) || negb (bool_decide (name = elt_name)) then
            find_loop fuel m (ngx_align (elt + 8 + 2 + len) 8) name
          else Some value
      end
  end.

Definition ngx_hash_find (m : memory) (hash : ngx_hash_t) (key : Z) (name : list Z) : option Z :=
  if size hash =? 0 then None
  else
    elt ← buckets hash !! Z.to_nat (key mod size hash);
    if elt =? NULL then Some NULL else find_loop (S (base.size m)) m elt name.

(** ** ngx_hash_init *)

Definition NGX_HASH_ELT_SIZE (name : ngx_hash_key_t) : Z := 8 + ngx_align (key_len name + 2) 8.

Definition bucket_of (name : ngx_hash_key_t) (size : Z) : nat := Z.to_nat (key_hash name mod size).

(** [test[key] = (u_short) (test[key] + NGX_HASH_ELT_SIZE(&names[n]))] *)
Definition test_add (size : Z) (test : list Z) (name : ngx_hash_key_t) : list Z :=
  alter (λ x, u16 (x + NGX_HASH_ELT_SIZE name)) (bucket_of name size) test.

(** The inner loop for one [size]: whether all buckets are small enough. *)
Fixpoint fits (bucket_size size : Z) (names : list ngx_hash_key_t) (test : list Z) : bool :=
  match names with
  | [] => true
  | name :: names =>
      match key name with
      | None => fits bucket_size size names test
      | Some _ =>
          let test := test_add size test name in
          if u16 bucket_size <? nth (bucket_of name size) test 0 then false else fits bucket_size size names test
      end
  end.

(** The loop over the sizes, [n] of them. *)
Fixpoint find_size (bucket_size : Z) (names : list ngx_hash_key_t) (n : nat) (size : Z) : option Z :=
  match n with
  | O => None
  | S n => if fits bucket_size size names (replicate (Z.to_nat size) 0) then Some size
           else find_size bucket_size names n (size + 1)
  end.

(** The first size that is tried; [None] is a division by 0. *)
Definition first_size (max_size bucket_size nelts : Z) : option Z :=
  if bucket_size / 16 =? 0 then None
  else
    let start := nelts / (bucket_size / 16) in
    let start := if start =? 0 then 1 else start in
    Some (if (10000 <? max_size) && negb (nelts =? 0) && (max_size / nelts <? 100) then max_size - 1000 else start).

(** The lengths of the buckets with their ends. *)
Fixpoint lengths (size : Z) (names : list ngx_hash_key_t) (test : list Z) : list Z :=
  match names with
  | [] => test
  | name :: names => lengths size names (match key name with None => test | Some _ => test_add size test name end)
  end.

Section Init.
Context (ngx_cacheline_size : Z).

Definition aligned_length (test : Z) : Z := if test =? 8 then test else u16 (ngx_align test ngx_cacheline_size).

Definition total_length (tests : list Z) : Z :=
  fold_left (λ len test, if test =? 8 then len else len + aligned_length test) tests 0.

(** The addresses of the buckets, from [elts] on. *)
Fixpoint place (tests : list Z) (elts : Z) : list Z :=
  match tests with
  | [] => []
  | test :: tests => if test =? 8 then NULL :: place tests elts else elts :: place tests (elts + aligned_length test)
  end.

(** The elements, with the offset in each bucket. *)
Fixpoint fill (size : Z) (buckets : list Z) (names : list ngx_hash_key_t) (test : list Z) (m : memory)
    : list Z * memory :=
  match names with
  | [] => (test, m)
  | name :: names =>
      match key name with
      | None => fill size buckets names test m
      | Some data =>
          let k := bucket_of name size in
          let elt := nth k buckets 0 + nth k test 0 in
          fill size buckets names (test_add size test name)
            (write elt (Elt (value name) (u16 (key_len name)) (ngx_tolower <$> data)) m)
      end
  end.

Fixpoint terminate (buckets test : list Z) (m : memory) : memory :=
  match buckets, test with
  | bucket :: buckets, t :: test =>
      terminate buckets test (if bucket =? NULL then m else write (bucket + t) End m)
  | _, _ => m
  end.

(** [sizeof(ngx_hash_wildcard_t)] *)
Abbreviation wildcard_size := 24.

(** The result of [ngx_hash_init]: [NGX_ERROR], or what [ngx_pcalloc] gave for the
    table ([hinit->hash], where that was NULL) and the table. *)
Record built (P : Type) := mk_built { at_hash : Z; table : ngx_hash_t; mem : memory; pool : P }.

(** [hash_null] is whether [hinit->hash] is NULL; [None] is a division by 0. *)
Definition ngx_hash_init `{Pool P} (hinit : ngx_hash_init_t) (hash_null : bool) (names : list ngx_hash_key_t)
    (m : memory) (p : P) : option (option (built P)) :=
  if existsb (λ name, bucket_size hinit <? NGX_HASH_ELT_SIZE name + 8) names then Some None
  else
    let bucket_size := u64 (bucket_size hinit - 8) in
    let nelts := Z.of_nat (length names) in
    start ← first_size (max_size hinit) bucket_size nelts;
    match find_size bucket_size names (Z.to_nat (max_size hinit - start)) start with
    | None => Some None
    | Some size =>
        let tests := lengths size names (replicate (Z.to_nat size) 8) in
        match ngx_palloc p ((if hash_null then wildcard_size else 0) + size * 8) with
        | (None, _) => Some None
        | (Some hash, p) =>
            match ngx_palloc p (total_length tests + ngx_cacheline_size) with
            | (None, _) => Some None
            | (Some elts, p) =>
                let buckets := place tests (ngx_align elts ngx_cacheline_size) in
                let '(test, m) := fill size buckets names (replicate (Z.to_nat size) 0) m in
                Some (Some (mk_built P hash (mk_hash buckets size) (terminate buckets test m) p))
            end
        end
    end.
End Init.

#[global] Arguments mk_built {P}.
#[global] Arguments at_hash {P}.
#[global] Arguments table {P}.
#[global] Arguments mem {P}.
#[global] Arguments pool {P}.
End Hash.
