(* ===== verification/HashProof.v ===== *)
(** * A hash table finds its names

    The elements of a bucket lie one behind the other and do not overlap, so a
    search in the table that [ngx_hash_init] built gives the value of the first
    key with the name. *)

From Stdlib Require Import ZifyNat.
From stdpp Require Import gmap.
From S2P Require Import Prelude Pool Hash.
Import Pool.Pool Hash.Hash.
Open Scope Z_scope.

Module HashProof.

#[local] Arguments ngx_align : simpl never.

(** ** Alignment *)
Lemma align_div d k : 0 ≤ k → ngx_align d (2 ^ k) = (d + (2 ^ k - 1)) / 2 ^ k * 2 ^ k.
Proof.
  intros Hk. unfold ngx_align. replace (2 ^ k - 1) with (Z.ones k) by (rewrite Z.ones_equiv; lia).
  rewrite <- Z.ldiff_land. rewrite Z.ldiff_ones_r by done.
  by rewrite Z.shiftl_mul_pow2, Z.shiftr_div_pow2 by done.
Qed.

Lemma align_bounds d k : 0 ≤ k → d ≤ ngx_align d (2 ^ k) < d + 2 ^ k.
Proof.
  intros Hk. rewrite align_div by done. assert (0 < 2 ^ k) by lia. set (x := 2 ^ k) in *. clearbody x.
  pose proof (Z.div_mod (d + (x - 1)) x ltac:(lia)). pose proof (Z.mod_pos_bound (d + (x - 1)) x ltac:(lia)). nia.
Qed.

Lemma align_8 d : ngx_align d 8 = (d + 7) / 8 * 8.
Proof. by apply (align_div d 3). Qed.

Lemma align_multiple d k : 3 ≤ k → ngx_align d (2 ^ k) mod 8 = 0.
Proof.
  intros Hk. rewrite align_div by lia. replace k with (3 + (k - 3)) at 3 by lia. rewrite Z.pow_add_r by lia.
  change (2 ^ 3) with 8. rewrite (Z.mul_comm 8), Z.mul_assoc. by rewrite Z.mod_mul.
Qed.

(** ** Writing *)
Lemma elt_size_pos e a : match e with Elt _ len _ => 0 ≤ len | End => True end → a < a + elt_size e.
Proof. destruct e; cbn; lia. Qed.

Lemma write_here a e m : write a e m !! a = Some e.
Proof. apply lookup_insert_eq. Qed.

Definition valid (e : ngx_hash_elt_t) : Prop := match e with Elt _ len _ => 0 ≤ len | End => True end.

Lemma write_other a e m b o : valid e → valid o → m !! b = Some o → b + elt_size o ≤ a ∨ a + elt_size e ≤ b →
  write a e m !! b = Some o.
Proof.
  intros He Ho Hb Hd. pose proof (elt_size_pos e a He). pose proof (elt_size_pos o b Ho).
  unfold write. rewrite lookup_insert_ne by lia. by apply map_lookup_filter_Some.
Qed.

(** ** Buckets *)
Section Table.
Context (size : Z) (size_pos : 0 < size).

(** The keys that are put into the table. *)
Record good (n : ngx_hash_key_t) : Prop := {
  good_key : ∃ d, key n = Some d ∧ key_len n = Z.of_nat (length d) ∧ key_hash n = ngx_hash_key_lc d;
  good_len : 0 ≤ key_len n < 65536;
  good_value : value n ≠ NULL;
}.

Definition name_of (n : ngx_hash_key_t) : list Z :=
  match key n with Some d => ngx_tolower <$> d | None => [] end.
Definition elt_of (n : ngx_hash_key_t) : ngx_hash_elt_t := Elt (value n) (key_len n) (name_of n).

Definition sum (l : list ngx_hash_key_t) : Z := foldr (λ n s, NGX_HASH_ELT_SIZE n + s) 0 l.
Definition in_bucket (i : nat) (l : list ngx_hash_key_t) : list ngx_hash_key_t := filter (λ n, bucket_of n size = i) l.
Definition bsum (i : nat) (l : list ngx_hash_key_t) : Z := sum (in_bucket i l).

Lemma elt_size_bounds n : good n → elt_size (elt_of n) ≤ NGX_HASH_ELT_SIZE n ∧ 16 ≤ NGX_HASH_ELT_SIZE n ∧
  NGX_HASH_ELT_SIZE n mod 8 = 0.
Proof. intros [_ Hl _]. unfold NGX_HASH_ELT_SIZE. rewrite align_8. cbn. zlia. Qed.

Lemma good_valid n : good n → valid (elt_of n).
Proof. intros [_ Hl _]. cbn. lia. Qed.

Lemma sum_app l k : sum (l ++ k) = sum l + sum k.
Proof. unfold sum. induction l as [|n l IH]; cbn; lia. Qed.

Lemma sum_nonneg l : Forall good l → 0 ≤ sum l ∧ sum l mod 8 = 0.
Proof.
  induction 1 as [|n l Hn Hl IH]; [done|]. cbn. destruct (elt_size_bounds n Hn) as (_ & H1 & H2). fold (sum l). zlia.
Qed.

Lemma in_bucket_app i l k : in_bucket i (l ++ k) = in_bucket i l ++ in_bucket i k.
Proof. apply list.filter_app. Qed.

Lemma good_snoc l n : Forall good l → good n → Forall good (l ++ [n]).
Proof. intros. apply Forall_app_2; [done|]. apply list.Forall_cons. by split. Qed.

Lemma in_bucket_good i l : Forall good l → Forall good (in_bucket i l).
Proof. rewrite !list.Forall_forall. intros H n Hn. apply list_elem_of_filter in Hn as [_ Hn]. auto. Qed.

Lemma bsum_snoc i l n : bsum i (l ++ [n]) = bsum i l + (if decide (bucket_of n size = i) then NGX_HASH_ELT_SIZE n else 0).
Proof.
  unfold bsum. rewrite in_bucket_app, sum_app. f_equal. unfold in_bucket.
  destruct (decide (bucket_of n size = i)) as [E|E];
    [rewrite filter_cons_True by done|rewrite filter_cons_False by done]; cbn; lia.
Qed.

Lemma bsum_bounds i l : Forall good l → 0 ≤ bsum i l ∧ bsum i l mod 8 = 0.
Proof. intros H. by apply sum_nonneg, in_bucket_good. Qed.

Lemma bsum_app_le i l k : Forall good k → bsum i l ≤ bsum i (l ++ k).
Proof.
  intros H. unfold bsum. rewrite in_bucket_app, sum_app. pose proof (sum_nonneg _ (in_bucket_good i k H)). lia.
Qed.

Lemma bucket_lt n : (bucket_of n size < Z.to_nat size)%nat.
Proof. unfold bucket_of. pose proof (Z.mod_pos_bound (key_hash n) size size_pos). lia. Qed.

(** The array [test]: a constant, and the lengths of the buckets. *)
Definition tests (c : Z) (l : list ngx_hash_key_t) : list Z := (λ i, c + bsum i l) <$> seq 0 (Z.to_nat size).

Lemma tests_nil c : replicate (Z.to_nat size) c = tests c [].
Proof.
  unfold tests. apply list_eq. intros i.
  destruct (decide (i < Z.to_nat size)%nat).
  - rewrite lookup_replicate_2 by done. rewrite list_lookup_fmap, lookup_seq_lt by done. cbn [fmap option_fmap option_map].
    f_equal. change (bsum (0 + i) []) with 0. lia.
  - rewrite !lookup_ge_None_2; [done|rewrite length_fmap, length_seq; lia|rewrite length_replicate; lia].
Qed.

Lemma nth_tests c l i : (i < Z.to_nat size)%nat → nth i (tests c l) 0 = c + bsum i l.
Proof.
  intros Hi. unfold tests. apply nth_lookup_Some. by rewrite list_lookup_fmap, lookup_seq_lt.
Qed.

Lemma tests_add c l n : Forall good l → good n → 0 ≤ c → c + bsum (bucket_of n size) l + NGX_HASH_ELT_SIZE n < 65536 →
  test_add size (tests c l) n = tests c (l ++ [n]).
Proof.
  intros Hl Hn Hc Hs. unfold test_add. apply list_eq. intros i.
  pose proof (bsum_bounds (bucket_of n size) l Hl) as [Hb _]. destruct (elt_size_bounds n Hn) as (_ & Hn' & _).
  destruct (decide (bucket_of n size = i)) as [<-|Hne].
  - rewrite list_lookup_alter_eq. unfold tests. rewrite !list_lookup_fmap, lookup_seq_lt by apply bucket_lt. cbn.
    rewrite bsum_snoc, decide_True by done. f_equal. rewrite u16_id by lia. lia.
  - rewrite list_lookup_alter_ne by done. unfold tests. rewrite !list_lookup_fmap.
    destruct (seq 0 (Z.to_nat size) !! i) as [j|] eqn:E; [|done]. cbn. apply lookup_seq in E as [-> _]. cbn.
    rewrite bsum_snoc, decide_False by done. f_equal. lia.
Qed.

Lemma lengths_tests c names : ∀ l, Forall good l → Forall good names → 0 ≤ c →
  (∀ i, c + bsum i (l ++ names) < 65536) → lengths size names (tests c l) = tests c (l ++ names).
Proof.
  induction names as [|n names IH]; intros l Hl Hn Hc Hs; cbn [lengths]; [by rewrite app_nil_r|].
  apply list.Forall_cons in Hn as [Hn Hns]. destruct (good_key n Hn) as (d & -> & _).
  assert ((l ++ [n]) ++ names = l ++ n :: names) as E by by rewrite <- app_assoc.
  rewrite tests_add; [|done..|].
  - rewrite IH; [by rewrite E|by apply good_snoc|done|done|]. by rewrite E.
  - specialize (Hs (bucket_of n size)). rewrite <- E in Hs. pose proof (bsum_app_le (bucket_of n size) (l ++ [n]) names Hns) as Hle.
    rewrite bsum_snoc, decide_True in Hle by done. lia.
Qed.

Lemma fits_sums B names : ∀ l, 0 ≤ B < 65536 → Forall good l → Forall good names →
  (∀ n, n ∈ names → B + NGX_HASH_ELT_SIZE n < 65536) → (∀ i, bsum i l ≤ B) →
  fits B size names (tests 0 l) = true → ∀ i, bsum i (l ++ names) ≤ B.
Proof.
  induction names as [|n names IH]; intros l HB Hl Hn Hs Hb; cbn [fits]; [by rewrite app_nil_r|].
  apply list.Forall_cons in Hn as [Hn Hns]. destruct (good_key n Hn) as (d & -> & _).
  rewrite tests_add; [|done|done|lia|specialize (Hs n (list_elem_of_here _ _)); specialize (Hb (bucket_of n size)); lia].
  rewrite nth_tests by apply bucket_lt. rewrite u16_id by lia.
  destruct (Z.ltb_spec B (0 + bsum (bucket_of n size) (l ++ [n]))) as [|Hle]; [done|]. intros Hf.
  assert (l ++ n :: names = (l ++ [n]) ++ names) as -> by by rewrite <- app_assoc.
  apply IH; [done|by apply good_snoc|done|intros x Hx; apply Hs; by right| |done].
  intros i. destruct (decide (bucket_of n size = i)) as [<-|Hne]; [lia|].
  rewrite bsum_snoc, decide_False by done. specialize (Hb i). lia.
Qed.
(** ** Elements one behind the other *)

Fixpoint seg (m : memory) (a : Z) (l : list ngx_hash_key_t) : Prop :=
  match l with
  | [] => True
  | n :: l => m !! a = Some (elt_of n) ∧ seg m (a + NGX_HASH_ELT_SIZE n) l
  end.

Lemma seg_app m l k : ∀ a, seg m a (l ++ k) ↔ seg m a l ∧ seg m (a + sum l) k.
Proof.
  induction l as [|n l IH]; intros a; cbn; [rewrite Z.add_0_r; tauto|].
  rewrite IH. fold (sum l). rewrite Z.add_assoc. tauto.
Qed.

Lemma seg_write m x e l : valid e → Forall good l → ∀ a, a + sum l ≤ x ∨ x + elt_size e ≤ a → seg m a l → seg (write x e m) a l.
Proof.
  intros He. induction 1 as [|n l Hn Hl IH]; intros a Hx; cbn; [done|]. fold (sum l) in *. cbn in Hx. fold (sum l) in Hx.
  destruct (elt_size_bounds n Hn) as (H1 & H2 & _). pose proof (sum_nonneg l Hl) as [H3 _].
  intros [Ha Hs]. split; [apply write_other; [done|by apply good_valid|done|lia]|]. apply IH; [lia|done].
Qed.

(** *** The places of the buckets *)
Section Places.
Context (k : Z) (Hk : 3 ≤ k).

Let cls := 2 ^ k.

(** What a bucket of length [t], with its end, takes. *)
Definition cap (t : Z) : Z := if t =? 8 then 0 else aligned_length cls t.
Definition caps (ts : list Z) : Z := foldr (λ t s, cap t + s) 0 ts.

Definition small (t : Z) : Prop := 8 ≤ t ∧ t + cls ≤ 65536.

Lemma cap_bounds t : small t → 0 ≤ cap t ∧ (t ≠ 8 → t ≤ cap t) ∧ cap t mod 8 = 0.
Proof.
  intros [Ht Hs]. unfold cap, aligned_length. destruct (Z.eqb_spec t 8); [done|].
  pose proof (align_bounds t k ltac:(lia)) as [H1 H2]. fold cls in H1, H2. rewrite u16_id by lia.
  split; [lia|]. split; [done|]. by apply align_multiple.
Qed.

Lemma caps_bounds ts : Forall small ts → 0 ≤ caps ts.
Proof. induction 1 as [|t ts Ht _ IH]; cbn; [done|]. pose proof (cap_bounds t Ht). fold (caps ts). lia. Qed.

Lemma total_caps ts : total_length cls ts = caps ts.
Proof.
  unfold total_length. assert (∀ x, fold_left (λ len test, if test =? 8 then len else len + aligned_length cls test) ts x = x + caps ts) as ->; [|lia].
  induction ts as [|t ts IH]; intros x; cbn; [lia|]. fold (caps ts). rewrite IH. unfold cap. destruct (t =? 8); lia.
Qed.

Lemma length_place ts : ∀ e, length (place cls ts e) = length ts.
Proof. induction ts as [|t ts IH]; intros e; cbn; [done|]. destruct (t =? 8); cbn; by rewrite IH. Qed.

Lemma place_spec ts : Forall small ts → ∀ e, e mod 8 = 0 → 0 < e → ∀ i t, ts !! i = Some t →
  if t =? 8 then nth i (place cls ts e) 0 = NULL
  else let b := nth i (place cls ts e) 0 in
    e ≤ b ∧ b mod 8 = 0 ∧ b + cap t ≤ e + caps ts ∧
    ∀ j u, (i < j)%nat → ts !! j = Some u → u ≠ 8 → b + cap t ≤ nth j (place cls ts e) 0.
Proof.
  induction 1 as [|t ts Ht Hts IH]; intros e He Hpos i u Hi; [done|].
  pose proof (cap_bounds t Ht) as (C1 & C2 & C3). pose proof (caps_bounds ts Hts) as C4. cbn [place caps foldr]. fold (caps ts).
  assert (∀ e', nth i (if t =? 8 then NULL :: place cls ts e else e :: place cls ts e') 0 =
    match i with O => if t =? 8 then NULL else e | S i => nth i (place cls ts (if t =? 8 then e else e')) 0 end) as En
    by (intros e'; destruct (t =? 8), i; done).
  assert (cap t = if t =? 8 then 0 else aligned_length cls t) as Ecap by done.
  set (e1 := if t =? 8 then e else e + aligned_length cls t).
  assert (e1 = e + cap t) as Ee1 by (unfold e1; rewrite Ecap; destruct (t =? 8); lia).
  assert (e1 mod 8 = 0) as He1 by (rewrite Ee1; zlia). assert (0 < e1) as Hp1 by lia.
  assert (∀ n, nth (S n) (if t =? 8 then NULL :: place cls ts e else e :: place cls ts (e + aligned_length cls t)) 0 =
    nth n (place cls ts e1) 0) as En' by (intros n; unfold e1; by destruct (t =? 8)).
  destruct i as [|i].
  - injection Hi as <-. destruct (Z.eqb_spec t 8) as [E|E]; [done|]. cbn [nth].
    split; [lia|]. split; [done|]. split; [lia|]. intros [|j] v Hj Hv Hv8; [lia|]. cbn [nth].
    pose proof (IH e1 He1 Hp1 j v Hv) as H. rewrite (proj2 (Z.eqb_neq v 8)) in H by done.
    unfold e1 in H. destruct H as [H _]. lia.
  - pose proof (IH e1 He1 Hp1 i u Hi) as H. rewrite En'. destruct (u =? 8); [done|].
    destruct H as (H1 & H2 & H3 & H4). split; [lia|]. split; [done|]. split; [lia|].
    intros [|j] v Hj Hv Hv8; [lia|]. rewrite En'. apply (H4 j v); [lia|done|done].
Qed.
End Places.

(** ** Filling the buckets *)
Section Fill.
Context (all : list ngx_hash_key_t) (base : list Z) (lo hi : Z).

Abbreviation N := (Z.to_nat size).
Abbreviation at_base i := (nth i base 0).

(** The buckets that are used have room for their elements and the end. *)
Record places : Prop := {
  places_in i : (i < N)%nat → bsum i all ≠ 0 → lo ≤ at_base i ∧ at_base i + bsum i all + 8 ≤ hi;
  places_apart i j : (i < j < N)%nat → bsum i all ≠ 0 → bsum j all ≠ 0 → at_base i + bsum i all + 8 ≤ at_base j;
}.

(** What lies outside of [lo, hi) stays. *)
Definition kept (m m' : memory) : Prop :=
  ∀ b o, m !! b = Some o → valid o → b + elt_size o ≤ lo ∨ hi ≤ b → m' !! b = Some o.

Lemma bsum_pos i l n : Forall good l → n ∈ l → bucket_of n size = i → bsum i l ≠ 0.
Proof.
  intros Hl Hn Hi. unfold bsum. assert (n ∈ in_bucket i l) as Hin by by apply list_elem_of_filter.
  pose proof (in_bucket_good i l Hl) as Hg. apply list_elem_of_split in Hin as (x & y & E). rewrite E in *.
  apply Forall_app in Hg as [Hx Hg]. apply list.Forall_cons in Hg as [Hn' Hy]. rewrite sum_app. cbn. fold (sum y).
  pose proof (sum_nonneg x Hx). pose proof (sum_nonneg y Hy). pose proof (elt_size_bounds n Hn'). lia.
Qed.

Lemma apart_write i j x len : places → (i < N)%nat → (j < N)%nat → i ≠ j → bsum i all ≠ 0 → bsum j all ≠ 0 →
  at_base i ≤ x → x + len ≤ at_base i + bsum i all + 8 →
  at_base j + bsum j all + 8 ≤ x ∨ x + len ≤ at_base j.
Proof.
  intros Hp Hi Hj Hne Hbi Hbj H1 H2. destruct (decide (i < j)%nat).
  - pose proof (places_apart Hp i j ltac:(lia) Hbi Hbj). lia.
  - pose proof (places_apart Hp j i ltac:(lia) Hbj Hbi). lia.
Qed.

Lemma hash_fill_ok names : ∀ l m, all = l ++ names → Forall good all → (∀ i, bsum i all < 65536) → places →
  (∀ i, (i < N)%nat → seg m (at_base i) (in_bucket i l)) →
  ∃ m', fill size base names (tests 0 l) m = (tests 0 all, m') ∧ kept m m' ∧
    ∀ i, (i < N)%nat → seg m' (at_base i) (in_bucket i all).
Proof.
  induction names as [|n names IH]; intros l m Eall Hg Hs Hp Hm; cbn [fill].
  { exists m. rewrite app_nil_r in Eall. subst l. split; [done|]. split; [by intros b o Hb _ _|done]. }
  pose proof Hg as Hg'. rewrite Eall in Hg'. apply Forall_app in Hg' as [Hl Hn]. apply list.Forall_cons in Hn as [Hn Hns].
  assert (all = (l ++ [n]) ++ names) as Eall' by (by rewrite Eall, <- app_assoc).
  pose proof (bucket_lt n) as Hk. set (i := bucket_of n size) in *.
  assert (bsum i all ≠ 0) as Hbi by (apply (bsum_pos i all n Hg); [rewrite Eall; set_solver|done]).
  destruct (good_key n Hn) as (d & Hd & _). rewrite Hd, nth_tests by done.
  pose proof (bsum_bounds i l Hl) as [Hb0 _]. pose proof (elt_size_bounds n Hn) as (He & He' & _).
  assert (bsum i l + NGX_HASH_ELT_SIZE n ≤ bsum i all) as Hle.
  { rewrite Eall'. pose proof (bsum_app_le i (l ++ [n]) names Hns) as H. rewrite bsum_snoc, decide_True in H by done. lia. }
  rewrite tests_add; [|done|done|lia|fold i; specialize (Hs i); lia].
  assert (Elt (value n) (u16 (key_len n)) (ngx_tolower <$> d) = elt_of n) as ->.
  { unfold elt_of, name_of. rewrite Hd, u16_id by apply (good_len n Hn). done. }
  rewrite Z.add_0_l. set (x := at_base i + bsum i l).
  destruct (IH (l ++ [n]) (write x (elt_of n) m) Eall' Hg Hs Hp) as (m' & E & Hkept & Hm').
  { intros j Hj. rewrite in_bucket_app. destruct (decide (i = j)) as [<-|Hne].
    - apply seg_app. split.
      + apply seg_write; [by apply good_valid|by apply in_bucket_good|left; unfold x, bsum; lia|by apply Hm].
      + unfold in_bucket at 2. rewrite filter_cons_True by done. cbn. split; [|done]. apply write_here.
    - unfold in_bucket at 2. rewrite filter_cons_False by done. cbn. rewrite app_nil_r.
      destruct (decide (bsum j all = 0)) as [Hz|Hnz].
      + assert (in_bucket j l = []) as ->; [|done]. destruct (in_bucket j l) as [|y r] eqn:Ey; [done|]. exfalso.
        assert (y ∈ in_bucket j l) as Hy by (rewrite Ey; by left). apply list_elem_of_filter in Hy as [Hyb Hy].
        apply (bsum_pos j all y Hg); [rewrite Eall; set_solver|done|done].
      + apply seg_write; [by apply good_valid|by apply in_bucket_good| |by apply Hm].
        pose proof (apart_write i j x (elt_size (elt_of n)) Hp Hk Hj Hne Hbi Hnz ltac:(unfold x; lia) ltac:(unfold x; lia)) as H.
        assert (sum (in_bucket j l) ≤ bsum j all).
        { rewrite Eall. unfold bsum at 1. pose proof (bsum_app_le j l (n :: names) ltac:(by apply list.Forall_cons)). done. }
        lia. }
  exists m'. split; [done|]. split; [|done]. intros b o Hb Ho Hout. apply Hkept; [|done|done].
  destruct (places_in Hp i Hk Hbi). apply write_other; [by apply good_valid|done|done|unfold x; lia].
Qed.

(** *** The ends *)
Lemma term_keep bs : ∀ ts m b o, m !! b = Some o → valid o →
  (∀ i c t, bs !! i = Some c → ts !! i = Some t → c ≠ NULL → b + elt_size o ≤ c + t ∨ c + t + 8 ≤ b) →
  terminate bs ts m !! b = Some o.
Proof.
  induction bs as [|c bs IH]; intros [|t ts] m b o Hb Ho Hd; cbn [terminate]; try done.
  apply IH; [|done|intros i; apply (Hd (S i))].
  destruct (Z.eqb_spec c NULL); [done|]. apply write_other; [done|done|done|]. by apply (Hd O).
Qed.

Lemma term_end bs : ∀ ts m i c t, bs !! i = Some c → ts !! i = Some t → c ≠ NULL →
  (∀ j c' t', (i < j)%nat → bs !! j = Some c' → ts !! j = Some t' → c' ≠ NULL → c + t + 8 ≤ c' + t') →
  terminate bs ts m !! (c + t) = Some End.
Proof.
  induction bs as [|c0 bs IH]; intros [|t0 ts] m i c t Hc Ht Hn Hd; try done.
  destruct i as [|i]; cbn [terminate].
  - injection Hc as ->. injection Ht as ->. rewrite (proj2 (Z.eqb_neq c NULL)) by done.
    apply term_keep; [apply write_here|done|]. intros j c' t' Hj Ht' Hn'. left. apply (Hd (S j)); [lia|done..].
  - apply (IH ts _ i); [done..|]. intros j c' t' Hj. apply (Hd (S j)). lia.
Qed.

(** *** A search in a bucket *)
Fixpoint addrs (a : Z) (l : list ngx_hash_key_t) : list Z :=
  match l with [] => [] | n :: l => a :: addrs (a + NGX_HASH_ELT_SIZE n) l end.

Lemma addrs_ge l : Forall good l → ∀ a b, b ∈ addrs a l → a ≤ b.
Proof.
  induction 1 as [|n l Hn Hl IH]; intros a b; cbn; [by intros ?%elem_of_nil|].
  intros [->|Hb]%elem_of_cons; [lia|]. apply IH in Hb. pose proof (elt_size_bounds n Hn). lia.
Qed.

Lemma addrs_nodup l : Forall good l → ∀ a, NoDup (addrs a l).
Proof.
  induction 1 as [|n l Hn Hl IH]; intros a; cbn; [constructor|]. constructor; [|done].
  intros H. apply addrs_ge in H; [|done]. pose proof (elt_size_bounds n Hn). lia.
Qed.

Lemma seg_size m l a : Forall good l → seg m a l → (length l ≤ base.size m)%nat.
Proof.
  intros Hl Hs. assert (∀ b, b ∈ addrs a l → b ∈ dom m) as Hdom.
  { clear Hl. revert a Hs. induction l as [|n l IH]; intros a; cbn; [by intros _ b ?%elem_of_nil|].
    intros [Ha Hs] b [->|Hb]%elem_of_cons; [by apply elem_of_dom; eexists|by apply (IH _ Hs)]. }
  assert (length (addrs a l) = length l) as <- by (clear; revert a; induction l as [|n l IH]; intros a; cbn; [done|by rewrite IH]).
  rewrite <- (size_list_to_set (C := gset Z)) by by apply addrs_nodup. rewrite <- (size_dom m). apply subseteq_size.
  intros b Hb. apply Hdom. by apply elem_of_list_to_set in Hb.
Qed.

(** The value of the first key with a name; [NULL] where there is none. *)
Definition named (name : list Z) (n : ngx_hash_key_t) : bool := bool_decide (name = name_of n).
Definition value_in (l : list ngx_hash_key_t) (name : list Z) : Z :=
  match List.find (named name) l with Some n => value n | None => NULL end.

Lemma find_chain m name l : Forall good l → ∀ a fuel, a mod 8 = 0 → seg m a l → m !! (a + sum l) = Some End →
  (length l < fuel)%nat → find_loop fuel m a name = Some (value_in l name).
Proof.
  induction 1 as [|n l Hn Hl IH]; intros a fuel Ha Hs He Hf; (destruct fuel as [|fuel]; [cbn in Hf; lia|]); cbn [find_loop].
  { cbn in He. rewrite Z.add_0_r in He. by rewrite He. }
  destruct Hs as [Hn' Hs]. rewrite Hn'. unfold elt_of. cbn [mbind option_bind]. pose proof (good_value n Hn) as Hv.
  rewrite (proj2 (Z.eqb_neq _ _)) by done. unfold value_in. cbn [List.find]. unfold named at 1.
  assert (Z.of_nat (length (name_of n)) = key_len n) as El.
  { destruct (good_key n Hn) as (d & Hd & Hlen & _). unfold name_of. by rewrite Hd, length_fmap. }
  destruct (bool_decide (name = name_of n)) eqn:En.
  - apply bool_decide_eq_true in En. subst name. rewrite El, Z.eqb_refl. cbn. done.
  - rewrite orb_true_r. replace (ngx_align (a + 8 + 2 + key_len n) 8) with (a + NGX_HASH_ELT_SIZE n).
    + apply IH; [|done| |cbn in Hf; lia].
      * destruct (elt_size_bounds n Hn) as (_ & _ & H). zlia.
      * cbn in He. fold (sum l) in He. by rewrite <- Z.add_assoc.
    + unfold NGX_HASH_ELT_SIZE. rewrite !align_8. zlia.
Qed.
End Fill.
End Table.

(** ** Keys without a text are skipped *)
Definition live (names : list ngx_hash_key_t) : list ngx_hash_key_t := List.filter (λ n, match key n with Some _ => true | None => false end) names.

Lemma fits_live B size names : ∀ t, fits B size names t = fits B size (live names) t.
Proof.
  induction names as [|n names IH]; intros t; cbn [fits live List.filter]; [done|]. fold (live names).
  destruct (key n) as [d|] eqn:E; [|done]. cbn [fits]. rewrite E. destruct (_ <? _); [done|apply IH].
Qed.

Lemma find_size_live B names k : ∀ size, find_size B names k size = find_size B (live names) k size.
Proof. induction k as [|k IH]; intros size; cbn; [done|]. rewrite fits_live. destruct (fits _ _ _ _); [done|apply IH]. Qed.

Lemma lengths_live size names : ∀ t, lengths size names t = lengths size (live names) t.
Proof.
  induction names as [|n names IH]; intros t; cbn [lengths live List.filter]; [done|]. fold (live names).
  destruct (key n) as [d|] eqn:E; [|apply IH]. cbn [lengths]. rewrite E. apply IH.
Qed.

Lemma fill_live size bs names : ∀ t m, fill size bs names t m = fill size bs (live names) t m.
Proof.
  induction names as [|n names IH]; intros t m; cbn [fill live List.filter]; [done|]. fold (live names).
  destruct (key n) as [d|] eqn:E; [|apply IH]. cbn [fill]. rewrite E. apply IH.
Qed.

Lemma find_size_fits B names k : ∀ size s, find_size B names k size = Some s →
  size ≤ s ∧ fits B s names (replicate (Z.to_nat s) 0) = true.
Proof.
  induction k as [|k IH]; intros size s; cbn; [done|]. destruct (fits _ _ _ _) eqn:E.
  - intros [= ->]. by split.
  - intros [H1 H2]%IH. split; [lia|done].
Qed.

Lemma first_size_pos max_size B nelts s : first_size max_size B nelts = Some s → 0 ≤ nelts → 16 ≤ B → 0 < s.
Proof.
  unfold first_size. intros H Hn HB. assert (0 < B / 16) as Hd by zlia. rewrite (proj2 (Z.eqb_neq _ 0)) in H by lia.
  pose proof (Z.div_pos nelts (B / 16) Hn Hd). set (q := nelts / (B / 16)) in *. clearbody q.
  destruct ((10000 <? max_size) && _ && _) eqn:E; injection H as <-.
  - apply andb_true_iff in E as [E _]. apply andb_true_iff in E. lia.
  - destruct (Z.eqb_spec q 0); lia.
Qed.

(** ** The table *)
Section Correct.
Context (k : Z) (Hk : 3 ≤ k).
Abbreviation cls := (2 ^ k).

(** A key of the names has a place that its hash leads to. *)
Definition good_names (names : list ngx_hash_key_t) : Prop := Forall good (live names).

Lemma value_in_bucket size l name : Forall good l →
  value_in (in_bucket size (Z.to_nat (ngx_hash_key name mod size)) l) name = value_in l name.
Proof.
  intros Hl. unfold value_in. f_equal. assert (∀ n, n ∈ l → named name n = true → bucket_of n size = Z.to_nat (ngx_hash_key name mod size)) as H.
  { intros n Hn Hname. apply bool_decide_eq_true in Hname. rewrite list.Forall_forall in Hl.
    destruct (good_key n (Hl n Hn)) as (d & Hd & _ & Hh). unfold bucket_of. rewrite Hh, Hname. unfold name_of. rewrite Hd.
    unfold ngx_hash_key_lc, ngx_hash_key. do 2 f_equal. generalize 0. clear.
    induction d as [|c d IH]; intros x; cbn; [done|]. apply IH. }
  clear Hl. assert (List.find (named name) (in_bucket size (Z.to_nat (ngx_hash_key name mod size)) l) = List.find (named name) l) as ->; [|done].
  induction l as [|n l IH]; [done|]. unfold in_bucket in *. destruct (decide (bucket_of n size = Z.to_nat (ngx_hash_key name mod size))) as [E|E].
  - rewrite filter_cons_True by done. cbn. destruct (named name n); [done|]. apply IH. intros x Hx. apply H. by right.
  - rewrite filter_cons_False by done. cbn. destruct (named name n) eqn:En; [exfalso; by apply E, H; [left|]|].
    apply IH. intros x Hx. apply H. by right.
Qed.

Lemma existsb_none (f : ngx_hash_key_t → bool) l n : existsb f l = false → n ∈ l → f n = false.
Proof.
  intros H Hn. apply not_true_iff_false. intros Hf. apply not_true_iff_false in H. apply H, existsb_exists.
  exists n. split; [by apply list_elem_of_In|done].
Qed.

Lemma seg_transfer m M l : Forall good l → ∀ a, seg m a l →
  (∀ b o, m !! b = Some o → valid o → a ≤ b → b + elt_size o ≤ a + sum l → M !! b = Some o) → seg M a l.
Proof.
  induction 1 as [|n l Hn Hl IH]; intros a Hs HM; [done|]. destruct Hs as [Ha Hs].
  pose proof (elt_size_bounds n Hn) as (H1 & H2 & _). pose proof (sum_nonneg l Hl) as [H3 _].
  cbn in HM. fold (sum l) in HM. split; [apply HM; [done|by apply good_valid|lia|lia]|].
  apply IH; [done|]. intros b o Hb Ho Hlo Hhi. apply HM; [done|done|lia|lia].
Qed.

(** The elements in memory that was allocated from [elts] on. *)
Lemma table_ok sz ns B elts m : 0 < sz → Forall good ns → (∀ i, bsum sz i ns ≤ B) → 16 ≤ B →
  2 * (B + 8) ≤ 65536 → B + 8 + cls ≤ 65536 → 0 < elts →
  let ts := tests sz 8 ns in
  let bs := place cls ts (ngx_align elts cls) in
  let total := total_length cls ts + cls in
  let '(test, m1) := fill sz bs ns (replicate (Z.to_nat sz) 0) m in
  let m' := terminate bs test m1 in
  (∀ b o, m !! b = Some o → valid o → b + elt_size o ≤ elts ∨ elts + total ≤ b → m' !! b = Some o) ∧
  ∀ M name, (∀ b o, m' !! b = Some o → elts ≤ b → b + elt_size o ≤ elts + total → valid o → M !! b = Some o) →
    ngx_hash_find M (mk_hash bs sz) (ngx_hash_key name) name = Some (value_in ns name).
Proof.
  intros Hpos Hgood Hb HB1 HB2 HB3 Helts ts bs total.
  assert (Forall (small k) ts) as Hts.
  { unfold ts, tests. apply list.Forall_forall. intros t (i & -> & _)%list_elem_of_fmap. unfold small.
    specialize (Hb i). pose proof (bsum_bounds sz i ns Hgood). lia. }
  set (E0 := ngx_align elts cls) in *.
  pose proof (align_bounds elts k ltac:(lia)) as [HE0 HE1]. fold E0 in HE0, HE1.
  assert (E0 mod 8 = 0) as HE8 by (by apply align_multiple).
  pose proof (place_spec k Hk ts Hts E0 HE8 ltac:(lia)) as Hplace. fold bs in Hplace.
  assert (total = caps k ts + cls) as Etot by (unfold total; by rewrite total_caps).
  assert (∀ i, (i < Z.to_nat sz)%nat → ts !! i = Some (8 + bsum sz i ns)) as Elook.
  { intros i Hi. unfold ts, tests. by rewrite list_lookup_fmap, lookup_seq_lt. }
  assert (∀ i, (i < Z.to_nat sz)%nat → bsum sz i ns ≠ 0 →
    8 + bsum sz i ns ≤ cap k (8 + bsum sz i ns)) as Hcap.
  { intros i Hi Hne. assert (small k (8 + bsum sz i ns)) as Hs by (rewrite list.Forall_forall in Hts; apply Hts; by eapply list_elem_of_lookup_2, Elook).
    destruct (cap_bounds k Hk _ Hs) as (_ & Hc & _). apply Hc. lia. }
  assert (places sz ns bs elts (elts + total)) as Hpl.
  { split.
    - intros i Hi Hne. pose proof (Hplace i _ (Elook i Hi)) as Hp. rewrite (proj2 (Z.eqb_neq _ 8)) in Hp by lia.
      destruct Hp as (P1 & _ & P3 & _). specialize (Hcap i Hi Hne). lia.
    - intros i j Hij Hi Hj. pose proof (Hplace i _ (Elook i ltac:(lia))) as Hp. rewrite (proj2 (Z.eqb_neq _ 8)) in Hp by lia.
      destruct Hp as (_ & _ & _ & P4). specialize (Hcap i ltac:(lia) Hi). specialize (P4 j _ ltac:(lia) (Elook j ltac:(lia)) ltac:(lia)). lia. }
  destruct (hash_fill_ok sz Hpos ns bs elts (elts + total) ns [] m eq_refl Hgood) as (m1 & Efill & Hkept & Hseg);
    [intros i; specialize (Hb i); lia|done|done|].
  rewrite (tests_nil sz 0), Efill.
  assert (∀ i, (i < Z.to_nat sz)%nat → bs !! i = Some (nth i bs 0)) as Ebs.
  { intros i Hi. rewrite nth_lookup. assert (i < length bs)%nat as [x Hx]%lookup_lt_is_Some; [|by rewrite Hx]. unfold bs. rewrite length_place.
    unfold ts, tests. by rewrite length_fmap, length_seq. }
  assert (∀ i, (i < Z.to_nat sz)%nat → bsum sz i ns = 0 ↔ nth i bs 0 = NULL) as Hnull.
  { intros i Hi. pose proof (Hplace i _ (Elook i Hi)) as Hp. destruct (Z.eqb_spec (8 + bsum sz i ns) 8); [lia|].
    destruct Hp as (P1 & _). lia. }
  split.
  - intros b o Hb' Ho Hout. apply term_keep; [by apply Hkept|done|]. intros i c t Hc Ht Hn.
    unfold tests in Ht. apply list_lookup_fmap_Some in Ht as (j & -> & Hj). apply lookup_seq in Hj as [-> Hj].
    rewrite Nat.add_0_l in *. rewrite Ebs in Hc by done. injection Hc as <-.
    assert (bsum sz i ns ≠ 0) as Hne by (intros Hz; by apply Hn, Hnull).
    destruct (places_in _ _ _ _ _ Hpl i Hj Hne). pose proof (bsum_bounds sz i ns Hgood). lia.
  - intros M name HM. set (i := Z.to_nat (ngx_hash_key name mod sz)).
    assert (i < Z.to_nat sz)%nat as Hi by (unfold i; pose proof (Z.mod_pos_bound (ngx_hash_key name) sz Hpos); lia).
    unfold ngx_hash_find. cbn [size buckets]. rewrite (proj2 (Z.eqb_neq sz 0)) by lia. fold i. rewrite (Ebs i Hi).
    cbn [mbind option_bind]. rewrite <- (value_in_bucket sz ns name Hgood). fold i. set (l := in_bucket sz i ns).
    assert (Forall good l) as Hl by by apply in_bucket_good.
    destruct (Z.eqb_spec (nth i bs 0) NULL) as [E|E].
    { apply Hnull in E; [|done]. unfold bsum in E. fold l in E. destruct l as [|n l]; [done|]. exfalso.
      apply list.Forall_cons in Hl as [Hn Hl]. cbn in E. fold (sum l) in E.
      pose proof (sum_nonneg l Hl). pose proof (elt_size_bounds n Hn). lia. }
    assert (bsum sz i ns ≠ 0) as Hne by (intros Hz; by apply E, Hnull).
    destruct (places_in _ _ _ _ _ Hpl i Hi Hne) as [Hin1 Hin2].
    assert (bsum sz i ns = sum l) as El by done. pose proof (sum_nonneg l Hl) as [Hsl _].
    assert (M !! (nth i bs 0 + sum l) = Some End) as Hend.
    { apply HM; [|lia|cbn; lia|done]. rewrite <- El. replace (bsum sz i ns) with (0 + bsum sz i ns) by lia.
      apply (term_end bs (tests sz 0 ns) m1 i); [by apply Ebs|unfold tests; by rewrite list_lookup_fmap, lookup_seq_lt|done|].
      intros j c t Hj Hc Ht Hn. unfold tests in Ht. apply list_lookup_fmap_Some in Ht as (j' & -> & Hj').
      apply lookup_seq in Hj' as [-> Hj']. rewrite Nat.add_0_l in *. rewrite Ebs in Hc by done. injection Hc as <-.
      assert (bsum sz j ns ≠ 0) as Hnj by (intros Hz; by apply Hn, Hnull).
      pose proof (places_apart _ _ _ _ _ Hpl i j ltac:(lia) Hne Hnj). pose proof (bsum_bounds sz j ns Hgood). lia. }
    assert (seg M (nth i bs 0) l) as HsegM.
    { eapply seg_transfer; [done|by apply Hseg|]. intros b o Hb' Ho Hlo Hhi. pose proof (elt_size_pos o b Ho).
      apply HM; [|lia|lia|done]. apply term_keep; [done|done|].
      intros j c t Hc Ht Hn. unfold tests in Ht. apply list_lookup_fmap_Some in Ht as (j' & -> & Hj').
      apply lookup_seq in Hj' as [-> Hj']. rewrite Nat.add_0_l in *. rewrite Ebs in Hc by done. injection Hc as <-.
      assert (bsum sz j ns ≠ 0) as Hnj by (intros Hz; by apply Hn, Hnull).
      pose proof (bsum_bounds sz j ns Hgood) as [Hj0 _]. rewrite <- El in Hhi. destruct (decide (i = j)) as [<-|Hij]; [lia|].
      pose proof (apart_write sz Hpos ns bs elts (elts + total) i j b (elt_size o) Hpl Hi Hj' Hij Hne Hnj). lia. }
    apply find_chain; [done| |done|done|].
    + pose proof (Hplace i _ (Elook i Hi)) as Hp. rewrite (proj2 (Z.eqb_neq _ 8)) in Hp by lia. by destruct Hp as (_ & P2 & _).
    + pose proof (seg_size M l _ Hl HsegM). lia.
Qed.

Lemma find_size_lt B names n : ∀ size s, find_size B names n size = Some s → size ≤ s < size + Z.of_nat n.
Proof.
  induction n as [|n IH]; intros size s; cbn [find_size]; [done|]. destruct (fits _ _ _ _).
  - intros [= ->]. lia.
  - intros H%IH. lia.
Qed.

Lemma caps_upper ts : Forall (small k) ts → caps k ts ≤ Z.of_nat (length ts) * 65536.
Proof.
  induction 1 as [|t ts [Ht Hs] _ IH]; cbn [caps foldr length]; [lia|]. fold (caps k ts).
  assert (cap k t ≤ 65536); [|lia]. unfold cap, aligned_length. destruct (t =? 8); [lia|].
  pose proof (align_bounds t k ltac:(lia)). rewrite u16_id by lia. lia.
Qed.

(** The buckets of the size that was found are not longer than [B]. *)
Lemma size_sums B ns names n start sz : Forall good ns → ns = live names → 16 ≤ B → 2 * (B + 8) ≤ 65536 →
  existsb (λ name, B + 8 <? NGX_HASH_ELT_SIZE name + 8) names = false → 0 < start →
  find_size B names n start = Some sz → 0 < sz ∧ ∀ i, bsum sz i ns ≤ B.
Proof.
  intros Hgood Ens HB1 HB2 Hbig Hstart Hsz. rewrite find_size_live, <- Ens in Hsz.
  apply find_size_fits in Hsz as [Hge Hfits]. assert (0 < sz) as Hpos by lia. split; [done|].
  rewrite (tests_nil sz) in Hfits.
  apply (fits_sums sz Hpos B ns [] ltac:(lia) (Forall_nil_2 _) Hgood); [|intros i; unfold bsum; cbn; lia|done].
  intros n0 Hn. assert (n0 ∈ names) as Hn' by (subst ns; apply list_elem_of_In, List.filter_In in Hn as [Hn _]; by apply list_elem_of_In).
  pose proof (existsb_none _ _ _ Hbig Hn') as Hf. cbn in Hf. lia.
Qed.

(** What the callers keep to. *)
Definition good_init (hinit : ngx_hash_init_t) : Prop :=
  24 ≤ bucket_size hinit ∧ 2 * bucket_size hinit ≤ 65536 ∧ bucket_size hinit + cls ≤ 65536 ∧ max_size hinit < 2 ^ 32.

Context `{Pool P}.

(** The elements of [m] that lie in memory that was taken are in [M]. *)
Definition preserved (p : P) (m M : memory) : Prop :=
  ∀ b o, m !! b = Some o → valid o → all_taken p b (b + elt_size o) → M !! b = Some o.

(** Everything about a table that was built; it is found in every memory that
    keeps what was taken. *)
Lemma hash_init_ok hinit null names m p b : good_names names → good_init hinit → pool_ok p →
  ngx_hash_init cls hinit null names m p = Some (Some b) →
  pool_ok (pool b) ∧ (∀ x, taken p x → taken (pool b) x) ∧
  ¬ taken p (at_hash b) ∧ taken (pool b) (at_hash b) ∧ 0 < at_hash b ∧ at_hash b mod 8 = 0 ∧
  preserved p m (mem b) ∧
  ∀ M, preserved (pool b) (mem b) M → ∀ name,
    ngx_hash_find M (table b) (ngx_hash_key name) name = Some (value_in (live names) name).
Proof.
  intros Hgood (HB1 & HB2 & HB3 & Hmax) Hp Hb. unfold ngx_hash_init in Hb.
  destruct (existsb _ names) eqn:Ebig; [done|]. rewrite (u64_id (bucket_size hinit - 8)) in Hb by lia.
  set (B := bucket_size hinit - 8) in *.
  destruct (first_size (max_size hinit) B (Z.of_nat (length names))) as [start|] eqn:Est; [|done].
  pose proof (first_size_pos _ _ _ _ Est ltac:(lia) ltac:(lia)) as Hstart. cbn [mbind option_bind] in Hb.
  destruct (find_size B names _ start) as [sz|] eqn:Esz; [|done]. pose proof (find_size_lt _ _ _ _ _ Esz) as Hlt.
  assert (existsb (λ name, B + 8 <? NGX_HASH_ELT_SIZE name + 8) names = false) as Ebig'.
  { rewrite <- Ebig. f_equal. unfold B. replace (bucket_size hinit - 8 + 8) with (bucket_size hinit) by lia. done. }
  destruct (size_sums B (live names) names _ start sz Hgood eq_refl ltac:(lia) ltac:(lia) Ebig' Hstart Esz) as [Hpos Hsum].
  rewrite lengths_live in Hb. set (ns := live names) in *.
  assert (lengths sz ns (replicate (Z.to_nat sz) 8) = tests sz 8 ns) as Elen.
  { rewrite tests_nil. apply (lengths_tests sz Hpos 8 ns []); [apply Forall_nil_2|done|lia|].
    intros i. specialize (Hsum i). cbn [app]. lia. }
  rewrite Elen in Hb. clear Elen.
  assert (0 < total_length cls (tests sz 8 ns) + cls < 2 ^ 64) as Htot0.
  { assert (Forall (small k) (tests sz 8 ns)) as Hts.
    { unfold tests. apply list.Forall_forall. intros t (i & -> & _)%list_elem_of_fmap. unfold small.
      specialize (Hsum i). pose proof (bsum_bounds sz i ns Hgood). lia. }
    rewrite total_caps by done. pose proof (caps_upper _ Hts) as Hu. pose proof (caps_bounds k Hk _ Hts).
    unfold tests in Hu at 2. rewrite length_fmap, length_seq in Hu. lia. }
  assert (0 ≤ total_length cls (tests sz 8 ns) + cls < 2 ^ 64) as Htot by lia.
  destruct (ngx_palloc p _) as [[a|] p1] eqn:E1; [|done].
  assert (0 ≤ (if null then 24 else 0) + sz * 8 < 2 ^ 64) as Hsize1 by (destruct null; lia).
  pose proof (palloc_ok _ _ _ _ Hp Hsize1 E1) as Hp1. destruct (palloc_new _ _ _ _ Hp Hsize1 E1) as (Ha1 & Ha2 & Ha3).
  pose proof (λ x, palloc_old _ _ _ _ x Hp Hsize1 E1) as Hold1.
  destruct (ngx_palloc p1 _) as [[elts|] p2] eqn:E2; [|done].
  pose proof (palloc_ok _ _ _ _ Hp1 Htot E2) as Hp2. destruct (palloc_new _ _ _ _ Hp1 Htot E2) as (He1 & He2 & He3).
  pose proof (λ x, palloc_old _ _ _ _ x Hp1 Htot E2) as Hold2.
  pose proof (table_ok sz ns B elts m Hpos Hgood Hsum ltac:(lia) ltac:(lia) ltac:(lia) He1) as Htab. cbv zeta in Htab.
  rewrite fill_live in Hb. fold ns in Hb. destruct (fill _ _ _ _ _) as [test m1]. injection Hb as <-. cbn [pool at_hash mem table].
  destruct Htab as [Hkept Hfind]. destruct (Ha3 a) as [Hn Ht]; [destruct null; lia|].
  split; [done|]. split; [auto|].
  split; [done|]. split; [auto|]. split; [done|]. split; [done|]. split.
  - intros b o Hbo Ho Hr. apply Hkept; [done|done|].
    set (total := total_length cls (tests sz 8 ns) + cls) in *.
    destruct (decide (b + elt_size o ≤ elts ∨ elts + total ≤ b)) as [|Hno]; [done|exfalso].
    pose proof (elt_size_pos o b Ho). destruct (He3 (Z.max b elts) ltac:(lia)) as [Hnt _].
    apply Hnt. apply Hold1, Hr. lia.
  - intros M HM name. apply Hfind. intros b o Hbo Hlo Hhi Ho. apply HM; [done|done|]. intros x Hx. apply He3. lia.
Qed.

(** C20: In a table that [ngx_hash_init] builds of any keys, with the bucket sizes for
    which the 16-bit counters do not wrap, [ngx_hash_find] gives the value of
    the first key that is the name without regard to case, and NULL for every
    other name; it still does after whatever keeps the memory that was taken, and
    what was in such memory before is not changed. *)
Theorem hash_find_correct hinit null names m p b M name : good_names names → good_init hinit → pool_ok p →
  ngx_hash_init cls hinit null names m p = Some (Some b) → preserved (pool b) (mem b) M →
  ngx_hash_find M (table b) (ngx_hash_key name) name = Some (value_in (live names) name) ∧
  preserved p m (mem b).
Proof.
  intros Hg Hi Hp Hb HM. destruct (hash_init_ok hinit null names m p b Hg Hi Hp Hb) as (_ & _ & _ & _ & _ & _ & Hkept & Hfind).
  split; [by apply Hfind|done].
Qed.
End Correct.

Definition three : list ngx_hash_key_t :=
  (λ '(s, v), mk_key (Some s) (Z.of_nat (length s)) (ngx_hash_key_lc s) v) <$>
    [(bs "Host", 5); (bs "accept", 6); (bs "connection", 8)].

Definition of_three : built bump :=
  match ngx_hash_init 64 (mk_init 512 64) true three ∅ (4000 : bump) with Some (Some t) => t | _ => mk_built 0 (mk_hash [] 0) ∅ 0 end.

Lemma good_literal s v : Z.of_nat (length s) < 65536 → v ≠ NULL →
  good (mk_key (Some s) (Z.of_nat (length s)) (ngx_hash_key_lc s) v).
Proof. intros Hs Hv. split; cbn; [by exists s|lia|done]. Qed.

Lemma three_good : good_names three.
Proof. unfold good_names, live. cbn [three fmap list_fmap List.filter key]. repeat (apply Forall_cons_2; [by apply good_literal|]). apply Forall_nil_2. Qed.

Lemma hash_find_correct_witness :
  ngx_hash_find (mem of_three) (table of_three) (ngx_hash_key (bs "host")) (bs "host") = Some 5 ∧
  preserved (4000 : bump) ∅ (mem of_three).
Proof.
  apply (hash_find_correct 6 ltac:(lia) (mk_init 512 64) true three ∅ (4000 : bump) of_three (mem of_three) (bs "host"));
    [exact three_good|unfold good_init; cbn; lia|cbn; lia|vm_compute; reflexivity|by intros ? ? ?].
Defined.
(** With bucket sizes that [good_init] excludes the 16-bit counters wrap: sixteen
    names of 4086 bytes fit into one bucket of less than 64 KB, which then is taken
    for an empty one. *)
Example hash_bucket_wraps : let names := replicate 16 (mk_key (Some []) 4086 0 4) in
  fits 65520 1 names [0] = true ∧ sum names = 65536 ∧ place 64 (lengths 1 names [8]) 4096 = [NULL].
Proof. vm_compute. done. Qed.
End HashProof.
