(* ===== verification/Wildcard.v ===== *)
(** * Wildcard hash tables

    src/core/ngx_hash.c: [ngx_hash_add_key] sorts names into exact ones and
    wildcards, [ngx_hash_wildcard_init] builds a tree of tables, one for each
    label, and [ngx_hash_find_combined] looks a name up.  The two lowest bits of a
    value in such a table say what it is.  The arrays that the code grows by
    [ngx_array_push] are lists, and grow always. *)

From stdpp Require Import gmap.
From S2P Require Import Prelude Pool Hash StringOps.
Import Pool.Pool Hash.Hash StringOps.StringOps.
Open Scope Z_scope.

Module Wildcard.

Abbreviation dot := ("."%ch).
Abbreviation star := ("*"%ch).

(** ** Data *)

(** [ngx_hash_wildcard_t] *)
Record ngx_hash_wildcard_t := mk_wildcard { hash : ngx_hash_t; wc_value : Z }.

(** The elements of the tables and, at their addresses, the tables. *)
Record store := mk_store { elements : memory; wildcards : gmap Z ngx_hash_wildcard_t }.

(** [ngx_hash_combined_t]; [exact] is [None] where [hash.buckets] is NULL, and a
    table in [wildcards] has its buckets. *)
Record ngx_hash_combined_t := mk_combined { exact : option ngx_hash_t; wc_head : Z; wc_tail : Z }.

(** A [ngx_hash_key_t] with what can be read from [key.data] on. *)
Record wkey := mk_wkey { data : list Z; len : Z; wvalue : Z }.

(** ** Search

    [None] is a read outside of the store. *)

Definition untag (value : Z) : Z := Z.land value (Z.lnot 3).

(** Where the last label starts. *)
Fixpoint last_label (name : list Z) (n : nat) : nat :=
  match n with
  | O => O
  | S i => if nth i name 0 =? dot then n else last_label name i
  end.

Fixpoint find_wc_head (fuel : nat) (s : store) (hwc : Z) (name : list Z) : option Z :=
  match fuel with
  | O => None
  | S fuel =>
      h ← wildcards s !! hwc;
      let n := last_label name (length name) in
      let label := drop n name in
      value ← ngx_hash_find (elements s) (hash h) (ngx_hash_key label) label;
      if value =? NULL then Some (wc_value h)
      else if negb (Z.land value 2 =? 0) then
        match n with
        | O =>
            if negb (Z.land value 1 =? 0) then Some NULL
            else h ← wildcards s !! untag value; Some (wc_value h)
        | S n =>
            let hwc := untag value in
            value ← find_wc_head fuel s hwc (take n name);
            if negb (value =? NULL) then Some value else h ← wildcards s !! hwc; Some (wc_value h)
        end
      else if negb (Z.land value 1 =? 0) then
        match n with O => Some NULL | S _ => Some (untag value) end
      else Some value
  end.

Definition ngx_hash_find_wc_head (s : store) (hwc : Z) (name : list Z) : option Z :=
  find_wc_head (S (length name)) s hwc name.

(** Where the first label ends. *)
Fixpoint first_label (name : list Z) : nat :=
  match name with
  | [] => O
  | c :: name => if c =? dot then O else S (first_label name)
  end.

Fixpoint find_wc_tail (fuel : nat) (s : store) (hwc : Z) (name : list Z) : option Z :=
  match fuel with
  | O => None
  | S fuel =>
      h ← wildcards s !! hwc;
      let i := first_label name in
      if (i =? length name)%nat then Some NULL
      else
        let label := take i name in
        value ← ngx_hash_find (elements s) (hash h) (ngx_hash_key label) label;
        if value =? NULL then Some (wc_value h)
        else if negb (Z.land value 2 =? 0) then
          let hwc := untag value in
          value ← find_wc_tail fuel s hwc (drop (S i) name);
          if negb (value =? NULL) then Some value else h ← wildcards s !! hwc; Some (wc_value h)
        else Some value
  end.

Definition ngx_hash_find_wc_tail (s : store) (hwc : Z) (name : list Z) : option Z :=
  find_wc_tail (S (length name)) s hwc name.

Definition ngx_hash_find_combined (s : store) (hash : ngx_hash_combined_t) (key : Z) (name : list Z) : option Z :=
  value ← (match exact hash with Some h => ngx_hash_find (elements s) h key name | None => Some NULL end);
  if negb (value =? NULL) then Some value
  else if (length name =? 0)%nat then Some NULL
  else
    value ← (if negb (wc_head hash =? NULL) then ngx_hash_find_wc_head s (wc_head hash) name else Some NULL);
    if negb (value =? NULL) then Some value
    else if negb (wc_tail hash =? NULL) then ngx_hash_find_wc_tail s (wc_tail hash) name else Some NULL.

(** ** ngx_hash_wildcard_init

    [None] is a read beyond the text of a name, [Some None] is [NGX_ERROR]. *)

(** [len] and [dot]: the first label, up to [limit] bytes. *)
Fixpoint scan (data : list Z) (len limit : Z) : option (Z * bool) :=
  if limit <=? len then Some (len, false)
  else
    match data with
    | [] => None
    | c :: data => if c =? dot then Some (len, true) else scan data (len + 1) limit
    end.

(** [next_names] of the following names that start with the same label, and the
    rest of the names. *)
Fixpoint next_names (text : list Z) (len dot_len : Z) (has_dot : bool) (names : list wkey) :
    option (list wkey * list wkey) :=
  match names with
  | [] => Some ([], [])
  | name :: rest =>
      c ← ngx_strncmp text (data name) (Z.to_nat len);
      if negb (c =? 0) then Some ([], names)
      else
        other ← (if negb has_dot && (len <? Wildcard.len name) then
                   d ← data name !! Z.to_nat len; Some (negb (d =? dot))
                 else Some false);
        if other : bool then Some ([], names)
        else
          '(next, rest) ← next_names text len dot_len has_dot rest;
          Some (mk_wkey (drop (Z.to_nat dot_len) (data name)) (u64 (Wildcard.len name - dot_len)) (wvalue name) :: next, rest)
  end.

Section Init.
Context `{Pool P} (ngx_cacheline_size : Z) (hinit : ngx_hash_init_t) (hinit_key : list Z → Z).

(** The loop over [names]; [init] is the recursive call. *)
Fixpoint names_loop (init : list wkey → store → P → option (option (Z * store * P))) (n : nat)
    (names : list wkey) (curr : list ngx_hash_key_t) (s : store) (p : P) :
    option (option (list ngx_hash_key_t * store * P)) :=
  match names, n with
  | [], _ => Some (Some (curr, s, p))
  | _ :: _, O => None
  | name :: rest, S n =>
      '(label, has_dot) ← scan (data name) 0 (len name);
      let text := take (Z.to_nat label) (data name) in
      let key value := mk_key (Some text) label (hinit_key text) value in
      let dot_len := label + 1 in
      let l := if has_dot : bool then label + 1 else label in
      let next := if negb (len name =? l) then [mk_wkey (drop (Z.to_nat l) (data name)) (len name - l) (wvalue name)] else [] in
      '(more, rest) ← next_names (data name) l dot_len has_dot rest;
      match next ++ more with
      | [] => names_loop init n rest (curr ++ [key (if has_dot then Z.lor (wvalue name) 1 else wvalue name)]) s p
      | next =>
          r ← init next s p;
          match r with
          | None => Some None
          | Some (wdc, s, p) =>
              let s := if len name =? l then
                         mk_store (elements s) (alter (λ w, mk_wildcard (hash w) (wvalue name)) wdc (wildcards s))
                       else s in
              names_loop init n rest (curr ++ [key (Z.lor wdc (if has_dot then 3 else 2))]) s p
          end
      end
  end.

(** [hinit->hash] is NULL, as all callers have it; the address of the table that is
    built. *)
Fixpoint wildcard_init (fuel : nat) (names : list wkey) (s : store) (p : P) : option (option (Z * store * P)) :=
  match fuel with
  | O => None
  | S fuel =>
      r ← names_loop (wildcard_init fuel) (length names) names [] s p;
      match r with
      | None => Some None
      | Some (curr, s, p) =>
          b ← ngx_hash_init ngx_cacheline_size hinit true curr (elements s) p;
          match b with
          | None => Some None
          | Some b =>
              Some (Some (at_hash b,
                mk_store (mem b) (<[at_hash b := mk_wildcard (table b) NULL]> (wildcards s)), pool b))
          end
      end
  end.

(** A name has fewer labels than its text has bytes. *)
Definition ngx_hash_wildcard_init (names : list wkey) (s : store) (p : P) : option (option (Z * store * P)) :=
  wildcard_init (S (max_list ((λ n, length (data n)) <$> names))) names s p.
End Init.

(** ** The arrays of keys *)

(** [ngx_hash_keys_arrays_t]; an array of names whose [elts] is NULL is not in the
    map. *)
Record ngx_hash_keys_arrays_t := mk_arrays {
  hsize : Z;
  keys : list ngx_hash_key_t;
  keys_hash : gmap Z (list (list Z));
  dns_wc_head : list wkey;
  dns_wc_head_hash : gmap Z (list (list Z));
  dns_wc_tail : list wkey;
  dns_wc_tail_hash : gmap Z (list (list Z));
}.

Definition ngx_hash_keys_array_init (small : bool) : ngx_hash_keys_arrays_t :=
  mk_arrays (if small then 107 else 10007) [] ∅ [] ∅ [] ∅.

(** Whether a text is among the names of a bucket; their texts are compared with
    [ngx_strncmp]. *)
Fixpoint conflict (text : list Z) (names : list (list Z)) : option bool :=
  match names with
  | [] => Some false
  | name :: names =>
      if negb (length text =? length name)%nat then conflict text names
      else
        c ← ngx_strncmp text name (length text);
        if c =? 0 then Some true else conflict text names
  end.

Definition bucket (names : gmap Z (list (list Z))) (k : Z) : list (list Z) := default [] (names !! k).

(** [NGX_BUSY] where the name is in its bucket; else it is put there. *)
Definition push_name (names : gmap Z (list (list Z))) (k : Z) (text : list Z) : option (option (gmap Z (list (list Z)))) :=
  c ← conflict text (bucket names k);
  if c : bool then Some None else Some (Some (<[k := bucket names k ++ [text]]> names)).

(** The checks of a name that may be a wildcard: [None] where it is declined, or the
    number of the asterisks.  A null character follows the name. *)
Fixpoint count_stars (key : list Z) (n : Z) : option Z :=
  match key with
  | [] => Some n
  | c :: rest =>
      let n := if c =? star then n + 1 else n in
      if 1 <? n then None
      else if (c =? dot) && (nth 0 rest 0 =? dot) then None
      else count_stars rest n
  end.

(** [skip] and [last] of a wildcard; [None] where the name is none. *)
Definition wildcard_skip (key : list Z) : option (nat * nat) :=
  let len := length key in
  if (1 <? len)%nat && (nth 0 key 0 =? dot) then Some (1, len)%nat
  else if (2 <? len)%nat then
    if (nth 0 key 0 =? star) && (nth 1 key 0 =? dot) then Some (2, len)%nat
    else if (nth (len - 2) key 0 =? dot) && (nth (len - 1) key 0 =? star) then Some (0, len - 2)%nat
    else None
  else None.

(** The labels in the reverse order: the loop down from [i]. *)
Fixpoint reverse_labels (key : list Z) (i : nat) (len : nat) (p : list Z) : list Z :=
  match i with
  | O => p ++ take len (drop 1 key)
  | S j =>
      if nth i key 0 =? dot then reverse_labels key j 0 (p ++ take len (drop (S i) key) ++ [dot])
      else reverse_labels key j (S len) p
  end.

Inductive add_result := Added | Busy | Declined.

Definition add_exact (ha : ngx_hash_keys_arrays_t) (key : list Z) (v : Z) (readonly : bool) :
    option (add_result * ngx_hash_keys_arrays_t) :=
  let key := if readonly then key else ngx_tolower <$> key in
  let k := ngx_hash_key key mod hsize ha in
  r ← push_name (keys_hash ha) k key;
  match r with
  | None => Some (Busy, ha)
  | Some names =>
      Some (Added, mk_arrays (hsize ha) (keys ha ++ [mk_key (Some key) (Z.of_nat (length key)) (ngx_hash_key key) v]) names
        (dns_wc_head ha) (dns_wc_head_hash ha) (dns_wc_tail ha) (dns_wc_tail_hash ha))
  end.

(** [p] and [key.len] of a wildcard. *)
Definition wildcard_key (key : list Z) (skip last : nat) (v : Z) : wkey :=
  match skip with
  | O => mk_wkey (take last key ++ [0]) (Z.of_nat last) v
  | S _ => mk_wkey (reverse_labels key (last - 1) 0 [] ++ [0]) (Z.of_nat (last - 1)) v
  end.

Definition add_wildcard (ha : ngx_hash_keys_arrays_t) (key : list Z) (v : Z) (skip last : nat) :
    option (add_result * ngx_hash_keys_arrays_t) :=
  let '(h, low) := ngx_hash_strlow (drop skip (take last key)) in
  let key := take skip key ++ low ++ drop last key in
  let k := h mod hsize ha in
  r ← (if (skip =? 1)%nat then push_name (keys_hash ha) k low else Some (Some (keys_hash ha)));
  match r with
  | None => Some (Busy, ha)
  | Some exact_names =>
      let name := wildcard_key key skip last v in
      (* the names of the tails are compared with their last dots *)
      let text := match skip with O => take (S last) key | S _ => low end in
      let ha := match skip with
        | O => mk_arrays (hsize ha) (keys ha) exact_names (dns_wc_head ha) (dns_wc_head_hash ha)
                 (dns_wc_tail ha ++ [name]) (dns_wc_tail_hash ha)
        | S _ => mk_arrays (hsize ha) (keys ha) exact_names (dns_wc_head ha ++ [name]) (dns_wc_head_hash ha)
                 (dns_wc_tail ha) (dns_wc_tail_hash ha)
        end in
      r ← push_name (match skip with O => dns_wc_tail_hash ha | S _ => dns_wc_head_hash ha end) k text;
      match r with
      | None => Some (Busy, ha)
      | Some names =>
          Some (Added, match skip with
            | O => mk_arrays (hsize ha) (keys ha) (keys_hash ha) (dns_wc_head ha) (dns_wc_head_hash ha) (dns_wc_tail ha) names
            | S _ => mk_arrays (hsize ha) (keys ha) (keys_hash ha) (dns_wc_head ha) names (dns_wc_tail ha) (dns_wc_tail_hash ha)
            end)
      end
  end.

(** [wildcard] and [readonly] are the flags [NGX_HASH_WILDCARD_KEY] and
    [NGX_HASH_READONLY_KEY]. *)
Definition ngx_hash_add_key (ha : ngx_hash_keys_arrays_t) (key : list Z) (v : Z) (wildcard readonly : bool) :
    option (add_result * ngx_hash_keys_arrays_t) :=
  if negb wildcard then add_exact ha key v readonly
  else
    match count_stars key 0 with
    | None => Some (Declined, ha)
    | Some n =>
        match wildcard_skip key with
        | Some (skip, last) => add_wildcard ha key v skip last
        | None => if negb (n =? 0) then Some (Declined, ha) else add_exact ha key v readonly
        end
    end.
End Wildcard.
