(* ===== verification/WildcardProof.v ===== *)
(** * Wildcard hash tables find the longest wildcard

    The tree of tables that [ngx_hash_wildcard_init] builds of sorted names, and
    the searches in it. *)

From Stdlib Require Import Sorted.
From stdpp Require Import gmap.
From S2P Require Import Prelude Pool Hash HashProof StringOps Wildcard.
Import Pool.Pool Hash.Hash HashProof.HashProof StringOps.StringOps Wildcard.Wildcard.
Open Scope Z_scope.

Module WildcardProof.

(** ** Names and their labels *)

Definition dotless (l : list Z) : Prop := dot ∉ l.

(** What the labels of a name consist of; nothing of it is less than a dot in the
    order in which the names are sorted. *)
Definition label_char (c : Z) : Prop := 32 < c < 256 ∧ c ≠ dot ∧ ngx_tolower c = c.
Definition label (l : list Z) : Prop := l ≠ [] ∧ Forall label_char l.

Fixpoint join (ls : list (list Z)) : list Z :=
  match ls with
  | [] => []
  | [l] => l
  | l :: ls => l ++ dot :: join ls
  end.

(** A wildcard; with [trailing] it is not for the name itself. *)
Record entry := mk_entry { labels : list (list Z); trailing : bool; evalue : Z }.

Definition etext (e : entry) : list Z := join (labels e) ++ (if trailing e then [dot] else []).
Definition key_of (e : entry) : wkey := mk_wkey (etext e ++ [0]) (Z.of_nat (length (etext e))) (evalue e).

Record entry_ok (e : entry) : Prop := {
  ok_some : labels e ≠ [];
  ok_labels : Forall label (labels e);
  ok_value : 0 < evalue e ∧ evalue e mod 4 = 0;
  ok_length : Z.of_nat (length (etext e)) < 65536;
}.

Definition single (e : entry) : bool := match labels e with [_] => true | _ => false end.

(** What remains behind the first label. *)
Definition rest (e : entry) : option entry :=
  match labels e with
  | _ :: m :: ls => Some (mk_entry (m :: ls) (trailing e) (evalue e))
  | _ => None
  end.
Definition rests (es : list entry) : list entry := omap rest es.

Definition first (l : list Z) (e : entry) : Prop := head (labels e) = Some l.
#[export] Instance first_dec l e : Decision (first l e).
Proof. unfold first. apply _. Defined.
Definition group (l : list Z) (es : list entry) : list entry := filter (first l) es.

(** More than one label, the first of them [l]. *)
Definition longer (l : list Z) (e : entry) : Prop := ∃ m ls, labels e = l :: m :: ls.

Lemma label_dotless l : label l → dotless l.
Proof. intros [_ H] Hd. rewrite list.Forall_forall in H. by destruct (H _ Hd) as (_ & Hn & _). Qed.

Lemma label_no_nul l : label l → 0 ∉ l.
Proof. intros [_ H] Hd. rewrite list.Forall_forall in H. destruct (H _ Hd) as (Hn & _). lia. Qed.

Lemma label_lower l : label l → ngx_tolower <$> l = l.
Proof.
  intros [_ H]. induction H as [|c l (_ & _ & Hc) _ IH]; [done|]. rewrite fmap_cons, Hc. by f_equal.
Qed.

Lemma join_cons l m ls : join (l :: m :: ls) = l ++ dot :: join (m :: ls).
Proof. done. Qed.

Lemma etext_single l tr v : etext (mk_entry [l] tr v) = l ++ (if tr then [dot] else []).
Proof. done. Qed.

Lemma etext_longer l m ls tr v : etext (mk_entry (l :: m :: ls) tr v) = l ++ dot :: etext (mk_entry (m :: ls) tr v).
Proof. unfold etext. cbn [labels trailing]. rewrite join_cons, <- app_assoc. done. Qed.

Lemma etext_no_nul e : Forall label (labels e) → 0 ∉ etext e.
Proof.
  destruct e as [ls tr v]. unfold etext. cbn [labels trailing]. intros H. rewrite not_elem_of_app. split.
  - induction H as [|l ls Hl Hls IH]; [apply not_elem_of_nil|]. destruct ls as [|m ls]; [by apply label_no_nul|].
    rewrite join_cons, not_elem_of_app, not_elem_of_cons. split; [by apply label_no_nul|done].
  - destruct tr; [rewrite list_elem_of_singleton|rewrite elem_of_nil]; [done|tauto].
Qed.

Lemma rest_ok e e' : rest e = Some e' → entry_ok e → entry_ok e'.
Proof.
  destruct e as [[|l [|m ls]] tr v]; cbn; intros [= <-] [H1 H2 H3 H4].
  apply list.Forall_cons in H2 as [_ H2]. split; [done|exact H2|exact H3|].
  rewrite etext_longer in H4. rewrite length_app in H4. cbn [length] in H4. lia.
Qed.

Lemma rests_ok es : Forall entry_ok es → Forall entry_ok (rests es).
Proof.
  rewrite !list.Forall_forall. intros H e He. apply list_elem_of_omap in He as (e0 & He0 & Hr). eapply rest_ok; eauto.
Qed.

Lemma longer_rest l e : longer l e → ∃ e', rest e = Some e' ∧ labels e = l :: labels e' ∧ evalue e' = evalue e ∧
  trailing e' = trailing e ∧ etext e = l ++ dot :: etext e'.
Proof.
  destruct e as [ls tr v]. intros (m & ks & E). cbn in E. subst ls. eexists. split; [done|]. cbn. repeat split; try done.
  apply (etext_longer l m ks tr v).
Qed.

(** ** The parts of [ngx_hash_wildcard_init] *)

Definition has_after (e : entry) : bool := negb (single e) || trailing e.

(** The text of a name from its first label on. *)
Lemma etext_first l e : first l e → ∃ x, etext e = l ++ x ∧
  if has_after e then ∃ y, x = dot :: y else x = [].
Proof.
  destruct e as [[|l' [|m ls]] tr v]; unfold first; cbn; intros [= ->].
  - eexists. split; [apply (etext_single l tr v)|]. unfold has_after. cbn. destruct tr; [by eexists|done].
  - eexists. split; [apply (etext_longer l m ls tr v)|]. by eexists.
Qed.

Lemma scan_label l x k limit : dotless l → k + Z.of_nat (length l) ≤ limit →
  (if limit <=? k + Z.of_nat (length l) then True else ∃ y, x = dot :: y) →
  scan (l ++ x) k limit = Some (k + Z.of_nat (length l), negb (limit <=? k + Z.of_nat (length l))).
Proof.
  unfold dotless. revert k. induction l as [|c l IH]; intros k Hl Hk Hx.
  - cbn [app length]. cbn [length] in Hx, Hk. rewrite Z.add_0_r in *. destruct (Z.leb_spec limit k) as [Hlim|Hlim].
    + destruct x; cbn [scan]; rewrite (proj2 (Z.leb_le _ _)) by lia; cbn; f_equal; f_equal; lia.
    + destruct Hx as [y ->]. cbn [scan]. rewrite (proj2 (Z.leb_gt _ _)) by lia. by rewrite Z.eqb_refl.
  - cbn [app length] in *. apply not_elem_of_cons in Hl as [Hc Hl]. cbn [scan].
    rewrite (proj2 (Z.leb_gt limit k)) by lia. rewrite (proj2 (Z.eqb_neq c dot)) by done.
    replace (k + Z.of_nat (S (length l))) with (k + 1 + Z.of_nat (length l)) in * by lia. by apply IH; [|lia|].
Qed.

Lemma strncmp_label a : 0 ∉ a → ∀ x t, ∃ c, ngx_strncmp (a ++ x) (t ++ [0]) (length a) = Some c ∧ (c = 0 ↔ a `prefix_of` t).
Proof.
  induction a as [|c a IH]; intros Ha x t; cbn [length ngx_strncmp app].
  - eexists. split; [by destruct t|]. split; [intros _; apply prefix_nil|done].
  - apply not_elem_of_cons in Ha as [Hc Ha]. destruct t as [|d t]; cbn [app].
    + rewrite (proj2 (Z.eqb_neq c 0)) by done. eexists. split; [done|]. split; [lia|]. by intros [? ?].
    + destruct (Z.eqb_spec c d) as [<-|Hne].
      * rewrite (proj2 (Z.eqb_neq c 0)) by done. destruct (IH Ha x t) as (r & -> & Hr). exists r. split; [done|].
        rewrite Hr. split; [apply prefix_cons|apply prefix_cons_inv_2].
      * eexists. split; [done|]. split; [lia|]. intros H%prefix_cons_inv_1. done.
Qed.

(** Two texts that start with labels without dots. *)
Lemma prefix_labels l l' x : dotless l → dotless l' → (∀ c, x = c :: tail x → c = dot) →
  l `prefix_of` l' ++ x → l = l' ∨ ∃ c z, l' = l ++ c :: z.
Proof.
  intros Hl Hl' Hx [y Hy]. revert l' Hl' Hy. induction l as [|c l IH]; intros l' Hl' Hy.
  - destruct l' as [|c' l']; [by left|]. right. by exists c', l'.
  - apply not_elem_of_cons in Hl as [Hc Hl]. destruct l' as [|c' l']; cbn in Hy.
    + subst x. exfalso. apply Hc. symmetry. by apply Hx.
    + injection Hy as <- Hy. apply not_elem_of_cons in Hl' as [_ Hl']. destruct (IH Hl l' Hl' Hy) as [->|(c0 & z & ->)]; [by left|].
      right. by exists c0, z.
Qed.

Lemma prefix_label_dot l l' x : dotless l → dotless l' → (∀ c, x = c :: tail x → c = dot) →
  l ++ [dot] `prefix_of` l' ++ x → l = l'.
Proof.
  intros Hl Hl' Hx Hp. destruct (prefix_labels l l' x Hl Hl' Hx) as [|(c & z & ->)]; [by etrans; [apply prefix_app_r|]|done|exfalso].
  rewrite <- app_assoc in Hp. apply prefix_app_inv in Hp. cbn in Hp. apply prefix_cons_inv_1 in Hp as <-.
  apply Hl'. rewrite elem_of_app. right. by left.
Qed.

(** The names that follow [e0] with the same first label, and those after them. *)
Lemma next_names_ok e0 l g r : entry_ok e0 → first l e0 →
  Forall entry_ok (g ++ r) → Forall (longer l) g → Forall (λ e, ¬ first l e) r →
  next_names (etext e0 ++ [0]) (Z.of_nat (length l) + (if has_after e0 then 1 else 0)) (Z.of_nat (length l) + 1) (has_after e0)
    (key_of <$> g ++ r) = Some (key_of <$> rests g, key_of <$> r).
Proof.
  intros H0 Hf0 Hok Hg Hr.
  assert (label l) as Hlab.
  { destruct H0 as [_ H _ _]. unfold first in Hf0. destruct (labels e0) as [|l' ls]; [done|]. injection Hf0 as ->.
    by apply list.Forall_cons in H as [H _]. }
  destruct (etext_first l e0 Hf0) as (x0 & E0 & Hx0).
  set (A := l ++ if has_after e0 then [dot] else []).
  assert (0 ∉ A) as HA.
  { unfold A. rewrite not_elem_of_app. split; [by apply label_no_nul|]. destruct (has_after e0); [rewrite list_elem_of_singleton|rewrite elem_of_nil]; [done|tauto]. }
  assert (∃ z, etext e0 ++ [0] = A ++ z) as [z Ez].
  { rewrite E0. unfold A. destruct (has_after e0); [destruct Hx0 as [y ->]|subst x0]; [exists (y ++ [0])|exists [0]]; by rewrite <- !app_assoc. }
  assert (Z.to_nat (Z.of_nat (length l) + (if has_after e0 then 1 else 0)) = length A) as EA.
  { unfold A. rewrite length_app. destruct (has_after e0); cbn; lia. }
  rewrite Ez. induction Hg as [|e g Hlong Hg IH].
  - cbn [app rests omap list_omap fmap list_fmap] in *. destruct r as [|e r]; [done|]. cbn [next_names fmap list_fmap].
    apply list.Forall_cons in Hr as [Hr _]. cbn [app] in Hok. apply list.Forall_cons in Hok as [He _].
    cbn [data key_of len]. rewrite EA. destruct (strncmp_label A HA z (etext e)) as (c & -> & Hc). cbn [mbind option_bind].
    destruct (Z.eqb_spec c 0) as [E|E]; [|done]. cbn [negb]. apply Hc in E.
    pose proof (ok_labels e He) as Hlabs. pose proof (ok_some e He) as Hsome.
    destruct (labels e) as [|l' ls] eqn:El; [done|]. apply list.Forall_cons in Hlabs as [Hl' _].
    assert (first l' e) as Hf' by (unfold first; by rewrite El). assert (l ≠ l') as Hne by (intros ->; done).
    destruct (etext_first l' e Hf') as (x & Ex & Hx). rewrite Ex in E.
    assert (∀ c, x = c :: tail x → c = dot) as Hxd.
    { intros d Hd. destruct (has_after e); [destruct Hx as [y ->]; by injection Hd|by subst]. }
    pose proof (label_dotless l Hlab). pose proof (label_dotless l' Hl'). unfold A in E.
    destruct (has_after e0) eqn:E1; [exfalso; by apply Hne, (prefix_label_dot l l' x)|].
    rewrite app_nil_r in E. destruct (prefix_labels l l' x) as [|(d & y & ->)]; [done|done|done|done|done|].
    cbn [negb andb]. rewrite (proj2 (Z.ltb_lt _ _)) by (rewrite Ex, !length_app; cbn; lia).
    assert (length A = length l) as -> by (unfold A; by rewrite app_nil_r). rewrite Ex, <- !app_assoc. rewrite lookup_app_r by lia. rewrite Nat.sub_diag. cbn.
    assert (d ≠ dot) as Hd by (intros ->; apply H1; rewrite elem_of_app; right; by left).
    by rewrite (proj2 (Z.eqb_neq d dot)).
  - cbn [app] in Hok. apply list.Forall_cons in Hok as [He Hok]. specialize (IH Hok).
    destruct (longer_rest l e Hlong) as (e' & Hrest & Hlabs & Hv & Htr & Htext).
    cbn [app fmap list_fmap next_names]. cbn [data key_of Wildcard.len]. rewrite EA.
    destruct (strncmp_label A HA z (etext e)) as (c & -> & Hc). cbn [mbind option_bind].
    assert (c = 0) as ->.
    { apply Hc. rewrite Htext. unfold A. destruct (has_after e0); [exists (etext e'); by rewrite <- app_assoc|].
      rewrite app_nil_r. by apply prefix_app_r. }
    cbn [Z.eqb negb].
    assert ((if negb (has_after e0) && (Z.of_nat (length l) + (if has_after e0 then 1 else 0) <? Z.of_nat (length (etext e)))
             then d ← (etext e ++ [0]) !! length A; Some (negb (d =? dot)) else Some false) = Some false) as ->.
    { destruct (has_after e0) eqn:E1; [done|]. cbn [negb andb]. destruct (_ <? _); [|done].
      unfold A. rewrite app_nil_r, Htext, <- app_assoc. rewrite lookup_app_r by lia. by rewrite Nat.sub_diag. }
    cbn [mbind option_bind]. change (list_fmap wkey) with (@fmap list list_fmap). fold (key_of <$> g ++ r). rewrite IH. cbn [mbind option_bind].
    unfold rests. cbn [omap list_omap]. rewrite Hrest. cbn [fmap list_fmap]. do 3 f_equal.
    pose proof (ok_length e He). unfold key_of. rewrite Hv, Htext in *. rewrite length_app in *. cbn [length] in *. f_equal.
    + rewrite <- app_assoc. rewrite drop_app_ge by lia. replace (Z.to_nat (Z.of_nat (length l) + 1) - length l)%nat with 1%nat by lia. done.
    + rewrite u64_id by lia. lia.
Qed.

(** ** The tree of tables *)

(** The names in the order in which a table takes them: with a first name all
    others with its first label, which have more labels. *)
Inductive ordered : list entry → Prop :=
| ordered_nil : ordered []
| ordered_group e0 g r l : first l e0 → Forall (longer l) g → Forall (λ e, ¬ first l e) r →
    ordered (rests (e0 :: g)) → ordered r → ordered (e0 :: g ++ r).

(** The value that is stored for a label, with the names that start with it; [N] is
    what holds of the tables one level below. *)
Inductive slot (N : Z → list entry → Z → Prop) (l : list Z) : list entry → Z → Prop :=
| slot_none : slot N l [] 0
| slot_one e : first l e → single e = true → slot N l [e] (if trailing e then Z.lor (evalue e) 1 else evalue e)
| slot_more e g a : first l e → Forall (longer l) g → rests (e :: g) ≠ [] → 0 < a → a mod 4 = 0 →
    N a (rests (e :: g)) (if single e then evalue e else 0) →
    slot N l (e :: g) (Z.lor a (if has_after e then 3 else 2)).

(** The table at [a] is the one of the names [es], with the value [w] of its own. *)
Inductive node (s : store) : Z → list entry → Z → Prop :=
| Node a h w es : wildcards s !! a = Some (mk_wildcard h w) →
    (∀ l, dotless l → ∃ x, ngx_hash_find (elements s) h (ngx_hash_key l) l = Some x ∧
      slot (node s) l (group l es) x) →
    node s a es w.

Lemma entries_none (Q : entry → Prop) `{∀ e, Decision (Q e)} l : Forall (λ e, ¬ Q e) l → filter Q l = [].
Proof. induction 1 as [|e l He _ IH]; [done|]. by rewrite filter_cons_False. Qed.

Lemma group_cons_ne l l' e0 g r : first l e0 → Forall (longer l) g → l ≠ l' →
  group l' (e0 :: g ++ r) = group l' r.
Proof.
  intros H0 Hg Hne. unfold group. rewrite filter_cons_False by (intros H; by unfold first in *; rewrite H0 in H; injection H as ->).
  rewrite list.filter_app. assert (filter (first l') g = []) as ->; [|done].
  apply entries_none. eapply List.Forall_impl; [|exact Hg]. intros e (m & ls & E) H. unfold first in H. rewrite E in H. by injection H.
Qed.

Lemma group_cons l e0 g r : first l e0 → Forall (longer l) g → Forall (λ e, ¬ first l e) r →
  group l (e0 :: g ++ r) = e0 :: g.
Proof.
  intros H0 Hg Hr. unfold group. rewrite filter_cons_True by done. f_equal. rewrite list.filter_app.
  assert (filter (first l) r = []) as -> by (by apply entries_none). rewrite app_nil_r.
  induction Hg as [|e g (m & ls & E) Hg IH]; [done|]. rewrite filter_cons_True by (unfold first; by rewrite E). by f_equal.
Qed.

(** ** Stores that keep what was taken *)
Section Build.
Context (k : Z) (Hk : 3 ≤ k) `{Pool P}.
Abbreviation cls := (2 ^ k).

Definition later_but (a : Z) (p : P) (s s' : store) : Prop :=
  preserved p (elements s) (elements s') ∧
  ∀ b w, b ≠ a → wildcards s !! b = Some w → taken p b → wildcards s' !! b = Some w.

Definition later (p : P) (s s' : store) : Prop :=
  preserved p (elements s) (elements s') ∧
  ∀ b w, wildcards s !! b = Some w → taken p b → wildcards s' !! b = Some w.

Definition extends (p p' : P) : Prop := ∀ x, taken p x → taken p' x.

Lemma preserved_trans p p' m1 m2 m3 : extends p p' → preserved p m1 m2 → preserved p' m2 m3 → preserved p m1 m3.
Proof. intros He H1 H2 b o Hb Ho Ht. apply H2; [by apply H1|done|]. intros x Hx. by apply He, Ht. Qed.

Lemma preserved_refl p m : preserved p m m.
Proof. by intros b o. Qed.

Lemma later_refl p s : later p s s.
Proof. split; [apply preserved_refl|done]. Qed.

Lemma later_trans p p' s1 s2 s3 : extends p p' → later p s1 s2 → later p' s2 s3 → later p s1 s3.
Proof.
  intros He [H1 H2] [H3 H4]. split; [by eapply preserved_trans|]. intros b w Hb Ht. apply H4; [by apply H2|by apply He].
Qed.

Context (hinit : ngx_hash_init_t) (Hinit : good_init k hinit).

Abbreviation init := (wildcard_init cls hinit ngx_hash_key_lc).
Abbreviation loop := (names_loop ngx_hash_key_lc).

(** What the loop over the names promises. *)
Definition loop_post (es : list entry) (curr : list ngx_hash_key_t) (s : store) (p : P)
    (r : option (option (list ngx_hash_key_t * store * P))) : Prop :=
  match r with
  | None => False
  | Some None => True
  | Some (Some (curr', s', p')) => ∃ new, curr' = curr ++ new ∧ Forall good new ∧ pool_ok p' ∧ extends p p' ∧ later p s s' ∧
      ∀ l, dotless l → ∀ s'', later p' s' s'' → slot (node s'') l (group l es) (value_in new l)
  end.

(** What the whole function promises. *)
Definition init_post (es : list entry) (s : store) (p : P) (r : option (option (Z * store * P))) : Prop :=
  match r with
  | None => False
  | Some None => True
  | Some (Some (a, s', p')) => pool_ok p' ∧ extends p p' ∧ later p s s' ∧
      ¬ taken p a ∧ taken p' a ∧ 0 < a ∧ a mod 4 = 0 ∧
      ∃ h, wildcards s' !! a = Some (mk_wildcard h 0) ∧
      ∀ w s'', later_but a p' s' s'' → wildcards s'' !! a = Some (mk_wildcard h w) → node s'' a es w
  end.

Lemma live_good l : Forall good l → live l = l.
Proof.
  induction 1 as [|n l Hn _ IH]; [done|]. unfold live in *. cbn [List.filter]. destruct (good_key n Hn) as (d & -> & _). by rewrite IH.
Qed.

Lemma hash_init_total names m p : ngx_hash_init cls hinit true names m p ≠ None.
Proof.
  destruct Hinit as (H1 & H2 & _). unfold ngx_hash_init. destruct (existsb _ _); [done|]. rewrite u64_id by lia.
  unfold first_size. assert (0 < (bucket_size hinit - 8) / 16) as Hd by zlia. rewrite (proj2 (Z.eqb_neq _ 0)) by lia.
  cbn [mbind option_bind]. destruct (find_size _ _ _ _); [|done]. destruct (ngx_palloc _ _) as [[?|] ?]; [|done].
  destruct (ngx_palloc _ _) as [[?|] ?]; [|done]. by destruct (fill _ _ _ _ _).
Qed.

(** The loop, and then the table of the labels. *)
Lemma init_of_loop fuel es s p : pool_ok p →
  loop_post es [] s p (loop (init fuel) (length es) (key_of <$> es) [] s p) →
  init_post es s p (init (S fuel) (key_of <$> es) s p).
Proof.
  intros Hp Hloop. cbn [wildcard_init]. rewrite length_fmap. unfold loop_post in Hloop.
  destruct (names_loop _ _ _ _ _ _ _) as [[[[curr s1] p1]|]|]; [|done|done]. cbn [mbind option_bind].
  destruct Hloop as (new & -> & Hgood & Hp1 & He1 & Hl1 & Hslot). cbn [app].
  destruct (ngx_hash_init _ _ _ _ _ _) as [[b|]|] eqn:E; [|done|by apply hash_init_total in E].
  cbn [mbind option_bind init_post].
  assert (good_names new) as Hgn by (unfold good_names; by rewrite live_good).
  destruct (hash_init_ok k Hk hinit true new (elements s1) p1 b Hgn Hinit Hp1 E) as (Hp2 & He2 & Hn & Ht & Hpos & Hmod & Hkept & Hfind).
  rewrite (live_good new Hgood) in Hfind.
  split; [done|]. split; [intros x Hx; by apply He2, He1|].
  assert (later p1 s1 (mk_store (mem b) (<[at_hash b := mk_wildcard (table b) NULL]> (wildcards s1)))) as Hl2.
  { split; [done|]. intros c w Hc Htc. cbn. rewrite lookup_insert_ne; [done|]. by intros <-. }
  split; [by eapply later_trans|]. split; [intros Htp; by apply Hn, He1|]. split; [done|]. split; [done|]. split; [zlia|].
  exists (table b). split; [cbn; apply lookup_insert_eq|]. intros w s'' [HL1 HL2] Hw. econstructor; [exact Hw|].
  intros l Hl. exists (value_in new l). split; [by apply Hfind|]. apply Hslot; [done|].
  split; [by eapply preserved_trans|]. intros c v Hc Htc. apply HL2; [intros ->; done| |by apply He2].
  cbn. rewrite lookup_insert_ne; [done|]. by intros <-.
Qed.

(** One label more. *)
Lemma loop_post_cons e0 g r l c curr s p s2 p2 res : first l e0 → Forall (longer l) g → Forall (λ e, ¬ first l e) r →
  good c → name_of c = l → extends p p2 → later p s s2 →
  (∀ s'', later p2 s2 s'' → slot (node s'') l (e0 :: g) (value c)) →
  loop_post r (curr ++ [c]) s2 p2 res → loop_post (e0 :: g ++ r) curr s p res.
Proof.
  intros H0 Hg Hr Hc Hname He Hl Hslot Hres. destruct res as [[[[curr' s'] p']|]|]; [|done|done].
  destruct Hres as (new & -> & Hgood & Hp' & He' & Hl' & Hnew). exists (c :: new). rewrite <- app_assoc.
  split; [done|]. split; [by apply Forall_cons_2|]. split; [done|]. split; [intros x Hx; by apply He', He|].
  split; [by eapply later_trans|]. intros l' Hd s'' Hs''. unfold value_in. cbn [List.find]. unfold named at 1. rewrite Hname.
  destruct (decide (l' = l)) as [->|Hne].
  - rewrite bool_decide_true by done. rewrite (group_cons l) by done. apply Hslot. by eapply later_trans.
  - rewrite bool_decide_false by done. rewrite (group_cons_ne l) by (done || by intros ->). by apply Hnew.
Qed.

Lemma good_key_of_label l v : label l → Z.of_nat (length l) < 65536 → v ≠ 0 →
  good (mk_key (Some l) (Z.of_nat (length l)) (ngx_hash_key_lc l) v) ∧
  name_of (mk_key (Some l) (Z.of_nat (length l)) (ngx_hash_key_lc l) v) = l.
Proof. intros Hl Hlen Hv. split; [split; cbn; [by exists l|lia|done]|]. by apply label_lower. Qed.

Lemma lor_ne_0 a b : 0 < a → 0 ≤ b → Z.lor a b ≠ 0.
Proof. intros Ha Hb H0. apply Z.lor_eq_0_iff in H0. lia. Qed.

(** The names one level below. *)
Lemma next_of_group e0 l g : first l e0 → entry_ok e0 →
  (if negb (Z.of_nat (length (etext e0)) =? (if has_after e0 then Z.of_nat (length l) + 1 else Z.of_nat (length l)))
   then [mk_wkey (drop (Z.to_nat (if has_after e0 then Z.of_nat (length l) + 1 else Z.of_nat (length l))) (etext e0 ++ [0]))
           (Z.of_nat (length (etext e0)) - (if has_after e0 then Z.of_nat (length l) + 1 else Z.of_nat (length l))) (evalue e0)]
   else []) ++ (key_of <$> rests g) = key_of <$> rests (e0 :: g) ∧
  (Z.of_nat (length (etext e0)) =? (if has_after e0 then Z.of_nat (length l) + 1 else Z.of_nat (length l))) = single e0.
Proof.
  intros Hf Hok. unfold rests at 2. cbn [omap list_omap]. fold (rests g).
  destruct e0 as [[|l' [|m ls]] tr v]; unfold first in Hf; cbn in Hf; [done| |]; injection Hf as ->.
  - unfold has_after, single. cbn [labels trailing negb orb]. rewrite etext_single, length_app.
    assert (Z.of_nat (length l + length (if tr then [dot] else [])) = (if tr then Z.of_nat (length l) + 1 else Z.of_nat (length l))) as ->
      by (destruct tr; cbn; lia). rewrite Z.eqb_refl. done.
  - unfold has_after, single. cbn [labels trailing negb orb rest evalue]. rewrite etext_longer, length_app. cbn [length].
    assert (0 < Z.of_nat (length (etext (mk_entry (m :: ls) tr v)))) as Hpos.
    { pose proof (ok_labels _ Hok) as Hl. cbn [labels] in Hl. apply list.Forall_cons in Hl as [_ Hl].
      apply list.Forall_cons in Hl as [[Hm _] _]. destruct m as [|c m]; [done|]. unfold etext. cbn [labels].
      destruct ls; cbn; lia. }
    rewrite (proj2 (Z.eqb_neq _ _)) by lia. split; [|done]. cbn [negb app fmap list_fmap]. f_equal. unfold key_of. f_equal; [|lia].
    rewrite <- app_assoc. rewrite drop_app_ge by lia. by replace (Z.to_nat (Z.of_nat (length l) + 1) - length l)%nat with 1%nat by lia.
Qed.

Lemma first_label_ok l e : first l e → entry_ok e → label l ∧ Z.of_nat (length l) < 65536.
Proof.
  intros Hf He. destruct (etext_first l e Hf) as (x & Ex & _). pose proof (ok_length e He) as Hlen. rewrite Ex, length_app in Hlen.
  split; [|lia]. pose proof (ok_labels e He) as Hl. unfold first in Hf. destruct (labels e); [done|]. injection Hf as ->.
  by apply list.Forall_cons in Hl as [Hl _].
Qed.

Lemma scan_first e l : first l e → entry_ok e →
  scan (etext e ++ [0]) 0 (Z.of_nat (length (etext e))) = Some (Z.of_nat (length l), has_after e) ∧
  take (Z.to_nat (Z.of_nat (length l))) (etext e ++ [0]) = l.
Proof.
  intros Hf He. destruct (first_label_ok l e Hf He) as [Hl _]. destruct (etext_first l e Hf) as (x & -> & Hx).
  split; [|by rewrite Nat2Z.id, <- app_assoc, take_app_length]. rewrite <- app_assoc, length_app.
  pose proof (scan_label l (x ++ [0]) 0 (Z.of_nat (length l + length x)) (label_dotless l Hl) ltac:(lia)) as Hs.
  rewrite Z.add_0_l in Hs. assert ((Z.of_nat (length l + length x) <=? Z.of_nat (length l)) = negb (has_after e)) as Ele.
  { destruct (has_after e); [destruct Hx as [y ->]|subst x]; cbn [negb length]; [apply Z.leb_gt|apply Z.leb_le]; lia. }
  rewrite Ele, negb_involutive in Hs. apply Hs. destruct (has_after e); [|done]. destruct Hx as [y ->]. by exists (y ++ [0]).
Qed.

Lemma rests_depth es n : Forall (λ e, (length (labels e) ≤ S n)%nat) es → Forall (λ e, (length (labels e) ≤ n)%nat) (rests es).
Proof.
  rewrite !list.Forall_forall. intros H' e He. apply list_elem_of_omap in He as (e0 & He0 & Hr). specialize (H' e0 He0). cbn in H'.
  destruct e0 as [[|l [|m ls]] tr v]; cbn in *; try done. injection Hr as <-. cbn. lia.
Qed.

(** The slot of a name whose label is on the lowest level. *)
Lemma slot_lowest N l e0 : first l e0 → rests [e0] = [] →
  slot N l [e0] (if has_after e0 then Z.lor (evalue e0) 1 else evalue e0).
Proof.
  intros Hf Hr. assert (single e0 = true) as Hs.
  { destruct e0 as [[|l' [|m ls]] tr v]; [done|done|]. cbn in Hr. done. }
  pose proof (slot_one N l e0 Hf Hs) as H1. unfold has_after. by rewrite Hs.
Qed.

Lemma later_alter p s s1 a h w : later p s s1 → ¬ taken p a → wildcards s1 !! a = Some (mk_wildcard h 0) →
  later p s (mk_store (elements s1) (<[a := mk_wildcard h w]> (wildcards s1))).
Proof.
  intros [H1 H2] Hn Ha. split; [done|]. intros b v Hb Ht. cbn. rewrite lookup_insert_ne; [by apply H2|]. by intros <-.
Qed.

Lemma loop_ok es : ordered es → Forall entry_ok es → ∀ fuel n curr s p, (length es ≤ n)%nat →
  Forall (λ e, (length (labels e) ≤ S fuel)%nat) es → pool_ok p →
  loop_post es curr s p (loop (init fuel) n (key_of <$> es) curr s p).
Proof.
  induction 1 as [|e0 g r l Hf Hg Hr Hord1 IH1 Hord2 IH2]; intros Hok fuel n curr s p Hn Hdep Hp.
  { assert (loop (init fuel) n (key_of <$> []) curr s p = Some (Some (curr, s, p))) as -> by (by destruct n).
    exists []. rewrite app_nil_r. split; [done|]. split; [apply Forall_nil_2|]. split; [done|]. split; [by intros ?|].
    split; [apply later_refl|]. intros l Hl s'' Hs''. apply slot_none. }
  destruct n as [|n]; [cbn in Hn; lia|]. cbn [length] in Hn. rewrite length_app in Hn.
  pose proof Hok as Hok0. apply list.Forall_cons in Hok as [Hok1 Hok]. pose proof (proj2 (proj1 (Forall_app _ _ _) Hok)) as Hokr.
  apply list.Forall_cons in Hdep as [Hdep0 Hdep]. apply Forall_app in Hdep as [Hdepg Hdepr].
  assert (Forall entry_ok (e0 :: g)) as Hokg by (apply Forall_cons_2; [done|]; by apply Forall_app in Hok as [Hok _]).
  destruct (first_label_ok l e0 Hf Hok1) as [Hlab Hlen].
  rewrite fmap_cons. cbn [names_loop]. change (data (key_of e0)) with (etext e0 ++ [0]).
  change (Wildcard.len (key_of e0)) with (Z.of_nat (length (etext e0))). change (wvalue (key_of e0)) with (evalue e0).
  destruct (scan_first e0 l Hf Hok1) as [Escan Etake]. rewrite Escan. cbn [mbind option_bind]. cbv beta iota zeta. rewrite Etake.
  pose proof (next_names_ok e0 l g r Hok1 Hf Hok Hg Hr) as Hnext.
  replace (if has_after e0 then Z.of_nat (length l) + 1 else Z.of_nat (length l))
    with (Z.of_nat (length l) + (if has_after e0 then 1 else 0)) in * by (destruct (has_after e0); lia).
  rewrite Hnext. cbn [mbind option_bind].
  pose proof (next_of_group e0 l g Hf Hok1) as [Hgroup Hsingle].
  replace (if has_after e0 then Z.of_nat (length l) + 1 else Z.of_nat (length l))
    with (Z.of_nat (length l) + (if has_after e0 then 1 else 0)) in * by (destruct (has_after e0); lia).
  rewrite Hgroup, Hsingle.
  destruct (ok_value e0 Hok1) as [Hv0 _].
  destruct (rests (e0 :: g)) as [|e' es'] eqn:Er; cbn [fmap list_fmap].
  - assert (g = []) as ->.
    { destruct g as [|e g]; [done|]. apply list.Forall_cons in Hg as [He _]. destruct (longer_rest l e He) as (e' & Hrest & _).
      unfold rests in Er. cbn [omap list_omap] in Er. rewrite Hrest in Er. by destruct (rest e0). }
    assert ((if has_after e0 then Z.lor (evalue e0) 1 else evalue e0) ≠ 0) as Hne by (destruct (has_after e0); [apply lor_ne_0|]; lia).
    destruct (good_key_of_label l _ Hlab Hlen Hne) as [Hgood Hname].
    apply (loop_post_cons e0 [] r l _ curr s p s p _ Hf Hg Hr Hgood Hname); [by intros ?|apply later_refl| |].
    + intros s'' _. by apply slot_lowest.
    + apply IH2; [done|cbn in Hn; lia|done|done].
  - destruct fuel as [|fuel].
    { exfalso. pose proof (rests_depth (e0 :: g) 0 (Forall_cons_2 _ _ _ Hdep0 Hdepg)) as Hd. rewrite Er in Hd.
      pose proof (rests_ok _ Hokg) as Ho. rewrite Er in Ho. apply list.Forall_cons in Hd as [Hd _]. apply list.Forall_cons in Ho as [Ho _].
      apply (ok_some e' Ho). destruct (labels e'); [done|cbn in Hd; lia]. }
    pose proof (rests_depth (e0 :: g) (S fuel) (Forall_cons_2 _ _ _ Hdep0 Hdepg)) as Hd. pose proof (rests_ok _ Hokg) as Ho.
    rewrite Er in Hd, Ho.
    pose proof (init_of_loop fuel (e' :: es') s p Hp (IH1 Ho fuel (length (e' :: es')) [] s p ltac:(lia) Hd Hp)) as Hinit1.
    change (key_of e' :: list_fmap entry wkey key_of es') with (key_of <$> e' :: es').
    destruct (wildcard_init _ _ _ (S fuel) _ s p) as [[[[wdc s1] p1]|]|]; [|done|done]. cbn [mbind option_bind].
    destruct Hinit1 as (Hp1 & He1 & Hl1 & Hnt & Ht & Hpos & Hmod & h & Hh & Hnode).
    assert (∃ w, w = (if single e0 then evalue e0 else 0) ∧
      (if single e0 then mk_store (elements s1) (alter (λ w, mk_wildcard (hash w) (evalue e0)) wdc (wildcards s1)) else s1) =
      mk_store (elements s1) (<[wdc := mk_wildcard h w]> (wildcards s1))) as (w & Ew & ->).
    { eexists. split; [done|]. destruct s1 as [m1 ws1]. cbn in Hh |- *. destruct (single e0).
      - f_equal. apply map_eq. intros b. destruct (decide (b = wdc)) as [->|Hb].
        + by rewrite lookup_alter_eq, lookup_insert_eq, Hh.
        + by rewrite lookup_alter_ne, lookup_insert_ne.
      - f_equal. symmetry. by apply insert_id. }
    assert (Z.lor wdc (if has_after e0 then 3 else 2) ≠ 0) as Hne by (apply lor_ne_0; destruct (has_after e0); lia).
    destruct (good_key_of_label l _ Hlab Hlen Hne) as [Hgood Hname].
    eapply (loop_post_cons e0 g r l _ curr s p _ p1 _ Hf Hg Hr Hgood Hname He1); [by apply later_alter| |].
    + intros s'' [HL1 HL2]. cbn [value]. apply slot_more; [done|done|by rewrite Er|done|done|]. rewrite Er, <- Ew.
      apply Hnode.
      * split; [done|]. intros b v Hb Hbv Htb. apply HL2; [|done]. cbn. by rewrite lookup_insert_ne.
      * apply HL2; [|done]. cbn. apply lookup_insert_eq.
    + apply IH2; [done|lia|done|done].
Qed.

Lemma ordered_init es fuel s p : ordered es → Forall entry_ok es → Forall (λ e, (length (labels e) ≤ fuel)%nat) es →
  es ≠ [] → pool_ok p → init_post es s p (init fuel (key_of <$> es) s p).
Proof.
  intros Hord Hok Hdep Hne Hp. destruct fuel as [|fuel].
  - exfalso. destruct es as [|e es]; [done|]. apply list.Forall_cons in Hdep as [Hd _]. apply list.Forall_cons in Hok as [Ho _].
    apply (ok_some e Ho). destruct (labels e); [done|cbn in Hd; lia].
  - apply init_of_loop; [done|]. by apply loop_ok.
Qed.
End Build.

(** ** The searches *)

(** The labels of a wildcard are the first ones of a name; a name that has no more
    labels is only matched where the search is not for tails and the wildcard is
    for the name itself, too. *)
Definition matches (tails : bool) (hs : list (list Z)) (e : entry) : Prop :=
  labels e `prefix_of` hs ∧ (labels e = hs → tails = false ∧ trailing e = false).

(** The longest wildcard that matches; [Q] is what the result is where none does. *)
Definition found (tails : bool) (es : list entry) (hs : list (list Z)) (Q : Z → Prop) (r : Z) : Prop :=
  (∃ e, e ∈ es ∧ matches tails hs e ∧ r = evalue e ∧
    ∀ e', e' ∈ es → matches tails hs e' → (length (labels e') ≤ length (labels e))%nat) ∨
  ((∀ e, e ∈ es → ¬ matches tails hs e) ∧ Q r).

Lemma tag_small v t : v mod 4 = 0 → 0 ≤ t < 4 → untag (Z.lor v t) = v ∧ Z.land (Z.lor v t) 3 = t.
Proof.
  intros Hv Ht. assert (v = Z.shiftl (v / 4) 2) as Ev by (rewrite Z.shiftl_mul_pow2 by lia; zlia).
  assert (Z.land v 3 = 0) as H3 by (change 3 with (Z.ones 2); rewrite Z.land_ones by lia; done).
  assert (Z.land t 3 = t) as Ht3 by (change 3 with (Z.ones 2); rewrite Z.land_ones by lia; apply Z.mod_small; lia).
  unfold untag. rewrite !Z.land_lor_distr_l, H3, Ht3. split; [|done].
  assert (Z.land t (Z.lnot 3) = 0) as ->.
  { rewrite <- Ht3, <- Z.land_assoc. rewrite Z.land_lnot_diag. apply Z.land_0_r. }
  rewrite Z.lor_0_r. rewrite <- Z.ldiff_land. change 3 with (Z.ones 2). rewrite Z.ldiff_ones_r by lia.
  rewrite Z.shiftl_mul_pow2, Z.shiftr_div_pow2 by lia. zlia.
Qed.

Lemma tag_bits x b : b = 1 ∨ b = 2 → Z.land x b = Z.land (Z.land x 3) b.
Proof. intros [-> | ->]; by rewrite <- Z.land_assoc. Qed.

Lemma tag_test v t b : v mod 4 = 0 → 0 ≤ t < 4 → b = 1 ∨ b = 2 → Z.land (Z.lor v t) b = Z.land t b.
Proof. intros Hv Ht Hb. rewrite tag_bits by done. by destruct (tag_small v t Hv Ht) as [_ ->]. Qed.

Lemma tag_none v : v mod 4 = 0 → Z.lor v 0 = v.
Proof. intros _. apply Z.lor_0_r. Qed.

(** Only the names with the first label of a name can match it. *)
Lemma matches_group t es l hs e : e ∈ es → entry_ok e → matches t (l :: hs) e → e ∈ group l es.
Proof.
  intros He Hok [Hp _]. apply list_elem_of_filter. split; [|done]. unfold first. pose proof (ok_some e Hok).
  destruct (labels e) as [|l' ls]; [done|]. by apply prefix_cons_inv_1 in Hp as ->.
Qed.

Lemma matches_longer t l hs e e' : longer l e → rest e = Some e' → matches t (l :: hs) e ↔ matches t hs e'.
Proof.
  intros Hl Hr. destruct (longer_rest l e Hl) as (e1 & Hr1 & E1 & _ & E2 & _). rewrite Hr in Hr1. injection Hr1 as <-.
  unfold matches. rewrite E1, E2. split; intros [H1 H2]; (split; [|intros E; apply H2; congruence]).
  - by apply prefix_cons_inv_2 in H1.
  - by apply prefix_cons.
Qed.

Lemma matches_single t l hs e : first l e → single e = true →
  matches t (l :: hs) e ↔ (hs = [] → t = false ∧ trailing e = false).
Proof.
  destruct e as [[|l' [|m ls]] tr v]; unfold first; cbn; intros Hl Hs; [done| |done]. injection Hl as ->. unfold matches. cbn.
  split; [intros [_ H] ->; by apply H|]. intros H. split; [apply prefix_cons, prefix_nil|]. intros E. apply H. by injection E.
Qed.

Lemma longer_not_empty t l e : longer l e → ¬ matches t [l] e.
Proof.
  intros (m & ls & E) [H _]. rewrite E in H. apply prefix_cons_inv_2, prefix_nil_not in H. done.
Qed.

(** No name in the group. *)
Lemma found_none t es l hs (Q : Z → Prop) r : Forall entry_ok es → (∀ e, e ∈ group l es → ¬ matches t (l :: hs) e) → Q r →
  found t es (l :: hs) Q r.
Proof.
  intros Hok Hn HQ. right. split; [|done]. intros e He Hm. rewrite list.Forall_forall in Hok.
  by apply (Hn e); [apply (matches_group t es l hs)|]; auto.
Qed.

(** One name of the group that matches, and no longer one. *)
Lemma found_some t es l hs (Q : Z → Prop) e : Forall entry_ok es → e ∈ group l es → matches t (l :: hs) e →
  (∀ e', e' ∈ group l es → matches t (l :: hs) e' → (length (labels e') ≤ length (labels e))%nat) →
  found t es (l :: hs) Q (evalue e).
Proof.
  intros Hok He Hm Hmax. left. exists e. split; [by apply list_elem_of_filter in He as [_ He]|]. split; [done|]. split; [done|].
  intros e' He' Hm'. rewrite list.Forall_forall in Hok. apply Hmax; [|done]. apply (matches_group t es l hs); auto.
Qed.

(** From the table one level below: where it gives nothing, its own value. *)
Lemma found_lift t es l hs e g (Q : Z → Prop) r : Forall entry_ok es → group l es = e :: g → first l e → Forall (longer l) g →
  hs ≠ [] → Q 0 →
  found t (rests (e :: g)) hs (λ r, r = 0 ∨ r = if single e then evalue e else 0) r →
  found t es (l :: hs) Q (if negb (r =? 0) then r else if single e then evalue e else 0).
Proof.
  intros Hok Hgr Hf Hg Hhs HQ Hr.
  assert (∀ x, x ∈ e :: g → entry_ok x) as Hokg.
  { intros x Hx. rewrite <- Hgr in Hx. apply list_elem_of_filter in Hx as [_ Hx]. rewrite list.Forall_forall in Hok. auto. }
  assert (∀ x, x ∈ e :: g → (x = e ∧ single e = true) ∨ longer l x) as Hcase.
  { intros x [->|Hx]%elem_of_cons; [|right; rewrite list.Forall_forall in Hg; auto].
    destruct e as [[|l' [|m ls]] tr v]; unfold first in Hf; cbn in Hf; [done|by left|]. injection Hf as ->. right. by exists m, ls. }
  destruct Hr as [(e' & He' & Hm' & -> & Hmax)|[Hno Hr]].
  - apply list_elem_of_omap in He' as (x & Hx & Hrx).
    assert (longer l x) as Hlx by (destruct (Hcase x Hx) as [[-> Hs]|]; [|done]; destruct e as [[|? [|??]] ??]; done).
    destruct (longer_rest l x Hlx) as (e1 & Hr1 & El & Ev & _). rewrite Hrx in Hr1. injection Hr1 as <-.
    rewrite Ev. destruct (ok_value x (Hokg x Hx)) as [Hv _]. rewrite (proj2 (Z.eqb_neq _ 0)) by lia. cbn [negb].
    apply found_some; [done|by rewrite Hgr|by apply (matches_longer t l hs x e')|]. intros y Hy Hmy. rewrite Hgr in Hy.
    destruct (Hcase y Hy) as [[-> Hs]|Hly].
    + rewrite El. destruct e as [[|? [|??]] ??]; cbn; [done|lia|done].
    + destruct (longer_rest l y Hly) as (y' & Hry & Ely & _). rewrite El, Ely. cbn. apply le_n_S, Hmax.
      * apply list_elem_of_omap. by exists y.
      * by apply (matches_longer t l hs y y').
  - assert ((if negb (r =? 0) then r else if single e then evalue e else 0) = if single e then evalue e else 0) as ->.
    { destruct Hr as [-> | ->]; [done|]. by destruct (single e), (negb _). }
    assert (∀ x, x ∈ e :: g → longer l x → ¬ matches t (l :: hs) x) as Hnl.
    { intros x Hx Hlx Hm. destruct (longer_rest l x Hlx) as (x' & Hrx & _). apply (Hno x'); [apply list_elem_of_omap; by exists x|].
      by apply (matches_longer t l hs x x'). }
    destruct (single e) eqn:Es.
    + apply found_some; [done|rewrite Hgr; by left|by apply matches_single|]. intros y Hy Hmy. rewrite Hgr in Hy.
      destruct (Hcase y Hy) as [[-> _]|Hly]; [done|]. by destruct (Hnl y Hy Hly).
    + apply found_none; [done| |done]. rewrite Hgr. intros x Hx. destruct (Hcase x Hx) as [[-> Hs]|]; [congruence|]. by apply Hnl.
Qed.

(** *** Splitting off a label *)

Lemma join_snoc ls l : ls ≠ [] → join (ls ++ [l]) = join ls ++ dot :: l.
Proof.
  induction ls as [|m ls IH]; [done|]. intros _. destruct ls as [|n ls]; [done|].
  change ((m :: n :: ls) ++ [l]) with (m :: n :: (ls ++ [l])). rewrite !join_cons.
  change (n :: (ls ++ [l])) with ((n :: ls) ++ [l]). rewrite IH by done. by rewrite <- app_assoc.
Qed.

Lemma nth_dotless x l i : dotless l → (length x ≤ i)%nat → nth i (x ++ l) 0 ≠ dot.
Proof.
  intros Hl Hi. rewrite app_nth2 by lia. destruct (nth_in_or_default (i - length x) l 0) as [H|H]; [|by rewrite H].
  intros E. apply Hl. rewrite <- E. by apply list_elem_of_In.
Qed.

Lemma last_label_dot x l : dotless l → ∀ k, last_label (x ++ dot :: l) (S (length x) + k) = S (length x).
Proof.
  intros Hl. induction k as [|k IH].
  - rewrite Nat.add_0_r. cbn [last_label]. rewrite app_nth2, Nat.sub_diag by lia. cbn. done.
  - rewrite Nat.add_succ_r. cbn [last_label]. replace (x ++ dot :: l) with ((x ++ [dot]) ++ l) by (by rewrite <- app_assoc).
    rewrite (proj2 (Z.eqb_neq _ _)) by (apply nth_dotless; [done|rewrite length_app; cbn; lia]).
    rewrite <- app_assoc. apply IH.
Qed.

Lemma last_label_none l : dotless l → ∀ k, last_label l k = O.
Proof.
  intros Hl. induction k as [|k IH]; cbn; [done|]. by rewrite (proj2 (Z.eqb_neq _ _)) by (apply (nth_dotless [] l); [done|cbn; lia]).
Qed.

(** The last label of the name whose labels are [l :: hs] from the end. *)
Lemma last_label_join l hs : dotless l →
  let name := join (reverse (l :: hs)) in
  drop (last_label name (length name)) name = l ∧
  match hs with
  | [] => last_label name (length name) = O
  | _ :: _ => ∃ n, last_label name (length name) = S n ∧ take n name = join (reverse hs)
  end.
Proof.
  intros Hl name. unfold name. rewrite reverse_cons. destruct hs as [|h hs].
  - cbn [reverse app join]. rewrite last_label_none by done. done.
  - rewrite join_snoc by (intros E; apply (f_equal length) in E; rewrite length_reverse in E; done).
    set (x := join (reverse (h :: hs))). rewrite length_app. cbn [length].
    replace (length x + S (length l))%nat with (S (length x) + length l)%nat by lia. rewrite last_label_dot by done.
    split; [|exists (length x); split; [done|by rewrite take_app_length]].
    replace (x ++ dot :: l) with ((x ++ [dot]) ++ l) by (by rewrite <- app_assoc).
    rewrite drop_app_ge by (rewrite length_app; cbn; lia). rewrite length_app. cbn [length].
    by replace (S (length x) - (length x + 1))%nat with 0%nat by lia.
Qed.

Lemma first_label_dot l x : dotless l → first_label (l ++ dot :: x) = length l.
Proof.
  unfold dotless. induction l as [|c l IH]; cbn; [done|]. intros H. apply not_elem_of_cons in H as [Hc Hl].
  rewrite (proj2 (Z.eqb_neq c dot)) by done. by rewrite IH.
Qed.

Lemma first_label_none l : dotless l → first_label l = length l.
Proof.
  unfold dotless. induction l as [|c l IH]; cbn; [done|]. intros H. apply not_elem_of_cons in H as [Hc Hl].
  rewrite (proj2 (Z.eqb_neq c dot)) by done. by rewrite IH.
Qed.

(** *** Heads *)

Lemma slot_first N l es x : slot N l es x → ∀ e, e ∈ es → first l e.
Proof.
  intros H e He. destruct H as [|e0 Hf _|e0 g a Hf Hg]; [by apply elem_of_nil in He|by apply list_elem_of_singleton in He as ->|].
  apply elem_of_cons in He as [->|He]; [done|]. rewrite list.Forall_forall in Hg. destruct (Hg e He) as (m & ls & E).
  unfold first. by rewrite E.
Qed.

Lemma find_head_ok s : ∀ hs a es w fuel, node s a es w → Forall entry_ok es → hs ≠ [] → Forall dotless hs → (length hs ≤ fuel)%nat →
  ∃ r, find_wc_head fuel s a (join (reverse hs)) = Some r ∧ found false es hs (λ r, r = 0 ∨ r = w) r.
Proof.
  induction hs as [|l hs IH]; intros a es w fuel Hnode Hok Hne Hdot Hfuel; [done|]. clear Hne.
  destruct fuel as [|fuel]; [cbn in Hfuel; lia|]. apply list.Forall_cons in Hdot as [Hl Hdot].
  destruct (last_label_join l hs Hl) as [Elab Erest]. cbn [find_wc_head].
  set (name := join (reverse (l :: hs))) in *. rewrite Elab.
  inversion Hnode as [a' h w' es' Hw Hslot]; subst a' w' es'. rewrite Hw. cbn [mbind option_bind hash wc_value].
  destruct (Hslot l Hl) as (x & -> & Hs). cbn [mbind option_bind].
  assert (∀ e, e ∈ group l es → entry_ok e) as Hokg.
  { intros e He. apply list_elem_of_filter in He as [_ He]. rewrite list.Forall_forall in Hok. auto. }
  remember (group l es) as gr eqn:Egr. destruct Hs as [|e Hf Hs|e g b Hf Hg Hrs Hb0 Hb4 Hnb].
  - (* no name *)
    cbn. exists w. split; [done|]. apply found_none; [done| |by right]. rewrite <- Egr. intros e He. by apply elem_of_nil in He.
  - (* one name of this label *)
    destruct (ok_value e (Hokg e ltac:(by left))) as [Hv Hv4].
    assert (∀ Q, (hs = [] → trailing e = false) → found false es (l :: hs) Q (evalue e)) as Hyes.
    { intros Q Ht. apply found_some; [done|rewrite <- Egr; by left|apply matches_single; [done|done|split; auto]|].
      rewrite <- Egr. by intros e' ->%list_elem_of_singleton _. }
    set (x := if trailing e then Z.lor (evalue e) 1 else evalue e).
    assert (x = Z.lor (evalue e) (if trailing e then 1 else 0)) as Ex by (unfold x; destruct (trailing e); by rewrite ?Z.lor_0_r).
    assert (x ≠ NULL) as Hx by (rewrite Ex; apply lor_ne_0; [lia|by destruct (trailing e)]).
    rewrite (proj2 (Z.eqb_neq x NULL)) by done. rewrite Ex.
    rewrite !tag_test by (done || (destruct (trailing e); lia) || auto).
    destruct (tag_small (evalue e) (if trailing e then 1 else 0) Hv4 ltac:(by destruct (trailing e))) as [Eu _].
    destruct (trailing e) eqn:Et; cbn [Z.land Pos.land Z.eqb negb].
    + destruct hs as [|h0 hs].
      * rewrite Erest. exists NULL. split; [done|]. apply found_none; [done| |by left]. rewrite <- Egr.
        intros e' ->%list_elem_of_singleton Hm. rewrite matches_single in Hm by done. destruct (Hm eq_refl). congruence.
      * destruct Erest as (n & -> & _). rewrite Eu. eexists. split; [done|]. by apply Hyes.
    + rewrite Z.lor_0_r. eexists. split; [done|]. by apply Hyes.
  - (* a table one level below *)
    set (t := if has_after e then 3 else 2). assert (t = 2 ∨ t = 3) as Ht by (unfold t; destruct (has_after e); auto).
    rewrite (proj2 (Z.eqb_neq _ NULL)) by (apply lor_ne_0; lia).
    rewrite !tag_test by (done || lia || auto). destruct (tag_small b t Hb4 ltac:(lia)) as [Eu _]. rewrite Eu.
    assert (Z.land t 2 = 2) as -> by (by destruct Ht as [-> | ->]). cbn [Z.eqb negb].
    inversion Hnb as [b' hb wb es' Hwb _]; subst b' wb es'. destruct hs as [|h0 hs].
    + rewrite Erest. unfold t, has_after. destruct (single e) eqn:Es; cbn [negb orb].
      * destruct (trailing e) eqn:Et; cbn [Z.land Pos.land Z.eqb negb].
        -- eexists. split; [done|]. apply found_none; [done| |by left]. rewrite <- Egr. intros e' [->|He']%elem_of_cons.
           ++ intros Hm. rewrite matches_single in Hm by done. destruct (Hm eq_refl). congruence.
           ++ rewrite list.Forall_forall in Hg. by apply longer_not_empty, Hg.
        -- rewrite Hwb. cbn. eexists. split; [done|]. apply found_some; [done|rewrite <- Egr; by left|by apply matches_single|].
           rewrite <- Egr. intros e' [->|He']%elem_of_cons Hm; [done|]. rewrite list.Forall_forall in Hg.
           by apply longer_not_empty in Hm; [|apply Hg].
      * cbn. eexists. split; [done|]. apply found_none; [done| |by left]. rewrite <- Egr. intros e' He'. apply longer_not_empty.
        apply elem_of_cons in He' as [->|He']; [|rewrite list.Forall_forall in Hg; by apply Hg].
        destruct e as [[|l' [|m ls]] tr v]; unfold first in Hf; cbn in *; [done|done|]. injection Hf as ->. by exists m, ls.
    + destruct Erest as (n & -> & ->). assert (Forall entry_ok (e :: g)) as Hokg' by (apply list.Forall_forall; exact Hokg).
      destruct (IH b _ _ fuel Hnb (rests_ok _ Hokg') ltac:(done) Hdot ltac:(cbn in Hfuel |- *; lia)) as (r & -> & Hr).
      cbn [mbind option_bind]. rewrite Hwb. cbn [mbind option_bind wc_value].
      exists (if negb (r =? 0) then r else if single e then evalue e else 0). split; [by destruct (negb _)|].
      eapply found_lift; [done|by rewrite <- Egr|done|done|done|by left|done].
Qed.

(** *** Tails *)

Lemma rests_not_trailing es : Forall (λ e, trailing e = false) es → Forall (λ e, trailing e = false) (rests es).
Proof.
  rewrite !list.Forall_forall. intros H e He. apply list_elem_of_omap in He as (e0 & He0 & Hr). specialize (H e0 He0).
  destruct e0 as [[|l [|m ls]] tr v]; cbn in *; try done. by injection Hr as <-.
Qed.

Lemma find_tail_ok s : ∀ hs a es w fuel, node s a es w → Forall entry_ok es → Forall (λ e, trailing e = false) es →
  hs ≠ [] → Forall dotless hs → (length hs ≤ fuel)%nat →
  ∃ r, find_wc_tail fuel s a (join hs) = Some r ∧ found true es hs (λ r, r = 0 ∨ r = w) r.
Proof.
  induction hs as [|l hs IH]; intros a es w fuel Hnode Hok Htr Hne Hdot Hfuel; [done|]. clear Hne.
  destruct fuel as [|fuel]; [cbn in Hfuel; lia|]. apply list.Forall_cons in Hdot as [Hl Hdot]. cbn [find_wc_tail].
  inversion Hnode as [a' h w' es' Hw Hslot]; subst a' w' es'. rewrite Hw. cbn [mbind option_bind hash wc_value].
  assert (∀ e, e ∈ group l es → entry_ok e ∧ trailing e = false) as Hokg.
  { intros e He. apply list_elem_of_filter in He as [_ He]. rewrite list.Forall_forall in Hok, Htr. auto. }
  destruct (Hslot l Hl) as (x & Efind & Hs). pose proof (slot_first _ _ _ _ Hs) as Hfirst.
  destruct hs as [|h0 hs].
  { (* the name has no other label *)
    cbn [join]. rewrite first_label_none by done. rewrite Nat.eqb_refl. exists NULL. split; [done|].
    apply found_none; [done| |by left]. intros e He [Hp Hm]. pose proof (Hfirst e He) as Hf. unfold first in Hf.
    destruct (labels e) as [|l' ls]; [done|]. injection Hf as ->. apply prefix_cons_inv_2, prefix_nil_inv in Hp as ->.
    by destruct (Hm eq_refl). }
  rewrite join_cons. set (name := join (h0 :: hs)) in *. rewrite first_label_dot by done.
  rewrite (proj2 (Nat.eqb_neq _ _)) by (rewrite length_app; cbn; lia). rewrite take_app_length.
  assert (drop (S (length l)) (l ++ dot :: name) = name) as ->.
  { rewrite drop_app_ge by lia. by replace (S (length l) - length l)%nat with 1%nat by lia. }
  rewrite Efind. cbn [mbind option_bind].
  remember (group l es) as gr eqn:Egr. destruct Hs as [|e Hf Hs|e g b Hf Hg Hrs Hb0 Hb4 Hnb].
  - cbn. exists w. split; [done|]. apply found_none; [done| |by right]. rewrite <- Egr. intros e He. by apply elem_of_nil in He.
  - destruct (Hokg e ltac:(by left)) as [Hoke ->]. destruct (ok_value e Hoke) as [Hv Hv4].
    rewrite (proj2 (Z.eqb_neq _ NULL)) by lia. rewrite <- (Z.lor_0_r (evalue e)).
    rewrite !tag_test by (done || lia || auto). cbn [Z.land Z.eqb negb]. rewrite Z.lor_0_r.
    eexists. split; [done|]. apply found_some; [done|rewrite <- Egr; by left|by apply matches_single|].
    rewrite <- Egr. by intros e' ->%list_elem_of_singleton _.
  - set (t := if has_after e then 3 else 2). assert (t = 2 ∨ t = 3) as Ht by (unfold t; destruct (has_after e); auto).
    rewrite (proj2 (Z.eqb_neq _ NULL)) by (apply lor_ne_0; lia).
    rewrite !tag_test by (done || lia || auto). destruct (tag_small b t Hb4 ltac:(lia)) as [Eu _]. rewrite Eu.
    assert (Z.land t 2 = 2) as -> by (by destruct Ht as [-> | ->]). cbn [Z.eqb negb].
    inversion Hnb as [b' hb wb es' Hwb _]; subst b' wb es'.
    assert (Forall entry_ok (e :: g)) as Hokg' by (apply list.Forall_forall; intros y Hy; by apply Hokg).
    assert (Forall (λ e, trailing e = false) (e :: g)) as Htr' by (apply list.Forall_forall; intros y Hy; by apply Hokg).
    destruct (IH b _ _ fuel Hnb (rests_ok _ Hokg') (rests_not_trailing _ Htr') ltac:(done) Hdot ltac:(cbn in Hfuel |- *; lia)) as (r & Er & Hr).
    fold name in Er. rewrite Er. cbn [mbind option_bind]. rewrite Hwb. cbn [mbind option_bind wc_value].
    exists (if negb (r =? 0) then r else if single e then evalue e else 0). split; [by destruct (negb _)|].
    eapply found_lift; [done|by rewrite <- Egr|done|done|done|by left|done].
Qed.

(** ** Sorted names *)

(** In the order a dot comes before whatever else a name consists of. *)
Definition rank (c : Z) : Z := if c =? dot then 32 else c.
Definition text_char (c : Z) : Prop := c = dot ∨ label_char c.

Fixpoint lex (s1 s2 : list Z) : Prop :=
  match s1, s2 with
  | [], _ => True
  | _ :: _, [] => False
  | c :: s1, d :: s2 => rank c < rank d ∨ (c = d ∧ lex s1 s2)
  end.

Lemma rank_ge c : text_char c → 32 ≤ rank c < 256 ∧ (rank c = 32 → c = dot).
Proof. unfold text_char, label_char, rank. intros [-> | (H & Hc & _)]; [done|]. rewrite (proj2 (Z.eqb_neq c dot)) by done. lia. Qed.

Lemma rank_inj c d : text_char c → text_char d → rank c = rank d → c = d.
Proof.
  intros Hc Hd E. pose proof (rank_ge c Hc) as [H1 H2]. pose proof (rank_ge d Hd) as [H3 H4]. revert E H2 H4. unfold rank.
  destruct (Z.eqb_spec c dot), (Z.eqb_spec d dot); intros; lia.
Qed.

Lemma s64_small x : - 256 < x < 256 → s64 (u64 x) = x.
Proof. intros H. unfold s64, u64. zlia. Qed.

Lemma dns_strcmp_lex s1 s2 : Forall text_char s1 → Forall text_char s2 →
  ∃ r, ngx_dns_strcmp (s1 ++ [0]) (s2 ++ [0]) = Some r ∧ (r ≤ 0 ↔ lex s1 s2).
Proof.
  assert (∀ c, text_char c → ngx_tolower c = c) as Hlow by (by intros c [-> | (_ & _ & H)]).
  intros H1. revert s2. induction H1 as [|c s1 Hc _ IH]; intros s2 H2; destruct H2 as [|d s2 Hd H2]; cbn [app ngx_dns_strcmp lex].
  - cbn. eexists. split; [done|]. done.
  - rewrite (Hlow d Hd). pose proof (rank_ge d Hd) as [Hr _]. assert (0 ≠ d) as Hne by (intros <-; cbn in Hr; lia).
    change (ngx_tolower 0) with 0. rewrite (proj2 (Z.eqb_neq 0 d)) by done. fold (rank d). change (if 0 =? dot then " "%ch else 0) with 0.
    change " "%ch with 32. fold (rank d). eexists. split; [done|]. rewrite s64_small by lia. split; [done|lia].
  - rewrite (Hlow c Hc). pose proof (rank_ge c Hc) as [Hr _]. assert (c ≠ 0) as Hne by (intros ->; cbn in Hr; lia).
    change (ngx_tolower 0) with 0. rewrite (proj2 (Z.eqb_neq c 0)) by done. change (if 0 =? dot then " "%ch else 0) with 0.
    change " "%ch with 32. fold (rank c). eexists. split; [done|]. rewrite s64_small by lia. split; [lia|done].
  - rewrite (Hlow c Hc), (Hlow d Hd). pose proof (rank_ge c Hc) as [Hr1 _]. pose proof (rank_ge d Hd) as [Hr2 _].
    destruct (Z.eqb_spec c d) as [<-|Hne].
    + assert (c ≠ 0) as Hc0 by (intros ->; cbn in Hr1; lia). rewrite (proj2 (Z.eqb_neq c 0)) by done.
      destruct (IH s2 H2) as (r & -> & Hr). exists r. split; [done|]. rewrite Hr. split; [by right|]. intros [|[_ ?]]; [lia|done].
    + change " "%ch with 32. fold (rank c) (rank d). eexists. split; [done|]. rewrite s64_small by lia.
      pose proof (rank_inj c d Hc Hd). split; [|intros [|[? _]]; [lia|done]]. intros Hle. left. destruct (Z.eq_dec (rank c) (rank d)); [tauto|lia].
Qed.

(** What lies between two texts with a common start has it, too. *)
Lemma lex_between l a b y : lex (l ++ a) y → lex y (l ++ b) → ∃ z, y = l ++ z ∧ lex a z ∧ lex z b.
Proof.
  revert y. induction l as [|c l IH]; intros y H1 H2; [by exists y|]. destruct y as [|d y]; [done|]. cbn in H1, H2.
  destruct H1 as [H1|[-> H1]].
  - destruct H2 as [H2|[-> _]]; lia.
  - destruct H2 as [H2|[_ H2]]; [lia|]. destruct (IH y H1 H2) as (z & -> & Hz). by exists z.
Qed.

Lemma lex_app l a b : lex (l ++ a) (l ++ b) ↔ lex a b.
Proof. induction l as [|c l IH]; cbn; [done|]. rewrite IH. split; [intros [?|[_ ?]]; [lia|done]|by right]. Qed.

Lemma etext_chars e : entry_ok e → Forall text_char (etext e).
Proof.
  intros He. pose proof (ok_labels e He) as Hl. clear He. destruct e as [ls tr v]. unfold etext. cbn [labels trailing] in *. apply Forall_app_2.
  - induction Hl as [|l ls [_ Hl] Hls IH]; [apply Forall_nil_2|].
    assert (Forall text_char l) as Hl' by (eapply List.Forall_impl; [|exact Hl]; by right).
    destruct ls as [|m ls]; [done|]. rewrite join_cons. apply Forall_app_2; [done|]. apply Forall_cons_2; [by left|done].
  - destruct tr; [apply Forall_cons_2; [by left|apply Forall_nil_2]|apply Forall_nil_2].
Qed.

Lemma first_of l e x : dotless l → entry_ok e → etext e = l ++ x → (∀ c, x = c :: tail x → c = dot) → first l e.
Proof.
  intros Hl He Ex Hx. destruct (labels e) as [|l' ls] eqn:El; [by destruct (ok_some e He)|].
  assert (first l' e) as Hf by (unfold first; by rewrite El). destruct (etext_first l' e Hf) as (y & Ey & Hy).
  destruct (first_label_ok l' e Hf He) as [Hl' _]. pose proof (label_dotless l' Hl') as Hd'.
  assert (∀ c, y = c :: tail y → c = dot) as Hyd.
  { intros c Hc. destruct (has_after e); [destruct Hy as [z ->]; by injection Hc|by subst]. }
  rewrite Ey in Ex. assert (l `prefix_of` l' ++ y) as H1 by (rewrite Ex; by apply prefix_app_r).
  assert (l' `prefix_of` l ++ x) as H2 by (rewrite <- Ex; by apply prefix_app_r).
  destruct (prefix_labels l l' y Hl Hd' Hyd H1) as [->|(c & z & ->)]; [done|].
  destruct (prefix_labels _ l x Hd' Hl Hx H2) as [<-|(c' & z' & Eq)]; [done|].
  apply (f_equal length) in Eq. rewrite !length_app in Eq. cbn in Eq. lia.
Qed.

(** Names with the same first label are together, those of one label first. *)
Section Group.
Context (l : list Z) (e0 : entry) (Hf : first l e0) (H0 : entry_ok e0).

Lemma after_first e : first l e → ∃ x, etext e = l ++ x ∧ (x = [] ∨ ∃ y, x = dot :: y).
Proof.
  intros H. destruct (etext_first l e H) as (x & Ex & Hx). exists x. split; [done|]. destruct (has_after e); [by right|by left].
Qed.

Lemma first_between y z : entry_ok y → first l z → lex (etext e0) (etext y) → lex (etext y) (etext z) → first l y.
Proof.
  intros Hy Hz H1 H2. destruct (first_label_ok l e0 Hf H0) as [Hl _].
  destruct (after_first e0 Hf) as (a & Ea & _), (after_first z Hz) as (b & Eb & Hb). rewrite Ea in H1. rewrite Eb in H2.
  destruct (lex_between l a b _ H1 H2) as (x & Ex & _ & Hx). apply (first_of l y x (label_dotless l Hl) Hy Ex).
  intros c Ec. pose proof (etext_chars y Hy) as Hc. rewrite Ex, Ec in Hc. apply Forall_app in Hc as [_ Hc].
  apply list.Forall_cons in Hc as [Hc _]. rewrite Ec in Hx. destruct Hb as [-> | [b' ->]]; [done|].
  destruct (rank_ge c Hc) as [H3 H4]. destruct Hx as [Hx|[-> _]]; [|done]. change (rank dot) with 32 in Hx. lia.
Qed.

Lemma first_longer e : entry_ok e → first l e → labels e ≠ labels e0 → lex (etext e0) (etext e) → longer l e.
Proof.
  intros He Hfe Hne Hlex. destruct e as [[|l' [|m ls]] tr v]; unfold first in Hfe; cbn in Hfe; [done| |].
  2:{ injection Hfe as ->. by exists m, ls. }
  injection Hfe as ->. exfalso. destruct e0 as [[|l0 [|m ls]] tr0 v0]; unfold first in Hf; cbn in Hf; [done| |]; injection Hf as ->; [done|].
  pose proof (rest_ok (mk_entry (l :: m :: ls) tr0 v0) _ eq_refl H0) as Hr. rewrite etext_longer, etext_single in Hlex.
  apply lex_app in Hlex. assert (∃ c x, etext (mk_entry (m :: ls) tr0 v0) = c :: x) as (c & x & Ex).
  { pose proof (ok_labels _ Hr) as Hm. cbn [labels] in Hm. apply list.Forall_cons in Hm as [[Hm _] _]. destruct m as [|c m]; [done|].
    unfold etext. cbn [labels]. destruct ls; by eexists _, _. }
  rewrite Ex in Hlex. destruct tr; cbn in Hlex; [|done]. destruct Hlex as [Hlex|[_ Hlex]]; [lia|done].
Qed.
End Group.

Definition weight (es : list entry) : nat := sum_list ((λ e, length (labels e)) <$> es).

Lemma weight_app es es' : weight (es ++ es') = (weight es + weight es')%nat.
Proof. unfold weight. induction es as [|e es IH]; cbn in *; [done|lia]. Qed.

Lemma weight_rests es : (weight (rests es) ≤ weight es)%nat.
Proof.
  unfold weight, rests. induction es as [|e es IH]; [done|]. destruct e as [[|l [|m ls]] tr v]; cbn in *; lia.
Qed.

Lemma weight_rests_lt e es : entry_ok e → (weight (rests (e :: es)) < weight (e :: es))%nat.
Proof.
  intros He. pose proof (ok_some e He). pose proof (weight_rests es). unfold weight, rests in *.
  destruct e as [[|l [|m ls]] tr v]; cbn in *; [done|lia|lia].
Qed.

Abbreviation sorted := (StronglySorted (λ e e', lex (etext e) (etext e'))).

Lemma sorted_rests l es : Forall (first l) es → sorted es → sorted (rests es).
Proof.
  intros Hf Hs. induction Hs as [|e es Hs IH Hall]; [constructor|]. apply list.Forall_cons in Hf as [Hfe Hf]. specialize (IH Hf).
  unfold rests in *. cbn [omap list_omap]. destruct (rest e) as [e'|] eqn:Er; [|done]. constructor; [done|].
  rewrite list.Forall_forall in *. intros x Hx. apply list_elem_of_omap in Hx as (y & Hy & Hry). specialize (Hall y Hy). specialize (Hf y Hy).
  destruct e as [[|l1 [|m1 ls1]] tr1 v1]; [done|done|]. destruct y as [[|l2 [|m2 ls2]] tr2 v2]; [done|done|].
  unfold first in Hfe, Hf. cbn in Hfe, Hf, Er, Hry. injection Hfe as ->. injection Hf as ->. injection Er as <-. injection Hry as <-.
  rewrite !etext_longer, lex_app in Hall. by destruct Hall as [Hall|[_ Hall]]; [lia|].
Qed.

Lemma nodup_rests l es : Forall (first l) es → NoDup (labels <$> es) → NoDup (labels <$> rests es).
Proof.
  induction es as [|e es IH]; intros Hf Hn; [constructor|]. apply list.Forall_cons in Hf as [Hfe Hf].
  rewrite fmap_cons in Hn. apply list.NoDup_cons in Hn as [Hn1 Hn]. specialize (IH Hf Hn).
  unfold rests in *. cbn [omap list_omap]. destruct (rest e) as [e'|] eqn:Er; [|done]. rewrite fmap_cons. apply list.NoDup_cons.
  split; [|done]. intros (y' & Hy' & Hy)%list_elem_of_fmap. apply list_elem_of_omap in Hy as (y & Hy & Hry).
  apply Hn1, list_elem_of_fmap. exists y. split; [|done]. rewrite list.Forall_forall in Hf. specialize (Hf y Hy).
  destruct e as [[|l1 [|m1 ls1]] tr1 v1]; [done|done|]. destruct y as [[|l2 [|m2 ls2]] tr2 v2]; [done|done|].
  unfold first in *. cbn in *. injection Er as <-. injection Hry as <-. cbn in Hy'. congruence.
Qed.

Lemma sorted_ordered n : ∀ es, (weight es ≤ n)%nat → Forall entry_ok es → sorted es → NoDup (labels <$> es) → ordered es.
Proof.
  induction n as [|n IH]; intros es Hw Hok Hs Hn; (destruct es as [|e0 es]; [constructor|]); pose proof Hok as Hok';
    apply list.Forall_cons in Hok' as [H0 Hok'].
  { pose proof (weight_rests_lt e0 es H0). lia. }
  apply StronglySorted_inv in Hs as [Hs Hall]. rewrite fmap_cons in Hn. apply list.NoDup_cons in Hn as [Hn0 Hn].
  assert (∃ l, first l e0) as [l Hf] by (unfold first; pose proof (ok_some e0 H0); destruct (labels e0); [done|by eexists]).
  assert (∃ g r, es = g ++ r ∧ Forall (first l) g ∧ Forall (λ e, ¬ first l e) r) as (g & r & -> & Hg & Hr).
  { clear Hn0 Hn Hw Hok. revert Hok' Hs Hall. clear IH. induction es as [|e es IH]; intros Hok Hs Hall; [by exists [], []|].
    apply list.Forall_cons in Hok as [He Hok]. apply list.Forall_cons in Hall as [Hle Hall].
    apply StronglySorted_inv in Hs as [Hs Hall'].
    destruct (decide (first l e)) as [Hfe|Hfe].
    - destruct (IH Hok Hs Hall) as (g & r & -> & Hg & Hr). exists (e :: g), r. split; [done|]. split; [by apply Forall_cons_2|done].
    - exists [], (e :: es). split; [done|]. split; [apply Forall_nil_2|]. apply Forall_cons_2; [done|].
      rewrite list.Forall_forall in *. intros z Hz Hfz. by apply Hfe, (first_between l e0 Hf H0 e z); auto. }
  apply Forall_app in Hok' as [Hokg Hokr]. apply Forall_app in Hall as [Hallg Hallr]. rewrite fmap_app in Hn0, Hn.
  rewrite not_elem_of_app in Hn0. destruct Hn0 as [Hn0 _]. apply list.NoDup_app in Hn as (Hng & _ & Hnr).
  assert (Forall (longer l) g) as Hlong.
  { rewrite list.Forall_forall in *. intros e He. apply (first_longer l e0 Hf H0 e); auto.
    intros E. apply Hn0. rewrite <- E. apply list_elem_of_fmap. by exists e. }
  assert (sorted g ∧ sorted r) as [Hsg Hsr].
  { clear -Hs. induction g as [|e g IH]; [by split; [constructor|]|]. apply StronglySorted_inv in Hs as [Hs Hall].
    apply IH in Hs as [H1 H2]. apply Forall_app in Hall as [Hall _]. split; [by constructor|done]. }
  apply (ordered_group e0 g r l Hf Hlong Hr).
  - apply IH.
    + pose proof (weight_rests_lt e0 g H0). change (e0 :: g ++ r) with ((e0 :: g) ++ r) in Hw. rewrite weight_app in Hw. lia.
    + apply rests_ok. by apply Forall_cons_2.
    + apply (sorted_rests l); [by apply Forall_cons_2|]. by constructor.
    + apply (nodup_rests l); [by apply Forall_cons_2|]. rewrite fmap_cons. apply list.NoDup_cons. by split.
  - apply IH; [|done|done|done]. pose proof (weight_rests_lt e0 g H0). change (e0 :: g ++ r) with ((e0 :: g) ++ r) in Hw. rewrite weight_app in Hw. lia.
Qed.

End WildcardProof.
