(* ===== verification/ServerNames.v ===== *)
(** * Server names

    The names of the servers of an address, src/http/ngx_http.c
    ([ngx_http_server_names]) and ngx_http_core_module.c
    ([ngx_http_core_server_name]), and the server of a request, [ngx_http_request.c]
    ([ngx_http_validate_host], [ngx_http_find_virtual_server]).  Regular
    expressions, which PCRE compiles and executes, and C's [qsort] are
    parameters. *)

From stdpp Require Import gmap.
From S2P Require Import Prelude Pool Hash StringOps Wildcard.
Import Pool.Pool Hash.Hash StringOps.StringOps Wildcard.Wildcard.
Open Scope Z_scope.

Module ServerNames.

(** [ngx_http_server_name_t]; [server] is the address of the configuration of the
    server. *)
Record ngx_http_server_name_t := mk_sn { regex : option Z; server : Z; name : list Z }.

(** [ngx_http_virtual_names_t], with the regular expressions in a list. *)
Record ngx_http_virtual_names_t := mk_vn { names : ngx_hash_combined_t; regexes : list ngx_http_server_name_t }.

(** ** The directive server_name *)

Section Directive.
(** The address of what [ngx_http_regex_compile] gives for a pattern, which may have
    to be compared without regard to case, and the number of its captures. *)
Context (regex_compile : list Z → bool → option (Z * Z)) (hostname : list Z).

(** One argument, with the captures of a regular expression.  A null character
    follows an argument. *)
Definition server_name_argument (cscf : Z) (value : list Z) : option (ngx_http_server_name_t * option Z) :=
  let ch := nth 0 value 0 in
  if ((ch =? "*"%ch) && ((length value <? 3)%nat || negb (nth 1 value 0 =? "."%ch)))
     || ((ch =? "."%ch) && (length value <? 2)%nat) then None
  else
    let sn := if bool_decide (ngx_strcasecmp (value ++ [0]) (bs "$hostname" ++ [0]) = Some 0) then hostname else value in
    if negb (ch =? "~"%ch) then Some (mk_sn None cscf (ngx_tolower <$> sn), None)
    else if (length value =? 1)%nat then None
    else
      let value := tail value in
      '(rc, n) ← regex_compile value (existsb (λ c, ("A"%ch <=? c) && (c <=? "Z"%ch)) value);
      Some (mk_sn (Some rc) cscf value, Some n).

(** [server_names] and [captures] of the server at [cscf]; [None] is the error
    [NGX_CONF_ERROR]. *)
Fixpoint ngx_http_core_server_name (cscf : Z) (values : list (list Z)) (server_names : list ngx_http_server_name_t)
    (captures : bool) : option (list ngx_http_server_name_t * bool) :=
  match values with
  | [] => Some (server_names, captures)
  | value :: values =>
      '(sn, n) ← server_name_argument cscf value;
      ngx_http_core_server_name cscf values (server_names ++ [sn]) (match n with Some n => 0 <? n | None => captures end)
  end.
End Directive.

(** ** The names of an address *)

Definition ngx_http_cmp_dns_wildcards (first second : wkey) : option Z := ngx_dns_strcmp (data first) (data second).

(** The loops over the servers and their names: [Some None] is an invalid name. *)
Fixpoint add_names (ha : ngx_hash_keys_arrays_t) (names : list ngx_http_server_name_t) : option (option ngx_hash_keys_arrays_t) :=
  match names with
  | [] => Some (Some ha)
  | sn :: names =>
      match regex sn with
      | Some _ => add_names ha names
      | None =>
          '(rc, ha) ← ngx_hash_add_key ha (name sn) (server sn) true false;
          match rc with
          | Declined => Some None
          | Added | Busy => add_names ha names
          end
      end
  end.

Definition has_regex (sn : ngx_http_server_name_t) : bool := match regex sn with Some _ => true | None => false end.

Section Names.
Context `{Pool P} (ngx_cacheline_size : Z) (hinit : ngx_hash_init_t).
Context (qsort : (wkey → wkey → option Z) → list wkey → list wkey).

(** The table of the exact names, if there are any. *)
Definition exact_table (keys : list ngx_hash_key_t) (s : store) (p : P) : option (option (option ngx_hash_t * store * P)) :=
  match keys with
  | [] => Some (Some (None, s, p))
  | keys =>
      b ← ngx_hash_init ngx_cacheline_size hinit false keys (elements s) p;
      Some (option_map (λ b, (Some (table b), mk_store (mem b) (wildcards s), pool b)) b)
  end.

(** A table of wildcards; NULL where there are none. *)
Definition wildcard_table (names : list wkey) (s : store) (p : P) : option (option (Z * store * P)) :=
  match names with
  | [] => Some (Some (NULL, s, p))
  | names => ngx_hash_wildcard_init ngx_cacheline_size hinit ngx_hash_key_lc (qsort ngx_http_cmp_dns_wildcards names) s p
  end.

(** [servers] are the names of the servers of the address; [Some None] is
    [NGX_ERROR]. *)
Definition ngx_http_server_names (servers : list (list ngx_http_server_name_t)) (s : store) (p : P) :
    option (option (ngx_http_virtual_names_t * store * P)) :=
  ha ← add_names (ngx_hash_keys_array_init false) (concat servers);
  match ha with
  | None => Some None
  | Some ha =>
      exact ← exact_table (keys ha) s p;
      match exact with
      | None => Some None
      | Some (exact, s, p) =>
          head ← wildcard_table (dns_wc_head ha) s p;
          match head with
          | None => Some None
          | Some (head, s, p) =>
              tail ← wildcard_table (dns_wc_tail ha) s p;
              match tail with
              | None => Some None
              | Some (tail, s, p) =>
                  Some (Some (mk_vn (mk_combined exact head tail) (List.filter has_regex (concat servers)), s, p))
              end
          end
      end
  end.
End Names.

(** [virtual_names] of [ngx_http_add_addrs]: [None] is NULL. *)
Definition virtual_names (vn : ngx_http_virtual_names_t) : option ngx_http_virtual_names_t :=
  match exact (names vn), regexes vn with
  | None, [] => if (wc_head (names vn) =? NULL) && (wc_tail (names vn) =? NULL) then None else Some vn
  | _, _ => Some vn
  end.

(** ** The server of a request *)

Inductive host_state := sw_usual | sw_literal | sw_rest.

(** The loop of [ngx_http_validate_host], at the position [i]; [None] where the
    host is not valid, else [dot_pos], [host_len] and [alloc]. *)
Fixpoint validate_loop (h : list Z) (i : Z) (state : host_state) (dot_pos host_len : Z) (alloc : bool) : option (Z * Z * bool) :=
  match h with
  | [] => Some (dot_pos, host_len, alloc)
  | ch :: h =>
      if ch =? "."%ch then
        if dot_pos =? u64 (i - 1) then None else validate_loop h (i + 1) state i host_len alloc
      else if ch =? ":"%ch then
        match state with
        | sw_usual => validate_loop h (i + 1) sw_rest dot_pos i alloc
        | _ => validate_loop h (i + 1) state dot_pos host_len alloc
        end
      else if ch =? "["%ch then
        validate_loop h (i + 1) (if i =? 0 then sw_literal else state) dot_pos host_len alloc
      else if ch =? "]"%ch then
        match state with
        | sw_literal => validate_loop h (i + 1) sw_rest dot_pos (i + 1) alloc
        | _ => validate_loop h (i + 1) state dot_pos host_len alloc
        end
      else if ch =? 0 then None
      else if ch =? "/"%ch then None
      else validate_loop h (i + 1) state dot_pos host_len (alloc || ("A"%ch <=? ch) && (ch <=? "Z"%ch))
  end.

(** [None] is the result 0 of a host that is not valid; else the text of the host,
    a copy in lower case where that is needed.  The allocation succeeds. *)
Definition ngx_http_validate_host (host : list Z) (alloc : bool) : option (list Z) :=
  let len := Z.of_nat (length host) in
  '(dot_pos, host_len, alloc) ← validate_loop host 0 sw_usual len len alloc;
  let host_len := if dot_pos =? u64 (host_len - 1) then host_len - 1 else host_len in
  let text := take (Z.to_nat host_len) host in
  Some (if alloc : bool then ngx_tolower <$> text else text).

(** What becomes of the request: no names are known, an error, or the server; [None]
    leaves it with the default server. *)
Inductive find_result := Find_declined | Find_error | Find_ok (cscf : option Z).

Section Find.
(** [ngx_http_regex_exec] *)
Context (regex_exec : Z → list Z → Z).

Abbreviation NGX_OK := 0.
Abbreviation NGX_DECLINED := (-5).

Fixpoint find_regex (sn : list ngx_http_server_name_t) (host : list Z) : find_result :=
  match sn with
  | [] => Find_ok None
  | sn :: rest =>
      let n := regex_exec (default 0 (regex sn)) host in
      if n =? NGX_OK then Find_ok (Some (server sn))
      else if n =? NGX_DECLINED then find_regex rest host
      else Find_error
  end.

Definition ngx_http_find_virtual_server (s : store) (vn : option ngx_http_virtual_names_t) (host : list Z) : option find_result :=
  match vn with
  | None => Some Find_declined
  | Some vn =>
      cscf ← ngx_hash_find_combined s (names vn) (ngx_hash_key host) host;
      if negb (cscf =? NULL) then Some (Find_ok (Some cscf))
      else if (length host =? 0)%nat then Some (Find_ok None)
      else Some (find_regex (regexes vn) host)
  end.
End Find.
End ServerNames.
