(* ===== verification/ServerArrays.v ===== *)
(** * The names of servers in the arrays

    What [ngx_hash_add_key] makes of the names of servers that do not conflict: the
    exact ones, and the wildcards with their labels in the order of the tables. *)

From Stdlib Require Import Sorted.
From stdpp Require Import gmap.
From S2P Require Import Prelude Pool Hash HashProof StringOps Wildcard WildcardProof ServerNames.
Import Pool.Pool Hash.Hash HashProof.HashProof StringOps.StringOps Wildcard.Wildcard WildcardProof.WildcardProof.
Import ServerNames.ServerNames.
Open Scope Z_scope.

Module ServerArrays.

(** ** Names *)

(** The names of servers: an exact one, [.example.com], [*.example.com] and
    [www.example.*]. *)
Inductive sname :=
| Exact (text : list Z)
| Dotted (ls : list (list Z))
| Star (ls : list (list Z))
| Tail (ls : list (list Z)).

Definition text_of (n : sname) : list Z :=
  match n with
  | Exact t => t
  | Dotted ls => dot :: join ls
  | Star ls => star :: dot :: join ls
  | Tail ls => join ls ++ [dot; star]
  end.

(** A name in lower case without empty labels and other asterisks. *)
Definition label_ok (l : list Z) : Prop := label l ∧ star ∉ l.

Definition name_ok (n : sname) : Prop :=
  Z.of_nat (length (text_of n)) < 65536 ∧
  match n with
  | Exact t => Forall (λ c, c ≠ 0 ∧ c ≠ star ∧ ngx_tolower c = c) t ∧
      (nth 0 t 0 = dot → length t = 1%nat) ∧ ∀ i, t !! i = Some dot → t !! S i ≠ Some dot
  | Dotted ls | Star ls | Tail ls => ls ≠ [] ∧ Forall label_ok ls
  end.

(** What names of the same kind must differ in. *)
Definition exact_text (n : sname) : option (list Z) :=
  match n with Exact t => Some t | Dotted ls => Some (join ls) | _ => None end.
Definition head_text (n : sname) : option (list Z) :=
  match n with Dotted ls | Star ls => Some (join ls) | _ => None end.
Definition tail_text (n : sname) : option (list Z) :=
  match n with Tail ls => Some (join ls ++ [dot]) | _ => None end.

Abbreviation named_servers := (list (sname * Z)).

Definition texts (f : sname → option (list Z)) (names : named_servers) : list (list Z) := omap (λ x, f x.1) names.

(** What the arrays hold of the names. *)
Definition exact_of (x : sname * Z) : option ngx_hash_key_t :=
  match x.1 with Exact t => Some (mk_key (Some t) (Z.of_nat (length t)) (ngx_hash_key t) x.2) | _ => None end.
Definition head_of (x : sname * Z) : option entry :=
  match x.1 with
  | Dotted ls => Some (mk_entry (reverse ls) false x.2)
  | Star ls => Some (mk_entry (reverse ls) true x.2)
  | _ => None
  end.
Definition tail_of (x : sname * Z) : option entry :=
  match x.1 with Tail ls => Some (mk_entry ls false x.2) | _ => None end.

(** ** Texts *)

Lemma join_app a b : a ≠ [] → b ≠ [] → join (a ++ b) = join a ++ dot :: join b.
Proof.
  intros Ha Hb. induction a as [|l a IH]; [done|]. destruct a as [|m a].
  - cbn [app]. destruct b as [|n b]; [done|]. by rewrite join_cons.
  - change ((l :: m :: a) ++ b) with (l :: m :: (a ++ b)). rewrite !join_cons. change (m :: (a ++ b)) with ((m :: a) ++ b).
    rewrite IH by done. by rewrite <- app_assoc.
Qed.

Lemma join_reverse_length ls : length (join (reverse ls)) = length (join ls).
Proof.
  induction ls as [|l ls IH]; [done|]. rewrite reverse_cons. destruct ls as [|m ls]; [done|].
  rewrite join_snoc by (intros E; apply (f_equal length) in E; rewrite length_reverse in E; done).
  rewrite join_cons, !length_app. cbn [length]. lia.
Qed.

Lemma reverse_ne {A} (l : list A) : l ≠ [] → reverse l ≠ [].
Proof. intros H E. apply H. apply (f_equal reverse) in E. by rewrite reverse_involutive in E. Qed.

Lemma join_labels_length ls : (length ls ≤ S (length (join ls)))%nat.
Proof. induction ls as [|l [|m ls] IH]; [cbn; lia|cbn; lia|]. rewrite join_cons, length_app. cbn [length] in *. lia. Qed.

Lemma join_labels_length' ls : Forall label ls → (length ls ≤ length (join ls))%nat.
Proof.
  induction 1 as [|l ls [Hl _] Hls IH]; [done|]. destruct l as [|c l]; [done|]. destruct ls as [|m ls]; [cbn; lia|].
  rewrite join_cons, length_app. cbn [length] in *. lia.
Qed.

Lemma strlow_ok src : ngx_hash_strlow src = (ngx_hash_key (ngx_tolower <$> src), ngx_tolower <$> src).
Proof.
  unfold ngx_hash_strlow, ngx_hash_key.
  assert (∀ k d, fold_left (λ '(key, dst) c, let d := ngx_tolower c in (ngx_hash key d, dst ++ [d])) src (k, d) =
    (fold_left ngx_hash (ngx_tolower <$> src) k, d ++ (ngx_tolower <$> src))) as H; [|apply H].
  induction src as [|c src IH]; intros k d; cbn [fold_left fmap list_fmap]; [by rewrite app_nil_r|].
  rewrite IH. by rewrite <- app_assoc.
Qed.

Lemma key_lc_ok src : ngx_hash_key_lc src = ngx_hash_key (ngx_tolower <$> src).
Proof.
  unfold ngx_hash_key_lc, ngx_hash_key. generalize 0. induction src as [|c src IH]; intros k; cbn; [done|]. apply IH.
Qed.

Lemma lower_join ls : Forall label ls → ngx_tolower <$> join ls = join ls.
Proof.
  induction 1 as [|l ls Hl Hls IH]; [done|]. destruct ls as [|m ls]; [by apply label_lower|].
  rewrite join_cons, fmap_app, fmap_cons, IH, label_lower by done. done.
Qed.

Lemma join_no_nul ls : Forall label ls → 0 ∉ join ls.
Proof.
  intros H. pose proof (etext_no_nul (mk_entry ls false 0) H) as Hn. unfold etext in Hn. cbn [labels trailing] in Hn.
  by rewrite app_nil_r in Hn.
Qed.

Lemma join_ne ls : ls ≠ [] → Forall label ls → ∃ c x, join ls = c :: x ∧ label_char c.
Proof.
  intros H1 H2. destruct ls as [|l ls]; [done|]. apply list.Forall_cons in H2 as [[Hne Hl] _]. destruct l as [|c l]; [done|].
  apply list.Forall_cons in Hl as [Hc _]. destruct ls; by eexists _, _.
Qed.

Lemma labels_of ls : Forall label_ok ls → Forall label ls.
Proof. intros H. eapply List.Forall_impl; [|exact H]. by intros l [Hl _]. Qed.

(** *** The check of the asterisks *)

Lemma count_label l r n : n ≤ 1 → label_ok l → count_stars (l ++ r) n = count_stars r n.
Proof.
  intros Hn [[_ Hl] Hs]. induction Hl as [|c l (_ & Hc & _) _ IH]; [done|]. apply not_elem_of_cons in Hs as [Hs1 Hs].
  cbn [app count_stars]. rewrite (proj2 (Z.eqb_neq c star)) by done. rewrite (proj2 (Z.ltb_ge 1 n)) by lia.
  rewrite (proj2 (Z.eqb_neq c dot)) by done. cbn [andb]. by apply IH.
Qed.

Lemma count_join ls r n : n ≤ 1 → ls ≠ [] → Forall label_ok ls → count_stars (join ls ++ r) n = count_stars r n.
Proof.
  intros Hn Hne H. induction H as [|l ls Hl Hls IH]; [done|]. destruct ls as [|m ls]; [by apply count_label|].
  rewrite join_cons, <- app_assoc, count_label by done. cbn [app count_stars].
  rewrite (proj2 (Z.eqb_neq dot star)) by done. rewrite (proj2 (Z.ltb_ge 1 n)) by lia.
  destruct (join_ne (m :: ls) ltac:(done) (labels_of _ Hls)) as (c & x & Ex & _ & Hc & _). specialize (IH ltac:(done)).
  rewrite Ex in IH |- *. cbn [app nth] in IH |- *. rewrite (proj2 (Z.eqb_neq c dot)) by done. rewrite andb_false_r. exact IH.
Qed.

Lemma count_exact t n : n ≤ 1 → star ∉ t → (∀ i, t !! i = Some dot → t !! S i ≠ Some dot) → count_stars t n = Some n.
Proof.
  intros Hn. induction t as [|c t IH]; intros Hs Hd; [done|]. apply not_elem_of_cons in Hs as [Hc Hs]. cbn [count_stars].
  rewrite (proj2 (Z.eqb_neq c star)) by done. rewrite (proj2 (Z.ltb_ge 1 n)) by lia.
  assert ((c =? dot) && (nth 0 t 0 =? dot) = false) as ->.
  { apply andb_false_iff. destruct (Z.eqb_spec c dot) as [->|]; [right|by left]. destruct t as [|d t]; [done|]. cbn.
    apply Z.eqb_neq. intros ->. by apply (Hd 0%nat). }
  apply IH; [done|]. intros i Hi. apply (Hd (S i) Hi).
Qed.

(** *** The labels in the reverse order *)

Lemma reverse_inside c0 x l z len p : dotless l →
  reverse_labels ((c0 :: x) ++ l ++ z) (length x + length l) len p = reverse_labels ((c0 :: x) ++ l ++ z) (length x) (len + length l) p.
Proof.
  revert len z. induction l as [|c l IH] using rev_ind; intros len z Hl; [cbn [length]; by rewrite !Nat.add_0_r|].
  unfold dotless in *. rewrite not_elem_of_app, list_elem_of_singleton in Hl. destruct Hl as [Hl Hc].
  rewrite length_app. cbn [length]. replace (length x + (length l + 1))%nat with (S (length x + length l)) by lia.
  rewrite <- app_assoc. cbn [reverse_labels].
  assert (nth (S (length x + length l)) ((c0 :: x) ++ l ++ [c] ++ z) 0 = c) as ->.
  { cbn [app nth]. rewrite app_nth2 by lia. rewrite app_nth2 by lia. by replace (length x + length l - length x - length l)%nat with 0%nat by lia. }
  rewrite (proj2 (Z.eqb_neq c dot)) by (by intros ->). rewrite IH by done. f_equal. lia.
Qed.

Lemma reverse_join c0 : ∀ ls z p, ls ≠ [] → Forall dotless ls →
  reverse_labels ((c0 :: join (reverse ls)) ++ z) (length (join (reverse ls))) 0 p = p ++ join ls.
Proof.
  induction ls as [|l ls IH]; intros z p Hne Hd; [done|]. apply list.Forall_cons in Hd as [Hl Hd].
  rewrite reverse_cons. destruct ls as [|m ls].
  - cbn [reverse app join]. change (reverse [] ++ [l]) with [l]. cbn [join].
    change (c0 :: l ++ z) with ((c0 :: []) ++ l ++ z). pose proof (reverse_inside c0 [] l z 0 p Hl) as H. cbn [length] in H.
    rewrite !Nat.add_0_l in H. etrans; [exact H|]. cbn [reverse_labels]. change (drop 1 (([c0]) ++ l ++ z)) with (l ++ z). by rewrite take_app_length.
  - rewrite join_snoc by (by apply reverse_ne). set (J := join (reverse (m :: ls))) in *.
    assert ((c0 :: J ++ dot :: l) ++ z = (c0 :: J ++ [dot]) ++ l ++ z) as Ek by (cbn; by rewrite <- !app_assoc).
    replace (length (J ++ dot :: l)) with (length (J ++ [dot]) + length l)%nat by (rewrite !length_app; cbn; lia).
    rewrite Ek, reverse_inside by done. rewrite length_app. cbn [length]. rewrite Nat.add_1_r. rewrite Nat.add_0_l. cbn [reverse_labels].
    assert (nth (S (length J)) ((c0 :: J ++ [dot]) ++ l ++ z) 0 = dot) as ->.
    { cbn [app nth]. rewrite <- app_assoc, app_nth2, Nat.sub_diag by lia. done. }
    rewrite Z.eqb_refl.
    assert (take (length l) (drop (S (S (length J))) ((c0 :: J ++ [dot]) ++ l ++ z)) = l) as ->.
    { rewrite drop_app_ge by (cbn; rewrite length_app; cbn; lia). cbn [length]. rewrite length_app. cbn [length].
      replace (S (S (length J)) - S (length J + 1))%nat with 0%nat by lia. rewrite drop_0. by rewrite take_app_length. }
    assert ((c0 :: J ++ [dot]) ++ l ++ z = (c0 :: J) ++ (dot :: l ++ z)) as -> by (cbn; by rewrite <- app_assoc).
    rewrite (IH (dot :: l ++ z) (p ++ l ++ [dot]) ltac:(done) Hd). rewrite join_cons, <- !app_assoc. done.
Qed.

(** ** Adding the names *)

Lemma strncmp_eq a b : 0 ∉ a → length a = length b → ∃ c, ngx_strncmp a b (length a) = Some c ∧ (c = 0 ↔ a = b).
Proof.
  revert b. induction a as [|c a IH]; intros [|d b] Ha Hlen; cbn in Hlen; try done; cbn [length ngx_strncmp].
  - by exists 0.
  - apply not_elem_of_cons in Ha as [Hc Ha]. destruct (Z.eqb_spec c d) as [<-|Hne].
    + rewrite (proj2 (Z.eqb_neq c 0)) by done. destruct (IH b Ha ltac:(lia)) as (r & -> & Hr). exists r. split; [done|].
      rewrite Hr. split; [by intros ->|by intros [=]].
    + exists (c - d). split; [done|]. split; [lia|]. by intros [=].
Qed.

Lemma conflict_none text names : 0 ∉ text → text ∉ names → conflict text names = Some false.
Proof.
  intros H0. induction names as [|name names IH]; intros Hn; [done|]. apply not_elem_of_cons in Hn as [Hne Hn]. cbn [conflict].
  destruct (Nat.eqb_spec (length text) (length name)) as [E|]; cbn [negb]; [|by apply IH].
  destruct (strncmp_eq text name H0 E) as (c & -> & Hc). cbn. destruct (Z.eqb_spec c 0) as [->|]; [|by apply IH].
  exfalso. apply Hne. by apply Hc.
Qed.

(** The names of the buckets are among [all]. *)
Definition within (names : gmap Z (list (list Z))) (all : list (list Z)) : Prop := ∀ k x, x ∈ bucket names k → x ∈ all.

Lemma push_ok names k text all : within names all → 0 ∉ text → text ∉ all →
  ∃ names', push_name names k text = Some (Some names') ∧ within names' (all ++ [text]).
Proof.
  intros Hw H0 Hn. unfold push_name. rewrite conflict_none by (done || by intros H; apply Hn, (Hw k)).
  eexists. split; [done|]. intros k' x Hx. unfold bucket in Hx. destruct (decide (k' = k)) as [->|Hne].
  - rewrite lookup_insert_eq in Hx. cbn in Hx. apply elem_of_app in Hx as [Hx|Hx]; rewrite elem_of_app; [left; by apply (Hw k)|by right].
  - rewrite lookup_insert_ne in Hx by done. rewrite elem_of_app. left. by apply (Hw k').
Qed.

Lemma within_app names all x : within names all → within names (all ++ x).
Proof. intros H k y Hy. rewrite elem_of_app. left. by apply (H k). Qed.

(** What the arrays hold after [names] were added. *)
Record arrays (ha : ngx_hash_keys_arrays_t) (names : named_servers) : Prop := {
  arr_keys : keys ha = omap exact_of names;
  arr_heads : dns_wc_head ha = key_of <$> omap head_of names;
  arr_tails : dns_wc_tail ha = key_of <$> omap tail_of names;
  arr_exact : within (keys_hash ha) (texts exact_text names);
  arr_head : within (dns_wc_head_hash ha) (texts head_text names);
  arr_tail : within (dns_wc_tail_hash ha) (texts tail_text names);
}.

Lemma arrays_init : arrays (ngx_hash_keys_array_init false) [].
Proof. split; try done; intros k x Hx; unfold bucket in Hx; cbn in Hx; by rewrite lookup_empty in Hx. Qed.

Lemma omap_snoc {A B} (f : A → option B) l x : omap f (l ++ [x]) = omap f l ++ match f x with Some y => [y] | None => [] end.
Proof. rewrite omap_app. cbn. by destruct (f x). Qed.

Lemma texts_snoc f names n v : texts f (names ++ [(n, v)]) = texts f names ++ match f n with Some t => [t] | None => [] end.
Proof. unfold texts. by rewrite omap_snoc. Qed.

(** The name is not among those of its kind. *)
Definition fresh (names : named_servers) (n : sname) : Prop :=
  (∀ t, exact_text n = Some t → t ∉ texts exact_text names) ∧
  (∀ t, head_text n = Some t → t ∉ texts head_text names) ∧
  (∀ t, tail_text n = Some t → t ∉ texts tail_text names).

Lemma add_exact_ok ha names t v : arrays ha names → name_ok (Exact t) → fresh names (Exact t) →
  ∃ ha', ngx_hash_add_key ha t v true false = Some (Added, ha') ∧ arrays ha' (names ++ [(Exact t, v)]).
Proof.
  intros [A1 A2 A3 A4 A5 A6] (Hlen & Hc & Hd & Hdd) (Hf & _ & _).
  assert (star ∉ t) as Hs by (intros H; rewrite list.Forall_forall in Hc; by destruct (Hc _ H) as (_ & ? & _)).
  assert (0 ∉ t) as H0 by (intros H; rewrite list.Forall_forall in Hc; by destruct (Hc _ H) as (? & _)).
  assert (ngx_tolower <$> t = t) as Hlow.
  { clear -Hc. induction Hc as [|c t (_ & _ & H) _ IH]; [done|]. rewrite fmap_cons, H. by f_equal. }
  unfold ngx_hash_add_key. cbn [negb]. rewrite count_exact by (done || lia).
  assert (wildcard_skip t = None) as ->.
  { unfold wildcard_skip. destruct (Nat.ltb_spec 1 (length t)); cbn [andb].
    - destruct (Z.eqb_spec (nth 0 t 0) dot) as [E|_]; [apply Hd in E; lia|].
      assert (∀ i, nth i t 0 ≠ star) as Hns.
      { intros i E. destruct (nth_in_or_default i t 0) as [Hi|Hi]; [|rewrite Hi in E; done]. rewrite E in Hi. apply Hs. by apply list_elem_of_In. }
      rewrite (proj2 (Z.eqb_neq _ star) (Hns 0%nat)), (proj2 (Z.eqb_neq _ star) (Hns _)), andb_false_r. cbn [andb]. by destruct (_ <? _)%nat.
    - by rewrite (proj2 (Nat.ltb_ge _ _)) by lia. }
  cbn [Z.eqb negb]. unfold add_exact. rewrite Hlow.
  destruct (push_ok (keys_hash ha) (ngx_hash_key t mod hsize ha) t _ A4 H0 (Hf t eq_refl)) as (names' & -> & Hw).
  cbn [mbind option_bind]. eexists. split; [done|]. split; cbn.
  - by rewrite omap_snoc, A1.
  - by rewrite omap_snoc, app_nil_r.
  - by rewrite omap_snoc, app_nil_r.
  - by rewrite texts_snoc.
  - by rewrite texts_snoc, app_nil_r.
  - by rewrite texts_snoc, app_nil_r.
Qed.

(** The text of a wildcard as [ngx_hash_add_key] takes it apart. *)
Definition skip_of (n : sname) : nat := match n with Dotted _ => 1 | Star _ => 2 | _ => 0 end.
Definition last_of (n : sname) : nat := match n with Tail _ => length (text_of n) - 2 | _ => length (text_of n) end.
Definition wildcard_labels (n : sname) : list (list Z) := match n with Exact _ => [] | Dotted ls | Star ls | Tail ls => ls end.
Definition is_wildcard (n : sname) : Prop := match n with Exact _ => False | _ => True end.
#[export] Instance is_wildcard_dec n : Decision (is_wildcard n).
Proof. destruct n; apply _. Defined.

Lemma wildcard_labels_ok n : is_wildcard n → name_ok n → wildcard_labels n ≠ [] ∧ Forall label_ok (wildcard_labels n).
Proof. destruct n; [done|..]; by intros _ [_ H]. Qed.

Lemma count_wildcard n : is_wildcard n → name_ok n → ∃ k, count_stars (text_of n) 0 = Some k.
Proof.
  intros Hw Hok. destruct (wildcard_labels_ok n Hw Hok) as [Hne Hls].
  destruct (join_ne _ Hne (labels_of _ Hls)) as (c & x & Ex & _ & Hc & _).
  assert (∀ k, k ≤ 1 → count_stars (dot :: join (wildcard_labels n)) k = Some k) as Hdot.
  { intros k Hk. cbn [count_stars]. rewrite (proj2 (Z.eqb_neq dot star)) by done. rewrite (proj2 (Z.ltb_ge 1 k)) by lia.
    rewrite Ex. cbn [nth]. rewrite (proj2 (Z.eqb_neq c dot)) by done. rewrite andb_false_r, <- Ex.
    rewrite <- (app_nil_r (join _)). by rewrite count_join. }
  destruct n as [t|ls|ls|ls]; [done|..]; cbn [text_of wildcard_labels] in *.
  - exists 0. by apply Hdot.
  - exists 1. cbn [count_stars]. apply (Hdot 1). lia.
  - exists 1. by rewrite count_join.
Qed.

Lemma skip_wildcard n : is_wildcard n → name_ok n → wildcard_skip (text_of n) = Some (skip_of n, last_of n).
Proof.
  intros Hw Hok. destruct (wildcard_labels_ok n Hw Hok) as [Hne Hls].
  destruct (join_ne _ Hne (labels_of _ Hls)) as (c & x & Ex & _ & Hc & _).
  assert (c ≠ star) as Hcs.
  { destruct (wildcard_labels n) as [|l ls]; [done|]. apply list.Forall_cons in Hls as [[[Hl _] Hs] _]. destruct l as [|c' l]; [done|].
    apply not_elem_of_cons in Hs as [Hs _]. destruct ls; cbn in Ex; injection Ex as -> _; intros E; by apply Hs. }
  unfold wildcard_skip. destruct n as [t|ls|ls|ls]; [done|..]; cbn [text_of wildcard_labels skip_of last_of] in *.
  - rewrite Ex. cbn. done.
  - rewrite Ex. cbn. done.
  - assert (nth 0 (join ls ++ [dot; star]) 0 = c) as -> by (by rewrite Ex).
    assert (0 < length (join ls))%nat as Hlen by (rewrite Ex; cbn; lia). rewrite length_app. cbn [length].
    rewrite (proj2 (Z.eqb_neq c dot)), (proj2 (Z.eqb_neq c star)) by done. rewrite andb_false_r. cbn [andb].
    rewrite (proj2 (Nat.ltb_lt 2 _)) by lia. rewrite !app_nth2 by lia.
    replace (length (join ls) + 2 - 2 - length (join ls))%nat with 0%nat by lia.
    by replace (length (join ls) + 2 - 1 - length (join ls))%nat with 1%nat by lia.
Qed.

Definition entry_of (n : sname) (v : Z) : entry :=
  match n with
  | Star ls => mk_entry (reverse ls) true v
  | Dotted ls => mk_entry (reverse ls) false v
  | _ => mk_entry (wildcard_labels n) false v
  end.

Lemma inner_text n : is_wildcard n → drop (skip_of n) (take (last_of n) (text_of n)) = join (wildcard_labels n) ∧
  take (skip_of n) (text_of n) ++ join (wildcard_labels n) ++ drop (last_of n) (text_of n) = text_of n.
Proof.
  destruct n as [t|ls|ls|ls]; [done|..]; intros _; cbn [skip_of last_of wildcard_labels].
  1,2: rewrite firstn_all, drop_all, app_nil_r; cbn [text_of]; split; done.
  cbn [text_of]. rewrite length_app. cbn [length]. rewrite Nat.add_sub. rewrite take_app_length, drop_app_length. done.
Qed.

Lemma dotless_labels ls : Forall label_ok ls → Forall dotless ls.
Proof. intros H. eapply List.Forall_impl; [|exact H]. intros l [Hl _]. by apply label_dotless. Qed.

Lemma Forall_reverse {A} (Q : A → Prop) l : Forall Q l → Forall Q (reverse l).
Proof. rewrite !list.Forall_forall. intros H x Hx. apply H. by apply elem_of_reverse. Qed.

Lemma wildcard_key_ok n v : is_wildcard n → name_ok n →
  wildcard_key (text_of n) (skip_of n) (last_of n) v = key_of (entry_of n v).
Proof.
  intros Hw Hok. destruct (wildcard_labels_ok n Hw Hok) as [Hne Hls]. pose proof (dotless_labels _ Hls) as Hd.
  apply Forall_reverse in Hd. pose proof (reverse_ne _ Hne) as Hrne.
  unfold wildcard_key, key_of. destruct n as [t|ls|ls|ls]; [done|..]; cbn [skip_of last_of entry_of evalue wildcard_labels] in *.
  - cbn [text_of length]. rewrite Nat.sub_succ, Nat.sub_0_r.
    pose proof (reverse_join dot (reverse ls) [] [] Hrne Hd) as Hj. rewrite reverse_involutive, app_nil_r in Hj. rewrite Hj.
    unfold etext. cbn [labels trailing app]. by rewrite app_nil_r, join_reverse_length.
  - cbn [text_of length]. rewrite Nat.sub_succ, Nat.sub_0_r.
    assert (Forall dotless (reverse ls ++ [[]])) as Hd' by (apply Forall_app_2; [done|apply Forall_cons_2; [apply not_elem_of_nil|apply Forall_nil_2]]).
    pose proof (reverse_join star (reverse ls ++ [[]]) [] [] ltac:(by destruct (reverse ls)) Hd') as Hj.
    rewrite reverse_app in Hj. rewrite reverse_involutive in Hj. change (reverse [[]] ++ ls) with (([] : list Z) :: ls) in Hj.
    assert (join ([] :: ls) = dot :: join ls) as E1 by (by destruct ls). rewrite E1, app_nil_r in Hj. cbn [length] in Hj.
    rewrite Hj. rewrite join_snoc by done. cbn [app]. unfold etext. cbn [labels trailing]. rewrite length_app, join_reverse_length. cbn [length].
    f_equal. lia.
  - destruct (inner_text (Tail ls) I) as [Hin _]. cbn [skip_of last_of wildcard_labels] in Hin. rewrite drop_0 in Hin. rewrite Hin.
    unfold etext. cbn [labels trailing]. rewrite app_nil_r. f_equal. cbn [text_of]. rewrite length_app. cbn [length]. f_equal. lia.
Qed.

Lemma head_tail_of n v : is_wildcard n → exact_of (n, v) = None ∧
  match n with Tail _ => head_of (n, v) = None ∧ tail_of (n, v) = Some (entry_of n v)
  | _ => head_of (n, v) = Some (entry_of n v) ∧ tail_of (n, v) = None end.
Proof. by destruct n. Qed.

Lemma add_wildcard_ok ha names n v : arrays ha names → is_wildcard n → name_ok n → fresh names n →
  ∃ ha', ngx_hash_add_key ha (text_of n) v true false = Some (Added, ha') ∧ arrays ha' (names ++ [(n, v)]).
Proof.
  intros [A1 A2 A3 A4 A5 A6] Hw Hok (Hf1 & Hf2 & Hf3). unfold ngx_hash_add_key. cbn [negb].
  destruct (count_wildcard n Hw Hok) as [k ->]. rewrite (skip_wildcard n Hw Hok).
  destruct (wildcard_labels_ok n Hw Hok) as [Hne Hls]. pose proof (labels_of _ Hls) as Hlab. pose proof (join_no_nul _ Hlab) as H0.
  unfold add_wildcard. rewrite strlow_ok. destruct (inner_text n Hw) as [-> Htext]. rewrite (lower_join _ Hlab), Htext.
  rewrite (wildcard_key_ok n v Hw Hok). destruct (head_tail_of n v Hw) as [Hx Hht].
  set (h := ngx_hash_key (join (wildcard_labels n)) mod hsize ha).
  assert (∃ names1, (if (skip_of n =? 1)%nat then push_name (keys_hash ha) h (join (wildcard_labels n)) else Some (Some (keys_hash ha))) =
    Some (Some names1) ∧ within names1 (texts exact_text (names ++ [(n, v)]))) as (names1 & -> & Hw1).
  { rewrite texts_snoc. destruct n as [t|ls|ls|ls]; [done|..]; cbn [skip_of Nat.eqb exact_text wildcard_labels] in *.
    - by apply push_ok; [| |apply Hf1].
    - eexists. split; [done|]. by apply within_app.
    - eexists. split; [done|]. by apply within_app. }
  cbn [mbind option_bind].
  destruct n as [t|ls|ls|ls]; [done|..]; cbn [skip_of wildcard_labels hsize keys keys_hash dns_wc_head dns_wc_head_hash dns_wc_tail dns_wc_tail_hash] in *;
    destruct Hht as [Hh Ht]; rewrite texts_snoc in Hw1; cbn [exact_text] in Hw1; rewrite ?app_nil_r in Hw1.
  - destruct (push_ok (dns_wc_head_hash ha) h (join ls) _ A5 H0 (Hf2 _ eq_refl)) as (names2 & -> & Hw2). cbn [mbind option_bind].
    eexists. split; [done|]. split; cbn [keys keys_hash dns_wc_head dns_wc_head_hash dns_wc_tail dns_wc_tail_hash];
      rewrite ?omap_snoc, ?texts_snoc, ?Hx, ?Hh, ?Ht; cbn [exact_text head_text tail_text]; rewrite ?app_nil_r, ?fmap_app; try done.
    by rewrite A2.
  - destruct (push_ok (dns_wc_head_hash ha) h (join ls) _ A5 H0 (Hf2 _ eq_refl)) as (names2 & -> & Hw2). cbn [mbind option_bind].
    eexists. split; [done|]. split; cbn [keys keys_hash dns_wc_head dns_wc_head_hash dns_wc_tail dns_wc_tail_hash];
      rewrite ?omap_snoc, ?texts_snoc, ?Hx, ?Hh, ?Ht; cbn [exact_text head_text tail_text]; rewrite ?app_nil_r, ?fmap_app; try done.
    by rewrite A2.
  - assert (take (S (last_of (Tail ls))) (text_of (Tail ls)) = join ls ++ [dot]) as ->.
    { cbn [last_of text_of]. rewrite length_app. cbn [length]. rewrite Nat.add_sub. rewrite take_app_ge by lia.
      by replace (S (length (join ls)) - length (join ls))%nat with 1%nat by lia. }
    assert (0 ∉ join ls ++ [dot]) as H0' by (by rewrite not_elem_of_app, list_elem_of_singleton).
    destruct (push_ok (dns_wc_tail_hash ha) h (join ls ++ [dot]) _ A6 H0' (Hf3 _ eq_refl)) as (names2 & -> & Hw2). cbn [mbind option_bind].
    eexists. split; [done|]. split; cbn [keys keys_hash dns_wc_head dns_wc_head_hash dns_wc_tail dns_wc_tail_hash];
      rewrite ?omap_snoc, ?texts_snoc, ?Hx, ?Hh, ?Ht; cbn [exact_text head_text tail_text]; rewrite ?app_nil_r, ?fmap_app; try done.
    by rewrite A3.
Qed.

(** Names that do not conflict. *)
Definition distinct (names : named_servers) : Prop :=
  NoDup (texts exact_text names) ∧ NoDup (texts head_text names) ∧ NoDup (texts tail_text names).

Lemma fresh_of f names n v rest t : NoDup (texts f (names ++ (n, v) :: rest)) → f n = Some t → t ∉ texts f names.
Proof.
  unfold texts. rewrite omap_app. cbn. intros Hn E. rewrite E in Hn. apply list.NoDup_app in Hn as (_ & Hd & _). intros Ht. apply (Hd t Ht). by left.
Qed.

Definition sn_of (x : sname * Z) : ngx_http_server_name_t := mk_sn None x.2 (text_of x.1).

Lemma add_names_ok rest : ∀ ha names, arrays ha names → Forall (λ x, name_ok x.1) rest → distinct (names ++ rest) →
  ∃ ha', add_names ha (sn_of <$> rest) = Some (Some ha') ∧ arrays ha' (names ++ rest).
Proof.
  induction rest as [|[n v] rest IH]; intros ha names Ha Hok Hd; [exists ha; by rewrite app_nil_r|].
  apply list.Forall_cons in Hok as [Hn Hok]. rewrite fmap_cons. cbn [add_names sn_of regex name server fst snd].
  assert (fresh names n) as Hf.
  { destruct Hd as (D1 & D2 & D3). split; [|split]; intros t Ht; by eapply fresh_of. }
  assert (∃ ha', ngx_hash_add_key ha (text_of n) v true false = Some (Added, ha') ∧ arrays ha' (names ++ [(n, v)])) as (ha' & -> & Ha').
  { destruct (decide (is_wildcard n)) as [Hw|Hw]; [by apply add_wildcard_ok|]. destruct n; [by apply add_exact_ok|by destruct Hw..]. }
  cbn [mbind option_bind]. destruct (IH ha' (names ++ [(n, v)]) Ha' Hok) as (ha'' & -> & Ha''); [by rewrite <- app_assoc|].
  exists ha''. by rewrite <- app_assoc in Ha''.
Qed.

End ServerArrays.
