(* ===== verification/ServerNamesProof.v ===== *)
(** * The server of a name

    [ngx_http_server_names] and the searches together: the server that is found is
    the one of the exact name, else of the longest wildcard at the start, else of
    the longest one at the end. *)

From Stdlib Require Import Sorted.
From stdpp Require Import gmap.
From S2P Require Import Prelude Pool Hash HashProof StringOps Wildcard WildcardProof ServerNames ServerArrays.
Import Pool.Pool Hash.Hash HashProof.HashProof StringOps.StringOps Wildcard.Wildcard WildcardProof.WildcardProof.
Import ServerNames.ServerNames ServerArrays.ServerArrays.
Open Scope Z_scope.

Module ServerNamesProof.

(** ** What a name matches *)

Definition name_matches (n : sname) (host : list Z) : Prop :=
  match n with
  | Exact t => host = t
  | Dotted ls => host = join ls ∨ ∃ x, host = x ++ dot :: join ls
  | Star ls => ∃ x, host = x ++ dot :: join ls
  | Tail ls => ∃ x, host = join ls ++ dot :: x
  end.

Definition is_head (n : sname) : Prop := match n with Dotted _ | Star _ => True | _ => False end.
Definition is_tail (n : sname) : Prop := match n with Tail _ => True | _ => False end.

(** The server of the longest name of a kind that matches. *)
Definition longest (kind : sname → Prop) (names : named_servers) (host : list Z) (r : Z) : Prop :=
  ∃ n v, (n, v) ∈ names ∧ kind n ∧ name_matches n host ∧ r = v ∧
    ∀ n' v', (n', v') ∈ names → kind n' → name_matches n' host →
      (length (wildcard_labels n') ≤ length (wildcard_labels n))%nat.

Definition none (kind : sname → Prop) (names : named_servers) (host : list Z) : Prop :=
  ∀ n v, (n, v) ∈ names → kind n → ¬ name_matches n host.

Definition is_exact (n : sname) : Prop := match n with Exact _ => True | _ => False end.

(** The server that a host is meant for; NULL where no name matches. *)
Definition chosen (names : named_servers) (host : list Z) (r : Z) : Prop :=
  (Exact host, r) ∈ names ∨
  (none is_exact names host ∧
    (longest is_head names host r ∨
     (none is_head names host ∧ (longest is_tail names host r ∨ (none is_tail names host ∧ r = NULL))))).

Lemma split_labels host : ∃ hs, hs ≠ [] ∧ Forall dotless hs ∧ host = join hs.
Proof.
  induction host as [|c host IH].
  - exists [[]]. split; [done|]. split; [|done]. apply Forall_cons_2; [apply not_elem_of_nil|apply Forall_nil_2].
  - destruct IH as (hs & Hne & Hd & ->). destruct (decide (c = dot)) as [->|Hc].
    + exists ([] :: hs). split; [done|]. split; [apply Forall_cons_2; [apply not_elem_of_nil|done]|]. by destruct hs.
    + destruct hs as [|h hs]; [done|]. apply list.Forall_cons in Hd as [Hh Hd]. exists ((c :: h) :: hs). split; [done|].
      split; [apply Forall_cons_2; [|done]; unfold dotless; rewrite not_elem_of_cons; split; [by intros E|done]|]. by destruct hs.
Qed.

Lemma dot_cancel a b x y : dotless a → dotless b → a ++ dot :: x = b ++ dot :: y → a = b ∧ x = y.
Proof.
  unfold dotless. revert b. induction a as [|c a IH]; intros [|d b] Ha Hb E; cbn in E.
  - by injection E.
  - injection E as <- _. exfalso. apply Hb. by left.
  - injection E as -> _. exfalso. apply Ha. by left.
  - injection E as -> E. apply not_elem_of_cons in Ha as [_ Ha]. apply not_elem_of_cons in Hb as [_ Hb].
    by destruct (IH b Ha Hb E) as [-> ->].
Qed.

Lemma dot_cancel_r a b x y : dotless a → dotless b → x ++ dot :: a = y ++ dot :: b → a = b ∧ x = y.
Proof.
  intros Ha Hb E. apply (f_equal reverse) in E. rewrite !reverse_app, !reverse_cons, <- !app_assoc in E. cbn [app] in E.
  assert (∀ l, dotless l → dotless (reverse l)) as Hr by (intros l Hl H; by apply Hl, elem_of_reverse).
  destruct (dot_cancel _ _ _ _ (Hr a Ha) (Hr b Hb) E) as [E1 E2].
  split; [by apply (inj reverse)|by apply (inj reverse)].
Qed.

Lemma join_inj a b : a ≠ [] → b ≠ [] → Forall dotless a → Forall dotless b → join a = join b → a = b.
Proof.
  intros Ha Hb Hda. revert b Hb. induction Hda as [|l a Hl Hda IH]; intros b Hb Hdb E; [done|]. clear Ha.
  destruct b as [|m b]; [done|]. apply list.Forall_cons in Hdb as [Hm Hdb].
  destruct a as [|l' a], b as [|m' b]; rewrite ?join_cons in E; cbn [join] in E.
  - by subst.
  - subst l. exfalso. apply Hl. rewrite elem_of_app. right. by left.
  - subst m. exfalso. apply Hm. rewrite elem_of_app. right. by left.
  - destruct (dot_cancel _ _ _ _ Hl Hm E) as [-> E']. f_equal. by apply IH.
Qed.

(** The names whose last labels are given. *)
Lemma suffix_labels ls hs : ls ≠ [] → hs ≠ [] → Forall dotless ls → Forall dotless hs →
  (∃ x, join (reverse hs) = x ++ dot :: join (reverse ls)) ↔ ∃ m ms, hs = ls ++ m :: ms.
Proof.
  intros Hls Hhs Hdl Hdh. split.
  - revert hs Hhs Hdh. induction Hdl as [|l ls Hl Hdl IH]; intros hs Hhs Hdh [x E]; [done|]. clear Hls.
    destruct hs as [|h hs]; [done|]. apply list.Forall_cons in Hdh as [Hh Hdh]. rewrite !reverse_cons in E.
    destruct hs as [|h' hs].
    + change (join (reverse [] ++ [h])) with h in E. exfalso. apply Hh. rewrite E, elem_of_app. right. by left.
    + rewrite (join_snoc (reverse (h' :: hs))) in E by (by apply reverse_ne). destruct ls as [|l' ls].
      * change (join (reverse [] ++ [l])) with l in E. destruct (dot_cancel_r _ _ _ _ Hh Hl E) as [-> _]. by exists h', hs.
      * rewrite (join_snoc (reverse (l' :: ls))) in E by (by apply reverse_ne).
        rewrite app_comm_cons, app_assoc in E. destruct (dot_cancel_r _ _ _ _ Hh Hl E) as [-> E'].
        destruct (IH ltac:(done) (h' :: hs) ltac:(done) Hdh) as (m & ms & ->); [by exists x|]. by exists m, ms.
  - intros (m & ms & ->). rewrite reverse_app. exists (join (reverse (m :: ms))). apply join_app; by apply reverse_ne.
Qed.

Lemma prefix_join ls hs : ls ≠ [] → hs ≠ [] → Forall dotless ls → Forall dotless hs →
  (∃ x, join hs = join ls ++ dot :: x) ↔ ∃ m ms, hs = ls ++ m :: ms.
Proof.
  intros Hls Hhs Hdl Hdh. split.
  - revert hs Hhs Hdh. induction Hdl as [|l ls Hl Hdl IH]; intros hs Hhs Hdh [x E]; [done|]. clear Hls.
    destruct hs as [|h hs]; [done|]. apply list.Forall_cons in Hdh as [Hh Hdh].
    assert (∃ y, join (l :: ls) ++ dot :: x = l ++ dot :: y) as [y Ey].
    { destruct ls as [|l' ls]; [by exists x|]. eexists. by rewrite join_cons, <- app_assoc. }
    destruct hs as [|h' hs].
    + exfalso. apply Hh. change (join [h]) with h in E. rewrite E, Ey, elem_of_app. right. by left.
    + rewrite join_cons in E. destruct ls as [|l' ls].
      * cbn [join] in E. destruct (dot_cancel _ _ _ _ Hh Hl E) as [-> _]. by exists h', hs.
      * rewrite join_cons, <- app_assoc in E. destruct (dot_cancel _ _ _ _ Hh Hl E) as [-> E'].
        destruct (IH ltac:(done) (h' :: hs) ltac:(done) Hdh) as (m & ms & ->); [by exists x|]. by exists m, ms.
  - intros (m & ms & ->). exists (join (m :: ms)). by apply join_app.
Qed.

Lemma matches_cases t hs e : matches t hs e ↔ (∃ m ms, hs = labels e ++ m :: ms) ∨ (hs = labels e ∧ t = false ∧ trailing e = false).
Proof.
  unfold matches. split.
  - intros [[x ->] H]. destruct x as [|m ms]; [right|left; by exists m, ms]. rewrite app_nil_r in *. split; [done|]. by apply H.
  - intros [(m & ms & ->)|(-> & -> & Htr)].
    + split; [by apply prefix_app_r|]. intros E. apply (f_equal length) in E. rewrite length_app in E. cbn in E. lia.
    + done.
Qed.

(** A wildcard matches a host where its labels are first in those of the host. *)
Lemma head_matches n v e hs : name_ok n → head_of (n, v) = Some e → hs ≠ [] → Forall dotless hs →
  name_matches n (join (reverse hs)) ↔ matches false hs e.
Proof.
  intros Hok He Hne Hd. rewrite matches_cases. destruct n as [t|ls|ls|ls]; cbn in He; try done; injection He as <-; cbn [labels trailing name_matches].
  all: assert (ls ≠ [] ∧ Forall dotless ls) as [Hls Hdl] by (destruct Hok as (_ & H1 & H2); split; [done|by apply dotless_labels]).
  all: pose proof (suffix_labels (reverse ls) hs (reverse_ne _ Hls) Hne (Forall_reverse _ _ Hdl) Hd) as Hs; rewrite reverse_involutive in Hs.
  all: rewrite Hs.
  - split; intros [H|H]; [right|by left|by right|left].
    + split; [|done]. rewrite <- (reverse_involutive ls) in H. apply join_inj in H; [by apply (inj reverse)|by apply reverse_ne| | |];
        [rewrite reverse_involutive|by apply Forall_reverse|rewrite reverse_involutive]; done.
    + destruct H as (-> & _). by rewrite reverse_involutive.
  - split; [by left|]. by intros [H|(_ & _ & ?)].
Qed.

Lemma tail_matches n v e hs : name_ok n → tail_of (n, v) = Some e → hs ≠ [] → Forall dotless hs →
  name_matches n (join hs) ↔ matches true hs e.
Proof.
  intros Hok He Hne Hd. rewrite matches_cases. destruct n as [t|ls|ls|ls]; cbn in He; try done; injection He as <-; cbn [labels trailing name_matches].
  destruct Hok as (_ & Hls & H2). rewrite (prefix_join ls hs Hls Hne (dotless_labels _ H2) Hd).
  split; [by left|]. by intros [H|(_ & ? & _)].
Qed.

(** ** From the tables to the names *)

(** A kind of names, its entries and what they match. *)
Record kind_ok (kind : sname → Prop) (ent : sname * Z → option entry) (tails : bool) (host : list Z) (hs : list (list Z)) : Prop := {
  kind_some n v : kind n → ∃ e, ent (n, v) = Some e;
  kind_only n v e : ent (n, v) = Some e → kind n ∧ evalue e = v ∧ length (labels e) = length (wildcard_labels n);
  kind_matches n v e : name_ok n → ent (n, v) = Some e → name_matches n host ↔ matches tails hs e;
}.

Lemma found_longest kind ent tails host hs names es r : kind_ok kind ent tails host hs → Forall (λ x, name_ok x.1) names →
  es ≡ₚ omap ent names → found tails es hs (λ r, r = 0 ∨ r = 0) r →
  longest kind names host r ∨ (none kind names host ∧ r = 0).
Proof.
  intros [K1 K2 K3] Hok Hp Hr.
  assert (∀ e, e ∈ es ↔ ∃ n v, (n, v) ∈ names ∧ ent (n, v) = Some e) as Hin.
  { intros e. rewrite Hp, list_elem_of_omap. split; [intros ([n v] & H1 & H2); by exists n, v|intros (n & v & H1 & H2); by exists (n, v)]. }
  assert (∀ n v, (n, v) ∈ names → name_ok n) as Hokn by (intros n v H; rewrite list.Forall_forall in Hok; by apply (Hok (n, v))).
  destruct Hr as [(e & He & Hm & -> & Hmax)|[Hno Hr]].
  - left. apply Hin in He as (n & v & Hnv & He). destruct (K2 n v e He) as (Hk & Hv & Hlen).
    exists n, v. split; [done|]. split; [done|]. split; [by apply (K3 n v e); [by eapply Hokn| |]|]. split; [done|].
    intros n' v' Hnv' Hk' Hm'. destruct (K1 n' v' Hk') as [e' He']. destruct (K2 n' v' e' He') as (_ & _ & Hlen').
    rewrite <- Hlen, <- Hlen'. apply Hmax; [apply Hin; by exists n', v'|]. apply (K3 n' v' e'); [by eapply Hokn|done|done].
  - right. split; [|by destruct Hr]. intros n v Hnv Hk Hm. destruct (K1 n v Hk) as [e He].
    apply (Hno e); [apply Hin; by exists n, v|]. apply (K3 n v e); [by eapply Hokn|done|done].
Qed.

Lemma heads_kind hs : hs ≠ [] → Forall dotless hs → kind_ok is_head head_of false (join (reverse hs)) hs.
Proof.
  intros Hne Hd. split.
  - intros [] v Hk; try done; by eexists.
  - intros [] v e He; cbn in He; try done; injection He as <-; cbn; by rewrite length_reverse.
  - intros n v e Hok He. by apply (head_matches n v).
Qed.

Lemma tails_kind hs : hs ≠ [] → Forall dotless hs → kind_ok is_tail tail_of true (join hs) hs.
Proof.
  intros Hne Hd. split.
  - intros [] v Hk; try done; by eexists.
  - intros [] v e He; cbn in He; try done; by injection He as <-.
  - intros n v e Hok He. by apply (tail_matches n v).
Qed.

Definition value_ok (v : Z) : Prop := 0 < v ∧ v mod 4 = 0.

Lemma label_reverse ls : Forall label_ok ls → Forall label (reverse ls).
Proof. intros H. by apply Forall_reverse, labels_of. Qed.

Lemma head_entry_ok n v e : name_ok n → value_ok v → head_of (n, v) = Some e → entry_ok e.
Proof.
  intros [Hlen Hok] Hv He. destruct n as [t|ls|ls|ls]; cbn in He; try done; injection He as <-; destruct Hok as [Hne Hls].
  all: split; cbn [labels evalue]; [by apply reverse_ne|by apply label_reverse|done|].
  all: unfold etext; cbn [labels trailing text_of length] in *; rewrite length_app, join_reverse_length; cbn; lia.
Qed.

Lemma tail_entry_ok n v e : name_ok n → value_ok v → tail_of (n, v) = Some e → entry_ok e ∧ trailing e = false.
Proof.
  intros [Hlen Hok] Hv He. destruct n as [t|ls|ls|ls]; cbn in He; try done; injection He as <-; destruct Hok as [Hne Hls].
  split; [|done]. split; cbn [labels evalue]; [done|by apply labels_of|done|].
  unfold etext; cbn [labels trailing text_of] in *. rewrite length_app in *. cbn in *. lia.
Qed.

Lemma omap_Forall {A B} (f : A → option B) (Q : A → Prop) (R : B → Prop) l : Forall Q l → (∀ x y, Q x → f x = Some y → R y) → Forall R (omap f l).
Proof.
  intros H HR. rewrite !list.Forall_forall in *. intros y Hy. apply list_elem_of_omap in Hy as (x & Hx & E). eapply HR; eauto.
Qed.

Lemma nodup_omap {A B C} (f : A → option B) (g : B → C) (h : A → option C) l : (∀ x y, f x = Some y → h x = Some (g y)) →
  NoDup (omap h l) → NoDup (g <$> omap f l).
Proof.
  intros Hfh. induction l as [|x l IH]; cbn; [intros; constructor|]. destruct (f x) as [y|] eqn:E.
  - rewrite (Hfh x y E). intros [Hn Hd]%list.NoDup_cons. rewrite fmap_cons. apply list.NoDup_cons. split; [|by apply IH].
    intros (z & Ez & Hz)%list_elem_of_fmap. apply Hn. rewrite Ez. apply list_elem_of_omap in Hz as (x' & Hx' & Ex').
    apply list_elem_of_omap. exists x'. split; [done|]. by apply Hfh.
  - intros H. apply IH. destruct (h x); [by apply list.NoDup_cons in H as [_ H]|done].
Qed.

Lemma nodup_labels (f : list (list Z) → list Z) (es : list entry) : NoDup ((λ e, f (labels e)) <$> es) → NoDup (labels <$> es).
Proof.
  intros H. assert ((λ e, f (labels e)) <$> es = f <$> (labels <$> es)) as E by (by rewrite <- list_fmap_compose). rewrite E in H.
  by apply NoDup_fmap_1 in H.
Qed.

(** *** Sorting *)

(** What C's [qsort] promises where the comparison is a total preorder on the array. *)
Definition le_of (cmp : wkey → wkey → option Z) (x y : wkey) : Prop := ∃ c, cmp x y = Some c ∧ c ≤ 0.

Definition consistent (cmp : wkey → wkey → option Z) (l : list wkey) : Prop :=
  (∀ x y, x ∈ l → y ∈ l → is_Some (cmp x y) ∧ (le_of cmp x y ∨ le_of cmp y x)) ∧
  (∀ x y z, x ∈ l → y ∈ l → z ∈ l → le_of cmp x y → le_of cmp y z → le_of cmp x z).

Definition sorts (qsort : (wkey → wkey → option Z) → list wkey → list wkey) : Prop :=
  ∀ cmp l, consistent cmp l → qsort cmp l ≡ₚ l ∧ StronglySorted (le_of cmp) (qsort cmp l).

Lemma lex_trans a b c : lex a b → lex b c → lex a c.
Proof.
  revert b c. induction a as [|x a IH]; intros [|y b] [|z c] H1 H2; try done. cbn in *.
  destruct H1 as [H1|[-> H1]], H2 as [H2|[-> H2]]; [left; lia|by left|by left|right; split; [done|by eapply IH]].
Qed.

Lemma lex_total a b : Forall text_char a → Forall text_char b → lex a b ∨ lex b a.
Proof.
  intros Ha. revert b. induction Ha as [|x a Hx Ha IH]; intros b Hb; [by left|]. destruct Hb as [|y b Hy Hb]; [by right|]. cbn.
  destruct (Z.lt_trichotomy (rank x) (rank y)) as [|[E|]]; [auto| |auto]. apply rank_inj in E as ->; [|done|done].
  destruct (IH b Hb); auto.
Qed.

Lemma le_lex e e' : entry_ok e → entry_ok e' → le_of ngx_http_cmp_dns_wildcards (key_of e) (key_of e') ↔ lex (etext e) (etext e').
Proof.
  intros He He'. destruct (dns_strcmp_lex (etext e) (etext e') (etext_chars e He) (etext_chars e' He')) as (r & Er & Hr).
  unfold le_of, ngx_http_cmp_dns_wildcards. cbn [data key_of]. rewrite Er. rewrite <- Hr. split; [by intros (c & [= ->] & Hc)|by exists r].
Qed.

Lemma sorted_entries qsort es : sorts qsort → Forall entry_ok es →
  ∃ es', qsort ngx_http_cmp_dns_wildcards (key_of <$> es) = key_of <$> es' ∧ es' ≡ₚ es ∧
    StronglySorted (λ e e', lex (etext e) (etext e')) es'.
Proof.
  intros Hq Hok. rewrite list.Forall_forall in Hok. destruct (Hq ngx_http_cmp_dns_wildcards (key_of <$> es)) as [Hp Hs].
  - split.
    + intros x y (e & -> & He)%list_elem_of_fmap (e' & -> & He')%list_elem_of_fmap. rewrite !le_lex by auto. split.
      * destruct (dns_strcmp_lex (etext e) (etext e') (etext_chars e (Hok e He)) (etext_chars e' (Hok e' He'))) as (r & Er & _). by exists r.
      * apply lex_total; apply etext_chars; auto.
    + intros x y z (e & -> & He)%list_elem_of_fmap (e' & -> & He')%list_elem_of_fmap (e'' & -> & He'')%list_elem_of_fmap.
      rewrite !le_lex by auto. apply lex_trans.
  - apply Permutation_map_inv in Hp as (es' & E & Hp'). exists es'. change (map key_of es') with (key_of <$> es') in E. split; [done|].
    split; [by symmetry|]. rewrite E in Hs. clear E.
    assert (∀ e, e ∈ es' → entry_ok e) as Hok' by (intros e He; apply Hok; by rewrite Hp'). clear Hp' Hok. 
    induction es' as [|e es' IH]; [constructor|]. rewrite fmap_cons in Hs. apply StronglySorted_inv in Hs as [Hs Hall].
    constructor; [apply IH; [done|]; intros x Hx; apply Hok'; by right|]. apply list.Forall_forall. intros x Hx.
    apply (le_lex e x); [apply Hok'; by left|apply Hok'; by right|].
    apply (proj1 (list.Forall_forall _ _) Hall). by apply list_elem_of_fmap_2.
Qed.

(** ** The tables together *)
Section Tables.
Context (k : Z) (Hk : 3 ≤ k) `{Pool P}.
Abbreviation cls := (2 ^ k).
Context (hinit : ngx_hash_init_t) (Hinit : good_init k hinit).
Context (qsort : (wkey → wkey → option Z) → list wkey → list wkey) (Hqsort : sorts qsort).

Lemma wildcard_init_ok es s p : es ≠ [] → Forall entry_ok es → NoDup (labels <$> es) → pool_ok p →
  ∃ es', es' ≡ₚ es ∧
  init_post es' s p (ngx_hash_wildcard_init cls hinit ngx_hash_key_lc (qsort ngx_http_cmp_dns_wildcards (key_of <$> es)) s p).
Proof.
  intros Hne Hok Hn Hp. destruct (sorted_entries qsort es Hqsort Hok) as (es' & E & Hperm & Hs). exists es'. split; [done|].
  rewrite E. unfold ngx_hash_wildcard_init. assert (Forall entry_ok es') as Hok' by (by rewrite Hperm).
  apply ordered_init; [done|done| |done| | |done].
  - apply (sorted_ordered (weight es')); [done|done|done|]. by rewrite Hperm.
  - apply list.Forall_forall. intros e He. rewrite list.Forall_forall in Hok'. specialize (Hok' e He).
    assert (length (data (key_of e)) ≤ max_list ((λ n, length (data n)) <$> (key_of <$> es')))%nat as Hmax.
    { apply max_list_elem_of_le. apply list_elem_of_fmap. exists (key_of e). split; [done|]. by apply list_elem_of_fmap_2. }
    assert (length (labels e) ≤ length (etext e))%nat.
    { pose proof (join_labels_length' _ (ok_labels e Hok')). unfold etext. rewrite length_app. lia. }
    cbn [data key_of] in Hmax. rewrite length_app in Hmax. cbn in Hmax. lia.
  - intros ->. apply Permutation_nil_l in Hperm. by destruct es.
Qed.

(** A table of wildcards, or none. *)
Definition table_post (es : list entry) (s : store) (p : P) (r : option (option (Z * store * P))) : Prop :=
  match r with
  | None => False
  | Some None => True
  | Some (Some (a, s', p')) => pool_ok p' ∧ extends p p' ∧ later p s s' ∧
      ((a = NULL ∧ es = []) ∨ (a ≠ NULL ∧ ∃ es', es' ≡ₚ es ∧ ∀ s'', later p' s' s'' → node s'' a es' 0))
  end.

Lemma wildcard_table_ok es s p : Forall entry_ok es → NoDup (labels <$> es) → pool_ok p →
  table_post es s p (wildcard_table cls hinit qsort (key_of <$> es) s p).
Proof.
  intros Hok Hn Hp. destruct es as [|e es].
  - cbn. split; [done|]. split; [by intros ?|]. split; [apply later_refl|]. by left.
  - destruct (wildcard_init_ok (e :: es) s p ltac:(done) Hok Hn Hp) as (es' & Hperm & Hpost).
    change (wildcard_table cls hinit qsort (key_of <$> e :: es) s p) with
      (ngx_hash_wildcard_init cls hinit ngx_hash_key_lc (qsort ngx_http_cmp_dns_wildcards (key_of <$> e :: es)) s p).
    unfold init_post in Hpost. unfold table_post. destruct (ngx_hash_wildcard_init _ _ _ _ _ _) as [[[[a s'] p']|]|]; [|done|done].
    destruct Hpost as (H1 & H2 & H3 & _ & H4 & H5 & _ & h & Hh & Hnode). split; [done|]. split; [done|]. split; [done|]. right.
    split; [lia|]. exists es'. split; [done|]. intros s'' [HL1 HL2]. apply Hnode; [|by apply HL2]. split; [done|]. auto.
Qed.

Lemma find_head_table es a s p host hs : hs ≠ [] → Forall dotless hs → host = join (reverse hs) → Forall entry_ok es →
  ((a = NULL ∧ es = []) ∨ (a ≠ NULL ∧ ∃ es', es' ≡ₚ es ∧ ∀ s'', later p s s'' → node s'' a es' 0)) →
  ∀ s'', later p s s'' → ∃ r, (if negb (a =? NULL) then ngx_hash_find_wc_head s'' a host else Some NULL) = Some r ∧
    found false es hs (λ r, r = 0 ∨ r = 0) r.
Proof.
  intros Hne Hd -> Hok [(-> & ->)|(Ha & es' & Hperm & Hnode)] s'' Hl.
  - exists NULL. split; [done|]. right. split; [|by left]. intros e He. by apply elem_of_nil in He.
  - rewrite (proj2 (Z.eqb_neq a NULL)) by done. cbn [negb]. unfold ngx_hash_find_wc_head.
    destruct (find_head_ok s'' hs a es' 0 (S (length (join (reverse hs)))) (Hnode s'' Hl)) as (r & Er & Hr);
      [by rewrite Hperm|done|done|rewrite join_reverse_length; apply join_labels_length|].
    exists r. split; [done|]. destruct Hr as [(e & He & Hm & Hv & Hmax)|[Hno Hr]]; [left|right].
    + exists e. split; [by rewrite <- Hperm|]. split; [done|]. split; [done|]. intros e' He'. apply Hmax. by rewrite Hperm.
    + split; [|done]. intros e He. apply Hno. by rewrite Hperm.
Qed.

Lemma find_tail_table es a s p host hs : hs ≠ [] → Forall dotless hs → host = join hs → Forall entry_ok es →
  Forall (λ e, trailing e = false) es →
  ((a = NULL ∧ es = []) ∨ (a ≠ NULL ∧ ∃ es', es' ≡ₚ es ∧ ∀ s'', later p s s'' → node s'' a es' 0)) →
  ∀ s'', later p s s'' → ∃ r, (if negb (a =? NULL) then ngx_hash_find_wc_tail s'' a host else Some NULL) = Some r ∧
    found true es hs (λ r, r = 0 ∨ r = 0) r.
Proof.
  intros Hne Hd -> Hok Htr [(-> & ->)|(Ha & es' & Hperm & Hnode)] s'' Hl.
  - exists NULL. split; [done|]. right. split; [|by left]. intros e He. by apply elem_of_nil in He.
  - rewrite (proj2 (Z.eqb_neq a NULL)) by done. cbn [negb]. unfold ngx_hash_find_wc_tail.
    destruct (find_tail_ok s'' hs a es' 0 (S (length (join hs))) (Hnode s'' Hl)) as (r & Er & Hr);
      [by rewrite Hperm|by rewrite Hperm|done|done|apply join_labels_length|].
    exists r. split; [done|]. destruct Hr as [(e & He & Hm & Hv & Hmax)|[Hno Hr]]; [left|right].
    + exists e. split; [by rewrite <- Hperm|]. split; [done|]. split; [done|]. intros e' He'. apply Hmax. by rewrite Hperm.
    + split; [|done]. intros e He. apply Hno. by rewrite Hperm.
Qed.

(** The exact names. *)
Lemma exact_good names : Forall (λ x, name_ok x.1) names → Forall (λ x, value_ok x.2) names →
  Forall good (omap exact_of names).
Proof.
  intros Hok Hv. rewrite list.Forall_forall in Hok. rewrite list.Forall_forall in Hv. apply list.Forall_forall. intros c Hc. apply list_elem_of_omap in Hc as ([n v] & Hnv & Hc).
  specialize (Hok _ Hnv). specialize (Hv _ Hnv). destruct n as [t|ls|ls|ls]; cbn in Hc; try done. injection Hc as <-. cbn in Hok, Hv.
  destruct Hok as (Hlen & Ht & _). destruct Hv as [Hv _]. split; cbn; [|cbn in Hlen; lia|lia].
  exists t. split; [done|]. split; [done|]. rewrite key_lc_ok. f_equal.
  clear -Ht. induction Ht as [|c t (_ & _ & H) _ IH]; [done|]. rewrite fmap_cons, H, <- IH. done.
Qed.

Lemma exact_value names host : Forall (λ x, name_ok x.1) names → Forall (λ x, value_ok x.2) names →
  let v := value_in (omap exact_of names) host in
  (v ≠ 0 ∧ (Exact host, v) ∈ names) ∨ (v = 0 ∧ none is_exact names host).
Proof.
  intros Hok Hv. unfold value_in. induction names as [|[n v] names IH]; cbn [omap list_omap].
  - right. split; [done|]. intros n v Hn. by apply elem_of_nil in Hn.
  - apply list.Forall_cons in Hok as [Hn Hok]. apply list.Forall_cons in Hv as [Hv Hvs]. specialize (IH Hok Hvs).
    assert (∀ x, (x ≠ 0 ∧ (Exact host, x) ∈ names) ∨ (x = 0 ∧ none is_exact names host) → ¬ (is_exact n ∧ name_matches n host) →
      (x ≠ 0 ∧ (Exact host, x) ∈ (n, v) :: names) ∨ (x = 0 ∧ none is_exact ((n, v) :: names) host)) as Hstep.
    { intros x [[Hx Hin]|[Hx Hno]] Hnn; [left|right]; (split; [done|]); [by right|].
      intros n' v' [E|Hin]%elem_of_cons Hk' Hm; [injection E as -> ->; by apply Hnn|by apply (Hno n' v')]. }
    destruct n as [t|ls|ls|ls]; cbn [exact_of fst snd]; [|by apply Hstep; [|intros [[] _]]..].
    assert (∀ c, key c = Some t → named host c = bool_decide (host = t)) as Hnamed.
    { intros c Hc. unfold named, name_of. rewrite Hc. f_equal. destruct Hn as (_ & Ht & _). clear -Ht. 
      assert (ngx_tolower <$> t = t) as ->; [|done]. induction Ht as [|c t (_ & _ & H) _ IH]; [done|]. rewrite fmap_cons, H. by f_equal. }
    cbn [List.find]. rewrite (Hnamed (mk_key (Some t) _ _ _) eq_refl).
    destruct (decide (host = t)) as [->|Hne].
    + rewrite bool_decide_true by done. cbn [value]. left. destruct Hv as [Hv _]. cbn in Hv. split; [lia|by left].
    + rewrite bool_decide_false by done. apply Hstep; [done|]. by intros [_ ?].
Qed.
Definition exact_post (keys : list ngx_hash_key_t) (s : store) (p : P)
    (r : option (option (option ngx_hash_t * store * P))) : Prop :=
  match r with
  | None => False
  | Some None => True
  | Some (Some (h, s', p')) => pool_ok p' ∧ extends p p' ∧ later p s s' ∧
      ∀ s'' host, later p' s' s'' →
        (match h with Some h => ngx_hash_find (elements s'') h (ngx_hash_key host) host | None => Some NULL end) =
        Some (value_in keys host)
  end.

Lemma hash_init_total' names m p null : ngx_hash_init cls hinit null names m p ≠ None.
Proof.
  destruct Hinit as (H1 & H2 & _). unfold ngx_hash_init. destruct (existsb _ _); [done|]. rewrite u64_id by lia.
  unfold first_size. assert (0 < (bucket_size hinit - 8) / 16) as Hd by zlia. rewrite (proj2 (Z.eqb_neq _ 0)) by lia.
  cbn [mbind option_bind]. destruct (find_size _ _ _ _); [|done]. destruct (ngx_palloc _ _) as [[?|] ?]; [|done].
  destruct (ngx_palloc _ _) as [[?|] ?]; [|done]. by destruct (fill _ _ _ _ _).
Qed.

Lemma exact_table_ok keys s p : Forall good keys → pool_ok p → exact_post keys s p (exact_table cls hinit keys s p).
Proof.
  intros Hg Hp. destruct keys as [|c keys].
  - cbn. split; [done|]. split; [by intros ?|]. split; [apply later_refl|done].
  - unfold exact_table. destruct (ngx_hash_init _ _ _ _ _ _) as [[b|]|] eqn:E; [|done|by apply hash_init_total' in E].
    cbn [mbind option_bind option_map exact_post].
    assert (good_names (c :: keys)) as Hgn by (unfold good_names; by rewrite live_good).
    destruct (hash_init_ok k Hk hinit false _ (elements s) p b Hgn Hinit Hp E) as (H1 & H2 & _ & _ & _ & _ & H3 & H4).
    rewrite live_good in H4 by done.
    split; [done|]. split; [done|]. split; [by split|]. intros s'' host [HL _]. by apply H4.
Qed.

(** The servers of an address with their names. *)
Definition servers_of (servers : list named_servers) : list (list ngx_http_server_name_t) := map (map sn_of) servers.

Lemma concat_sn servers : concat (servers_of servers) = sn_of <$> concat servers.
Proof. unfold servers_of. by rewrite concat_map. Qed.

Lemma head_entries_ok names : Forall (λ x, name_ok x.1) names → Forall (λ x, value_ok x.2) names → Forall entry_ok (omap head_of names).
Proof.
  intros Hok Hv. rewrite list.Forall_forall in Hok. rewrite list.Forall_forall in Hv. apply list.Forall_forall. intros e He.
  apply list_elem_of_omap in He as ([n v] & Hnv & He). by apply (head_entry_ok n v); [apply (Hok (n, v))|apply (Hv (n, v))|].
Qed.

Lemma tail_entries_ok names : Forall (λ x, name_ok x.1) names → Forall (λ x, value_ok x.2) names →
  Forall entry_ok (omap tail_of names) ∧ Forall (λ e, trailing e = false) (omap tail_of names).
Proof.
  intros Hok Hv. rewrite list.Forall_forall in Hok. rewrite list.Forall_forall in Hv.
  split; apply list.Forall_forall; intros e He; apply list_elem_of_omap in He as ([n v] & Hnv & He);
    by apply (tail_entry_ok n v e (Hok (n, v) Hnv) (Hv (n, v) Hnv)).
Qed.

Lemma head_nodup names : distinct names → NoDup (labels <$> omap head_of names).
Proof.
  intros (_ & Hd & _). apply (nodup_labels (λ ls, join (reverse ls))).
  apply (nodup_omap head_of _ (λ x, head_text x.1)); [|done].
  intros [[] v] e; unfold head_of, head_text; cbn [fst snd]; try done; intros [= <-]; cbn [labels]; by rewrite reverse_involutive.
Qed.

Lemma tail_nodup names : distinct names → NoDup (labels <$> omap tail_of names).
Proof.
  intros (_ & _ & Hd). apply (nodup_labels (λ ls, join ls ++ [dot])). apply (nodup_omap tail_of _ (λ x, tail_text x.1)); [|done].
  intros [[] v] e; cbn; try done; by intros [= <-].
Qed.

Lemma none_empty names : Forall (λ x, name_ok x.1) names → none is_head names [] ∧ none is_tail names [].
Proof.
  intros Hok. rewrite list.Forall_forall in Hok. split; intros n v Hn Hkind Hm; specialize (Hok _ Hn); cbn in Hok.
  - destruct n as [t|ls|ls|ls]; try done; destruct Hok as (_ & Hne & Hls); destruct (join_ne ls Hne (labels_of _ Hls)) as (c & x & Ex & _);
      cbn in Hm; rewrite Ex in Hm; [destruct Hm as [|[[] ?]]|destruct Hm as [[] ?]]; done.
  - destruct n as [t|ls|ls|ls]; try done. destruct Hok as (_ & Hne & Hls). destruct (join_ne ls Hne (labels_of _ Hls)) as (c & x & Ex & _).
    cbn in Hm. rewrite Ex in Hm. by destruct Hm.
Qed.

(** The searches in three tables, one after the other. *)
Lemma combined_ok names s0 s1 s2 p0 p1 p2 exact head tail s host :
  Forall (λ x, name_ok x.1) names → Forall (λ x, value_ok x.2) names →
  later p0 s0 s → later p1 s1 s → later p2 s2 s →
  (∀ s'' host, later p0 s0 s'' →
    (match exact with Some h => ngx_hash_find (elements s'') h (ngx_hash_key host) host | None => Some NULL end) =
    Some (value_in (omap exact_of names) host)) →
  ((head = NULL ∧ omap head_of names = []) ∨ (head ≠ NULL ∧ ∃ es', es' ≡ₚ omap head_of names ∧ ∀ s'', later p1 s1 s'' → node s'' head es' 0)) →
  ((tail = NULL ∧ omap tail_of names = []) ∨ (tail ≠ NULL ∧ ∃ es', es' ≡ₚ omap tail_of names ∧ ∀ s'', later p2 s2 s'' → node s'' tail es' 0)) →
  ∃ r, ngx_hash_find_combined s (mk_combined exact head tail) (ngx_hash_key host) host = Some r ∧ chosen names host r.
Proof.
  intros Hok Hv L0 L1 L2 Hex Hhead Htail. unfold ngx_hash_find_combined. cbn [Wildcard.exact wc_head wc_tail].
  rewrite (Hex s host L0). cbn [mbind option_bind].
  destruct (exact_value names host Hok Hv) as [[Hne Hin]|[E Hno]].
  { rewrite (proj2 (Z.eqb_neq _ NULL) Hne). cbn [negb]. eexists. split; [done|]. by left. }
  rewrite E. cbn [Z.eqb negb]. destruct (Nat.eqb_spec (length host) 0) as [E0|_].
  { destruct host; [|done]. exists NULL. split; [done|]. right. destruct (none_empty names Hok). split; [done|]. right. split; [done|]. by right. }
  destruct (split_labels host) as (hs & Hhs & Hd & Ehost).
  pose proof (Forall_reverse _ _ Hd) as Hd'. pose proof (reverse_ne _ Hhs) as Hhs'.
  assert (host = join (reverse (reverse hs))) as Ehost' by (by rewrite reverse_involutive).
  destruct (find_head_table _ head s1 p1 host (reverse hs) Hhs' Hd' Ehost' (head_entries_ok names Hok Hv) Hhead s L1) as (r & -> & Hr).
  cbn [mbind option_bind]. pose proof (heads_kind (reverse hs) Hhs' Hd') as Hkind. rewrite <- Ehost' in Hkind.
  apply (found_longest is_head _ _ _ _ names _ _ Hkind Hok (reflexivity _)) in Hr.
  assert (∀ kind r, longest kind names host r → r ≠ NULL) as Hnz.
  { intros kind x (n & v & Hnv & _ & _ & -> & _). rewrite list.Forall_forall in Hv. destruct (Hv _ Hnv) as [Hx _]. cbn in Hx. lia. }
  destruct Hr as [Hr|[Hnh ->]].
  { rewrite (proj2 (Z.eqb_neq r NULL)) by (by eapply Hnz). cbn [negb]. exists r. split; [done|]. right. split; [done|]. by left. }
  cbn [Z.eqb negb]. destruct (tail_entries_ok names Hok Hv) as [Ht1 Ht2].
  destruct (find_tail_table _ tail s2 p2 host hs Hhs Hd Ehost Ht1 Ht2 Htail s L2) as (r & -> & Hr).
  exists r. split; [done|]. right. split; [done|]. right. split; [done|].
  pose proof (tails_kind hs Hhs Hd) as Hkt. rewrite <- Ehost in Hkt.
  by apply (found_longest is_tail _ _ _ _ names _ _ Hkt Hok (reflexivity _)) in Hr.
Qed.

(** No name is a regular expression. *)
Lemma server_names_regexes servers s p vn s' p' :
  ngx_http_server_names cls hinit qsort (servers_of servers) s p = Some (Some (vn, s', p')) → regexes vn = [].
Proof.
  unfold ngx_http_server_names. rewrite concat_sn. intros Heq.
  repeat (case_match || (apply bind_Some in Heq as (? & ? & Heq))); try done. injection Heq as <- _ _. cbn.
  clear. induction (concat servers) as [|x names IH]; [done|]. exact IH.
Qed.

Lemma server_names_ok servers s p : let names := concat servers in
  Forall (λ x, name_ok x.1) names → Forall (λ x, value_ok x.2) names → distinct names → pool_ok p →
  match ngx_http_server_names cls hinit qsort (servers_of servers) s p with
  | None => False
  | Some None => True
  | Some (Some (vn, s', p')) => later p s s' ∧ ∀ s'' host, later p' s' s'' →
      ∃ r, ngx_hash_find_combined s'' (ServerNames.ServerNames.names vn) (ngx_hash_key host) host = Some r ∧ chosen names host r
  end.
Proof.
  intros names Hok Hv Hd Hp. unfold ngx_http_server_names. rewrite concat_sn. fold names.
  destruct (add_names_ok names (ngx_hash_keys_array_init false) [] arrays_init Hok Hd) as (ha & -> & [A1 A2 A3 _ _ _]).
  cbn [mbind option_bind app] in *.
  rewrite A1, A2, A3.
  pose proof (exact_table_ok _ s p (exact_good names Hok Hv) Hp) as Hex. unfold exact_post in Hex.
  destruct (exact_table _ _ _ s p) as [[[[ex s1] p1]|]|]; [|done|done]. cbn [mbind option_bind].
  destruct Hex as (Hp1 & He1 & Hl1 & Hfind).
  pose proof (wildcard_table_ok _ s1 p1 (head_entries_ok names Hok Hv) (head_nodup names Hd) Hp1) as Hhead. unfold table_post in Hhead.
  destruct (wildcard_table _ _ _ _ s1 p1) as [[[[head s2] p2]|]|]; [|done|done]. cbn [mbind option_bind].
  destruct Hhead as (Hp2 & He2 & Hl2 & Hhead).
  pose proof (wildcard_table_ok _ s2 p2 (proj1 (tail_entries_ok names Hok Hv)) (tail_nodup names Hd) Hp2) as Htail. unfold table_post in Htail.
  destruct (wildcard_table _ _ _ _ s2 p2) as [[[[tl s3] p3]|]|]; [|done|done]. cbn [mbind option_bind].
  destruct Htail as (Hp3 & He3 & Hl3 & Htail).
  assert (extends p1 p3) as He13 by (intros x Hx; by apply He3, He2).
  pose proof (later_trans _ _ _ _ _ He2 Hl2 Hl3) as Hl13. split; [exact (later_trans _ _ _ _ _ He1 Hl1 Hl13)|].
  intros s'' host Hl. cbn [ServerNames.ServerNames.names].
  apply (combined_ok names s1 s2 s3 p1 p2 p3); try done.
  - exact (later_trans _ _ _ _ _ He13 Hl13 Hl).
  - exact (later_trans _ _ _ _ _ He3 Hl3 Hl).
Qed.

(** C2: [ngx_http_server_names] reads nothing outside of the names, for any server
    names of an address that do not conflict: exact ones, [.example.com],
    [*.example.com] and [www.example.*].  Where it succeeds, then
    [ngx_http_find_virtual_server] gives for every host the server of the exact
    name, else of the longest wildcard at the start of a name, else of the longest
    one at the end; where none matches it leaves the default server.  And it does
    as long as nothing writes to memory that was taken. *)
Theorem virtual_server_correct regex_exec servers s p : let names := concat servers in
  Forall (λ x, name_ok x.1) names → Forall (λ x, value_ok x.2) names → distinct names → pool_ok p →
  match ngx_http_server_names cls hinit qsort (servers_of servers) s p with
  | None => False
  | Some None => True
  | Some (Some (vn, s', p')) => later p s s' ∧ ∀ s'' host, later p' s' s'' →
      ∃ r, ngx_http_find_virtual_server regex_exec s'' (virtual_names vn) host = Some r ∧
        match r with
        | Find_ok (Some cscf) => chosen names host cscf ∧ cscf ≠ NULL
        | Find_ok None | Find_declined => chosen names host NULL
        | Find_error => False
        end
  end.
Proof.
  intros names Hok Hv Hd Hp. pose proof (server_names_ok servers s p Hok Hv Hd Hp) as Hsn. fold names in Hsn.
  destruct (ngx_http_server_names _ _ _ _ _ _) as [[[[vn s'] p']|]|] eqn:E; [|done|done].
  apply server_names_regexes in E. destruct Hsn as [Hl Hfind]. split; [done|]. intros s'' host Hs''.
  destruct (Hfind s'' host Hs'') as (r & Er & Hr). unfold virtual_names. rewrite E.
  assert (∃ x, ngx_http_find_virtual_server regex_exec s'' (Some vn) host = Some x ∧
    match x with
    | Find_ok (Some cscf) => chosen names host cscf ∧ cscf ≠ NULL
    | Find_ok None | Find_declined => chosen names host NULL
    | Find_error => False
    end) as Hsome.
  { cbn [ngx_http_find_virtual_server]. rewrite Er. cbn [mbind option_bind]. destruct (Z.eqb_spec r NULL) as [->|Hne]; cbn [negb].
    - rewrite E. exists (Find_ok None). by destruct (_ =? _)%nat.
    - by exists (Find_ok (Some r)). }
  destruct (exact (ServerNames.ServerNames.names vn)) eqn:Eex; [done|].
  destruct (_ && _) eqn:E0; [|done]. exists Find_declined. split; [done|].
  apply andb_true_iff in E0 as [E1%Z.eqb_eq E2%Z.eqb_eq]. unfold ngx_hash_find_combined in Er. rewrite Eex, E1, E2 in Er. cbn in Er.
  assert (r = NULL) as -> by (by destruct (length host =? 0)%nat; injection Er). done.
Qed.
End Tables.

(** ** An example *)

(** A [qsort]: insertion. *)
Fixpoint insert (cmp : wkey → wkey → option Z) (x : wkey) (l : list wkey) : list wkey :=
  match l with
  | [] => [x]
  | y :: l => if match cmp x y with Some c => c <=? 0 | None => false end then x :: y :: l else y :: insert cmp x l
  end.
Definition isort (cmp : wkey → wkey → option Z) (l : list wkey) : list wkey := foldr (insert cmp) [] l.

Lemma insert_perm cmp x l : insert cmp x l ≡ₚ x :: l.
Proof.
  induction l as [|y l IH]; [done|]. cbn. destruct (match cmp x y with Some c => c <=? 0 | None => false end); [done|].
  rewrite IH. apply Permutation_swap.
Qed.

Lemma insert_cmp_ok cmp x l : consistent cmp (x :: l) → StronglySorted (le_of cmp) l → StronglySorted (le_of cmp) (insert cmp x l).
Proof.
  intros [Ht Htr] Hs. induction Hs as [|y l Hs IH Hall]; [repeat constructor|]. cbn.
  assert (x ∈ x :: y :: l ∧ y ∈ x :: y :: l) as [Hx Hy] by (split; [by left|right; by left]).
  destruct (Ht x y Hx Hy) as [[c Ec] Hle]. rewrite Ec.
  rewrite list.Forall_forall in Hall. destruct (Z.leb_spec c 0) as [Hc|Hc].
  - assert (le_of cmp x y) as Hxy by (by exists c). constructor; [by constructor; [|apply list.Forall_forall]|].
    apply Forall_cons_2; [done|]. apply list.Forall_forall. intros z Hz. apply (Htr x y z); auto. right. by right.
  - assert (le_of cmp y x) as Hyx by (destruct Hle as [(c' & Ec' & Hc')|]; [rewrite Ec in Ec'; injection Ec' as <-; lia|done]).
    constructor.
    + apply IH; [intros a b Ha Hb; apply Ht|intros a b d Ha Hb Hd; apply Htr]; set_solver.
    + apply list.Forall_forall. intros z Hz. rewrite insert_perm in Hz. apply elem_of_cons in Hz as [->|Hz]; auto.
Qed.

Lemma isort_sorts : sorts isort.
Proof.
  intros cmp l Hc. assert (isort cmp l ≡ₚ l) as Hp.
  { clear Hc. induction l as [|x l IH]; [done|]. cbn. by rewrite insert_perm, IH. }
  split; [done|]. clear Hp. induction l as [|x l IH]; [constructor|]. cbn.
  assert (isort cmp l ≡ₚ l) as Hp.
  { clear. induction l as [|x l IH]; [done|]. cbn. by rewrite insert_perm, IH. }
  assert (consistent cmp l) as Hc' by (destruct Hc as [H1 H2]; split; [intros a b Ha Hb; apply H1|intros a b d Ha Hb Hd; apply H2]; by right).
  apply insert_cmp_ok; [|by apply IH]. destruct Hc as [H1 H2].
  split; [intros a b Ha Hb; apply H1|intros a b d Ha Hb Hd; apply H2]; fold (isort cmp l) in *; by rewrite Hp in *.
Qed.

Definition demo_servers : list named_servers :=
  [[(Exact (bs "example.com"), 4); (Star [bs "example"; bs "com"], 8)];
   [(Dotted [bs "foo"; bs "org"], 12); (Tail [bs "www"; bs "example"], 16); (Star [bs "b"; bs "example"; bs "com"], 20)]].

Definition demo_names := ngx_http_server_names 64 (mk_init 512 64) isort (servers_of demo_servers) (mk_store ∅ ∅) (4096 : bump).

Definition server_of (host : list Z) : option find_result :=
  match demo_names with
  | Some (Some (vn, s, _)) => ngx_http_find_virtual_server (λ _ _, -5) s (virtual_names vn) host
  | _ => None
  end.

Example demo_found : server_of <$> [bs "example.com"; bs "a.example.com"; bs "a.b.example.com"; bs "foo.org"; bs "www.example.net"; bs "org"] =
  (λ v, Some (Find_ok v)) <$> [Some 4; Some 8; Some 20; Some 12; Some 16; None].
Proof. vm_compute. reflexivity. Qed.

#[local] Instance label_ok_dec l : Decision (label_ok l).
Proof. unfold label_ok, label, label_char. apply _. Defined.

Lemma demo_ok : Forall (λ x, name_ok x.1) (concat demo_servers) ∧ Forall (λ x, value_ok x.2) (concat demo_servers) ∧ distinct (concat demo_servers).
Proof.
  split; [|split].
  - unfold demo_servers. cbn [concat app]. repeat (apply Forall_cons_2); [..|apply Forall_nil_2]; cbn [fst].
    2-5: split; [cbn; lia|split; [done|apply (bool_decide_eq_true_1 _); vm_compute; reflexivity]].
    split; [cbn; lia|]. split; [apply (bool_decide_eq_true_1 _); vm_compute; reflexivity|]. split; [done|].
    intros i Hi. assert (i = 7%nat) as ->; [|done]. do 12 (destruct i as [|i]; [done|]). done.
  - unfold value_ok. apply (bool_decide_eq_true_1 _); vm_compute; reflexivity.
  - unfold distinct. repeat split; apply (bool_decide_eq_true_1 _); vm_compute; reflexivity.
Qed.

Lemma virtual_server_correct_witness :
  ∃ r, server_of (bs "a.b.example.com") = Some r ∧ match r with
    | Find_ok (Some cscf) => chosen (concat demo_servers) (bs "a.b.example.com") cscf ∧ cscf ≠ NULL
    | Find_ok None | Find_declined => chosen (concat demo_servers) (bs "a.b.example.com") NULL
    | Find_error => False
    end.
Proof.
  assert (good_init 6 (mk_init 512 64)) as Hinit by (unfold good_init; cbn; lia).
  destruct demo_ok as (Hok & Hv & Hd). assert (pool_ok (4096 : bump)) as Hp by (change (0 < 4096); lia).
  pose proof (virtual_server_correct 6 ltac:(lia) (mk_init 512 64) Hinit isort isort_sorts (λ _ _, -5) demo_servers (mk_store ∅ ∅)
    (4096 : bump) Hok Hv Hd Hp) as H.
  assert ((match demo_names with Some (Some _) => true | _ => false end) = true) as Hb by (vm_compute; reflexivity).
  change (2 ^ 6) with 64 in H. fold demo_names in H. unfold server_of. destruct demo_names as [[[[vn s'] p']|]|]; [|done|done].
  destruct H as [_ H]. apply H. apply later_refl.
Defined.

(** A name [www.example.*] that is given twice: the second is said to be ignored,
    but it is in the array, and the lengths of what remains of the two names wrap:
    the loop that looks for a dot does not end within the text. *)
Theorem duplicate_tail_overread : let twice := [(Tail [bs "www"; bs "example"], 4); (Tail [bs "www"; bs "example"], 8)] in
  (∃ ha ha', add_names (ngx_hash_keys_array_init false) (sn_of <$> take 1 twice) = Some (Some ha) ∧
     ngx_hash_add_key ha (bs "www.example.*") 8 true false = Some (Busy, ha') ∧ length (dns_wc_tail ha') = 2%nat) ∧
  ngx_http_server_names 64 (mk_init 512 64) isort (servers_of [twice]) (mk_store ∅ ∅) (4096 : bump) = None.
Proof. split; [do 2 eexists; split; [vm_compute; reflexivity|split; vm_compute; reflexivity]|vm_compute; reflexivity]. Qed.

(** ** The name in a request *)

(** What a host consists of but for its dots; a dot does not follow a dot. *)
Definition host_char (c : Z) : Prop := c ≠ dot ∧ c ≠ ":"%ch ∧ c ≠ "["%ch ∧ c ≠ "]"%ch ∧ c ≠ 0 ∧ c ≠ "/"%ch.
Definition is_upper_char (c : Z) : bool := ("A"%ch <=? c) && (c <=? "Z"%ch).

(** The position of the last dot. *)
Fixpoint last_dot (t : list Z) (i dp : Z) : Z :=
  match t with [] => dp | c :: t => last_dot t (i + 1) (if c =? dot then i else dp) end.

Lemma validate_char c h i st dp hl al : host_char c →
  validate_loop (c :: h) i st dp hl al = validate_loop h (i + 1) st dp hl (al || is_upper_char c).
Proof.
  intros (H1 & H2 & H3 & H4 & H5 & H6). cbn [validate_loop].
  rewrite !(proj2 (Z.eqb_neq c _)) by done. done.
Qed.

Lemma validate_chars t h i st dp hl al : Forall host_char t →
  validate_loop (t ++ h) i st dp hl al = validate_loop h (i + Z.of_nat (length t)) st dp hl (al || existsb is_upper_char t).
Proof.
  intros Ht. revert i al. induction Ht as [|c t Hc Ht IH]; intros i al; cbn [app length existsb].
  - by rewrite orb_false_r, Z.add_0_r.
  - rewrite validate_char, IH by done. rewrite <- orb_assoc. f_equal. lia.
Qed.

(** The labels of a host. *)
Definition host_labels (ls : list (list Z)) : Prop := ls ≠ [] ∧ Forall (λ l, l ≠ [] ∧ Forall host_char l) ls.

(** At the end of the labels the last dot is not just before. *)
Lemma validate_labels ls h i dp hl al : host_labels ls → 0 ≤ i → i + Z.of_nat (length (join ls)) < 2 ^ 63 → (dp < i ∨ i + Z.of_nat (length (join ls)) ≤ dp) →
  ∃ dp', validate_loop (join ls ++ h) i sw_usual dp hl al =
    validate_loop h (i + Z.of_nat (length (join ls))) sw_usual dp' hl (al || existsb is_upper_char (join ls)) ∧
    (dp' = dp ∨ i ≤ dp') ∧ (dp' < i + Z.of_nat (length (join ls)) - 1 ∨ dp' = dp).
Proof.
  intros [Hne Hls]. revert i dp al. induction Hls as [|l ls [Hl Hc] Hls IH]; intros i dp al Hi Hlen Hdp; [done|]. clear Hne.
  destruct ls as [|m ls].
  - change (join [l]) with l in *. exists dp. rewrite validate_chars by done. split; [done|]. split; by auto.
  - rewrite join_cons, length_app in *. cbn [length] in *. set (J := join (m :: ls)) in *.
    rewrite <- app_assoc, validate_chars by done. cbn [app validate_loop].
    assert (0 < Z.of_nat (length l)) as Hl0 by (destruct l; [done|cbn; lia]).
    assert (dp ≠ u64 (i + Z.of_nat (length l) - 1)) as Hdne by (rewrite u64_id by lia; lia).
    assert (0 < length J)%nat as HJ.
    { apply list.Forall_cons in Hls as [[Hm _] _]. destruct m as [|c m]; [done|]. unfold J. destruct ls; cbn; lia. }
    rewrite Z.eqb_refl, (proj2 (Z.eqb_neq _ _)) by done.
    destruct (IH ltac:(done) (i + Z.of_nat (length l) + 1) (i + Z.of_nat (length l)) (al || existsb is_upper_char l)) as (dp' & E & H1 & H2);
      [lia|lia|lia|]. exists dp'. rewrite E. split; [|split; [right; lia|left; lia]].
    f_equal; [lia|]. rewrite existsb_app. cbn [existsb]. by rewrite <- orb_assoc.
Qed.

Lemma lower_no_upper t : existsb is_upper_char t = false → ngx_tolower <$> t = t.
Proof.
  induction t as [|c t IH]; [done|]. cbn [existsb]. intros [Hc Ht]%orb_false_iff. rewrite fmap_cons, (IH Ht). f_equal.
  unfold ngx_tolower, is_upper. unfold is_upper_char in Hc. by rewrite Hc.
Qed.

(** [ngx_http_validate_host] gives the name in lower case for a host whose labels
    are not empty, without the dot that may follow and without a port. *)
Theorem validate_host_correct ls (final : bool) port alloc :
  let host := join ls ++ (if final then [dot] else []) ++ match port with Some port => ":"%ch :: port | None => [] end in
  host_labels ls → match port with Some port => Forall host_char port | None => True end →
  Z.of_nat (length host) < 2 ^ 63 →
  ngx_http_validate_host host alloc = Some (ngx_tolower <$> join ls).
Proof.
  intros host Hls Hport Hlen. unfold ngx_http_validate_host. set (len := Z.of_nat (length host)) in *. set (n := Z.of_nat (length (join ls))).
  assert (0 < n) as Hn.
  { destruct Hls as [Hne Hl]. destruct ls as [|l ls]; [done|]. apply list.Forall_cons in Hl as [[Hl _] _]. destruct l as [|c l]; [done|].
    unfold n. destruct ls; cbn; lia. }
  assert (n ≤ len) as Hnl by (unfold len, host, n; rewrite length_app; lia).
  destruct (validate_labels ls ((if final then [dot] else []) ++ match port with Some port => ":"%ch :: port | None => [] end)
    0 len len alloc Hls ltac:(lia) ltac:(fold n; lia) ltac:(right; fold n; lia)) as (dp & E & Hdp1 & Hdp2).
  fold host in E. rewrite E. clear E. rewrite Z.add_0_l in *. fold n in Hdp2 |- *. set (al := alloc || existsb is_upper_char (join ls)).
  assert (∀ x dp' al', (dp' = n ∧ x = n + 1) ∨ (dp' ≠ n - 1 ∧ x = n) → x ≤ len → (al' = false → existsb is_upper_char (join ls) = false) →
    (let host_len := if dp' =? u64 (x - 1) then x - 1 else x in
     let text := take (Z.to_nat host_len) host in Some (if al' : bool then ngx_tolower <$> text else text)) = Some (ngx_tolower <$> join ls)) as Hend.
  { intros x dp' al' Hx Hxl Hal. assert ((if dp' =? u64 (x - 1) then x - 1 else x) = n) as ->.
    { rewrite u64_id by lia. destruct (Z.eqb_spec dp' (x - 1)); lia. }
    cbv zeta. assert (take (Z.to_nat n) host = join ls) as -> by (unfold n, host; by rewrite Nat2Z.id, take_app_length).
    destruct al'; [done|]. by rewrite lower_no_upper by auto. }
  assert (al = false → existsb is_upper_char (join ls) = false) as Hal by (unfold al; by intros [_ ?]%orb_false_iff).
  assert (dp ≠ n - 1) as Hdpn by lia.
  destruct final; cbn [app] in *.
  - cbn [validate_loop]. rewrite Z.eqb_refl, (proj2 (Z.eqb_neq dp _)) by (rewrite u64_id by lia; lia).
    destruct port as [port|].
    + cbn [validate_loop]. rewrite (proj2 (Z.eqb_neq ":"%ch dot)) by done. rewrite Z.eqb_refl.
      rewrite <- (app_nil_r port), validate_chars by done. cbn [validate_loop mbind option_bind].
      apply Hend; [by left|unfold len, host; rewrite !length_app; cbn; lia|by intros [? _]%orb_false_iff; auto].
    + cbn [validate_loop mbind option_bind]. apply Hend; [left; split; [done|]|done|done]. unfold len, host, n. rewrite length_app. cbn. lia.
  - destruct port as [port|].
    + cbn [validate_loop]. rewrite (proj2 (Z.eqb_neq ":"%ch dot)) by done. rewrite Z.eqb_refl.
      rewrite <- (app_nil_r port), validate_chars by done. cbn [validate_loop mbind option_bind].
      apply Hend; [by right|done|by intros [? _]%orb_false_iff; auto].
    + cbn [validate_loop mbind option_bind]. apply Hend; [right; split; [done|]|done|done]. unfold len, host, n. by rewrite !app_nil_r.
Qed.

Lemma validate_host_correct_witness : ngx_http_validate_host (bs "WWW.Example.com.:8080") false = Some (bs "www.example.com").
Proof.
  apply (validate_host_correct [bs "WWW"; bs "Example"; bs "com"] true (Some (bs "8080")) false).
  - split; [done|]. repeat (apply Forall_cons_2; [split; [done|repeat (apply Forall_cons_2; [done|]); apply Forall_nil_2]|]). apply Forall_nil_2.
  - repeat (apply Forall_cons_2; [done|]). apply Forall_nil_2.
  - cbn. lia.
Defined.

End ServerNamesProof.
