(* ===== verification/Palloc.v ===== *)
(** * Pools

    src/core/ngx_palloc.c and .h, on the allocator of the C library, which is an
    interface.  A pool is a chain of blocks, a list of large allocations and a list
    of cleanups; the lists that are linked in memory are lists here, with the
    addresses of their elements and, for the cleanups, which outlive a reset of the
    pool, whether their memory was given again.  The contents of the memory, which
    [ngx_pcalloc] clears, are not modelled. *)

From stdpp Require Import gmap.
From S2P Require Import Prelude.
Open Scope Z_scope.

Module Palloc.

Abbreviation NULL := 0.

(** ** The allocator of the C library *)

(** [in_use] are the blocks with their sizes. *)
Class Heap (H : Type) := {
  malloc : H → Z → option Z * H;
  posix_memalign : H → Z → Z → option Z * H;
  free : H → Z → H;
  in_use : H → gmap Z Z;
  heap_ok : H → Prop;
  heap_apart h a n b k : heap_ok h → in_use h !! a = Some n → in_use h !! b = Some k → a ≠ b → a + n ≤ b ∨ b + k ≤ a;
  heap_range h a n : heap_ok h → in_use h !! a = Some n → 0 < a ∧ 0 ≤ n ∧ a + n < 2 ^ 63;
  malloc_new h size a h' : heap_ok h → 0 ≤ size → malloc h size = (Some a, h') →
    heap_ok h' ∧ a mod 16 = 0 ∧ in_use h !! a = None ∧ in_use h' = <[a := size]> (in_use h);
  malloc_none h size h' : heap_ok h → malloc h size = (None, h') → heap_ok h' ∧ in_use h' = in_use h;
  memalign_new h k size a h' : heap_ok h → 0 ≤ size → posix_memalign h k size = (Some a, h') →
    heap_ok h' ∧ a mod k = 0 ∧ in_use h !! a = None ∧ in_use h' = <[a := size]> (in_use h);
  memalign_none h k size h' : heap_ok h → posix_memalign h k size = (None, h') → heap_ok h' ∧ in_use h' = in_use h;
  free_used h a n : heap_ok h → in_use h !! a = Some n → heap_ok (free h a) ∧ in_use (free h a) = delete a (in_use h);
}.

(** [ngx_free]: to free what is not in use is not defined; NULL is ignored. *)
Definition ngx_free `{Heap H} (h : H) (a : Z) : option H :=
  if a =? NULL then Some h else match in_use h !! a with Some _ => Some (free h a) | None => None end.

(** ** Data *)

(** [ngx_pool_data_t] of the block at [addr]; the next one is the next in the list. *)
Record block := mk_block { addr : Z; last : Z; end_ : Z; failed : Z }.

(** [ngx_pool_large_t] *)
Record ngx_pool_large_t := mk_large { large_at : Z; alloc : Z }.

(** The memory of an element of the list of cleanups, which [ngx_reset_pool]
    keeps: [Held] as it was allocated; [Released] when the pool was reset, so that
    it may be given again, but was not; [Lost] when it was given again, to a
    caller who writes to it, or was freed. *)
Inductive element_memory := Held | Released | Lost.

(** [ngx_pool_cleanup_t], and the state of its memory. *)
Record ngx_pool_cleanup_t := mk_cleanup { cleanup_at : Z; handler : Z; cleanup_data : Z; memory : element_memory }.

(** [ngx_pool_t] with its chain, the position of [current] in it, and the heap. *)
Record ngx_pool_t (H : Type) := mk_pool {
  chain : list block;
  max : Z;
  current : nat;
  large : list ngx_pool_large_t;
  cleanup : list ngx_pool_cleanup_t;
  heap : H;
}.
#[global] Arguments mk_pool {H}.
#[global] Arguments chain {H}.
#[global] Arguments max {H}.
#[global] Arguments current {H}.
#[global] Arguments large {H}.
#[global] Arguments cleanup {H}.
#[global] Arguments heap {H}.

Abbreviation NGX_POOL_ALIGNMENT := 16.
Abbreviation NGX_ALIGNMENT := 8.
Abbreviation sizeof_pool := 80.
Abbreviation sizeof_pool_data := 32.
Abbreviation sizeof_large := 16.
Abbreviation sizeof_cleanup := 24.

(** [ngx_align_ptr(p, NGX_ALIGNMENT)] *)
Definition align_ptr (p : Z) : Z := Z.land (p + (NGX_ALIGNMENT - 1)) (Z.lnot (NGX_ALIGNMENT - 1)).

Section Pools.
Context `{Heap H} (ngx_pagesize : Z).

Definition NGX_MAX_ALLOC_FROM_POOL : Z := ngx_pagesize - 1.

Definition set_heap (p : ngx_pool_t H) (h : H) : ngx_pool_t H :=
  mk_pool (chain p) (max p) (current p) (large p) (cleanup p) h.

Definition ngx_create_pool (size : Z) (h : H) : option (ngx_pool_t H) * H :=
  match posix_memalign h NGX_POOL_ALIGNMENT size with
  | (None, h) => (None, h)
  | (Some p, h) =>
      let rest := u64 (size - sizeof_pool) in
      let max := if rest <? NGX_MAX_ALLOC_FROM_POOL then rest else NGX_MAX_ALLOC_FROM_POOL in
      (Some (mk_pool [mk_block p (p + sizeof_pool) (p + size) 0] max 0 [] [] h), h)
  end.

(** ** Small allocations *)

(** The walk along the chain: the first block with enough space. *)
Fixpoint find_block (align : bool) (size : Z) (bs : list block) : option (Z * list block) :=
  match bs with
  | [] => None
  | b :: bs =>
      let m := if align then align_ptr (last b) else last b in
      if size <=? u64 (end_ b - m) then Some (m, mk_block (addr b) (m + size) (end_ b) (failed b) :: bs)
      else '(m, bs) ← find_block align size bs; Some (m, b :: bs)
  end.

(** [size] bytes at [m] are given: the released elements that overlap them are lost. *)
Definition overwrite (m size : Z) (c : ngx_pool_cleanup_t) : ngx_pool_cleanup_t :=
  match memory c with
  | Released =>
      if (m <? cleanup_at c + sizeof_cleanup) && (cleanup_at c <? m + size)
      then mk_cleanup (cleanup_at c) (handler c) (cleanup_data c) Lost else c
  | _ => c
  end.

(** The blocks from [p] on, the [i]th, all but the last of which failed once more;
    and [current]. *)
Fixpoint count_failed (bs : list block) (i cur : nat) : list block * nat :=
  match bs with
  | [] | [_] => (bs, cur)
  | b :: bs =>
      let '(bs, cur) := count_failed bs (S i) (if 4 <? failed b then S i else cur) in
      (mk_block (addr b) (last b) (end_ b) (failed b + 1) :: bs, cur)
  end.

Definition ngx_palloc_block (p : ngx_pool_t H) (size : Z) : option Z * ngx_pool_t H :=
  let psize := match chain p with b :: _ => u64 (end_ b - addr b) | [] => 0 end in
  match posix_memalign (heap p) NGX_POOL_ALIGNMENT psize with
  | (None, h) => (None, set_heap p h)
  | (Some a, h) =>
      let m := align_ptr (a + sizeof_pool_data) in
      let '(bs, cur) := count_failed (drop (current p) (chain p)) (current p) (current p) in
      (Some m, mk_pool (take (current p) (chain p) ++ bs ++ [mk_block a (m + size) (a + psize) 0]) (max p) cur
                 (large p) (cleanup p) h)
  end.

Definition palloc_small (align : bool) (p : ngx_pool_t H) (size : Z) : option Z * ngx_pool_t H :=
  match find_block align size (drop (current p) (chain p)) with
  | Some (m, bs) =>
      (Some m, mk_pool (take (current p) (chain p) ++ bs) (max p) (current p) (large p)
                 (overwrite m size <$> cleanup p) (heap p))
  | None => ngx_palloc_block p size
  end.

(** ** Large allocations *)

(** The first of the first five elements whose allocation was freed. *)
Fixpoint reuse_large (ls : list ngx_pool_large_t) (n : nat) (a : Z) : option (list ngx_pool_large_t) :=
  match ls with
  | [] => None
  | l :: ls =>
      if alloc l =? NULL then Some (mk_large (large_at l) a :: ls)
      else if (3 <? n)%nat then None
      else cons l <$> reuse_large ls (S n) a
  end.

(** [large] at the front of the list. *)
Definition push_large (p : ngx_pool_t H) (at_ a : Z) : ngx_pool_t H :=
  mk_pool (chain p) (max p) (current p) (mk_large at_ a :: large p) (cleanup p) (heap p).

(** [None] is a free that is not defined, or no end of the recursion: an element of
    the list of large allocations is allocated from the pool, too. *)
Fixpoint palloc_fuel (fuel : nat) (align : bool) (p : ngx_pool_t H) (size : Z) : option (option Z * ngx_pool_t H) :=
  match fuel with
  | O => None
  | S fuel =>
      if size <=? max p then Some (palloc_small align p size)
      else
        match malloc (heap p) size with
        | (None, h) => Some (None, set_heap p h)
        | (Some a, h) =>
            let p := set_heap p h in
            match reuse_large (large p) 0 a with
            | Some ls => Some (Some a, mk_pool (chain p) (max p) (current p) ls (cleanup p) (heap p))
            | None =>
                '(r, p) ← palloc_fuel fuel true p sizeof_large;
                match r with
                | None => h ← ngx_free (heap p) a; Some (None, set_heap p h)
                | Some l => Some (Some a, push_large p l a)
                end
            end
        end
  end.

Definition ngx_palloc (p : ngx_pool_t H) (size : Z) : option (option Z * ngx_pool_t H) := palloc_fuel 2 true p size.
Definition ngx_pnalloc (p : ngx_pool_t H) (size : Z) : option (option Z * ngx_pool_t H) := palloc_fuel 2 false p size.
Definition ngx_pcalloc (p : ngx_pool_t H) (size : Z) : option (option Z * ngx_pool_t H) := ngx_palloc p size.

Definition ngx_pmemalign (p : ngx_pool_t H) (size alignment : Z) : option (option Z * ngx_pool_t H) :=
  match posix_memalign (heap p) alignment size with
  | (None, h) => Some (None, set_heap p h)
  | (Some a, h) =>
      '(r, p) ← ngx_palloc (set_heap p h) sizeof_large;
      match r with
      | None => h ← ngx_free (heap p) a; Some (None, set_heap p h)
      | Some l => Some (Some a, push_large p l a)
      end
  end.

(** The loop of [ngx_pfree]: the element of the allocation is marked as free. *)
Fixpoint pfree_loop (ls : list ngx_pool_large_t) (a : Z) : option (list ngx_pool_large_t) :=
  match ls with
  | [] => None
  | l :: ls => if a =? alloc l then Some (mk_large (large_at l) NULL :: ls) else cons l <$> pfree_loop ls a
  end.

(** Whether the allocation was found: [NGX_OK], or [NGX_DECLINED]. *)
Definition ngx_pfree (p : ngx_pool_t H) (a : Z) : option (bool * ngx_pool_t H) :=
  match pfree_loop (large p) a with
  | None => Some (false, p)
  | Some ls => h ← ngx_free (heap p) a; Some (true, mk_pool (chain p) (max p) (current p) ls (cleanup p) h)
  end.

(** ** The whole pool *)

Fixpoint free_all (h : H) (as_ : list Z) : option H :=
  match as_ with
  | [] => Some h
  | a :: as_ => h ← (if a =? NULL then Some h else ngx_free h a); free_all h as_
  end.

(** [for (c = pool->cleanup; c; c = c->next)]: the calls of the handlers; [None]
    when it comes to an element that is lost, which has neither a handler nor a
    next element any more. *)
Fixpoint run_handlers (cs : list ngx_pool_cleanup_t) : option (list (Z * Z)) :=
  match cs with
  | [] => Some []
  | c :: cs =>
      match memory c with
      | Lost => None
      | _ =>
          calls ← run_handlers cs;
          Some (if handler c =? NULL then calls else (handler c, cleanup_data c) :: calls)
      end
  end.

(** The calls of the cleanup handlers, and the heap. *)
Definition ngx_destroy_pool (p : ngx_pool_t H) : option (list (Z * Z) * H) :=
  calls ← run_handlers (cleanup p);
  h ← free_all (heap p) (alloc <$> large p);
  h ← free_all h (addr <$> chain p);
  Some (calls, h).

(** The memory of an element after a reset: in the blocks, or in a large allocation
    that is freed. *)
Definition release (bs : list block) (c : ngx_pool_cleanup_t) : ngx_pool_cleanup_t :=
  mk_cleanup (cleanup_at c) (handler c) (cleanup_data c)
    match memory c with
    | Lost => Lost
    | _ => if existsb (λ b, (addr b <=? cleanup_at c) && (cleanup_at c <? end_ b)) bs then Released else Lost
    end.

Definition ngx_reset_pool (p : ngx_pool_t H) : option (ngx_pool_t H) :=
  h ← free_all (heap p) (alloc <$> large p);
  Some (mk_pool ((λ b, mk_block (addr b) (addr b + sizeof_pool) (end_ b) (failed b)) <$> chain p) (max p) (current p)
          [] (release (chain p) <$> cleanup p) h).

(** The address of the new cleanup. *)
Definition ngx_pool_cleanup_add (p : ngx_pool_t H) (size : Z) : option (option Z * ngx_pool_t H) :=
  '(c, p) ← ngx_palloc p sizeof_cleanup;
  match c with
  | None => Some (None, p)
  | Some c =>
      '(data, p) ← (if negb (size =? 0) then ngx_palloc p size else Some (Some NULL, p));
      match data with
      | None => Some (None, p)
      | Some data => Some (Some c, mk_pool (chain p) (max p) (current p) (large p)
                         (mk_cleanup c NULL data Held :: cleanup p) (heap p))
      end
  end.

(** [ngx_pool_run_cleanup_file]: [file] is [ngx_pool_cleanup_file], and [fd_of] reads
    the descriptor in the data of a cleanup.  The call that is made, if any; [None]
    when an element is lost. *)
Fixpoint run_cleanup (file : Z) (fd_of : Z → Z) (fd : Z) (cs : list ngx_pool_cleanup_t) :
    option (option Z * list ngx_pool_cleanup_t) :=
  match cs with
  | [] => Some (None, [])
  | c :: cs =>
      match memory c with
      | Lost => None
      | _ =>
          if (handler c =? file) && (fd_of (cleanup_data c) =? fd) then
            Some (Some (cleanup_data c), mk_cleanup (cleanup_at c) NULL (cleanup_data c) (memory c) :: cs)
          else '(r, cs) ← run_cleanup file fd_of fd cs; Some (r, c :: cs)
      end
  end.

Definition ngx_pool_run_cleanup_file (file : Z) (fd_of : Z → Z) (p : ngx_pool_t H) (fd : Z) :
    option (option Z * ngx_pool_t H) :=
  '(r, cs) ← run_cleanup file fd_of fd (cleanup p);
  Some (r, mk_pool (chain p) (max p) (current p) (large p) cs (heap p)).
End Pools.

End Palloc.
