(* ===== verification/PallocProof.v ===== *)
(** * What a pool gives

    Every allocation is new memory of the pool, aligned, and the blocks and large
    allocations of the pool are the ones that are freed with it. *)

From Stdlib Require Import ZifyNat.
From stdpp Require Import gmap.
From S2P Require Import Prelude Pool Palloc.
Import Palloc.Palloc.
Open Scope Z_scope.

Module PallocProof.

Lemma align_ptr_div p : align_ptr p = (p + 7) / 8 * 8.
Proof.
  unfold align_ptr. change (8 - 1) with (Z.ones 3). rewrite <- Z.ldiff_land, Z.ldiff_ones_r by lia.
  by rewrite Z.shiftl_mul_pow2, Z.shiftr_div_pow2 by lia.
Qed.

Lemma align_ptr_bounds p : p ≤ align_ptr p < p + 8 ∧ align_ptr p mod 8 = 0.
Proof. rewrite align_ptr_div. zlia. Qed.

Section Proof.
Context `{Heap H}.

(** ** The state of a pool *)

(** The blocks of the chain, all of them of the size [psize]. *)
Definition block_ok (psize : Z) (h : H) (b : block) : Prop :=
  in_use h !! addr b = Some psize ∧ end_ b = addr b + psize ∧ addr b + 32 ≤ last b ≤ end_ b ∧ addr b mod 16 = 0.

Definition chain_ok (psize : Z) (h : H) (ch : list block) : Prop := Forall (block_ok psize h) ch ∧ NoDup (addr <$> ch).

Definition live (p : ngx_pool_t H) : list Z := filter (λ a, a ≠ NULL) (alloc <$> large p).

Record pool_inv (psize : Z) (p : ngx_pool_t H) : Prop := {
  inv_heap : heap_ok (heap p);
  inv_size : 16 ≤ max p ∧ max p + 80 ≤ psize ∧ psize mod 8 = 0;
  inv_chain : chain_ok psize (heap p) (chain p);
  inv_current : (current p < length (chain p))%nat;
  inv_large : Forall (λ a, is_Some (in_use (heap p) !! a)) (live p);
  inv_nodup : NoDup (live p);
  inv_apart : ∀ a, a ∈ live p → a ∉ addr <$> chain p;
}.

(** What the pool frees in the end. *)
Definition owned (p : ngx_pool_t H) : list Z := (addr <$> chain p) ++ live p.

(** Memory that is in use: what was given from the blocks of the chain, and all the
    other blocks of the heap. *)
Definition taken (h : H) (ch : list block) (x : Z) : Prop :=
  ∃ a n, in_use h !! a = Some n ∧ a ≤ x < a + n ∧ ∀ b, b ∈ ch → addr b = a → x < last b.

(** The blocks of the heap that are not the pool's. *)
Definition same_others (p p' : ngx_pool_t H) : Prop :=
  ∀ k v, (in_use (heap p) !! k = Some v ∧ k ∉ owned p) ↔ (in_use (heap p') !! k = Some v ∧ k ∉ owned p').

Definition taken_in (p : ngx_pool_t H) : Z → Prop := taken (heap p) (chain p).

(** What every allocation promises. *)
Definition alloc_post (psize : Z) (p : ngx_pool_t H) (size : Z) (r : option Z) (p' : ngx_pool_t H) : Prop :=
  pool_inv psize p' ∧ same_others p p' ∧ (∀ x, taken_in p x → taken_in p' x) ∧
  match r with None => True | Some m => 0 < m ∧ ∀ x, m ≤ x < m + size → ¬ taken_in p x ∧ taken_in p' x end.


Lemma block_addr ch b b' : NoDup (addr <$> ch) → b ∈ ch → b' ∈ ch → addr b = addr b' → b = b'.
Proof.
  intros Hn Hb Hb' E. induction ch as [|c ch IH]; [by apply elem_of_nil in Hb|]. rewrite fmap_cons in Hn.
  apply list.NoDup_cons in Hn as [Hc Hn]. apply elem_of_cons in Hb as [->|Hb], Hb' as [->|Hb']; try done.
  - exfalso. apply Hc. rewrite E. by apply list_elem_of_fmap_2.
  - exfalso. apply Hc. rewrite <- E. by apply list_elem_of_fmap_2.
  - by apply IH.
Qed.

(** *** Blocks that differ only in how often they failed *)

Definition same (b b' : block) : Prop := addr b = addr b' ∧ last b = last b' ∧ end_ b = end_ b'.

Lemma same_refl ch : Forall2 same ch ch.
Proof. induction ch; by constructor. Qed.

Lemma same_addrs ch ch' : Forall2 same ch ch' → addr <$> ch = addr <$> ch'.
Proof. induction 1 as [|b b' ch ch' (E & _) _ IH]; [done|]. rewrite !fmap_cons. by f_equal. Qed.

Lemma same_chain psize h ch ch' : Forall2 same ch ch' → chain_ok psize h ch → chain_ok psize h ch'.
Proof.
  intros Hs [Hb Hn]. split; [|by rewrite <- (same_addrs ch ch')]. clear Hn.
  induction Hs as [|b b' ch ch' (E1 & E2 & E3) _ IH]; [apply Forall_nil_2|]. apply list.Forall_cons in Hb as [Hb Hbs].
  apply Forall_cons_2; [|by apply IH]. unfold block_ok in *. by rewrite <- E1, <- E2, <- E3.
Qed.

Lemma same_elem ch ch' b' : Forall2 same ch ch' → b' ∈ ch' → ∃ b, b ∈ ch ∧ same b b'.
Proof.
  induction 1 as [|b c ch ch' Hs _ IH]; intros Hb; [by apply elem_of_nil in Hb|].
  apply elem_of_cons in Hb as [->|Hb]; [exists b; split; [by left|done]|]. destruct (IH Hb) as (b0 & H1 & H2). exists b0. split; [by right|done].
Qed.

Lemma same_taken h ch ch' x : Forall2 same ch ch' → taken h ch x → taken h ch' x.
Proof.
  intros Hs (a & n & H1 & H2 & H3). exists a, n. split; [done|]. split; [done|]. intros b' Hb' E.
  destruct (same_elem ch ch' b' Hs Hb') as (b & Hb & E1 & E2 & _). rewrite <- E2. apply H3; [done|congruence].
Qed.

Lemma same_sym ch ch' : Forall2 same ch ch' → Forall2 same ch' ch.
Proof. induction 1 as [|b b' ch ch' (E1 & E2 & E3) _ IH]; constructor; [by repeat split|done]. Qed.

(** *** A block of which more is given *)

Lemma chain_grow psize h pre b post l : heap_ok h → chain_ok psize h (pre ++ b :: post) → last b ≤ l ≤ end_ b →
  let ch' := pre ++ mk_block (addr b) l (end_ b) (failed b) :: post in
  chain_ok psize h ch' ∧ addr <$> ch' = addr <$> (pre ++ b :: post) ∧
  (∀ x, taken h (pre ++ b :: post) x → taken h ch' x) ∧
  ∀ x, last b ≤ x < l → ¬ taken h (pre ++ b :: post) x ∧ taken h ch' x.
Proof.
  intros Hh [Hb Hn] Hl ch'. assert (addr <$> ch' = addr <$> (pre ++ b :: post)) as Ea by (unfold ch'; by rewrite !fmap_app, !fmap_cons).
  pose proof Hb as Hb0. apply Forall_app in Hb as [Hpre Hb]. apply list.Forall_cons in Hb as [(B1 & B2 & B3 & B4) Hpost].
  assert (b ∈ pre ++ b :: post) as Hin by (rewrite elem_of_app, elem_of_cons; auto).
  assert (chain_ok psize h ch') as Hok.
  { split; [|by rewrite Ea]. apply Forall_app_2; [done|]. apply Forall_cons_2; [|done]. split; [done|]. cbn. split; [done|]. split; [lia|done]. }
  assert (∀ c, c ∈ ch' → c = mk_block (addr b) l (end_ b) (failed b) ∨ c ∈ pre ++ b :: post) as Hc.
  { intros c. unfold ch'. rewrite !elem_of_app, !elem_of_cons. tauto. }
  split; [done|]. split; [done|]. split.
  - intros x (a & n & H1 & H2 & H3). exists a, n. split; [done|]. split; [done|]. intros c Hcin E.
    destruct (Hc c Hcin) as [->|Hcin']; [|by apply H3]. cbn in *. specialize (H3 b Hin E). lia.
  - intros x Hx. split.
    + intros (a & n & H1 & H2 & H3). destruct (decide (a = addr b)) as [->|Hne]; [specialize (H3 b Hin eq_refl); lia|].
      destruct (heap_apart h a n (addr b) psize Hh H1 B1 Hne); lia.
    + exists (addr b), psize. split; [done|]. split; [lia|]. intros c Hcin E. destruct (Hc c Hcin) as [->|Hcin']; [cbn; lia|].
      assert (c = mk_block (addr b) l (end_ b) (failed b)) as ->; [|cbn; lia].
      apply (block_addr ch'); [by destruct Hok|done|unfold ch'; rewrite elem_of_app, elem_of_cons; auto|done].
Qed.

(** *** A new block of the heap *)

Lemma taken_new h h' ch a n : heap_ok h' → in_use h !! a = None → in_use h' = <[a := n]> (in_use h) →
  (∀ x, taken h ch x → taken h' ch x) ∧
  ((∀ b, b ∈ ch → addr b ≠ a) → ∀ x, a ≤ x < a + n → ¬ taken h ch x ∧ taken h' ch x).
Proof.
  intros Hh' Hn E. split.
  - intros x (c & k & H1 & H2 & H3). exists c, k. split; [|done]. rewrite E, lookup_insert_ne; [done|]. by intros ->; rewrite Hn in H1.
  - intros Hch x Hx. split.
    + intros (c & k & H1 & H2 & H3). assert (c ≠ a) as Hne by (by intros ->; rewrite Hn in H1).
      destruct (heap_apart h' c k a n Hh'); [by rewrite E, lookup_insert_ne|by rewrite E, lookup_insert_eq|done|lia|lia].
    + exists a, n. split; [by rewrite E, lookup_insert_eq|]. split; [done|]. intros b Hb Eb. by destruct (Hch b Hb).
Qed.

Lemma chain_new psize h h' ch a n : in_use h !! a = None → in_use h' = <[a := n]> (in_use h) → chain_ok psize h ch → chain_ok psize h' ch.
Proof.
  intros Hn E [Hb Hd]. split; [|done]. eapply List.Forall_impl; [|exact Hb]. intros b (B1 & B2). split; [|done].
  rewrite E, lookup_insert_ne; [done|]. intros ->. by rewrite Hn in B1.
Qed.

Lemma large_new h h' ls a n : in_use h !! a = None → in_use h' = <[a := n]> (in_use h) →
  Forall (λ a, is_Some (in_use h !! a)) ls → Forall (λ a, is_Some (in_use h' !! a)) ls.
Proof.
  intros Hn E Hl. eapply List.Forall_impl; [|exact Hl]. intros c Hc. cbn. rewrite E. destruct (decide (c = a)) as [->|Hne];
    [rewrite lookup_insert_eq; by eexists|by rewrite lookup_insert_ne].
Qed.

(** ** Small allocations *)

Lemma find_block_ok al size psize h bs m bs' : psize mod 8 = 0 → heap_ok h → Forall (block_ok psize h) bs → 0 ≤ size →
  find_block al size bs = Some (m, bs') → ∃ pre b post, bs = pre ++ b :: post ∧
    bs' = pre ++ mk_block (addr b) (m + size) (end_ b) (failed b) :: post ∧ last b ≤ m ∧ m + size ≤ end_ b ∧ 0 < m ∧
    (al = true → m mod 8 = 0).
Proof.
  intros Hp8 Hh Hbs Hsize. revert m bs'. induction Hbs as [|b bs (B1 & B2 & B3 & B4) Hbs IH]; intros m bs'; cbn [find_block]; [done|].
  destruct (heap_range h _ _ Hh B1) as (R1 & R2 & R3).
  set (m0 := if al then align_ptr (last b) else last b).
  assert (last b ≤ m0 ≤ end_ b ∧ (al = true → m0 mod 8 = 0)) as [Hm0 Hal].
  { unfold m0. destruct al; [|split; [lia|done]]. pose proof (align_ptr_bounds (last b)). rewrite align_ptr_div in *. split; [zlia|intros _; zlia]. }
  rewrite u64_id by lia. destruct (Z.leb_spec size (end_ b - m0)) as [Hle|_].
  - intros [= <- <-]. exists [], b, bs. repeat split; auto; lia.
  - destruct (find_block al size bs) as [[m1 bs1]|]; [|done]. cbn. intros [= <- <-].
    destruct (IH _ _ eq_refl) as (pre & b' & post & -> & -> & Hrest). by exists (b :: pre), b', post.
Qed.

Lemma count_failed_ok bs : ∀ i cur bs' cur', count_failed bs i cur = (bs', cur') →
  Forall2 same bs bs' ∧ (cur' = cur ∨ (cur' < i + length bs)%nat).
Proof.
  induction bs as [|b bs IH]; intros i cur bs' cur'; cbn [count_failed]; [intros [= <- <-]; by split; [constructor|left]|].
  destruct bs as [|c bs]; [intros [= <- <-]; split; [apply same_refl|by left]|].
  destruct (count_failed (c :: bs) (S i) _) as [bs1 cur1] eqn:E. intros [= <- <-].
  destruct (IH _ _ _ _ E) as [Hs Hcur]. split; [constructor; [by repeat split|done]|]. cbn [length] in *. 
  destruct Hcur as [-> | ?]; [|right; lia]. destruct (4 <? failed b); [right; lia|by left].
Qed.

Lemma same_grow p p' : (∀ a, a ∈ addr <$> chain p' ↔ a ∈ addr <$> chain p) → live p' = live p → heap p' = heap p → same_others p p'.
Proof. intros Ea El Eh k v. unfold owned. rewrite Eh, !elem_of_app, El, Ea. done. Qed.

(** A state with the same large allocations. *)
Lemma inv_small psize p ch cur cs h : pool_inv psize p → heap_ok h → chain_ok psize h ch → (cur < length ch)%nat →
  Forall (λ a, is_Some (in_use h !! a)) (live p) → (∀ a, a ∈ live p → a ∉ addr <$> ch) →
  pool_inv psize (mk_pool ch (max p) cur (large p) cs h).
Proof. intros [I1 I2 I3 I4 I5 I6 I7] Hh Hc Hcur Hl Ha. by split. Qed.

Lemma palloc_block_ok psize p size r p' : pool_inv psize p → 0 ≤ size ≤ max p → ngx_palloc_block p size = (r, p') →
  alloc_post psize p size r p' ∧ (∀ m, r = Some m → m mod 8 = 0) ∧ max p' = max p.
Proof.
  intros I Hsize E. pose proof I as [I1 I2 I3 I4 I5 I6 I7]. unfold ngx_palloc_block in E.
  destruct (chain p) as [|b0 bs0] eqn:Ech; [cbn in I4; lia|]. rewrite <- Ech in *.
  assert (end_ b0 - addr b0 = psize) as Eps.
  { destruct I3 as [I3 _]. rewrite Ech in I3. apply list.Forall_cons in I3 as [(_ & B2 & _) _]. lia. }
  assert (∃ k, in_use (heap p) !! k = Some psize) as [k0 Hk0].
  { destruct I3 as [I3 _]. rewrite Ech in I3. apply list.Forall_cons in I3 as [(B1 & _) _]. by exists (addr b0). }
  destruct (heap_range _ _ _ I1 Hk0) as (R1 & R2 & R3). rewrite Eps, u64_id in E by lia.
  destruct (posix_memalign (heap p) 16 psize) as [[a|] h] eqn:Em.
  - destruct (memalign_new _ _ _ _ _ I1 R2 Em) as (N1 & N2 & N3 & N4).
    assert (in_use h !! a = Some psize) as Ha by (rewrite N4; apply lookup_insert_eq).
    destruct (heap_range _ _ _ N1 Ha) as (Q1 & Q2 & Q3).
    destruct (count_failed _ _ _) as [bs cur] eqn:Ec. injection E as <- <-. destruct (count_failed_ok _ _ _ _ _ Ec) as [Hs Hcur].
    set (m := align_ptr (a + 32)). assert (m = a + 32) as Hm by (unfold m; rewrite align_ptr_div; zlia).
    set (new := mk_block a (m + size) (a + psize) 0). set (ch1 := take (current p) (chain p) ++ bs).
    assert (Forall2 same (chain p) ch1) as Hs1.
    { unfold ch1. rewrite <- (firstn_skipn (current p) (chain p)) at 1. apply Forall2_app; [apply same_refl|done]. }
    assert (take (current p) (chain p) ++ bs ++ [new] = ch1 ++ [new]) as -> by (unfold ch1; by rewrite <- app_assoc).
    assert (addr <$> (ch1 ++ [new]) = (addr <$> chain p) ++ [a]) as Eaddr by (by rewrite fmap_app, <- (same_addrs _ _ Hs1)).
    assert (a ∉ addr <$> chain p) as Hna.
    { intros (b & Eb & Hb)%list_elem_of_fmap. destruct I3 as [I3 _]. rewrite list.Forall_forall in I3. destruct (I3 b Hb) as (B1 & _).
      rewrite <- Eb, N3 in B1. done. }
    assert (chain_ok psize h (ch1 ++ [new])) as Hch.
    { destruct (same_chain _ _ _ _ Hs1 (chain_new psize _ _ _ _ _ N3 N4 I3)) as [C1 C2]. split.
      - apply Forall_app_2; [done|]. apply Forall_cons_2; [|apply Forall_nil_2]. split; [done|]. cbn. split; [done|]. split; [lia|zlia].
      - rewrite Eaddr. apply list.NoDup_app. split; [by destruct I3|]. split; [|apply NoDup_singleton].
        intros x Hx ->%list_elem_of_singleton. done. }
    assert (∀ x, taken (heap p) (chain p) x → taken h (ch1 ++ [new]) x) as Hkeep.
    { intros x (c & n & H1 & H2 & H3). assert (c ≠ a) as Hne by (by intros ->; rewrite N3 in H1).
      exists c, n. split; [by rewrite N4, lookup_insert_ne|]. split; [done|]. intros b Hb Eb.
      apply elem_of_app in Hb as [Hb| ->%list_elem_of_singleton]; [|cbn in Eb; congruence].
      destruct (same_elem _ _ _ Hs1 Hb) as (b1 & Hb1 & S1 & S2 & _). rewrite <- S2. apply H3; [done|congruence]. }
    split; [|split; [intros ? [= <-]; zlia|done]]. split; [|split; [|split; [done|]]].
    + apply inv_small; [done|done|done| |by eapply large_new| ].
      * rewrite length_app. cbn [length]. assert (length ch1 = length (chain p)) as -> by (symmetry; by apply List.Forall2_length in Hs1).
        destruct Hcur as [-> | Hcur]; [lia|]. rewrite length_drop in Hcur. lia.
      * intros c Hc. rewrite Eaddr, not_elem_of_app, list_elem_of_singleton. split; [by apply I7|]. intros ->.
        rewrite list.Forall_forall in I5. destruct (I5 a Hc) as [? E0]. by rewrite N3 in E0.
    + intros k v. unfold owned. cbn [chain heap live]. change (live (mk_pool _ _ _ (large p) _ _)) with (live p).
      rewrite Eaddr, N4, !elem_of_app, list_elem_of_singleton. destruct (decide (k = a)) as [->|Hne].
      * rewrite lookup_insert_eq, N3. split; [by intros [? _]|]. intros [_ Hno]. exfalso. apply Hno. auto.
      * rewrite lookup_insert_ne by done. tauto.
    + split; [lia|]. intros x Hx. split.
      * apply (taken_new (heap p) h (chain p) a psize N1 N3 N4); [|lia]. intros b Hb Eb. apply Hna. rewrite <- Eb. by apply list_elem_of_fmap_2.
      * exists a, psize. split; [done|]. split; [lia|]. intros b Hb Eb.
        assert (b = new) as ->; [|cbn; lia]. apply (block_addr (ch1 ++ [new])); [by destruct Hch|done|rewrite elem_of_app; right; by left|done].
  - injection E as <- <-. destruct (memalign_none _ _ _ _ I1 Em) as [N1 N2]. split; [|split; [done|done]].
    assert (chain_ok psize h (chain p)) as Hc.
    { destruct I3 as [C1 C2]. split; [|done]. eapply List.Forall_impl; [|exact C1]. intros b. unfold block_ok. by rewrite N2. }
    split; [|split; [|split; [|done]]].
    + apply inv_small; [done|done|done|done|by rewrite N2|done].
    + intros k v. unfold owned. cbn. by rewrite N2.
    + intros x (c & n & H1 & H2). exists c, n. cbn. by rewrite N2.
Qed.

Lemma palloc_small_ok al psize p size r p' : pool_inv psize p → 0 ≤ size ≤ max p → palloc_small al p size = (r, p') →
  alloc_post psize p size r p' ∧ (∀ m, r = Some m → al = true → m mod 8 = 0) ∧ max p' = max p.
Proof.
  intros I Hsize E. unfold palloc_small in E. destruct (find_block _ _ _) as [[m bs]|] eqn:Ef.
  2:{ destruct (palloc_block_ok psize p size r p' I Hsize E) as (H1 & H2 & H3). split; [done|]. split; [|done]. intros. by apply H2. }
  injection E as <- <-. pose proof I as [I1 I2 I3 I4 I5 I6 I7]. destruct I3 as [C1 C2].
  assert (Forall (block_ok psize (heap p)) (drop (current p) (chain p))) as Hd.
  { rewrite <- (firstn_skipn (current p) (chain p)) in C1. by apply Forall_app in C1 as [_ C1]. }
  destruct (find_block_ok al size psize (heap p) _ m bs ltac:(tauto) I1 Hd ltac:(lia) Ef) as (pre & b & post & Edrop & -> & F1 & F2 & F3 & F4).
  assert (chain p = (take (current p) (chain p) ++ pre) ++ b :: post) as Ech.
  { rewrite <- (firstn_skipn (current p) (chain p)) at 1. by rewrite Edrop, <- app_assoc. }
  set (pre' := take (current p) (chain p) ++ pre) in *. rewrite app_assoc. fold pre'.
  destruct (chain_grow psize (heap p) pre' b post (m + size) I1) as (G1 & G2 & G3 & G4); [split; [by rewrite <- Ech|by rewrite <- Ech]|lia|].
  cbv zeta in *. rewrite <- Ech in *. split; [|split; [intros ? [= <-]; auto|done]]. split; [|split; [|split; [done|]]].
  - apply inv_small; [done|done|done| |done|by rewrite G2]. rewrite length_app. cbn [length].
    rewrite Ech in I4. rewrite length_app in I4. done.
  - by apply same_grow; [cbn [chain]; intros a; rewrite G2| |].
  - split; [done|]. intros x Hx. apply G4. lia.
Qed.

(** ** Large allocations *)

Definition lives (ls : list ngx_pool_large_t) : list Z := filter (λ a, a ≠ NULL) (alloc <$> ls).

Lemma lives_cons l ls : lives (l :: ls) = (if alloc l =? NULL then [] else [alloc l]) ++ lives ls.
Proof.
  unfold lives. rewrite fmap_cons. destruct (Z.eqb_spec (alloc l) NULL) as [E|E]; [by rewrite filter_cons_False by (by intros ?)|].
  by rewrite filter_cons_True.
Qed.

Lemma reuse_large_ok ls a ls' : a ≠ NULL → ∀ n, reuse_large ls n a = Some ls' → lives ls' ≡ₚ a :: lives ls.
Proof.
  intros Ha. revert ls'. induction ls as [|l ls IH]; intros ls' n; cbn [reuse_large]; [done|].
  destruct (Z.eqb_spec (alloc l) NULL) as [E|E].
  - intros [= <-]. rewrite !lives_cons. cbn [alloc]. rewrite E, (proj2 (Z.eqb_neq a NULL)) by done. done.
  - destruct (3 <? n)%nat; [done|]. destruct (reuse_large ls (S n) a) as [ls1|] eqn:Er; [|done]. intros [= <-].
    rewrite !lives_cons, (proj2 (Z.eqb_neq _ NULL)) by done. cbn [app]. rewrite (IH ls1 (S n) Er). apply Permutation_swap.
Qed.

(** The heap's block [a] is not of the pool. *)
Definition foreign (p : ngx_pool_t H) (a n : Z) : Prop := in_use (heap p) !! a = Some n ∧ a ∉ owned p.

Definition others_but (a : Z) (p p' : ngx_pool_t H) : Prop :=
  ∀ k v, (in_use (heap p) !! k = Some v ∧ k ∉ owned p) ↔ (in_use (heap p') !! k = Some v ∧ k ∉ owned p' ∧ k ≠ a).

Lemma not_owned_new psize p a : pool_inv psize p → in_use (heap p) !! a = None → a ∉ owned p.
Proof.
  intros [_ _ [C1 _] _ I5 _ _] Hn. unfold owned. rewrite not_elem_of_app. split.
  - intros (b & -> & Hb)%list_elem_of_fmap. rewrite list.Forall_forall in C1. destruct (C1 b Hb) as (B1 & _). by rewrite B1 in Hn.
  - intros Hl. rewrite list.Forall_forall in I5. destruct (I5 a Hl) as [? E]. by rewrite E in Hn.
Qed.

(** The heap has given a block. *)
Lemma heap_given psize p h a n : pool_inv psize p → heap_ok h → in_use (heap p) !! a = None → in_use h = <[a := n]> (in_use (heap p)) →
  let p1 := set_heap p h in
  pool_inv psize p1 ∧ foreign p1 a n ∧ others_but a p p1 ∧ 0 < a ∧
  (∀ x, taken_in p x → taken_in p1 x) ∧ (∀ x, a ≤ x < a + n → ¬ taken_in p x ∧ taken_in p1 x).
Proof.
  intros I Hh Hn E p1. pose proof (not_owned_new psize p a I Hn) as Hno. pose proof I as [I1 I2 I3 I4 I5 I6 I7].
  assert (in_use h !! a = Some n) as Ha by (rewrite E; apply lookup_insert_eq).
  destruct (taken_new (heap p) h (chain p) a n Hh Hn E) as [T1 T2].
  split; [apply inv_small; [done|done|by eapply chain_new|done|by eapply large_new|done]|]. split; [by split|].
  split; [|split; [by destruct (heap_range h a n Hh Ha)|split; [done|]]].
  - intros k v. unfold p1. cbn [heap set_heap]. change (owned (set_heap p h)) with (owned p). rewrite E.
    destruct (decide (k = a)) as [->|Hne]; [rewrite Hn; naive_solver|]. rewrite lookup_insert_ne by done. tauto.
  - apply T2. intros b Hb Eb. apply Hno. unfold owned. rewrite elem_of_app. left. rewrite <- Eb. by apply list_elem_of_fmap_2.
Qed.

(** It becomes a large allocation of the pool. *)
Lemma adopt psize p a n ls : pool_inv psize p → foreign p a n → a ≠ NULL → lives ls ≡ₚ a :: live p →
  let p2 := mk_pool (chain p) (max p) (current p) ls (cleanup p) (heap p) in
  pool_inv psize p2 ∧ (∀ x, taken_in p x ↔ taken_in p2 x) ∧
  ∀ k v, (in_use (heap p) !! k = Some v ∧ k ∉ owned p ∧ k ≠ a) ↔ (in_use (heap p2) !! k = Some v ∧ k ∉ owned p2).
Proof.
  intros [I1 I2 I3 I4 I5 I6 I7] [Hu Hno] Ha Hp p2. unfold owned in Hno. rewrite not_elem_of_app in Hno. destruct Hno as [Hn1 Hn2].
  change (live p2) with (lives ls) in *. split; [|split; [done|]].
  - split; cbn [heap max chain current large]; try done; change (live p2) with (lives ls); rewrite ?Hp.
    + apply Forall_cons_2; [by eexists|done].
    + apply list.NoDup_cons. by split.
    + intros c. rewrite Hp, elem_of_cons. intros [->|Hc]; [done|by apply I7].
  - intros k v. unfold owned. cbn [heap chain p2]. change (live p2) with (lives ls). rewrite !elem_of_app, Hp, elem_of_cons. tauto.
Qed.

(** A foreign block is freed. *)
Lemma heap_returned psize p a n : pool_inv psize p → foreign p a n → 0 < a →
  ∃ h, ngx_free (heap p) a = Some h ∧ pool_inv psize (set_heap p h) ∧ others_but a (set_heap p h) p ∧
    ∀ x, taken_in p x → ¬ (a ≤ x < a + n) → taken_in (set_heap p h) x.
Proof.
  intros [I1 I2 I3 I4 I5 I6 I7] [Hu Hno] Hpos. destruct (free_used _ _ _ I1 Hu) as [F1 F2].
  exists (free (heap p) a). unfold ngx_free. rewrite (proj2 (Z.eqb_neq a NULL)), Hu by lia. split; [done|].
  pose proof Hno as Hno'. unfold owned in Hno'. rewrite not_elem_of_app in Hno'. destruct Hno' as [Hn1 Hn2]. split; [|split].
  - apply inv_small; [by split|done| |done| |done].
    + destruct I3 as [C1 C2]. split; [|done]. rewrite list.Forall_forall in C1. apply list.Forall_forall. intros b Hb.
      destruct (C1 b Hb) as (B1 & B2). split; [|done]. rewrite F2, lookup_delete_ne; [done|].
      intros ->. apply Hn1. by apply list_elem_of_fmap_2.
    + rewrite list.Forall_forall in I5. apply list.Forall_forall. intros c Hc. rewrite F2, lookup_delete_ne; [by apply I5|]. by intros ->.
  - intros k v. cbn [heap set_heap]. change (owned (set_heap p (free (heap p) a))) with (owned p). rewrite F2.
    destruct (decide (k = a)) as [->|Hne]; [rewrite lookup_delete_eq; naive_solver|]. rewrite lookup_delete_ne by done. tauto.
  - intros x (c & k & H1 & H2 & H3) Hx. exists c, k. split; [|done]. cbn. rewrite F2, lookup_delete_ne; [done|].
    intros ->. rewrite Hu in H1. injection H1 as ->. done.
Qed.

(** An element of the list for a block that the heap has given. *)
Lemma keep_ok psize p p1 a n r p3 : pool_inv psize p → pool_inv psize p1 → foreign p1 a n → others_but a p p1 → 0 < a →
  (∀ x, taken_in p x → taken_in p1 x) → (∀ x, a ≤ x < a + n → ¬ taken_in p x ∧ taken_in p1 x) →
  alloc_post psize p1 16 r p3 → max p3 = max p →
  ∃ r' p', match r with
    | None => h ← ngx_free (heap p3) a; Some (None, set_heap p3 h)
    | Some l => Some (Some a, push_large p3 l a)
    end = Some (r', p') ∧ alloc_post psize p n r' p' ∧ max p' = max p ∧ (∀ m, r' = Some m → m = a).
Proof.
  intros I I1 [Hu Hno] Hoth Hpos Ht1 Ht2 (I3 & Hs & Ht3 & _) Hmax.
  assert (foreign p3 a n) as Hf3 by (apply (Hs a n); by split). destruct r as [l|].
  - eexists _, _. split; [done|]. unfold push_large.
    destruct (adopt psize p3 a n (mk_large l a :: large p3) I3 Hf3 ltac:(lia)) as (A1 & A2 & A3).
    { rewrite lives_cons. cbn [alloc]. by rewrite (proj2 (Z.eqb_neq a NULL)) by lia. }
    split; [|split; [done|by intros ? [= <-]]]. split; [done|]. split; [|split].
    + intros k v. rewrite (Hoth k v), <- (A3 k v), (assoc (∧)), (assoc (∧)). by rewrite (Hs k v).
    + intros x Hx. by apply A2, Ht3, Ht1.
    + split; [done|]. intros x Hx. split; [by apply Ht2|]. by apply A2, Ht3, Ht2.
  - destruct (heap_returned psize p3 a n I3 Hf3 Hpos) as (h & -> & I4 & Ho4 & Ht4). cbn [mbind option_bind].
    eexists _, _. split; [done|]. split; [|split; [done|done]]. split; [done|]. split; [|split; [|done]].
    + intros k v. rewrite (Hoth k v), (Ho4 k v), (assoc (∧)), (assoc (∧)). by rewrite (Hs k v).
    + intros x Hx. apply Ht4; [by apply Ht3, Ht1|]. intros Hr. by apply (Ht2 x Hr).
Qed.

(** ** ngx_palloc and ngx_pnalloc *)
Lemma palloc_ok al psize p size : pool_inv psize p → 0 ≤ size →
  ∃ r p', palloc_fuel 2 al p size = Some (r, p') ∧ alloc_post psize p size r p' ∧
    (∀ m, r = Some m → al = true → m mod 8 = 0) ∧ max p' = max p.
Proof.
  intros I Hsize. pose proof (inv_size psize p I) as (M1 & M2 & M3). cbn [palloc_fuel]. destruct (Z.leb_spec size (max p)) as [Hle|Hgt].
  { destruct (palloc_small al p size) as [r p'] eqn:E. exists r, p'. split; [done|]. by apply palloc_small_ok. }
  destruct (malloc (heap p) size) as [[a|] h] eqn:Em.
  - destruct (malloc_new _ _ _ _ (inv_heap _ _ I) Hsize Em) as (N1 & N2 & N3 & N4).
    destruct (heap_given psize p h a size I N1 N3 N4) as (G1 & G2 & G3 & G4 & G5 & G6).
    destruct (reuse_large _ _ _) as [ls|] eqn:Er.
    + apply reuse_large_ok in Er; [|lia]. destruct (adopt psize (set_heap p h) a size ls G1 G2 ltac:(lia) Er) as (A1 & A2 & A3).
      eexists _, _. split; [done|]. split; [|split; [intros ? [= <-] _; zlia|done]]. split; [done|]. split; [|split].
      * intros k v. by rewrite (G3 k v), <- (A3 k v).
      * intros x Hx. by apply A2, G5.
      * split; [done|]. intros x Hx. split; [by apply G6|by apply A2, G6].
    + rewrite (proj2 (Z.leb_le 16 (max (set_heap p h)))) by (cbn; lia).
      destruct (palloc_small true (set_heap p h) 16) as [r p3] eqn:Es. cbn [mbind option_bind].
      destruct (palloc_small_ok true psize (set_heap p h) 16 r p3 G1 ltac:(cbn; lia) Es) as (S1 & _ & S3).
      destruct (keep_ok psize p _ a size r p3 I G1 G2 G3 G4 G5 G6 S1 S3) as (r' & p' & E' & K1 & K2 & K3).
      exists r', p'. split; [done|]. split; [done|]. split; [|done]. intros m Hm _. rewrite (K3 m Hm). zlia.
  - destruct (malloc_none _ _ _ (inv_heap _ _ I) Em) as [N1 N2]. eexists _, _. split; [done|]. split; [|split; [done|done]].
    destruct I as [I1 I2 I3 I4 I5 I6 I7]. split; [|split; [|split; [|done]]].
    + apply inv_small; [done|done| |done|by rewrite N2|done]. destruct I3 as [C1 C2]. split; [|done].
      eapply List.Forall_impl; [|exact C1]. intros b. unfold block_ok. by rewrite N2.
    + intros k v. unfold owned. cbn. by rewrite N2.
    + intros x (c & n & H1 & H2). exists c, n. cbn. by rewrite N2.
Qed.

(** ** The other operations *)

Lemma palloc_post psize p size : pool_inv psize p → 0 ≤ size →
  ∃ r p', ngx_palloc p size = Some (r, p') ∧ alloc_post psize p size r p' ∧ max p' = max p.
Proof.
  intros I Hs. destruct (palloc_ok true psize p size I Hs) as (r & p' & H1 & H2 & _ & H3). by exists r, p'.
Qed.










(** *** Freeing *)



(** *** The elements of the list of cleanups *)









Lemma create_pool_ok pagesize size h p h' : heap_ok h → 17 ≤ pagesize → 96 ≤ size < 2 ^ 63 → size mod 8 = 0 →
  ngx_create_pool pagesize size h = (Some p, h') →
  pool_inv size p ∧ ∀ k v, in_use h !! k = Some v ↔ in_use (heap p) !! k = Some v ∧ k ∉ owned p.
Proof.
  intros Hh Hpage Hs H8 E. unfold ngx_create_pool in E. destruct (posix_memalign h 16 size) as [[a|] h1] eqn:Em; [|done].
  assert (0 ≤ size) as Hs0 by lia. destruct (memalign_new _ _ _ _ _ Hh Hs0 Em) as (N1 & N2 & N3 & N4). rewrite u64_id in E by lia.
  set (mx := if size - 80 <? NGX_MAX_ALLOC_FROM_POOL pagesize then size - 80 else NGX_MAX_ALLOC_FROM_POOL pagesize) in *.
  assert (16 ≤ mx ≤ size - 80) as Hmx by (unfold mx, NGX_MAX_ALLOC_FROM_POOL in *; destruct (Z.ltb_spec (size - 80) (pagesize - 1)); lia).
  injection E as <- <-. split.
  - split; cbn [heap max chain current large]; [done|lia| |cbn; lia|apply Forall_nil_2|apply list.NoDup_nil; done|].
    + split; [|cbn; apply NoDup_singleton]. apply Forall_cons_2; [|apply Forall_nil_2]. split; cbn; [rewrite N4; apply lookup_insert_eq|].
      split; [done|]. split; [lia|done].
    + intros c Hc. by apply elem_of_nil in Hc.
  - intros k v. unfold owned. cbn [heap chain]. change (live (mk_pool _ _ _ [] _ _)) with ([] : list Z). rewrite app_nil_r. cbn.
    rewrite N4, list_elem_of_singleton. destruct (decide (k = a)) as [->|Hne]; [rewrite N3, lookup_insert_eq; naive_solver|].
    rewrite lookup_insert_ne by done. tauto.
Qed.

(** ** The life of a pool *)

(** What may be done with a pool. *)
Inductive operation :=
| Palloc (size : Z) | Pnalloc (size : Z) | Pmemalign (size alignment : Z) | Pfree (a : Z) | Cleanup_add (size : Z) | Reset.


Definition perform (p : ngx_pool_t H) (op : operation) : option (ngx_pool_t H) :=
  match op with
  | Palloc size => snd <$> ngx_palloc p size
  | Pnalloc size => snd <$> ngx_pnalloc p size
  | Pmemalign size k => snd <$> ngx_pmemalign p size k
  | Pfree a => snd <$> ngx_pfree p a
  | Cleanup_add size => snd <$> ngx_pool_cleanup_add p size
  | Reset => ngx_reset_pool p
  end.

#[export] Instance operation_eq_dec : EqDecision operation.
Proof. solve_decision. Defined.

Fixpoint perform_all (p : ngx_pool_t H) (ops : list operation) : option (ngx_pool_t H) :=
  match ops with
  | [] => Some p
  | op :: ops => p ← perform p op; perform_all p ops
  end.






(** C22: [ngx_palloc] and [ngx_pnalloc] always return; what they give lies in memory of
    which nothing was given before, [ngx_palloc]'s at a multiple of the size of a
    pointer, and what was given remains so. *)
Theorem palloc_correct align psize p size : pool_inv psize p → 0 ≤ size < 2 ^ 64 →
  ∃ r p', (if align : bool then ngx_palloc p size else ngx_pnalloc p size) = Some (r, p') ∧
    pool_inv psize p' ∧ (∀ x, taken_in p x → taken_in p' x) ∧
    match r with
    | None => True
    | Some m => 0 < m ∧ (align = true → m mod 8 = 0) ∧ ∀ x, m ≤ x < m + size → ¬ taken_in p x ∧ taken_in p' x
    end.
Proof.
  intros I Hs. destruct (palloc_ok align psize p size I ltac:(lia)) as (r & p' & E & (I' & _ & Ht & Hr) & Hal & _).
  exists r, p'. split; [by destruct align|]. split; [done|]. split; [done|]. destruct r as [m|]; [|done].
  destruct Hr as [Hm Hr]. split; [done|]. split; [by apply Hal|done].
Qed.

(** *** The interface of a pool *)
Definition palloc_total (p : ngx_pool_t H) (size : Z) : option Z * ngx_pool_t H := default (None, p) (ngx_palloc p size).

#[refine, export] Instance pool_of_heap : Pool.Pool.Pool (ngx_pool_t H) :=
  {| Pool.Pool.ngx_palloc := palloc_total; Pool.Pool.pool_ok p := ∃ psize, pool_inv psize p; Pool.Pool.taken := taken_in |}.
Proof.
  all: unfold palloc_total.
  - intros p size r p' [psize I] Hs. destruct (palloc_post psize p size I ltac:(lia)) as (r1 & p1 & -> & (I1 & _) & _). 
    intros [= <- <-]. by exists psize.
  - intros p size a p' [psize I] Hs. destruct (palloc_ok true psize p size I ltac:(lia)) as (r1 & p1 & E & (_ & _ & _ & Hr) & Hal & _).
    unfold ngx_palloc. rewrite E. intros [= -> <-]. destruct Hr as [H1 H2]. split; [done|]. split; [by apply Hal|done].
  - intros p size r p' x [psize I] Hs. destruct (palloc_post psize p size I ltac:(lia)) as (r1 & p1 & -> & (_ & _ & Ht & _) & _).
    intros [= <- <-]. apply Ht.
Defined.
End Proof.

(** ** A heap for examples

    Blocks at increasing addresses. *)
Record arena := mk_arena { next : Z; used : gmap Z Z }.

Definition arena_alloc (h : arena) (k size : Z) : option Z * arena :=
  let a := (next h + k - 1) / k * k in
  if (k <=? 0) || (2 ^ 62 <=? a + size + 1) then (None, h)
  else (Some a, mk_arena (a + size + 1) (<[a := size]> (used h))).

Definition arena_ok (h : arena) : Prop :=
  0 < next h < 2 ^ 62 ∧ (∀ a n, used h !! a = Some n → 0 < a ∧ 0 ≤ n ∧ a + n < next h) ∧
  ∀ a n b k, used h !! a = Some n → used h !! b = Some k → a ≠ b → a + n ≤ b ∨ b + k ≤ a.

Lemma arena_alloc_ok h k size a h' : arena_ok h → 0 ≤ size → arena_alloc h k size = (Some a, h') →
  arena_ok h' ∧ a mod k = 0 ∧ used h !! a = None ∧ used h' = <[a := size]> (used h).
Proof.
  intros (H1 & H2 & H3) Hs. unfold arena_alloc. set (a0 := (next h + k - 1) / k * k). destruct (Z.leb_spec k 0); [done|].
  destruct (Z.leb_spec (2 ^ 62) (a0 + size + 1)); [done|]. intros [= <- <-].
  assert (next h ≤ a0) as Ha by (unfold a0; pose proof (Z.div_mod (next h + k - 1) k ltac:(lia)); pose proof (Z.mod_pos_bound (next h + k - 1) k ltac:(lia)); lia).
  assert (used h !! a0 = None) as Hn.
  { destruct (used h !! a0) as [n|] eqn:E; [|done]. destruct (H2 _ _ E). lia. }
  split; [|split; [unfold a0; apply Z.mod_mul; lia|done]]. split; [cbn; lia|]. cbn. split.
  - intros b n. destruct (decide (b = a0)) as [->|Hne]; [rewrite lookup_insert_eq; intros [= <-]; lia|].
    rewrite lookup_insert_ne by done. intros E. destruct (H2 _ _ E). lia.
  - intros b n c m Hb Hc Hne. destruct (decide (b = a0)) as [->|Hb0], (decide (c = a0)) as [->|Hc0]; [done| | |].
    + rewrite lookup_insert_eq in Hb. rewrite lookup_insert_ne in Hc by done. injection Hb as <-. destruct (H2 _ _ Hc). lia.
    + rewrite lookup_insert_ne in Hb by done. rewrite lookup_insert_eq in Hc. injection Hc as <-. destruct (H2 _ _ Hb). lia.
    + rewrite lookup_insert_ne in Hb, Hc by done. by apply (H3 b n c m).
Qed.

Lemma arena_alloc_none h k size h' : arena_ok h → arena_alloc h k size = (None, h') → arena_ok h' ∧ used h' = used h.
Proof. intros Hh. unfold arena_alloc. destruct (_ || _); [intros [= <-]; by split|done]. Qed.

#[refine, export] Instance arena_heap : Heap arena :=
  {| malloc h size := arena_alloc h 16 size; posix_memalign := arena_alloc;
     free h a := mk_arena (next h) (delete a (used h)); in_use := used; heap_ok := arena_ok |}.
Proof.
  - intros h a n b k (_ & _ & H3) Ha Hb Hne. by apply (H3 a n b k).
  - intros h a n (H1 & H2 & _) Ha. destruct (H2 _ _ Ha). lia.
  - intros h size a h' Hh Hs E. by apply (arena_alloc_ok h 16 size).
  - intros h size h' Hh E. by apply (arena_alloc_none h 16 size).
  - intros h k size a h' Hh Hs E. by apply (arena_alloc_ok h k size).
  - intros h k size h' Hh E. by apply (arena_alloc_none h k size).
  - intros h a n (H1 & H2 & H3) Ha. split; [|done]. split; [done|]. cbn. split.
    + intros b k Hb. rewrite lookup_delete_Some in Hb. destruct Hb. by apply H2.
    + intros b k c m Hb Hc. rewrite lookup_delete_Some in Hb, Hc. destruct Hb, Hc. by apply H3.
Defined.

Definition empty_arena : arena := mk_arena 4096 ∅.

Lemma empty_arena_ok : heap_ok empty_arena.
Proof. split; [cbn; lia|]. split; [intros a n Ha|intros a n b k Ha]; cbn in Ha; by rewrite lookup_empty in Ha. Qed.

Definition demo_pool : ngx_pool_t arena :=
  match ngx_create_pool 4096 1024 empty_arena with (Some p, _) => p | (None, h) => mk_pool [] 0 0 [] [] h end.



(** A cleanup that was added before a reset: its element is intact right after
    it, and lost with the next allocation. *)
Example reset_loses_cleanup :
  (∃ p', perform_all demo_pool [Cleanup_add 8; Reset] = Some p' ∧ is_Some (ngx_destroy_pool p')) ∧
  ∃ p', perform_all demo_pool [Cleanup_add 8; Reset; Palloc 100] = Some p' ∧ ngx_destroy_pool p' = None.
Proof.
  split; eexists; (split; [vm_compute; reflexivity|]); [by eexists|by vm_compute].
Qed.

Lemma demo_pool_inv : pool_inv 1024 demo_pool.
Proof. by destruct (create_pool_ok 4096 1024 empty_arena demo_pool (heap demo_pool) empty_arena_ok ltac:(lia) ltac:(lia) eq_refl eq_refl). Qed.

Lemma palloc_correct_witness : ∃ r p', ngx_palloc demo_pool 100 = Some (r, p') ∧ pool_inv 1024 p' ∧
  (∀ x, taken_in demo_pool x → taken_in p' x) ∧
  match r with
  | None => True
  | Some m => 0 < m ∧ (true = true → m mod 8 = 0) ∧ ∀ x, m ≤ x < m + 100 → ¬ taken_in demo_pool x ∧ taken_in p' x
  end.
Proof. apply (palloc_correct true 1024 demo_pool 100); [exact demo_pool_inv|lia]. Defined.

(** Where the end of a block is not a multiple of the alignment, the difference
    [p->d.end - m] may be negative, and is taken for a large number: the memory that
    is given lies behind the block. *)
Theorem palloc_behind_end : let p := match ngx_create_pool 4096 101 empty_arena with (Some p, _) => p | (None, h) => mk_pool [] 0 0 [] [] h end in
  ∃ a p1 p2 m, chain p = [mk_block a (a + 80) (a + 101) 0] ∧
    ngx_pnalloc p 19 = Some (Some (a + 80), p1) ∧ ngx_palloc p1 16 = Some (Some m, p2) ∧ a + 101 < m.
Proof.
  cbv zeta. exists 4096. eexists _, _, _. split; [vm_compute; reflexivity|]. split; [vm_compute; reflexivity|].
  split; [vm_compute; reflexivity|]. vm_compute. reflexivity.
Qed.
End PallocProof.
