(* ===== verification/UriArgs.v ===== *)
(** * Arguments, cookies and rewritten URIs

    The parsers of src/http/ngx_http_parse.c that work on text the request
    line parser has accepted or that a backend sends: the check of a URI given
    by [X-Accel-Redirect] or SSI ([ngx_http_parse_unsafe_uri]), the look-up of
    one argument of the query string ([ngx_http_arg]) and of one name in the
    [Cookie] lines ([ngx_http_parse_multi_header_lines]), and the split of a
    URI at its question mark ([ngx_http_split_args]).

    A [u_char *] is the memory from there on; [None] is a read past its end or
    a loop that has not ended with its fuel.  The pointers the parsers return
    are offsets from where the text begins. *)

From S2P Require Import Prelude HttpRequestLine StringOps.

Module UriArgs.

(** ** [ngx_http_split_args] *)

(** The lengths of the URI and of the arguments, and where those begin;
    [args->data] is left alone when there are none. *)
Definition ngx_http_split_args (uri : list Z) : nat * nat * option nat :=
  match StringOps.ngx_strlchr uri "?"%ch with
  | Some p => (p, (length uri - S p)%nat, Some (S p))
  | None => (length uri, O, None)
  end.

(** ** [ngx_http_parse_unsafe_uri] *)

Abbreviation is_separator c := (c =? "/"%ch).

(** What the function leaves: its return code, [uri->len] and [args], a
    length and an offset of the URI. *)
Record unsafe_result := mk_unsafe { rc : Z; uri_len : nat; args : option (nat * Z) }.

(** The loop: [len] bytes are left at [p]; [total] is [uri->len]. *)
Fixpoint unsafe_loop (mem : list Z) (total len : nat) (p : Z) : option unsafe_result :=
  match len with
  | O => Some (mk_unsafe NGX_OK total None)
  | S len' =>
      ch ← at_ mem p;
      let p := p + 1 in
      if HttpRequestLine.is_usual ch then unsafe_loop mem total len' p
      else if ch =? "?"%ch then Some (mk_unsafe NGX_OK (total - len)%nat (Some (len', p)))
      else if ch =? NUL then Some (mk_unsafe NGX_ERROR total None)
      else if is_separator ch && (2 <? len)%nat then
        c0 ← at_ mem p;
        if negb (c0 =? "."%ch) then unsafe_loop mem total len' p
        else
          c1 ← at_ mem (p + 1);
          if negb (c1 =? "."%ch) then unsafe_loop mem total len' p
          else
            c2 ← at_ mem (p + 2);
            if is_separator c2 then Some (mk_unsafe NGX_ERROR total None)
            else unsafe_loop mem total len' p
      else unsafe_loop mem total len' p
  end.

Definition ngx_http_parse_unsafe_uri (mem : list Z) (len : nat) : option unsafe_result :=
  let unsafe := Some (mk_unsafe NGX_ERROR len None) in
  if (len =? 0)%nat then unsafe
  else
    c0 ← at_ mem 0;
    if c0 =? "?"%ch then unsafe
    else if (c0 =? "."%ch) && (len =? 3)%nat then
      c1 ← at_ mem 1;
      if negb (c1 =? "."%ch) then unsafe_loop mem len len 0
      else
        c2 ← at_ mem 2;
        if is_separator c2 then unsafe else unsafe_loop mem len len 0
    else unsafe_loop mem len len 0.

(** ** [ngx_http_arg] *)

(** The search of the loop, [ngx_strlcasestrn(p, last - 1, name, len - 1)].
    [n] is a [size_t]: for an empty name it is the largest one, which no
    memory holds, so the comparison runs until it differs, meets a NUL or
    leaves the memory. *)
Definition find_name (mem : list Z) (p last : Z) (name : list Z) (len : nat) : option (option Z) :=
  match name with
  | [] => None
  | c2 :: name =>
      let n := u64 (Z.of_nat len - 1) in
      let compared := Z.to_nat (n `min` Z.of_nat (S (length mem))) in
      StringOps.strlcasestrn_loop (StringOps.lower c2) name compared
        (s64 (last - 1 - n)) p (drop (Z.to_nat p) mem)
  end.

(** [Some None] is [NGX_DECLINED], otherwise the value's offset and length. *)
Fixpoint arg_loop (mem : list Z) (last : Z) (name : list Z) (len : nat) (fuel : nat) (p : Z) :
    option (option (Z * Z)) :=
  match fuel with
  | O => None
  | S fuel =>
      if p <? last then
        q ← find_name mem p last name len;
        match q with
        | None => Some None
        | Some p =>
            before ← (if p =? 0 then Some true else c ← at_ mem (p - 1); Some (c =? "&"%ch));
            found ← (if (before : bool) then c ← at_ mem (p + Z.of_nat len); Some (c =? "="%ch)
                     else Some false);
            if (found : bool) then
              let data := p + Z.of_nat len + 1 in
              let rest := slice mem p (last - p) in
              let p := match StringOps.ngx_strlchr rest "&"%ch with
                       | Some d => p + Z.of_nat d
                       | None => last
                       end in
              Some (Some (data, p - data))
            else arg_loop mem last name len fuel (p + 1)
        end
      else Some None
  end.

Definition ngx_http_arg (mem : list Z) (args_len : nat) (name : list Z) (len : nat) :
    option (option (Z * Z)) :=
  if (args_len =? 0)%nat then Some None
  else arg_loop mem (Z.of_nat args_len) name len (S args_len) 0.

(** ** [ngx_http_parse_multi_header_lines] *)

(** Advance [start] up to [end] while the byte there has [cond]; [n] is
    [end - start]. *)
Fixpoint walk (cond : Z → bool) (mem : list Z) (start : Z) (n : nat) : option Z :=
  match n with
  | O => Some start
  | S n =>
      c ← at_ mem start;
      if cond c then walk cond mem (start + 1) n else Some start
  end.

Definition while_ (cond : Z → bool) (mem : list Z) (start end_ : Z) : option Z :=
  walk cond mem start (Z.to_nat (end_ - start)).

(** The code at [skip]: behind the next [;] or [,], and the spaces there. *)
Fixpoint skip_loop (mem : list Z) (start : Z) (n : nat) : option Z :=
  match n with
  | O => Some start
  | S n =>
      ch ← at_ mem start;
      let start := start + 1 in
      if (ch =? ";"%ch) || (ch =? ","%ch) then Some start else skip_loop mem start n
  end.

Definition skip (mem : list Z) (start end_ : Z) : option Z :=
  start ← skip_loop mem start (Z.to_nat (end_ - start));
  while_ (λ c, c =? " "%ch) mem start end_.

(** One element of a header: go to [skip], or return with [value], an offset
    and a length, [None] when the caller asked for none. *)
Inductive element := Skip (start : Z) | Return (value : option (Z * Z)).

(** Behind a name that was found; [want] is [value != NULL]. *)
Definition after_name (mem : list Z) (end_ : Z) (want : bool) (start : Z) : option element :=
  start ← while_ (λ c, c =? " "%ch) mem start end_;
  if negb want then
    if start =? end_ then Some (Return None)
    else
      c ← at_ mem start;
      Some (if c =? ","%ch then Return None else Skip start)
  else if start =? end_ then Some (Skip start)
  else
    c ← at_ mem start;
    let start := start + 1 in
    if negb (c =? "="%ch) then Some (Skip start)
    else
      start ← while_ (λ c, c =? " "%ch) mem start end_;
      last ← while_ (λ c, negb (c =? ";"%ch)) mem start end_;
      Some (Return (Some (start, last - start))).

(** The loop over one header: [Some None] when it ends without a match. *)
Fixpoint header_loop (mem : list Z) (end_ : Z) (name : list Z) (name_len : nat) (want : bool)
    (fuel : nat) (start : Z) : option (option (option (Z * Z))) :=
  match fuel with
  | O => None
  | S fuel =>
      if start <? end_ then
        m ← StringOps.ngx_strncasecmp (drop (Z.to_nat start) mem) name name_len;
        e ← (if m =? 0 then after_name mem end_ want (start + Z.of_nat name_len)
             else Some (Skip start));
        match e with
        | Return value => Some (Some value)
        | Skip start =>
            start ← skip mem start end_;
            header_loop mem end_ name name_len want fuel start
        end
      else Some None
  end.

(** A header is the memory of its value and the value's length.  The result
    is [NGX_DECLINED], or the header's index and the value found in it. *)
Fixpoint headers_loop (name : list Z) (name_len : nat) (want : bool) (i : Z)
    (headers : list (list Z * nat)) : option (Z * option (Z * Z)) :=
  match headers with
  | [] => Some (NGX_DECLINED, None)
  | (mem, len) :: headers =>
      if (len <? name_len)%nat then headers_loop name name_len want (i + 1) headers
      else
        r ← header_loop mem (Z.of_nat len) name name_len want (S len) 0;
        match r with
        | Some value => Some (i, value)
        | None => headers_loop name name_len want (i + 1) headers
        end
  end.

Definition ngx_http_parse_multi_header_lines (headers : list (list Z * nat)) (name : list Z)
    (name_len : nat) (want : bool) : option (Z * option (Z * Z)) :=
  headers_loop name name_len want 0 headers.

End UriArgs.
