(* ===== verification/UriArgsProof.v ===== *)
(** * Arguments, cookies and rewritten URIs: the theorems

    What the four parsers of [UriArgs] compute, against the text written from
    its parts: a path and its arguments, a list of arguments, lines of
    cookies. *)

From S2P Require Import Prelude HttpRequestLine StringOps UriArgs.

Module UriArgsProof.
Import UriArgs.

(** *** Splitting at the question mark *)

Fixpoint before (c : Z) (l : list Z) : list Z :=
  match l with [] => [] | x :: l => if x =? c then [] else x :: before c l end.

Lemma before_length c l : (length (before c l) ≤ length l)%nat.
Proof. induction l as [|x l IH]; cbn; [done|]. destruct (x =? c); cbn; lia. Qed.

Lemma strlchr_before c l :
  StringOps.ngx_strlchr l c =
  if (length (before c l) =? length l)%nat then None else Some (length (before c l)).
Proof.
  induction l as [|x l IH]; [done|]. cbn. destruct (x =? c); [done|]. cbn. rewrite IH.
  by destruct (_ =? _)%nat.
Qed.

Lemma before_split c l :
  l = before c l ∨ ∃ t, l = before c l ++ c :: t.
Proof.
  induction l as [|x l IH]; [by left|]. cbn.
  destruct (Z.eqb_spec x c) as [->|]; [by right; exists l|].
  destruct IH as [E|[t E]]; [left; by rewrite <- E|right; exists t; by rewrite E at 1].
Qed.

(** The two parts are the path and the arguments: put together around a
    question mark they are the URI again. *)
Theorem split_args_correct uri :
  let '(n, m, data) := ngx_http_split_args uri in
  take n uri = before "?"%ch uri ∧
  match data with
  | Some d => uri = take n uri ++ "?"%ch :: slice uri (Z.of_nat d) (Z.of_nat m)
  | None => uri = take n uri ∧ m = O
  end.
Proof.
  unfold ngx_http_split_args. rewrite strlchr_before.
  destruct (before_split "?"%ch uri) as [E|[t E]].
  - rewrite <- E, Nat.eqb_refl, firstn_all. done.
  - set (b := before "?"%ch uri) in *. clearbody b. subst uri.
    rewrite length_app. cbn [length].
    destruct (Nat.eqb_spec (length b) (length b + S (length t))); [lia|].
    rewrite take_app_length. split; [done|]. f_equal. f_equal.
    unfold slice. rewrite !Nat2Z.id.
    replace (b ++ _ :: t) with ((b ++ ["?"%ch]) ++ t) by by rewrite <- app_assoc.
    rewrite drop_app_length' by (rewrite length_app; cbn; lia).
    rewrite take_ge by lia. done.
Qed.

(** *** Unsafe URIs *)

Fixpoint dotted (l : list Z) : bool :=
  match l with
  | [] => false
  | _ :: t => StringOps.starts id (bs "/../") l || dotted t
  end.

(** What the loop looks at: the path, and the byte [next] behind the URI when
    the path is all of it. *)
Fixpoint looked_at (uri : list Z) (next : Z) : list Z :=
  match uri with
  | [] => [next]
  | c :: t => if c =? "?"%ch then [] else c :: looked_at t next
  end.

Definition bad_path (uri : list Z) (next : Z) : bool :=
  existsb (λ c, c =? NUL) (before "?"%ch uri) || dotted (looked_at uri next).

Definition path_result (total : nat) (uri : list Z) (p : Z) (bad : bool) : unsafe_result :=
  let n := length (before "?"%ch uri) in
  if bad then mk_unsafe NGX_ERROR total None
  else if (n =? length uri)%nat then mk_unsafe NGX_OK total None
  else mk_unsafe NGX_OK (total - (length uri - n))%nat
         (Some ((length uri - S n)%nat, p + Z.of_nat n + 1)).

Lemma usual_not c : HttpRequestLine.is_usual c = true →
  c ≠ "?"%ch ∧ c ≠ NUL ∧ c ≠ "/"%ch.
Proof.
  intros Hu. repeat split; intros ->; vm_compute in Hu; done.
Qed.

Lemma at_app_r l k i : at_ (l ++ k) (Z.of_nat (length l) + Z.of_nat i) = k !! i.
Proof.
  unfold at_. destruct (Z.ltb_spec (Z.of_nat (length l) + Z.of_nat i) 0); [lia|].
  rewrite lookup_app_r by lia. f_equal. lia.
Qed.

Lemma at_here l c k : at_ (l ++ c :: k) (Z.of_nat (length l)) = Some c.
Proof. rewrite <- (Z.add_0_r (Z.of_nat (length l))). apply (at_app_r l (c :: k) 0). Qed.

Lemma starts_dots c t next :
  StringOps.starts id (bs "/../") (c :: looked_at t next) = true ↔
  c = "/"%ch ∧ ∃ t', t ++ [next] = "."%ch :: "."%ch :: "/"%ch :: t' .
Proof.
  change (bs "/../") with ["/"%ch; "."%ch; "."%ch; "/"%ch]. cbn [StringOps.starts].
  unfold id. rewrite andb_true_iff, Z.eqb_eq. split.
  - intros [-> H]. split; [done|].
    destruct t as [|a t]; cbn in H; [by rewrite andb_false_r in H|].
    destruct (Z.eqb_spec a "?"%ch); [done|]. cbn in H. bool_to_prop. subst a.
    destruct t as [|b t]; cbn in *; [bool_to_prop; done|].
    destruct (Z.eqb_spec b "?"%ch); [done|]. cbn in *. bool_to_prop. subst b.
    destruct t as [|d t]; cbn in *; [bool_to_prop; subst; by eexists|].
    destruct (Z.eqb_spec d "?"%ch); [done|]. cbn in *. bool_to_prop. subst d. by eexists.
  - intros [-> [t' E]]. split; [done|].
    destruct t as [|a t]; [done|]. injection E as -> E. cbn.
    destruct t as [|b t]; [done|]. injection E as -> E. cbn.
    destruct t as [|d t]; injection E as -> E; done.
Qed.

Lemma path_result_cons total c t p bad : c ≠ "?"%ch →
  path_result total (c :: t) p bad = path_result total t (p + 1) bad.
Proof.
  intros Hc. unfold path_result. cbn [before length].
  rewrite (proj2 (Z.eqb_neq _ _) Hc). cbn [length].
  destruct bad; [done|]. change (S ?a =? S ?b)%nat with (a =? b)%nat.
  destruct (_ =? _)%nat; [done|].
  replace (p + 1 + Z.of_nat (length (before "?"%ch t)) + 1)
    with (p + Z.of_nat (S (length (before "?"%ch t))) + 1) by lia. done.
Qed.

Lemma bad_path_cons c t next : c ≠ "?"%ch → c ≠ NUL →
  bad_path (c :: t) next = StringOps.starts id (bs "/../") (c :: looked_at t next) || bad_path t next.
Proof.
  intros Hq Hn. unfold bad_path. cbn [before looked_at].
  rewrite (proj2 (Z.eqb_neq _ _) Hq). cbn [existsb dotted].
  rewrite (proj2 (Z.eqb_neq _ _) Hn). cbn [orb].
  by destruct (existsb _ _), (StringOps.starts _ _ _).
Qed.

Lemma no_dots c t next : ¬ (c = "/"%ch ∧ ∃ t', t ++ [next] = "."%ch :: "."%ch :: "/"%ch :: t') →
  StringOps.starts id (bs "/../") (c :: looked_at t next) = false.
Proof. intros H. apply not_true_is_false. by rewrite starts_dots. Qed.

Lemma unsafe_loop_ok next post total rest : ∀ pre,
  unsafe_loop (pre ++ rest ++ next :: post) total (length rest) (Z.of_nat (length pre)) =
  Some (path_result total rest (Z.of_nat (length pre)) (bad_path rest next)).
Proof.
  induction rest as [|c t IH]; intros pre.
  { unfold path_result, bad_path. cbn. by rewrite andb_false_r. }
  cbn [unsafe_loop length app]. rewrite at_here. cbn [mbind option_bind].
  specialize (IH (pre ++ [c])). rewrite <- app_assoc in IH. cbn [app] in IH.
  replace (Z.of_nat (length (pre ++ [c]))) with (Z.of_nat (length pre) + 1) in IH
    by (rewrite length_app; cbn; lia).
  destruct (Z.eqb_spec c "?"%ch) as [->|Hq].
  { change (HttpRequestLine.is_usual _) with false. unfold path_result, bad_path. cbn.
    do 4 f_equal; lia. }
  destruct (Z.eqb_spec c NUL) as [->|Hn].
  { change (HttpRequestLine.is_usual _) with false. unfold path_result, bad_path. done. }
  rewrite path_result_cons, bad_path_cons by done.
  destruct (HttpRequestLine.is_usual c) eqn:Hu.
  { apply usual_not in Hu as (_ & _ & Hs). rewrite no_dots by tauto. apply IH. }
  destruct (Z.eqb_spec c "/"%ch) as [->|Hs]; cbn [andb]; [|rewrite no_dots by tauto; apply IH].
  destruct t as [|a [|b t]]; try (cbn [length Nat.ltb Nat.leb]; rewrite no_dots by (by intros [_ [t' [=]]]); apply IH).
  change (2 <? S (length (a :: b :: t)))%nat with true. cbv iota.
  assert (∀ i, at_ (pre ++ "/"%ch :: (a :: b :: t) ++ next :: post) (Z.of_nat (length pre) + 1 + Z.of_nat i) =
               ((a :: b :: t) ++ next :: post) !! i) as Hat.
  { intros i. replace (Z.of_nat (length pre) + 1 + Z.of_nat i) with (Z.of_nat (length pre) + Z.of_nat (S i)) by lia.
    by rewrite at_app_r. }
  rewrite <- (Z.add_0_r (Z.of_nat (length pre) + 1)) at 1. rewrite (Hat 0%nat : at_ _ (_ + 0) = _), (Hat 1%nat : at_ _ (_ + 1) = _), (Hat 2%nat : at_ _ (_ + 2) = _).
  cbn [app lookup list_lookup mbind option_bind].
  destruct (Z.eqb_spec a "."%ch) as [->|Ha]; cbn [negb]; [|rewrite no_dots by (intros [_ [t' [=]]]; done); apply IH].
  destruct (Z.eqb_spec b "."%ch) as [->|Hb]; cbn [negb]; [|rewrite no_dots by (intros [_ [t' [=]]]; done); apply IH].
  destruct t as [|d t].
  - change (([] ++ next :: post) !! 0%nat) with (Some next). cbn [mbind option_bind].
    destruct (Z.eqb_spec next "/"%ch) as [->|Hd]; [done|].
    rewrite no_dots by (intros [_ [t' [=]]]; done). apply IH.
  - change (((d :: t) ++ next :: post) !! 0%nat) with (Some d). cbn [mbind option_bind].
    destruct (Z.eqb_spec d "/"%ch) as [->|Hd]; [done|].
    rewrite no_dots by (intros [_ [t' [=]]]; done). apply IH.
Qed.

(** A URI followed by at least one byte, its terminator as a rule, is read no
    further than that byte, and is refused just when it is empty, begins with
    a question mark, is [../], or has in its path a NUL or [/../]. *)
Definition unsafe_uri (uri : list Z) (next : Z) : bool :=
  bool_decide (uri = [] ∨ uri = bs "../") || StringOps.starts id ["?"%ch] uri || bad_path uri next.

Theorem unsafe_uri_correct uri next post :
  ngx_http_parse_unsafe_uri (uri ++ next :: post) (length uri) =
  Some (path_result (length uri) uri 0 (unsafe_uri uri next)).
Proof.
  unfold ngx_http_parse_unsafe_uri, unsafe_uri.
  pose proof (unsafe_loop_ok next post (length uri) uri []) as Hl. cbn [app length] in Hl.
  destruct uri as [|c t]; [done|]. change (length (c :: t) =? 0)%nat with false. cbv iota.
  change (at_ ((c :: t) ++ next :: post) 0) with (Some c). cbn [mbind option_bind StringOps.starts].
  unfold id. rewrite andb_true_r.
  destruct (Z.eqb_spec c "?"%ch) as [->|Hq]; [by rewrite orb_true_r|]. rewrite orb_false_r.
  assert (length (c :: t) ≠ 3%nat ∨ c :: t ≠ bs "../" → bool_decide (c :: t = [] ∨ c :: t = bs "../") = false) as Hno.
  { intros H. apply bool_decide_eq_false. intros [E|E]; [done|]. rewrite E in H. destruct H; done. }
  destruct (Z.eqb_spec c "."%ch) as [->|Hc]; cbn [andb]; [|rewrite Hno by (right; by intros [=]); exact Hl].
  destruct (Nat.eqb_spec (length ("."%ch :: t)) 3) as [L|L]; [|rewrite Hno by (by left); exact Hl].
  destruct t as [|a [|b [|? ?]]]; try discriminate L.
  change (at_ _ 1) with (Some a). change (at_ _ 2) with (Some b). cbn [mbind option_bind].
  destruct (Z.eqb_spec a "."%ch) as [->|Ha]; cbn [negb]; [|rewrite Hno by (right; by intros [=]); exact Hl].
  destruct (Z.eqb_spec b "/"%ch) as [->|Hb]; [done|rewrite Hno by (right; by intros [=]); exact Hl].
Qed.

(** A parent directory at the beginning of a longer URI, or at its end, is let
    through. *)
Example leading_dots_accepted :
  ngx_http_parse_unsafe_uri (bs "../etc/passwd" ++ [NUL]) 13 = Some (mk_unsafe NGX_OK 13 None) ∧
  ngx_http_parse_unsafe_uri (bs "/a/.." ++ [NUL]) 5 = Some (mk_unsafe NGX_OK 5 None).
Proof. by vm_compute. Qed.

(** *** Arguments of the query string *)

(** The first of the [n] positions from [p] on with the property. *)
Fixpoint first_pos (P : Z → bool) (p : Z) (n : nat) : option Z :=
  match n with
  | O => None
  | S n => if P p then Some p else first_pos P (p + 1) n
  end.

Lemma first_pos_skip P d : ∀ p n, (∀ j, p ≤ j < p + Z.of_nat d → P j = false) →
  (d ≤ n)%nat → first_pos P p n = first_pos P (p + Z.of_nat d) (n - d).
Proof.
  induction d as [|d IH]; intros p n Hno Hd; [by rewrite Z.add_0_r, Nat.sub_0_r|].
  destruct n as [|n]; [lia|]. cbn [first_pos]. rewrite Hno by lia.
  rewrite (IH (p + 1) n) by (intros; try apply Hno; lia).
  f_equal; lia.
Qed.

Lemma first_pos_none P p n : (∀ j, p ≤ j < p + Z.of_nat n → P j = false) → first_pos P p n = None.
Proof. intros H. rewrite (first_pos_skip P n) by (done || lia). by rewrite Nat.sub_diag. Qed.

(** A place where an argument of that name is. *)
Definition at_start (text : list Z) (p : Z) : bool :=
  (p =? 0) || bool_decide (at_ text (p - 1) = Some "&"%ch).
Definition is_arg (text name : list Z) (p : Z) : bool :=
  at_start text p && StringOps.starts StringOps.lower (name ++ ["="%ch]) (drop (Z.to_nat p) text).

Lemma lower_only x c : is_byte c → x = "="%ch ∨ x = "&"%ch →
  (StringOps.lower c =? StringOps.lower x) = (c =? x).
Proof.
  intros Hc [-> | ->].
  - assert (Bool.eqb (StringOps.lower c =? StringOps.lower "="%ch) (c =? "="%ch) = true) by by_bytes c.
    by apply eqb_prop.
  - assert (Bool.eqb (StringOps.lower c =? StringOps.lower "&"%ch) (c =? "&"%ch) = true) by by_bytes c.
    by apply eqb_prop.
Qed.

Lemma starts_equals name : ∀ t, bytes t →
  StringOps.starts StringOps.lower (name ++ ["="%ch]) t =
  StringOps.starts StringOps.lower name t && bool_decide (t !! length name = Some "="%ch).
Proof.
  induction name as [|w name IH]; intros [|c t] Ht; [done| |done|]; inversion_clear Ht as [|?? Hc Ht'].
  - cbn [app StringOps.starts length]. rewrite lower_only by auto. rewrite andb_true_r. cbn.
    destruct (Z.eqb_spec c "="%ch) as [->|Hne]; [done|]. symmetry. apply bool_decide_eq_false. congruence.
  - cbn [app StringOps.starts length]. rewrite IH by done. by rewrite andb_assoc.
Qed.

Lemma starts_take f v k : ∀ t, StringOps.starts f v (take k t) = true → StringOps.starts f v t = true.
Proof.
  intros t H. rewrite <- (take_drop k t). rewrite StringOps.starts_app; [done|].
  destruct (decide (length v ≤ length (take k t))%nat); [done|].
  rewrite StringOps.starts_short in H by lia. done.
Qed.

Lemma starts_length f v t : StringOps.starts f v t = true → (length v ≤ length t)%nat.
Proof.
  intros H. destruct (decide (length v ≤ length t)%nat); [done|].
  rewrite StringOps.starts_short in H by lia. done.
Qed.

Section Argument.
Context (w : Z) (word tail text r : list Z).
Context (Hword : StringOps.no_nul (w :: word)) (Htext : bytes text) (Hr : bytes r).
Context (Hsize : Z.of_nat (length (text ++ r)) + Z.of_nat (length (w :: word)) < 2 ^ 62).
Local Abbreviation L := (length text).
Local Abbreviation name := (w :: word).
Local Abbreviation len := (length name).

Lemma find_name_first p : 0 ≤ p < Z.of_nat L →
  find_name (text ++ r) p (Z.of_nat L) (name ++ tail) len =
  Some (StringOps.first_occurrence StringOps.lower name p
          (take (L - S (Z.to_nat p)) (drop (Z.to_nat p) text))).
Proof.
  intros Hp. unfold find_name. cbn [app]. set (n := length word).
  assert (u64 (Z.of_nat (length (w :: word)) - 1) = Z.of_nat n) as ->.
  { cbn [length] in *. rewrite u64_id by lia. unfold n. lia. }
  rewrite length_app in Hsize. cbn [length] in Hsize. fold n in Hsize.
  rewrite s64_id by lia. rewrite drop_app_le by lia.
  destruct (Z.leb_spec (Z.of_nat n) (Z.of_nat (S (length (text ++ r))))) as [Hle|Hgt].
  - rewrite Z.min_l, Nat2Z.id by done.
    set (t := drop (Z.to_nat p) text). set (m := (L - S (Z.to_nat p))%nat).
    assert (length t = S m) as Lt by (unfold t, m; rewrite length_drop; lia).
    rewrite <- (take_drop m t) at 1. rewrite <- app_assoc.
    assert (length (take m t) = m) as Lm by (rewrite length_take; lia).
    replace (Z.of_nat L - 1 - Z.of_nat n) with (p + Z.of_nat (length (take m t)) - Z.of_nat n)
      by (rewrite Lm; unfold m; lia).
    apply StringOps.strlcasestrn_first; [done| |].
    + apply Forall_app_2; [|done]. by apply Forall_drop, Forall_drop.
    + by apply Forall_take, Forall_drop.
  - rewrite StringOps.first_short by (cbn [length]; rewrite length_take, length_drop; rewrite length_app in Hgt; fold n; lia).
    rewrite length_app in Hgt.
    destruct (drop (Z.to_nat p) text ++ r); cbn [StringOps.strlcasestrn_loop];
      (destruct (Z.leb_spec (Z.of_nat L - 1 - Z.of_nat n) p); [done|lia]).
Qed.

Lemma not_arg j : 0 ≤ j < Z.of_nat L →
  StringOps.starts StringOps.lower name (take (L - S (Z.to_nat j)) (drop (Z.to_nat j) text)) = false →
  is_arg text name j = false.
Proof.
  intros Hj Hno. unfold is_arg. destruct (at_start text j); [|done]. cbn [andb].
  apply not_true_is_false. intros Hs. pose proof (starts_length _ _ _ Hs) as Hl.
  rewrite length_app, length_drop in Hl. cbn [length] in Hl.
  rewrite starts_equals in Hs by (by apply Forall_drop). apply andb_true_iff in Hs as [Hs _].
  rewrite <- (take_drop (L - S (Z.to_nat j)) (drop (Z.to_nat j) text)) in Hs.
  rewrite StringOps.starts_app in Hs; [by rewrite Hs in Hno|].
  rewrite length_take, length_drop. cbn [length]. lia.
Qed.

(** What is returned for the argument at [p]. *)
Definition arg_value (p : Z) : Z * Z :=
  let data := p + Z.of_nat len + 1 in
  (data, p + Z.of_nat (length (before "&"%ch (drop (Z.to_nat p) text))) - data).

Lemma arg_here q : 0 ≤ q →
  StringOps.starts StringOps.lower name (take (L - S (Z.to_nat q)) (drop (Z.to_nat q) text)) = true →
  q + Z.of_nat len < Z.of_nat L ∧
  is_arg text name q = at_start text q && bool_decide (at_ text (q + Z.of_nat len) = Some "="%ch).
Proof.
  intros Hq Hs. pose proof (starts_length _ _ _ Hs) as Hl.
  rewrite length_take, length_drop in Hl. cbn [length] in *. split; [lia|].
  unfold is_arg. f_equal. rewrite starts_equals by (by apply Forall_drop).
  rewrite (starts_take _ _ _ _ Hs). cbn [andb length]. rewrite lookup_drop.
  unfold at_. destruct (Z.ltb_spec (q + Z.of_nat (S (length word))) 0); [lia|].
  by replace (Z.to_nat (q + Z.of_nat (S (length word)))) with (Z.to_nat q + S (length word))%nat by lia.
Qed.

Lemma read_start q : 0 ≤ q ≤ Z.of_nat L →
  (if q =? 0 then Some true else c ← at_ (text ++ r) (q - 1); Some (c =? "&"%ch)) = Some (at_start text q).
Proof.
  intros Hq. unfold at_start. destruct (Z.eqb_spec q 0) as [|Hn]; [done|]. cbn [orb].
  rewrite at_app_l by lia. destruct (at_ text (q - 1)) as [c|] eqn:E; cbn [mbind option_bind].
  - f_equal. destruct (Z.eqb_spec c "&"%ch) as [->|]; symmetry;
      [by apply bool_decide_eq_true|apply bool_decide_eq_false; congruence].
  - unfold at_ in E. destruct (Z.ltb_spec (q - 1) 0); [lia|]. apply lookup_ge_None in E. lia.
Qed.

Lemma end_of_value q : 0 ≤ q < Z.of_nat L →
  match StringOps.ngx_strlchr (slice (text ++ r) q (Z.of_nat L - q)) "&"%ch with
  | Some d => q + Z.of_nat d
  | None => Z.of_nat L
  end = q + Z.of_nat (length (before "&"%ch (drop (Z.to_nat q) text))).
Proof.
  intros Hq. rewrite slice_app_l by lia. unfold slice.
  rewrite take_ge by (rewrite length_drop; lia). rewrite strlchr_before.
  destruct (Nat.eqb_spec (length (before "&"%ch (drop (Z.to_nat q) text))) (length (drop (Z.to_nat q) text))) as [->|]; [|done].
  rewrite length_drop. lia.
Qed.

Lemma arg_loop_ok fuel : ∀ p, 0 ≤ p ≤ Z.of_nat L → (L - Z.to_nat p < fuel)%nat →
  arg_loop (text ++ r) (Z.of_nat L) (name ++ tail) len fuel p =
  Some (arg_value <$> first_pos (is_arg text name) p (L - Z.to_nat p)).
Proof.
  induction fuel as [|fuel IH]; intros p Hp Hf; [lia|]. cbn [arg_loop].
  destruct (Z.ltb_spec p (Z.of_nat L)) as [Hlt|Hge].
  2: { by replace (L - Z.to_nat p)%nat with O by lia. }
  rewrite find_name_first by lia. cbn [mbind option_bind].
  set (T := take (L - S (Z.to_nat p)) (drop (Z.to_nat p) text)).
  assert (∀ j, p ≤ j → drop (Z.to_nat (j - p)) T = take (L - S (Z.to_nat j)) (drop (Z.to_nat j) text)) as HT.
  { intros j Hj. unfold T. rewrite skipn_firstn_comm, drop_drop. f_equal; [lia|f_equal; lia]. }
  pose proof (StringOps.first_occurrence_spec StringOps.lower name T p) as Hspec.
  destruct (StringOps.first_occurrence StringOps.lower name p T) as [q|].
  - destruct Hspec as (Hpq & Hs & Hno). rewrite HT in Hs by done.
    destruct (arg_here q ltac:(lia) Hs) as [Hql Hq].
    assert (first_pos (is_arg text name) p (L - Z.to_nat p) = first_pos (is_arg text name) q (L - Z.to_nat q)) as ->.
    { rewrite (first_pos_skip _ (Z.to_nat (q - p))); [f_equal; lia| |lia].
      intros j Hj. apply not_arg; [lia|]. rewrite <- HT by lia. apply Hno. lia. }
    rewrite read_start by lia. cbn [mbind option_bind].
    replace (L - Z.to_nat q)%nat with (S (L - Z.to_nat (q + 1))) by lia. cbn [first_pos].
    rewrite Hq. specialize (IH (q + 1) ltac:(lia) ltac:(lia)).
    rewrite at_app_l by lia. rewrite end_of_value by lia.
    destruct (at_start text q); cbn [mbind option_bind andb]; [|exact IH].
    destruct (at_ text (q + Z.of_nat len)) as [c|] eqn:E.
    2: { unfold at_ in E. destruct (Z.ltb_spec (q + Z.of_nat len) 0); [lia|]. apply lookup_ge_None in E. lia. }
    cbn [mbind option_bind]. destruct (Z.eqb_spec c "="%ch) as [->|Hc].
    + by rewrite bool_decide_eq_true_2.
    + rewrite bool_decide_eq_false_2 by congruence. exact IH.
  - rewrite first_pos_none; [done|]. intros j Hj. apply not_arg; [lia|]. rewrite <- HT by lia.
    destruct (decide (Z.to_nat (j - p) < length T)%nat); [by apply Hspec|].
    by rewrite drop_ge by lia.
Qed.
End Argument.

(** The query string as the list of its arguments. *)
Fixpoint join (fs : list (list Z)) : list Z :=
  match fs with
  | [] => []
  | [f] => f
  | f :: fs => f ++ "&"%ch :: join fs
  end.

(** The value of the first argument of that name, in any case. *)
Fixpoint field_lookup (name : list Z) (fs : list (list Z)) : option (list Z) :=
  match fs with
  | [] => None
  | f :: fs =>
      if StringOps.starts StringOps.lower (name ++ ["="%ch]) f then Some (drop (S (length name)) f)
      else field_lookup name fs
  end.

Definition behind (fs : list (list Z)) : list Z :=
  match fs with [] => [] | _ => "&"%ch :: join fs end.

Lemma join_fields f fs : join (f :: fs) = f ++ behind fs.
Proof. destruct fs; cbn; by rewrite ?app_nil_r. Qed.

Lemma starts_sep sep v k : sep = "="%ch ∨ sep = "&"%ch → bytes v → sep ∉ v → ∀ f,
  StringOps.starts StringOps.lower v (f ++ sep :: k) = StringOps.starts StringOps.lower v f.
Proof.
  intros Hsep. induction v as [|x v IH]; intros Hv Hn f; [done|]. inversion_clear Hv as [|?? Hx Hv'].
  rewrite not_elem_of_cons in Hn. destruct Hn as [Hnx Hn].
  destruct f as [|c f]; cbn [app StringOps.starts]; [|by rewrite IH].
  rewrite Z.eqb_sym, lower_only by auto. by rewrite (proj2 (Z.eqb_neq x _)).
Qed.

Lemma starts_behind v fs f : bytes v → "&"%ch ∉ v →
  StringOps.starts StringOps.lower v (f ++ behind fs) = StringOps.starts StringOps.lower v f.
Proof. intros. destruct fs; cbn [behind]; [by rewrite app_nil_r|by apply starts_sep; auto]. Qed.

Lemma before_behind f fs : "&"%ch ∉ f → before "&"%ch (f ++ behind fs) = f.
Proof.
  induction f as [|c f IH]; intros Hn; [by destruct fs|].
  rewrite not_elem_of_cons in Hn. destruct Hn as [Hc Hn]. cbn.
  rewrite (proj2 (Z.eqb_neq _ _)) by done. by rewrite IH.
Qed.

Section Fields.
Context (name : list Z) (Hname : bytes name) (Hamp : "&"%ch ∉ name).
Local Abbreviation is_field f := (StringOps.starts StringOps.lower (name ++ ["="%ch]) f).

Lemma field_here pre f fs : (pre = [] ∨ ∃ p, pre = p ++ ["&"%ch]) →
  is_arg (pre ++ f ++ behind fs) name (Z.of_nat (length pre)) = is_field f.
Proof.
  intros Hpre. unfold is_arg. rewrite Nat2Z.id, drop_app_length.
  rewrite starts_behind.
  2: { apply Forall_app_2; [done|]. by repeat constructor. }
  2: { intros [?|[?|?%not_elem_of_nil]%elem_of_cons]%elem_of_app; done. }
  replace (at_start _ _) with true; [done|]. symmetry. unfold at_start.
  destruct Hpre as [->|[p ->]]; [done|]. apply orb_true_iff. right. apply bool_decide_eq_true.
  rewrite length_app. cbn. rewrite <- app_assoc. cbn.
  replace (Z.of_nat (length p + 1) - 1) with (Z.of_nat (length p)) by lia. apply at_here.
Qed.

Lemma inside_field pre f fs i : "&"%ch ∉ f → (1 ≤ i ≤ length f)%nat →
  is_arg (pre ++ f ++ behind fs) name (Z.of_nat (length pre) + Z.of_nat i) = false.
Proof.
  intros Hf Hi. unfold is_arg. apply andb_false_iff. left. unfold at_start.
  apply orb_false_iff. split; [apply Z.eqb_neq; lia|]. apply bool_decide_eq_false.
  replace (Z.of_nat (length pre) + Z.of_nat i - 1) with (Z.of_nat (length pre) + Z.of_nat (i - 1)) by lia.
  rewrite at_app_r, lookup_app_l by lia. intros E. by apply list_elem_of_lookup_2 in E.
Qed.

Lemma field_positions pre f fs : (pre = [] ∨ ∃ p, pre = p ++ ["&"%ch]) →
  "&"%ch ∉ f → is_field f = false → ∀ j,
  Z.of_nat (length pre) ≤ j ≤ Z.of_nat (length pre) + Z.of_nat (length f) →
  is_arg (pre ++ f ++ behind fs) name j = false.
Proof.
  intros Hpre Hf Hno j Hj. destruct (Z.eq_dec j (Z.of_nat (length pre))) as [->|Hn].
  - by rewrite field_here.
  - replace j with (Z.of_nat (length pre) + Z.of_nat (Z.to_nat (j - Z.of_nat (length pre)))) by lia.
    apply inside_field; [done|lia].
Qed.

Definition value_at (text : list Z) (p : Z) : list Z :=
  let data := p + Z.of_nat (length name) + 1 in
  slice text data (p + Z.of_nat (length (before "&"%ch (drop (Z.to_nat p) text))) - data).

Lemma first_field fs : Forall (λ f, "&"%ch ∉ f) fs → ∀ pre,
  (pre = [] ∨ ∃ p, pre = p ++ ["&"%ch]) →
  value_at (pre ++ join fs) <$>
    first_pos (is_arg (pre ++ join fs) name) (Z.of_nat (length pre)) (length (join fs)) =
  field_lookup name fs.
Proof.
  induction fs as [|f fs IH]; intros Hfs pre Hpre; [done|].
  inversion_clear Hfs as [|?? Hf Hfs']. rewrite !join_fields. cbn [field_lookup].
  destruct (is_field f) eqn:E.
  - pose proof (starts_length _ _ _ E) as Hl. rewrite length_app in Hl. cbn [length] in Hl.
    rewrite length_app. destruct (length f + length (behind fs))%nat eqn:En; [lia|].
    cbn [first_pos]. rewrite field_here, E by done. cbn [fmap option_fmap option_map]. f_equal.
    unfold value_at. rewrite Nat2Z.id, drop_app_length, before_behind by done.
    unfold slice. replace (Z.to_nat (Z.of_nat (length pre) + Z.of_nat (length name) + 1))
      with (length pre + S (length name))%nat by lia.
    rewrite <- drop_drop, drop_app_length, drop_app_le by lia. apply take_app_length'.
    rewrite length_drop. lia.
  - rewrite length_app. destruct fs as [|g fs].
    + cbn [behind length field_lookup]. rewrite first_pos_none; [done|].
      intros j Hj. apply (field_positions pre f []); try done. lia.
    + rewrite (first_pos_skip _ (S (length f))); [| |cbn [behind length]; lia].
      2: { intros j Hj. apply field_positions; try done. lia. }
      specialize (IH Hfs' (pre ++ f ++ ["&"%ch])). rewrite <- !app_assoc in IH. cbn [app behind] in IH |- *.
      rewrite <- IH by (right; exists (pre ++ f); by rewrite <- app_assoc).
      f_equal. f_equal; [|cbn [length]; lia]. rewrite !length_app. cbn. lia.
Qed.
End Fields.

(** C23: For a name that is not empty and has no ampersand: the argument that is
    found is the first of the query string with the name, in any case of its
    letters, and the value is all that follows the equals sign; there is none
    exactly when no argument has the name, and nothing behind the query string
    is read.  An empty name reads behind it, see [empty_name_overread]. *)
Theorem http_arg_correct w word tail fs r :
  let name := w :: word in let text := join fs in
  StringOps.no_nul name → "&"%ch ∉ name → bytes text → bytes r →
  Forall (λ f, "&"%ch ∉ f) fs →
  Z.of_nat (length (text ++ r)) + Z.of_nat (length name) < 2 ^ 62 →
  ∃ found, ngx_http_arg (text ++ r) (length text) (name ++ tail) (length name) = Some found ∧
    (λ '(data, n), slice text data n) <$> found = field_lookup name fs.
Proof.
  intros name text Hname Hamp Htext Hr Hfs Hsize.
  pose proof (first_field name (StringOps.no_nul_bytes _ Hname) Hamp fs Hfs [] (or_introl eq_refl)) as Hfirst.
  cbn [app length] in Hfirst. fold text in Hfirst. unfold ngx_http_arg.
  destruct (Nat.eqb_spec (length text) 0) as [E|E].
  { exists None. split; [done|]. rewrite E in Hfirst. by rewrite <- Hfirst. }
  rewrite (arg_loop_ok w word tail text r Hname Htext Hr Hsize) by lia.
  eexists. split; [done|]. rewrite Nat.sub_0_r, <- Hfirst, <- option_fmap_compose. done.
Qed.

Lemma http_arg_correct_witness :
  ngx_http_arg (bs "xa=1&A=23&b HTTP") 11 (bs "a,b") 1 = Some (Some (7, 2)) ∧
  ∃ found, ngx_http_arg (bs "xa=1&A=23&b HTTP") 11 (bs "a,b") 1 = Some found ∧
    (λ '(data, n), slice (bs "xa=1&A=23&b") data n) <$> found = Some (bs "23").
Proof.
  split; [by vm_compute|].
  apply (http_arg_correct "a"%ch [] (bs ",b") [bs "xa=1"; bs "A=23"; bs "b"] (bs " HTTP"));
    try (repeat constructor; done).
  - by apply (bool_decide_unpack _).
  - by repeat constructor; apply (bool_decide_unpack _).
Defined.

(** The variable [$arg_] has an empty name: its length less one is the largest
    [size_t], and the comparison runs over the end of the query string. *)
Example empty_name_overread :
  ngx_http_arg (bs "=1&b=2 HTTP") 6 (bs "=1&b=2 HTTP") 0 = None.
Proof. by vm_compute. Qed.

(** *** Cookies *)

Lemma walk_all cond t a : Forall (λ c, cond c = true) a → ∀ P,
  walk cond (P ++ a ++ t) (Z.of_nat (length P)) (length a) = Some (Z.of_nat (length P) + Z.of_nat (length a)).
Proof.
  induction a as [|c a IH]; intros Ha P; [cbn; f_equal; lia|]. inversion_clear Ha as [|?? Hc Ha'].
  cbn [walk length app]. rewrite at_here. cbn [mbind option_bind]. rewrite Hc.
  specialize (IH Ha' (P ++ [c])). rewrite <- app_assoc, length_app in IH. cbn [app length] in IH.
  replace (Z.of_nat (length P) + 1) with (Z.of_nat (length P + 1)) by lia. rewrite IH. f_equal. lia.
Qed.

Lemma walk_stop cond t c a : Forall (λ c, cond c = true) a → cond c = false → ∀ P n, (length a < n)%nat →
  walk cond (P ++ a ++ c :: t) (Z.of_nat (length P)) n = Some (Z.of_nat (length P) + Z.of_nat (length a)).
Proof.
  intros Ha Hc. induction Ha as [|x a Hx Ha IH]; intros P [|n] Hn; cbn in Hn; [lia| |lia|].
  - cbn [walk app]. rewrite at_here. cbn [mbind option_bind length]. rewrite Hc. f_equal. lia.
  - cbn [walk app]. rewrite at_here. cbn [mbind option_bind]. rewrite Hx.
    specialize (IH (P ++ [x]) n ltac:(lia)). rewrite <- app_assoc, length_app in IH. cbn [app length] in IH.
    replace (Z.of_nat (length P) + 1) with (Z.of_nat (length P + 1)) by lia. rewrite IH. f_equal. cbn. lia.
Qed.

Definition is_sep (c : Z) : bool := (c =? ";"%ch) || (c =? ","%ch).

Lemma skip_loop_ok t a : Forall (λ c, is_sep c = false) a → ∀ P,
  skip_loop (P ++ a ++ t) (Z.of_nat (length P)) (length a) = Some (Z.of_nat (length P) + Z.of_nat (length a)) ∧
  ∀ n, (length a < n)%nat →
    skip_loop (P ++ a ++ ";"%ch :: t) (Z.of_nat (length P)) n = Some (Z.of_nat (length P) + Z.of_nat (length a) + 1).
Proof.
  induction 1 as [|x a Hx Ha IH]; intros P.
  - split; [cbn; f_equal; lia|]. intros [|n] Hn; cbn in Hn; [lia|].
    cbn [skip_loop app]. rewrite at_here. cbn. f_equal. lia.
  - destruct (IH (P ++ [x])) as [I1 I2]. rewrite <- app_assoc, length_app in I1. cbn [app length] in *.
    unfold is_sep in Hx. replace (Z.of_nat (length P + 1)) with (Z.of_nat (length P) + 1) in * by lia.
    split; [|intros [|n] Hn; [lia|]]; cbn [skip_loop]; rewrite at_here; cbn [mbind option_bind]; rewrite Hx.
    + rewrite I1. f_equal. lia.
    + specialize (I2 n ltac:(lia)). rewrite <- app_assoc, length_app in I2. cbn [app length] in I2.
      replace (Z.of_nat (length P + 1)) with (Z.of_nat (length P) + 1) in I2 by lia.
      rewrite I2. f_equal. lia.
Qed.

(** A cookie line as the pairs it holds. *)
Fixpoint cookies (ps : list (list Z * list Z)) : list Z :=
  match ps with
  | [] => []
  | [(k, v)] => k ++ "="%ch :: v
  | (k, v) :: ps => k ++ "="%ch :: v ++ bs "; " ++ cookies ps
  end.

Definition others (ps : list (list Z * list Z)) : list Z :=
  match ps with [] => [] | _ => ";"%ch :: " "%ch :: cookies ps end.

Lemma cookies_cons k v ps : cookies ((k, v) :: ps) = k ++ "="%ch :: v ++ others ps.
Proof. by destruct ps; cbn [cookies others]; rewrite ?app_nil_r. Qed.

Definition same_name (name k : list Z) : bool :=
  (length name =? length k)%nat && StringOps.starts StringOps.lower name k.

Fixpoint cookie_lookup (name : list Z) (ps : list (list Z * list Z)) : option (list Z) :=
  match ps with
  | [] => None
  | (k, v) :: ps => if same_name name k then Some v else cookie_lookup name ps
  end.

(** A name holds none of the separators, a value no semicolon or comma, and it
    does not begin with a space. *)
Definition plain (c : Z) : Prop := is_byte c ∧ c ≠ NUL ∧ is_sep c = false.
Definition pair_ok (kv : list Z * list Z) : Prop :=
  Forall (λ c, plain c ∧ c ≠ " "%ch ∧ c ≠ "="%ch) kv.1 ∧
  Forall plain kv.2 ∧ head kv.2 ≠ Some " "%ch.

Lemma cookies_head kv ps : pair_ok kv → ∃ c t, cookies (kv :: ps) = c :: t ∧ c ≠ " "%ch.
Proof.
  destruct kv as [[|c k] v]; intros (Hk & _ & _); rewrite cookies_cons; cbn [app]; [by eauto|].
  cbn in Hk. inversion_clear Hk as [|?? [_ [? _]] _]. by eauto.
Qed.

Lemma plain_no_nul l : Forall plain l → StringOps.no_nul l.
Proof. intros H. eapply list.Forall_impl; [exact H|]. by intros c (? & ? & _). Qed.
Lemma plain_no_sep l : Forall plain l → Forall (λ c, is_sep c = false) l.
Proof. intros H. eapply list.Forall_impl; [exact H|]. by intros c (_ & _ & ?). Qed.
Lemma key_plain k : Forall (λ c, plain c ∧ c ≠ " "%ch ∧ c ≠ "="%ch) k → Forall plain k.
Proof. intros H. eapply list.Forall_impl; [exact H|]. by intros c (? & _). Qed.

Lemma cookies_no_nul ps : Forall pair_ok ps → StringOps.no_nul (cookies ps).
Proof.
  induction 1 as [|[k v] ps (Hk & Hv & _) Hps IH]; [done|]. rewrite cookies_cons.
  apply Forall_app_2; [by apply plain_no_nul, key_plain|].
  constructor; [done|]. apply Forall_app_2; [by apply plain_no_nul|].
  destruct ps; [done|]. by repeat (constructor; [done|]).
Qed.

Lemma while_here cond mem start end_ c : at_ mem start = Some c → cond c = false →
  while_ cond mem start end_ = Some start.
Proof.
  intros Hat Hc. unfold while_. destruct (Z.to_nat (end_ - start)); [done|]. cbn [walk].
  rewrite Hat. cbn [mbind option_bind]. by rewrite Hc.
Qed.

(** From anywhere in a pair, on to the next one. *)
Lemma skip_ok P seg ps x r : Forall (λ c, is_sep c = false) seg → Forall pair_ok ps →
  let mem := P ++ seg ++ others ps ++ x :: r in
  skip mem (Z.of_nat (length P)) (Z.of_nat (length P) + Z.of_nat (length seg) + Z.of_nat (length (others ps))) =
  Some (Z.of_nat (length P) + Z.of_nat (length seg) + Z.of_nat (length (others ps)) - Z.of_nat (length (cookies ps))).
Proof.
  intros Hseg Hps mem. unfold skip. destruct ps as [|kv ps].
  - cbn [others cookies length] in *. unfold mem. cbn [app].
    replace (Z.to_nat (Z.of_nat (length P) + Z.of_nat (length seg) + Z.of_nat 0 - Z.of_nat (length P)))
      with (length seg) by lia.
    rewrite (proj1 (skip_loop_ok _ seg Hseg P)). cbn [mbind option_bind]. unfold while_.
    replace (Z.to_nat _) with O by lia. cbn. f_equal. lia.
  - inversion_clear Hps as [|?? Hkv _]. destruct (cookies_head kv ps Hkv) as (c & t & E & Hc).
    unfold mem. cbn [others]. rewrite E. cbn [app length].
    rewrite (proj2 (skip_loop_ok _ seg Hseg P)) by lia. cbn [mbind option_bind]. unfold while_.
    replace (P ++ seg ++ ";"%ch :: " "%ch :: c :: t ++ x :: r)
      with ((P ++ seg ++ [";"%ch]) ++ [" "%ch] ++ c :: t ++ x :: r) by by rewrite <- !app_assoc.
    replace (Z.of_nat (length P) + Z.of_nat (length seg) + 1) with (Z.of_nat (length (P ++ seg ++ [";"%ch])))
      by (rewrite !length_app; cbn; lia).
    rewrite walk_stop.
    + f_equal. rewrite !length_app. cbn. lia.
    + by repeat constructor.
    + by apply Z.eqb_neq.
    + rewrite !length_app. cbn. lia.
Qed.

Lemma after_value Q v ps x r : Forall plain v → Forall pair_ok ps →
  while_ (λ c, negb (c =? ";"%ch)) (Q ++ v ++ others ps ++ x :: r) (Z.of_nat (length Q))
    (Z.of_nat (length Q) + Z.of_nat (length v) + Z.of_nat (length (others ps))) =
  Some (Z.of_nat (length Q) + Z.of_nat (length v)).
Proof.
  intros Hv Hps. assert (Forall (λ c, negb (c =? ";"%ch) = true) v) as Hv'.
  { eapply list.Forall_impl; [exact Hv|]. intros c (_ & _ & Hc). unfold is_sep in Hc. bool_to_prop.
    by apply negb_true_iff, Z.eqb_neq. }
  unfold while_. destruct ps as [|kv ps]; cbn [others app length].
  - replace (Z.to_nat _) with (length v) by lia. by apply walk_all.
  - apply walk_stop; [done|done|]. lia.
Qed.

Lemma value_head v ps r : Forall plain v → head v ≠ Some " "%ch →
  ∃ c t, v ++ others ps ++ NUL :: r = c :: t ∧ c ≠ " "%ch.
Proof.
  intros Hv Hh. destruct v as [|c v]; cbn [app].
  - destruct ps; cbn [others app]; by eauto.
  - exists c, (v ++ others ps ++ NUL :: r). split; [done|]. cbn in Hh. congruence.
Qed.

Lemma after_name_ok Q k v ps r : pair_ok (k, v) → Forall pair_ok ps →
  after_name (Q ++ k ++ "="%ch :: v ++ others ps ++ NUL :: r)
    (Z.of_nat (length Q) + Z.of_nat (length (k ++ "="%ch :: v ++ others ps))) true (Z.of_nat (length Q)) =
  Some (match k with
        | [] => Return (Some (Z.of_nat (length Q) + 1, Z.of_nat (length v)))
        | _ => Skip (Z.of_nat (length Q) + 1)
        end).
Proof.
  intros (Hk & Hv & Hh) Hps. unfold after_name. cbn in Hk, Hv, Hh.
  destruct k as [|c k].
  - cbn [app]. rewrite (while_here _ _ _ _ "="%ch) by (apply at_here || done).
    cbn [mbind option_bind negb].
    destruct (Z.eqb_spec (Z.of_nat (length Q)) (Z.of_nat (length Q) + Z.of_nat (length ("="%ch :: v ++ others ps))));
      [cbn in *; lia|].
    rewrite at_here. cbn [mbind option_bind]. change (negb ("="%ch =? "="%ch)) with false. cbv iota.
    destruct (value_head v ps r Hv Hh) as (c & t & E & Hc).
    assert (Z.of_nat (length Q) + 1 = Z.of_nat (length (Q ++ ["="%ch]))) as HQ by (rewrite length_app; cbn; lia).
    rewrite HQ.
    replace (Q ++ "="%ch :: v ++ others ps ++ NUL :: r) with ((Q ++ ["="%ch]) ++ v ++ others ps ++ NUL :: r)
      by by rewrite <- app_assoc.
    rewrite (while_here _ _ _ _ c) by first [rewrite E; apply at_here | by apply Z.eqb_neq].
    cbn [mbind option_bind].
    replace (Z.of_nat (length Q) + _) with
      (Z.of_nat (length (Q ++ ["="%ch])) + Z.of_nat (length v) + Z.of_nat (length (others ps)))
      by (rewrite <- HQ; cbn [length]; rewrite length_app; lia).
    rewrite after_value by done. cbn [mbind option_bind]. do 4 f_equal. lia.
  - inversion_clear Hk as [|?? [_ [Hcs Hce]] _]. cbn [app].
    rewrite (while_here _ _ _ _ c) by (apply at_here || by apply Z.eqb_neq).
    cbn [mbind option_bind negb].
    destruct (Z.eqb_spec (Z.of_nat (length Q)) (Z.of_nat (length Q) + Z.of_nat (length (c :: k ++ "="%ch :: v ++ others ps))));
      [cbn in *; lia|].
    rewrite at_here. cbn [mbind option_bind]. by rewrite (proj2 (Z.eqb_neq _ _) Hce).
Qed.

Section Cookie.
Context (name tail : list Z) (Hname : StringOps.no_nul name) (Heq : "="%ch ∉ name).

Lemma compare_name k t r : StringOps.no_nul (k ++ "="%ch :: t) → bytes r →
  ∃ m, StringOps.ngx_strncasecmp (k ++ "="%ch :: t ++ NUL :: r) (name ++ tail) (length name) = Some m ∧
    (m =? 0) = StringOps.starts StringOps.lower name k.
Proof.
  intros Hk Hr.
  destruct (StringOps.strncasecmp_starts name (k ++ "="%ch :: t ++ NUL :: r) tail Hname) as (m & E & Em).
  - replace (k ++ _) with ((k ++ "="%ch :: t) ++ NUL :: r) by by rewrite <- app_assoc.
    apply Forall_app_2; [by apply StringOps.no_nul_bytes|]. by constructor.
  - right. exists (k ++ "="%ch :: t), r. split; [by rewrite <- app_assoc|done].
  - exists m. split; [exact E|]. rewrite Em. apply starts_sep; auto using StringOps.no_nul_bytes.
Qed.

Definition outcome_ok (ps : list (list Z * list Z)) (text : list Z) (res : option (option (Z * Z))) : Prop :=
  match res with
  | Some (Some (d, n)) => cookie_lookup name ps = Some (slice text d n)
  | Some None => False
  | None => cookie_lookup name ps = None
  end.

Definition line_ok (ps : list (list Z * list Z)) (r P : list Z) (fuel : nat) : Prop :=
  ∃ res, header_loop (P ++ cookies ps ++ NUL :: r) (Z.of_nat (length P) + Z.of_nat (length (cookies ps)))
           (name ++ tail) (length name) true fuel (Z.of_nat (length P)) = Some res ∧
    outcome_ok ps (P ++ cookies ps) res.

(** Once a pair is left from inside of it, the others are looked at. *)
Lemma skip_to_others ps r P a seg fuel : Forall (λ c, is_sep c = false) seg → Forall pair_ok ps →
  (∀ Q, line_ok ps r Q fuel) →
  let text := P ++ a ++ seg ++ others ps in
  ∃ res, (start ← skip (text ++ NUL :: r) (Z.of_nat (length P) + Z.of_nat (length a)) (Z.of_nat (length text));
          header_loop (text ++ NUL :: r) (Z.of_nat (length text)) (name ++ tail) (length name) true fuel start) = Some res ∧
    outcome_ok ps text res.
Proof.
  intros Hseg Hps HQ text.
  assert (∃ lead, others ps = lead ++ cookies ps) as [lead El].
  { destruct ps; [by exists []|by exists (bs "; ")]. }
  pose proof (skip_ok (P ++ a) seg ps NUL r Hseg Hps) as Hs. cbv zeta in Hs.
  replace (text ++ NUL :: r) with ((P ++ a) ++ seg ++ others ps ++ NUL :: r)
    by (unfold text; by rewrite <- !app_assoc).
  replace (Z.of_nat (length P) + Z.of_nat (length a)) with (Z.of_nat (length (P ++ a))) by (rewrite length_app; lia).
  replace (Z.of_nat (length text)) with (Z.of_nat (length (P ++ a)) + Z.of_nat (length seg) + Z.of_nat (length (others ps)))
    by (unfold text; rewrite !length_app; lia).
  rewrite Hs. cbn [mbind option_bind]. clear Hs.
  destruct (HQ ((P ++ a) ++ seg ++ lead)) as (res & E & Hres). exists res.
  rewrite <- !app_assoc in E. rewrite El in *. rewrite <- !app_assoc in *. split.
  - rewrite <- E. f_equal; rewrite !length_app; lia.
  - unfold text. rewrite El. exact Hres.
Qed.

(** What the loop returns for a line of which [P] has been read. *)
Lemma header_loop_ok r ps : bytes r → Forall pair_ok ps → ∀ fuel P, (length (cookies ps) < fuel)%nat →
  line_ok ps r P fuel.
Proof.
  intros Hr. induction 1 as [|[k v] ps Hkv Hps IH]; intros [|fuel] P Hf; [lia| |lia|].
  { exists None. split; [|done]. cbn [header_loop cookies length].
    by destruct (Z.ltb_spec (Z.of_nat (length P)) (Z.of_nat (length P) + Z.of_nat 0)); [lia|]. }
  pose proof (cookies_no_nul _ (Forall_cons_2 _ _ _ Hkv Hps)) as Hnn. unfold line_ok.
  rewrite cookies_cons in *.
  assert (∀ Q, line_ok ps r Q fuel) as HQ.
  { intros Q. apply IH. rewrite !length_app in Hf. cbn [length] in Hf. rewrite length_app in Hf.
    destruct ps; cbn [others cookies length] in *; lia. }
  set (text := k ++ "="%ch :: v ++ others ps) in *.
  cbn [header_loop].
  destruct (Z.ltb_spec (Z.of_nat (length P)) (Z.of_nat (length P) + Z.of_nat (length text)));
    [|unfold text in *; rewrite length_app in *; cbn in *; lia].
  rewrite Nat2Z.id, drop_app_length.
  destruct (compare_name k (v ++ others ps) r Hnn Hr) as (m & E & Em).
  assert (k ++ "="%ch :: (v ++ others ps) ++ NUL :: r = text ++ NUL :: r) as Er
    by (unfold text; rewrite <- !app_assoc; cbn [app]; by rewrite <- app_assoc).
  rewrite Er in E. rewrite E. cbn [mbind option_bind]. rewrite Em. clear E Em Er m.
  unfold outcome_ok. cbn [cookie_lookup]. unfold same_name.
  assert (Forall (λ c, is_sep c = false) (k ++ "="%ch :: v)) as Hsep.
  { destruct Hkv as (Hk & Hv & _). apply Forall_app_2; [by apply plain_no_sep, key_plain|].
    constructor; [done|by apply plain_no_sep]. }
  assert (text = (k ++ "="%ch :: v) ++ others ps) as Et by (unfold text; by rewrite <- app_assoc).
  assert (Z.of_nat (length P) + Z.of_nat (length text) = Z.of_nat (length (P ++ text))) as El
    by (rewrite length_app; lia).
  rewrite El, app_assoc.
  destruct (StringOps.starts StringOps.lower name k) eqn:Es.
  - (* the name, or a longer one *)
    pose proof (starts_length _ _ _ Es) as Hl.
    rewrite <- (take_drop (length name) k) in Et, Hsep.
    set (k1 := take (length name) k) in *. set (k2 := drop (length name) k) in *.
    assert (length k1 = length name) as L1 by (unfold k1; rewrite length_take; lia).
    assert (length k = (length name + length k2)%nat) as L2 by (unfold k2; rewrite length_drop; lia).
    assert (pair_ok (k2, v)) as Hkv2.
    { destruct Hkv as (Hk & Hv & Hh). split; [|done]. by apply Forall_drop. }
    pose proof (after_name_ok (P ++ k1) k2 v ps r Hkv2 Hps) as Ha.
    assert (text = k1 ++ k2 ++ "="%ch :: v ++ others ps) as Et2.
    { rewrite Et, <- !app_assoc. cbn [app]. by rewrite <- ?app_assoc. }
    clearbody text k1 k2. clear Et. subst text.
    replace ((P ++ k1) ++ k2 ++ "="%ch :: v ++ others ps ++ NUL :: r)
      with ((P ++ k1 ++ k2 ++ "="%ch :: v ++ others ps) ++ NUL :: r) in Ha
      by (rewrite <- !app_assoc; cbn [app]; by rewrite <- ?app_assoc).
    replace (Z.of_nat (length (P ++ k1)) + Z.of_nat (length (k2 ++ "="%ch :: v ++ others ps)))
      with (Z.of_nat (length (P ++ k1 ++ k2 ++ "="%ch :: v ++ others ps))) in Ha
      by (rewrite !length_app; lia).
    replace (Z.of_nat (length (P ++ k1))) with (Z.of_nat (length P) + Z.of_nat (length name)) in Ha
      by (rewrite length_app; lia).
    rewrite Ha. cbn [mbind option_bind]. rewrite andb_true_r.
    destruct k2 as [|c k2].
    + eexists. split; [done|]. rewrite (proj2 (Nat.eqb_eq _ _)) by (cbn in L2; lia). f_equal.
      unfold slice. rewrite Nat2Z.id. cbn [app].
      replace (P ++ k1 ++ "="%ch :: v ++ others ps) with ((P ++ k1 ++ ["="%ch]) ++ v ++ others ps)
        by by rewrite <- !app_assoc.
      rewrite drop_app_length' by (rewrite !length_app; cbn; lia). symmetry. apply take_app_length.
    + rewrite (proj2 (Nat.eqb_neq _ _)) by (cbn in L2; lia).
      destruct (skip_to_others ps r P (k1 ++ [c]) (k2 ++ "="%ch :: v) fuel) as (res & Er & Hres); [|done|done|].
      { cbn [app] in Hsep. rewrite <- app_assoc in Hsep. apply Forall_app in Hsep as [_ Hsep].
        cbn [app] in Hsep. by inversion_clear Hsep. }
      assert (P ++ (k1 ++ [c]) ++ (k2 ++ "="%ch :: v) ++ others ps =
              P ++ k1 ++ (c :: k2) ++ "="%ch :: v ++ others ps) as Etext
        by (rewrite <- !app_assoc; cbn [app]; by rewrite <- ?app_assoc).
      rewrite Etext in Er, Hres. rewrite (length_app k1 [c]) in Er. exists res. split; [|exact Hres].
      replace (Z.of_nat (length P) + Z.of_nat (length name) + 1)
        with (Z.of_nat (length P) + Z.of_nat (length k1 + 1)) by lia. exact Er.
  - rewrite andb_false_r. cbn [mbind option_bind].
    destruct (skip_to_others ps r P [] (k ++ "="%ch :: v) fuel Hsep Hps HQ) as (res & Er & Hres).
    cbn [app length] in Er, Hres. rewrite <- Et in Er, Hres. rewrite Z.add_0_r in Er.
    by exists res.
Qed.
End Cookie.

(** The first of the lines that has the cookie, and its value. *)
Fixpoint lines_lookup (name : list Z) (i : Z) (lines : list (list (list Z * list Z))) : option (Z * list Z) :=
  match lines with
  | [] => None
  | ps :: lines =>
      match cookie_lookup name ps with
      | Some v => Some (i, v)
      | None => lines_lookup name (i + 1) lines
      end
  end.

(** A header as the request header parser leaves it, ended by a NUL; [r] is
    what follows in memory. *)
Definition line_of (r : list Z) (ps : list (list Z * list Z)) : list Z * nat :=
  (cookies ps ++ NUL :: r, length (cookies ps)).

Lemma cookie_lookup_short name ps : (length (cookies ps) < length name)%nat → cookie_lookup name ps = None.
Proof.
  induction ps as [|[k v] ps IH]; intros Hl; [done|]. rewrite cookies_cons, !length_app in Hl.
  cbn [cookie_lookup length] in *. rewrite length_app in Hl. unfold same_name.
  rewrite (proj2 (Nat.eqb_neq _ _)) by lia. cbn [andb]. apply IH. destruct ps; cbn in *; lia.
Qed.

Definition found_ok (name : list Z) (i0 : Z) (lines : list (list (list Z * list Z)))
    (res : Z * option (Z * Z)) : Prop :=
  match res with
  | (i, Some (d, n)) =>
      ∃ ps, i0 ≤ i ∧ lines !! Z.to_nat (i - i0) = Some ps ∧
        lines_lookup name i0 lines = Some (i, slice (cookies ps) d n)
  | (i, None) => i = NGX_DECLINED ∧ lines_lookup name i0 lines = None
  end.

Lemma headers_loop_ok name tail r lines : StringOps.no_nul name → "="%ch ∉ name → bytes r →
  Forall (Forall pair_ok) lines → ∀ i,
  ∃ res, headers_loop (name ++ tail) (length name) true i (line_of r <$> lines) = Some res ∧
    found_ok name i lines res.
Proof.
  intros Hname Heq Hr. induction 1 as [|ps lines Hps Hlines IH]; intros i; [by eexists|].
  cbn [fmap list_fmap headers_loop]. unfold line_of at 1.
  assert (cookie_lookup name ps = None →
    ∃ res, headers_loop (name ++ tail) (length name) true (i + 1) (line_of r <$> lines) = Some res ∧
      found_ok name i (ps :: lines) res) as Hnext.
  { intros Hno. destruct (IH (i + 1)) as ([j [[d n]|]] & E & H); exists (j, Some (d, n)) || exists (j, None);
      (split; [exact E|]); cbn [found_ok lines_lookup] in *; rewrite Hno; [|done].
    destruct H as (ps' & Hj & Hl & Hv). exists ps'. split; [lia|]. split; [|done].
    by replace (Z.to_nat (j - i)) with (S (Z.to_nat (j - (i + 1)))) by lia. }
  destruct (Nat.ltb_spec (length (cookies ps)) (length name)) as [Hlt|_].
  { by apply Hnext, cookie_lookup_short. }
  destruct (header_loop_ok name tail Hname Heq r ps Hr Hps (S (length (cookies ps))) [] ltac:(lia)) as (res & E & Hres).
  cbn [app length] in E. change (Z.of_nat 0) with 0 in E. rewrite Z.add_0_l in E. rewrite E. cbn [mbind option_bind].
  unfold outcome_ok in Hres. cbn [app] in Hres. destruct res as [[[d n]|]|]; [|done|by apply Hnext].
  eexists. split; [done|]. exists ps. rewrite Z.sub_diag. split; [lia|]. split; [done|].
  cbn [lines_lookup]. by rewrite Hres.
Qed.

(** C24: Printing cookies into header lines and looking a name up finds the first
    pair with that name, in any case of its letters, and its whole value. *)
Theorem cookie_roundtrip name tail r lines :
  StringOps.no_nul name → "="%ch ∉ name → bytes r → Forall (Forall pair_ok) lines →
  ∃ res, ngx_http_parse_multi_header_lines (line_of r <$> lines) (name ++ tail) (length name) true = Some res ∧
    found_ok name 0 lines res.
Proof. intros. by apply headers_loop_ok. Qed.

Lemma cookie_roundtrip_witness :
  ∃ res, ngx_http_parse_multi_header_lines
      [(bs "lang=en" ++ [NUL], 7%nat); (bs "idx=7; ID=42, x" ++ [NUL], 12%nat)] (bs "id ") 2 true = Some res ∧
    found_ok (bs "id") 0 [[(bs "lang", bs "en")]; [(bs "idx", bs "7"); (bs "ID", bs "42")]] res.
Proof.
  pose proof (cookie_roundtrip (bs "id") (bs " ") [] [[(bs "lang", bs "en")]; [(bs "idx", bs "7"); (bs "ID", bs "42")]]) as H.
  destruct H as (res & E & H).
  - by repeat constructor.
  - by apply (bool_decide_unpack _).
  - constructor.
  - repeat constructor; done.
  - exists res. split; [|exact H]. revert E. vm_compute. done.
Defined.

(** A pair that lacks its equals sign takes the one behind it along. *)
Example valueless_cookie_hides_next :
  ngx_http_parse_multi_header_lines [(bs "id; id=42" ++ [NUL], 9%nat)] (bs "id") 2 true =
  Some (NGX_DECLINED, None).
Proof. by vm_compute. Qed.

End UriArgsProof.
